(* ===== verification/_CoqProject ===== *)
-Q . S2P
Prelude.v
CMem.v
CString.v
Sort.v
Alloc.v
StrTo.v
BusObject.v
BusCodec.v
BusFilter.v
Ps2d.v
HashMap.v
Mutex.v
Printf.v
Stdio.v
Format.v
Rights.v
RightsInv.v
RightsOps.v
RightsNew.v
RightsSend.v
RightsTasks.v
Ipc.v
IpcSafe.v
IpcInv.v
IpcSpec.v
ListFacts.v
RbTree.v
RbTreeInv.v
RbTreeOps.v
RbTreeFind.v
RbTreeSpec.v
IntrusiveList.v
Pmm.v
PmmInv.v
PmmOps.v
PmmKernel.v
PmmSpec.v
Rcu.v
Frames.v
PmmFrames.v
Paging.v
PagingInv.v
PagingOps.v
PagingBooks.v
PagingSpec.v
PagingCow.v
PagingFree.v
PagingCopy.v
PagingSystem.v
PagingTheorems.v
Tlb.v
Regions.v
RegionsSpec.v
