(* ===== verification/Prelude.v ===== *)
(** * A verification of components of pmOS

    pmOS is a micro-kernel operating system: a kernel in C++, a C library that talks
    to it with system calls and messages between ports, and drivers and services
    that run as processes on top of that library.  This development models the
    parts of the kernel, of the C library and of one driver that carry data structures,
    wire formats and state machines, and proves what their callers rely on.

    ** The parts and the files that model them

    [LC] stands for src/libs/lib/libc/src/generic, [INC] for src/libs/sysroot/include,
    [KG] for src/kernel/generic.

    - [Prelude]: machine integers ([wrap], [swrap]), lists and the tactics shared by
      the files.
    - [CMem]: a byte-addressed memory, the state monad [M] over it with the outcomes
      [Ok], [Fault] (an access to an unmapped address) and [OutOfFuel], and the
      assertions about bytes and C strings in memory.
    - [CString]: LC/string.c, one definition per function, in [M].
    - [Sort]: LC/stdlib.h/qsort.c and bsearch.c over an array of elements.
    - [Alloc]: the allocator as the other components see it, and INC/pmos/vector.h.
      The heap records which blocks are live, an oracle decides which requests
      fail; freeing a block that is not live is a [Fault].  Leaks and double frees
      are visible in statements about the multiset of live blocks.
    - [StrTo]: LC/ctype.c, stdlib.c, stdlib.h/strtoll.c, strtoull.c and the wide
      versions in LC/wchar.h and LC/wctype.h.
    - [BusObject], [BusCodec], [BusFilter]: LC/pmos/pmbus_object.h/object.c and
      filter.c, the objects that drivers publish on the bus: the property table,
      its encoding as a message, and the filters that select objects.
    - [HashMap]: LC/hashmap.h/hashmap.c, the intrusive hash table.
    - [Mutex]: LC/pthread.h/pthread_mutex.c with the queue of waiters of
      waiter_struct.c, as a transition system of any number of threads.
    - [Printf], [Stdio], [Format]: LC/stdio.c.  [Printf] has the number formatters
      and the interpreter of format strings over any sink (the class [Sink]), with
      the bounded string as one instance; [Stdio] has the buffered [FILE] as the
      other; [Format] gives format strings a denotation.
    - [Ps2d]: src/userspace/ps2d/src/ports.c, configuration.c and keyboard.c, the
      keyboard driver: the state machine of a port, identification, the ring of
      commands and the scan code decoder.
    - [Rights], [Ipc]: the inter-process communication of the kernel.  [Rights] has
      KG/messaging/rights.cc and messaging.cc and KG/processes/task_group.cc: rights,
      messages, ports and task groups as objects of an explicit heap that name each
      other by address, one definition per method, in a monad [K] whose failure is a
      kernel that has stopped or used a deleted object.  [Ipc] has the handlers of
      KG/processes/syscalls.cc on top of them, the end of a task (tasks.cc), and the
      steps of the system: a call of a task, a callback of RCU, a new task, the end of
      a task.
    - [RightsInv], [RightsOps], [RightsNew], [RightsSend], [RightsTasks]: the
      invariant [inv] of that heap and, operation by operation, that it is kept.
      [IpcSafe]: the same for the handlers.  [IpcInv]: the invariant [sys_inv] of the
      system and that every step keeps it.  [IpcSpec]: what follows for the calls.
    - [RbTree]: INC/pmos/containers/intrusive_bst.hh, the intrusive red-black tree of the
      kernel's tables, on an explicit heap of nodes with the colour in the low bit of the
      parent pointer, as in the source.  [RbTreeInv]: what a heap represents as a tree, and
      zippers into it; [RbTreeOps], [RbTreeFind]: the operations on represented trees;
      [RbTreeSpec]: what callers see.
    - [IntrusiveList]: INC/pmos/containers/intrusive_list.hh, the circular list.
    - [Pmm]: KG/memory/pmm.cc and pmm.hh, the allocator of physical pages.  [PmmInv] says
      what blocks the marks in the page structures describe; [PmmOps], [PmmKernel]: each
      operation on them; [PmmSpec]: the books a client can keep.
    - [Rcu]: KG/memory/rcu.cc and rcu.hh, deferred reclamation, as a transition system in
      which each processor goes through the three parts of [quiet].
    - [Frames], [PmmFrames]: the class [FrameAllocator], what page tables need of an
      allocator of physical pages, and [Pmm] as its instance.
    - [Paging]: src/kernel/arch/x86_64/paging/x86_paging.cc, the page tables, with the
      reference counts of pages (pmm.cc) and the noting of pages to be dropped (paging.cc):
      entries are 64-bit words in a physical memory, operations are functions in a monad [X]
      whose failure is a failed assertion or an access to memory that is not there.
      [PagingInv]: the tree of tables below a root; [PagingOps]: walking and extending it;
      [PagingBooks]: the finite map it represents and the account of frames and references;
      [PagingSpec], [PagingCow], [PagingFree], [PagingCopy]: mapping and unmapping, copy on
      write, deletion, copying; [PagingSystem]: sequences of operations against operations on
      the map; [PagingTheorems]: what follows.
    - [Tlb]: the shootdown of translations of KG/memory/paging.cc ([finalize],
      [trigger_shootdown], [apply_cpu], [unapply_cpu]) with the switch of page tables of
      KG/sched/sched.cc, as a transition system of any number of processors with their
      translation caches.
    - [Regions], [RegionsSpec]: the regions of an address space, KG/memory/paging.cc and
      mem_regions.cc, as a list in the order of the tree of regions, and what each address
      stands for under it.
    - [ListFacts]: facts on filtered lists that several of the files use.

    Data is kept as the code has it: integers are [Z] with their wrap-around
    written out, structures are records, tagged unions inductive types.  Code
    that mutates memory is a function in a small state monad; the mutex is a step
    function of a state shared by its threads.

    ** What is proved

    - Strings and memory: the copying, comparing, searching and duplicating
      functions return what the C standard says of the bytes in memory, change
      nothing else and terminate ([memmove_correct], [strcmp_correct],
      [strstr_correct], [strtok_r_correct], [strncpy_correct], [strndup_correct]).
    - [qsort] produces a sorted permutation of every array but of those of two
      elements and [bsearch] finds an element exactly when there is one.
    - Bus objects: the sorted table refines a finite map from names to values with
      exact ownership of all heap blocks, on the failure paths as well; encoding
      fills exactly the computed size and decoding gives the object back; the
      decoder terminates on every message.  Filters: matching is the boolean
      meaning of the filter; duplication, release and encoding are exact.
    - Hash table: adding, deleting, searching and iterating are the operations of
      a set of entries, through growth and shrinking.
    - Mutex: mutual exclusion in every interleaving, by an invariant that says who
      holds the right to enter (an owner, a thread that hands the mutex over, or a
      thread with a message), what the waiters' list is and what the counter counts.
    - Formatted output: the interpreter terminates, the bounded string and the
      buffered file receive the text the format denotes, the number formatters stay
      in their buffers and the parsers of [StrTo] read back what they print.
    - Driver: no byte sequence from a device that keeps to the protocol leads it
      out of an array or through a null pointer; the ring is a queue of fifteen
      commands; acknowledgements and scan codes are handled as intended.
    - Kernel IPC: from the state after start-up, whatever calls tasks make, whenever
      dead objects are reclaimed and whichever allocations fail, every call returns
      ([calls_return], with the exceptions it names), every live right is in one place
      that knows it ([live_rights_placed]), every object has the shape of its type
      ([objects_well_formed]) and reclamation ends with nothing dead left
      ([reclamation_completes]).  A message is sent whole or not at all, its receiver
      learns what it is, and the rights in it arrive ([send_all_or_nothing],
      [receiver_learns], [sent_rights_arrive]); a right that ends leaves every table
      and notifies exactly those that wait for it ([destroy_ends_right]); a task that
      ends leaves nothing behind ([exit_leaves_nothing]).
    - Containers: inserting and removing keep the red-black tree balanced and ordered and
      are insertion into and deletion from a sorted list of keys ([tree_is_ordered_list]);
      searches take at most 2 log2 (n + 1) steps ([find_correct]); bounds and iterators are
      those of the list ([bounds_correct], [iterators_correct]); the tree implements the
      tables and the circular list the lists that [Rights] is written with
      ([tree_implements_table], [lists_correct]).
    - Physical memory: every request is answered with pages that were free, changes
      nothing else, and what is freed becomes available again and joins its neighbours
      ([allocator_keeps_books]); no page is free, held and waiting at the same time
      ([books_disjoint]); a request succeeds when a free block of its order exists
      ([get_succeeds]); structures and addresses translate into each other
      ([address_roundtrip]).

    - Reclamation: callbacks that wait are made when processors keep being quiet
      ([callbacks_run]), each once ([callbacks_conserved]), and with at most two processors
      not before every processor has been quiet ([grace_period_two]); with three this fails
      ([three_processors_premature]).
    - Page tables: the operations refine those on a finite map from processes and addresses
      to entries, with every frame and reference accounted for ([paging_refines]); what is
      mapped is found ([map_then_lookup]), what is unmapped is noted for the shootdown
      ([unmap_flushes]), a write to a shared page gives a page of its own
      ([write_isolated]), a copied range shares its pages read-only ([fork_shares]) and a
      deleted table returns all frames ([delete_returns_all]).
    - Shootdown: once [finalize] is through, no processor that runs with the page table has a
      translation of an unmapped page ([unmapped_everywhere]), and the wait can always end
      ([shootdown_completes]).
    - Regions: finding a spot, creating, releasing and deleting change what addresses stand
      for in the range asked for and nowhere else ([find_region_spot_correct],
      [create_exact], [release_exact], [delete_exact]).  Releasing does so when no region
      starts inside the range and no mapped object goes on after it; the other cases are
      wrong in the code ([release_skips_inner], [hole_in_reference],
      [release_head_of_reference]).

    Lemmas that evaluate a definition on a concrete input where the code does not
    do what its comments or the C standard say are kept next to the components
    (for example [Sort.qsort_two_unsorted], [Printf.trailing_percent],
    [Mutex.init_failure_breaks_exclusion]).

    ** Bounds and fuel

    Loops that the code does not bound take fuel.  For strings the fuel that
    suffices is the length of the string with its NUL; for the interpreter of
    format strings the length of the format; for the hash table the number of
    entries in the store, which the definitions take themselves; for [qsort] the
    length of the array.  The theorems state results for enough fuel or any larger
    amount, never only for runs that return.  The loops of the kernel over the rights
    of a port or group, the ports of a task and the messages of a port take as fuel the
    size of what they empty, and fail when it does not suffice; the theorems on them
    are that they return.  The loops of the red-black tree take the number of nodes in the
    heap, and [free_page] the number of page structures.  The loops over page tables are
    bounded by their 512 entries and the number of levels; [pages_in] gives the pages of a
    range.  The filter decoder recurses on the
    length of the message.  Sizes are 64 bits wide; where a theorem needs that a
    sum of sizes does not wrap around, it says so.

    ** What is not modelled

    Of the kernel: page faults and the pages of memory objects, so that [Regions] says what an
    address stands for and [Paging] what is mapped, without the step from one to the other;
    the kernel's half of the page tables, which tables share; the window through which tables
    are accessed; the other architectures; scheduling, interrupts, timers and start-up; the
    pool of memory used during start-up.  The page structures with the reference counts of
    [Paging] are kept apart from those of [Pmm], and a page whose last reference is dropped is
    free at once there, while the code defers this through RCU.  In [Tlb] a processor does not
    answer an interrupt inside [switch_to], which the lock of RCU makes possible in the code;
    processors are neither parked nor woken.  Ends of regions are numbers that do not wrap
    around.  Interrupt and timer rights; locks, so that an operation of [Rights] is one step and a system call
    is a sequence of them without others in between; waking up the tasks that wait on a
    port.  Identifiers of the kernel are 64 bits wide, counted up from 0, and unbounded
    here.  The boot loader, the other drivers and services, the allocator itself and
    floating point.  Of stdio.c: input, seeking and the list of open
    files; streams are used by one thread.  Of the threads library: everything but
    mutexes; memory is sequentially consistent, as the atomic accesses of
    pthread_mutex.c are but for the stores of the owner.  Of the driver: the message
    loop and the timer's system calls. *)

From stdpp Require Import base list numbers gmap sorting.
From Stdlib Require Import Lia ZArith.

#[global] Open Scope Z_scope.

(** ** Machine integers *)

(** Unsigned wrap-around at [w] bits. *)
Definition wrap (w x : Z) : Z := x mod 2 ^ w.

(** Two's complement reading of the low [w] bits. *)
Definition swrap (w x : Z) : Z :=
  let u := x mod 2 ^ w in
  if u <? 2 ^ (w - 1) then u else u - 2 ^ w.

Definition SIZE_MAX : Z := 2 ^ 64 - 1.

Lemma wrap_small (w x : Z) : 0 <= x < 2 ^ w -> wrap w x = x.
Proof. intros H. unfold wrap. by apply Z.mod_small. Qed.

Lemma wrap_range (w x : Z) : 0 <= w -> 0 <= wrap w x < 2 ^ w.
Proof. intros H. unfold wrap. apply Z.mod_pos_bound. lia. Qed.

Lemma swrap_small (w x : Z) :
  0 < w -> - 2 ^ (w - 1) <= x < 2 ^ (w - 1) -> swrap w x = x.
Proof.
  intros Hw Hx. unfold swrap.
  assert (E : 2 ^ w = 2 * 2 ^ (w - 1)).
  { rewrite <- Z.pow_succ_r by lia. f_equal. lia. }
  destruct (Z.le_gt_cases 0 x) as [Hp|Hn].
  - rewrite Z.mod_small by lia. destruct (Z.ltb_spec x (2 ^ (w - 1))); lia.
  - assert (Hm : x mod 2 ^ w = x + 2 ^ w).
    { symmetry. apply (Z.mod_unique_pos _ _ (-1)); lia. }
    rewrite Hm. destruct (Z.ltb_spec (x + 2 ^ w) (2 ^ (w - 1))); lia.
Qed.

Lemma swrap_range (w x : Z) : 0 < w -> - 2 ^ (w - 1) <= swrap w x < 2 ^ (w - 1).
Proof.
  intros Hw. unfold swrap. assert (E : 2 ^ w = 2 * 2 ^ (w - 1)) by (rewrite <- Z.pow_succ_r by lia; f_equal; lia).
  pose proof (Z.mod_pos_bound x (2 ^ w) ltac:(lia)). destruct (Z.ltb_spec (x mod 2 ^ w) (2 ^ (w - 1))); lia.
Qed.

Lemma swrap_wrap (w x : Z) : 0 <= w -> swrap w (wrap w x) = swrap w x.
Proof. intros H. unfold swrap, wrap. by rewrite Z.mod_mod by lia. Qed.

Lemma wrap_swrap (w x : Z) : 0 <= w -> wrap w (swrap w x) = wrap w x.
Proof.
  intros H. unfold swrap, wrap. destruct (_ <? _); [by rewrite Z.mod_mod by lia|].
  rewrite <- Zminus_mod_idemp_r, Z_mod_same_full, Z.sub_0_r. by rewrite Z.mod_mod by lia.
Qed.

Lemma swrap_congr (w x y : Z) : wrap w x = wrap w y -> swrap w x = swrap w y.
Proof. unfold swrap, wrap. by intros ->. Qed.

Lemma wrap_opp_swrap (w x : Z) : 0 <= w -> wrap w (- swrap w x) = wrap w (- x).
Proof.
  intros H. rewrite <- !Z.sub_0_l. unfold wrap. rewrite <- Zminus_mod_idemp_r.
  change (swrap w x mod 2 ^ w) with (wrap w (swrap w x)). rewrite wrap_swrap by done.
  unfold wrap. by rewrite Zminus_mod_idemp_r.
Qed.

(** [ALIGN_TO(x, 8)] of object.c on a 64-bit [size_t]. *)
Definition align8 (x : Z) : Z := Z.land (wrap 64 (x + 7)) (wrap 64 (Z.lnot 7)).

Lemma align8_spec (x : Z) : 0 <= x -> x + 7 < 2 ^ 64 -> align8 x = (x + 7) / 8 * 8.
Proof.
  intros H0 H1. unfold align8. rewrite (wrap_small 64 (x + 7)) by lia.
  assert (E : wrap 64 (Z.lnot 7) = Z.shiftl (Z.ones 61) 3) by reflexivity.
  rewrite E. set (y := x + 7) in *.
  transitivity (Z.shiftl (Z.shiftr y 3) 3).
  - apply Z.bits_inj'. intros n Hn.
    rewrite Z.land_spec, Z.shiftl_spec, Z.shiftl_spec by lia.
    destruct (Z.ltb_spec n 3) as [Hl|Hl].
    + rewrite !(Z.testbit_neg_r _ (n - 3)) by lia. by rewrite andb_false_r.
    + rewrite Z.shiftr_spec by lia. replace (n - 3 + 3) with n by lia.
      destruct (Z.ltb_spec n 64) as [Hk|Hk].
      * rewrite Z.ones_spec_low by lia. by rewrite andb_true_r.
      * rewrite Z.ones_spec_high by lia. rewrite andb_false_r. symmetry.
        destruct (decide (y = 0)) as [->|Hy]; [apply Z.bits_0|].
        apply Z.bits_above_log2; [lia|]. apply Z.log2_lt_pow2; [lia|].
        apply Z.lt_le_trans with (2 ^ 64); [lia|]. apply Z.pow_le_mono_r; lia.
  - rewrite Z.shiftl_mul_pow2, Z.shiftr_div_pow2 by lia. reflexivity.
Qed.

Lemma align8_bounds (x : Z) :
  0 <= x -> x + 7 < 2 ^ 64 -> x <= align8 x <= x + 7 /\ align8 x mod 8 = 0.
Proof.
  intros H0 H1. rewrite align8_spec by lia.
  pose proof (Z.div_mod (x + 7) 8 ltac:(lia)).
  pose proof (Z.mod_pos_bound (x + 7) 8 ltac:(lia)).
  split; [lia|]. by rewrite Z.mod_mul by lia.
Qed.

(** ** Bytes and little-endian fields

    A byte is a [Z] in [0, 256); a C string is the list of its bytes before
    the terminating NUL, so none of them is zero. *)

Definition is_byte (b : Z) : Prop := 0 <= b < 256.
Definition is_char (b : Z) : Prop := 0 < b < 256.

(** The value of a C string: a list of non-zero bytes. *)
Notation cstring := (list Z).
Definition str_ok (s : cstring) : Prop := Forall is_char s.

(** The [n] bytes of [v] as a little-endian machine stores them. *)
Fixpoint le_bytes (n : nat) (v : Z) : list Z :=
  match n with
  | O => []
  | S n => v mod 256 :: le_bytes n (v / 256)
  end.

(** The unsigned value of little-endian bytes. *)
Fixpoint le_value (bs : list Z) : Z :=
  match bs with
  | [] => 0
  | b :: bs => b + 256 * le_value bs
  end.

Lemma length_le_bytes n v : length (le_bytes n v) = n.
Proof. revert v; induction n as [|n IH]; intros v; simpl; [done|by rewrite IH]. Qed.

Lemma le_value_bytes n v : le_value (le_bytes n v) = wrap (8 * Z.of_nat n) v.
Proof.
  revert v; induction n as [|n IH]; intros v; unfold wrap.
  - simpl. by rewrite Z.mod_1_r.
  - cbn [le_bytes le_value]. rewrite IH. unfold wrap.
    replace (8 * Z.of_nat (S n)) with (8 + 8 * Z.of_nat n) by lia.
    rewrite Z.pow_add_r by lia. rewrite Z.rem_mul_r by lia. reflexivity.
Qed.

Lemma le_bytes_byte n v : Forall is_byte (le_bytes n v).
Proof.
  revert v; induction n as [|n IH]; intros v; simpl; constructor; auto.
  apply Z.mod_pos_bound. lia.
Qed.

(** ** Slices of lists indexed by [Z]

    Buffers are lists of bytes; offsets are the code's [size_t] values. *)

Definition zlen {A} (l : list A) : Z := Z.of_nat (length l).
Definition ztake {A} (n : Z) (l : list A) : list A := take (Z.to_nat n) l.
Definition zdrop {A} (n : Z) (l : list A) : list A := drop (Z.to_nat n) l.

Lemma zlen_nonneg {A} (l : list A) : 0 <= zlen l.
Proof. unfold zlen. lia. Qed.
Lemma zlen_nil {A} : zlen (@nil A) = 0.
Proof. done. Qed.
Lemma zlen_cons {A} (x : A) l : zlen (x :: l) = 1 + zlen l.
Proof. unfold zlen. simpl. lia. Qed.
Lemma zlen_app {A} (l k : list A) : zlen (l ++ k) = zlen l + zlen k.
Proof. unfold zlen. rewrite length_app. lia. Qed.
Lemma zlen_replicate {A} n (x : A) : zlen (replicate n x) = Z.of_nat n.
Proof. unfold zlen. by rewrite length_replicate. Qed.
Lemma zlen_le_bytes n v : zlen (le_bytes n v) = Z.of_nat n.
Proof. unfold zlen. by rewrite length_le_bytes. Qed.
Lemma ztake_app {A} (l k : list A) n : n = zlen l -> ztake n (l ++ k) = l.
Proof. intros ->. unfold ztake, zlen. rewrite Nat2Z.id. apply take_app_length. Qed.
Lemma zdrop_app {A} (l k : list A) n : n = zlen l -> zdrop n (l ++ k) = k.
Proof. intros ->. unfold zdrop, zlen. rewrite Nat2Z.id. apply drop_app_length. Qed.
Lemma zdrop_0 {A} (l : list A) : zdrop 0 l = l.
Proof. done. Qed.
Lemma zdrop_zdrop {A} (l : list A) a b :
  0 <= a -> 0 <= b -> zdrop a (zdrop b l) = zdrop (b + a) l.
Proof. intros. unfold zdrop. rewrite drop_drop. f_equal. lia. Qed.
Lemma zlen_zdrop {A} (l : list A) n : 0 <= n <= zlen l -> zlen (zdrop n l) = zlen l - n.
Proof. unfold zlen, zdrop. rewrite length_drop. lia. Qed.
Lemma zlen_ztake {A} (l : list A) n : 0 <= n <= zlen l -> zlen (ztake n l) = n.
Proof. unfold zlen, ztake. rewrite length_take. lia. Qed.

Lemma lookup_middle_eq {A} (l l1 l2 : list A) x n :
  l = l1 ++ x :: l2 -> n = length l1 -> l !! n = Some x.
Proof. intros -> ->. by rewrite list_lookup_middle. Qed.

(** ** Automation *)

Create HintDb zlist.
#[export] Hint Rewrite @zlen_nil @zlen_cons @zlen_app @zlen_replicate zlen_le_bytes
  @zdrop_0 : zlist.
#[export] Hint Resolve zlen_nonneg : zlist.

(** Normalise the lengths in the goal and the context, then do arithmetic. *)
Ltac zlen_simpl := autorewrite with zlist in *.
Ltac zl :=
  autorewrite with zlist in *;
  repeat match goal with
    | |- context [zlen ?l] =>
        lazymatch goal with
        | _ : 0 <= zlen l |- _ => fail
        | _ => pose proof (zlen_nonneg l)
        end
    | _ : context [zlen ?l] |- _ =>
        lazymatch goal with
        | _ : 0 <= zlen l |- _ => fail
        | _ => pose proof (zlen_nonneg l)
        end
    end; lia.

(** Split every boolean test of the goal into its two cases. *)
Ltac case_if :=
  match goal with
  | |- context [if ?b then _ else _] =>
      lazymatch b with
      | Z.ltb ?x ?y => destruct (Z.ltb_spec x y)
      | Z.leb ?x ?y => destruct (Z.leb_spec x y)
      | Z.eqb ?x ?y => destruct (Z.eqb_spec x y)
      | Nat.ltb ?x ?y => destruct (Nat.ltb_spec x y)
      | Nat.leb ?x ?y => destruct (Nat.leb_spec x y)
      | Nat.eqb ?x ?y => destruct (Nat.eqb_spec x y)
      | _ => destruct b eqn:?
      end
  end.

(** ** Comparison functions

    The contract of a C comparator ([strcmp], the argument of [qsort] and
    [bsearch]): only the sign of the result matters, and the sign is that of a
    total preorder. *)
Class CmpOrder {A} (P : A -> Prop) (cmp : A -> A -> Z) : Prop := {
  cmp_refl x : P x -> cmp x x = 0;
  cmp_antisym x y : P x -> P y -> Z.sgn (cmp y x) = - Z.sgn (cmp x y);
  cmp_trans x y z : P x -> P y -> P z -> cmp x y <= 0 -> cmp y z <= 0 -> cmp x z <= 0
}.

Section CmpOrder.
Context {A : Type} {P : A -> Prop} {cmp : A -> A -> Z} `{!CmpOrder P cmp}.

Lemma cmp_flip_lt x y : P x -> P y -> cmp x y < 0 <-> 0 < cmp y x.
Proof.
  intros Hx Hy. pose proof (cmp_antisym x y Hx Hy) as H.
  split; intros Hl.
  - rewrite (Z.sgn_neg (cmp x y)) in H by lia.
    destruct (Z.sgn_spec (cmp y x)) as [[]|[[]|[]]]; lia.
  - rewrite (Z.sgn_pos (cmp y x)) in H by lia.
    destruct (Z.sgn_spec (cmp x y)) as [[]|[[]|[]]]; lia.
Qed.

Lemma cmp_flip_eq x y : P x -> P y -> cmp x y = 0 -> cmp y x = 0.
Proof.
  intros Hx Hy H. pose proof (cmp_antisym x y Hx Hy) as E.
  rewrite H in E. simpl in E. apply Z.sgn_null_iff. lia.
Qed.

Lemma cmp_flip_le x y : P x -> P y -> 0 <= cmp x y -> cmp y x <= 0.
Proof.
  intros Hx Hy H. destruct (Z.le_gt_cases (cmp y x) 0) as [?|Hg]; [done|].
  apply (cmp_flip_lt x y) in Hg; [lia|done|done].
Qed.

Lemma cmp_lt_le_trans x y z :
  P x -> P y -> P z -> cmp x y < 0 -> cmp y z <= 0 -> cmp x z < 0.
Proof.
  intros Hx Hy Hz H1 H2. destruct (Z.lt_ge_cases (cmp x z) 0) as [?|Hg]; [done|].
  apply cmp_flip_le in Hg; [|done|done].
  pose proof (cmp_trans y z x Hy Hz Hx H2 Hg).
  apply (cmp_flip_lt x y) in H1; [lia|done|done].
Qed.

Lemma cmp_le_lt_trans x y z :
  P x -> P y -> P z -> cmp x y <= 0 -> cmp y z < 0 -> cmp x z < 0.
Proof.
  intros Hx Hy Hz H1 H2. destruct (Z.lt_ge_cases (cmp x z) 0) as [?|Hg]; [done|].
  apply cmp_flip_le in Hg; [|done|done].
  pose proof (cmp_trans z x y Hz Hx Hy Hg H1).
  apply (cmp_flip_lt y z) in H2; [lia|done|done].
Qed.
End CmpOrder.

(** ** Bisection

    The loop [while (low < high) { mid = low + (high - low) / 2; ... }] that the
    library writes three times; [right mid] is the test that moves [low], and
    [None] an access outside the array or exhausted fuel. *)
Fixpoint bisect (fuel : nat) (right : nat -> option bool) (low high : nat) : option nat :=
  match fuel with
  | O => None
  | S fuel =>
      if (low <? high)%nat then
        let mid := (low + (high - low) / 2)%nat in
        r ← right mid;
        if r : bool then bisect fuel right (mid + 1) high else bisect fuel right low mid
      else Some low
  end.

(** When the test is true on an initial segment [0, k) of the range and false
    after it, the loop stops at [k], within [log2] of the length steps. *)
Lemma bisect_ok fuel right low high k :
  (low <= k <= high)%nat -> (high - low < 2 ^ fuel)%nat ->
  (forall i, (low <= i < high)%nat -> right i = Some (bool_decide (i < k)%nat)) ->
  bisect (S fuel) right low high = Some k.
Proof.
  revert low high; induction fuel as [|fuel IH]; intros low high Hk Hf Hr.
  - simpl in Hf. cbn [bisect]. case_if; [lia|]. f_equal. lia.
  - remember (S fuel) as f eqn:Ef. cbn [bisect]. case_if; [|f_equal; lia]. subst f.
    pose proof (Nat.div_mod (high - low) 2 ltac:(lia)) as Hd.
    pose proof (Nat.mod_upper_bound (high - low) 2 ltac:(lia)) as Hm.
    set (h := ((high - low) / 2)%nat) in *. simpl in Hf.
    rewrite Hr by lia. cbn [mbind option_bind]. case_bool_decide.
    + apply IH; [lia|lia|intros; apply Hr; lia].
    + apply IH; [lia|lia|intros; apply Hr; lia].
Qed.

(** A test that is monotone along a list holds exactly on an initial segment. *)
Lemma mono_split {A} (f : A -> bool) (l : list A) :
  (forall i j x y, (i < j)%nat -> l !! i = Some x -> l !! j = Some y -> f y = true -> f x = true) ->
  exists lo hi, l = lo ++ hi /\ Forall (fun x => f x = true) lo /\ Forall (fun x => f x = false) hi.
Proof.
  induction l as [|x l IH]; intros Hm; [by exists [], []|].
  destruct (f x) eqn:E.
  - destruct IH as (lo & hi & -> & Hlo & Hhi).
    { intros i j a b Hij Ha Hb. apply (Hm (S i) (S j) a b); [lia|done|done]. }
    exists (x :: lo), hi. split; [done|]. split; [by constructor|done].
  - exists [], (x :: l). split; [done|]. split; [constructor|]. constructor; [done|].
    apply Forall_lookup. intros i y Hy. destruct (f y) eqn:F; [|done].
    rewrite (Hm O (S i) x y) in E; [done|lia|done|done|done].
Qed.

Lemma bisect_split {A} (f : A -> bool) (l lo hi : list A) :
  l = lo ++ hi -> Forall (fun x => f x = true) lo -> Forall (fun x => f x = false) hi ->
  bisect (S (length l)) (fun i => x ← l !! i; Some (f x)) 0 (length l) = Some (length lo).
Proof.
  intros -> Hlo Hhi. apply bisect_ok.
  - rewrite length_app. lia.
  - rewrite Nat.sub_0_r. apply Nat.pow_gt_lin_r. lia.
  - intros i Hi. destruct (lookup_lt_is_Some_2 (lo ++ hi) i) as [x Hx]; [lia|].
    rewrite Hx. cbn [mbind option_bind]. f_equal. rewrite Forall_lookup in Hlo, Hhi.
    destruct (decide (i < length lo)%nat) as [Hl|Hl].
    + rewrite bool_decide_eq_true_2 by done. rewrite lookup_app_l in Hx by done. eauto.
    + rewrite bool_decide_eq_false_2 by done. rewrite lookup_app_r in Hx by lia. eauto.
Qed.

Lemma sorted_lookup {A} (R : relation A) (l : list A) i j x y :
  StronglySorted R l -> (i < j)%nat -> l !! i = Some x -> l !! j = Some y -> R x y.
Proof.
  intros Hs. revert i j; induction Hs as [|a l Hs IH Hf]; intros i j Hij Hx Hy; [done|].
  destruct j as [|j]; [lia|]. destruct i as [|i]; simpl in *.
  - simplify_eq. rewrite Forall_lookup in Hf. eauto.
  - apply (IH i j); [lia|done|done].
Qed.
