(* ===== verification/CMem.v ===== *)
(** * The C memory of the libc routines

    A byte-addressed memory, the state monad in which the routines of
    string.c are written, and the assertions ("these bytes are here", "a C
    string starts here") their specifications use.  A load or a store of an
    unmapped address is the explicit outcome [Fault]; a loop that has used up
    its fuel is [OutOfFuel].  A pointer is a [Z]; a pointer that may be NULL is
    an [option Z]. *)

From stdpp Require Import base list numbers gmap.
From S2P Require Import Prelude.

Inductive res (A : Type) : Type :=
| Ok (a : A)
| Fault
| OutOfFuel.
Arguments Ok {A} a.
Arguments Fault {A}.
Arguments OutOfFuel {A}.

Abbreviation mem := (gmap Z Z).

Definition M (A : Type) : Type := mem -> res (A * mem).

#[global] Instance M_ret : MRet M := fun A a m => Ok (a, m).
#[global] Instance M_bind : MBind M := fun A B k c m =>
  match c m with
  | Ok (a, m') => k a m'
  | Fault => Fault
  | OutOfFuel => OutOfFuel
  end.

Definition out_of_fuel {A} : M A := fun _ => OutOfFuel.

(** [*p] *)
Definition load (p : Z) : M Z := fun m =>
  match m !! p with Some b => Ok (b, m) | None => Fault end.

(** [*p = b] *)
Definition store (p b : Z) : M unit := fun m =>
  match m !! p with Some _ => Ok (tt, <[p := b]> m) | None => Fault end.

(** [p + i] for a [size_t] [i]. *)
Notation "p +! i" := (p + Z.of_nat i) (at level 50, left associativity) : Z_scope.

(** ** Assertions *)

(** The bytes [bs] are stored from address [p]. *)
Definition bytes_at (m : mem) (p : Z) (bs : list Z) : Prop :=
  forall i b, bs !! i = Some b -> m !! (p +! i) = Some b.

(** [n] bytes are mapped from address [p]. *)
Definition mapped (m : mem) (p : Z) (n : nat) : Prop :=
  forall i, (i < n)%nat -> is_Some (m !! (p +! i)).

(** A NUL-terminated string with value [s] starts at [p]. *)
Definition cstr_at (m : mem) (p : Z) (s : cstring) : Prop :=
  bytes_at m p (s ++ [0]) /\ str_ok s.

(** The memory [m] with the bytes [bs] written from [p]. *)
Fixpoint write_bytes (m : mem) (p : Z) (bs : list Z) : mem :=
  match bs with
  | [] => m
  | b :: bs => write_bytes (<[p := b]> m) (p + 1) bs
  end.

(** ** Rules of the monad *)

Lemma bind_ok {A B} (c : M A) (k : A -> M B) m a m' :
  c m = Ok (a, m') -> (c ≫= k) m = k a m'.
Proof. intros H. unfold mbind, M_bind. by rewrite H. Qed.

Lemma load_ok m p b : m !! p = Some b -> load p m = Ok (b, m).
Proof. intros H. unfold load. by rewrite H. Qed.

Lemma store_ok m p b : is_Some (m !! p) -> store p b m = Ok (tt, <[p := b]> m).
Proof. intros [v H]. unfold store. by rewrite H. Qed.

Lemma bind_load {B} (k : Z -> M B) m p b :
  m !! p = Some b -> (load p ≫= k) m = k b m.
Proof. intros H. by apply bind_ok, load_ok. Qed.

Lemma bind_store {B} (k : unit -> M B) m p b :
  is_Some (m !! p) -> (store p b ≫= k) m = k tt (<[p := b]> m).
Proof. intros H. by apply bind_ok, store_ok. Qed.

(** ** Lemmas on the assertions *)

Lemma bytes_at_nil m p : bytes_at m p [].
Proof. intros i b H. by rewrite lookup_nil in H. Qed.

Lemma bytes_at_cons m p b bs :
  bytes_at m p (b :: bs) <-> m !! p = Some b /\ bytes_at m (p + 1) bs.
Proof.
  split.
  - intros H. split.
    + specialize (H 0%nat b eq_refl). by rewrite Z.add_0_r in H.
    + intros i c Hc. specialize (H (S i) c Hc).
      by replace (p + 1 +! i) with (p +! S i) by lia.
  - intros [H1 H2] [|i] c Hc; simpl in Hc.
    + simplify_eq. by rewrite Z.add_0_r.
    + replace (p +! S i) with (p + 1 +! i) by lia. by apply H2.
Qed.

Lemma bytes_at_app m p bs cs :
  bytes_at m p (bs ++ cs) <-> bytes_at m p bs /\ bytes_at m (p +! length bs) cs.
Proof.
  revert p; induction bs as [|b bs IH]; intros p; simpl.
  - rewrite Z.add_0_r. split; [intros H; split; [apply bytes_at_nil|done]|tauto].
  - rewrite !bytes_at_cons, IH. replace (p +! S (length bs)) with (p + 1 +! length bs) by lia.
    tauto.
Qed.

Lemma bytes_at_mapped m p bs : bytes_at m p bs -> mapped m p (length bs).
Proof.
  intros H i Hi. destruct (lookup_lt_is_Some_2 bs i Hi) as [b Hb].
  exists b. by apply H.
Qed.

Lemma mapped_S m p n : mapped m p (S n) <-> is_Some (m !! p) /\ mapped m (p + 1) n.
Proof.
  split.
  - intros H. split.
    + specialize (H 0%nat ltac:(lia)). by rewrite Z.add_0_r in H.
    + intros i Hi. specialize (H (S i) ltac:(lia)).
      by replace (p + 1 +! i) with (p +! S i) by lia.
  - intros [H1 H2] [|i] Hi.
    + by rewrite Z.add_0_r.
    + replace (p +! S i) with (p + 1 +! i) by lia. apply H2. lia.
Qed.

Lemma mapped_insert m p n q b : mapped m p n -> mapped (<[q := b]> m) p n.
Proof.
  intros H i Hi. destruct (decide (q = p +! i)) as [->|Hne].
  - rewrite lookup_insert_eq. eauto.
  - rewrite lookup_insert_ne by done. by apply H.
Qed.

Lemma mapped_mono m p n k : (k <= n)%nat -> mapped m p n -> mapped m p k.
Proof. intros Hk H i Hi. apply H. lia. Qed.

Lemma bytes_at_insert_out m p bs q b :
  q < p \/ p +! length bs <= q -> bytes_at m p bs -> bytes_at (<[q := b]> m) p bs.
Proof.
  intros Hq H i c Hc. pose proof (lookup_lt_Some _ _ _ Hc).
  rewrite lookup_insert_ne by lia. by apply H.
Qed.

Lemma cstr_at_nil m p : cstr_at m p [] <-> m !! p = Some 0.
Proof.
  unfold cstr_at. simpl. rewrite bytes_at_cons. split; [tauto|].
  intros H. split; [split; [done|apply bytes_at_nil]|constructor].
Qed.

Lemma cstr_at_cons m p c s :
  cstr_at m p (c :: s) <-> m !! p = Some c /\ is_char c /\ cstr_at m (p + 1) s.
Proof.
  unfold cstr_at, str_ok. simpl. rewrite bytes_at_cons, Forall_cons. tauto.
Qed.

Lemma cstr_at_app m p s t :
  cstr_at m p (s ++ t) -> cstr_at m (p +! length s) t.
Proof.
  intros [H1 H2]. unfold str_ok in *. rewrite <- app_assoc, bytes_at_app in H1.
  rewrite Forall_app in H2. split; tauto.
Qed.

Lemma cstr_at_ok m p s : cstr_at m p s -> str_ok s.
Proof. by intros [_ H]. Qed.

(** The first byte of a NUL-terminated string. *)
Definition str_head (s : cstring) : Z := match s with [] => 0 | c :: _ => c end.

Lemma cstr_at_head m p s : cstr_at m p s -> m !! p = Some (str_head s).
Proof.
  destruct s; [by rewrite cstr_at_nil|]. rewrite cstr_at_cons. by intros [? _].
Qed.

(** Lookups of a block write. *)
Lemma lookup_write_bytes_out m p bs q :
  q < p \/ p +! length bs <= q -> write_bytes m p bs !! q = m !! q.
Proof.
  revert m p; induction bs as [|b bs IH]; intros m p Hq; simpl in *; [done|].
  rewrite IH by lia. by rewrite lookup_insert_ne by lia.
Qed.

Lemma write_bytes_at m p bs : bytes_at (write_bytes m p bs) p bs.
Proof.
  revert m p; induction bs as [|b bs IH]; intros m p; [apply bytes_at_nil|].
  simpl. rewrite bytes_at_cons. split; [|apply IH].
  rewrite lookup_write_bytes_out by lia. by rewrite lookup_insert_eq.
Qed.

Lemma lookup_write_bytes_in m p bs i b :
  bs !! i = Some b -> write_bytes m p bs !! (p +! i) = Some b.
Proof. apply write_bytes_at. Qed.

Lemma write_bytes_app m p bs cs :
  write_bytes m p (bs ++ cs) = write_bytes (write_bytes m p bs) (p +! length bs) cs.
Proof.
  revert m p; induction bs as [|b bs IH]; intros m p; simpl; [by rewrite Z.add_0_r|].
  rewrite IH. f_equal. lia.
Qed.

Lemma write_bytes_mapped m p bs q n : mapped m q n -> mapped (write_bytes m p bs) q n.
Proof.
  revert m p; induction bs as [|b bs IH]; intros m p H; simpl; [done|].
  by apply IH, mapped_insert.
Qed.

Lemma bytes_at_write_out m p bs q cs :
  q +! length bs <= p \/ p +! length cs <= q ->
  bytes_at m p cs -> bytes_at (write_bytes m q bs) p cs.
Proof.
  intros Hd H i c Hc. pose proof (lookup_lt_Some _ _ _ Hc).
  rewrite lookup_write_bytes_out by lia. by apply H.
Qed.

Lemma cstr_at_write_out m p s q bs :
  q +! length bs <= p \/ p +! S (length s) <= q ->
  cstr_at m p s -> cstr_at (write_bytes m q bs) p s.
Proof.
  intros Hd [H1 H2]. split; [|done]. apply bytes_at_write_out; [|done].
  rewrite length_app. simpl. lia.
Qed.

(** A value is determined by the memory: two strings at one address agree. *)
Lemma cstr_at_inj m p s t : cstr_at m p s -> cstr_at m p t -> s = t.
Proof.
  revert p t; induction s as [|c s IH]; intros p [|d t]; rewrite ?cstr_at_nil, ?cstr_at_cons.
  - done.
  - unfold is_char. intros H (H2 & H3 & _). rewrite H in H2. simplify_eq. lia.
  - unfold is_char. intros (H2 & H3 & _) H. rewrite H in H2. simplify_eq. lia.
  - intros (H1 & _ & H2) (H3 & _ & H4). rewrite H1 in H3. simplify_eq. f_equal. eauto.
Qed.

Create HintDb cmem.
#[export] Hint Resolve bytes_at_nil mapped_insert write_bytes_mapped bytes_at_mapped : cmem.

(** One step of a routine: run the next load or store. *)
Ltac mload := erewrite bind_load; [|eassumption || eauto].
Ltac mstore := rewrite bind_store; [|eauto with cmem].

(** Close an equation between two outcomes up to arithmetic. *)
Ltac ok_lia := cbv beta delta [mret M_ret]; repeat first [done | lia | f_equal].

(** A region none of whose bytes is in a block of positive size lies on one side of it. *)
Lemma region_disjoint p d n k :
  (0 < k)%nat -> (forall i, (i < n)%nat -> p +! i < d \/ d +! k <= p +! i) ->
  p +! n <= d \/ d +! k <= p \/ n = O.
Proof.
  intros Hk. induction n as [|n IH]; intros H; [tauto|].
  pose proof (H n ltac:(lia)). destruct IH as [?|[?|?]]; [intros; apply H; lia|lia|lia|subst; lia].
Qed.

(** ** Decision procedures

    The assertions are decidable, so they can be evaluated on a concrete memory. *)

Fixpoint bytes_atb (m : mem) (p : Z) (bs : list Z) : bool :=
  match bs with
  | [] => true
  | b :: bs => bool_decide (m !! p = Some b) && bytes_atb m (p + 1) bs
  end.

Lemma bytes_atb_spec m p bs : bytes_atb m p bs = true <-> bytes_at m p bs.
Proof.
  revert p; induction bs as [|b bs IH]; intros p; simpl.
  - split; [intros _; apply bytes_at_nil|done].
  - by rewrite bytes_at_cons, andb_true_iff, bool_decide_eq_true, IH.
Qed.

#[global] Instance bytes_at_dec m p bs : Decision (bytes_at m p bs).
Proof.
  destruct (bytes_atb m p bs) eqn:E.
  - left. by apply bytes_atb_spec.
  - right. intros H%bytes_atb_spec. congruence.
Defined.

#[global] Instance is_char_dec b : Decision (is_char b).
Proof. unfold is_char. apply _. Defined.

#[global] Instance str_ok_dec s : Decision (str_ok s).
Proof. unfold str_ok. apply _. Defined.

#[global] Instance cstr_at_dec m p s : Decision (cstr_at m p s).
Proof. unfold cstr_at. apply _. Defined.

Fixpoint mappedb (m : mem) (p : Z) (n : nat) : bool :=
  match n with
  | O => true
  | S n => bool_decide (is_Some (m !! p)) && mappedb m (p + 1) n
  end.

Lemma mappedb_spec m p n : mappedb m p n = true <-> mapped m p n.
Proof.
  revert p; induction n as [|n IH]; intros p; simpl.
  - split; [intros _ i Hi; lia|done].
  - by rewrite mapped_S, andb_true_iff, bool_decide_eq_true, IH.
Qed.

#[global] Instance mapped_dec m p n : Decision (mapped m p n).
Proof.
  destruct (mappedb m p n) eqn:E.
  - left. by apply mappedb_spec.
  - right. intros H%mappedb_spec. congruence.
Defined.

(** Decide a closed proposition by evaluation. *)
Ltac vm_dec :=
  match goal with
  | |- ?P => apply (@bool_decide_eq_true_1 P ltac:(apply _)); vm_compute; reflexivity
  end.

(** ** The allocator interface

    What the library relies on when it calls [malloc]: the block returned is
    mapped, disjoint from everything that was mapped before, and the rest of
    the memory is untouched; NULL leaves the memory as it was. *)
Class Allocator (malloc : nat -> M (option Z)) : Prop := {
  malloc_total n m :
    malloc n m = Ok (None, m) \/
    exists d m1, malloc n m = Ok (Some d, m1) /\ mapped m1 d n /\
      forall q, is_Some (m !! q) -> m1 !! q = m !! q /\ (q < d \/ d +! n <= q)
}.

(** An allocator that meets it: allocate above every mapped address. *)
Definition bump_top (m : mem) : Z := map_fold (fun k _ acc => Z.max k acc) 0 m.
Definition bump_malloc (n : nat) : M (option Z) := fun m =>
  let d := bump_top m + 1 in Ok (Some d, write_bytes m d (replicate n 0)).

Lemma bump_top_le m q : is_Some (m !! q) -> q <= bump_top m.
Proof.
  unfold bump_top. revert q.
  apply (map_fold_weak_ind (fun acc m => forall q, is_Some (m !! q) -> q <= acc)).
  - intros q [v H]. by rewrite lookup_empty in H.
  - intros k v m' acc Hk IH q Hq. destruct (decide (q = k)) as [->|Hne]; [lia|].
    rewrite lookup_insert_ne in Hq by done. specialize (IH q Hq). lia.
Qed.

#[global] Instance bump_allocator : Allocator bump_malloc.
Proof.
  split. intros n m. right. unfold bump_malloc. eexists _, _. split; [done|]. split.
  - intros i Hi.
    rewrite (lookup_write_bytes_in _ _ _ i 0) by (by apply lookup_replicate_2). eauto.
  - intros q Hq. apply bump_top_le in Hq. split; [|lia].
    apply lookup_write_bytes_out. lia.
Qed.
