(* ===== verification/CString.v ===== *)
(** * libc/src/generic/string.c

    The routines of string.c over the memory of [CMem]: copying, comparison,
    searching, tokenising and duplication.  A [size_t] argument is a [nat]
    (the code only counts it down or compares counters with it); a scan for a
    NUL, which the C code does not bound, takes fuel, and the theorems show
    how much is enough: one unit per byte of the string, NUL included. *)

From stdpp Require Import base list numbers gmap.
From S2P Require Import Prelude CMem.

(** ** Operations *)

Fixpoint strlen_loop (fuel : nat) (str : Z) (size : nat) : M nat :=
  match fuel with
  | O => out_of_fuel
  | S fuel =>
      c ← load (str +! size);
      if c =? 0 then mret size else strlen_loop fuel str (S size)
  end.

Definition strlen (fuel : nat) (str : Z) : M nat := strlen_loop fuel str 0.

Fixpoint strcpy_loop (fuel : nat) (p source : Z) : M unit :=
  match fuel with
  | O => out_of_fuel
  | S fuel =>
      c ← load source;
      if c =? 0 then store p 0
      else _ ← store p c; strcpy_loop fuel (p + 1) (source + 1)
  end.

Definition strcpy (fuel : nat) (destination source : Z) : M Z :=
  _ ← strcpy_loop fuel destination source;
  mret destination.

(** The first loop of [strncpy]: [p] and [num] when it stops. *)
Fixpoint strncpy_copy (num : nat) (p source : Z) : M (Z * nat) :=
  match num with
  | O => mret (p, O)
  | S n =>
      c ← load source;
      if c =? 0 then mret (p, num)
      else _ ← store p c; strncpy_copy n (p + 1) (source + 1)
  end.

(** The second loop: NUL padding. *)
Fixpoint strncpy_pad (num : nat) (p : Z) : M unit :=
  match num with
  | O => mret tt
  | S n => _ ← store p 0; strncpy_pad n (p + 1)
  end.

Definition strncpy (destination source : Z) (num : nat) : M Z :=
  '(p, num) ← strncpy_copy num destination source;
  _ ← strncpy_pad num p;
  mret destination.

(** The body of [stpncpy] is that of [strncpy], its result included. *)
Definition stpncpy (dst src : Z) (sz : nat) : M Z :=
  '(d, sz) ← strncpy_copy sz dst src;
  _ ← strncpy_pad sz d;
  mret dst.

Fixpoint strcmp (fuel : nat) (s1 s2 : Z) : M Z :=
  match fuel with
  | O => out_of_fuel
  | S fuel =>
      a ← load s1;
      b ← load s2;
      if (a =? b) && negb (a =? 0) then strcmp fuel (s1 + 1) (s2 + 1)
      else mret (a - b)
  end.

(** [rest] is [size - i]. *)
Fixpoint strncmp_loop (rest : nat) (s1 s2 : Z) (i : nat) : M Z :=
  match rest with
  | O => mret 0
  | S rest =>
      a ← load (s1 +! i);
      b ← load (s2 +! i);
      if (a =? b) && negb (a =? 0) then strncmp_loop rest s1 s2 (S i)
      else mret (a - b)
  end.

Definition strncmp (s1 s2 : Z) (size : nat) : M Z := strncmp_loop size s1 s2 0.

Fixpoint memcpy_loop (n : nat) (dest src : Z) : M unit :=
  match n with
  | O => mret tt
  | S n =>
      c ← load src;
      _ ← store dest c;
      memcpy_loop n (dest + 1) (src + 1)
  end.

Definition memcpy (dest src : Z) (n : nat) : M Z :=
  _ ← memcpy_loop n dest src;
  mret dest.

Fixpoint memset_loop (n : nat) (s c : Z) : M unit :=
  match n with
  | O => mret tt
  | S n => _ ← store s (wrap 8 c); memset_loop n (s + 1) c
  end.

Definition memset (s c : Z) (n : nat) : M Z :=
  _ ← memset_loop n s c;
  mret s.

(** [rest] is [n - k]. *)
Fixpoint memcmp_loop (rest : nat) (s1 s2 : Z) (k : nat) : M Z :=
  match rest with
  | O => mret 0
  | S rest =>
      a ← load (s1 +! k);
      b ← load (s2 +! k);
      if a =? b then memcmp_loop rest s1 s2 (S k)
      else mret (if a <? b then -1 else 1)
  end.

Definition memcmp (s1 s2 : Z) (n : nat) : M Z := memcmp_loop n s1 s2 0.

(** The forward loop of [memmove]; [rest] is [n - i]. *)
Fixpoint memmove_up (rest : nat) (d s : Z) (i : nat) : M unit :=
  match rest with
  | O => mret tt
  | S rest =>
      c ← load (s +! i);
      _ ← store (d +! i) c;
      memmove_up rest d s (S i)
  end.

(** The backward loop of [memmove]. *)
Fixpoint memmove_down (i : nat) (d s : Z) : M unit :=
  match i with
  | O => mret tt
  | S i' =>
      c ← load (s +! i');
      _ ← store (d +! i') c;
      memmove_down i' d s
  end.

Definition memmove (dest src : Z) (n : nat) : M Z :=
  _ ← (if dest <? src then memmove_up n dest src 0
       else if src <? dest then memmove_down n dest src
       else mret tt);
  mret dest.

Fixpoint strchr_loop (fuel : nat) (str ch : Z) : M (option Z) :=
  match fuel with
  | O => out_of_fuel
  | S fuel =>
      x ← load str;
      if x =? 0 then mret (if ch =? 0 then Some str else None)
      else if x =? ch then mret (Some str)
      else strchr_loop fuel (str + 1) ch
  end.

Definition strchr (fuel : nat) (str c : Z) : M (option Z) := strchr_loop fuel str (wrap 8 c).

Fixpoint strrchr_loop (fuel : nat) (str ch : Z) (last_occurrence : option Z) : M (option Z) :=
  match fuel with
  | O => out_of_fuel
  | S fuel =>
      x ← load str;
      if x =? 0 then mret (if ch =? 0 then Some str else last_occurrence)
      else strrchr_loop fuel (str + 1) ch (if x =? ch then Some str else last_occurrence)
  end.

Definition strrchr (fuel : nat) (str c : Z) : M (option Z) :=
  strrchr_loop fuel str (wrap 8 c) None.

(** The inner loop of [strspn], [strcspn] and [strpbrk]: is [x] in the string at [s]? *)
Fixpoint charset_has (fuel : nat) (s x : Z) : M bool :=
  match fuel with
  | O => out_of_fuel
  | S fuel =>
      y ← load s;
      if y =? 0 then mret false
      else if x =? y then mret true
      else charset_has fuel (s + 1) x
  end.

Fixpoint strspn_loop (fuel : nat) (str1 str2 : Z) (i : nat) : M nat :=
  match fuel with
  | O => out_of_fuel
  | S fuel' =>
      x ← load (str1 +! i);
      if x =? 0 then mret i
      else
        found ← charset_has fuel str2 x;
        if found : bool then mret i else strspn_loop fuel' str1 str2 (S i)
  end.

Definition strspn (fuel : nat) (str1 str2 : Z) : M nat := strspn_loop fuel str1 str2 0.

Fixpoint strcspn_loop (fuel : nat) (s1 s2 : Z) (i : nat) : M nat :=
  match fuel with
  | O => out_of_fuel
  | S fuel' =>
      x ← load (s1 +! i);
      if x =? 0 then mret i
      else
        found ← charset_has fuel s2 x;
        if found : bool then mret i else strcspn_loop fuel' s1 s2 (S i)
  end.

Definition strcspn (fuel : nat) (s1 s2 : Z) : M nat := strcspn_loop fuel s1 s2 0.

Fixpoint strpbrk (fuel : nat) (str charset : Z) : M (option Z) :=
  match fuel with
  | O => out_of_fuel
  | S fuel' =>
      x ← load str;
      if x =? 0 then mret None
      else
        found ← charset_has fuel charset x;
        if found : bool then mret (Some str) else strpbrk fuel' (str + 1) charset
  end.

(** [saveptr] is the value of [*saveptr] before; the second result its value after. *)
Definition strtok_r (fuel : nat) (str : option Z) (delim : Z) (saveptr : option Z)
    : M (option Z * option Z) :=
  match (match str with Some p => Some p | None => saveptr end) with
  | None => mret (None, None)
  | Some token_start =>
      delim_pos ← strpbrk fuel token_start delim;
      match delim_pos with
      | Some p => _ ← store p 0; mret (Some token_start, Some (p + 1))
      | None => mret (Some token_start, None)
      end
  end.

(** [strtok]: [saveptr] is the routine's static variable. *)
Definition strtok (fuel : nat) (str : option Z) (delim : Z) (saveptr : option Z)
    : M (option Z * option Z) :=
  match (match str with Some p => Some p | None => saveptr end) with
  | None => mret (None, None)
  | Some start =>
      k ← strspn fuel start delim;
      let token_start := start +! k in
      x ← load token_start;
      if x =? 0 then mret (None, None)
      else
        delim_pos ← strpbrk fuel token_start delim;
        match delim_pos with
        | Some p => _ ← store p 0; mret (Some token_start, Some (p + 1))
        | None => mret (Some token_start, None)
        end
  end.

Fixpoint strnlen_loop (rest : nat) (str : Z) (length : nat) : M nat :=
  match rest with
  | O => mret length
  | S rest =>
      c ← load (str +! length);
      if c =? 0 then mret length else strnlen_loop rest str (S length)
  end.

Definition strnlen (str : Z) (maxlen : nat) : M nat := strnlen_loop maxlen str 0.

Fixpoint memccpy (dest src c : Z) (n : nat) : M (option Z) :=
  match n with
  | O => mret None
  | S n =>
      x ← load src;
      _ ← store dest x;
      if x =? wrap 8 c then mret (Some (dest + 1))
      else memccpy (dest + 1) (src + 1) c n
  end.

Fixpoint memchr (p c : Z) (n : nat) : M (option Z) :=
  match n with
  | O => mret None
  | S n =>
      x ← load p;
      if x =? wrap 8 c then mret (Some p) else memchr (p + 1) c n
  end.

(** The inner loop of [strstr]: does the string at [s1] start with the one at [c1]? *)
Fixpoint strstr_match (fuel : nat) (s1 c1 : Z) : M bool :=
  match fuel with
  | O => out_of_fuel
  | S fuel =>
      x ← load s1;
      y ← load c1;
      if negb (x =? 0) && negb (y =? 0) && (x =? y) then strstr_match fuel (s1 + 1) (c1 + 1)
      else mret (y =? 0)
  end.

Fixpoint strstr_loop (fuel : nat) (s c : Z) : M (option Z) :=
  match fuel with
  | O => out_of_fuel
  | S fuel' =>
      x ← load s;
      if x =? 0 then mret None
      else
        y ← load c;
        if x =? y then
          hit ← strstr_match fuel s c;
          if hit : bool then mret (Some s) else strstr_loop fuel' (s + 1) c
        else strstr_loop fuel' (s + 1) c
  end.

Definition strstr (fuel : nat) (s cc : Z) : M (option Z) :=
  y ← load cc;
  if y =? 0 then mret (Some s) else strstr_loop fuel s cc.

Section Duplication.
(** [malloc] is the allocator the library links; NULL is [None]. *)
Variable malloc : nat -> M (option Z).

Definition strdup (fuel : nat) (str : Z) : M (option Z) :=
  n ← strlen fuel str;
  let length := S n in
  duplicate ← malloc length;
  match duplicate with
  | Some d => _ ← memcpy d str length; mret (Some d)
  | None => mret None
  end.

Definition strndup (fuel : nat) (str : Z) (s : nat) : M (option Z) :=
  n ← strlen fuel str;
  let length := if (s <? n)%nat then s else n in
  duplicate ← malloc (S length);
  match duplicate with
  | Some d => _ ← memcpy d str length; _ ← store (d +! length) 0; mret (Some d)
  | None => mret None
  end.
End Duplication.

(** ** Reference functions on string values *)

(** What [strcmp] computes: the difference at the first position where the
    NUL-terminated strings differ. *)
Fixpoint str_diff (s t : cstring) : Z :=
  match s, t with
  | [], [] => 0
  | [], b :: _ => - b
  | a :: _, [] => a
  | a :: s, b :: t => if a =? b then str_diff s t else a - b
  end.

(** Strict lexicographic order of byte strings. *)
Fixpoint str_lt (s t : cstring) : Prop :=
  match s, t with
  | _, [] => False
  | [], _ :: _ => True
  | a :: s, b :: t => a < b \/ (a = b /\ str_lt s t)
  end.

(** The length of the longest prefix with no byte in [set]. *)
Fixpoint span_out (set : list Z) (s : cstring) : nat :=
  match s with
  | [] => O
  | x :: s => if bool_decide (x ∈ set) then O else S (span_out set s)
  end.

Lemma str_diff_refl s : str_diff s s = 0.
Proof. induction s as [|a s IH]; simpl; [done|]. by rewrite Z.eqb_refl. Qed.

Lemma str_diff_opp s t : str_diff t s = - str_diff s t.
Proof.
  revert t; induction s as [|a s IH]; intros [|b t]; simpl; try lia.
  rewrite (Z.eqb_sym b a). case_if; [apply IH|lia].
Qed.

Lemma str_diff_eq s t : str_ok s -> str_ok t -> str_diff s t = 0 <-> s = t.
Proof.
  intros Hs Ht. split; [|intros ->; apply str_diff_refl].
  revert t Hs Ht; induction s as [|a s IH]; intros [|b t] Hs Ht; simpl; try done.
  - inversion Ht; subst. unfold is_char in *. lia.
  - inversion Hs; subst. unfold is_char in *. lia.
  - inversion Hs; inversion Ht; subst. case_if; [|lia]. intros. subst. f_equal. auto.
Qed.

Lemma str_diff_lt s t : str_ok s -> str_ok t -> str_diff s t < 0 <-> str_lt s t.
Proof.
  revert t; induction s as [|a s IH]; intros [|b t] Hs Ht; simpl; try lia.
  - inversion Ht; subst. unfold is_char in *. split; [done|lia].
  - inversion Hs; subst. unfold is_char in *. split; [lia|done].
  - inversion Hs; inversion Ht; subst. case_if; [rewrite IH by done|]; intuition lia.
Qed.

Lemma str_lt_trans s t u : str_lt s t -> str_lt t u -> str_lt s u.
Proof.
  revert t u; induction s as [|a s IH]; intros [|b t] [|c u]; simpl; try tauto.
  intros [?|[-> ?]] [?|[-> ?]]; [left; lia|left; lia|left; lia|right; eauto].
Qed.

(** [strcmp] honours the contract of a comparator on C strings. *)
#[global] Instance strcmp_order : CmpOrder str_ok str_diff.
Proof.
  split.
  - intros. apply str_diff_refl.
  - intros x y _ _. rewrite str_diff_opp. apply Z.sgn_opp.
  - intros x y z Hx Hy Hz H1 H2.
    destruct (decide (str_diff x y = 0)) as [E|E].
    { apply str_diff_eq in E; [by subst|done|done]. }
    destruct (decide (str_diff y z = 0)) as [F|F].
    { apply str_diff_eq in F; [by subst|done|done]. }
    assert (str_lt x z).
    { apply str_lt_trans with y; apply str_diff_lt; auto; lia. }
    assert (str_diff x z < 0) by (by apply str_diff_lt). lia.
Qed.

(** ** Copying *)

Lemma write_bytes_insert_lo m p bs q b :
  q < p -> write_bytes (<[q := b]> m) p bs = <[q := b]> (write_bytes m p bs).
Proof.
  revert m p; induction bs as [|c bs IH]; intros m p H; simpl; [done|].
  rewrite insert_insert_ne by lia. apply IH. lia.
Qed.

Lemma write_bytes_id m p bs : bytes_at m p bs -> write_bytes m p bs = m.
Proof.
  revert p; induction bs as [|b bs IH]; intros p; [done|].
  rewrite bytes_at_cons. intros [H1 H2]. simpl. rewrite insert_id by done. by apply IH.
Qed.

Lemma memcpy_loop_ok m d s bs :
  d +! length bs <= s \/ s +! length bs <= d ->
  bytes_at m s bs -> mapped m d (length bs) ->
  memcpy_loop (length bs) d s m = Ok (tt, write_bytes m d bs).
Proof.
  revert m d s; induction bs as [|b bs IH]; intros m d s Hd Hs Hm; simpl in *; [done|].
  apply bytes_at_cons in Hs as [Hb Hs]. apply mapped_S in Hm as [Hm0 Hm].
  mload. mstore. apply IH; [lia| |by apply mapped_insert].
  apply bytes_at_insert_out; [lia|done].
Qed.

Lemma memcpy_ok m d s bs :
  d +! length bs <= s \/ s +! length bs <= d ->
  bytes_at m s bs -> mapped m d (length bs) ->
  memcpy d s (length bs) m = Ok (d, write_bytes m d bs).
Proof. intros. unfold memcpy. erewrite bind_ok; [done|by apply memcpy_loop_ok]. Qed.

Lemma memmove_up_ok m d s bs i :
  d < s -> bytes_at m s bs -> mapped m d (length bs) -> (i <= length bs)%nat ->
  memmove_up (length bs - i) d s i (write_bytes m d (take i bs))
    = Ok (tt, write_bytes m d bs).
Proof.
  intros Hd Hs Hm. remember (length bs - i)%nat as k eqn:Hk. revert i Hk.
  induction k as [|k IH]; intros i Hk Hi; simpl.
  - by rewrite take_ge by lia.
  - destruct (lookup_lt_is_Some_2 bs i) as [b Hb]; [lia|].
    rewrite (bind_load _ _ _ b).
    2:{ rewrite lookup_write_bytes_out; [by apply Hs|]. rewrite length_take. lia. }
    mstore; [|apply write_bytes_mapped with (n := length bs); [done|lia]].
    specialize (IH (S i) ltac:(lia) ltac:(lia)).
    rewrite (take_S_r _ _ _ Hb), write_bytes_app, length_take_le in IH by lia.
    exact IH.
Qed.

Lemma memmove_down_ok m d s bs i :
  s < d -> bytes_at m s bs -> mapped m d (length bs) -> (i <= length bs)%nat ->
  memmove_down i d s (write_bytes m (d +! i) (drop i bs)) = Ok (tt, write_bytes m d bs).
Proof.
  intros Hd Hs Hm. induction i as [|i IH]; intros Hi; cbn [memmove_down].
  - by rewrite Z.add_0_r.
  - destruct (lookup_lt_is_Some_2 bs i) as [b Hb]; [lia|].
    rewrite (bind_load _ _ _ b).
    2:{ rewrite lookup_write_bytes_out; [by apply Hs|lia]. }
    mstore; [|apply write_bytes_mapped with (n := length bs); [done|lia]].
    rewrite <- write_bytes_insert_lo by lia.
    specialize (IH ltac:(lia)). rewrite (drop_S _ _ _ Hb) in IH. simpl in IH.
    by replace (d +! S i) with (d +! i + 1) by lia.
Qed.

Lemma memmove_write m d s bs :
  bytes_at m s bs -> mapped m d (length bs) ->
  memmove d s (length bs) m = Ok (d, write_bytes m d bs).
Proof.
  intros Hs Hm. unfold memmove. case_if; [|case_if].
  - erewrite bind_ok; [done|].
    pose proof (memmove_up_ok m d s bs 0 ltac:(lia) Hs Hm ltac:(lia)) as E.
    by rewrite Nat.sub_0_r in E.
  - erewrite bind_ok; [done|].
    pose proof (memmove_down_ok m d s bs (length bs) ltac:(lia) Hs Hm ltac:(lia)) as E.
    by rewrite drop_all in E.
  - replace d with s by lia. by rewrite write_bytes_id.
Qed.

Lemma memset_loop_ok m s c n :
  mapped m s n -> memset_loop n s c m = Ok (tt, write_bytes m s (replicate n (wrap 8 c))).
Proof.
  revert m s; induction n as [|n IH]; intros m s Hm; simpl; [done|].
  apply mapped_S in Hm as [Hm0 Hm]. mstore. apply IH. by apply mapped_insert.
Qed.

Lemma strcpy_loop_ok fuel m d s str :
  (length str < fuel)%nat -> cstr_at m s str -> mapped m d (S (length str)) ->
  d +! S (length str) <= s \/ s +! S (length str) <= d ->
  strcpy_loop fuel d s m = Ok (tt, write_bytes m d (str ++ [0])).
Proof.
  revert m d s str; induction fuel as [|fuel IH]; intros m d s str Hf Hs Hm Hd; [lia|].
  cbn [strcpy_loop]. destruct str as [|c str]; simpl in *.
  - apply cstr_at_nil in Hs. apply mapped_S in Hm as [Hm _]. mload. by apply store_ok.
  - apply cstr_at_cons in Hs as (Hc & Hr & Hs). apply mapped_S in Hm as [Hm0 Hm].
    mload. unfold is_char in Hr. case_if; [lia|]. mstore.
    apply IH; [lia| |by apply mapped_insert|lia].
    destruct Hs as [Hs ?]. split; [|done].
    apply bytes_at_insert_out; [|done]. rewrite length_app. simpl. lia.
Qed.

(** The bytes [strncpy] leaves in its destination. *)
Definition strncpy_bytes (num : nat) (s : cstring) : list Z :=
  take num s ++ replicate (num - length s) 0.

Lemma length_strncpy_bytes num s : length (strncpy_bytes num s) = num.
Proof. unfold strncpy_bytes. rewrite length_app, length_take, length_replicate. lia. Qed.

Lemma strncpy_pad_ok m p n :
  mapped m p n -> strncpy_pad n p m = Ok (tt, write_bytes m p (replicate n 0)).
Proof.
  revert m p; induction n as [|n IH]; intros m p Hm; simpl; [done|].
  apply mapped_S in Hm as [Hm0 Hm]. mstore. apply IH. by apply mapped_insert.
Qed.

Lemma strncpy_copy_ok m d s str num :
  bytes_at m s (take num (str ++ [0])) -> str_ok str -> mapped m d num ->
  d +! num <= s \/ s +! num <= d ->
  strncpy_copy num d s m =
    Ok ((d +! (num `min` length str), (num - length str)%nat), write_bytes m d (take num str)).
Proof.
  revert m d s str; induction num as [|n IH]; intros m d s str Hs Hok Hm Hd.
  - cbn. by rewrite Z.add_0_r.
  - cbn [strncpy_copy]. apply mapped_S in Hm as [Hm0 Hm]. destruct str as [|c str]; simpl in *.
    + apply bytes_at_cons in Hs as [Hs _]. mload. by rewrite Z.add_0_r.
    + apply bytes_at_cons in Hs as [Hc Hs]. inversion Hok as [|? ? Hr ?]; subst.
      unfold is_char in Hr. mload. case_if; [lia|]. mstore.
      rewrite (IH _ _ _ str); [| |done|by apply mapped_insert|lia].
      * ok_lia.
      * apply bytes_at_insert_out; [|done].
        rewrite length_take, length_app. simpl. lia.
Qed.

Lemma strncpy_write m d s str num :
  bytes_at m s (take num (str ++ [0])) -> str_ok str -> mapped m d num ->
  d +! num <= s \/ s +! num <= d ->
  strncpy d s num m = Ok (d, write_bytes m d (strncpy_bytes num str)).
Proof.
  intros Hs Hok Hm Hd. unfold strncpy.
  erewrite bind_ok; [|by apply strncpy_copy_ok]. cbv beta iota.
  erewrite bind_ok; [|apply strncpy_pad_ok].
  - unfold strncpy_bytes. rewrite write_bytes_app, length_take. done.
  - apply write_bytes_mapped. intros i Hi.
    replace (d +! (num `min` length str) +! i) with (d +! (num `min` length str + i)) by lia.
    apply Hm. lia.
Qed.

(** ** Scanning *)

Lemma strlen_loop_ok fuel m p s k :
  cstr_at m (p +! k) s -> (length s < fuel)%nat ->
  strlen_loop fuel p k m = Ok ((k + length s)%nat, m).
Proof.
  revert k s; induction fuel as [|fuel IH]; intros k s Hs Hf; [lia|]. cbn [strlen_loop].
  destruct s as [|c s]; simpl in *.
  - apply cstr_at_nil in Hs. mload. rewrite Nat.add_0_r. done.
  - apply cstr_at_cons in Hs as (Hc & Hr & Hs). mload. unfold is_char in Hr.
    case_if; [lia|]. rewrite (IH (S k) s); [ok_lia| |lia].
    by replace (p +! S k) with (p +! k + 1) by lia.
Qed.

Lemma strlen_ok fuel m p s :
  cstr_at m p s -> (length s < fuel)%nat -> strlen fuel p m = Ok (length s, m).
Proof. intros. apply (strlen_loop_ok fuel m p s 0); [by rewrite Z.add_0_r|done]. Qed.

Lemma strnlen_loop_ok rest m p s k :
  bytes_at m (p +! k) (take rest (s ++ [0])) -> str_ok s ->
  strnlen_loop rest p k m = Ok ((k + rest `min` length s)%nat, m).
Proof.
  revert k s; induction rest as [|n IH]; intros k s Hs Hok; simpl.
  - by rewrite Nat.add_0_r.
  - destruct s as [|c s]; simpl in *; apply bytes_at_cons in Hs as [Hc Hs]; mload.
    + by rewrite Nat.add_0_r.
    + inversion Hok as [|? ? Hr ?]; subst. unfold is_char in Hr. case_if; [lia|].
      rewrite (IH (S k) s); [ok_lia| |done].
      by replace (p +! S k) with (p +! k + 1) by lia.
Qed.

Lemma strcmp_ok fuel m p q s t :
  cstr_at m p s -> cstr_at m q t -> (length s < fuel)%nat ->
  strcmp fuel p q m = Ok (str_diff s t, m).
Proof.
  revert p q s t; induction fuel as [|fuel IH]; intros p q s t Hs Ht Hf; [lia|].
  cbn [strcmp]. pose proof (cstr_at_head _ _ _ Hs) as Ha. pose proof (cstr_at_head _ _ _ Ht) as Hb.
  mload. mload. destruct s as [|a s], t as [|b t]; simpl in *.
  - done.
  - apply cstr_at_cons in Ht as (_ & Hr & _). unfold is_char in Hr. case_if; [lia|]. simpl.
    ok_lia.
  - apply cstr_at_cons in Hs as (_ & Hr & _). unfold is_char in Hr. case_if; [lia|]. simpl.
    ok_lia.
  - apply cstr_at_cons in Hs as (_ & Hr & Hs). apply cstr_at_cons in Ht as (_ & _ & Ht).
    unfold is_char in Hr. destruct (Z.eqb_spec a b) as [->|Hne]; simpl; [|done].
    destruct (Z.eqb_spec b 0); [lia|]. simpl. apply IH; [done|done|lia].
Qed.

Lemma strncmp_loop_ok rest m p q s t i :
  cstr_at m (p +! i) s -> cstr_at m (q +! i) t ->
  strncmp_loop rest p q i m = Ok (str_diff (take rest s) (take rest t), m).
Proof.
  revert s t i; induction rest as [|n IH]; intros s t i Hs Ht; simpl; [done|].
  pose proof (cstr_at_head _ _ _ Hs) as Ha. pose proof (cstr_at_head _ _ _ Ht) as Hb.
  mload. mload. destruct s as [|a s], t as [|b t]; simpl in *.
  - done.
  - apply cstr_at_cons in Ht as (_ & Hr & _). unfold is_char in Hr. case_if; [lia|]. simpl.
    ok_lia.
  - apply cstr_at_cons in Hs as (_ & Hr & _). unfold is_char in Hr. case_if; [lia|]. simpl.
    ok_lia.
  - apply cstr_at_cons in Hs as (_ & Hr & Hs). apply cstr_at_cons in Ht as (_ & _ & Ht).
    unfold is_char in Hr. destruct (Z.eqb_spec a b) as [->|Hne]; simpl; [|done].
    destruct (Z.eqb_spec b 0); [lia|]. simpl. apply IH;
    [by replace (p +! S i) with (p +! i + 1) by lia|by replace (q +! S i) with (q +! i + 1) by lia].
Qed.

Lemma charset_has_ok fuel m q set x :
  cstr_at m q set -> (length set < fuel)%nat ->
  charset_has fuel q x m = Ok (bool_decide (x ∈ set), m).
Proof.
  revert q set; induction fuel as [|fuel IH]; intros q set Hs Hf; [lia|]. cbn [charset_has].
  destruct set as [|y set]; simpl in *.
  - apply cstr_at_nil in Hs. by mload.
  - apply cstr_at_cons in Hs as (Hc & Hr & Hs). mload. unfold is_char in Hr. case_if; [lia|].
    case_if.
    + subst. rewrite bool_decide_eq_true_2; [done|]. apply elem_of_cons. by left.
    + rewrite (IH _ set) by (done || lia). do 2 f_equal. apply bool_decide_ext.
      rewrite elem_of_cons. split; [by right|by intros [?|?]].
Qed.

Lemma span_out_le set s : (span_out set s <= length s)%nat.
Proof. induction s as [|x s IH]; simpl; [done|]. case_if; lia. Qed.

Lemma strcspn_loop_ok fuel m p q s set i :
  cstr_at m (p +! i) s -> cstr_at m q set -> (length s + length set < fuel)%nat ->
  strcspn_loop fuel p q i m = Ok ((i + span_out set s)%nat, m).
Proof.
  revert s i; induction fuel as [|fuel IH]; intros s i Hs Hq Hf; [lia|]. cbn [strcspn_loop].
  destruct s as [|x s]; cbn [length span_out] in *.
  - apply cstr_at_nil in Hs. mload. by rewrite Nat.add_0_r.
  - apply cstr_at_cons in Hs as (Hc & Hr & Hs). mload. unfold is_char in Hr. case_if; [lia|].
    erewrite bind_ok; [|apply charset_has_ok; [done|lia]].
    case_if; [by rewrite Nat.add_0_r|].
    rewrite (IH s); [ok_lia| |done|lia].
    by replace (p +! S i) with (p +! i + 1) by lia.
Qed.

Lemma strpbrk_ok fuel m p q s set :
  cstr_at m p s -> cstr_at m q set -> (length s + length set < fuel)%nat ->
  strpbrk fuel p q m =
    Ok (if (span_out set s <? length s)%nat then Some (p +! span_out set s) else None, m).
Proof.
  revert p s; induction fuel as [|fuel IH]; intros p s Hs Hq Hf; [lia|]. cbn [strpbrk].
  destruct s as [|x s]; cbn [length span_out] in *.
  - apply cstr_at_nil in Hs. mload. done.
  - apply cstr_at_cons in Hs as (Hc & Hr & Hs). mload. unfold is_char in Hr. case_if; [lia|].
    erewrite bind_ok; [|apply charset_has_ok; [done|lia]].
    destruct (bool_decide (x ∈ set)); [simpl; by rewrite Z.add_0_r|].
    rewrite (IH _ s) by (done || lia). do 2 f_equal.
    destruct (Nat.ltb_spec (span_out set s) (length s)),
      (Nat.ltb_spec (S (span_out set s)) (S (length s))); try lia; [f_equal; lia|done].
Qed.

Lemma strstr_match_ok fuel m p q s c :
  cstr_at m p s -> cstr_at m q c -> (length s < fuel)%nat ->
  strstr_match fuel p q m = Ok (bool_decide (c `prefix_of` s), m).
Proof.
  revert p q s c; induction fuel as [|fuel IH]; intros p q s c Hs Hc Hf; [lia|].
  cbn [strstr_match].
  pose proof (cstr_at_head _ _ _ Hs) as Ha. pose proof (cstr_at_head _ _ _ Hc) as Hb.
  mload. mload. destruct c as [|b c]; cbn [str_head] in *.
  - rewrite andb_false_r. rewrite bool_decide_eq_true_2 by apply prefix_nil. simpl. ok_lia.
  - apply cstr_at_cons in Hc as (_ & Hrb & Hc). unfold is_char in Hrb.
    destruct (Z.eqb_spec b 0) as [?|Hb0]; [lia|]. simpl. rewrite andb_true_r.
    destruct s as [|a s]; cbn [length] in *.
    + rewrite bool_decide_eq_false_2 by apply prefix_nil_not. simpl. ok_lia.
    + apply cstr_at_cons in Hs as (_ & Hra & Hs). unfold is_char in Hra. simpl.
      destruct (Z.eqb_spec a 0) as [?|Ha0]; [lia|].
      destruct (Z.eqb_spec a b) as [->|Hne]; simpl.
      * rewrite (IH _ _ s c) by (done || lia). do 2 f_equal. apply bool_decide_ext.
        split; [apply prefix_cons|apply prefix_cons_inv_2].
      * rewrite bool_decide_eq_false_2; [ok_lia|]. intros ?%prefix_cons_inv_1. by subst.
Qed.

(** Where [strstr] stops: the first position at which [c] is a prefix. *)
Fixpoint find_sub (c s : cstring) : option nat :=
  if bool_decide (c `prefix_of` s) then Some O
  else match s with
       | [] => None
       | _ :: s => S <$> find_sub c s
       end.

Lemma find_sub_spec c s :
  match find_sub c s with
  | Some i => c `prefix_of` drop i s /\ forall j, (j < i)%nat -> ~ c `prefix_of` drop j s
  | None => forall j, (j <= length s)%nat -> ~ c `prefix_of` drop j s
  end.
Proof.
  induction s as [|x s IH]; simpl; (case_bool_decide as Hp; [split; [done|lia]|]).
  - intros j Hj. by rewrite drop_nil.
  - destruct (find_sub c s) as [i|]; simpl.
    + destruct IH as [H1 H2]. split; [done|]. intros [|j] Hj; [done|]. apply H2. lia.
    + intros [|j] Hj; [done|]. apply IH. lia.
Qed.

Lemma strstr_loop_ok fuel m p q s b c :
  cstr_at m p s -> cstr_at m q (b :: c) -> (length s < fuel)%nat ->
  strstr_loop fuel p q m = Ok ((fun i => p +! i) <$> find_sub (b :: c) s, m).
Proof.
  revert p s; induction fuel as [|fuel IH]; intros p s Hs Hc Hf; [lia|].
  cbn [strstr_loop]. pose proof (cstr_at_head _ _ _ Hs) as Ha.
  destruct s as [|x s]; cbn [str_head length] in *.
  - mload. simpl. ok_lia.
  - pose proof Hs as Hs0. apply cstr_at_cons in Hs as (_ & Hra & Hs). unfold is_char in Hra.
    mload. destruct (Z.eqb_spec x 0) as [?|Hx0]; [lia|].
    pose proof (cstr_at_head _ _ _ Hc) as Hb. simpl in Hb. mload. cbn [find_sub].
    assert (Hrest : strstr_loop fuel (p + 1) q m =
      Ok ((fun i => p +! i) <$> (S <$> find_sub (b :: c) s), m)).
    { rewrite (IH _ s) by (done || lia). do 2 f_equal.
      destruct (find_sub (b :: c) s); simpl; [f_equal; lia|done]. }
    destruct (Z.eqb_spec x b) as [->|Hne].
    + erewrite bind_ok; [|apply (strstr_match_ok (S fuel) m p q (b :: s) (b :: c)); [done|done|simpl; lia]].
      destruct (bool_decide _); [simpl; ok_lia|done].
    + rewrite bool_decide_eq_false_2; [done|]. intros ?%prefix_cons_inv_1. by subst.
Qed.

Lemma strstr_ok fuel m p q s c :
  cstr_at m p s -> cstr_at m q c -> (length s < fuel)%nat ->
  strstr fuel p q m = Ok ((fun i => p +! i) <$> find_sub c s, m).
Proof.
  intros Hs Hc Hf. unfold strstr. pose proof (cstr_at_head _ _ _ Hc) as Hb. mload.
  destruct c as [|b c]; simpl.
  - assert (find_sub [] s = Some O) as ->; [|simpl; ok_lia].
    destruct s; cbn [find_sub]; by rewrite bool_decide_eq_true_2 by apply prefix_nil.
  - apply cstr_at_cons in Hc as Hc'. destruct Hc' as (_ & Hr & _). unfold is_char in Hr.
    case_if; [lia|]. by apply strstr_loop_ok.
Qed.

(** The effect of writing a NUL inside a string: it is cut in two. *)
Lemma cstr_at_cut m p s k x :
  cstr_at m p s -> s !! k = Some x ->
  cstr_at (<[p +! k := 0]> m) p (take k s) /\
  cstr_at (<[p +! k := 0]> m) (p +! k + 1) (drop (S k) s).
Proof.
  intros Hs Hk. pose proof (lookup_lt_Some _ _ _ Hk) as Hlt.
  assert (Hl : length (take k s) = k) by (rewrite length_take; lia).
  rewrite <- (take_drop_middle _ _ _ Hk) in Hs.
  destruct Hs as [Hb Hok]. rewrite <- app_assoc, bytes_at_app in Hb.
  unfold str_ok in Hok. rewrite Forall_app, Forall_cons in Hok. destruct Hok as (Ho1 & _ & Ho2).
  destruct Hb as [Hb1 Hb2]. rewrite Hl in Hb2. simpl in Hb2. apply bytes_at_cons in Hb2 as [_ Hb2].
  split; (split; [|done]).
  - rewrite bytes_at_app, Hl, bytes_at_cons. split; [|split; [|apply bytes_at_nil]].
    + apply bytes_at_insert_out; [lia|done].
    + by rewrite lookup_insert_eq.
  - apply bytes_at_insert_out; [lia|done].
Qed.

Lemma strspn_loop_eq fuel p q i m :
  strspn_loop fuel p q i m = strcspn_loop fuel p q i m.
Proof.
  revert i; induction fuel as [|fuel IH]; intros i; [done|]. cbn [strspn_loop strcspn_loop].
  unfold mbind, M_bind. destruct (load (p +! i) m) as [[x m']| |] eqn:E; [|done|done].
  assert (m' = m) as -> by (unfold load in E; destruct (m !! (p +! i)); by simplify_eq).
  case_if; [done|].
  assert (Hro : forall f s y b k, charset_has f s y m = Ok (b, k) -> k = m).
  { clear. induction f as [|f IHf]; intros s y b k; [done|]. cbn [charset_has].
    unfold mbind, M_bind, mret, M_ret, load. destruct (m !! s); [|done].
    case_if; [intros; by simplify_eq|]. case_if; [intros; by simplify_eq|]. apply IHf. }
  destruct (charset_has (S fuel) q x m) as [[b k]| |] eqn:Ec; [|done|done].
  apply Hro in Ec. subst k. destruct b; [done|apply IH].
Qed.

Lemma strspn_ok fuel m p q s set :
  cstr_at m p s -> cstr_at m q set -> (length s + length set < fuel)%nat ->
  strspn fuel p q m = Ok (span_out set s, m).
Proof.
  intros. unfold strspn. rewrite strspn_loop_eq.
  rewrite (strcspn_loop_ok _ _ _ _ s set) by (rewrite ?Z.add_0_r; done). done.
Qed.

Lemma span_out_take set s : Forall (fun x => x ∉ set) (take (span_out set s) s).
Proof. induction s as [|x s IH]; simpl; [constructor|]. case_bool_decide; by constructor. Qed.

Lemma span_out_stop set s :
  (span_out set s < length s)%nat -> exists x, s !! span_out set s = Some x /\ x ∈ set.
Proof.
  induction s as [|x s IH]; simpl; [lia|]. case_bool_decide as Hx; [by exists x|].
  intros H. apply IH. lia.
Qed.

Lemma span_out_all set s : span_out set s = length s -> Forall (fun x => x ∉ set) s.
Proof.
  intros H. pose proof (span_out_take set s) as Hf. by rewrite H, firstn_all in Hf.
Qed.

Lemma strtok_cut fuel m p q s set :
  cstr_at m p s -> cstr_at m q set -> (length s + length set < fuel)%nat ->
  exists m', (delim_pos ← strpbrk fuel p q;
      match delim_pos with
      | Some d => _ ← store d 0; mret (Some p, Some (d + 1))
      | None => mret (Some p, None)
      end) m
    = Ok ((Some p, if (span_out set s <? length s)%nat then Some (p +! span_out set s + 1) else None), m')
    /\ cstr_at m' p (take (span_out set s) s)
    /\ ((span_out set s < length s)%nat -> cstr_at m' (p +! span_out set s + 1) (drop (S (span_out set s)) s))
    /\ (forall a, a <> p +! span_out set s -> m' !! a = m !! a).
Proof.
  intros Hs Hq Hf. erewrite bind_ok; [|by apply (strpbrk_ok fuel m p q s set)].
  destruct (Nat.ltb_spec (span_out set s) (length s)) as [Hl|Hl].
  - destruct (span_out_stop set s Hl) as (x & Hx & _).
    destruct (cstr_at_cut m p s _ x Hs Hx) as [H1 H2].
    exists (<[p +! span_out set s := 0]> m). rewrite bind_store.
    2:{ destruct Hs as [Hb _]. exists x. apply Hb. by rewrite lookup_app_l. }
    split; [done|]. split; [done|]. split; [done|].
    intros a Ha. by rewrite lookup_insert_ne.
  - exists m. split; [done|]. split; [|split; [lia|done]].
    pose proof (span_out_le set s). rewrite take_ge by lia. done.
Qed.

(** ** Theorems *)

(** [memmove] copies the bytes that were at [src] to [dest], whatever the
    overlap of the two regions, changes no other address and returns [dest]. *)
Theorem memmove_correct (m : mem) (dest src : Z) (bs : list Z) :
  bytes_at m src bs -> mapped m dest (length bs) ->
  exists m', memmove dest src (length bs) m = Ok (dest, m')
    /\ bytes_at m' dest bs
    /\ forall q, q < dest \/ dest +! length bs <= q -> m' !! q = m !! q.
Proof.
  intros Hs Hm. exists (write_bytes m dest bs). split; [by apply memmove_write|].
  split; [apply write_bytes_at|]. intros. by apply lookup_write_bytes_out.
Qed.

(** [strncpy] writes exactly [num] bytes: the first [num] bytes of the
    source string, then NULs up to [num] (no terminator when the string fills
    the buffer). It reads at most [num] bytes of the source, so the source need
    not be terminated within them. *)
Theorem strncpy_correct (m : mem) (d s : Z) (str : cstring) (num : nat) :
  bytes_at m s (take num (str ++ [0])) -> str_ok str -> mapped m d num ->
  d +! num <= s \/ s +! num <= d ->
  exists m', strncpy d s num m = Ok (d, m')
    /\ bytes_at m' d (take num str ++ replicate (num - length str) 0)
    /\ forall q, q < d \/ d +! num <= q -> m' !! q = m !! q.
Proof.
  intros Hs Hok Hm Hd. exists (write_bytes m d (strncpy_bytes num str)).
  split; [by apply strncpy_write|]. split; [apply write_bytes_at|].
  intros q Hq. apply lookup_write_bytes_out. by rewrite length_strncpy_bytes.
Qed.

(** [strcmp] terminates on two C strings and the sign of its result is the
    lexicographic order of their bytes: zero exactly on equal strings, negative
    exactly when the first is smaller. *)
Theorem strcmp_correct (fuel : nat) (m : mem) (p q : Z) (s t : cstring) :
  cstr_at m p s -> cstr_at m q t -> (length s < fuel)%nat ->
  exists r, strcmp fuel p q m = Ok (r, m)
    /\ (r = 0 <-> s = t) /\ (r < 0 <-> str_lt s t) /\ (0 < r <-> str_lt t s).
Proof.
  intros Hs Ht Hf. exists (str_diff s t).
  pose proof (cstr_at_ok _ _ _ Hs). pose proof (cstr_at_ok _ _ _ Ht).
  split; [by apply strcmp_ok|]. split; [by apply str_diff_eq|]. split; [by apply str_diff_lt|].
  rewrite <- str_diff_lt by done. rewrite (str_diff_opp s t). lia.
Qed.

(** [strstr] returns the address of the first occurrence of the needle in
    the haystack, and NULL exactly when there is none. *)
Theorem strstr_correct (fuel : nat) (m : mem) (p q : Z) (s c : cstring) :
  cstr_at m p s -> cstr_at m q c -> (length s < fuel)%nat ->
  exists r, strstr fuel p q m = Ok (r, m) /\
    match r with
    | Some a => exists i, a = p +! i /\ c `prefix_of` drop i s /\
                  forall j, (j < i)%nat -> ~ c `prefix_of` drop j s
    | None => forall j, (j <= length s)%nat -> ~ c `prefix_of` drop j s
    end.
Proof.
  intros Hs Hc Hf. eexists. split; [by apply strstr_ok|].
  pose proof (find_sub_spec c s) as H. destruct (find_sub c s) as [i|]; simpl; [|done].
  exists i. tauto.
Qed.

(** A call of [strtok_r], first or continued, returns the bytes up to the
    first delimiter as a token that contains none, cuts the string there and
    saves the address after the delimiter, or NULL after the last token. Only
    the byte of the delimiter changes. *)
Theorem strtok_r_correct (fuel : nat) (m : mem) (str save : option Z) (p q : Z) (s set : cstring) :
  str = Some p \/ (str = None /\ save = Some p) ->
  cstr_at m p s -> cstr_at m q set -> (length s + length set < fuel)%nat ->
  let k := span_out set s in
  exists m', strtok_r fuel str q save m
      = Ok ((Some p, if (k <? length s)%nat then Some (p +! k + 1) else None), m')
    /\ cstr_at m' p (take k s) /\ Forall (fun x => x ∉ set) (take k s)
    /\ ((k < length s)%nat -> cstr_at m' (p +! k + 1) (drop (S k) s))
    /\ forall a, a <> p +! k -> m' !! a = m !! a.
Proof.
  intros Hstart Hs Hq Hf k. destruct (strtok_cut fuel m p q s set Hs Hq Hf) as (m' & H1 & H2 & H3 & H4).
  exists m'. split; [|split; [done|split; [apply span_out_take|done]]].
  unfold strtok_r. destruct Hstart as [->|[-> ->]]; exact H1.
Qed.

(** [strtok] never returns a non-empty token: because [strspn] stops at the
    first byte that IS a delimiter, a string with a delimiter yields the empty
    string at that delimiter, and a string without one yields NULL. *)
Theorem strtok_only_empty_tokens (fuel : nat) (m : mem) (p q : Z) (save : option Z) (s set : cstring) :
  cstr_at m p s -> cstr_at m q set -> (length s + length set < fuel)%nat ->
  exists m', (Forall (fun x => x ∉ set) s /\ strtok fuel (Some p) q save m = Ok ((None, None), m'))
    \/ (exists t, strtok fuel (Some p) q save m = Ok ((Some t, Some (t + 1)), m')
          /\ cstr_at m' t []).
Proof.
  intros Hs Hq Hf. unfold strtok. erewrite bind_ok; [|by apply strspn_ok].
  pose proof (span_out_le set s) as Hle.
  assert (Hd : cstr_at m (p +! span_out set s) (drop (span_out set s) s)).
  { rewrite <- (take_drop (span_out set s) s) in Hs at 1.
    apply cstr_at_app in Hs. by rewrite length_take_le in Hs by lia. }
  erewrite bind_load; [|by apply cstr_at_head].
  destruct (Nat.lt_ge_cases (span_out set s) (length s)) as [Hl|Hl].
  - destruct (span_out_stop set s Hl) as (x & Hx & Hin).
    destruct (strtok_cut fuel m (p +! span_out set s) q (drop (span_out set s) s) set)
      as (m' & H1 & H2 & _); [done|done|rewrite length_drop; lia|].
    exists m'. right. exists (p +! span_out set s). rewrite (drop_S _ _ _ Hx) in *.
    cbn [str_head span_out length take] in *. rewrite bool_decide_eq_true_2 in * by done.
    apply cstr_at_cons in Hd as (_ & Hr & _). unfold is_char in Hr. case_if; [lia|].
    rewrite H1. split; [|done]. simpl. by rewrite Z.add_0_r.
  - exists m. left. split; [apply span_out_all; lia|]. rewrite drop_ge by lia. done.
Qed.

(** [strndup], with any allocator that honours its interface, returns NULL
    leaving the memory alone, or a fresh NUL-terminated copy of the first
    [min(n, strlen)] bytes, disjoint from and without effect on all existing
    memory. *)
Theorem strndup_correct (malloc : nat -> M (option Z)) `{!Allocator malloc}
    (fuel : nat) (m : mem) (p : Z) (s : cstring) (n : nat) :
  cstr_at m p s -> (length s < fuel)%nat ->
  strndup malloc fuel p n m = Ok (None, m) \/
  exists d m', strndup malloc fuel p n m = Ok (Some d, m')
    /\ cstr_at m' d (take n s)
    /\ forall q, is_Some (m !! q) ->
         m' !! q = m !! q /\ (q < d \/ d +! S (length (take n s)) <= q).
Proof.
  intros Hs Hf. unfold strndup. erewrite bind_ok; [|by apply strlen_ok].
  set (len := if (n <? length s)%nat then n else length s).
  assert (Hlen : length (take n s) = len).
  { rewrite length_take. subst len. case_if; lia. }
  destruct (malloc_total (S len) m) as [E|(d & m1 & E & Hmap & Hframe)].
  { left. by erewrite bind_ok by exact E. }
  right. erewrite bind_ok by exact E. cbv beta iota.
  assert (Hb : bytes_at m p (take n s)).
  { destruct Hs as [Hs _]. rewrite <- (take_drop n s), <- app_assoc in Hs.
    by apply bytes_at_app in Hs as [? _]. }
  assert (Hb1 : bytes_at m1 p (take n s)).
  { intros i b Hi. specialize (Hb i b Hi). destruct (Hframe (p +! i)) as [Hq _]; [by exists b|].
    by rewrite Hq. }
  assert (Hdisj : forall i, (i < len)%nat -> p +! i < d \/ d +! S len <= p +! i).
  { intros i Hi. destruct (lookup_lt_is_Some_2 (take n s) i) as [b Hi']; [lia|].
    apply Hframe. exists b. by apply Hb. }
  exists d, (<[d +! len := 0]> (write_bytes m1 d (take n s))).
  rewrite (bind_ok _ _ _ d (write_bytes m1 d (take n s))).
  2:{ rewrite <- Hlen. apply memcpy_ok; [|done|rewrite Hlen; by apply (mapped_mono _ _ (S len)); [lia|]].
      rewrite Hlen. destruct (region_disjoint p d len (S len)) as [?|[?|?]]; [lia|done|lia..]. }
  rewrite bind_store; [|apply write_bytes_mapped with (n := S len); [done|lia]].
  split; [done|]. split.
  - split; [|apply Forall_take; apply Hs].
    apply bytes_at_app. split.
    + apply bytes_at_insert_out; [lia|apply write_bytes_at].
    + rewrite Hlen. apply bytes_at_cons. split; [apply lookup_insert_eq|apply bytes_at_nil].
  - intros q Hq. destruct (Hframe q Hq) as [H1 H2]. rewrite Hlen.
    split; [|done]. rewrite lookup_insert_ne by lia. rewrite lookup_write_bytes_out by lia. done.
Qed.

(** ** Witnesses

    A memory with the strings "hello,world" at 100, ",;" at 200 and "lo" at 300. *)
Definition demo_mem : mem :=
  write_bytes (write_bytes (write_bytes ∅ 100 [104;101;108;108;111;44;119;111;114;108;100;0])
    200 [44;59;0]) 300 [108;111;0].

Lemma memmove_correct_witness :
  exists m', memmove 102 100 (length [104;101;108;108;111]) demo_mem = Ok (102, m')
    /\ bytes_at m' 102 [104;101;108;108;111]
    /\ forall q, q < 102 \/ 102 +! length [104;101;108;108;111] <= q -> m' !! q = demo_mem !! q.
Proof. apply (memmove_correct demo_mem 102 100 [104;101;108;108;111]); vm_dec. Defined.

Lemma strncpy_correct_witness :
  exists m', strncpy 100 300 6 demo_mem = Ok (100, m')
    /\ bytes_at m' 100 (take 6 [108;111] ++ replicate (6 - length [108;111]) 0)
    /\ forall q, q < 100 \/ 100 +! 6 <= q -> m' !! q = demo_mem !! q.
Proof. apply (strncpy_correct demo_mem 100 300 [108;111] 6); [vm_dec|vm_dec|vm_dec|lia]. Defined.

Lemma strcmp_correct_witness :
  exists r, strcmp 20 300 200 demo_mem = Ok (r, demo_mem)
    /\ (r = 0 <-> [108;111] = [44;59]) /\ (r < 0 <-> str_lt [108;111] [44;59])
    /\ (0 < r <-> str_lt [44;59] [108;111]).
Proof. apply (strcmp_correct 20 demo_mem 300 200 [108;111] [44;59]); [vm_dec|vm_dec|simpl; lia]. Defined.

Lemma strstr_correct_witness :
  exists r, strstr 20 100 300 demo_mem = Ok (r, demo_mem) /\
    match r with
    | Some a => exists i, a = 100 +! i
        /\ [108;111] `prefix_of` drop i [104;101;108;108;111;44;119;111;114;108;100] /\
        forall j, (j < i)%nat -> ~ [108;111] `prefix_of` drop j [104;101;108;108;111;44;119;111;114;108;100]
    | None => forall j, (j <= length [104;101;108;108;111;44;119;111;114;108;100])%nat ->
        ~ [108;111] `prefix_of` drop j [104;101;108;108;111;44;119;111;114;108;100]
    end.
Proof.
  apply (strstr_correct 20 demo_mem 100 300 [104;101;108;108;111;44;119;111;114;108;100] [108;111]);
    [vm_dec|vm_dec|simpl; lia].
Defined.

Lemma strtok_r_correct_witness :
  let s := [104;101;108;108;111;44;119;111;114;108;100] in let set := [44;59] in
  let k := span_out set s in
  exists m', strtok_r 20 None 200 (Some 100) demo_mem
      = Ok ((Some 100, if (k <? length s)%nat then Some (100 +! k + 1) else None), m')
    /\ cstr_at m' 100 (take k s) /\ Forall (fun x => x ∉ set) (take k s)
    /\ ((k < length s)%nat -> cstr_at m' (100 +! k + 1) (drop (S k) s))
    /\ forall a, a <> 100 +! k -> m' !! a = demo_mem !! a.
Proof.
  intros s set k.
  apply (strtok_r_correct 20 demo_mem None (Some 100) 100 200 s set);
    [by right|vm_dec|vm_dec|simpl; lia].
Defined.

Lemma strtok_only_empty_tokens_witness :
  exists m', (Forall (fun x => x ∉ [44;59]) [104;101;108;108;111;44;119;111;114;108;100]
      /\ strtok 20 (Some 100) 200 None demo_mem = Ok ((None, None), m'))
    \/ (exists t, strtok 20 (Some 100) 200 None demo_mem = Ok ((Some t, Some (t + 1)), m')
          /\ cstr_at m' t []).
Proof.
  apply (strtok_only_empty_tokens 20 demo_mem 100 200 None
    [104;101;108;108;111;44;119;111;114;108;100] [44;59]); [vm_dec|vm_dec|simpl; lia].
Defined.

Lemma strndup_correct_witness :
  strndup bump_malloc 20 100 5 demo_mem = Ok (None, demo_mem) \/
  exists d m', strndup bump_malloc 20 100 5 demo_mem = Ok (Some d, m')
    /\ cstr_at m' d (take 5 [104;101;108;108;111;44;119;111;114;108;100])
    /\ forall q, is_Some (demo_mem !! q) -> m' !! q = demo_mem !! q
         /\ (q < d \/ d +! S (length (take 5 [104;101;108;108;111;44;119;111;114;108;100])) <= q).
Proof.
  apply (strndup_correct bump_malloc 20 demo_mem 100
    [104;101;108;108;111;44;119;111;114;108;100] 5); [vm_dec|simpl; lia].
Defined.
