(* ===== verification/Sort.v ===== *)
(** * libc/src/generic/stdlib.h/qsort.c and bsearch.c

    The sorting and searching routines of the C library over an array of
    elements (a [list]; element [i] is the [elem_size] bytes at
    [base + i * elem_size]).  [None] is an access outside the array or a
    recursion that has used up its fuel; the theorems show that neither
    happens.  The comparison function is the caller's: a parameter, with the
    contract [CmpOrder]. *)

From stdpp Require Import base list numbers sorting.
From S2P Require Import Prelude.

Section Sort.
Context {A : Type}.
Variable compar : A -> A -> Z.

(** ** Operations *)

Definition swap (arr : list A) (a b : nat) : option (list A) :=
  x ← arr !! a;
  y ← arr !! b;
  if (a =? b)%nat then Some arr else Some (<[b := x]> (<[a := y]> arr)).

(** The loop of [partition]; [rest] is [r - j]. *)
Fixpoint partition_loop (rest : nat) (arr : list A) (r i j : nat) : option (list A * nat) :=
  match rest with
  | O => Some (arr, i)
  | S rest =>
      x ← arr !! j;
      pivot ← arr !! r;
      if compar x pivot <? 0 then
        arr' ← swap arr i j;
        partition_loop rest arr' r (S i) (S j)
      else partition_loop rest arr r i (S j)
  end.

Definition partition (arr : list A) (l r : nat) : option (list A * nat) :=
  '(arr, i) ← partition_loop (r - l) arr r l l;
  arr ← swap arr i r;
  Some (arr, i).

Fixpoint qsort_i (fuel : nat) (arr : list A) (l r : nat) : option (list A) :=
  match fuel with
  | O => None
  | S fuel =>
      '(arr, p) ← partition arr l r;
      arr ← (if (l + 1 <? p)%nat then qsort_i fuel arr l (p - 1) else Some arr);
      if (p + 1 <? r)%nat then qsort_i fuel arr (p + 1) r else Some arr
  end.

(** The recursion depth is at most the number of elements. *)
Definition qsort (arr : list A) : option (list A) :=
  let nmemb := length arr in
  if (2 <? nmemb)%nat then qsort_i nmemb arr 0 (nmemb - 1) else Some arr.

(** ** Correctness *)

Context {P : A -> Prop} `{!CmpOrder P compar}.

Definition cmp_le (x y : A) : Prop := compar x y <= 0.

Lemma swap_app pre x mid y post :
  swap (pre ++ x :: mid ++ y :: post) (length pre) (length pre + S (length mid))
    = Some (pre ++ y :: mid ++ x :: post).
Proof.
  unfold swap. rewrite (list_lookup_middle pre _ x (length pre)) by done. simpl.
  replace ((pre ++ x :: mid ++ y :: post) !! (length pre + S (length mid))%nat) with (Some y).
  2:{ rewrite lookup_app_r by lia. replace (length pre + S (length mid) - length pre)%nat with
        (S (length mid)) by lia. simpl. by rewrite list_lookup_middle. }
  simpl. destruct (Nat.eqb_spec (length pre) (length pre + S (length mid))); [lia|].
  f_equal. rewrite <- (Nat.add_0_r (length pre)) at 2. rewrite insert_app_r. simpl.
  rewrite insert_app_r. simpl. rewrite <- (Nat.add_0_r (length mid)), insert_app_r. done.
Qed.

Lemma swap_same arr i x : arr !! i = Some x -> swap arr i i = Some arr.
Proof. intros H. unfold swap. rewrite H. simpl. by rewrite Nat.eqb_refl. Qed.

(** Exchanging the first of the large elements with the small element found:
    the large block is rotated by one. *)
Lemma swap_step pre lo hi x post :
  exists hi2, swap (pre ++ lo ++ hi ++ x :: post)
      (length pre + length lo) (length pre + length lo + length hi)
    = Some (pre ++ (lo ++ [x]) ++ hi2 ++ post) /\ hi2 ≡ₚ hi /\ length hi2 = length hi.
Proof.
  destruct hi as [|h hi].
  - exists []. split; [|done]. simpl. rewrite Nat.add_0_r, <- app_assoc.
    apply (swap_same _ _ x), (lookup_middle_eq _ (pre ++ lo) post);
      [by rewrite <- !app_assoc|by rewrite length_app].
  - exists (hi ++ [h]). split.
    + pose proof (swap_app (pre ++ lo) h hi x post) as E.
      rewrite length_app in E. simpl. rewrite <- !app_assoc in *. simpl in *. exact E.
    + split; [|rewrite length_app; simpl; lia]. by rewrite Permutation_app_comm.
Qed.

Lemma partition_loop_ok pre lo hi rest pv post :
  Forall P (lo ++ hi ++ rest ++ [pv]) ->
  Forall (fun x => compar x pv < 0) lo -> Forall (fun x => 0 <= compar x pv) hi ->
  exists lo' hi',
    partition_loop (length rest) (pre ++ lo ++ hi ++ rest ++ pv :: post)
      (length pre + length lo + length hi + length rest)
      (length pre + length lo) (length pre + length lo + length hi)
    = Some (pre ++ lo' ++ hi' ++ pv :: post, (length pre + length lo')%nat)
    /\ lo' ++ hi' ≡ₚ lo ++ hi ++ rest
    /\ Forall (fun x => compar x pv < 0) lo' /\ Forall (fun x => 0 <= compar x pv) hi'.
Proof.
  revert lo hi; induction rest as [|x rest IH]; intros lo hi HP Hlo Hhi.
  { exists lo, hi. cbn. rewrite app_nil_r. done. }
  cbn [partition_loop length].
  replace ((pre ++ lo ++ hi ++ (x :: rest) ++ pv :: post)
    !! (length pre + length lo + length hi)%nat) with (Some x).
  2:{ symmetry. apply (lookup_middle_eq _ (pre ++ lo ++ hi) (rest ++ pv :: post));
      [by rewrite <- !app_assoc|rewrite !length_app; lia]. }
  simpl.
  replace ((pre ++ lo ++ hi ++ x :: rest ++ pv :: post)
    !! (length pre + length lo + length hi + S (length rest))%nat) with (Some pv).
  2:{ symmetry. apply (lookup_middle_eq _ (pre ++ lo ++ hi ++ x :: rest) post);
      [by rewrite <- !app_assoc|rewrite !length_app; simpl; lia]. }
  simpl. destruct (Z.ltb_spec (compar x pv) 0) as [Hx|Hx].
  - destruct (swap_step pre lo hi x (rest ++ pv :: post)) as (hi2 & Hs & Hp & Hl).
    rewrite Hs. simpl.
    destruct (IH (lo ++ [x]) hi2) as (lo' & hi' & E & Hp' & Hlo' & Hhi').
    + rewrite Hp. eapply Forall_Permutation; [done| |exact HP]. solve_Permutation.
    + apply Forall_app; split; [done|by constructor].
    + by rewrite Hp.
    + exists lo', hi'. rewrite length_app, Hl in E. simpl in E.
      replace (length pre + length lo + length hi + S (length rest))%nat with
        (length pre + (length lo + 1) + length hi + length rest)%nat by lia.
      replace (S (length pre + length lo)) with (length pre + (length lo + 1))%nat by lia.
      replace (S (length pre + length lo + length hi)) with
        (length pre + (length lo + 1) + length hi)%nat by lia.
      split; [exact E|]. split; [|done]. rewrite Hp', Hp. solve_Permutation.
  - destruct (IH lo (hi ++ [x])) as (lo' & hi' & E & Hp' & Hlo' & Hhi').
    + eapply Forall_Permutation; [done| |exact HP]. solve_Permutation.
    + done.
    + apply Forall_app; split; [done|by constructor].
    + exists lo', hi'. rewrite length_app in E. simpl in E. rewrite <- !app_assoc in E. simpl in E.
      replace (length pre + length lo + length hi + S (length rest))%nat with
        (length pre + length lo + (length hi + 1) + length rest)%nat by lia.
      replace (S (length pre + length lo + length hi)) with
        (length pre + length lo + (length hi + 1))%nat by lia.
      split; [exact E|]. split; [|done]. rewrite Hp'. solve_Permutation.
Qed.

Lemma partition_ok pre seg pv post :
  Forall P (seg ++ [pv]) ->
  exists lo hi,
    partition (pre ++ seg ++ pv :: post) (length pre) (length pre + length seg)
      = Some (pre ++ lo ++ pv :: hi ++ post, (length pre + length lo)%nat)
    /\ lo ++ hi ≡ₚ seg
    /\ Forall (fun x => compar x pv < 0) lo /\ Forall (fun x => 0 <= compar x pv) hi.
Proof.
  intros HP. unfold partition.
  destruct (partition_loop_ok pre [] [] seg pv post) as (lo & hi & E & Hp & Hlo & Hhi);
    [done|constructor|constructor|]. simpl in E. rewrite !Nat.add_0_r in E.
  replace (length pre + length seg - length pre)%nat with (length seg) by lia.
  rewrite E. cbn. assert (Hlen : (length lo + length hi = length seg)%nat).
  { apply Permutation_length in Hp. by rewrite length_app in Hp. }
  destruct (swap_step pre lo hi pv post) as (hi2 & Hs & Hp2 & _).
  exists lo, hi2. rewrite <- Hlen, Nat.add_assoc, Hs. cbn. rewrite <- app_assoc.
  split; [done|]. split; [by rewrite Hp2, Hp|]. split; [done|by rewrite Hp2].
Qed.

Lemma sorted_around lo pv hi :
  Forall P (lo ++ pv :: hi) ->
  Forall (fun x => compar x pv < 0) lo -> Forall (fun x => 0 <= compar x pv) hi ->
  StronglySorted cmp_le lo -> StronglySorted cmp_le hi ->
  StronglySorted cmp_le (lo ++ pv :: hi).
Proof.
  intros HP Hlo Hhi Slo Shi. apply Forall_app in HP as [HPlo HP].
  inversion HP as [|? ? Hpv HPhi]; subst. rewrite Forall_forall in *.
  apply StronglySorted_app_2; [|done|].
  - intros x y Hx Hy. unfold cmp_le. specialize (Hlo x Hx).
    apply elem_of_cons in Hy as [->|Hy]; [lia|].
    apply (cmp_trans (P := P) x pv y); auto; [lia|]. apply (cmp_flip_le (P := P)); auto.
  - constructor; [done|]. apply Forall_forall. intros y Hy. unfold cmp_le.
    apply (cmp_flip_le (P := P)); auto.
Qed.

Lemma sorted_short l : (length l <= 1)%nat -> StronglySorted cmp_le l.
Proof. destruct l as [|x [|y l]]; simpl; intros; [constructor|repeat constructor|lia]. Qed.

Lemma qsort_i_ok fuel pre seg post r :
  Forall P seg -> (1 <= length seg <= fuel)%nat -> (r + 1 = length pre + length seg)%nat ->
  exists seg', qsort_i fuel (pre ++ seg ++ post) (length pre) r = Some (pre ++ seg' ++ post)
    /\ seg' ≡ₚ seg /\ StronglySorted cmp_le seg'.
Proof.
  revert pre seg post r; induction fuel as [|fuel IH]; intros pre seg post r HP Hlen Hr; [lia|].
  cbn [qsort_i]. destruct seg as [|pv seg _] using rev_ind; [simpl in *; lia|].
  rewrite length_app in *. simpl in Hlen, Hr. replace r with (length pre + length seg)%nat by lia.
  rewrite <- app_assoc. simpl.
  destruct (partition_ok pre seg pv post HP) as (lo & hi & E & Hp & Hlo & Hhi).
  rewrite E. cbn [mbind option_bind]. assert (Hl : (length lo + length hi = length seg)%nat)
    by (rewrite <- (Permutation_length Hp), length_app; done).
  assert (HP' : Forall P (lo ++ pv :: hi)).
  { eapply Forall_Permutation; [done| |exact HP]. rewrite <- Hp. solve_Permutation. }
  pose proof HP' as HP2. apply Forall_app in HP2 as [HPlo HPhi]. inversion_clear HPhi.
  assert (exists lo', (if (length pre + 1 <? length pre + length lo)%nat
      then qsort_i fuel (pre ++ lo ++ pv :: hi ++ post) (length pre) (length pre + length lo - 1)
      else Some (pre ++ lo ++ pv :: hi ++ post)) = Some (pre ++ lo' ++ pv :: hi ++ post)
      /\ lo' ≡ₚ lo /\ StronglySorted cmp_le lo') as (lo' & -> & Plo & Slo).
  { case_if; [apply IH; [done|lia|lia]|]. exists lo. split_and!; [done|done|].
    apply sorted_short. lia. }
  cbn [mbind option_bind]. pose proof (Permutation_length Plo) as Elo.
  assert (exists hi', (if (length pre + length lo + 1 <? length pre + length seg)%nat
      then qsort_i fuel (pre ++ lo' ++ pv :: hi ++ post) (length pre + length lo + 1)
             (length pre + length seg)
      else Some (pre ++ lo' ++ pv :: hi ++ post)) = Some (pre ++ lo' ++ pv :: hi' ++ post)
      /\ hi' ≡ₚ hi /\ StronglySorted cmp_le hi') as (hi' & -> & Phi & Shi).
  { case_if.
    - destruct (IH (pre ++ lo' ++ [pv]) hi post (length pre + length seg)%nat)
        as (hi' & E' & ?); [done|lia|rewrite !length_app; simpl; lia|].
      exists hi'. rewrite <- !app_assoc, !length_app in E'. simpl in E'.
      replace (length pre + (length lo' + 1))%nat with (length pre + length lo + 1)%nat in E' by lia.
      done.
    - exists hi. split_and!; [done|done|]. apply sorted_short. lia. }
  exists (lo' ++ pv :: hi'). rewrite <- app_assoc. split; [done|]. split.
  - rewrite Plo, Phi, <- Hp. solve_Permutation.
  - apply sorted_around; [|by rewrite Plo|by rewrite Phi|done|done].
    eapply Forall_Permutation; [done| |exact HP']. by rewrite Plo, Phi.
Qed.

Lemma qsort_ok arr :
  Forall P arr -> length arr <> 2%nat ->
  exists arr', qsort arr = Some arr' /\ arr' ≡ₚ arr /\ StronglySorted cmp_le arr'.
Proof.
  intros HP Hl. unfold qsort. case_if.
  - destruct (qsort_i_ok (length arr) [] arr [] (length arr - 1)) as (s & E & Hp & Hs);
      [done|lia|simpl; lia|].
    rewrite !app_nil_r in E. exists s. done.
  - exists arr. split_and!; [done|done|]. apply sorted_short. lia.
Qed.
End Sort.

#[global] Instance Zsub_order : CmpOrder (fun _ => True) Z.sub.
Proof. split; intros; [lia|rewrite <- Z.sgn_opp; f_equal; lia|lia]. Qed.

(** ** bsearch *)

Section Search.
Context {K A : Type}.
Variable cmp : K -> A -> Z.

(** [Some None] is the NULL result. *)
Fixpoint bsearch_loop (fuel : nat) (key : K) (arr : list A) (low high : Z) : option (option Z) :=
  match fuel with
  | O => None
  | S fuel =>
      if low <? high then
        let mid := wrap 64 (low + high) / 2 in
        x ← arr !! Z.to_nat mid;
        let cmp_result := cmp key x in
        if cmp_result <? 0 then bsearch_loop fuel key arr low mid
        else if 0 <? cmp_result then bsearch_loop fuel key arr (wrap 64 (mid + 1)) high
        else Some (Some mid)
      else Some None
  end.

(** One iteration per halving of the range. *)
Definition bsearch_fuel (n : nat) : nat := S (S (Nat.log2 n)).

Definition bsearch (key : K) (arr : list A) : option (option Z) :=
  bsearch_loop (bsearch_fuel (length arr)) key arr 0 (zlen arr).

(** The array is ordered with respect to the key. *)
Definition searchable (key : K) (arr : list A) : Prop :=
  forall i j x y, (i < j)%nat -> arr !! i = Some x -> arr !! j = Some y ->
    (cmp key x <= 0 -> cmp key y <= 0) /\ (cmp key x < 0 -> cmp key y < 0).

Lemma bsearch_none key (arr : list A) low high :
  high <= low ->
  (forall i x, arr !! i = Some x -> Z.of_nat i < low -> 0 < cmp key x) ->
  (forall i x, arr !! i = Some x -> high <= Z.of_nat i -> cmp key x < 0) ->
  forall x, x ∈ arr -> cmp key x <> 0.
Proof.
  intros Hge Hlo Hhi x [i Hi]%list_elem_of_lookup Hx.
  destruct (Z.lt_ge_cases (Z.of_nat i) low) as [H|H];
    [specialize (Hlo i x Hi H)|specialize (Hhi i x Hi ltac:(lia))]; lia.
Qed.

Lemma bsearch_loop_ok fuel key (arr : list A) low high :
  searchable key arr -> zlen arr < 2 ^ 63 -> 0 <= low <= high -> high <= zlen arr ->
  high - low < 2 ^ Z.of_nat fuel ->
  (forall i x, arr !! i = Some x -> Z.of_nat i < low -> 0 < cmp key x) ->
  (forall i x, arr !! i = Some x -> high <= Z.of_nat i -> cmp key x < 0) ->
  exists r, bsearch_loop (S fuel) key arr low high = Some r /\
    match r with
    | Some i => exists x, 0 <= i < zlen arr /\ arr !! Z.to_nat i = Some x /\ cmp key x = 0
    | None => forall x, x ∈ arr -> cmp key x <> 0
    end.
Proof.
  intros Hord Hsz. revert low high; induction fuel as [|fuel IH]; intros low high Hlh Hh Hf Hlo Hhi.
  { simpl in Hf. cbn [bsearch_loop]. case_if; [lia|]. exists None. split; [done|].
    apply (bsearch_none key arr low high); [lia|done|done]. }
  remember (S fuel) as f eqn:Ef. cbn [bsearch_loop].
  destruct (Z.ltb_spec low high) as [Hlt|Hge]; subst f.
  - rewrite wrap_small by lia. set (mid := (low + high) / 2).
    assert (Hmid : low <= mid < high).
    { subst mid. split; [apply Z.div_le_lower_bound; lia|apply Z.div_lt_upper_bound; lia]. }
    assert (H2 : 2 ^ Z.of_nat (S fuel) = 2 * 2 ^ Z.of_nat fuel)
      by (rewrite Nat2Z.inj_succ, Z.pow_succ_r by lia; done).
    pose proof (Z.div_mod (low + high) 2 ltac:(lia)) as Hdm.
    pose proof (Z.mod_pos_bound (low + high) 2 ltac:(lia)) as Hmb. fold mid in Hdm.
    destruct (lookup_lt_is_Some_2 arr (Z.to_nat mid)) as [x Hx]; [unfold zlen in *; lia|].
    rewrite Hx. cbn [mbind option_bind].
    destruct (Z.ltb_spec (cmp key x) 0); [|destruct (Z.ltb_spec 0 (cmp key x))].
    + apply IH; [lia|lia|lia|done|]. intros i y Hy Hi.
      destruct (decide (i = Z.to_nat mid)) as [->|Hne]; [by simplify_eq|].
      apply (Hord (Z.to_nat mid) i x y); [lia|done|done|lia].
    + rewrite wrap_small by lia. apply IH; [lia|lia|lia| |done]. intros i y Hy Hi.
      destruct (decide (i = Z.to_nat mid)) as [->|Hne]; [by simplify_eq|].
      destruct (Z.lt_ge_cases 0 (cmp key y)) as [?|Hc]; [done|].
      pose proof (proj1 (Hord i (Z.to_nat mid) y x ltac:(lia) Hy Hx) ltac:(lia)). lia.
    + exists (Some mid). split; [done|]. exists x. split; [lia|]. split; [done|lia].
  - exists None. split; [done|]. apply (bsearch_none key arr low high); [lia|done|done].
Qed.
End Search.

(** ** Theorems *)

(** C35. [qsort] with any comparator that honours its contract terminates
    without leaving the array, and rearranges it into a sorted permutation;
    arrays of exactly two elements are excepted (see [qsort_two_unsorted]). *)
Theorem qsort_sorts {A} (compar : A -> A -> Z) (P : A -> Prop) `{!CmpOrder P compar} (arr : list A) :
  Forall P arr -> length arr <> 2%nat ->
  exists arr', qsort compar arr = Some arr' /\ arr' ≡ₚ arr
    /\ StronglySorted (fun x y => compar x y <= 0) arr'.
Proof. intros. by eapply qsort_ok. Qed.

(** [qsort] leaves every two-element array as it is, sorted or not: the
    guard [nmemb > 2] skips them. *)
Theorem qsort_two_unsorted {A} (compar : A -> A -> Z) (x y : A) :
  qsort compar [x; y] = Some [x; y].
Proof. done. Qed.

(** [bsearch] on an array ordered for the key looks at no more than
    [log2 n + 1] elements, returns the index of a matching element when there
    is one, and NULL exactly when there is none. *)
Theorem bsearch_correct {K A} (cmp : K -> A -> Z) (key : K) (arr : list A) :
  searchable cmp key arr -> zlen arr < 2 ^ 63 ->
  exists r, bsearch cmp key arr = Some r /\
    match r with
    | Some i => exists x, 0 <= i < zlen arr /\ arr !! Z.to_nat i = Some x /\ cmp key x = 0
    | None => forall x, x ∈ arr -> cmp key x <> 0
    end.
Proof.
  intros Hord Hsz. unfold bsearch, bsearch_fuel. pose proof (zlen_nonneg arr).
  apply bsearch_loop_ok; [done|done|lia|lia| |lia|].
  - rewrite Nat2Z.inj_succ, Z.sub_0_r. unfold zlen.
    destruct (decide (length arr = O)) as [->|Hne]; [simpl; lia|].
    pose proof (Nat.log2_spec (length arr) ltac:(lia)) as [_ Hl].
    rewrite <- Nat2Z.inj_succ. change 2 with (Z.of_nat 2). rewrite <- Nat2Z.inj_pow. lia.
  - intros i x Hi Hle. apply lookup_lt_Some in Hi. unfold zlen in Hle. lia.
Qed.

Lemma qsort_sorts_witness :
  exists arr', qsort Z.sub [3; 1; 2; 9; 1; 0] = Some arr' /\ arr' ≡ₚ [3; 1; 2; 9; 1; 0]
    /\ StronglySorted (fun x y => x - y <= 0) arr'.
Proof. apply (qsort_sorts Z.sub (fun _ => True)); [by apply Forall_true|done]. Defined.

Lemma bsearch_correct_witness :
  exists r, bsearch Z.sub 7 [2; 4; 7; 11; 20] = Some r /\
    match r with
    | Some i => exists x, 0 <= i < zlen [2; 4; 7; 11; 20] /\
                  [2; 4; 7; 11; 20] !! Z.to_nat i = Some x /\ 7 - x = 0
    | None => forall x, x ∈ [2; 4; 7; 11; 20] -> 7 - x <> 0
    end.
Proof.
  apply (bsearch_correct Z.sub 7 [2; 4; 7; 11; 20]); [|reflexivity].
  assert (Hs : StronglySorted Z.le [2; 4; 7; 11; 20]) by (repeat constructor; lia).
  intros i j x y Hij Hx Hy.
  assert (x <= y); [|lia].
  destruct i as [|[|[|[|[|i]]]]], j as [|[|[|[|[|j]]]]]; simpl in *; simplify_eq; lia.
Defined.
