(* ===== verification/Alloc.v ===== *)
(** * Heap blocks: ownership accounting for the code that calls malloc and free

    The library's containers own heap blocks.  Their code is modelled on values
    that carry the identity of the block they live in, over a heap that records
    which blocks are live: [malloc] and [realloc] take a fresh identity or fail
    (an oracle decides, so every failure path can be taken), and freeing a
    block that is not live is the outcome [Fault].  An accounting statement
    "the live blocks are those of the object and the frame" is a [Permutation],
    so a leak, a double free and a use of a stale owner all show. *)

From stdpp Require Import base list numbers.
From S2P Require Import Prelude CMem.

Record heap := Heap {
  oracle : nat -> Z -> bool;  (** does the [n]-th request, of this size, succeed? *)
  calls : nat;                (** requests so far; also the next fresh identity *)
  live : list nat             (** identities of the live blocks *)
}.

Definition AM (A : Type) : Type := heap -> res (A * heap).

#[global] Instance AM_ret : MRet AM := fun A a h => Ok (a, h).
#[global] Instance AM_bind : MBind AM := fun A B k c h =>
  match c h with
  | Ok (a, h') => k a h'
  | Fault => Fault
  | OutOfFuel => OutOfFuel
  end.

Definition afault {A} : AM A := fun _ => Fault.
Definition afuel {A} : AM A := fun _ => OutOfFuel.

(** [malloc(size)]; NULL is [None]. *)
Definition malloc (size : Z) : AM (option nat) := fun h =>
  if oracle h (calls h) size
  then Ok (Some (calls h), Heap (oracle h) (S (calls h)) (calls h :: live h))
  else Ok (None, Heap (oracle h) (S (calls h)) (live h)).

(** Remove one occurrence of a block. *)
Fixpoint remove1 (b : nat) (l : list nat) : option (list nat) :=
  match l with
  | [] => None
  | c :: l => if (b =? c)%nat then Some l else (fun l => c :: l) <$> remove1 b l
  end.

(** [free(p)] for a pointer to a block. *)
Definition free (b : nat) : AM unit := fun h =>
  match remove1 b (live h) with
  | Some l => Ok (tt, Heap (oracle h) (calls h) l)
  | None => Fault
  end.

(** [free(p)] for a pointer that may be NULL. *)
Definition free_opt (p : option nat) : AM unit :=
  match p with Some b => free b | None => mret tt end.

(** [realloc(p, size)]: a new block replaces the old one, or the old one stays. *)
Definition realloc (p : option nat) (size : Z) : AM (option nat) := fun h =>
  if oracle h (calls h) size then
    match free_opt p h with
    | Ok (_, h') => Ok (Some (calls h'), Heap (oracle h') (S (calls h')) (calls h' :: live h'))
    | Fault => Fault
    | OutOfFuel => OutOfFuel
    end
  else Ok (None, Heap (oracle h) (S (calls h)) (live h)).

(** A NUL-terminated string in a block of its own. *)
Record ostr := OStr { sblk : nat; sbytes : cstring }.

(** [strdup] as specified by [CString.strndup_correct]: a fresh copy, or NULL. *)
Definition astrdup (s : cstring) : AM (option ostr) :=
  b ← malloc (zlen s + 1);
  mret ((fun b => OStr b s) <$> b).

(** ** Accounting *)

(** The live blocks of [h] are [bs] and the blocks [fr] of everyone else. *)
Definition owns (h : heap) (bs fr : list nat) : Prop := live h ≡ₚ bs ++ fr.

(** Identities are handed out once: the live ones are distinct and used. *)
Definition heap_ok (h : heap) : Prop := NoDup (live h) /\ Forall (fun b => (b < calls h)%nat) (live h).

Lemma remove1_perm b l k : l ≡ₚ b :: k -> exists l', remove1 b l = Some l' /\ l' ≡ₚ k.
Proof.
  revert k; induction l as [|c l IH]; intros k Hp; simpl.
  - by apply Permutation_nil_cons in Hp.
  - destruct (Nat.eqb_spec b c) as [->|Hne].
    + exists l. split; [done|]. by apply Permutation_cons_inv in Hp.
    + assert (Hin : c ∈ k).
      { assert (c ∈ b :: k) as Hc by (rewrite <- Hp; by left).
        apply elem_of_cons in Hc as [->|?]; done. }
      apply elem_of_Permutation in Hin as [k' Hk'].
      destruct (IH k') as (l' & E & Hl').
      { rewrite Hk' in Hp. rewrite (Permutation_swap c b) in Hp. by apply Permutation_cons_inv in Hp. }
      rewrite E. simpl. exists (c :: l'). split; [done|]. by rewrite Hl', Hk'.
Qed.

Lemma remove1_submseteq b l l' : remove1 b l = Some l' -> l ≡ₚ b :: l'.
Proof.
  revert l'; induction l as [|c l IH]; intros l' H; simpl in H; [done|].
  destruct (Nat.eqb_spec b c) as [->|Hne]; [by simplify_eq|].
  destruct (remove1 b l) as [k|]; [|done]. simpl in H. simplify_eq.
  rewrite (IH k) by done. apply Permutation_swap.
Qed.

Lemma free_owned h b bs fr :
  owns h (b :: bs) fr -> exists h', free b h = Ok (tt, h') /\ owns h' bs fr
    /\ oracle h' = oracle h /\ calls h' = calls h.
Proof.
  intros H. unfold free. destruct (remove1_perm b (live h) (bs ++ fr) H) as (l & E & Hl).
  rewrite E. eexists. split; [done|]. split; [exact Hl|done].
Qed.

Lemma owns_perm h bs bs' fr : bs ≡ₚ bs' -> owns h bs fr -> owns h bs' fr.
Proof. unfold owns. by intros ->. Qed.

(** Ownership is insensitive to the order in which blocks are listed. *)
#[global] Instance owns_proper h : Proper ((≡ₚ) ==> (≡ₚ) ==> iff) (owns h).
Proof. intros bs bs' Hb fr fr' Hf. unfold owns. by rewrite Hb, Hf. Qed.

Lemma owns_frame h bs cs fr : owns h (bs ++ cs) fr <-> owns h bs (cs ++ fr).
Proof. unfold owns. by rewrite <- app_assoc. Qed.

Lemma malloc_cases h sz :
  (oracle h (calls h) sz = true /\
   malloc sz h = Ok (Some (calls h), Heap (oracle h) (S (calls h)) (calls h :: live h)))
  \/ (oracle h (calls h) sz = false /\
   malloc sz h = Ok (None, Heap (oracle h) (S (calls h)) (live h))).
Proof. unfold malloc. destruct (oracle h (calls h) sz); [left|right]; done. Qed.

Lemma abind_ok {A B} (c : AM A) (k : A -> AM B) h a h' :
  c h = Ok (a, h') -> (c ≫= k) h = k a h'.
Proof. intros H. unfold mbind, AM_bind. by rewrite H. Qed.

(** The operations keep identities fresh and distinct. *)
Lemma malloc_ok sz h r h' : heap_ok h -> malloc sz h = Ok (r, h') -> heap_ok h'.
Proof.
  intros [Hn Hf] E. destruct (malloc_cases h sz) as [[_ Em]|[_ Em]]; rewrite Em in E; simplify_eq;
    split; simpl; try done.
  - constructor; [|done]. intros Hin. rewrite list.Forall_forall in Hf. specialize (Hf _ Hin). lia.
  - constructor; [lia|]. eapply Forall_impl; [|exact Hf]. simpl; lia.
  - eapply Forall_impl; [|exact Hf]. simpl; lia.
Qed.

Lemma free_ok b h u h' : heap_ok h -> free b h = Ok (u, h') -> heap_ok h'.
Proof.
  intros [Hn Hf] E. unfold free in E. destruct (remove1 b (live h)) as [l|] eqn:El; [|done].
  simplify_eq. apply remove1_submseteq in El. unfold heap_ok; simpl.
  rewrite El in Hn, Hf. inversion Hn; inversion Hf; by subst.
Qed.

(** Never failing: the heap of a run in which memory does not run out. *)
Definition plenty (h : heap) : Prop := forall n sz, oracle h n sz = true.

(** ** Owned strings *)

Lemma astrdup_cases h s bs fr :
  owns h bs fr ->
  (exists o h', astrdup s h = Ok (Some o, h') /\ sbytes o = s /\ owns h' (sblk o :: bs) fr
     /\ oracle h' = oracle h)
  \/ (exists h', astrdup s h = Ok (None, h') /\ owns h' bs fr /\ oracle h' = oracle h /\ ~ plenty h).
Proof.
  intros Ho. unfold astrdup. destruct (malloc_cases h (zlen s + 1)) as [[Et E]|[Ef E]].
  - left. eexists (OStr _ s), _. erewrite abind_ok by exact E. split; [done|]. split; [done|].
    split; [|done]. unfold owns in *. simpl. by rewrite Ho.
  - right. eexists. erewrite abind_ok by exact E. split; [done|]. split; [done|]. split; [done|].
    intros Hp. by rewrite Hp in Ef.
Qed.

(** ** pmos/vector.h

    [vslots] is the number of elements the block has room for; the code only
    keeps [vcapacity], its belief about it. *)

Record vector (A : Type) := Vec {
  vdata : option nat;
  vitems : list A;
  vcapacity : Z;
  vslots : Z
}.
Arguments Vec {A}.
Arguments vdata {A}.
Arguments vitems {A}.
Arguments vcapacity {A}.
Arguments vslots {A}.

Section Vector.
Context {A : Type}.
Variable elem_size : Z.

(** [VECTOR_INIT] *)
Definition vector_init : vector A := Vec None [] 0 0.

(** [(vec).data[(vec).size++] = value] *)
Definition vector_append (vec : vector A) (value : A) : AM (vector A) :=
  if zlen (vitems vec) <? vslots vec
  then mret (Vec (vdata vec) (vitems vec ++ [value]) (vcapacity vec) (vslots vec))
  else afault.

(** [VECTOR_PUSH_BACK_CHECKED]: the result is [true] for [result = 0]. *)
Definition vector_push_back_checked (vec : vector A) (value : A) : AM (bool * vector A) :=
  if zlen (vitems vec) =? vcapacity vec then
    let capacity := wrap 64 (if vcapacity vec =? 0 then 4 else vcapacity vec * 2) in
    new_data ← realloc (vdata vec) (wrap 64 (capacity * elem_size));
    match new_data with
    | None => mret (false, Vec (vdata vec) (vitems vec) capacity (vslots vec))
    | Some b =>
        v ← vector_append (Vec (Some b) (vitems vec) capacity (wrap 64 (capacity * elem_size) / elem_size)) value;
        mret (true, v)
    end
  else
    v ← vector_append vec value;
    mret (true, v).

(** [VECTOR_RESERVE] *)
Definition vector_reserve (vec : vector A) (count : Z) : AM (bool * vector A) :=
  if count <=? vcapacity vec then mret (true, vec)
  else
    data ← realloc (vdata vec) (wrap 64 (count * elem_size));
    match data with
    | None => mret (false, vec)
    | Some b => mret (true, Vec (Some b) (vitems vec) count (wrap 64 (count * elem_size) / elem_size))
    end.

(** [VECTOR_FREE] *)
Definition vector_free (vec : vector A) : AM (vector A) :=
  _ ← free_opt (vdata vec);
  mret (Vec None [] 0 0).

(** The code's belief is right: the block holds [vcapacity] elements. *)
Definition vector_ok (vec : vector A) : Prop :=
  zlen (vitems vec) <= vcapacity vec /\ vslots vec = vcapacity vec
  /\ (vdata vec = None -> vcapacity vec = 0).

Definition vblocks (vec : vector A) : list nat := option_list (vdata vec).

Lemma free_opt_owned h p bs fr :
  owns h (option_list p ++ bs) fr ->
  exists h', free_opt p h = Ok (tt, h') /\ owns h' bs fr
    /\ oracle h' = oracle h /\ calls h' = calls h.
Proof. destruct p as [b|]; simpl; [apply free_owned|]. intros H. by exists h. Qed.

Lemma realloc_cases h p sz bs fr :
  owns h (option_list p ++ bs) fr ->
  (exists b h', realloc p sz h = Ok (Some b, h') /\ owns h' (b :: bs) fr /\ oracle h' = oracle h)
  \/ (exists h', realloc p sz h = Ok (None, h') /\ owns h' (option_list p ++ bs) fr
        /\ oracle h' = oracle h /\ ~ plenty h).
Proof.
  intros Ho. unfold realloc. destruct (oracle h (calls h) sz) eqn:E.
  - left. destruct (free_opt_owned h p bs fr Ho) as (h' & -> & Ho' & Eo & Ec).
    eexists _, _. split; [done|]. split; [|done]. unfold owns in *. simpl. by rewrite Ho'.
  - right. eexists. split; [done|]. split; [done|]. split; [done|].
    intros Hp. by rewrite Hp in E.
Qed.

(** A push that succeeds appends the element in room the block has; one that
    fails leaves the elements and the ownership as they were. *)
Lemma vector_push_cases h vec value bs fr :
  0 < elem_size -> vector_ok vec -> vcapacity vec * 2 * elem_size < 2 ^ 64 -> 4 * elem_size < 2 ^ 64 ->
  owns h (vblocks vec ++ bs) fr ->
  (exists v h', vector_push_back_checked vec value h = Ok ((true, v), h') /\
     vitems v = vitems vec ++ [value] /\ vector_ok v /\ owns h' (vblocks v ++ bs) fr
     /\ (vcapacity v = vcapacity vec \/ vcapacity v <= Z.max 4 (2 * zlen (vitems vec)))
     /\ oracle h' = oracle h)
  \/ (exists v h', vector_push_back_checked vec value h = Ok ((false, v), h') /\
     vitems v = vitems vec /\ vdata v = vdata vec /\ owns h' (vblocks vec ++ bs) fr
     /\ oracle h' = oracle h /\ ~ plenty h).
Proof.
  intros Hes (Hlen & Hsl & Hnone) Hbig H4 Ho. unfold vector_push_back_checked.
  pose proof (zlen_nonneg (vitems vec)) as Hnn.
  destruct (Z.eqb_spec (zlen (vitems vec)) (vcapacity vec)) as [Heq|Hne].
  - set (cap := wrap 64 _). assert (Hcap : cap = if vcapacity vec =? 0 then 4 else vcapacity vec * 2).
    { subst cap. apply wrap_small. case_if; [lia|]. nia. }
    assert (Hc : vcapacity vec < cap) by (rewrite Hcap; case_if; lia).
    assert (Hsz : 0 <= cap * elem_size < 2 ^ 64) by (rewrite Hcap; case_if; nia).
    rewrite (wrap_small 64 (cap * elem_size)) by lia. rewrite Z.div_mul by lia.
    destruct (realloc_cases h (vdata vec) (cap * elem_size) bs fr Ho)
      as [(b & h' & E & Ho' & Eo)|(h' & E & Ho' & Eo & Hp)].
    + left. erewrite abind_ok by exact E. cbv beta iota.
      unfold vector_append. simpl. destruct (Z.ltb_spec (zlen (vitems vec)) cap); [|lia].
      eexists _, h'. split; [reflexivity|]. simpl. split; [done|]. split.
      * split; simpl; [zl|]. split; [done|intros ?; done].
      * split; [done|]. split; [|done]. right. rewrite Hcap. case_if; lia.
    + right. erewrite abind_ok by exact E. eexists _, h'. split; [reflexivity|]. done.
  - left. unfold vector_append. destruct (Z.ltb_spec (zlen (vitems vec)) (vslots vec)); [|lia].
    eexists _, h. split; [reflexivity|]. simpl. split; [done|]. split.
    + split; simpl; [zl|]. done.
    + split; [done|]. split; [by left|done].
Qed.

(** With room left, a push neither allocates nor fails. *)
Lemma vector_push_room h vec value :
  vector_ok vec -> zlen (vitems vec) < vcapacity vec ->
  vector_push_back_checked vec value h
    = Ok ((true, Vec (vdata vec) (vitems vec ++ [value]) (vcapacity vec) (vslots vec)), h)
  /\ vector_ok (Vec (vdata vec) (vitems vec ++ [value]) (vcapacity vec) (vslots vec)).
Proof.
  intros (Hlen & Hsl & Hnone) Hroom. unfold vector_push_back_checked, vector_append.
  destruct (Z.eqb_spec (zlen (vitems vec)) (vcapacity vec)); [lia|].
  destruct (Z.ltb_spec (zlen (vitems vec)) (vslots vec)); [|lia]. split; [done|].
  split; simpl; [zl|done].
Qed.

Lemma vector_reserve_cases h count bs fr :
  0 < elem_size -> 0 <= count -> count * elem_size < 2 ^ 64 -> owns h bs fr ->
  (exists vec h', vector_reserve vector_init count h = Ok ((true, vec), h')
     /\ vitems vec = [] /\ vcapacity vec = count /\ vector_ok vec
     /\ owns h' (vblocks vec ++ bs) fr /\ oracle h' = oracle h)
  \/ (exists h', vector_reserve vector_init count h = Ok ((false, vector_init), h')
     /\ owns h' bs fr /\ oracle h' = oracle h /\ ~ plenty h).
Proof.
  intros He Hc Hb Ho. unfold vector_reserve. cbn [vector_init vcapacity vdata vitems].
  destruct (Z.leb_spec count 0) as [H0|H0].
  { left. exists vector_init, h. split; [done|]. split; [done|]. split; [simpl; lia|]. done. }
  rewrite (wrap_small 64 (count * elem_size)) by nia.
  destruct (realloc_cases h None (count * elem_size) bs fr Ho) as [(b & h' & E & Ho' & Eo)|(h' & E & Ho' & Eo & Hp)];
    erewrite abind_ok by exact E; cbv beta iota.
  - left. eexists _, h'. split; [reflexivity|]. cbn. rewrite Z.div_mul by lia. split_and!; done || lia.
  - right. by exists h'.
Qed.

(** A push after one whose allocation failed: [capacity] was raised although the
    block did not grow, so the code believes in room that is not there. *)
Lemma vector_push_after_failure h vec value v1 h1 :
  vector_ok vec -> 0 < vcapacity vec -> vcapacity vec * 2 < 2 ^ 64 ->
  vector_push_back_checked vec value h = Ok ((false, v1), h1) ->
  vector_push_back_checked v1 value h1 = Fault.
Proof.
  intros (Hlen & Hsl & _) Hpos Hbig. unfold vector_push_back_checked at 1.
  destruct (Z.eqb_spec (zlen (vitems vec)) (vcapacity vec)) as [Heq|Hne].
  - destruct (Z.eqb_spec (vcapacity vec) 0); [lia|].
    rewrite (wrap_small 64 (vcapacity vec * 2)) by lia.
    unfold mbind at 1, AM_bind at 1. destruct (realloc _ _ h) as [[[b|] h']| |]; try done.
    + unfold mbind, AM_bind. by destruct (vector_append _ _ _) as [[]| |].
    + unfold mret, AM_ret. intros [= <- <-]. unfold vector_push_back_checked, vector_append. cbn.
      destruct (Z.eqb_spec (zlen (vitems vec)) (vcapacity vec * 2)); [lia|].
      unfold mbind, AM_bind. destruct (Z.ltb_spec (zlen (vitems vec)) (vslots vec)); [lia|done].
  - unfold mbind, AM_bind. by destruct (vector_append _ _ _) as [[]| |].
Qed.
End Vector.
