(* ===== verification/StrTo.v ===== *)
(** * Character classes and integer parsing

    libc/src/generic/ctype.c, ctype.h/isdigit.c, wctype.h, wchar.h/iswspace.c,
    strings.h/strcasecmp.c and the parsers of stdlib.c ([strtoul], [strtol],
    [atoi]), stdlib.h/strtoll.c, stdlib.h/strtoull.c and wchar.h/wcsto*.c.

    A string is the list of its characters before the NUL, a pointer into it is
    the suffix it points at; [*str] is the head of the suffix, 0 at its end.
    The parsers return the value, the suffix stored through [endptr] and the
    value assigned to [errno], if any.  The test [str == endptr] of the sources
    compares the string with the address of the caller's variable; the two
    objects are distinct, so the branch is not taken. *)

From stdpp Require Import base list numbers.
From S2P Require Import Prelude.

(** ** ctype.c *)

Definition isdigit (c : Z) : bool := (48 <=? c) && (c <=? 57).
Definition isalnum (c : Z) : bool := (48 <=? c) && (c <=? 57).
Definition isupper (c : Z) : bool := (65 <=? c) && (c <=? 90).
Definition islower (c : Z) : bool := (97 <=? c) && (c <=? 122).
Definition isalpha (c : Z) : bool := isupper c || islower c.
Definition isspace (c : Z) : bool :=
  (c =? 32) || (c =? 12) || (c =? 10) || (c =? 13) || (c =? 9) || (c =? 11).
Definition tolower (c : Z) : Z := if (65 <=? c) && (c <=? 90) then c + (97 - 65) else c.
Definition toupper (c : Z) : Z := if (97 <=? c) && (c <=? 90) then c + (65 - 97) else c.
Definition isxdigit (c : Z) : bool := isdigit c || ((97 <=? tolower c) && (tolower c <=? 102)).
Definition isblank (c : Z) : bool := (c =? 32) || (c =? 9).
Definition isprint (c : Z) : bool := (32 <=? c) && (c <=? 126).
Definition ispunct (c : Z) : bool := isprint c && negb (isalnum c) && negb (isspace c).
Definition iscntrl (c : Z) : bool := (wrap 8 c <? 32) || (c =? 127).

(** ** wctype.h, iswspace *)

Definition iswdigit (wc : Z) : bool := (48 <=? wc) && (wc <=? 57).
Definition iswupper (wc : Z) : bool := (65 <=? wc) && (wc <=? 90).
Definition iswalpha (wc : Z) : bool :=
  ((97 <=? wc) && (wc <=? 122)) || ((65 <=? wc) && (wc <=? 90)).
Definition iswspace (wc : Z) : bool := (wc =? 32) || ((9 <=? wc) && (wc <=? 13)).
Definition towlower (wc : Z) : Z := if iswupper wc then wc + 32 else wc.

(** ** strcasecmp *)

Definition head (s : list Z) : Z := match s with c :: _ => c | [] => 0 end.

Fixpoint strcasecmp (s1 s2 : list Z) : Z :=
  match s1, s2 with
  | a :: s1', b :: s2' => if tolower a =? tolower b then strcasecmp s1' s2' else tolower a - tolower b
  | _, _ => tolower (head s1) - tolower (head s2)
  end.

(** ** Parsers *)

Inductive errno_t := EINVAL | ERANGE.

Record parsed := Parsed { pvalue_of : Z; pend : list Z; perrno : option errno_t }.

Definition ULLONG_MAX : Z := 2 ^ 64 - 1.
Definition LLONG_MAX : Z := 2 ^ 63 - 1.
Definition LLONG_MIN : Z := - 2 ^ 63.

(** The loop that advances while the test holds; the tests fail on NUL. *)
Fixpoint skip (test : Z -> bool) (str : list Z) : list Z :=
  match str with
  | c :: str' => if test c then skip test str' else str
  | [] => []
  end.

(** The test for a leading 0x or 0X. *)
Definition has_0x (str : list Z) : bool :=
  (head str =? 48) && ((head (tail str) =? 120) || (head (tail str) =? 88)).

Definition skip_0x (str : list Z) : list Z := if has_0x str then drop 2 str else str.

(** The "base not specified" branch. *)
Definition guess_base (str : list Z) : Z :=
  if head str =? 48 then (if has_0x str then 16 else 8) else 10.

(** What the narrow and the wide version of the same parser differ in. *)
Record char_ops := CharOps {
  op_space : Z -> bool;        (** leading white space *)
  op_trail : Z -> bool;        (** trailing white space *)
  op_digit : Z -> bool;        (** the test of the digit loop *)
  op_value : Z -> Z            (** the digit *)
}.

Definition char_narrow : char_ops :=
  CharOps (fun c => isspace (wrap 8 c)) (fun c => isspace (wrap 8 c)) (fun c => isxdigit (wrap 8 c))
    (fun c => if isdigit (wrap 8 c) then c - 48 else tolower (wrap 8 c) - 97 + 10).

(** wcstol and wcstoll test the low byte of the wide character. *)
Definition char_wide : char_ops :=
  CharOps iswspace isspace (fun c => isxdigit (wrap 8 c))
    (fun c => if isdigit (wrap 8 c) then c - 48 else towlower (wrap 8 c) - 97 + 10).

Section SignedParser.
Variable ops : char_ops.
Variable max : Z.

(** The digit loop: the result, where it stopped and [overflow]. *)
Fixpoint digits_loop (base : Z) (str : list Z) (result : Z) : Z * list Z * bool :=
  match str with
  | c :: str' =>
      if op_digit ops c then
        let digit := op_value ops c in
        if (max - digit) / base <? result then (result, str, true)
        else digits_loop base str' (result * base + digit)
      else (result, str, false)
  | [] => (result, [], false)
  end.

(** [*endptr] after the check for trailing characters. *)
Definition final_end (str : list Z) : list Z :=
  match skip (op_trail ops) str with [] => str | rest => rest end.

(** From the base detection on; [clamp] is the value of an overflow. *)
Definition parse_digits (base : Z) (str : list Z) (sign clamp : Z) : parsed :=
  let '(base, str) :=
    if base =? 0 then (guess_base str, str)
    else if base =? 16 then (base, skip_0x str)
    else (base, str) in
  let '(result, str, overflow) := digits_loop base str 0 in
  if overflow : bool then Parsed clamp str (Some ERANGE)
  else Parsed (sign * result) (final_end str) None.

(** The optional sign and the character after it. *)
Definition take_sign (str : list Z) : Z * list Z :=
  match str with
  | c :: str' => if c =? 45 then (-1, str') else if c =? 43 then (1, str') else (1, str)
  | [] => (1, [])
  end.

(** [strict_base]: the test is [base < 2 || base > 36] with no exemption for 0. *)
Definition parse_signed (strict_base : bool) (min : Z) (str : list Z) (base : Z) : parsed :=
  let str := skip (op_space ops) str in
  let '(sign, str) := take_sign str in
  if (strict_base || negb (base =? 0)) && ((base <? 2) || (36 <? base))
  then Parsed 0 str (Some EINVAL)
  else parse_digits base str sign (if sign =? 1 then max else min).

Definition parse_unsigned (str : list Z) (base : Z) : parsed :=
  let str := skip (op_space ops) str in
  if negb (base =? 0) && ((base <? 2) || (36 <? base)) then Parsed 0 str (Some EINVAL)
  else parse_digits base str 1 max.
End SignedParser.

Definition strtoll : list Z -> Z -> parsed := parse_signed char_narrow LLONG_MAX false LLONG_MIN.
Definition strtol : list Z -> Z -> parsed := parse_signed char_narrow LLONG_MAX true LLONG_MIN.
Definition wcstoll : list Z -> Z -> parsed := parse_signed char_wide LLONG_MAX true LLONG_MIN.
Definition wcstol : list Z -> Z -> parsed := parse_signed char_wide LLONG_MAX true LLONG_MIN.
Definition strtoull : list Z -> Z -> parsed := parse_unsigned char_narrow ULLONG_MAX.

(** [(int)strtol(str, NULL, 10)] *)
Definition atoi (str : list Z) : Z := swrap 32 (pvalue_of (strtol str 10)).

(** [strtoul], [wcstoul], [wcstoull]: [k] is 0 before the first digit, 1 after
    it, -1 after an overflow; [result] is a signed 64-bit number, compared with
    [cutoff] as unsigned numbers in the narrow version (where [cutoff] is
    unsigned) and as signed numbers in the wide ones. *)
Record ul_ops := UlOps {
  ul_space : Z -> bool;
  ul_digit : Z -> bool;
  ul_alpha : Z -> bool;
  ul_upper : Z -> bool;
  ul_word : Z -> Z;             (** how the 64-bit patterns are compared *)
  ul_range : option errno_t     (** [errno] after an overflow *)
}.

Definition ul_narrow : ul_ops := UlOps isspace isdigit isalpha isupper (wrap 64) None.
Definition ul_wide : ul_ops := UlOps iswspace iswdigit iswalpha iswupper (swrap 64) (Some ERANGE).

Section UnsignedParser.
Variable ops : ul_ops.

(** The value of a digit character; [None] is the [break]. *)
Definition ul_value (c : Z) : option Z :=
  if ul_digit ops c then Some (c - 48)
  else if ul_alpha ops c then Some (if ul_upper ops c then c - 65 + 10 else c - 97 + 10)
  else None.

Fixpoint ul_loop (base : Z) (str : list Z) (k result : Z) : Z * Z * list Z :=
  match str with
  | [] => (k, result, [])
  | ch :: str' =>
      match ul_value ch with
      | None => (k, result, str)
      | Some c =>
          if base <=? c then (k, result, str)
          else
            let cutoff := ULLONG_MAX / wrap 64 base in
            let cutlim := ULLONG_MAX mod wrap 64 base in
            if (k <? 0) || (ul_word ops cutoff <? ul_word ops result)
               || ((ul_word ops result =? ul_word ops cutoff) && (ul_word ops cutlim <? c))
            then ul_loop base str' (-1) result
            else ul_loop base str' 1 (swrap 64 (swrap 64 (result * base) + c))
      end
  end.

Definition parse_ul (nptr : list Z) (base : Z) : parsed :=
  let str := skip (ul_space ops) nptr in
  let '(sign, str) := take_sign str in
  let '(base, str) :=
    if ((base =? 0) || (base =? 16)) && has_0x str then (16, drop 2 str) else (base, str) in
  let base := if base =? 0 then (if head str =? 48 then 8 else 10) else base in
  let '(k, result, str) := ul_loop base str 0 0 in
  let result := if k =? -1 then ULLONG_MAX else if sign =? -1 then - result else result in
  Parsed (wrap 64 result) (if k =? 0 then nptr else str) (if k =? -1 then ul_range ops else None).
End UnsignedParser.

Definition strtoul : list Z -> Z -> parsed := parse_ul ul_narrow.
Definition wcstoul : list Z -> Z -> parsed := parse_ul ul_wide.
Definition wcstoull : list Z -> Z -> parsed := parse_ul ul_wide.

(** ** What the digits denote *)

(** The value of the digits [ds] in [base], most significant first, after [acc]. *)
Definition digits_value (base acc : Z) (ds : list Z) : Z := foldl (fun v d => v * base + d) acc ds.

Lemma digits_value_ge base ds acc :
  1 <= base -> 0 <= acc -> Forall (fun d => 0 <= d) ds -> acc <= digits_value base acc ds.
Proof.
  intros Hb. revert acc; induction ds as [|d ds IH]; intros acc Ha Hd; simpl; [lia|].
  apply Forall_cons_1 in Hd as [H0 Hd]. etransitivity; [|apply IH; [nia|done]]. nia.
Qed.

Lemma skip_all test sp rest :
  Forall (fun c => test c = true) sp -> test (head rest) = false -> skip test (sp ++ rest) = rest.
Proof.
  intros Hs Hr. induction Hs as [|c sp Hc Hs IH]; simpl.
  - destruct rest as [|c rest]; [done|]. simpl in *. by rewrite Hr.
  - by rewrite Hc.
Qed.

(** The guard before the multiplication is exact. *)
Lemma overflow_guard max base digit result :
  0 < base -> (max - digit) / base < result <-> max < result * base + digit.
Proof.
  intros Hb. pose proof (Z.div_mod (max - digit) base ltac:(lia)).
  pose proof (Z.mod_pos_bound (max - digit) base ltac:(lia)). nia.
Qed.

Section DigitsLoop.
Context (ops : char_ops) (max base : Z) (Hbase : 1 <= base).

Lemma digits_loop_spec cs rest result :
  Forall (fun c => op_digit ops c = true /\ 0 <= op_value ops c) cs ->
  (rest = [] \/ op_digit ops (head rest) = false) -> 0 <= result <= max ->
  let v := digits_value base result (op_value ops <$> cs) in
  (v <= max -> digits_loop ops max base (cs ++ rest) result = (v, rest, false))
  /\ (max < v -> exists r cs', digits_loop ops max base (cs ++ rest) result = (r, cs' ++ rest, true)
        /\ cs' `suffix_of` cs).
Proof.
  intros Hcs Hrest. revert result; induction Hcs as [|c cs [Hd Hv] Hcs IH]; intros result Hr v.
  - subst v. cbn. split; [|lia]. intros _.
    destruct rest as [|c rest]; [done|]. simpl in *. destruct Hrest as [|Hrest]; [done|]. by rewrite Hrest.
  - cbn [app digits_loop]. rewrite Hd. cbv zeta. pose proof (overflow_guard max base (op_value ops c) result ltac:(lia)) as Hg.
    change v with (digits_value base (result * base + op_value ops c) (op_value ops <$> cs)) in *. clear v.
    set (v := digits_value _ _ _). assert (Hmono : result * base + op_value ops c <= v).
    { apply digits_value_ge; [done|nia|]. apply Forall_fmap. eapply list.Forall_impl; [exact Hcs|]. simpl; tauto. }
    destruct (Z.ltb_spec ((max - op_value ops c) / base) result) as [Hlt|Hge].
    + split; [lia|]. intros _. by exists result, (c :: cs).
    + destruct (IH (result * base + op_value ops c) ltac:(nia)) as [H1 H2]. split; [exact H1|].
      intros Hm. destruct (H2 Hm) as (r & cs' & E & Hsuf). exists r, cs'. split; [exact E|].
      by apply suffix_cons_r.
Qed.
End DigitsLoop.

(** ** The signed and unsigned narrow parsers *)

Definition hexval (c : Z) : Z := if isdigit c then c - 48 else tolower c - 97 + 10.

Lemma xdigit_cases c : isxdigit c = true -> 48 <= c <= 57 \/ 65 <= c <= 70 \/ 97 <= c <= 102.
Proof.
  unfold isxdigit, isdigit, tolower. intros H.
  destruct (Z.leb_spec 48 c), (Z.leb_spec c 57), (Z.leb_spec 65 c), (Z.leb_spec c 90); simpl in H; try lia;
    repeat match type of H with context [?a <=? ?b] => destruct (Z.leb_spec a b) end; simpl in H; lia || done.
Qed.

Lemma hexval_range c : isxdigit c = true -> 0 <= hexval c < 16.
Proof.
  intros H%xdigit_cases. unfold hexval, isdigit, tolower.
  destruct (Z.leb_spec 48 c), (Z.leb_spec c 57), (Z.leb_spec 65 c), (Z.leb_spec c 90); simpl; lia.
Qed.

(** On a character of an [unsigned char] the casts do nothing. *)
Lemma narrow_digit c : is_char c -> op_digit char_narrow c = isxdigit c.
Proof. unfold is_char. intros H. simpl. by rewrite wrap_small by lia. Qed.

Lemma narrow_value c : is_char c -> op_value char_narrow c = hexval c.
Proof. unfold is_char. intros H. simpl. by rewrite wrap_small by lia. Qed.

Lemma xdigit_char c : isxdigit c = true -> is_char c.
Proof. intros H%xdigit_cases. unfold is_char. lia. Qed.

Lemma narrow_digits cs :
  Forall (fun c => isxdigit c = true) cs ->
  Forall (fun c => op_digit char_narrow c = true /\ 0 <= op_value char_narrow c) cs
  /\ op_value char_narrow <$> cs = hexval <$> cs.
Proof.
  induction 1 as [|c cs Hc Hcs [IH1 IH2]]; [done|]. pose proof (xdigit_char c Hc) as Hch. split.
  - constructor; [|done]. rewrite narrow_digit, narrow_value by done. split; [done|].
    by apply hexval_range.
  - simpl. f_equal; [|done]. by apply narrow_value.
Qed.

(** Where the digits end: at the end of the string or at another character. *)
Definition ends_digits (rest : list Z) : Prop := rest = [] \/ (is_char (head rest) /\ isxdigit (head rest) = false).

Lemma parse_digits_narrow max base cs rest sign clamp :
  2 <= base <= 36 -> 0 <= max -> Forall (fun c => isxdigit c = true) cs -> ends_digits rest ->
  (base = 16 -> has_0x (cs ++ rest) = false) ->
  let v := digits_value base 0 (hexval <$> cs) in
  (v <= max -> parse_digits char_narrow max base (cs ++ rest) sign clamp
                 = Parsed (sign * v) (final_end char_narrow rest) None)
  /\ (max < v -> exists cs', parse_digits char_narrow max base (cs ++ rest) sign clamp
                 = Parsed clamp (cs' ++ rest) (Some ERANGE) /\ cs' `suffix_of` cs).
Proof.
  intros Hb Hmax Hcs Hend H0x v. destruct (narrow_digits cs Hcs) as [Hd Hv].
  assert (Hrest : rest = [] \/ op_digit char_narrow (head rest) = false).
  { destruct Hend as [|[H1 H2]]; [by left|right]. by rewrite narrow_digit. }
  destruct (digits_loop_spec char_narrow max base ltac:(lia) cs rest 0 Hd Hrest ltac:(lia)) as [L1 L2].
  rewrite Hv in L1, L2. unfold parse_digits.
  assert (E : (if base =? 0 then (guess_base (cs ++ rest), cs ++ rest)
     else if base =? 16 then (base, skip_0x (cs ++ rest)) else (base, cs ++ rest)) = (base, cs ++ rest)).
  { destruct (Z.eqb_spec base 0); [lia|]. destruct (Z.eqb_spec base 16) as [E|]; [|done].
    unfold skip_0x. by rewrite (H0x E). }
  rewrite E. split; intros Hm.
  - by rewrite (L1 Hm).
  - destruct (L2 Hm) as (r & cs' & -> & Hsuf). by exists cs'.
Qed.

(** A digit character is neither white space nor a sign. *)
Lemma xdigit_not_space c : isxdigit c = true -> isspace (wrap 8 c) = false /\ c <> 45 /\ c <> 43.
Proof.
  intros H%xdigit_cases. rewrite wrap_small by lia. split; [|lia]. unfold isspace.
  repeat match goal with |- context [?a =? ?b] => destruct (Z.eqb_spec a b); [lia|] end. done.
Qed.

Definition sign_chars : list (list Z * Z) := [([], 1); ([43], 1); ([45], -1)].

Lemma take_sign_chars sgn s a t :
  (sgn, s) ∈ sign_chars -> a <> 45 -> a <> 43 -> take_sign (sgn ++ a :: t) = (s, a :: t).
Proof.
  intros Hs H45 H43. unfold sign_chars in Hs.
  rewrite !elem_of_cons, elem_of_nil in Hs. destruct Hs as [?|[?|[?|[]]]]; simplify_eq/=; try done.
  by destruct (Z.eqb_spec a 45), (Z.eqb_spec a 43).
Qed.

Lemma skip_space_sign sp sgn s c str :
  Forall (fun c => isspace (wrap 8 c) = true) sp -> (sgn, s) ∈ sign_chars -> isxdigit c = true ->
  skip (op_space char_narrow) (sp ++ sgn ++ c :: str) = sgn ++ c :: str.
Proof.
  intros Hsp Hs [Hc _]%xdigit_not_space. apply skip_all; [done|]. unfold sign_chars in Hs.
  rewrite !elem_of_cons, elem_of_nil in Hs. by destruct Hs as [?|[?|[?|[]]]]; simplify_eq/=.
Qed.

Lemma strtoll_spec sp sgn s cs rest base :
  Forall (fun c => isspace (wrap 8 c) = true) sp -> (sgn, s) ∈ sign_chars ->
  cs <> [] -> Forall (fun c => isxdigit c = true) cs -> ends_digits rest -> 2 <= base <= 36 ->
  (base = 16 -> has_0x (cs ++ rest) = false) ->
  let v := digits_value base 0 (hexval <$> cs) in
  let r := strtoll (sp ++ sgn ++ cs ++ rest) base in
  if v <=? LLONG_MAX then r = Parsed (s * v) (final_end char_narrow rest) None
  else perrno r = Some ERANGE /\ pvalue_of r = (if s =? 1 then LLONG_MAX else LLONG_MIN)
       /\ exists cs', pend r = cs' ++ rest /\ cs' `suffix_of` cs.
Proof.
  intros Hsp Hs Hne Hcs Hend Hb H0x v r. subst r. unfold strtoll, parse_signed.
  destruct cs as [|c cs]; [done|]. pose proof (Forall_inv Hcs) as Hc. cbn [app].
  destruct (xdigit_not_space c Hc) as (_ & H45 & H43).
  rewrite (skip_space_sign sp sgn s), (take_sign_chars sgn s) by done.
  replace ((false || negb (base =? 0)) && ((base <? 2) || (36 <? base))) with false.
  2:{ destruct (Z.ltb_spec base 2), (Z.ltb_spec 36 base); lia || by rewrite andb_false_r. }
  destruct (parse_digits_narrow LLONG_MAX base (c :: cs) rest s (if s =? 1 then LLONG_MAX else LLONG_MIN)
    Hb ltac:(done) Hcs Hend H0x) as [L1 L2]. cbn [app] in L1, L2.
  destruct (Z.leb_spec v LLONG_MAX) as [Hv|Hv]; [by apply L1|].
  destruct (L2 Hv) as (cs' & -> & Hsuf). split; [done|]. split; [done|]. by exists cs'.
Qed.

(** [strtoll] is exact: after optional white space and an optional sign, the
    longest run of hexadecimal digit characters is read in the given base; the
    value is the signed number they denote when its magnitude is at most
    LLONG_MAX, and otherwise the result saturates to LLONG_MAX or LLONG_MIN with
    errno ERANGE.  The accumulator never leaves the range of a long long. *)
Theorem strtoll_correct sp sgn s cs rest base :
  Forall (fun c => isspace (wrap 8 c) = true) sp -> (sgn, s) ∈ sign_chars ->
  cs <> [] -> Forall (fun c => isxdigit c = true) cs -> ends_digits rest -> 2 <= base <= 36 ->
  (base = 16 -> has_0x (cs ++ rest) = false) ->
  let v := digits_value base 0 (hexval <$> cs) in
  let r := strtoll (sp ++ sgn ++ cs ++ rest) base in
  if v <=? LLONG_MAX then r = Parsed (s * v) (final_end char_narrow rest) None
  else perrno r = Some ERANGE /\ pvalue_of r = (if s =? 1 then LLONG_MAX else LLONG_MIN)
       /\ exists cs', pend r = cs' ++ rest /\ cs' `suffix_of` cs.
Proof. apply strtoll_spec. Qed.

(** [strtoull] is exact: after optional white space the longest run of
    hexadecimal digit characters is read in the given base; the value is the
    number they denote when it fits 64 bits, and ULLONG_MAX with errno ERANGE
    otherwise. *)
Theorem strtoull_correct sp cs rest base :
  Forall (fun c => isspace (wrap 8 c) = true) sp ->
  cs <> [] -> Forall (fun c => isxdigit c = true) cs -> ends_digits rest -> 2 <= base <= 36 ->
  (base = 16 -> has_0x (cs ++ rest) = false) ->
  let v := digits_value base 0 (hexval <$> cs) in
  let r := strtoull (sp ++ cs ++ rest) base in
  if v <=? ULLONG_MAX then r = Parsed v (final_end char_narrow rest) None
  else perrno r = Some ERANGE /\ pvalue_of r = ULLONG_MAX
       /\ exists cs', pend r = cs' ++ rest /\ cs' `suffix_of` cs.
Proof.
  intros Hsp Hne Hcs Hend Hb H0x v r. subst r. unfold strtoull, parse_unsigned.
  destruct cs as [|c cs]; [done|]. pose proof (Forall_inv Hcs) as Hc. cbn [app].
  pose proof (skip_space_sign sp [] 1 c (cs ++ rest) Hsp ltac:(by left) Hc) as Esk.
  cbn [app] in Esk. rewrite Esk.
  replace (negb (base =? 0) && ((base <? 2) || (36 <? base))) with false.
  2:{ destruct (Z.ltb_spec base 2), (Z.ltb_spec 36 base); lia || by rewrite andb_false_r. }
  destruct (parse_digits_narrow ULLONG_MAX base (c :: cs) rest 1 ULLONG_MAX
    Hb ltac:(done) Hcs Hend H0x) as [L1 L2]. cbn [app] in L1, L2.
  destruct (Z.leb_spec v ULLONG_MAX) as [Hv|Hv]; [by rewrite L1, Z.mul_1_l|].
  destruct (L2 Hv) as (cs' & -> & Hsuf). split; [done|]. split; [done|]. by exists cs'.
Qed.

(** ** strtoul *)

(** Adding a digit to the accumulator, on the 64-bit patterns. *)
Lemma ul_accumulate u base c :
  swrap 64 (swrap 64 (swrap 64 u * base) + c) = swrap 64 (u * base + c).
Proof.
  apply swrap_congr. unfold wrap at 1 2. rewrite Z.add_mod, (Z.add_mod (u * base)) by lia.
  do 2 f_equal. change (wrap 64 (swrap 64 (swrap 64 u * base)) = wrap 64 (u * base)).
  rewrite wrap_swrap by lia. unfold wrap. rewrite Z.mul_mod, (Z.mul_mod u) by lia. do 2 f_equal.
  change (wrap 64 (swrap 64 u) = wrap 64 u). by rewrite wrap_swrap by lia.
Qed.

(** The comparison with the quotient and the remainder is the comparison of the product. *)
Lemma cutoff_guard base u c :
  2 <= base -> 0 <= c < base ->
  (ULLONG_MAX / base < u \/ (u = ULLONG_MAX / base /\ ULLONG_MAX mod base < c)) <-> ULLONG_MAX < u * base + c.
Proof.
  intros Hb Hc. pose proof (Z.div_mod ULLONG_MAX base ltac:(lia)).
  pose proof (Z.mod_pos_bound ULLONG_MAX base ltac:(lia)). nia.
Qed.

Definition ul_stops (base : Z) (rest : list Z) : Prop :=
  rest = [] \/ match ul_value ul_narrow (head rest) with Some d => base <= d | None => True end.

Lemma ul_loop_stop base rest k result :
  ul_stops base rest -> ul_loop ul_narrow base rest k result = (k, result, rest).
Proof.
  intros Hs. destruct rest as [|c rest]; [done|]. destruct Hs as [|Hs]; [done|]. cbn [ul_loop head] in *.
  destruct (ul_value ul_narrow c); [|done]. by destruct (Z.leb_spec base z); [|lia].
Qed.

Section UlLoop.
Context (base : Z) (Hbase : 2 <= base <= 36) (rest : list Z) (Hrest : ul_stops base rest).

(** After an overflow the remaining digits are only skipped. *)
Lemma ul_loop_overflowed cs ds result :
  Forall2 (fun c d => ul_value ul_narrow c = Some d /\ 0 <= d < base) cs ds ->
  ul_loop ul_narrow base (cs ++ rest) (-1) result = (-1, result, rest).
Proof.
  induction 1 as [|c d cs ds [Hv Hd] Hcs IH]; cbn [app ul_loop]; [by apply ul_loop_stop|].
  rewrite Hv. destruct (Z.leb_spec base d); [lia|]. exact IH.
Qed.

Lemma ul_loop_spec cs ds k u :
  Forall2 (fun c d => ul_value ul_narrow c = Some d /\ 0 <= d < base) cs ds ->
  0 <= k -> 0 <= u <= ULLONG_MAX ->
  let v := digits_value base u ds in
  if v <=? ULLONG_MAX
  then ul_loop ul_narrow base (cs ++ rest) k (swrap 64 u)
         = (if bool_decide (cs = []) then k else 1, swrap 64 v, rest)
  else exists r, ul_loop ul_narrow base (cs ++ rest) k (swrap 64 u) = (-1, r, rest).
Proof.
  intros Hcs. revert k u; induction Hcs as [|c d cs ds [Hv Hd] Hcs IH]; intros k u Hk Hu v.
  { subst v. cbn. destruct (Z.leb_spec u ULLONG_MAX); [|lia]. by apply ul_loop_stop. }
  cbn [app ul_loop]. rewrite Hv. destruct (Z.leb_spec base d); [lia|].
  rewrite (wrap_small 64 base) by lia. cbn [ul_word ul_narrow].
  unfold ULLONG_MAX in *. rewrite wrap_swrap by lia.
  pose proof (cutoff_guard base u d ltac:(lia) Hd) as Hg. unfold ULLONG_MAX in Hg.
  pose proof (Z.div_le_upper_bound (2 ^ 64 - 1) base (2 ^ 64 - 1) ltac:(lia) ltac:(lia)).
  pose proof (Z.div_pos (2 ^ 64 - 1) base ltac:(lia) ltac:(lia)).
  pose proof (Z.mod_pos_bound (2 ^ 64 - 1) base ltac:(lia)).
  rewrite !(wrap_small 64) by lia. destruct (Z.ltb_spec k 0); [lia|]. cbn [orb].
  assert (Hmono : u * base + d <= v).
  { subst v. cbn. apply digits_value_ge; [lia|nia|].
    clear -Hcs. induction Hcs as [|? ? ? ? [_ H]]; constructor; [lia|done]. }
  destruct (Z.ltb_spec ((2 ^ 64 - 1) / base) u) as [Hq|Hq]; cbn [orb].
  - destruct (Z.leb_spec v (2 ^ 64 - 1)); [lia|]. eexists. by eapply ul_loop_overflowed.
  - destruct (Z.eqb_spec u ((2 ^ 64 - 1) / base)) as [He|He], (Z.ltb_spec ((2 ^ 64 - 1) mod base) d) as [Hr|Hr]; cbn [andb];
      try (rewrite ul_accumulate; specialize (IH 1 (u * base + d) ltac:(lia) ltac:(nia)); cbn beta zeta in IH;
           change (digits_value base (u * base + d) ds) with v in IH;
           destruct (v <=? 2 ^ 64 - 1); [rewrite IH; by case_bool_decide|exact IH]).
    destruct (Z.leb_spec v (2 ^ 64 - 1)); [lia|]. eexists. by eapply ul_loop_overflowed.
Qed.
End UlLoop.

(** How the base argument [b0] and the prefix [pre] of the digits determine the base. *)
Inductive ul_base : Z -> list Z -> list Z -> Z -> Prop :=
| UlGiven base str : 2 <= base <= 36 -> (base = 16 -> has_0x str = false) -> ul_base base [] str base
| UlHex b0 x str : b0 = 0 \/ b0 = 16 -> x = 120 \/ x = 88 -> ul_base b0 [48; x] str 16
| UlOctal str : head str = 48 -> has_0x str = false -> ul_base 0 [] str 8
| UlDecimal str : head str <> 48 -> ul_base 0 [] str 10.

Lemma ul_base_range b0 pre str base : ul_base b0 pre str base -> 2 <= base <= 36.
Proof. destruct 1; lia. Qed.

Lemma has_0x_hex x str : x = 120 \/ x = 88 -> has_0x (48 :: x :: str) = true.
Proof. by intros [->| ->]. Qed.

Lemma has_0x_head str : head str <> 48 -> has_0x str = false.
Proof. intros H. unfold has_0x. by destruct (Z.eqb_spec (head str) 48). Qed.

(** The base detection of [strtoul]. *)
Lemma ul_base_detect b0 pre str base :
  ul_base b0 pre str base ->
  (let '(b, s) := if ((b0 =? 0) || (b0 =? 16)) && has_0x (pre ++ str) then (16, drop 2 (pre ++ str))
                  else (b0, pre ++ str) in
   (if b =? 0 then (if head s =? 48 then 8 else 10) else b, s)) = (base, str).
Proof.
  intros H. destruct H as [base str Hb H16|b0 x str Hb Hx|str H48 H0|str H48].
  - cbn [app]. destruct (Z.eqb_spec base 0); [lia|]. cbn [orb].
    destruct (Z.eqb_spec base 16) as [E|]; cbn [andb]; [rewrite (H16 E)|];
      by destruct (Z.eqb_spec base 0); [lia|].
  - cbn [app]. rewrite has_0x_hex by done. by destruct Hb as [->| ->].
  - cbn [app]. rewrite H0. cbn. by rewrite H48.
  - cbn [app]. rewrite has_0x_head by done. cbn. by destruct (Z.eqb_spec (head str) 48).
Qed.

Lemma ul_digit_char c d :
  ul_value ul_narrow c = Some d -> isspace c = false /\ c <> 45 /\ c <> 43.
Proof.
  unfold ul_value, ul_narrow, isalpha, isdigit, isupper, islower. cbn. intros H.
  assert (48 <= c <= 57 \/ 65 <= c <= 90 \/ 97 <= c <= 122) as Hc.
  { destruct (Z.leb_spec 48 c), (Z.leb_spec c 57), (Z.leb_spec 65 c), (Z.leb_spec c 90),
      (Z.leb_spec 97 c), (Z.leb_spec c 122); simpl in H; try done; lia. }
  split; [|lia]. unfold isspace.
  repeat match goal with |- context [?a =? ?b] => destruct (Z.eqb_spec a b); [lia|] end. done.
Qed.

(** The first character after the sign. *)
Lemma ul_first b0 pre cs ds rest base :
  ul_base b0 pre (cs ++ rest) base -> cs <> [] ->
  Forall2 (fun c d => ul_value ul_narrow c = Some d /\ 0 <= d < base) cs ds ->
  exists a t, pre ++ cs ++ rest = a :: t /\ isspace a = false /\ a <> 45 /\ a <> 43.
Proof.
  intros Hb Hne Hcs. destruct Hcs as [|c d cs ds [Hc%ul_digit_char _] Hcs]; [done|].
  inversion Hb; subst; cbn; try (by exists c, (cs ++ rest)). eexists 48, _. done.
Qed.

Lemma ul_skip sp sgn s a t :
  Forall (fun c => isspace c = true) sp -> (sgn, s) ∈ sign_chars -> isspace a = false ->
  skip isspace (sp ++ sgn ++ a :: t) = sgn ++ a :: t.
Proof.
  intros Hsp Hs Ha. apply skip_all; [done|]. unfold sign_chars in Hs.
  rewrite !elem_of_cons, elem_of_nil in Hs. by destruct Hs as [?|[?|[?|[]]]]; simplify_eq/=.
Qed.

Lemma strtoul_spec sp sgn s pre cs ds rest b0 base :
  Forall (fun c => isspace c = true) sp -> (sgn, s) ∈ sign_chars ->
  ul_base b0 pre (cs ++ rest) base -> cs <> [] ->
  Forall2 (fun c d => ul_value ul_narrow c = Some d /\ 0 <= d < base) cs ds -> ul_stops base rest ->
  let v := digits_value base 0 ds in
  strtoul (sp ++ sgn ++ pre ++ cs ++ rest) b0
    = Parsed (if v <=? ULLONG_MAX then wrap 64 (s * v) else ULLONG_MAX) rest None.
Proof.
  intros Hsp Hs Hb Hne Hcs Hrest v. pose proof (ul_base_range _ _ _ _ Hb) as Hr.
  pose proof (ul_base_detect _ _ _ _ Hb) as Hdet. unfold strtoul, parse_ul. cbn [ul_space ul_narrow].
  pose proof (ul_loop_spec base Hr rest Hrest cs ds 0 0 Hcs ltac:(lia) ltac:(done)) as Hl.
  destruct (ul_first b0 pre cs ds rest base Hb Hne Hcs) as (a & t & E & Ha & H45 & H43).
  rewrite E in *. rewrite (ul_skip sp sgn s a t Hsp Hs Ha), (take_sign_chars sgn s a t Hs H45 H43).
  destruct (if ((b0 =? 0) || (b0 =? 16)) && has_0x (a :: t) then _ else _) as [b str] in *.
  injection Hdet as Eb Es. rewrite Eb, Es. cbv zeta in Hl. fold v in Hl. change (swrap 64 0) with 0 in Hl.
  assert (Hsgn : s = 1 \/ s = -1).
  { unfold sign_chars in Hs. rewrite !elem_of_cons, elem_of_nil in Hs. clear -Hs.
    destruct Hs as [?|[?|[?|[]]]]; simplify_eq; auto. }
  destruct (v <=? ULLONG_MAX).
  - rewrite bool_decide_false in Hl by done. rewrite Hl. cbn. f_equal.
    destruct Hsgn as [-> | ->].
    + change (1 =? -1) with false. cbv iota. by rewrite Z.mul_1_l, wrap_swrap by lia.
    + change (-1 =? -1) with true. cbv iota. by rewrite wrap_opp_swrap by lia.
  - destruct Hl as [r ->]. done.
Qed.

(** [strtoul] is correct for every base and prefix: after white space, a sign
    and the prefix, it reads exactly the digits of the base; the value is the
    number they denote, negated modulo 2^64 after a minus sign, or ULONG_MAX when
    it does not fit; the end pointer is behind the last digit even then. *)
Theorem strtoul_correct sp sgn s pre cs ds rest b0 base :
  Forall (fun c => isspace c = true) sp -> (sgn, s) ∈ sign_chars ->
  ul_base b0 pre (cs ++ rest) base -> cs <> [] ->
  Forall2 (fun c d => ul_value ul_narrow c = Some d /\ 0 <= d < base) cs ds -> ul_stops base rest ->
  let v := digits_value base 0 ds in
  strtoul (sp ++ sgn ++ pre ++ cs ++ rest) b0
    = Parsed (if v <=? ULLONG_MAX then wrap 64 (s * v) else ULLONG_MAX) rest None.
Proof. apply strtoul_spec. Qed.

(** ** Examples *)

(** "  -7f" in base 16 followed by a space *)
Lemma strtoll_correct_witness :
  strtoll ([32;32] ++ [45] ++ [55;102] ++ [32]) 16 = Parsed (-127) [32] None.
Proof.
  refine (strtoll_correct [32;32] [45] (-1) [55;102] [32] 16 _ _ _ _ _ _ _).
  - repeat constructor.
  - by do 2 right; left.
  - done.
  - repeat constructor.
  - right. split; [done|done].
  - lia.
  - done.
Defined.

(** 2^64 in decimal saturates. *)
Lemma strtoull_correct_witness :
  let r := strtoull ([] ++ [49;56;52;52;54;55;52;52;48;55;51;55;48;57;53;53;49;54;49;54] ++ []) 10 in
  perrno r = Some ERANGE /\ pvalue_of r = ULLONG_MAX
  /\ exists cs', pend r = cs' ++ []
     /\ cs' `suffix_of` [49;56;52;52;54;55;52;52;48;55;51;55;48;57;53;53;49;54;49;54].
Proof.
  refine (strtoull_correct [] [49;56;52;52;54;55;52;52;48;55;51;55;48;57;53;53;49;54;49;54] [] 10 _ _ _ _ _ _).
  - done.
  - done.
  - repeat constructor.
  - by left.
  - lia.
  - done.
Defined.

(** "-0x1F" with base 0 *)
Lemma strtoul_correct_witness :
  strtoul ([] ++ [45] ++ [48;120] ++ [49;70] ++ []) 0 = Parsed (2 ^ 64 - 31) [] None.
Proof.
  refine (strtoul_correct [] [45] (-1) [48;120] [49;70] [1;15] [] 0 16 _ _ _ _ _ _).
  - done.
  - by do 2 right; left.
  - apply UlHex; by left.
  - done.
  - repeat constructor; done.
  - by left.
Defined.

(** ** Where the parsers deviate from the C standard *)

(** Base 0 recognises 0x but does not step over it: the value is 0 and the end
    pointer is at the x. *)
Lemma strtoull_base0_hex : strtoull [48;120;49;48] 0 = Parsed 0 [120;49;48] None.
Proof. done. Qed.

(** Digits are not compared with the base: "19" in base 8 is 17. *)
Lemma strtoull_digit_beyond_base : strtoull [49;57] 8 = Parsed 17 [] None.
Proof. done. Qed.

(** [strtol] rejects base 0. *)
Lemma strtol_base0 str : perrno (strtol str 0) = Some EINVAL.
Proof. unfold strtol, parse_signed. by destruct (take_sign _). Qed.

(** [wcstoul] compares signed numbers, so 20 nines are not an overflow. *)
Lemma wcstoul_misses_overflow :
  wcstoul (replicate 20 57) 10 = Parsed (wrap 64 (10 ^ 20 - 1)) [] None
  /\ strtoul (replicate 20 57) 10 = Parsed ULLONG_MAX [] None.
Proof. done. Qed.

(** [wcstol] tests the low byte of a wide character: U+0130 is the digit 256. *)
Lemma wcstol_truncated_digit : wcstol [304] 10 = Parsed 256 [] None.
Proof. done. Qed.

(** [toupper] changes nothing, [isalnum] rejects letters. *)
Lemma toupper_identity c : toupper c = c.
Proof. unfold toupper. by destruct (Z.leb_spec 97 c), (Z.leb_spec c 90); simpl; try lia. Qed.
Lemma isalnum_isdigit c : isalnum c = isdigit c.
Proof. done. Qed.
