(* ===== verification/BusObject.v ===== *)
(** * libc/src/generic/pmos/pmbus_object.h/object.c

    The bus object a driver publishes on pmbus: a name and a table of
    properties kept sorted by name, its construction, lookup and release.  Strings,
    arrays of strings and the table are owned blocks ([Alloc]); an access outside
    the table is a [Fault].  The IPC encoding of objects is in [BusCodec]. *)

From stdpp Require Import base list numbers gmap sorting.
From S2P Require Import Prelude CMem CString Alloc.

(** ** Data *)

Inductive pvalue : Type :=
| PString (s_val : ostr)
| PInteger (i_val : Z)
| PList (l_blk : nat) (l_val : list ostr).

Record property := Property { pname : ostr; pval : pvalue }.

(** [num_properties] is the length of [oprops]; [oslots] is the number of
    properties the block [opblk] has room for. *)
Record bus_object := BusObject {
  oblk : nat;
  oname : option ostr;
  opblk : nat;
  oprops : list property;
  ocapacity : Z;
  oslots : Z
}.

Definition TABLE_INITIAL_CAPACITY : Z := 8.
(** [sizeof(pmos_property_t)] and [sizeof(pmos_bus_object_t)] on a 64-bit target. *)
Definition property_size : Z := 24.
Definition object_size : Z := 32.

Definition set_props (obj : bus_object) (ps : list property) : bus_object :=
  BusObject (oblk obj) (oname obj) (opblk obj) ps (ocapacity obj) (oslots obj).

(** ** Construction and release *)

Definition pmos_bus_object_create : AM (option bus_object) :=
  obj ← malloc object_size;
  match obj with
  | None => mret None
  | Some obj =>
      table ← malloc (property_size * TABLE_INITIAL_CAPACITY);
      match table with
      | None => _ ← free obj; mret None
      | Some table =>
          mret (Some (BusObject obj None table [] TABLE_INITIAL_CAPACITY TABLE_INITIAL_CAPACITY))
      end
  end.

Fixpoint free_strings (l : list ostr) : AM unit :=
  match l with
  | [] => mret tt
  | s :: l => _ ← free (sblk s); free_strings l
  end.

Definition release_property (p : property) : AM unit :=
  _ ← (match pval p with
       | PString s => free (sblk s)
       | PList b l => _ ← free_strings l; free b
       | PInteger _ => mret tt
       end);
  free (sblk (pname p)).

Fixpoint release_properties (ps : list property) : AM unit :=
  match ps with
  | [] => mret tt
  | p :: ps => _ ← release_property p; release_properties ps
  end.

Definition pmos_bus_object_free (obj : option bus_object) : AM unit :=
  match obj with
  | None => mret tt
  | Some obj =>
      _ ← free_opt (sblk <$> oname obj);
      _ ← release_properties (oprops obj);
      free (opblk obj)
  end.

Definition pmos_bus_object_set_name (obj : option bus_object) (name : option cstring)
    : AM (bool * option bus_object) :=
  match obj, name with
  | Some o, Some name =>
      new_name ← astrdup name;
      match new_name with
      | None => mret (false, obj)
      | Some n =>
          _ ← free_opt (sblk <$> oname o);
          mret (true, Some (BusObject (oblk o) (Some n) (opblk o) (oprops o) (ocapacity o) (oslots o)))
      end
  | _, _ => mret (false, obj)
  end.

Definition pmos_bus_object_get_name (obj : option bus_object) : option cstring :=
  o ← obj; n ← oname o; Some (sbytes n).

(** ** The property table *)

Definition prop_key (p : property) : cstring := sbytes (pname p).

Definition lower_bound (key : cstring) (properties : list property) (count : nat) : option nat :=
  bisect (S count)
    (fun mid => p ← properties !! mid; Some (str_diff (prop_key p) key <? 0)) 0 count.

(** The [realloc] branch of [set_property]; [None] when it fails. *)
Definition grow_table (obj : bus_object) : AM (option bus_object) :=
  let new_capacity := wrap 64 (ocapacity obj * 2) in
  let bytes := wrap 64 (new_capacity * property_size) in
  new_p ← realloc (Some (opblk obj)) bytes;
  match new_p with
  | None => mret None
  | Some b =>
      mret (Some (BusObject (oblk obj) (oname obj) b (oprops obj) new_capacity (bytes / property_size)))
  end.

(** The insertion branch of [set_property]. *)
Definition insert_property (obj : bus_object) (pos : nat) (prop : property) : AM (bool * bus_object) :=
  grown ← (if zlen (oprops obj) <=? ocapacity obj then grow_table obj else mret (Some obj));
  match grown with
  | None => _ ← release_property prop; mret (false, obj)
  | Some obj =>
      if zlen (oprops obj) + 1 <=? oslots obj
      then mret (true, set_props obj (take pos (oprops obj) ++ prop :: drop pos (oprops obj)))
      else afault
  end.

Definition set_property (obj : bus_object) (prop : property) : AM (bool * bus_object) :=
  match lower_bound (prop_key prop) (oprops obj) (length (oprops obj)) with
  | None => afault
  | Some pos =>
      match oprops obj !! pos with
      | Some old =>
          if str_diff (prop_key old) (prop_key prop) =? 0 then
            _ ← release_property old;
            mret (true, set_props obj (<[pos := prop]> (oprops obj)))
          else insert_property obj pos prop
      | None => insert_property obj pos prop
      end
  end.

(** The outer [None] is an access outside the table. *)
Definition pmos_bus_object_get_property (object : option bus_object) (prop_name : option cstring)
    : option (option property) :=
  match object, prop_name with
  | Some o, Some key =>
      pos ← lower_bound key (oprops o) (length (oprops o));
      match oprops o !! pos with
      | Some p => if str_diff (prop_key p) key =? 0 then Some (Some p) else Some None
      | None => Some None
      end
  | _, _ => Some None
  end.

Definition pmos_bus_object_set_property_string (obj : bus_object) (prop_name value : cstring)
    : AM (bool * bus_object) :=
  new_name ← astrdup prop_name;
  match new_name with
  | None => mret (false, obj)
  | Some new_name =>
      new_val ← astrdup value;
      match new_val with
      | None => _ ← free (sblk new_name); mret (false, obj)
      | Some new_val => set_property obj (Property new_name (PString new_val))
      end
  end.

Definition pmos_bus_object_set_property_integer (obj : bus_object) (prop_name : cstring) (value : Z)
    : AM (bool * bus_object) :=
  new_name ← astrdup prop_name;
  match new_name with
  | None => mret (false, obj)
  | Some new_name => set_property obj (Property new_name (PInteger value))
  end.

(** The copying loop of [set_property_list]: on failure the copies made so far are freed. *)
Fixpoint dup_strings (value : list cstring) (l_val : list ostr) : AM (option (list ostr)) :=
  match value with
  | [] => mret (Some l_val)
  | s :: value =>
      o ← astrdup s;
      match o with
      | None => _ ← free_strings l_val; mret None
      | Some o => dup_strings value (l_val ++ [o])
      end
  end.

Definition pmos_bus_object_set_property_list (obj : option bus_object) (prop_name : option cstring)
    (value : option (list cstring)) : AM (bool * option bus_object) :=
  match obj, prop_name, value with
  | Some o, Some prop_name, Some value =>
      name_cloned ← astrdup prop_name;
      match name_cloned with
      | None => mret (false, obj)
      | Some name_cloned =>
          l_val ← malloc (8 * (zlen value + 1));
          match l_val with
          | None => _ ← free (sblk name_cloned); mret (false, obj)
          | Some b =>
              l ← dup_strings value [];
              match l with
              | None =>
                  _ ← free (sblk name_cloned);
                  _ ← free b;
                  mret (false, obj)
              | Some l =>
                  '(r, o) ← set_property o (Property name_cloned (PList b l));
                  mret (r, Some o)
              end
          end
      end
  | _, _, _ => mret (false, obj)
  end.

(** ** Ownership *)

Definition value_blocks (v : pvalue) : list nat :=
  match v with
  | PString s => [sblk s]
  | PInteger _ => []
  | PList b l => b :: (sblk <$> l)
  end.

Definition prop_blocks (p : property) : list nat := sblk (pname p) :: value_blocks (pval p).
Definition props_blocks (ps : list property) : list nat := mjoin (prop_blocks <$> ps).
Definition obj_blocks (o : bus_object) : list nat :=
  oblk o :: opblk o :: option_list (sblk <$> oname o) ++ props_blocks (oprops o).

Lemma props_blocks_cons p ps : props_blocks (p :: ps) = prop_blocks p ++ props_blocks ps.
Proof. done. Qed.

Lemma props_blocks_app ps qs : props_blocks (ps ++ qs) = props_blocks ps ++ props_blocks qs.
Proof. unfold props_blocks. by rewrite fmap_app, join_app. Qed.

Lemma free_strings_owned h l bs fr :
  owns h ((sblk <$> l) ++ bs) fr ->
  exists h', free_strings l h = Ok (tt, h') /\ owns h' bs fr /\ oracle h' = oracle h.
Proof.
  revert h; induction l as [|s l IH]; intros h Ho; simpl in *; [by exists h|].
  destruct (free_owned h _ _ _ Ho) as (h1 & E & Ho1 & Eo & _).
  erewrite abind_ok by exact E. destruct (IH h1 Ho1) as (h2 & E2 & Ho2 & Eo2).
  exists h2. split; [done|]. split; [done|congruence].
Qed.

Lemma release_property_owned h p bs fr :
  owns h (prop_blocks p ++ bs) fr ->
  exists h', release_property p h = Ok (tt, h') /\ owns h' bs fr /\ oracle h' = oracle h.
Proof.
  intros Ho. unfold release_property.
  assert (exists h1, (match pval p with
       | PString s => free (sblk s)
       | PList b l => _ ← free_strings l; free b
       | PInteger _ => mret tt
       end) h = Ok (tt, h1) /\ owns h1 (sblk (pname p) :: bs) fr /\ oracle h1 = oracle h)
    as (h1 & E & Ho1 & Eo1).
  { apply (owns_perm _ _ (value_blocks (pval p) ++ sblk (pname p) :: bs)) in Ho.
    2:{ unfold prop_blocks. solve_Permutation. }
    destruct (pval p) as [s|v|b l]; simpl in *.
    - destruct (free_owned h _ _ _ Ho) as (h1 & ? & ? & ? & _). eauto.
    - by exists h.
    - apply (owns_perm _ _ ((sblk <$> l) ++ b :: sblk (pname p) :: bs)) in Ho; [|solve_Permutation].
      destruct (free_strings_owned h l _ _ Ho) as (h1 & E1 & Ho1 & Eo1).
      erewrite abind_ok by exact E1. destruct (free_owned h1 _ _ _ Ho1) as (h2 & E2 & Ho2 & Eo2 & _).
      exists h2. split; [done|]. split; [done|congruence]. }
  erewrite abind_ok by exact E. destruct (free_owned h1 _ _ _ Ho1) as (h2 & E2 & Ho2 & Eo2 & _).
  exists h2. split; [done|]. split; [done|congruence].
Qed.

Lemma release_properties_owned h ps bs fr :
  owns h (props_blocks ps ++ bs) fr ->
  exists h', release_properties ps h = Ok (tt, h') /\ owns h' bs fr /\ oracle h' = oracle h.
Proof.
  revert h; induction ps as [|p ps IH]; intros h Ho; cbn [release_properties]; [by exists h|].
  rewrite props_blocks_cons, <- app_assoc in Ho.
  destruct (release_property_owned h p _ _ Ho) as (h1 & E & Ho1 & Eo).
  erewrite abind_ok by exact E. destruct (IH h1 Ho1) as (h2 & E2 & Ho2 & Eo2).
  exists h2. split; [done|]. split; [done|congruence].
Qed.

(** ** The sorted table as a finite map *)

(** The value of a property without the identity of its blocks. *)
Inductive aval : Type := AString (s : cstring) | AInteger (v : Z) | AList (l : list cstring).

Definition abs_value (v : pvalue) : aval :=
  match v with
  | PString s => AString (sbytes s)
  | PInteger v => AInteger v
  | PList _ l => AList (sbytes <$> l)
  end.

Definition abs_entry (p : property) : cstring * aval := (prop_key p, abs_value (pval p)).

(** The abstract state of an object: a finite map from names to values. *)
Definition abs_props (ps : list property) : gmap (list Z) aval := list_to_map (abs_entry <$> ps).

Definition key_lt (p q : property) : Prop := str_lt (prop_key p) (prop_key q).

Definition table_ok (ps : list property) : Prop :=
  StronglySorted key_lt ps /\ Forall (fun p => str_ok (prop_key p)) ps.

Definition object_ok (o : bus_object) : Prop :=
  table_ok (oprops o) /\ zlen (oprops o) <= ocapacity o /\ 0 < ocapacity o
  /\ oslots o = ocapacity o.

Lemma str_lt_irrefl s : ~ str_lt s s.
Proof. induction s as [|a s IH]; simpl; [tauto|]. intros [?|[_ ?]]; [lia|done]. Qed.

Lemma str_lt_total s t : str_ok s -> str_ok t -> str_lt s t \/ s = t \/ str_lt t s.
Proof.
  intros Hs Ht. destruct (Z.lt_trichotomy (str_diff s t) 0) as [H|[H|H]].
  - left. by apply str_diff_lt.
  - right; left. by apply str_diff_eq.
  - right; right. apply str_diff_lt; [done|done|]. rewrite str_diff_opp. lia.
Qed.

(** Where [lower_bound] stops: before it the smaller names, from it the rest. *)
Lemma table_split key ps :
  table_ok ps -> str_ok key ->
  exists lo hi, ps = lo ++ hi
    /\ lower_bound key ps (length ps) = Some (length lo)
    /\ Forall (fun p => str_lt (prop_key p) key) lo
    /\ Forall (fun p => ~ str_lt (prop_key p) key) hi.
Proof.
  intros [Hs Hok] Hk.
  set (f := fun p => str_diff (prop_key p) key <? 0).
  assert (Hf : forall p, str_ok (prop_key p) -> f p = true <-> str_lt (prop_key p) key).
  { intros p Hp. unfold f. rewrite Z.ltb_lt. by apply str_diff_lt. }
  rewrite Forall_lookup in Hok.
  destruct (mono_split f ps) as (lo & hi & -> & Hlo & Hhi).
  { intros i j x y Hij Hx Hy Hfy. apply Hf in Hfy; [|eauto]. apply Hf; [eauto|].
    apply str_lt_trans with (prop_key y); [|done].
    by apply (sorted_lookup key_lt _ i j x y Hs). }
  exists lo, hi. split; [done|]. split; [by apply (bisect_split f (lo ++ hi) lo hi)|]. split.
  - rewrite list.Forall_forall in *. intros p Hp. apply Hf; [|by apply Hlo].
    destruct (proj1 (list_elem_of_lookup (lo ++ hi) p)) as [i Hi]; [apply elem_of_app; by left|eauto].
  - rewrite list.Forall_forall in *. intros p Hp Hlt. apply Hf in Hlt; [by rewrite Hhi in Hlt|].
    destruct (proj1 (list_elem_of_lookup (lo ++ hi) p)) as [i Hi]; [apply elem_of_app; by right|eauto].
Qed.

(** What [set_property] does to the table: replace the entry of that name, or
    insert a new one in its place in the order. *)
Definition tbl_set (p : property) (lo hi : list property) : list property :=
  match hi with
  | q :: hi' => if str_diff (prop_key q) (prop_key p) =? 0 then lo ++ p :: hi' else lo ++ p :: hi
  | [] => lo ++ [p]
  end.

Lemma table_ok_app lo hi :
  table_ok (lo ++ hi) <-> (forall p q, p ∈ lo -> q ∈ hi -> key_lt p q) /\ table_ok lo /\ table_ok hi.
Proof. unfold table_ok. rewrite StronglySorted_app, Forall_app. tauto. Qed.

Lemma table_ok_cons p ps :
  table_ok (p :: ps) <-> Forall (key_lt p) ps /\ str_ok (prop_key p) /\ table_ok ps.
Proof. unfold table_ok. rewrite StronglySorted_cons, Forall_cons. tauto. Qed.

Lemma table_ok_insert p lo hi :
  table_ok (lo ++ hi) -> str_ok (prop_key p) ->
  Forall (fun q => str_lt (prop_key q) (prop_key p)) lo ->
  Forall (fun q => str_lt (prop_key p) (prop_key q)) hi ->
  table_ok (lo ++ p :: hi).
Proof.
  rewrite !table_ok_app, table_ok_cons. intros (Hc & H1 & H2) Hk Hlo Hhi.
  split; [|done]. intros a b Ha Hb. rewrite list.Forall_forall in Hlo.
  apply elem_of_cons in Hb as [->|Hb]; [by apply Hlo|by apply Hc].
Qed.

(** The entries from the insertion point on are larger, the first one apart
    when it has the same name. *)
Lemma table_hi p q lo hi :
  table_ok (lo ++ q :: hi) -> str_ok (prop_key p) -> ~ str_lt (prop_key q) (prop_key p) ->
  Forall (key_lt p) hi /\ (prop_key q = prop_key p \/ key_lt p q).
Proof.
  intros Hok Hk Hq. apply table_ok_app in Hok as (_ & _ & Hok).
  apply table_ok_cons in Hok as (Hlt & Hqk & _).
  assert (Hc : prop_key q = prop_key p \/ key_lt p q).
  { destruct (str_lt_total (prop_key q) (prop_key p)) as [?|[?|?]]; [done|done|done|by left|by right]. }
  split; [|done]. eapply list.Forall_impl; [exact Hlt|]. intros r Hr. unfold key_lt in *.
  destruct Hc as [Hc|Hc]; [by rewrite <- Hc|]. by apply str_lt_trans with (prop_key q).
Qed.

Lemma tbl_set_ok p lo hi :
  table_ok (lo ++ hi) -> str_ok (prop_key p) ->
  Forall (fun q => str_lt (prop_key q) (prop_key p)) lo ->
  Forall (fun q => ~ str_lt (prop_key q) (prop_key p)) hi ->
  table_ok (tbl_set p lo hi).
Proof.
  intros Hok Hk Hlo Hhi. unfold tbl_set. destruct hi as [|q hi].
  { by apply table_ok_insert. }
  inversion Hhi as [|? ? Hq Hhi']; subst.
  destruct (table_hi p q lo hi Hok Hk Hq) as [Hr Hc]. pose proof Hok as Hok0.
  apply table_ok_app in Hok as (H0 & H1 & H2). apply table_ok_cons in H2 as (H3 & H4 & H5).
  case_if.
  - apply table_ok_insert; [|done|done|done]. apply table_ok_app.
    split; [|done]. intros a b Ha Hb. apply H0; [done|by right].
  - apply table_ok_insert; [done|done|done|]. constructor; [|done].
    destruct Hc as [Hc|Hc]; [|done]. rewrite Hc, str_diff_refl in *. done.
Qed.

(** The abstract effect is the insertion into the map. *)
Lemma abs_props_insert p lo hi :
  Forall (fun q => str_lt (prop_key q) (prop_key p)) lo ->
  abs_props (lo ++ p :: hi) = <[prop_key p := abs_value (pval p)]> (abs_props (lo ++ hi)).
Proof.
  induction lo as [|q lo IH]; intros Hlo; [done|].
  inversion Hlo as [|? ? Hq Hlo']; subst. specialize (IH Hlo').
  unfold abs_props in *. cbn. rewrite IH.
  apply insert_insert_ne. intros E. rewrite E in Hq. by apply str_lt_irrefl in Hq.
Qed.

Lemma abs_props_tbl_set p lo hi :
  table_ok (lo ++ hi) -> str_ok (prop_key p) ->
  Forall (fun q => str_lt (prop_key q) (prop_key p)) lo ->
  abs_props (tbl_set p lo hi) = <[prop_key p := abs_value (pval p)]> (abs_props (lo ++ hi)).
Proof.
  intros Hok Hk Hlo. unfold tbl_set. destruct hi as [|q hi]; [by apply abs_props_insert|].
  case_if; [|by apply abs_props_insert].
  apply table_ok_app in Hok as (_ & _ & Hok). apply table_ok_cons in Hok as (_ & Hq & _).
  assert (E : prop_key q = prop_key p) by (by apply str_diff_eq).
  rewrite abs_props_insert by done. rewrite (abs_props_insert q) by (by rewrite E).
  by rewrite E, insert_insert_eq.
Qed.

(** ** Operations on the table *)

Lemma grow_table_cases h o bs fr :
  object_ok o -> ocapacity o * 2 * property_size < 2 ^ 64 ->
  owns h (obj_blocks o ++ bs) fr ->
  (exists b h', grow_table o h = Ok (Some (BusObject (oblk o) (oname o) b (oprops o)
                                      (ocapacity o * 2) (ocapacity o * 2)), h')
     /\ owns h' (obj_blocks (BusObject (oblk o) (oname o) b (oprops o)
                   (ocapacity o * 2) (ocapacity o * 2)) ++ bs) fr
     /\ oracle h' = oracle h)
  \/ (exists h', grow_table o h = Ok (None, h') /\ owns h' (obj_blocks o ++ bs) fr
        /\ oracle h' = oracle h /\ ~ plenty h).
Proof.
  intros (_ & _ & Hpos & _) Hbig Ho. unfold grow_table.
  rewrite (wrap_small 64 (ocapacity o * 2)) by (unfold property_size in *; lia).
  rewrite (wrap_small 64 (ocapacity o * 2 * property_size)) by (unfold property_size in *; lia).
  rewrite Z.div_mul by done.
  apply (owns_perm _ _ (option_list (Some (opblk o)) ++ oblk o :: option_list (sblk <$> oname o) ++
    props_blocks (oprops o) ++ bs)) in Ho; [|unfold obj_blocks; simpl; solve_Permutation].
  destruct (realloc_cases _ _ (ocapacity o * 2 * property_size) _ _ Ho)
    as [(b & h' & E & Ho' & Eo)|(h' & E & Ho' & Eo & Hp)]; erewrite abind_ok by exact E.
  - left. exists b, h'. split; [done|]. split; [|done].
    eapply owns_perm; [|exact Ho']. unfold obj_blocks; simpl. solve_Permutation.
  - right. exists h'. split; [done|]. split; [|done].
    eapply owns_perm; [|exact Ho']. unfold obj_blocks; simpl. solve_Permutation.
Qed.

Lemma insert_property_cases h o lo hi p bs fr :
  object_ok o -> oprops o = lo ++ hi -> table_ok (lo ++ p :: hi) ->
  ocapacity o * 2 * property_size < 2 ^ 64 ->
  owns h (obj_blocks o ++ prop_blocks p ++ bs) fr ->
  (exists o' h', insert_property o (length lo) p h = Ok ((true, o'), h')
     /\ oprops o' = lo ++ p :: hi /\ oblk o' = oblk o /\ oname o' = oname o
     /\ ocapacity o' = ocapacity o * 2
     /\ object_ok o' /\ owns h' (obj_blocks o' ++ bs) fr /\ oracle h' = oracle h)
  \/ (exists h', insert_property o (length lo) p h = Ok ((false, o), h')
        /\ owns h' (obj_blocks o ++ bs) fr /\ oracle h' = oracle h /\ ~ plenty h).
Proof.
  intros Hok Hps Htbl Hbig Ho. pose proof Hok as (_ & Hcap & Hpos & Hsl). unfold insert_property.
  destruct (Z.leb_spec (zlen (oprops o)) (ocapacity o)); [|lia].
  destruct (grow_table_cases h o (prop_blocks p ++ bs) fr Hok Hbig Ho)
    as [(b & h' & E & Ho' & Eo)|(h' & E & Ho' & Eo & Hp)]; erewrite abind_ok by exact E.
  - left. simpl. destruct (Z.leb_spec (zlen (oprops o) + 1) (ocapacity o * 2)); [|lia].
    eexists _, h'. split; [reflexivity|]. unfold set_props; simpl.
    rewrite Hps, take_app_length, drop_app_length.
    split; [done|]. split; [done|]. split; [done|]. split; [done|]. split.
    + split; [done|]. simpl. split; [|lia]. rewrite Hps in *. zl.
    + split; [|done]. eapply owns_perm; [|exact Ho']. unfold obj_blocks; simpl.
      rewrite Hps, !props_blocks_app, props_blocks_cons. solve_Permutation.
  - right. apply (owns_perm _ _ (prop_blocks p ++ obj_blocks o ++ bs)) in Ho'; [|solve_Permutation].
    destruct (release_property_owned h' p _ _ Ho') as (h2 & E2 & Ho2 & Eo2).
    exists h2. erewrite abind_ok by exact E2. split; [done|]. split; [done|]. split; [congruence|done].
Qed.

(** What a setter promises: the object stays well formed, the blocks of the
    new entry have moved into it or have been freed, and on success the map has
    the new binding; failure, possible only when memory runs out, leaves the
    object as it was. *)
Definition setter_post (h : heap) (o : bus_object) (key : cstring) (v : aval) (bs fr : list nat)
    (r : bool) (o' : bus_object) (h' : heap) : Prop :=
  oracle h' = oracle h /\ owns h' (obj_blocks o' ++ bs) fr /\ object_ok o'
  /\ oblk o' = oblk o /\ oname o' = oname o /\
  if r then abs_props (oprops o') = <[key := v]> (abs_props (oprops o))
            /\ ocapacity o <= ocapacity o' <= ocapacity o * 2
            /\ (Forall (fun e => str_lt (prop_key e) key) (oprops o) ->
                  abs_entry <$> oprops o' = (abs_entry <$> oprops o) ++ [(key, v)])
  else o' = o /\ ~ plenty h.

Lemma tbl_set_last p lo hi :
  Forall (fun e => str_lt (prop_key e) (prop_key p)) (lo ++ hi) ->
  Forall (fun q => ~ str_lt (prop_key q) (prop_key p)) hi ->
  tbl_set p lo hi = (lo ++ hi) ++ [p].
Proof.
  intros Hall Hhi. apply Forall_app in Hall as [_ H]. destruct hi as [|q hi]; simpl.
  - by rewrite app_nil_r.
  - inversion H; inversion Hhi; by subst.
Qed.

Lemma set_property_spec h o p bs fr :
  object_ok o -> str_ok (prop_key p) -> ocapacity o * 2 * property_size < 2 ^ 64 ->
  owns h (obj_blocks o ++ prop_blocks p ++ bs) fr ->
  exists r o' h', set_property o p h = Ok ((r, o'), h')
    /\ setter_post h o (prop_key p) (abs_value (pval p)) bs fr r o' h'.
Proof.
  intros Hok Hk Hbig Ho. pose proof Hok as (Htbl & Hcap & Hpos & Hsl).
  destruct (table_split (prop_key p) (oprops o) Htbl Hk) as (lo & hi & Hps & Hlb & Hlo & Hhi).
  unfold set_property. rewrite Hlb. rewrite Hps in Htbl.
  pose proof (tbl_set_ok p lo hi Htbl Hk Hlo Hhi) as Hset.
  pose proof (abs_props_tbl_set p lo hi Htbl Hk Hlo) as Habs.
  pose proof (tbl_set_last p lo hi) as Hlast.
  assert (Hins : tbl_set p lo hi = lo ++ p :: hi ->
    exists r o' h', insert_property o (length lo) p h = Ok ((r, o'), h')
      /\ setter_post h o (prop_key p) (abs_value (pval p)) bs fr r o' h').
  { intros E. rewrite E in *.
    destruct (insert_property_cases h o lo hi p bs fr)
      as [(o' & h' & E1 & E2 & E3 & E4 & E5 & E6 & E7 & E8)|(h' & E1 & E2 & E3 & E4)]; try done.
    - exists true, o', h'. split; [done|]. unfold setter_post. rewrite E2, Hps.
      do 5 (split; [done|]). split; [done|]. split; [lia|].
      intros Hall. rewrite Hlast by done. by rewrite !fmap_app.
    - exists false, o, h'. done. }
  destruct hi as [|old hi].
  { rewrite Hps, app_nil_r, lookup_ge_None_2 by lia. by apply Hins. }
  rewrite Hps, list_lookup_middle by done. unfold tbl_set in *.
  destruct (Z.eqb_spec (str_diff (prop_key old) (prop_key p)) 0) as [Heq|Hne]; [|by apply Hins].
  clear Hins. assert (Hrel : owns h (prop_blocks old ++ (oblk o :: opblk o ::
    option_list (sblk <$> oname o) ++ props_blocks lo ++ prop_blocks p ++ props_blocks hi ++ bs)) fr).
  { eapply owns_perm; [|exact Ho]. unfold obj_blocks. rewrite Hps, props_blocks_app, props_blocks_cons.
    solve_Permutation. }
  destruct (release_property_owned h old _ _ Hrel) as (h' & E & Ho' & Eo).
  erewrite abind_ok by exact E. eexists true, _, h'. split; [reflexivity|].
  assert (Hi : <[length lo := p]> (lo ++ old :: hi) = lo ++ p :: hi).
  { rewrite <- (Nat.add_0_r (length lo)) at 1. by rewrite insert_app_r. }
  rewrite Hi. unfold setter_post, set_props, obj_blocks. simpl. rewrite Hps.
  split; [done|]. split.
  { eapply owns_perm; [|exact Ho']. rewrite props_blocks_app, props_blocks_cons. solve_Permutation. }
  split.
  { split; [done|]. simpl. rewrite Hps in Hcap. zlen_simpl. lia. }
  do 2 (split; [done|]). split; [done|]. split; [lia|].
  intros Hall. rewrite Hlast by done. by rewrite !fmap_app.
Qed.

Lemma set_property_string_spec h o key value bs fr :
  object_ok o -> str_ok key -> ocapacity o * 2 * property_size < 2 ^ 64 ->
  owns h (obj_blocks o ++ bs) fr ->
  exists r o' h', pmos_bus_object_set_property_string o key value h = Ok ((r, o'), h')
    /\ setter_post h o key (AString value) bs fr r o' h'.
Proof.
  intros Hok Hk Hbig Ho. unfold pmos_bus_object_set_property_string.
  destruct (astrdup_cases h key _ _ Ho) as [(n & h1 & E1 & En & Ho1 & Eo1)|(h1 & E1 & Ho1 & Eo1 & Hp)];
    erewrite abind_ok by exact E1; [|by exists false, o, h1].
  destruct (astrdup_cases h1 value _ _ Ho1) as [(v & h2 & E2 & Ev & Ho2 & Eo2)|(h2 & E2 & Ho2 & Eo2 & Hp)];
    erewrite abind_ok by exact E2.
  - destruct (set_property_spec h2 o (Property n (PString v)) bs fr) as (r & o' & h' & E & Hpost);
      [done|unfold prop_key; simpl; by rewrite En|done| |].
    { eapply owns_perm; [|exact Ho2]. unfold prop_blocks; simpl. solve_Permutation. }
    exists r, o', h'. split; [done|]. unfold setter_post, plenty, prop_key in *. simpl in *.
    rewrite En, Ev, Eo2, Eo1 in Hpost. exact Hpost.
  - destruct (free_owned h2 _ _ _ Ho2) as (h3 & E3 & Ho3 & Eo3 & _). erewrite abind_ok by exact E3.
    exists false, o, h3. split; [done|]. unfold setter_post, plenty in *.
    rewrite Eo3, Eo2, Eo1 in *. done.
Qed.

Lemma set_property_integer_spec h o key value bs fr :
  object_ok o -> str_ok key -> ocapacity o * 2 * property_size < 2 ^ 64 ->
  owns h (obj_blocks o ++ bs) fr ->
  exists r o' h', pmos_bus_object_set_property_integer o key value h = Ok ((r, o'), h')
    /\ setter_post h o key (AInteger value) bs fr r o' h'.
Proof.
  intros Hok Hk Hbig Ho. unfold pmos_bus_object_set_property_integer.
  destruct (astrdup_cases h key _ _ Ho) as [(n & h1 & E1 & En & Ho1 & Eo1)|(h1 & E1 & Ho1 & Eo1 & Hp)];
    erewrite abind_ok by exact E1; [|by exists false, o, h1].
  destruct (set_property_spec h1 o (Property n (PInteger value)) bs fr) as (r & o' & h' & E & Hpost);
    [done|unfold prop_key; simpl; by rewrite En|done| |].
  { eapply owns_perm; [|exact Ho1]. unfold prop_blocks; simpl. solve_Permutation. }
  exists r, o', h'. split; [done|]. unfold setter_post, plenty, prop_key in *. simpl in *.
  rewrite En, Eo1 in Hpost. exact Hpost.
Qed.

Lemma dup_strings_cases h value acc bs fr :
  owns h ((sblk <$> acc) ++ bs) fr ->
  (exists l h', dup_strings value acc h = Ok (Some l, h') /\ sbytes <$> l = (sbytes <$> acc) ++ value
     /\ owns h' ((sblk <$> l) ++ bs) fr /\ oracle h' = oracle h)
  \/ (exists h', dup_strings value acc h = Ok (None, h') /\ owns h' bs fr
        /\ oracle h' = oracle h /\ ~ plenty h).
Proof.
  revert h acc; induction value as [|s value IH]; intros h acc Ho; cbn [dup_strings].
  - left. exists acc, h. by rewrite app_nil_r.
  - destruct (astrdup_cases h s _ _ Ho) as [(o & h1 & E1 & Es & Ho1 & Eo1)|(h1 & E1 & Ho1 & Eo1 & Hp)];
      erewrite abind_ok by exact E1.
    + destruct (IH h1 (acc ++ [o])) as [(l & h2 & E2 & El & Ho2 & Eo2)|(h2 & E2 & Ho2 & Eo2 & Hp)].
      { eapply owns_perm; [|exact Ho1]. rewrite fmap_app. simpl. solve_Permutation. }
      * left. exists l, h2. split; [done|]. rewrite El, fmap_app, <- app_assoc. simpl. rewrite Es.
        split; [done|]. split; [done|congruence].
      * right. exists h2. split; [done|]. split; [done|]. split; [congruence|].
        unfold plenty in *. by rewrite Eo1 in Hp.
    + right. destruct (free_strings_owned h1 acc _ _ Ho1) as (h2 & E2 & Ho2 & Eo2).
      erewrite abind_ok by exact E2. exists h2. split; [done|]. split; [done|]. split; [congruence|done].
Qed.

Lemma set_property_list_spec h o key value bs fr :
  object_ok o -> str_ok key -> ocapacity o * 2 * property_size < 2 ^ 64 ->
  owns h (obj_blocks o ++ bs) fr ->
  exists r o' h', pmos_bus_object_set_property_list (Some o) (Some key) (Some value) h = Ok ((r, Some o'), h')
    /\ setter_post h o key (AList value) bs fr r o' h'.
Proof.
  intros Hok Hk Hbig Ho. unfold pmos_bus_object_set_property_list.
  destruct (astrdup_cases h key _ _ Ho) as [(n & h1 & E1 & En & Ho1 & Eo1)|(h1 & E1 & Ho1 & Eo1 & Hp)];
    erewrite abind_ok by exact E1; [|by exists false, o, h1].
  destruct (malloc_cases h1 (8 * (zlen value + 1))) as [[Et E2]|[Ef E2]]; erewrite abind_ok by exact E2.
  - set (h2 := Heap _ _ _). set (b := calls h1).
    assert (Ho2 : owns h2 ((sblk <$> []) ++ b :: sblk n :: obj_blocks o ++ bs) fr).
    { unfold owns in *. simpl. by rewrite Ho1. }
    destruct (dup_strings_cases h2 value [] _ _ Ho2)
      as [(l & h3 & E3 & El & Ho3 & Eo3)|(h3 & E3 & Ho3 & Eo3 & Hp)]; erewrite abind_ok by exact E3.
    + destruct (set_property_spec h3 o (Property n (PList b l)) bs fr) as (r & o' & h' & E & Hpost);
        [done|unfold prop_key; simpl; by rewrite En|done| |].
      { eapply owns_perm; [|exact Ho3]. unfold prop_blocks; simpl. solve_Permutation. }
      erewrite abind_ok by exact E. exists r, o', h'. split; [done|].
      unfold setter_post, plenty, prop_key in *. simpl in *. rewrite En, El, Eo3, Eo1 in Hpost. exact Hpost.
    + apply (owns_perm _ _ (sblk n :: b :: obj_blocks o ++ bs)) in Ho3; [|solve_Permutation].
      destruct (free_owned h3 _ _ _ Ho3) as (h4 & E4 & Ho4 & Eo4 & _). erewrite abind_ok by exact E4.
      destruct (free_owned h4 _ _ _ Ho4) as (h5 & E5 & Ho5 & Eo5 & _). erewrite abind_ok by exact E5.
      exists false, o, h5. split; [done|]. unfold setter_post, plenty in *.
      rewrite Eo5, Eo4, Eo3 in *. simpl in *. rewrite Eo1 in *. done.
  - set (h2 := Heap _ _ _). assert (Ho2 : owns h2 (sblk n :: obj_blocks o ++ bs) fr) by exact Ho1.
    destruct (free_owned h2 _ _ _ Ho2) as (h3 & E3 & Ho3 & Eo3 & _). erewrite abind_ok by exact E3.
    exists false, o, h3. split; [done|]. unfold setter_post. rewrite Eo3. simpl. rewrite Eo1.
    do 5 (split; [done|]). split; [done|]. intros Hpl. unfold plenty in Hpl. by rewrite Eo1, Hpl in Ef.
Qed.

(** ** Lookup *)

Lemma abs_props_lo lo hi key :
  Forall (fun q => str_lt (prop_key q) key) lo -> abs_props (lo ++ hi) !! key = abs_props hi !! key.
Proof.
  intros Hlo. induction Hlo as [|q lo Hq Hlo IH]; [done|].
  unfold abs_props in *. cbn. rewrite lookup_insert_ne; [done|].
  intros E. rewrite E in Hq. by apply str_lt_irrefl in Hq.
Qed.

Lemma abs_props_hi hi key :
  Forall (fun q => str_lt key (prop_key q)) hi -> abs_props hi !! key = None.
Proof.
  intros Hhi. induction Hhi as [|q hi Hq Hhi IH]; [done|].
  unfold abs_props in *. cbn. rewrite lookup_insert_ne; [done|].
  intros E. rewrite E in Hq. by apply str_lt_irrefl in Hq.
Qed.

Lemma get_property_spec o key :
  object_ok o -> str_ok key ->
  exists r, pmos_bus_object_get_property (Some o) (Some key) = Some r
    /\ (fun p => abs_value (pval p)) <$> r = abs_props (oprops o) !! key.
Proof.
  intros (Htbl & _) Hk. unfold pmos_bus_object_get_property.
  destruct (table_split key (oprops o) Htbl Hk) as (lo & hi & Hps & Hlb & Hlo & Hhi).
  rewrite Hlb. cbn [mbind option_bind]. rewrite Hps in *. rewrite abs_props_lo by done.
  destruct hi as [|q hi].
  { exists None. by rewrite app_nil_r, lookup_ge_None_2 by lia. }
  rewrite list_lookup_middle by done. inversion Hhi as [|? ? Hq _]; subst.
  pose proof Htbl as Htbl'. apply table_ok_app in Htbl' as (_ & _ & Hq2).
  apply table_ok_cons in Hq2 as (Hlt & Hqk & _).
  destruct (Z.eqb_spec (str_diff (prop_key q) key) 0) as [E|E].
  - exists (Some q). split; [done|]. apply str_diff_eq in E; [|done|done]. subst key.
    unfold abs_props. cbn. by rewrite lookup_insert_eq.
  - exists None. split; [done|]. symmetry. apply abs_props_hi.
    assert (Hkq : str_lt key (prop_key q)).
    { destruct (str_lt_total (prop_key q) key) as [?|[H|?]]; [done|done|done| |done].
      rewrite H, str_diff_refl in E. done. }
    constructor; [done|]. eapply list.Forall_impl; [exact Hlt|]. intros r Hr.
    by apply str_lt_trans with (prop_key q).
Qed.

Lemma create_cases h bs fr :
  owns h bs fr ->
  (exists o h', pmos_bus_object_create h = Ok (Some o, h') /\ oprops o = [] /\ oname o = None
     /\ ocapacity o = TABLE_INITIAL_CAPACITY /\ object_ok o
     /\ owns h' (obj_blocks o ++ bs) fr /\ oracle h' = oracle h)
  \/ (exists h', pmos_bus_object_create h = Ok (None, h') /\ owns h' bs fr
        /\ oracle h' = oracle h /\ ~ plenty h).
Proof.
  intros Ho. unfold pmos_bus_object_create.
  destruct (malloc_cases h object_size) as [[Et E]|[Ef E]]; erewrite abind_ok by exact E.
  2:{ right. eexists. split; [done|]. split; [done|]. split; [done|].
      intros Hp. by rewrite Hp in Ef. }
  set (h1 := Heap _ _ _). assert (Ho1 : owns h1 (calls h :: bs) fr) by (unfold owns in *; simpl; by rewrite Ho).
  destruct (malloc_cases h1 (property_size * TABLE_INITIAL_CAPACITY)) as [[Et2 E2]|[Ef2 E2]];
    erewrite abind_ok by exact E2.
  - left. eexists _, _. split; [reflexivity|]. do 3 (split; [done|]). split; [|split; [|done]].
    + split; [split; constructor|]. simpl. unfold TABLE_INITIAL_CAPACITY. zlen_simpl. lia.
    + unfold owns, obj_blocks in *. simpl in *. rewrite Ho1. solve_Permutation.
  - right. set (h2 := Heap _ _ _). assert (Ho2 : owns h2 (calls h :: bs) fr) by exact Ho1.
    destruct (free_owned h2 _ _ _ Ho2) as (h3 & E3 & Ho3 & Eo3 & _). erewrite abind_ok by exact E3.
    exists h3. split; [done|]. split; [done|]. split; [by rewrite Eo3|].
    intros Hp. unfold plenty in Hp. simpl in Ef2. by rewrite Hp in Ef2.
Qed.

Lemma object_free_owned h o bs fr :
  owns h (obj_blocks o ++ bs) fr ->
  exists h', pmos_bus_object_free (Some o) h = Ok (tt, h') /\ owns h' (oblk o :: bs) fr
    /\ oracle h' = oracle h.
Proof.
  intros Ho. unfold pmos_bus_object_free.
  apply (owns_perm _ _ (option_list (sblk <$> oname o) ++ props_blocks (oprops o) ++
    opblk o :: oblk o :: bs)) in Ho; [|unfold obj_blocks; solve_Permutation].
  destruct (free_opt_owned h _ _ _ Ho) as (h1 & E1 & Ho1 & Eo1 & _). erewrite abind_ok by exact E1.
  destruct (release_properties_owned h1 _ _ _ Ho1) as (h2 & E2 & Ho2 & Eo2). erewrite abind_ok by exact E2.
  destruct (free_owned h2 _ _ _ Ho2) as (h3 & E3 & Ho3 & Eo3 & _).
  exists h3. split; [done|]. split; [done|congruence].
Qed.

Lemma set_name_cases h o name bs fr :
  owns h (obj_blocks o ++ bs) fr ->
  (exists o' h', pmos_bus_object_set_name (Some o) (Some name) h = Ok ((true, Some o'), h')
     /\ pmos_bus_object_get_name (Some o') = Some name /\ oprops o' = oprops o
     /\ ocapacity o' = ocapacity o /\ oslots o' = oslots o
     /\ owns h' (obj_blocks o' ++ bs) fr /\ oracle h' = oracle h)
  \/ (exists h', pmos_bus_object_set_name (Some o) (Some name) h = Ok ((false, Some o), h')
        /\ owns h' (obj_blocks o ++ bs) fr /\ ~ plenty h).
Proof.
  intros Ho. unfold pmos_bus_object_set_name.
  destruct (astrdup_cases h name _ _ Ho) as [(n & h1 & E1 & En & Ho1 & Eo1)|(h1 & E1 & Ho1 & Eo1 & Hp)];
    erewrite abind_ok by exact E1; [left|right; by exists h1].
  apply (owns_perm _ _ (option_list (sblk <$> oname o) ++ sblk n :: oblk o :: opblk o ::
    props_blocks (oprops o) ++ bs)) in Ho1; [|unfold obj_blocks; solve_Permutation].
  destruct (free_opt_owned h1 _ _ _ Ho1) as (h2 & E2 & Ho2 & Eo2 & _). erewrite abind_ok by exact E2.
  eexists _, h2. split; [reflexivity|]. simpl. split; [by rewrite En|]. do 3 (split; [done|]).
  split; [|congruence]. eapply owns_perm; [|exact Ho2]. unfold obj_blocks; simpl. solve_Permutation.
Qed.

(** A name that is not in the map goes in front of the larger names. *)
Lemma fresh_table_insert p lo hi ps :
  ps = lo ++ hi -> table_ok ps -> str_ok (prop_key p) ->
  Forall (fun q => str_lt (prop_key q) (prop_key p)) lo ->
  Forall (fun q => ~ str_lt (prop_key q) (prop_key p)) hi ->
  abs_props ps !! prop_key p = None ->
  table_ok (lo ++ p :: hi)
  /\ forall q, ps !! length lo = Some q -> str_diff (prop_key q) (prop_key p) <> 0.
Proof.
  intros -> Hok Hk Hlo Hhi Hnone. rewrite abs_props_lo in Hnone by done.
  destruct hi as [|q hi].
  { split; [by apply table_ok_insert|]. intros q. by rewrite app_nil_r, lookup_ge_None_2 by lia. }
  apply Forall_cons in Hhi as [Hq Hhi]. destruct (table_hi p q lo hi Hok Hk Hq) as [Hr Hc].
  assert (Hne : prop_key q <> prop_key p).
  { intros E. unfold abs_props in Hnone. cbn in Hnone. rewrite E in Hnone.
    by rewrite lookup_insert_eq in Hnone. }
  destruct Hc as [Hc|Hc]; [done|]. split.
  - apply table_ok_insert; [done|done|done|]. by constructor.
  - intros q'. rewrite list_lookup_middle by done. intros [= <-].
    apply table_ok_app in Hok as (_ & _ & Hok). apply table_ok_cons in Hok as (_ & Hqk & _).
    by rewrite str_diff_eq.
Qed.

(** ** Properties *)

(** C11. Setting a property refines insertion into a finite map: on a well-formed
    object [set_property] returns without touching memory it does not own; on
    success the object stays well formed and denotes the old map with the new
    binding, having taken over the blocks of the property and released those of
    the entry it replaced; on failure, which only exhausted memory causes, the
    object is as before and the property's blocks have been released. *)
Theorem set_property_refines_insert h o p bs fr :
  object_ok o -> str_ok (prop_key p) -> ocapacity o * 2 * property_size < 2 ^ 64 ->
  owns h (obj_blocks o ++ prop_blocks p ++ bs) fr ->
  exists r o' h', set_property o p h = Ok ((r, o'), h')
    /\ owns h' (obj_blocks o' ++ bs) fr /\ object_ok o' /\ oname o' = oname o
    /\ if r then abs_props (oprops o') = <[prop_key p := abs_value (pval p)]> (abs_props (oprops o))
       else o' = o /\ ~ plenty h.
Proof.
  intros Hok Hk Hcap Ho. destruct (set_property_spec h o p bs fr Hok Hk Hcap Ho)
    as (r & o' & h' & E & (_ & Ho' & Hok' & _ & En & Hr)).
  exists r, o', h'. split_and!; try done. destruct r; [apply Hr|done].
Qed.

(** Setting a list property copies the name, the array and every string; a
    copy that fails half way releases everything made so far, so the setter
    either inserts the list or leaves the object and the set of live blocks as
    they were. *)
Theorem set_property_list_refines h o key value bs fr :
  object_ok o -> str_ok key -> ocapacity o * 2 * property_size < 2 ^ 64 ->
  owns h (obj_blocks o ++ bs) fr ->
  exists r o' h',
    pmos_bus_object_set_property_list (Some o) (Some key) (Some value) h = Ok ((r, Some o'), h')
    /\ owns h' (obj_blocks o' ++ bs) fr /\ object_ok o'
    /\ if r then abs_props (oprops o') = <[key := AList value]> (abs_props (oprops o))
       else o' = o /\ ~ plenty h.
Proof.
  intros Hok Hk Hcap Ho. destruct (set_property_list_spec h o key value bs fr Hok Hk Hcap Ho)
    as (r & o' & h' & E & (_ & Ho' & Hok' & _ & _ & Hr)).
  exists r, o', h'. split_and!; try done. destruct r; [apply Hr|done].
Qed.

(** Looking a property up by bisection is the lookup of the finite map the
    sorted table denotes, and never reads outside the table. *)
Theorem get_property_lookup o key :
  object_ok o -> str_ok key ->
  exists r, pmos_bus_object_get_property (Some o) (Some key) = Some r
    /\ (fun p => abs_value (pval p)) <$> r = abs_props (oprops o) !! key.
Proof. apply get_property_spec. Qed.

(** Freeing an object releases its name, its table and everything its
    properties own, without a double free, but not the object's own block: that
    block is what remains of it. *)
Theorem object_free_leaks_struct h o bs fr :
  owns h (obj_blocks o ++ bs) fr ->
  exists h', pmos_bus_object_free (Some o) h = Ok (tt, h') /\ owns h' (oblk o :: bs) fr.
Proof. intros Ho. destruct (object_free_owned h o bs fr Ho) as (h' & E & Ho' & _). by exists h'. Qed.

(** Every insertion of a new name doubles the capacity of the table, however
    empty the table is. *)
Theorem insert_doubles_capacity h o p bs fr :
  object_ok o -> str_ok (prop_key p) -> abs_props (oprops o) !! prop_key p = None ->
  ocapacity o * 2 * property_size < 2 ^ 64 -> plenty h ->
  owns h (obj_blocks o ++ prop_blocks p ++ bs) fr ->
  exists o' h', set_property o p h = Ok ((true, o'), h') /\ ocapacity o' = ocapacity o * 2.
Proof.
  intros Hok Hk Hnone Hcap Hp Ho. pose proof Hok as (Htbl & _).
  destruct (table_split (prop_key p) (oprops o) Htbl Hk) as (lo & hi & Hps & Hlb & Hlo & Hhi).
  pose proof (fresh_table_insert p lo hi (oprops o) Hps Htbl Hk Hlo Hhi Hnone) as [Hok2 Hkey].
  unfold set_property. rewrite Hlb.
  destruct (insert_property_cases h o lo hi p bs fr Hok Hps Hok2 Hcap Ho)
    as [(o' & h' & E & _ & _ & _ & Ec & _)|(h' & _ & _ & _ & Hn)]; [|done].
  exists o', h'. split; [|done]. destruct (oprops o !! length lo) as [q|] eqn:Eq; [|done].
  destruct (Z.eqb_spec (str_diff (prop_key q) (prop_key p)) 0) as [E0|_]; [|done].
  by destruct (Hkey q eq_refl).
Qed.

(** ** Example *)

Definition sample_object : bus_object :=
  BusObject 0 (Some (OStr 1 [112;99;105])) 2
    [Property (OStr 3 [100;101;118]) (PString (OStr 4 [110;118;109;101]));
     Property (OStr 5 [105;114;113]) (PInteger 11)] 8 8.

Definition sample_property : property := Property (OStr 6 [105;114;113]) (PInteger 12).
Definition sample_new : property := Property (OStr 6 [104]) (PInteger 12).

Definition sample_heap : heap := Heap (fun _ _ => true) 10 [0;2;1;3;4;5;6]%nat.

Lemma sample_ok : object_ok sample_object.
Proof. split; [|done]. split; repeat constructor; unfold key_lt, prop_key; simpl; lia. Qed.

Lemma sample_owns p : sblk (pname p) = 6%nat -> value_blocks (pval p) = [] ->
  owns sample_heap (obj_blocks sample_object ++ prop_blocks p ++ []) [].
Proof. intros H1 H2. unfold owns, prop_blocks. rewrite H1, H2. reflexivity. Qed.

Lemma set_property_refines_insert_witness :
  exists r o' h', set_property sample_object sample_property sample_heap = Ok ((r, o'), h')
    /\ owns h' (obj_blocks o' ++ []) [] /\ object_ok o' /\ oname o' = oname sample_object
    /\ if r then abs_props (oprops o') = <[[105;114;113] := AInteger 12]> (abs_props (oprops sample_object))
       else o' = sample_object /\ ~ plenty sample_heap.
Proof.
  apply (set_property_refines_insert sample_heap sample_object sample_property [] []).
  - apply sample_ok.
  - repeat constructor.
  - done.
  - by apply sample_owns.
Defined.

Lemma set_property_list_refines_witness :
  exists r o' h', pmos_bus_object_set_property_list (Some sample_object) (Some [97]) (Some [[98];[99;100]])
      sample_heap = Ok ((r, Some o'), h')
    /\ owns h' (obj_blocks o' ++ [6%nat]) [] /\ object_ok o'
    /\ if r then abs_props (oprops o') = <[[97] := AList [[98];[99;100]]]> (abs_props (oprops sample_object))
       else o' = sample_object /\ ~ plenty sample_heap.
Proof.
  apply (set_property_list_refines sample_heap sample_object [97] [[98];[99;100]] [6%nat] []).
  - apply sample_ok.
  - repeat constructor.
  - done.
  - unfold owns. reflexivity.
Defined.

Lemma get_property_lookup_witness :
  exists r, pmos_bus_object_get_property (Some sample_object) (Some [105;114;113]) = Some r
    /\ (fun p => abs_value (pval p)) <$> r = Some (AInteger 11).
Proof. apply (get_property_lookup sample_object [105;114;113]); [apply sample_ok|repeat constructor]. Defined.

Lemma object_free_leaks_struct_witness :
  exists h', pmos_bus_object_free (Some sample_object) sample_heap = Ok (tt, h')
    /\ owns h' (0 :: [6])%nat [].
Proof. apply (object_free_leaks_struct sample_heap sample_object [6%nat] []). unfold owns. reflexivity. Defined.

Lemma insert_doubles_capacity_witness :
  exists o' h', set_property sample_object sample_new sample_heap = Ok ((true, o'), h') /\ ocapacity o' = 16.
Proof.
  apply (insert_doubles_capacity sample_heap sample_object sample_new [] []).
  - apply sample_ok.
  - repeat constructor.
  - done.
  - done.
  - done.
  - by apply sample_owns.
Defined.
