(* ===== verification/BusCodec.v ===== *)
(** * The IPC encoding of bus objects (second half of object.c)

    [pmos_bus_object_serialize_ipc] computes the size of the message, allocates
    it and fills it piece by piece; [pmos_bus_object_deserialize_ipc] walks a
    received message with the offsets it finds in it.  The model keeps both
    passes of the encoder and every bounds test of the decoder. *)

From stdpp Require Import base list numbers gmap sorting.
From S2P Require Import Prelude CMem CString Alloc BusObject.

(** ** Byte buffers *)

(** [memcpy(buf + off, bs, |bs|)]; [None] when it leaves the buffer. *)
Definition write_at (buf : list Z) (off : Z) (bs : list Z) : option (list Z) :=
  if (0 <=? off) && (off + zlen bs <=? zlen buf)
  then Some (ztake off buf ++ bs ++ zdrop (off + zlen bs) buf)
  else None.

(** [memset(buf + off, 0, n)]; a negative [n] is a [size_t] beyond any buffer. *)
Definition zero_at (buf : list Z) (off n : Z) : option (list Z) :=
  if n <? 0 then None else write_at buf off (replicate (Z.to_nat n) 0).

(** The [n] bytes at [off] of a received message. *)
Definition slice (data : list Z) (off n : Z) : option (list Z) :=
  if (0 <=? off) && (0 <=? n) && (off + n <=? zlen data)
  then Some (ztake n (zdrop off data)) else None.

(** An unsigned little-endian field of [n] bytes. *)
Definition field (data : list Z) (off n : Z) : option Z := le_value <$> slice data off n.

(** ** The encoder *)

Definition PROPERTY_TYPE_STRING : Z := 1.
Definition PROPERTY_TYPE_INTEGER : Z := 2.
Definition PROPERTY_TYPE_LIST : Z := 3.

(** [struct IPC_Object_Property]: [uint16_t length; uint8_t type; uint8_t data_start]. *)
Definition property_hdr (length type data_start : Z) : list Z :=
  le_bytes 2 length ++ le_bytes 1 type ++ le_bytes 1 data_start.
Definition hdr_length : Z := 4.

(** [struct IPC_Bus_Object]: [uint32_t size; uint16_t name_length, properties_offset]. *)
Definition object_hdr (size name_length properties_offset : Z) : list Z :=
  le_bytes 4 size ++ le_bytes 2 name_length ++ le_bytes 2 properties_offset.
Definition object_hdr_length : Z := 8.

(** The strings of a list property, each with its NUL. *)
Definition list_bytes (l : list ostr) : list Z := mjoin ((fun s => sbytes s ++ [0]) <$> l).

Definition property_length (prop : property) : Z :=
  let name_length := zlen (prop_key prop) in
  match pval prop with
  | PString s => align8 (hdr_length + name_length + 1 + zlen (sbytes s) + 1)
  | PInteger _ => align8 (hdr_length + name_length + 1 + 8)
  | PList _ l =>
      let size := foldl (fun size s => size + (zlen (sbytes s) + 1)) 0 l in
      align8 (hdr_length + name_length + 1 + size)
  end.

(** The copying loop of the list case: the buffer and [str_size] at the end. *)
Fixpoint fill_strings (buf : list Z) (start str_size : Z) (l : list ostr) : option (list Z * Z) :=
  match l with
  | [] => Some (buf, str_size)
  | s :: l =>
      buf ← write_at buf (start + str_size) (sbytes s ++ [0]);
      fill_strings buf start (str_size + (zlen (sbytes s) + 1)) l
  end.

(** The size written and the buffer after it. *)
Definition property_fill (buf : list Z) (location : Z) (prop : property) : option (Z * list Z) :=
  let name := prop_key prop in
  let name_length := zlen name in
  let name_hdr_length := hdr_length + name_length + 1 in
  match pval prop with
  | PString s =>
      let str := sbytes s in
      let prop_length := zlen str in
      let size := align8 (name_hdr_length + prop_length + 1) in
      b ← write_at buf location (property_hdr size PROPERTY_TYPE_STRING name_hdr_length);
      b ← write_at b (location + hdr_length) name;
      b ← write_at b (location + (name_hdr_length - 1)) [0];
      b ← write_at b (location + name_hdr_length) str;
      b ← zero_at b (location + name_hdr_length + prop_length) (size - name_hdr_length - prop_length);
      Some (size, b)
  | PInteger v =>
      let int_offset := align8 name_hdr_length in
      let size := int_offset + 8 in
      b ← write_at buf location (property_hdr size PROPERTY_TYPE_INTEGER int_offset);
      b ← write_at b (location + hdr_length) name;
      b ← zero_at b (location + hdr_length + name_length) (int_offset - hdr_length - name_length);
      b ← write_at b (location + int_offset) (le_bytes 8 v);
      Some (size, b)
  | PList _ l =>
      b ← write_at buf (location + hdr_length) (name ++ [0]);
      '(b, str_size) ← fill_strings b (location + name_hdr_length) 0 l;
      let size := align8 (name_hdr_length + str_size) in
      b ← write_at b location (property_hdr size PROPERTY_TYPE_LIST name_hdr_length);
      b ← zero_at b (location + name_hdr_length + str_size) (size - name_hdr_length - str_size);
      Some (size, b)
  end.

Definition object_header_length (name : cstring) : Z := align8 (object_hdr_length + (zlen name + 1)).

Definition object_header_fill (buf : list Z) (ptr : Z) (name : cstring) (length : Z)
    : option (Z * list Z) :=
  let name_length := zlen name in
  let properties_offset := align8 (object_hdr_length + name_length + 1) in
  b ← write_at buf ptr (object_hdr length name_length properties_offset);
  let offset := object_hdr_length in
  b ← write_at b (ptr + offset) name;
  let offset := offset + name_length in
  b ← zero_at b (ptr + offset) (properties_offset - offset);
  Some (properties_offset, b).

Definition PUBLISH_OBJECT_HEADER_SIZE : Z := 8.
Definition IPC_BUS_Publish_Object_NUM : Z := 416.

(** The sizing loop, with its assertion. *)
Fixpoint props_size (size : Z) (ps : list property) : option Z :=
  match ps with
  | [] => Some size
  | p :: ps =>
      let p_size := property_length p in
      if p_size mod 8 =? 0 then props_size (wrap 64 (size + p_size)) ps else None
  end.

(** The filling loop: the offset and the buffer at the end. *)
Fixpoint props_fill (buf : list Z) (offset : Z) (ps : list property) : option (Z * list Z) :=
  match ps with
  | [] => Some (offset, buf)
  | p :: ps =>
      '(n, b) ← property_fill buf offset p;
      props_fill b (offset + n) ps
  end.

(** The message written into a buffer of [size] bytes with any contents. *)
Definition message_fill (buf : list Z) (name : cstring) (ps : list property) (size : Z)
    : option (list Z) :=
  b ← write_at buf 0 (le_bytes 4 IPC_BUS_Publish_Object_NUM ++ le_bytes 4 0);
  let offset := PUBLISH_OBJECT_HEADER_SIZE in
  '(n, b) ← object_header_fill b offset name (size - offset);
  '(offset, b) ← props_fill b (offset + n) ps;
  if offset =? size then Some b else None.

(** [None] is a failed assertion or an access outside a buffer. *)
Definition opt_am {A} (o : option A) : AM A :=
  match o with Some a => mret a | None => afault end.

Section Serialize.
(** The contents of a block [malloc] returns are indeterminate. *)
Variable fresh_bytes : Z -> list Z.

(** The result is the block and the bytes of the message; [zlen] of them is [*size_out]. *)
Definition pmos_bus_object_serialize_ipc (object : option bus_object) : AM (option (nat * list Z)) :=
  match object with
  | None => mret None
  | Some o =>
      match oname o with
      | None => mret None
      | Some name =>
          size ← opt_am (props_size (wrap 64 (PUBLISH_OBJECT_HEADER_SIZE + object_header_length (sbytes name)))
                          (oprops o));
          data ← malloc size;
          match data with
          | None => mret None
          | Some blk =>
              b ← opt_am (message_fill (fresh_bytes size) (sbytes name) (oprops o) size);
              mret (Some (blk, b))
          end
      end
  end.
End Serialize.

(** ** The decoder *)

(** The index of the first NUL. *)
Fixpoint nul_pos (l : list Z) : option nat :=
  match l with
  | [] => None
  | b :: l => if b =? 0 then Some O else S <$> nul_pos l
  end.

(** [strndup(data + off, n)]: it scans for the NUL first, even beyond [n]. *)
Definition strndup_at (data : list Z) (off n : Z) : AM (option ostr) :=
  match nul_pos (zdrop off data) with
  | None => afault
  | Some len => astrdup (ztake (Z.min (Z.of_nat len) n) (zdrop off data))
  end.

(** [strnlen(data + off, maxlen)] *)
Definition strnlen_at (data : list Z) (off maxlen : Z) : option Z :=
  match nul_pos (zdrop off data) with
  | Some len => Some (Z.min (Z.of_nat len) maxlen)
  | None => if maxlen <=? Z.max 0 (zlen data - off) then Some maxlen else None
  end.

(** The string at an address of the message: its bytes up to the next NUL. *)
Definition str_at (data : list Z) (off : Z) : option cstring :=
  len ← nul_pos (zdrop off data);
  Some (take len (zdrop off data)).

(** The strings an array of pointers into the message denotes, up to its NULL. *)
Fixpoint read_ptrs (data : list Z) (ptrs : list (option Z)) : option (list cstring) :=
  match ptrs with
  | Some off :: ptrs => s ← str_at data off; l ← read_ptrs data ptrs; Some (s :: l)
  | _ => Some []
  end.

(** The inner loop of the list case: the pointers found, or [false] when the
    vector could not grow. [offset] is relative to [base]. *)
Fixpoint read_list (fuel : nat) (data : list Z) (base length offset : Z) (vec : vector (option Z))
    : AM (bool * vector (option Z)) :=
  match fuel with
  | O => afuel
  | S fuel =>
      str_len ← opt_am (strnlen_at data (base + offset) (wrap 64 (length - offset)));
      if str_len =? 0 then mret (true, vec)
      else
        '(r, vec) ← vector_push_back_checked 8 vec (Some (base + offset));
        if r : bool then read_list fuel data base length (offset + (str_len + 1)) vec
        else mret (false, vec)
  end.

(** Failure after the object exists: release it, return NULL. *)
Definition deser_fail (result : bus_object) : AM (option bus_object) :=
  _ ← pmos_bus_object_free (Some result);
  mret None.

(** One property, already bounds-checked: the updated object, or [None] after
    everything has been released. *)
Definition read_property (fuel : nat) (data : list Z) (base length type data_start : Z)
    (prop_name : ostr) (result : bus_object) : AM (option bus_object) :=
  if type =? PROPERTY_TYPE_STRING then
    str ← strndup_at data (base + data_start) (length - data_start);
    match str with
    | None => _ ← free (sblk prop_name); deser_fail result
    | Some str =>
        '(r, result) ← pmos_bus_object_set_property_string result (sbytes prop_name) (sbytes str);
        _ ← free (sblk prop_name);
        _ ← free (sblk str);
        if r : bool then mret (Some result) else deser_fail result
    end
  else if type =? PROPERTY_TYPE_INTEGER then
    if negb (data_start + 8 =? length) then _ ← free (sblk prop_name); deser_fail result
    else
      val ← opt_am (field data (base + data_start) 8);
      '(r, result) ← pmos_bus_object_set_property_integer result (sbytes prop_name) val;
      _ ← free (sblk prop_name);
      if r : bool then mret (Some result) else deser_fail result
  else if type =? PROPERTY_TYPE_LIST then
    '(r, vec) ← read_list fuel data base length data_start vector_init;
    if negb r then
      _ ← free (sblk prop_name); _ ← vector_free vec; deser_fail result
    else
      '(r, vec) ← vector_push_back_checked 8 vec None;
      if negb r then
        _ ← free (sblk prop_name); _ ← vector_free vec; deser_fail result
      else
        value ← opt_am (read_ptrs data (vitems vec));
        '(r, o) ← pmos_bus_object_set_property_list (Some result) (Some (sbytes prop_name)) (Some value);
        _ ← free (sblk prop_name);
        _ ← vector_free vec;
        match r, o with
        | true, Some result => mret (Some result)
        | _, _ => deser_fail result
        end
  else _ ← free (sblk prop_name); deser_fail result.

(** The loop over the properties. *)
Fixpoint read_properties (fuel : nat) (data : list Z) (size offset : Z) (result : bus_object)
    : AM (option bus_object) :=
  match fuel with
  | O => afuel
  | S fuel =>
      if offset <? size then
        if size <? offset + hdr_length then deser_fail result
        else
          length ← opt_am (field data offset 2);
          type ← opt_am (field data (offset + 2) 1);
          data_start ← opt_am (field data (offset + 3) 1);
          if size <? offset + length then deser_fail result
          else if length <? data_start then deser_fail result
          else if data_start <? hdr_length then deser_fail result
          else
            prop_name ← strndup_at data (offset + hdr_length) (data_start - hdr_length);
            match prop_name with
            | None => deser_fail result
            | Some prop_name =>
                result' ← read_property (S (Z.to_nat (zlen data))) data offset length type data_start
                            prop_name result;
                match result' with
                | None => mret None
                | Some result =>
                    if length =? 0 then deser_fail result
                    else read_properties fuel data size (offset + length) result
                end
            end
      else mret (Some result)
  end.

Definition pmos_bus_object_deserialize_ipc (data : option (list Z)) (size : Z) : AM (option bus_object) :=
  match data with
  | None => mret None
  | Some data =>
      if size <? object_hdr_length then mret None
      else
        result ← pmos_bus_object_create;
        match result with
        | None => mret None
        | Some result =>
            obj_size ← opt_am (field data 0 4);
            name_length ← opt_am (field data 4 2);
            properties_offset ← opt_am (field data 6 2);
            if size <? obj_size then deser_fail result
            else if (name_length =? 0) || (size - object_hdr_length <? name_length)
            then deser_fail result
            else if properties_offset <? name_length + object_hdr_length then deser_fail result
            else
              name ← strndup_at data object_hdr_length name_length;
              match name with
              | None => deser_fail result
              | Some name =>
                  read_properties (S (Z.to_nat size)) data size properties_offset
                    (BusObject (oblk result) (Some name) (opblk result) (oprops result)
                       (ocapacity result) (oslots result))
              end
        end
  end.

(** ** Buffers: consecutive writes are one write *)

Lemma write_at_Some buf off bs b :
  write_at buf off bs = Some b ->
  0 <= off /\ off + zlen bs <= zlen buf /\ b = ztake off buf ++ bs ++ zdrop (off + zlen bs) buf
  /\ zlen b = zlen buf.
Proof.
  unfold write_at. destruct (Z.leb_spec 0 off); [|done].
  destruct (Z.leb_spec (off + zlen bs) (zlen buf)); [|done]. simpl. intros [= <-].
  pose proof (zlen_nonneg bs). split_and!; [done|done|done|].
  rewrite !zlen_app, zlen_ztake, zlen_zdrop by lia. lia.
Qed.

Lemma write_at_after buf off a b c :
  write_at buf off a = Some b -> write_at b (off + zlen a) c = write_at buf off (a ++ c).
Proof.
  intros H. apply write_at_Some in H as (H0 & H1 & Hb & Hl).
  pose proof (zlen_nonneg a). pose proof (zlen_nonneg c).
  unfold write_at. rewrite Hl, zlen_app.
  destruct (Z.leb_spec 0 (off + zlen a)); [|lia]. destruct (Z.leb_spec 0 off); [|lia]. simpl.
  replace (off + (zlen a + zlen c)) with (off + zlen a + zlen c) by lia.
  destruct (Z.leb_spec (off + zlen a + zlen c) (zlen buf)); [|done]. f_equal.
  assert (Ht : zlen (ztake off buf ++ a) = off + zlen a) by (rewrite zlen_app, zlen_ztake; lia).
  rewrite app_assoc in Hb.
  assert (E1 : ztake (off + zlen a) b = ztake off buf ++ a) by (rewrite Hb; apply ztake_app; lia).
  assert (E2 : zdrop (off + zlen a + zlen c) b = zdrop (off + zlen a + zlen c) buf).
  { rewrite <- (zdrop_zdrop b), <- (zdrop_zdrop buf (zlen c)) by lia. f_equal.
    rewrite Hb. apply zdrop_app. lia. }
  by rewrite E1, E2, <- !app_assoc.
Qed.

Lemma write_at_before buf off a b c :
  write_at buf (off + zlen c) a = Some b -> 0 <= off ->
  write_at b off c = write_at buf off (c ++ a).
Proof.
  intros H Ho. apply write_at_Some in H as (H0 & H1 & Hb & Hl).
  pose proof (zlen_nonneg a). pose proof (zlen_nonneg c).
  unfold write_at. rewrite Hl, zlen_app.
  destruct (Z.leb_spec 0 off); [|lia]. simpl.
  destruct (Z.leb_spec (off + zlen c) (zlen buf)); [|lia].
  destruct (Z.leb_spec (off + (zlen c + zlen a)) (zlen buf)); [|lia]. f_equal.
  assert (Ht : zlen (ztake (off + zlen c) buf) = off + zlen c) by (rewrite zlen_ztake; lia).
  assert (E1 : ztake off b = ztake off buf).
  { rewrite Hb. unfold ztake in *. rewrite take_app_le; [|unfold zlen in *; rewrite length_take in *; lia].
    rewrite take_take. f_equal. lia. }
  assert (E2 : zdrop (off + zlen c) b = a ++ zdrop (off + (zlen c + zlen a)) buf).
  { rewrite Hb, zdrop_app by lia. do 2 f_equal. lia. }
  by rewrite E1, E2, <- !app_assoc.
Qed.

Lemma write_at_whole pre old post bs :
  zlen old = zlen bs -> write_at (pre ++ old ++ post) (zlen pre) bs = Some (pre ++ bs ++ post).
Proof.
  intros E. unfold write_at. pose proof (zlen_nonneg pre). pose proof (zlen_nonneg post).
  rewrite !zlen_app, E. destruct (Z.leb_spec 0 (zlen pre)); [|lia].
  destruct (Z.leb_spec (zlen pre + zlen bs) (zlen pre + (zlen bs + zlen post))); [|lia]. simpl.
  rewrite ztake_app by done. do 3 f_equal.
  rewrite app_assoc. apply zdrop_app. rewrite zlen_app. lia.
Qed.

(** A write inside the buffer succeeds. *)
Lemma write_at_in buf off bs :
  0 <= off -> off + zlen bs <= zlen buf -> exists b, write_at buf off bs = Some b.
Proof.
  intros H0 H1. unfold write_at. destruct (Z.leb_spec 0 off); [|lia].
  destruct (Z.leb_spec (off + zlen bs) (zlen buf)); [|lia]. eauto.
Qed.

Lemma zero_at_write buf off n :
  0 <= n -> zero_at buf off n = write_at buf off (replicate (Z.to_nat n) 0).
Proof. intros H. unfold zero_at. case_if; [lia|done]. Qed.

(** ** The bytes of an encoded object *)

Definition zeros (n : Z) : list Z := replicate (Z.to_nat n) 0.

Lemma zlen_zeros n : 0 <= n -> zlen (zeros n) = n.
Proof. intros H. unfold zeros. rewrite zlen_replicate. lia. Qed.

(** The fields that follow the header, without the padding. *)
Definition property_body (prop : property) : list Z :=
  match pval prop with
  | PString s => prop_key prop ++ [0] ++ sbytes s ++ [0]
  | PInteger _ => prop_key prop ++ [0]
  | PList _ l => prop_key prop ++ [0] ++ list_bytes l
  end.

Definition property_bytes (prop : property) : list Z :=
  let n := hdr_length + zlen (property_body prop) in
  let start := hdr_length + zlen (prop_key prop) + 1 in
  match pval prop with
  | PString _ => property_hdr (align8 n) PROPERTY_TYPE_STRING start
                   ++ property_body prop ++ zeros (align8 n - n)
  | PInteger v => property_hdr (align8 n + 8) PROPERTY_TYPE_INTEGER (align8 n)
                   ++ property_body prop ++ zeros (align8 n - n) ++ le_bytes 8 v
  | PList _ _ => property_hdr (align8 n) PROPERTY_TYPE_LIST start
                   ++ property_body prop ++ zeros (align8 n - n)
  end.

Definition props_bytes (ps : list property) : list Z := mjoin (property_bytes <$> ps).

(** The message from the object header on; [size] is the value of its size field. *)
Definition object_bytes (name : cstring) (ps : list property) (size : Z) : list Z :=
  let n := object_hdr_length + zlen name + 1 in
  (object_hdr size (zlen name) (align8 n) ++ name ++ zeros (align8 n - n + 1)) ++ props_bytes ps.

Definition message_bytes (name : cstring) (ps : list property) (size : Z) : list Z :=
  (le_bytes 4 IPC_BUS_Publish_Object_NUM ++ le_bytes 4 0) ++ object_bytes name ps size.

(** The sizes fit a [size_t] with room for the alignment. *)
Definition fits (prop : property) : Prop := hdr_length + zlen (property_body prop) + 15 < 2 ^ 64.

Lemma zlen_property_hdr a b c : zlen (property_hdr a b c) = hdr_length.
Proof. done. Qed.
Lemma zlen_object_hdr a b c : zlen (object_hdr a b c) = object_hdr_length.
Proof. done. Qed.
#[export] Hint Rewrite zlen_property_hdr zlen_object_hdr : zlist.

Lemma list_bytes_cons s l : list_bytes (s :: l) = (sbytes s ++ [0]) ++ list_bytes l.
Proof. done. Qed.

Lemma foldl_sizes l acc :
  foldl (fun size s => size + (zlen (sbytes s) + 1)) acc l = acc + zlen (list_bytes l).
Proof.
  revert acc; induction l as [|s l IH]; intros acc; [simpl; zl|].
  rewrite list_bytes_cons. simpl. rewrite IH. zl.
Qed.

Lemma align8_next n : 0 <= n -> n + 15 < 2 ^ 64 -> align8 (n + 8) = align8 n + 8.
Proof.
  intros H0 H1. rewrite !align8_spec by lia. replace (n + 8 + 7) with (n + 7 + 1 * 8) by lia.
  rewrite Z.div_add by lia. lia.
Qed.

(** The size the first pass reserves is the size of the bytes, a multiple of 8. *)
Lemma property_length_bytes p :
  fits p -> property_length p = zlen (property_bytes p) /\ property_length p mod 8 = 0.
Proof.
  unfold fits, hdr_length. intros Hf. unfold property_length, property_bytes, property_body, hdr_length in *.
  destruct (pval p) as [s|v|b l]; zlen_simpl.
  - replace (4 + zlen (prop_key p) + 1 + zlen (sbytes s) + 1) with
      (4 + (zlen (prop_key p) + (1 + 0 + (zlen (sbytes s) + (1 + 0))))) by lia.
    destruct (align8_bounds (4 + (zlen (prop_key p) + (1 + 0 + (zlen (sbytes s) + (1 + 0)))))) as [H1 H2];
      [zl|zl|]. rewrite zlen_zeros by lia. split; [unfold hdr_length; lia|done].
  - replace (4 + zlen (prop_key p) + 1 + 8) with (4 + (zlen (prop_key p) + (1 + 0)) + 8) by lia.
    rewrite align8_next by zl.
    destruct (align8_bounds (4 + (zlen (prop_key p) + (1 + 0)))) as [H1 H2]; [zl|zl|].
    rewrite zlen_zeros by lia. split; [unfold hdr_length; lia|].
    rewrite <- Z.add_mod_idemp_l, H2 by lia. done.
  - rewrite foldl_sizes.
    replace (4 + zlen (prop_key p) + 1 + (0 + zlen (list_bytes l))) with
      (4 + (zlen (prop_key p) + (1 + 0 + zlen (list_bytes l)))) by lia.
    destruct (align8_bounds (4 + (zlen (prop_key p) + (1 + 0 + zlen (list_bytes l))))) as [H1 H2];
      [zl|zl|]. rewrite zlen_zeros by lia. split; [unfold hdr_length; lia|done].
Qed.

(** ** The second pass writes these bytes *)

Lemma write_first buf off bs :
  0 <= off -> off + zlen bs <= zlen buf ->
  exists b, write_at buf off bs = Some b /\ zlen b = zlen buf.
Proof.
  intros H0 H1. destruct (write_at_in buf off bs H0 H1) as [b E]. exists b. split; [done|].
  by apply write_at_Some in E as (_ & _ & _ & ?).
Qed.

(** A write that continues where the last one stopped. *)
Lemma write_next buf off a b c o :
  write_at buf off a = Some b -> o = off + zlen a -> off + zlen a + zlen c <= zlen buf ->
  exists b', write_at b o c = Some b' /\ write_at buf off (a ++ c) = Some b'.
Proof.
  intros E -> Hb. rewrite (write_at_after _ _ _ _ _ E).
  destruct (write_at_in buf off (a ++ c)) as [b' E'].
  - by apply write_at_Some in E as (? & _).
  - rewrite zlen_app. lia.
  - rewrite E'. eauto.
Qed.

(** All the writes together are the one write of their concatenation. *)
Lemma write_finish pre old post bs bs' b :
  write_at (pre ++ old ++ post) (zlen pre) bs = Some b -> bs = bs' -> zlen old = zlen bs' ->
  b = pre ++ bs' ++ post.
Proof.
  intros E -> Hl. rewrite write_at_whole in E by done. by simplify_eq.
Qed.

Lemma fill_strings_ok buf off a b start l n :
  write_at buf off a = Some b -> start + n = off + zlen a ->
  off + zlen a + zlen (list_bytes l) <= zlen buf ->
  exists b', fill_strings b start n l = Some (b', n + zlen (list_bytes l))
    /\ write_at buf off (a ++ list_bytes l) = Some b'.
Proof.
  revert a b n; induction l as [|s l IH]; intros a b n E Hs Hb; cbn [fill_strings].
  - exists b. cbn. rewrite app_nil_r, Z.add_0_r. done.
  - rewrite list_bytes_cons, zlen_app in *. pose proof (zlen_nonneg (list_bytes l)).
    destruct (write_next buf off a b (sbytes s ++ [0]) (start + n) E) as (b1 & E1 & E1'); [lia|lia|].
    rewrite E1. cbn [mbind option_bind].
    destruct (IH (a ++ sbytes s ++ [0]) b1 (n + (zlen (sbytes s) + 1)) E1') as (b2 & E2 & E2').
    + zlen_simpl. lia.
    + zlen_simpl. lia.
    + exists b2. rewrite E2. rewrite <- app_assoc in E2'. split; [|by rewrite E2', <- ?app_assoc].
      do 2 f_equal. zlen_simpl. lia.
Qed.

Lemma zeros_cons n : 0 < n -> zeros n = 0 :: zeros (n - 1).
Proof. intros H. unfold zeros. replace (Z.to_nat n) with (S (Z.to_nat (n - 1))) by lia. done. Qed.

Definition fill_done (pre old post : list Z) (p : property) : Prop :=
  property_fill (pre ++ old ++ post) (zlen pre) p
    = Some (zlen (property_bytes p), pre ++ property_bytes p ++ post).

(** One more write of a filling routine. *)
Ltac wr_first b E :=
  match goal with
  | |- context [write_at ?buf ?off ?bs] =>
      destruct (write_at_in buf off bs) as [b E]; [zl|zl|rewrite E; cbn [mbind option_bind]]
  end.
Ltac wr_next E b E' :=
  match type of E with
  | write_at ?buf ?off ?a = Some ?b0 =>
      match goal with
      | |- context [write_at b0 ?o ?c] =>
          let F := fresh in
          destruct (write_next buf off a b0 c o E) as (b & F & E'); [zl|zl|];
          rewrite F; cbn [mbind option_bind]; clear F E
      end
  end.

Lemma fill_string_ok pre old post p s :
  pval p = PString s -> fits p -> zlen old = zlen (property_bytes p) -> fill_done pre old post p.
Proof.
  intros Hv Hf Hold. destruct (property_length_bytes p Hf) as [Hlen _].
  unfold fill_done. rewrite <- Hlen in Hold |- *.
  unfold fits, property_length, property_bytes, property_body, property_fill in *. rewrite Hv in *.
  set (K := prop_key p) in *. set (S := sbytes s) in *.
  set (size := align8 (hdr_length + zlen K + 1 + zlen S + 1)) in *.
  assert (Hn : hdr_length + zlen (K ++ [0] ++ S ++ [0]) = hdr_length + zlen K + 1 + zlen S + 1)
    by (zlen_simpl; lia).
  rewrite Hn in *. fold size in Hlen |- *.
  assert (Hsz : hdr_length + zlen K + 1 + zlen S + 1 <= size).
  { apply align8_bounds; [unfold hdr_length; zl|lia]. }
  assert (Hbuf : zlen (pre ++ old ++ post) = zlen pre + (size + zlen post)) by (zlen_simpl; lia).
  assert (Hs4 : hdr_length = 4) by done.
  wr_first b1 E1. wr_next E1 b2 E2. wr_next E2 b3 E3. wr_next E3 b4 E4.
  rewrite zero_at_write by zl. change (replicate (Z.to_nat ?x) 0) with (zeros x).
  set (z := zeros _). assert (Hz : zlen z = size - (hdr_length + zlen K + 1) - zlen S)
    by (apply zlen_zeros; zl).
  wr_next E4 b5 E5. do 2 f_equal.
  eapply write_finish; [exact E5| |].
  - subst z. rewrite zeros_cons by zl.
    replace (size - (hdr_length + zlen K + 1) - zlen S - 1) with
      (size - (hdr_length + zlen K + 1 + zlen S + 1)) by lia.
    by rewrite <- !app_assoc.
  - rewrite Hold. exact Hlen.
Qed.

Lemma fill_integer_ok pre old post p v :
  pval p = PInteger v -> fits p -> zlen old = zlen (property_bytes p) -> fill_done pre old post p.
Proof.
  intros Hv Hf Hold. destruct (property_length_bytes p Hf) as [Hlen _].
  unfold fill_done. rewrite <- Hlen in Hold |- *.
  unfold fits, property_length, property_bytes, property_body, property_fill in *. rewrite Hv in *.
  set (K := prop_key p) in *.
  assert (Hn : hdr_length + zlen (K ++ [0]) = hdr_length + zlen K + 1) by (zlen_simpl; lia).
  assert (Hs4 : hdr_length = 4) by done.
  rewrite Hn in *. rewrite align8_next in * by zl.
  set (off := align8 (hdr_length + zlen K + 1)) in *.
  assert (Hsz : hdr_length + zlen K + 1 <= off) by (apply align8_bounds; zl).
  assert (Hbuf : zlen (pre ++ old ++ post) = zlen pre + (off + 8 + zlen post)) by (zlen_simpl; lia).
  wr_first b1 E1. wr_next E1 b2 E2.
  rewrite zero_at_write by zl. change (replicate (Z.to_nat ?x) 0) with (zeros x).
  set (z := zeros _). assert (Hz : zlen z = off - hdr_length - zlen K) by (apply zlen_zeros; zl).
  wr_next E2 b3 E3. set (l8 := le_bytes 8 v) in *. assert (H8 : zlen l8 = 8) by done.
  wr_next E3 b4 E4. do 2 f_equal.
  eapply write_finish; [exact E4| |].
  - subst z. rewrite zeros_cons by zl.
    replace (off - hdr_length - zlen K - 1) with (off - (hdr_length + zlen K + 1)) by lia.
    by rewrite <- !app_assoc.
  - rewrite Hold. exact Hlen.
Qed.

Lemma fill_list_ok pre old post p blk l :
  pval p = PList blk l -> fits p -> zlen old = zlen (property_bytes p) -> fill_done pre old post p.
Proof.
  intros Hv Hf Hold. destruct (property_length_bytes p Hf) as [Hlen _].
  unfold fill_done. rewrite <- Hlen in Hold |- *.
  unfold fits, property_length, property_bytes, property_body, property_fill in *. rewrite Hv in *.
  rewrite foldl_sizes, Z.add_0_l in *.
  set (K := prop_key p) in *. set (B := list_bytes l) in *.
  assert (Hn : hdr_length + zlen (K ++ [0] ++ B) = hdr_length + zlen K + 1 + zlen B)
    by (zlen_simpl; lia).
  assert (Hs4 : hdr_length = 4) by done.
  rewrite Hn in *. set (size := align8 (hdr_length + zlen K + 1 + zlen B)) in *.
  assert (Hsz : hdr_length + zlen K + 1 + zlen B <= size) by (apply align8_bounds; zl).
  assert (Hbuf : zlen (pre ++ old ++ post) = zlen pre + (size + zlen post)) by (zlen_simpl; lia).
  wr_first b1 E1.
  destruct (fill_strings_ok _ _ _ _ (zlen pre + (hdr_length + zlen K + 1)) l 0 E1) as (b2 & E2 & E2');
    [zl|fold B; zl|]. rewrite E2. cbn [mbind option_bind]. fold B in E2' |- *. rewrite Z.add_0_l.
  fold size. set (hdr := property_hdr _ _ _). assert (Hh : zlen hdr = hdr_length) by done.
  rewrite <- Hh in E2' at 1. rewrite (write_at_before _ _ _ _ hdr E2') by zl.
  destruct (write_at_in (pre ++ old ++ post) (zlen pre) (hdr ++ (K ++ [0]) ++ B)) as [b3 E3]; [zl|zl|].
  rewrite E3. cbn [mbind option_bind].
  rewrite zero_at_write by zl. change (replicate (Z.to_nat ?x) 0) with (zeros x).
  set (z := zeros _). assert (Hz : zlen z = size - (hdr_length + zlen K + 1) - zlen B)
    by (apply zlen_zeros; zl).
  wr_next E3 b4 E4. do 2 f_equal.
  eapply write_finish; [exact E4| |].
  - subst z. replace (size - (hdr_length + zlen K + 1) - zlen B) with
      (size - (hdr_length + zlen K + 1 + zlen B)) by lia.
    by rewrite <- !app_assoc.
  - rewrite Hold. exact Hlen.
Qed.

Lemma property_fill_ok pre old post p :
  fits p -> zlen old = zlen (property_bytes p) -> fill_done pre old post p.
Proof.
  destruct (pval p) as [s|v|blk l] eqn:E;
    [by eapply fill_string_ok|by eapply fill_integer_ok|by eapply fill_list_ok].
Qed.

Lemma split_zlen {A} (l : list A) a b :
  zlen l = a + b -> 0 <= a -> 0 <= b -> exists x y, l = x ++ y /\ zlen x = a /\ zlen y = b.
Proof.
  intros E Ha Hb. exists (ztake a l), (zdrop a l).
  rewrite zlen_ztake, zlen_zdrop by lia. split_and!; [|done|lia].
  symmetry. apply take_drop.
Qed.

Lemma props_bytes_cons p ps : props_bytes (p :: ps) = property_bytes p ++ props_bytes ps.
Proof. done. Qed.

Lemma props_fill_ok pre old post ps :
  Forall fits ps -> zlen old = zlen (props_bytes ps) ->
  props_fill (pre ++ old ++ post) (zlen pre) ps
    = Some (zlen pre + zlen (props_bytes ps), pre ++ props_bytes ps ++ post).
Proof.
  revert pre old; induction ps as [|p ps IH]; intros pre old Hf Hold; cbn [props_fill].
  - destruct old; [|exfalso; unfold zlen in Hold; simpl in Hold; lia].
    change (zlen (props_bytes [])) with 0. by rewrite Z.add_0_r.
  - rewrite props_bytes_cons, zlen_app in *. inversion Hf as [|? ? Hp Hps]; subst.
    destruct (split_zlen old _ _ Hold) as (o1 & o2 & -> & H1 & H2); [apply zlen_nonneg..|].
    rewrite <- app_assoc. pose proof (property_fill_ok pre o1 (o2 ++ post) p Hp H1) as E.
    unfold fill_done in E. rewrite E. cbn [mbind option_bind].
    rewrite app_assoc, <- zlen_app, IH by done. by rewrite zlen_app, <- !app_assoc, Z.add_assoc.
Qed.

(** Everything in the message fits a [size_t]. *)
Definition message_fits (name : cstring) (ps : list property) : Prop :=
  Forall fits ps /\ zlen name + zlen (props_bytes ps) + 64 < 2 ^ 64.

Lemma align8_object_header name :
  zlen name + 64 < 2 ^ 64 ->
  object_header_length name = align8 (object_hdr_length + zlen name + 1)
  /\ object_hdr_length + zlen name + 1 <= object_header_length name <= object_hdr_length + zlen name + 8.
Proof.
  intros H. unfold object_header_length.
  replace (object_hdr_length + (zlen name + 1)) with (object_hdr_length + zlen name + 1) by lia.
  split; [done|]. destruct (align8_bounds (object_hdr_length + zlen name + 1)) as [H1 _];
    unfold object_hdr_length in *; zl.
Qed.

Lemma zlen_object_bytes name ps size :
  zlen name + 64 < 2 ^ 64 ->
  zlen (object_bytes name ps size) = object_header_length name + zlen (props_bytes ps).
Proof.
  intros H. destruct (align8_object_header name H) as [E1 E2]. unfold object_bytes.
  rewrite <- E1. zlen_simpl. rewrite zlen_zeros by lia. lia.
Qed.

Lemma object_header_fill_ok pre old post name len :
  zlen name + 64 < 2 ^ 64 -> zlen old = object_header_length name ->
  object_header_fill (pre ++ old ++ post) (zlen pre) name len
    = Some (object_header_length name, pre ++ object_bytes name [] len ++ post).
Proof.
  intros H Hold. destruct (align8_object_header name H) as [E1 E2].
  pose proof (zlen_object_bytes name [] len H) as Hlen.
  unfold object_header_fill, object_bytes in *. rewrite <- E1 in *.
  set (size := object_header_length name) in *.
  assert (Hbuf : zlen (pre ++ old ++ post) = zlen pre + (size + zlen post)) by (zlen_simpl; lia).
  assert (Hs8 : object_hdr_length = 8) by done.
  wr_first b1 W1. wr_next W1 b2 W2.
  rewrite zero_at_write by zl. change (replicate (Z.to_nat ?x) 0) with (zeros x).
  set (z := zeros _). assert (Hz : zlen z = size - (object_hdr_length + zlen name))
    by (apply zlen_zeros; zl).
  wr_next W2 b3 W3. do 2 f_equal. eapply write_finish; [exact W3| |].
  - subst z. replace (size - (object_hdr_length + zlen name)) with
      (size - (object_hdr_length + zlen name + 1) + 1) by lia.
    cbn [props_bytes fmap list_fmap mjoin list_join]. by rewrite app_nil_r, <- !app_assoc.
  - rewrite Hold, Hlen. change (zlen (props_bytes [])) with 0. lia.
Qed.

Lemma object_bytes_app name ps size :
  object_bytes name [] size ++ props_bytes ps = object_bytes name ps size.
Proof. unfold object_bytes. cbn [props_bytes fmap list_fmap mjoin list_join]. by rewrite app_nil_r. Qed.

Lemma message_fill_ok buf name ps size :
  message_fits name ps -> zlen buf = size ->
  size = PUBLISH_OBJECT_HEADER_SIZE + object_header_length name + zlen (props_bytes ps) ->
  message_fill buf name ps size
    = Some (message_bytes name ps (object_header_length name + zlen (props_bytes ps))).
Proof.
  intros [Hf Hfit] Hbuf Hsize. unfold message_fill, message_bytes, PUBLISH_OBJECT_HEADER_SIZE in *.
  pose proof (zlen_nonneg (props_bytes ps)) as Hn. pose proof (zlen_nonneg name) as Hn2.
  destruct (align8_object_header name ltac:(lia)) as [E1 E2]. unfold object_hdr_length in E2.
  set (hdr := le_bytes 4 IPC_BUS_Publish_Object_NUM ++ le_bytes 4 0).
  assert (Hh : zlen hdr = 8) by done.
  destruct (split_zlen buf 8 (object_header_length name + zlen (props_bytes ps)))
    as (o1 & o2 & -> & H1 & H2); [lia|lia|lia|].
  destruct (split_zlen o2 _ _ H2) as (o3 & o4 & -> & H3 & H4); [lia|lia|].
  pose proof (write_at_whole [] o1 (o3 ++ o4) hdr ltac:(lia)) as W. cbn [app] in W.
  rewrite (W : write_at (o1 ++ o3 ++ o4) 0 hdr = _). cbn [mbind option_bind].
  rewrite <- Hh. rewrite (object_header_fill_ok hdr o3 o4) by (done || lia).
  cbn [mbind option_bind].
  pose proof (zlen_object_bytes name [] (size - zlen hdr) ltac:(lia)) as Ho.
  change (zlen (props_bytes [])) with 0 in Ho. rewrite Z.add_0_r in Ho. rewrite <- Ho, <- zlen_app.
  pose proof (props_fill_ok (hdr ++ object_bytes name [] (size - zlen hdr)) o4 [] ps Hf H4) as W2.
  rewrite !app_nil_r, <- app_assoc in W2. rewrite W2. cbn [mbind option_bind].
  case_if; [|exfalso; rewrite zlen_app in *; lia].
  rewrite <- app_assoc, object_bytes_app. do 3 f_equal. lia.
Qed.

Lemma props_size_ok size ps :
  Forall fits ps -> 0 <= size -> size + zlen (props_bytes ps) < 2 ^ 64 ->
  props_size size ps = Some (size + zlen (props_bytes ps)).
Proof.
  intros Hf. revert size; induction Hf as [|p ps Hp Hps IH]; intros size H0 Hs; cbn [props_size].
  - change (zlen (props_bytes [])) with 0. f_equal. lia.
  - destruct (property_length_bytes p Hp) as [El Em]. rewrite Em, El. simpl.
    rewrite props_bytes_cons, zlen_app in *.
    pose proof (zlen_nonneg (property_bytes p)). pose proof (zlen_nonneg (props_bytes ps)).
    rewrite wrap_small by lia. rewrite IH by lia. f_equal. lia.
Qed.

(** ** The decoder on encoded bytes *)

Lemma slice_mid pre x post off n :
  off = zlen pre -> n = zlen x -> slice (pre ++ x ++ post) off n = Some x.
Proof.
  intros -> ->. unfold slice. pose proof (zlen_nonneg pre). pose proof (zlen_nonneg x).
  pose proof (zlen_nonneg post). rewrite !zlen_app.
  destruct (Z.leb_spec 0 (zlen pre)); [|lia]. destruct (Z.leb_spec 0 (zlen x)); [|lia].
  destruct (Z.leb_spec (zlen pre + zlen x) (zlen pre + (zlen x + zlen post))); [|lia]. simpl.
  by rewrite zdrop_app, ztake_app by done.
Qed.

Lemma field_mid data pre k v post off n :
  data = pre ++ le_bytes k v ++ post -> off = zlen pre -> n = Z.of_nat k ->
  field data off n = Some (wrap (8 * n) v).
Proof.
  intros -> -> ->. unfold field. rewrite (slice_mid pre (le_bytes k v) post) by (done || by rewrite zlen_le_bytes).
  cbn. by rewrite le_value_bytes.
Qed.

Lemma nul_pos_str s r : str_ok s -> nul_pos (s ++ 0 :: r) = Some (length s).
Proof.
  intros Hs. induction Hs as [|c s Hc Hs IH]; simpl; [done|].
  unfold is_char in Hc. case_if; [lia|]. by rewrite IH.
Qed.

Lemma strndup_at_ok data pre s r off n :
  data = pre ++ s ++ 0 :: r -> off = zlen pre -> zlen s <= n -> str_ok s ->
  strndup_at data off n = astrdup s.
Proof.
  intros -> -> Hn Hs. unfold strndup_at. rewrite zdrop_app by done. rewrite nul_pos_str by done.
  replace (Z.min (Z.of_nat (length s)) n) with (zlen s) by (unfold zlen in *; lia).
  by rewrite ztake_app.
Qed.

Lemma str_at_ok data pre s r off :
  data = pre ++ s ++ 0 :: r -> off = zlen pre -> str_ok s -> str_at data off = Some s.
Proof.
  intros -> -> Hs. unfold str_at. rewrite zdrop_app by done. rewrite nul_pos_str by done.
  cbn. by rewrite take_app_length.
Qed.

(** With memory available, the setters and the allocator never fail. *)
Lemma astrdup_plenty h s bs fr :
  plenty h -> owns h bs fr ->
  exists o h', astrdup s h = Ok (Some o, h') /\ sbytes o = s /\ owns h' (sblk o :: bs) fr
    /\ oracle h' = oracle h.
Proof.
  intros Hp Ho. destruct (astrdup_cases h s bs fr Ho) as [H|(h' & _ & _ & _ & Hn)]; done.
Qed.

Lemma plenty_oracle h h' : oracle h' = oracle h -> plenty h -> plenty h'.
Proof. unfold plenty. by intros ->. Qed.

Definition lists_ok (l : list ostr) : Prop := Forall (fun s => str_ok (sbytes s) /\ sbytes s <> []) l.

Lemma read_list_stop data pre k post base length offset :
  data = pre ++ zeros k ++ post -> base + offset = zlen pre -> length - offset = k -> 0 <= k < 2 ^ 64 ->
  strnlen_at data (base + offset) (wrap 64 (length - offset)) = Some 0.
Proof.
  intros -> -> -> Hk. rewrite wrap_small by lia. unfold strnlen_at. rewrite zdrop_app by done.
  destruct (decide (k = 0)) as [->|Hne].
  - destruct (nul_pos (zeros 0 ++ post)) as [len|]; [f_equal; lia|].
    destruct (Z.leb_spec 0 (Z.max 0 (zlen (pre ++ zeros 0 ++ post) - zlen pre))); [done|lia].
  - rewrite zeros_cons by lia. simpl. f_equal. lia.
Qed.

Lemma read_list_ok fuel data pre l k post base length offset vec h bs fr :
  data = pre ++ list_bytes l ++ zeros k ++ post -> base + offset = zlen pre ->
  length - offset = zlen (list_bytes l) + k -> 0 <= k -> length < 2 ^ 16 -> 0 <= offset ->
  lists_ok l -> (List.length l < fuel)%nat ->
  plenty h -> vector_ok vec -> zlen (vitems vec) + zlen l < 2 ^ 32 ->
  vcapacity vec <= Z.max 4 (2 * zlen (vitems vec)) -> owns h (vblocks vec ++ bs) fr ->
  exists vec' h' ptrs, read_list fuel data base length offset vec h = Ok ((true, vec'), h')
    /\ vitems vec' = vitems vec ++ ptrs /\ read_ptrs data (ptrs ++ [None]) = Some (sbytes <$> l)
    /\ vector_ok vec' /\ vcapacity vec' <= Z.max 4 (2 * zlen (vitems vec'))
    /\ List.length ptrs = List.length l
    /\ owns h' (vblocks vec' ++ bs) fr /\ oracle h' = oracle h.
Proof.
  revert pre offset vec h l; induction fuel as [|fuel IH];
    intros pre offset vec h l Hd Hb Hl Hk Hlen Hoff Hok Hf Hp Hv Hsz Hcap Ho; [lia|]. cbn [read_list].
  destruct l as [|s l].
  - change (list_bytes []) with (@nil Z) in Hd, Hl. change (zlen (@nil Z)) with 0 in Hl.
    cbn [app] in Hd. rewrite (read_list_stop data pre k post) by (done || lia). cbn.
    exists vec, h, []. rewrite app_nil_r. done.
  - inversion Hok as [|? ? [Hs Hne] Hok']; subst.
    rewrite list_bytes_cons in *. cbn [List.length] in Hf.
    rewrite !zlen_app in Hl. change (zlen [0]) with 1 in Hl.
    rewrite zlen_cons in Hsz. pose proof (zlen_nonneg (list_bytes l)) as Hnn.
    pose proof (zlen_nonneg (sbytes s)) as Hns. pose proof (zlen_nonneg l) as Hnl.
    assert (Hs0 : 0 < zlen (sbytes s)).
    { destruct (sbytes s) as [|x t]; [done|]. rewrite zlen_cons. pose proof (zlen_nonneg t). lia. }
    assert (Hst : strnlen_at (pre ++ ((sbytes s ++ [0]) ++ list_bytes l) ++ zeros k ++ post) (base + offset)
      (wrap 64 (length - offset)) = Some (zlen (sbytes s))).
    { unfold strnlen_at. rewrite Hb, zdrop_app by done. rewrite <- !app_assoc. cbn [app].
      rewrite nul_pos_str by done. rewrite wrap_small by lia. f_equal. unfold zlen in *. lia. }
    rewrite Hst. cbn [opt_am]. unfold mbind at 1, AM_bind at 1, mret at 1, AM_ret at 1. cbv beta iota.
    case_if; [lia|].
    destruct (vector_push_cases 8 h vec (Some (base + offset)) bs fr)
      as [(v & h1 & E & Ei & Hv' & Ho' & Hc & Eo)|(v & h1 & _ & _ & _ & _ & _ & Hn)];
      [lia|done|lia|lia|done| |done].
    erewrite abind_ok by exact E. cbv beta iota.
    assert (Hzi : zlen (vitems v) = zlen (vitems vec) + 1) by (rewrite Ei; zl).
    destruct (IH (pre ++ sbytes s ++ [0]) (offset + (zlen (sbytes s) + 1)) v h1 l)
      as (vec' & h' & ptrs & E' & Ei' & Er & Hv2 & Hc2 & Hlp & Ho2 & Eo2); clear IH.
    + by rewrite <- !app_assoc.
    + zlen_simpl. lia.
    + lia.
    + done.
    + done.
    + lia.
    + done.
    + lia.
    + by apply (plenty_oracle h).
    + done.
    + lia.
    + lia.
    + done.
    + exists vec', h', (Some (base + offset) :: ptrs). split; [exact E'|]. split.
      { rewrite Ei', Ei, <- app_assoc. done. }
      split.
      { cbn [read_ptrs app]. rewrite (str_at_ok _ pre (sbytes s) (list_bytes l ++ zeros k ++ post)).
        - cbn [mbind option_bind]. rewrite Er. done.
        - by rewrite <- !app_assoc.
        - done.
        - done. }
      split; [done|]. split; [done|]. split; [simpl; lia|]. split; [done|congruence].
Qed.

(** What an encoded property records in its header, and the bytes after its name. *)
Definition ptype (p : property) : Z :=
  match pval p with
  | PString _ => PROPERTY_TYPE_STRING | PInteger _ => PROPERTY_TYPE_INTEGER
  | PList _ _ => PROPERTY_TYPE_LIST
  end.

Definition pstart (p : property) : Z :=
  let start := hdr_length + zlen (prop_key p) + 1 in
  match pval p with PInteger _ => align8 start | _ => start end.

Definition prest (p : property) : list Z :=
  let n := hdr_length + zlen (property_body p) in
  match pval p with
  | PString s => sbytes s ++ 0 :: zeros (align8 n - n)
  | PInteger v => zeros (align8 n - n) ++ le_bytes 8 v
  | PList _ l => list_bytes l ++ zeros (align8 n - n)
  end.

(** The header fields can hold the numbers, and what the decoder takes for an
    end mark does not occur: the 8-bit [data_start], the 16-bit [length], no
    empty string in a list. *)
Definition encodable (p : property) : Prop :=
  str_ok (prop_key p) /\ pstart p < 2 ^ 8 /\ zlen (property_bytes p) < 2 ^ 16 /\
  match pval p with
  | PString s => str_ok (sbytes s)
  | PInteger v => 0 <= v < 2 ^ 64
  | PList _ l => lists_ok l
  end.

Lemma encodable_body p : encodable p -> zlen (property_body p) < 2 ^ 16.
Proof.
  intros (_ & _ & H & _). eapply Z.le_lt_trans; [|exact H]. unfold property_bytes.
  destruct (pval p); rewrite !zlen_app, zlen_property_hdr; unfold hdr_length; zl.
Qed.

Lemma encodable_fits p : encodable p -> fits p.
Proof. intros H. apply encodable_body in H. unfold fits, hdr_length. lia. Qed.

Lemma zlen_property_bytes p :
  fits p ->
  zlen (property_bytes p) = align8 (hdr_length + zlen (property_body p))
                            + match pval p with PInteger _ => 8 | _ => 0 end.
Proof.
  unfold fits, hdr_length. intros Hf. unfold property_bytes, hdr_length.
  destruct (align8_bounds (4 + zlen (property_body p))) as [H1 H2]; [zl|zl|].
  destruct (pval p); rewrite !zlen_app, zlen_zeros, zlen_property_hdr by lia; unfold hdr_length; zl.
Qed.

Lemma property_bytes_shape p :
  fits p ->
  property_bytes p = property_hdr (zlen (property_bytes p)) (ptype p) (pstart p)
                       ++ prop_key p ++ 0 :: prest p.
Proof.
  intros Hf. rewrite (zlen_property_bytes p Hf).
  unfold property_bytes, ptype, pstart, prest, property_body.
  destruct (pval p) as [s|v|b l]; rewrite <- ?app_assoc; cbn [app]; rewrite ?Z.add_0_r; [done| |done].
  rewrite zlen_app. change (zlen [0]) with 1. by rewrite Z.add_assoc.
Qed.

(** The three header fields of an encoded property. *)
Lemma property_fields data pre n t st post :
  data = pre ++ property_hdr n t st ++ post -> 0 <= n < 2 ^ 16 -> 0 <= t < 2 ^ 8 -> 0 <= st < 2 ^ 8 ->
  field data (zlen pre) 2 = Some n /\ field data (zlen pre + 2) 1 = Some t
  /\ field data (zlen pre + 3) 1 = Some st.
Proof.
  unfold property_hdr. intros -> Hn Ht Hs. rewrite <- !app_assoc. split_and!.
  - erewrite field_mid by done. by rewrite wrap_small.
  - rewrite (field_mid _ (pre ++ le_bytes 2 n) 1 t (le_bytes 1 st ++ post));
      [by rewrite wrap_small|by rewrite <- !app_assoc|by zl|done].
  - rewrite (field_mid _ (pre ++ le_bytes 2 n ++ le_bytes 1 t) 1 st post);
      [by rewrite wrap_small|by rewrite <- !app_assoc|by zl|done].
Qed.

Lemma pstart_bounds p :
  encodable p ->
  hdr_length + zlen (prop_key p) + 1 <= pstart p <= zlen (property_bytes p)
  /\ pstart p <= hdr_length + zlen (prop_key p) + 8
  /\ match pval p with PInteger _ => pstart p + 8 = zlen (property_bytes p) | _ => True end.
Proof.
  intros He. pose proof (encodable_fits p He) as Hf. rewrite (zlen_property_bytes p Hf).
  pose proof (encodable_body p He) as Hb. unfold fits, hdr_length in *.
  destruct (align8_bounds (4 + zlen (property_body p))) as [H1 _]; [zl|zl|].
  unfold pstart, property_body, hdr_length in *.
  destruct (pval p) as [s|v|b l]; rewrite !zlen_app in *; change (zlen [0]) with 1 in *; [zl| |zl].
  rewrite Z.add_assoc in *. split; [lia|]. split; [lia|done].
Qed.

Lemma list_bytes_count l : zlen l <= zlen (list_bytes l).
Proof.
  induction l as [|s l IH]; [done|]. rewrite list_bytes_cons, !zlen_app, zlen_cons.
  change (zlen [0]) with 1. zl.
Qed.

Section ReadProperty.
Context (data pre post : list Z) (p : property) (pn : ostr) (result : bus_object) (h : heap)
  (bs fr : list nat).
Context (Hdata : data = pre ++ property_bytes p ++ post) (He : encodable p)
  (Hpn : sbytes pn = prop_key p) (Hok : object_ok result)
  (Hcap : ocapacity result * 2 * property_size < 2 ^ 64) (Hp : plenty h)
  (Ho : owns h (sblk pn :: obj_blocks result ++ bs) fr).

Definition read_done (fuel : nat) : Prop :=
  exists result' h',
    read_property fuel data (zlen pre) (zlen (property_bytes p)) (ptype p) (pstart p) pn result h
      = Ok (Some result', h')
    /\ setter_post h result (prop_key p) (abs_value (pval p)) bs fr true result' h'.

Lemma setter_true h1 key v cs r o' h' :
  oracle h1 = oracle h -> setter_post h1 result key v cs fr r o' h' -> r = true.
Proof.
  intros Eo (_ & _ & _ & _ & _ & Hr). destruct r; [done|]. destruct Hr as [_ []].
  by apply (plenty_oracle h).
Qed.

Lemma setter_move h1 key v cs o' h' h2 :
  setter_post h1 result key v (cs ++ bs) fr true o' h' -> oracle h1 = oracle h ->
  oracle h2 = oracle h' -> owns h2 (obj_blocks o' ++ bs) fr ->
  setter_post h result key v bs fr true o' h2.
Proof. unfold setter_post. intros (E1 & _ & H) E2 E3 Ho2. split; [congruence|]. by split. Qed.

Lemma read_string_ok fuel s : pval p = PString s -> read_done fuel.
Proof.
  intros Ev. unfold read_done, read_property, ptype. pose proof (encodable_fits p He) as Hf.
  pose proof (pstart_bounds p He) as (Hs & _ & _). pose proof He as (Hk & Hst & Hlen & Hv).
  pose proof (property_bytes_shape p Hf) as Hsh. pose proof (zlen_property_bytes p Hf) as Hz.
  pose proof (encodable_body p He) as Hb.
  destruct (align8_bounds (hdr_length + zlen (property_body p))) as [Hal _];
    [unfold hdr_length; zl|unfold hdr_length; zl|].
  unfold pstart, prest, property_body in *. rewrite Ev in *.
  change (PROPERTY_TYPE_STRING =? PROPERTY_TYPE_STRING) with true. cbv iota.
  set (n := hdr_length + zlen (_ ++ _)) in *.
  assert (En : n = 4 + (zlen (prop_key p) + (1 + (zlen (sbytes s) + 1))))
    by (subst n; unfold hdr_length; rewrite !zlen_app; done).
  rewrite (strndup_at_ok data (pre ++ property_hdr (zlen (property_bytes p)) PROPERTY_TYPE_STRING
    (hdr_length + zlen (prop_key p) + 1) ++ prop_key p ++ [0]) (sbytes s) (zeros (align8 n - n) ++ post)).
  2:{ rewrite Hdata, Hsh at 1. unfold ptype. rewrite Ev. rewrite <- !app_assoc. cbn [app].
      by rewrite <- !app_assoc. }
  2:{ rewrite !zlen_app, zlen_property_hdr. change (zlen [0]) with 1. lia. }
  2:{ unfold hdr_length in *. lia. }
  2: done.
  destruct (astrdup_plenty h (sbytes s) _ fr Hp Ho) as (o & h1 & E1 & Es & Ho1 & Eo1).
  erewrite abind_ok by exact E1. cbv beta iota. rewrite Hpn, Es.
  destruct (set_property_string_spec h1 result (prop_key p) (sbytes s) ([sblk pn; sblk o] ++ bs) fr)
    as (r & o' & h2 & E2 & Hpost); [done|done|done| |].
  { eapply owns_perm; [|exact Ho1]. solve_Permutation. }
  erewrite abind_ok by exact E2. cbv beta iota.
  pose proof (setter_true _ _ _ _ _ _ _ Eo1 Hpost) as ->. pose proof Hpost as (_ & Ho2 & _).
  apply (owns_perm _ _ (sblk pn :: sblk o :: obj_blocks o' ++ bs)) in Ho2; [|solve_Permutation].
  destruct (free_owned h2 _ _ _ Ho2) as (h3 & E3 & Ho3 & Eo3 & _). erewrite abind_ok by exact E3.
  destruct (free_owned h3 _ _ _ Ho3) as (h4 & E4 & Ho4 & Eo4 & _). erewrite abind_ok by exact E4.
  exists o', h4. split; [done|]. apply (setter_move h1 _ _ [sblk pn; sblk o] o' h2); [done|done| |done].
  congruence.
Qed.

Lemma read_integer_ok fuel v : pval p = PInteger v -> read_done fuel.
Proof.
  intros Ev. unfold read_done, read_property, ptype. pose proof (encodable_fits p He) as Hf.
  pose proof (pstart_bounds p He) as (Hs & _ & Hs8). pose proof He as (Hk & Hst & Hlen & Hv).
  pose proof (property_bytes_shape p Hf) as Hsh. unfold prest in Hsh. rewrite Ev in *.
  change (PROPERTY_TYPE_INTEGER =? PROPERTY_TYPE_STRING) with false.
  change (PROPERTY_TYPE_INTEGER =? PROPERTY_TYPE_INTEGER) with true. cbv iota.
  rewrite (proj2 (Z.eqb_eq _ _) Hs8). cbn [negb]. set (z := zeros _) in *.
  rewrite (field_mid data (pre ++ property_hdr (zlen (property_bytes p)) (ptype p) (pstart p)
    ++ prop_key p ++ 0 :: z) 8 v post).
  2:{ rewrite Hdata, Hsh at 1. rewrite <- !app_assoc. cbn [app]. by rewrite <- !app_assoc. }
  2:{ apply (f_equal zlen) in Hsh. revert Hsh. zlen_simpl. lia. }
  2: done.
  rewrite wrap_small by (simpl; lia). cbn [opt_am].
  unfold mbind at 1, AM_bind at 1, mret at 1, AM_ret at 1. rewrite Hpn.
  destruct (set_property_integer_spec h result (prop_key p) v ([sblk pn] ++ bs) fr)
    as (r & o' & h2 & E2 & Hpost); [done|done|done| |].
  { eapply owns_perm; [|exact Ho]. solve_Permutation. }
  erewrite abind_ok by exact E2. cbv beta iota.
  pose proof (setter_true _ _ _ _ _ _ _ eq_refl Hpost) as ->. pose proof Hpost as (_ & Ho2 & _).
  apply (owns_perm _ _ (sblk pn :: obj_blocks o' ++ bs)) in Ho2; [|solve_Permutation].
  destruct (free_owned h2 _ _ _ Ho2) as (h3 & E3 & Ho3 & Eo3 & _). erewrite abind_ok by exact E3.
  exists o', h3. split; [done|]. by apply (setter_move h _ _ [sblk pn] o' h2).
Qed.

Lemma read_list_prop_ok fuel b l :
  pval p = PList b l -> zlen data < Z.of_nat fuel -> read_done fuel.
Proof.
  intros Ev Hfuel. unfold read_done, read_property, ptype. pose proof (encodable_fits p He) as Hf.
  pose proof (pstart_bounds p He) as (Hs & _ & _). pose proof He as (Hk & Hst & Hlen & Hv).
  pose proof (property_bytes_shape p Hf) as Hsh. pose proof (zlen_property_bytes p Hf) as Hz.
  pose proof (encodable_body p He) as Hb.
  destruct (align8_bounds (hdr_length + zlen (property_body p))) as [Hal _];
    [unfold hdr_length; zl|unfold hdr_length; zl|].
  unfold pstart, prest, property_body in *. rewrite Ev in *.
  change (PROPERTY_TYPE_LIST =? PROPERTY_TYPE_STRING) with false.
  change (PROPERTY_TYPE_LIST =? PROPERTY_TYPE_INTEGER) with false.
  change (PROPERTY_TYPE_LIST =? PROPERTY_TYPE_LIST) with true. cbv iota.
  set (n := hdr_length + zlen (_ ++ _)) in *.
  assert (En : n = 4 + (zlen (prop_key p) + (1 + zlen (list_bytes l))))
    by (subst n; unfold hdr_length; rewrite !zlen_app; done).
  pose proof (list_bytes_count l) as Hcnt. pose proof (zlen_nonneg l) as Hl0.
  assert (Hl16 : zlen l < 2 ^ 16) by (pose proof (zlen_nonneg (prop_key p)); lia).
  assert (Hd : data = (pre ++ property_hdr (zlen (property_bytes p)) PROPERTY_TYPE_LIST
    (hdr_length + zlen (prop_key p) + 1) ++ prop_key p ++ [0]) ++ list_bytes l ++ zeros (align8 n - n) ++ post).
  { rewrite Hdata, Hsh at 1. unfold ptype. rewrite Ev. rewrite <- !app_assoc. cbn [app].
    by rewrite <- !app_assoc. }
  assert (Hdl : zlen (list_bytes l) <= zlen data).
  { rewrite Hd, !zlen_app, zlen_property_hdr. unfold hdr_length. zl. }
  edestruct (read_list_ok fuel data _ l (align8 n - n) post (zlen pre) (zlen (property_bytes p))
    (hdr_length + zlen (prop_key p) + 1) vector_init h (sblk pn :: obj_blocks result ++ bs) fr Hd)
    as (vec & h1 & ptrs & E1 & Ei & Er & Hvok & Hvc & Hpl & Ho1 & Eo1).
  { rewrite !zlen_app, zlen_property_hdr. change (zlen [0]) with 1. lia. }
  { unfold hdr_length in *. lia. }
  { lia. }
  { lia. }
  { unfold hdr_length in *. zl. }
  { done. }
  { assert (Hx : zlen l < Z.of_nat fuel) by lia. unfold zlen in Hx. lia. }
  { done. }
  { done. }
  { unfold vector_init. cbn [vitems]. rewrite zlen_nil. zl. }
  { done. }
  { exact Ho. }
  erewrite abind_ok by exact E1. cbv beta iota. cbn [negb]. cbn [vector_init vitems app] in Ei.
  assert (Hvl : zlen (vitems vec) = zlen l) by (rewrite Ei; unfold zlen; lia).
  destruct (vector_push_cases 8 h1 vec None (sblk pn :: obj_blocks result ++ bs) fr)
    as [(v & h2 & E2 & Ei2 & Hv' & Ho2 & _ & Eo2)|(v & h2 & _ & _ & _ & _ & _ & Hn)];
    [lia|done|lia|lia|done| |exfalso; by apply Hn, (plenty_oracle h)].
  erewrite abind_ok by exact E2. cbv beta iota. cbn [negb]. rewrite Ei2, Ei, Er. cbn [opt_am].
  unfold mbind at 1, AM_bind at 1, mret at 1, AM_ret at 1. rewrite Hpn.
  destruct (set_property_list_spec h2 result (prop_key p) (sbytes <$> l) ((sblk pn :: vblocks v) ++ bs) fr)
    as (r & o' & h3 & E3 & Hpost); [done|done|done| |].
  { eapply owns_perm; [|exact Ho2]. solve_Permutation. }
  erewrite abind_ok by exact E3. cbv beta iota.
  assert (Eo12 : oracle h2 = oracle h) by congruence.
  pose proof (setter_true _ _ _ _ _ _ _ Eo12 Hpost) as ->. pose proof Hpost as (_ & Ho3 & _).
  apply (owns_perm _ _ (sblk pn :: vblocks v ++ obj_blocks o' ++ bs)) in Ho3; [|solve_Permutation].
  destruct (free_owned h3 _ _ _ Ho3) as (h4 & E4 & Ho4 & Eo4 & _). erewrite abind_ok by exact E4.
  destruct (free_opt_owned h4 _ _ _ Ho4) as (h5 & E5 & Ho5 & Eo5 & _).
  unfold vector_free. erewrite (abind_ok _ _ _ _ h5); [|by erewrite abind_ok by exact E5].
  exists o', h5. split; [done|].
  apply (setter_move h2 _ _ (sblk pn :: vblocks v) o' h3); [done|done|congruence|done].
Qed.

Lemma read_property_ok fuel : zlen data < Z.of_nat fuel -> read_done fuel.
Proof.
  intros Hf. destruct (pval p) as [s|v|b l] eqn:E.
  - by apply (read_string_ok fuel s).
  - by apply (read_integer_ok fuel v).
  - by apply (read_list_prop_ok fuel b l).
Qed.
End ReadProperty.

Lemma property_bytes_pos p : 0 < zlen (property_bytes p).
Proof.
  unfold property_bytes. destruct (pval p); rewrite zlen_app, zlen_property_hdr; unfold hdr_length; zl.
Qed.

Lemma ptype_range p : 0 <= ptype p < 2 ^ 8.
Proof. unfold ptype. destruct (pval p); done. Qed.

(** One round of the decoder's loop on an encoded property. *)
Lemma read_properties_step fuel data pre p post result h bs fr :
  data = pre ++ property_bytes p ++ post -> encodable p -> object_ok result ->
  ocapacity result * 2 * property_size < 2 ^ 64 -> plenty h -> owns h (obj_blocks result ++ bs) fr ->
  exists result' h', read_properties (S fuel) data (zlen data) (zlen pre) result h
      = read_properties fuel data (zlen data) (zlen (pre ++ property_bytes p)) result' h'
    /\ setter_post h result (prop_key p) (abs_value (pval p)) bs fr true result' h'.
Proof.
  intros Hdata He1 Hok Hcap Hp Ho. cbn [read_properties].
  pose proof (encodable_fits p He1) as Hf. pose proof (property_bytes_shape p Hf) as Hsh.
  pose proof (property_bytes_pos p) as Hpos. pose proof He1 as (Hk & Hst & Hlen & _).
  destruct (pstart_bounds p He1) as ([Hb1 Hb2] & Hb3 & _). pose proof (zlen_nonneg (prop_key p)) as Hkn.
  assert (Hd : data = pre ++ property_hdr (zlen (property_bytes p)) (ptype p) (pstart p)
    ++ (prop_key p ++ 0 :: prest p) ++ post) by (rewrite Hdata, Hsh at 1; by rewrite <- !app_assoc).
  assert (Hdz : zlen data = zlen pre + (zlen (property_bytes p) + zlen post))
    by (rewrite Hdata; by rewrite !zlen_app).
  pose proof (zlen_nonneg post) as Hpn.
  destruct (property_fields data pre _ _ _ _ Hd) as (F1 & F2 & F3);
    [unfold hdr_length in *; lia|apply ptype_range|unfold hdr_length in *; lia|].
  destruct (Z.ltb_spec (zlen pre) (zlen data)); [|lia].
  destruct (Z.ltb_spec (zlen data) (zlen pre + hdr_length)); [unfold hdr_length in *; lia|].
  rewrite F1, F2, F3. cbn [opt_am]. unfold mret, AM_ret, mbind at 1 2 3, AM_bind at 1 2 3.
  destruct (Z.ltb_spec (zlen data) (zlen pre + zlen (property_bytes p))); [lia|].
  destruct (Z.ltb_spec (zlen (property_bytes p)) (pstart p)); [lia|].
  destruct (Z.ltb_spec (pstart p) hdr_length); [unfold hdr_length in *; lia|].
  rewrite (strndup_at_ok data (pre ++ property_hdr (zlen (property_bytes p)) (ptype p) (pstart p))
    (prop_key p) (prest p ++ post)).
  2:{ rewrite Hd. by rewrite <- !app_assoc. }
  2:{ by rewrite zlen_app, zlen_property_hdr. }
  2: lia.
  2: done.
  destruct (astrdup_plenty h (prop_key p) _ fr Hp Ho) as (pn & h1 & E1 & Epn & Ho1 & Eo1).
  erewrite abind_ok by exact E1. cbv beta iota.
  destruct (read_property_ok data pre post p pn result h1 bs fr Hdata He1 Epn Hok Hcap
    (plenty_oracle _ _ Eo1 Hp) Ho1 (S (Z.to_nat (zlen data))) ltac:(lia)) as (result' & h2 & E2 & Hpost).
  erewrite abind_ok by exact E2. cbv beta iota.
  destruct (Z.eqb_spec (zlen (property_bytes p)) 0); [lia|].
  exists result', h2. split; [by rewrite zlen_app|]. unfold setter_post, plenty in *. by rewrite <- Eo1.
Qed.

(** The loop of the decoder reads the properties back one after the other. *)
Lemma read_properties_ok fuel data pre ps result h bs fr :
  data = pre ++ props_bytes ps -> Forall encodable ps -> StronglySorted key_lt ps ->
  Forall (fun p => Forall (fun e => str_lt e.1 (prop_key p)) (abs_entry <$> oprops result)) ps ->
  object_ok result -> ocapacity result * 2 ^ zlen ps * property_size < 2 ^ 64 ->
  plenty h -> owns h (obj_blocks result ++ bs) fr -> (length ps < fuel)%nat ->
  exists result' h',
    read_properties fuel data (zlen data) (zlen pre) result h = Ok (Some result', h')
    /\ abs_entry <$> oprops result' = (abs_entry <$> oprops result) ++ (abs_entry <$> ps)
    /\ object_ok result' /\ oblk result' = oblk result /\ oname result' = oname result
    /\ owns h' (obj_blocks result' ++ bs) fr /\ oracle h' = oracle h.
Proof.
  revert pre ps result h; induction fuel as [|fuel IH];
    intros pre ps result h Hd He Hs Hlt Hok Hcap Hp Ho Hfuel; [lia|].
  destruct ps as [|p ps].
  { cbn [read_properties]. change (props_bytes []) with (@nil Z) in Hd. rewrite app_nil_r in Hd. subst data.
    rewrite Z.ltb_irrefl. exists result, h. by rewrite app_nil_r. }
  apply Forall_cons in He as [He1 He'], Hlt as [Hlt1 Hlt']. apply StronglySorted_cons in Hs as [Hs1 Hs'].
  rewrite props_bytes_cons in *. rewrite zlen_cons in Hcap.
  pose proof (zlen_nonneg ps) as Hz0. rewrite Z.pow_add_r in Hcap by lia.
  pose proof (Z.pow_pos_nonneg 2 (zlen ps) ltac:(lia) ltac:(lia)) as Hpw.
  pose proof Hok as (_ & _ & Hc0 & _).
  assert (Hcap1 : ocapacity result * 2 * property_size < 2 ^ 64) by (unfold property_size in *; nia).
  destruct (read_properties_step fuel data pre p (props_bytes ps) result h bs fr Hd He1 Hok Hcap1 Hp Ho)
    as (result' & h2 & -> & (Eo2 & Ho2 & Hok2 & Eb2 & En2 & Habs & Hcap2 & Hlast)).
  assert (Hall : abs_entry <$> oprops result' = (abs_entry <$> oprops result) ++ [abs_entry p]).
  { apply Hlast. by rewrite Forall_fmap in Hlt1. }
  destruct (IH (pre ++ property_bytes p) ps result' h2) as (r3 & h3 & E3 & Ha3 & Hok3 & Eb3 & En3 & Ho3 & Eo3).
  - by rewrite <- app_assoc.
  - done.
  - done.
  - rewrite Hall. apply list.Forall_forall. intros q Hq. apply Forall_app. split.
    + rewrite list.Forall_forall in Hlt'. by apply Hlt'.
    + constructor; [|done]. rewrite list.Forall_forall in Hs1. by apply Hs1.
  - done.
  - unfold property_size in *. nia.
  - by apply (plenty_oracle h).
  - done.
  - simpl in Hfuel. lia.
  - exists r3, h3. split; [done|]. split; [by rewrite Ha3, Hall, <- app_assoc|].
    split; [done|]. split; [congruence|]. split; [congruence|]. split; [done|congruence].
Qed.

(** ** Whole messages *)

(** [malloc] returns blocks of the requested size. *)
Definition fresh_ok (fresh_bytes : Z -> list Z) : Prop := forall n, 0 <= n -> zlen (fresh_bytes n) = n.

Lemma opt_am_bind {A B} (a : A) (k : A -> AM B) h : (opt_am (Some a) ≫= k) h = k a h.
Proof. done. Qed.

Lemma serialize_cases fresh_bytes h o name bs fr :
  fresh_ok fresh_bytes -> oname o = Some name -> message_fits (sbytes name) (oprops o) -> owns h bs fr ->
  let len := object_header_length (sbytes name) + zlen (props_bytes (oprops o)) in
  (exists blk h', pmos_bus_object_serialize_ipc fresh_bytes (Some o) h
       = Ok (Some (blk, message_bytes (sbytes name) (oprops o) len), h')
     /\ owns h' (blk :: bs) fr /\ oracle h' = oracle h)
  \/ (exists h', pmos_bus_object_serialize_ipc fresh_bytes (Some o) h = Ok (None, h')
        /\ owns h' bs fr /\ oracle h' = oracle h /\ ~ plenty h).
Proof.
  intros Hfr Hname Hfit Ho len. pose proof Hfit as [Hf Hsz]. unfold pmos_bus_object_serialize_ipc.
  pose proof (zlen_nonneg (sbytes name)) as Hn1. pose proof (zlen_nonneg (props_bytes (oprops o))) as Hn2.
  destruct (align8_object_header (sbytes name) ltac:(lia)) as [_ Hal].
  unfold object_hdr_length, PUBLISH_OBJECT_HEADER_SIZE in *.
  rewrite Hname, wrap_small by lia. rewrite props_size_ok by (done || lia). rewrite opt_am_bind.
  set (size := 8 + object_header_length (sbytes name) + zlen (props_bytes (oprops o))).
  destruct (malloc_cases h size) as [[Et E]|[Et E]]; erewrite abind_ok by exact E; cbv beta iota.
  - left. rewrite message_fill_ok by (done || apply Hfr; lia). eexists _, _. split; [reflexivity|].
    split; [|done]. unfold owns in *. simpl. by rewrite Ho.
  - right. eexists. split; [reflexivity|]. split; [done|]. split; [done|].
    intros Hp. by rewrite Hp in Et.
Qed.

(** The bounds under which an object survives the trip. *)
Definition object_encodable (name : cstring) (ps : list property) : Prop :=
  str_ok name /\ 0 < zlen name < 2 ^ 16 - 16
  /\ Forall encodable ps /\ zlen ps <= 56
  /\ object_header_length name + zlen (props_bytes ps) < 2 ^ 32.

Lemma object_fields data size nl off post :
  data = object_hdr size nl off ++ post -> 0 <= size < 2 ^ 32 -> 0 <= nl < 2 ^ 16 -> 0 <= off < 2 ^ 16 ->
  field data 0 4 = Some size /\ field data 4 2 = Some nl /\ field data 6 2 = Some off.
Proof.
  unfold object_hdr. intros -> Hs Hn Ho. rewrite <- !app_assoc. split_and!.
  - rewrite (field_mid _ [] 4 size (le_bytes 2 nl ++ le_bytes 2 off ++ post)) by done. by rewrite wrap_small.
  - rewrite (field_mid _ (le_bytes 4 size) 2 nl (le_bytes 2 off ++ post)) by done. by rewrite wrap_small.
  - rewrite (field_mid _ (le_bytes 4 size ++ le_bytes 2 nl) 2 off post);
      [by rewrite wrap_small|by rewrite <- !app_assoc|done|done].
Qed.

Lemma props_bytes_count ps : zlen ps <= zlen (props_bytes ps).
Proof.
  induction ps as [|p ps IH]; [done|]. rewrite props_bytes_cons, zlen_app, zlen_cons.
  pose proof (property_bytes_pos p). lia.
Qed.

Lemma deserialize_ok h name ps size bs fr :
  object_encodable name ps -> table_ok ps ->
  size = object_header_length name + zlen (props_bytes ps) ->
  plenty h -> owns h bs fr ->
  exists o h', pmos_bus_object_deserialize_ipc (Some (object_bytes name ps size)) size h = Ok (Some o, h')
    /\ abs_entry <$> oprops o = abs_entry <$> ps /\ pmos_bus_object_get_name (Some o) = Some name
    /\ object_ok o /\ owns h' (obj_blocks o ++ bs) fr /\ oracle h' = oracle h.
Proof.
  intros (Hn & [Hn0 Hhl] & He & Hps & Htot) [Hst _] Hsize Hp Ho.
  assert (Hbig : zlen name + 64 < 2 ^ 64) by lia.
  destruct (align8_object_header name Hbig) as [Eal Hal]. pose proof (zlen_nonneg (props_bytes ps)) as Hpn.
  pose proof (zlen_object_bytes name ps size Hbig) as Hz. rewrite <- Hsize in Hz.
  unfold pmos_bus_object_deserialize_ipc. unfold object_hdr_length in Hal.
  destruct (Z.ltb_spec size object_hdr_length); [unfold object_hdr_length in *; lia|].
  set (data := object_bytes name ps size) in *.
  assert (Hd : data = object_hdr size (zlen name) (object_header_length name)
    ++ (name ++ zeros (object_header_length name - (object_hdr_length + zlen name + 1) + 1)) ++ props_bytes ps).
  { subst data. unfold object_bytes. rewrite <- Eal. by rewrite <- !app_assoc. }
  destruct (object_fields data size (zlen name) (object_header_length name) _ Hd) as (F1 & F2 & F3);
    [lia..|].
  destruct (create_cases h bs fr Ho) as [(o & h1 & E1 & Eps & Enm & Ecap & Hok & Ho1 & Eo1)|(h1 & _ & _ & _ & Hnp)];
    [|done]. erewrite abind_ok by exact E1. cbv beta iota.
  rewrite F1, F2, F3, !opt_am_bind, Z.ltb_irrefl.
  unfold object_hdr_length in *.
  destruct (Z.eqb_spec (zlen name) 0); [lia|]. destruct (Z.ltb_spec (size - 8) (zlen name)); [lia|]. cbn [orb].
  destruct (Z.ltb_spec (object_header_length name) (zlen name + 8)); [lia|].
  rewrite (strndup_at_ok data (object_hdr size (zlen name) (object_header_length name)) name
    (zeros (object_header_length name - (8 + zlen name + 1)) ++ props_bytes ps)).
  2:{ rewrite Hd. rewrite zeros_cons by lia. rewrite <- !app_assoc. cbn [app]. do 5 f_equal. lia. }
  2: done.
  2: lia.
  2: done.
  destruct (astrdup_plenty h1 name _ fr (plenty_oracle _ _ Eo1 Hp) Ho1) as (nm & h2 & E2 & Enm2 & Ho2 & Eo2).
  erewrite abind_ok by exact E2. cbv beta iota.
  set (o1 := BusObject (oblk o) (Some nm) (opblk o) (oprops o) (ocapacity o) (oslots o)).
  set (pre := object_hdr size (zlen name) (object_header_length name) ++ name
              ++ zeros (object_header_length name - (8 + zlen name + 1) + 1)).
  assert (Hpre : zlen pre = object_header_length name).
  { subst pre. rewrite !zlen_app, zlen_zeros, zlen_object_hdr by lia. unfold object_hdr_length. lia. }
  pose proof (props_bytes_count ps) as Hcnt. pose proof (zlen_nonneg ps) as Hps0.
  rewrite <- Hpre, <- Hz.
  destruct (read_properties_ok (S (Z.to_nat (zlen data))) data pre ps o1 h2 bs fr)
    as (o' & h' & E & Habs & Hok' & _ & Enm' & Ho' & Eo').
  - rewrite Hd. subst pre. by rewrite <- !app_assoc.
  - done.
  - done.
  - cbn. rewrite Eps. apply list.Forall_forall. intros q _. constructor.
  - done.
  - cbn. rewrite Ecap. assert (2 ^ zlen ps <= 2 ^ 56) by (apply Z.pow_le_mono_r; lia).
    unfold TABLE_INITIAL_CAPACITY, property_size. lia.
  - apply (plenty_oracle h); [congruence|done].
  - eapply owns_perm; [|exact Ho2]. subst o1. unfold obj_blocks. cbn. rewrite Enm. cbn. solve_Permutation.
  - rewrite Hz. assert (Hx : zlen ps <= size) by lia. unfold zlen in Hx. lia.
  - exists o', h'. split; [exact E|]. split; [rewrite Habs; cbn; by rewrite Eps|].
    split; [unfold pmos_bus_object_get_name; cbn; rewrite Enm'; cbn; by rewrite Enm2|].
    split; [done|]. split; [done|congruence].
Qed.

(** ** The decoder terminates on every input *)

Definition nofuel {A} (c : AM A) : Prop := forall h, c h <> OutOfFuel.

Lemma nofuel_ret {A} (a : A) : nofuel (mret a).
Proof. done. Qed.

Lemma nofuel_fault {A} : nofuel (@afault A).
Proof. done. Qed.

Lemma nofuel_bind {A B} (c : AM A) (k : A -> AM B) : nofuel c -> (forall a, nofuel (k a)) -> nofuel (c ≫= k).
Proof.
  intros Hc Hk h. unfold mbind, AM_bind. specialize (Hc h). destruct (c h) as [[a h']| |]; [|done|done].
  apply Hk.
Qed.

Lemma nofuel_malloc sz : nofuel (malloc sz).
Proof. intros h. unfold malloc. by destruct (oracle _ _ _). Qed.

Lemma nofuel_free b : nofuel (free b).
Proof. intros h. unfold free. by destruct (remove1 _ _). Qed.

Lemma nofuel_free_opt p : nofuel (free_opt p).
Proof. destruct p; [apply nofuel_free|apply nofuel_ret]. Qed.

Lemma nofuel_realloc p sz : nofuel (realloc p sz).
Proof.
  intros h. unfold realloc. destruct (oracle _ _ _); [|done].
  pose proof (nofuel_free_opt p h). by destruct (free_opt p h) as [[]| |].
Qed.

Create HintDb nofuel.
#[export] Hint Resolve nofuel_ret nofuel_fault nofuel_malloc nofuel_free nofuel_free_opt nofuel_realloc : nofuel.

(** Walk through the binds and the case distinctions of a loop-free body. *)
Ltac nofuel :=
  repeat first
    [ solve [auto with nofuel]
    | apply nofuel_bind; [|intros]
    | match goal with
      | |- nofuel (match ?x with _ => _ end) => destruct x
      | |- nofuel (if ?x then _ else _) => destruct x
      end ].

Lemma nofuel_astrdup s : nofuel (astrdup s).
Proof. unfold astrdup. nofuel. Qed.
#[export] Hint Resolve nofuel_astrdup : nofuel.

Lemma nofuel_opt_am {A} (o : option A) : nofuel (opt_am o).
Proof. destruct o; [apply nofuel_ret|apply nofuel_fault]. Qed.

Lemma nofuel_opt_bind {A B} (o : option A) (k : A -> AM B) :
  (forall a, o = Some a -> nofuel (k a)) -> nofuel (opt_am o ≫= k).
Proof. destruct o as [a|]; intros H h; [by apply (H a)|done]. Qed.

Lemma nofuel_free_strings l : nofuel (free_strings l).
Proof. induction l; simpl; nofuel. Qed.
#[export] Hint Resolve nofuel_opt_am nofuel_free_strings : nofuel.

Lemma nofuel_release_properties ps : nofuel (release_properties ps).
Proof. induction ps; simpl; unfold release_property; nofuel. Qed.
#[export] Hint Resolve nofuel_release_properties : nofuel.

Lemma nofuel_set_property o p : nofuel (set_property o p).
Proof.
  unfold set_property, insert_property, grow_table, release_property, mret.
  nofuel.
Qed.

Lemma nofuel_dup_strings value l : nofuel (dup_strings value l).
Proof. revert l; induction value; intros l; simpl; nofuel. Qed.

Lemma nofuel_push {A} sz (v : vector A) a : nofuel (vector_push_back_checked sz v a).
Proof. unfold vector_push_back_checked, vector_append. nofuel. Qed.
#[export] Hint Resolve nofuel_set_property nofuel_dup_strings nofuel_push : nofuel.

Lemma nofuel_deser_fail o : nofuel (deser_fail o).
Proof. unfold deser_fail, pmos_bus_object_free. nofuel. Qed.

Lemma nofuel_strndup_at data off n : nofuel (strndup_at data off n).
Proof. unfold strndup_at. nofuel. Qed.
#[export] Hint Resolve nofuel_deser_fail nofuel_strndup_at : nofuel.

Lemma nul_pos_lt l n : nul_pos l = Some n -> (n < length l)%nat.
Proof.
  revert n; induction l as [|b l IH]; intros n H; simpl in *; [done|].
  destruct (b =? 0); simplify_eq; [lia|]. destruct (nul_pos l) as [m|]; simplify_eq/=.
  specialize (IH m eq_refl). lia.
Qed.

(** A non-empty string lies in the message. *)
Lemma strnlen_at_bound data off m len :
  0 <= off -> 0 <= m -> strnlen_at data off m = Some len -> 0 <= len /\ (len = 0 \/ off + len <= zlen data).
Proof.
  intros H0 Hm. unfold strnlen_at. destruct (nul_pos (zdrop off data)) as [n|] eqn:E.
  - intros [= <-]. split; [lia|]. apply nul_pos_lt in E.
    unfold zdrop in E. rewrite length_drop in E. unfold zlen. lia.
  - destruct (Z.leb_spec m (Z.max 0 (zlen data - off))); [|done]. intros [= <-]. lia.
Qed.

Lemma nofuel_read_list fuel data base length offset vec :
  0 <= base + offset -> zlen data - (base + offset) < Z.of_nat fuel -> (0 < fuel)%nat ->
  nofuel (read_list fuel data base length offset vec).
Proof.
  revert offset vec; induction fuel as [|fuel IH]; intros offset vec H0 Hf Hpos; [lia|]. cbn [read_list].
  apply nofuel_opt_bind. intros n E. apply strnlen_at_bound in E; [|done|apply wrap_range; lia].
  destruct (Z.eqb_spec n 0); [nofuel|]. nofuel. apply IH; lia.
Qed.

Lemma le_value_nonneg l : Forall is_byte l -> 0 <= le_value l.
Proof. induction 1 as [|b l Hb Hl IH]; simpl; [done|]. unfold is_byte in Hb. lia. Qed.

Lemma field_nonneg data off n v : Forall is_byte data -> field data off n = Some v -> 0 <= v.
Proof.
  intros Hb. unfold field, slice. destruct (_ && _); [|done]. cbn. intros [= <-].
  apply le_value_nonneg. unfold ztake, zdrop. by apply Forall_take, Forall_drop.
Qed.

Lemma nofuel_read_property fuel data base length type data_start pn result :
  0 <= base + data_start -> zlen data - (base + data_start) < Z.of_nat fuel -> (0 < fuel)%nat ->
  nofuel (read_property fuel data base length type data_start pn result).
Proof.
  intros H0 Hf Hp. pose proof (nofuel_read_list fuel data base length data_start vector_init H0 Hf Hp).
  unfold read_property, pmos_bus_object_set_property_string, pmos_bus_object_set_property_integer,
    pmos_bus_object_set_property_list, vector_free. nofuel.
Qed.

Lemma nofuel_read_properties fuel data size offset result :
  Forall is_byte data -> 0 <= offset -> size - offset < Z.of_nat fuel -> (0 < fuel)%nat ->
  nofuel (read_properties fuel data size offset result).
Proof.
  intros Hb. revert offset result; induction fuel as [|fuel IH]; intros offset result H0 Hf Hp; [lia|].
  cbn [read_properties]. destruct (Z.ltb_spec offset size); [|nofuel].
  destruct (size <? offset + hdr_length); [nofuel|].
  apply nofuel_opt_bind. intros length El. apply nofuel_opt_bind. intros type Et.
  apply nofuel_opt_bind. intros start Es. apply field_nonneg in El, Es; [|done|done].
  do 3 (case_if; [nofuel|]). apply nofuel_bind; [nofuel|]. intros [pn|]; [|nofuel].
  apply nofuel_bind; [apply nofuel_read_property; zl|]. intros [r|]; [|nofuel].
  destruct (Z.eqb_spec length 0); [nofuel|]. apply IH; lia.
Qed.

(** ** Facts about whole messages *)

Lemma props_bytes_mod ps : Forall fits ps -> zlen (props_bytes ps) mod 8 = 0.
Proof.
  induction 1 as [|p ps Hp Hps IH]; [done|]. rewrite props_bytes_cons, zlen_app.
  destruct (property_length_bytes p Hp) as [E M]. rewrite E in M.
  by rewrite Z.add_mod, M, IH by lia.
Qed.

Lemma message_len_mod name ps :
  message_fits name ps ->
  let len := object_header_length name + zlen (props_bytes ps) in
  zlen (message_bytes name ps len) = PUBLISH_OBJECT_HEADER_SIZE + len /\ len mod 8 = 0.
Proof.
  intros [Hf Hs] len. pose proof (zlen_nonneg (props_bytes ps)) as H1. split.
  - unfold message_bytes. rewrite zlen_app, zlen_object_bytes by lia. done.
  - subst len. rewrite Z.add_mod, (props_bytes_mod ps Hf) by lia.
    destruct (align8_bounds (object_hdr_length + (zlen name + 1))) as [_ Hm];
      [unfold object_hdr_length; zl..|]. unfold object_header_length. by rewrite Hm.
Qed.

Lemma message_payload name ps len :
  zdrop PUBLISH_OBJECT_HEADER_SIZE (message_bytes name ps len) = object_bytes name ps len.
Proof. unfold message_bytes. by apply zdrop_app. Qed.

Lemma encodable_message_fits name ps : object_encodable name ps -> message_fits name ps.
Proof.
  intros (_ & Hn & He & _ & Ht). split.
  - eapply list.Forall_impl; [exact He|]. apply encodable_fits.
  - destruct (align8_object_header name) as [_ H]; unfold object_hdr_length in *; lia.
Qed.

(** ** Properties *)

Section Claims.
Context (fresh_bytes : Z -> list Z) (Hfresh : fresh_ok fresh_bytes).

(** C36. The encoder computes the exact size beforehand and writes every byte of
    the message inside the block it allocated: either malloc fails, NULL is
    returned and nothing is leaked, or the result is one new block whose bytes
    are [message_bytes], whatever the block contained before, and none of the
    assertions fails. *)
Theorem object_serialize_exact h o name bs fr :
  oname o = Some name -> message_fits (sbytes name) (oprops o) -> owns h bs fr ->
  let len := object_header_length (sbytes name) + zlen (props_bytes (oprops o)) in
  (exists blk h' msg, pmos_bus_object_serialize_ipc fresh_bytes (Some o) h = Ok (Some (blk, msg), h')
     /\ msg = message_bytes (sbytes name) (oprops o) len /\ zlen msg = PUBLISH_OBJECT_HEADER_SIZE + len
     /\ len mod 8 = 0 /\ owns h' (blk :: bs) fr)
  \/ (exists h', pmos_bus_object_serialize_ipc fresh_bytes (Some o) h = Ok (None, h')
        /\ owns h' bs fr /\ ~ plenty h).
Proof.
  intros Hname Hfit Ho len. pose proof (message_len_mod (sbytes name) (oprops o) Hfit) as [Hl Hm].
  destruct (serialize_cases fresh_bytes h o name bs fr Hfresh Hname Hfit Ho)
    as [(blk & h' & E & Ho' & _)|(h' & E & Ho' & _ & Hp)]; [left|right; eauto].
  eexists blk, h', _. split; [exact E|]. split; [done|]. by split_and!.
Qed.

(** C10. Decoding what was encoded gives the object back: for an object whose
    fields fit the message format, with memory available, the encoder's bytes
    after the IPC header decode to an object with the same name and the same
    properties in the same order, which owns exactly its own blocks. *)
Theorem object_roundtrip h o name bs fr :
  object_ok o -> oname o = Some name -> object_encodable (sbytes name) (oprops o) ->
  plenty h -> owns h bs fr ->
  exists blk msg h1 o' h2,
    pmos_bus_object_serialize_ipc fresh_bytes (Some o) h = Ok (Some (blk, msg), h1)
    /\ pmos_bus_object_deserialize_ipc (Some (zdrop PUBLISH_OBJECT_HEADER_SIZE msg))
         (zlen msg - PUBLISH_OBJECT_HEADER_SIZE) h1 = Ok (Some o', h2)
    /\ pmos_bus_object_get_name (Some o') = pmos_bus_object_get_name (Some o)
    /\ abs_entry <$> oprops o' = abs_entry <$> oprops o
    /\ object_ok o' /\ owns h2 (obj_blocks o' ++ blk :: bs) fr.
Proof.
  intros Hok Hname Henc Hp Ho. pose proof (encodable_message_fits _ _ Henc) as Hfit.
  pose proof (message_len_mod (sbytes name) (oprops o) Hfit) as [Hl _].
  destruct (serialize_cases fresh_bytes h o name bs fr Hfresh Hname Hfit Ho)
    as [(blk & h1 & E & Ho1 & Eo1)|(h' & _ & _ & _ & Hn)]; [|done].
  destruct (deserialize_ok h1 (sbytes name) (oprops o) _ (blk :: bs) fr Henc (proj1 Hok) eq_refl
    (plenty_oracle _ _ Eo1 Hp) Ho1) as (o' & h2 & E2 & Ha & En & Hok' & Ho2 & _).
  eexists blk, _, h1, o', h2. split; [exact E|]. rewrite Hl, message_payload.
  replace (PUBLISH_OBJECT_HEADER_SIZE + _ - PUBLISH_OBJECT_HEADER_SIZE) with
    (object_header_length (sbytes name) + zlen (props_bytes (oprops o))) by lia.
  split; [exact E2|]. split; [rewrite En; unfold pmos_bus_object_get_name; cbn; by rewrite Hname|]. done.
Qed.
End Claims.

(** C40. The decoder terminates on every received message: no contents of the
    bytes make it loop (each round advances, and a property of length zero is
    rejected). *)
Theorem deserialize_terminates data size :
  Forall is_byte data -> 0 <= size -> nofuel (pmos_bus_object_deserialize_ipc (Some data) size).
Proof.
  intros Hb Hs. unfold pmos_bus_object_deserialize_ipc, pmos_bus_object_create.
  case_if; [nofuel|]. apply nofuel_bind; [nofuel|]. intros [result|]; [|nofuel].
  do 3 (apply nofuel_opt_bind; intros ? ?%field_nonneg; [|done]). do 3 (case_if; [nofuel|]).
  apply nofuel_bind; [nofuel|]. intros [name|]; [|nofuel].
  apply nofuel_read_properties; [done|lia|lia|lia].
Qed.

(** ** Example *)

Definition demo_object : bus_object :=
  BusObject 0 (Some (OStr 1 [112;99;105;48])) 2
    [Property (OStr 3 [100;101;118]) (PString (OStr 4 [110;118;109;101]));
     Property (OStr 5 [105;100;115]) (PList 6 [OStr 7 [97]; OStr 8 [98;99]]);
     Property (OStr 9 [105;114;113]) (PInteger 300)] 64 64.

Definition demo_heap : heap := Heap (fun _ _ => true) 10 [0;1;2;3;4;5;6;7;8;9]%nat.
Definition demo_fresh (n : Z) : list Z := replicate (Z.to_nat n) 170.

Lemma demo_fresh_ok : fresh_ok demo_fresh.
Proof. intros n Hn. unfold demo_fresh. rewrite zlen_replicate. lia. Qed.

Lemma demo_object_ok : object_ok demo_object.
Proof.
  split; [|done]. split; repeat constructor; unfold key_lt, prop_key; simpl; lia.
Qed.

Lemma demo_encodable : object_encodable [112;99;105;48] (oprops demo_object).
Proof.
  split_and!; try done; [repeat constructor|].
  repeat constructor; try done; simpl; unfold str_ok, is_char; repeat constructor; done.
Qed.

Lemma object_serialize_exact_witness :
  exists blk h' msg, pmos_bus_object_serialize_ipc demo_fresh (Some demo_object) demo_heap = Ok (Some (blk, msg), h')
    /\ zlen msg = 72.
Proof.
  destruct (object_serialize_exact demo_fresh demo_fresh_ok demo_heap demo_object (OStr 1 [112;99;105;48])
    [] (live demo_heap)) as [(blk & h' & msg & E & -> & Hl & _)|(h' & _ & _ & Hn)].
  - done.
  - apply encodable_message_fits, demo_encodable.
  - unfold owns. reflexivity.
  - exists blk, h', (message_bytes [112;99;105;48] (oprops demo_object)
      (object_header_length [112;99;105;48] + zlen (props_bytes (oprops demo_object)))).
    split; [exact E|]. vm_compute. reflexivity.
  - exfalso. by apply Hn.
Defined.

Lemma object_roundtrip_witness :
  exists blk msg h1 o' h2,
    pmos_bus_object_serialize_ipc demo_fresh (Some demo_object) demo_heap = Ok (Some (blk, msg), h1)
    /\ pmos_bus_object_deserialize_ipc (Some (zdrop PUBLISH_OBJECT_HEADER_SIZE msg))
         (zlen msg - PUBLISH_OBJECT_HEADER_SIZE) h1 = Ok (Some o', h2)
    /\ pmos_bus_object_get_name (Some o') = pmos_bus_object_get_name (Some demo_object)
    /\ abs_entry <$> oprops o' = abs_entry <$> oprops demo_object
    /\ object_ok o' /\ owns h2 (obj_blocks o' ++ [blk]) (live demo_heap).
Proof.
  apply (object_roundtrip demo_fresh demo_fresh_ok demo_heap demo_object (OStr 1 [112;99;105;48]) []).
  - apply demo_object_ok.
  - done.
  - apply demo_encodable.
  - done.
  - unfold owns. reflexivity.
Defined.

Lemma deserialize_terminates_witness :
  nofuel (pmos_bus_object_deserialize_ipc (Some (replicate 64 255)) 64).
Proof. apply deserialize_terminates; [repeat constructor; done|done]. Defined.

(** A message of exactly [size] bytes whose name has no NUL: the decoder reads on. *)
Lemma deserialize_overread :
  pmos_bus_object_deserialize_ipc (Some (object_hdr 12 4 12 ++ [112;99;105;48])) 12 demo_heap = Fault.
Proof. done. Qed.
