(* ===== verification/BusFilter.v ===== *)
(** * libc/src/generic/pmos/pmbus_object.h/filter.c

    The filters a client registers with pmbus: equality of a property with a
    string, conjunctions and disjunctions, their construction, duplication and
    release, the IPC encoding and decoding, and the evaluation on an object. *)

From stdpp Require Import base list numbers gmap sorting.
From S2P Require Import Prelude CMem CString Alloc StrTo BusObject BusCodec.

(** ** Data *)

(** The two compound filters have the same layout and differ in the header. *)
Inductive compound := Conjunction | Disjunction.

Inductive filter : Type :=
| FEquals (fblk : nat) (key value : ostr)
| FCompound (type : compound) (fblk : nat) (values : vector filter).

Section FilterInd.
Variable P : filter -> Prop.
Hypothesis Heq : forall b k v, P (FEquals b k v).
Hypothesis Hcomp : forall t b vec, Forall P (vitems vec) -> P (FCompound t b vec).

(** Induction that goes through the vector of a compound filter. *)
Definition filter_nested_ind : forall f, P f :=
  fix go f :=
    match f with
    | FEquals b k v => Heq b k v
    | FCompound t b (Vec d items c s) =>
        Hcomp t b (Vec d items c s)
          ((fix go_list l : Forall P l :=
              match l with
              | [] => List.Forall_nil P
              | x :: l => @List.Forall_cons _ P x l (go x) (go_list l)
              end) items)
    end.
End FilterInd.

Definition PMOS_BUS_FILTER_EQUALS_TYPE : Z := 1.
Definition PMOS_BUS_FILTER_CONJUNCTION_TYPE : Z := 2.
Definition PMOS_BUS_FILTER_DISJUNCTION_TYPE : Z := 3.

Definition compound_type (t : compound) : Z :=
  match t with
  | Conjunction => PMOS_BUS_FILTER_CONJUNCTION_TYPE
  | Disjunction => PMOS_BUS_FILTER_DISJUNCTION_TYPE
  end.

(** Sizes of the structures on a 64-bit target. *)
Definition equals_size : Z := 24.
Definition compound_size : Z := 32.

(** ** Construction and release *)

(** [pmos_bus_filter_conjunction_create] and [..._disjunction_create]. *)
Definition compound_create (t : compound) : AM (option filter) :=
  b ← malloc compound_size;
  match b with
  | None => mret None
  | Some b => mret (Some (FCompound t b vector_init))
  end.

Definition pmos_bus_filter_conjunction_create : AM (option filter) := compound_create Conjunction.
Definition pmos_bus_filter_disjunction_create : AM (option filter) := compound_create Disjunction.

(** [pmos_bus_filter_free], with the three functions it dispatches to. *)
Fixpoint pmos_bus_filter_free (f : filter) : AM unit :=
  match f with
  | FEquals b k v =>
      _ ← free (sblk k);
      _ ← free (sblk v);
      free b
  | FCompound t b (Vec d items c s) =>
      _ ← (fix free_all (l : list filter) : AM unit :=
             match l with
             | [] => mret tt
             | v :: l => _ ← pmos_bus_filter_free v; free_all l
             end) items;
      _ ← free_opt d;
      free b
  end.

(** [VECTOR_FOREACH(filter->values, v) pmos_bus_filter_free(v)] *)
Definition free_all : list filter -> AM unit :=
  fix free_all (l : list filter) : AM unit :=
    match l with
    | [] => mret tt
    | v :: l => _ ← pmos_bus_filter_free v; free_all l
    end.

Definition pmos_bus_filter_equals_create (key value : option cstring) : AM (option filter) :=
  match key, value with
  | Some key, Some value =>
      b ← malloc equals_size;
      match b with
      | None => mret None
      | Some b =>
          k ← astrdup key;
          v ← astrdup value;
          match k, v with
          | Some k, Some v => mret (Some (FEquals b k v))
          | _, _ =>
              _ ← free_opt (sblk <$> k);
              _ ← free_opt (sblk <$> v);
              _ ← free b;
              mret None
          end
      end
  | _, _ => mret None
  end.

(** [pmos_bus_filter_disjunction_add]; [true] is the result 0.  The argument is
    a compound filter, as its type says. *)
Definition pmos_bus_filter_disjunction_add (f : option filter) (value : option filter)
    : AM (bool * option filter) :=
  match f, value with
  | Some (FCompound t b vec), Some value =>
      '(r, vec) ← vector_push_back_checked 8 vec value;
      mret (r, Some (FCompound t b vec))
  | _, _ => mret (false, f)
  end.

Definition pmos_bus_filter_conjunction_add := pmos_bus_filter_disjunction_add.

(** The copying loop of [pmos_bus_filter_dup]: the result of the addition is ignored. *)
Definition dup_items (dup : filter -> AM (option filter)) : list filter -> filter -> AM (option filter) :=
  fix dup_items (l : list filter) (new_filter : filter) : AM (option filter) :=
    match l with
    | [] => mret (Some new_filter)
    | v :: l =>
        d ← dup v;
        match d with
        | None => _ ← pmos_bus_filter_free new_filter; mret None
        | Some d =>
            '(_, nf) ← pmos_bus_filter_conjunction_add (Some new_filter) (Some d);
            match nf with
            | Some nf => dup_items l nf
            | None => afault
            end
        end
    end.

Fixpoint pmos_bus_filter_dup (f : filter) : AM (option filter) :=
  match f with
  | FEquals _ k v => pmos_bus_filter_equals_create (Some (sbytes k)) (Some (sbytes v))
  | FCompound t _ (Vec d items c s) =>
      new_filter ← compound_create t;
      match new_filter with
      | Some (FCompound t b vec) =>
          '(r, vec) ← vector_reserve 8 vec (zlen items);
          if negb r then _ ← pmos_bus_filter_free (FCompound t b vec); mret None
          else dup_items pmos_bus_filter_dup items (FCompound t b vec)
      | _ => mret None
      end
  end.

(** ** The encoder *)

Definition FILTER_SIZE_MAX : Z := 2 ^ 32 - 1.
(** [sizeof(struct EqualsFilterBinary)] and [sizeof(struct ConDisFilterBinary)] *)
Definition equals_hdr_length : Z := 16.
Definition compound_hdr_length : Z := 8.

Definition equals_hdr (total_size key_len value_len : Z) : list Z :=
  le_bytes 4 PMOS_BUS_FILTER_EQUALS_TYPE ++ le_bytes 4 total_size ++ le_bytes 4 key_len ++ le_bytes 4 value_len.

Definition compound_hdr (t : compound) (total_size : Z) : list Z :=
  le_bytes 4 (compound_type t) ++ le_bytes 4 total_size.

(** The [data_out] branch of the equals case: the four writes. *)
Definition equals_fill (buf : list Z) (data_out : Z) (key value : cstring) (key_len value_len total_size : Z)
    : option (list Z) :=
  b ← write_at buf data_out (equals_hdr total_size key_len value_len);
  b ← write_at b (data_out + equals_hdr_length) (ztake (wrap 32 (key_len + 1)) (key ++ [0]));
  b ← write_at b (data_out + equals_hdr_length + key_len + 1)
        (ztake (wrap 32 (value_len + 1)) (value ++ [0]));
  zero_at b (data_out + equals_hdr_length + key_len + 1 + value_len + 1)
    (total_size - (equals_hdr_length + key_len + 1 + value_len + 1)).

(** The loop over the inner filters of the compound case: the size so far and
    the buffer; the size 0 is the early [return 0]. *)
Definition serialize_items (ser : filter -> option Z -> list Z -> option (Z * list Z)) (data_out : option Z)
    : list filter -> Z -> list Z -> option (Z * list Z) :=
  fix inner (l : list filter) (total_size : Z) (b : list Z) : option (Z * list Z) :=
    match l with
    | [] => Some (total_size, b)
    | v :: l =>
        '(s, b) ← ser v ((fun o => o + total_size) <$> data_out) b;
        if s =? 0 then Some (0, b)
        else if FILTER_SIZE_MAX - total_size <? s then Some (0, b)
        else inner l (total_size + s) b
    end.

(** [data_out] is the offset in [buf] to write at, or NULL to only compute the
    size; the result is the size, 0 on failure, and the buffer. The outer [None]
    is a write outside the buffer. *)
Fixpoint pmos_bus_filter_serialize_ipc (f : filter) (data_out : option Z) (buf : list Z)
    : option (Z * list Z) :=
  match f with
  | FEquals _ k v =>
      let key_len := wrap 32 (zlen (sbytes k)) in
      let value_len := wrap 32 (zlen (sbytes v)) in
      let total_size := align8 (equals_hdr_length + key_len + 1 + value_len + 1) in
      if FILTER_SIZE_MAX <? total_size then Some (0, buf)
      else
        match data_out with
        | None => Some (total_size, buf)
        | Some out =>
            b ← equals_fill buf out (sbytes k) (sbytes v) key_len value_len total_size;
            Some (total_size, b)
        end
  | FCompound t _ (Vec _ items _ _) =>
      '(total_size, b) ←
        serialize_items pmos_bus_filter_serialize_ipc data_out items compound_hdr_length buf;
      if total_size =? 0 then Some (0, b)
      else
        match data_out with
        | None => Some (total_size, b)
        | Some out =>
            b ← write_at b out (compound_hdr t total_size);
            Some (total_size, b)
        end
  end.

(** ** The decoder *)

(** The equals case. *)
Definition equals_decode (data : list Z) (base total_size : Z) : AM (option filter) :=
  if total_size <? equals_hdr_length then mret None
  else
    key_len ← opt_am (field data (base + 8) 4);
    value_len ← opt_am (field data (base + 12) 4);
    if total_size <? equals_hdr_length + key_len + value_len then mret None
    else
      b ← malloc equals_size;
      match b with
      | None => mret None
      | Some b =>
          k ← strndup_at data (base + equals_hdr_length) key_len;
          match k with
          | None => _ ← free b; mret None
          | Some k =>
              v ← strndup_at data (base + equals_hdr_length + key_len) value_len;
              match v with
              | None => _ ← free (sblk k); _ ← free b; mret None
              | Some v => mret (Some (FEquals b k v))
              end
          end
      end.

(** [data] is the whole message, [base] the offset of [data] in the recursive calls. *)
Fixpoint pmos_bus_filter_deserialize_ipc (fuel : nat) (data : list Z) (base size : Z)
    : AM (option filter) :=
  match fuel with
  | O => afuel
  | S fuel =>
      if size <? compound_hdr_length then mret None
      else
        type ← opt_am (field data base 4);
        total_size ← opt_am (field data (base + 4) 4);
        if size <? total_size then mret None
        else if type =? PMOS_BUS_FILTER_EQUALS_TYPE then equals_decode data base total_size
        else if (type =? PMOS_BUS_FILTER_CONJUNCTION_TYPE) || (type =? PMOS_BUS_FILTER_DISJUNCTION_TYPE) then
          f ← compound_create (if type =? PMOS_BUS_FILTER_DISJUNCTION_TYPE then Disjunction else Conjunction);
          match f with
          | None => mret None
          | Some f => inner_decode fuel data base total_size compound_hdr_length f
          end
        else mret None
  end
(** The loop over the inner filters; [offset] is relative to [base]. *)
with inner_decode (fuel : nat) (data : list Z) (base total_size offset : Z) (f : filter)
    : AM (option filter) :=
  match fuel with
  | O => afuel
  | S fuel =>
      if offset <? total_size then
        if total_size <? offset + compound_hdr_length then _ ← pmos_bus_filter_free f; mret None
        else
          inner_size ← opt_am (field data (base + offset + 4) 4);
          if total_size - offset <? inner_size then _ ← pmos_bus_filter_free f; mret None
          else
            inner_filter ← pmos_bus_filter_deserialize_ipc fuel data (base + offset) inner_size;
            match inner_filter with
            | None => _ ← pmos_bus_filter_free f; mret None
            | Some v =>
                '(r, nf) ← pmos_bus_filter_disjunction_add (Some f) (Some v);
                match nf with
                | None => afault
                | Some nf =>
                    if r : bool then inner_decode fuel data base total_size (offset + inner_size) nf
                    else _ ← pmos_bus_filter_free v; _ ← pmos_bus_filter_free nf; mret None
                end
            end
      else mret (Some f)
  end.

(** ** Evaluation *)

Definition matches_eq_filter (object : bus_object) (key value : cstring) : option bool :=
  prop ← pmos_bus_object_get_property (Some object) (Some key);
  match prop with
  | None => Some false
  | Some p =>
      match pval p with
      | PString s => Some (str_diff (sbytes s) value =? 0)
      | PInteger i =>
          let r := strtoull value 0 in
          Some (bool_decide (pend r = []) && bool_decide (perrno r = None) && (i =? pvalue_of r))
      | PList _ l => Some (existsb (fun s => str_diff (sbytes s) value =? 0) l)
      end
  end.

(** The two loops, with their early exit. *)
Definition all_match (m : filter -> option bool) : list filter -> option bool :=
  fix go (l : list filter) : option bool :=
    match l with
    | [] => Some true
    | v :: l => r ← m v; if negb r then Some false else go l
    end.

Definition any_match (m : filter -> option bool) : list filter -> option bool :=
  fix go (l : list filter) : option bool :=
    match l with
    | [] => Some false
    | v :: l => r ← m v; if r : bool then Some true else go l
    end.

(** [None] is an access outside the property table. *)
Fixpoint pmos_bus_object_matches_filter (object : bus_object) (f : filter) : option bool :=
  match f with
  | FEquals _ k v => matches_eq_filter object (sbytes k) (sbytes v)
  | FCompound Conjunction _ (Vec _ items _ _) => all_match (pmos_bus_object_matches_filter object) items
  | FCompound Disjunction _ (Vec _ items _ _) => any_match (pmos_bus_object_matches_filter object) items
  end.

(** ** Ownership *)

Fixpoint fblocks (f : filter) : list nat :=
  match f with
  | FEquals b k v => [sblk k; sblk v; b]
  | FCompound _ b (Vec d items _ _) => concat (map fblocks items) ++ option_list d ++ [b]
  end.

Lemma free_all_owned l h bs fr :
  Forall (fun f => forall h bs, owns h (fblocks f ++ bs) fr ->
    exists h', pmos_bus_filter_free f h = Ok (tt, h') /\ owns h' bs fr /\ oracle h' = oracle h) l ->
  owns h (concat (map fblocks l) ++ bs) fr ->
  exists h', free_all l h = Ok (tt, h') /\ owns h' bs fr /\ oracle h' = oracle h.
Proof.
  intros Hl. revert h; induction Hl as [|f l Hf Hl IH]; intros h Ho; [by exists h|]. simpl in Ho.
  rewrite <- app_assoc in Ho. destruct (Hf h _ Ho) as (h1 & E1 & Ho1 & Eo1).
  destruct (IH h1 Ho1) as (h2 & E2 & Ho2 & Eo2). exists h2.
  split; [|split; [done|congruence]]. cbn [free_all]. by erewrite abind_ok by exact E1.
Qed.

Lemma filter_free_owned f h bs fr :
  owns h (fblocks f ++ bs) fr ->
  exists h', pmos_bus_filter_free f h = Ok (tt, h') /\ owns h' bs fr /\ oracle h' = oracle h.
Proof.
  revert h bs; induction f as [b k v|t b [d items c s] IH] using filter_nested_ind; intros h bs Ho.
  - cbn in *. destruct (free_owned _ _ _ _ Ho) as (h1 & E1 & Ho1 & Eo1 & _). erewrite abind_ok by exact E1.
    destruct (free_owned _ _ _ _ Ho1) as (h2 & E2 & Ho2 & Eo2 & _). erewrite abind_ok by exact E2.
    destruct (free_owned _ _ _ _ Ho2) as (h3 & E3 & Ho3 & Eo3 & _). exists h3.
    split; [done|]. split; [done|congruence].
  - cbn [fblocks] in Ho. rewrite <- !app_assoc in Ho.
    destruct (free_all_owned items h _ fr IH Ho) as (h1 & E1 & Ho1 & Eo1).
    cbn [pmos_bus_filter_free]. erewrite abind_ok by exact E1.
    destruct (free_opt_owned _ _ _ _ Ho1) as (h2 & E2 & Ho2 & Eo2 & _). erewrite abind_ok by exact E2.
    destruct (free_owned _ _ _ _ Ho2) as (h3 & E3 & Ho3 & Eo3 & _). exists h3.
    split; [done|]. split; [done|congruence].
Qed.

(** ** Abstract filters *)

Inductive atree := AEq (key value : cstring) | AComp (t : compound) (l : list atree).

Fixpoint shape (f : filter) : atree :=
  match f with
  | FEquals _ k v => AEq (sbytes k) (sbytes v)
  | FCompound t _ (Vec _ items _ _) => AComp t (map shape items)
  end.

(** No vector is longer than the address space allows. *)
Fixpoint small (f : filter) : Prop :=
  match f with
  | FEquals _ _ _ => True
  | FCompound _ _ (Vec _ items _ _) =>
      zlen items < 2 ^ 60 /\ (fix all l := match l with [] => True | x :: l => small x /\ all l end) items
  end.

Lemma small_items t b d items c s :
  small (FCompound t b (Vec d items c s)) -> zlen items < 2 ^ 60 /\ Forall small items.
Proof.
  intros [H1 H2]. split; [done|]. clear H1. induction items as [|f items IH]; [constructor|].
  destruct H2 as [Hf H2]. constructor; [done|by apply IH].
Qed.

Lemma equals_release h (k v : option ostr) b bs fr :
  owns h (option_list (sblk <$> k) ++ option_list (sblk <$> v) ++ b :: bs) fr ->
  exists h', (_ ← free_opt (sblk <$> k); _ ← free_opt (sblk <$> v); _ ← free b; mret (@None filter)) h
    = Ok (None, h') /\ owns h' bs fr /\ oracle h' = oracle h.
Proof.
  intros Ho. destruct (free_opt_owned _ _ _ _ Ho) as (h1 & E1 & Ho1 & Eo1 & _). erewrite abind_ok by exact E1.
  destruct (free_opt_owned _ _ _ _ Ho1) as (h2 & E2 & Ho2 & Eo2 & _). erewrite abind_ok by exact E2.
  destruct (free_owned _ _ _ _ Ho2) as (h3 & E3 & Ho3 & Eo3 & _). erewrite abind_ok by exact E3.
  exists h3. split; [done|]. split; [done|congruence].
Qed.

Lemma equals_create_cases h key value bs fr :
  owns h bs fr ->
  (exists f h', pmos_bus_filter_equals_create (Some key) (Some value) h = Ok (Some f, h')
     /\ shape f = AEq key value /\ owns h' (fblocks f ++ bs) fr /\ oracle h' = oracle h)
  \/ (exists h', pmos_bus_filter_equals_create (Some key) (Some value) h = Ok (None, h')
        /\ owns h' bs fr /\ oracle h' = oracle h /\ ~ plenty h).
Proof.
  intros Ho. unfold pmos_bus_filter_equals_create.
  destruct (malloc_cases h equals_size) as [[Et E]|[Ef E]]; erewrite abind_ok by exact E; cbv beta iota.
  2:{ right. eexists. split; [reflexivity|]. split; [done|]. split; [done|]. intros Hp. by rewrite Hp in Ef. }
  set (h1 := Heap _ _ _). assert (Ho1 : owns h1 (calls h :: bs) fr) by (unfold owns in *; simpl; by rewrite Ho).
  assert (Eo1 : oracle h1 = oracle h) by done.
  destruct (astrdup_cases h1 key _ _ Ho1) as [(k & h2 & E2 & Ek & Ho2 & Eo2)|(h2 & E2 & Ho2 & Eo2 & Hp)];
    (erewrite abind_ok by exact E2); cbv beta iota;
    (destruct (astrdup_cases h2 value _ _ Ho2) as [(v & h3 & E3 & Ev & Ho3 & Eo3)|(h3 & E3 & Ho3 & Eo3 & Hp2)]);
    (erewrite abind_ok by exact E3); cbv beta iota.
  - left. eexists _, h3. split; [reflexivity|]. cbn. rewrite Ek, Ev. split; [done|].
    split; [|congruence]. eapply owns_perm; [|exact Ho3]. solve_Permutation.
  - right. destruct (equals_release h3 (Some k) None (calls h) bs fr) as (h4 & E4 & Ho4 & Eo4); [exact Ho3|].
    exists h4. split; [exact E4|]. split; [done|]. split; [congruence|].
    intros Hp. apply Hp2. apply (plenty_oracle h); [congruence|done].
  - right. destruct (equals_release h3 None (Some v) (calls h) bs fr) as (h4 & E4 & Ho4 & Eo4); [exact Ho3|].
    exists h4. split; [exact E4|]. split; [done|]. by split; [congruence|].
  - right. destruct (equals_release h3 None None (calls h) bs fr) as (h4 & E4 & Ho4 & Eo4); [exact Ho3|].
    exists h4. split; [exact E4|]. split; [done|]. by split; [congruence|].
Qed.

Lemma compound_create_cases h t bs fr :
  owns h bs fr ->
  (exists b h', compound_create t h = Ok (Some (FCompound t b vector_init), h')
     /\ owns h' (fblocks (FCompound t b vector_init) ++ bs) fr /\ oracle h' = oracle h)
  \/ (exists h', compound_create t h = Ok (None, h') /\ owns h' bs fr /\ oracle h' = oracle h /\ ~ plenty h).
Proof.
  intros Ho. unfold compound_create.
  destruct (malloc_cases h compound_size) as [[Et E]|[Ef E]]; erewrite abind_ok by exact E; cbv beta iota.
  - left. eexists _, _. split; [reflexivity|]. split; [|done]. unfold owns in *. simpl. by rewrite Ho.
  - right. eexists. split; [reflexivity|]. split; [done|]. split; [done|]. intros Hp. by rewrite Hp in Ef.
Qed.

(** The vector's block and the items make up the filter's blocks. *)
Lemma fblocks_compound t b vec :
  fblocks (FCompound t b vec) ≡ₚ vblocks vec ++ b :: concat (map fblocks (vitems vec)).
Proof. destruct vec as [d items c s]. cbn. unfold vblocks. cbn. solve_Permutation. Qed.

Lemma add_cases h t b vec v bs fr :
  vector_ok vec -> vcapacity vec * 2 * 8 < 2 ^ 64 ->
  owns h (fblocks (FCompound t b vec) ++ fblocks v ++ bs) fr ->
  exists r vec' h', pmos_bus_filter_disjunction_add (Some (FCompound t b vec)) (Some v) h
       = Ok ((r, Some (FCompound t b vec')), h') /\ oracle h' = oracle h
    /\ if r : bool then vitems vec' = vitems vec ++ [v] /\ vector_ok vec'
         /\ (vcapacity vec' = vcapacity vec \/ vcapacity vec' <= Z.max 4 (2 * zlen (vitems vec)))
         /\ owns h' (fblocks (FCompound t b vec') ++ bs) fr
       else owns h' (fblocks (FCompound t b vec') ++ fblocks v ++ bs) fr /\ ~ plenty h.
Proof.
  intros Hv Hc Ho. unfold pmos_bus_filter_disjunction_add. rewrite fblocks_compound in Ho.
  rewrite <- app_assoc in Ho.
  destruct (vector_push_cases 8 h vec v ((b :: concat (map fblocks (vitems vec))) ++ fblocks v ++ bs) fr)
    as [(v1 & h1 & E & Ei & Hv' & Ho' & Hcap & Eo)|(v1 & h1 & E & Ei & Ed & Ho' & Eo & Hp)]; [lia|done|lia|lia|done| |];
    erewrite abind_ok by exact E; cbv beta iota.
  - exists true, v1, h1. split; [done|]. split; [done|]. split_and!; try done.
    eapply owns_perm; [|exact Ho']. rewrite fblocks_compound, Ei, map_app, concat_app. cbn. solve_Permutation.
  - exists false, v1, h1. split; [done|]. split; [done|]. split; [|done].
    eapply owns_perm; [|exact Ho']. rewrite fblocks_compound, Ei. unfold vblocks. rewrite Ed. solve_Permutation.
Qed.

(** What a constructor that may run out of memory promises: a filter of the
    given shape in blocks of its own, or nothing at all. *)
Definition builds (c : AM (option filter)) (s : atree) (h : heap) (bs fr : list nat) : Prop :=
  (exists f h', c h = Ok (Some f, h') /\ shape f = s /\ owns h' (fblocks f ++ bs) fr /\ oracle h' = oracle h)
  \/ (exists h', c h = Ok (None, h') /\ owns h' bs fr /\ oracle h' = oracle h /\ ~ plenty h).

Lemma free_builds_none h0 f h bs fr :
  owns h (fblocks f ++ bs) fr -> oracle h = oracle h0 -> ~ plenty h0 ->
  exists h', (_ ← pmos_bus_filter_free f; mret (@None filter)) h = Ok (None, h')
    /\ owns h' bs fr /\ oracle h' = oracle h0 /\ ~ plenty h0.
Proof.
  intros Ho Eo Hp. destruct (filter_free_owned f h bs fr Ho) as (h' & E & Ho' & Eo').
  erewrite abind_ok by exact E. exists h'. split; [done|]. split; [done|]. split; [congruence|]. done.
Qed.

Lemma dup_items_spec fr t b l : forall vec h bs,
  Forall (fun f => forall h bs, owns h bs fr -> builds (pmos_bus_filter_dup f) (shape f) h bs fr) l ->
  vector_ok vec -> zlen (vitems vec) + zlen l <= vcapacity vec ->
  owns h (fblocks (FCompound t b vec) ++ bs) fr ->
  builds (dup_items pmos_bus_filter_dup l (FCompound t b vec))
    (AComp t (map shape (vitems vec) ++ map shape l)) h bs fr.
Proof.
  induction l as [|f l IH]; intros vec h bs Hl Hv Hroom Ho; cbn [dup_items].
  - left. eexists _, h. split; [reflexivity|]. rewrite app_nil_r. destruct vec as [d items c s]. done.
  - apply Forall_cons in Hl as [Hf Hl]. rewrite zlen_cons in Hroom. pose proof (zlen_nonneg l) as Hl0.
    destruct (Hf h _ Ho) as [(d & h1 & E1 & Es & Ho1 & Eo1)|(h1 & E1 & Ho1 & Eo1 & Hp)];
      unfold builds; erewrite abind_ok by exact E1; cbv beta iota.
    2:{ right. destruct (free_builds_none h _ h1 bs fr Ho1 Eo1 Hp) as (h' & E & Ho' & Eo' & Hp').
        by exists h'. }
    destruct (vector_push_room 8 h1 vec d Hv ltac:(lia)) as [E2 Hv2].
    set (vec2 := Vec _ _ _ _) in *.
    assert (E3 : pmos_bus_filter_conjunction_add (Some (FCompound t b vec)) (Some d) h1
      = Ok ((true, Some (FCompound t b vec2)), h1)).
    { unfold pmos_bus_filter_conjunction_add, pmos_bus_filter_disjunction_add.
      by erewrite abind_ok by exact E2. }
    erewrite abind_ok by exact E3. cbv beta iota.
    destruct (IH vec2 h1 bs Hl Hv2) as [(g & h2 & E4 & Eg & Ho4 & Eo4)|(h2 & E4 & Ho4 & Eo4 & Hp4)].
    + subst vec2. cbn. zlen_simpl. lia.
    + rewrite fblocks_compound in Ho1 |- *. subst vec2. cbn [vitems vblocks vdata] in *.
      rewrite map_app, concat_app. cbn [map concat]. eapply owns_perm; [|exact Ho1].
      unfold vblocks. cbn [vdata]. solve_Permutation.
    + left. exists g, h2. split; [done|]. split; [|split; [done|congruence]].
      rewrite Eg. subst vec2. cbn [vitems]. rewrite map_app, <- app_assoc. cbn [map app]. by rewrite Es.
    + right. exists h2. split; [done|]. split; [done|]. split; [congruence|].
      intros Hp. apply Hp4. by apply (plenty_oracle h).
Qed.

Lemma dup_spec f h bs fr :
  small f -> owns h bs fr -> builds (pmos_bus_filter_dup f) (shape f) h bs fr.
Proof.
  revert h bs; induction f as [b k v|t b [d items c s] IH] using filter_nested_ind; intros h bs Hs Ho.
  - exact (equals_create_cases h (sbytes k) (sbytes v) bs fr Ho).
  - apply small_items in Hs as [Hlen Hs]. cbn [pmos_bus_filter_dup vitems] in *.
    pose proof (zlen_nonneg items) as Hz. unfold builds.
    destruct (compound_create_cases h t bs fr Ho) as [(nb & h1 & E1 & Ho1 & Eo1)|(h1 & E1 & Ho1 & Eo1 & Hp)];
      erewrite abind_ok by exact E1; cbv beta iota; [|right; by exists h1].
    destruct (vector_reserve_cases (A:=filter) 8 h1 (zlen items) (nb :: bs) fr) as
      [(vec & h2 & E2 & Ei & Ec & Hv & Ho2 & Eo2)|(h2 & E2 & Ho2 & Eo2 & Hp)]; [lia|lia|lia|exact Ho1| |];
      erewrite abind_ok by exact E2; cbv beta iota; cbn [negb].
    2:{ right. assert (Hp0 : ~ plenty h) by (intros Hpl; apply Hp; by apply (plenty_oracle h)).
        destruct (free_builds_none h (FCompound t nb vector_init) h2 bs fr)
          as (h' & E & Ho' & Eo' & Hp'); [done|congruence|done|]. by exists h'. }
    destruct (dup_items_spec fr t nb items vec h2 bs) as [(g & h3 & E3 & Eg & Ho3 & Eo3)|(h3 & E3 & Ho3 & Eo3 & Hp3)].
    + clear -IH Hs. induction IH as [|f l Hf Hl IH']; [constructor|]. apply Forall_cons in Hs as [Hs1 Hs2].
      constructor; [|by apply IH']. intros h bs. by apply Hf.
    + done.
    + rewrite Ei, zlen_nil. lia.
    + rewrite fblocks_compound, Ei. cbn. eapply owns_perm; [|exact Ho2]. solve_Permutation.
    + left. exists g, h3. split; [done|]. rewrite Eg, Ei. split; [done|]. split; [done|congruence].
    + right. exists h3. split; [done|]. split; [done|]. split; [congruence|].
      intros Hpl. apply Hp3. apply (plenty_oracle h); [congruence|done].
Qed.

(** ** The encoder writes these bytes *)

Fixpoint abytes (a : atree) : list Z :=
  match a with
  | AEq k v =>
      let n := equals_hdr_length + zlen k + 1 + zlen v + 1 in
      equals_hdr (align8 n) (zlen k) (zlen v) ++ (k ++ [0]) ++ (v ++ [0]) ++ zeros (align8 n - n)
  | AComp t l =>
      let inner := concat (map abytes l) in
      compound_hdr t (compound_hdr_length + zlen inner) ++ inner
  end.

Lemma zlen_equals_hdr a b c : zlen (equals_hdr a b c) = equals_hdr_length.
Proof. done. Qed.
Lemma zlen_compound_hdr t a : zlen (compound_hdr t a) = compound_hdr_length.
Proof. done. Qed.

Lemma abytes_pos a : 8 <= zlen (abytes a).
Proof.
  destruct a; cbn [abytes]; rewrite zlen_app; rewrite ?zlen_equals_hdr, ?zlen_compound_hdr;
    unfold equals_hdr_length, compound_hdr_length; zl.
Qed.

Lemma equals_bytes_len k v :
  zlen (abytes (AEq k v)) <= FILTER_SIZE_MAX ->
  zlen (abytes (AEq k v)) = align8 (equals_hdr_length + zlen k + 1 + zlen v + 1)
  /\ equals_hdr_length + zlen k + 1 + zlen v + 1 <= align8 (equals_hdr_length + zlen k + 1 + zlen v + 1).
Proof.
  cbn [abytes]. set (n := _ + 1). intros Hmax.
  assert (Hn : n <= FILTER_SIZE_MAX).
  { eapply Z.le_trans; [|exact Hmax]. rewrite !zlen_app, zlen_equals_hdr. change (zlen [0]) with 1.
    pose proof (zlen_nonneg (zeros (align8 n - n))). subst n. lia. }
  destruct (align8_bounds n) as [H _]; [subst n; unfold equals_hdr_length; zl|unfold FILTER_SIZE_MAX in *; lia|].
  split; [|lia]. rewrite !zlen_app, zlen_equals_hdr, zlen_zeros by lia. change (zlen [0]) with 1. subst n. lia.
Qed.

(** Encoding [f] at [data_out], or only sizing it. *)
Definition encodes (f : filter) : Prop :=
  zlen (abytes (shape f)) <= FILTER_SIZE_MAX ->
  (forall buf, pmos_bus_filter_serialize_ipc f None buf = Some (zlen (abytes (shape f)), buf))
  /\ (forall pre old post, zlen old = zlen (abytes (shape f)) ->
       pmos_bus_filter_serialize_ipc f (Some (zlen pre)) (pre ++ old ++ post)
         = Some (zlen (abytes (shape f)), pre ++ abytes (shape f) ++ post)).

Lemma ztake_nul (s : cstring) : zlen s + 1 < 2 ^ 32 -> ztake (wrap 32 (zlen s + 1)) (s ++ [0]) = s ++ [0].
Proof.
  intros H. pose proof (zlen_nonneg s). rewrite wrap_small by lia.
  rewrite <- (app_nil_r (s ++ [0])) at 1. apply ztake_app. zl.
Qed.

Lemma encodes_equals b k v : encodes (FEquals b k v).
Proof.
  unfold encodes. cbn [shape]. intros Hmax. destruct (equals_bytes_len _ _ Hmax) as [El Hn].
  rewrite El in *. cbn [pmos_bus_filter_serialize_ipc]. unfold FILTER_SIZE_MAX, equals_hdr_length in *.
  pose proof (zlen_nonneg (sbytes k)) as Hk0. pose proof (zlen_nonneg (sbytes v)) as Hv0.
  rewrite (wrap_small 32 (zlen (sbytes k))), (wrap_small 32 (zlen (sbytes v))) by lia.
  set (total := align8 _) in *. destruct (Z.ltb_spec (2 ^ 32 - 1) total); [lia|]. split; [done|].
  intros pre old post Hold. unfold equals_fill.
  rewrite !ztake_nul by lia.
  set (K := sbytes k) in *. set (V := sbytes v) in *.
  assert (Hbuf : zlen (pre ++ old ++ post) = zlen pre + (total + zlen post)) by (zlen_simpl; lia).
  assert (H16 : equals_hdr_length = 16) by done. pose proof (zlen_equals_hdr total (zlen K) (zlen V)) as Hh.
  wr_first b1 E1. wr_next E1 b2 E2. wr_next E2 b3 E3.
  rewrite zero_at_write by zl. change (replicate (Z.to_nat ?x) 0) with (zeros x).
  set (z := zeros _). assert (Hz : zlen z = total - (equals_hdr_length + zlen K + 1 + zlen V + 1))
    by (apply zlen_zeros; zl).
  wr_next E3 b4 E4. do 2 f_equal. eapply write_finish; [exact E4| |].
  - cbn [abytes]. by rewrite <- !app_assoc.
  - rewrite Hold. symmetry. exact El.
Qed.

(** The loop of the compound case appends the encodings of the inner filters. *)
Lemma serialize_items_spec l :
  Forall encodes l ->
  (forall total b, 0 < total -> total + zlen (concat (map abytes (map shape l))) <= FILTER_SIZE_MAX ->
     serialize_items pmos_bus_filter_serialize_ipc None l total b
       = Some (total + zlen (concat (map abytes (map shape l))), b))
  /\ (forall total out pre old post, 0 < total ->
       total + zlen (concat (map abytes (map shape l))) <= FILTER_SIZE_MAX ->
       out + total = zlen pre -> zlen old = zlen (concat (map abytes (map shape l))) ->
       serialize_items pmos_bus_filter_serialize_ipc (Some out) l total (pre ++ old ++ post)
         = Some (total + zlen (concat (map abytes (map shape l))),
                 pre ++ concat (map abytes (map shape l)) ++ post)).
Proof.
  induction 1 as [|f l Hf Hl [IH1 IH2]]; cbn [map concat serialize_items].
  { change (zlen []) with 0. split; intros.
    - do 2 f_equal. lia.
    - do 2 f_equal; [lia|]. destruct old; [done|]. rewrite zlen_cons in *. pose proof (zlen_nonneg old). lia. }
  set (A := abytes (shape f)). set (R := concat (map abytes (map shape l))) in *. rewrite zlen_app.
  pose proof (zlen_nonneg R) as HR. pose proof (abytes_pos (shape f)) as HA. fold A in HA.
  split; [intros total b H0 Hmax|intros total out pre old post H0 Hmax Hout Hold].
  - destruct (Hf ltac:(fold A; lia)) as [E _]. cbn [fmap option_fmap option_map]. rewrite E. fold A.
    cbn [mbind option_bind]. destruct (Z.eqb_spec (zlen A) 0); [lia|].
    destruct (Z.ltb_spec (FILTER_SIZE_MAX - total) (zlen A)); [lia|].
    rewrite IH1 by lia. do 2 f_equal. lia.
  - destruct (split_zlen old _ _ Hold) as (o1 & o2 & -> & H1 & H2); [lia|lia|].
    destruct (Hf ltac:(fold A; lia)) as [_ E]. cbn [fmap option_fmap option_map]. rewrite Hout.
    rewrite <- app_assoc, E by done. fold A.
    cbn [mbind option_bind]. destruct (Z.eqb_spec (zlen A) 0); [lia|].
    destruct (Z.ltb_spec (FILTER_SIZE_MAX - total) (zlen A)); [lia|].
    rewrite (app_assoc pre). rewrite IH2 by (done || rewrite ?zlen_app; lia).
    rewrite <- !app_assoc. do 2 f_equal. lia.
Qed.

Lemma serialize_spec f : encodes f.
Proof.
  induction f as [b k v|t b [d items c s] IH] using filter_nested_ind; [apply encodes_equals|].
  cbn [vitems] in IH. destruct (serialize_items_spec items IH) as [L1 L2].
  unfold encodes. cbn [shape abytes pmos_bus_filter_serialize_ipc].
  set (R := concat (map abytes (map shape items))) in *. rewrite zlen_app, zlen_compound_hdr.
  pose proof (zlen_nonneg R) as HR. intros Hmax. assert (H8 : compound_hdr_length = 8) by done. split.
  - intros buf. rewrite L1 by lia. cbn [mbind option_bind].
    by destruct (Z.eqb_spec (compound_hdr_length + zlen R) 0); [lia|].
  - intros pre old post Hold. destruct (split_zlen old _ _ Hold) as (o1 & o2 & -> & H1 & H2); [lia|lia|].
    replace (pre ++ (o1 ++ o2) ++ post) with ((pre ++ o1) ++ o2 ++ post) by (by rewrite <- !app_assoc).
    rewrite L2 by (done || rewrite ?zlen_app; lia). cbn [mbind option_bind].
    destruct (Z.eqb_spec (compound_hdr_length + zlen R) 0); [lia|].
    rewrite <- app_assoc, write_at_whole by (by rewrite zlen_compound_hdr). cbn [mbind option_bind].
    by rewrite <- !app_assoc.
Qed.

(** ** The decoder on encoded filters *)

Section AtreeInd.
Variable P : atree -> Prop.
Hypothesis Heq : forall k v, P (AEq k v).
Hypothesis Hcomp : forall t l, Forall P l -> P (AComp t l).
Definition atree_nested_ind : forall a, P a :=
  fix go a :=
    match a with
    | AEq k v => Heq k v
    | AComp t l =>
        Hcomp t l ((fix go_list l : Forall P l :=
          match l with
          | [] => List.Forall_nil P
          | x :: l => @List.Forall_cons _ P x l (go x) (go_list l)
          end) l)
    end.
End AtreeInd.

(** The decoder reads the value where the NUL of the key is. *)
Fixpoint erase_values (a : atree) : atree :=
  match a with
  | AEq k v => AEq k []
  | AComp t l => AComp t (map erase_values l)
  end.

(** Keys are C strings. *)
Fixpoint keys_ok (a : atree) : Prop :=
  match a with
  | AEq k v => str_ok k
  | AComp t l => (fix all l := match l with [] => True | x :: l => keys_ok x /\ all l end) l
  end.

Lemma keys_ok_items t l : keys_ok (AComp t l) -> Forall keys_ok l.
Proof. induction l as [|a l IH]; [constructor|]. intros [H1 H2]. constructor; [done|by apply IH]. Qed.

Lemma field_at data pre k v post off n m :
  data = pre ++ le_bytes k v ++ post -> off = zlen pre -> n = Z.of_nat k -> 0 <= v < 2 ^ (8 * n) -> m = v ->
  field data off n = Some m.
Proof. intros Hd Ho Hn Hv ->. rewrite (field_mid data pre k v post) by done. by rewrite wrap_small. Qed.

Lemma equals_fields data pre total kl vl post :
  data = pre ++ equals_hdr total kl vl ++ post ->
  0 <= total < 2 ^ 32 -> 0 <= kl < 2 ^ 32 -> 0 <= vl < 2 ^ 32 ->
  field data (zlen pre) 4 = Some PMOS_BUS_FILTER_EQUALS_TYPE /\ field data (zlen pre + 4) 4 = Some total
  /\ field data (zlen pre + 8) 4 = Some kl /\ field data (zlen pre + 12) 4 = Some vl.
Proof.
  unfold equals_hdr. intros -> Ht Hk Hv. rewrite <- !app_assoc. split_and!.
  - by eapply field_at.
  - eapply (field_at _ (pre ++ le_bytes 4 PMOS_BUS_FILTER_EQUALS_TYPE)); [by rewrite <- !app_assoc|zl|done|lia|done].
  - eapply (field_at _ (pre ++ le_bytes 4 PMOS_BUS_FILTER_EQUALS_TYPE ++ le_bytes 4 total));
      [by rewrite <- !app_assoc|zl|done|lia|done].
  - eapply (field_at _ (pre ++ le_bytes 4 PMOS_BUS_FILTER_EQUALS_TYPE ++ le_bytes 4 total ++ le_bytes 4 kl));
      [by rewrite <- !app_assoc|zl|done|lia|done].
Qed.

Lemma compound_fields data pre t total post :
  data = pre ++ compound_hdr t total ++ post -> 0 <= total < 2 ^ 32 ->
  field data (zlen pre) 4 = Some (compound_type t) /\ field data (zlen pre + 4) 4 = Some total.
Proof.
  unfold compound_hdr. intros -> Ht. rewrite <- !app_assoc. split.
  - eapply field_at; [done|done|done|by destruct t|done].
  - eapply (field_at _ (pre ++ le_bytes 4 (compound_type t))); [by rewrite <- !app_assoc|zl|done|lia|done].
Qed.

(** Every encoded filter starts with its total size in the second word. *)
Lemma abytes_size_field data pre a post :
  data = pre ++ abytes a ++ post -> zlen (abytes a) <= FILTER_SIZE_MAX ->
  field data (zlen pre + 4) 4 = Some (zlen (abytes a)).
Proof.
  intros Hd Hmax. unfold FILTER_SIZE_MAX in *. pose proof (abytes_pos a) as Hp. destruct a as [k v|t l].
  - destruct (equals_bytes_len k v Hmax) as [El Hn]. rewrite El in *. cbn [abytes] in Hd.
    unfold equals_hdr_length in *. pose proof (zlen_nonneg k). pose proof (zlen_nonneg v).
    rewrite <- app_assoc in Hd.
    apply (equals_fields _ _ _ _ _ _ Hd); unfold equals_hdr_length; lia.
  - cbn [abytes] in *. rewrite zlen_app, zlen_compound_hdr in *. rewrite <- app_assoc in Hd.
    apply (compound_fields _ _ _ _ _ Hd). lia.
Qed.

(** Decoding [a] from the bytes at any place of a message. *)
Definition decodes (a : atree) : Prop := forall fuel data pre post h bs fr,
  data = pre ++ abytes a ++ post -> zlen (abytes a) <= FILTER_SIZE_MAX -> keys_ok a ->
  plenty h -> owns h bs fr -> zlen (abytes a) + 2 <= Z.of_nat fuel ->
  exists f h', pmos_bus_filter_deserialize_ipc fuel data (zlen pre) (zlen (abytes a)) h = Ok (Some f, h')
    /\ shape f = erase_values a /\ owns h' (fblocks f ++ bs) fr /\ oracle h' = oracle h.

Lemma decodes_equals k v : decodes (AEq k v).
Proof.
  intros fuel data pre post h bs fr Hd Hmax Hk Hp Ho Hfuel. unfold FILTER_SIZE_MAX in *.
  destruct fuel as [|fuel]; [pose proof (abytes_pos (AEq k v)); lia|].
  cbn [pmos_bus_filter_deserialize_ipc].
  destruct (equals_bytes_len k v Hmax) as [El Hn]. rewrite El in *.
  cbn [abytes keys_ok] in Hd, Hk. rewrite <- !app_assoc in Hd.
  pose proof (zlen_nonneg k) as Hk0. pose proof (zlen_nonneg v) as Hv0. unfold equals_hdr_length in Hn, El, Hmax, Hfuel.
  destruct (equals_fields _ _ _ _ _ _ Hd) as (F1 & F2 & F3 & F4); [unfold equals_hdr_length; lia..|].
  set (total := align8 _) in *. unfold compound_hdr_length.
  destruct (Z.ltb_spec total 8); [lia|]. rewrite F1, F2, !opt_am_bind, Z.ltb_irrefl.
  change (PMOS_BUS_FILTER_EQUALS_TYPE =? PMOS_BUS_FILTER_EQUALS_TYPE) with true. cbv iota.
  unfold equals_decode, equals_hdr_length in *. destruct (Z.ltb_spec total 16); [lia|].
  rewrite F3, F4, !opt_am_bind. destruct (Z.ltb_spec total (16 + zlen k + zlen v)); [lia|].
  destruct (malloc_cases h equals_size) as [[Et E]|[Ef E]]; [|by rewrite Hp in Ef].
  erewrite abind_ok by exact E. cbv beta iota.
  set (h1 := Heap _ _ _). assert (Ho1 : owns h1 (calls h :: bs) fr) by (unfold owns in *; simpl; by rewrite Ho).
  set (tl := (v ++ [0] ++ zeros (total - (16 + zlen k + 1 + zlen v + 1)) ++ post)) in *.
  rewrite (strndup_at_ok data (pre ++ equals_hdr total (zlen k) (zlen v)) k tl (zlen pre + 16) (zlen k));
    [|by rewrite Hd, <- !app_assoc|by rewrite zlen_app, zlen_equals_hdr|lia|done].
  destruct (astrdup_plenty h1 k _ fr Hp Ho1) as (ks & h2 & E2 & Ek & Ho2 & Eo2).
  erewrite abind_ok by exact E2. cbv beta iota.
  rewrite (strndup_at_ok data (pre ++ equals_hdr total (zlen k) (zlen v) ++ k) [] tl (zlen pre + 16 + zlen k) (zlen v));
    [|by rewrite Hd, <- !app_assoc|by rewrite !zlen_app, zlen_equals_hdr, Z.add_assoc|by rewrite zlen_nil|constructor].
  destruct (astrdup_plenty h2 [] _ fr (plenty_oracle _ _ Eo2 Hp) Ho2) as (vs & h3 & E3 & Ev & Ho3 & Eo3).
  erewrite abind_ok by exact E3. cbv beta iota.
  eexists _, h3. split; [reflexivity|]. cbn. rewrite Ek, Ev. split; [done|]. split; [|by rewrite Eo3, Eo2].
  eapply owns_perm; [|exact Ho3]. solve_Permutation.
Qed.

Lemma concat_count l : 8 * zlen l <= zlen (concat (map abytes l)).
Proof.
  induction l as [|a l IH]; [done|]. cbn [map concat]. rewrite zlen_app, zlen_cons.
  pose proof (abytes_pos a). lia.
Qed.

Lemma inner_decode_spec l : forall fuel data pre mid post h vec t b total offset bs fr,
  Forall decodes l -> Forall keys_ok l ->
  data = pre ++ mid ++ concat (map abytes l) ++ post -> zlen mid = offset ->
  total - offset = zlen (concat (map abytes l)) -> total <= FILTER_SIZE_MAX ->
  plenty h -> owns h (fblocks (FCompound t b vec) ++ bs) fr ->
  vector_ok vec -> vcapacity vec <= Z.max 4 (2 * zlen (vitems vec)) ->
  8 * (zlen (vitems vec) + zlen l) <= total ->
  zlen (concat (map abytes l)) + 3 <= Z.of_nat fuel ->
  exists f h', inner_decode fuel data (zlen pre) total offset (FCompound t b vec) h = Ok (Some f, h')
    /\ shape f = AComp t (map shape (vitems vec) ++ map erase_values l)
    /\ owns h' (fblocks f ++ bs) fr /\ oracle h' = oracle h.
Proof.
  induction l as [|a l IH]; intros fuel data pre mid post h vec t b total offset bs fr
    Hdec Hkeys Hd Hmid Htot Hmax Hp Ho Hv Hc Hcnt Hfuel;
    (destruct fuel as [|fuel]; [cbn [map concat] in Hfuel; zl|]); cbn [inner_decode map concat] in *.
  { rewrite zlen_nil in Htot. destruct (Z.ltb_spec offset total); [lia|].
    eexists _, h. split; [reflexivity|]. rewrite app_nil_r. destruct vec. done. }
  apply Forall_cons in Hdec as [Ha Hdec], Hkeys as [Hka Hkeys].
  rewrite zlen_app in *. rewrite zlen_cons in Hcnt. unfold FILTER_SIZE_MAX in *.
  pose proof (abytes_pos a) as Hpos. pose proof (zlen_nonneg (concat (map abytes l))) as Hr0.
  pose proof (zlen_nonneg l) as Hl0. pose proof (zlen_nonneg (vitems vec)) as Hi0.
  pose proof (zlen_nonneg mid) as Hm0.
  destruct (Z.ltb_spec offset total); [|lia]. unfold compound_hdr_length.
  destruct (Z.ltb_spec total (offset + 8)); [lia|].
  assert (Hd2 : data = (pre ++ mid) ++ abytes a ++ concat (map abytes l) ++ post) by (by rewrite Hd, <- !app_assoc).
  assert (Epm : zlen (pre ++ mid) = zlen pre + offset) by (rewrite zlen_app; lia).
  pose proof (abytes_size_field data (pre ++ mid) a _ Hd2 ltac:(unfold FILTER_SIZE_MAX; lia)) as F.
  rewrite Epm in F. rewrite F, opt_am_bind. destruct (Z.ltb_spec (total - offset) (zlen (abytes a))); [lia|].
  destruct (Ha fuel data (pre ++ mid) _ h _ fr Hd2 ltac:(unfold FILTER_SIZE_MAX; lia) Hka Hp Ho ltac:(lia))
    as (f & h1 & E1 & Ef & Ho1 & Eo1).
  rewrite Epm in E1. erewrite abind_ok by exact E1. cbv beta iota.
  destruct (add_cases h1 t b vec f bs fr Hv ltac:(lia)) as (r & vec' & h2 & E2 & Eo2 & Hr).
  { eapply owns_perm; [|exact Ho1]. solve_Permutation. }
  erewrite abind_ok by exact E2. cbv beta iota.
  destruct r; [|destruct Hr as [_ []]; by apply (plenty_oracle h)].
  destruct Hr as (Ei & Hv' & Hc' & Ho2).
  destruct (IH fuel data pre (mid ++ abytes a) post h2 vec' t b total (offset + zlen (abytes a)) bs fr)
    as (g & h3 & E3 & Eg & Ho3 & Eo3).
  - done.
  - done.
  - by rewrite Hd, <- !app_assoc.
  - rewrite zlen_app. lia.
  - lia.
  - lia.
  - apply (plenty_oracle h); [congruence|done].
  - done.
  - done.
  - rewrite Ei. zlen_simpl. lia.
  - rewrite Ei. zlen_simpl. lia.
  - lia.
  - exists g, h3. split; [exact E3|]. split; [|split; [done|congruence]].
    rewrite Eg, Ei, map_app, <- app_assoc. cbn [map app]. by rewrite Ef.
Qed.

Lemma decode_spec a : decodes a.
Proof.
  induction a as [k v|t l IH] using atree_nested_ind; [apply decodes_equals|].
  intros fuel data pre post h bs fr Hd Hmax Hk Hp Ho Hfuel. unfold FILTER_SIZE_MAX in *.
  destruct fuel as [|fuel]; [pose proof (abytes_pos (AComp t l)); lia|].
  cbn [pmos_bus_filter_deserialize_ipc]. apply keys_ok_items in Hk. cbn [abytes] in *.
  set (inner := concat (map abytes l)) in *. rewrite zlen_app, zlen_compound_hdr in *.
  pose proof (zlen_nonneg inner) as Hi0. pose proof (concat_count l) as Hcnt. fold inner in Hcnt.
  assert (H8 : compound_hdr_length = 8) by done. rewrite <- app_assoc in Hd.
  destruct (compound_fields _ _ _ _ _ Hd) as (F1 & F2); [lia|].
  destruct (Z.ltb_spec (compound_hdr_length + zlen inner) compound_hdr_length); [lia|].
  rewrite F1, F2, !opt_am_bind, Z.ltb_irrefl.
  replace (compound_type t =? PMOS_BUS_FILTER_EQUALS_TYPE) with false by (by destruct t).
  replace ((compound_type t =? PMOS_BUS_FILTER_CONJUNCTION_TYPE) || (compound_type t =? PMOS_BUS_FILTER_DISJUNCTION_TYPE))
    with true by (by destruct t).
  replace (if compound_type t =? PMOS_BUS_FILTER_DISJUNCTION_TYPE then Disjunction else Conjunction) with t
    by (by destruct t).
  destruct (compound_create_cases h t bs fr Ho) as [(b & h1 & E1 & Ho1 & Eo1)|(h1 & _ & _ & _ & Hn)]; [|done].
  erewrite abind_ok by exact E1. cbv beta iota.
  destruct (inner_decode_spec l fuel data pre (compound_hdr t (compound_hdr_length + zlen inner)) post h1
    vector_init t b (compound_hdr_length + zlen inner) compound_hdr_length bs fr)
    as (f & h2 & E2 & Ef & Ho2 & Eo2); try done.
  - fold inner. lia.
  - by apply (plenty_oracle h).
  - unfold vector_init. cbn [vitems]. rewrite zlen_nil. lia.
  - fold inner. lia.
  - exists f, h2. split; [exact E2|]. split; [exact Ef|]. split; [done|congruence].
Qed.

(** ** The decoder terminates *)

Lemma nofuel_filter_free f : nofuel (pmos_bus_filter_free f).
Proof.
  induction f as [b k v|t b [d items c s] IH] using filter_nested_ind; cbn [pmos_bus_filter_free]; [nofuel|].
  apply nofuel_bind; [|intros; nofuel]. cbn [vitems] in IH. induction IH as [|f l Hf Hl IH']; nofuel.
Qed.
#[export] Hint Resolve nofuel_filter_free : nofuel.

Lemma nofuel_add f v : nofuel (pmos_bus_filter_disjunction_add f v).
Proof. unfold pmos_bus_filter_disjunction_add. nofuel. Qed.

Lemma nofuel_equals_decode data base total : nofuel (equals_decode data base total).
Proof. unfold equals_decode. nofuel. Qed.

Lemma nofuel_compound_create t : nofuel (compound_create t).
Proof. unfold compound_create. nofuel. Qed.
#[export] Hint Resolve nofuel_add nofuel_equals_decode nofuel_compound_create : nofuel.

Lemma nofuel_decode data fuel :
  Forall is_byte data ->
  (forall base size, 0 <= size -> size + 2 <= Z.of_nat fuel ->
     nofuel (pmos_bus_filter_deserialize_ipc fuel data base size))
  /\ (forall base total offset f, total - offset + 3 <= Z.of_nat fuel -> (0 < fuel)%nat ->
     nofuel (inner_decode fuel data base total offset f)).
Proof.
  intros Hb. induction fuel as [|fuel [IHd IHi]].
  { split; intros; lia. }
  split.
  - intros base size H0 Hf. cbn [pmos_bus_filter_deserialize_ipc].
    destruct (Z.ltb_spec size compound_hdr_length); [nofuel|]. unfold compound_hdr_length in *.
    apply nofuel_opt_bind. intros type Et. apply nofuel_opt_bind. intros total El.
    destruct (Z.ltb_spec size total); [nofuel|]. destruct (type =? _); [nofuel|].
    destruct (_ || _); [|nofuel]. apply nofuel_bind; [nofuel|]. intros [f|]; [|nofuel].
    apply IHi; lia.
  - intros base total offset f Hf Hpos. cbn [inner_decode].
    destruct (Z.ltb_spec offset total); [|nofuel].
    destruct (Z.ltb_spec total (offset + compound_hdr_length)); [nofuel|].
    apply nofuel_opt_bind. intros isz Es. apply field_nonneg in Es; [|done].
    destruct (Z.ltb_spec (total - offset) isz); [nofuel|].
    destruct (Z.ltb_spec isz compound_hdr_length) as [Hs|Hs].
    + destruct fuel as [|fuel']; [lia|]. cbn [pmos_bus_filter_deserialize_ipc].
      destruct (Z.ltb_spec isz compound_hdr_length); [|lia]. intros h. unfold mbind at 1, AM_bind at 1, mret at 1, AM_ret at 1.
      revert h. change (nofuel (_ ← pmos_bus_filter_free f; mret (@None filter))). nofuel.
    + unfold compound_hdr_length in *. apply nofuel_bind; [apply IHd; lia|]. intros [v|]; [|nofuel].
      apply nofuel_bind; [nofuel|]. intros [r [nf|]]; [|nofuel]. destruct r; [|nofuel]. apply IHi; lia.
Qed.

(** ** Evaluation on the abstract object *)

Definition value_matches (x : aval) (value : cstring) : bool :=
  match x with
  | AString s => bool_decide (s = value)
  | AInteger i =>
      let r := strtoull value 0 in
      bool_decide (pend r = []) && bool_decide (perrno r = None) && (i =? pvalue_of r)
  | AList l => bool_decide (value ∈ l)
  end.

(** The meaning of a filter on a finite map from property names to values. *)
Fixpoint eval (m : gmap (list Z) aval) (a : atree) : bool :=
  match a with
  | AEq k v => match m !! k with Some x => value_matches x v | None => false end
  | AComp Conjunction l => forallb (eval m) l
  | AComp Disjunction l => existsb (eval m) l
  end.

(** The strings of the object's values and of the filter are C strings. *)
Definition value_ok (x : aval) : Prop :=
  match x with
  | AString s => str_ok s
  | AInteger _ => True
  | AList l => Forall str_ok l
  end.

Fixpoint strings_ok (a : atree) : Prop :=
  match a with
  | AEq k v => str_ok k /\ str_ok v
  | AComp _ l => (fix all l := match l with [] => True | x :: l => strings_ok x /\ all l end) l
  end.

Lemma str_diff_eqb s t : str_ok s -> str_ok t -> (str_diff s t =? 0) = bool_decide (s = t).
Proof.
  intros Hs Ht. apply eq_bool_prop_intro. rewrite bool_decide_spec, <- str_diff_eq by done.
  rewrite Is_true_true, Z.eqb_eq. done.
Qed.

Lemma existsb_list l value :
  Forall str_ok (sbytes <$> l) -> str_ok value ->
  existsb (fun s => str_diff (sbytes s) value =? 0) l = bool_decide (value ∈ sbytes <$> l).
Proof.
  intros Hl Hv. induction l as [|s l IH]; cbn in *.
  - symmetry. apply bool_decide_eq_false. intros H. by apply elem_of_nil in H.
  - apply Forall_cons in Hl as [Hs Hl]. rewrite IH, str_diff_eqb by done. apply eq_bool_prop_intro.
    rewrite orb_True, !bool_decide_spec, elem_of_cons. naive_solver.
Qed.

Section Matches.
Context (o : bus_object) (Hok : object_ok o)
  (Hvals : forall k x, abs_props (oprops o) !! k = Some x -> value_ok x).

Lemma matches_eq_spec k v :
  str_ok k -> str_ok v -> matches_eq_filter o k v = Some (eval (abs_props (oprops o)) (AEq k v)).
Proof.
  intros Hk Hv. unfold matches_eq_filter. destruct (get_property_spec o k Hok Hk) as (r & -> & Er).
  cbn [mbind option_bind eval]. rewrite <- Er. destruct r as [p|]; cbn in *; [|done].
  specialize (Hvals k). rewrite <- Er in Hvals. specialize (Hvals _ eq_refl).
  destruct (pval p) as [s|i|b l]; cbn in *; f_equal; [by apply str_diff_eqb|by apply existsb_list].
Qed.

Lemma matches_spec f :
  strings_ok (shape f) -> pmos_bus_object_matches_filter o f = Some (eval (abs_props (oprops o)) (shape f)).
Proof.
  induction f as [b k v|t b [d items c s] IH] using filter_nested_ind; intros Hs.
  - destruct Hs. by apply matches_eq_spec.
  - cbn [vitems shape] in *. destruct t; cbn [pmos_bus_object_matches_filter eval];
      (induction IH as [|f l Hf Hl IH']; [done|]); destruct Hs as [Hs1 Hs2];
      cbn [all_match any_match map forallb existsb]; rewrite Hf by done; cbn [mbind option_bind];
      (destruct (eval _ (shape f)); cbn; [|done] || (destruct (eval _ (shape f)); cbn; [done|])); by apply IH'.
Qed.
End Matches.

(** ** Properties *)

(** The two passes of the filter encoder agree: sized with a NULL buffer, a
    filter needs exactly as many bytes as it then writes; the bytes are
    [abytes] of the filter's structure, and nothing outside them is written. *)
Theorem filter_serialize_exact f pre old post :
  zlen (abytes (shape f)) <= FILTER_SIZE_MAX -> zlen old = zlen (abytes (shape f)) ->
  pmos_bus_filter_serialize_ipc f None old = Some (zlen (abytes (shape f)), old)
  /\ pmos_bus_filter_serialize_ipc f (Some (zlen pre)) (pre ++ old ++ post)
       = Some (zlen (abytes (shape f)), pre ++ abytes (shape f) ++ post).
Proof. intros Hmax Hold. destruct (serialize_spec f Hmax) as [H1 H2]. split; [apply H1|by apply H2]. Qed.

(** Decoding an encoded filter rebuilds its structure and its keys, in blocks
    of its own, but every value comes back as the empty string: the encoder
    leaves a NUL between key and value that the decoder does not skip. *)
Theorem filter_roundtrip_loses_values f h old bs fr :
  zlen (abytes (shape f)) <= FILTER_SIZE_MAX -> keys_ok (shape f) -> zlen old = zlen (abytes (shape f)) ->
  plenty h -> owns h bs fr ->
  exists size msg g h', pmos_bus_filter_serialize_ipc f (Some 0) old = Some (size, msg)
    /\ pmos_bus_filter_deserialize_ipc (S (S (Z.to_nat size))) msg 0 size h = Ok (Some g, h')
    /\ shape g = erase_values (shape f) /\ owns h' (fblocks g ++ bs) fr.
Proof.
  intros Hmax Hk Hold Hp Ho. destruct (serialize_spec f Hmax) as [_ H2].
  specialize (H2 [] old [] Hold). rewrite !app_nil_r in H2. cbn [app] in H2.
  eexists _, _. pose proof (zlen_nonneg (abytes (shape f))) as Hz.
  destruct (decode_spec (shape f) (S (S (Z.to_nat (zlen (abytes (shape f)))))) (abytes (shape f)) [] [] h bs fr)
    as (g & h' & E & Eg & Hg & _); [by rewrite app_nil_r|done|done|done|done|lia|].
  exists g, h'. split; [exact H2|]. by split_and!.
Qed.

(** The filter decoder terminates on every message of [size] bytes,
    however the sizes in it are chosen. *)
Theorem filter_deserialize_terminates data base size :
  Forall is_byte data -> 0 <= size ->
  nofuel (pmos_bus_filter_deserialize_ipc (S (S (Z.to_nat size))) data base size).
Proof. intros Hb Hs. apply (nofuel_decode data _ Hb); lia. Qed.

(** Duplicating a filter gives a filter of the same structure in new blocks,
    or, when memory runs out anywhere on the way, returns NULL with every block
    made so far released; the original is not touched. *)
Theorem filter_dup_correct f h bs fr :
  small f -> owns h (fblocks f ++ bs) fr ->
  (exists g h', pmos_bus_filter_dup f h = Ok (Some g, h') /\ shape g = shape f
     /\ owns h' (fblocks g ++ fblocks f ++ bs) fr)
  \/ (exists h', pmos_bus_filter_dup f h = Ok (None, h') /\ owns h' (fblocks f ++ bs) fr /\ ~ plenty h).
Proof.
  intros Hs Ho. destruct (dup_spec f h _ fr Hs Ho) as [(g & h' & E & Eg & Hg & _)|(h' & E & Hg & _ & Hp)];
    [left; by exists g, h'|right; by exists h'].
Qed.

(** Freeing a filter releases each of its blocks once, recursively. *)
Theorem filter_free_correct f h bs fr :
  owns h (fblocks f ++ bs) fr ->
  exists h', pmos_bus_filter_free f h = Ok (tt, h') /\ owns h' bs fr.
Proof. intros Ho. destruct (filter_free_owned f h bs fr Ho) as (h' & E & Ho' & _). by exists h'. Qed.


(** ** Example *)

(** (dev = "nvme" and (irq = "11" or x = "y")) *)
Definition sample_filter : filter :=
  FCompound Conjunction 10 (Vec (Some 11%nat)
    [FEquals 12 (OStr 13 [100;101;118]) (OStr 14 [110;118;109;101]);
     FCompound Disjunction 15 (Vec (Some 16%nat)
       [FEquals 17 (OStr 18 [105;114;113]) (OStr 19 [49;49]);
        FEquals 20 (OStr 21 [120]) (OStr 22 [121])] 4 4)] 4 4).

Definition filter_heap : heap := Heap (fun _ _ => true) 30 (fblocks sample_filter).

Lemma filter_serialize_exact_witness :
  pmos_bus_filter_serialize_ipc sample_filter None (replicate 96 170) = Some (96, replicate 96 170)
  /\ pmos_bus_filter_serialize_ipc sample_filter (Some (zlen [1;2])) ([1;2] ++ replicate 96 170 ++ [3])
     = Some (96, [1;2] ++ abytes (shape sample_filter) ++ [3]).
Proof. apply (filter_serialize_exact sample_filter [1;2] (replicate 96 170) [3]); done. Defined.

Lemma filter_roundtrip_loses_values_witness :
  exists size msg g h', pmos_bus_filter_serialize_ipc sample_filter (Some 0) (replicate 96 170) = Some (size, msg)
    /\ pmos_bus_filter_deserialize_ipc (S (S (Z.to_nat size))) msg 0 size filter_heap = Ok (Some g, h')
    /\ shape g = AComp Conjunction [AEq [100;101;118] [];
                   AComp Disjunction [AEq [105;114;113] []; AEq [120] []]]
    /\ owns h' (fblocks g ++ []) (fblocks sample_filter).
Proof.
  apply (filter_roundtrip_loses_values sample_filter filter_heap (replicate 96 170) [] (fblocks sample_filter)).
  - done.
  - cbn. unfold str_ok, is_char. split_and!; repeat constructor; done.
  - done.
  - done.
  - unfold owns. reflexivity.
Defined.

Lemma filter_deserialize_terminates_witness :
  nofuel (pmos_bus_filter_deserialize_ipc (S (S (Z.to_nat 16))) (replicate 16 255) 0 16).
Proof. apply filter_deserialize_terminates; [repeat constructor; done|done]. Defined.

Lemma filter_dup_correct_witness :
  exists g h', pmos_bus_filter_dup sample_filter filter_heap = Ok (Some g, h') /\ shape g = shape sample_filter.
Proof.
  destruct (filter_dup_correct sample_filter filter_heap [] []) as [(g & h' & E & Eg & _)|(h' & _ & _ & Hp)].
  - cbn. done.
  - unfold owns. reflexivity.
  - by exists g, h'.
  - exfalso. by apply Hp.
Defined.

Lemma filter_free_correct_witness :
  exists h', pmos_bus_filter_free sample_filter filter_heap = Ok (tt, h') /\ owns h' [] [].
Proof. apply filter_free_correct. unfold owns. reflexivity. Defined.

