(* ===== verification/Ps2d.v ===== *)
(** * userspace/ps2d: the PS/2 device driver

    ports.c (the state machine that resets, identifies and manages a device),
    configuration.c and keyboard.c (the command queue, the handshake with the
    keyboard and the scan code decoder).  The driver reacts to the bytes of the
    controller and to its timer; what it does outside (bytes sent, timers set,
    characters printed, registrations) is recorded in a log.

    An access outside an array, a call through a null pointer and a shift by the
    width of the type or more are the outcome [Undefined]; [exit(1)] is [Exited].
    The kernel and pmbus calls of [register_keyboard] are a parameter. *)

From stdpp Require Import base list numbers.
From S2P Require Import Prelude.

(** ** Outcomes and the monad *)

Inductive outcome (A : Type) := Next (a : A) | Exited | Undefined.
Arguments Next {A}.
Arguments Exited {A}.
Arguments Undefined {A}.

(** ** Constants (commands.h, keyboard.h) *)

Definition COMMAND_ECHO : Z := 238.
Definition COMMAND_GET_SET_SCANCODE : Z := 240.
Definition COMMAND_IDENTIFY : Z := 242.
Definition COMMAND_ENABLE_SCANNING : Z := 244.
Definition COMMAND_DISABLE_SCANNING : Z := 245.
Definition COMMAND_RESET : Z := 255.
Definition RESPONSE_ACK : Z := 250.
Definition RESPONSE_FAILURE : Z := 252.
Definition RESPONSE_RESEND : Z := 254.
Definition RESPONSE_SELF_TEST_OK : Z := 170.
Definition RESPONSE_ECHO : Z := 238.
Definition KBD_CMD_BUFF_SIZE : nat := 16.

(** ** State *)

Inductive port_state :=
| PORT_STATE_RESET | PORT_STATE_DISABLE_SCANNING | PORT_STATE_IDENTIFY | PORT_STATE_WAIT | PORT_STATE_MANAGED.

Inductive send_status_t := STATUS_RECIEVED_DATA | STATUS_NODATA | STATUS_SENT_ECHO.

(** The two function pointers [managed_react_data] and [managed_react_timer]. *)
Inductive handler := HNone | HKeyboard | HUnknown.

(** [struct keyboard_cmd]; [size] and [acked_count] are bit fields of 4 bits. *)
Record keyboard_cmd := KCmd {
  kc_cmd : list Z;
  kc_size : Z;
  kc_acked : Z;
  kc_complex : bool
}.

(** [struct keyboard_state]; commands are added at [cmd_buffer_start] and taken
    from [cmd_buffer_index]. *)
Record keyboard_state := Kbd {
  scancode : Z;
  expected_bytes : Z;
  shift_val : Z;
  send_status : send_status_t;
  cmd_buffer : list keyboard_cmd;
  cmd_buffer_start : nat;
  cmd_buffer_index : nat;
  receive_right : Z
}.

Inductive action :=
| Send (byte : Z)            (** [send_data_port] of one byte *)
| StartTimer (ms : Z)
| Putchar (c : Z)
| Registered (r : Z)
| Unregistered (r : Z).

Record ps2 := Ps2 {
  state : port_state;
  device_id : Z;
  device_id_size : Z;
  managed : handler;
  kb : keyboard_state;
  registrations : nat;
  log : list action          (** newest first *)
}.

Definition D (A : Type) : Type := ps2 -> outcome (A * ps2).

#[global] Instance D_ret : MRet D := fun A a s => Next (a, s).
#[global] Instance D_bind : MBind D := fun A B k c s =>
  match c s with
  | Next (a, s') => k a s'
  | Exited => Exited
  | Undefined => Undefined
  end.

Definition get : D ps2 := fun s => Next (s, s).
Definition undefined {A} : D A := fun _ => Undefined.
Definition of_opt {A} (o : option A) : D A := match o with Some a => mret a | None => undefined end.

Definition emit (a : action) : D unit := fun s =>
  Next (tt, Ps2 (state s) (device_id s) (device_id_size s) (managed s) (kb s) (registrations s) (a :: log s)).
Definition set_state (x : port_state) : D unit := fun s =>
  Next (tt, Ps2 x (device_id s) (device_id_size s) (managed s) (kb s) (registrations s) (log s)).
Definition set_id (id size : Z) : D unit := fun s =>
  Next (tt, Ps2 (state s) id size (managed s) (kb s) (registrations s) (log s)).
Definition set_managed (h : handler) : D unit := fun s =>
  Next (tt, Ps2 (state s) (device_id s) (device_id_size s) h (kb s) (registrations s) (log s)).
Definition set_kb (k : keyboard_state) : D unit := fun s =>
  Next (tt, Ps2 (state s) (device_id s) (device_id_size s) (managed s) k (registrations s) (log s)).

Definition kb_status (x : send_status_t) (k : keyboard_state) : keyboard_state :=
  Kbd (scancode k) (expected_bytes k) (shift_val k) x (cmd_buffer k) (cmd_buffer_start k) (cmd_buffer_index k) (receive_right k).
Definition kb_queue (b : list keyboard_cmd) (st ix : nat) (k : keyboard_state) : keyboard_state :=
  Kbd (scancode k) (expected_bytes k) (shift_val k) (send_status k) b st ix (receive_right k).
Definition kb_scan (sc ex sh : Z) (k : keyboard_state) : keyboard_state :=
  Kbd sc ex sh (send_status k) (cmd_buffer k) (cmd_buffer_start k) (cmd_buffer_index k) (receive_right k).
Definition kb_right (r : Z) (k : keyboard_state) : keyboard_state :=
  Kbd (scancode k) (expected_bytes k) (shift_val k) (send_status k) (cmd_buffer k) (cmd_buffer_start k) (cmd_buffer_index k) r.
Definition modify_kb (f : keyboard_state -> keyboard_state) : D unit := s ← get; set_kb (f (kb s)).

(** ** The command queue *)

Definition send_byte_port (byte : Z) : D unit := emit (Send byte).
Definition port_start_timer (ms : Z) : D unit := emit (StartTimer ms).

Definition keyboard_cmd_queue_empty (k : keyboard_state) : bool :=
  (cmd_buffer_index k =? cmd_buffer_start k)%nat.

Definition keyboard_cmd_get_front (k : keyboard_state) : option keyboard_cmd :=
  cmd_buffer k !! cmd_buffer_index k.

Definition keyboard_send_front_cmd : D unit :=
  s ← get;
  cmd ← of_opt (keyboard_cmd_get_front (kb s));
  byte ← of_opt (kc_cmd cmd !! Z.to_nat (kc_acked cmd));
  send_byte_port byte.

Definition next_index (i : nat) : nat := if (S i =? KBD_CMD_BUFF_SIZE)%nat then 0%nat else S i.

Definition keyboard_push_cmd (data : keyboard_cmd) : D unit :=
  s ← get;
  let k := kb s in
  let new_keyboard_index := next_index (cmd_buffer_start k) in
  if (new_keyboard_index =? cmd_buffer_index k)%nat then mret tt
  else
    let empty_before := keyboard_cmd_queue_empty k in
    if (cmd_buffer_start k <? length (cmd_buffer k))%nat then
      _ ← set_kb (kb_queue (<[cmd_buffer_start k := data]> (cmd_buffer k)) new_keyboard_index (cmd_buffer_index k) k);
      if empty_before then keyboard_send_front_cmd else mret tt
    else undefined.

Definition keyboard_pop_front_cmd : D unit :=
  modify_kb (fun k => kb_queue (cmd_buffer k) (cmd_buffer_start k) (next_index (cmd_buffer_index k)) k).

Definition keyboard_push_cmd_byte (data : Z) : D unit :=
  keyboard_push_cmd (KCmd [data; 0] 1 0 false).

Definition keyboard_push_get_scancode : D unit :=
  keyboard_push_cmd (KCmd [COMMAND_GET_SET_SCANCODE; 0] 2 0 true).

Definition keyboard_ack_cmd : D unit :=
  s ← get;
  let k := kb s in
  if keyboard_cmd_queue_empty k then mret tt
  else
    cmd ← of_opt (keyboard_cmd_get_front k);
    let cmd := KCmd (kc_cmd cmd) (kc_size cmd) (wrap 4 (kc_acked cmd + 1)) (kc_complex cmd) in
    _ ← set_kb (kb_queue (<[cmd_buffer_index k := cmd]> (cmd_buffer k)) (cmd_buffer_start k) (cmd_buffer_index k) k);
    if kc_acked cmd <? kc_size cmd then keyboard_send_front_cmd
    else if kc_complex cmd then mret tt
    else
      _ ← keyboard_pop_front_cmd;
      s ← get;
      if negb (keyboard_cmd_queue_empty (kb s)) then keyboard_send_front_cmd else mret tt.

(** ** The scan code decoder *)

Definition scancodes : list Z :=
  [0;0;0;0;0;0;0;0;0;0;0;0;0;9;96;0;
   0;0;0;0;0;113;49;0;0;0;122;115;97;119;50;0;
   0;99;120;100;101;52;51;0;0;32;118;102;116;114;53;0;
   0;110;98;104;103;121;54;0;0;0;109;106;117;55;56;0;
   0;44;107;105;111;48;57;0;0;46;47;108;59;112;45;0;
   0;45;39;0;91;61;0;0;0;0;10;93;0;92;0;0;
   0;0;0;0;0;0;0;0;0;49;0;52;55;0;0;0;
   48;46;50;53;54;56;0;0;0;43;51;45;42;57;0;0].

Definition keyboard_react_scancode (scancode : Z) : D unit :=
  let first_byte := wrap 8 scancode in
  if 127 <? first_byte then mret tt
  else
    byte ← of_opt (scancodes !! Z.to_nat first_byte);
    if byte =? 0 then mret tt else emit (Putchar byte).

Definition keyboard_react_command_response (data : Z) : D unit :=
  _ ← modify_kb (kb_status STATUS_RECIEVED_DATA);
  _ ← keyboard_push_cmd_byte COMMAND_ENABLE_SCANNING;
  _ ← keyboard_pop_front_cmd;
  s ← get;
  if negb (keyboard_cmd_queue_empty (kb s)) then keyboard_send_front_cmd else mret tt.

Definition keyboard_scan_byte (data : Z) : D unit :=
  s ← get;
  let k := kb s in
  cmd ← of_opt (keyboard_cmd_get_front k);
  if (kc_acked cmd =? kc_size cmd) && kc_complex cmd then keyboard_react_command_response data
  else if 64 <=? shift_val k then undefined
  else
    let sc := Z.lor (scancode k) (wrap 64 (Z.shiftl data (shift_val k))) in
    let sh := wrap 32 (shift_val k + 8) in
    let ex := if (data =? 240) || (data =? 224) then expected_bytes k else wrap 32 (expected_bytes k - 1) in
    _ ← modify_kb (kb_scan sc ex sh);
    if ex =? 0 then
      _ ← keyboard_react_scancode sc;
      modify_kb (kb_scan 0 1 0)
    else mret tt.

(** ** ports.c, configuration.c and the handlers of keyboard.c *)

Section Driver.
(** The receive right of the [n]-th registration, when [create_right], the
    construction of the bus object and [pmbus_helper_publish] all succeed; [None]
    when one of them fails, which ends the process. *)
Variable register_env : nat -> option Z.

Definition register_keyboard : D unit := fun s =>
  match register_env (registrations s) with
  | None => Exited
  | Some r =>
      Next (tt, Ps2 (state s) (device_id s) (device_id_size s) (managed s) (kb_right r (kb s))
                    (S (registrations s)) (Registered r :: log s))
  end.

Definition unregister_keyboard : D unit :=
  s ← get;
  if receive_right (kb s) =? 0 then mret tt
  else
    _ ← emit (Unregistered (receive_right (kb s)));
    modify_kb (kb_right 0).

Definition start_port : D unit :=
  _ ← set_state PORT_STATE_RESET;
  send_byte_port 255.

(** [device_id] keeps its value. *)
Definition reset_port : D unit :=
  _ ← set_state PORT_STATE_RESET;
  s ← get;
  _ ← set_id (device_id s) 0;
  send_byte_port COMMAND_RESET.

Definition keyboard_ids : list Z := [16811; 33707].

Definition is_keyboard (s : ps2) : bool :=
  if device_id_size s =? 0 then true
  else if negb (device_id_size s =? 2) then false
  else existsb (fun id => device_id s =? id) keyboard_ids.

Definition init_keyboard : D unit :=
  _ ← register_keyboard;
  _ ← set_managed HKeyboard;
  _ ← set_state PORT_STATE_MANAGED;
  _ ← modify_kb (fun k => kb_scan 0 1 0 (kb_queue (cmd_buffer k) 0 0 (kb_status STATUS_RECIEVED_DATA k)));
  _ ← keyboard_push_get_scancode;
  port_start_timer 1000.

Definition configure_port : D unit :=
  s ← get;
  if is_keyboard s then init_keyboard
  else
    _ ← set_state PORT_STATE_MANAGED;
    set_managed HUnknown.

Definition unknown_react_data (data : Z) : D unit :=
  if data =? RESPONSE_SELF_TEST_OK then reset_port else mret tt.

Definition keyboard_react_data (data : Z) : D unit :=
  _ ← modify_kb (kb_status STATUS_RECIEVED_DATA);
  if (data =? RESPONSE_ECHO) || (data =? RESPONSE_ACK) then keyboard_ack_cmd
  else if data =? RESPONSE_RESEND then keyboard_send_front_cmd
  else if data =? RESPONSE_SELF_TEST_OK then _ ← unregister_keyboard; reset_port
  else keyboard_scan_byte data.

Definition keyboard_react_timer : D unit :=
  s ← get;
  match send_status (kb s) with
  | STATUS_NODATA =>
      _ ← modify_kb (kb_status STATUS_SENT_ECHO);
      _ ← keyboard_push_cmd_byte COMMAND_ECHO;
      port_start_timer 10000
  | STATUS_RECIEVED_DATA =>
      _ ← modify_kb (kb_status STATUS_NODATA);
      port_start_timer 10000
  | STATUS_SENT_ECHO =>
      _ ← unregister_keyboard;
      reset_port
  end.

Definition react_byte (data : Z) : D unit :=
  s ← get;
  match state s with
  | PORT_STATE_RESET =>
      if data =? RESPONSE_SELF_TEST_OK then
        _ ← set_state PORT_STATE_DISABLE_SCANNING;
        _ ← send_byte_port COMMAND_DISABLE_SCANNING;
        port_start_timer 1000
      else mret tt
  | PORT_STATE_IDENTIFY =>
      if data =? RESPONSE_ACK then mret tt
      else if data =? RESPONSE_RESEND then send_byte_port COMMAND_IDENTIFY
      else if 32 <=? device_id_size s * 8 then undefined
      else set_id (Z.lor (device_id s) (wrap 32 (Z.shiftl data (device_id_size s * 8))))
             (wrap 32 (device_id_size s + 1))
  | PORT_STATE_WAIT => mret tt
  | PORT_STATE_DISABLE_SCANNING =>
      if data =? RESPONSE_ACK then
        _ ← set_state PORT_STATE_IDENTIFY;
        _ ← send_byte_port COMMAND_IDENTIFY;
        port_start_timer 1000
      else if data =? RESPONSE_RESEND then send_byte_port COMMAND_DISABLE_SCANNING
      else mret tt
  | PORT_STATE_MANAGED =>
      match managed s with
      | HNone => undefined
      | HKeyboard => keyboard_react_data data
      | HUnknown => unknown_react_data data
      end
  end.

Fixpoint react_data (data : list Z) : D unit :=
  match data with
  | [] => mret tt
  | b :: data => _ ← react_byte b; react_data data
  end.

Definition port_react_timer : D unit :=
  s ← get;
  match state s with
  | PORT_STATE_RESET => mret tt
  | PORT_STATE_DISABLE_SCANNING =>
      _ ← set_state PORT_STATE_WAIT;
      port_start_timer 5000
  | PORT_STATE_WAIT =>
      _ ← set_state PORT_STATE_RESET;
      reset_port
  | PORT_STATE_IDENTIFY => configure_port
  | PORT_STATE_MANAGED =>
      match managed s with
      | HNone => undefined
      | HKeyboard => keyboard_react_timer
      | HUnknown => mret tt
      end
  end.

(** The events of the message loop. *)
Inductive event := EByte (b : Z) | ETimer.

Definition react (e : event) : D unit :=
  match e with
  | EByte b => react_byte b
  | ETimer => port_react_timer
  end.

Fixpoint run (es : list event) : D unit :=
  match es with
  | [] => mret tt
  | e :: es => _ ← react e; run es
  end.
End Driver.

(** The state at program start. *)
Definition zero_cmd : keyboard_cmd := KCmd [0; 0] 0 0 false.
Definition initial : ps2 :=
  Ps2 PORT_STATE_RESET 0 0 HNone
    (Kbd 0 0 0 STATUS_RECIEVED_DATA (replicate KBD_CMD_BUFF_SIZE zero_cmd) 0 0 0) 0 [].

(** ** The ring buffer is a queue *)

(** [n] slots from [i] on, around the end of the buffer. *)
Fixpoint ring_take (buf : list keyboard_cmd) (i n : nat) : list keyboard_cmd :=
  match n with
  | O => []
  | S n => match buf !! i with Some c => c :: ring_take buf (next_index i) n | None => [] end
  end.

(** The number of commands waiting. *)
Definition ring_count (k : keyboard_state) : nat :=
  if (cmd_buffer_index k <=? cmd_buffer_start k)%nat then (cmd_buffer_start k - cmd_buffer_index k)%nat
  else (KBD_CMD_BUFF_SIZE - cmd_buffer_index k + cmd_buffer_start k)%nat.

(** The waiting commands, oldest first. *)
Definition queue (k : keyboard_state) : list keyboard_cmd := ring_take (cmd_buffer k) (cmd_buffer_index k) (ring_count k).

Definition ring_ok (k : keyboard_state) : Prop :=
  length (cmd_buffer k) = KBD_CMD_BUFF_SIZE
  /\ (cmd_buffer_start k < KBD_CMD_BUFF_SIZE)%nat /\ (cmd_buffer_index k < KBD_CMD_BUFF_SIZE)%nat.

Lemma next_index_lt i : (i < KBD_CMD_BUFF_SIZE)%nat -> (next_index i < KBD_CMD_BUFF_SIZE)%nat.
Proof. unfold next_index, KBD_CMD_BUFF_SIZE. intros H. destruct (Nat.eqb_spec (S i) 16); lia. Qed.

Lemma ring_take_length buf i n :
  length buf = KBD_CMD_BUFF_SIZE -> (i < KBD_CMD_BUFF_SIZE)%nat -> length (ring_take buf i n) = n.
Proof.
  intros Hb. revert i; induction n as [|n IH]; intros i Hi; [done|]. cbn [ring_take].
  destruct (lookup_lt_is_Some_2 buf i) as [c ->]; [lia|]. cbn. f_equal. apply IH. by apply next_index_lt.
Qed.

(** The slot [d] places after [i]. *)
Definition ring_add (i d : nat) : nat :=
  if (i + d <? KBD_CMD_BUFF_SIZE)%nat then (i + d)%nat else (i + d - KBD_CMD_BUFF_SIZE)%nat.

Lemma ring_add_next i d : (i < KBD_CMD_BUFF_SIZE)%nat -> (S d < KBD_CMD_BUFF_SIZE)%nat -> ring_add (next_index i) d = ring_add i (S d).
Proof.
  unfold ring_add, next_index, KBD_CMD_BUFF_SIZE. intros Hi Hd. destruct (Nat.eqb_spec (S i) 16) as [E|E].
  - destruct (Nat.ltb_spec (0 + d) 16), (Nat.ltb_spec (i + S d) 16); lia.
  - destruct (Nat.ltb_spec (S i + d) 16), (Nat.ltb_spec (i + S d) 16); lia.
Qed.

(** Writing the slot behind the [n] taken ones appends. *)
Lemma ring_take_snoc buf i n c :
  length buf = KBD_CMD_BUFF_SIZE -> (i < KBD_CMD_BUFF_SIZE)%nat -> (n < KBD_CMD_BUFF_SIZE)%nat ->
  ring_take (<[ring_add i n := c]> buf) i (S n) = ring_take buf i n ++ [c].
Proof.
  intros Hb. revert i; induction n as [|n IH]; intros i Hi Hn.
  - cbn. unfold ring_add, KBD_CMD_BUFF_SIZE in *. rewrite Nat.add_0_r.
    destruct (Nat.ltb_spec i 16); [|lia]. by rewrite list_lookup_insert_eq by lia.
  - remember (S n) as m. cbn [ring_take]. subst m.
    rewrite list_lookup_insert_ne.
    2:{ unfold ring_add, KBD_CMD_BUFF_SIZE in *. destruct (Nat.ltb_spec (i + S n) 16); lia. }
    cbn [ring_take]. destruct (lookup_lt_is_Some_2 buf i) as [d Hd]; [lia|]. rewrite Hd. cbn. f_equal.
    rewrite <- ring_add_next by lia. apply IH; [by apply next_index_lt|lia].
Qed.

Lemma ring_take_insert_out buf i n j c :
  (forall d, (d < n)%nat -> ring_add i d <> j) -> (i < KBD_CMD_BUFF_SIZE)%nat -> (n < KBD_CMD_BUFF_SIZE)%nat ->
  ring_take (<[j := c]> buf) i n = ring_take buf i n.
Proof.
  revert i; induction n as [|n IH]; intros i Hj Hi Hn; [done|]. cbn [ring_take].
  rewrite list_lookup_insert_ne.
  2:{ intros E. apply (Hj 0%nat ltac:(lia)). unfold ring_add, KBD_CMD_BUFF_SIZE in *. rewrite Nat.add_0_r.
      by destruct (Nat.ltb_spec i 16); [|lia]. }
  destruct (buf !! i); [|done]. f_equal. apply IH; [|by apply next_index_lt|lia].
  intros d Hd. rewrite ring_add_next by lia. apply Hj. lia.
Qed.

(** Pure versions of the updates. *)
Definition push_k (c : keyboard_cmd) (k : keyboard_state) : keyboard_state :=
  kb_queue (<[cmd_buffer_start k := c]> (cmd_buffer k)) (next_index (cmd_buffer_start k)) (cmd_buffer_index k) k.
Definition pop_k (k : keyboard_state) : keyboard_state :=
  kb_queue (cmd_buffer k) (cmd_buffer_start k) (next_index (cmd_buffer_index k)) k.
Definition front_k (c : keyboard_cmd) (k : keyboard_state) : keyboard_state :=
  kb_queue (<[cmd_buffer_index k := c]> (cmd_buffer k)) (cmd_buffer_start k) (cmd_buffer_index k) k.

Section Ring.
Context (k : keyboard_state) (Hok : ring_ok k).

Lemma ring_count_lt : (ring_count k < KBD_CMD_BUFF_SIZE)%nat.
Proof.
  destruct Hok as (_ & H1 & H2). unfold ring_count, KBD_CMD_BUFF_SIZE in *.
  destruct (Nat.leb_spec (cmd_buffer_index k) (cmd_buffer_start k)); lia.
Qed.

Lemma ring_start : cmd_buffer_start k = ring_add (cmd_buffer_index k) (ring_count k).
Proof.
  destruct Hok as (_ & H1 & H2). unfold ring_add, ring_count, KBD_CMD_BUFF_SIZE in *.
  destruct (Nat.leb_spec (cmd_buffer_index k) (cmd_buffer_start k));
    match goal with |- context [(?a <? ?b)%nat] => destruct (Nat.ltb_spec a b) end; lia.
Qed.

(** The test for a full buffer. *)
Lemma ring_full : (next_index (cmd_buffer_start k) =? cmd_buffer_index k)%nat = (ring_count k =? 15)%nat.
Proof.
  destruct Hok as (_ & H1 & H2). unfold next_index, ring_count, KBD_CMD_BUFF_SIZE in *.
  destruct (Nat.leb_spec (cmd_buffer_index k) (cmd_buffer_start k)), (Nat.eqb_spec (S (cmd_buffer_start k)) 16);
    apply eq_bool_prop_intro; rewrite !Is_true_true, !Nat.eqb_eq; lia.
Qed.

Lemma queue_length : length (queue k) = ring_count k.
Proof. destruct Hok as (H0 & H1 & H2). by apply ring_take_length. Qed.

Lemma queue_empty : keyboard_cmd_queue_empty k = bool_decide (queue k = []).
Proof.
  apply eq_bool_prop_intro. rewrite bool_decide_spec, Is_true_true.
  unfold keyboard_cmd_queue_empty. rewrite Nat.eqb_eq, <- length_zero_iff_nil, queue_length.
  destruct Hok as (_ & H1 & H2). unfold ring_count, KBD_CMD_BUFF_SIZE in *.
  destruct (Nat.leb_spec (cmd_buffer_index k) (cmd_buffer_start k)); lia.
Qed.

Lemma front_slot : exists c, keyboard_cmd_get_front k = Some c.
Proof. destruct Hok as (H0 & _ & H2). apply lookup_lt_is_Some_2. lia. Qed.

Lemma queue_front c q : queue k = c :: q -> keyboard_cmd_get_front k = Some c.
Proof.
  unfold queue, keyboard_cmd_get_front. destruct (ring_count k) as [|n]; [done|]. cbn [ring_take].
  destruct (cmd_buffer k !! cmd_buffer_index k); [|done]. by intros [= ->].
Qed.

Lemma push_queue c :
  ring_count k <> 15%nat -> ring_ok (push_k c k) /\ queue (push_k c k) = queue k ++ [c].
Proof.
  intros Hn. pose proof ring_count_lt as Hlt. pose proof ring_start as Hst. destruct Hok as (H0 & H1 & H2). split.
  - split; [by cbn; rewrite length_insert|]. split; [by apply next_index_lt|done].
  - assert (Hc : ring_count (push_k c k) = S (ring_count k)).
    { unfold ring_count, next_index, KBD_CMD_BUFF_SIZE in *. cbn.
      unfold next_index, KBD_CMD_BUFF_SIZE. destruct (Nat.eqb_spec (S (cmd_buffer_start k)) 16);
      repeat match goal with |- context [(?a <=? ?b)%nat] => destruct (Nat.leb_spec a b)
        | H : context [(?a <=? ?b)%nat] |- _ => destruct (Nat.leb_spec a b) end; lia. }
    unfold queue. rewrite Hc. cbn [push_k kb_queue cmd_buffer cmd_buffer_index]. rewrite Hst.
    by apply ring_take_snoc.
Qed.

Lemma pop_queue c q : queue k = c :: q -> ring_ok (pop_k k) /\ queue (pop_k k) = q.
Proof.
  intros Hq. pose proof queue_length as Hl. rewrite Hq in Hl. destruct Hok as (H0 & H1 & H2). split.
  - split; [done|]. split; [done|by apply next_index_lt].
  - assert (Hc : ring_count k = S (ring_count (pop_k k))).
    { unfold ring_count in *. cbn. unfold next_index, KBD_CMD_BUFF_SIZE in *. cbn in Hl.
      destruct (Nat.eqb_spec (S (cmd_buffer_index k)) 16);
      repeat match goal with |- context [(?a <=? ?b)%nat] => destruct (Nat.leb_spec a b)
        | H : context [(?a <=? ?b)%nat] |- _ => destruct (Nat.leb_spec a b) end; lia. }
    unfold queue in *. rewrite Hc in Hq. cbn [ring_take] in Hq.
    destruct (cmd_buffer k !! cmd_buffer_index k); [|done]. by simplify_eq.
Qed.

Lemma front_queue c d q : queue k = d :: q -> ring_ok (front_k c k) /\ queue (front_k c k) = c :: q.
Proof.
  intros Hq. pose proof queue_length as Hl. rewrite Hq in Hl. cbn in Hl. pose proof ring_count_lt as Hlt.
  destruct Hok as (H0 & H1 & H2). split; [split; [by cbn; rewrite length_insert|done]|].
  unfold queue in *. change (ring_count (front_k c k)) with (ring_count k). rewrite <- Hl in *.
  cbn [front_k kb_queue cmd_buffer cmd_buffer_index ring_take] in *.
  rewrite list_lookup_insert_eq by lia. f_equal.
  destruct (cmd_buffer k !! cmd_buffer_index k); [|done]. simplify_eq.
  rewrite ring_take_insert_out; [done| |by apply next_index_lt|lia].
  intros e He. unfold ring_add, next_index, KBD_CMD_BUFF_SIZE in *.
  destruct (Nat.eqb_spec (S (cmd_buffer_index k)) 16);
    match goal with |- context [(?a <? ?b)%nat] => destruct (Nat.ltb_spec a b) end; lia.
Qed.
End Ring.

(** ** Effects of the queue operations *)

(** [s] with another keyboard state and more entries in the log. *)
Definition upd (s : ps2) (k : keyboard_state) (l : list action) : ps2 :=
  Ps2 (state s) (device_id s) (device_id_size s) (managed s) k (registrations s) (l ++ log s).

Definition cmd_ok (c : keyboard_cmd) : Prop :=
  length (kc_cmd c) = 2%nat /\ 0 <= kc_acked c <= kc_size c /\ kc_size c <= 2.

(** A command that has not been sent completely. *)
Definition pending (c : keyboard_cmd) : Prop := cmd_ok c /\ kc_acked c < kc_size c.

Lemma dbind_ok {A B} (c : D A) (f : A -> D B) s a s' : c s = Next (a, s') -> (c ≫= f) s = f a s'.
Proof. intros H. unfold mbind, D_bind. by rewrite H. Qed.

(** The byte of the front command that is sent next. *)
Lemma pending_byte c : pending c -> exists b, kc_cmd c !! Z.to_nat (kc_acked c) = Some b.
Proof. intros ((H1 & H2 & H3) & H4). apply lookup_lt_is_Some_2. lia. Qed.

Lemma send_front_spec s c q :
  queue (kb s) = c :: q -> pending c ->
  exists b, kc_cmd c !! Z.to_nat (kc_acked c) = Some b
    /\ keyboard_send_front_cmd s = Next (tt, upd s (kb s) [Send b]).
Proof.
  intros Hq Hp. destruct (pending_byte c Hp) as [b Hb]. exists b. split; [done|].
  unfold keyboard_send_front_cmd, mbind, D_bind, get. cbn.
  rewrite (queue_front _ c q Hq). cbn. rewrite Hb. done.
Qed.

Lemma push_spec s c :
  ring_ok (kb s) -> pending c ->
  exists l, (forall a, a ∈ l -> exists b, a = Send b)
    /\ keyboard_push_cmd c s
       = Next (tt, if (length (queue (kb s)) =? 15)%nat then s else upd s (push_k c (kb s)) l).
Proof.
  intros Hok Hp. pose proof Hok as (H0 & H1 & H2). unfold keyboard_push_cmd, mbind at 1, D_bind at 1, get.
  rewrite (queue_length (kb s)), ring_full, queue_empty by done.
  destruct (Nat.eqb_spec (ring_count (kb s)) 15) as [Hf|Hf].
  { exists []. split; [|done]. intros a Ha. by apply elem_of_nil in Ha. }
  destruct (Nat.ltb_spec (cmd_buffer_start (kb s)) (length (cmd_buffer (kb s)))); [|lia].
  destruct (push_queue (kb s) Hok c Hf) as [Hok' Hq'].
  unfold mbind, D_bind, set_kb. case_bool_decide as He.
  - rewrite He in Hq'. cbn [app] in Hq'.
    destruct (send_front_spec (upd s (push_k c (kb s)) []) c [] Hq' Hp) as (b & _ & Hs).
    exists [Send b]. split; [|exact Hs]. intros a Ha. apply list_elem_of_singleton in Ha as ->. eauto.
  - exists []. split; [|done]. intros a Ha. by apply elem_of_nil in Ha.
Qed.

(** Only the front command has been sent in part; one that has been sent
    completely stays for its response. *)
Definition queue_ok (q : list keyboard_cmd) : Prop :=
  match q with
  | [] => True
  | c :: q => 1 <= kc_size c /\ (kc_acked c = kc_size c -> kc_complex c = true)
              /\ Forall (fun d => kc_acked d = 0 /\ 1 <= kc_size d) q
  end.

Definition kb_inv (k : keyboard_state) : Prop :=
  ring_ok k /\ Forall cmd_ok (cmd_buffer k) /\ queue_ok (queue k).

(** What the queue operations leave alone. *)
Definition same_rest (s s' : ps2) : Prop :=
  state s' = state s /\ device_id s' = device_id s /\ device_id_size s' = device_id_size s
  /\ managed s' = managed s /\ registrations s' = registrations s
  /\ scancode (kb s') = scancode (kb s) /\ expected_bytes (kb s') = expected_bytes (kb s)
  /\ shift_val (kb s') = shift_val (kb s) /\ receive_right (kb s') = receive_right (kb s).

Lemma queue_cmd_ok k c : Forall cmd_ok (cmd_buffer k) -> c ∈ queue k -> cmd_ok c.
Proof.
  intros Hf. unfold queue. generalize (cmd_buffer_index k) as i. induction (ring_count k) as [|n IH]; intros i Hc.
  - by apply elem_of_nil in Hc.
  - cbn [ring_take] in Hc. destruct (cmd_buffer k !! i) as [d|] eqn:E; [|by apply elem_of_nil in Hc].
    apply elem_of_cons in Hc as [->|Hc]; [|by apply (IH (next_index i))].
    rewrite list.Forall_forall in Hf. apply Hf. by apply list_elem_of_lookup_2 in E.
Qed.

Lemma queue_tail_ok q :
  Forall (fun d => kc_acked d = 0 /\ 1 <= kc_size d) q ->
  queue_ok q /\ Forall (fun d => kc_acked d < kc_size d) q.
Proof.
  intros Hq. split.
  - destruct q as [|d q]; [done|]. apply Forall_cons_1 in Hq as [[H1 H2] Hq]. split; [done|]. split; [lia|done].
  - eapply list.Forall_impl; [exact Hq|]. intros d. simpl. lia.
Qed.

Lemma queue_snoc_ok q c : queue_ok q -> kc_acked c = 0 -> 1 <= kc_size c -> queue_ok (q ++ [c]).
Proof.
  intros Hq H0 H1. destruct q as [|d q]; cbn.
  - split; [done|]. split; [lia|constructor].
  - destruct Hq as (Ha & Hb & Hc). split; [done|]. split; [done|]. apply Forall_app. split; [done|].
    by constructor.
Qed.

(** The byte of the front command that is to be sent next, if there is one. *)
Definition front_byte (q : list keyboard_cmd) : list action :=
  match q with
  | c :: _ =>
      if kc_acked c <? kc_size c
      then match kc_cmd c !! Z.to_nat (kc_acked c) with Some b => [Send b] | None => [] end
      else []
  | [] => []
  end.

Lemma front_byte_pending c q b :
  pending c -> kc_cmd c !! Z.to_nat (kc_acked c) = Some b -> front_byte (c :: q) = [Send b].
Proof. intros [_ Hlt] Hb. cbn. rewrite Hb. by destruct (Z.ltb_spec (kc_acked c) (kc_size c)); [|lia]. Qed.

(** After the front command is done, the next one is started. *)
Lemma pop_send_spec s c q :
  ring_ok (kb s) -> Forall cmd_ok (cmd_buffer (kb s)) -> queue (kb s) = c :: q ->
  Forall (fun d => kc_acked d = 0 /\ 1 <= kc_size d) q ->
  exists s', (_ ← keyboard_pop_front_cmd; s ← get;
              if negb (keyboard_cmd_queue_empty (kb s)) then keyboard_send_front_cmd else mret tt) s
      = Next (tt, s')
    /\ kb_inv (kb s') /\ queue (kb s') = q /\ same_rest s s' /\ send_status (kb s') = send_status (kb s)
    /\ log s' = front_byte q ++ log s.
Proof.
  intros Hok Hf E Hq. destruct (pop_queue (kb s) Hok c q E) as [Hok' Hq'].
  destruct (queue_tail_ok q Hq) as [Hqt Hpend].
  set (s1 := upd s (pop_k (kb s)) []).
  assert (E1 : keyboard_pop_front_cmd s = Next (tt, s1)) by done.
  erewrite dbind_ok by exact E1. unfold mbind, D_bind, get. change (kb s1) with (pop_k (kb s)).
  rewrite queue_empty, Hq' by done. destruct q as [|d q].
  - rewrite bool_decide_true by done. cbn [negb]. exists s1. split; [done|].
    split; [split; [done|]; split; [done|]; cbn; by rewrite Hq'|]. done.
  - rewrite bool_decide_false by done. cbn [negb].
    assert (Hpd : pending d).
    { split; [|by apply Forall_cons_1 in Hpend as [? _]].
      apply (queue_cmd_ok (kb s)); [done|]. rewrite E. by right; left. }
    destruct (send_front_spec s1 d q Hq' Hpd) as (b & Hb & ->). eexists. split; [reflexivity|].
    rewrite (front_byte_pending d q b) by done.
    split; [split; [done|]; split; [done|]; cbn; by rewrite Hq'|]. done.
Qed.

Lemma ack_spec s :
  kb_inv (kb s) -> match queue (kb s) with [] => True | c :: _ => pending c end ->
  exists s', keyboard_ack_cmd s = Next (tt, s') /\ kb_inv (kb s') /\ same_rest s s'
    /\ send_status (kb s') = send_status (kb s)
    /\ match queue (kb s) with
       | [] => queue (kb s') = []
       | c :: q =>
           queue (kb s') = if (kc_acked c + 1 =? kc_size c) && negb (kc_complex c) then q
                           else KCmd (kc_cmd c) (kc_size c) (kc_acked c + 1) (kc_complex c) :: q
       end
    /\ log s' = (match queue (kb s) with [] => [] | _ => front_byte (queue (kb s')) end) ++ log s.
Proof.
  intros (Hok & Hf & Hq) Hfront. unfold keyboard_ack_cmd, mbind at 1, D_bind at 1, get.
  rewrite queue_empty by done. destruct (queue (kb s)) as [|c q] eqn:E.
  { rewrite bool_decide_true by done. exists s. split; [done|]. rewrite E.
    split; [|done]. split; [done|]. split; [done|by rewrite E]. }
  rewrite bool_decide_false by done. rewrite (queue_front _ c q E). cbn [of_opt].
  erewrite (dbind_ok (mret c)) by reflexivity. cbv beta zeta. cbn [kc_acked].
  pose proof Hfront as ((Hl & Hr & Hs2) & Hlt). destruct Hq as (H1 & H2 & H3).
  rewrite wrap_small by lia. set (c' := KCmd _ _ (kc_acked c + 1) _).
  destruct (front_queue (kb s) Hok c' c q E) as [Hok' Hq'].
  set (s1 := upd s (front_k c' (kb s)) []).
  assert (Hf' : Forall cmd_ok (cmd_buffer (kb s1))).
  { cbn. apply Forall_insert; [done|]. split; [done|]. cbn. lia. }
  assert (E1 : set_kb (kb_queue (<[cmd_buffer_index (kb s):=c']> (cmd_buffer (kb s)))
    (cmd_buffer_start (kb s)) (cmd_buffer_index (kb s)) (kb s)) s = Next (tt, s1)) by done.
  erewrite dbind_ok by exact E1. change (kc_acked c') with (kc_acked c + 1).
  change (kc_size c') with (kc_size c). change (kc_complex c') with (kc_complex c).
  destruct (Z.ltb_spec (kc_acked c + 1) (kc_size c)) as [Hlt'|Hge].
  - assert (Hp' : pending c') by (split; [split; [done|cbn; lia]|done]).
    destruct (send_front_spec s1 c' q Hq' Hp') as (b & Hb & ->). eexists. split; [reflexivity|].
    destruct (Z.eqb_spec (kc_acked c + 1) (kc_size c)); [lia|]. cbn [andb].
    change (queue (kb (upd s1 (kb s1) [Send b]))) with (queue (front_k c' (kb s))). rewrite Hq', (front_byte_pending c' q b) by done.
    split; [|done]. split; [done|]. split; [done|]. cbn. rewrite Hq'. split; [done|]. split; [cbn; lia|done].
  - destruct (Z.eqb_spec (kc_acked c + 1) (kc_size c)) as [Heq|]; [|lia]. cbn [andb].
    destruct (kc_complex c) eqn:Hc; cbn [negb].
    + exists s1. split; [done|]. change (queue (kb s1)) with (queue (front_k c' (kb s))). rewrite Hq'.
      split; [split; [done|]; split; [done|]; cbn; by rewrite Hq'|]. do 3 (split; [done|]).
      cbn. by destruct (Z.ltb_spec (kc_acked c + 1) (kc_size c)); [lia|].
    + destruct (pop_send_spec s1 c' q Hok' Hf' Hq' H3) as (s' & Hrun & Hinv & Eq' & Hsame & Hst & Hlog).
      exists s'. split; [exact Hrun|]. rewrite Eq'. done.
Qed.

(** ** The invariant of the driver *)

Definition inv (s : ps2) : Prop :=
  ring_ok (kb s) /\ Forall cmd_ok (cmd_buffer (kb s))
  /\ (managed s = HKeyboard -> queue_ok (queue (kb s)) /\ expected_bytes (kb s) = 1
        /\ exists n, shift_val (kb s) = 8 * n /\ 0 <= n <= 8)
  /\ (state s = PORT_STATE_MANAGED -> managed s <> HNone)
  /\ 0 <= device_id_size s <= 4.

(** The bytes the code relies on the device not to send: a fifth identification
    byte, an acknowledgement or a resend request when nothing is in flight, a
    ninth prefix byte of a scan code. *)
Definition byte_ok (s : ps2) (b : Z) : Prop :=
  match state s, managed s with
  | PORT_STATE_IDENTIFY, _ => b = RESPONSE_ACK \/ b = RESPONSE_RESEND \/ device_id_size s < 4
  | PORT_STATE_MANAGED, HKeyboard =>
      if (b =? RESPONSE_ECHO) || (b =? RESPONSE_ACK)
      then match queue (kb s) with [] => True | c :: _ => pending c end
      else if b =? RESPONSE_RESEND then match queue (kb s) with [] => False | c :: _ => pending c end
      else if b =? RESPONSE_SELF_TEST_OK then True
      else shift_val (kb s) < 64
  | _, _ => True
  end.

Definition event_ok (s : ps2) (e : event) : Prop :=
  match e with EByte b => byte_ok s b | ETimer => True end.

Lemma inv_initial : inv initial.
Proof.
  split; [split; [done|]; cbn; unfold KBD_CMD_BUFF_SIZE; lia|].
  split; [repeat constructor; cbn; lia|]. split; [done|]. split; [done|]. cbn. lia.
Qed.

(** Changes that keep the queue and the decoder. *)
Lemma inv_same s s' :
  inv s -> kb s' = kb s -> managed s' = managed s -> (state s' = PORT_STATE_MANAGED -> state s = PORT_STATE_MANAGED) ->
  0 <= device_id_size s' <= 4 -> inv s'.
Proof.
  intros (H1 & H2 & H3 & H4 & H5) Hk Hm Hs Hd. unfold inv. rewrite Hk, Hm. split_and!; [done|done|done|auto|lia|lia].
Qed.

Lemma inv_managed s s' :
  inv s -> managed s = HKeyboard -> kb_inv (kb s') -> same_rest s s' -> inv s'.
Proof.
  intros (H1 & H2 & H3 & H4 & H5) Hm (K1 & K2 & K3) (E1 & E2 & E3 & E4 & E5 & E6 & E7 & E8 & E9).
  destruct (H3 Hm) as (Hq & He & Hsh). unfold inv. rewrite E1, E3, E4, E7, E8.
  split_and!; [done|done|done|done|lia|lia].
Qed.

Lemma inv_kb s : inv s -> managed s = HKeyboard -> kb_inv (kb s).
Proof. intros (H1 & H2 & H3 & _) Hm. split; [done|]. split; [done|]. by apply H3. Qed.

(** ** One event *)

Lemma push_inv s c :
  ring_ok (kb s) -> Forall cmd_ok (cmd_buffer (kb s)) -> queue_ok (queue (kb s)) ->
  pending c -> kc_acked c = 0 ->
  exists s', keyboard_push_cmd c s = Next (tt, s') /\ kb_inv (kb s') /\ same_rest s s'
    /\ queue (kb s') = (if (length (queue (kb s)) =? 15)%nat then queue (kb s) else queue (kb s) ++ [c])
    /\ send_status (kb s') = send_status (kb s).
Proof.
  intros Hok Hf Hq Hp H0. destruct (push_spec s c Hok Hp) as (l & _ & ->). eexists. split; [reflexivity|].
  destruct (Nat.eqb_spec (length (queue (kb s))) 15) as [Hl|Hl]; [done|].
  rewrite queue_length in Hl by done. destruct (push_queue (kb s) Hok c Hl) as [Hok' Hq'].
  destruct Hp as [Hc Hlt]. cbn [upd kb]. rewrite Hq'. split; [|done]. split; [done|]. split.
  - cbn. by apply Forall_insert.
  - rewrite Hq'. apply queue_snoc_ok; [done|done|lia].
Qed.

Lemma reset_port_inv s : inv s -> exists s', reset_port s = Next (tt, s') /\ inv s' /\ state s' = PORT_STATE_RESET.
Proof.
  intros H. eexists. split; [reflexivity|]. split; [|done]. eapply inv_same; [exact H|done|done|done|]. cbn. lia.
Qed.

Lemma unregister_inv s :
  inv s -> exists s', unregister_keyboard s = Next (tt, s') /\ inv s' /\ receive_right (kb s') = 0.
Proof.
  intros H. unfold unregister_keyboard, mbind at 1, D_bind at 1, get.
  destruct (Z.eqb_spec (receive_right (kb s)) 0) as [E|E].
  - by exists s.
  - eexists. split; [reflexivity|]. done.
Qed.

Lemma unregister_reset_inv s :
  inv s -> exists s', (_ ← unregister_keyboard; reset_port) s = Next (tt, s') /\ inv s'.
Proof.
  intros H. destruct (unregister_inv s H) as (s1 & E1 & H1 & _). erewrite dbind_ok by exact E1.
  destruct (reset_port_inv s1 H1) as (s2 & E2 & H2 & _). by exists s2.
Qed.

(** The bytes of a scan code. *)
Lemma react_scancode_next sc s : exists l, keyboard_react_scancode sc s = Next (tt, upd s (kb s) l).
Proof.
  unfold keyboard_react_scancode. pose proof (wrap_range 8 sc ltac:(lia)) as Hr.
  destruct (Z.ltb_spec 127 (wrap 8 sc)); [by exists []; destruct s|].
  destruct (lookup_lt_is_Some_2 scancodes (Z.to_nat (wrap 8 sc))) as [b Hb].
  { change (length scancodes) with 128%nat. lia. }
  rewrite Hb. unfold mbind, D_bind, of_opt, mret, D_ret. destruct (b =? 0); [by exists []; destruct s|].
  by exists [Putchar b].
Qed.

Lemma response_inv s b :
  inv s -> managed s = HKeyboard -> exists s', keyboard_react_command_response b s = Next (tt, s') /\ inv s'.
Proof.
  intros H Hm. pose proof (inv_kb s H Hm) as (Hok & Hf & Hq). unfold keyboard_react_command_response.
  set (s1 := upd s (kb_status STATUS_RECIEVED_DATA (kb s)) []).
  assert (E1 : modify_kb (kb_status STATUS_RECIEVED_DATA) s = Next (tt, s1)) by done.
  assert (H1 : inv s1) by done. erewrite dbind_ok by exact E1.
  destruct (push_inv s1 (KCmd [COMMAND_ENABLE_SCANNING; 0] 1 0 false)) as (s2 & E2 & (Hok2 & Hf2 & Hq2) & Hsame & Eq & _);
    [done|done|done|split; [split; [done|cbn; lia]|done]|done|].
  unfold keyboard_push_cmd_byte. erewrite dbind_ok by exact E2.
  destruct (queue (kb s2)) as [|c q] eqn:Ec.
  { exfalso. symmetry in Eq. destruct (Nat.eqb_spec (length (queue (kb s1))) 15) as [El|El].
    - by rewrite Eq in El.
    - by apply app_eq_nil in Eq as [_ ?]. }
  pose proof Hq2 as (_ & _ & Htail).
  destruct (pop_send_spec s2 c q Hok2 Hf2 Ec Htail) as (s3 & E3 & Hinv3 & _ & Hsame3 & _ & _).
  exists s3. split; [exact E3|]. apply (inv_managed s2); [|by destruct Hsame as (_ & _ & _ & -> & _)|done|done].
  apply (inv_managed s1); [done|done| |done]. split; [done|]. split; [done|by rewrite Ec].
Qed.

Lemma scan_byte_inv s b :
  inv s -> managed s = HKeyboard -> shift_val (kb s) < 64 ->
  exists s', keyboard_scan_byte b s = Next (tt, s') /\ inv s'.
Proof.
  intros H Hm Hsh. pose proof (inv_kb s H Hm) as (Hok & Hf & Hq).
  unfold keyboard_scan_byte, mbind at 1, D_bind at 1, get.
  destruct (front_slot (kb s) Hok) as [c Hc]. rewrite Hc. cbn [of_opt].
  erewrite (dbind_ok (mret c)) by reflexivity. cbv beta zeta.
  destruct ((kc_acked c =? kc_size c) && kc_complex c); [by apply response_inv|].
  destruct (Z.leb_spec 64 (shift_val (kb s))); [lia|].
  pose proof H as (_ & _ & H3 & H4 & H5). destruct (H3 Hm) as (_ & He & n & Hn & Hn8). rewrite He.
  rewrite (wrap_small 32 (shift_val (kb s) + 8)) by lia. change (wrap 32 (1 - 1)) with 0.
  set (sc := Z.lor _ _). set (ex := if (b =? 240) || (b =? 224) then 1 else 0).
  set (s1 := upd s (kb_scan sc ex (shift_val (kb s) + 8) (kb s)) []).
  assert (E1 : modify_kb (kb_scan sc ex (shift_val (kb s) + 8)) s = Next (tt, s1)) by done.
  erewrite dbind_ok by exact E1. subst ex. destruct ((b =? 240) || (b =? 224)); cbn [Z.eqb].
  - exists s1. split; [done|]. split; [done|]. split; [done|]. split; [|by split].
    intros _. split; [done|]. split; [done|]. exists (n + 1). cbn. lia.
  - destruct (react_scancode_next sc s1) as [l Hl]. erewrite dbind_ok by exact Hl.
    eexists. split; [reflexivity|]. split; [done|]. split; [done|]. split; [|by split].
    intros _. split; [done|]. split; [done|]. exists 0. cbn. lia.
Qed.

Lemma react_data_inv s b :
  inv s -> managed s = HKeyboard -> state s = PORT_STATE_MANAGED -> byte_ok s b ->
  exists s', keyboard_react_data b s = Next (tt, s') /\ inv s'.
Proof.
  intros H Hm Hst Hb. unfold byte_ok in Hb. rewrite Hst, Hm in Hb. unfold keyboard_react_data.
  set (s1 := upd s (kb_status STATUS_RECIEVED_DATA (kb s)) []).
  assert (E1 : modify_kb (kb_status STATUS_RECIEVED_DATA) s = Next (tt, s1)) by done.
  assert (H1 : inv s1) by done. assert (Hm1 : managed s1 = HKeyboard) by done. erewrite dbind_ok by exact E1.
  destruct ((b =? RESPONSE_ECHO) || (b =? RESPONSE_ACK)).
  { destruct (ack_spec s1) as (s2 & E2 & Hk & Hs & _); [by apply inv_kb|exact Hb|].
    exists s2. split; [done|]. by apply (inv_managed s1). }
  destruct (b =? RESPONSE_RESEND).
  { destruct (queue (kb s)) as [|c q] eqn:Eq; [done|].
    destruct (send_front_spec s1 c q Eq Hb) as (x & _ & ->). by eexists. }
  destruct (b =? RESPONSE_SELF_TEST_OK); [by apply unregister_reset_inv|]. by apply scan_byte_inv.
Qed.

Lemma react_timer_inv s :
  inv s -> managed s = HKeyboard -> exists s', keyboard_react_timer s = Next (tt, s') /\ inv s'.
Proof.
  intros H Hm. unfold keyboard_react_timer, mbind at 1, D_bind at 1, get.
  destruct (send_status (kb s)).
  - by eexists.
  - set (s1 := upd s (kb_status STATUS_SENT_ECHO (kb s)) []).
    assert (E1 : modify_kb (kb_status STATUS_SENT_ECHO) s = Next (tt, s1)) by done.
    assert (H1 : inv s1) by done. erewrite dbind_ok by exact E1.
    pose proof (inv_kb s1 H1 Hm) as (Hok & Hf & Hq).
    destruct (push_inv s1 (KCmd [COMMAND_ECHO; 0] 1 0 false) Hok Hf Hq) as (s2 & E2 & Hk & Hs & _);
      [split; [split; [done|cbn; lia]|done]|done|].
    unfold keyboard_push_cmd_byte. erewrite dbind_ok by exact E2. eexists. split; [reflexivity|].
    apply (inv_same s2); [by apply (inv_managed s1)|done|done|done|].
    destruct Hs as (_ & _ & E & _). cbn. rewrite E. by destruct H as (_ & _ & _ & _ & ?).
  - by apply unregister_reset_inv.
Qed.

Section DriverSafe.
Context (register_env : nat -> option Z) (Henv : forall n, exists r, register_env n = Some r).

Lemma init_keyboard_inv s : inv s -> exists s', init_keyboard register_env s = Next (tt, s') /\ inv s'.
Proof.
  intros (H1 & H2 & _ & _ & H5). destruct (Henv (registrations s)) as [r Hr]. unfold init_keyboard.
  assert (E1 : register_keyboard register_env s = Next (tt,
    Ps2 (state s) (device_id s) (device_id_size s) (managed s) (kb_right r (kb s)) (S (registrations s))
      (Registered r :: log s))) by (unfold register_keyboard; by rewrite Hr).
  erewrite dbind_ok by exact E1.
  set (k0 := kb_scan 0 1 0 (kb_queue (cmd_buffer (kb s)) 0 0 (kb_status STATUS_RECIEVED_DATA (kb_right r (kb s))))).
  set (s1 := Ps2 PORT_STATE_MANAGED (device_id s) (device_id_size s) HKeyboard k0 (S (registrations s))
    (Registered r :: log s)).
  assert (Hok0 : ring_ok k0).
  { destruct H1 as (Hl & _). split; [done|]. cbn. unfold KBD_CMD_BUFF_SIZE. lia. }
  destruct (push_inv s1 (KCmd [COMMAND_GET_SET_SCANCODE; 0] 2 0 true) Hok0 H2 I) as (s2 & E2 & Hk & Hs & _ & _);
    [split; [split; [done|cbn; lia]|done]|done|].
  exists (upd s2 (kb s2) [StartTimer 1000]). split.
  - change ((keyboard_push_get_scancode ≫= fun _ => port_start_timer 1000) s1 = Next (tt, upd s2 (kb s2) [StartTimer 1000])).
    unfold keyboard_push_get_scancode. by erewrite dbind_ok by exact E2.
  - assert (Hi1 : inv s1).
    { split; [done|]. split; [done|]. split; [|by split]. intros _. split; [done|]. split; [done|]. exists 0. cbn. lia. }
    pose proof (inv_managed s1 s2 Hi1 eq_refl Hk Hs) as Hi2. apply (inv_same s2); try done. apply Hi2.
Qed.

(** Every event the device is allowed to cause is handled without undefined
    behaviour and keeps the invariant. *)
Lemma react_inv s e : inv s -> event_ok s e -> exists s', react register_env e s = Next (tt, s') /\ inv s'.
Proof.
  intros H He. pose proof H as (_ & _ & _ & Hm & Hd). destruct e as [b|]; cbn [react event_ok] in *.
  - unfold react_byte, byte_ok in *. unfold mbind at 1, D_bind at 1, get. destruct (state s) eqn:Es.
    + destruct (b =? _); [|by exists s]. eexists. split; [reflexivity|]. by apply (inv_same s).
    + destruct (b =? _); [eexists; split; [reflexivity|]; by apply (inv_same s)|].
      destruct (b =? _); [eexists; split; [reflexivity|]; by apply (inv_same s)|by exists s].
    + destruct (Z.eqb_spec b RESPONSE_ACK); [by exists s|].
      destruct (Z.eqb_spec b RESPONSE_RESEND); [eexists; split; [reflexivity|]; by apply (inv_same s)|].
      assert (Hlt : device_id_size s < 4) by (destruct He as [?|[?|?]]; done).
      destruct (Z.leb_spec 32 (device_id_size s * 8)); [lia|]. eexists. split; [reflexivity|].
      apply (inv_same s); try done. cbn. rewrite wrap_small; lia.
    + by exists s.
    + destruct (managed s) eqn:Em; [by destruct (Hm eq_refl)| |].
      * apply react_data_inv; [done|done|done|]. unfold byte_ok. by rewrite Es, Em.
      * unfold unknown_react_data. destruct (b =? _); [|by exists s].
        destruct (reset_port_inv s H) as (s' & E & H' & _). by exists s'.
  - unfold port_react_timer, mbind at 1, D_bind at 1, get. destruct (state s) eqn:Es.
    + by exists s.
    + eexists. split; [reflexivity|]. by apply (inv_same s).
    + unfold configure_port, mbind at 1, D_bind at 1, get. destruct (is_keyboard s); [by apply init_keyboard_inv|].
      eexists. split; [reflexivity|]. destruct H as (H1 & H2 & _).
      split; [done|]. split; [done|]. split; [intros [=]|]. split; [intros _ [=]|done].
    + eexists. split; [reflexivity|]. by apply (inv_same s).
    + destruct (managed s) eqn:Em; [by destruct (Hm eq_refl)|by apply react_timer_inv|by exists s].
Qed.
End DriverSafe.

(** ** Properties *)

(** A run in which the device keeps to the protocol. *)
Inductive conforming (register_env : nat -> option Z) : ps2 -> list event -> ps2 -> Prop :=
| conforming_nil s : conforming register_env s [] s
| conforming_cons s e s1 es s2 :
    event_ok s e -> react register_env e s = Next (tt, s1) -> conforming register_env s1 es s2 ->
    conforming register_env s (e :: es) s2.

Lemma conforming_inv register_env s es s' :
  (forall n, exists r, register_env n = Some r) -> conforming register_env s es s' -> inv s -> inv s'.
Proof.
  intros Henv Hr. induction Hr as [|s e s1 es s2 He E Hr IH]; intros H; [done|].
  destruct (react_inv register_env Henv s e H He) as (s1' & E1 & H1).
  rewrite E in E1. injection E1 as ->. by apply IH.
Qed.


(** C38. The ring buffer of 16 slots implements a queue of at most 15 commands:
    pushing appends, and drops the command when 15 wait already; popping removes
    the oldest; the front slot is the oldest; the emptiness test is exact. *)
Theorem command_queue_refines s c :
  ring_ok (kb s) -> pending c ->
  keyboard_cmd_queue_empty (kb s) = bool_decide (queue (kb s) = [])
  /\ (exists s', keyboard_push_cmd c s = Next (tt, s') /\ ring_ok (kb s')
       /\ queue (kb s') = if (length (queue (kb s)) =? 15)%nat then queue (kb s) else queue (kb s) ++ [c])
  /\ (forall d q, queue (kb s) = d :: q -> keyboard_cmd_get_front (kb s) = Some d
       /\ exists s', keyboard_pop_front_cmd s = Next (tt, s') /\ ring_ok (kb s') /\ queue (kb s') = q).
Proof.
  intros Hok Hp. split; [by apply queue_empty|]. split.
  - destruct (push_spec s c Hok Hp) as (l & _ & ->). eexists. split; [reflexivity|].
    destruct (Nat.eqb_spec (length (queue (kb s))) 15) as [Hl|Hl]; [done|].
    rewrite queue_length in Hl by done. by apply push_queue.
  - intros d q Hq. split; [by apply (queue_front _ d q)|]. eexists. split; [reflexivity|]. by apply (pop_queue _ Hok d).
Qed.

(** Acknowledging works through the front command: an acknowledgement in
    flight advances it by one byte and removes the command exactly when its last
    byte is acknowledged and no response is expected; the only thing sent is the
    next byte of the command, or the first byte of the one behind it. *)
Theorem acknowledge_front s c q :
  kb_inv (kb s) -> queue (kb s) = c :: q -> pending c ->
  exists s', keyboard_ack_cmd s = Next (tt, s') /\ kb_inv (kb s')
    /\ queue (kb s') = (if (kc_acked c + 1 =? kc_size c) && negb (kc_complex c) then q
                        else KCmd (kc_cmd c) (kc_size c) (kc_acked c + 1) (kc_complex c) :: q)
    /\ log s' = front_byte (queue (kb s')) ++ log s.
Proof.
  intros Hk Hq Hp. destruct (ack_spec s Hk) as (s' & E & Hk' & _ & _ & Hq' & Hlog).
  - by rewrite Hq.
  - rewrite Hq in Hq', Hlog. by exists s'.
Qed.

(** The identification of a replaced device starts from the identifier of the
    previous one: resetting the port clears the length but not the identifier,
    into which the new bytes are or-ed. *)
Theorem reset_keeps_device_id s b0 b1 env :
  0 <= b0 < 256 -> 0 <= b1 < 256 -> b0 <> RESPONSE_ACK -> b0 <> RESPONSE_RESEND ->
  b1 <> RESPONSE_ACK -> b1 <> RESPONSE_RESEND ->
  exists s1 s2, reset_port s = Next (tt, s1)
    /\ run env [EByte RESPONSE_SELF_TEST_OK; EByte RESPONSE_ACK; EByte b0; EByte b1] s1 = Next (tt, s2)
    /\ device_id s2 = Z.lor (device_id s) (Z.lor b0 (Z.shiftl b1 8)) /\ device_id_size s2 = 2.
Proof.
  intros Hb0 Hb1 Ha0 Hr0 Ha1 Hr1. eexists. 
  set (s2 := Ps2 PORT_STATE_IDENTIFY (device_id s) 0 (managed s) (kb s) (registrations s)
    (StartTimer 1000 :: Send 242 :: StartTimer 1000 :: Send 245 :: Send 255 :: log s)).
  assert (E : forall es s1, reset_port s = Next (tt, s1) ->
    run env (EByte RESPONSE_SELF_TEST_OK :: EByte RESPONSE_ACK :: es) s1 = run env es s2).
  { intros es s1 [= <-]. done. }
  eexists. split; [reflexivity|]. rewrite (E [EByte b0; EByte b1] _ eq_refl).
  cbn [run react]. unfold react_byte.
  unfold mbind, D_bind, get. cbn [s2 state device_id_size device_id].
  destruct (Z.eqb_spec b0 RESPONSE_ACK), (Z.eqb_spec b0 RESPONSE_RESEND); try done.
  change (32 <=? 0 * 8) with false. cbv iota. cbn [set_id state device_id_size device_id managed kb registrations log].
  destruct (Z.eqb_spec b1 RESPONSE_ACK), (Z.eqb_spec b1 RESPONSE_RESEND); try done.
  change (wrap 32 (0 + 1)) with 1. change (32 <=? 1 * 8) with false. cbv iota.
  split; [reflexivity|]. cbn [device_id device_id_size]. split; [|done].
  change (0 * 8) with 0. change (1 * 8) with 8. rewrite Z.shiftl_0_r.
  rewrite (wrap_small 32 b0) by lia. rewrite (wrap_small 32 (Z.shiftl b1 8)).
  - by rewrite Z.lor_assoc.
  - rewrite Z.shiftl_mul_pow2 by lia. lia.
Qed.

(** No command waits for the response the next byte could be. *)
Definition no_response (k : keyboard_state) : Prop :=
  exists d, keyboard_cmd_get_front k = Some d /\ (kc_acked d =? kc_size d) && kc_complex d = false.

Lemma scan_prefix s b :
  no_response (kb s) -> shift_val (kb s) < 64 -> b = 240 \/ b = 224 -> expected_bytes (kb s) = 1 ->
  keyboard_scan_byte b s
    = Next (tt, upd s (kb_scan (Z.lor (scancode (kb s)) (wrap 64 (Z.shiftl b (shift_val (kb s))))) 1
                         (wrap 32 (shift_val (kb s) + 8)) (kb s)) []).
Proof.
  intros (d & Hf & Hd) Hs Hb He. unfold keyboard_scan_byte, mbind at 1, D_bind at 1, get. rewrite Hf. cbn [of_opt].
  erewrite (dbind_ok (mret d)) by reflexivity. cbv beta zeta. rewrite Hd, He.
  destruct (Z.leb_spec 64 (shift_val (kb s))); [lia|]. by destruct Hb as [-> | ->].
Qed.

Lemma scan_last s b :
  no_response (kb s) -> shift_val (kb s) < 64 -> b <> 240 -> b <> 224 -> expected_bytes (kb s) = 1 ->
  exists l, keyboard_scan_byte b s = Next (tt, upd s (kb_scan 0 1 0 (kb s)) l)
    /\ let c := wrap 8 (Z.lor (scancode (kb s)) (wrap 64 (Z.shiftl b (shift_val (kb s))))) in
       l = if 127 <? c then [] else
             match scancodes !! Z.to_nat c with
             | Some ch => if ch =? 0 then [] else [Putchar ch]
             | None => []
             end.
Proof.
  intros (d & Hf & Hd) Hs Hb1 Hb2 He. unfold keyboard_scan_byte, mbind at 1, D_bind at 1, get. rewrite Hf. cbn [of_opt].
  erewrite (dbind_ok (mret d)) by reflexivity. cbv beta zeta. rewrite Hd, He.
  destruct (Z.leb_spec 64 (shift_val (kb s))); [lia|].
  destruct (Z.eqb_spec b 240), (Z.eqb_spec b 224); try done. cbn [orb]. change (wrap 32 (1 - 1)) with 0.
  set (sc := Z.lor _ _). set (s1 := upd s (kb_scan sc 0 (wrap 32 (shift_val (kb s) + 8)) (kb s)) []).
  assert (E1 : modify_kb (kb_scan sc 0 (wrap 32 (shift_val (kb s) + 8))) s = Next (tt, s1)) by done.
  erewrite dbind_ok by exact E1. cbn [Z.eqb]. unfold keyboard_react_scancode.
  pose proof (wrap_range 8 sc ltac:(lia)) as Hr. destruct (Z.ltb_spec 127 (wrap 8 sc)); [by exists []|].
  destruct (lookup_lt_is_Some_2 scancodes (Z.to_nat (wrap 8 sc))) as [ch Hch].
  { change (length scancodes) with 128%nat. lia. }
  rewrite Hch. unfold mbind, D_bind, of_opt, mret, D_ret. destruct (ch =? 0); [by exists []|]. by exists [Putchar ch].
Qed.

Lemma break_low_byte c : 0 <= c < 128 -> wrap 8 (Z.lor 240 (wrap 64 (Z.shiftl c 8))) = 240.
Proof.
  intros Hc.
  assert (Hall : forallb (fun n => wrap 8 (Z.lor 240 (wrap 64 (Z.shiftl (Z.of_nat n) 8))) =? 240) (seq 0 128) = true)
    by (vm_compute; reflexivity).
  rewrite forallb_forall in Hall. specialize (Hall (Z.to_nat c)). rewrite Z2Nat.id in Hall by lia.
  apply Z.eqb_eq, Hall, in_seq. lia.
Qed.

(** A key press prints its character and a release prints nothing: with no
    command waiting for a response and the decoder at rest, a make code below 128
    prints exactly its entry of the table, a break sequence (F0, code) prints
    nothing, and both leave the decoder at rest. *)
Theorem scan_codes s c :
  no_response (kb s) -> scancode (kb s) = 0 -> shift_val (kb s) = 0 -> expected_bytes (kb s) = 1 ->
  0 <= c < 128 ->
  keyboard_scan_byte c s
    = Next (tt, upd s (kb_scan 0 1 0 (kb s))
                  (match scancodes !! Z.to_nat c with
                   | Some ch => if ch =? 0 then [] else [Putchar ch]
                   | None => []
                   end))
  /\ (_ ← keyboard_scan_byte 240; keyboard_scan_byte c) s = Next (tt, upd s (kb_scan 0 1 0 (kb s)) []).
Proof.
  intros Hn Hsc Hsh Hex Hc. split.
  - destruct (scan_last s c Hn) as (l & -> & ->); [lia|lia|lia|done|].
    rewrite Hsc, Hsh, Z.shiftl_0_r, Z.lor_0_l, (wrap_small 64 c), (wrap_small 8 c) by lia.
    by destruct (Z.ltb_spec 127 c); [lia|].
  - erewrite dbind_ok by (apply scan_prefix; [done|lia|by left|done]).
    rewrite Hsc, Hsh. change (Z.lor 0 (wrap 64 (Z.shiftl 240 0))) with 240. change (wrap 32 (0 + 8)) with 8.
    edestruct (scan_last (upd s (kb_scan 240 1 8 (kb s)) []) c) as (l & -> & ->); [exact Hn|done|lia|lia|done|].
    cbn [upd kb kb_scan scancode shift_val]. by rewrite break_low_byte.
Qed.

(** ** Examples *)

Definition demo_env (n : nat) : option Z := Some (Z.of_nat n + 7).

(** Reset, identify (AB 83), configure, and the handshake up to enabled scanning. *)
Definition bringup : list event :=
  [EByte 170; EByte 250; EByte 250; EByte 171; EByte 131; ETimer; EByte 250; EByte 250; EByte 2].

Definition observed (o : outcome (unit * ps2)) : option (port_state * list action) :=
  match o with Next (_, s) => Some (state s, rev (log s)) | _ => None end.

Lemma bringup_log :
  observed (run demo_env bringup initial)
    = Some (PORT_STATE_MANAGED, [Send 245; StartTimer 1000; Send 242; StartTimer 1000; Registered 7; Send 240;
                                 StartTimer 1000; Send 0; Send 244]).
Proof. vm_compute. reflexivity. Qed.

(** The state after it, when ENABLE_SCANNING has been acknowledged too. *)
Definition ready : ps2 :=
  match run demo_env (bringup ++ [EByte 250]) initial with Next (_, s) => s | _ => initial end.

(** Fourteen echo rounds later the free front slot is the one of the scan code
    query, still marked as awaiting a response: the next key is taken for it. *)
Definition echo_round : list event := [ETimer; ETimer; EByte 238].

Lemma stale_command_swallows_key :
  let idle := match run demo_env (mjoin (replicate 14 echo_round)) ready with Next (_, s) => s | _ => initial end in
  queue (kb idle) = [] /\
  (exists s, run demo_env [EByte 28] ready = Next (tt, s) /\ log s = Putchar 97 :: log ready) /\
  (exists s, run demo_env [EByte 28] idle = Next (tt, s) /\ log s = Send 244 :: log idle).
Proof.
  intros idle. split; [vm_compute; reflexivity|].
  split; eexists; (split; [vm_compute; reflexivity|vm_compute; reflexivity]).
Qed.

(** A resend request after the last byte of a two-byte command: the byte behind
    the command is read. *)
Lemma resend_out_of_bounds :
  run demo_env (take 8 bringup ++ [EByte 254]) initial = Undefined.
Proof. vm_compute. reflexivity. Qed.


Lemma ready_ring : ring_ok (kb ready).
Proof. vm_compute. split; [reflexivity|]. lia. Qed.

Lemma command_queue_refines_witness :
  keyboard_cmd_queue_empty (kb ready) = bool_decide (queue (kb ready) = [])
  /\ (exists s', keyboard_push_cmd (KCmd [238; 0] 1 0 false) ready = Next (tt, s') /\ ring_ok (kb s')
       /\ queue (kb s') = if (length (queue (kb ready)) =? 15)%nat then queue (kb ready)
                          else queue (kb ready) ++ [KCmd [238; 0] 1 0 false])
  /\ (forall d q, queue (kb ready) = d :: q -> keyboard_cmd_get_front (kb ready) = Some d
       /\ exists s', keyboard_pop_front_cmd ready = Next (tt, s') /\ ring_ok (kb s') /\ queue (kb s') = q).
Proof.
  apply (command_queue_refines ready (KCmd [238; 0] 1 0 false)).
  - apply ready_ring.
  - split; [split; [reflexivity|cbn; lia]|cbn; lia].
Defined.

(** Two echo requests wait. *)
Definition two_waiting : keyboard_state :=
  Kbd 0 1 0 STATUS_RECIEVED_DATA
    (KCmd [238; 0] 1 0 false :: KCmd [244; 0] 1 0 false :: replicate 14 zero_cmd) 2 0 0.
Definition busy : ps2 := Ps2 PORT_STATE_MANAGED 0 2 HKeyboard two_waiting 1 [].

Lemma acknowledge_front_witness :
  exists s', keyboard_ack_cmd busy = Next (tt, s') /\ kb_inv (kb s') /\ queue (kb s') = [KCmd [244; 0] 1 0 false]
    /\ log s' = front_byte (queue (kb s')) ++ [].
Proof.
  apply (acknowledge_front busy (KCmd [238; 0] 1 0 false) [KCmd [244; 0] 1 0 false]).
  - split; [split; [reflexivity|cbn; unfold KBD_CMD_BUFF_SIZE; lia]|].
    split; [repeat constructor; cbn; lia|]. cbn. split; [lia|]. split; [lia|]. repeat constructor; cbn; lia.
  - reflexivity.
  - split; [split; [reflexivity|cbn; lia]|cbn; lia].
Defined.

(** A device with identifier FFFF is replaced by a keyboard (AB 83): it stays FFFF. *)
Lemma reset_keeps_device_id_witness :
  exists s1 s2, reset_port (Ps2 PORT_STATE_MANAGED 65535 2 HUnknown (kb initial) 0 []) = Next (tt, s1)
    /\ run demo_env [EByte RESPONSE_SELF_TEST_OK; EByte RESPONSE_ACK; EByte 171; EByte 131] s1 = Next (tt, s2)
    /\ device_id s2 = 65535 /\ device_id_size s2 = 2.
Proof.
  apply (reset_keeps_device_id (Ps2 PORT_STATE_MANAGED 65535 2 HUnknown (kb initial) 0 []) 171 131 demo_env);
    done || lia.
Defined.

Lemma scan_codes_witness :
  keyboard_scan_byte 28 busy = Next (tt, upd busy (kb_scan 0 1 0 two_waiting) [Putchar 97])
  /\ (_ ← keyboard_scan_byte 240; keyboard_scan_byte 28) busy = Next (tt, upd busy (kb_scan 0 1 0 two_waiting) []).
Proof.
  apply (scan_codes busy 28).
  - eexists. split; reflexivity.
  - reflexivity.
  - reflexivity.
  - reflexivity.
  - lia.
Defined.
