(* ===== verification/HashMap.v ===== *)
(** * libc/src/generic/hashmap.h/hashmap.c: the intrusive hash table

    Entries are linked through a [next] field they contain, so the table is
    modelled over a store of these fields: [links] maps the address of an entry
    to what its [next] points to.  The table itself is the array of the list
    heads in a heap block, its size and the number of entries.  The loops follow
    the links as the code does, with as much fuel as there are entries in the
    store; an access to an entry that is not in the store, an index outside the
    array and a failing assertion are [Fault]. *)

From stdpp Require Import base list numbers gmap fin_maps sorting.
From S2P Require Import Prelude CMem Alloc.

Notation links := (gmap nat (option nat)).

(** [pmos_hashtable_t]; [ht_array] are the [next] fields of the array in the
    block [ht_block]. *)
Record hashtable := HT {
  ht_block : option nat;
  ht_array : list (option nat);
  ht_size : Z;
  ht_count : Z
}.

Definition MIN_SIZE : Z := 16.
Definition link_size : Z := 8.

(** A computation that does not touch the heap. *)
Definition lift {A} (r : res A) : AM A := fun h =>
  match r with Ok a => Ok (a, h) | Fault => Fault | OutOfFuel => OutOfFuel end.

Section HashMap.
(** [hash_function(entry, size)] *)
Context (hash : nat -> Z -> Z).

Definition hashmap_link (array : list (option nat)) (ls : links) (entry : nat) (size : Z)
    : option (list (option nat) * links) :=
  let idx := hash entry size in
  if (0 <=? idx) && (idx <? size) then
    next ← array !! Z.to_nat idx;
    _ ← ls !! entry;
    Some (<[Z.to_nat idx := Some entry]> array, <[entry := next]> ls)
  else None.

(** The inner loop of the two resizing functions: move the list of bucket [i]. *)
Fixpoint drain (fuel : nat) (old new : list (option nat)) (ls : links) (i : nat) (new_size : Z)
    : res (list (option nat) * list (option nat) * links) :=
  match fuel with
  | O => OutOfFuel
  | S fuel =>
      match old !! i with
      | None => Fault
      | Some None => Ok (old, new, ls)
      | Some (Some e) =>
          match ls !! e with
          | None => Fault
          | Some next =>
              match hashmap_link new ls e new_size with
              | None => Fault
              | Some (new, ls) => drain fuel (<[i := next]> old) new ls i new_size
              end
          end
      end
  end.

(** The outer loop: [todo] buckets from [i] on. *)
Fixpoint drain_all (todo : nat) (old new : list (option nat)) (ls : links) (i : nat) (new_size : Z)
    : res (list (option nat) * links) :=
  match todo with
  | O => Ok (new, ls)
  | S todo =>
      match drain (S (size ls)) old new ls i new_size with
      | Ok (old, new, ls) => drain_all todo old new ls (S i) new_size
      | Fault => Fault
      | OutOfFuel => OutOfFuel
      end
  end.

(** [calloc], the two loops and the exchange of the arrays; [None] when there is
    no memory. *)
Definition rehash (ht : hashtable) (ls : links) (new_size : Z) : AM (option (hashtable * links)) :=
  block ← malloc (new_size * link_size);
  match block with
  | None => mret None
  | Some b =>
      '(array, ls) ← lift (drain_all (Z.to_nat (ht_size ht)) (ht_array ht) (replicate (Z.to_nat new_size) None)
                             ls 0 new_size);
      _ ← free_opt (ht_block ht);
      mret (Some (HT (Some b) array new_size (ht_count ht), ls))
  end.

Definition hastable_grow_for_insert (ht : hashtable) (ls : links) : AM (option (hashtable * links)) :=
  if wrap 64 (ht_size ht * 3) / 5 <? ht_count ht then rehash ht ls (wrap 64 (ht_size ht * 2))
  else mret (Some (ht, ls)).

Definition hashtable_maybe_shrink (ht : hashtable) (ls : links) : AM (hashtable * links) :=
  if (MIN_SIZE <? ht_size ht) && (ht_count ht <? wrap 64 (ht_size ht * 1) / 4) then
    r ← rehash ht ls (ht_size ht / 2);
    mret (default (ht, ls) r)
  else mret (ht, ls).

(** The result is [true] for 0. *)
Definition hasmap_initialize (ht : hashtable) : AM (bool * hashtable) :=
  ptr ← malloc (MIN_SIZE * link_size);
  match ptr with
  | None => mret (false, ht)
  | Some b => mret (true, HT (Some b) (replicate (Z.to_nat MIN_SIZE) None) MIN_SIZE 0)
  end.

(** [hashmap_add] behind the test of [hashtable] for NULL. *)
Definition add_entry (ht : hashtable) (ls : links) (new_entry : nat) : AM (bool * hashtable * links) :=
  '(r, ht) ← (match ht_block ht with None => hasmap_initialize ht | Some _ => mret (true, ht) end);
  if negb r then mret (false, ht, ls)
  else
    grown ← hastable_grow_for_insert ht ls;
    match grown with
    | None => mret (false, ht, ls)
    | Some (ht, ls) =>
        match hashmap_link (ht_array ht) ls new_entry (ht_size ht) with
        | Some (array, ls) => mret (true, HT (ht_block ht) array (ht_size ht) (wrap 64 (ht_count ht + 1)), ls)
        | None => afault
        end
    end.

Definition hashmap_add (ht : option hashtable) (ls : links) (new_entry : nat) : AM (bool * option hashtable * links) :=
  match ht with
  | None => mret (false, None, ls)
  | Some ht => '(r, ht, ls) ← add_entry ht ls new_entry; mret (r, Some ht, ls)
  end.

(** The inner loop of [hashtable_foreach]: the entries [func] is called on. *)
Fixpoint walk (fuel : nat) (ls : links) (l : option nat) : res (list nat) :=
  match fuel with
  | O => OutOfFuel
  | S fuel =>
      match l with
      | None => Ok []
      | Some e =>
          match ls !! e with
          | None => Fault
          | Some next =>
              match walk fuel ls next with
              | Ok rest => Ok (e :: rest)
              | Fault => Fault
              | OutOfFuel => OutOfFuel
              end
          end
      end
  end.

Fixpoint walk_all (todo : nat) (array : list (option nat)) (ls : links) (i : nat) : res (list nat) :=
  match todo with
  | O => Ok []
  | S todo =>
      match array !! i with
      | None => Fault
      | Some l =>
          match walk (S (size ls)) ls l with
          | Ok es =>
              match walk_all todo array ls (S i) with
              | Ok rest => Ok (es ++ rest)
              | Fault => Fault
              | OutOfFuel => OutOfFuel
              end
          | Fault => Fault
          | OutOfFuel => OutOfFuel
          end
      end
  end.

Definition hashtable_foreach (ht : option hashtable) (ls : links) : res (list nat) :=
  match ht with
  | None => Ok []
  | Some ht => walk_all (Z.to_nat (ht_size ht)) (ht_array ht) ls 0
  end.

(** [while (e && e->next != entry) e = e->next] from an entry on: the entry before [entry]. *)
Fixpoint find_before (fuel : nat) (ls : links) (e : option nat) (entry : nat) : res (option nat) :=
  match fuel with
  | O => OutOfFuel
  | S fuel =>
      match e with
      | None => Ok None
      | Some a =>
          match ls !! a with
          | None => Fault
          | Some next => if bool_decide (next = Some entry) then Ok (Some a) else find_before fuel ls next entry
          end
      end
  end.

(** The removal of [entry] from bucket [idx]: [None] when it is not there. *)
Definition unlink (array : list (option nat)) (ls : links) (idx entry : nat) : res (option (list (option nat) * links)) :=
  match array !! idx with
  | None => Fault
  | Some first =>
      if bool_decide (first = Some entry) then
        match ls !! entry with
        | Some next => Ok (Some (<[idx := next]> array, ls))
        | None => Fault
        end
      else
        match find_before (S (size ls)) ls first entry with
        | Ok None => Ok None
        | Ok (Some a) =>
            match ls !! entry with
            | Some next => Ok (Some (array, <[a := next]> ls))
            | None => Fault
            end
        | Fault => Fault
        | OutOfFuel => OutOfFuel
        end
  end.

(** [hashtable_delete] behind the tests of its arguments for NULL. *)
Definition delete_entry (ht : hashtable) (ls : links) (entry : nat) : AM (hashtable * links) :=
  if ht_size ht =? 0 then mret (ht, ls)
  else
    let idx := hash entry (ht_size ht) in
    if (0 <=? idx) && (idx <? ht_size ht) then
      r ← lift (unlink (ht_array ht) ls (Z.to_nat idx) entry);
      match r with
      | None => mret (ht, ls)
      | Some (array, ls) =>
          hashtable_maybe_shrink (HT (ht_block ht) array (ht_size ht) (wrap 64 (ht_count ht - 1))) ls
      end
    else afault.

Definition hashtable_delete (ht : option hashtable) (ls : links) (entry : option nat) : AM (option hashtable * links) :=
  match ht, entry with
  | Some ht, Some entry => '(ht, ls) ← delete_entry ht ls entry; mret (Some ht, ls)
  | _, _ => mret (ht, ls)
  end.

Section Find.
(** [hash_function(value, size)] and [equals_function(e, value)] *)
Context {V : Type} (hash_value : V -> Z -> Z) (equals : nat -> V -> bool).

Fixpoint find_in (fuel : nat) (ls : links) (e : option nat) (value : V) : res (option nat) :=
  match fuel with
  | O => OutOfFuel
  | S fuel =>
      match e with
      | None => Ok None
      | Some a =>
          if equals a value then Ok (Some a)
          else
            match ls !! a with
            | None => Fault
            | Some next => find_in fuel ls next value
            end
      end
  end.

Definition hashtable_find (ht : option hashtable) (ls : links) (value : V) : res (option nat) :=
  match ht with
  | None => Ok None
  | Some ht =>
      if ht_size ht =? 0 then Ok None
      else
        let idx := hash_value value (ht_size ht) in
        if (0 <=? idx) && (idx <? ht_size ht) then
          match ht_array ht !! Z.to_nat idx with
          | None => Fault
          | Some first => find_in (S (size ls)) ls first value
          end
        else Fault
  end.
End Find.
End HashMap.

(** ** Linked lists in the store *)

(** From [p] on, the links spell the list [l]. *)
Fixpoint chain (ls : links) (p : option nat) (l : list nat) : Prop :=
  match l with
  | [] => p = None
  | a :: l => p = Some a /\ exists n, ls !! a = Some n /\ chain ls n l
  end.

Lemma chain_agree ls ls' p l : (forall a, a ∈ l -> ls' !! a = ls !! a) -> chain ls p l -> chain ls' p l.
Proof.
  revert p; induction l as [|a l IH]; intros p Ha; [done|]. intros [-> (n & Hn & Hc)]. split; [done|].
  exists n. split; [rewrite Ha; [done|by left]|]. apply IH; [|done]. intros b Hb. apply Ha. by right.
Qed.

Lemma chain_insert ls p l a x : a ∉ l -> chain ls p l -> chain (<[a := x]> ls) p l.
Proof.
  intros Ha. apply chain_agree. intros b Hb. apply lookup_insert_ne. by intros ->.
Qed.

Lemma chains_agree ls ls' array cs :
  (forall a, a ∈ concat cs -> ls' !! a = ls !! a) -> Forall2 (chain ls) array cs -> Forall2 (chain ls') array cs.
Proof.
  intros Ha Hc. induction Hc as [|p l array cs Hp Hc IH]; constructor.
  - eapply chain_agree; [|exact Hp]. intros a Hin. apply Ha. cbn. apply elem_of_app. by left.
  - apply IH. intros a Hin. apply Ha. cbn. apply elem_of_app. by right.
Qed.

Lemma chain_in_store ls p l a : chain ls p l -> a ∈ l -> is_Some (ls !! a).
Proof.
  revert p; induction l as [|b l IH]; intros p Hc Hin; [by apply elem_of_nil in Hin|].
  destruct Hc as [-> (n & Hn & Hc)]. apply elem_of_cons in Hin as [->|Hin]; [by exists n|eauto].
Qed.

(** The fuel of the loops is enough. *)
Lemma chain_length ls p l : chain ls p l -> NoDup l -> (length l <= size ls)%nat.
Proof.
  intros Hc Hnd. pose proof (size_dom (D := gset nat) ls) as <-.
  rewrite <- (size_list_to_set (C := gset nat) l Hnd). apply subseteq_size. intros a Ha%elem_of_list_to_set. apply elem_of_dom. by eapply chain_in_store.
Qed.

(** Every entry is in the bucket its hash says. *)
Definition placed (hash : nat -> Z -> Z) (n : Z) (cs : list (list nat)) : Prop :=
  forall i c a, cs !! i = Some c -> a ∈ c -> hash a n = Z.of_nat i.

Lemma elem_of_concat_lookup (cs : list (list nat)) i c a : cs !! i = Some c -> a ∈ c -> a ∈ concat cs.
Proof.
  revert i; induction cs as [|d cs IH]; intros [|i] Hi Ha; [done..| |]; cbn in *; apply elem_of_app.
  - left. congruence.
  - right. by eapply IH.
Qed.

Lemma concat_insert (cs : list (list nat)) i c c' :
  cs !! i = Some c -> concat (<[i := c']> cs) ++ c ≡ₚ concat cs ++ c'.
Proof.
  revert i; induction cs as [|d cs IH]; intros [|i] Hi; [done..| |]; cbn in *.
  - injection Hi as ->. solve_Permutation.
  - rewrite <- !app_assoc, (IH i Hi). done.
Qed.

Section Proofs.
Context (hash : nat -> Z -> Z) (hash_range : forall a n, 0 < n -> 0 <= hash a n < n).

Lemma hashmap_link_spec array ls cs entry n :
  Forall2 (chain ls) array cs -> zlen array = n -> 0 < n -> placed hash n cs ->
  entry ∉ concat cs -> is_Some (ls !! entry) ->
  exists array' next cs', hashmap_link hash array ls entry n = Some (array', <[entry := next]> ls)
    /\ Forall2 (chain (<[entry := next]> ls)) array' cs' /\ concat cs' ≡ₚ entry :: concat cs
    /\ placed hash n cs' /\ zlen array' = n.
Proof.
  intros Hc Hl Hn Hp Hni [x Hx]. pose proof (hash_range entry n Hn) as Hr. unfold hashmap_link.
  destruct (Z.leb_spec 0 (hash entry n)), (Z.ltb_spec (hash entry n) n); [|lia..]. cbn [andb].
  set (i := Z.to_nat (hash entry n)). assert (Hi : (i < length array)%nat) by (unfold zlen in Hl; lia).
  destruct (lookup_lt_is_Some_2 array i Hi) as [next En].
  destruct (Forall2_lookup_l _ _ _ _ _ Hc En) as (c & Ec & Hch).
  exists (<[i := Some entry]> array), next, (<[i := entry :: c]> cs).
  assert (Hnc : entry ∉ c) by (intros Hin; by apply Hni, (elem_of_concat_lookup cs i c)).
  split; [cbn; by rewrite En, Hx|]. split; [|split; [|split]].
  - apply Forall2_insert; [|split; [done|]].
    + eapply chains_agree; [|exact Hc]. intros a Ha. apply lookup_insert_ne. by intros ->.
    + exists next. rewrite lookup_insert_eq. split; [done|]. by apply chain_insert.
  - apply (Permutation_app_inv_r c). rewrite (concat_insert _ _ _ _ Ec). solve_Permutation.
  - intros j d a Hj Ha. destruct (decide (i = j)) as [<-|Hij].
    + rewrite list_lookup_insert_eq in Hj by (apply Forall2_length in Hc; lia). injection Hj as <-.
      apply elem_of_cons in Ha as [->|Ha]; [unfold i; lia|by eapply Hp].
    + rewrite list_lookup_insert_ne in Hj by done. by eapply Hp.
  - unfold zlen. by rewrite length_insert.
Qed.

Lemma drain_spec l : forall fuel old new ls i n cs p,
  old !! i = Some p -> chain ls p l -> Forall2 (chain ls) new cs -> zlen new = n -> 0 < n -> placed hash n cs ->
  NoDup (l ++ concat cs) -> (length l < fuel)%nat ->
  exists old' new' ls' cs', drain hash fuel old new ls i n = Ok (old', new', ls')
    /\ drop (S i) old' = drop (S i) old /\ Forall2 (chain ls') new' cs' /\ concat cs' ≡ₚ l ++ concat cs
    /\ placed hash n cs' /\ (forall a, a ∉ l -> ls' !! a = ls !! a) /\ dom ls' = dom ls /\ zlen new' = n.
Proof.
  induction l as [|e l IH]; intros fuel old new ls i n cs p Hp Hch Hc Hl Hn Hpl Hnd Hf;
    (destruct fuel as [|fuel]; [cbn in Hf; lia|]); cbn [drain]; rewrite Hp.
  { cbn in Hch. subst p. exists old, new, ls, cs. done. }
  destruct Hch as [-> (next & Hnext & Hch)]. rewrite Hnext. cbn in Hnd. apply NoDup_cons in Hnd as [Hne Hnd].
  rewrite not_elem_of_app in Hne. destruct Hne as [Hne1 Hne2].
  destruct (hashmap_link_spec new ls cs e n Hc Hl Hn Hpl Hne2 ltac:(by exists next))
    as (new1 & x & cs1 & -> & Hc1 & Hp1 & Hpl1 & Hl1).
  assert (Hi : (i < length old)%nat) by (by eapply lookup_lt_Some).
  destruct (IH fuel (<[i := next]> old) new1 (<[e := x]> ls) i n cs1 next)
    as (old' & new' & ls' & cs' & E & Hd & Hc' & Hpm & Hpl' & Hls & Hdom & Hl'); [..|cbn in Hf; lia|].
  - by rewrite list_lookup_insert_eq.
  - by apply chain_insert.
  - done.
  - done.
  - done.
  - done.
  - rewrite Hp1. rewrite <- Permutation_middle. constructor; [|done]. by rewrite not_elem_of_app.
  - exists old', new', ls', cs'. split; [done|]. split; [rewrite Hd; apply drop_insert_lt; lia|].
    split; [done|]. split; [rewrite Hpm, Hp1; solve_Permutation|]. split; [done|]. split; [|split; [|done]].
    + intros a Ha. rewrite not_elem_of_cons in Ha. destruct Ha as [Ha1 Ha2].
      rewrite Hls by done. by apply lookup_insert_ne.
    + rewrite Hdom, dom_insert_L. apply elem_of_dom_2 in Hnext. set_solver.
Qed.

Lemma drain_all_spec ocs : forall old new ls i n cs,
  Forall2 (chain ls) (drop i old) ocs -> Forall2 (chain ls) new cs -> zlen new = n -> 0 < n -> placed hash n cs ->
  NoDup (concat ocs ++ concat cs) ->
  exists new' ls' cs', drain_all hash (length ocs) old new ls i n = Ok (new', ls')
    /\ Forall2 (chain ls') new' cs' /\ concat cs' ≡ₚ concat ocs ++ concat cs
    /\ placed hash n cs' /\ (forall a, a ∉ concat ocs -> ls' !! a = ls !! a) /\ dom ls' = dom ls /\ zlen new' = n.
Proof.
  induction ocs as [|l ocs IH]; intros old new ls i n cs Ho Hc Hl Hn Hpl Hnd; cbn [drain_all length].
  { exists new, ls, cs. done. }
  apply Forall2_cons_inv_r in Ho as (p & rest & Hp & Ho & Ed).
  assert (Ei : old !! i = Some p) by (rewrite <- (Nat.add_0_r i), <- lookup_drop, Ed; done).
  assert (Er : rest = drop (S i) old).
  { replace (S i) with (i + 1)%nat by lia. rewrite <- drop_drop, Ed. done. }
  cbn in Hnd. rewrite <- app_assoc in Hnd.
  assert (Hnd2 : NoDup (l ++ concat cs)).
  { rewrite (Permutation_app_comm (concat ocs)), app_assoc in Hnd. by apply NoDup_app in Hnd as (? & _ & _). }
  destruct (drain_spec l (S (size ls)) old new ls i n cs p Ei Hp Hc Hl Hn Hpl Hnd2)
    as (old' & new1 & ls1 & cs1 & -> & Hd & Hc1 & Hp1 & Hpl1 & Hls & Hdom & Hl1).
  { apply NoDup_app in Hnd2 as (Hndl & _ & _). pose proof (chain_length ls p l Hp Hndl). lia. }
  destruct (IH old' new1 ls1 (S i) n cs1) as (new' & ls' & cs' & E & Hc' & Hpm & Hpl' & Hls' & Hdom' & Hl'); [|done..| |].
  - rewrite Hd, <- Er. eapply chains_agree; [|exact Ho]. intros a Ha. apply Hls. intros Hin.
    apply NoDup_app in Hnd as (_ & Hdisj & _). apply (Hdisj a Hin). apply elem_of_app. by left.
  - rewrite Hp1. rewrite (Permutation_app_comm l), app_assoc, Permutation_app_comm. done.
  - exists new', ls', cs'. split; [done|]. split; [done|]. split; [|split; [done|split; [|split; [congruence|done]]]].
    + rewrite Hpm, Hp1. cbn. solve_Permutation.
    + intros a Ha. cbn in Ha. rewrite not_elem_of_app in Ha. destruct Ha as [Ha1 Ha2].
      rewrite Hls' by done. by apply Hls.
Qed.

(** ** The table *)

Definition ht_blocks (ht : hashtable) : list nat := match ht_block ht with Some b => [b] | None => [] end.

(** The table holds exactly the entries [es]. *)
Record ht_ok (ls : links) (ht : hashtable) (es : list nat) : Prop := {
  ok_chains : exists cs, Forall2 (chain ls) (ht_array ht) cs /\ es ≡ₚ concat cs /\ placed hash (ht_size ht) cs;
  ok_nodup : NoDup es;
  ok_count : ht_count ht = zlen es;
  ok_array : zlen (ht_array ht) = ht_size ht;
  ok_size : match ht_block ht with Some _ => 8 <= ht_size ht < 2 ^ 61 | None => ht_size ht = 0 end;
  ok_load : ht_count ht <= ht_size ht * 3 / 5 + 1
}.

Lemma chains_nil ls n : Forall2 (chain ls) (replicate n None) (replicate n []).
Proof. induction n; constructor; done. Qed.

Lemma concat_nil n : concat (replicate n ([] : list nat)) = [].
Proof. induction n; done. Qed.

Lemma placed_nil m n : placed hash m (replicate n []).
Proof. intros i c a Hi Ha. apply lookup_replicate in Hi as [-> _]. by apply elem_of_nil in Ha. Qed.

(** An array of empty buckets. *)
Lemma empty_ok ls b n : 8 <= n < 2 ^ 61 -> ht_ok ls (HT (Some b) (replicate (Z.to_nat n) None) n 0) [].
Proof.
  intros Hn. split; cbn.
  - exists (replicate (Z.to_nat n) []). rewrite concat_nil. split; [apply chains_nil|]. split; [done|apply placed_nil].
  - constructor.
  - done.
  - rewrite zlen_replicate. lia.
  - done.
  - pose proof (Z.div_pos (n * 3) 5 ltac:(lia) ltac:(lia)). lia.
Qed.

Lemma rehash_spec ls ht es n h bs fr :
  ht_ok ls ht es -> 8 <= n < 2 ^ 61 -> zlen es <= n * 3 / 5 + 1 -> owns h (ht_blocks ht ++ bs) fr ->
  (exists ht' ls' h', rehash hash ht ls n h = Ok (Some (ht', ls'), h') /\ ht_ok ls' ht' es /\ ht_size ht' = n
     /\ (forall a, a ∉ es -> ls' !! a = ls !! a) /\ dom ls' = dom ls /\ is_Some (ht_block ht')
     /\ owns h' (ht_blocks ht' ++ bs) fr)
  \/ (exists h', rehash hash ht ls n h = Ok (None, h') /\ owns h' (ht_blocks ht ++ bs) fr /\ ~ plenty h).
Proof.
  intros Hok Hn Hload Ho. destruct Hok as [(cs & Hc & Hp & Hpl) Hnd Hcount Harr Hsize _]. unfold rehash.
  destruct (malloc_cases h (n * link_size)) as [[_ Em]|[Hf Em]].
  2:{ right. eexists. erewrite abind_ok by exact Em. split; [done|]. split; [done|]. intros Hpl'. by rewrite Hpl' in Hf. }
  left. erewrite abind_ok by exact Em. cbv beta iota. set (h1 := Heap _ _ _).
  assert (Hlen : Z.to_nat (ht_size ht) = length cs).
  { apply Forall2_length in Hc. unfold zlen in Harr. lia. }
  destruct (drain_all_spec cs (ht_array ht) (replicate (Z.to_nat n) None) ls 0 n (replicate (Z.to_nat n) []))
    as (new & ls' & cs' & E & Hc' & Hp' & Hpl' & Hls & Hdom & Hl'); [done|apply chains_nil|rewrite zlen_replicate; lia|lia
    |apply placed_nil|rewrite concat_nil, app_nil_r; by rewrite <- Hp|].
  rewrite concat_nil, app_nil_r in Hp'.
  assert (E1 : lift (drain_all hash (Z.to_nat (ht_size ht)) (ht_array ht) (replicate (Z.to_nat n) None) ls 0 n) h1
    = Ok ((new, ls'), h1)) by (unfold lift; by rewrite Hlen, E).
  erewrite abind_ok by exact E1. cbv beta iota.
  assert (Ho1 : owns h1 (ht_blocks ht ++ calls h :: bs) fr).
  { unfold owns in *. cbn. rewrite Ho. solve_Permutation. }
  assert (E2 : exists h2, free_opt (ht_block ht) h1 = Ok (tt, h2) /\ owns h2 (calls h :: bs) fr).
  { unfold ht_blocks in Ho1. destruct (ht_block ht) as [b|]; cbn in *.
    - destruct (free_owned h1 b _ fr Ho1) as (h2 & E2 & Ho2 & _). by exists h2.
    - by exists h1. }
  destruct E2 as (h2 & E2 & Ho2). erewrite abind_ok by exact E2.
  eexists (HT (Some (calls h)) new n (ht_count ht)), ls', h2. split; [done|]. split; [|split; [done|]].
  - split; cbn; [|done..|lia]. exists cs'. split; [done|]. split; [by rewrite Hp, Hp'|done].
  - split; [|split; [done|split; [by eexists|done]]]. intros a Ha. apply Hls. by rewrite <- Hp.
Qed.

(** ** Insertion *)

Lemma no_array_empty ls ht es : ht_ok ls ht es -> ht_block ht = None -> es = [].
Proof.
  intros [(cs & Hc & Hp & _) _ _ Harr Hsize _] Hb. rewrite Hb in Hsize. rewrite Hsize in Harr.
  destruct (ht_array ht); [|unfold zlen in Harr; cbn in Harr; lia]. inversion Hc; subst.
  by apply Permutation_nil_r in Hp.
Qed.

Lemma initialize_spec ls ht h bs fr :
  ht_block ht = None -> ht_ok ls ht [] -> owns h (ht_blocks ht ++ bs) fr ->
  exists r ht' h', hasmap_initialize ht h = Ok ((r, ht'), h') /\ ht_ok ls ht' [] /\ owns h' (ht_blocks ht' ++ bs) fr
    /\ if r then is_Some (ht_block ht') /\ ht_size ht' = MIN_SIZE /\ oracle h' = oracle h else ~ plenty h.
Proof.
  intros Hb Hok Ho. unfold hasmap_initialize. destruct (malloc_cases h (MIN_SIZE * link_size)) as [[_ Em]|[Hf Em]];
    erewrite abind_ok by exact Em; cbv beta iota.
  - eexists true, _, _. split; [done|]. split; [by apply empty_ok|]. split; [|split; [by eexists|done]].
    unfold owns, ht_blocks in *. rewrite Hb in Ho. cbn in *. by rewrite Ho.
  - eexists false, _, _. split; [done|]. split; [done|]. split; [done|]. intros Hp. by rewrite Hp in Hf.
Qed.

(** The first steps of an insertion. *)
Lemma ensure_array ls ht es h bs fr :
  ht_ok ls ht es -> ht_size ht < 2 ^ 60 -> owns h (ht_blocks ht ++ bs) fr ->
  exists r ht1 h1, (match ht_block ht with None => hasmap_initialize ht | Some _ => mret (true, ht) end) h
      = Ok ((r, ht1), h1) /\ ht_ok ls ht1 es /\ owns h1 (ht_blocks ht1 ++ bs) fr
    /\ if r then is_Some (ht_block ht1) /\ ht_size ht1 < 2 ^ 60 /\ oracle h1 = oracle h else ~ plenty h.
Proof.
  intros Hok Hmax Ho. destruct (ht_block ht) as [b|] eqn:Hb.
  - exists true, ht, h. split; [done|]. split; [done|]. split; [done|]. rewrite Hb. split; [by eexists|done].
  - pose proof (no_array_empty ls ht es Hok Hb) as ->.
    destruct (initialize_spec ls ht h bs fr Hb Hok Ho) as (r & ht1 & h1 & E & Hok1 & Ho1 & Hr).
    exists r, ht1, h1. split; [done|]. split; [done|]. split; [done|]. destruct r; [|done].
    destruct Hr as (H1 & H2 & H3). split; [done|]. rewrite H2. by split.
Qed.

Lemma grow_spec ls ht es h bs fr :
  ht_ok ls ht es -> is_Some (ht_block ht) -> ht_size ht < 2 ^ 60 -> owns h (ht_blocks ht ++ bs) fr ->
  (exists ht' ls' h', hastable_grow_for_insert hash ht ls h = Ok (Some (ht', ls'), h') /\ ht_ok ls' ht' es
     /\ (forall a, a ∉ es -> ls' !! a = ls !! a) /\ dom ls' = dom ls /\ is_Some (ht_block ht')
     /\ zlen es <= ht_size ht' * 3 / 5 /\ owns h' (ht_blocks ht' ++ bs) fr)
  \/ (exists h', hastable_grow_for_insert hash ht ls h = Ok (None, h') /\ owns h' (ht_blocks ht ++ bs) fr /\ ~ plenty h).
Proof.
  intros Hok [b Hb] Hmax Ho. pose proof Hok as [_ _ Hcount _ Hsize Hload]. rewrite Hb in Hsize.
  unfold hastable_grow_for_insert. rewrite !wrap_small, Hcount in * by lia.
  pose proof (Z.div_mod (ht_size ht * 3) 5 ltac:(lia)). pose proof (Z.mod_pos_bound (ht_size ht * 3) 5 ltac:(lia)).
  pose proof (Z.div_mod (ht_size ht * 2 * 3) 5 ltac:(lia)). pose proof (Z.mod_pos_bound (ht_size ht * 2 * 3) 5 ltac:(lia)).
  destruct (Z.ltb_spec (ht_size ht * 3 / 5) (zlen es)) as [Hlt|Hge].
  - destruct (rehash_spec ls ht es (ht_size ht * 2) h bs fr Hok ltac:(lia) ltac:(lia) Ho)
      as [(ht' & ls' & h' & E & Hok' & Hs' & Hls & Hdom & Hb' & Ho')|(h' & E & Ho' & Hp)].
    + left. exists ht', ls', h'. rewrite E, Hs'. split_and!; try done. lia.
    + right. by exists h'.
  - left. exists ht, ls, h. rewrite Hb. by split_and!.
Qed.

(** Linking an entry into a table with room. *)
Lemma link_ok ls ht es e :
  ht_ok ls ht es -> is_Some (ht_block ht) -> zlen es <= ht_size ht * 3 / 5 -> e ∉ es -> is_Some (ls !! e) ->
  exists array ls', hashmap_link hash (ht_array ht) ls e (ht_size ht) = Some (array, ls')
    /\ ht_ok ls' (HT (ht_block ht) array (ht_size ht) (wrap 64 (ht_count ht + 1))) (e :: es)
    /\ (forall a, a ∉ e :: es -> ls' !! a = ls !! a).
Proof.
  intros [(cs & Hc & Hp & Hpl) Hnd Hcount Harr Hsize _] [b Hb] Hload Hni Hin. rewrite Hb in Hsize.
  assert (Hni' : e ∉ concat cs) by (by rewrite <- Hp).
  destruct (hashmap_link_spec (ht_array ht) ls cs e (ht_size ht) Hc Harr ltac:(lia) Hpl Hni' Hin)
    as (array & next & cs' & E & Hc' & Hp' & Hpl' & Hl').
  pose proof (zlen_nonneg es). assert (El : zlen (e :: es) = zlen es + 1) by (unfold zlen; cbn; lia).
  assert (Hd : ht_size ht * 3 / 5 <= ht_size ht) by (apply Z.div_le_upper_bound; lia).
  eexists array, _. split; [exact E|]. split; [split; cbn|].
  - exists cs'. split; [done|]. split; [by rewrite Hp', Hp|done].
  - by constructor.
  - rewrite El, Hcount, wrap_small by lia. done.
  - done.
  - by rewrite Hb.
  - rewrite Hcount, wrap_small by lia. lia.
  - intros a Ha. rewrite not_elem_of_cons in Ha. apply lookup_insert_ne. by destruct Ha as [Ha _].
Qed.

Lemma add_entry_spec ls ht es e h bs fr :
  ht_ok ls ht es -> e ∉ es -> is_Some (ls !! e) -> ht_size ht < 2 ^ 60 -> owns h (ht_blocks ht ++ bs) fr ->
  exists r ht' ls' h', add_entry hash ht ls e h = Ok ((r, ht', ls'), h')
    /\ owns h' (ht_blocks ht' ++ bs) fr /\ (forall a, a ∉ e :: es -> ls' !! a = ls !! a)
    /\ if r then ht_ok ls' ht' (e :: es) else ht_ok ls' ht' es /\ ~ plenty h.
Proof.
  intros Hok Hni Hin Hmax Ho. unfold add_entry.
  destruct (ensure_array ls ht es h bs fr Hok Hmax Ho) as (r & ht1 & h1 & E1 & Hok1 & Ho1 & Hr).
  erewrite abind_ok by exact E1. cbv beta iota. destruct r; cbn [negb]; [|by exists false, ht1, ls, h1].
  destruct Hr as (Hb1 & Hs1 & Horc).
  destruct (grow_spec ls ht1 es h1 bs fr Hok1 Hb1 Hs1 Ho1)
    as [(ht2 & ls2 & h2 & E2 & Hok2 & Hls2 & Hdom2 & Hb2 & Hload & Ho2)|(h2 & E2 & Ho2 & Hp)];
    erewrite abind_ok by exact E2; cbv beta iota.
  - assert (Hin2 : is_Some (ls2 !! e)).
    { apply elem_of_dom. rewrite Hdom2. by apply elem_of_dom. }
    destruct (link_ok ls2 ht2 es e Hok2 Hb2 Hload Hni Hin2) as (array & ls3 & E3 & Hok3 & Hls3).
    rewrite E3. eexists true, _, ls3, h2. split; [done|]. split; [exact Ho2|]. split; [|exact Hok3].
    intros a Ha. rewrite Hls3 by done. apply Hls2. rewrite not_elem_of_cons in Ha. by destruct Ha.
  - exists false, ht1, ls, h2. split_and!; try done.
    intros Hpl. apply Hp. intros m sz. rewrite Horc. apply Hpl.
Qed.

(** C39. Adding to the hash table inserts into a set: on a well-formed table of the
    entries [es], adding an entry [e] that is not among them makes it a
    well-formed table of [e :: es], growing the array when the load factor asks
    for it; when memory runs out the table still holds [es].  No link of an entry
    outside the table changes, and exactly the array is owned. *)
Theorem hashmap_add_inserts ls ht es e h bs fr :
  ht_ok ls ht es -> e ∉ es -> is_Some (ls !! e) -> ht_size ht < 2 ^ 60 -> owns h (ht_blocks ht ++ bs) fr ->
  exists r ht' ls' h', hashmap_add hash (Some ht) ls e h = Ok ((r, Some ht', ls'), h')
    /\ owns h' (ht_blocks ht' ++ bs) fr /\ (forall a, a ∉ e :: es -> ls' !! a = ls !! a)
    /\ if r then ht_ok ls' ht' (e :: es) else ht_ok ls' ht' es /\ ~ plenty h.
Proof.
  intros Hok Hni Hin Hmax Ho.
  destruct (add_entry_spec ls ht es e h bs fr Hok Hni Hin Hmax Ho) as (r & ht' & ls' & h' & E & Hrest).
  exists r, ht', ls', h'. split; [|done]. unfold hashmap_add. by erewrite abind_ok by exact E.
Qed.

(** ** Traversal and lookup *)

Lemma walk_spec ls l : forall fuel p, chain ls p l -> (length l < fuel)%nat -> walk fuel ls p = Ok l.
Proof.
  induction l as [|a l IH]; intros fuel p Hc Hf; (destruct fuel as [|fuel]; [cbn in Hf; lia|]).
  - by rewrite Hc.
  - destruct Hc as [-> (n & Hn & Hc)]. cbn [walk]. rewrite Hn, (IH fuel n Hc) by (cbn in Hf; lia). done.
Qed.

Lemma walk_all_spec ls cs : forall array i,
  Forall2 (chain ls) (drop i array) cs -> NoDup (concat cs) -> walk_all (length cs) array ls i = Ok (concat cs).
Proof.
  induction cs as [|l cs IH]; intros array i Hc Hnd; [done|].
  apply Forall2_cons_inv_r in Hc as (p & rest & Hp & Hc & Ed). cbn [length walk_all].
  assert (Ei : array !! i = Some p) by (rewrite <- (Nat.add_0_r i), <- lookup_drop, Ed; done).
  assert (Er : rest = drop (S i) array).
  { replace (S i) with (i + 1)%nat by lia. rewrite <- drop_drop, Ed. done. }
  cbn in Hnd. apply NoDup_app in Hnd as (Hndl & _ & Hnd). pose proof (chain_length ls p l Hp Hndl).
  rewrite Ei, (walk_spec ls l) by (done || lia). rewrite (IH array (S i)); [done|by rewrite <- Er|done].
Qed.

(** [hashtable_foreach] terminates and visits every entry of the table exactly once. *)
Theorem foreach_visits_all ls ht es :
  ht_ok ls ht es -> exists visited, hashtable_foreach (Some ht) ls = Ok visited /\ visited ≡ₚ es.
Proof.
  intros [(cs & Hc & Hp & _) Hnd _ Harr _ _]. exists (concat cs). split; [|by rewrite Hp].
  cbn. replace (Z.to_nat (ht_size ht)) with (length cs)
    by (apply Forall2_length in Hc; unfold zlen in Harr; lia).
  apply walk_all_spec; [done|]. by rewrite <- Hp.
Qed.

Lemma concat_bucket (cs : list (list nat)) a : a ∈ concat cs -> exists i c, cs !! i = Some c /\ a ∈ c.
Proof.
  induction cs as [|d cs IH]; intros Ha; [by apply elem_of_nil in Ha|]. cbn in Ha.
  apply elem_of_app in Ha as [Ha|Ha]; [by exists 0%nat, d|]. destruct (IH Ha) as (i & c & Hi & Hc). by exists (S i), c.
Qed.

Lemma concat_nodup (cs : list (list nat)) i c : NoDup (concat cs) -> cs !! i = Some c -> NoDup c.
Proof.
  revert i; induction cs as [|d cs IH]; intros [|i] Hnd Hi; [done..| |]; cbn in *;
    apply NoDup_app in Hnd as (H1 & _ & H2).
  - by injection Hi as <-.
  - by eapply IH.
Qed.

(** The bucket of an index holds exactly the entries with that hash. *)
Lemma bucket_spec ls ht es cs idx :
  Forall2 (chain ls) (ht_array ht) cs -> es ≡ₚ concat cs -> placed hash (ht_size ht) cs -> NoDup es ->
  zlen (ht_array ht) = ht_size ht -> 0 <= idx < ht_size ht ->
  exists p c, ht_array ht !! Z.to_nat idx = Some p /\ cs !! Z.to_nat idx = Some c /\ chain ls p c /\ NoDup c
    /\ (length c < S (size ls))%nat /\ forall a, a ∈ c <-> a ∈ es /\ hash a (ht_size ht) = idx.
Proof.
  intros Hc Hp Hpl Hnd Harr Hi.
  destruct (lookup_lt_is_Some_2 (ht_array ht) (Z.to_nat idx) ltac:(unfold zlen in Harr; lia)) as [p Ep].
  destruct (Forall2_lookup_l _ _ _ _ _ Hc Ep) as (c & Ec & Hch).
  assert (Hndc : NoDup c) by (eapply concat_nodup; [|exact Ec]; by rewrite <- Hp).
  exists p, c. split_and!; try done.
  - pose proof (chain_length ls p c Hch Hndc). lia.
  - intros a. split.
    + intros Ha. split; [rewrite Hp; by eapply elem_of_concat_lookup|]. rewrite (Hpl _ _ _ Ec Ha). lia.
    + intros [Ha Hh]. rewrite Hp in Ha. apply concat_bucket in Ha as (j & d & Hj & Ha).
      rewrite (Hpl _ _ _ Hj Ha) in Hh. subst idx. rewrite Nat2Z.id in Ec. congruence.
Qed.

Section Find.
Context {V : Type} (hash_value : V -> Z -> Z) (equals : nat -> V -> bool).
(** Equal things have equal hashes. *)
Context (hash_agrees : forall a v n, equals a v = true -> hash_value v n = hash a n).
Context (hash_value_range : forall v n, 0 < n -> 0 <= hash_value v n < n).

Lemma find_in_spec ls v l : forall fuel p, chain ls p l -> (length l < fuel)%nat ->
  exists r, find_in equals fuel ls p v = Ok r /\
    match r with
    | Some a => a ∈ l /\ equals a v = true
    | None => forall a, a ∈ l -> equals a v = false
    end.
Proof.
  induction l as [|a l IH]; intros fuel p Hc Hf; (destruct fuel as [|fuel]; [cbn in Hf; lia|]).
  { rewrite Hc. exists None. split; [done|]. intros b Hb. by apply elem_of_nil in Hb. }
  destruct Hc as [-> (n & Hn & Hc)]. cbn [find_in]. destruct (equals a v) eqn:Ea.
  { exists (Some a). split; [done|]. split; [by left|done]. }
  rewrite Hn. destruct (IH fuel n Hc ltac:(cbn in Hf; lia)) as (r & E & Hr). exists r. split; [done|].
  destruct r as [b|]; [destruct Hr; split; [by right|done]|].
  intros b [->|Hb]%elem_of_cons; [done|by apply Hr].
Qed.

(** Looking up in the hash table decides membership: the search in one bucket
    returns an entry of the table that equals the value, and NULL exactly when no
    entry of the whole table does. *)
Theorem hashtable_find_correct ls ht es v :
  ht_ok ls ht es ->
  exists r, hashtable_find hash_value equals (Some ht) ls v = Ok r /\
    match r with
    | Some a => a ∈ es /\ equals a v = true
    | None => forall a, a ∈ es -> equals a v = false
    end.
Proof.
  intros Hok. pose proof Hok as [(cs & Hc & Hp & Hpl) Hnd _ Harr Hsize _]. unfold hashtable_find.
  destruct (Z.eqb_spec (ht_size ht) 0) as [Ez|Ez].
  { exists None. split; [done|]. destruct (ht_block ht) eqn:Hb; [lia|].
    pose proof (no_array_empty ls ht es Hok Hb) as ->. intros a Ha. by apply elem_of_nil in Ha. }
  assert (Hpos : 0 < ht_size ht) by (destruct (ht_block ht); lia).
  pose proof (hash_value_range v (ht_size ht) Hpos) as Hr. set (idx := hash_value v (ht_size ht)) in *.
  destruct (Z.leb_spec 0 idx), (Z.ltb_spec idx (ht_size ht)); [|lia..]. cbn [andb].
  destruct (bucket_spec ls ht es cs idx Hc Hp Hpl Hnd Harr Hr) as (p & c & Ep & Ec & Hch & _ & Hlen & Hin). rewrite Ep.
  destruct (find_in_spec ls v c (S (size ls)) p Hch Hlen) as (r & E & Hres). exists r. split; [exact E|].
  destruct r as [a|]; [destruct Hres as [Ha He]; split; [by apply Hin in Ha as [? _]|done]|].
  intros a Ha. destruct (equals a v) eqn:Ea; [|done]. rewrite <- Ea. apply Hres, Hin. split; [done|].
  symmetry. by apply hash_agrees.
Qed.
End Find.

(** ** Removal *)

Lemma find_before_absent ls entry l : forall fuel p,
  chain ls p l -> (length l < fuel)%nat -> entry ∉ l -> find_before fuel ls p entry = Ok None.
Proof.
  induction l as [|a l IH]; intros fuel p Hc Hf Hni; (destruct fuel as [|fuel]; [cbn in Hf; lia|]).
  { by rewrite Hc. }
  destruct Hc as [-> (n & Hn & Hc)]. cbn [find_before]. rewrite Hn. rewrite not_elem_of_cons in Hni.
  destruct Hni as [_ Hni]. rewrite bool_decide_false.
  - apply (IH fuel n Hc); [cbn in Hf; lia|done].
  - intros ->. destruct l; [done|]. destruct Hc as [E _]. injection E as <-. apply Hni. by left.
Qed.

(** [entry] is behind the first element. *)
Lemma find_before_present ls entry l1 : forall fuel a l2,
  chain ls (Some a) (a :: l1 ++ entry :: l2) -> (length l1 + 2 <= fuel)%nat -> entry ∉ l1 ->
  exists b pre, find_before fuel ls (Some a) entry = Ok (Some b) /\ a :: l1 = pre ++ [b].
Proof.
  induction l1 as [|c l1 IH]; intros fuel a l2 [_ (n & Hn & Hc)] Hf Hni;
    (destruct fuel as [|fuel]; [cbn in Hf; lia|]); cbn [find_before]; rewrite Hn; cbn in Hc.
  - destruct Hc as [-> _]. rewrite bool_decide_true by done. by exists a, [].
  - pose proof Hc as [-> _]. rewrite not_elem_of_cons in Hni. destruct Hni as [Hne Hni].
    rewrite bool_decide_false by congruence.
    destruct (IH fuel c l2 Hc ltac:(cbn in Hf; lia) Hni) as (b & pre & E & Epre).
    exists b, (a :: pre). split; [exact E|]. cbn. by rewrite Epre.
Qed.

(** Cutting an entry out of a list. *)
Lemma chain_cut ls pre b entry l2 n p :
  chain ls p (pre ++ b :: entry :: l2) -> NoDup (pre ++ b :: entry :: l2) -> ls !! entry = Some n ->
  chain (<[b := n]> ls) p (pre ++ b :: l2).
Proof.
  revert p; induction pre as [|a pre IH]; intros p Hc Hnd Hn.
  - destruct Hc as [-> (x & Hx & Hc)]. destruct Hc as [_ (y & Hy & Hc)]. split; [done|].
    exists n. rewrite lookup_insert_eq. split; [done|]. cbn in Hnd. apply NoDup_cons in Hnd as [Hb _].
    apply chain_insert; [|congruence]. intros Hin. apply Hb. by right.
  - destruct Hc as [-> (x & Hx & Hc)]. cbn in Hnd. apply NoDup_cons in Hnd as [Ha Hnd]. split; [done|].
    exists x. split; [|by apply IH]. rewrite lookup_insert_ne; [done|]. intros ->. apply Ha.
    apply elem_of_app. right. by left.
Qed.

(** A link in one bucket changes; the other buckets do not contain it. *)
Lemma chains_update array ls cs n idx c c' b x p :
  Forall2 (chain ls) array cs -> placed hash n cs -> cs !! idx = Some c -> b ∈ c -> array !! idx = Some p ->
  chain (<[b := x]> ls) p c' -> Forall2 (chain (<[b := x]> ls)) array (<[idx := c']> cs).
Proof.
  intros Hc Hpl Ec Hb Ep Hch. apply Forall2_same_length_lookup. split.
  { rewrite length_insert. by eapply Forall2_length. }
  intros j q d Hq Hd. destruct (decide (idx = j)) as [<-|Hij].
  - rewrite list_lookup_insert_eq in Hd by (by eapply lookup_lt_Some). congruence.
  - rewrite list_lookup_insert_ne in Hd by done. apply chain_insert; [|by eapply Forall2_lookup_lr].
    intros Hin. apply Hij. pose proof (Hpl _ _ _ Ec Hb). pose proof (Hpl _ _ _ Hd Hin). lia.
Qed.

Lemma unlink_spec array ls cs n idx c entry :
  Forall2 (chain ls) array cs -> placed hash n cs -> NoDup c -> cs !! idx = Some c -> entry ∈ c ->
  exists array' ls' l1 l2, c = l1 ++ entry :: l2 /\ unlink array ls idx entry = Ok (Some (array', ls'))
    /\ Forall2 (chain ls') array' (<[idx := l1 ++ l2]> cs) /\ zlen array' = zlen array
    /\ forall a, a ∉ c -> ls' !! a = ls !! a.
Proof.
  intros Hc Hpl Hnd Ec Hin. destruct (Forall2_lookup_r _ _ _ _ _ Hc Ec) as (p & Ep & Hch).
  apply list_elem_of_split in Hin as (l1 & l2 & ->). unfold unlink. rewrite Ep.
  destruct (chain_in_store ls p _ entry Hch) as [n' En]; [apply elem_of_app; right; by left|]. rewrite En.
  destruct l1 as [|a l1]; cbn in Hch; destruct Hch as [-> (x & Hx & Hch)].
  - rewrite bool_decide_true by done. exists (<[idx := n']> array), ls, [], l2. split_and!; try done.
    + apply Forall2_insert; [done|]. cbn. congruence.
    + unfold zlen. by rewrite length_insert.
  - pose proof Hnd as Hnd'. cbn in Hnd'. apply NoDup_cons in Hnd' as [Ha Hnd1].
    apply NoDup_app in Hnd1 as (_ & Hdisj & _).
    assert (He1 : entry ∉ l1) by (intros Hin; apply (Hdisj entry Hin); by left).
    rewrite bool_decide_false by (intros [= ->]; apply Ha, elem_of_app; right; by left).
    assert (Hlen : (length (a :: l1 ++ entry :: l2) <= size ls)%nat).
    { apply (chain_length ls (Some a)); [|done]. split; [done|by exists x]. }
    destruct (find_before_present ls entry l1 (S (size ls)) a l2) as (b & pre & E & Epre);
      [split; [done|by exists x]|cbn in Hlen; rewrite length_app in Hlen; cbn in Hlen; lia|done|].
    rewrite E. exists array, (<[b := n']> ls), (a :: l1), l2.
    assert (Esplit : (a :: l1) ++ entry :: l2 = pre ++ b :: entry :: l2) by (rewrite Epre, <- app_assoc; done).
    assert (Hbc : b ∈ (a :: l1) ++ entry :: l2) by (rewrite Esplit; apply elem_of_app; right; by left).
    split_and!; try done.
    + apply (chains_update array ls cs n idx ((a :: l1) ++ entry :: l2) _ b n' (Some a)); try done.
      rewrite Epre, <- app_assoc. apply (chain_cut ls pre b entry l2 n'); [|by rewrite <- Esplit|done].
      rewrite <- Esplit. split; [done|by exists x].
    + intros a' Ha'. apply lookup_insert_ne. by intros ->.
Qed.

Lemma shrink_spec ls ht es h bs fr :
  ht_ok ls ht es -> owns h (ht_blocks ht ++ bs) fr ->
  exists ht' ls' h', hashtable_maybe_shrink hash ht ls h = Ok ((ht', ls'), h') /\ ht_ok ls' ht' es
    /\ (forall a, a ∉ es -> ls' !! a = ls !! a) /\ owns h' (ht_blocks ht' ++ bs) fr.
Proof.
  intros Hok Ho. pose proof Hok as [_ _ Hcount _ Hsize _]. unfold hashtable_maybe_shrink, MIN_SIZE.
  destruct ((16 <? ht_size ht) && (ht_count ht <? wrap 64 (ht_size ht * 1) / 4)) eqn:Eg; [|by exists ht, ls, h].
  apply andb_prop in Eg as [H16 Hlt]. destruct (ht_block ht); [|lia]. rewrite wrap_small, Hcount in Hlt by lia.
  pose proof (Z.div_mod (ht_size ht) 2 ltac:(lia)). pose proof (Z.mod_pos_bound (ht_size ht) 2 ltac:(lia)).
  pose proof (Z.div_mod (ht_size ht * 1) 4 ltac:(lia)). pose proof (Z.mod_pos_bound (ht_size ht * 1) 4 ltac:(lia)).
  pose proof (Z.div_mod (ht_size ht / 2 * 3) 5 ltac:(lia)). pose proof (Z.mod_pos_bound (ht_size ht / 2 * 3) 5 ltac:(lia)).
  destruct (rehash_spec ls ht es (ht_size ht / 2) h bs fr Hok ltac:(lia) ltac:(lia) Ho)
    as [(ht' & ls' & h' & E & Hok' & _ & Hls & _ & _ & Ho')|(h' & E & Ho' & _)]; erewrite abind_ok by exact E.
  - by exists ht', ls', h'.
  - by exists ht, ls, h'.
Qed.

(** The table after an entry was cut out of its bucket. *)
Lemma unlinked_ok ls ls' ht es cs array i l1 entry l2 :
  ht_ok ls ht es -> es ≡ₚ concat cs -> placed hash (ht_size ht) cs -> cs !! i = Some (l1 ++ entry :: l2) ->
  Forall2 (chain ls') array (<[i := l1 ++ l2]> cs) -> zlen array = zlen (ht_array ht) ->
  exists es', es ≡ₚ entry :: es'
    /\ ht_ok ls' (HT (ht_block ht) array (ht_size ht) (wrap 64 (ht_count ht - 1))) es'.
Proof.
  intros [_ Hnd Hcount Harr Hsize Hload] Hp Hpl Ei Hc Hl.
  assert (Hperm : es ≡ₚ entry :: concat (<[i := l1 ++ l2]> cs)).
  { rewrite Hp. apply (Permutation_app_inv_r (l1 ++ l2)). rewrite <- (concat_insert cs i _ (l1 ++ l2) Ei).
    solve_Permutation. }
  exists (concat (<[i := l1 ++ l2]> cs)). split; [done|].
  assert (El : zlen es = zlen (concat (<[i := l1 ++ l2]> cs)) + 1).
  { unfold zlen. apply Permutation_length in Hperm. rewrite Hperm. cbn. lia. }
  pose proof (zlen_nonneg (concat (<[i := l1 ++ l2]> cs))).
  assert (Hb : zlen es < 2 ^ 64).
  { assert (ht_size ht * 3 / 5 <= ht_size ht) by (apply Z.div_le_upper_bound; destruct (ht_block ht); lia).
    destruct (ht_block ht); lia. }
  split; cbn; [|rewrite Hperm in Hnd; by apply NoDup_cons in Hnd as [_ ?]|..].
  - eexists. split; [done|]. split; [done|]. intros j d a Hj Ha. destruct (decide (i = j)) as [<-|Hij].
    + rewrite list_lookup_insert_eq in Hj by (by eapply lookup_lt_Some). injection Hj as <-.
      apply (Hpl i _ a Ei). apply elem_of_app. apply elem_of_app in Ha as [?|?]; [by left|right; by right].
    + rewrite list_lookup_insert_ne in Hj by done. by eapply Hpl.
  - rewrite Hcount, wrap_small by lia. lia.
  - lia.
  - done.
  - rewrite Hcount in *. rewrite wrap_small by lia. lia.
Qed.

(** Deleting from the hash table removes from a set: an entry of the table is
    taken out of it, whatever its place in the list of its bucket, and the array
    shrinks when it is sparse; deleting an entry that is not in the table changes
    nothing.  No link of an entry outside the table changes. *)
Theorem hashtable_delete_removes ls ht es entry h bs fr :
  ht_ok ls ht es -> owns h (ht_blocks ht ++ bs) fr ->
  if bool_decide (entry ∈ es) then
    exists es' ht' ls' h', es ≡ₚ entry :: es'
      /\ hashtable_delete hash (Some ht) ls (Some entry) h = Ok ((Some ht', ls'), h')
      /\ ht_ok ls' ht' es' /\ owns h' (ht_blocks ht' ++ bs) fr /\ (forall a, a ∉ es -> ls' !! a = ls !! a)
  else hashtable_delete hash (Some ht) ls (Some entry) h = Ok ((Some ht, ls), h).
Proof.
  intros Hok Ho. pose proof Hok as [(cs & Hc & Hp & Hpl) Hnd Hcount Harr Hsize Hload].
  unfold hashtable_delete, delete_entry. destruct (Z.eqb_spec (ht_size ht) 0) as [Ez|Ez].
  { destruct (ht_block ht) eqn:Hb; [lia|]. pose proof (no_array_empty ls ht es Hok Hb) as ->.
    rewrite bool_decide_false by apply not_elem_of_nil. done. }
  assert (Hpos : 0 < ht_size ht) by (destruct (ht_block ht); lia).
  pose proof (hash_range entry (ht_size ht) Hpos) as Hr. set (idx := hash entry (ht_size ht)) in *.
  destruct (Z.leb_spec 0 idx), (Z.ltb_spec idx (ht_size ht)); [|lia..]. cbn [andb].
  destruct (bucket_spec ls ht es cs idx Hc Hp Hpl Hnd Harr Hr) as (p & c & Ep & Ec & Hch & Hndc & Hlen & Hin).
  case_bool_decide as Hent.
  - destruct (unlink_spec (ht_array ht) ls cs (ht_size ht) (Z.to_nat idx) c entry Hc Hpl Hndc Ec)
      as (array & ls1 & l1 & l2 & -> & E & Hc1 & Hl1 & Hls1); [by apply Hin|].
    destruct (unlinked_ok ls ls1 ht es cs array (Z.to_nat idx) l1 entry l2 Hok Hp Hpl Ec Hc1 Hl1) as (es' & Hperm & Hok1).
    destruct (shrink_spec ls1 _ es' h bs fr Hok1 Ho) as (ht' & ls' & h' & E' & Hok' & Hls' & Ho').
    exists es', ht', ls', h'. split; [done|]. split; [|split; [done|split; [done|]]].
    + assert (El : lift (unlink (ht_array ht) ls (Z.to_nat idx) entry) h = Ok (Some (array, ls1), h))
        by (unfold lift; by rewrite E).
      erewrite abind_ok; [|erewrite abind_ok by exact El; exact E']. done.
    + intros a Ha. rewrite Hls'.
      * apply Hls1. intros Hx. apply Ha. by apply Hin in Hx as [? _].
      * intros Hx. apply Ha. rewrite Hperm. by right.
  - assert (Hnc : entry ∉ c) by (intros Hx; apply Hent; by apply Hin in Hx as [? _]).
    assert (E : unlink (ht_array ht) ls (Z.to_nat idx) entry = Ok None).
    { unfold unlink. rewrite Ep. rewrite bool_decide_false.
      - by rewrite (find_before_absent ls entry c).
      - intros ->. destruct c; [done|]. destruct Hch as [E _]. injection E as <-. apply Hnc. by left. }
    unfold mbind, AM_bind, lift. by rewrite E.
Qed.
End Proofs.

(** ** Examples *)

Definition mod_hash (a : nat) (n : Z) : Z := Z.of_nat a mod n.

Lemma mod_hash_range a n : 0 < n -> 0 <= mod_hash a n < n.
Proof. intros Hn. by apply Z.mod_pos_bound. Qed.

(** [PMOS_HASHTABLE_INITIALIZER] *)
Definition empty_table : hashtable := HT None [] 0 0.

Lemma empty_table_ok ls : ht_ok mod_hash ls empty_table [].
Proof. split; try done; [|constructor]. exists []. split; [constructor|]. done. Qed.

(** Two entries in the same bucket. *)
Definition example_links : links := {[ 5%nat := Some 21%nat; 21%nat := None; 6%nat := None ]}.
Definition example_table : hashtable := HT (Some 0%nat) (<[5%nat := Some 5%nat]> (replicate 16 None)) 16 2.

Lemma example_table_ok : ht_ok mod_hash example_links example_table [5; 21]%nat.
Proof.
  split; cbn; try done; try lia.
  - exists (<[5%nat := [5; 21]%nat]> (replicate 16 [])). split; [|split].
    + cbn. repeat (constructor; [done|]). constructor; [|repeat constructor]. cbn. split; [done|]. eexists.
      split; [reflexivity|]. split; [done|]. by eexists.
    + done.
    + intros i c a Hi Ha. do 16 (destruct i as [|i]; [cbn in Hi; injection Hi as <-; set_solver|]). done.
  - apply NoDup_cons. split; [set_solver|]. apply NoDup_cons. split; [set_solver|constructor].
Qed.

Definition example_heap : heap := Heap (fun _ _ => true) 1 [0%nat].

Lemma hashmap_add_inserts_witness :
  exists r ht' ls' h', hashmap_add mod_hash (Some example_table) example_links 6 example_heap = Ok ((r, Some ht', ls'), h')
    /\ owns h' (ht_blocks ht' ++ []) [] /\ (forall a, a ∉ [6; 5; 21]%nat -> ls' !! a = example_links !! a)
    /\ if r then ht_ok mod_hash ls' ht' [6; 5; 21]%nat
       else ht_ok mod_hash ls' ht' [5; 21]%nat /\ ~ plenty example_heap.
Proof.
  apply (hashmap_add_inserts mod_hash mod_hash_range).
  - apply example_table_ok.
  - set_solver.
  - by eexists.
  - done.
  - unfold owns. reflexivity.
Defined.

Lemma foreach_visits_all_witness :
  exists visited, hashtable_foreach (Some example_table) example_links = Ok visited /\ visited ≡ₚ [5; 21]%nat.
Proof. apply (foreach_visits_all mod_hash). apply example_table_ok. Defined.

Lemma hashtable_find_correct_witness :
  exists r, hashtable_find mod_hash (fun a v => bool_decide (a = v)) (Some example_table) example_links 21%nat = Ok r /\
    match r with
    | Some a => a ∈ [5; 21]%nat /\ bool_decide (a = 21%nat) = true
    | None => forall a, a ∈ [5; 21]%nat -> bool_decide (a = 21%nat) = false
    end.
Proof.
  apply (hashtable_find_correct mod_hash mod_hash (fun a v => bool_decide (a = v))).
  - intros a v n E%bool_decide_eq_true_1. by subst.
  - apply mod_hash_range.
  - apply example_table_ok.
Defined.

Lemma hashtable_delete_removes_witness :
  exists es' ht' ls' h', [5; 21]%nat ≡ₚ 21%nat :: es'
    /\ hashtable_delete mod_hash (Some example_table) example_links (Some 21%nat) example_heap = Ok ((Some ht', ls'), h')
    /\ ht_ok mod_hash ls' ht' es' /\ owns h' (ht_blocks ht' ++ []) []
    /\ (forall a, a ∉ [5; 21]%nat -> ls' !! a = example_links !! a).
Proof.
  apply (hashtable_delete_removes mod_hash mod_hash_range example_links example_table [5; 21]%nat 21 example_heap [] []).
  - apply example_table_ok.
  - unfold owns. reflexivity.
Defined.
