(* ===== verification/Mutex.v ===== *)
(** * libc/src/generic/pthread.h/pthread_mutex.c: mutexes between threads

    The mutex as a transition system: every thread runs the code of
    [pthread_mutex_lock], [pthread_mutex_trylock] and [pthread_mutex_unlock] (with
    the lock-free list of waiters of waiter_struct.c), one access to shared memory
    or one system call per step, in any interleaving and with sequentially
    consistent memory.  A step is a function of the thread and of a choice, which
    decides calls, spurious failures of the weak compare-and-exchange and failures
    of system calls, so that schedules can be evaluated.  The waiter structure of a
    thread is named by the thread; counters are unbounded.  The recursion count,
    which only the owner touches, is read and changed with the test of the owner. *)

From stdpp Require Import base list numbers gmap sorting.
From S2P Require Import Prelude.

(** ** The program *)

Definition upd {A} (f : nat -> A) (t : nat) (x : A) : nat -> A := fun u => if decide (u = t) then x else f u.

(** Where a thread is; [own] says that it holds the mutex already. *)
Inductive pc :=
| Idle                                  (** outside, not holding the mutex *)
| Held                                  (** outside, holding the mutex *)
| LLoad (own : bool)                    (** lock: load [blocking_thread] *)
| LAdd                                  (** lock: increment [block_count] *)
| LStore                                (** acquired: store [blocking_thread] *)
| LInit                                 (** lock: prepare the waiter structure, clear its link *)
| LFail                                 (** lock: that failed, decrement [block_count] *)
| LExch                                 (** add_waiter: exchange the tail *)
| LLink (old : option nat)              (** add_waiter: store the head or the link of the old tail *)
| LWait                                 (** lock: wait for a message *)
| PAssert                               (** pop_front: assert that there is a head *)
| PLoad                                 (** pop_front: load the head *)
| PClear (w : option nat)               (** pop_front: store NULL in the head *)
| PTail (w : option nat)                (** pop_front: load the tail *)
| PCas (w : option nat)                 (** pop_front: exchange the tail for NULL *)
| PNext (w : option nat)                (** pop_front: load the link of the waiter *)
| PSet (n : nat)                        (** pop_front: exchange a NULL head for the next waiter *)
| Crashed                               (** a NULL waiter was used, or an assertion failed *)
| LTake                                 (** lock: take the message *)
| TLoad (own : bool)                    (** trylock: load [blocking_thread] *)
| TCas                                  (** trylock: exchange a zero [block_count] for 1 *)
| ULoad (own : bool)                    (** unlock: load [blocking_thread] *)
| UStore                                (** unlock: store NULL in [blocking_thread] *)
| USub                                  (** unlock: decrement [block_count] *)
| UHead (c : Z)                         (** unlock: load the head *)
| UReload                               (** unlock: load the head again *)
| UCount (h : option nat)               (** unlock: load [block_count] again *)
| USend (h : nat)                       (** unlock: send to the first waiter *)
| UFail.                                (** unlock: that failed, increment [block_count] *)

(** [pthread_mutex_t]; [recursive] is the test of its type. *)
Record mutex := Mutex {
  blocking_thread : option nat;
  block_count : Z;
  recursive_lock_count : Z;
  waiters_list_head : option nat;
  waiters_list_tail : option nat;
  recursive : bool
}.

(** The mutex, the threads, their waiter structures and their ports. *)
Record state := State {
  mx : mutex;
  pcs : nat -> pc;
  next : nat -> option nat;
  inited : nat -> bool;
  msgs : nat -> nat;
  result : nat -> Z
}.

Inductive choice := Go | CallLock | CallTrylock | CallUnlock | InitFails | SendFails | Spurious.

Definition EDEADLK : Z := 19.
Definition EBUSY : Z := 13.
Definition EPERM : Z := 70.
Definition EFAILED : Z := -1.

Definition set_blocking (b : option nat) (m : mutex) : mutex :=
  Mutex b (block_count m) (recursive_lock_count m) (waiters_list_head m) (waiters_list_tail m) (recursive m).
Definition set_count (c : Z) (m : mutex) : mutex :=
  Mutex (blocking_thread m) c (recursive_lock_count m) (waiters_list_head m) (waiters_list_tail m) (recursive m).
Definition set_recursive (r : Z) (m : mutex) : mutex :=
  Mutex (blocking_thread m) (block_count m) r (waiters_list_head m) (waiters_list_tail m) (recursive m).
Definition set_head (h : option nat) (m : mutex) : mutex :=
  Mutex (blocking_thread m) (block_count m) (recursive_lock_count m) h (waiters_list_tail m) (recursive m).
Definition set_tail (t : option nat) (m : mutex) : mutex :=
  Mutex (blocking_thread m) (block_count m) (recursive_lock_count m) (waiters_list_head m) t (recursive m).

Section Step.
Context (t : nat) (s : state).

Definition goto (p : pc) (m : mutex) : option state :=
  Some (State m (upd (pcs s) t p) (next s) (inited s) (msgs s) (result s)).

(** Return [r], 0 or an error, to a caller that holds the mutex or not. *)
Definition return_ (r : Z) (own : bool) (m : mutex) : option state :=
  Some (State m (upd (pcs s) t (if own then Held else Idle)) (next s) (inited s) (msgs s) (upd (result s) t r)).

(** The first test of lock and trylock. *)
Definition load_owner (own : bool) (else_ : pc) : option state :=
  let m := mx s in
  if bool_decide (blocking_thread m = Some t) then
    if recursive m then return_ 0 true (set_recursive (recursive_lock_count m + 1) m)
    else return_ EDEADLK own m
  else goto else_ m.

(** The test of the loop of unlock, on the loaded count and head, and what follows it. *)
Definition unlock_test (c : Z) (h : option nat) : option state :=
  if c =? 0 then return_ 0 false (mx s)
  else match h with None => goto UReload (mx s) | Some a => goto (USend a) (mx s) end.

(** [__atomic_add_waiter], whose first store to the private waiter is part of [LInit] *)
Definition add_waiter (c : choice) : option state :=
  let m := mx s in
  match pcs s t, c with
  | LExch, Go => goto (LLink (waiters_list_tail m)) (set_tail (Some t) m)
  | LLink None, Go => goto LWait (set_head (Some t) m)
  | LLink (Some a), Go =>
      Some (State m (upd (pcs s) t LWait) (upd (next s) a (Some t)) (inited s) (msgs s) (result s))
  | _, _ => None
  end.

Definition step_lock (c : choice) : option state :=
  let m := mx s in
  match pcs s t, c with
  | LLoad own, Go => load_owner own LAdd
  | LAdd, Go => goto (if block_count m =? 0 then LStore else LInit) (set_count (block_count m + 1) m)
  | LStore, Go => return_ 0 true (set_blocking (Some t) m)
  | LInit, Go => Some (State m (upd (pcs s) t LExch) (upd (next s) t None) (upd (inited s) t true) (msgs s) (result s))
  | LInit, InitFails => if inited s t then None else goto LFail m
  | LFail, Go => return_ EFAILED false (set_count (block_count m - 1) m)
  | LWait, Go =>
      if (0 <? msgs s t)%nat then goto PAssert m else None
  | LTake, Go =>
      if (0 <? msgs s t)%nat
      then Some (State m (upd (pcs s) t LStore) (next s) (inited s) (upd (msgs s) t (msgs s t - 1)%nat) (result s))
      else None
  | _, _ => None
  end.

Definition step_trylock (c : choice) : option state :=
  let m := mx s in
  match pcs s t, c with
  | TLoad own, Go => load_owner own TCas
  | TCas, Go => if block_count m =? 0 then goto LStore (set_count 1 m) else return_ EBUSY false m
  | _, _ => None
  end.

(** [atomic_pop_front] *)
Definition step_pop (c : choice) : option state :=
  let m := mx s in
  match pcs s t, c with
  | PAssert, Go => goto (match waiters_list_head m with None => Crashed | Some _ => PLoad end) m
  | PLoad, Go => goto (PClear (waiters_list_head m)) m
  | PClear w, Go => goto (PTail w) (set_head None m)
  | PTail w, Go => goto (if bool_decide (waiters_list_tail m = w) then PCas w else PNext w) m
  | PCas w, Go =>
      if bool_decide (waiters_list_tail m = w) then goto LTake (set_tail None m) else goto (PNext w) m
  | PCas w, Spurious => goto (PNext w) m
  | PNext None, Go => goto Crashed m
  | PNext (Some a), Go => goto (match next s a with None => PLoad | Some n => PSet n end) m
  | PSet n, Go =>
      match waiters_list_head m with None => goto LTake (set_head (Some n) m) | Some _ => goto PLoad m end
  | PSet n, Spurious => goto PLoad m
  | _, _ => None
  end.

Definition step_unlock (c : choice) : option state :=
  let m := mx s in
  match pcs s t, c with
  | ULoad own, Go =>
      if bool_decide (blocking_thread m = Some t) then
        if 0 <? recursive_lock_count m then return_ 0 true (set_recursive (recursive_lock_count m - 1) m)
        else goto UStore m
      else return_ EPERM own m
  | UStore, Go => goto USub (set_blocking None m)
  | USub, Go =>
      let c := block_count m - 1 in
      if c =? 0 then return_ 0 false (set_count c m) else goto (UHead c) (set_count c m)
  | UHead c, Go => unlock_test c (waiters_list_head m)
  | UReload, Go => goto (UCount (waiters_list_head m)) m
  | UCount h, Go => unlock_test (block_count m) h
  | USend a, Go =>
      Some (State m (upd (pcs s) t Idle) (next s) (inited s) (upd (msgs s) a (S (msgs s a))) (upd (result s) t 0))
  | USend a, SendFails => goto UFail m
  | UFail, Go => return_ EFAILED false (set_count (block_count m + 1) m)
  | _, _ => None
  end.

(** One step of thread [t]. *)
Definition step (c : choice) : option state :=
  match pcs s t, c with
  | Idle, CallLock => goto (LLoad false) (mx s)
  | Idle, CallTrylock => goto (TLoad false) (mx s)
  | Idle, CallUnlock => goto (ULoad false) (mx s)
  | Held, CallLock => goto (LLoad true) (mx s)
  | Held, CallTrylock => goto (TLoad true) (mx s)
  | Held, CallUnlock => goto (ULoad true) (mx s)
  | (Idle | Held), _ => None
  | (LExch | LLink _), _ => add_waiter c
  | (TLoad _ | TCas), _ => step_trylock c
  | (PAssert | PLoad | PClear _ | PTail _ | PCas _ | PNext _ | PSet _), _ => step_pop c
  | (ULoad _ | UStore | USub | UHead _ | UReload | UCount _ | USend _ | UFail), _ => step_unlock c
  | _, _ => step_lock c
  end.
End Step.

(** [pthread_mutex_init] with a type that it accepts *)
Definition pthread_mutex_init (rec : bool) : mutex := Mutex None 0 0 None None rec.

Definition initial (rec : bool) : state :=
  State (pthread_mutex_init rec) (fun _ => Idle) (fun _ => None) (fun _ => false) (fun _ => 0%nat) (fun _ => 0).

(** The states that schedules with the [allowed] choices lead to. *)
Inductive reachable (allowed : choice -> Prop) (rec : bool) : state -> Prop :=
| ReachInit : reachable allowed rec (initial rec)
| ReachStep s t c s' : reachable allowed rec s -> allowed c -> step t s c = Some s' -> reachable allowed rec s'.

(** Evaluate a schedule. *)
Fixpoint run (l : list (nat * choice)) (s : state) : option state :=
  match l with
  | [] => Some s
  | (t, c) :: l => s' ← step t s c; run l s'
  end.

(** The thread is between a lock that succeeded and the store that ends its ownership. *)
Definition holds (p : pc) : bool :=
  match p with Held | LLoad true | TLoad true | ULoad true => true | _ => false end.

(** ** The invariant *)

(** What a thread has to do with the mutex. *)
Inductive kind :=
| KFree        (** nothing *)
| KOwn         (** it owns the mutex *)
| KWait        (** counted in [block_count], not yet in the list of waiters *)
| KQueued      (** in the list of waiters *)
| KPop         (** in the list, having seen its message *)
| KTake        (** out of the list again, its message not yet taken *)
| KHand.       (** it gave the mutex up and has to hand it over *)

Definition kind_of (p : pc) : kind :=
  match p with
  | Idle | LLoad false | LAdd | TLoad false | TCas | ULoad false | UFail => KFree
  | Held | LLoad true | TLoad true | ULoad true | LStore | UStore | USub => KOwn
  | LInit | LFail | LExch => KWait
  | LLink _ | LWait => KQueued
  | PAssert | PLoad | PClear _ | PTail _ | PCas _ | PNext _ | PSet _ | Crashed => KPop
  | LTake => KTake
  | UHead _ | UReload | UCount _ | USend _ => KHand
  end.

Definition counted (k : kind) : bool := match k with KWait | KQueued | KPop | KTake => true | _ => false end.
Definition listed (k : kind) : bool := match k with KQueued | KPop => true | _ => false end.
Definition popping (k : kind) : bool := match k with KPop | KTake => true | _ => false end.

(** [blocking_thread] is this thread. *)
Definition recorded (p : pc) : bool := match p with UStore => true | _ => holds p end.

(** Who may enter next: an owner, a thread that hands over, or the thread a
    message is waiting for. *)
Inductive token := Own (t : nat) | Hand (t : nat) | Message (t : nat).
#[global] Instance token_eq : EqDecision token.
Proof. solve_decision. Defined.

(** The links along the list of waiters [q]; a thread that has exchanged the tail
    but not stored its link yet is behind the thread it is going to store it in. *)
Fixpoint linked (s : state) (q : list nat) : Prop :=
  match q with
  | [] => True
  | a :: q' =>
      match q' with
      | [] => next s a = None
      | b :: _ => (next s a = Some b /\ pcs s b = LWait) \/ (next s a = None /\ pcs s b = LLink (Some a))
      end /\ linked s q'
  end.

(** The head of the list, by what its first thread is doing. *)
Definition head_ok (s : state) (q : list nat) : Prop :=
  let h := waiters_list_head (mx s) in
  match q with
  | [] => h = None
  | t :: _ =>
      match pcs s t with
      | LLink None => h = None
      | LWait | PAssert => h = Some t
      | PLoad => h = Some t \/ h = None
      | PClear w => h = w /\ (w = Some t \/ w = None)
      | PTail w | PNext w => h = None /\ (w = Some t \/ w = None)
      | PCas w => h = None /\ w = Some t
      | PSet n => h = None /\ next s t = Some n
      | Crashed => h = None
      | _ => False
      end
  end.

(** [q] is the list of waiters, [W] the threads counted as waiting, [tok] the one
    that may enter and [D] the number of hand-overs that failed. *)
Record inv (s : state) (q W : list nat) (tok : option token) (D : Z) : Prop := {
  i_waiting : NoDup W /\ forall t, t ∈ W <-> counted (kind_of (pcs s t)) = true;
  i_own : forall t, kind_of (pcs s t) = KOwn <-> tok = Some (Own t);
  i_hand : forall t, kind_of (pcs s t) = KHand <-> tok = Some (Hand t);
  i_msgs : forall t, msgs s t = if decide (tok = Some (Message t)) then 1%nat else 0%nat;
  i_popping : forall t, popping (kind_of (pcs s t)) = true -> tok = Some (Message t);
  i_message : forall t, tok = Some (Message t) ->
      popping (kind_of (pcs s t)) = true \/ (pcs s t = LWait /\ exists q', q = t :: q');
  i_heir : forall t, tok = Some (Hand t) -> W <> [];
  i_count : 0 <= D /\ block_count (mx s) = zlen W + (match tok with Some (Own _) => 1 | _ => 0 end) + D;
  i_blocking : forall t, blocking_thread (mx s) = Some t <-> recorded (pcs s t) = true;
  i_listed : NoDup q /\ forall t, t ∈ q <-> listed (kind_of (pcs s t)) = true;
  i_tail : waiters_list_tail (mx s) = list.last q;
  i_head : head_ok s q;
  i_links : linked s q;
  i_exch : forall t, pcs s t = LExch -> next s t = None;
  i_fail : forall t, pcs s t <> LFail;
  i_dead : 0 < D -> tok = None;
  i_ufail : forall t, pcs s t = UFail -> tok = None /\ W <> [];
  i_uhead : forall t c, pcs s t = UHead c -> c <> 0;
  i_send : forall t a, pcs s t = USend a \/ pcs s t = UCount (Some a) -> waiters_list_head (mx s) = Some a
}.

Lemma upd_eq {A} (f : nat -> A) t x : upd f t x t = x.
Proof. unfold upd. by destruct (decide (t = t)). Qed.

Lemma upd_ne {A} (f : nat -> A) t u x : u <> t -> upd f t x u = f u.
Proof. intros Hne. unfold upd. by destruct (decide (u = t)). Qed.

Lemma initial_inv rec : inv (initial rec) [] [] None 0.
Proof.
  split; cbn; try done; try (split; [constructor|]; intros t; split; [intros Ha; by apply elem_of_nil in Ha|done]).
  by intros t a [?|?].
Qed.

Lemma linked_cons s a b q :
  linked s (a :: b :: q) <->
  ((next s a = Some b /\ pcs s b = LWait) \/ (next s a = None /\ pcs s b = LLink (Some a))) /\ linked s (b :: q).
Proof. done. Qed.

(** Changes outside the list do not touch it. *)
Lemma linked_frame s s' q :
  (forall a, a ∈ q -> next s' a = next s a) -> (forall a, a ∈ tail q -> pcs s' a = pcs s a) ->
  linked s q -> linked s' q.
Proof.
  induction q as [|a q IH]; intros Hn Hp; [done|]. cbn [linked]. intros [Hab Hq]. split.
  - destruct q as [|b q]; [by rewrite Hn by left|]. rewrite (Hn a) by left. rewrite (Hp b) by left. done.
  - apply IH; [intros c Hc; apply Hn; by right| |done]. intros c Hc. apply Hp. cbn. destruct q; [done|by right].
Qed.

Lemma head_ok_frame s s' q :
  waiters_list_head (mx s') = waiters_list_head (mx s) ->
  (forall a, a ∈ q -> pcs s' a = pcs s a /\ next s' a = next s a) -> head_ok s q -> head_ok s' q.
Proof.
  intros Hh Hp. unfold head_ok. rewrite Hh. destruct q as [|t q]; [done|].
  destruct (Hp t) as [-> ->]; [by left|]. done.
Qed.
(** What the invariant sees of the mutex. *)
Definition same_mutex (m m' : mutex) : Prop :=
  blocking_thread m' = blocking_thread m /\ block_count m' = block_count m
  /\ waiters_list_head m' = waiters_list_head m /\ waiters_list_tail m' = waiters_list_tail m.

Ltac at_thread u t := destruct (decide (u = t)) as [->|?]; [rewrite ?upd_eq|rewrite ?upd_ne by done].

(** A thread outside the list moves on without changing its part. *)
Lemma inv_move s s' q W tok D t p :
  inv s q W tok D -> same_mutex (mx s) (mx s') -> pcs s' = upd (pcs s) t p -> msgs s' = msgs s ->
  (forall a, a <> t -> next s' a = next s a) ->
  kind_of p = kind_of (pcs s t) -> recorded p = recorded (pcs s t) -> listed (kind_of p) = false ->
  p <> LFail -> p <> UFail -> (forall c, p = UHead c -> c <> 0) -> (p = LExch -> next s' t = None) ->
  (forall a, p = USend a \/ p = UCount (Some a) -> waiters_list_head (mx s) = Some a) ->
  inv s' q W tok D.
Proof.
  intros [Hw Ho Hh Hm Hpop Hmsg Hheir Hc Hb Hl Ht Hhd Hlk He Hf Hd Huf Huh Hs] (E1 & E2 & E3 & E4) Ep Em En
    Hk Hr Hls HF HUF HUH HE HS.
  assert (Hkind : forall u, kind_of (pcs s' u) = kind_of (pcs s u)) by (intros u; rewrite Ep; by at_thread u t).
  assert (Hrec : forall u, recorded (pcs s' u) = recorded (pcs s u)) by (intros u; rewrite Ep; by at_thread u t).
  assert (Hq : forall a, a ∈ q -> a <> t).
  { intros a Ha ->. apply Hl in Ha. congruence. }
  split; rewrite ?E1, ?E2, ?E3, ?E4; try setoid_rewrite Hkind; try setoid_rewrite Hrec; rewrite ?Em; try done.
  - intros u Hu. destruct (Hmsg u Hu) as [?|[Hu1 Hu2]]; [by left|right]. split; [|done].
    rewrite Ep, upd_ne; [done|]. intros ->. destruct Hu2 as [q' ->]. apply (Hq t); [by left|done].
  - eapply head_ok_frame; [exact E3| |exact Hhd]. intros a Ha. split; [|by apply En, Hq].
    by rewrite Ep, upd_ne by (by apply Hq).
  - eapply linked_frame; [| |exact Hlk]; intros a Ha.
    + by apply En, Hq.
    + rewrite Ep, upd_ne; [done|]. apply Hq. by destruct q; [done|right].
  - intros u. rewrite Ep. at_thread u t; [done|]. rewrite En by done. apply He.
  - intros u. rewrite Ep. by at_thread u t.
  - intros u. rewrite Ep. at_thread u t; [done|apply Huf].
  - intros u c. rewrite Ep. at_thread u t; [apply HUH|apply Huh].
  - intros u a. rewrite Ep. at_thread u t; [apply HS|apply Hs].
Qed.

Lemma recorded_own p : recorded p = true -> kind_of p = KOwn.
Proof. by destruct p as [| | [] | | | | | | | | | | | | | | | | | [] | | [] | | | | | | | ]. Qed.

(** A thread changes its part: what has to be checked of the new state.  The
    token, if it changes hands, comes from this thread or goes to it. *)
Lemma inv_change s s' q W tok D t p q' W' tok' D' :
  inv s q W tok D -> pcs s' = upd (pcs s) t p ->
  (* the thread *)
  (kind_of p = KOwn <-> tok' = Some (Own t)) -> (kind_of p = KHand <-> tok' = Some (Hand t)) ->
  (popping (kind_of p) = true <-> tok' = Some (Message t)) ->
  msgs s' t = (if decide (tok' = Some (Message t)) then 1%nat else 0%nat) ->
  (blocking_thread (mx s') = Some t <-> recorded p = true) ->
  (p = LExch -> next s' t = None) -> p <> LFail -> (p = UFail -> tok' = None /\ W' <> []) ->
  (forall c, p = UHead c -> c <> 0) ->
  (forall a, p = USend a \/ p = UCount (Some a) -> waiters_list_head (mx s') = Some a) ->
  (* the other threads *)
  (forall u k, u <> t -> k = Own u \/ k = Hand u \/ k = Message u -> tok' = Some k <-> tok = Some k) ->
  (forall u, u <> t -> msgs s' u = msgs s u) ->
  (forall u, u <> t -> blocking_thread (mx s') = Some u <-> blocking_thread (mx s) = Some u) ->
  (forall u, u <> t -> pcs s u = LExch -> next s' u = next s u) ->
  (forall u a, tok' = Some (Hand u) -> u <> t -> waiters_list_head (mx s) = Some a ->
     waiters_list_head (mx s') = Some a) ->
  (forall u, u <> t -> pcs s u = UFail -> tok' = None /\ W' <> []) ->
  (forall u, tok' = Some (Message u) -> u <> t -> (exists k, q = u :: k) -> exists k, q' = u :: k) ->
  (* the counters and the list *)
  (NoDup W' /\ (forall u, u <> t -> u ∈ W' <-> u ∈ W) /\ (t ∈ W' <-> counted (kind_of p) = true)) ->
  (forall u, tok' = Some (Hand u) -> W' <> []) -> (0 < D' -> tok' = None) ->
  (0 <= D' /\ block_count (mx s') = zlen W' + (match tok' with Some (Own _) => 1 | _ => 0 end) + D') ->
  (NoDup q' /\ (forall u, u <> t -> u ∈ q' <-> u ∈ q) /\ (t ∈ q' <-> listed (kind_of p) = true)) ->
  waiters_list_tail (mx s') = list.last q' -> head_ok s' q' -> linked s' q' ->
  inv s' q' W' tok' D'.
Proof.
  intros [Hw Ho Hh Hm Hpop Hmsg Hheir Hc Hb Hl Ht Hhd Hlk He Hf Hd Huf Huh Hs] Ep
    To Th Tp Tm Tb Te Tf Tuf Tuh Ts Otok Om Ob Oe Oh Ouf Oq (Wn & Wo & Wt) Wh Wd HD (Qn & Qo & Qt) Etail Ehead Elink.
  assert (Otok' : forall u, u <> t -> (tok' = Some (Own u) <-> tok = Some (Own u))
    /\ (tok' = Some (Hand u) <-> tok = Some (Hand u)) /\ (tok' = Some (Message u) <-> tok = Some (Message u))).
  { intros u Hu. split; [|split]; apply (Otok u); tauto. }
  split; try done; try (split; [done|]).
  - intros u. rewrite Ep. at_thread u t; [done|]. rewrite Wo by done. apply Hw.
  - intros u. rewrite Ep. at_thread u t; [done|]. rewrite (proj1 (Otok' u ltac:(done))). apply Ho.
  - intros u. rewrite Ep. at_thread u t; [done|]. rewrite (proj1 (proj2 (Otok' u ltac:(done)))). apply Hh.
  - intros u. destruct (decide (u = t)) as [->|Hu]; [done|]. rewrite Om, Hm by done.
    pose proof (proj2 (proj2 (Otok' u Hu))) as Hiff.
    destruct (decide (tok = Some (Message u))), (decide (tok' = Some (Message u))); tauto.
  - intros u. rewrite Ep. at_thread u t; [by apply Tp|]. intros Hu. apply Otok', Hpop; done.
  - intros u Hu. rewrite Ep. destruct (decide (u = t)) as [->|Hne].
    + left. rewrite upd_eq. by apply Tp.
    + rewrite upd_ne by done. destruct (Hmsg u) as [?|[Hu1 Hu2]]; [by apply Otok'|by left|right].
      split; [done|]. by apply Oq.
  - intros u. rewrite Ep. at_thread u t; [done|]. rewrite Ob by done. apply Hb.
  - intros u. rewrite Ep. at_thread u t; [done|]. rewrite Qo by done. apply Hl.
  - intros u. rewrite Ep. at_thread u t; [done|]. intros Hu. rewrite Oe by done. by apply He.
  - intros u. rewrite Ep. by at_thread u t.
  - intros u. rewrite Ep. at_thread u t; [done|]. by apply Ouf.
  - intros u c. rewrite Ep. at_thread u t; [apply Tuh|apply Huh].
  - intros u a. rewrite Ep. at_thread u t; [apply Ts|]. intros Hu. pose proof (Hs u a Hu) as Hhead.
    assert (Hk : kind_of (pcs s u) = KHand) by (by destruct Hu as [-> | ->]).
    apply (Oh u); [|done..]. by apply Otok', Hh.
Qed.
Section Transitions.
Context (s : state) (q W : list nat) (tok : option token) (D : Z) (I : inv s q W tok D) (t : nat).

Lemma not_listed : listed (kind_of (pcs s t)) = false -> t ∉ q.
Proof. intros Hl Hin. apply (i_listed _ _ _ _ _ I) in Hin. congruence. Qed.

Lemma not_counted : counted (kind_of (pcs s t)) = false -> t ∉ W.
Proof. intros Hl Hin. apply (i_waiting _ _ _ _ _ I) in Hin. congruence. Qed.

Lemma list_frame s' p :
  t ∉ q -> pcs s' = upd (pcs s) t p -> waiters_list_head (mx s') = waiters_list_head (mx s) ->
  (forall a, a ∈ q -> next s' a = next s a) -> head_ok s' q /\ linked s' q.
Proof.
  intros Hni Ep Eh En. assert (Hp : forall a, a ∈ q -> pcs s' a = pcs s a).
  { intros a Ha. rewrite Ep. apply upd_ne. by intros ->. }
  split.
  - eapply head_ok_frame; [exact Eh| |apply I]. auto.
  - eapply linked_frame; [exact En| |apply I]. intros a Ha. apply Hp. destruct q; [done|by right].
Qed.

(** Nobody has anything to do with a mutex whose count is zero. *)
Lemma zero_count : block_count (mx s) = 0 -> tok = None /\ W = [] /\ D = 0 /\ forall u, pcs s u <> UFail.
Proof.
  intros Hz. destruct (i_count _ _ _ _ _ I) as [HD Hc]. pose proof (zlen_nonneg W).
  assert (HW : W = []) by (destruct W; [done|unfold zlen in Hc; cbn in Hc; destruct tok as [[]|]; lia]).
  split_and!.
  - destruct tok as [[u|u|u]|] eqn:Etok; [lia| | |done].
    + by destruct (i_heir _ _ _ _ _ I u).
    + exfalso. assert (Hin : u ∈ W); [|rewrite HW in Hin; by apply elem_of_nil in Hin].
      apply (i_waiting _ _ _ _ _ I). destruct (i_message _ _ _ _ _ I u eq_refl) as [Hp|[-> _]]; [|done].
      by destruct (kind_of (pcs s u)).
  - done.
  - destruct tok as [[]|]; lia.
  - intros u Hu. by destruct (i_ufail _ _ _ _ _ I u Hu).
Qed.

(** The token is where the thread's part says. *)
Lemma no_token : kind_of (pcs s t) = KFree \/ kind_of (pcs s t) = KWait ->
  tok <> Some (Own t) /\ tok <> Some (Hand t) /\ tok <> Some (Message t).
Proof.
  intros Hk. split_and!; intros E.
  - apply (i_own _ _ _ _ _ I) in E. destruct Hk; congruence.
  - apply (i_hand _ _ _ _ _ I) in E. destruct Hk; congruence.
  - destruct (i_message _ _ _ _ _ I t E) as [Hp|[Hp _]]; [destruct Hk as [Hk|Hk]; by rewrite Hk in Hp|].
    rewrite Hp in Hk. by destruct Hk.
Qed.

Lemma no_message : tok <> Some (Message t) -> msgs s t = 0%nat.
Proof. intros Ht. rewrite (i_msgs _ _ _ _ _ I). by destruct (decide (tok = Some (Message t))). Qed.

Lemma keep_waiting p :
  counted (kind_of p) = counted (kind_of (pcs s t)) ->
  NoDup W /\ (forall u, u <> t -> u ∈ W <-> u ∈ W) /\ (t ∈ W <-> counted (kind_of p) = true).
Proof. intros ->. split; [apply I|]. split; [done|apply I]. Qed.

Lemma keep_listed p :
  listed (kind_of p) = listed (kind_of (pcs s t)) ->
  NoDup q /\ (forall u, u <> t -> u ∈ q <-> u ∈ q) /\ (t ∈ q <-> listed (kind_of p) = true).
Proof. intros ->. split; [apply I|]. split; [done|apply I]. Qed.

Lemma keep_blocking p :
  recorded p = recorded (pcs s t) -> blocking_thread (mx s) = Some t <-> recorded p = true.
Proof. intros ->. apply I. Qed.

(** The common obligations of [inv_change]. *)
Ltac tokens_move := intros u k Hu [-> | [-> | ->]]; split; intros ?; congruence.
Ltac easy_change :=
  try done; try (by intros; congruence); try (by intros ? [?|?]); try tokens_move;
  try match goal with Hk : pcs s t = _ |- _ =>
        first [by apply keep_waiting; rewrite Hk | by apply keep_listed; rewrite Hk | by apply keep_blocking; rewrite Hk]
      end;
  try (by apply (i_tail _ _ _ _ _ I)); try (by apply (i_links _ _ _ _ _ I)); try (by apply (i_msgs _ _ _ _ _ I));
  try (by cbn; split; intros; congruence); try (by rewrite no_message by congruence; destruct (decide _));
  try (intros u Hu Hf; apply (i_ufail _ _ _ _ _ I) in Hf as [? ?]; first [done|congruence]);
  try (by apply (i_dead _ _ _ _ _ I)); try (by apply (i_count _ _ _ _ _ I)); try (by apply (i_heir _ _ _ _ _ I)).

(** The count was zero: the thread becomes the owner. *)
Lemma inv_acquire s' :
  kind_of (pcs s t) = KFree -> block_count (mx s) = 0 -> block_count (mx s') = 1 ->
  pcs s' = upd (pcs s) t LStore -> next s' = next s -> msgs s' = msgs s ->
  blocking_thread (mx s') = blocking_thread (mx s) -> waiters_list_head (mx s') = waiters_list_head (mx s) ->
  waiters_list_tail (mx s') = waiters_list_tail (mx s) ->
  inv s' q W (Some (Own t)) D.
Proof.
  intros Hk Hz Hc Ep En Em Eb Eh Et. destruct (zero_count Hz) as (Etok & EW & ED & Hnf).
  pose proof (not_listed ltac:(by rewrite Hk)) as Hni. pose proof (not_counted ltac:(by rewrite Hk)) as Hnw.
  destruct (list_frame s' LStore Hni Ep Eh ltac:(by rewrite En)) as [Hhd Hlk].
  apply (inv_change s s' q W tok D t LStore q W (Some (Own t)) D I Ep); rewrite ?Eb, ?Em, ?En, ?Eh, ?Et; easy_change.
  - apply keep_blocking. destruct (recorded (pcs s t)) eqn:Hr; [|done]. apply recorded_own in Hr. congruence.
  - apply keep_waiting. by rewrite Hk.
  - lia.
  - rewrite EW, ED, Hc. done.
  - apply keep_listed. by rewrite Hk.
Qed.

(** The count was not zero: the thread is going to wait. *)
Lemma inv_join s' :
  pcs s t = LAdd -> block_count (mx s) <> 0 -> block_count (mx s') = block_count (mx s) + 1 ->
  pcs s' = upd (pcs s) t LInit -> next s' = next s -> msgs s' = msgs s ->
  blocking_thread (mx s') = blocking_thread (mx s) -> waiters_list_head (mx s') = waiters_list_head (mx s) ->
  waiters_list_tail (mx s') = waiters_list_tail (mx s) ->
  inv s' q (t :: W) tok D.
Proof.
  intros Hk Hz Hc Ep En Em Eb Eh Et. destruct (no_token ltac:(rewrite Hk; by left)) as (N1 & N2 & N3).
  pose proof (not_listed ltac:(by rewrite Hk)) as Hni. pose proof (not_counted ltac:(by rewrite Hk)) as Hnw.
  destruct (list_frame s' LInit Hni Ep Eh ltac:(by rewrite En)) as [Hhd Hlk].
  apply (inv_change s s' q W tok D t LInit q (t :: W) tok D I Ep); rewrite ?Eb, ?Em, ?En, ?Eh, ?Et; easy_change.
  - destruct (i_waiting _ _ _ _ _ I) as [Hnd _]. split; [by constructor|]. split; [|split; [done|by left]].
    intros u Hu. rewrite elem_of_cons. naive_solver.
  - destruct (i_count _ _ _ _ _ I) as [HD Hcount]. split; [done|]. rewrite Hc, Hcount. unfold zlen. cbn [length]. lia.
Qed.

(** The owner records itself. *)
Lemma inv_record s' :
  pcs s t = LStore -> pcs s' = upd (pcs s) t Held -> next s' = next s -> msgs s' = msgs s ->
  mx s' = set_blocking (Some t) (mx s) -> inv s' q W tok D.
Proof.
  intros Hk Ep En Em Ex. pose proof (not_listed ltac:(by rewrite Hk)) as Hni.
  assert (Etok : tok = Some (Own t)) by (apply (i_own _ _ _ _ _ I); by rewrite Hk).
  destruct (list_frame s' Held Hni Ep ltac:(by rewrite Ex) ltac:(by rewrite En)) as [Hhd Hlk].
  apply (inv_change s s' q W tok D t Held q W tok D I Ep); rewrite ?Ex, ?Em, ?En; cbn [set_blocking blocking_thread block_count waiters_list_head waiters_list_tail]; easy_change.
  intros u Hu. split; [congruence|]. intros Hb. apply (i_blocking _ _ _ _ _ I), recorded_own in Hb.
  apply (i_own _ _ _ _ _ I) in Hb. congruence.
Qed.

(** The owner takes its record back. *)
Lemma inv_unrecord s' :
  pcs s t = UStore -> pcs s' = upd (pcs s) t USub -> next s' = next s -> msgs s' = msgs s ->
  mx s' = set_blocking None (mx s) -> inv s' q W tok D.
Proof.
  intros Hk Ep En Em Ex. pose proof (not_listed ltac:(by rewrite Hk)) as Hni.
  assert (Etok : tok = Some (Own t)) by (apply (i_own _ _ _ _ _ I); by rewrite Hk).
  destruct (list_frame s' USub Hni Ep ltac:(by rewrite Ex) ltac:(by rewrite En)) as [Hhd Hlk].
  assert (Hb : blocking_thread (mx s) = Some t) by (apply (i_blocking _ _ _ _ _ I); by rewrite Hk).
  apply (inv_change s s' q W tok D t USub q W tok D I Ep); rewrite ?Ex, ?Em, ?En; cbn [set_blocking blocking_thread block_count waiters_list_head waiters_list_tail]; easy_change.
Qed.

(** The owner leaves: nobody waits, or it has to hand the mutex over. *)
Lemma inv_leave s' :
  pcs s t = USub -> next s' = next s -> msgs s' = msgs s ->
  mx s' = set_count (block_count (mx s) - 1) (mx s) ->
  pcs s' = upd (pcs s) t (if block_count (mx s) - 1 =? 0 then Idle else UHead (block_count (mx s) - 1)) ->
  inv s' q W (if block_count (mx s) - 1 =? 0 then None else Some (Hand t)) D.
Proof.
  intros Hk En Em Ex Ep. pose proof (not_listed ltac:(by rewrite Hk)) as Hni.
  assert (Etok : tok = Some (Own t)) by (apply (i_own _ _ _ _ _ I); by rewrite Hk).
  assert (HD : D = 0).
  { destruct (i_count _ _ _ _ _ I) as [HD _]. destruct (Z.eq_dec D 0); [done|].
    rewrite (i_dead _ _ _ _ _ I) in Etok by lia. done. }
  destruct (i_count _ _ _ _ _ I) as [_ Hc]. rewrite Etok in Hc.
  destruct (list_frame s' _ Hni Ep ltac:(by rewrite Ex) ltac:(by rewrite En)) as [Hhd Hlk].
  destruct (Z.eqb_spec (block_count (mx s) - 1) 0) as [Hz|Hz];
    eapply (inv_change s s' q W tok D t _ q W _ D I Ep); rewrite ?Ex, ?Em, ?En;
    cbn [set_count blocking_thread block_count waiters_list_head waiters_list_tail]; easy_change.
  - lia.
  - intros _ _ ->. unfold zlen in Hc. cbn in Hc. lia.
  - lia.
  - lia.
Qed.

(** The hand-over fails: the mutex stays without an owner. *)
Lemma inv_send_fails s' a :
  pcs s t = USend a -> pcs s' = upd (pcs s) t UFail -> next s' = next s -> msgs s' = msgs s -> mx s' = mx s ->
  inv s' q W None D.
Proof.
  intros Hk Ep En Em Ex. pose proof (not_listed ltac:(by rewrite Hk)) as Hni.
  assert (Etok : tok = Some (Hand t)) by (apply (i_hand _ _ _ _ _ I); by rewrite Hk).
  pose proof (i_heir _ _ _ _ _ I t Etok) as HW. destruct (i_count _ _ _ _ _ I) as [HD Hc]. rewrite Etok in Hc.
  destruct (list_frame s' _ Hni Ep ltac:(by rewrite Ex) ltac:(by rewrite En)) as [Hhd Hlk].
  eapply (inv_change s s' q W tok D t _ q W None D I Ep); rewrite ?Ex, ?Em, ?En; easy_change.
Qed.

Lemma inv_dead s' :
  pcs s t = UFail -> pcs s' = upd (pcs s) t Idle -> next s' = next s -> msgs s' = msgs s ->
  mx s' = set_count (block_count (mx s) + 1) (mx s) -> inv s' q W tok (D + 1).
Proof.
  intros Hk Ep En Em Ex. pose proof (not_listed ltac:(by rewrite Hk)) as Hni.
  destruct (i_ufail _ _ _ _ _ I t Hk) as [Etok HW]. destruct (i_count _ _ _ _ _ I) as [HD Hc]. rewrite Etok in Hc.
  destruct (list_frame s' _ Hni Ep ltac:(by rewrite Ex) ltac:(by rewrite En)) as [Hhd Hlk].
  eapply (inv_change s s' q W tok D t _ q W tok (D + 1) I Ep); rewrite ?Ex, ?Em, ?En;
    cbn [set_count blocking_thread block_count waiters_list_head waiters_list_tail]; easy_change.
  rewrite Etok. lia.
Qed.

(** The message is taken: the thread becomes the owner. *)
Lemma inv_take s' :
  pcs s t = LTake -> pcs s' = upd (pcs s) t LStore -> next s' = next s -> mx s' = mx s ->
  msgs s' = upd (msgs s) t (msgs s t - 1)%nat ->
  exists W', inv s' q W' (Some (Own t)) D.
Proof.
  intros Hk Ep En Ex Em. pose proof (not_listed ltac:(by rewrite Hk)) as Hni.
  assert (Etok : tok = Some (Message t)) by (apply (i_popping _ _ _ _ _ I); by rewrite Hk).
  assert (Hin : t ∈ W) by (apply (i_waiting _ _ _ _ _ I); by rewrite Hk).
  apply elem_of_Permutation in Hin as [W' HW']. exists W'.
  destruct (i_waiting _ _ _ _ _ I) as [Hnd _]. rewrite HW' in Hnd. apply NoDup_cons in Hnd as [Hnt Hnd].
  destruct (i_count _ _ _ _ _ I) as [HD Hc]. rewrite Etok in Hc.
  assert (Hl : zlen W = zlen W' + 1) by (unfold zlen; rewrite HW'; cbn [length]; lia).
  destruct (list_frame s' _ Hni Ep ltac:(by rewrite Ex) ltac:(by rewrite En)) as [Hhd Hlk].
  eapply (inv_change s s' q W tok D t _ q W' _ D I Ep); rewrite ?Ex, ?Em, ?En, ?upd_eq; easy_change.
  - rewrite (i_msgs _ _ _ _ _ I t). destruct (decide (tok = Some (Message t))); [|done]. by destruct (decide _).
  - intros u Hu. by apply upd_ne.
  - split; [done|]. split; [|by split]. intros u Hu. rewrite HW', elem_of_cons. naive_solver.
  - intros HD0. rewrite (i_dead _ _ _ _ _ I HD0) in Etok. done.
  - lia.
Qed.

(** *** The list of waiters *)

Lemma linked_snoc s' : linked s q -> (forall a, a ∈ q -> next s' a = next s a /\ pcs s' a = pcs s a) ->
  pcs s' t = LLink (list.last q) -> next s' t = None -> linked s' (q ++ [t]).
Proof.
  clear I. induction q as [|a q0 IH]; intros Hl Ha Hp Hn; [done|]. destruct q0 as [|b q1].
  - cbn in *. destruct Hl as [Hl _]. split; [|done]. right. destruct (Ha a) as [-> _]; [by left|]. done.
  - cbn [app linked] in *. destruct Hl as [Hab Hl]. split.
    + destruct (Ha a) as [-> _]; [by left|]. destruct (Ha b) as [_ ->]; [by right; left|]. done.
    + apply IH; [done| |done|done]. intros c Hc. apply Ha. by right.
Qed.

(** Only the first thread of the list can be past waiting. *)
Lemma linked_tail_pc a q0 b : linked s (a :: q0) -> b ∈ q0 -> pcs s b = LWait \/ exists c, pcs s b = LLink (Some c).
Proof.
  clear I. revert a. induction q0 as [|c q0 IH]; intros a Hl Hb; [by apply elem_of_nil in Hb|].
  cbn [linked] in Hl. destruct Hl as [Hc Hl]. apply elem_of_cons in Hb as [->|Hb]; [|by apply (IH c)].
  destruct Hc as [[_ ?]|[_ ?]]; [by left|right; by eexists].
Qed.

Lemma first_of_list :
  listed (kind_of (pcs s t)) = true -> pcs s t <> LWait -> (forall c, pcs s t <> LLink (Some c)) ->
  exists q0, q = t :: q0 /\ t ∉ q0.
Proof.
  intros Hl H1 H2. assert (Hin : t ∈ q) by (by apply (i_listed _ _ _ _ _ I)).
  pose proof (i_links _ _ _ _ _ I) as Hlk. destruct (i_listed _ _ _ _ _ I) as [Hnd _].
  destruct q as [|a q0]; [by apply elem_of_nil in Hin|]. apply NoDup_cons in Hnd as [Hna _].
  apply elem_of_cons in Hin as [->|Hin]; [by exists q0|].
  destruct (linked_tail_pc a q0 t Hlk Hin) as [?|[c Hc]]; [done|by destruct (H2 c)].
Qed.

(** A thread joins the list. *)
Lemma inv_enqueue s' :
  pcs s t = LExch -> pcs s' = upd (pcs s) t (LLink (waiters_list_tail (mx s))) -> next s' = next s ->
  msgs s' = msgs s -> mx s' = set_tail (Some t) (mx s) -> inv s' (q ++ [t]) W tok D.
Proof.
  intros Hk Ep En Em Ex. pose proof (not_listed ltac:(by rewrite Hk)) as Hni.
  destruct (no_token ltac:(rewrite Hk; by right)) as (N1 & N2 & N3).
  destruct (i_listed _ _ _ _ _ I) as [Hnd _].
  assert (Hq : forall a, a ∈ q -> next s' a = next s a /\ pcs s' a = pcs s a).
  { intros a Ha. rewrite En, Ep. split; [done|]. apply upd_ne. by intros ->. }
  eapply (inv_change s s' q W tok D t _ (q ++ [t]) W tok D I Ep); rewrite ?Ex, ?Em, ?En;
    cbn [set_tail blocking_thread block_count waiters_list_head waiters_list_tail]; easy_change.
  - intros u _ _ [k ->]. by exists (k ++ [t]).
  - split; [apply NoDup_app; split; [done|]; split; [|by apply NoDup_singleton]|].
    + intros u Hu ->%list_elem_of_singleton. done.
    + split; [|split; [done|intros _; apply elem_of_app; right; by left]].
      intros u Hu. rewrite elem_of_app, list_elem_of_singleton. naive_solver.
  - by rewrite last_snoc.
  - pose proof (i_head _ _ _ _ _ I) as Hh. unfold head_ok in *. rewrite Ex. cbn [set_tail waiters_list_head].
    rewrite (i_tail _ _ _ _ _ I) in Ep.
    destruct q as [|a q0]; cbn [app]; [by rewrite Ep, upd_eq|].
    destruct (Hq a) as [-> ->]; [by left|]. done.
  - apply linked_snoc; [apply I|done| |rewrite En; by apply (i_exch _ _ _ _ _ I)].
    rewrite Ep, upd_eq, (i_tail _ _ _ _ _ I). done.
Qed.

(** The first thread of the list makes itself the head. *)
Lemma inv_set_head s' :
  pcs s t = LLink None -> pcs s' = upd (pcs s) t LWait -> next s' = next s -> msgs s' = msgs s ->
  mx s' = set_head (Some t) (mx s) -> inv s' q W tok D.
Proof.
  intros Hk Ep En Em Ex.
  destruct first_of_list as (q0 & Eq & Hnq); [by rewrite Hk|by rewrite Hk|by rewrite Hk|].
  pose proof (i_head _ _ _ _ _ I) as Hh. unfold head_ok in Hh. rewrite Eq, Hk in Hh.
  assert (N : tok <> Some (Own t) /\ tok <> Some (Hand t) /\ tok <> Some (Message t)).
  { split_and!; intros E; [apply (i_own _ _ _ _ _ I) in E|apply (i_hand _ _ _ _ _ I) in E|]; [by rewrite Hk in E..|].
    destruct (i_message _ _ _ _ _ I t E) as [E'|[E' _]]; by rewrite Hk in E'. }
  destruct N as (N1 & N2 & N3).
  eapply (inv_change s s' q W tok D t _ q W tok D I Ep); rewrite ?Ex, ?Em, ?En;
    cbn [set_head blocking_thread block_count waiters_list_head waiters_list_tail]; easy_change.
  - unfold head_ok. rewrite Eq, Ex, Ep, upd_eq. done.
  - eapply linked_frame; [| |apply I]; intros a Ha; [by rewrite En|]. rewrite Ep. apply upd_ne. intros ->.
    by rewrite Eq in Ha.
Qed.

(** A thread stores its link in the thread before it. *)
Lemma linked_store s' a c q0 :
  linked s (c :: q0) -> NoDup (c :: q0) -> t ∈ q0 -> pcs s t = LLink (Some a) ->
  next s' = upd (next s) a (Some t) -> pcs s' = upd (pcs s) t LWait ->
  linked s' (c :: q0) /\ a ∈ c :: q0 /\ next s a = None.
Proof.
  clear I. intros Hl Hnd Hin Hk En Ep. revert c Hl Hnd. induction q0 as [|b q1 IH]; intros c Hl Hnd.
  { by apply elem_of_nil in Hin. }
  apply linked_cons in Hl as [Hcb Hl]. apply NoDup_cons in Hnd as [Hc Hnd].
  rewrite not_elem_of_cons in Hc. destruct Hc as [Hcb' Hc].
  pose proof Hnd as [Hb Hnd1]%NoDup_cons. destruct (decide (t = b)) as [<-|Hne].
  - destruct Hcb as [[_ E]|[Hn E]]; [congruence|]. assert (a = c) as -> by congruence. split; [|split; [by left|done]].
    apply linked_cons. rewrite En, Ep, !upd_eq. split; [by left|]. eapply (linked_frame s); [| |exact Hl]; intros x Hx.
    + rewrite En. apply upd_ne. intros ->. apply elem_of_cons in Hx as [?|?]; done.
    + rewrite Ep. apply upd_ne. by intros ->.
  - apply elem_of_cons in Hin as [?|Hin]; [done|]. destruct (IH Hin b Hl Hnd) as (Hl' & Ha & Hna).
    split; [|split; [by right|done]]. apply linked_cons. split; [|exact Hl'].
    rewrite En, Ep, !upd_ne; [done|done|]. intros ->. apply elem_of_cons in Ha as [?|?]; done.
Qed.

Lemma inv_link s' a :
  pcs s t = LLink (Some a) -> pcs s' = upd (pcs s) t LWait -> next s' = upd (next s) a (Some t) ->
  msgs s' = msgs s -> mx s' = mx s -> inv s' q W tok D.
Proof.
  intros Hk Ep En Em Ex. assert (Hin : t ∈ q) by (apply (i_listed _ _ _ _ _ I); by rewrite Hk).
  pose proof (i_head _ _ _ _ _ I) as Hh. destruct (i_listed _ _ _ _ _ I) as [Hnd _].
  pose proof (i_links _ _ _ _ _ I) as Hlk.
  assert (N : tok <> Some (Own t) /\ tok <> Some (Hand t) /\ tok <> Some (Message t)).
  { split_and!; intros E; [apply (i_own _ _ _ _ _ I) in E|apply (i_hand _ _ _ _ _ I) in E|]; [by rewrite Hk in E..|].
    destruct (i_message _ _ _ _ _ I t E) as [E'|[E' _]]; by rewrite Hk in E'. }
  destruct N as (N1 & N2 & N3).
  assert (Hst : exists c q0, q = c :: q0 /\ c <> t /\ linked s' q /\ a ∈ q /\ next s a = None).
  { destruct q as [|c q0]; [by apply elem_of_nil in Hin|]. exists c, q0. apply elem_of_cons in Hin as [<-|Hin].
    - unfold head_ok in Hh. by rewrite Hk in Hh.
    - split; [done|]. split; [intros ->; by apply NoDup_cons in Hnd as [? _]|]. by apply linked_store. }
  destruct Hst as (c & q0 & Eq & Hct & Hlk' & Haq & Hna).
  eapply (inv_change s s' q W tok D t _ q W tok D I Ep); rewrite ?Ex, ?Em; easy_change.
  - intros u Hu HE. rewrite En. apply upd_ne. intros ->. apply (i_listed _ _ _ _ _ I) in Haq. by rewrite HE in Haq.
  - unfold head_ok in *. rewrite Eq, Ex in *. rewrite Ep, upd_ne by done. rewrite En.
    destruct (decide (c = a)) as [->|Hca]; [|by rewrite upd_ne].
    destruct (pcs s a); try done. destruct Hh. congruence.
Qed.

(** A message arrives for the first thread of the list. *)
Lemma inv_hand_over s' a :
  pcs s t = USend a -> pcs s' = upd (pcs s) t Idle -> next s' = next s -> mx s' = mx s ->
  msgs s' = upd (msgs s) a (S (msgs s a)) -> inv s' q W (Some (Message a)) D.
Proof.
  intros Hk Ep En Ex Em. pose proof (not_listed ltac:(by rewrite Hk)) as Hni.
  assert (Etok : tok = Some (Hand t)) by (apply (i_hand _ _ _ _ _ I); by rewrite Hk).
  pose proof (i_send _ _ _ _ _ I t a (or_introl Hk)) as Hhead.
  assert (Ha : exists q0, q = a :: q0 /\ pcs s a = LWait).
  { pose proof (i_head _ _ _ _ _ I) as Hh. unfold head_ok in Hh. rewrite Hhead in Hh.
    destruct q as [|x q0]; [done|]. exists q0.
    pose proof (i_popping _ _ _ _ _ I x) as Hx. rewrite Etok in Hx.
    destruct (pcs s x) eqn:Hpx; try (by specialize (Hx eq_refl)); try (by destruct old); try done.
    injection Hh as ->. done. }
  destruct Ha as (q0 & Eq & Hka). assert (Hat : a <> t) by (intros ->; congruence).
  destruct (list_frame s' _ Hni Ep ltac:(by rewrite Ex) ltac:(by rewrite En)) as [Hhd Hlk].
  assert (Hkind : forall u, u <> t -> kind_of (pcs s' u) = kind_of (pcs s u)) by (intros u Hu; by rewrite Ep, upd_ne).
  assert (Htk : kind_of (pcs s' t) = KFree) by (by rewrite Ep, upd_eq).
  assert (Hnt : forall u p, pcs s' u = p -> kind_of p <> KFree -> u <> t) by (intros u p Hu Hp ->; congruence).
  split; rewrite ?Ex; try apply I; try done.
  - split; [apply I|]. intros u. destruct (decide (u = t)) as [->|Hu]; [|rewrite Hkind by done; apply I].
    rewrite Htk. split; [|done]. intros Hin. apply (i_waiting _ _ _ _ _ I) in Hin. by rewrite Hk in Hin.
  - intros u. split; [|done]. intros Ho. assert (Hu : u <> t) by (intros ->; congruence).
    rewrite Hkind in Ho by done. apply (i_own _ _ _ _ _ I) in Ho. congruence.
  - intros u. split; [|done]. intros Ho. assert (Hu : u <> t) by (intros ->; congruence).
    rewrite Hkind in Ho by done. apply (i_hand _ _ _ _ _ I) in Ho. congruence.
  - intros u. rewrite Em. pose proof (i_msgs _ _ _ _ _ I u) as Hu. rewrite Etok in Hu.
    destruct (decide (Some (Hand t) = Some (Message u))); [done|]. at_thread u a.
    + rewrite Hu. by destruct (decide _).
    + rewrite Hu. destruct (decide _); [congruence|done].
  - intros u Hp. assert (Hu : u <> t) by (intros ->; by rewrite Htk in Hp). rewrite Hkind in Hp by done.
    apply (i_popping _ _ _ _ _ I) in Hp. congruence.
  - intros u [= <-]. right. rewrite Ep, upd_ne by done. split; [done|by exists q0].
  - destruct (i_count _ _ _ _ _ I) as [HD Hc]. by rewrite Etok in Hc.
  - intros u. rewrite Ep. at_thread u t; [|apply I]. rewrite (i_blocking _ _ _ _ _ I), Hk. done.
  - split; [apply I|]. intros u. destruct (decide (u = t)) as [->|Hu]; [|rewrite Hkind by done; apply I].
    rewrite Htk. split; [|done]. by intros ?%Hni.
  - intros u Hu. assert (u <> t) by (by apply (Hnt u LExch)). rewrite Ep, upd_ne in Hu by done. rewrite En. by apply I.
  - intros u Hu. assert (u <> t) by (by apply (Hnt u LFail)). rewrite Ep, upd_ne in Hu by done.
    by apply (i_fail _ _ _ _ _ I u).
  - intros HD. rewrite (i_dead _ _ _ _ _ I HD) in Etok. done.
  - intros u Hu. destruct (decide (u = t)) as [->|Hne]; [by rewrite Ep, upd_eq in Hu|].
    rewrite Ep, upd_ne in Hu by done. apply (i_ufail _ _ _ _ _ I) in Hu as [? _]. congruence.
  - intros u c Hu. assert (u <> t) by (by apply (Hnt u (UHead c))). rewrite Ep, upd_ne in Hu by done.
    by apply (i_uhead _ _ _ _ _ I u).
  - intros u b Hu. assert (Hne : u <> t) by (destruct Hu as [Hu|Hu]; by apply (Hnt u _ Hu)).
    rewrite Ep, upd_ne in Hu by done. by apply (i_send _ _ _ _ _ I u).
Qed.

(** *** Popping *)

Lemma popping_first :
  kind_of (pcs s t) = KPop -> tok = Some (Message t) /\ exists q0, q = t :: q0 /\ t ∉ q0.
Proof.
  intros Hk. split; [apply (i_popping _ _ _ _ _ I); by rewrite Hk|].
  apply first_of_list; [by rewrite Hk|intros E; by rewrite E in Hk|intros c E; by rewrite E in Hk].
Qed.

(** A step of the first thread inside [atomic_pop_front]. *)
Lemma inv_popping s' p q0 :
  counted (kind_of (pcs s t)) = true -> listed (kind_of (pcs s t)) = true -> recorded (pcs s t) = false ->
  tok = Some (Message t) -> q = t :: q0 -> t ∉ q0 -> kind_of p = KPop -> pcs s' = upd (pcs s) t p ->
  next s' = next s -> msgs s' = msgs s -> head_ok s' q ->
  (exists h, mx s' = set_head h (mx s)) -> inv s' q W tok D.
Proof.
  intros Hc Hl Hr Etok Eq Hnq Hp Ep En Em Hh [h Ex].
  assert (Hrp : recorded p = false) by (destruct (recorded p) eqn:E; [apply recorded_own in E; congruence|done]).
  eapply (inv_change s s' q W tok D t p q W tok D I Ep); rewrite ?Ex, ?Em, ?En, ?Hp;
    cbn [set_head blocking_thread block_count waiters_list_head waiters_list_tail]; easy_change.
  - apply keep_blocking. by rewrite Hrp.
  - intros ->. done.
  - intros ->. done.
  - intros ->. done.
  - intros c ->. done.
  - intros a [-> | ->]; done.
  - rewrite <- Hp. apply keep_waiting. by rewrite Hp.
  - rewrite <- Hp. apply keep_listed. by rewrite Hp.
  - eapply linked_frame; [| |apply I]; intros a Ha; [by rewrite En|]. rewrite Ep. apply upd_ne. intros ->.
    by rewrite Eq in Ha.
Qed.

(** The first thread is out of the list. *)
Lemma inv_popped s' q0 :
  kind_of (pcs s t) = KPop -> tok = Some (Message t) -> q = t :: q0 -> t ∉ q0 ->
  pcs s' = upd (pcs s) t LTake -> next s' = next s -> msgs s' = msgs s ->
  blocking_thread (mx s') = blocking_thread (mx s) -> block_count (mx s') = block_count (mx s) ->
  waiters_list_tail (mx s') = list.last q0 -> head_ok s' q0 -> inv s' q0 W tok D.
Proof.
  intros Hk Etok Eq Hnq Ep En Em Eb Ec Et Hh.
  pose proof (i_links _ _ _ _ _ I) as Hlk. destruct (i_listed _ _ _ _ _ I) as [Hnd _].
  rewrite Eq in Hlk, Hnd. apply NoDup_cons in Hnd as [_ Hnd].
  assert (Hr : recorded (pcs s t) = false).
  { destruct (recorded (pcs s t)) eqn:E; [apply recorded_own in E; congruence|done]. }
  eapply (inv_change s s' q W tok D t _ q0 W tok D I Ep); rewrite ?Eb, ?Ec, ?Em, ?En; easy_change.
  - by apply keep_blocking.
  - apply keep_waiting. by rewrite Hk.
  - split; [done|]. split; [|by split]. intros u Hu. rewrite Eq, elem_of_cons. naive_solver.
  - assert (Hl0 : linked s q0) by (destruct q0; [done|by apply linked_cons in Hlk as [_ ?]]).
    eapply linked_frame; [| |exact Hl0]; intros a Ha; [by rewrite En|]. rewrite Ep. apply upd_ne. intros ->.
    apply Hnq. by destruct q0; [|right].
Qed.

Lemma last_alone q0 : list.last (t :: q0) = Some t -> t ∉ q0 -> q0 = [].
Proof.
  intros Hl Hn. destruct q0 as [|a q0]; [done|]. exfalso. apply Hn.
  rewrite last_cons_cons in Hl. apply last_Some in Hl as [l' ->]. apply elem_of_app. right. by left.
Qed.

Lemma set_head_same (m : mutex) : m = set_head (waiters_list_head m) m.
Proof. by destruct m. Qed.

Lemma goto_head q0 :
  kind_of (pcs s t) = KPop -> tok = Some (Message t) -> q = t :: q0 -> t ∉ q0 ->
  forall p h, kind_of p = KPop ->
  (forall s1, pcs s1 = upd (pcs s) t p -> next s1 = next s -> mx s1 = set_head h (mx s) -> head_ok s1 q) ->
  forall s1, goto t s p (set_head h (mx s)) = Some s1 -> inv s1 q W tok D.
Proof.
  intros Hkind Etok Eq Hnq p h Hp Hok s1 [= <-]. assert (Hr : recorded (pcs s t) = false).
  { destruct (recorded (pcs s t)) eqn:Er; [apply recorded_own in Er; congruence|done]. }
  apply (inv_popping _ p q0); rewrite ?Hkind; try done; [by apply Hok|by exists h].
Qed.

Lemma goto_popping q0 :
  kind_of (pcs s t) = KPop -> tok = Some (Message t) -> q = t :: q0 -> t ∉ q0 ->
  forall p, kind_of p = KPop ->
  (forall s1, pcs s1 = upd (pcs s) t p -> next s1 = next s -> mx s1 = mx s -> head_ok s1 q) ->
  forall s1, goto t s p (mx s) = Some s1 -> inv s1 q W tok D.
Proof.
  intros Hkind Etok Eq Hnq p Hp Hok s1 Hs1. rewrite (set_head_same (mx s)) in Hs1.
  eapply (goto_head q0); [done..|exact Hp| |exact Hs1].
  intros s2 E1 E2 E3. apply Hok; [done|done|]. by rewrite <- set_head_same in E3.
Qed.

Lemma step_pop_inv c s' : step_pop t s c = Some s' -> exists q', inv s' q' W tok D.
Proof.
  intros E. destruct (kind_of (pcs s t)) eqn:Hkind;
    try (exfalso; unfold step_pop in E; by destruct (pcs s t), c).
  destruct (popping_first Hkind) as (Etok & q0 & Eq & Hnq).
  pose proof (i_head _ _ _ _ _ I) as Hh. unfold head_ok in Hh. rewrite Eq in Hh.
  pose proof (i_tail _ _ _ _ _ I) as Ht. pose proof (i_links _ _ _ _ _ I) as Hlk.
  pose proof (goto_head q0 Hkind Etok Eq Hnq) as Hgo. pose proof (goto_popping q0 Hkind Etok Eq Hnq) as Hgo'.
  unfold step_pop in E. destruct (pcs s t) eqn:Hk; try done; destruct c; try done; try (by destruct w).
  - exists q. rewrite Hh in E. eapply Hgo'; [|..|exact E]; [done|]. intros s1 E1 E2 E3. unfold head_ok.
    rewrite Eq, E1, upd_eq, E3. by left.
  - exists q. eapply Hgo'; [|..|exact E]; [done|]. intros s1 E1 E2 E3. unfold head_ok.
    rewrite Eq, E1, upd_eq, E3. done.
  - exists q. eapply Hgo; [|..|exact E]; [done|]. intros s1 E1 E2 E3. unfold head_ok.
    rewrite Eq, E1, upd_eq, E3. cbn. by destruct Hh.
  - exists q. destruct Hh as [Hh1 Hh2]. case_bool_decide as Ew; (eapply Hgo'; [|..|exact E]; [done|]);
      intros s1 E1 E2 E3; unfold head_ok; rewrite Eq, E1, upd_eq, E3; [|done].
    split; [done|]. destruct Hh2 as [?| ->]; [done|]. rewrite Ht, Eq in Ew. by apply last_None in Ew.
  - destruct Hh as [Hh1 ->]. case_bool_decide as Ew.
    + exists []. rewrite Ht, Eq in Ew. apply last_alone in Ew as ->; [|done]. injection E as <-.
      apply (inv_popped _ []); try done. by rewrite Hk.
    + exists q. eapply Hgo'; [|..|exact E]; [done|]. intros s1 E1 E2 E3. unfold head_ok. rewrite Eq, E1, upd_eq, E3.
      split; [done|by left].
  - destruct Hh as [Hh1 ->]. exists q. eapply Hgo'; [|..|exact E]; [done|]. intros s1 E1 E2 E3. unfold head_ok.
    rewrite Eq, E1, upd_eq, E3. split; [done|by left].
  - exists q. destruct Hh as [Hh1 Hh2]. destruct w as [a|].
    + destruct Hh2 as [[= ->]|?]; [|done]. destruct (next s t) as [n|] eqn:En;
        (eapply Hgo'; [|..|exact E]; [done|]); intros s1 E1 E2 E3; unfold head_ok; rewrite Eq, E1, upd_eq, E3.
      * by rewrite E2.
      * by right.
    + eapply Hgo'; [|..|exact E]; [done|]. intros s1 E1 E2 E3. unfold head_ok. by rewrite Eq, E1, upd_eq, E3.
  - destruct Hh as [Hh1 Hh2]. rewrite Hh1 in E. rewrite Eq in Hlk. destruct q0 as [|b q1].
    { destruct Hlk. congruence. }
    apply linked_cons in Hlk as [[[Hb1 Hb2]|[Hb1 _]] _]; [|congruence]. assert (b = n) as -> by congruence.
    exists (n :: q1). injection E as <-. apply (inv_popped _ (n :: q1)); try done.
    + by rewrite Hk.
    + cbn. by rewrite Ht, Eq.
    + unfold head_ok. cbn. rewrite upd_ne; [by rewrite Hb2|]. intros ->. apply Hnq. by left.
  - exists q. eapply Hgo'; [|..|exact E]; [done|]. intros s1 E1 E2 E3. unfold head_ok. rewrite Eq, E1, upd_eq, E3.
    right. by destruct Hh.
Qed.

(** Moves inside a part, with the mutex as it is or with another recursion count. *)
Lemma move p s1 :
  kind_of p = kind_of (pcs s t) -> recorded p = recorded (pcs s t) -> listed (kind_of p) = false ->
  p <> LFail -> p <> UFail -> p <> LExch -> (forall c, p = UHead c -> c <> 0) ->
  (forall a, p = USend a \/ p = UCount (Some a) -> waiters_list_head (mx s) = Some a) ->
  same_mutex (mx s) (mx s1) -> pcs s1 = upd (pcs s) t p -> msgs s1 = msgs s -> next s1 = next s ->
  inv s1 q W tok D.
Proof.
  intros Hk Hr Hl H1 H2 H3 H4 H5 Hm Ep Em En. eapply (inv_move s s1 q W tok D t p I); try done. by rewrite En.
Qed.

Ltac move_to p Hk :=
  eapply (move p); first [done | rewrite Hk; done | intros ? [?|?]; done | intros ? ?; done].

Lemma owner_recorded own :
  pcs s t = LLoad own \/ pcs s t = TLoad own \/ pcs s t = ULoad own ->
  bool_decide (blocking_thread (mx s) = Some t) = own.
Proof.
  intros Hk. pose proof (i_blocking _ _ _ _ _ I t) as Hb.
  assert (Hr : recorded (pcs s t) = own) by (by destruct Hk as [-> | [-> | ->]]; destruct own).
  rewrite Hr in Hb. case_bool_decide as Ht; destruct own; try done; [symmetry|exfalso; apply Ht]; by apply Hb.
Qed.

Lemma load_owner_inv own else_ s' :
  pcs s t = LLoad own \/ pcs s t = TLoad own -> else_ = LAdd \/ else_ = TCas ->
  load_owner t s own else_ = Some s' -> inv s' q W tok D.
Proof.
  intros Hk He E. unfold load_owner in E. rewrite (owner_recorded own) in E by tauto. destruct own.
  - destruct (recursive (mx s)); injection E as <-; destruct Hk as [Hk|Hk]; by move_to Held Hk.
  - injection E as <-. destruct Hk as [Hk|Hk], He as [-> | ->]; by (move_to LAdd Hk || move_to TCas Hk).
Qed.

Lemma add_waiter_inv c s' : add_waiter t s c = Some s' -> exists q', inv s' q' W tok D.
Proof.
  intros E. unfold add_waiter in E. destruct (pcs s t) eqn:Hk; try done; destruct c; try done; try (by destruct old).
  - injection E as <-. exists (q ++ [t]). by apply inv_enqueue.
  - exists q. destruct old as [a|]; injection E as <-; [by apply (inv_link _ a)|by apply inv_set_head].
Qed.

Lemma step_trylock_inv c s' : step_trylock t s c = Some s' -> exists tok', inv s' q W tok' D.
Proof.
  intros E. unfold step_trylock in E. destruct (pcs s t) eqn:Hk; try done; destruct c; try done.
  - exists tok. eapply load_owner_inv; [right; exact Hk| |exact E]. by right.
  - destruct (Z.eqb_spec (block_count (mx s)) 0) as [Hz|Hz]; injection E as <-.
    + exists (Some (Own t)). apply inv_acquire; try done. by rewrite Hk.
    + exists tok. move_to Idle Hk.
Qed.

Lemma step_lock_inv c s' :
  c <> InitFails -> step_lock t s c = Some s' -> exists q' W' tok', inv s' q' W' tok' D.
Proof.
  intros Hc E. unfold step_lock in E. destruct (pcs s t) eqn:Hk; try done; destruct c; try done.
  - exists q, W, tok. eapply load_owner_inv; [left; exact Hk| |exact E]. by left.
  - injection E as <-. destruct (Z.eqb_spec (block_count (mx s)) 0) as [Hz|Hz].
    + exists q, W, (Some (Own t)). apply inv_acquire; try done; [by rewrite Hk|]. cbn. lia.
    + exists q, (t :: W), tok. by apply inv_join.
  - injection E as <-. exists q, W, tok. by apply inv_record.
  - injection E as <-. exists q, W, tok. eapply (inv_move s _ q W tok D t LExch I); cbn; try done; rewrite ?Hk; try done.
    + intros a Ha. by apply upd_ne.
    + by rewrite upd_eq.
    + by intros a [?|?].
  - by destruct (i_fail _ _ _ _ _ I t).
  - destruct (Nat.ltb_spec 0 (msgs s t)) as [Hm|]; [|done]. exists q, W, tok.
    assert (Etok : tok = Some (Message t)).
    { rewrite (i_msgs _ _ _ _ _ I) in Hm. destruct (decide (tok = Some (Message t))); [done|lia]. }
    destruct (i_message _ _ _ _ _ I t Etok) as [Hp|[_ [q0 Eq]]]; [by rewrite Hk in Hp|].
    pose proof (i_head _ _ _ _ _ I) as Hh. unfold head_ok in Hh. rewrite Eq, Hk in Hh.
    injection E as <-. destruct (i_listed _ _ _ _ _ I) as [Hnd _]. rewrite Eq in Hnd. apply NoDup_cons in Hnd as [Hnq _].
    apply (inv_popping _ PAssert q0); rewrite ?Hk; try done.
    + unfold head_ok. rewrite Eq. cbn. by rewrite upd_eq.
    + exists (waiters_list_head (mx s)). apply set_head_same.
  - destruct (Nat.ltb_spec 0 (msgs s t)) as [Hm|]; [|done]. injection E as <-.
    edestruct (inv_take) as [W' HW']; [exact Hk|..|by exists q, W', (Some (Own t))]; done.
Qed.

Lemma hand_count : kind_of (pcs s t) = KHand -> block_count (mx s) <> 0.
Proof.
  intros Hk Hz. destruct (zero_count Hz) as (Etok & _). apply (i_hand _ _ _ _ _ I) in Hk. congruence.
Qed.

Lemma unlock_test_inv c h s' :
  kind_of (pcs s t) = KHand -> c <> 0 -> (forall a, h = Some a -> waiters_list_head (mx s) = Some a) ->
  unlock_test t s c h = Some s' -> inv s' q W tok D.
Proof.
  intros Hk Hc Hh E. assert (Hr : recorded (pcs s t) = false).
  { destruct (recorded (pcs s t)) eqn:Er; [apply recorded_own in Er; congruence|done]. }
  unfold unlock_test in E. destruct (Z.eqb_spec c 0); [done|]. destruct h as [a|]; injection E as <-.
  - eapply (move (USend a)); try done; rewrite ?Hk, ?Hr; try done. intros b [[= <-]|?]; [by apply Hh|done].
  - eapply (move UReload); try done; rewrite ?Hk, ?Hr; try done. by intros ? [?|?].
Qed.

Lemma step_unlock_inv c s' : step_unlock t s c = Some s' -> exists q' W' tok' D', inv s' q' W' tok' D'.
Proof.
  intros E. unfold step_unlock in E. destruct (pcs s t) eqn:Hk; try done; destruct c; try done.
  - exists q, W, tok, D. rewrite (owner_recorded own) in E by (rewrite Hk; tauto). destruct own.
    + destruct (0 <? recursive_lock_count (mx s)); injection E as <-.
      * move_to Held Hk.
      * move_to UStore Hk.
    + injection E as <-. move_to Idle Hk.
  - injection E as <-. exists q, W, tok, D. by apply inv_unrecord.
  - eexists q, W, _, D. apply inv_leave; [exact Hk|..]; destruct (Z.eqb_spec (block_count (mx s) - 1) 0); by injection E as <-.
  - exists q, W, tok, D. eapply (unlock_test_inv c0); [by rewrite Hk|by apply (i_uhead _ _ _ _ _ I t)| |exact E]. done.
  - exists q, W, tok, D. injection E as <-. eapply (move (UCount (waiters_list_head (mx s)))); try done; rewrite ?Hk; try done.
    intros a [?|[= Ha]]; done.
  - exists q, W, tok, D. eapply unlock_test_inv; [by rewrite Hk|apply hand_count; by rewrite Hk| |exact E].
    intros a ->. apply (i_send _ _ _ _ _ I t). by right.
  - injection E as <-. eexists q, W, _, D. by apply (inv_hand_over _ h).
  - injection E as <-. eexists q, W, _, D. by apply (inv_send_fails _ h).
  - injection E as <-. eexists q, W, tok, _. by apply inv_dead.
Qed.
End Transitions.

Lemma step_inv s q W tok D t c s' :
  inv s q W tok D -> c <> InitFails -> step t s c = Some s' -> exists q' W' tok' D', inv s' q' W' tok' D'.
Proof.
  intros I Hc E. unfold step in E.
  destruct (pcs s t) eqn:Hk;
    try (destruct (step_pop_inv s q W tok D I t c s' E) as [q' I']; by exists q', W, tok, D);
    try (destruct (add_waiter_inv s q W tok D I t c s' E) as [q' I']; by exists q', W, tok, D);
    try (destruct (step_trylock_inv s q W tok D I t c s' E) as [tok' I']; by exists q, W, tok', D);
    try (by apply (step_unlock_inv s q W tok D I t c s' E));
    try (destruct (step_lock_inv s q W tok D I t c s' Hc E) as (q' & W' & tok' & I'); by exists q', W', tok', D).
  all: destruct c; try done; exists q, W, tok, D; injection E as <-.
  all: match goal with |- inv (State _ (upd _ _ ?p) _ _ _ _) _ _ _ _ => apply (move s q W tok D I t p) end;
    first [done | rewrite Hk; done | intros ? [?|?]; done].
Qed.

Lemma reachable_inv rec s :
  reachable (fun c => c <> InitFails) rec s -> exists q W tok D, inv s q W tok D.
Proof.
  induction 1 as [|s v c s' Hr (q & W & tok & D & I) Hc E]; [exists [], [], None, 0; apply initial_inv|].
  by eapply step_inv.
Qed.

Lemma run_reachable (allowed : choice -> Prop) rec l s s' :
  reachable allowed rec s -> Forall (fun tc => allowed tc.2) l -> run l s = Some s' -> reachable allowed rec s'.
Proof.
  revert s. induction l as [|[t c] l IH]; intros s Hr Hl E; cbn in E; [by injection E as <-|].
  apply Forall_cons in Hl as [Hc Hl]. destruct (step t s c) as [s1|] eqn:Es; [|done].
  apply (IH s1); [|done|done]. by eapply ReachStep.
Qed.

(** C25. The mutex excludes: in every interleaving of any number of threads calling
    lock, trylock and unlock, with spurious failures of the weak exchanges and
    failing sends but no failing creation of a waiter's port, two threads that
    hold the mutex are the same thread, and the mutex records it as its owner. *)
Theorem mutual_exclusion rec s t u :
  reachable (fun c => c <> InitFails) rec s -> holds (pcs s t) = true -> holds (pcs s u) = true ->
  t = u /\ blocking_thread (mx s) = Some t.
Proof.
  intros Hr Ht Hu. destruct (reachable_inv _ _ Hr) as (q & W & tok & D & I).
  assert (Hrec : forall v, holds (pcs s v) = true -> recorded (pcs s v) = true) by (intros v; by destruct (pcs s v)).
  assert (Et : tok = Some (Own t)) by (by apply (i_own _ _ _ _ _ I), recorded_own, Hrec).
  assert (Eu : tok = Some (Own u)) by (by apply (i_own _ _ _ _ _ I), recorded_own, Hrec).
  split; [congruence|]. by apply (i_blocking _ _ _ _ _ I), Hrec.
Qed.

(** ** Schedules *)

Definition go (t n : nat) : list (nat * choice) := replicate n (t, Go).
Definition lock_free (t : nat) : list (nat * choice) := (t, CallLock) :: go t 3.

(** [pthread_mutex_lock] of thread 2 fails to create its port while thread 1 waits
    for it in [pthread_mutex_unlock]; thread 3 takes the free mutex; when thread 4
    queues up, thread 1 hands it the mutex that thread 3 holds. *)
Definition double_owner : list (nat * choice) :=
  (lock_free 1 ++ (2, CallLock) :: go 2 2 ++ (1, CallUnlock) :: go 1 4
  ++ (2, InitFails) :: go 2 1 ++ lock_free 3 ++ (4, CallLock) :: go 4 5 ++ go 1 3 ++ go 4 8)%nat.

Lemma init_failure_breaks_exclusion :
  option_map (fun s => (pcs s 3, pcs s 4)) (run double_owner (initial false)) = Some (Held, Held).
Proof. vm_compute. reflexivity. Qed.

(** Thread 3 has exchanged the tail but not yet linked itself when thread 2 pops
    its own node: the retry finds the head it has cleared and follows NULL. *)
Definition null_waiter : list (nat * choice) :=
  (lock_free 1 ++ (2, CallLock) :: go 2 5 ++ (3, CallLock) :: go 3 4
  ++ (1, CallUnlock) :: go 1 5 ++ go 2 10)%nat.

Lemma pop_follows_null :
  option_map (fun s => pcs s 2) (run null_waiter (initial false)) = Some Crashed.
Proof. vm_compute. reflexivity. Qed.

(** Thread 2 queues up behind thread 1 and is handed the mutex. *)
Definition handed_over : list (nat * choice) :=
  (lock_free 1 ++ (2, CallLock) :: go 2 5 ++ (1, CallUnlock) :: go 1 5 ++ go 2 8)%nat.

Definition after (l : list (nat * choice)) : state := default (initial false) (run l (initial false)).

Lemma mutual_exclusion_witness :
  let s := after handed_over in
  pcs s 1%nat = Idle /\ holds (pcs s 2%nat) = true /\ 2%nat = 2%nat /\ blocking_thread (mx s) = Some 2%nat.
Proof.
  intros s. split; [vm_compute; reflexivity|]. split; [vm_compute; reflexivity|].
  apply (mutual_exclusion false s 2 2); [|vm_compute; reflexivity|vm_compute; reflexivity].
  apply (run_reachable _ _ handed_over (initial false)).
  - apply ReachInit.
  - unfold handed_over, lock_free, go. cbn. repeat (constructor; [done|]). constructor.
  - unfold s, after. destruct (run handed_over (initial false)) eqn:E; [done|]. vm_compute in E. done.
Defined.
