(* ===== verification/Printf.v ===== *)
(** * libc/src/generic/stdio.c: formatted output and stream buffering

    The four number formatters, the interpreter of format strings
    ([__va_printf_closure]) over an abstract sink, and the sink that writes into a
    string of bounded size, with [sprintf], [snprintf] and [vsnprintf] on top of
    it.  The buffered files are in [Stdio].  A write outside a buffer, a read behind
    the NUL of the format and an argument of the wrong type are [Fault]. *)

From stdpp Require Import base list numbers sets.
From S2P Require Import Prelude CMem StrTo.

(** ** Number formatting *)

Definition PRINTF_FLAG_LEFT_J : Z := 1.
Definition PRINTF_FLAG_P_PLUS : Z := 2.
Definition PRINTF_FLAG_SPACE : Z := 4.
Definition PRINTF_FLAG_HASH : Z := 8.
Definition PRINTF_FLAG_ZERO : Z := 16.

Definition has_flag (flags bit : Z) : bool := negb (Z.land flags bit =? 0).

(** The digit loop: the characters of [temp_str], least significant first.
    [n % base] and [n / base] truncate towards zero. *)
Fixpoint temp_digits (fuel : nat) (hex_base base n : Z) : list Z :=
  match fuel with
  | O => []
  | S fuel =>
      if n =? 0 then []
      else
        let tmp := Z.rem n base in
        (if tmp <? 10 then tmp + 48 else tmp + hex_base - 10) :: temp_digits fuel hex_base base (Z.quot n base)
  end.

(** [temp_str] has 65 characters. *)
Definition number_digits (hex_base base n : Z) : list Z :=
  if n =? 0 then [48] else temp_digits 65 hex_base base n.

Definition fill (n : Z) (c : Z) : list Z := replicate (Z.to_nat n) c.

(** The sign character and the magnitude; negating the smallest number wraps. *)
Definition int_prefix (n flags : Z) : list Z * Z :=
  if n <? 0 then ([45], swrap 64 (- n))
  else if (0 <? n) && has_flag flags PRINTF_FLAG_P_PLUS then ([43], n)
  else if (0 <? n) && has_flag flags PRINTF_FLAG_SPACE then ([32], n)
  else ([], n).

Definition uint_prefix (n base hex_base flags : Z) : list Z :=
  if (n =? 0) || negb (has_flag flags PRINTF_FLAG_HASH) then []
  else if base =? 16 then [48; 88 - 65 + hex_base]
  else if base =? 8 then [48]
  else [].

(** The layout of [int_to_string] and [uint_to_string]: in the left-justified
    case [chars_count] already contains the length when it is subtracted. *)
Definition layout_long (prefix digits : list Z) (flags width : Z) : list Z :=
  let length := zlen digits in
  if has_flag flags PRINTF_FLAG_LEFT_J then
    let chars_count := zlen prefix + length in
    prefix ++ digits ++ fill (width - length - chars_count) 32
  else if has_flag flags PRINTF_FLAG_ZERO then
    prefix ++ fill (width - length - zlen prefix) 48 ++ digits
  else fill (width - (length + zlen prefix)) 32 ++ prefix ++ digits.

(** The layout of [ll_to_string] and [ull_to_string]. *)
Definition layout_llong (prefix digits : list Z) (flags width : Z) : list Z :=
  let to_fill := width - zlen digits - zlen prefix in
  if has_flag flags PRINTF_FLAG_LEFT_J then prefix ++ digits ++ fill to_fill 32
  else if has_flag flags PRINTF_FLAG_ZERO then prefix ++ fill to_fill 48 ++ digits
  else fill to_fill 32 ++ prefix ++ digits.

(** The characters stored before the NUL; their number is the result. *)
Definition int_to_string (n base flags width : Z) : list Z :=
  let '(prefix, n) := int_prefix n flags in
  layout_long prefix (rev (number_digits 65 base n)) flags width.

Definition uint_to_string (n base hex_base flags width : Z) : list Z :=
  layout_long (uint_prefix n base hex_base flags) (rev (number_digits hex_base base n)) flags width.

Definition ll_to_string (n base flags width : Z) : list Z :=
  let '(prefix, n) := int_prefix n flags in
  layout_llong prefix (rev (number_digits 65 base n)) flags width.

Definition ull_to_string (n base hex_base flags width : Z) : list Z :=
  layout_llong (uint_prefix n base hex_base flags) (rev (number_digits hex_base base n)) flags width.

(** ** The interpreter of format strings *)

(** [write_str_f]: the result of the call and the new state of the sink. *)
Class Sink (S : Type) := put : S -> list Z -> res (Z * S).

(** A variadic argument: an integer or pointer by its bits, or a string. *)
Inductive arg := ArgInt (v : Z) | ArgStr (s : option cstring).

(** [format[i]]: the NUL at the end can be read, nothing behind it. *)
Definition char_at (format : cstring) (i : nat) : res Z :=
  if (i <? length format)%nat then Ok (nth i format 0)
  else if (i =? length format)%nat then Ok 0
  else Fault.

Record spec := Spec {
  sp_flags : Z;
  sp_width : Z;          (** [unsigned long] *)
  sp_precision : Z;      (** [int] *)
  sp_long : Z
}.

Definition spec0 : spec := Spec 0 0 0 0.
Definition add_flag (f : Z) (sp : spec) : spec :=
  Spec (Z.lor (sp_flags sp) f) (sp_width sp) (sp_precision sp) (sp_long sp).
Definition set_width (w : Z) (sp : spec) : spec := Spec (sp_flags sp) w (sp_precision sp) (sp_long sp).
Definition set_precision (p : Z) (sp : spec) : spec := Spec (sp_flags sp) (sp_width sp) p (sp_long sp).
Definition set_long (l : Z) (sp : spec) : spec := Spec (sp_flags sp) (sp_width sp) (sp_precision sp) l.

(** The 32-bit [width] the formatters are given. *)
Definition int_width (sp : spec) : Z := swrap 32 (sp_width sp).

(** [char s_buff[max_(24, width + 1)]] must hold the characters and the NUL. *)
Definition s_buff_ok (sp : spec) (s : list Z) : bool :=
  zlen s + 1 <=? Z.max 24 (swrap 32 (sp_width sp + 1)).

Section Interpreter.
Context {S : Type} `{Sink S}.

(** What one conversion does to the outer loop. *)
Inductive after :=
| Continue (i : nat) (args : list arg) (sink : S) (sent buffdiff : Z)
| Return (value : Z) (sink : S).

Definition next_int (args : list arg) : res (Z * list arg) :=
  match args with ArgInt v :: args => Ok (v, args) | _ => Fault end.

(** The end of an integer conversion: store in [s_buff], write, count. *)
Definition put_number (s : list Z) (sp : spec) (i : nat) (args : list arg) (sink : S) (sent : Z) : res after :=
  if s_buff_ok sp s then
    match put sink s with
    | Ok (j, sink) => Ok (if j <? 0 then Return j sink else Continue (i + 1) args sink (sent + j) 0)
    | Fault => Fault
    | OutOfFuel => OutOfFuel
    end
  else Fault.

(** The cases 'd' and 'i'. *)
Definition conv_signed (sp : spec) (i : nat) (args : list arg) (sink : S) (sent : Z) : res after :=
  match next_int args with
  | Ok (v, args) =>
      let s := if sp_long sp <? 2
               then int_to_string (if sp_long sp =? 0 then swrap 32 v else swrap 64 v) 10 (sp_flags sp) (int_width sp)
               else ll_to_string (swrap 64 v) 10 (sp_flags sp) (int_width sp) in
      put_number s sp i args sink sent
  | Fault => Fault
  | OutOfFuel => OutOfFuel
  end.

(** The cases 'u', 'o', 'x' and 'X'. *)
Definition conv_unsigned (base hex_base : Z) (sp : spec) (i : nat) (args : list arg) (sink : S) (sent : Z)
    : res after :=
  match next_int args with
  | Ok (v, args) =>
      let s := if sp_long sp <? 2
               then uint_to_string (if sp_long sp =? 0 then wrap 32 v else wrap 64 v) base hex_base
                      (sp_flags sp) (int_width sp)
               else ull_to_string (wrap 64 v) base hex_base (sp_flags sp) (int_width sp) in
      put_number s sp i args sink sent
  | Fault => Fault
  | OutOfFuel => OutOfFuel
  end.

(** The case 'c'. *)
Definition conv_char (i : nat) (args : list arg) (sink : S) (sent : Z) : res after :=
  match next_int args with
  | Ok (v, args) =>
      match put sink [wrap 8 v] with
      | Ok (k, sink) => Ok (if k <? 0 then Return k sink else Continue (i + 1) args sink (sent + 1) 0)
      | Fault => Fault
      | OutOfFuel => OutOfFuel
      end
  | Fault => Fault
  | OutOfFuel => OutOfFuel
  end.

Definition null_string : cstring := [40; 110; 117; 108; 108; 41].

(** The case 's'. *)
Definition conv_string (sp : spec) (i : nat) (args : list arg) (sink : S) (sent : Z) : res after :=
  match args with
  | ArgStr o :: args =>
      let str := default null_string o in
      let length := if sp_precision sp =? 0 then zlen str else Z.min (zlen str) (wrap 64 (sp_precision sp)) in
      let size := if sp_width sp =? 0 then length else sp_width sp in
      match put sink (ztake length str) with
      | Ok (k, sink) =>
          if k <? 0 then Ok (Return k sink)
          else if length <? size then
            match put sink [32] with
            | Ok (k, sink) => Ok (if k <? 1 then Return k sink else Continue (i + 1) args sink (sent + k) 0)
            | Fault => Fault
            | OutOfFuel => OutOfFuel
            end
          else Ok (Continue (i + 1) args sink (sent + k) 0)
      | Fault => Fault
      | OutOfFuel => OutOfFuel
      end
  | _ => Fault
  end.
End Interpreter.
Arguments after : clear implicits.

Section Closure.
Context {S : Type} `{Sink S}.

(** A number in the format string, by [strtoul]: its value and its length. *)
Definition format_number (format : cstring) (i : nat) (base : Z) : Z * nat :=
  let rest := drop i format in
  let r := strtoul rest base in
  (pvalue_of r, (length rest - length (pend r))%nat).

(** The [while (rpt)] loop: [i] is behind the percent sign. *)
Fixpoint conversion (fuel : nat) (format : cstring) (i : nat) (sp : spec) (args : list arg) (sink : S) (sent : Z)
    : res (after S) :=
  match fuel with
  | O => OutOfFuel
  | Datatypes.S fuel =>
      match char_at format i with
      | Fault => Fault
      | OutOfFuel => OutOfFuel
      | Ok c =>
          if c =? 37 (* '%' *) then Ok (Continue (i + 1) args sink sent 1)
          else if c =? 45 (* '-' *) then conversion fuel format (i + 1) (add_flag PRINTF_FLAG_LEFT_J sp) args sink sent
          else if c =? 43 (* '+' *) then conversion fuel format (i + 1) (add_flag PRINTF_FLAG_P_PLUS sp) args sink sent
          else if c =? 32 (* ' ' *) then conversion fuel format (i + 1) (add_flag PRINTF_FLAG_SPACE sp) args sink sent
          else if c =? 35 (* '#' *) then conversion fuel format (i + 1) (add_flag PRINTF_FLAG_HASH sp) args sink sent
          else if c =? 48 (* '0' *) then conversion fuel format (i + 1) (add_flag PRINTF_FLAG_ZERO sp) args sink sent
          else if (49 <=? c) && (c <=? 57) then
            let '(width, n) := format_number format i 10 in
            conversion fuel format (i + n) (set_width width sp) args sink sent
          else if c =? 42 (* '*' *) then
            match next_int args with
            | Ok (v, args) => conversion fuel format (i + 1) (set_width (wrap 64 (swrap 32 v)) sp) args sink sent
            | Fault => Fault
            | OutOfFuel => OutOfFuel
            end
          else if c =? 46 (* '.' *) then
            match char_at format (i + 1) with
            | Fault => Fault
            | OutOfFuel => OutOfFuel
            | Ok d =>
                if d =? 42 then
                  match next_int args with
                  | Ok (v, args) => conversion fuel format (i + 2) (set_precision (swrap 32 v) sp) args sink sent
                  | Fault => Fault
                  | OutOfFuel => OutOfFuel
                  end
                else
                  let '(p, n) := format_number format (i + 1) 0 in
                  conversion fuel format (i + 1 + n) (set_precision (swrap 32 p) sp) args sink sent
            end
          else if (c =? 105) || (c =? 100) (* 'i', 'd' *) then conv_signed sp i args sink sent
          else if c =? 88 (* 'X' *) then conv_unsigned 16 65 sp i args sink sent
          else if c =? 120 (* 'x' *) then conv_unsigned 16 97 sp i args sink sent
          else if c =? 111 (* 'o' *) then conv_unsigned 8 97 sp i args sink sent
          else if c =? 117 (* 'u' *) then conv_unsigned 10 97 sp i args sink sent
          else if c =? 112 (* 'p' *) then conv_unsigned 16 97 (set_long 1 sp) i args sink sent
          else if c =? 99 (* 'c' *) then conv_char i args sink sent
          else if c =? 115 (* 's' *) then conv_string sp i args sink sent
          else if c =? 104 (* 'h' *) then conversion fuel format (i + 1) sp args sink sent
          else if c =? 108 (* 'l' *) then conversion fuel format (i + 1) (set_long (sp_long sp + 1) sp) args sink sent
          else if c =? 122 (* 'z' *) then conversion fuel format (i + 1) (set_long 1 sp) args sink sent
          else Ok (Continue (i + 1) args sink sent 0)
      end
  end.

(** Write the [buffdiff] characters of the format before [i]. *)
Definition put_pending (format : cstring) (i : nat) (sink : S) (sent buffdiff : Z) : res (after S) :=
  if 0 <? buffdiff then
    match put sink (ztake buffdiff (zdrop (Z.of_nat i - buffdiff) format)) with
    | Ok (p, sink) => Ok (if p <? 0 then Return p sink else Continue i [] sink (sent + buffdiff) 0)
    | Fault => Fault
    | OutOfFuel => OutOfFuel
    end
  else Ok (Continue i [] sink sent 0).

(** [__va_printf_closure]; the result is the return value and the sink. *)
Fixpoint va_printf_closure (fuel : nat) (format : cstring) (i : nat) (args : list arg) (sink : S)
    (sent buffdiff : Z) : res (Z * S) :=
  match fuel with
  | O => OutOfFuel
  | Datatypes.S fuel =>
      match char_at format i with
      | Fault => Fault
      | OutOfFuel => OutOfFuel
      | Ok c =>
          if c =? 0 then
            match put_pending format i sink sent buffdiff with
            | Ok (Return v sink) => Ok (v, sink)
            | Ok (Continue _ _ sink sent _) => Ok (sent, sink)
            | Fault => Fault
            | OutOfFuel => OutOfFuel
            end
          else if negb (c =? 37) then va_printf_closure fuel format (i + 1) args sink sent (buffdiff + 1)
          else
            match put_pending format i sink sent buffdiff with
            | Ok (Return v sink) => Ok (v, sink)
            | Ok (Continue _ _ sink sent _) =>
                match conversion fuel format (i + 1) spec0 args sink sent with
                | Ok (Return v sink) => Ok (v, sink)
                | Ok (Continue i args sink sent buffdiff) => va_printf_closure fuel format i args sink sent buffdiff
                | Fault => Fault
                | OutOfFuel => OutOfFuel
                end
            | Fault => Fault
            | OutOfFuel => OutOfFuel
            end
      end
  end.

Definition printf_fuel (format : cstring) : nat := (2 + length format)%nat.

Definition va_printf (sink : S) (format : cstring) (args : list arg) : res (Z * S) :=
  va_printf_closure (printf_fuel format) format 0 args sink 0 0.
End Closure.

(** ** Strings as sinks *)

(** [struct string_descriptor]; [buffer] is the memory behind [str]. *)
Record string_descriptor := StrDesc { sd_buffer : list Z; sd_size : Z; sd_pos : Z }.

(** [memcpy(&buffer[pos], s, |s|)] *)
Definition store_bytes (buffer : list Z) (pos : Z) (s : list Z) : option (list Z) :=
  if (0 <=? pos) && (pos + zlen s <=? zlen buffer)
  then Some (ztake pos buffer ++ s ++ zdrop (pos + zlen s) buffer)
  else None.

Definition write_string (stream : string_descriptor) (str : list Z) : res (Z * string_descriptor) :=
  let size := zlen str in
  if sd_pos stream <? sd_size stream then
    let max_size := sd_size stream - sd_pos stream in
    let size_s := if max_size <? size then max_size else size in
    match store_bytes (sd_buffer stream) (sd_pos stream) (ztake size_s str) with
    | Some b => Ok (size, StrDesc b (sd_size stream) (sd_pos stream + size))
    | None => Fault
    end
  else Ok (size, StrDesc (sd_buffer stream) (sd_size stream) (sd_pos stream + size)).

#[global] Instance string_sink : Sink string_descriptor := write_string.

(** The end of [snprintf]: the NUL, inside the [size] bytes. *)
Definition terminate (str : list Z) (size ret : Z) : option (list Z) :=
  if 0 <? size then store_bytes str (if size <=? ret then size - 1 else ret) [0] else Some str.

(** The result and the memory behind [str] afterwards. *)
Definition snprintf (str : list Z) (size : Z) (format : cstring) (args : list arg) : res (Z * list Z) :=
  let out_size := if 1 <? size then size else 0 in
  match va_printf (StrDesc str out_size 0) format args with
  | Ok (ret, desc) =>
      match terminate (sd_buffer desc) size ret with
      | Some b => Ok (swrap 32 ret, b)
      | None => Fault
      end
  | Fault => Fault
  | OutOfFuel => OutOfFuel
  end.

(** Here [ret] is an [int]. *)
Definition vsnprintf (str : list Z) (size : Z) (format : cstring) (args : list arg) : res (Z * list Z) :=
  let out_size := if 1 <? size then size else 0 in
  match va_printf (StrDesc str out_size 0) format args with
  | Ok (ret, desc) =>
      match terminate (sd_buffer desc) size (swrap 32 ret) with
      | Some b => Ok (swrap 32 ret, b)
      | None => Fault
      end
  | Fault => Fault
  | OutOfFuel => OutOfFuel
  end.

(** The descriptor's size is [-1], the largest [size_t]. *)
Definition sprintf (str : list Z) (format : cstring) (args : list arg) : res (Z * list Z) :=
  match va_printf (StrDesc str SIZE_MAX 0) format args with
  | Ok (ret, desc) =>
      match store_bytes (sd_buffer desc) ret [0] with
      | Some b => Ok (swrap 32 ret, b)
      | None => Fault
      end
  | Fault => Fault
  | OutOfFuel => OutOfFuel
  end.

(** ** What the digits denote *)

Lemma digits_value_snoc base acc ds d : digits_value base acc (ds ++ [d]) = digits_value base acc ds * base + d.
Proof. unfold digits_value. by rewrite foldl_app. Qed.

(** The character of a digit and back. *)
Definition digit_char (hex_base d : Z) : Z := if d <? 10 then d + 48 else d + hex_base - 10.

Definition hex_letter (hex_base : Z) : Prop := hex_base = 65 \/ hex_base = 97.

Lemma digit_char_ok hex_base d :
  hex_letter hex_base -> 0 <= d < 16 ->
  isxdigit (digit_char hex_base d) = true /\ hexval (digit_char hex_base d) = d
  /\ ul_value ul_narrow (digit_char hex_base d) = Some d.
Proof.
  intros Hh Hd. set (ok := fun h n => isxdigit (digit_char h (Z.of_nat n)) && (hexval (digit_char h (Z.of_nat n)) =? Z.of_nat n)
    && bool_decide (ul_value ul_narrow (digit_char h (Z.of_nat n)) = Some (Z.of_nat n))).
  assert (Hall : forall h, hex_letter h -> forallb (ok h) (seq 0 16) = true) by (by intros h [-> | ->]).
  specialize (Hall hex_base Hh). rewrite forallb_forall in Hall. specialize (Hall (Z.to_nat d)).
  subst ok. cbn beta in Hall. rewrite Z2Nat.id in Hall by lia.
  destruct (andb_prop _ _ (Hall ltac:(apply in_seq; lia))) as [H12 H3]. apply andb_prop in H12 as [H1 H2].
  split; [done|]. split; [lia|]. by apply bool_decide_eq_true_1 in H3.
Qed.

Section Digits.
Context (hex_base base : Z) (Hh : hex_letter hex_base) (Hb : 2 <= base <= 16).

(** The digits, least significant first. *)
Fixpoint digits_rev (fuel : nat) (n : Z) : list Z :=
  match fuel with
  | O => []
  | S fuel => if n =? 0 then [] else n mod base :: digits_rev fuel (n / base)
  end.

Lemma temp_digits_map fuel n :
  0 <= n -> temp_digits fuel hex_base base n = digit_char hex_base <$> digits_rev fuel n.
Proof.
  revert n; induction fuel as [|fuel IH]; intros n Hn; [done|]. cbn [temp_digits digits_rev].
  destruct (n =? 0); [done|]. rewrite Z.rem_mod_nonneg, Z.quot_div_nonneg by lia. cbn. f_equal.
  apply IH. by apply Z.div_pos; lia.
Qed.

Lemma digits_rev_range fuel n : 0 <= n -> Forall (fun d => 0 <= d < base) (digits_rev fuel n).
Proof.
  revert n; induction fuel as [|fuel IH]; intros n Hn; cbn; [constructor|].
  destruct (n =? 0); [constructor|]. constructor; [apply Z.mod_pos_bound; lia|].
  apply IH, Z.div_pos; lia.
Qed.

Lemma digits_rev_value fuel n :
  0 <= n < base ^ Z.of_nat fuel -> digits_value base 0 (rev (digits_rev fuel n)) = n.
Proof.
  revert n; induction fuel as [|fuel IH]; intros n Hn.
  - cbn in *. lia.
  - cbn [digits_rev]. destruct (Z.eqb_spec n 0) as [->|]; [done|]. cbn [rev].
    rewrite digits_value_snoc, IH.
    + pose proof (Z.div_mod n base ltac:(lia)). lia.
    + rewrite Nat2Z.inj_succ, Z.pow_succ_r in Hn by lia. split; [apply Z.div_pos; lia|].
      apply Z.div_lt_upper_bound; lia.
Qed.

(** The digits of a 64-bit number, as characters, most significant first. *)
Definition number_chars (n : Z) : list Z := rev (number_digits hex_base base n).

Lemma number_chars_digits n :
  0 <= n < 2 ^ 64 ->
  exists ds, number_chars n = digit_char hex_base <$> ds /\ ds <> [] /\ Forall (fun d => 0 <= d < base) ds
    /\ digits_value base 0 ds = n.
Proof.
  intros Hn. unfold number_chars, number_digits. destruct (Z.eqb_spec n 0) as [->|Hnz].
  { exists [0]. split; [done|]. split; [done|]. split; [|done]. constructor; [lia|done]. }
  rewrite temp_digits_map by lia. exists (rev (digits_rev 65 n)).
  assert (Hp : 2 ^ 64 < base ^ Z.of_nat 65).
  { eapply Z.lt_le_trans; [|apply Z.pow_le_mono_l with (a := 2); lia]. done. }
  split; [unfold fmap; by rewrite <- map_rev|]. split.
  - cbn [digits_rev]. destruct (Z.eqb_spec n 0); [lia|]. cbn. intros E. by apply app_eq_nil in E as [_ E].
  - split; [apply Forall_rev, digits_rev_range; lia|]. apply digits_rev_value. lia.
Qed.

(** A number has at most as many digits as the power of the base that bounds
    it; this includes the smallest number, whose negation is negative. *)
Lemma temp_digits_length fuel n k :
  Z.abs n < base ^ Z.of_nat k -> (length (temp_digits fuel hex_base base n) <= k)%nat.
Proof.
  revert n k; induction fuel as [|fuel IH]; intros n k Hn; cbn [temp_digits length]; [lia|].
  destruct (Z.eqb_spec n 0); cbn [length]; [lia|]. destruct k as [|k]; [cbn in Hn; lia|].
  apply le_n_S, IH. rewrite Nat2Z.inj_succ, Z.pow_succ_r in Hn by lia.
  rewrite <- Z.quot_abs by lia.
  rewrite (Z.abs_eq base), Z.quot_div_nonneg by lia. apply Z.div_lt_upper_bound; lia.
Qed.

Lemma number_chars_length n k :
  Z.abs n < base ^ Z.of_nat k -> (1 <= k)%nat -> zlen (number_chars n) <= Z.of_nat k.
Proof.
  intros Hn Hk. unfold zlen, number_chars, number_digits. rewrite length_rev.
  destruct (n =? 0); [cbn; lia|]. apply inj_le. by apply temp_digits_length.
Qed.
End Digits.

(** ** Layout *)

Lemma zlen_fill n c : zlen (fill n c) = Z.max 0 n.
Proof. unfold fill. rewrite zlen_replicate. lia. Qed.

Lemma layout_long_length prefix digits flags width :
  zlen (layout_long prefix digits flags width) <= Z.max width (zlen prefix + zlen digits).
Proof.
  unfold layout_long. destruct (has_flag flags PRINTF_FLAG_LEFT_J), (has_flag flags PRINTF_FLAG_ZERO);
    rewrite !zlen_app, zlen_fill; pose proof (zlen_nonneg digits); pose proof (zlen_nonneg prefix); lia.
Qed.

Lemma layout_llong_length prefix digits flags width :
  zlen (layout_llong prefix digits flags width) = Z.max width (zlen prefix + zlen digits).
Proof.
  unfold layout_llong. destruct (has_flag flags PRINTF_FLAG_LEFT_J), (has_flag flags PRINTF_FLAG_ZERO);
    rewrite !zlen_app, zlen_fill; lia.
Qed.

Lemma int_prefix_length n flags : zlen (int_prefix n flags).1 <= 1.
Proof.
  unfold int_prefix. destruct (n <? 0); [unfold zlen; cbn; lia|].
  destruct ((0 <? n) && has_flag flags PRINTF_FLAG_P_PLUS); [unfold zlen; cbn; lia|].
  destruct ((0 <? n) && has_flag flags PRINTF_FLAG_SPACE); unfold zlen; cbn; lia.
Qed.

Lemma int_prefix_magnitude n flags : - 2 ^ 63 <= n < 2 ^ 63 -> Z.abs (int_prefix n flags).2 <= 2 ^ 63.
Proof.
  intros Hn. unfold int_prefix. destruct (Z.ltb_spec n 0).
  - cbn [snd]. unfold swrap. pose proof (Z.mod_pos_bound (- n) (2 ^ 64) ltac:(lia)).
    destruct (Z.ltb_spec ((- n) mod 2 ^ 64) (2 ^ (64 - 1))); lia.
  - destruct (_ && _); [unfold zlen; cbn; lia|]. destruct (_ && _); unfold zlen; cbn; lia.
Qed.

Lemma uint_prefix_length n base hex_base flags :
  zlen (uint_prefix n base hex_base flags) <= if base =? 16 then 2 else 1.
Proof.
  unfold uint_prefix. destruct (_ || _); [case_if; unfold zlen; cbn; lia|].
  destruct (base =? 16); [unfold zlen; cbn; lia|]. destruct (base =? 8); unfold zlen; cbn; lia.
Qed.

(** ** Properties of the formatters *)

Lemma numbers_fit n m base hex_base sp :
  - 2 ^ 63 <= n < 2 ^ 63 -> 0 <= m < 2 ^ 64 -> base = 8 \/ base = 10 \/ base = 16 -> hex_letter hex_base ->
  0 <= sp_width sp < 2 ^ 31 - 1 ->
  s_buff_ok sp (int_to_string n 10 (sp_flags sp) (int_width sp)) = true
  /\ s_buff_ok sp (ll_to_string n 10 (sp_flags sp) (int_width sp)) = true
  /\ s_buff_ok sp (uint_to_string m base hex_base (sp_flags sp) (int_width sp)) = true
  /\ s_buff_ok sp (ull_to_string m base hex_base (sp_flags sp) (int_width sp)) = true.
Proof.
  intros Hn Hm Hb Hh Hw. unfold s_buff_ok, int_width. rewrite !swrap_small by lia.
  pose proof (int_prefix_length n (sp_flags sp)) as Hpl.
  pose proof (int_prefix_magnitude n (sp_flags sp) Hn) as Hmag.
  pose proof (uint_prefix_length m base hex_base (sp_flags sp)) as Hul.
  unfold int_to_string, ll_to_string, uint_to_string, ull_to_string.
  destruct (int_prefix n (sp_flags sp)) as [prefix a]. cbn [fst snd] in *.
  pose proof (number_chars_length 65 10 ltac:(lia) a 19 ltac:(lia) ltac:(lia)) as Hl1.
  assert (Hl2 : zlen (uint_prefix m base hex_base (sp_flags sp)) + zlen (number_chars hex_base base m) <= 23).
  { destruct Hb as [-> | [-> | ->]].
    - pose proof (number_chars_length hex_base 8 ltac:(lia) m 22 ltac:(lia) ltac:(lia)).
      change (8 =? 16) with false in Hul. cbv iota in Hul. lia.
    - pose proof (number_chars_length hex_base 10 ltac:(lia) m 20 ltac:(lia) ltac:(lia)).
      change (10 =? 16) with false in Hul. cbv iota in Hul. lia.
    - pose proof (number_chars_length hex_base 16 ltac:(lia) m 16 ltac:(lia) ltac:(lia)).
      change (16 =? 16) with true in Hul. cbv iota in Hul. lia. }
  fold (number_chars 65 10 a). fold (number_chars hex_base base m).
  split_and!; apply Z.leb_le.
  - pose proof (layout_long_length prefix (number_chars 65 10 a) (sp_flags sp) (sp_width sp)). lia.
  - pose proof (layout_llong_length prefix (number_chars 65 10 a) (sp_flags sp) (sp_width sp)). lia.
  - pose proof (layout_long_length (uint_prefix m base hex_base (sp_flags sp)) (number_chars hex_base base m)
      (sp_flags sp) (sp_width sp)). lia.
  - pose proof (layout_llong_length (uint_prefix m base hex_base (sp_flags sp)) (number_chars hex_base base m)
      (sp_flags sp) (sp_width sp)). lia.
Qed.

(** The stack buffer of a conversion is large enough: whatever 64-bit value is
    printed in base 8, 10 or 16, with whatever flags and width below INT_MAX, each
    of the four formatters stays inside [s_buff], NUL included. *)
Theorem number_buffer_safe n m base hex_base sp :
  - 2 ^ 63 <= n < 2 ^ 63 -> 0 <= m < 2 ^ 64 -> base = 8 \/ base = 10 \/ base = 16 -> hex_letter hex_base ->
  0 <= sp_width sp < 2 ^ 31 - 1 ->
  s_buff_ok sp (int_to_string n 10 (sp_flags sp) (int_width sp)) = true
  /\ s_buff_ok sp (ll_to_string n 10 (sp_flags sp) (int_width sp)) = true
  /\ s_buff_ok sp (uint_to_string m base hex_base (sp_flags sp) (int_width sp)) = true
  /\ s_buff_ok sp (ull_to_string m base hex_base (sp_flags sp) (int_width sp)) = true.
Proof. apply numbers_fit. Qed.

Lemma fill_32 n : Forall (fun c => c = 32) (fill n 32).
Proof. unfold fill. by apply Forall_replicate. Qed.

Lemma fill_spaces n : Forall (fun c => isspace c = true) (fill n 32).
Proof. eapply list.Forall_impl; [apply fill_32|]. by intros x ->. Qed.

Lemma digit_char_not_x hex_base d : hex_letter hex_base -> 0 <= d < 16 -> digit_char hex_base d <> 120 /\ digit_char hex_base d <> 88.
Proof.
  intros [-> | ->] Hd; unfold digit_char; destruct (Z.ltb_spec d 10); lia.
Qed.

(** Padding in front of the prefix, between prefix and digits and behind. *)
Lemma layout_long_shape prefix digits flags width :
  exists a b c, layout_long prefix digits flags width = fill a 32 ++ prefix ++ (fill b 48 ++ digits) ++ fill c 32
    /\ (has_flag flags PRINTF_FLAG_LEFT_J = false -> c = 0).
Proof.
  unfold layout_long. destruct (has_flag flags PRINTF_FLAG_LEFT_J).
  { exists 0, 0, (width - zlen digits - (zlen prefix + zlen digits)). done. }
  destruct (has_flag flags PRINTF_FLAG_ZERO).
  - exists 0, (width - zlen digits - zlen prefix), 0. by rewrite !app_nil_r.
  - exists (width - (zlen digits + zlen prefix)), 0, 0. by rewrite !app_nil_r.
Qed.

Lemma layout_llong_shape prefix digits flags width :
  exists a b c, layout_llong prefix digits flags width = fill a 32 ++ prefix ++ (fill b 48 ++ digits) ++ fill c 32
    /\ (has_flag flags PRINTF_FLAG_LEFT_J = false -> c = 0).
Proof.
  unfold layout_llong. set (k := width - zlen digits - zlen prefix).
  destruct (has_flag flags PRINTF_FLAG_LEFT_J); [by exists 0, 0, k|].
  destruct (has_flag flags PRINTF_FLAG_ZERO).
  - exists 0, k, 0. by rewrite !app_nil_r.
  - exists k, 0, 0. by rewrite !app_nil_r.
Qed.

(** Leading zeros are digits and do not change the number. *)
Lemma zero_digits hex_base base b n :
  hex_letter hex_base -> 2 <= base <= 16 -> 0 <= n < 2 ^ 64 ->
  exists ds, fill b 48 ++ number_chars hex_base base n = digit_char hex_base <$> ds /\ ds <> []
    /\ Forall (fun d => 0 <= d < base) ds /\ digits_value base 0 ds = n.
Proof.
  intros Hh Hb Hn. destruct (number_chars_digits hex_base base Hb n Hn) as (ds & -> & Hne & Hd & Hv).
  exists (fill b 0 ++ ds). unfold fill. split; [|split; [|split]].
  - by rewrite fmap_app, fmap_replicate.
  - intros E. by apply app_eq_nil in E as [_ E].
  - apply Forall_app. split; [|done]. apply Forall_replicate. lia.
  - rewrite <- Hv. induction (Z.to_nat b) as [|k IH]; [done|]. cbn. exact IH.
Qed.

Lemma digits_no_0x hex_base base ds c :
  hex_letter hex_base -> base <= 16 -> Forall (fun d => 0 <= d < base) ds ->
  has_0x ((digit_char hex_base <$> ds) ++ fill c 32) = false.
Proof.
  intros Hh Hb Hd. unfold has_0x.
  assert (Hx : forall d, 0 <= d < base -> ((digit_char hex_base d =? 120) || (digit_char hex_base d =? 88)) = false).
  { intros d Hr. destruct (digit_char_not_x hex_base d Hh ltac:(lia)) as [H1 H2].
    by destruct (Z.eqb_spec (digit_char hex_base d) 120), (Z.eqb_spec (digit_char hex_base d) 88). }
  destruct ds as [|a [|b ds]]; unfold fill.
  - cbn [fmap list_fmap app]. by destruct (Z.to_nat c).
  - destruct (Z.to_nat c); cbn; by rewrite andb_false_r.
  - apply Forall_cons_1 in Hd as [_ Hd]. apply Forall_cons_1 in Hd as [Hb2 _].
    cbn. by rewrite Hx, andb_false_r.
Qed.

Lemma spaces_stop_digits base c : ul_stops base (fill c 32).
Proof. unfold ul_stops, fill. destruct (Z.to_nat c); [by left|right; done]. Qed.

(** Reading digits padded on both sides, behind a base prefix. *)
Lemma strtoul_padded hex_base base a pre c ds :
  hex_letter hex_base -> 2 <= base <= 16 -> ds <> [] -> Forall (fun d => 0 <= d < base) ds ->
  digits_value base 0 ds <= ULLONG_MAX -> 0 <= digits_value base 0 ds ->
  ul_base base pre ((digit_char hex_base <$> ds) ++ fill c 32) base ->
  strtoul (fill a 32 ++ [] ++ pre ++ (digit_char hex_base <$> ds) ++ fill c 32) base
    = Parsed (digits_value base 0 ds) (fill c 32) None.
Proof.
  intros Hh Hb Hne Hd Hv Hv0 Hul.
  rewrite (strtoul_spec (fill a 32) [] 1 pre (digit_char hex_base <$> ds) ds (fill c 32) base base).
  - destruct (Z.leb_spec (digits_value base 0 ds) ULLONG_MAX); [|lia]. unfold ULLONG_MAX in *.
    by rewrite Z.mul_1_l, wrap_small by lia.
  - apply fill_spaces.
  - by left.
  - done.
  - intros E. by apply fmap_nil_inv in E.
  - clear -Hd Hh Hb. induction Hd as [|d ds Hd1 Hds IH]; constructor; [|done]. split; [|lia].
    by apply (digit_char_ok hex_base d Hh ltac:(lia)).
  - apply spaces_stop_digits.
Qed.

(** Printing and parsing are inverse on unsigned numbers: what
    [uint_to_string] prints for a 64-bit number in base 8, 10 or 16, whatever the
    flags (zero padding, base prefix, left justification) and the width, [strtoul]
    reads back in that base as the same number, leaving only trailing padding. *)
Theorem print_parse_unsigned n base hex_base width flags :
  0 <= n < 2 ^ 64 -> base = 8 \/ base = 10 \/ base = 16 -> hex_letter hex_base ->
  exists c, strtoul (uint_to_string n base hex_base flags width) base = Parsed n (fill c 32) None
    /\ (has_flag flags PRINTF_FLAG_LEFT_J = false -> fill c 32 = []).
Proof.
  intros Hn Hb Hh. assert (Hr : 2 <= base <= 16) by lia. unfold uint_to_string.
  fold (number_chars hex_base base n).
  destruct (layout_long_shape (uint_prefix n base hex_base flags) (number_chars hex_base base n) flags width)
    as (a & b & c & -> & Hc). exists c. split; [|by intros ->%Hc].
  destruct (zero_digits hex_base base b n Hh Hr Hn) as (ds & -> & Hne & Hd & Hv).
  assert (Hmax : n <= ULLONG_MAX) by (unfold ULLONG_MAX; lia).
  pose proof (fun pre => strtoul_padded hex_base base a pre c ds Hh Hr Hne Hd) as H. rewrite Hv in H.
  pose proof (digits_no_0x hex_base base ds c Hh ltac:(lia) Hd) as H0x.
  unfold uint_prefix. destruct (_ || _).
  { apply (H [] Hmax); [lia|]. by apply UlGiven; [lia|]. }
  destruct (Z.eqb_spec base 16) as [->|].
  { apply (H [48; _] Hmax); [lia|]. apply UlHex; [by right|]. destruct Hh as [-> | ->]; lia. }
  destruct (Z.eqb_spec base 8) as [->|].
  - pose proof (strtoul_padded hex_base 8 a [] c (0 :: ds) Hh Hr) as H8. cbn [fmap list_fmap app] in H8.
    change (digits_value 8 0 (0 :: ds)) with (digits_value 8 0 ds) in H8. rewrite Hv in H8.
    apply H8; [done|constructor; [lia|done]|done|lia|]. by apply UlGiven; [lia|].
  - apply (H [] Hmax); [lia|]. by apply UlGiven; [lia|].
Qed.

Lemma final_end_spaces c : final_end char_narrow (fill c 32) = fill c 32.
Proof.
  unfold final_end, fill. assert (E : skip (op_trail char_narrow) (replicate (Z.to_nat c) 32) = []).
  { induction (Z.to_nat c); done. }
  by rewrite E.
Qed.

(** Reading decimal digits padded on both sides, behind a sign. *)
Lemma strtoll_padded sp sgn s c ds :
  Forall (fun c => isspace (wrap 8 c) = true) sp -> (sgn, s) ∈ sign_chars ->
  ds <> [] -> Forall (fun d => 0 <= d < 10) ds -> digits_value 10 0 ds <= LLONG_MAX ->
  strtoll (sp ++ sgn ++ (digit_char 65 <$> ds) ++ fill c 32) 10
    = Parsed (s * digits_value 10 0 ds) (fill c 32) None.
Proof.
  intros Hsp Hs Hne Hd Hv. assert (Hh : hex_letter 65) by (by left).
  assert (Hx : Forall (fun c => isxdigit c = true) (digit_char 65 <$> ds) /\ hexval <$> (digit_char 65 <$> ds) = ds).
  { clear -Hd Hh. induction Hd as [|d ds Hd1 Hds [IH1 IH2]]; [done|].
    destruct (digit_char_ok 65 d Hh ltac:(lia)) as (H1 & H2 & _). split; [by constructor|]. cbn.
    by rewrite H2, IH2. }
  destruct Hx as [Hx1 Hx2].
  pose proof (strtoll_spec sp sgn s (digit_char 65 <$> ds) (fill c 32) 10 Hsp Hs) as H. cbv zeta in H.
  rewrite Hx2, final_end_spaces in H. destruct (Z.leb_spec (digits_value 10 0 ds) LLONG_MAX); [|lia].
  apply H; [|done| |lia|done].
  - intros E. by apply fmap_nil_inv in E.
  - unfold ends_digits, fill. destruct (Z.to_nat c); [by left|right]. done.
Qed.

(** The sign that is printed, as white space and a sign that is parsed. *)
Lemma int_prefix_sign n flags :
  - 2 ^ 63 < n < 2 ^ 63 ->
  exists sp sgn s, (int_prefix n flags).1 = sp ++ sgn /\ Forall (fun c => isspace (wrap 8 c) = true) sp
    /\ (sgn, s) ∈ sign_chars /\ s * (int_prefix n flags).2 = n /\ 0 <= (int_prefix n flags).2 <= LLONG_MAX.
Proof.
  intros Hn. unfold int_prefix, LLONG_MAX. destruct (Z.ltb_spec n 0).
  { exists [], [45], (-1). cbn [fst snd]. rewrite swrap_small by lia. split_and!; [done|done| |lia..].
    unfold sign_chars. set_solver. }
  destruct (_ && _); [|destruct (_ && _)]; cbn [fst snd].
  - exists [], [43], 1. split_and!; [done|done| |lia..]. unfold sign_chars. set_solver.
  - exists [32], [], 1. split_and!; [done|by repeat constructor| |lia..]. unfold sign_chars. set_solver.
  - exists [], [], 1. split_and!; [done|done| |lia..]. unfold sign_chars. set_solver.
Qed.

Lemma strtoll_layout n flags a b c :
  - 2 ^ 63 < n < 2 ^ 63 ->
  strtoll (fill a 32 ++ (int_prefix n flags).1 ++ (fill b 48 ++ number_chars 65 10 (int_prefix n flags).2) ++ fill c 32) 10
    = Parsed n (fill c 32) None.
Proof.
  intros Hn. destruct (int_prefix_sign n flags Hn) as (sp & sgn & s & -> & Hsp & Hs & E & Hr).
  unfold LLONG_MAX in Hr.
  destruct (zero_digits 65 10 b (int_prefix n flags).2 ltac:(by left) ltac:(lia) ltac:(lia))
    as (ds & -> & Hne & Hd & Hv).
  rewrite <- (app_assoc sp), (app_assoc (fill a 32)).
  rewrite (strtoll_padded _ sgn s); [by rewrite Hv, E| |done..|].
  - apply Forall_app. split; [|done]. eapply list.Forall_impl; [apply fill_32|]. by intros x ->.
  - unfold LLONG_MAX. lia.
Qed.

(** Printing and parsing are inverse on signed numbers: what [int_to_string]
    and [ll_to_string] print in decimal, whatever the flags and the width,
    [strtoll] reads back as the same number, leaving only trailing padding; the
    single exception is LLONG_MIN. *)
Theorem print_parse_signed n flags width :
  - 2 ^ 63 < n < 2 ^ 63 ->
  (exists c, strtoll (int_to_string n 10 flags width) 10 = Parsed n (fill c 32) None)
  /\ (exists c, strtoll (ll_to_string n 10 flags width) 10 = Parsed n (fill c 32) None).
Proof.
  intros Hn. unfold int_to_string, ll_to_string.
  pose proof (fun a b c => strtoll_layout n flags a b c Hn) as H.
  destruct (int_prefix n flags) as [prefix m]. cbn [fst snd] in H. fold (number_chars 65 10 m). split.
  - destruct (layout_long_shape prefix (number_chars 65 10 m) flags width) as (a & b & c & -> & _). by exists c.
  - destruct (layout_llong_shape prefix (number_chars 65 10 m) flags width) as (a & b & c & -> & _). by exists c.
Qed.

(** ** Examples *)

(** The longest number: 2^64 - 1 in octal with its prefix *)
Lemma number_buffer_safe_witness :
  let sp := Spec PRINTF_FLAG_HASH 0 0 2 in
  s_buff_ok sp (int_to_string (- 2 ^ 63) 10 PRINTF_FLAG_HASH 0) = true
  /\ s_buff_ok sp (ll_to_string (- 2 ^ 63) 10 PRINTF_FLAG_HASH 0) = true
  /\ s_buff_ok sp (uint_to_string (2 ^ 64 - 1) 8 97 PRINTF_FLAG_HASH 0) = true
  /\ s_buff_ok sp (ull_to_string (2 ^ 64 - 1) 8 97 PRINTF_FLAG_HASH 0) = true.
Proof.
  refine (number_buffer_safe (- 2 ^ 63) (2 ^ 64 - 1) 8 97 (Spec PRINTF_FLAG_HASH 0 0 2) _ _ _ _ _).
  - lia.
  - lia.
  - by left.
  - by right.
  - cbn. lia.
Defined.

(** "0x000ff" *)
Lemma print_parse_unsigned_witness :
  uint_to_string 255 16 97 24 7 = [48;120;48;48;48;102;102]
  /\ exists c, strtoul (uint_to_string 255 16 97 24 7) 16 = Parsed 255 (fill c 32) None
       /\ (has_flag 24 PRINTF_FLAG_LEFT_J = false -> fill c 32 = []).
Proof.
  split; [vm_compute; reflexivity|]. apply (print_parse_unsigned 255 16 97 7 24).
  - lia.
  - right; by right.
  - by right.
Defined.

(** "-000042" *)
Lemma print_parse_signed_witness :
  ll_to_string (-42) 10 16 7 = [45;48;48;48;48;52;50]
  /\ ((exists c, strtoll (int_to_string (-42) 10 16 7) 10 = Parsed (-42) (fill c 32) None)
      /\ (exists c, strtoll (ll_to_string (-42) 10 16 7) 10 = Parsed (-42) (fill c 32) None)).
Proof. split; [vm_compute; reflexivity|]. apply (print_parse_signed (-42) 16 7). lia. Defined.

(** The left-justified layout of [int_to_string] subtracts the length of the
    digits twice: "%-6d" of 42 is two characters short; [ll_to_string] is right. *)
Lemma left_justified_short :
  int_to_string 42 10 PRINTF_FLAG_LEFT_J 6 = [52;50;32;32]
  /\ ll_to_string 42 10 PRINTF_FLAG_LEFT_J 6 = [52;50;32;32;32;32].
Proof. split; vm_compute; reflexivity. Qed.

(** The negation of LLONG_MIN is LLONG_MIN, whose remainders are negative: the
    digits come from below '0'. *)
Lemma llong_min_garbage : take 3 (ll_to_string (- 2 ^ 63) 10 0 0) = [45; 39; 46].
Proof. vm_compute. reflexivity. Qed.

(** "%4s" of "ab" writes one space whatever the width, counts it alone, and
    [sprintf] then cuts the string at that count. *)
Lemma string_padding :
  sprintf (replicate 8 120) [37;52;115;33] [ArgStr (Some [97;98])]
    = Ok (2, [97;98;0;33;120;120;120;120]).
Proof. vm_compute. reflexivity. Qed.

(** A format that ends in a percent sign is read behind its NUL. *)
Lemma trailing_percent : sprintf (replicate 8 120) [97;37] [] = Fault.
Proof. vm_compute. reflexivity. Qed.
