(* ===== verification/Stdio.v ===== *)
(** * libc/src/generic/stdio.c: what the output functions produce

    The interpreter of format strings runs over any sink.  Here it is run over
    the simplest one, a text that grows, and the two real sinks are shown to
    simulate it: the bounded string behind [snprintf] and the buffered [FILE]
    behind [fprintf], [fputs] and [fwrite].  Which text the interpreter produces is
    said in [Format]. *)

From stdpp Require Import base list numbers sets.
From S2P Require Import Prelude CMem StrTo Printf.

(** ** Buffered files *)

Definition FLUSHNEWLINE : Z := 1.
Definition MYBUF : Z := 2.
Definition IONBF : Z := 0.
Definition IOLBF : Z := 1.
Definition IOFBF : Z := 2.
Definition BUFSIZ : Z := 4096.
Definition ENOMEM : Z := 52.
Definition EINVAL : Z := 31.

(** [FILE] of stdio.h, with the file behind the descriptor and [errno]; [f_buf]
    is the memory behind [buf]. *)
Record file {dev : Type} := File {
  f_dev : dev;
  f_buf : option (list Z);
  f_buf_size : Z;
  f_buf_pos : Z;
  f_buf_flags : Z;
  f_errno : option Z
}.
Arguments file : clear implicits.
Arguments File {dev}.

Section Files.
(** [__write_internal] on the file behind the descriptor, and [malloc]: the
    memory that is allocated, if there is any. *)
Context {dev : Type} (write_internal : dev -> list Z -> Z * dev) (malloc : Z -> option (list Z)).

(** The state [fdopen] gives a file. *)
Definition fdopen (d : dev) : file dev := File d None BUFSIZ 0 FLUSHNEWLINE None.

Definition setvbuf (stream : file dev) (buffer : option (list Z)) (mode size : Z) : Z * file dev :=
  let '(File d buf bs pos fl e) := stream in
  if mode =? IONBF then (0, File d None 0 pos fl e)
  else if (mode =? IOLBF) || (mode =? IOFBF) then
    (0, File d buffer (if size =? 0 then BUFSIZ else size) pos (if mode =? IOLBF then FLUSHNEWLINE else 0) e)
  else (-1, File d buf bs pos fl (Some EINVAL)).

Definition flush_buffer (stream : file dev) : res (Z * file dev) :=
  let '(File d buf bs pos fl e) := stream in
  if pos =? 0 then Ok (0, stream)
  else
    match buf with
    | Some b =>
        if pos <=? zlen b then
          let '(ret, d) := write_internal d (ztake pos b) in
          Ok (if ret <? 0 then (ret, File d buf bs pos fl e) else (0, File d buf bs 0 fl e))
        else Fault
    | None => Fault
    end.

(** [memcpy(stream->buf + stream->buf_pos, str, |str|)] and the new position *)
Definition buffer_bytes (stream : file dev) (str : list Z) : res (file dev) :=
  let '(File d buf bs pos fl e) := stream in
  match buf ≫= (fun b => store_bytes b pos str) with
  | Some b => Ok (File d (Some b) bs (wrap 64 (pos + zlen str)) fl e)
  | None => Fault
  end.

(** The loop from the end of [str]: the number of characters up to and with the
    last newline. *)
Fixpoint last_newline (i : nat) (str : list Z) : nat :=
  match i with
  | O => O
  | S i' => if nth i' str 0 =? 10 then i else last_newline i' str
  end.

(** The allocation of the buffer on the first write. *)
Definition ensure_buffer (stream : file dev) : option (file dev) :=
  let '(File d buf bs pos fl e) := stream in
  match buf with
  | None =>
      if bs =? 0 then Some stream
      else
        match malloc bs with
        | Some b => Some (File d (Some b) bs pos (Z.lor fl MYBUF) e)
        | None => None
        end
  | Some _ => Some stream
  end.

(** From the search for a newline on. *)
Definition write_buffered (stream : file dev) (str : list Z) : res (Z * file dev) :=
  let i := last_newline (length str) str in
  if (0 <? i)%nat && negb (Z.land (f_buf_flags stream) FLUSHNEWLINE =? 0) then
    match buffer_bytes stream (take i str) with
    | Ok stream =>
        match flush_buffer stream with
        | Ok (ret, stream) =>
            if ret <? 0 then Ok (ret, stream)
            else
              match buffer_bytes stream (drop i str) with
              | Ok stream => Ok (zlen str, stream)
              | Fault => Fault
              | OutOfFuel => OutOfFuel
              end
        | Fault => Fault
        | OutOfFuel => OutOfFuel
        end
    | Fault => Fault
    | OutOfFuel => OutOfFuel
    end
  else
    match buffer_bytes stream str with
    | Ok stream => Ok (zlen str, stream)
    | Fault => Fault
    | OutOfFuel => OutOfFuel
    end.

(** Flush when [str] does not fit behind what is buffered. *)
Definition make_room (stream : file dev) (str : list Z) : res (Z * file dev) :=
  if negb (f_buf_size stream =? 0) && (wrap 64 (f_buf_size stream - f_buf_pos stream) <? zlen str)
  then flush_buffer stream else Ok (0, stream).

Definition write_file (stream : file dev) (str : list Z) : res (Z * file dev) :=
  match ensure_buffer stream with
  | None =>
      let '(File d buf bs pos fl e) := stream in Ok (-1, File d buf bs pos fl (Some ENOMEM))
  | Some stream =>
      match make_room stream str with
      | Ok (ret, stream) =>
          if ret <? 0 then Ok (ret, stream)
          else if f_buf_size stream <? zlen str then
            let '(File d buf bs pos fl e) := stream in
            let '(ret, d) := write_internal d str in
            Ok (ret, File d buf bs pos fl e)
          else if zlen str =? 0 then Ok (0, stream)
          else write_buffered stream str
      | Fault => Fault
      | OutOfFuel => OutOfFuel
      end
  end.

Definition flush_file (stream : file dev) : res (Z * file dev) :=
  match flush_buffer stream with
  | Ok (ret, stream) => Ok (if ret <? 0 then swrap 32 ret else 0, stream)
  | Fault => Fault
  | OutOfFuel => OutOfFuel
  end.

Definition fflush (stream : file dev) : res (Z * file dev) := flush_file stream.

Definition fputc (character : Z) (stream : file dev) : res (Z * file dev) :=
  match write_file stream [wrap 8 character] with
  | Ok (t, stream) => Ok (swrap 32 t, stream)
  | Fault => Fault
  | OutOfFuel => OutOfFuel
  end.

Definition fputs (string : cstring) (stream : file dev) : res (Z * file dev) :=
  match write_file stream string with
  | Ok (a, stream) =>
      match write_file stream [10] with
      | Ok (b, stream) => Ok (swrap 32 (a + b), stream)
      | Fault => Fault
      | OutOfFuel => OutOfFuel
      end
  | Fault => Fault
  | OutOfFuel => OutOfFuel
  end.

(** [ptr] holds [size * count] bytes. *)
Definition fwrite (ptr : list Z) (stream : file dev) : res (Z * file dev) :=
  match write_file stream ptr with
  | Ok (i, stream) => Ok (wrap 64 i, stream)
  | Fault => Fault
  | OutOfFuel => OutOfFuel
  end.

#[local] Instance file_sink : Sink (file dev) := write_file.

Definition fprintf (stream : file dev) (format : cstring) (args : list arg) : res (Z * file dev) :=
  match va_printf stream format args with
  | Ok (t, stream) => Ok (swrap 32 t, stream)
  | Fault => Fault
  | OutOfFuel => OutOfFuel
  end.
End Files.

(** ** Simulation of sinks *)

(** The sink that only collects the text. *)
#[global] Instance text_sink : Sink (list Z) := fun s bs => Ok (zlen bs, s ++ bs).

Definition res_rel {A B} (R : A -> B -> Prop) (x : res A) (y : res B) : Prop :=
  match x, y with
  | Ok a, Ok b => R a b
  | Fault, Fault => True
  | OutOfFuel, OutOfFuel => True
  | _, _ => False
  end.

Section Simulation.
Context {S T : Type} `{Sink S} `{Sink T} (R : S -> T -> Prop).
Context (put_sim : forall s t bs, R s t -> res_rel (fun x y => x.1 = y.1 /\ R x.2 y.2) (put s bs) (put t bs)).

Definition after_rel (x : after S) (y : after T) : Prop :=
  match x, y with
  | Continue i a s n b, Continue i' a' t n' b' => i = i' /\ a = a' /\ n = n' /\ b = b' /\ R s t
  | Return v s, Return w t => v = w /\ R s t
  | _, _ => False
  end.

(** Run both sinks on the same bytes. *)
Ltac sim_put s t bs HR :=
  let P := fresh "P" in
  pose proof (put_sim s t bs HR) as P; unfold res_rel in P;
  let k := fresh "k" in let s' := fresh "s'" in let k' := fresh "k'" in let t' := fresh "t'" in let HR' := fresh "HR" in
  destruct (put s bs) as [[k s']| |], (put t bs) as [[k' t']| |]; try done;
  destruct P as [P HR']; cbn [fst snd] in P, HR'; subst k'.

Lemma put_number_sim str sp i args s t sent :
  R s t -> res_rel after_rel (put_number str sp i args s sent) (put_number str sp i args t sent).
Proof.
  intros HR. unfold put_number. destruct (s_buff_ok sp str); [|done]. sim_put s t str HR. cbn.
  by destruct (k <? 0).
Qed.

Lemma conv_signed_sim sp i args s t sent :
  R s t -> res_rel after_rel (conv_signed sp i args s sent) (conv_signed sp i args t sent).
Proof. intros HR. unfold conv_signed. destruct (next_int args) as [[v a]| |]; [|done..]. by apply put_number_sim. Qed.

Lemma conv_unsigned_sim base hex_base sp i args s t sent :
  R s t -> res_rel after_rel (conv_unsigned base hex_base sp i args s sent) (conv_unsigned base hex_base sp i args t sent).
Proof. intros HR. unfold conv_unsigned. destruct (next_int args) as [[v a]| |]; [|done..]. by apply put_number_sim. Qed.

Lemma conv_char_sim i args s t sent :
  R s t -> res_rel after_rel (conv_char i args s sent) (conv_char i args t sent).
Proof.
  intros HR. unfold conv_char. destruct (next_int args) as [[v a]| |]; [|done..].
  sim_put s t [wrap 8 v] HR. cbn. by destruct (k <? 0).
Qed.

Lemma conv_string_sim sp i args s t sent :
  R s t -> res_rel after_rel (conv_string sp i args s sent) (conv_string sp i args t sent).
Proof.
  intros HR. unfold conv_string. destruct args as [|[v|o] args]; [done..|].
  set (len := if sp_precision sp =? 0 then _ else _). set (str := default null_string o).
  sim_put s t (ztake len str) HR. destruct (k <? 0); [done|].
  destruct (len <? (if sp_width sp =? 0 then len else sp_width sp)); [|done].
  sim_put s' t' [32] HR0. cbn. by destruct (k0 <? 1).
Qed.

Create HintDb sinks.
Hint Resolve put_number_sim conv_signed_sim conv_unsigned_sim conv_char_sim conv_string_sim : sinks.

Lemma conversion_sim fuel format i sp args s t sent :
  R s t -> res_rel after_rel (conversion fuel format i sp args s sent) (conversion fuel format i sp args t sent).
Proof.
  revert i sp args. induction fuel as [|fuel IH]; intros i sp args HR; [done|]. cbn [conversion].
  destruct (char_at format i) as [c| |]; [|done..].
  repeat (case_match; simplify_eq; first [done|by apply IH|by auto with sinks|idtac]).
Qed.

Lemma put_pending_sim format i s t sent buffdiff :
  R s t -> res_rel after_rel (put_pending format i s sent buffdiff) (put_pending format i t sent buffdiff).
Proof.
  intros HR. unfold put_pending. destruct (0 <? buffdiff); [|done].
  sim_put s t (ztake buffdiff (zdrop (Z.of_nat i - buffdiff) format)) HR. cbn. by destruct (k <? 0).
Qed.

Lemma va_printf_closure_sim fuel format i args s t sent buffdiff :
  R s t ->
  res_rel (fun x y => x.1 = y.1 /\ R x.2 y.2) (va_printf_closure fuel format i args s sent buffdiff)
    (va_printf_closure fuel format i args t sent buffdiff).
Proof.
  revert i args s t sent buffdiff. induction fuel as [|fuel IH]; intros i args s t sent buffdiff HR; [done|].
  cbn [va_printf_closure]. destruct (char_at format i) as [c| |]; [|done..].
  pose proof (put_pending_sim format i s t sent buffdiff HR) as P. unfold res_rel, after_rel in P.
  destruct (c =? 0).
  { destruct (put_pending format i s sent buffdiff) as [[]| |], (put_pending format i t sent buffdiff) as [[]| |];
      naive_solver. }
  destruct (negb (c =? 37)); [by apply IH|].
  destruct (put_pending format i s sent buffdiff) as [[i1 a1 s1 n1 b1|v1 s1]| |],
    (put_pending format i t sent buffdiff) as [[i2 a2 t2 n2 b2|v2 t2]| |]; try done.
  destruct P as (-> & -> & -> & -> & HR1).
  pose proof (conversion_sim fuel format (i + 1) spec0 args s1 t2 n2 HR1) as C. unfold res_rel, after_rel in C.
  destruct (conversion fuel format (i + 1) spec0 args s1 n2) as [[i3 a3 s3 n3 b3|v3 s3]| |],
    (conversion fuel format (i + 1) spec0 args t2 n2) as [[i4 a4 t4 n4 b4|v4 t4]| |]; try done.
  destruct C as (-> & -> & -> & -> & HR3). by apply IH.
Qed.

Lemma va_printf_sim format args s t :
  R s t -> res_rel (fun x y => x.1 = y.1 /\ R x.2 y.2) (va_printf s format args) (va_printf t format args).
Proof. apply va_printf_closure_sim. Qed.
End Simulation.

(** ** snprintf *)

(** [str] with its beginning replaced by [text] *)
Definition overlay (text str : list Z) : list Z := text ++ zdrop (zlen text) str.

Lemma zlen_overlay text str : zlen text <= zlen str -> zlen (overlay text str) = zlen str.
Proof.
  intros Hl. pose proof (zlen_nonneg text). unfold overlay. rewrite zlen_app, zlen_zdrop; lia.
Qed.

Lemma store_bytes_overlay a s str :
  zlen a + zlen s <= zlen str -> store_bytes (overlay a str) (zlen a) s = Some (overlay (a ++ s) str).
Proof.
  intros Hl. pose proof (zlen_nonneg a). pose proof (zlen_nonneg s). unfold store_bytes.
  rewrite zlen_overlay by lia. destruct (Z.leb_spec 0 (zlen a)), (Z.leb_spec (zlen a + zlen s) (zlen str)); [|lia..].
  cbn [andb]. f_equal. unfold overlay. rewrite ztake_app by done. rewrite <- (app_assoc a). do 2 f_equal.
  rewrite <- zdrop_zdrop, zdrop_app, zdrop_zdrop, zlen_app by lia. done.
Qed.

(** The descriptor after [text] has been written to it. *)
Definition string_rel (str : list Z) (size : Z) (d : string_descriptor) (text : list Z) : Prop :=
  d = StrDesc (overlay (ztake size text) str) size (zlen text).

Lemma ztake_all {A} (l : list A) n : zlen l <= n -> ztake n l = l.
Proof. intros Hn. unfold ztake, zlen in *. apply take_ge. lia. Qed.

Lemma ztake_app_ge {A} (l k : list A) n : zlen l <= n -> ztake n (l ++ k) = l ++ ztake (n - zlen l) k.
Proof.
  intros Hn. unfold ztake, zlen in *. rewrite take_app, take_ge by lia. do 2 f_equal. lia.
Qed.

Lemma ztake_app_le {A} (l k : list A) n : n <= zlen l -> ztake n (l ++ k) = ztake n l.
Proof. intros Hn. unfold ztake, zlen in *. apply take_app_le. lia. Qed.

Lemma zlen_ztake_le {A} (l : list A) n : 0 <= n -> zlen (ztake n l) <= n.
Proof. intros Hn. unfold ztake, zlen. rewrite length_take. lia. Qed.

Lemma write_string_sim str size d text bs :
  0 <= size <= zlen str -> string_rel str size d text ->
  res_rel (fun x y => x.1 = y.1 /\ string_rel str size x.2 y.2) (put d bs) (put text bs).
Proof.
  intros Hs ->. change (put ?a bs) with (write_string a bs) at 1. unfold write_string. cbn [sd_pos sd_size sd_buffer].
  change (put text bs) with (Ok (zlen bs, text ++ bs)). unfold string_rel.
  destruct (Z.ltb_spec (zlen text) size) as [Hlt|Hge].
  - replace (if size - zlen text <? zlen bs then size - zlen text else zlen bs)
      with (Z.min (size - zlen text) (zlen bs)) by (destruct (Z.ltb_spec (size - zlen text) (zlen bs)); lia).
    pose proof (zlen_nonneg bs). pose proof (zlen_ztake bs (Z.min (size - zlen text) (zlen bs)) ltac:(lia)).
    rewrite ztake_all, store_bytes_overlay by lia. split; [done|]. cbn [snd]. rewrite zlen_app. f_equal.
    rewrite ztake_app_ge by lia. do 2 f_equal. unfold ztake, zlen in *.
    destruct (Z.le_ge_cases (size - Z.of_nat (length text)) (Z.of_nat (length bs))).
    + f_equal. lia.
    + rewrite !take_ge by lia. done.
  - split; [done|]. cbn [snd]. by rewrite zlen_app, ztake_app_le.
Qed.

(** On the text sink no call fails, and never more characters are counted than
    are written. *)
Definition text_after (format : cstring) (a : after (list Z)) : Prop :=
  match a with
  | Continue i _ s sent b => 0 <= sent <= zlen s /\ (b = 0 \/ (b = 1 /\ (1 <= i <= length format)%nat))
  | Return _ _ => False
  end.

Definition ok_and {A} (P : A -> Prop) (r : res A) : Prop := match r with Ok a => P a | _ => True end.

Lemma text_number format str sp i args s sent :
  0 <= sent <= zlen s -> ok_and (text_after format) (put_number str sp i args s sent).
Proof.
  intros Hs. unfold put_number. destruct (s_buff_ok sp str); [|done]. cbn. pose proof (zlen_nonneg str).
  destruct (Z.ltb_spec (zlen str) 0); [lia|]. cbn. rewrite zlen_app. lia.
Qed.

Lemma text_string format sp i args s sent :
  0 <= sent <= zlen s -> ok_and (text_after format) (conv_string sp i args s sent).
Proof.
  intros Hs. unfold conv_string. destruct args as [|[v|o] args]; [done..|].
  set (len := if sp_precision sp =? 0 then _ else _). set (str := default null_string o).
  unfold put, text_sink. pose proof (zlen_nonneg (ztake len str)).
  destruct (Z.ltb_spec (zlen (ztake len str)) 0); [lia|].
  change (zlen [32]) with 1. change (1 <? 1) with false.
  destruct (len <? _); cbn [ok_and text_after]; rewrite !zlen_app; [change (zlen [32]) with 1|]; lia.
Qed.

Lemma text_conversion fuel format i sp args s sent :
  0 <= sent <= zlen s -> ok_and (text_after format) (conversion fuel format i sp args s sent).
Proof.
  intros Hs. revert i sp args. induction fuel as [|fuel IH]; intros i sp args; [done|]. cbn [conversion].
  destruct (char_at format i) as [c| |] eqn:Ec; [|done..].
  destruct (Z.eqb_spec c 37) as [->|].
  { cbn. split; [lia|]. right. unfold char_at in Ec.
    destruct (Nat.ltb_spec i (length format)); [lia|]. by destruct (i =? length format)%nat. }
  repeat (case_match; first [done|by apply IH|idtac]);
    try (unfold conv_signed, conv_unsigned; destruct (next_int args) as [[v a]| |]; [by apply text_number|done..]).
  - unfold conv_char. destruct (next_int args) as [[v a]| |]; [|done..].
    unfold put, text_sink. change (zlen [wrap 8 v]) with 1. change (1 <? 0) with false.
    cbn [ok_and text_after]. rewrite zlen_app. change (zlen [wrap 8 v]) with 1. lia.
  - by apply text_string.
  - cbn. lia.
Qed.

Lemma text_pending format i s sent b :
  0 <= sent <= zlen s -> 0 <= b <= Z.of_nat i -> (i <= length format)%nat ->
  exists s' sent', put_pending format i s sent b = Ok (Continue i [] s' sent' 0) /\ 0 <= sent' <= zlen s'.
Proof.
  intros Hs Hb Hi. unfold put_pending. destruct (Z.ltb_spec 0 b); [|by exists s, sent].
  unfold put, text_sink. pose proof (zlen_nonneg (ztake b (zdrop (Z.of_nat i - b) format))).
  assert (El : zlen (ztake b (zdrop (Z.of_nat i - b) format)) = b).
  { unfold zlen, ztake, zdrop. rewrite length_take, length_drop. lia. }
  rewrite El. destruct (Z.ltb_spec b 0); [lia|]. eexists _, _. split; [done|]. rewrite zlen_app. lia.
Qed.

Lemma text_closure fuel format i args s sent b :
  0 <= sent <= zlen s -> 0 <= b <= Z.of_nat i ->
  ok_and (fun x => 0 <= x.1 <= zlen x.2) (va_printf_closure fuel format i args s sent b).
Proof.
  revert i args s sent b. induction fuel as [|fuel IH]; intros i args s sent b Hs Hb; [done|].
  cbn [va_printf_closure]. destruct (char_at format i) as [c| |] eqn:Ec; [|done..].
  assert (Hi : (i <= length format)%nat).
  { unfold char_at in Ec. destruct (Nat.ltb_spec i (length format)); [lia|].
    destruct (Nat.eqb_spec i (length format)); [lia|done]. }
  destruct (text_pending format i s sent b Hs Hb Hi) as (s' & sent' & E & Hs').
  destruct (c =? 0); [by rewrite E|]. destruct (negb (c =? 37)); [apply IH; lia|]. rewrite E.
  pose proof (text_conversion fuel format (i + 1) spec0 args s' sent' Hs') as C.
  destruct (conversion fuel format (i + 1) spec0 args s' sent') as [[j a t n d|v t]| |]; [|done..].
  cbn in C. apply IH; lia.
Qed.

(** What [snprintf] leaves in the memory before the NUL is stored. *)
Lemma snprintf_text str size format args ret text :
  0 <= size <= zlen str -> va_printf [] format args = Ok (ret, text) ->
  0 <= ret <= zlen text
  /\ va_printf (StrDesc str size 0) format args = Ok (ret, StrDesc (overlay (ztake size text) str) size (zlen text)).
Proof.
  intros Hs E.
  pose proof (va_printf_sim (string_rel str size) (fun d t bs => write_string_sim str size d t bs Hs)
    format args (StrDesc str size 0) []) as H.
  pose proof (text_closure (printf_fuel format) format 0 args [] 0 0 ltac:(done) ltac:(lia)) as Hr.
  change (va_printf_closure _ _ _ _ _ _ _) with (va_printf [] format args) in Hr.
  rewrite E in H, Hr. split; [exact Hr|].
  specialize (H ltac:(unfold string_rel, overlay, ztake; by rewrite take_nil)).
  destruct (va_printf (StrDesc str size 0) format args) as [[r d]| |]; [|done..].
  destruct H as [Er Hd]. cbn [fst snd] in *. unfold string_rel in Hd. by rewrite Er, Hd.
Qed.

Lemma ztake_ztake {A} (l : list A) n m : n <= m -> ztake n (ztake m l) = ztake n l.
Proof. intros Hn. unfold ztake. rewrite take_take. f_equal. lia. Qed.

(** Storing the NUL inside the first [size] bytes. *)
Lemma store_nul buf p size :
  0 <= p < size -> size <= zlen buf ->
  store_bytes buf p [0] = Some (ztake p buf ++ 0 :: zdrop (p + 1) buf)
  /\ zlen (ztake p buf ++ 0 :: zdrop (p + 1) buf) = zlen buf
  /\ zdrop size (ztake p buf ++ 0 :: zdrop (p + 1) buf) = zdrop size buf.
Proof.
  intros Hp Hs. split; [|split].
  - unfold store_bytes. change (zlen [0]) with 1. by destruct (Z.leb_spec 0 p), (Z.leb_spec (p + 1) (zlen buf)); [|lia..].
  - change (0 :: ?l) with ([0] ++ l). rewrite !zlen_app, zlen_ztake, zlen_zdrop by lia.
    change (zlen [0]) with 1. lia.
  - change (0 :: ?l) with ([0] ++ l). rewrite app_assoc.
    replace size with ((p + 1) + (size - p - 1)) at 1 by lia. rewrite <- zdrop_zdrop by lia.
    rewrite zdrop_app by (rewrite zlen_app, zlen_ztake by lia; done). rewrite zdrop_zdrop by lia. f_equal. lia.
Qed.

Lemma zdrop_overlay text str n : zlen text <= n -> zdrop n (overlay text str) = zdrop n str.
Proof.
  intros Hn. pose proof (zlen_nonneg text). unfold overlay.
  replace n with (zlen text + (n - zlen text)) at 1 by lia.
  rewrite <- zdrop_zdrop, zdrop_app, zdrop_zdrop by lia. f_equal. lia.
Qed.

(** [snprintf] writes what the format denotes, cut to the size: when the
    interpreter produces the text [text] and counts [ret] characters, the result
    is [ret], the memory holds the first [min(size - 1, ret)] characters of the
    text and a NUL, and nothing behind the [size] bytes has changed; with size 0
    nothing has.  No access leaves the memory.  [vsnprintf], which counts in an
    [int], does the same for a text whose length an [int] can hold. *)
Theorem snprintf_correct str size format args ret text :
  0 <= size <= zlen str -> va_printf [] format args = Ok (ret, text) ->
  exists mem, snprintf str size format args = Ok (swrap 32 ret, mem)
    /\ (ret < 2 ^ 31 -> vsnprintf str size format args = Ok (swrap 32 ret, mem))
    /\ zlen mem = zlen str /\ zdrop size mem = zdrop size str
    /\ (0 < size -> exists tail, mem = ztake (Z.min (size - 1) ret) text ++ 0 :: tail).
Proof.
  intros Hs E. unfold snprintf, vsnprintf. set (out := if 1 <? size then size else 0).
  assert (Ho : 0 <= out <= size) by (subst out; destruct (Z.ltb_spec 1 size); lia).
  destruct (snprintf_text str out format args ret text ltac:(lia) E) as [Hr ->]. cbn [sd_buffer].
  set (buf := overlay (ztake out text) str). pose proof (zlen_ztake_le text out ltac:(lia)) as Hl.
  assert (Hbl : zlen buf = zlen str) by (apply zlen_overlay; lia).
  assert (Hbd : zdrop size buf = zdrop size str) by (apply zdrop_overlay; lia).
  cut (exists mem, terminate buf size ret = Some mem /\ zlen mem = zlen str /\ zdrop size mem = zdrop size str
    /\ (0 < size -> exists tail, mem = ztake (Z.min (size - 1) ret) text ++ 0 :: tail)).
  { intros (mem & Em & Hmem). exists mem. rewrite Em. split; [done|]. split; [|done].
    intros H31. rewrite swrap_small by lia. by rewrite Em. }
  unfold terminate. destruct (Z.ltb_spec 0 size) as [Hp|]; [|exists buf; split_and!; lia || done].
  replace (if size <=? ret then size - 1 else ret) with (Z.min (size - 1) ret)
    by (destruct (Z.leb_spec size ret); lia).
  set (p := Z.min (size - 1) ret).
  destruct (store_nul buf p size ltac:(lia) ltac:(lia)) as (-> & Hl2 & Hd). eexists. split; [done|].
  split; [lia|]. split; [by rewrite Hd|]. intros _. eexists. f_equal.
  unfold buf, overlay. assert (Hpl : p <= zlen (ztake out text)).
  { unfold zlen, ztake, out in *. rewrite length_take. destruct (Z.ltb_spec 1 size); lia. }
  rewrite ztake_app_le, ztake_ztake by lia. done.
Qed.

(** ** Files on a device that accepts everything *)

Section ReliableFile.
Context {dev : Type} (write_internal : dev -> list Z -> Z * dev) (malloc : Z -> option (list Z)).
Context (contents : dev -> list Z).
(** The device takes all the bytes of a write, and memory never runs out. *)
Context (write_all : forall d bs, (write_internal d bs).1 = zlen bs
                       /\ contents (write_internal d bs).2 = contents d ++ bs).
Context (malloc_all : forall n, 0 < n -> exists b, malloc n = Some b /\ zlen b = n).

Definition pending (f : file dev) : list Z :=
  match f_buf f with Some b => ztake (f_buf_pos f) b | None => [] end.

(** The bytes written so far, on the device or still in the buffer. *)
Definition written (f : file dev) : list Z := contents (f_dev f) ++ pending f.

Definition line_buffered (f : file dev) : bool := negb (Z.land (f_buf_flags f) FLUSHNEWLINE =? 0).

Record file_wf (f : file dev) : Prop := {
  wf_size : 0 <= f_buf_size f < 2 ^ 63;
  wf_pos : 0 <= f_buf_pos f <= f_buf_size f;
  wf_buf : match f_buf f with Some b => f_buf_size f <= zlen b | None => f_buf_pos f = 0 end
}.

(** A line-buffered file holds back no complete line. *)
Definition file_ok (f : file dev) : Prop := file_wf f /\ (line_buffered f = true -> 10 ∉ pending f).

Lemma fdopen_ok d : file_ok (fdopen d).
Proof. split; [by split|]. intros _. apply not_elem_of_nil. Qed.

Lemma flush_buffer_ok f :
  file_wf f -> exists d, flush_buffer write_internal f = Ok (0, File d (f_buf f) (f_buf_size f) 0 (f_buf_flags f) (f_errno f))
    /\ contents d = written f.
Proof.
  intros [Hs Hp Hb]. destruct f as [d buf bs pos fl e]. unfold written, pending. cbn in *.
  destruct (Z.eqb_spec pos 0) as [->|Hnz].
  { exists d. split; [done|]. destruct buf; cbn; by rewrite app_nil_r. }
  destruct buf as [b|]; [|lia]. destruct (Z.leb_spec pos (zlen b)); [|lia].
  pose proof (write_all d (ztake pos b)) as [W1 W2]. destruct (write_internal d (ztake pos b)) as [ret d'].
  cbn [fst snd] in *. exists d'. pose proof (zlen_nonneg (ztake pos b)). destruct (Z.ltb_spec ret 0); [lia|].
  by split.
Qed.

Lemma buffer_bytes_ok f b s :
  file_wf f -> f_buf f = Some b -> f_buf_pos f + zlen s <= f_buf_size f ->
  exists b', buffer_bytes f s
    = Ok (File (f_dev f) (Some b') (f_buf_size f) (f_buf_pos f + zlen s) (f_buf_flags f) (f_errno f))
    /\ f_buf_size f <= zlen b' /\ ztake (f_buf_pos f + zlen s) b' = pending f ++ s.
Proof.
  intros [Hs Hp Hb]. destruct f as [d buf bs pos fl e]. unfold pending. cbn in *. intros -> Hfit.
  pose proof (zlen_nonneg s). unfold buffer_bytes, store_bytes. cbn.
  destruct (Z.leb_spec 0 pos), (Z.leb_spec (pos + zlen s) (zlen b)); [|lia..]. cbn [andb].
  eexists. rewrite wrap_small by lia. split; [done|]. split.
  - rewrite !zlen_app, zlen_ztake, zlen_zdrop by lia. lia.
  - rewrite app_assoc. apply ztake_app. rewrite zlen_app, zlen_ztake by lia. done.
Qed.

Lemma last_newline_spec i str :
  (i <= length str)%nat ->
  (last_newline i str <= i)%nat /\ 10 ∉ drop (last_newline i str) (take i str).
Proof.
  induction i as [|i IH]; intros Hi; cbn [last_newline]; [split; [done|apply not_elem_of_nil]|].
  destruct (Z.eqb_spec (nth i str 0) 10) as [E|E].
  - split; [done|]. rewrite drop_ge by (rewrite length_take; lia). apply not_elem_of_nil.
  - destruct (IH ltac:(lia)) as [H1 H2]. split; [lia|].
    destruct (lookup_lt_is_Some_2 str i ltac:(lia)) as [x Hx].
    rewrite (take_S_r _ _ x Hx), drop_app_le by (rewrite length_take; lia).
    rewrite not_elem_of_app. split; [done|]. rewrite list_elem_of_singleton. intros <-.
    apply E. by apply nth_lookup_Some with (d := 0) in Hx.
Qed.

(** What a write of [bs] does to a file. *)
Definition wrote (f : file dev) (bs : list Z) (r : res (Z * file dev)) : Prop :=
  exists f', r = Ok (zlen bs, f') /\ file_ok f' /\ written f' = written f ++ bs /\ line_buffered f' = line_buffered f.

Lemma write_buffered_ok f b bs :
  file_ok f -> f_buf f = Some b -> f_buf_pos f + zlen bs <= f_buf_size f ->
  wrote f bs (write_buffered write_internal f bs).
Proof.
  intros [Hwf Hl] Hb Hfit. unfold write_buffered. fold (line_buffered f).
  destruct (last_newline_spec (length bs) bs (le_n _)) as [Hi Hn].
  rewrite firstn_all in Hn. set (i := last_newline (length bs) bs) in *.
  pose proof (wf_size f Hwf) as Hs. pose proof (wf_pos f Hwf) as Hp. pose proof (zlen_nonneg bs).
  destruct ((0 <? i)%nat && line_buffered f) eqn:Eb.
  - assert (Hti : zlen (take i bs) = Z.of_nat i) by (unfold zlen; rewrite length_take; lia).
    assert (Hdi : zlen (drop i bs) = zlen bs - Z.of_nat i) by (unfold zlen; rewrite length_drop; lia).
    pose proof (zlen_nonneg (drop i bs)).
    destruct (buffer_bytes_ok f b (take i bs) Hwf Hb ltac:(lia)) as (b1 & -> & Hb1 & E1).
    set (f1 := File _ (Some b1) _ _ _ _).
    destruct (flush_buffer_ok f1) as (d & -> & Hc); [split; cbn; [done|lia|done]|].
    change (0 <? 0) with false. cbv iota. set (f2 := File d (f_buf f1) _ _ _ _).
    destruct (buffer_bytes_ok f2 b1 (drop i bs)) as (b2 & -> & Hb2 & E2); [split; cbn; [done|lia|done]|done|cbn; lia|].
    cbn in Hb2. change (pending f2) with ([] : list Z) in E2. cbn [f_buf_pos f2] in E2.
    eexists. split; [done|]. split; [split; [split; cbn; [done|lia|done]|]|split; [|done]].
    + intros _. unfold pending. cbn. rewrite E2. exact Hn.
    + unfold written, pending at 1. cbn. rewrite E2, Hc. unfold written, pending at 1. cbn.
      rewrite E1. cbn. rewrite <- !app_assoc. by rewrite take_drop.
  - destruct (buffer_bytes_ok f b bs Hwf Hb Hfit) as (b1 & -> & Hb1 & E1). eexists. split; [done|].
    split; [split; [split; cbn; [done|lia|done]|]|split; [|done]].
    + intros Eln. change (line_buffered f = true) in Eln. unfold pending. cbn. rewrite E1, not_elem_of_app.
      split; [by apply Hl|]. rewrite Eln, andb_true_r in Eb. apply Nat.ltb_ge in Eb.
      replace i with 0%nat in Hn by lia. exact Hn.
    + unfold written, pending at 1. cbn. by rewrite E1, app_assoc.
Qed.

(** After the first step there is a buffer, unless the file is unbuffered. *)
Lemma ensure_buffer_ok f :
  file_ok f -> exists f', ensure_buffer malloc f = Some f' /\ file_ok f' /\ written f' = written f
    /\ line_buffered f' = line_buffered f /\ (f_buf_size f' = 0 \/ exists b, f_buf f' = Some b).
Proof.
  intros [Hwf Hl]. pose proof Hwf as [Hs Hp Hb]. destruct f as [d buf bs pos fl e]. unfold ensure_buffer. cbn in *.
  destruct buf as [b|]; [eexists; split_and!; eauto; by split|].
  destruct (Z.eqb_spec bs 0) as [->|]; [eexists; split_and!; eauto; by split|].
  destruct (malloc_all bs ltac:(lia)) as (b & -> & Eb). subst pos.
  eexists. split; [done|]. split; [split; [split; cbn; [done|lia|lia]|intros _; apply not_elem_of_nil]|].
  split; [done|]. split; [|right; by eexists]. unfold line_buffered. cbn. f_equal. f_equal.
  rewrite Z.land_lor_distr_l. change (Z.land MYBUF FLUSHNEWLINE) with 0. by rewrite Z.lor_0_r.
Qed.

Lemma make_room_ok f bs :
  file_ok f -> f_buf_size f = 0 \/ (exists b, f_buf f = Some b) ->
  exists f', make_room write_internal f bs = Ok (0, f') /\ file_ok f' /\ written f' = written f
    /\ line_buffered f' = line_buffered f /\ f_buf f' = f_buf f /\ f_buf_size f' = f_buf_size f
    /\ (zlen bs <= f_buf_size f -> f_buf_pos f' + zlen bs <= f_buf_size f)
    /\ (f_buf_size f < zlen bs -> pending f' = []).
Proof.
  intros [Hwf Hl] Hbuf. pose proof Hwf as [Hs Hp Hb]. unfold make_room. rewrite wrap_small by lia.
  destruct (_ && _) eqn:Eg.
  - destruct (flush_buffer_ok f Hwf) as (d & -> & Hc). set (f' := File d _ _ _ _ _).
    assert (Hpn : pending f' = []) by (unfold pending; cbn; by destruct (f_buf f)).
    exists f'. split; [done|]. split; [split; [split; cbn; [done|lia|by destruct (f_buf f)]|]|].
    { intros _. rewrite Hpn. apply not_elem_of_nil. }
    split; [|split; [done|split; [done|split; [done|split; [cbn; lia|done]]]]].
    unfold written. rewrite Hpn, app_nil_r. exact Hc.
  - exists f. split; [done|]. split; [by split|]. do 4 (split; [done|]).
    destruct (Z.eqb_spec (f_buf_size f) 0) as [Ez|Ez].
    + split; [lia|]. intros _. unfold pending. destruct (f_buf f); [|done].
      replace (f_buf_pos f) with 0 by lia. done.
    + cbn in Eg. apply Z.ltb_ge in Eg. split; lia.
Qed.

Lemma write_file_ok f bs : file_ok f -> wrote f bs (write_file write_internal malloc f bs).
Proof.
  intros Hok. unfold write_file.
  destruct (ensure_buffer_ok f Hok) as (f0 & -> & Hok0 & Ew & El & Hbuf). pose proof (zlen_nonneg bs).
  unfold wrote. rewrite <- Ew, <- El. clear f Hok Ew El.
  destruct (make_room_ok f0 bs Hok0 Hbuf) as (f1 & -> & Hok1 & Ew & El & Eb & Es & Hfit & Hpn).
  rewrite <- Ew, <- El, Es. change (0 <? 0) with false. cbv iota.
  destruct (Z.ltb_spec (f_buf_size f0) (zlen bs)) as [Hlt|Hle].
  - specialize (Hpn Hlt). destruct f1 as [d buf bsz pos fl e].
    pose proof (write_all d bs) as [W1 W2]. destruct (write_internal d bs) as [ret d']. cbn [fst snd] in *.
    eexists. rewrite W1. split; [done|]. split; [|split; [|done]].
    + destruct Hok1 as [[H1 H2 H3] H4]. by split; [split|].
    + unfold written in *. rewrite Hpn. change (pending (File d' buf bsz pos fl e)) with (pending (File d buf bsz pos fl e)).
      rewrite Hpn, !app_nil_r. exact W2.
  - destruct (Z.eqb_spec (zlen bs) 0) as [E0|E0].
    + exists f1. rewrite E0. split; [done|]. split; [done|]. split; [|done].
      destruct bs; [by rewrite app_nil_r|]. unfold zlen in E0. cbn in E0. lia.
    + destruct Hbuf as [Hz|[b Hb]]; [lia|]. apply (write_buffered_ok f1 b); [done|congruence|lia].
Qed.

(** The simulation relation: since it was [f0], the file has taken [text]. *)
Definition file_rel (f0 f : file dev) (text : list Z) : Prop :=
  file_ok f /\ written f = written f0 ++ text /\ line_buffered f = line_buffered f0.

Lemma write_file_sim f0 f text bs :
  file_rel f0 f text ->
  res_rel (fun x y => x.1 = y.1 /\ file_rel f0 x.2 y.2) (write_file write_internal malloc f bs) (put text bs).
Proof.
  intros (Hok & Hw & Hl). destruct (write_file_ok f bs Hok) as (f' & -> & Hok' & Hw' & Hl').
  split; [done|]. cbn [snd]. split; [done|]. rewrite Hw', Hw, app_assoc. split; [done|congruence].
Qed.

(** [fprintf] loses and reorders nothing: on a device that accepts what it is
    given, the bytes on the device followed by the bytes in the buffer grow by
    exactly the text of the format, the result is the count of the interpreter,
    the buffer is never overrun, and a line-buffered file holds back no newline. *)
Theorem fprintf_correct f format args ret text :
  file_ok f -> va_printf [] format args = Ok (ret, text) ->
  exists f', fprintf write_internal malloc f format args = Ok (swrap 32 ret, f')
    /\ written f' = written f ++ text /\ file_ok f'.
Proof.
  intros Hok E. unfold fprintf. set (put_file := file_sink write_internal malloc).
  pose proof (va_printf_sim (file_rel f) (fun g t bs => write_file_sim f g t bs) format args f []) as H.
  rewrite E in H. specialize (H ltac:(split; [done|by rewrite app_nil_r])).
  destruct (va_printf f format args) as [[r f']| |]; [|done..]. destruct H as [Er (Hok' & Hw & _)].
  cbn [fst snd] in *. exists f'. by rewrite Er.
Qed.

(** [fputs], [fwrite] and [fflush] on such a device: the string and a newline
    are appended, or the bytes, and after [fflush] the device holds everything. *)
Theorem fputs_fwrite_fflush f string ptr :
  file_ok f -> zlen string + 1 < 2 ^ 31 ->
  exists f1 f2 f3, fputs write_internal malloc string f = Ok (zlen string + 1, f1)
    /\ fwrite write_internal malloc ptr f1 = Ok (wrap 64 (zlen ptr), f2) /\ fflush write_internal f2 = Ok (0, f3)
    /\ contents (f_dev f3) = written f ++ string ++ [10] ++ ptr /\ file_ok f3.
Proof.
  intros Hok Hlen. unfold fputs, fwrite, fflush, flush_file. pose proof (zlen_nonneg string).
  destruct (write_file_ok f string Hok) as (g1 & -> & Hok1 & Hw1 & _).
  destruct (write_file_ok g1 [10] Hok1) as (g2 & -> & Hok2 & Hw2 & _).
  destruct (write_file_ok g2 ptr Hok2) as (g3 & E3 & Hok3 & Hw3 & _).
  change (zlen [10]) with 1. rewrite swrap_small by lia. exists g2. rewrite E3. exists g3.
  pose proof Hok3 as [Hwf Hl]. destruct (flush_buffer_ok g3 Hwf) as (d & -> & Hc).
  set (g4 := File d _ _ _ _ _). exists g4. do 3 (split; [done|]). split.
  - cbn. by rewrite Hc, Hw3, Hw2, Hw1, <- !app_assoc.
  - destruct Hwf as [H1 H2 H3]. split; [split; cbn; [done|lia|by destruct (f_buf g3)]|].
    intros _. unfold pending. cbn. destruct (f_buf g3); apply not_elem_of_nil.
Qed.
End ReliableFile.

(** ** Termination *)

(** The digit loop of [strtoul] only moves forward. *)
Lemma ul_loop_forward base str k result :
  let '(k', _, str') := ul_loop ul_narrow base str k result in
  (length str' <= length str)%nat /\ (k <> 0 -> k' <> 0).
Proof.
  revert k result; induction str as [|c str IH]; intros k result; cbn [ul_loop length]; [done|].
  destruct (ul_value ul_narrow c) as [d|]; [|done]. destruct (base <=? d); [done|].
  match goal with |- context [if ?b then _ else _] => destruct b end.
  - specialize (IH (-1) result). destruct (ul_loop ul_narrow base str (-1) result) as [[k' r'] str'].
    split; [lia|]. intros _. by apply IH.
  - match goal with |- context [ul_loop _ base str 1 ?r] => specialize (IH 1 r) end.
    destruct (ul_loop ul_narrow base str 1 _) as [[k' r'] str']. split; [lia|]. intros _. by apply IH.
Qed.

Lemma strtoul_digit c t :
  49 <= c <= 57 -> pend (strtoul (c :: t) 10)
    = let '(k, _, str) := ul_loop ul_narrow 10 t 1 (c - 48) in if k =? 0 then c :: t else str.
Proof.
  intros Hc. assert (Hin : c = 49 \/ c = 50 \/ c = 51 \/ c = 52 \/ c = 53 \/ c = 54 \/ c = 55 \/ c = 56 \/ c = 57) by lia.
  repeat destruct Hin as [-> | Hin]; [..|subst c];
    unfold strtoul, parse_ul; cbn -[ul_loop ULLONG_MAX];
    (match goal with |- context [ul_loop ul_narrow 10 (?c :: t) 0 0] =>
       change (ul_loop ul_narrow 10 (c :: t) 0 0) with (ul_loop ul_narrow 10 t 1 (c - 48)) end);
    cbn -[ul_loop ULLONG_MAX]; by destruct (ul_loop ul_narrow 10 t 1 _) as [[k r] str].
Qed.

(** A width in the format is at least one character long. *)
Lemma format_number_positive format i c :
  char_at format i = Ok c -> 49 <= c <= 57 -> (1 <= (format_number format i 10).2)%nat.
Proof.
  intros Ec Hc. unfold char_at in Ec. destruct (Nat.ltb_spec i (length format)) as [Hi|Hi].
  2:{ destruct (i =? length format)%nat; simplify_eq. lia. }
  injection Ec as Ec. unfold format_number. destruct (drop i format) as [|c' t] eqn:Ed.
  { apply (f_equal length) in Ed. rewrite length_drop in Ed. cbn in Ed. lia. }
  assert (c' = c) as ->.
  { rewrite <- Ec, <- (take_drop i format), Ed, app_nth2 by (rewrite length_take; lia).
    rewrite length_take. by replace (i - _)%nat with 0%nat by lia. }
  cbn [snd length]. cut (length (pend (strtoul (c :: t) 10)) <= length t)%nat; [lia|].
  rewrite strtoul_digit by done. pose proof (ul_loop_forward 10 t 1 (c - 48)) as H.
  destruct (ul_loop ul_narrow 10 t 1 (c - 48)) as [[k r] str]. destruct H as [H1 H2].
  by destruct (Z.eqb_spec k 0) as [->|]; [destruct (H2 ltac:(lia))|].
Qed.

(** A result with the property, or an error that is not lack of fuel. *)
Definition done_with {A} (P : A -> Prop) (r : res A) : Prop :=
  match r with Ok a => P a | Fault => True | OutOfFuel => False end.

Section Termination.
Context {S : Type} `{Sink S} (put_done : forall s bs, put s bs <> OutOfFuel).

(** A conversion leaves the index behind where it was. *)
Definition moved (format : cstring) (i : nat) (a : after S) : Prop :=
  match a with Continue j _ _ _ _ => (i <= j <= length format + 1)%nat | Return _ _ => True end.

Ltac done_put :=
  match goal with |- context [put ?s ?bs] =>
    let P := fresh "P" in pose proof (put_done s bs) as P; destruct (put s bs) as [[]| |]; [|done|done]
  end.

Lemma put_number_done str sp format i args s sent :
  (i <= length format)%nat -> done_with (moved format i) (put_number str sp i args s sent).
Proof.
  intros Hi. unfold put_number. destruct (s_buff_ok sp str); [|done]. done_put. destruct (_ <? _); [done|cbn; lia].
Qed.

Lemma conv_signed_done sp format i args s sent :
  (i <= length format)%nat -> done_with (moved format i) (conv_signed sp i args s sent).
Proof.
  intros Hi. unfold conv_signed. destruct args as [|[] args]; [done| |done]. by apply put_number_done.
Qed.

Lemma conv_unsigned_done base hex_base sp format i args s sent :
  (i <= length format)%nat -> done_with (moved format i) (conv_unsigned base hex_base sp i args s sent).
Proof.
  intros Hi. unfold conv_unsigned. destruct args as [|[] args]; [done| |done]. by apply put_number_done.
Qed.

Lemma conv_char_done format i args s sent :
  (i <= length format)%nat -> done_with (moved format i) (conv_char i args s sent).
Proof.
  intros Hi. unfold conv_char. destruct args as [|[] args]; [done| |done]. cbn [next_int].
  done_put. destruct (_ <? _); [done|cbn; lia].
Qed.

Lemma conv_string_done sp format i args s sent :
  (i <= length format)%nat -> done_with (moved format i) (conv_string sp i args s sent).
Proof.
  intros Hi. unfold conv_string. destruct args as [|[] args]; [done..|]. done_put.
  destruct (_ <? 0); [done|]. destruct (_ <? _); [|cbn; lia]. done_put. destruct (_ <? 1); [done|cbn; lia].
Qed.

Lemma done_with_impl {A} (P Q : A -> Prop) r : (forall a, P a -> Q a) -> done_with P r -> done_with Q r.
Proof. destruct r; cbn; auto. Qed.

Lemma conversion_done fuel format i sp args s sent :
  (i <= length format)%nat -> (length format < fuel + i)%nat ->
  done_with (moved format i) (conversion fuel format i sp args s sent).
Proof.
  revert i sp args. induction fuel as [|fuel IH]; intros i sp args Hi Hf; [lia|]. cbn [conversion].
  assert (Hrec : forall j sp args, (i < j <= length format)%nat ->
    done_with (moved format i) (conversion fuel format j sp args s sent)).
  { intros j sp' args' Hj. eapply done_with_impl; [|apply IH; lia]. intros [] Ha; cbn in *; lia. }
  destruct (char_at format i) as [c| |] eqn:Ec; [|done|unfold char_at in Ec; repeat case_match; done].
  assert (Hc : c <> 0 -> (i < length format)%nat).
  { intros Hc. unfold char_at in Ec. destruct (Nat.ltb_spec i (length format)); [done|].
    destruct (i =? length format)%nat; simplify_eq. }
  assert (Hn : forall k b, (i + k <= length format)%nat -> (i + k + (format_number format (i + k) b).2 <= length format)%nat).
  { intros k b Hk. unfold format_number. cbn [snd]. rewrite length_drop. lia. }
  assert (Hpos : (49 <=? c) && (c <=? 57) = true -> (1 <= (format_number format i 10).2)%nat).
  { intros Hd. apply (format_number_positive format i c Ec). lia. }
  (* the characters that are skipped *)
  destruct (Z.eqb_spec c 37); [cbn; lia|].
  do 5 (match goal with |- context [c =? ?k] => destruct (Z.eqb_spec c k); [apply Hrec; lia|] end).
  destruct ((49 <=? c) && (c <=? 57)) eqn:Ed.
  { specialize (Hpos eq_refl). specialize (Hn 0%nat 10 ltac:(lia)). rewrite Nat.add_0_r in Hn.
    destruct (format_number format i 10) as [w len]. cbn [snd] in *. apply Hrec. lia. }
  destruct (Z.eqb_spec c 42); [destruct args as [|[] args]; [done|apply Hrec; lia|done]|].
  destruct (Z.eqb_spec c 46).
  { destruct (char_at format (i + 1)) as [d| |] eqn:E1; [|done|unfold char_at in E1; repeat case_match; done].
    destruct (Z.eqb_spec d 42) as [->|].
    - assert (i + 1 < length format)%nat.
      { unfold char_at in E1. destruct (Nat.ltb_spec (i + 1) (length format)); [done|].
        destruct (i + 1 =? length format)%nat; simplify_eq. }
      destruct args as [|[] args]; [done|apply Hrec; lia|done].
    - specialize (Hn 1%nat 0 ltac:(lia)). destruct (format_number format (i + 1) 0) as [p len].
      cbn [snd] in Hn. apply Hrec. lia. }
  (* the conversions *)
  destruct ((c =? 105) || (c =? 100)); [by apply conv_signed_done|].
  do 5 (match goal with |- context [c =? ?k] => destruct (Z.eqb_spec c k); [by apply conv_unsigned_done|] end).
  destruct (Z.eqb_spec c 99); [by apply conv_char_done|].
  destruct (Z.eqb_spec c 115); [by apply conv_string_done|].
  do 3 (match goal with |- context [c =? ?k] => destruct (Z.eqb_spec c k); [apply Hrec; lia|] end).
  cbn. lia.
Qed.

Lemma put_pending_done format i s sent b : done_with (fun _ => True) (put_pending format i s sent b).
Proof. unfold put_pending. destruct (0 <? b); [|done]. by done_put. Qed.

Lemma closure_done fuel format i args s sent b :
  (length format + 2 <= fuel + i)%nat -> (1 <= fuel)%nat ->
  done_with (fun _ => True) (va_printf_closure fuel format i args s sent b).
Proof.
  revert i args s sent b. induction fuel as [|fuel IH]; intros i args s sent b Hf Hf1; [lia|].
  cbn [va_printf_closure].
  destruct (char_at format i) as [c| |] eqn:Ec; [|done|unfold char_at in Ec; repeat case_match; done].
  pose proof (put_pending_done format i s sent b) as P.
  destruct (Z.eqb_spec c 0) as [->|Hc0].
  { by destruct (put_pending format i s sent b) as [[]| |]. }
  assert (Hi : (i < length format)%nat).
  { unfold char_at in Ec. destruct (Nat.ltb_spec i (length format)); [done|].
    destruct (i =? length format)%nat; simplify_eq. }
  destruct (negb (c =? 37)); [apply IH; lia|].
  destruct (put_pending format i s sent b) as [[i1 a1 s1 n1 b1|]| |]; [|done..].
  pose proof (conversion_done fuel format (i + 1) spec0 args s1 n1 ltac:(lia) ltac:(lia)) as C.
  destruct (conversion fuel format (i + 1) spec0 args s1 n1) as [[j a2 s2 n2 b2|]| |]; [|done..].
  cbn in C. apply IH; lia.
Qed.

(** Formatted output terminates: whatever the format string and the
    arguments, and whatever sink is written to, the interpreter comes to an end
    after at most two more rounds than the format has characters. *)
Theorem printf_terminates sink format args : va_printf sink format args <> OutOfFuel.
Proof.
  intros E. pose proof (closure_done (printf_fuel format) format 0 args sink 0 0) as C.
  unfold va_printf in E. rewrite E in C. apply C; unfold printf_fuel; lia.
Qed.
End Termination.

(** ** Examples *)

(** The format "a%d!" *)
Definition example_format : cstring := [97; 37; 100; 33].

(** Cut to four bytes: "a-1" of "a-12!" *)
Lemma snprintf_correct_witness :
  exists mem, snprintf (replicate 6 120) 4 example_format [ArgInt (-12)] = Ok (swrap 32 5, mem)
    /\ (5 < 2 ^ 31 -> vsnprintf (replicate 6 120) 4 example_format [ArgInt (-12)] = Ok (swrap 32 5, mem)) /\ zlen mem = 6
    /\ zdrop 4 mem = [120; 120] /\ (0 < 4 -> exists tail, mem = ztake 3 [97; 45; 49; 50; 33] ++ 0 :: tail).
Proof.
  apply (snprintf_correct (replicate 6 120) 4 example_format [ArgInt (-12)] 5 [97; 45; 49; 50; 33]).
  - unfold zlen. cbn. lia.
  - vm_compute. reflexivity.
Defined.

(** A device that is the list of the bytes written to it. *)
Definition list_write (d bs : list Z) : Z * list Z := (zlen bs, d ++ bs).
Definition list_malloc (n : Z) : option (list Z) := Some (replicate (Z.to_nat n) 0).

Lemma list_write_all d bs : (list_write d bs).1 = zlen bs /\ (list_write d bs).2 = d ++ bs.
Proof. done. Qed.

Lemma list_malloc_all n : 0 < n -> exists b, list_malloc n = Some b /\ zlen b = n.
Proof. intros Hn. eexists. split; [done|]. rewrite zlen_replicate. lia. Qed.

Lemma fprintf_correct_witness :
  exists f', fprintf list_write list_malloc (fdopen []) example_format [ArgInt (-12)] = Ok (swrap 32 5, f')
    /\ written (fun d => d) f' = written (fun d => d) (fdopen []) ++ [97; 45; 49; 50; 33] /\ file_ok f'.
Proof.
  apply (fprintf_correct list_write list_malloc (fun d => d) list_write_all list_malloc_all).
  - apply fdopen_ok.
  - vm_compute. reflexivity.
Defined.

Lemma fputs_fwrite_fflush_witness :
  exists f1 f2 f3, fputs list_write list_malloc [104; 105] (fdopen []) = Ok (zlen [104; 105] + 1, f1)
    /\ fwrite list_write list_malloc [33] f1 = Ok (wrap 64 (zlen [33]), f2) /\ fflush list_write f2 = Ok (0, f3)
    /\ f_dev f3 = written (fun d => d) (fdopen []) ++ [104; 105] ++ [10] ++ [33] /\ file_ok f3.
Proof.
  apply (fputs_fwrite_fflush list_write list_malloc (fun d => d) list_write_all list_malloc_all).
  - apply fdopen_ok.
  - unfold zlen. cbn. lia.
Defined.

Lemma printf_terminates_witness : va_printf ([] : list Z) example_format [] <> OutOfFuel.
Proof. apply printf_terminates. done. Defined.

(** [flush_buffer] takes any result that is not negative for success: when the
    device accepts only part of the buffer the rest is dropped. *)
Lemma short_write_loses :
  let short := fun (d bs : list Z) => (1, d ++ take 1 bs) in
  match fputs short list_malloc [104; 105] (fdopen []) with
  | Ok (ret, f) => ret = 3 /\ written (fun d => d) f = [104]
  | _ => False
  end.
Proof. vm_compute. done. Qed.
