(* ===== verification/Format.v ===== *)
(** * What a format string denotes

    Format strings as lists of directives, the text a list of directives denotes
    for given arguments, and the proof that the interpreter of stdio.c produces
    that text from the string the directives spell. *)

From stdpp Require Import base list numbers sets.
From S2P Require Import Prelude CMem StrTo Printf Stdio.

(** ** Directives *)

Inductive directive :=
| Lit (s : list Z)
| Percent
| Conv (flags width : list Z) (longs : nat) (c : Z).

(** The characters of a directive. *)
Definition spell (d : directive) : list Z :=
  match d with
  | Lit s => s
  | Percent => [37; 37]
  | Conv flags width longs c => 37 :: flags ++ width ++ replicate longs 108 ++ [c]
  end.

Definition spell_all (ds : list directive) : cstring := concat (spell <$> ds).

Definition flag_bit (c : Z) : Z :=
  if c =? 45 then PRINTF_FLAG_LEFT_J
  else if c =? 43 then PRINTF_FLAG_P_PLUS
  else if c =? 32 then PRINTF_FLAG_SPACE
  else if c =? 35 then PRINTF_FLAG_HASH
  else PRINTF_FLAG_ZERO.

Definition is_flag (c : Z) : Prop := c = 45 \/ c = 43 \/ c = 32 \/ c = 35 \/ c = 48.

Definition width_value (width : list Z) : Z := digits_value 10 0 ((fun c => c - 48) <$> width).

(** Decimal digits, the first not a zero. *)
Definition width_ok (width : list Z) : Prop :=
  (forall c, hd_error width = Some c -> c <> 48) /\ Forall (fun c => 48 <= c <= 57) width
  /\ width_value width < 2 ^ 31 - 1.

Definition directive_ok (d : directive) : Prop :=
  match d with
  | Lit s => Forall (fun c => c <> 0 /\ c <> 37) s
  | Percent => True
  | Conv flags width longs c =>
      Forall is_flag flags /\ width_ok width /\ c ∈ [100; 105; 117; 111; 120; 88; 112; 99; 115]
  end.

Definition conv_spec (flags width : list Z) (longs : nat) : spec :=
  Spec (foldl (fun f c => Z.lor f (flag_bit c)) 0 flags) (width_value width) 0 (Z.of_nat longs).

(** The text of one conversion; a string shorter than the width is left out. *)
Definition render (sp : spec) (c : Z) (a : arg) : option (list Z) :=
  let long := sp_long sp in
  let signed v :=
    if long <? 2 then int_to_string (if long =? 0 then swrap 32 v else swrap 64 v) 10 (sp_flags sp) (sp_width sp)
    else ll_to_string (swrap 64 v) 10 (sp_flags sp) (sp_width sp) in
  let unsigned base hex_base v :=
    if long <? 2 then uint_to_string (if long =? 0 then wrap 32 v else wrap 64 v) base hex_base (sp_flags sp) (sp_width sp)
    else ull_to_string (wrap 64 v) base hex_base (sp_flags sp) (sp_width sp) in
  match a with
  | ArgInt v =>
      if (c =? 100) || (c =? 105) then Some (signed v)
      else if c =? 117 then Some (unsigned 10 97 v)
      else if c =? 111 then Some (unsigned 8 97 v)
      else if c =? 120 then Some (unsigned 16 97 v)
      else if c =? 88 then Some (unsigned 16 65 v)
      else if c =? 112 then Some (uint_to_string (wrap 64 v) 16 97 (sp_flags sp) (sp_width sp))
      else if c =? 99 then Some [wrap 8 v]
      else None
  | ArgStr o =>
      let s := default null_string o in
      if (c =? 115) && (sp_width sp <=? zlen s) then Some s else None
  end.

(** The text of a format. *)
Fixpoint denote (ds : list directive) (args : list arg) : option (list Z) :=
  match ds, args with
  | [], _ => Some []
  | Lit s :: ds, _ => app s <$> denote ds args
  | Percent :: ds, _ => cons 37 <$> denote ds args
  | Conv flags width longs c :: ds, a :: args =>
      t ← render (conv_spec flags width longs) c a; app t <$> denote ds args
  | Conv _ _ _ _ :: _, [] => None
  end.

(** ** One conversion *)

Lemma char_at_mid pre c post : char_at (pre ++ c :: post) (length pre) = Ok c.
Proof.
  unfold char_at. rewrite length_app. cbn [length]. destruct (Nat.ltb_spec (length pre) (length pre + S (length post))); [|lia].
  by rewrite app_nth2, Nat.sub_diag by lia.
Qed.

Lemma char_at_end pre : char_at pre (length pre) = Ok 0.
Proof. unfold char_at. by rewrite Nat.ltb_irrefl, Nat.eqb_refl. Qed.

Section Conversion.
Context (args : list arg) (s : list Z) (sent : Z).

Definition with_flags (flags : list Z) (sp : spec) : spec :=
  Spec (foldl (fun f c => Z.lor f (flag_bit c)) (sp_flags sp) flags) (sp_width sp) (sp_precision sp) (sp_long sp).

Lemma conversion_flags flags fuel pre post sp :
  Forall is_flag flags ->
  conversion (length flags + fuel) (pre ++ flags ++ post) (length pre) sp args s sent
    = conversion fuel (pre ++ flags ++ post) (length (pre ++ flags)) (with_flags flags sp) args s sent.
Proof.
  intros Hf. revert pre sp. induction Hf as [|c flags Hc Hf IH]; intros pre sp.
  { rewrite app_nil_r. by destruct sp. }
  cbn [length Nat.add app]. cbn [conversion]. rewrite char_at_mid.
  replace (length pre + 1)%nat with (length (pre ++ [c])) by (rewrite length_app; done).
  change (pre ++ c :: flags ++ post) with (pre ++ [c] ++ flags ++ post).
  change (pre ++ c :: flags) with (pre ++ [c] ++ flags). rewrite !(app_assoc pre [c]).
  destruct Hc as [-> | [-> | [-> | [-> | ->]]]]; cbn [Z.eqb]; apply IH.
Qed.

Lemma conversion_longs longs fuel pre post sp :
  conversion (longs + fuel) (pre ++ replicate longs 108 ++ post) (length pre) sp args s sent
    = conversion fuel (pre ++ replicate longs 108 ++ post) (length (pre ++ replicate longs 108))
        (set_long (sp_long sp + Z.of_nat longs) sp) args s sent.
Proof.
  revert pre sp. induction longs as [|longs IH]; intros pre sp.
  { cbn. rewrite app_nil_r, Z.add_0_r. by destruct sp. }
  cbn [replicate Nat.add app conversion]. rewrite char_at_mid.
  replace (length pre + 1)%nat with (length (pre ++ [108])) by (rewrite length_app; done).
  change (pre ++ 108 :: replicate longs 108 ++ post) with (pre ++ [108] ++ replicate longs 108 ++ post).
  change (pre ++ 108 :: replicate longs 108) with (pre ++ [108] ++ replicate longs 108). rewrite !(app_assoc pre [108]).
  cbn -[Z.add Z.of_nat app length]. rewrite IH. f_equal. unfold set_long. cbn. f_equal. lia.
Qed.

Lemma width_digits width :
  Forall (fun c => 48 <= c <= 57) width ->
  Forall2 (fun c d => ul_value ul_narrow c = Some d /\ 0 <= d < 10) width ((fun c => c - 48) <$> width).
Proof.
  induction 1 as [|c width Hc Hw IH]; cbn; constructor; [|done]. split; [|lia].
  pose proof (digit_char_ok 65 (c - 48) ltac:(by left) ltac:(lia)) as (_ & _ & E).
  unfold digit_char in E. destruct (Z.ltb_spec (c - 48) 10); [|lia]. by rewrite Z.sub_add in E.
Qed.

Lemma format_number_width width pre post :
  width_ok width -> width <> [] -> ul_stops 10 post ->
  format_number (pre ++ width ++ post) (length pre) 10 = (width_value width, length width).
Proof.
  intros (_ & Hd & Hv) Hne Hp. unfold format_number. rewrite drop_app_length.
  assert (Hb : ul_base 10 [] (width ++ post) 10) by (apply UlGiven; [lia|done]).
  pose proof (strtoul_spec [] [] 1 [] width _ post 10 10 ltac:(done) ltac:(by left) Hb Hne (width_digits width Hd) Hp) as E.
  cbn [app] in E. fold (width_value width) in E. cbv zeta in E.
  assert (H0 : 0 <= width_value width).
  { apply (digits_value_ge 10 _ 0); [lia|lia|]. apply Forall_fmap. eapply list.Forall_impl; [exact Hd|]. cbn. lia. }
  destruct (Z.leb_spec (width_value width) ULLONG_MAX); [|unfold ULLONG_MAX in *; lia].
  rewrite Z.mul_1_l, wrap_small in E by lia. rewrite E. cbn. f_equal. rewrite length_app. lia.
Qed.

Lemma conversion_width width fuel pre post sp :
  width_ok width -> ul_stops 10 post -> sp_width sp = 0 ->
  conversion (Nat.min 1 (length width) + fuel) (pre ++ width ++ post) (length pre) sp args s sent
    = conversion fuel (pre ++ width ++ post) (length (pre ++ width)) (set_width (width_value width) sp) args s sent.
Proof.
  intros Hw Hp H0. destruct width as [|c width].
  { cbn [app length Nat.min Nat.add]. rewrite app_nil_r. destruct sp; cbn in *. by subst. }
  pose proof (format_number_width (c :: width) pre post Hw ltac:(done) Hp) as E.
  destruct Hw as (Hnz & Hd & _). apply Forall_cons_1 in Hd as [Hc _]. specialize (Hnz c eq_refl).
  cbn [length Nat.min Nat.add conversion app] in *. rewrite char_at_mid, E.
  do 6 (match goal with |- context [c =? ?k] => destruct (Z.eqb_spec c k); [lia|] end).
  replace ((49 <=? c) && (c <=? 57)) with true by lia. by rewrite length_app.
Qed.

Lemma put_number_text sp i args' t :
  s_buff_ok sp t = true -> put_number t sp i args' s sent = Ok (Continue (i + 1) args' (s ++ t) (sent + zlen t) 0).
Proof.
  intros Hu. unfold put_number. rewrite Hu. unfold put, text_sink. pose proof (zlen_nonneg t).
  by destruct (Z.ltb_spec (zlen t) 0); [lia|].
Qed.

Section Letters.
Context (sp : spec) (Hw : 0 <= sp_width sp < 2 ^ 31 - 1) (i : nat) (v : Z) (args' : list arg).

Lemma int_width_id : int_width sp = sp_width sp.
Proof. unfold int_width. by rewrite swrap_small by lia. Qed.

Lemma conv_signed_text :
  let t := if sp_long sp <? 2
           then int_to_string (if sp_long sp =? 0 then swrap 32 v else swrap 64 v) 10 (sp_flags sp) (sp_width sp)
           else ll_to_string (swrap 64 v) 10 (sp_flags sp) (sp_width sp) in
  conv_signed sp i (ArgInt v :: args') s sent = Ok (Continue (i + 1) args' (s ++ t) (sent + zlen t) 0).
Proof.
  intros t. unfold conv_signed. cbn [next_int]. rewrite int_width_id. fold t. apply put_number_text. subst t.
  pose proof (swrap_range 32 v ltac:(lia)). pose proof (swrap_range 64 v ltac:(lia)).
  rewrite <- int_width_id. destruct (sp_long sp <? 2); [|by apply (numbers_fit (swrap 64 v) 0 10 65); [lia|lia|lia|left|]].
  destruct (sp_long sp =? 0); by apply (numbers_fit _ 0 10 65); [lia|lia|lia|left|].
Qed.

Lemma conv_unsigned_text base hex_base :
  base = 8 \/ base = 10 \/ base = 16 -> hex_letter hex_base ->
  let t := if sp_long sp <? 2
           then uint_to_string (if sp_long sp =? 0 then wrap 32 v else wrap 64 v) base hex_base (sp_flags sp) (sp_width sp)
           else ull_to_string (wrap 64 v) base hex_base (sp_flags sp) (sp_width sp) in
  conv_unsigned base hex_base sp i (ArgInt v :: args') s sent = Ok (Continue (i + 1) args' (s ++ t) (sent + zlen t) 0).
Proof.
  intros Hb Hh t. unfold conv_unsigned. cbn [next_int]. rewrite int_width_id. fold t. apply put_number_text. subst t.
  pose proof (wrap_range 32 v ltac:(lia)). pose proof (wrap_range 64 v ltac:(lia)).
  rewrite <- int_width_id. destruct (sp_long sp <? 2); [|by apply (numbers_fit 0 (wrap 64 v) base hex_base); [lia|lia|..]].
  destruct (sp_long sp =? 0); by apply (numbers_fit 0 _ base hex_base); [lia|lia|..].
Qed.
End Letters.

(** Behind the flags, the width and the length modifiers. *)
Lemma conversion_letter fuel pre c post sp a args' t :
  c ∈ [100; 105; 117; 111; 120; 88; 112; 99; 115] -> 0 <= sp_width sp < 2 ^ 31 - 1 -> sp_precision sp = 0 ->
  args = a :: args' -> render sp c a = Some t ->
  conversion (S fuel) (pre ++ c :: post) (length pre) sp args s sent
    = Ok (Continue (length pre + 1) args' (s ++ t) (sent + zlen t) 0).
Proof.
  intros Hc Hw Hp -> Hr. cbn [conversion]. rewrite char_at_mid.
  rewrite !elem_of_cons, elem_of_nil in Hc.
  pose proof (conv_signed_text sp Hw (length pre)) as Hs.
  pose proof (conv_unsigned_text sp Hw (length pre)) as Hu.
  pose proof (conv_unsigned_text (set_long 1 sp) Hw (length pre)) as Hptr.
  destruct a as [v|o]; unfold render in Hr.
  - repeat destruct Hc as [-> | Hc]; try done;
      cbn [Z.eqb Pos.eqb orb andb Z.leb Z.compare Pos.compare Pos.compare_cont] in *; injection Hr as <-.
    1,2: apply Hs.
    1-4: apply Hu; unfold hex_letter; lia.
    1: apply (Hptr v args' 16 97); unfold hex_letter; lia.
    by cbn.
  - destruct (Z.eqb_spec c 115) as [->|]; [|done]. cbn [andb] in Hr.
    destruct (Z.leb_spec (sp_width sp) (zlen (default null_string o))) as [Hl|]; [|done]. injection Hr as <-.
    cbn [Z.eqb Pos.eqb orb andb Z.leb Z.compare Pos.compare Pos.compare_cont]. unfold conv_string. rewrite Hp.
    change (0 =? 0) with true. cbv iota. rewrite ztake_all by done. unfold put, text_sink.
    pose proof (zlen_nonneg (default null_string o)).
    destruct (Z.ltb_spec (zlen (default null_string o)) 0); [lia|].
    replace (zlen _ <? _) with false; [done|]. symmetry. apply Z.ltb_ge. destruct (sp_width sp =? 0); lia.
Qed.
End Conversion.

Lemma conv_stops longs c post :
  c ∈ [100; 105; 117; 111; 120; 88; 112; 99; 115] -> ul_stops 10 (replicate longs 108 ++ c :: post).
Proof.
  intros Hc. right. destruct longs; cbn [replicate app head]; [|done].
  rewrite !elem_of_cons, elem_of_nil in Hc. repeat destruct Hc as [-> | Hc]; done.
Qed.

Lemma width_value_nonneg width : width_ok width -> 0 <= width_value width.
Proof.
  intros (_ & Hd & _). apply (digits_value_ge 10 _ 0); [lia|lia|]. apply Forall_fmap.
  eapply list.Forall_impl; [exact Hd|]. cbn. lia.
Qed.

Lemma conversion_directive fuel pre post flags width longs c a args s sent t :
  directive_ok (Conv flags width longs c) -> render (conv_spec flags width longs) c a = Some t ->
  (length flags + length width + longs < fuel)%nat ->
  conversion fuel (pre ++ flags ++ width ++ replicate longs 108 ++ c :: post) (length pre) spec0 (a :: args) s sent
    = Ok (Continue (length (pre ++ flags ++ width ++ replicate longs 108 ++ [c])) args (s ++ t) (sent + zlen t) 0).
Proof.
  intros (Hf & Hw & Hc) Hr Hfuel. pose proof (width_value_nonneg width Hw) as H0. pose proof Hw as (_ & _ & Hmax).
  set (used := Nat.min 1 (length width)). set (k := (fuel - length flags - used - longs - 1)%nat).
  replace fuel with (length flags + (used + (longs + S k)))%nat by lia.
  rewrite conversion_flags by done. rewrite (app_assoc pre flags).
  subst used. rewrite conversion_width by (done || by apply conv_stops). rewrite (app_assoc (pre ++ flags) width).
  rewrite conversion_longs, (app_assoc _ (replicate longs 108)).
  erewrite conversion_letter; [|done|cbn; lia|done|done|exact Hr].
  do 2 f_equal. rewrite <- !app_assoc, !length_app. cbn. lia.
Qed.

(** ** Whole formats *)

Lemma put_pending_text pre lit post s sent :
  put_pending (pre ++ lit ++ post) (length (pre ++ lit)) s sent (zlen lit)
    = Ok (Continue (length (pre ++ lit)) [] (s ++ lit) (sent + zlen lit) 0).
Proof.
  unfold put_pending. destruct (Z.ltb_spec 0 (zlen lit)) as [Hl|Hl].
  - assert (E : ztake (zlen lit) (zdrop (Z.of_nat (length (pre ++ lit)) - zlen lit) (pre ++ lit ++ post)) = lit).
    { rewrite zdrop_app by (unfold zlen; rewrite length_app; lia). by apply ztake_app. }
    rewrite E. unfold put, text_sink. by destruct (Z.ltb_spec (zlen lit) 0); [lia|].
  - destruct lit; [|unfold zlen in Hl; cbn in Hl; lia]. by rewrite !app_nil_r, Z.add_0_r.
Qed.

(** A literal is only counted until the next directive. *)
Lemma closure_literal l fuel pre lit post args s sent :
  Forall (fun c => c <> 0 /\ c <> 37) l ->
  va_printf_closure (length l + fuel) (pre ++ lit ++ l ++ post) (length (pre ++ lit)) args s sent (zlen lit)
    = va_printf_closure fuel (pre ++ (lit ++ l) ++ post) (length (pre ++ lit ++ l)) args s sent (zlen (lit ++ l)).
Proof.
  intros Hl. revert lit. induction Hl as [|c l [H0 H37] Hl IH]; intros lit; [by rewrite app_nil_r|].
  cbn [length Nat.add va_printf_closure]. rewrite (app_assoc pre lit). cbn [app]. rewrite char_at_mid.
  destruct (Z.eqb_spec c 0); [lia|]. destruct (Z.eqb_spec c 37); [lia|]. cbn [negb].
  specialize (IH (lit ++ [c])). rewrite <- !app_assoc in *. cbn [app] in IH.
  replace (length (pre ++ lit) + 1)%nat with (length (pre ++ lit ++ [c])) by (rewrite !length_app; cbn; lia).
  replace (zlen lit + 1) with (zlen (lit ++ [c])) by (by rewrite zlen_app). exact IH.
Qed.

(** At a percent sign the literal before it is written. *)
Lemma closure_percent fuel pre lit post args s sent :
  va_printf_closure (S fuel) (pre ++ lit ++ 37 :: post) (length (pre ++ lit)) args s sent (zlen lit)
    = match conversion fuel (pre ++ lit ++ 37 :: post) (length (pre ++ lit ++ [37])) spec0 args (s ++ lit) (sent + zlen lit) with
      | Ok (Return v sink) => Ok (v, sink)
      | Ok (Continue i args sink sent buffdiff) =>
          va_printf_closure fuel (pre ++ lit ++ 37 :: post) i args sink sent buffdiff
      | Fault => Fault
      | OutOfFuel => OutOfFuel
      end.
Proof.
  cbn [va_printf_closure]. rewrite put_pending_text. rewrite (app_assoc pre lit), char_at_mid.
  replace (length (pre ++ lit) + 1)%nat with (length (pre ++ lit ++ [37])) by (rewrite !length_app; cbn; lia).
  done.
Qed.

Lemma conversion_percent fuel pre post sp args (s : list Z) sent :
  conversion (S fuel) (pre ++ 37 :: post) (length pre) sp args s sent = Ok (Continue (length pre + 1) args s sent 1).
Proof. cbn [conversion]. by rewrite char_at_mid. Qed.

Lemma spell_all_cons d ds : spell_all (d :: ds) = spell d ++ spell_all ds.
Proof. done. Qed.

Lemma denote_conv flags width longs c ds args text :
  denote (Conv flags width longs c :: ds) args = Some text ->
  exists a args' t rest, args = a :: args' /\ render (conv_spec flags width longs) c a = Some t
    /\ denote ds args' = Some rest /\ text = t ++ rest.
Proof.
  destruct args as [|a args]; [done|]. cbn [denote]. intros E.
  apply bind_Some in E as (t & Et & E). apply fmap_Some in E as (rest & Er & ->). by exists a, args, t, rest.
Qed.

Lemma closure_denote ds : Forall directive_ok ds -> forall args text fuel pre lit s sent,
  denote ds args = Some text -> (length (spell_all ds) < fuel)%nat ->
  va_printf_closure fuel (pre ++ lit ++ spell_all ds) (length (pre ++ lit)) args s sent (zlen lit)
    = Ok (sent + zlen lit + zlen text, s ++ lit ++ text).
Proof.
  induction 1 as [|d ds Hd Hds IH]; intros args text fuel pre lit s sent Hden Hfuel.
  { cbn in Hden. injection Hden as <-. destruct fuel as [|fuel]; [lia|].
    cbn [va_printf_closure spell_all fmap list_fmap concat].
    rewrite app_nil_r, char_at_end. change (0 =? 0) with true. cbv iota.
    pose proof (put_pending_text pre lit [] s sent) as E. rewrite app_nil_r in E. rewrite E.
    change (zlen []) with 0. by rewrite Z.add_0_r. }
  rewrite spell_all_cons in *. rewrite length_app in Hfuel.
  destruct d as [l| |flags width longs c].
  - cbn [denote] in Hden. apply fmap_Some in Hden as (rest & Hrest & ->). cbn [spell] in *.
    replace fuel with (length l + (fuel - length l))%nat by lia. rewrite closure_literal by done.
    rewrite IH with (text := rest) by (done || lia). rewrite !zlen_app, <- !app_assoc. do 2 f_equal. lia.
  - cbn [denote] in Hden. apply fmap_Some in Hden as (rest & Hrest & ->). cbn [spell app length] in *.
    destruct fuel as [|[|fuel]]; [lia|lia|]. rewrite closure_percent.
    change (37 :: 37 :: spell_all ds) with ([37] ++ 37 :: spell_all ds).
    rewrite (app_assoc lit [37]), (app_assoc pre), conversion_percent.
    specialize (IH args rest (S fuel) (pre ++ lit ++ [37]) [37] (s ++ lit) (sent + zlen lit) Hrest ltac:(lia)).
    rewrite length_app in IH. change (length [37]) with 1%nat in IH. change (zlen [37]) with 1 in IH. cbn [app] in IH. rewrite IH.
    change (37 :: rest) with ([37] ++ rest). rewrite zlen_app, <- app_assoc. change (zlen [37]) with 1. do 2 f_equal. lia.
  - destruct (denote_conv _ _ _ _ _ _ _ Hden) as (a & args' & t & rest & -> & Ht & Hrest & ->).
    cbn [spell app] in *. destruct fuel as [|fuel]; [lia|]. rewrite closure_percent.
    change (37 :: ?x) with ([37] ++ x). rewrite <- !app_assoc. cbn [app].
    change (37 :: ?x) with ([37] ++ x). rewrite (app_assoc lit [37]), (app_assoc pre (lit ++ [37])).
    cbn [length] in Hfuel. rewrite !length_app, length_replicate in Hfuel. cbn [length] in Hfuel.
    rewrite (conversion_directive fuel _ (spell_all ds) flags width longs c a args' (s ++ lit) _ t Hd Ht) by lia.
    specialize (IH args' rest fuel ((pre ++ lit ++ [37]) ++ flags ++ width ++ replicate longs 108 ++ [c]) []
      ((s ++ lit) ++ t) (sent + zlen lit + zlen t) Hrest ltac:(lia)).
    rewrite app_nil_r in IH. rewrite <- !app_assoc in *. cbn [app] in *.
    change (zlen []) with 0 in IH. rewrite IH. rewrite zlen_app. do 2 f_equal. lia.
Qed.


(** ** Example *)

