(* ===== verification/Rights.v ===== *)
(** * kernel/generic/messaging: rights, messages and ports

    rights.cc, messaging.cc and the part of processes/task_group.cc that holds
    rights.  Tasks talk through ports; the authority to send to a port, or to use
    a memory object, is a right, which a task group holds in its table or a message
    carries to its receiver.  Rights, the structures shared by duplicated rights,
    ports, task groups and messages are objects of the kernel heap and name each
    other by address.  The heap is explicit here: using an object that has been
    deleted, a failing assertion, and unlinking a node from a container it is not
    in are the outcome [None], a kernel that has stopped or is corrupt.

    An operation is one step: the code runs it under the locks of the right and of
    the tables it changes.  Objects given to RCU are listed in [garbage] and deleted
    by [rcu_callback] at any later time.  Red-black trees keyed by an identifier are
    finite maps, the intrusive lists are lists.  Identifiers are unbounded (they
    are 64 bits wide and counted up from 0).  Waking up the owner of a port and the
    rights of interrupts and timers are left out. *)

From stdpp Require Import base list numbers gmap sorting.
From S2P Require Import Prelude.

(** ** Objects *)

Inductive RightType := SendOnce | SendMany | MemObject.
#[global] Instance RightType_eq : EqDecision RightType.
Proof. solve_decision. Defined.

Inductive DestroyReason := DeletedBySender | DeletedByReceiver | SendingMessage.
#[global] Instance DestroyReason_eq : EqDecision DestroyReason.
Proof. solve_decision. Defined.

(** [Right] with the fields of its subclasses.  [holder] is the union of
    [parent_message] and [parent_group], told apart by [of_message]; [parent] is the
    port the right is registered with. *)
Record right := Right {
  rtype : RightType;
  holder : nat;
  right_sender_id : Z;
  alive : bool;
  of_message : bool;
  right_0 : bool;
  sent : bool;
  notification_port : bool;
  parent : option nat;
  right_parent_id : Z;
  shared : option nat;
  mem_object : option nat;
  permission_mask : Z
}.

(** [SendManyRightShared] *)
Record shared_right := SharedRight {
  s_alive : bool;
  send_many_rights : list nat;
  s_parent : option nat;
  s_right_parent_id : Z
}.

(** A pointer to a [GenericMessage] and a pointer to a [RecieveRight]. *)
Inductive generic_message := GMessage (m : nat) | GRight (r : nat) | GShared (s : nat).
Inductive recieve_right := RRight (r : nat) | RShared (s : nat).
#[global] Instance generic_message_eq : EqDecision generic_message.
Proof. solve_decision. Defined.
#[global] Instance recieve_right_eq : EqDecision recieve_right.
Proof. solve_decision. Defined.

Record message := Message {
  task_id_from : Z;
  sent_with_right : Z;
  content : list Z;
  reply_right : option nat;
  m_rights : list (option nat)
}.

Record port := Port {
  owner : Z;
  portno : Z;
  p_alive : bool;
  msg_queue : list generic_message;
  p_current_right_id : Z;
  p_rights : gmap Z recieve_right;
  p_notifiers : gset nat
}.

Record task_group := TaskGroup {
  group_id : Z;
  tasks : gset Z;
  g_rights : gmap Z nat;
  g_current_right_id : Z;
  g_notifiers : gmap Z Z
}.

(** What waits for RCU to delete it. *)
Inductive dead_object := DRight (r : nat) | DShared (s : nat) | DPort (p : nat) | DGroup (g : nat).
#[global] Instance dead_object_eq : EqDecision dead_object.
Proof. solve_decision. Defined.

(** The kernel.  [fresh] is the next unused address; [oracle] says which allocations
    succeed; [kernel_tasks] is the group of the kernel. *)
Record kernel := Kernel {
  rights : gmap nat right;
  shareds : gmap nat shared_right;
  ports : gmap nat port;
  groups : gmap nat task_group;
  messages : gmap nat message;
  mem_objects : gmap nat (list nat);
  garbage : list dead_object;
  global_ports : gmap Z nat;
  global_groups : gmap Z nat;
  biggest_port : Z;
  next_group_id : Z;
  kernel_tasks : nat;
  right0_id : Z;
  fresh : nat;
  oracle : nat -> bool;
  allocations : nat;
  dying : gset Z
}.

(** ** The monad of kernel code *)

Definition K (A : Type) : Type := kernel -> option (A * kernel).
#[global] Instance K_ret : MRet K := fun A a k => Some (a, k).
#[global] Instance K_bind : MBind K := fun A B f c k => match c k with Some (a, k') => f a k' | None => None end.

Definition panic {A} : K A := fun _ => None.
Definition assert (b : bool) : K unit := if b then mret tt else panic.
Definition read {A} (f : kernel -> A) : K A := fun k => Some (f k, k).
Definition from {A} (o : option A) : K A := match o with Some a => mret a | None => panic end.

(** [ReturnStr]: an error code, with the extra value some errors carry, or a result. *)
Inductive result (A : Type) := Error (e aux : Z) | Success (a : A).
Arguments Error {A} e aux.
Arguments Success {A} a.

(** The codes of errno.h, negated. *)
Definition EAGAIN : Z := -9.
Definition EEXIST : Z := -23.
Definition EINVAL : Z := -31.
Definition ENOENT : Z := -48.
Definition ENOMEM : Z := -52.
Definition EPERM : Z := -70.
Definition ESRCH : Z := -78.

(** ** Fields *)

Definition set_holder (v : nat) (x : right) : right :=
  Right (rtype x) v (right_sender_id x) (alive x) (of_message x) (right_0 x) (sent x) (notification_port x) (parent x)
    (right_parent_id x) (shared x) (mem_object x) (permission_mask x).
Definition set_right_sender_id (v : Z) (x : right) : right :=
  Right (rtype x) (holder x) v (alive x) (of_message x) (right_0 x) (sent x) (notification_port x) (parent x)
    (right_parent_id x) (shared x) (mem_object x) (permission_mask x).
Definition set_alive (v : bool) (x : right) : right :=
  Right (rtype x) (holder x) (right_sender_id x) v (of_message x) (right_0 x) (sent x) (notification_port x) (parent
    x) (right_parent_id x) (shared x) (mem_object x) (permission_mask x).
Definition set_of_message (v : bool) (x : right) : right :=
  Right (rtype x) (holder x) (right_sender_id x) (alive x) v (right_0 x) (sent x) (notification_port x) (parent x)
    (right_parent_id x) (shared x) (mem_object x) (permission_mask x).
Definition set_right_0 (v : bool) (x : right) : right :=
  Right (rtype x) (holder x) (right_sender_id x) (alive x) (of_message x) v (sent x) (notification_port x) (parent x)
    (right_parent_id x) (shared x) (mem_object x) (permission_mask x).
Definition set_sent (v : bool) (x : right) : right :=
  Right (rtype x) (holder x) (right_sender_id x) (alive x) (of_message x) (right_0 x) v (notification_port x) (parent
    x) (right_parent_id x) (shared x) (mem_object x) (permission_mask x).
Definition set_notification_port (v : bool) (x : right) : right :=
  Right (rtype x) (holder x) (right_sender_id x) (alive x) (of_message x) (right_0 x) (sent x) v (parent x)
    (right_parent_id x) (shared x) (mem_object x) (permission_mask x).
Definition set_parent (v : option nat) (x : right) : right :=
  Right (rtype x) (holder x) (right_sender_id x) (alive x) (of_message x) (right_0 x) (sent x) (notification_port x) v
    (right_parent_id x) (shared x) (mem_object x) (permission_mask x).
Definition set_right_parent_id (v : Z) (x : right) : right :=
  Right (rtype x) (holder x) (right_sender_id x) (alive x) (of_message x) (right_0 x) (sent x) (notification_port x)
    (parent x) v (shared x) (mem_object x) (permission_mask x).

Definition set_s_alive (v : bool) (x : shared_right) : shared_right :=
  SharedRight v (send_many_rights x) (s_parent x) (s_right_parent_id x).
Definition set_send_many_rights (v : list nat) (x : shared_right) : shared_right :=
  SharedRight (s_alive x) v (s_parent x) (s_right_parent_id x).

Definition set_reply_right (v : option nat) (x : message) : message :=
  Message (task_id_from x) (sent_with_right x) (content x) v (m_rights x).
Definition set_m_rights (v : list (option nat)) (x : message) : message :=
  Message (task_id_from x) (sent_with_right x) (content x) (reply_right x) v.

Definition set_p_alive (v : bool) (x : port) : port :=
  Port (owner x) (portno x) v (msg_queue x) (p_current_right_id x) (p_rights x) (p_notifiers x).
Definition set_msg_queue (v : list generic_message) (x : port) : port :=
  Port (owner x) (portno x) (p_alive x) v (p_current_right_id x) (p_rights x) (p_notifiers x).
Definition set_p_current_right_id (v : Z) (x : port) : port :=
  Port (owner x) (portno x) (p_alive x) (msg_queue x) v (p_rights x) (p_notifiers x).
Definition set_p_rights (v : gmap Z recieve_right) (x : port) : port :=
  Port (owner x) (portno x) (p_alive x) (msg_queue x) (p_current_right_id x) v (p_notifiers x).
Definition set_p_notifiers (v : gset nat) (x : port) : port :=
  Port (owner x) (portno x) (p_alive x) (msg_queue x) (p_current_right_id x) (p_rights x) v.

Definition set_tasks (v : gset Z) (x : task_group) : task_group :=
  TaskGroup (group_id x) v (g_rights x) (g_current_right_id x) (g_notifiers x).
Definition set_g_rights (v : gmap Z nat) (x : task_group) : task_group :=
  TaskGroup (group_id x) (tasks x) v (g_current_right_id x) (g_notifiers x).
Definition set_g_current_right_id (v : Z) (x : task_group) : task_group :=
  TaskGroup (group_id x) (tasks x) (g_rights x) v (g_notifiers x).
Definition set_g_notifiers (v : gmap Z Z) (x : task_group) : task_group :=
  TaskGroup (group_id x) (tasks x) (g_rights x) (g_current_right_id x) v.

Definition set_rights (v : gmap nat right) (x : kernel) : kernel :=
  Kernel v (shareds x) (ports x) (groups x) (messages x) (mem_objects x) (garbage x) (global_ports x) (global_groups
    x) (biggest_port x) (next_group_id x) (kernel_tasks x) (right0_id x) (fresh x) (oracle x) (allocations x)
    (dying x).
Definition set_shareds (v : gmap nat shared_right) (x : kernel) : kernel :=
  Kernel (rights x) v (ports x) (groups x) (messages x) (mem_objects x) (garbage x) (global_ports x) (global_groups x)
    (biggest_port x) (next_group_id x) (kernel_tasks x) (right0_id x) (fresh x) (oracle x) (allocations x)
    (dying x).
Definition set_ports (v : gmap nat port) (x : kernel) : kernel :=
  Kernel (rights x) (shareds x) v (groups x) (messages x) (mem_objects x) (garbage x) (global_ports x) (global_groups
    x) (biggest_port x) (next_group_id x) (kernel_tasks x) (right0_id x) (fresh x) (oracle x) (allocations x)
    (dying x).
Definition set_groups (v : gmap nat task_group) (x : kernel) : kernel :=
  Kernel (rights x) (shareds x) (ports x) v (messages x) (mem_objects x) (garbage x) (global_ports x) (global_groups
    x) (biggest_port x) (next_group_id x) (kernel_tasks x) (right0_id x) (fresh x) (oracle x) (allocations x)
    (dying x).
Definition set_messages (v : gmap nat message) (x : kernel) : kernel :=
  Kernel (rights x) (shareds x) (ports x) (groups x) v (mem_objects x) (garbage x) (global_ports x) (global_groups x)
    (biggest_port x) (next_group_id x) (kernel_tasks x) (right0_id x) (fresh x) (oracle x) (allocations x)
    (dying x).
Definition set_mem_objects (v : gmap nat (list nat)) (x : kernel) : kernel :=
  Kernel (rights x) (shareds x) (ports x) (groups x) (messages x) v (garbage x) (global_ports x) (global_groups x)
    (biggest_port x) (next_group_id x) (kernel_tasks x) (right0_id x) (fresh x) (oracle x) (allocations x)
    (dying x).
Definition set_garbage (v : list dead_object) (x : kernel) : kernel :=
  Kernel (rights x) (shareds x) (ports x) (groups x) (messages x) (mem_objects x) v (global_ports x) (global_groups x)
    (biggest_port x) (next_group_id x) (kernel_tasks x) (right0_id x) (fresh x) (oracle x) (allocations x)
    (dying x).
Definition set_global_ports (v : gmap Z nat) (x : kernel) : kernel :=
  Kernel (rights x) (shareds x) (ports x) (groups x) (messages x) (mem_objects x) (garbage x) v (global_groups x)
    (biggest_port x) (next_group_id x) (kernel_tasks x) (right0_id x) (fresh x) (oracle x) (allocations x)
    (dying x).
Definition set_global_groups (v : gmap Z nat) (x : kernel) : kernel :=
  Kernel (rights x) (shareds x) (ports x) (groups x) (messages x) (mem_objects x) (garbage x) (global_ports x) v
    (biggest_port x) (next_group_id x) (kernel_tasks x) (right0_id x) (fresh x) (oracle x) (allocations x)
    (dying x).
Definition set_biggest_port (v : Z) (x : kernel) : kernel :=
  Kernel (rights x) (shareds x) (ports x) (groups x) (messages x) (mem_objects x) (garbage x) (global_ports x)
    (global_groups x) v (next_group_id x) (kernel_tasks x) (right0_id x) (fresh x) (oracle x) (allocations x)
    (dying x).
Definition set_next_group_id (v : Z) (x : kernel) : kernel :=
  Kernel (rights x) (shareds x) (ports x) (groups x) (messages x) (mem_objects x) (garbage x) (global_ports x)
    (global_groups x) (biggest_port x) v (kernel_tasks x) (right0_id x) (fresh x) (oracle x) (allocations x)
    (dying x).
Definition set_right0_id (v : Z) (x : kernel) : kernel :=
  Kernel (rights x) (shareds x) (ports x) (groups x) (messages x) (mem_objects x) (garbage x) (global_ports x)
    (global_groups x) (biggest_port x) (next_group_id x) (kernel_tasks x) v (fresh x) (oracle x) (allocations x)
    (dying x).
Definition set_fresh (v : nat) (x : kernel) : kernel :=
  Kernel (rights x) (shareds x) (ports x) (groups x) (messages x) (mem_objects x) (garbage x) (global_ports x)
    (global_groups x) (biggest_port x) (next_group_id x) (kernel_tasks x) (right0_id x) v (oracle x) (allocations x)
    (dying x).
Definition set_allocations (v : nat) (x : kernel) : kernel :=
  Kernel (rights x) (shareds x) (ports x) (groups x) (messages x) (mem_objects x) (garbage x) (global_ports x)
    (global_groups x) (biggest_port x) (next_group_id x) (kernel_tasks x) (right0_id x) (fresh x) (oracle x) v
    (dying x).
Definition set_dying (v : gset Z) (x : kernel) : kernel :=
  Kernel (rights x) (shareds x) (ports x) (groups x) (messages x) (mem_objects x) (garbage x) (global_ports x)
    (global_groups x) (biggest_port x) (next_group_id x) (kernel_tasks x) (right0_id x) (fresh x) (oracle x) (allocations x) v.

(** ** Objects and containers *)

Definition get_right (r : nat) : K right := fun k => R ← rights k !! r; Some (R, k).
Definition get_shared (s : nat) : K shared_right := fun k => S ← shareds k !! s; Some (S, k).
Definition get_port (p : nat) : K port := fun k => P ← ports k !! p; Some (P, k).
Definition get_group (g : nat) : K task_group := fun k => G ← groups k !! g; Some (G, k).
Definition get_message (m : nat) : K message := fun k => M ← messages k !! m; Some (M, k).
Definition get_mem_object (o : nat) : K (list nat) := fun k => l ← mem_objects k !! o; Some (l, k).
Definition put_right (r : nat) (R : right) : K unit := fun k => Some (tt, set_rights (<[r := R]> (rights k)) k).
Definition put_shared (s : nat) (S : shared_right) : K unit :=
  fun k => Some (tt, set_shareds (<[s := S]> (shareds k)) k).
Definition put_port (p : nat) (P : port) : K unit := fun k => Some (tt, set_ports (<[p := P]> (ports k)) k).
Definition put_group (g : nat) (G : task_group) : K unit := fun k => Some (tt, set_groups (<[g := G]> (groups k)) k).
Definition put_message (m : nat) (M : message) : K unit :=
  fun k => Some (tt, set_messages (<[m := M]> (messages k)) k).
Definition put_mem_object (o : nat) (l : list nat) : K unit :=
  fun k => Some (tt, set_mem_objects (<[o := l]> (mem_objects k)) k).
Definition upd_right (r : nat) (f : right -> right) : K unit := R ← get_right r; put_right r (f R).

Definition when (b : bool) (c : K unit) : K unit := if b then c else mret tt.

(** The address of a new object, and whether there is memory for one. *)
Definition new_address : K nat := fun k => Some (fresh k, set_fresh (S (fresh k)) k).
Definition alloc : K bool := fun k => Some (oracle k (allocations k), set_allocations (S (allocations k)) k).

(** [insert] and [erase] of a node in a tree ordered by identifiers; a second node of
    the same identifier and the removal of a node that is not there are [None]. *)
Definition tree_insert {A} (id : Z) (x : A) (t : gmap Z A) : option (gmap Z A) :=
  match t !! id with None => Some (<[id := x]> t) | Some _ => None end.
Definition tree_erase {A} `{EqDecision A} (id : Z) (x : A) (t : gmap Z A) : option (gmap Z A) :=
  if decide (t !! id = Some x) then Some (delete id t) else None.

(** [begin]: the node of the smallest identifier. *)
Definition tree_begin {A} (t : gmap Z A) : option (Z * A) :=
  map_fold (fun id x b => match b with
                          | None => Some (id, x)
                          | Some (id', _) => if id <? id' then Some (id, x) else b
                          end) None t.

(** [push_back] and [remove] of a node of an intrusive list. *)
Definition list_push_back {A} `{EqDecision A} (x : A) (l : list A) : option (list A) :=
  if decide (x ∈ l) then None else Some (l ++ [x]).
Definition list_remove {A} `{EqDecision A} (x : A) (l : list A) : option (list A) :=
  if decide (x ∈ l) then Some (filter (fun y => y <> x) l) else None.

(** [rcu_push] *)
Definition rcu_push (d : dead_object) : K unit := fun k => Some (tt, set_garbage (d :: garbage k) k).

(** [++current_right_id] of a port and of a group *)
Definition new_right_id (p : nat) : K Z :=
  P ← get_port p;
  let id := p_current_right_id P + 1 in
  _ ← put_port p (set_p_current_right_id id P); mret id.
Definition atomic_new_right_id (g : nat) : K Z :=
  G ← get_group g;
  let id := g_current_right_id G + 1 in
  _ ← put_group g (set_g_current_right_id id G); mret id.

Definition port_insert (p : nat) (id : Z) (x : recieve_right) : K unit :=
  P ← get_port p; t ← from (tree_insert id x (p_rights P)); put_port p (set_p_rights t P).
Definition port_erase (p : nat) (id : Z) (x : recieve_right) : K unit :=
  P ← get_port p; t ← from (tree_erase id x (p_rights P)); put_port p (set_p_rights t P).
Definition group_insert (g : nat) (id : Z) (r : nat) : K unit :=
  G ← get_group g; t ← from (tree_insert id r (g_rights G)); put_group g (set_g_rights t G).
Definition group_erase (g : nat) (id : Z) (r : nat) : K unit :=
  G ← get_group g; t ← from (tree_erase id r (g_rights G)); put_group g (set_g_rights t G).

(** [Port::enqueue] *)
Definition enqueue (p : nat) (msg : generic_message) : K unit :=
  P ← get_port p; q ← from (list_push_back msg (msg_queue P)); put_port p (set_msg_queue q P).


(** ** Rights *)

(** [Right::of_group] *)
Definition of_group (R : right) (g : nat) : bool := negb (of_message R) && (holder R =? g)%nat.

(** The test [match_group && (of_message || parent_group != match_group)]. *)
Definition mismatch (R : right) (match_group : option nat) : bool :=
  match match_group with Some g => negb (of_group R g) | None => false end.

(** [SendRight::remove_from_parent] and [MemObjectRight::remove_from_parent] *)
Definition remove_from_parent (r : nat) : K unit :=
  R ← get_right r;
  match rtype R with
  | MemObject =>
      o ← from (mem_object R);
      l ← get_mem_object o;
      l ← from (list_remove r l);
      put_mem_object o l
  | SendOnce | SendMany =>
      p ← from (parent R);
      port_erase p (right_parent_id R) (RRight r)
  end.

(** [Right::destroy_nolock], of memory objects *)
Definition destroy_nolock_base (r : nat) (match_group : option nat) : K bool :=
  R ← get_right r;
  if negb (alive R) then mret false
  else if mismatch R match_group then mret false
  else
    _ ← upd_right r (set_alive false);
    _ ← remove_from_parent r;
    _ ← when (negb (of_message R))
          (_ ← group_erase (holder R) (right_sender_id R) r; rcu_push (DRight r));
    mret true.

(** [SendOnceRight::destroy_nolock] *)
Definition destroy_nolock_once (r : nat) (reason : DestroyReason) (match_group : option nat) : K bool :=
  R ← get_right r;
  if negb (alive R) then mret false
  else if mismatch R match_group then mret false
  else
    _ ← upd_right r (set_alive false);
    _ ← remove_from_parent r;
    let send_notification := bool_decide (reason = DeletedBySender) in
    _ ← when (negb (of_message R)) (group_erase (holder R) (right_sender_id R) r);
    _ ← when (negb send_notification && negb (of_message R)) (rcu_push (DRight r));
    _ ← when send_notification
          (p ← from (parent R); _ ← enqueue p (GRight r); upd_right r (set_sent true));
    mret true.

(** The part of [SendManyRight::destroy_nolock] under the lock of the shared
    structure; the result is [send_shared]. *)
Definition leave_shared (r s : nat) : K bool :=
  S ← get_shared s;
  l ← from (list_remove r (send_many_rights S));
  let S := set_send_many_rights l S in
  if s_alive S && bool_decide (l = []) then
    _ ← put_shared s (set_s_alive false S);
    p ← from (s_parent S);
    _ ← port_erase p (s_right_parent_id S) (RShared s);
    mret true
  else _ ← put_shared s S; mret false.

(** [SendManyRight::destroy_nolock] *)
Definition destroy_nolock_many (r : nat) (match_group : option nat) : K bool :=
  R ← get_right r;
  if negb (alive R) then mret false
  else if mismatch R match_group then mret false
  else
    _ ← upd_right r (set_alive false);
    s ← from (shared R);
    send_shared ← leave_shared r s;
    let send_notification := notification_port R in
    _ ← when send_notification (remove_from_parent r);
    _ ← when (negb (of_message R)) (group_erase (holder R) (right_sender_id R) r);
    _ ← when (negb send_notification && negb (of_message R)) (rcu_push (DRight r));
    _ ← when send_notification
          (p ← from (parent R); _ ← enqueue p (GRight r); upd_right r (set_sent true));
    _ ← when send_shared
          (S ← get_shared s; p ← from (s_parent S); enqueue p (GShared s));
    mret true.

(** The virtual [destroy_nolock], and [destroy] *)
Definition destroy (r : nat) (reason : DestroyReason) (match_group : option nat) : K bool :=
  R ← get_right r;
  match rtype R with
  | SendOnce => destroy_nolock_once r reason match_group
  | SendMany => destroy_nolock_many r match_group
  | MemObject => destroy_nolock_base r match_group
  end.

(** [Right::destroy_deleting_message] *)
Definition destroy_deleting_message (r : nat) : K unit :=
  _ ← destroy r DeletedByReceiver None;
  R ← get_right r;
  _ ← assert (of_message R);
  _ ← put_right r (set_of_message false R);
  when (negb (sent R)) (rcu_push (DRight r)).

(** [SendManyRightShared::destroy_recieve_right]: the loop over the rights *)
Fixpoint destroy_senders (fuel : nat) (s : nat) : K unit :=
  match fuel with
  | O => panic
  | S fuel =>
      S ← get_shared s;
      match send_many_rights S with
      | [] => mret tt
      | r :: _ => _ ← destroy r DeletedBySender None; destroy_senders fuel s
      end
  end.

Definition destroy_shared (s : nat) : K bool :=
  S ← get_shared s;
  if negb (s_alive S) then mret false
  else
    _ ← put_shared s (set_s_alive false S);
    p ← from (s_parent S);
    _ ← port_erase p (s_right_parent_id S) (RShared s);
    _ ← destroy_senders (Datatypes.S (length (send_many_rights S))) s;
    _ ← rcu_push (DShared s);
    mret true.

(** The virtual [destroy_recieve_right] *)
Definition destroy_recieve_right (x : recieve_right) : K bool :=
  match x with
  | RRight r => destroy r DeletedByReceiver None
  | RShared s => destroy_shared s
  end.

(** [SendOnceRight::create_for_group] *)
Definition create_once (p g : nat) (id_in_parent : Z) : K (result Z) :=
  _ ← assert (negb (id_in_parent =? 0));
  ok ← alloc;
  if negb ok then mret (Error ENOMEM 0)
  else
    P ← get_port p;
    G ← get_group g;
    if negb (p_alive P) then mret (Error ENOENT 0)
    else if bool_decide (tasks G = ∅) then mret (Error ESRCH 0)
    else
      id ← atomic_new_right_id g;
      r ← new_address;
      _ ← put_right r (Right SendOnce g id true false false false false (Some p) id_in_parent None None 0);
      _ ← port_insert p id_in_parent (RRight r);
      _ ← group_insert g id r;
      mret (Success id).

(** [SendManyRight::create_for_group] *)
Definition create_many (p g : nat) (id_in_parent : Z) : K (result Z) :=
  _ ← assert (negb (id_in_parent =? 0));
  ok ← alloc;
  if negb ok then mret (Error ENOMEM 0)
  else
    ok ← alloc;
    if negb ok then mret (Error ENOMEM 0)
    else
      P ← get_port p;
      G ← get_group g;
      if negb (p_alive P) then mret (Error ENOENT 0)
      else if bool_decide (tasks G = ∅) then mret (Error ESRCH 0)
      else
        id ← atomic_new_right_id g;
        r ← new_address;
        s ← new_address;
        _ ← put_right r (Right SendMany g id true false false false false None 0 (Some s) None 0);
        _ ← put_shared s (SharedRight true [r] (Some p) id_in_parent);
        _ ← port_insert p id_in_parent (RShared s);
        _ ← group_insert g id r;
        mret (Success id).

Definition PERM_ALL : Z := 31.

(** [MemObjectRight::create_for_group] *)
Definition create_mem (o g : nat) (permissions : Z) : K (result Z) :=
  ok ← alloc;
  if negb ok then mret (Error ENOMEM 0)
  else
    l ← get_mem_object o;
    G ← get_group g;
    if bool_decide (tasks G = ∅) then mret (Error ESRCH 0)
    else
      id ← atomic_new_right_id g;
      r ← new_address;
      _ ← put_right r (Right MemObject g id true false false false false None 0 None (Some o)
                         (Z.land permissions PERM_ALL));
      l ← from (list_push_back r l);
      _ ← put_mem_object o l;
      _ ← group_insert g id r;
      mret (Success id).

(** [MemObjectRight::duplicate] *)
Definition duplicate_mem (r g : nat) : K (result Z) :=
  ok ← alloc;
  if negb ok then mret (Error ENOMEM 0)
  else
    R ← get_right r;
    if negb (alive R && of_group R g) then mret (Error ENOENT 0)
    else
      o ← from (mem_object R);
      l ← get_mem_object o;
      G ← get_group g;
      if bool_decide (tasks G = ∅) then mret (Error ESRCH 0)
      else
        id ← atomic_new_right_id g;
        n ← new_address;
        _ ← put_right n (Right MemObject g id true false false false false None 0 None (Some o) (permission_mask R));
        l ← from (list_push_back n l);
        _ ← put_mem_object o l;
        _ ← group_insert g id n;
        mret (Success id).

(** [SendManyRight::duplicate] *)
Definition duplicate_many (r g : nat) : K (result Z) :=
  ok ← alloc;
  if negb ok then mret (Error ENOMEM 0)
  else
    R ← get_right r;
    s ← from (shared R);
    S ← get_shared s;
    p ← from (s_parent S);
    if negb (alive R && of_group R g) then mret (Error ENOENT 0)
    else if negb (s_alive S) then mret (Error ENOENT 0)
    else
      P ← get_port p;
      G ← get_group g;
      if negb (p_alive P) then mret (Error ENOENT 0)
      else if bool_decide (tasks G = ∅) then mret (Error ESRCH 0)
      else
        n ← new_address;
        l ← from (list_push_back n (send_many_rights S));
        _ ← put_shared s (set_send_many_rights l S);
        id ← atomic_new_right_id g;
        _ ← put_right n (Right SendMany g id true false false false false None 0 (Some s) None 0);
        _ ← group_insert g id n;
        mret (Success id).

(** The virtual [duplicate] *)
Definition duplicate (r g : nat) : K (result Z) :=
  R ← get_right r;
  match rtype R with
  | SendOnce => mret (Error EPERM 0)
  | SendMany => duplicate_many r g
  | MemObject => duplicate_mem r g
  end.

(** [Right::atomic_transfer_to_group] *)
Definition atomic_transfer_to_group (r source to : nat) : K (result Z) :=
  R ← get_right r;
  if negb (alive R) then mret (Error ENOENT 0)
  else if negb (of_group R source) then mret (Error ENOENT 0)
  else if (source =? to)%nat then mret (Success (right_sender_id R))
  else
    T ← get_group to;
    if bool_decide (tasks T = ∅) then mret (Error ESRCH 0)
    else
      new_id ← atomic_new_right_id to;
      _ ← group_erase source (right_sender_id R) r;
      _ ← put_right r (set_right_sender_id new_id (set_holder to R));
      _ ← group_insert to new_id r;
      mret (Success new_id).

(** [SendManyRight::atomic_watch] *)
Definition atomic_watch (r p : nat) : K (result Z) :=
  R ← get_right r;
  if negb (alive R) then mret (Error ENOENT 0)
  else if notification_port R then mret (Error EEXIST 0)
  else
    P ← get_port p;
    if negb (p_alive P) then mret (Error ENOENT 0)
    else
      id ← new_right_id p;
      _ ← put_right r (set_parent (Some p) (set_right_parent_id id (set_notification_port true R)));
      _ ← port_insert p id (RRight r);
      mret (Success id).

(** [TaskGroup::atomic_get_right] *)
Definition group_right (g : nat) (id : Z) : K (option nat) :=
  G ← get_group g; mret (g_rights G !! id).

Definition put_right0_id (id : Z) : K unit := fun k => Some (tt, set_right0_id id k).

(** [set_right0] *)
Definition set_right0 (r right_parent : nat) : K Z :=
  id0 ← read right0_id;
  kt ← read kernel_tasks;
  current ← group_right kt id0;
  live ← (match current with Some c => C ← get_right c; mret (alive C) | None => mret false end);
  if live : bool then mret EEXIST
  else
    res ← atomic_transfer_to_group r right_parent kt;
    match res with
    | Error e _ => mret e
    | Success id =>
        _ ← upd_right r (set_right_0 true);
        _ ← put_right0_id id;
        mret 0
    end.

(** ** Messages *)

(** [Message::~Message]: the rights the message still holds die with it.  The fields
    are read off the object, which nothing else refers to any more. *)
Fixpoint destroy_all (l : list nat) : K unit :=
  match l with
  | [] => mret tt
  | r :: l => _ ← destroy_deleting_message r; destroy_all l
  end.

Definition message_slots (M : message) : list nat := option_list (reply_right M) ++ omap id (m_rights M).

Definition drop_message (m : nat) : K unit := fun k => Some (tt, set_messages (delete m (messages k)) k).

(** [delete_self] of the subclasses of [GenericMessage] *)
Definition delete_self (msg : generic_message) : K unit :=
  match msg with
  | GMessage m => M ← get_message m; _ ← drop_message m; destroy_all (message_slots M)
  | GRight r =>
      R ← get_right r;
      _ ← assert (negb (alive R));
      _ ← assert (sent R);
      _ ← put_right r (set_sent false R);
      when (negb (of_message R)) (rcu_push (DRight r))
  | GShared s =>
      S ← get_shared s;
      _ ← assert (negb (s_alive S));
      _ ← assert (bool_decide (send_many_rights S = []));
      rcu_push (DShared s)
  end.

(** [Port::pop_front] *)
Definition pop_front (p : nat) : K unit :=
  P ← get_port p;
  match msg_queue P with
  | [] => panic
  | msg :: q => _ ← put_port p (set_msg_queue q P); delete_self msg
  end.

(** The end of [Port::send_from_system] and of [Port::atomic_send_from_user], with the
    bytes of the message in a vector *)
Definition send_plain (p : nat) (sender : Z) (data : list Z) : K (result unit) :=
  ok ← alloc;
  if negb ok then mret (Error ENOMEM 0)
  else
    m ← new_address;
    _ ← put_message m (Message sender 0 data None [None; None; None; None]);
    _ ← enqueue p (GMessage m);
    mret (Success tt).

(** [Port::send_from_system] *)
Definition send_from_system (p : nat) (data : list Z) : K Z :=
  ok ← alloc;
  if negb ok then mret ENOMEM
  else
    res ← send_plain p 0 data;
    mret (match res with Error e _ => e | Success _ => 0 end).

(** The port a right sends to and the identifier its receiver knows it by:
    [parent_port] and [right_id_in_reciever]. *)
Definition destination (r : nat) : K (nat * Z) :=
  R ← get_right r;
  match rtype R with
  | SendOnce => p ← from (parent R); mret (p, right_parent_id R)
  | SendMany => s ← from (shared R); S ← get_shared s; p ← from (s_parent S); mret (p, s_right_parent_id S)
  | MemObject => panic
  end.

(** The index of the first right of the message that is dead or not the sender's. *)
Fixpoint check_rights (array : list (option nat)) (g : nat) (i : Z) : K (option Z) :=
  match array with
  | [] => mret None
  | None :: array => check_rights array g (i + 1)
  | Some x :: array =>
      X ← get_right x;
      if alive X && of_group X g then check_rights array g (i + 1) else mret (Some (i + 1))
  end.

(** Move the rights of the message out of the table of the sender's group. *)
Fixpoint attach_rights (l : list nat) (g m : nat) : K unit :=
  match l with
  | [] => mret tt
  | x :: l =>
      X ← get_right x;
      _ ← assert (of_group X g);
      _ ← group_erase g (right_sender_id X) x;
      _ ← put_right x (set_holder m (set_of_message true X));
      attach_rights l g m
  end.

(** [SendOnceRight::create_for_message] and [SendManyRight::create_for_message]: is there
    memory for the right to reply? *)
Definition alloc_reply (reply_port : option nat) (new_right_type : RightType) : K bool :=
  match reply_port, new_right_type with
  | None, _ => mret true
  | Some _, SendOnce => alloc
  | Some _, _ => ok ← alloc; if ok : bool then alloc else mret false
  end.

(** Create the right to reply inside message [m] and register it with the port. *)
Definition create_reply (reply_port : option nat) (new_right_type : RightType) (m : nat) : K (option nat * Z) :=
  match reply_port with
  | None => mret (None, 0)
  | Some rp =>
      P ← get_port rp;
      _ ← assert (p_alive P);
      id ← new_right_id rp;
      r ← new_address;
      match new_right_type with
      | SendOnce =>
          _ ← put_right r (Right SendOnce m 0 true true false false false (Some rp) id None None 0);
          _ ← port_insert rp id (RRight r);
          mret (Some r, id)
      | SendMany =>
          s ← new_address;
          _ ← put_right r (Right SendMany m 0 true true false false false None 0 (Some s) None 0);
          _ ← put_shared s (SharedRight true [r] (Some rp) id);
          _ ← port_insert rp id (RShared s);
          mret (Some r, id)
      | MemObject => panic
      end
  end.

(** The second half of [Port::send_message_right], when all checks have passed: the rights
    move into the message, the right to reply is registered, the message is queued, and a right
    that was good for one message is used up. *)
Definition commit_message (r : nat) (R : right) (send_to : nat) (id_in_reciever : Z) (verify_group : nat)
    (reply_port : option nat) (array : list (option nat)) (data : list Z) (sender_id : Z) (new_right_type : RightType)
    (always_destroy_right : bool) : K (result (option nat * Z)) :=
  m ← new_address;
  _ ← attach_rights (omap id array) verify_group m;
  '(reply, new_id) ← create_reply reply_port new_right_type m;
  _ ← put_message m (Message sender_id id_in_reciever data reply array);
  _ ← enqueue send_to (GMessage m);
  _ ← (if bool_decide (rtype R = SendOnce) || always_destroy_right
       then destroy r SendingMessage None else mret true);
  mret (Success (reply, new_id)).

(** [Port::send_message_right] *)
Definition send_message_right (r verify_group : nat) (reply_port : option nat) (array : list (option nat))
    (data : list Z) (sender_id : Z) (new_right_type : RightType) (always_destroy_right : bool)
    : K (result (option nat * Z)) :=
  R ← get_right r;
  if bool_decide (rtype R = MemObject) then mret (Error EPERM 0)
  else
    '(send_to, id_in_reciever) ← destination r;
    ok ← alloc;
    ok' ← (if ok : bool then alloc_reply reply_port new_right_type else mret false);
    if negb ok' then mret (Error ENOMEM 0)
    else
      _ ← assert (negb (id_in_reciever =? 0));
      if negb (bool_decide (NoDup (r :: omap id array))) then mret (Error EINVAL 0)
      else if negb (alive R && (of_group R verify_group || right_0 R)) then mret (Error ENOENT 0)
      else
        bad ← check_rights array verify_group 0;
        match bad with
        | Some i => mret (Error ENOENT i)
        | None =>
            if right_0 R && always_destroy_right then mret (Error EINVAL 0)
            else commit_message r R send_to id_in_reciever verify_group reply_port array data sender_id
                   new_right_type always_destroy_right
        end.

(** [TaskGroup::transfer_rights]: a round of the loop over the four rights of a message *)
Definition accept_round (m g : nat) (id : Z) (i : nat) (M : message) : K unit :=
  match m_rights M !! i with
  | Some (Some r) =>
      _ ← put_message m (set_m_rights (<[i := None]> (m_rights M)) M);
      _ ← assert (negb (id =? 0));
      R ← get_right r;
      _ ← assert (of_message R);
      if alive R then
        _ ← put_right r (set_of_message false (set_holder g (set_right_sender_id id R)));
        group_insert g id r
      else if sent R then put_right r (set_of_message false R)
      else rcu_push (DRight r)
  | _ => mret tt
  end.

Fixpoint accept_loop (m g : nat) (right_ids : list Z) (i : nat) : K unit :=
  match right_ids with
  | [] => mret tt
  | id :: right_ids =>
      M ← get_message m;
      _ ← accept_round m g id i M;
      accept_loop m g right_ids (S i)
  end.

Definition transfer_rights (g : nat) (msg : generic_message) (right_ids : list Z) : K Z :=
  G ← get_group g;
  if bool_decide (tasks G = ∅) then mret ESRCH
  else
    match msg with
    | GMessage m => _ ← accept_loop m g right_ids 0; mret 0
    | _ => mret 0
    end.

(** ** Ports and task groups *)

Definition register_port (no : Z) (p : nat) : K unit :=
  fun k => t ← tree_insert no p (global_ports k); Some (tt, set_global_ports t k).
Definition unregister_port (no : Z) (p : nat) : K unit :=
  fun k => t ← tree_erase no p (global_ports k); Some (tt, set_global_ports t k).
Definition register_group (n : Z) (g : nat) : K unit :=
  fun k => t ← tree_insert n g (global_groups k); Some (tt, set_next_group_id (n + 1) (set_global_groups t k)).
Definition unregister_group (n : Z) (g : nat) : K unit :=
  fun k => t ← tree_erase n g (global_groups k); Some (tt, set_global_groups t k).

(** [Port::atomic_get_port]; the number 0 stands for [port0_id]. *)
Definition port0_id : Z := 0.
Definition atomic_get_port (portno : Z) : K (option nat) :=
  read (fun k => global_ports k !! (if portno =? 0 then port0_id else portno)).

(** [Port::atomic_create_port].  The new port is used without a test for NULL; there is no
    port for a task that is dying. *)
Definition put_biggest_port (no : Z) : K unit := fun k => Some (tt, set_biggest_port no k).
Definition atomic_create_port (task : Z) : K (option Z) :=
  n ← read biggest_port;
  let no := n + 1 in
  _ ← put_biggest_port no;
  ok ← alloc;
  _ ← assert ok;
  d ← read dying;
  if bool_decide (task ∈ d) then mret None
  else
    p ← new_address;
    _ ← put_port p (Port task no true [] 0 ∅ ∅);
    _ ← register_port no p;
    mret (Some no).

(** [Port::delete_self]: the loop over the rights registered with the port *)
Fixpoint destroy_registered (fuel : nat) (p : nat) : K unit :=
  match fuel with
  | O => panic
  | S fuel =>
      P ← get_port p;
      match tree_begin (p_rights P) with
      | None => mret tt
      | Some (_, x) => _ ← destroy_recieve_right x; destroy_registered fuel p
      end
  end.

(** and the one over the groups that notify the port *)
Fixpoint forget_port (l : list nat) (no : Z) : K unit :=
  match l with
  | [] => mret tt
  | g :: l =>
      G ← get_group g;
      _ ← put_group g (set_g_notifiers (delete no (g_notifiers G)) G);
      forget_port l no
  end.

Definition delete_port (p : nat) : K bool :=
  P ← get_port p;
  if negb (p_alive P) then mret false
  else
    _ ← put_port p (set_p_alive false P);
    _ ← unregister_port (portno P) p;
    _ ← forget_port (elements (p_notifiers P)) (portno P);
    _ ← destroy_registered (S (size (p_rights P))) p;
    _ ← rcu_push (DPort p);
    mret true.

(** [Port::~Port]: the loop over the messages *)
Fixpoint drain (fuel : nat) (p : nat) : K unit :=
  match fuel with
  | O => panic
  | S fuel =>
      P ← get_port p;
      match msg_queue P with
      | [] => mret tt
      | _ :: _ => _ ← pop_front p; drain fuel p
      end
  end.

(** ** Notifications of task groups *)

(** The entries of a map, in the order of their keys *)
Definition key_le {A} (x y : Z * A) : Prop := x.1 <= y.1.
#[global] Instance key_le_dec {A} : RelDecision (@key_le A).
Proof. intros x y. apply Z.le_dec. Defined.
Definition in_order {A} (t : gmap Z A) : list (Z * A) := merge_sort key_le (map_to_list t).

Definition ACTION_MASK_ON_DESTROY : Z := 1.
Definition ACTION_MASK_ON_REMOVE_TASK : Z := 2.
Definition ACTION_MASK_ON_ADD_TASK : Z := 4.
Definition ACTION_MASK_ALL : Z := 7.
Definition Event_Group_Task_Removed_NUM : Z := 1.
Definition Event_Group_Task_Added_NUM : Z := 2.

(** [IPC_Kernel_Group_Destroyed] and [IPC_Kernel_Group_Task_Changed] *)
Definition group_destroyed (id : Z) : list Z := le_bytes 4 36 ++ le_bytes 4 0 ++ le_bytes 8 id.
Definition task_changed (event id task : Z) : list Z :=
  le_bytes 4 37 ++ le_bytes 2 0 ++ le_bytes 2 event ++ le_bytes 8 id ++ le_bytes 8 task.

(** The loop over [notifier_ports] that tells the ports of an event.  A message that
    cannot be sent is lost. *)
Definition notify_port (no : Z) (data : list Z) : K unit :=
  port ← atomic_get_port no;
  match port with None => mret tt | Some p => _ ← send_from_system p data; mret tt end.

Fixpoint notify_ports (l : list (Z * Z)) (action : Z) (data : list Z) : K unit :=
  match l with
  | [] => mret tt
  | (no, mask) :: l =>
      _ ← when (negb (Z.land mask action =? 0)) (notify_port no data);
      notify_ports l action data
  end.

(** [TaskGroup::destroy]: the loop over the ports, which also takes the group out of their sets *)
Fixpoint leave_ports (g : nat) (l : list (Z * Z)) (data : list Z) : K unit :=
  match l with
  | [] => mret tt
  | (no, mask) :: l =>
      port ← atomic_get_port no;
      _ ← match port with
          | None => mret tt
          | Some p =>
              _ ← when (negb (Z.land mask ACTION_MASK_ON_DESTROY =? 0)) (_ ← send_from_system p data; mret tt);
              P ← get_port p;
              put_port p (set_p_notifiers (p_notifiers P ∖ {[ g ]}) P)
          end;
      leave_ports g l data
  end.

(** and the loop over the rights of the group *)
Fixpoint destroy_held (fuel : nat) (g : nat) : K unit :=
  match fuel with
  | O => panic
  | S fuel =>
      G ← get_group g;
      match tree_begin (g_rights G) with
      | None => mret tt
      | Some (_, r) => _ ← destroy r DeletedBySender (Some g); destroy_held fuel g
      end
  end.

Definition destroy_group (g : nat) : K unit :=
  G ← get_group g;
  _ ← unregister_group (group_id G) g;
  _ ← leave_ports g (in_order (g_notifiers G)) (group_destroyed (group_id G));
  _ ← destroy_held (S (size (g_rights G))) g;
  rcu_push (DGroup g).

(** [TaskGroup::create_for_task].  When there is no memory for the entry of the group in
    the set of the task, or the task is dying, the code returns a null pointer, as a success. *)
Definition create_for_task (task : Z) : K (result (option nat)) :=
  ok ← alloc;
  if negb ok then mret (Error ENOMEM 0)
  else
    n ← read next_group_id;
    g ← new_address;
    _ ← put_group g (TaskGroup n ∅ ∅ 0 ∅);
    _ ← register_group n g;
    d ← read dying;
    ok ← (if bool_decide (task ∈ d) then mret false else alloc);
    if negb ok then _ ← destroy_group g; mret (Success None)
    else
      ok ← alloc;
      if negb ok then _ ← destroy_group g; mret (Error ENOMEM 0)
      else _ ← put_group g (TaskGroup n {[ task ]} ∅ 0 ∅); mret (Success (Some g)).

(** [TaskGroup::atomic_register_task]: the set of tasks, which agrees with the sets of
    groups of the tasks *)
Definition atomic_register_task (g : nat) (task : Z) : K Z :=
  d ← read dying;
  if bool_decide (task ∈ d) then mret ENOENT
  else
    G ← get_group g;
    if bool_decide (task ∈ tasks G) then mret EEXIST
    else
      ok ← alloc;
      if negb ok then mret ENOMEM
      else if bool_decide (tasks G = ∅) then mret ESRCH
      else
        ok ← alloc;
        if negb ok then mret ENOMEM
        else
          _ ← put_group g (set_tasks ({[ task ]} ∪ tasks G) G);
          _ ← notify_ports (in_order (g_notifiers G)) ACTION_MASK_ON_ADD_TASK
                (task_changed Event_Group_Task_Added_NUM (group_id G) task);
          mret 0.

(** [TaskGroup::atomic_remove_task]: the set of tasks; the last one takes the group with it *)
Definition atomic_remove_task (g : nat) (task : Z) : K Z :=
  G ← get_group g;
  if negb (bool_decide (task ∈ tasks G)) then mret ENOENT
  else
    let T := tasks G ∖ {[ task ]} in
    _ ← put_group g (set_tasks T G);
    _ ← when (bool_decide (T = ∅)) (destroy_group g);
    G ← get_group g;
    _ ← notify_ports (in_order (g_notifiers G)) ACTION_MASK_ON_REMOVE_TASK
          (task_changed Event_Group_Task_Removed_NUM (group_id G) task);
    mret 0.

(** [TaskGroup::atomic_change_notifier_mask]: the entry of the port *)
Definition change_notifier (g p : nat) (no mask : Z) : K (result Z) :=
  G ← get_group g;
  match g_notifiers G !! no with
  | None =>
      if mask =? 0 then mret (Success 0)
      else
        ok ← alloc;
        if negb ok then mret (Error ENOMEM 0)
        else
          P ← get_port p;
          ok ← (if bool_decide (g ∈ p_notifiers P) then mret false else alloc);
          if negb ok then mret (Error ENOMEM 0)
          else
            _ ← put_group g (set_g_notifiers (<[no := mask]> (g_notifiers G)) G);
            _ ← put_port p (set_p_notifiers ({[ g ]} ∪ p_notifiers P) P);
            mret (Success 0)
  | Some old_mask =>
      _ ← (if mask =? 0 then
             _ ← put_group g (set_g_notifiers (delete no (g_notifiers G)) G);
             P ← get_port p;
             put_port p (set_p_notifiers (p_notifiers P ∖ {[ g ]}) P)
           else put_group g (set_g_notifiers (<[no := mask]> (g_notifiers G)) G));
      mret (Success old_mask)
  end.

(** and the messages about the tasks that are in the group already *)
Fixpoint report_tasks (p : nat) (id : Z) (l : list Z) : K unit :=
  match l with
  | [] => mret tt
  | t :: l => _ ← send_from_system p (task_changed Event_Group_Task_Added_NUM id t); report_tasks p id l
  end.

Definition atomic_change_notifier_mask (g p : nat) (mask flags : Z) : K (result Z) :=
  G ← get_group g;
  if bool_decide (tasks G = ∅) then mret (Error ESRCH 0)
  else
    P ← get_port p;
    res ← change_notifier g p (portno P) (Z.land mask ACTION_MASK_ALL);
    match res with
    | Error e aux => mret (Error e aux)
    | Success old_mask =>
        _ ← when (negb (Z.land flags 1 =? 0)) (report_tasks p (group_id G) (merge_sort Z.le (elements (tasks G))));
        mret (Success old_mask)
    end.

(** What RCU calls for an object pushed to it: its destructor. *)
Definition take_garbage (d : dead_object) : K unit :=
  fun k => l ← list_remove d (garbage k); Some (tt, set_garbage l k).
Definition drop_right (r : nat) : K unit := fun k => Some (tt, set_rights (delete r (rights k)) k).
Definition drop_shared (s : nat) : K unit := fun k => Some (tt, set_shareds (delete s (shareds k)) k).
Definition drop_port (p : nat) : K unit := fun k => Some (tt, set_ports (delete p (ports k)) k).
Definition drop_group (g : nat) : K unit := fun k => Some (tt, set_groups (delete g (groups k)) k).

Definition rcu_callback (d : dead_object) : K unit :=
  _ ← take_garbage d;
  match d with
  | DRight r => _ ← get_right r; drop_right r
  | DShared s => _ ← get_shared s; drop_shared s
  | DGroup g => _ ← get_group g; drop_group g
  | DPort p => P ← get_port p; _ ← drain (S (length (msg_queue P))) p; drop_port p
  end.
