(* ===== verification/RightsInv.v ===== *)
(** * The invariant of rights, messages and ports

    Every table of the kernel is an index of the rights that are alive: the table of
    a task group, the rights registered with a port, the senders of a shared
    structure and the rights to a memory object each hold exactly the rights whose
    fields say so.  A right that is dead is kept by the message that carries it, by
    the queue its notification is in, or else by RCU, which has it exactly once. *)

From stdpp Require Import base list numbers gmap fin_maps sorting.
From S2P Require Import Prelude Rights.

(** ** Tables and the fields they index *)

Section Agree.
Context {I X : Type} `{EqDecision I, EqDecision X}.
Implicit Types (tab : I -> option X) (lst : I -> list X) (v : X -> option I).

(** A table with one place for every index. *)
Definition agree tab v : Prop := forall i x, tab i = Some x <-> v x = Some i.

Lemma agree_ext tab tab' v v' :
  agree tab v -> (forall i, tab' i = tab i) -> (forall x, v' x = v x) -> agree tab' v'.
Proof. intros H Ht Hv i x. by rewrite Ht, Hv. Qed.

Lemma agree_del tab tab' v v' i x :
  agree tab v -> v x = Some i -> tab' i = None -> (forall j, j <> i -> tab' j = tab j) ->
  v' x = None -> (forall y, y <> x -> v' y = v y) -> agree tab' v'.
Proof.
  intros H Hx Hi Hj Hx' Hy j y. destruct (decide (j = i)) as [->|Hne], (decide (y = x)) as [->|Hney].
  - rewrite Hi, Hx'. done.
  - rewrite Hi, Hy by done. split; [done|]. intros Hvy. apply H in Hvy, Hx. congruence.
  - rewrite Hj, Hx' by done. split; [|done]. intros Ht. apply H in Ht. congruence.
  - rewrite Hj, Hy by done. apply H.
Qed.

Lemma agree_ins tab tab' v v' i x :
  agree tab v -> v x = None -> tab i = None -> tab' i = Some x -> (forall j, j <> i -> tab' j = tab j) ->
  v' x = Some i -> (forall y, y <> x -> v' y = v y) -> agree tab' v'.
Proof.
  intros H Hx Hi0 Hi Hj Hx' Hy j y. destruct (decide (j = i)) as [->|Hne], (decide (y = x)) as [->|Hney].
  - rewrite Hi, Hx'. done.
  - rewrite Hi, Hy by done. split; [congruence|]. intros Hvy. apply H in Hvy. congruence.
  - rewrite Hj, Hx' by done. split; [|congruence]. intros Ht. apply H in Ht. congruence.
  - rewrite Hj, Hy by done. apply H.
Qed.

Lemma agree_drop tab tab' v v' x :
  agree tab v -> (forall i y, tab' i = Some y <-> tab i = Some y /\ y <> x) ->
  v' x = None -> (forall y, y <> x -> v' y = v y) -> agree tab' v'.
Proof.
  intros H Ht Hx Hy i y. rewrite Ht, (H i y). destruct (decide (y = x)) as [->|Hne].
  - rewrite Hx. naive_solver.
  - rewrite Hy by done. naive_solver.
Qed.

(** A list for every index. *)
Definition collects lst v : Prop := forall i x, x ∈ lst i <-> v x = Some i.

Lemma collects_ext lst lst' v v' :
  collects lst v -> (forall i x, x ∈ lst' i <-> x ∈ lst i) -> (forall x, v' x = v x) -> collects lst' v'.
Proof. intros H Ht Hv i x. by rewrite Ht, Hv. Qed.

Lemma collects_del lst lst' v v' i x :
  collects lst v -> v x = Some i -> (forall y, y ∈ lst' i <-> y ∈ lst i /\ y <> x) ->
  (forall j y, j <> i -> y ∈ lst' j <-> y ∈ lst j) ->
  v' x = None -> (forall y, y <> x -> v' y = v y) -> collects lst' v'.
Proof.
  intros H Hx Hi Hj Hx' Hy j y. destruct (decide (j = i)) as [->|Hne], (decide (y = x)) as [->|Hney].
  - rewrite Hi, Hx'. naive_solver.
  - rewrite Hi, Hy, (H i y) by done. naive_solver.
  - rewrite Hj, Hx', (H j x) by done. rewrite Hx. naive_solver.
  - rewrite Hj, Hy by done. apply H.
Qed.

Lemma collects_ins lst lst' v v' i x :
  collects lst v -> v x = None -> (forall y, y ∈ lst' i <-> y ∈ lst i \/ y = x) ->
  (forall j y, j <> i -> y ∈ lst' j <-> y ∈ lst j) ->
  v' x = Some i -> (forall y, y <> x -> v' y = v y) -> collects lst' v'.
Proof.
  intros H Hx Hi Hj Hx' Hy j y. destruct (decide (j = i)) as [->|Hne], (decide (y = x)) as [->|Hney].
  - rewrite Hi, Hx'. naive_solver.
  - rewrite Hi, Hy, (H i y) by done. naive_solver.
  - rewrite Hj, Hx', (H j x) by done. rewrite Hx. naive_solver.
  - rewrite Hj, Hy by done. apply H.
Qed.
End Agree.

(** A field of an object of the heap. *)
Definition view {A B} (f : A -> option B) (m : gmap nat A) (a : nat) : option B := x ← m !! a; f x.

Section View.
Context {A B : Type} (f : A -> option B) (m : gmap nat A).

Lemma view_put_eq a x : view f (<[a := x]> m) a = f x.
Proof. unfold view. by rewrite lookup_insert_eq. Qed.
Lemma view_put_ne a b x : b <> a -> view f (<[a := x]> m) b = view f m b.
Proof. intros. unfold view. by rewrite lookup_insert_ne. Qed.
Lemma view_put_same a x y b : m !! a = Some y -> f x = f y -> view f (<[a := x]> m) b = view f m b.
Proof.
  intros Hy E. destruct (decide (b = a)) as [->|Hne]; [|by apply view_put_ne].
  rewrite view_put_eq. unfold view. by rewrite Hy.
Qed.
Lemma view_put_new a x b : m !! a = None -> f x = None -> view f (<[a := x]> m) b = view f m b.
Proof.
  intros Hy E. destruct (decide (b = a)) as [->|Hne]; [|by apply view_put_ne].
  rewrite view_put_eq. unfold view. by rewrite Hy.
Qed.
Lemma view_drop a b : view f m a = None -> view f (delete a m) b = view f m b.
Proof.
  intros Hy. destruct (decide (b = a)) as [->|Hne].
  - unfold view in *. by rewrite lookup_delete_eq, Hy.
  - unfold view. by rewrite lookup_delete_ne.
Qed.
Lemma view_is a x : m !! a = Some x -> view f m a = f x.
Proof. intros H. unfold view. by rewrite H. Qed.
Lemma view_inv a b : view f m a = Some b -> exists x, m !! a = Some x /\ f x = Some b.
Proof. unfold view. intros H. destruct (m !! a) as [x|] eqn:E; [|done]. by exists x. Qed.
End View.

(** Replacing an object of the heap. *)
Section Put.
Context {A : Type} (m : gmap nat A) (a : nat) (x old : A).

Lemma put_all (Q : nat -> A -> Prop) :
  (forall y Y, m !! y = Some Y -> Q y Y) -> Q a x -> forall y Y, <[a := x]> m !! y = Some Y -> Q y Y.
Proof.
  intros H Hx y Y E. destruct (decide (y = a)) as [->|Hne].
  - rewrite lookup_insert_eq in E. by injection E as <-.
  - rewrite lookup_insert_ne in E by done. by apply H.
Qed.
Lemma put_ex (Q : A -> Prop) y :
  m !! a = Some old -> (Q old -> Q x) -> (exists Y, m !! y = Some Y /\ Q Y) -> exists Y, <[a := x]> m !! y = Some Y /\ Q Y.
Proof.
  intros Ho HQ (Y & E & H). destruct (decide (y = a)) as [->|Hne].
  - rewrite lookup_insert_eq. exists x. split; [done|]. apply HQ. congruence.
  - rewrite lookup_insert_ne by done. by exists Y.
Qed.
Lemma put_ex_iff (Q : nat -> A -> Prop) y :
  m !! a = Some old -> (Q a x <-> Q a old) ->
  (exists Y, <[a := x]> m !! y = Some Y /\ Q y Y) <-> exists Y, m !! y = Some Y /\ Q y Y.
Proof.
  intros Ho HQ. destruct (decide (y = a)) as [->|Hne].
  - rewrite lookup_insert_eq, Ho. naive_solver.
  - by rewrite lookup_insert_ne.
Qed.
Lemma put_none y : m !! a = Some old -> m !! y = None -> <[a := x]> m !! y = None.
Proof. intros Ho E. rewrite lookup_insert_ne; [done|]. congruence. Qed.
End Put.

(** For goals about every object of a heap in which one has been replaced. *)
Ltac put_all :=
  match goal with
  | |- forall y Y, <[?a := ?x]> ?m !! y = Some Y -> @?Q y Y => apply (put_all m a x Q); cbv beta
  end.

(** ** The fields of a right that the tables index *)

Definition in_table (R : right) : option (nat * Z) :=
  if alive R && negb (of_message R) then Some (holder R, right_sender_id R) else None.

Definition watched (R : right) : bool :=
  match rtype R with SendOnce => true | SendMany => notification_port R | MemObject => false end.

Definition registered (R : right) : option (nat * Z) :=
  if alive R && watched R then (fun p => (p, right_parent_id R)) <$> parent R else None.

Definition sharing (R : right) : option nat :=
  if alive R && bool_decide (rtype R = SendMany) then shared R else None.

Definition mapping (R : right) : option nat :=
  if alive R && bool_decide (rtype R = MemObject) then mem_object R else None.

Definition notifying (R : right) : option nat := if sent R then parent R else None.

Definition s_registered (S : shared_right) : option (nat * Z) :=
  if s_alive S then (fun p => (p, s_right_parent_id S)) <$> s_parent S else None.

Definition port_no (P : port) : option Z := if p_alive P then Some (portno P) else None.
Definition group_no (G : task_group) : option Z := if bool_decide (tasks G = ∅) then None else Some (group_id G).

Definition group_at (gs : gmap nat task_group) (i : nat * Z) : option nat := G ← gs !! i.1; g_rights G !! i.2.
Definition port_at (ps : gmap nat port) (i : nat * Z) : option recieve_right := P ← ps !! i.1; p_rights P !! i.2.
Definition queue (ps : gmap nat port) (p : nat) : list generic_message := from_option msg_queue [] (ps !! p).
Definition senders (ss : gmap nat shared_right) (s : nat) : list nat := from_option send_many_rights [] (ss !! s).
Definition mem_rights (os : gmap nat (list nat)) (o : nat) : list nat := default [] (os !! o).
Definition slots (ms : gmap nat message) (m : nat) : list nat := from_option message_slots [] (ms !! m).

Definition index_of (rs : gmap nat right) (ss : gmap nat shared_right) (x : recieve_right) : option (nat * Z) :=
  match x with RRight r => view registered rs r | RShared s => view s_registered ss s end.

Definition notes (q : list generic_message) : list nat :=
  omap (fun e => match e with GRight r => Some r | _ => None end) q.

Lemma elem_of_notes q r : r ∈ notes q <-> GRight r ∈ q.
Proof.
  unfold notes. rewrite list_elem_of_omap. split.
  - intros ([m|r'|s] & Hin & E); try done. by injection E as ->.
  - intros Hin. by exists (GRight r).
Qed.

(** What holds of the fields of every right. *)
Definition right_ok (R : right) : Prop :=
  (alive R = true -> match rtype R with
                     | SendOnce => parent R <> None
                     | SendMany => shared R <> None
                     | MemObject => mem_object R <> None
                     end)
  /\ (notification_port R = true -> rtype R = SendMany /\ parent R <> None)
  /\ (sent R = true -> alive R = false /\ rtype R <> MemObject /\ parent R <> None).

(** What an operation in progress has in its hands: the rights of a message being
    destroyed, and a shared structure, a port or a group that is being destroyed. *)
Record busy := Busy { b_rights : list nat; b_shared : option nat; b_port : option nat; b_group : option nat }.
Definition idle : busy := Busy [] None None None.

Definition kept (b : busy) (k : kernel) (r : nat) : Prop :=
  r ∈ b_rights b \/ exists m, r ∈ slots (messages k) m.

(** The groups that a live port knows to notify it are there and have the port in their maps;
    [o] is the group that is being destroyed. *)
Definition notified (o : option nat) (ps : gmap nat port) (gs : gmap nat task_group) : Prop :=
  forall p P g, ps !! p = Some P -> p_alive P = true -> g ∈ p_notifiers P ->
    exists G, gs !! g = Some G /\ is_Some (g_notifiers G !! portno P) /\ (o <> Some g -> tasks G <> ∅).

Lemma notified_like o ps gs ps' gs' :
  notified o ps gs ->
  (forall p P', ps' !! p = Some P' -> p_alive P' = true -> p_notifiers P' = ∅ \/ exists P, ps !! p = Some P
     /\ p_alive P = true /\ portno P' = portno P /\ p_notifiers P' ⊆ p_notifiers P) ->
  (forall g G, gs !! g = Some G -> (o <> Some g -> tasks G <> ∅) ->
     exists G', gs' !! g = Some G' /\ g_notifiers G' = g_notifiers G /\ (tasks G <> ∅ -> tasks G' <> ∅)) ->
  notified o ps' gs'.
Proof.
  intros H Hp Hg p P' g HP' Ha Hin. destruct (Hp p P' HP' Ha) as [E|(P & HP & HPa & Eno & Hsub)]; [set_solver|].
  destruct (H p P g HP HPa ltac:(set_solver)) as (G & HG & Hno & HT). destruct (Hg g G HG HT) as (G' & HG' & En & HT').
  exists G'. rewrite Eno, En. auto.
Qed.

(** The ports and groups a step puts in the place of others *)
Lemma notified_put_port o ps gs p P P' :
  notified o ps gs -> ps !! p = Some P -> (p_alive P' = true -> p_alive P = true /\ portno P' = portno P /\ p_notifiers P' ⊆ p_notifiers P) ->
  notified o (<[p := P']> ps) gs.
Proof.
  intros H HP HP'. eapply notified_like; [exact H| |intros g G HG _; by exists G]. intros q Q HQ Ha. right.
  destruct (decide (q = p)) as [->|Hne]; [rewrite lookup_insert_eq in HQ; injection HQ as <-; exists P; naive_solver|].
  rewrite lookup_insert_ne in HQ by done. by exists Q.
Qed.
Lemma notified_put_group o ps gs g G G' :
  notified o ps gs -> gs !! g = Some G -> g_notifiers G' = g_notifiers G -> (tasks G <> ∅ -> tasks G' <> ∅) ->
  notified o ps (<[g := G']> gs).
Proof.
  intros H HG En HT. eapply notified_like; [exact H|intros p P HP Ha; right; by exists P|]. intros x X HX _.
  destruct (decide (x = g)) as [->|Hne]; [rewrite lookup_insert_eq; exists G'; naive_solver congruence|].
  rewrite lookup_insert_ne by done. by exists X.
Qed.

Record inv (b : busy) (k : kernel) : Prop := {
  i_groups : agree (group_at (groups k)) (view in_table (rights k));
  i_ports : agree (port_at (ports k)) (index_of (rights k) (shareds k));
  i_senders : collects (senders (shareds k)) (view sharing (rights k));
  i_mem : collects (mem_rights (mem_objects k)) (view mapping (rights k));
  i_notes : collects (fun p => notes (queue (ports k) p)) (view notifying (rights k));
  i_messages : forall m, is_Some (messages k !! m) <-> exists p, GMessage m ∈ queue (ports k) p;
  i_one_queue : forall m p p', GMessage m ∈ queue (ports k) p -> GMessage m ∈ queue (ports k) p' -> p = p';
  i_shared_note : forall s p, GShared s ∈ queue (ports k) p ->
    exists S, shareds k !! s = Some S /\ s_alive S = false /\ send_many_rights S = [] /\ s_parent S = Some p
      /\ b_shared b <> Some s;
  i_queue : forall p, NoDup (queue (ports k) p);
  i_right : forall r R, rights k !! r = Some R -> right_ok R;
  i_shared : forall s S, shareds k !! s = Some S ->
    if s_alive S then s_parent S <> None /\ send_many_rights S <> [] /\ b_shared b <> Some s
    else b_shared b = Some s \/ send_many_rights S = [];
  i_slots : forall m r, r ∈ slots (messages k) m ->
    exists R, rights k !! r = Some R /\ of_message R = true /\ holder R = m;
  i_slots_once : forall m, NoDup (slots (messages k) m);
  i_carried : forall r R, rights k !! r = Some R -> alive R || sent R = true -> of_message R = true ->
    r ∈ slots (messages k) (holder R) \/ r ∈ b_rights b;
  i_busy : NoDup (b_rights b) /\ forall r, r ∈ b_rights b ->
    (exists R, rights k !! r = Some R /\ of_message R = true) /\ forall m, r ∉ slots (messages k) m;
  i_port : forall p P, ports k !! p = Some P ->
    0 <= p_current_right_id P /\ (forall id, is_Some (p_rights P !! id) -> 0 < id <= p_current_right_id P)
    /\ (p_alive P = false -> b_port b <> Some p -> p_rights P = ∅);
  i_group : forall g G, groups k !! g = Some G ->
    0 <= g_current_right_id G /\ (forall id, is_Some (g_rights G !! id) -> 0 < id <= g_current_right_id G)
    /\ (tasks G = ∅ -> b_group b <> Some g -> g_rights G = ∅);
  i_global_ports : agree (fun no => global_ports k !! no) (view port_no (ports k));
  i_global_groups : agree (fun n => global_groups k !! n) (view group_no (groups k));
  i_numbers : (forall no, is_Some (global_ports k !! no) -> no <= biggest_port k)
    /\ (forall n, is_Some (global_groups k !! n) -> n < next_group_id k);
  i_garbage : NoDup (garbage k);
  i_dead_right : forall r, DRight r ∈ garbage k <->
    exists R, rights k !! r = Some R /\ alive R = false /\ sent R = false /\ ~ kept b k r;
  i_dead_shared : forall s, DShared s ∈ garbage k <->
    exists S, shareds k !! s = Some S /\ s_alive S = false /\ (forall p, GShared s ∉ queue (ports k) p)
      /\ b_shared b <> Some s;
  i_dead_port : forall p, DPort p ∈ garbage k <->
    exists P, ports k !! p = Some P /\ p_alive P = false /\ b_port b <> Some p;
  i_dead_group : forall g, DGroup g ∈ garbage k <->
    exists G, groups k !! g = Some G /\ tasks G = ∅ /\ b_group b <> Some g;
  i_fresh : forall a, (fresh k <= a)%nat -> rights k !! a = None /\ shareds k !! a = None
    /\ messages k !! a = None /\ ports k !! a = None /\ groups k !! a = None;
  i_notifiers : notified (b_group b) (ports k) (groups k)
}.

(** ** The effect of destroying a right *)

(** The shared structures that die with right [r], their last one. *)
Definition dies (ss : gmap nat shared_right) (r s : nat) : Prop :=
  exists S, ss !! s = Some S /\ s_alive S = true /\ r ∈ send_many_rights S
    /\ filter (fun y => y <> r) (send_many_rights S) = [].

(** The messages that destroying [R], at address [r], puts into the queue of [p]. *)
Definition news (ss : gmap nat shared_right) (r : nat) (R : right) (note : bool) (p : nat) (e : generic_message) : Prop :=
  (e = GRight r /\ note = true /\ parent R = Some p)
  \/ exists s S, e = GShared s /\ dies ss r s /\ ss !! s = Some S /\ s_parent S = Some p.

(** Ports that lose the registrations [D] and receive messages. *)
Definition port_step (P P' : port) (D : recieve_right -> Prop) (add : list generic_message) : Prop :=
  (owner P' = owner P /\ p_notifiers P' = p_notifiers P) /\ portno P' = portno P /\ p_alive P' = p_alive P
  /\ p_current_right_id P' = p_current_right_id P /\ msg_queue P' = msg_queue P ++ add
  /\ forall id x, p_rights P' !! id = Some x <-> p_rights P !! id = Some x /\ ~ D x.

Definition ports_step (ps ps' : gmap nat port) (D : recieve_right -> Prop) (add : nat -> list generic_message) : Prop :=
  forall p, match ps !! p with
            | None => ps' !! p = None
            | Some P => exists P', ps' !! p = Some P' /\ port_step P P' D (add p)
            end.

Definition shared_step (S S' : shared_right) (r : nat) : Prop :=
  s_parent S' = s_parent S /\ s_right_parent_id S' = s_right_parent_id S
  /\ send_many_rights S' = filter (fun y => y <> r) (send_many_rights S)
  /\ s_alive S' = s_alive S && negb (bool_decide (r ∈ send_many_rights S) && bool_decide (send_many_rights S' = [])).

Definition shareds_step (ss ss' : gmap nat shared_right) (r : nat) : Prop :=
  forall s, match ss !! s with
            | None => ss' !! s = None
            | Some Sh => exists Sh', ss' !! s = Some Sh' /\ shared_step Sh Sh' r
            end.

Definition group_step (G G' : task_group) (r : nat) : Prop :=
  (group_id G' = group_id G /\ g_notifiers G' = g_notifiers G) /\ tasks G' = tasks G /\ g_current_right_id G' = g_current_right_id G
  /\ forall id x, g_rights G' !! id = Some x <-> g_rights G !! id = Some x /\ x <> r.

Definition groups_step (gs gs' : gmap nat task_group) (r : nat) : Prop :=
  forall g, match gs !! g with
            | None => gs' !! g = None
            | Some G => exists G', gs' !! g = Some G' /\ group_step G G' r
            end.

Record destroyed (k k' : kernel) (r : nat) (R : right) (note : bool) (add : nat -> list generic_message) : Prop := {
  d_rights : rights k' = <[r := set_sent note (set_alive false R)]> (rights k);
  d_shareds : shareds_step (shareds k) (shareds k') r;
  d_ports : ports_step (ports k) (ports k')
              (fun x => x = RRight r \/ exists s, x = RShared s /\ dies (shareds k) r s) add;
  d_add : forall p, NoDup (add p) /\ forall e, e ∈ add p <-> news (shareds k) r R note p e;
  d_groups : groups_step (groups k) (groups k') r;
  d_mem : forall o x, x ∈ mem_rights (mem_objects k') o <-> x ∈ mem_rights (mem_objects k) o /\ x <> r;
  d_messages : messages k' = messages k;
  d_garbage : garbage k' = (if note || of_message R then [] else [DRight r]) ++ garbage k;
  d_global : global_ports k' = global_ports k /\ global_groups k' = global_groups k
    /\ biggest_port k' = biggest_port k /\ next_group_id k' = next_group_id k
    /\ kernel_tasks k' = kernel_tasks k /\ right0_id k' = right0_id k /\ fresh k' = fresh k
}.

Lemma port_at_step ps ps' D add i x :
  ports_step ps ps' D add -> port_at ps' i = Some x <-> port_at ps i = Some x /\ ~ D x.
Proof.
  intros H. specialize (H i.1). unfold port_at. destruct (ps !! i.1) as [P|]; cbn.
  - destruct H as (P' & -> & _ & _ & _ & _ & _ & H). apply H.
  - rewrite H. cbn. naive_solver.
Qed.

Lemma queue_step ps ps' D add p :
  ports_step ps ps' D add -> is_Some (ps !! p) -> queue ps' p = queue ps p ++ add p.
Proof.
  intros H [P E]. specialize (H p). unfold queue. rewrite E in *. destruct H as (P' & -> & _ & _ & _ & _ & H & _). apply H.
Qed.

Lemma queue_none ps p : ps !! p = None -> queue ps p = [].
Proof. intros E. unfold queue. by rewrite E. Qed.

Lemma group_at_step gs gs' r i x :
  groups_step gs gs' r -> group_at gs' i = Some x <-> group_at gs i = Some x /\ x <> r.
Proof.
  intros H. specialize (H i.1). unfold group_at. destruct (gs !! i.1) as [G|]; cbn.
  - destruct H as (G' & -> & _ & _ & _ & H). apply H.
  - rewrite H. cbn. naive_solver.
Qed.

Lemma senders_step ss ss' r s x :
  shareds_step ss ss' r -> x ∈ senders ss' s <-> x ∈ senders ss s /\ x <> r.
Proof.
  intros H. specialize (H s). unfold senders. destruct (ss !! s) as [S|]; cbn.
  - destruct H as (S' & -> & _ & _ & H & _). cbn. rewrite H, list_elem_of_filter. tauto.
  - rewrite H. cbn. set_solver.
Qed.

Lemma s_registered_step ss ss' r s :
  shareds_step ss ss' r -> (dies ss r s -> view s_registered ss' s = None)
    /\ (~ dies ss r s -> view s_registered ss' s = view s_registered ss s).
Proof.
  intros H. specialize (H s). unfold view, dies. destruct (ss !! s) as [S|] eqn:E.
  - destruct H as (S' & -> & E1 & E2 & E3 & E4). cbn. unfold s_registered. rewrite E1, E2, E4. split.
    + intros (S0 & [= <-] & Ha & Hin & Hf). rewrite Ha, E3, Hf, bool_decide_true by done. done.
    + intros Hn. destruct (s_alive S) eqn:Ha; [|done]. case_bool_decide as Hin; [|done].
      case_bool_decide as Hf; [|done]. destruct Hn. exists S. by rewrite <- E3.
  - rewrite H. cbn. split; [|done]. by intros (S0 & ? & _).
Qed.

Lemma filter_absent {A} `{EqDecision A} (x : A) (l : list A) : x ∉ l -> filter (fun y => y <> x) l = l.
Proof.
  induction l as [|y l IH]; intros Hx; [done|]. apply not_elem_of_cons in Hx as [Hxy Hx].
  rewrite filter_cons_True by congruence. by rewrite IH.
Qed.

#[global] Instance dies_dec ss r s : Decision (dies ss r s).
Proof.
  destruct (ss !! s) as [Sh|] eqn:E.
  - destruct (decide (s_alive Sh = true /\ r ∈ send_many_rights Sh
        /\ filter (fun y => y <> r) (send_many_rights Sh) = [])) as [H|H].
    + left. by exists Sh.
    + right. intros (S0 & E0 & H0). apply H. rewrite E in E0. by injection E0 as ->.
  - right. intros (S0 & E0 & _). congruence.
Defined.

Lemma kept_of_message b k x X : inv b k -> kept b k x -> rights k !! x = Some X -> of_message X = true.
Proof.
  intros I [Hx|[m Hx]] E.
  - destruct (proj2 (i_busy _ _ I) x Hx) as ((X' & E' & H) & _). congruence.
  - destruct (i_slots _ _ I m x Hx) as (X' & E' & H & _). congruence.
Qed.

(** Ports that lose registrations or receive messages are still well formed. *)
Section PortsStep.
Context (b : busy) (k : kernel) (ps : gmap nat port) (D : recieve_right -> Prop) (add : nat -> list generic_message).
Context (I : inv b k) (Hs : ports_step (ports k) ps D add).

Lemma step_port p P' : ps !! p = Some P' -> exists P, ports k !! p = Some P /\ port_step P P' D (add p).
Proof.
  intros E. pose proof (Hs p) as H. destruct (ports k !! p) as [P|]; [|congruence].
  destruct H as (P1 & E1 & H). rewrite E in E1. injection E1 as <-. by exists P.
Qed.

Lemma step_port_ok p P : ps !! p = Some P ->
  0 <= p_current_right_id P /\ (forall id, is_Some (p_rights P !! id) -> 0 < id <= p_current_right_id P)
  /\ (p_alive P = false -> b_port b <> Some p -> p_rights P = ∅).
Proof.
  intros E. destruct (step_port p P E) as (P0 & E0 & _ & _ & Hal & Hc & _ & Hr).
  destruct (i_port _ _ I p P0 E0) as (H1 & H2 & H3). rewrite Hal, Hc. split; [done|]. split.
  - intros id [x Hx]. apply Hr in Hx as [Hx _]. apply H2. by eexists.
  - intros Hd0 Hb. apply map_empty. intros id. destruct (p_rights P !! id) as [x|] eqn:Ex; [|done].
    apply Hr in Ex as [Ex _]. by rewrite H3 in Ex.
Qed.

Lemma step_port_no p : view port_no ps p = view port_no (ports k) p.
Proof.
  unfold view. pose proof (Hs p) as H. destruct (ports k !! p) as [P|].
  - destruct H as (P' & -> & _ & Hno & Hal & _). cbn. unfold port_no. by rewrite Hno, Hal.
  - by rewrite H.
Qed.

Lemma step_dead_port p :
  (exists P, ps !! p = Some P /\ p_alive P = false /\ b_port b <> Some p)
  <-> exists P, ports k !! p = Some P /\ p_alive P = false /\ b_port b <> Some p.
Proof.
  pose proof (Hs p) as H. destruct (ports k !! p) as [P|].
  - destruct H as (P' & -> & _ & _ & Hal & _). split; intros (Q & [= <-] & Hq & ?); eexists; split_and!; first [done|congruence].
  - rewrite H. naive_solver.
Qed.

Lemma step_port_fresh a : (fresh k <= a)%nat -> ps !! a = None.
Proof.
  intros Hf. destruct (i_fresh _ _ I a Hf) as (_ & _ & _ & E & _). pose proof (Hs a) as H. by rewrite E in H.
Qed.

Lemma step_notified o gs : notified o (ports k) gs -> notified o ps gs.
Proof.
  intros H. eapply notified_like; [exact H| |intros g G HG _; by exists G].
  intros p P' HP' Hal. right. destruct (step_port p P' HP') as (P & HP & [_ En] & Eno & Eal & _).
  exists P. rewrite Eno, En. split_and!; congruence || done.
Qed.
End PortsStep.

Section Kill.
Context (b : busy) (k k' : kernel) (r : nat) (R : right) (note : bool) (add : nat -> list generic_message).
Context (I : inv b k) (HR : rights k !! r = Some R) (Ha : alive R = true) (Hn : note = true -> watched R = true).
Context (Hd : destroyed k k' r R note add).

Lemma kill_other x : x <> r -> rights k' !! x = rights k !! x.
Proof. intros Hx. rewrite (d_rights _ _ _ _ _ _ Hd). by rewrite lookup_insert_ne. Qed.

Lemma kill_self : rights k' !! r = Some (set_sent note (set_alive false R)).
Proof. rewrite (d_rights _ _ _ _ _ _ Hd). by rewrite lookup_insert_eq. Qed.

(** A field that only rights which are alive have. *)
Lemma kill_view {B} (f : right -> option B) x :
  (forall R', alive R' = false -> f R' = None) ->
  view f (rights k') x = if decide (x = r) then None else view f (rights k) x.
Proof.
  intros Hf. destruct (decide (x = r)) as [->|Hx].
  - unfold view. rewrite kill_self. by apply Hf.
  - unfold view. by rewrite kill_other.
Qed.

Lemma kill_groups : agree (group_at (groups k')) (view in_table (rights k')).
Proof.
  intros i x. rewrite (group_at_step _ _ _ _ _ (d_groups _ _ _ _ _ _ Hd)), (i_groups _ _ I i x), kill_view.
  - destruct (decide (x = r)); naive_solver.
  - intros R' E. unfold in_table. by rewrite E.
Qed.

Lemma kill_ports : agree (port_at (ports k')) (index_of (rights k') (shareds k')).
Proof.
  intros i x. rewrite (port_at_step _ _ _ _ _ _ (d_ports _ _ _ _ _ _ Hd)), (i_ports _ _ I i x).
  destruct x as [x|s]; cbn [index_of].
  - rewrite kill_view by (intros R' E; unfold registered; by rewrite E).
    destruct (decide (x = r)); naive_solver.
  - destruct (s_registered_step _ _ _ s (d_shareds _ _ _ _ _ _ Hd)) as [H1 H2].
    destruct (decide (dies (shareds k) r s)) as [Hs|Hs].
    + rewrite H1 by done. naive_solver.
    + rewrite H2 by done. naive_solver.
Qed.

Lemma kill_senders : collects (senders (shareds k')) (view sharing (rights k')).
Proof.
  intros s x. rewrite (senders_step _ _ _ _ _ (d_shareds _ _ _ _ _ _ Hd)), (i_senders _ _ I s x), kill_view.
  - destruct (decide (x = r)); naive_solver.
  - intros R' E. unfold sharing. by rewrite E.
Qed.

Lemma kill_mem : collects (mem_rights (mem_objects k')) (view mapping (rights k')).
Proof.
  intros o x. rewrite (d_mem _ _ _ _ _ _ Hd), (i_mem _ _ I o x), kill_view.
  - destruct (decide (x = r)); naive_solver.
  - intros R' E. unfold mapping. by rewrite E.
Qed.

(** The port of a right that is watched exists. *)
Lemma watched_port p : watched R = true -> parent R = Some p -> is_Some (ports k !! p).
Proof.
  intros Hw Hp. assert (E : index_of (rights k) (shareds k) (RRight r) = Some (p, right_parent_id R)).
  { cbn. rewrite (view_is _ _ _ _ HR). unfold registered. by rewrite Ha, Hw, Hp. }
  apply (i_ports _ _ I) in E. unfold port_at in E. cbn in E. destruct (ports k !! p); [by eexists|done].
Qed.

Lemma shared_port s Sh p :
  shareds k !! s = Some Sh -> s_alive Sh = true -> s_parent Sh = Some p -> is_Some (ports k !! p).
Proof.
  intros E Hs Hp. assert (Ei : index_of (rights k) (shareds k) (RShared s) = Some (p, s_right_parent_id Sh)).
  { cbn. rewrite (view_is _ _ _ _ E). unfold s_registered. by rewrite Hs, Hp. }
  apply (i_ports _ _ I) in Ei. unfold port_at in Ei. cbn in Ei. destruct (ports k !! p); [by eexists|done].
Qed.

Lemma news_port p e : news (shareds k) r R note p e -> is_Some (ports k !! p).
Proof.
  intros [(_ & Hnote & Hp)|(s & Sh & _ & (Sh' & E & Hs & _) & E' & Hp)].
  - apply watched_port; auto.
  - rewrite E in E'. injection E' as ->. by eapply shared_port.
Qed.

Lemma kill_queue p e : e ∈ queue (ports k') p <-> e ∈ queue (ports k) p \/ news (shareds k) r R note p e.
Proof.
  destruct (ports k !! p) as [P|] eqn:E.
  - rewrite (queue_step _ _ _ _ _ (d_ports _ _ _ _ _ _ Hd)) by (by eexists).
    rewrite elem_of_app, (proj2 (d_add _ _ _ _ _ _ Hd p)). done.
  - pose proof (d_ports _ _ _ _ _ _ Hd p) as H. rewrite E in H. rewrite !queue_none by done.
    split; [by intros ?%elem_of_nil|]. intros [?%elem_of_nil|Hnews]; [done|].
    apply news_port in Hnews as [? ?]. congruence.
Qed.

Lemma kill_notes : collects (fun p => notes (queue (ports k') p)) (view notifying (rights k')).
Proof.
  intros p x. cbn. rewrite elem_of_notes, kill_queue. pose proof (i_notes _ _ I p x) as H. cbn in H.
  rewrite elem_of_notes in H. rewrite H. unfold news. destruct (decide (x = r)) as [->|Hx].
  - unfold view. rewrite kill_self, HR. cbn. unfold notifying. cbn.
    destruct (i_right _ _ I r R HR) as (_ & _ & Hs). destruct (sent R); [destruct Hs; congruence|].
    destruct note; naive_solver.
  - unfold view. rewrite kill_other by done. naive_solver.
Qed.

Lemma not_news_message p m : ~ news (shareds k) r R note p (GMessage m).
Proof. intros [(? & _)|(s & Sh & ? & _)]; done. Qed.

Lemma kill_shared s Sh' : shareds k' !! s = Some Sh' ->
  exists Sh, shareds k !! s = Some Sh /\ shared_step Sh Sh' r.
Proof.
  intros E. pose proof (d_shareds _ _ _ _ _ _ Hd s) as H. destruct (shareds k !! s) as [Sh|].
  - destruct H as (S1 & E1 & H). rewrite E in E1. injection E1 as <-. by exists Sh.
  - congruence.
Qed.

Lemma kill_shared_fwd s Sh : shareds k !! s = Some Sh ->
  exists Sh', shareds k' !! s = Some Sh' /\ shared_step Sh Sh' r.
Proof. intros E. pose proof (d_shareds _ _ _ _ _ _ Hd s) as H. by rewrite E in H. Qed.

Lemma kill_port p P' : ports k' !! p = Some P' ->
  exists P, ports k !! p = Some P
    /\ port_step P P' (fun x => x = RRight r \/ exists s, x = RShared s /\ dies (shareds k) r s) (add p).
Proof. apply (step_port _ _ _ _ (d_ports _ _ _ _ _ _ Hd)). Qed.

Lemma kill_group g G' : groups k' !! g = Some G' -> exists G, groups k !! g = Some G /\ group_step G G' r.
Proof.
  intros E. pose proof (d_groups _ _ _ _ _ _ Hd g) as H. destruct (groups k !! g) as [G|].
  - destruct H as (G1 & E1 & H). rewrite E in E1. injection E1 as <-. by exists G.
  - congruence.
Qed.

Lemma kill_shared_note s p : GShared s ∈ queue (ports k') p ->
  exists Sh', shareds k' !! s = Some Sh' /\ s_alive Sh' = false /\ send_many_rights Sh' = []
    /\ s_parent Sh' = Some p /\ b_shared b <> Some s.
Proof.
  rewrite kill_queue. intros [Hq|[(? & _)|(s0 & Sh0 & [= <-] & Hdies & E0 & Hp)]]; [|done|].
  - destruct (i_shared_note _ _ I s p Hq) as (Sh & E & Hs & Hl & Hp & Hb).
    destruct (kill_shared_fwd s Sh E) as (Sh' & E' & H1 & H2 & H3 & H4). exists Sh'. rewrite H1, H3, H4, Hs, Hl. done.
  - destruct (kill_shared_fwd s Sh0 E0) as (Sh' & E' & H1 & H2 & H3 & H4). destruct Hdies as (S1 & E1 & Hs & Hin & Hf).
    rewrite E0 in E1. injection E1 as <-. exists Sh'. rewrite H1, H4, H3, Hf, bool_decide_true by done.
    split; [done|]. split; [by rewrite Hs|]. split; [done|]. split; [done|].
    pose proof (i_shared _ _ I s Sh0 E0) as HI. rewrite Hs in HI. tauto.
Qed.

Lemma kill_queue_once p : NoDup (queue (ports k') p).
Proof.
  destruct (ports k !! p) as [P|] eqn:E.
  - rewrite (queue_step _ _ _ _ _ (d_ports _ _ _ _ _ _ Hd)) by (by eexists).
    apply NoDup_app. split; [apply (i_queue _ _ I)|]. split; [|apply (d_add _ _ _ _ _ _ Hd)].
    intros e He Hadd. apply (d_add _ _ _ _ _ _ Hd) in Hadd as [(-> & _)|(s & Sh & -> & (S1 & E1 & Hs & _) & E2 & _)].
    + apply elem_of_notes, (i_notes _ _ I p r) in He. rewrite (view_is _ _ _ _ HR) in He. unfold notifying in He.
      destruct (i_right _ _ I r R HR) as (_ & _ & Hsent). destruct (sent R); [|done]. destruct Hsent; congruence.
    + destruct (i_shared_note _ _ I s p He) as (S3 & E3 & Hs3 & _). congruence.
  - pose proof (d_ports _ _ _ _ _ _ Hd p) as H. rewrite E in H. rewrite queue_none by done. constructor.
Qed.

Lemma kill_shared_ok s Sh' : shareds k' !! s = Some Sh' ->
  if s_alive Sh' then s_parent Sh' <> None /\ send_many_rights Sh' <> [] /\ b_shared b <> Some s
  else b_shared b = Some s \/ send_many_rights Sh' = [].
Proof.
  intros E'. destruct (kill_shared s Sh' E') as (Sh & E & H1 & H2 & H3 & H4).
  pose proof (i_shared _ _ I s Sh E) as HI. rewrite H4, H1. destruct (s_alive Sh) eqn:Hs; cbn.
  - destruct HI as (Hp & Hl & Hb). case_bool_decide as Hin; [case_bool_decide as Hf; [by right|done]|].
    cbn. split; [done|]. split; [|done]. by rewrite H3, filter_absent.
  - destruct HI as [?|Hl]; [by left|right]. by rewrite H3, Hl.
Qed.

Lemma kill_kept x : kept b k' x <-> kept b k x.
Proof. unfold kept. by rewrite (d_messages _ _ _ _ _ _ Hd). Qed.

Lemma kill_dead_right x : DRight x ∈ garbage k' <->
  exists X, rights k' !! x = Some X /\ alive X = false /\ sent X = false /\ ~ kept b k' x.
Proof.
  rewrite (d_garbage _ _ _ _ _ _ Hd), elem_of_app, (i_dead_right _ _ I x). setoid_rewrite kill_kept.
  destruct (decide (x = r)) as [->|Hx].
  - rewrite kill_self, HR. split.
    + intros [Hin|(X & [= <-] & Hal & _)]; [|congruence]. destruct note eqn:En, (of_message R) eqn:Em; cbn in Hin;
        try (by apply elem_of_nil in Hin). eexists. split; [done|]. split; [done|]. split; [done|].
      intros Hk. by rewrite (kept_of_message b k r R I Hk HR) in Em.
    + intros (X & [= <-] & _ & Hs & Hk). cbn in Hs. left. rewrite Hs. cbn. destruct (of_message R) eqn:Em; [|by left].
      destruct Hk. destruct (i_carried _ _ I r R HR) as [Hm|Hm]; [by rewrite Ha|done|right; by eexists|by left].
  - rewrite kill_other by done. split; [|by right]. intros [Hin|?]; [|done].
    destruct (note || of_message R); set_solver.
Qed.

Lemma kill_dead_shared s : DShared s ∈ garbage k' <->
  exists Sh, shareds k' !! s = Some Sh /\ s_alive Sh = false /\ (forall p, GShared s ∉ queue (ports k') p)
    /\ b_shared b <> Some s.
Proof.
  rewrite (d_garbage _ _ _ _ _ _ Hd), elem_of_app. trans (DShared s ∈ garbage k).
  { split; [|by right]. intros [Hin|?]; [|done]. destruct (note || of_message R); set_solver. }
  rewrite (i_dead_shared _ _ I s). split.
  - intros (Sh & E & Hs & Hq & Hb). destruct (kill_shared_fwd s Sh E) as (Sh' & E' & H1 & H2 & H3 & H4).
    exists Sh'. rewrite H4, Hs. split; [done|]. split; [done|]. split; [|done].
    intros p. rewrite kill_queue. intros [Hin|[(? & _)|(s0 & S0 & [= <-] & (S1 & E1 & Hs1 & _) & _)]]; [|done|congruence].
    by destruct (Hq p).
  - intros (Sh' & E' & Hs' & Hq & Hb). destruct (kill_shared s Sh' E') as (Sh & E & H1 & H2 & H3 & H4).
    exists Sh. split; [done|]. setoid_rewrite kill_queue in Hq.
    assert (Hs : s_alive Sh = false).
    { destruct (s_alive Sh) eqn:Hs; [|done]. exfalso. rewrite H4 in Hs'. cbn in Hs'.
      destruct (bool_decide (r ∈ send_many_rights Sh)) eqn:B1; [|done].
      destruct (bool_decide (send_many_rights Sh' = [])) eqn:B2; [|done].
      apply bool_decide_eq_true in B1, B2. pose proof (i_shared _ _ I s Sh E) as HI. rewrite Hs in HI.
      destruct (s_parent Sh) as [p|] eqn:Hp; [|naive_solver]. apply (Hq p). right. right. exists s, Sh.
      split; [done|]. split; [|done]. exists Sh. by rewrite <- H3. }
    split; [done|]. split; [|done]. intros p Hin. apply (Hq p). by left.
Qed.

Lemma kill_right_ok x X : rights k' !! x = Some X -> right_ok X.
Proof.
  destruct (decide (x = r)) as [->|Hx].
  - rewrite kill_self. intros [= <-]. destruct (i_right _ _ I r R HR) as (H1 & H2 & H3).
    unfold right_ok. cbn. split; [done|]. split; [done|]. intros Hnote. specialize (Hn Hnote). unfold watched in Hn.
    split; [done|]. specialize (H1 Ha). destruct (rtype R); naive_solver.
  - rewrite kill_other by done. apply (i_right _ _ I).
Qed.

(** What messages and the running operation see of a right does not change. *)
Lemma kill_same x X : rights k !! x = Some X ->
  exists X', rights k' !! x = Some X' /\ of_message X' = of_message X /\ holder X' = holder X.
Proof.
  intros E. destruct (decide (x = r)) as [->|Hx].
  - rewrite kill_self. rewrite HR in E. injection E as <-. by eexists.
  - rewrite kill_other by done. by exists X.
Qed.

Lemma kill_carried x X : rights k' !! x = Some X -> alive X || sent X = true -> of_message X = true ->
  x ∈ slots (messages k') (holder X) \/ x ∈ b_rights b.
Proof.
  rewrite (d_messages _ _ _ _ _ _ Hd). destruct (decide (x = r)) as [->|Hx].
  - rewrite kill_self. intros [= <-] _ Hm. cbn in *. apply (i_carried _ _ I r R HR); [by rewrite Ha|done].
  - rewrite kill_other by done. apply (i_carried _ _ I).
Qed.

Lemma kill_port_ok p P : ports k' !! p = Some P ->
  0 <= p_current_right_id P /\ (forall id, is_Some (p_rights P !! id) -> 0 < id <= p_current_right_id P)
  /\ (p_alive P = false -> b_port b <> Some p -> p_rights P = ∅).
Proof. by apply (step_port_ok b k _ _ add I (d_ports _ _ _ _ _ _ Hd)). Qed.

Lemma kill_group_ok g G : groups k' !! g = Some G ->
  0 <= g_current_right_id G /\ (forall id, is_Some (g_rights G !! id) -> 0 < id <= g_current_right_id G)
  /\ (tasks G = ∅ -> b_group b <> Some g -> g_rights G = ∅).
Proof.
  intros E. destruct (kill_group g G E) as (G0 & E0 & _ & Hal & Hc & Hr).
  destruct (i_group _ _ I g G0 E0) as (H1 & H2 & H3). rewrite Hal, Hc. split; [done|]. split.
  - intros id [x Hx]. apply Hr in Hx as [Hx _]. apply H2. by eexists.
  - intros Hd0 Hb. apply map_empty. intros id. destruct (g_rights G !! id) as [x|] eqn:Ex; [|done].
    apply Hr in Ex as [Ex _]. by rewrite H3 in Ex.
Qed.

Lemma kill_port_no p : view port_no (ports k') p = view port_no (ports k) p.
Proof. apply (step_port_no _ _ _ _ (d_ports _ _ _ _ _ _ Hd)). Qed.

Lemma kill_notified : notified (b_group b) (ports k') (groups k').
Proof.
  eapply notified_like; [apply (i_notifiers _ _ I)| |].
  - intros p P' HP' Hal. right. destruct (step_port _ _ _ _ (d_ports _ _ _ _ _ _ Hd) p P' HP') as (P & HP & [_ En] & Eno & Eal & _).
    exists P. rewrite Eno, En. split_and!; congruence || done.
  - intros g G HG _. pose proof (d_groups _ _ _ _ _ _ Hd g) as H. rewrite HG in H. destruct H as (G' & HG' & [_ En] & ET & _).
    exists G'. by rewrite ET.
Qed.

Lemma kill_group_no g : view group_no (groups k') g = view group_no (groups k) g.
Proof.
  unfold view. pose proof (d_groups _ _ _ _ _ _ Hd g) as H. destruct (groups k !! g) as [G|].
  - destruct H as (G' & -> & [Hno _] & Hal & _). cbn. unfold group_no. by rewrite Hno, Hal.
  - by rewrite H.
Qed.

Lemma kill_garbage d : (forall x, d <> DRight x) -> d ∈ garbage k' <-> d ∈ garbage k.
Proof.
  intros Hne. rewrite (d_garbage _ _ _ _ _ _ Hd), elem_of_app. split; [|by right]. intros [Hin|?]; [|done].
  destruct (note || of_message R); set_solver.
Qed.

Lemma kill_garbage_once : NoDup (garbage k').
Proof.
  rewrite (d_garbage _ _ _ _ _ _ Hd). destruct (note || of_message R); [apply (i_garbage _ _ I)|].
  apply NoDup_cons. split; [|apply (i_garbage _ _ I)]. rewrite (i_dead_right _ _ I r), HR.
  intros (X & [= <-] & Hal & _). congruence.
Qed.

Lemma kill_dead_port p : DPort p ∈ garbage k' <->
  exists P, ports k' !! p = Some P /\ p_alive P = false /\ b_port b <> Some p.
Proof. rewrite kill_garbage, (i_dead_port _ _ I p) by done. symmetry. apply (step_dead_port b k _ _ _ (d_ports _ _ _ _ _ _ Hd)). Qed.

Lemma kill_dead_group g : DGroup g ∈ garbage k' <->
  exists G, groups k' !! g = Some G /\ tasks G = ∅ /\ b_group b <> Some g.
Proof.
  rewrite kill_garbage by done. rewrite (i_dead_group _ _ I g).
  pose proof (d_groups _ _ _ _ _ _ Hd g) as H. destruct (groups k !! g) as [G|].
  - destruct H as (G' & -> & _ & Hal & _). split; intros (Q & [= <-] & Hq & ?); eexists; split_and!; first [done|congruence].
  - rewrite H. naive_solver.
Qed.

Lemma kill_fresh a : (fresh k' <= a)%nat -> rights k' !! a = None /\ shareds k' !! a = None
  /\ messages k' !! a = None /\ ports k' !! a = None /\ groups k' !! a = None.
Proof.
  destruct (d_global _ _ _ _ _ _ Hd) as (_ & _ & _ & _ & _ & _ & ->). intros Hf.
  destruct (i_fresh _ _ I a Hf) as (H1 & H2 & H3 & H4 & H5). rewrite (d_messages _ _ _ _ _ _ Hd), kill_other by congruence.
  pose proof (d_shareds _ _ _ _ _ _ Hd a) as E2. pose proof (d_ports _ _ _ _ _ _ Hd a) as E4.
  pose proof (d_groups _ _ _ _ _ _ Hd a) as E5. rewrite H2 in E2. rewrite H4 in E4. rewrite H5 in E5. done.
Qed.

Lemma inv_kill : inv b k'.
Proof.
  split.
  - apply kill_groups.
  - apply kill_ports.
  - apply kill_senders.
  - apply kill_mem.
  - apply kill_notes.
  - intros m. rewrite (d_messages _ _ _ _ _ _ Hd), (i_messages _ _ I m). setoid_rewrite kill_queue.
    pose proof (fun p => not_news_message p m). naive_solver.
  - intros m p p'. rewrite !kill_queue. pose proof (fun p => not_news_message p m). pose proof (i_one_queue _ _ I m). naive_solver.
  - apply kill_shared_note.
  - apply kill_queue_once.
  - apply kill_right_ok.
  - apply kill_shared_ok.
  - rewrite (d_messages _ _ _ _ _ _ Hd). intros m x Hx. destruct (i_slots _ _ I m x Hx) as (X & E & H1 & H2).
    destruct (kill_same x X E) as (X' & E' & H3 & H4). exists X'. split; [done|]. by rewrite H3, H4.
  - rewrite (d_messages _ _ _ _ _ _ Hd). apply (i_slots_once _ _ I).
  - apply kill_carried.
  - rewrite (d_messages _ _ _ _ _ _ Hd). destruct (i_busy _ _ I) as [Hnd Hb]. split; [done|]. intros x Hx.
    destruct (Hb x Hx) as ((X & E & H1) & H2). split; [|done]. destruct (kill_same x X E) as (X' & E' & H3 & _).
    exists X'. by rewrite H3.
  - apply kill_port_ok.
  - apply kill_group_ok.
  - destruct (d_global _ _ _ _ _ _ Hd) as (-> & _). eapply agree_ext; [apply (i_global_ports _ _ I)|done|apply kill_port_no].
  - destruct (d_global _ _ _ _ _ _ Hd) as (_ & -> & _).
    eapply agree_ext; [apply (i_global_groups _ _ I)|done|apply kill_group_no].
  - destruct (d_global _ _ _ _ _ _ Hd) as (-> & -> & -> & -> & _). apply (i_numbers _ _ I).
  - apply kill_garbage_once.
  - apply kill_dead_right.
  - apply kill_dead_shared.
  - apply kill_dead_port.
  - apply kill_dead_group.
  - apply kill_fresh.
  - apply kill_notified.
Qed.
End Kill.

(** ** Running the operations *)

Lemma kbind {A B} (c : K A) (f : A -> K B) k a k' : c k = Some (a, k') -> (c ≫= f) k = f a k'.
Proof. intros E. unfold mbind, K_bind. by rewrite E. Qed.

Lemma get_right_run k r R : rights k !! r = Some R -> get_right r k = Some (R, k).
Proof. intros E. unfold get_right. by rewrite E. Qed.
Lemma get_shared_run k s Sh : shareds k !! s = Some Sh -> get_shared s k = Some (Sh, k).
Proof. intros E. unfold get_shared. by rewrite E. Qed.
Lemma get_port_run k p P : ports k !! p = Some P -> get_port p k = Some (P, k).
Proof. intros E. unfold get_port. by rewrite E. Qed.
Lemma get_group_run k g G : groups k !! g = Some G -> get_group g k = Some (G, k).
Proof. intros E. unfold get_group. by rewrite E. Qed.
Lemma get_message_run k m M : messages k !! m = Some M -> get_message m k = Some (M, k).
Proof. intros E. unfold get_message. by rewrite E. Qed.
Lemma get_mem_object_run k o l : mem_objects k !! o = Some l -> get_mem_object o k = Some (l, k).
Proof. intros E. unfold get_mem_object. by rewrite E. Qed.
Lemma upd_right_run k r R f : rights k !! r = Some R ->
  upd_right r f k = Some (tt, set_rights (<[r := f R]> (rights k)) k).
Proof. intros E. unfold upd_right. erewrite kbind by (by apply get_right_run). done. Qed.

Lemma ports_step_none ps D :
  (forall i x, port_at ps i = Some x -> ~ D x) -> ports_step ps ps D (fun _ => []).
Proof.
  intros H p. destruct (ps !! p) as [P|] eqn:E; [|done]. exists P. split; [done|]. repeat (split; [done|]).
  split; [by rewrite app_nil_r|]. intros id x. split; [|tauto]. intros Hx. split; [done|]. apply (H (p, id)).
  unfold port_at. cbn. by rewrite E.
Qed.

Lemma ports_step_trans ps1 ps2 ps3 D1 D2 add1 add2 :
  ports_step ps1 ps2 D1 add1 -> ports_step ps2 ps3 D2 add2 ->
  ports_step ps1 ps3 (fun x => D1 x \/ D2 x) (fun p => add1 p ++ add2 p).
Proof.
  intros H12 H23 p. specialize (H12 p). specialize (H23 p). destruct (ps1 !! p) as [P1|].
  - destruct H12 as (P2 & E2 & [A1 A1'] & A2 & A3 & A4 & A5 & A6). rewrite E2 in H23.
    destruct H23 as (P3 & E3 & [B1 B1'] & B2 & B3 & B4 & B5 & B6). exists P3. split; [done|].
    split_and!; try congruence. { by rewrite B5, A5, app_assoc. }
    intros id x. rewrite B6, A6. tauto.
  - by rewrite H12 in H23.
Qed.

Lemma ports_step_ext ps ps' D D' add add' :
  ports_step ps ps' D add -> (forall i x, port_at ps i = Some x -> D x <-> D' x) ->
  (forall p, is_Some (ps !! p) -> add p = add' p) -> ports_step ps ps' D' add'.
Proof.
  intros H HD Hadd p. specialize (H p). destruct (ps !! p) as [P|] eqn:E; [|done].
  destruct H as (P' & E' & [A1 A1'] & A2 & A3 & A4 & A5 & A6). exists P'. split; [done|]. rewrite <- Hadd by (by eexists).
  split_and!; try done. intros id x. rewrite A6. split; intros [Hx HnD]; split; try done; contradict HnD;
    apply (HD (p, id)); try done; unfold port_at; cbn; by rewrite E.
Qed.

Lemma queue_same ps ps' D p : ports_step ps ps' D (fun _ => []) -> queue ps' p = queue ps p.
Proof.
  intros H. specialize (H p). unfold queue. destruct (ps !! p) as [P|]; [|by rewrite H].
  destruct H as (P' & -> & _ & _ & _ & _ & H & _). cbn. by rewrite H, app_nil_r.
Qed.

Lemma ports_step_some ps ps' D add p : ports_step ps ps' D add -> is_Some (ps !! p) -> is_Some (ps' !! p).
Proof. intros H [P E]. specialize (H p). rewrite E in H. destruct H as (P' & -> & _). by eexists. Qed.

Lemma port_erase_run k p id x :
  (forall j, port_at (ports k) j = Some x -> j = (p, id)) -> port_at (ports k) (p, id) = Some x ->
  exists ps', port_erase p id x k = Some (tt, set_ports ps' k)
    /\ ports_step (ports k) ps' (fun y => y = x) (fun _ => []).
Proof.
  intros Hu Hx. pose proof Hx as Hx'. unfold port_at in Hx'. cbn in Hx'. destruct (ports k !! p) as [P|] eqn:E; [|done].
  cbn in Hx'. eexists. split.
  { unfold port_erase. erewrite kbind by (by apply get_port_run). unfold tree_erase. by rewrite decide_True. }
  intros q. destruct (decide (q = p)) as [->|Hq].
  - rewrite E, lookup_insert_eq. eexists. split; [done|]. split_and!; try done; [by rewrite app_nil_r|].
    intros id' y. cbn. rewrite lookup_delete_Some. split.
    + intros [Hne Hy]. split; [done|]. intros ->. apply Hne.
      assert (Ej : (p, id') = (p, id)) by (apply Hu; unfold port_at; cbn; by rewrite E). congruence.
    + intros [Hy Hne]. split; [|done]. intros ->. congruence.
  - rewrite lookup_insert_ne by done. destruct (ports k !! q) as [Q|] eqn:EQ; [|done].
    exists Q. split; [done|]. split_and!; try done; [by rewrite app_nil_r|].
    intros id' y. split; [|tauto]. intros Hy. split; [done|]. intros ->.
    assert (Ej : (q, id') = (p, id)) by (apply Hu; unfold port_at; cbn; by rewrite EQ). congruence.
Qed.

Definition only (p : nat) (e : generic_message) (q : nat) : list generic_message := if decide (q = p) then [e] else [].

Lemma enqueue_run k p e :
  is_Some (ports k !! p) -> e ∉ queue (ports k) p ->
  exists ps', enqueue p e k = Some (tt, set_ports ps' k)
    /\ ports_step (ports k) ps' (fun _ => False) (only p e).
Proof.
  intros [P E] He. unfold queue in He. rewrite E in He. cbn in He. eexists. split.
  { unfold enqueue. erewrite kbind by (by apply get_port_run). unfold list_push_back. by rewrite decide_False. }
  intros q. unfold only. destruct (decide (q = p)) as [->|Hq].
  - rewrite E, lookup_insert_eq. eexists. split; [done|]. split_and!; try done. cbn. naive_solver.
  - rewrite lookup_insert_ne by done. destruct (ports k !! q) as [Q|] eqn:EQ; [|done].
    exists Q. split; [done|]. split_and!; try done; [by rewrite app_nil_r|]. naive_solver.
Qed.

Lemma groups_step_none gs r : (forall i x, group_at gs i = Some x -> x <> r) -> groups_step gs gs r.
Proof.
  intros H g. destruct (gs !! g) as [G|] eqn:E; [|done]. exists G. split; [done|]. split_and!; try done.
  intros id x. split; [|tauto]. intros Hx. split; [done|]. apply (H (g, id)). unfold group_at. cbn. by rewrite E.
Qed.

Lemma group_erase_run k g id r :
  (forall j, group_at (groups k) j = Some r -> j = (g, id)) -> group_at (groups k) (g, id) = Some r ->
  exists gs', group_erase g id r k = Some (tt, set_groups gs' k) /\ groups_step (groups k) gs' r.
Proof.
  intros Hu Hx. pose proof Hx as Hx'. unfold group_at in Hx'. cbn in Hx'. destruct (groups k !! g) as [G|] eqn:E; [|done].
  cbn in Hx'. eexists. split.
  { unfold group_erase. erewrite kbind by (by apply get_group_run). unfold tree_erase. by rewrite decide_True. }
  intros q. destruct (decide (q = g)) as [->|Hq].
  - rewrite E, lookup_insert_eq. eexists. split; [done|]. split_and!; try done.
    intros id' y. cbn. rewrite lookup_delete_Some. split.
    + intros [Hne Hy]. split; [done|]. intros ->. apply Hne.
      assert (Ej : (g, id') = (g, id)) by (apply Hu; unfold group_at; cbn; by rewrite E). congruence.
    + intros [Hy Hne]. split; [|done]. intros ->. congruence.
  - rewrite lookup_insert_ne by done. destruct (groups k !! q) as [Q|] eqn:EQ; [|done].
    exists Q. split; [done|]. split_and!; try done.
    intros id' y. split; [|tauto]. intros Hy. split; [done|]. intros ->.
    assert (Ej : (q, id') = (g, id)) by (apply Hu; unfold group_at; cbn; by rewrite EQ). congruence.
Qed.

Section Destroy.
Context (b : busy) (k : kernel) (r : nat) (R : right).
Context (I : inv b k) (HR : rights k !! r = Some R) (Ha : alive R = true).

Let dead : gmap nat right := <[r := set_alive false R]> (rights k).

Lemma not_sent : sent R = false.
Proof. destruct (i_right _ _ I r R HR) as (_ & _ & Hs). destruct (sent R); [destruct Hs; congruence|done]. Qed.

Lemma dead_unsent : dead = <[r := set_sent false (set_alive false R)]> (rights k).
Proof. unfold dead. f_equal. pose proof not_sent as Hs. destruct R. cbn in *. by subst. Qed.

Lemma registered_at p : watched R = true -> parent R = Some p -> port_at (ports k) (p, right_parent_id R) = Some (RRight r).
Proof.
  intros Hw Hp. apply (i_ports _ _ I). cbn. rewrite (view_is _ _ _ _ HR). unfold registered. by rewrite Ha, Hw, Hp.
Qed.

Lemma registered_once p j : watched R = true -> parent R = Some p -> port_at (ports k) j = Some (RRight r) -> j = (p, right_parent_id R).
Proof.
  intros Hw Hp Hj. apply (i_ports _ _ I) in Hj. cbn in Hj. rewrite (view_is _ _ _ _ HR) in Hj. unfold registered in Hj.
  rewrite Ha, Hw, Hp in Hj. by injection Hj as <-.
Qed.

Lemma unwatched j : watched R = false -> port_at (ports k) j <> Some (RRight r).
Proof.
  intros Hw Hj. apply (i_ports _ _ I) in Hj. cbn in Hj. rewrite (view_is _ _ _ _ HR) in Hj. unfold registered in Hj.
  by rewrite Ha, Hw in Hj.
Qed.

Lemma leave_group_run k1 : groups k1 = groups k ->
  exists gs', when (negb (of_message R)) (group_erase (holder R) (right_sender_id R) r) k1 = Some (tt, set_groups gs' k1)
    /\ groups_step (groups k) gs' r.
Proof.
  intros Eg. assert (Ht : forall j, group_at (groups k) j = Some r -> in_table R = Some j).
  { intros j Hj. apply (i_groups _ _ I) in Hj. by rewrite (view_is _ _ _ _ HR) in Hj. }
  destruct (of_message R) eqn:Em; cbn [when negb].
  - exists (groups k1). split; [by destruct k1|]. rewrite Eg. apply groups_step_none. intros i x Hi ->.
    apply Ht in Hi. unfold in_table in Hi. by rewrite Em, andb_false_r in Hi.
  - destruct (group_erase_run k1 (holder R) (right_sender_id R) r) as (gs' & E & H); rewrite Eg in *; [..|by exists gs'].
    + intros j Hj. apply Ht in Hj. unfold in_table in Hj. rewrite Ha, Em in Hj. by injection Hj as <-.
    + apply (i_groups _ _ I). rewrite (view_is _ _ _ _ HR). unfold in_table. by rewrite Ha, Em.
Qed.

(** Handing a right that nothing keeps to the reclamation. *)
Lemma reclaim_run note k1 :
  when (negb note && negb (of_message R)) (rcu_push (DRight r)) k1
  = Some (tt, set_garbage ((if note || of_message R then [] else [DRight r]) ++ garbage k1) k1).
Proof. destruct note, (of_message R); cbn; try done; by destruct k1. Qed.

(** Sending the notification of a right that is dead. *)
Lemma notify_run k1 R1 note :
  rights k1 !! r = Some R1 -> (note = true -> watched R = true) ->
  (forall p, queue (ports k1) p = queue (ports k) p) -> (forall p, is_Some (ports k !! p) -> is_Some (ports k1 !! p)) ->
  exists ps' add, when note (p ← from (parent R); _ ← enqueue p (GRight r); upd_right r (set_sent true)) k1
      = Some (tt, set_rights (if note then <[r := set_sent true R1]> (rights k1) else rights k1) (set_ports ps' k1))
    /\ ports_step (ports k1) ps' (fun _ => False) add
    /\ forall p, NoDup (add p) /\ forall e, e ∈ add p <-> e = GRight r /\ note = true /\ parent R = Some p.
Proof.
  intros HR1 Hw Hq Hp. destruct note; cbn [when].
  - specialize (Hw eq_refl). destruct (parent R) as [p|] eqn:Epar.
    2:{ destruct (i_right _ _ I r R HR) as (H1 & H2 & _). specialize (H1 Ha). unfold watched in Hw.
        destruct (rtype R); [done|destruct H2; done|done]. }
    assert (Hnq : GRight r ∉ queue (ports k1) p).
    { rewrite Hq, <- elem_of_notes, (i_notes _ _ I p r), (view_is _ _ _ _ HR). unfold notifying. by rewrite not_sent. }
    assert (Hpk : is_Some (ports k !! p)).
    { pose proof (registered_at p Hw Epar) as E. unfold port_at in E. cbn in E. destruct (ports k !! p); [by eexists|done]. }
    destruct (enqueue_run k1 p (GRight r) (Hp p Hpk) Hnq) as (ps' & E & Hs).
    exists ps', (only p (GRight r)). split.
    { cbn [from]. erewrite kbind by done. erewrite kbind by exact E. by rewrite (upd_right_run (set_ports ps' k1) r R1). }
    split; [done|]. intros q. unfold only. destruct (decide (q = p)) as [->|Hne].
    + split; [apply NoDup_singleton|]. intros e. rewrite list_elem_of_singleton. naive_solver.
    + split; [constructor|]. intros e. rewrite elem_of_nil. naive_solver.
  - exists (ports k1), (fun _ => []). split; [by destruct k1|]. split; [apply ports_step_none; tauto|].
    intros p. split; [constructor|]. intros e. rewrite elem_of_nil. naive_solver.
Qed.

Lemma shareds_step_none : rtype R <> SendMany -> shareds_step (shareds k) (shareds k) r.
Proof.
  intros Ht s. destruct (shareds k !! s) as [Sh|] eqn:E; [|done]. exists Sh. split; [done|].
  assert (Hin : r ∉ send_many_rights Sh).
  { intros Hin. assert (Hv : r ∈ senders (shareds k) s) by (unfold senders; by rewrite E).
    apply (i_senders _ _ I) in Hv. rewrite (view_is _ _ _ _ HR) in Hv. unfold sharing in Hv.
    by rewrite bool_decide_false, andb_false_r in Hv. }
  split_and!; try done; [by rewrite filter_absent|]. rewrite bool_decide_false by done. by rewrite andb_true_r.
Qed.

Lemma no_deaths s : rtype R <> SendMany -> ~ dies (shareds k) r s.
Proof.
  intros Ht (Sh & E & _ & Hin & _). assert (Hv : r ∈ senders (shareds k) s) by (unfold senders; by rewrite E).
  apply (i_senders _ _ I) in Hv. rewrite (view_is _ _ _ _ HR) in Hv. unfold sharing in Hv.
  by rewrite bool_decide_false, andb_false_r in Hv.
Qed.

Lemma mem_step_none o x : rtype R <> MemObject ->
  x ∈ mem_rights (mem_objects k) o <-> x ∈ mem_rights (mem_objects k) o /\ x <> r.
Proof.
  intros Ht. split; [|tauto]. intros Hx. split; [done|]. intros ->. apply (i_mem _ _ I) in Hx.
  rewrite (view_is _ _ _ _ HR) in Hx. unfold mapping in Hx. by rewrite bool_decide_false, andb_false_r in Hx.
Qed.

Lemma watched_parent : watched R = true -> exists p, parent R = Some p.
Proof.
  intros Hw. destruct (parent R) as [p|] eqn:Epar; [by exists p|].
  destruct (i_right _ _ I r R HR) as (H1 & H2 & _). specialize (H1 Ha). unfold watched in Hw.
  destruct (rtype R); [done|destruct H2; done|done].
Qed.

(** Unregistering a watched right; other entries may have been erased before. *)
Lemma unregister_run k1 D add1 :
  rights k1 !! r = Some (set_alive false R) -> watched R = true ->
  ports_step (ports k) (ports k1) D add1 -> ~ D (RRight r) ->
  exists ps', remove_from_parent r k1 = Some (tt, set_ports ps' k1)
    /\ ports_step (ports k1) ps' (fun y => y = RRight r) (fun _ => []).
Proof.
  intros HR1 Hw Hs HD. destruct (watched_parent Hw) as [p Ep].
  destruct (port_erase_run k1 p (right_parent_id R) (RRight r)) as (ps' & E & Hs').
  - intros j Hj. apply (port_at_step _ _ _ _ _ _ Hs) in Hj as [Hj _]. by apply (registered_once p).
  - apply (port_at_step _ _ _ _ _ _ Hs). split; [by apply registered_at|done].
  - exists ps'. split; [|done]. unfold remove_from_parent. erewrite kbind by (by apply get_right_run). cbn.
    unfold watched in Hw. rewrite Ep. cbn. destruct (rtype R); [|..|done]; (erewrite kbind by done); exact E.
Qed.

Lemma destroy_once_run reason mg :
  rtype R = SendOnce -> mismatch R mg = false ->
  exists k' add, destroy_nolock_once r reason mg k = Some (true, k')
    /\ destroyed k k' r R (bool_decide (reason = DeletedBySender)) add.
Proof.
  intros Ht Hm. assert (Hw : watched R = true) by (unfold watched; by rewrite Ht).
  set (note := bool_decide (reason = DeletedBySender)).
  unfold destroy_nolock_once. erewrite kbind by (by apply get_right_run). rewrite Ha, Hm. cbn [negb].
  erewrite kbind by (by apply upd_right_run). fold dead.
  destruct (unregister_run (set_rights dead k) (fun _ => False) (fun _ => [])) as (ps1 & E1 & Hs1);
    [cbn; apply lookup_insert_eq|done|apply ports_step_none; tauto|tauto|].
  erewrite kbind by exact E1. fold note.
  destruct (leave_group_run (set_ports ps1 (set_rights dead k))) as (gs' & E2 & Hg); [done|].
  erewrite kbind by exact E2.
  set (k2 := set_groups gs' _).
  erewrite kbind by apply reclaim_run. set (k3 := set_garbage _ k2).
  destruct (notify_run k3 (set_alive false R) note) as (ps2 & add & E4 & Hs2 & Hadd).
  { cbn. apply lookup_insert_eq. }
  { done. }
  { intros p. exact (queue_same _ _ _ p Hs1). }
  { intros p. exact (ports_step_some _ _ _ _ p Hs1). }
  erewrite kbind by exact E4. eexists _, add. split; [done|].
  split; cbn; try done.
  - destruct note; [unfold dead; by rewrite insert_insert_eq|apply dead_unsent].
  - apply shareds_step_none. congruence.
  - eapply ports_step_ext; [eapply ports_step_trans; [exact Hs1|exact Hs2]| |done].
    intros i x Hx. pose proof (fun s => no_deaths s ltac:(congruence)). naive_solver.
  - intros p. destruct (Hadd p) as [Hnd He]. split; [done|]. intros e. rewrite He. unfold news.
    pose proof (fun s => no_deaths s ltac:(congruence)). naive_solver.
  - intros o x. apply mem_step_none. congruence.
Qed.

Lemma destroy_base_run mg :
  rtype R = MemObject -> mismatch R mg = false ->
  exists k' add, destroy_nolock_base r mg k = Some (true, k') /\ destroyed k k' r R false add.
Proof.
  intros Ht Hm. assert (Hw : watched R = false) by (unfold watched; by rewrite Ht).
  unfold destroy_nolock_base. erewrite kbind by (by apply get_right_run). rewrite Ha, Hm. cbn [negb].
  erewrite kbind by (by apply upd_right_run). fold dead.
  destruct (i_right _ _ I r R HR) as (H1 & _). specialize (H1 Ha). rewrite Ht in H1.
  destruct (mem_object R) as [o|] eqn:Eo; [|done].
  assert (Hin : r ∈ mem_rights (mem_objects k) o).
  { apply (i_mem _ _ I). rewrite (view_is _ _ _ _ HR). unfold mapping. by rewrite Ha, Ht. }
  unfold mem_rights in Hin. destruct (mem_objects k !! o) as [l|] eqn:El; [|by apply elem_of_nil in Hin]. cbn in Hin.
  assert (E1 : remove_from_parent r (set_rights dead k)
    = Some (tt, set_mem_objects (<[o := filter (fun y => y <> r) l]> (mem_objects k)) (set_rights dead k))).
  { unfold remove_from_parent. erewrite kbind by (apply get_right_run; cbn; apply lookup_insert_eq). cbn. rewrite Ht, Eo.
    erewrite kbind by done. erewrite kbind by (by apply get_mem_object_run). unfold list_remove. rewrite decide_True by done.
    by erewrite kbind by done. }
  erewrite kbind by exact E1. set (k1 := set_mem_objects _ _).
  destruct (leave_group_run k1) as (gs' & E2 & Hg); [done|].
  assert (E3 : when (negb (of_message R)) (_ ← group_erase (holder R) (right_sender_id R) r; rcu_push (DRight r)) k1
    = Some (tt, set_garbage ((if of_message R then [] else [DRight r]) ++ garbage k) (set_groups gs' k1))).
  { destruct (of_message R); cbn [when negb] in *; [exact E2|].
    by erewrite kbind by exact E2. }
  erewrite kbind by exact E3. eexists _, (fun _ => []). split; [done|]. split; cbn; try done.
  - apply dead_unsent.
  - apply shareds_step_none. congruence.
  - apply ports_step_none. intros i x Hx [->|(s & -> & Hs)]; [by apply (unwatched i)|].
    by apply (no_deaths s ltac:(congruence)).
  - intros p. split; [constructor|]. intros e. rewrite elem_of_nil. unfold news.
    pose proof (fun s => no_deaths s ltac:(congruence)). naive_solver.
  - intros o' x. unfold mem_rights. destruct (decide (o' = o)) as [->|Hne].
    + rewrite lookup_insert_eq, El. cbn. rewrite list_elem_of_filter. tauto.
    + rewrite lookup_insert_ne by done. split; [|tauto]. intros Hx. split; [done|]. intros ->.
      apply (i_mem _ _ I o' r) in Hx. rewrite (view_is _ _ _ _ HR) in Hx. unfold mapping in Hx.
      rewrite Ha, Ht, Eo in Hx. by injection Hx.
Qed.

(** The shared structure of the right. *)
Lemma sharing_at : rtype R = SendMany -> exists s Sh, shared R = Some s /\ shareds k !! s = Some Sh
  /\ r ∈ send_many_rights Sh /\ forall s', r ∈ senders (shareds k) s' -> s' = s.
Proof.
  intros Ht. destruct (i_right _ _ I r R HR) as (H1 & _). specialize (H1 Ha). rewrite Ht in H1.
  destruct (shared R) as [s|] eqn:Es; [|done].
  assert (Hv : forall s', r ∈ senders (shareds k) s' <-> s = s').
  { intros s'. rewrite (i_senders _ _ I s' r), (view_is _ _ _ _ HR). unfold sharing. rewrite Ha, Ht, Es. cbn. naive_solver. }
  assert (Hin : r ∈ senders (shareds k) s) by (by apply Hv). unfold senders in Hin.
  destruct (shareds k !! s) as [Sh|] eqn:E; [|by apply elem_of_nil in Hin]. exists s, Sh.
  split; [done|]. split; [done|]. split; [done|]. intros s' Hs'. symmetry. by apply Hv.
Qed.

Lemma shareds_step_at s Sh Sh' :
  shareds k !! s = Some Sh -> (forall s', r ∈ senders (shareds k) s' -> s' = s) -> shared_step Sh Sh' r ->
  shareds_step (shareds k) (<[s := Sh']> (shareds k)) r.
Proof.
  intros E Hu Hstep s'. destruct (decide (s' = s)) as [->|Hne].
  - rewrite E, lookup_insert_eq. by exists Sh'.
  - rewrite lookup_insert_ne by done. destruct (shareds k !! s') as [S2|] eqn:E2; [|done]. exists S2. split; [done|].
    assert (Hin : r ∉ send_many_rights S2).
    { intros Hin. apply Hne, Hu. unfold senders. by rewrite E2. }
    split_and!; try done; [by rewrite filter_absent|]. rewrite bool_decide_false by done. by rewrite andb_true_r.
Qed.

(** What [leave_shared] does: [d] says whether the shared structure [s] dies. *)
Lemma leave_shared_run s Sh k1 :
  shareds k !! s = Some Sh -> r ∈ send_many_rights Sh -> (forall s', r ∈ senders (shareds k) s' -> s' = s) ->
  shareds k1 = shareds k -> ports k1 = ports k ->
  exists d ss' ps' Sh', leave_shared r s k1 = Some (d, set_ports ps' (set_shareds ss' k1))
    /\ shareds_step (shareds k) ss' r /\ ss' !! s = Some Sh' /\ s_parent Sh' = s_parent Sh
    /\ ports_step (ports k) ps' (fun x => x = RShared s /\ d = true) (fun _ => [])
    /\ (forall s', dies (shareds k) r s' <-> s' = s /\ d = true)
    /\ (d = true -> exists p, s_parent Sh = Some p /\ is_Some (ports k !! p)).
Proof.
  intros E Hin Hu Es Ep.
  set (l := filter (fun y => y <> r) (send_many_rights Sh)).
  set (d := s_alive Sh && bool_decide (l = [])).
  assert (Hd : forall s', dies (shareds k) r s' <-> s' = s /\ d = true).
  { intros s'. unfold dies, d. rewrite andb_true_iff, bool_decide_eq_true. split.
    - intros (S' & E' & H1 & H2 & H3). assert (s' = s) as -> by (apply Hu; unfold senders; by rewrite E').
      rewrite E in E'. by injection E' as <-.
    - intros (-> & H1 & H2). by exists Sh. }
  assert (Hl : list_remove r (send_many_rights Sh) = Some l).
  { unfold list_remove. by rewrite decide_True. }
  unfold leave_shared. erewrite kbind by (apply get_shared_run; by rewrite Es). rewrite Hl. cbn [from].
  erewrite kbind by done. cbn zeta. change (s_alive (set_send_many_rights l Sh)) with (s_alive Sh). fold d.
  set (Sh' := set_s_alive (s_alive Sh && negb d) (set_send_many_rights l Sh)).
  assert (Hstep : shareds_step (shareds k) (<[s := Sh']> (shareds k)) r).
  { apply (shareds_step_at s Sh); try done. split_and!; try done. cbn. rewrite bool_decide_true by done.
    unfold d. by destruct (s_alive Sh). }
  destruct d eqn:Ed.
  - assert (Hal : s_alive Sh = true) by (unfold d in Ed; by destruct (s_alive Sh)).
    pose proof (i_shared _ _ I s Sh E) as HS. rewrite Hal in HS. destruct HS as (Hpar & _ & _).
    destruct (s_parent Sh) as [p|] eqn:Epar; [|done].
    assert (Hat : forall j, port_at (ports k) j = Some (RShared s) <-> j = (p, s_right_parent_id Sh)).
    { intros j. rewrite (i_ports _ _ I j (RShared s)). cbn. rewrite (view_is _ _ _ _ E). unfold s_registered.
      rewrite Hal, Epar. cbn. naive_solver. }
    assert (Esa : set_s_alive false (set_send_many_rights l Sh) = Sh').
    { unfold Sh'. by rewrite andb_false_r. }
    rewrite Esa. erewrite kbind by done. cbn [s_parent set_send_many_rights set_s_alive]. rewrite Epar.
    erewrite kbind by done. rewrite Es.
    set (k2 := set_shareds _ k1).
    destruct (port_erase_run k2 p (s_right_parent_id Sh) (RShared s)) as (ps' & E2 & Hs).
    + intros j Hj. apply Hat. cbn in Hj. by rewrite Ep in Hj.
    + cbn. rewrite Ep. by apply Hat.
    + exists true, (<[s := Sh']> (shareds k)), ps', Sh'. rewrite lookup_insert_eq.
      split; [by erewrite kbind by exact E2|]. cbn in Hs. rewrite Ep in Hs. split_and!; try done.
      * eapply ports_step_ext; [exact Hs|naive_solver|done].
      * intros _. exists p. split; [done|]. pose proof (proj2 (Hat (p, s_right_parent_id Sh)) eq_refl) as H.
        unfold port_at in H. cbn in H. destruct (ports k !! p); [by eexists|done].
  - assert (Esa : set_send_many_rights l Sh = Sh').
    { unfold Sh'. rewrite andb_true_r. by destruct Sh. }
    rewrite Esa. exists false, (<[s := Sh']> (shareds k)), (ports k), Sh'. rewrite lookup_insert_eq.
    split. { erewrite kbind by done. rewrite Es. cbn. rewrite <- Ep. by destruct k1. }
    split_and!; try done. apply ports_step_none. naive_solver.
Qed.

(** Unregistering a right that has a notification port. *)
Lemma unregister_many_run k1 D :
  rtype R = SendMany -> rights k1 !! r = Some (set_alive false R) ->
  ports_step (ports k) (ports k1) D (fun _ => []) -> ~ D (RRight r) ->
  exists ps', when (notification_port R) (remove_from_parent r) k1 = Some (tt, set_ports ps' k1)
    /\ ports_step (ports k) ps' (fun x => x = RRight r \/ D x) (fun _ => []).
Proof.
  intros Ht HR1 Hs HD. assert (Hw : watched R = notification_port R) by (unfold watched; by rewrite Ht).
  destruct (notification_port R) eqn:En; cbn [when].
  - destruct (unregister_run k1 D (fun _ => []) HR1 Hw Hs HD) as (ps' & E & Hs'). exists ps'. split; [done|].
    eapply ports_step_ext; [eapply ports_step_trans; [exact Hs|exact Hs']|naive_solver|done].
  - exists (ports k1). split; [by destruct k1|]. eapply ports_step_ext; [exact Hs| |done].
    intros i x Hx. split; [tauto|]. intros [->|]; [|done]. by destruct (unwatched i).
Qed.

(** The notification that the last right of a shared structure is gone. *)
Lemma notify_shared_run s Sh (d : bool) Sh' k1 D add :
  shareds k !! s = Some Sh -> s_parent Sh' = s_parent Sh ->
  (d = true -> s_alive Sh = true /\ exists p, s_parent Sh = Some p /\ is_Some (ports k !! p)) ->
  shareds k1 !! s = Some Sh' ->
  ports_step (ports k) (ports k1) D add -> (forall p e, e ∈ add p -> e = GRight r) ->
  exists ps' add', when d (S ← get_shared s; p ← from (s_parent S); enqueue p (GShared s)) k1 = Some (tt, set_ports ps' k1)
    /\ ports_step (ports k) ps' D (fun p => add p ++ add' p)
    /\ forall p, NoDup (add' p) /\ forall e, e ∈ add' p <-> e = GShared s /\ d = true /\ s_parent Sh = Some p.
Proof.
  intros E Hpar Hd Es Hs Hadd. destruct d; cbn [when].
  - destruct (Hd eq_refl) as (Hal & p & Ep & Hp). erewrite kbind by (by apply get_shared_run). rewrite Hpar, Ep.
    erewrite kbind by done.
    assert (Hnq : GShared s ∉ queue (ports k1) p).
    { rewrite (queue_step _ _ _ _ p Hs Hp), elem_of_app. intros [Hq|Hq].
      - destruct (i_shared_note _ _ I s p Hq) as (S2 & E2 & H2 & _). congruence.
      - by apply Hadd in Hq. }
    destruct (enqueue_run k1 p (GShared s)) as (ps' & E' & Hs'); [by eapply ports_step_some|done|].
    exists ps', (only p (GShared s)). split; [exact E'|]. split.
    + eapply ports_step_ext; [eapply ports_step_trans; [exact Hs|exact Hs']|naive_solver|done].
    + intros q. unfold only. destruct (decide (q = p)) as [->|Hne].
      * split; [apply NoDup_singleton|]. intros e. rewrite list_elem_of_singleton. naive_solver.
      * split; [constructor|]. intros e. rewrite elem_of_nil. naive_solver.
  - exists (ports k1), (fun _ => []). split; [by destruct k1|]. split.
    + eapply ports_step_ext; [exact Hs|done|]. intros p _. by rewrite app_nil_r.
    + intros p. split; [constructor|]. intros e. rewrite elem_of_nil. naive_solver.
Qed.

Lemma destroy_many_run mg :
  rtype R = SendMany -> mismatch R mg = false ->
  exists k' add, destroy_nolock_many r mg k = Some (true, k') /\ destroyed k k' r R (notification_port R) add.
Proof.
  intros Ht Hm. assert (Hw : watched R = notification_port R) by (unfold watched; by rewrite Ht).
  destruct (sharing_at Ht) as (s & Sh & Es & E & Hin & Hu).
  unfold destroy_nolock_many. erewrite kbind by (by apply get_right_run). rewrite Ha, Hm. cbn [negb].
  erewrite kbind by (by apply upd_right_run). fold dead. rewrite Es. erewrite kbind by done.
  destruct (leave_shared_run s Sh (set_rights dead k)) as (d & ss' & ps1 & Sh' & E1 & Hss & ES' & Epar & Hs1 & Hdies & Hd);
    [done..|].
  erewrite kbind by exact E1.
  assert (Hr : forall k1, rights k1 = dead -> rights k1 !! r = Some (set_alive false R)).
  { intros k1 ->. apply lookup_insert_eq. }
  destruct (unregister_many_run (set_ports ps1 (set_shareds ss' (set_rights dead k))) (fun x => x = RShared s /\ d = true))
    as (ps2 & E2 & Hs2); [done|by apply Hr|exact Hs1|naive_solver|].
  erewrite kbind by exact E2.
  match type of E2 with _ = Some (tt, ?k2) => destruct (leave_group_run k2) as (gs' & E3 & Hg); [done|] end.
  erewrite kbind by exact E3. erewrite kbind by apply reclaim_run. set (k3 := set_garbage _ _).
  destruct (notify_run k3 (set_alive false R) (notification_port R)) as (ps3 & add & E4 & Hs3 & Hadd).
  { by apply Hr. }
  { congruence. }
  { intros p. exact (queue_same _ _ _ p Hs2). }
  { intros p. exact (ports_step_some _ _ _ _ p Hs2). }
  erewrite kbind by exact E4. pose proof (ports_step_trans _ _ _ _ _ _ _ Hs2 Hs3) as Hs23. set (k4 := set_rights _ _).
  edestruct (notify_shared_run s Sh d Sh' k4) as (ps5 & add5 & E5 & Hs5 & Hadd5);
    [exact E|exact Epar| |exact ES'|exact Hs23| |].
  { intros ->. destruct (proj2 (Hdies s)) as (S2 & E' & ? & _); [done|]. rewrite E in E'. injection E' as ->.
    split; [done|by apply Hd]. }
  { intros p e He. cbn in He. by apply Hadd in He as [-> _]. }
  erewrite kbind by exact E5. eexists _, _. split; [done|]. split; cbn; try done.
  - destruct (notification_port R); [unfold dead; by rewrite insert_insert_eq|apply dead_unsent].
  - eapply ports_step_ext; [exact Hs5| |done].
    intros i x _. setoid_rewrite Hdies. naive_solver.
  - intros p. cbn. destruct (Hadd p) as [Hnd He], (Hadd5 p) as [Hnd5 He5]. split.
    + apply NoDup_app. split; [done|]. split; [|done]. intros x Hx Hx'. apply He in Hx. apply He5 in Hx'. naive_solver.
    + intros e. rewrite elem_of_app, He, He5. unfold news. setoid_rewrite Hdies. naive_solver.
  - intros o x. apply mem_step_none. congruence.
Qed.

(** The reasons for which a right of this type sends its port a notification *)
Definition notifies (reason : DestroyReason) : bool :=
  match rtype R with
  | SendOnce => bool_decide (reason = DeletedBySender)
  | SendMany => notification_port R
  | MemObject => false
  end.

Lemma destroy_run reason mg :
  mismatch R mg = false ->
  exists k' add, destroy r reason mg k = Some (true, k') /\ destroyed k k' r R (notifies reason) add.
Proof.
  intros Hm. unfold destroy, notifies. erewrite kbind by (by apply get_right_run). destruct (rtype R) eqn:Ht.
  - by apply destroy_once_run.
  - by apply destroy_many_run.
  - by apply destroy_base_run.
Qed.

Lemma notifies_watched reason : notifies reason = true -> watched R = true.
Proof. unfold notifies, watched. by destruct (rtype R). Qed.
End Destroy.
