(* ===== verification/RightsOps.v ===== *)
(** * Destroying rights, messages, ports and groups

    The operations of Rights.v that take objects apart, from the invariant of
    RightsInv.v: each of them runs to its end and keeps the invariant.  The loops
    that empty a container have enough fuel because every round removes the element
    it looks at and none adds one. *)

From stdpp Require Import base list numbers gmap fin_maps sorting.
From S2P Require Import Prelude Rights RightsInv.

(** ** Total correctness of kernel code *)

(** [c] ends without a panic, in a state and with a result that satisfy [Q]. *)
Definition runs {A} (c : K A) (k : kernel) (Q : A -> kernel -> Prop) : Prop :=
  exists a k', c k = Some (a, k') /\ Q a k'.

Section Runs.
Context {A : Type}.
Implicit Types (c : K A) (Q : A -> kernel -> Prop).

Lemma runs_bind {B} (c : K B) (f : B -> K A) k (P : B -> kernel -> Prop) Q :
  runs c k P -> (forall a k', P a k' -> runs (f a) k' Q) -> runs (c ≫= f) k Q.
Proof.
  intros (a & k' & E & HP) Hf. destruct (Hf a k' HP) as (a' & k'' & E' & HQ). exists a', k''.
  split; [|done]. unfold mbind, K_bind. by rewrite E.
Qed.

Lemma runs_step {B} (c : K B) (f : B -> K A) k b k' Q : c k = Some (b, k') -> runs (f b) k' Q -> runs (c ≫= f) k Q.
Proof. intros E (a' & k'' & E' & HQ). exists a', k''. split; [|done]. unfold mbind, K_bind. by rewrite E. Qed.

Lemma runs_ret a k Q : Q a k -> runs (mret a) k Q.
Proof. intros HQ. by exists a, k. Qed.

Lemma runs_eq c k a k' Q : c k = Some (a, k') -> Q a k' -> runs c k Q.
Proof. intros E HQ. by exists a, k'. Qed.

Lemma runs_mono c k P Q : runs c k P -> (forall a k', P a k' -> Q a k') -> runs c k Q.
Proof. intros (a & k' & E & HP) H. exists a, k'. auto. Qed.

Lemma runs_get_right r R (f : right -> K A) k Q :
  rights k !! r = Some R -> runs (f R) k Q -> runs (get_right r ≫= f) k Q.
Proof. intros E. apply runs_step. by apply get_right_run. Qed.
Lemma runs_get_shared s Sh (f : shared_right -> K A) k Q :
  shareds k !! s = Some Sh -> runs (f Sh) k Q -> runs (get_shared s ≫= f) k Q.
Proof. intros E. apply runs_step. by apply get_shared_run. Qed.
Lemma runs_get_port p P (f : port -> K A) k Q :
  ports k !! p = Some P -> runs (f P) k Q -> runs (get_port p ≫= f) k Q.
Proof. intros E. apply runs_step. by apply get_port_run. Qed.
Lemma runs_get_group g G (f : task_group -> K A) k Q :
  groups k !! g = Some G -> runs (f G) k Q -> runs (get_group g ≫= f) k Q.
Proof. intros E. apply runs_step. by apply get_group_run. Qed.
Lemma runs_get_message m M (f : message -> K A) k Q :
  messages k !! m = Some M -> runs (f M) k Q -> runs (get_message m ≫= f) k Q.
Proof. intros E. apply runs_step. unfold get_message. by rewrite E. Qed.
Lemma runs_get_mem_object o l (f : list nat -> K A) k Q :
  mem_objects k !! o = Some l -> runs (f l) k Q -> runs (get_mem_object o ≫= f) k Q.
Proof. intros E. apply runs_step. by apply get_mem_object_run. Qed.
Lemma runs_assert (b : bool) (f : unit -> K A) k Q : b = true -> runs (f tt) k Q -> runs (assert b ≫= f) k Q.
Proof. intros ->. by apply runs_step. Qed.
Lemma runs_from {B} (o : option B) b (f : B -> K A) k Q : o = Some b -> runs (f b) k Q -> runs (from o ≫= f) k Q.
Proof. intros ->. by apply runs_step. Qed.
Lemma runs_do (c : K unit) (f : unit -> K A) k k' Q : c k = Some (tt, k') -> runs (f tt) k' Q -> runs (c ≫= f) k Q.
Proof. apply runs_step. Qed.
End Runs.

Lemma map_below_empty {A} (m : gmap Z A) : m ⊆ ∅ -> m = ∅.
Proof. intros H. apply (anti_symm (⊆)); [done|apply map_empty_subseteq]. Qed.

(** ** What destroying leaves alone *)

(** No object is created. *)
Definition no_new (k k' : kernel) : Prop :=
  forall a, (rights k !! a = None -> rights k' !! a = None) /\ (shareds k !! a = None -> shareds k' !! a = None)
    /\ (ports k !! a = None -> ports k' !! a = None) /\ (groups k !! a = None -> groups k' !! a = None).

#[global] Instance no_new_refl : Reflexive no_new.
Proof. by intros k a. Qed.
#[global] Instance no_new_trans : Transitive no_new.
Proof. intros k1 k2 k3 H12 H23 a. destruct (H12 a) as (?&?&?&?), (H23 a) as (?&?&?&?). auto 6. Qed.

(** The tables shrink; a queue only grows, and not that of a port without rights. *)
Record shrinks (k k' : kernel) : Prop := {
  sh_ports : forall p P, ports k !! p = Some P -> exists P', ports k' !! p = Some P'
    /\ (owner P' = owner P /\ p_notifiers P' = p_notifiers P) /\ portno P' = portno P /\ p_alive P' = p_alive P
    /\ p_current_right_id P' = p_current_right_id P /\ p_rights P' ⊆ p_rights P
    /\ exists add, msg_queue P' = msg_queue P ++ add /\ (p_rights P = ∅ -> add = []);
  sh_groups : forall g G, groups k !! g = Some G -> exists G', groups k' !! g = Some G'
    /\ (group_id G' = group_id G /\ g_notifiers G' = g_notifiers G) /\ tasks G' = tasks G
    /\ g_current_right_id G' = g_current_right_id G /\ g_rights G' ⊆ g_rights G;
  sh_messages : messages k' = messages k;
  sh_rights : forall r, is_Some (rights k !! r) -> is_Some (rights k' !! r);
  sh_shareds : forall s, is_Some (shareds k !! s) -> is_Some (shareds k' !! s);
  sh_new : no_new k k';
  sh_garbage : forall d, d ∈ garbage k -> d ∈ garbage k';
  sh_global : global_ports k' = global_ports k /\ global_groups k' = global_groups k
    /\ biggest_port k' = biggest_port k /\ next_group_id k' = next_group_id k
    /\ kernel_tasks k' = kernel_tasks k /\ right0_id k' = right0_id k /\ fresh k' = fresh k
}.

#[global] Instance shrinks_refl : Reflexive shrinks.
Proof.
  intros k. split; try done.
  - intros p P E. exists P. split_and!; try done. exists []. by rewrite app_nil_r.
  - intros g G E. by exists G.
Qed.

#[global] Instance shrinks_trans : Transitive shrinks.
Proof.
  intros k1 k2 k3 [P12 G12 M12 R12 S12 N12 D12 C12] [P23 G23 M23 R23 S23 N23 D23 C23]. split.
  - intros p P1 E1. destruct (P12 p P1 E1) as (P2 & E2 & [A1 A1'] & A2 & A3 & A4 & A5 & a & A6 & A7).
    destruct (P23 p P2 E2) as (P3 & E3 & [B1 B1'] & B2 & B3 & B4 & B5 & b & B6 & B7). exists P3.
    split_and!; try congruence; [by etrans|]. exists (a ++ b). split; [by rewrite B6, A6, app_assoc|].
    intros He. rewrite (A7 He), B7; [done|]. rewrite He in A5. by apply map_below_empty.
  - intros g G1 E1. destruct (G12 g G1 E1) as (G2 & E2 & [A1 A1'] & A2 & A3 & A4).
    destruct (G23 g G2 E2) as (G3 & E3 & [B1 B1'] & B2 & B3 & B4). exists G3. split_and!; try congruence. by etrans.
  - congruence.
  - auto.
  - auto.
  - by etrans.
  - auto.
  - destruct C12 as (?&?&?&?&?&?&?), C23 as (?&?&?&?&?&?&?). split_and!; congruence.
Qed.

Lemma destroyed_shrinks b k k' r R note add :
  inv b k -> rights k !! r = Some R -> alive R = true -> (note = true -> watched R = true) ->
  destroyed k k' r R note add -> shrinks k k'.
Proof.
  intros I HR Ha Hn Hd. split.
  - intros p P E. pose proof (d_ports _ _ _ _ _ _ Hd p) as H. rewrite E in H.
    destruct H as (P' & E' & [H1 H1'] & H2 & H3 & H4 & H5 & H6). exists P'. split_and!; try done.
    + apply map_subseteq_spec. intros id x Hx. by apply H6 in Hx as [Hx _].
    + exists (add p). split; [done|]. intros He. destruct (add p) as [|e l] eqn:Eadd; [done|]. exfalso.
      assert (Hin : news (shareds k) r R note p e) by (apply (d_add _ _ _ _ _ _ Hd); rewrite Eadd; by left).
      destruct Hin as [(_ & Hnote & Hp)|(s & S0 & _ & (S1 & E1 & Hs & _) & E0 & Hp)].
      * pose proof (registered_at b k r R I HR Ha p (Hn Hnote) Hp) as Hat. unfold port_at in Hat. cbn in Hat.
        rewrite E in Hat. cbn in Hat. by rewrite He in Hat.
      * rewrite E0 in E1. injection E1 as <-.
        assert (Ei : index_of (rights k) (shareds k) (RShared s) = Some (p, s_right_parent_id S0)).
        { cbn. rewrite (view_is _ _ _ _ E0). unfold s_registered. by rewrite Hs, Hp. }
        apply (i_ports _ _ I) in Ei. unfold port_at in Ei. cbn in Ei. rewrite E in Ei. cbn in Ei. by rewrite He in Ei.
  - intros g G E. pose proof (d_groups _ _ _ _ _ _ Hd g) as H. rewrite E in H.
    destruct H as (G' & E' & [H1 H1'] & H2 & H3 & H4). exists G'. split_and!; try done.
    apply map_subseteq_spec. intros id x Hx. by apply H4 in Hx as [Hx _].
  - apply (d_messages _ _ _ _ _ _ Hd).
  - intros x [X E]. rewrite (d_rights _ _ _ _ _ _ Hd). destruct (decide (x = r)) as [->|Hx].
    + rewrite lookup_insert_eq. by eexists.
    + rewrite lookup_insert_ne by done. by eexists.
  - intros s [Sh E]. pose proof (d_shareds _ _ _ _ _ _ Hd s) as H. rewrite E in H. destruct H as (S' & E' & _). by eexists.
  - intros a. split_and!; intros E.
    + rewrite (d_rights _ _ _ _ _ _ Hd). by eapply put_none.
    + pose proof (d_shareds _ _ _ _ _ _ Hd a) as H. by rewrite E in H.
    + pose proof (d_ports _ _ _ _ _ _ Hd a) as H. by rewrite E in H.
    + pose proof (d_groups _ _ _ _ _ _ Hd a) as H. by rewrite E in H.
  - intros d Hd'. rewrite (d_garbage _ _ _ _ _ _ Hd), elem_of_app. by right.
  - apply (d_global _ _ _ _ _ _ Hd).
Qed.

(** ** [destroy] *)

(** The whole operation: nothing happens to a right that is dead or belongs to another
    group, and the rest is [destroyed]. *)
Lemma destroy_spec b k r R reason mg :
  inv b k -> rights k !! r = Some R ->
  runs (destroy r reason mg) k (fun res k' => inv b k' /\ shrinks k k'
    /\ res = alive R && negb (mismatch R mg)
    /\ if res then exists add, destroyed k k' r R (notifies R reason) add else k' = k).
Proof.
  intros I HR. destruct (alive R) eqn:Ha; [destruct (mismatch R mg) eqn:Hm|].
  - exists false, k. split; [|done]. unfold destroy. erewrite kbind by (by apply get_right_run).
    destruct (rtype R); unfold destroy_nolock_once, destroy_nolock_many, destroy_nolock_base;
      erewrite kbind by (by apply get_right_run); by rewrite Ha, Hm.
  - destruct (destroy_run b k r R I HR Ha reason mg Hm) as (k' & add & E & Hd). exists true, k'. split; [done|].
    assert (Hn := notifies_watched R reason). split; [by eapply inv_kill|]. split; [by eapply destroyed_shrinks|].
    split; [done|]. by exists add.
  - exists false, k. split; [|done]. unfold destroy. erewrite kbind by (by apply get_right_run).
    destruct (rtype R); unfold destroy_nolock_once, destroy_nolock_many, destroy_nolock_base;
      erewrite kbind by (by apply get_right_run); by rewrite Ha.
Qed.

(** ** Releasing the right of a message *)

Lemma index_of_put rs ss r R R' x :
  rs !! r = Some R -> registered R' = registered R -> index_of (<[r := R']> rs) ss x = index_of rs ss x.
Proof. intros HR E. destruct x as [x|s]; [|done]. cbn. by eapply view_put_same. Qed.

(** The fields of the invariant that a step does not touch. *)
Ltac keep I := try (solve
  [ apply I
  | eapply notified_put_port; [apply I|eassumption|by intros ?]
  | eapply notified_put_group; [apply I|eassumption|done|done]
  | eapply notified_put_port; [eapply notified_put_group; [apply I|eassumption|done|done]|eassumption|by intros ?] ]).

(** A table is still an index when a right [r], found by [HR], is replaced by one with the same fields. *)
Ltac same_view I HR :=
  match goal with
  | |- agree ?t (view ?f (<[_ := _]> ?m)) =>
      apply (agree_ext t t (view f m)); [apply I|done|intros ?; eapply view_put_same; [exact HR|]]
  | |- agree ?t (index_of (<[_ := _]> ?m) ?ss) =>
      apply (agree_ext t t (index_of m ss)); [apply I|done|intros ?; eapply index_of_put; [exact HR|]]
  | |- collects ?t (view ?f (<[_ := _]> ?m)) =>
      apply (collects_ext t t (view f m)); [apply I|done|intros ?; eapply view_put_same; [exact HR|]]
  end.

Lemma inv_release l bs bp bg k r R :
  inv (Busy (r :: l) bs bp bg) k -> rights k !! r = Some R -> alive R = false ->
  inv (Busy l bs bp bg)
    (set_garbage ((if sent R then [] else [DRight r]) ++ garbage k) (set_rights (<[r := set_of_message false R]> (rights k)) k)).
Proof.
  intros I HR Ha. destruct (i_busy _ _ I) as [Hnd Hb]. cbn in Hnd, Hb. apply NoDup_cons in Hnd as [Hr Hnd].
  destruct (Hb r ltac:(by left)) as [_ Hslot].
  assert (Hgar : forall d, d <> DRight r -> d ∈ (if sent R then [] else [DRight r]) ++ garbage k <-> d ∈ garbage k).
  { intros d Hd. rewrite elem_of_app. destruct (sent R); set_solver. }
  split; cbn; keep I.
  - same_view I HR. unfold in_table. cbn. by rewrite Ha.
  - same_view I HR. unfold registered. cbn. by rewrite Ha.
  - same_view I HR. unfold sharing. cbn. by rewrite Ha.
  - same_view I HR. unfold mapping. cbn. by rewrite Ha.
  - same_view I HR. done.
  - put_all; [apply I|apply (i_right _ _ I r R HR)].
  - intros m x Hx. rewrite lookup_insert_ne by (intros ->; by apply (Hslot m)). by apply (i_slots _ _ I).
  - intros x X Hx Hal Hm. destruct (decide (x = r)) as [->|Hne].
    + rewrite lookup_insert_eq in Hx. by injection Hx as <-.
    + rewrite lookup_insert_ne in Hx by done. destruct (i_carried _ _ I x X Hx Hal Hm) as [?|Hin]; [by left|right].
      cbn in Hin. set_solver.
  - split; [done|]. intros x Hx. rewrite lookup_insert_ne by (intros ->; done). apply Hb. by right.
  - destruct (sent R) eqn:Es; [apply (i_garbage _ _ I)|]. cbn. apply NoDup_cons. split; [|apply (i_garbage _ _ I)].
    rewrite (i_dead_right _ _ I r). intros (X & _ & _ & _ & Hk). apply Hk. left. by left.
  - intros x. unfold kept. cbn. destruct (decide (x = r)) as [->|Hne].
    + rewrite lookup_insert_eq, elem_of_app. split.
      * intros [Hin|Hin]; [|apply (i_dead_right _ _ I r) in Hin as (X & _ & _ & _ & Hk); destruct Hk; left; by left].
        eexists. split; [done|]. cbn. split; [done|]. split; [by destruct (sent R); [apply elem_of_nil in Hin|]|].
        intros [?|[m ?]]; [done|by apply (Hslot m)].
      * intros (X & [= <-] & _ & Hs & _). cbn in Hs. rewrite Hs. left. by left.
    + rewrite lookup_insert_ne, Hgar, (i_dead_right _ _ I x) by congruence. unfold kept. cbn.
      setoid_rewrite elem_of_cons. naive_solver.
  - intros s. rewrite Hgar by done. apply I.
  - intros s. rewrite Hgar by done. apply I.
  - intros s. rewrite Hgar by done. apply I.
  - intros a Hf. rewrite lookup_insert_ne; [by apply I|]. intros ->. destruct (i_fresh _ _ I a Hf). congruence.
Qed.

Lemma destroy_deleting_message_ok r l bs bp bg k :
  inv (Busy (r :: l) bs bp bg) k ->
  runs (destroy_deleting_message r) k (fun _ k' => inv (Busy l bs bp bg) k' /\ shrinks k k').
Proof.
  intros I. destruct (proj2 (i_busy _ _ I) r) as ((R & HR & Hm) & _); [by left|].
  unfold destroy_deleting_message. eapply runs_bind; [by eapply destroy_spec|].
  intros res k1 (I1 & Hs & Hres & Hk).
  assert (HR1 : exists R1, rights k1 !! r = Some R1 /\ alive R1 = false /\ of_message R1 = true).
  { destruct res; [|exists R; subst k1; cbn in Hres; rewrite andb_true_r in Hres; done].
    destruct Hk as [add Hd]. rewrite (d_rights _ _ _ _ _ _ Hd), lookup_insert_eq. by eexists. }
  destruct HR1 as (R1 & HR1 & Ha1 & Hm1). eapply runs_get_right; [done|]. eapply runs_assert; [done|].
  eapply runs_step; [done|]. pose proof (inv_release l bs bp bg k1 r R1 I1 HR1 Ha1) as I2.
  eapply (runs_eq _ _ tt); [|split; [exact I2|]]; [by destruct (sent R1)|].
  etrans; [exact Hs|]. destruct (shrinks_refl k1) as [Sp Sg Sm Sr Ss Sn Sd Sc]. split; cbn; try done.
  - intros x Hx. rewrite lookup_insert_is_Some. destruct (decide (r = x)); auto.
  - intros a. split_and!; try done. by eapply put_none.
  - intros d Hd. rewrite elem_of_app. by right.
Qed.

Lemma destroy_all_ok l bs bp bg k :
  inv (Busy l bs bp bg) k -> runs (destroy_all l) k (fun _ k' => inv (Busy [] bs bp bg) k' /\ shrinks k k').
Proof.
  revert k. induction l as [|r l IH]; intros k I; cbn.
  - by apply runs_ret.
  - eapply runs_bind; [by apply (destroy_deleting_message_ok r l)|]. intros _ k1 [I1 Hs].
    eapply runs_mono; [by apply IH|]. cbn. intros _ k2 [I2 Hs']. split; [done|]. by etrans.
Qed.

(** ** Taking a message from a queue *)

Lemma port_at_put ps p P P' i :
  ps !! p = Some P -> p_rights P' = p_rights P -> port_at (<[p := P']> ps) i = port_at ps i.
Proof.
  intros HP E. unfold port_at. destruct (decide (i.1 = p)) as [->|Hne].
  - rewrite lookup_insert_eq, HP. cbn. by rewrite E.
  - by rewrite lookup_insert_ne.
Qed.

Lemma queue_put ps p P' x : queue (<[p := P']> ps) x = if decide (x = p) then msg_queue P' else queue ps x.
Proof.
  unfold queue. destruct (decide (x = p)) as [->|Hne]; [by rewrite lookup_insert_eq|by rewrite lookup_insert_ne].
Qed.

(** Ports whose rights and identity are the same. *)
Definition same_port (P P' : port) : Prop :=
  portno P' = portno P /\ p_alive P' = p_alive P /\ p_current_right_id P' = p_current_right_id P /\ p_rights P' = p_rights P.

Section PutPort.
Context (b : busy) (k : kernel) (p : nat) (P P' : port).
Context (I : inv b k) (HP : ports k !! p = Some P) (Hsame : same_port P P').
Let ps := <[p := P']> (ports k).

Lemma put_port_no x : view port_no ps x = view port_no (ports k) x.
Proof. eapply view_put_same; [done|]. destruct Hsame as (E1 & E2 & _). unfold port_no. by rewrite E1, E2. Qed.

Lemma put_port_ok x X : ps !! x = Some X ->
  0 <= p_current_right_id X /\ (forall id, is_Some (p_rights X !! id) -> 0 < id <= p_current_right_id X)
  /\ (p_alive X = false -> b_port b <> Some x -> p_rights X = ∅).
Proof.
  revert x X. unfold ps. put_all; [apply (i_port _ _ I)|].
  destruct Hsame as (_ & -> & -> & ->). by apply (i_port _ _ I).
Qed.

Lemma put_dead_port x :
  (exists X, ps !! x = Some X /\ p_alive X = false /\ b_port b <> Some x)
  <-> exists X, ports k !! x = Some X /\ p_alive X = false /\ b_port b <> Some x.
Proof.
  eapply (put_ex_iff _ _ _ _ (fun x X => p_alive X = false /\ b_port b <> Some x)); [done|].
  destruct Hsame as (_ & E & _). by rewrite E.
Qed.

Lemma put_port_fresh a : (fresh k <= a)%nat -> ps !! a = None.
Proof.
  intros Hf. eapply put_none; [done|]. by apply (i_fresh _ _ I a Hf).
Qed.
End PutPort.

Section Pop.
Context (b : busy) (k : kernel) (p : nat) (P : port) (e : generic_message) (q : list generic_message).
Context (I : inv b k) (HP : ports k !! p = Some P) (Hq : msg_queue P = e :: q).
Let ps := <[p := set_msg_queue q P]> (ports k).
Let same : same_port P (set_msg_queue q P) := conj eq_refl (conj eq_refl (conj eq_refl eq_refl)).

Lemma pop_port_at i : port_at ps i = port_at (ports k) i.
Proof. by apply (port_at_put _ _ P). Qed.

Lemma pop_here : queue (ports k) p = e :: q.
Proof. unfold queue. by rewrite HP. Qed.

Lemma pop_once : e ∉ q /\ NoDup q.
Proof. pose proof (i_queue _ _ I p) as H. rewrite pop_here in H. by apply NoDup_cons in H. Qed.

Lemma pop_elem x y : y ∈ queue ps x <-> y ∈ queue (ports k) x /\ ~ (x = p /\ y = e).
Proof.
  unfold ps. rewrite queue_put. destruct (decide (x = p)) as [->|Hne]; cbn; [|naive_solver].
  rewrite pop_here, elem_of_cons. pose proof (proj1 pop_once). naive_solver.
Qed.

Lemma pop_nodup x : NoDup (queue ps x).
Proof.
  unfold ps. rewrite queue_put. destruct (decide (x = p)) as [->|Hne]; [apply pop_once|apply (i_queue _ _ I)].
Qed.

Lemma pop_index rs' ss' :
  (forall x, index_of rs' ss' x = index_of (rights k) (shareds k) x) -> agree (port_at ps) (index_of rs' ss').
Proof. intros E. eapply agree_ext; [apply (i_ports _ _ I)|apply pop_port_at|done]. Qed.

Lemma pop_global : agree (fun no => global_ports k !! no) (view port_no ps).
Proof. eapply agree_ext; [apply (i_global_ports _ _ I)|done|]. intros x. by apply (put_port_no k p P). Qed.

(** The notification of a dead right is delivered. *)
Lemma inv_pop_right r R :
  e = GRight r -> rights k !! r = Some R ->
  inv b (set_garbage ((if of_message R then [] else [DRight r]) ++ garbage k)
          (set_rights (<[r := set_sent false R]> (rights k)) (set_ports ps k))).
Proof.
  intros He HR.
  assert (Hpq : forall x y, y ∈ queue ps x <-> y ∈ queue (ports k) x /\ ~ (x = p /\ y = GRight r)).
  { intros x y. by rewrite pop_elem, He. }
  assert (Hin : view notifying (rights k) r = Some p).
  { apply (i_notes _ _ I p r), elem_of_notes. rewrite pop_here, He. by left. }
  rewrite (view_is _ _ _ _ HR) in Hin. unfold notifying in Hin. destruct (sent R) eqn:Es; [|done].
  destruct (i_right _ _ I r R HR) as (Hok1 & Hok2 & Hok3). destruct (Hok3 Es) as (Ha & Ht & _).
  assert (Hgar : forall d, d <> DRight r -> d ∈ (if of_message R then [] else [DRight r]) ++ garbage k <-> d ∈ garbage k).
  { intros d Hd. rewrite elem_of_app. destruct (of_message R); set_solver. }
  assert (Hnew : DRight r ∉ garbage k).
  { rewrite (i_dead_right _ _ I r), HR. intros (X & [= <-] & _ & ? & _). congruence. }
  split; cbn; keep I.
  - same_view I HR. done.
  - apply pop_index. intros x. eapply index_of_put; [exact HR|done].
  - same_view I HR. done.
  - same_view I HR. done.
  - eapply (collects_del (fun x => notes (queue (ports k) x)) _ _ _ p r); [apply I|..].
    + by rewrite (view_is _ _ _ _ HR); unfold notifying; rewrite Es.
    + intros y. rewrite !elem_of_notes, Hpq. naive_solver.
    + intros j y Hj. rewrite !elem_of_notes, Hpq. naive_solver.
    + by rewrite view_put_eq.
    + intros y Hy. by rewrite view_put_ne.
  - intros m. rewrite (i_messages _ _ I m). setoid_rewrite Hpq. naive_solver.
  - intros m p1 p2. rewrite !Hpq. pose proof (i_one_queue _ _ I m). naive_solver.
  - intros s x. rewrite Hpq. intros [Hs _]. by apply (i_shared_note _ _ I).
  - apply pop_nodup.
  - put_all; [apply I|]. unfold right_ok. cbn. by rewrite Ha.
  - intros m x Hx. eapply put_ex; [done|done|]. by apply (i_slots _ _ I).
  - put_all; [apply I|]. cbn. by rewrite Ha.
  - destruct (i_busy _ _ I) as [Hnd Hb]. split; [done|]. intros x Hx. destruct (Hb x Hx) as (Hex & H').
    split; [|done]. by eapply put_ex.
  - by eapply put_port_ok.
  - apply pop_global.
  - destruct (of_message R); [apply I|]. cbn. apply NoDup_cons. split; [done|apply I].
  - intros x. unfold kept. cbn. fold (kept b k x). destruct (decide (x = r)) as [->|Hne].
    + rewrite lookup_insert_eq, elem_of_app. split.
      * intros [Hd|?]; [|done]. destruct (of_message R) eqn:Em; [by apply elem_of_nil in Hd|]. eexists. split; [done|].
        cbn. split; [done|]. split; [done|]. intros Hk. by rewrite (kept_of_message b k r R I Hk HR) in Em.
      * intros (X & [= <-] & _ & _ & Hk). left. destruct (of_message R) eqn:Em; [|by left]. destruct Hk.
        destruct (i_carried _ _ I r R HR) as [?|?]; [by rewrite Es, orb_true_r|done|right; by eexists|by left].
    + rewrite lookup_insert_ne, Hgar, (i_dead_right _ _ I x) by congruence. done.
  - intros s. rewrite Hgar, (i_dead_shared _ _ I s) by done. setoid_rewrite Hpq. naive_solver.
  - intros x. rewrite Hgar, (i_dead_port _ _ I x) by done. symmetry. by apply (put_dead_port b k p P).
  - intros g. rewrite Hgar by done. apply I.
  - intros a Hf. destruct (i_fresh _ _ I a Hf) as (H1 & H2 & H3 & H4 & H5). rewrite lookup_insert_ne by congruence.
    split_and!; try done. by eapply (put_port_fresh b k).
Qed.

(** The notification that a shared structure is gone is delivered. *)
Lemma inv_pop_shared s : e = GShared s -> inv b (set_garbage (DShared s :: garbage k) (set_ports ps k)).
Proof.
  intros He.
  assert (Hpq : forall x y, y ∈ queue ps x <-> y ∈ queue (ports k) x /\ ~ (x = p /\ y = GShared s)).
  { intros x y. by rewrite pop_elem, He. }
  assert (Hin : GShared s ∈ queue (ports k) p) by (rewrite pop_here, He; by left).
  destruct (i_shared_note _ _ I s p Hin) as (Sh & E & Hs & Hl & Hp & Hb).
  assert (Hgar : forall d, d <> DShared s -> d ∈ DShared s :: garbage k <-> d ∈ garbage k) by set_solver.
  split; cbn; keep I.
  - by apply pop_index.
  - eapply collects_ext; [apply (i_notes _ _ I)| |done]. intros i x. cbn. rewrite !elem_of_notes, Hpq. naive_solver.
  - intros m. rewrite (i_messages _ _ I m). setoid_rewrite Hpq. naive_solver.
  - intros m p1 p2. rewrite !Hpq. pose proof (i_one_queue _ _ I m). naive_solver.
  - intros s' x. rewrite Hpq. intros [Hs' _]. by apply (i_shared_note _ _ I).
  - apply pop_nodup.
  - by eapply put_port_ok.
  - apply pop_global.
  - apply NoDup_cons. split; [|apply I]. rewrite (i_dead_shared _ _ I s). intros (_ & _ & _ & Hq' & _). by apply (Hq' p).
  - intros r. rewrite Hgar by done. apply I.
  - intros s'. destruct (decide (s' = s)) as [->|Hne].
    + split; [|by left]. intros _. exists Sh. split_and!; try done. intros x. rewrite Hpq. intros [Hx Hne]. apply Hne.
      split; [|done]. destruct (i_shared_note _ _ I s x Hx) as (S2 & E2 & _ & _ & Hp2 & _). congruence.
    + rewrite Hgar, (i_dead_shared _ _ I s') by congruence. setoid_rewrite Hpq. naive_solver.
  - intros x. rewrite Hgar, (i_dead_port _ _ I x) by done. symmetry. by apply (put_dead_port b k p P).
  - intros g. rewrite Hgar by done. apply I.
  - intros a Hf. pose proof (i_fresh _ _ I a Hf). split_and!; try tauto. by eapply (put_port_fresh b k).
Qed.

(** A message leaves the queue: its rights are in the hands of its destructor. *)
Lemma inv_pop_message m :
  e = GMessage m -> b_rights b = [] ->
  inv (Busy (slots (messages k) m) (b_shared b) (b_port b) (b_group b))
    (set_messages (delete m (messages k)) (set_ports ps k)).
Proof.
  intros He Hb.
  assert (Hpq : forall x y, y ∈ queue ps x <-> y ∈ queue (ports k) x /\ ~ (x = p /\ y = GMessage m)).
  { intros x y. by rewrite pop_elem, He. }
  assert (Hin : GMessage m ∈ queue (ports k) p) by (rewrite pop_here, He; by left).
  assert (Hsl : forall m' x, x ∈ slots (delete m (messages k)) m' <-> x ∈ slots (messages k) m' /\ m' <> m).
  { intros m' x. unfold slots. destruct (decide (m' = m)) as [->|Hne].
    - rewrite lookup_delete_eq. cbn. rewrite elem_of_nil. naive_solver.
    - rewrite lookup_delete_ne by done. naive_solver. }
  assert (Hkept : forall x, kept b k x <-> x ∈ slots (messages k) m \/ exists m', x ∈ slots (delete m (messages k)) m').
  { intros x. unfold kept. rewrite Hb, elem_of_nil. setoid_rewrite Hsl. split.
    - intros [?|[m' Hm']]; [done|]. destruct (decide (m' = m)) as [->|]; [by left|right; by exists m'].
    - intros [?|(m' & ? & _)]; right; by eexists. }
  split; cbn; keep I.
  - by apply pop_index.
  - eapply collects_ext; [apply (i_notes _ _ I)| |done]. intros i x. cbn. rewrite !elem_of_notes, Hpq. naive_solver.
  - intros m'. setoid_rewrite Hpq. destruct (decide (m' = m)) as [->|Hne].
    + rewrite lookup_delete_eq. split; [by intros [? ?]|]. intros (x & Hx & Hne). destruct Hne.
      split; [|done]. by apply (i_one_queue _ _ I m).
    + rewrite lookup_delete_ne, (i_messages _ _ I m') by done. naive_solver.
  - intros m' p1 p2. rewrite !Hpq. pose proof (i_one_queue _ _ I m'). naive_solver.
  - intros s' x. rewrite Hpq. intros [Hs' _]. by apply (i_shared_note _ _ I).
  - apply pop_nodup.
  - intros m' r. rewrite Hsl. intros [Hr _]. by apply (i_slots _ _ I).
  - intros m'. unfold slots. destruct (decide (m' = m)) as [->|Hne]; [rewrite lookup_delete_eq; constructor|].
    rewrite lookup_delete_ne by done. apply (i_slots_once _ _ I m').
  - intros r R HR Hal Hm. rewrite Hsl. destruct (i_carried _ _ I r R HR Hal Hm) as [Hr|Hr].
    + destruct (decide (holder R = m)) as [<-|]; [by right|by left].
    + rewrite Hb in Hr. by apply elem_of_nil in Hr.
  - split; [apply (i_slots_once _ _ I)|]. intros r Hr. destruct (i_slots _ _ I m r Hr) as (R & HR & Hm & Hh).
    split; [by exists R|]. intros m'. rewrite Hsl. intros [Hr' Hne].
    destruct (i_slots _ _ I m' r Hr') as (R' & HR' & _ & Hh'). congruence.
  - by eapply put_port_ok.
  - apply pop_global.
  - intros r. rewrite (i_dead_right _ _ I r). by setoid_rewrite Hkept.
  - intros s. rewrite (i_dead_shared _ _ I s). setoid_rewrite Hpq. naive_solver.
  - intros x. rewrite (i_dead_port _ _ I x). symmetry. by apply (put_dead_port b k p P).
  - intros a Hf. pose proof (i_fresh _ _ I a Hf). split_and!; try tauto; [|by eapply (put_port_fresh b k)].
    apply lookup_delete_None. tauto.
Qed.
End Pop.

(** The queue of [p] loses its first message; the groups and the global tables stay. *)
Definition popped (k k1 : kernel) (p : nat) (P : port) (q : list generic_message) : Prop :=
  no_new k k1 /\ ports k1 = <[p := set_msg_queue q P]> (ports k) /\ groups k1 = groups k
  /\ global_ports k1 = global_ports k /\ global_groups k1 = global_groups k
  /\ biggest_port k1 = biggest_port k /\ next_group_id k1 = next_group_id k
  /\ kernel_tasks k1 = kernel_tasks k /\ right0_id k1 = right0_id k /\ fresh k1 = fresh k.

Lemma shrinks_garbage k d : shrinks k (set_garbage (d :: garbage k) k).
Proof. destruct (shrinks_refl k) as [Sp Sg Sm Sr Ss Sn Sd Sc]. split; cbn; try done. intros x Hx. by right. Qed.

Lemma pop_front_ok k bs bp bg p P e q :
  inv (Busy [] bs bp bg) k -> ports k !! p = Some P -> msg_queue P = e :: q ->
  runs (pop_front p) k (fun _ k' => inv (Busy [] bs bp bg) k' /\ exists k1, popped k k1 p P q /\ shrinks k1 k').
Proof.
  intros I HP Hq. unfold pop_front. eapply runs_get_port; [done|]. rewrite Hq. eapply runs_step; [done|].
  destruct e as [m|r|s]; cbn [delete_self].
  - assert (Hm : is_Some (messages k !! m)).
    { apply (i_messages _ _ I). exists p. unfold queue. rewrite HP. cbn. rewrite Hq. by left. }
    destruct Hm as [M HM]. eapply runs_get_message; [done|]. eapply runs_step; [done|].
    pose proof (inv_pop_message _ k p P _ q I HP Hq m eq_refl eq_refl) as I1. cbn in I1.
    assert (Es : message_slots M = slots (messages k) m) by (unfold slots; by rewrite HM). rewrite Es.
    eapply runs_mono; [by apply destroy_all_ok|]. intros _ k' [I' Hs]. split; [done|]. eexists. split; [|exact Hs].
    split; [|by repeat split]. intros a. split_and!; try done. by eapply put_none.
  - assert (Hr : view notifying (rights k) r = Some p).
    { apply (i_notes _ _ I p r), elem_of_notes. unfold queue. rewrite HP. cbn. rewrite Hq. by left. }
    apply view_inv in Hr as (R & HR & Hn). unfold notifying in Hn. destruct (sent R) eqn:Es; [|done].
    destruct (proj2 (proj2 (i_right _ _ I r R HR)) Es) as (Ha & _ & _).
    eapply runs_get_right; [done|]. rewrite Ha. eapply runs_assert; [done|]. eapply runs_assert; [done|].
    eapply runs_step; [done|]. pose proof (inv_pop_right _ k p P _ q I HP Hq r R eq_refl HR) as I1.
    eapply (runs_eq _ _ tt); [|split; [exact I1|]]; [by destruct (of_message R)|]. eexists. split; [|reflexivity].
    split; [|by repeat split]. intros a. split_and!; try done; by eapply put_none.
  - pose proof (inv_pop_shared _ k p P _ q I HP Hq s eq_refl) as I1.
    destruct (i_shared_note _ _ I s p) as (Sh & E & Hs & Hl & _).
    { unfold queue. rewrite HP. cbn. rewrite Hq. by left. }
    eapply runs_get_shared; [done|]. rewrite Hs, Hl. eapply runs_assert; [done|]. eapply runs_assert; [done|].
    eapply (runs_eq _ _ tt); [done|]. split; [exact I1|]. eexists. split; [|reflexivity].
    split; [|by repeat split]. intros a. split_and!; try done. by eapply put_none.
Qed.

(** The destructor of a port without rights empties its queue. *)
Lemma drain_ok n k bs bp bg p P :
  inv (Busy [] bs bp bg) k -> ports k !! p = Some P -> p_rights P = ∅ -> (length (msg_queue P) < n)%nat ->
  runs (drain n p) k (fun _ k' => inv (Busy [] bs bp bg) k' /\ no_new k k' /\ exists P', ports k' !! p = Some P'
    /\ msg_queue P' = [] /\ p_rights P' = ∅ /\ p_alive P' = p_alive P).
Proof.
  revert k P. induction n as [|n IH]; intros k P I HP Hr Hn; [lia|]. cbn. eapply runs_get_port; [done|].
  destruct (msg_queue P) as [|e q] eqn:Hq.
  - apply runs_ret. split; [done|]. split; [done|]. by exists P.
  - eapply runs_bind; [by eapply pop_front_ok|]. cbn. intros _ k1 (I1 & k0 & (Hn0 & Hp & _) & Hs).
    destruct (sh_ports _ _ Hs p (set_msg_queue q P)) as (P1 & E1 & _ & _ & Ha & _ & Hsub & add & Eq & Hadd).
    { rewrite Hp. apply lookup_insert_eq. }
    cbn in *. rewrite Hadd, app_nil_r in Eq by done. rewrite Hr in Hsub. apply map_below_empty in Hsub.
    eapply runs_mono; [apply (IH k1 P1); try done; rewrite Eq; lia|]. cbn. intros _ k' (I' & Hn' & P' & HP'). rewrite Ha in HP'.
    split; [done|]. split; [|by exists P']. etrans; [exact Hn0|]. etrans; [apply (sh_new _ _ Hs)|exact Hn'].
Qed.

(** ** Shared structures *)

Definition with_shared (b : busy) (s : option nat) : busy := Busy (b_rights b) s (b_port b) (b_group b).

(** The receive right of a shared structure is destroyed: first it leaves its port. *)
Lemma inv_close b k s Sh ps :
  inv b k -> b_shared b = None -> shareds k !! s = Some Sh -> s_alive Sh = true ->
  ports_step (ports k) ps (fun x => x = RShared s) (fun _ => []) ->
  inv (with_shared b (Some s)) (set_ports ps (set_shareds (<[s := set_s_alive false Sh]> (shareds k)) k)).
Proof.
  intros I Hb E Hs Hps. assert (Hq : forall p, queue ps p = queue (ports k) p) by (intros p; by apply (queue_same _ _ _ p Hps)).
  assert (Hnq : forall p, GShared s ∉ queue (ports k) p).
  { intros p Hp. destruct (i_shared_note _ _ I s p Hp) as (S2 & E2 & H2 & _). congruence. }
  assert (Hsend : forall x, senders (<[s := set_s_alive false Sh]> (shareds k)) x = senders (shareds k) x).
  { intros x. unfold senders. destruct (decide (x = s)) as [->|Hne]; [by rewrite lookup_insert_eq, E|by rewrite lookup_insert_ne]. }
  split; cbn; keep I.
  - eapply agree_drop; [apply (i_ports _ _ I)|intros i y; apply (port_at_step _ _ _ _ i y Hps)|..].
    + cbn. by rewrite view_put_eq.
    + intros [x|x] Hx; [done|]. cbn. apply view_put_ne. congruence.
  - eapply collects_ext; [apply (i_senders _ _ I)| |done]. intros i x. by rewrite Hsend.
  - eapply collects_ext; [apply (i_notes _ _ I)| |done]. intros i x. cbn. by rewrite Hq.
  - intros m. setoid_rewrite Hq. apply I.
  - intros m p p'. rewrite !Hq. apply (i_one_queue _ _ I).
  - intros x p. rewrite Hq. intros Hx. assert (Hne : x <> s) by (intros ->; by apply (Hnq p)).
    rewrite lookup_insert_ne by done. destruct (i_shared_note _ _ I x p Hx) as (S2 & E2 & H1 & H2 & H3 & _).
    exists S2. split_and!; try done. congruence.
  - intros p. rewrite Hq. apply (i_queue _ _ I).
  - intros x X HX. destruct (decide (x = s)) as [->|Hne].
    + rewrite lookup_insert_eq in HX. injection HX as <-. by left.
    + rewrite lookup_insert_ne in HX by done. pose proof (i_shared _ _ I x X HX) as HI. rewrite Hb in HI.
      destruct (s_alive X); [split_and!; [tauto|tauto|congruence]|]. destruct HI; [done|by right].
  - eapply step_port_ok; [exact I|exact Hps].
  - eapply agree_ext; [apply (i_global_ports _ _ I)|done|]. eapply step_port_no; exact Hps.
  - intros x. rewrite (i_dead_shared _ _ I x). setoid_rewrite Hq. rewrite Hb. destruct (decide (x = s)) as [->|Hne].
    + rewrite lookup_insert_eq, E. split; [intros (S2 & [= <-] & ? & _); congruence|]. intros (_ & _ & _ & _ & ?). done.
    + rewrite lookup_insert_ne by done. split; intros (S2 & ? & ? & ? & ?); exists S2; split_and!; first [done|congruence].
  - intros p. rewrite (i_dead_port _ _ I p). symmetry. eapply step_dead_port; exact Hps.
  - intros a Hf. pose proof (i_fresh _ _ I a Hf). split_and!; try tauto.
    + eapply put_none; [exact E|tauto].
    + eapply step_port_fresh; [exact I|exact Hps|done].
  - eapply step_notified; [exact Hps|apply I].
Qed.

(** ... and when the last of its rights is gone, RCU gets it. *)
Lemma inv_closed b k s Sh :
  inv (with_shared b (Some s)) k -> b_shared b = None -> shareds k !! s = Some Sh -> s_alive Sh = false ->
  send_many_rights Sh = [] -> inv b (set_garbage (DShared s :: garbage k) k).
Proof.
  intros I Hb E Hs Hl.
  assert (Hgar : forall d, d <> DShared s -> d ∈ DShared s :: garbage k <-> d ∈ garbage k) by set_solver.
  split; cbn; keep I.
  - intros x p Hx. destruct (i_shared_note _ _ I x p Hx) as (S2 & ? & ? & ? & ? & Hne). exists S2. by rewrite Hb.
  - intros x X HX. pose proof (i_shared _ _ I x X HX) as HI. rewrite Hb. cbn in HI. destruct (s_alive X); [naive_solver|].
    destruct HI as [[= <-]|?]; [|by right]. right. congruence.
  - apply NoDup_cons. split; [|apply I]. rewrite (i_dead_shared _ _ I s). intros (_ & _ & _ & _ & ?). done.
  - intros r. rewrite Hgar by done. apply I.
  - intros x. rewrite Hb. destruct (decide (x = s)) as [->|Hne].
    + split; [|by left]. intros _. exists Sh. split_and!; try done. intros p Hp.
      destruct (i_shared_note _ _ I s p Hp) as (_ & _ & _ & _ & _ & ?). done.
    + rewrite Hgar, (i_dead_shared _ _ I x) by congruence. cbn.
      split; intros (S2 & ? & ? & ? & ?); exists S2; split_and!; first [done|congruence].
  - intros p. rewrite Hgar by done. apply I.
  - intros p. rewrite Hgar by done. apply I.
Qed.

(** A right listed by a shared structure is alive. *)
Lemma sender_alive b k s r : inv b k -> r ∈ senders (shareds k) s -> exists R, rights k !! r = Some R /\ alive R = true.
Proof.
  intros I Hr. apply (i_senders _ _ I) in Hr. apply view_inv in Hr as (R & HR & Hs). exists R. split; [done|].
  unfold sharing in Hs. by destruct (alive R).
Qed.

Lemma filter_shorter {A} `{EqDecision A} (x : A) l : x ∈ l -> (length (filter (fun y => y <> x) l) < length l)%nat.
Proof.
  intros Hx. induction l as [|y l IH]; [by apply elem_of_nil in Hx|]. destruct (decide (y = x)) as [->|Hne].
  - rewrite filter_cons_False by naive_solver. cbn. pose proof (length_filter (fun y => y <> x) l). lia.
  - rewrite filter_cons_True by done. cbn. apply elem_of_cons in Hx as [->|Hx]; [done|]. specialize (IH Hx). lia.
Qed.

Lemma destroy_senders_ok n b k s Sh :
  inv b k -> shareds k !! s = Some Sh -> s_alive Sh = false -> (length (send_many_rights Sh) < n)%nat ->
  runs (destroy_senders n s) k (fun _ k' => inv b k' /\ shrinks k k' /\ exists Sh', shareds k' !! s = Some Sh'
    /\ s_alive Sh' = false /\ send_many_rights Sh' = []).
Proof.
  revert k Sh. induction n as [|n IH]; intros k Sh I E Hs Hn; [lia|]. cbn [destroy_senders].
  eapply runs_get_shared; [done|]. destruct (send_many_rights Sh) as [|r l] eqn:El.
  - apply runs_ret. split; [done|]. split; [done|]. by exists Sh.
  - destruct (sender_alive b k s r I) as (R & HR & Ha). { unfold senders. rewrite E. cbn. rewrite El. by left. }
    eapply runs_bind; [by apply (destroy_spec b k r R)|]. cbn. rewrite Ha. intros res k1 (I1 & Hsh & -> & add & Hd).
    pose proof (d_shareds _ _ _ _ _ _ Hd s) as H. rewrite E in H. destruct H as (Sh1 & E1 & _ & _ & Hl & Hal).
    rewrite Hs in Hal. eapply runs_mono; [apply (IH k1 Sh1); try done|].
    + rewrite Hl, El. pose proof (filter_shorter r (r :: l) ltac:(by left)). cbn in *. lia.
    + cbn. intros _ k' (I' & Hsh' & HSh'). split; [done|]. split; [by etrans|done].
Qed.

Lemma shrinks_ports_step k ps D : ports_step (ports k) ps D (fun _ => []) -> shrinks k (set_ports ps k).
Proof.
  intros Hs. destruct (shrinks_refl k) as [Sp Sg Sm Sr Ss Sn Sd Sc]. split; cbn; try done.
  { intros p P E. pose proof (Hs p) as H. rewrite E in H. destruct H as (P' & E' & [H1 H1'] & H2 & H3 & H4 & H5 & H6). exists P'.
    split_and!; try done; [|by exists []]. apply map_subseteq_spec. intros id x Hx. by apply H6 in Hx as [Hx _]. }
  intros a. split_and!; try done. intros E. pose proof (Hs a) as H. by rewrite E in H.
Qed.

Lemma shrinks_shareds k s Sh : is_Some (shareds k !! s) -> shrinks k (set_shareds (<[s := Sh]> (shareds k)) k).
Proof.
  intros [Old HOld].
  destruct (shrinks_refl k) as [Sp Sg Sm Sr Ss Sn Sd Sc]. split; cbn; try done.
  - intros x Hx. rewrite lookup_insert_is_Some. destruct (decide (s = x)); auto.
  - intros a. split_and!; try done. by eapply put_none.
Qed.

Lemma destroy_shared_ok b k s Sh :
  inv b k -> b_shared b = None -> shareds k !! s = Some Sh -> s_alive Sh = true ->
  runs (destroy_shared s) k (fun res k' => inv b k' /\ shrinks k k' /\ res = true
    /\ (exists Sh', shareds k' !! s = Some Sh' /\ s_alive Sh' = false)).
Proof.
  intros I Hb E Hs. unfold destroy_shared. eapply runs_get_shared; [done|]. rewrite Hs. cbn [negb].
  eapply runs_step; [done|]. pose proof (i_shared _ _ I s Sh E) as HI. rewrite Hs in HI. destruct HI as (Hpar & _).
  destruct (s_parent Sh) as [p|] eqn:Ep; [|done]. eapply runs_from; [done|].
  assert (Hat : forall j, port_at (ports k) j = Some (RShared s) <-> j = (p, s_right_parent_id Sh)).
  { intros j. rewrite (i_ports _ _ I j (RShared s)). cbn. rewrite (view_is _ _ _ _ E). unfold s_registered.
    rewrite Hs, Ep. cbn. naive_solver. }
  set (k1 := set_shareds _ k).
  destruct (port_erase_run k1 p (s_right_parent_id Sh) (RShared s)) as (ps & E1 & Hps); [intros j; apply Hat|by apply Hat|].
  eapply runs_step; [exact E1|]. pose proof (inv_close b k s Sh ps I Hb E Hs Hps) as I1.
  eapply runs_bind; [eapply (destroy_senders_ok _ _ _ s (set_s_alive false Sh)); [exact I1|cbn; apply lookup_insert_eq|done|cbn; lia]|].
  cbn beta. intros _ k2 (I2 & Hsh & Sh' & E' & Hs' & Hl'). eapply runs_step; [done|]. apply runs_ret.
  split; [by eapply inv_closed|]. split; [|split; [done|by exists Sh']].
  etrans; [apply (shrinks_shareds k s (set_s_alive false Sh)); by eexists|]. etrans; [by eapply (shrinks_ports_step k1 ps)|].
  etrans; [exact Hsh|]. apply shrinks_garbage.
Qed.

(** What is registered with a port is alive, and [destroy_recieve_right] unregisters it. *)
Lemma destroy_recieve_right_ok b k i x :
  inv b k -> b_shared b = None -> port_at (ports k) i = Some x ->
  runs (destroy_recieve_right x) k (fun _ k' => inv b k' /\ shrinks k k' /\ forall j, port_at (ports k') j <> Some x).
Proof.
  intros I Hb Hx. pose proof Hx as Hi. apply (i_ports _ _ I) in Hi. destruct x as [r|s]; cbn in Hi |- *.
  - apply view_inv in Hi as (R & HR & Hreg). unfold registered in Hreg. destruct (alive R) eqn:Ha; [|done].
    eapply runs_mono; [by apply (destroy_spec b k r R)|]. cbn. intros res k' (I' & Hs & -> & Hk). rewrite Ha in Hk.
    destruct Hk as [add Hd]. split; [done|]. split; [done|]. intros j Hj.
    apply (port_at_step _ _ _ _ _ _ (d_ports _ _ _ _ _ _ Hd)) in Hj. tauto.
  - apply view_inv in Hi as (Sh & E & Hreg). unfold s_registered in Hreg. destruct (s_alive Sh) eqn:Ha; [|done].
    eapply runs_mono; [by apply (destroy_shared_ok b k s Sh)|]. cbn. intros _ k' (I' & Hs & _ & Sh' & E' & Hs').
    split; [done|]. split; [done|]. intros j Hj. apply (i_ports _ _ I') in Hj. cbn in Hj.
    rewrite (view_is _ _ _ _ E') in Hj. unfold s_registered in Hj. by rewrite Hs' in Hj.
Qed.

(** ** Ports *)

Lemma tree_begin_spec {A} (t : gmap Z A) :
  match tree_begin t with
  | None => t = ∅
  | Some (id, x) => t !! id = Some x /\ forall id', is_Some (t !! id') -> id <= id'
  end.
Proof.
  unfold tree_begin. set (f := fun id x b => _).
  apply (map_fold_weak_ind (fun b t => match b with None => t = ∅
    | Some (id, x) => t !! id = Some x /\ forall id', is_Some (t !! id') -> id <= id' end)); [done|].
  intros id x m [[id0 x0]|] Hid IH; cbn.
  - destruct IH as [IH1 IH2]. destruct (Z.ltb_spec id id0).
    + rewrite lookup_insert_eq. split; [done|]. intros id'. rewrite lookup_insert_is_Some. intros [->|[_ H']]; [lia|].
      apply IH2 in H'. lia.
    + rewrite lookup_insert_ne by congruence. split; [done|]. intros id'. rewrite lookup_insert_is_Some.
      intros [->|[_ H']]; [lia|]. by apply IH2.
  - subst m. rewrite lookup_insert_eq. split; [done|]. intros id'. rewrite lookup_insert_is_Some.
    intros [->|[_ [? H']]]; [lia|]. by rewrite lookup_empty in H'.
Qed.

Lemma size_smaller {A} (m m' : gmap Z A) id x : m' ⊆ m -> m !! id = Some x -> m' !! id <> Some x -> (size m' < size m)%nat.
Proof.
  intros Hsub Hx Hx'. apply map_subset_size. split; [done|]. intros Hsub'. apply Hx'.
  by apply (lookup_weaken m m').
Qed.

Lemma destroy_registered_ok n b k p P :
  inv b k -> b_shared b = None -> ports k !! p = Some P -> (size (p_rights P) < n)%nat ->
  runs (destroy_registered n p) k (fun _ k' => inv b k' /\ shrinks k k'
    /\ exists P', ports k' !! p = Some P' /\ p_rights P' = ∅).
Proof.
  revert k P. induction n as [|n IH]; intros k P I Hb HP Hn; [lia|]. cbn [destroy_registered].
  eapply runs_get_port; [done|]. pose proof (tree_begin_spec (p_rights P)) as Ht.
  destruct (tree_begin (p_rights P)) as [[id x]|].
  - destruct Ht as [Ht _]. assert (Hat : port_at (ports k) (p, id) = Some x) by (unfold port_at; cbn; by rewrite HP).
    eapply runs_bind; [by apply (destroy_recieve_right_ok b k (p, id))|]. cbn. intros _ k1 (I1 & Hs & Hno).
    destruct (sh_ports _ _ Hs p P HP) as (P1 & E1 & _ & _ & _ & _ & Hsub & _).
    eapply runs_mono; [apply (IH k1 P1); try done|].
    + assert (size (p_rights P1) < size (p_rights P))%nat; [|lia]. apply (size_smaller _ _ id x); try done.
      intros Hx. apply (Hno (p, id)). unfold port_at. cbn. by rewrite E1.
    + cbn. intros _ k' (I' & Hs' & HP'). split; [done|]. split; [by etrans|done].
  - apply runs_ret. split; [done|]. split; [done|]. by exists P.
Qed.

Definition with_port (b : busy) (p : option nat) : busy := Busy (b_rights b) (b_shared b) p (b_group b).

(** The port is marked dead and leaves the table of ports ... *)
Lemma inv_port_dies b k p P :
  inv b k -> b_port b = None -> ports k !! p = Some P -> p_alive P = true ->
  inv (with_port b (Some p))
    (set_global_ports (delete (portno P) (global_ports k)) (set_ports (<[p := set_p_alive false P]> (ports k)) k)).
Proof.
  intros I Hb HP Ha.
  assert (Hq : forall x, queue (<[p := set_p_alive false P]> (ports k)) x = queue (ports k) x).
  { intros x. rewrite queue_put. destruct (decide (x = p)) as [->|]; [|done]. unfold queue. by rewrite HP. }
  assert (Hno : view port_no (ports k) p = Some (portno P)).
  { rewrite (view_is _ _ _ _ HP). unfold port_no. by rewrite Ha. }
  split; cbn; keep I.
  - eapply agree_ext; [apply (i_ports _ _ I)|intros i; by apply (port_at_put _ _ P)|done].
  - eapply collects_ext; [apply (i_notes _ _ I)| |done]. intros i x. cbn. by rewrite Hq.
  - intros m. setoid_rewrite Hq. apply I.
  - intros m p1 p2. rewrite !Hq. apply (i_one_queue _ _ I).
  - intros s x. rewrite Hq. apply (i_shared_note _ _ I).
  - intros x. rewrite Hq. apply (i_queue _ _ I).
  - put_all.
    + intros x X HX. destruct (i_port _ _ I x X HX) as (H1 & H2 & H3). split_and!; try done. intros. apply H3; [done|]. by rewrite Hb.
    + destruct (i_port _ _ I p P HP) as (H1 & H2 & _). by split_and!.
  - eapply (agree_del (fun no => global_ports k !! no)); [apply I|exact Hno|..].
    + by rewrite lookup_delete_eq.
    + intros no Hne. by rewrite lookup_delete_ne.
    + by rewrite view_put_eq.
    + intros x Hx. by rewrite view_put_ne.
  - destruct (i_numbers _ _ I) as [H1 H2]. split; [|done]. intros no Hn. apply H1. apply lookup_delete_is_Some in Hn. tauto.
  - intros s. setoid_rewrite Hq. apply I.
  - intros x. rewrite (i_dead_port _ _ I x), Hb. destruct (decide (x = p)) as [->|Hne].
    + rewrite lookup_insert_eq, HP. split; [intros (X & [= <-] & ? & _); congruence|]. by intros (_ & _ & _ & ?).
    + rewrite lookup_insert_ne by done. split; intros (X & ? & ? & ?); exists X; split_and!; first [done|congruence].
  - intros a Hf. pose proof (i_fresh _ _ I a Hf). split_and!; try tauto. eapply put_none; [exact HP|tauto].
Qed.

(** ... and without rights it is given to RCU. *)
Lemma inv_port_dead b k p P :
  inv (with_port b (Some p)) k -> b_port b = None -> ports k !! p = Some P -> p_alive P = false -> p_rights P = ∅ ->
  inv b (set_garbage (DPort p :: garbage k) k).
Proof.
  intros I Hb HP Ha Hr.
  assert (Hgar : forall d, d <> DPort p -> d ∈ DPort p :: garbage k <-> d ∈ garbage k) by set_solver.
  split; cbn; keep I.
  - intros x X HX. destruct (i_port _ _ I x X HX) as (H1 & H2 & H3). split_and!; try done. intros Hx _. cbn in H3.
    destruct (decide (x = p)) as [->|Hne]; [congruence|]. apply H3; [done|congruence].
  - apply NoDup_cons. split; [|apply I]. rewrite (i_dead_port _ _ I p). intros (_ & _ & _ & ?). done.
  - intros r. rewrite Hgar by done. apply I.
  - intros s. rewrite Hgar by done. apply I.
  - intros x. rewrite Hb. destruct (decide (x = p)) as [->|Hne].
    + split; [|by left]. intros _. by exists P.
    + rewrite Hgar, (i_dead_port _ _ I x) by congruence. cbn.
      split; intros (X & ? & ? & ?); exists X; split_and!; first [done|congruence].
  - intros g. rewrite Hgar by done. apply I.
Qed.

Lemma group_at_put gs g G G' i :
  gs !! g = Some G -> g_rights G' = g_rights G -> group_at (<[g := G']> gs) i = group_at gs i.
Proof.
  intros HG E. unfold group_at. destruct (decide (i.1 = g)) as [->|Hne].
  - rewrite lookup_insert_eq, HG. cbn. by rewrite E.
  - by rewrite lookup_insert_ne.
Qed.

(** The map of the ports that a group notifies changes. *)
Lemma inv_g_notifiers b k g G N :
  inv b k -> groups k !! g = Some G -> notified (b_group b) (ports k) (<[g := set_g_notifiers N G]> (groups k)) ->
  inv b (set_groups (<[g := set_g_notifiers N G]> (groups k)) k).
Proof.
  intros I HG Hn. split; cbn; keep I; try exact Hn.
  - eapply agree_ext; [apply (i_groups _ _ I)|intros i; by apply (group_at_put _ _ G)|done].
  - put_all; [apply (i_group _ _ I)|]. apply (i_group _ _ I g G HG).
  - same_view I HG. done.
  - intros x. rewrite (i_dead_group _ _ I x). symmetry.
    eapply (put_ex_iff _ _ _ _ (fun x X => tasks X = ∅ /\ b_group b <> Some x)); [exact HG|done].
  - intros a Hf. pose proof (i_fresh _ _ I a Hf). split_and!; try tauto. eapply put_none; [exact HG|tauto].
Qed.

(** No live port has number [no]: the groups forget it. *)
Definition groups_but_notifiers (k k' : kernel) : Prop :=
  exists gs, k' = set_groups gs k /\ forall g, match groups k !! g with
    | None => gs !! g = None
    | Some G => exists N, gs !! g = Some (set_g_notifiers N G)
    end.

Lemma forget_port_ok l b k no :
  inv b k -> global_ports k !! no = None -> (forall g, g ∈ l -> is_Some (groups k !! g)) ->
  runs (forget_port l no) k (fun _ k' => inv b k' /\ groups_but_notifiers k k').
Proof.
  revert k. induction l as [|g l IH]; intros k I Hno Hl; cbn [forget_port].
  { apply runs_ret. split; [done|]. exists (groups k). split; [by destruct k|]. intros g. destruct (groups k !! g) as [G|]; [|done].
    exists (g_notifiers G). by destruct G. }
  destruct (Hl g ltac:(by left)) as [G HG]. eapply runs_get_group; [done|]. eapply runs_step; [done|].
  set (k1 := set_groups _ k). assert (I1 : inv b k1).
  { apply inv_g_notifiers; try done. intros p P x HP Ha Hx. destruct (i_notifiers _ _ I p P x HP Ha Hx) as (X & HX & Hin & HT).
    destruct (decide (x = g)) as [->|Hne]; [|rewrite lookup_insert_ne by done; by exists X].
    rewrite lookup_insert_eq. eexists. split; [done|]. cbn. assert (X = G) as -> by congruence. split; [|done].
    rewrite lookup_delete_ne; [done|]. intros E. assert (Hp : view port_no (ports k) p = Some (portno P)).
    { rewrite (view_is _ _ _ _ HP). unfold port_no. by rewrite Ha. }
    apply (i_global_ports _ _ I) in Hp. congruence. }
  eapply runs_mono; [apply (IH k1 I1 Hno)|].
  { intros x Hx. cbn. apply lookup_insert_is_Some'. right. apply Hl. by right. }
  intros _ k' [I' (gs & -> & Hgs)]. split; [done|]. exists gs. split; [done|]. intros x. specialize (Hgs x). cbn in Hgs.
  destruct (decide (x = g)) as [->|Hne]; [|by rewrite lookup_insert_ne in Hgs].
  rewrite lookup_insert_eq in Hgs. rewrite HG. destruct Hgs as [N HN]. by exists N.
Qed.

Lemma delete_port_ok b k p P :
  inv b k -> b_port b = None -> b_shared b = None -> ports k !! p = Some P ->
  runs (delete_port p) k (fun res k' => inv b k' /\ res = p_alive P
    /\ (exists P', ports k' !! p = Some P' /\ p_alive P' = false)
    /\ global_ports k' = if p_alive P then delete (portno P) (global_ports k) else global_ports k).
Proof.
  intros I Hb Hbs HP. unfold delete_port. eapply runs_get_port; [done|]. destruct (p_alive P) eqn:Ha; cbn [negb].
  2:{ apply runs_ret. split_and!; try done. by exists P. }
  eapply runs_step; [done|].
  assert (Hg : global_ports k !! portno P = Some p).
  { apply (i_global_ports _ _ I). rewrite (view_is _ _ _ _ HP). unfold port_no. by rewrite Ha. }
  eapply runs_step; [unfold unregister_port, tree_erase; cbn; by rewrite decide_True|].
  pose proof (inv_port_dies b k p P I Hb HP Ha) as I1.
  eapply runs_bind; [apply (forget_port_ok (elements (p_notifiers P)) _ _ (portno P) I1)|].
  { cbn. apply lookup_delete_eq. }
  { intros g Hg'. apply elem_of_elements in Hg'. destruct (i_notifiers _ _ I p P g HP Ha Hg') as (G & HG & _). cbn. by eexists. }
  cbn beta. intros _ k0 [I0 (gs & -> & _)].
  eapply runs_bind; [eapply (destroy_registered_ok _ _ _ p (set_p_alive false P)); [exact I0|done|cbn; apply lookup_insert_eq|cbn; lia]|].
  cbn beta. intros _ k2 (I2 & Hs & P2 & HP2 & Hr2). eapply runs_step; [done|]. apply runs_ret.
  destruct (sh_ports _ _ Hs p (set_p_alive false P)) as (P3 & HP3 & _ & _ & Ha3 & _); [cbn; apply lookup_insert_eq|].
  rewrite HP2 in HP3. injection HP3 as <-. split; [by eapply inv_port_dead|]. split; [done|]. split; [by exists P2|].
  destruct (sh_global _ _ Hs) as (Eg & _). exact Eg.
Qed.

(** ** Task groups *)

Definition with_group (b : busy) (g : option nat) : busy := Busy (b_rights b) (b_shared b) (b_port b) g.

(** A group gets or loses tasks, but is not left without. *)
Lemma inv_tasks b k g G T :
  inv b k -> groups k !! g = Some G -> tasks G <> ∅ -> T <> ∅ ->
  inv b (set_groups (<[g := set_tasks T G]> (groups k)) k).
Proof.
  intros I HG HT HT'. split; cbn; keep I.
  - eapply agree_ext; [apply (i_groups _ _ I)|intros i; by apply (group_at_put _ _ G)|done].
  - put_all; [apply (i_group _ _ I)|]. by destruct (i_group _ _ I g G HG) as (H1 & H2 & _).
  - same_view I HG. unfold group_no. cbn. by rewrite !bool_decide_false.
  - intros x. rewrite (i_dead_group _ _ I x). symmetry.
    eapply (put_ex_iff _ _ _ _ (fun x X => tasks X = ∅ /\ b_group b <> Some x)); [exact HG|cbn; tauto].
  - intros a Hf. pose proof (i_fresh _ _ I a Hf). split_and!; try tauto. eapply put_none; [exact HG|tauto].
Qed.

(** The last task leaves: the group is taken from the table of groups ... *)
Lemma inv_group_dies b k g G :
  inv b k -> b_group b = None -> groups k !! g = Some G -> tasks G <> ∅ ->
  inv (with_group b (Some g))
    (set_global_groups (delete (group_id G) (global_groups k)) (set_groups (<[g := set_tasks ∅ G]> (groups k)) k)).
Proof.
  intros I Hb HG HT.
  assert (Hno : view group_no (groups k) g = Some (group_id G)).
  { rewrite (view_is _ _ _ _ HG). unfold group_no. by rewrite bool_decide_false. }
  split; cbn; keep I.
  - eapply agree_ext; [apply (i_groups _ _ I)|intros i; by apply (group_at_put _ _ G)|done].
  - put_all.
    + intros x X HX. destruct (i_group _ _ I x X HX) as (H1 & H2 & H3). split_and!; try done. intros. apply H3; [done|]. by rewrite Hb.
    + destruct (i_group _ _ I g G HG) as (H1 & H2 & _). by split_and!.
  - eapply (agree_del (fun no => global_groups k !! no)); [apply I|exact Hno|..].
    + by rewrite lookup_delete_eq.
    + intros no Hne. by rewrite lookup_delete_ne.
    + by rewrite view_put_eq.
    + intros x Hx. by rewrite view_put_ne.
  - destruct (i_numbers _ _ I) as [H1 H2]. split; [done|]. intros no Hn. apply H2. apply lookup_delete_is_Some in Hn. tauto.
  - intros x. rewrite (i_dead_group _ _ I x), Hb. destruct (decide (x = g)) as [->|Hne].
    + rewrite lookup_insert_eq, HG. split; [intros (X & [= <-] & ? & _); congruence|]. by intros (_ & _ & _ & ?).
    + rewrite lookup_insert_ne by done. split; intros (X & ? & ? & ?); exists X; split_and!; first [done|congruence].
  - intros a Hf. pose proof (i_fresh _ _ I a Hf). split_and!; try tauto. eapply put_none; [exact HG|tauto].
  - intros p P x HP HPa Hx. destruct (i_notifiers _ _ I p P x HP HPa Hx) as (X & HX & Hin & HT'). rewrite Hb in HT'.
    destruct (decide (x = g)) as [->|Hne]; [|rewrite lookup_insert_ne by done; exists X; naive_solver].
    rewrite lookup_insert_eq. eexists. split; [done|]. cbn. split; [congruence|done].
Qed.

(** ... and without rights it is given to RCU. *)
Lemma inv_group_dead b k g G :
  inv (with_group b (Some g)) k -> b_group b = None -> groups k !! g = Some G -> tasks G = ∅ -> g_rights G = ∅ ->
  (forall p P, ports k !! p = Some P -> p_alive P = true -> g ∉ p_notifiers P) ->
  inv b (set_garbage (DGroup g :: garbage k) k).
Proof.
  intros I Hb HG Ha Hr Hp.
  assert (Hgar : forall d, d <> DGroup g -> d ∈ DGroup g :: garbage k <-> d ∈ garbage k) by set_solver.
  split; cbn; keep I.
  - intros x X HX. destruct (i_group _ _ I x X HX) as (H1 & H2 & H3). split_and!; try done. intros Hx _. cbn in H3.
    destruct (decide (x = g)) as [->|Hne]; [congruence|]. apply H3; [done|congruence].
  - apply NoDup_cons. split; [|apply I]. rewrite (i_dead_group _ _ I g). intros (_ & _ & _ & ?). done.
  - intros r. rewrite Hgar by done. apply I.
  - intros s. rewrite Hgar by done. apply I.
  - intros p. rewrite Hgar by done. apply I.
  - intros x. rewrite Hb. destruct (decide (x = g)) as [->|Hne].
    + split; [|by left]. intros _. by exists G.
    + rewrite Hgar, (i_dead_group _ _ I x) by congruence. cbn.
      split; intros (X & ? & ? & ?); exists X; split_and!; first [done|congruence].
  - intros p P x HP HPa Hx. destruct (i_notifiers _ _ I p P x HP HPa Hx) as (X & HX & Hno & HT). exists X. split_and!; try done.
    intros _. apply HT. cbn. intros [= <-]. by apply (Hp p P).
Qed.

(** The rights in the table of a group are alive and of the group. *)
Lemma held_alive b k g id r : inv b k -> group_at (groups k) (g, id) = Some r ->
  exists R, rights k !! r = Some R /\ alive R = true /\ of_message R = false /\ holder R = g /\ right_sender_id R = id.
Proof.
  intros I Hr. apply (i_groups _ _ I) in Hr. apply view_inv in Hr as (R & HR & Ht). exists R. split; [done|].
  unfold in_table in Ht. destruct (alive R), (of_message R); try done. by injection Ht as -> ->.
Qed.

Lemma destroy_held_ok n b k g G :
  inv b k -> groups k !! g = Some G -> (size (g_rights G) < n)%nat ->
  runs (destroy_held n g) k (fun _ k' => inv b k' /\ shrinks k k'
    /\ exists G', groups k' !! g = Some G' /\ g_rights G' = ∅).
Proof.
  revert k G. induction n as [|n IH]; intros k G I HG Hn; [lia|]. cbn [destroy_held].
  eapply runs_get_group; [done|]. pose proof (tree_begin_spec (g_rights G)) as Ht.
  destruct (tree_begin (g_rights G)) as [[id r]|].
  - destruct Ht as [Ht _]. assert (Hat : group_at (groups k) (g, id) = Some r) by (unfold group_at; cbn; by rewrite HG).
    destruct (held_alive b k g id r I Hat) as (R & HR & Ha & Hm & Hh & _).
    eapply runs_bind; [by apply (destroy_spec b k r R)|]. cbn. unfold of_group. rewrite Ha, Hm, Hh, Nat.eqb_refl. cbn.
    intros res k1 (I1 & Hs & -> & add & Hd). destruct (sh_groups _ _ Hs g G HG) as (G1 & E1 & _ & _ & _ & Hsub).
    eapply runs_mono; [apply (IH k1 G1); try done|].
    + assert (size (g_rights G1) < size (g_rights G))%nat; [|lia]. apply (size_smaller _ _ id r); try done. intros Hx.
      pose proof (group_at_step _ _ _ (g, id) r (d_groups _ _ _ _ _ _ Hd)) as Hst. unfold group_at in Hst. cbn in Hst.
      rewrite E1 in Hst. cbn in Hst. tauto.
    + intros _ k' (I' & Hs' & HG'). split; [done|]. split; [by etrans|done].
  - apply runs_ret. split; [done|]. split; [done|]. by exists G.
Qed.

