(* ===== verification/RightsNew.v ===== *)
(** * Creating, duplicating and moving rights

    The operations of Rights.v that add objects or move them between tables keep
    the invariant of RightsInv.v, and what each of them returns and changes. *)

From stdpp Require Import base list numbers gmap fin_maps sorting.
From S2P Require Import Prelude Rights RightsInv RightsOps.

(** ** Adding a right to the heap *)

(** Ports, groups and shared structures that satisfy what the invariant says of them alone. *)
Record ports_like (b : busy) (k : kernel) (ps : gmap nat port) : Prop := {
  l_queue : forall p, queue ps p = queue (ports k) p;
  l_port_no : forall p, view port_no ps p = view port_no (ports k) p;
  l_port_ok : forall p P, ps !! p = Some P ->
    0 <= p_current_right_id P /\ (forall id, is_Some (p_rights P !! id) -> 0 < id <= p_current_right_id P)
    /\ (p_alive P = false -> b_port b <> Some p -> p_rights P = ∅);
  l_dead_port : forall p, (exists P, ps !! p = Some P /\ p_alive P = false /\ b_port b <> Some p)
    <-> exists P, ports k !! p = Some P /\ p_alive P = false /\ b_port b <> Some p;
  l_port_fresh : forall a, (fresh k <= a)%nat -> ps !! a = None;
  l_port_notified : forall p P', ps !! p = Some P' -> p_alive P' = true -> p_notifiers P' = ∅ \/ exists P, ports k !! p = Some P
    /\ p_alive P = true /\ portno P' = portno P /\ p_notifiers P' ⊆ p_notifiers P
}.

Record groups_like (b : busy) (k : kernel) (gs : gmap nat task_group) : Prop := {
  l_group_no : forall g, view group_no gs g = view group_no (groups k) g;
  l_group_ok : forall g G, gs !! g = Some G ->
    0 <= g_current_right_id G /\ (forall id, is_Some (g_rights G !! id) -> 0 < id <= g_current_right_id G)
    /\ (tasks G = ∅ -> b_group b <> Some g -> g_rights G = ∅);
  l_dead_group : forall g, (exists G, gs !! g = Some G /\ tasks G = ∅ /\ b_group b <> Some g)
    <-> exists G, groups k !! g = Some G /\ tasks G = ∅ /\ b_group b <> Some g;
  l_group_fresh : forall a, (fresh k <= a)%nat -> gs !! a = None;
  l_group_notified : forall g G, groups k !! g = Some G ->
    exists G', gs !! g = Some G' /\ g_notifiers G' = g_notifiers G /\ (tasks G <> ∅ -> tasks G' <> ∅)
}.

Record shareds_like (b : busy) (k : kernel) (ss : gmap nat shared_right) : Prop := {
  l_shared_ok : forall s S, ss !! s = Some S ->
    if s_alive S then s_parent S <> None /\ send_many_rights S <> [] /\ b_shared b <> Some s
    else b_shared b = Some s \/ send_many_rights S = [];
  l_shared_dead : forall s S, ss !! s = Some S /\ s_alive S = false <-> shareds k !! s = Some S /\ s_alive S = false;
  l_shared_fresh : forall a, (fresh k <= a)%nat -> ss !! a = None
}.

Lemma ports_like_refl b k : inv b k -> ports_like b k (ports k).
Proof.
  intros I. split; try done; [apply I|intros a Ha; by apply (i_fresh _ _ I)|]. intros p P HP Ha. right. by exists P.
Qed.
Lemma groups_like_refl b k : inv b k -> groups_like b k (groups k).
Proof.
  intros I. split; try done; [apply I|intros a Ha; by apply (i_fresh _ _ I)|]. intros g G HG. by exists G.
Qed.

Lemma like_notified b k ps gs : inv b k -> ports_like b k ps -> groups_like b k gs -> notified (b_group b) ps gs.
Proof.
  intros I Lp Lg. eapply notified_like; [apply (i_notifiers _ _ I)|apply (l_port_notified _ _ _ Lp)|].
  intros g G HG _. by apply (l_group_notified _ _ _ Lg).
Qed.
Lemma shareds_like_refl b k : inv b k -> shareds_like b k (shareds k).
Proof. intros I. split; try done; [apply I|]. intros a Ha. by apply (i_fresh _ _ I). Qed.

Lemma shareds_like_fresh b k n : inv b k -> (fresh k <= n)%nat -> shareds_like b (set_fresh n k) (shareds k).
Proof. intros I Hn. split; cbn; try done; [apply I|]. intros a Ha. apply (i_fresh _ _ I). lia. Qed.

(** The counter of a port goes up, and its table may get an entry below it. *)
Lemma ports_like_put b k ps p P P' :
  ports_like b k ps -> ps !! p = Some P -> msg_queue P' = msg_queue P -> portno P' = portno P /\ p_notifiers P' = p_notifiers P ->
  p_alive P' = p_alive P ->
  p_current_right_id P <= p_current_right_id P' ->
  (forall id, is_Some (p_rights P' !! id) -> is_Some (p_rights P !! id) \/ 0 < id <= p_current_right_id P') ->
  (p_alive P = false -> p_rights P = ∅ -> p_rights P' = ∅) ->
  ports_like b k (<[p := P']> ps).
Proof.
  intros L HP Hq [Hno Hn] Hal Hc Hids Hdead. destruct (l_port_ok _ _ _ L p P HP) as (H1 & H2 & H3). split.
  - intros x. rewrite queue_put, <- (l_queue _ _ _ L). destruct (decide (x = p)) as [->|]; [|done]. unfold queue. by rewrite HP, Hq.
  - intros x. rewrite <- (l_port_no _ _ _ L). eapply view_put_same; [done|]. unfold port_no. by rewrite Hno, Hal.
  - put_all; [apply L|]. split_and!; [lia| |].
    + intros id Hid. apply Hids in Hid as [Hid|?]; [|lia]. apply H2 in Hid. lia.
    + rewrite Hal. intros Ha Hb. apply Hdead; auto.
  - intros x. rewrite <- (l_dead_port _ _ _ L).
    eapply (put_ex_iff _ _ _ _ (fun x X => p_alive X = false /\ b_port b <> Some x)); [done|]. by rewrite Hal.
  - intros a Ha. eapply put_none; [done|]. by apply (l_port_fresh _ _ _ L).
  - put_all; [apply (l_port_notified _ _ _ L)|]. rewrite Hno, Hn, Hal. by apply (l_port_notified _ _ _ L).
Qed.

Lemma groups_like_put b k gs g G G' :
  groups_like b k gs -> gs !! g = Some G -> group_id G' = group_id G /\ g_notifiers G' = g_notifiers G -> tasks G' = tasks G ->
  g_current_right_id G <= g_current_right_id G' ->
  (forall id, is_Some (g_rights G' !! id) -> is_Some (g_rights G !! id) \/ 0 < id <= g_current_right_id G') ->
  (tasks G = ∅ -> g_rights G = ∅ -> g_rights G' = ∅) ->
  groups_like b k (<[g := G']> gs).
Proof.
  intros L HG [Hno Hn] Hal Hc Hids Hdead. destruct (l_group_ok _ _ _ L g G HG) as (H1 & H2 & H3). split.
  - intros x. rewrite <- (l_group_no _ _ _ L). eapply view_put_same; [done|]. unfold group_no. by rewrite Hno, Hal.
  - put_all; [apply L|]. split_and!; [lia| |].
    + intros id Hid. apply Hids in Hid as [Hid|?]; [|lia]. apply H2 in Hid. lia.
    + rewrite Hal. intros Ha Hb. apply Hdead; auto.
  - intros x. rewrite <- (l_dead_group _ _ _ L).
    eapply (put_ex_iff _ _ _ _ (fun x X => tasks X = ∅ /\ b_group b <> Some x)); [done|]. by rewrite Hal.
  - intros a Ha. eapply put_none; [done|]. by apply (l_group_fresh _ _ _ L).
  - intros x X HX. destruct (l_group_notified _ _ _ L x X HX) as (X' & HX' & En & HT). destruct (decide (x = g)) as [->|Hne].
    + rewrite lookup_insert_eq. exists G'. assert (X' = G) as -> by congruence. by rewrite Hn, Hal.
    + rewrite lookup_insert_ne by done. by exists X'.
Qed.

(** The rights of messages in the hands of an operation, with one more. *)
Definition taking (b : busy) (l : list nat) : busy := Busy (l ++ b_rights b) (b_shared b) (b_port b) (b_group b).

Section Add.
Context (b : busy) (k : kernel) (r : nat) (R : right).
Context (ss : gmap nat shared_right) (ps : gmap nat port) (gs : gmap nat task_group) (os : gmap nat (list nat)).
Let rs := <[r := R]> (rights k).
Let k' := set_mem_objects os (set_groups gs (set_ports ps (set_shareds ss (set_rights rs k)))).
Let b' := taking b (if of_message R then [r] else []).

Context (I : inv b k) (Hnew : rights k !! r = None) (Hr : (r < fresh k)%nat).
Context (Ha : alive R = true) (Hs : sent R = false) (Hok : right_ok R).

Lemma new_not_kept : ~ kept b k r.
Proof.
  intros [Hin|[m Hin]].
  - destruct (proj2 (i_busy _ _ I) r Hin) as ((X & E & _) & _). congruence.
  - destruct (i_slots _ _ I m r Hin) as (X & E & _). congruence.
Qed.

(** A new right that the tables list where its fields say. *)
Lemma inv_add :
  agree (group_at gs) (view in_table rs) -> agree (port_at ps) (index_of rs ss) ->
  collects (senders ss) (view sharing rs) -> collects (mem_rights os) (view mapping rs) ->
  ports_like b k ps -> groups_like b k gs -> shareds_like b k ss -> inv b' k'.
Proof.
  intros Hg Hp Hsend Hmem Lp Lg Ls. pose proof new_not_kept as Hk. unfold kept in Hk.
  assert (Hb' : forall x, x ∈ b_rights b' -> x = r /\ of_message R = true \/ x ∈ b_rights b).
  { intros x. cbn. rewrite elem_of_app. destruct (of_message R); set_solver. }
  assert (Hq := l_queue _ _ _ Lp). unfold k'. split; cbn; keep I; try done.
  - apply (collects_ext (fun p => notes (queue (ports k) p)) _ (view notifying (rights k))); [apply I| |].
    + intros i x. by rewrite Hq.
    + intros x. apply view_put_new; [done|]. unfold notifying. by rewrite Hs.
  - intros m. setoid_rewrite Hq. apply I.
  - intros m p p'. rewrite !Hq. apply (i_one_queue _ _ I).
  - intros s p. rewrite Hq. intros Hin. destruct (i_shared_note _ _ I s p Hin) as (S2 & E2 & H2 & Hrest).
    exists S2. split; [|done]. by apply (l_shared_dead _ _ _ Ls s S2).
  - intros p. rewrite Hq. apply (i_queue _ _ I).
  - unfold rs. put_all; [apply I|done].
  - apply (l_shared_ok _ _ _ Ls).
  - intros m x Hx. unfold rs. rewrite lookup_insert_ne by (intros ->; apply Hk; right; by exists m). by apply (i_slots _ _ I).
  - unfold rs. put_all.
    + intros x X HX Hax Hmx. destruct (i_carried _ _ I x X HX Hax Hmx) as [?|?]; [by left|right]. cbn. rewrite elem_of_app. by right.
    + intros _ Hm. right. cbn. rewrite Hm. by left.
  - destruct (i_busy _ _ I) as [Hnd Hbx]. split.
    + destruct (of_message R); [|done]. cbn. apply NoDup_cons. split; [|done]. intros Hin. apply Hk. by left.
    + intros x Hx. apply Hb' in Hx as [[-> Hm]|Hx].
      * unfold rs. rewrite lookup_insert_eq. split; [by exists R|]. intros m Hin. apply Hk. right. by exists m.
      * destruct (Hbx x Hx) as ((X & E & Hm) & Hsl). split; [|done]. exists X. unfold rs.
        rewrite lookup_insert_ne by congruence. done.
  - apply (l_port_ok _ _ _ Lp).
  - apply (l_group_ok _ _ _ Lg).
  - eapply agree_ext; [apply (i_global_ports _ _ I)|done|apply (l_port_no _ _ _ Lp)].
  - eapply agree_ext; [apply (i_global_groups _ _ I)|done|apply (l_group_no _ _ _ Lg)].
  - intros x. rewrite (i_dead_right _ _ I x). unfold rs. destruct (decide (x = r)) as [->|Hne].
    + rewrite lookup_insert_eq, Hnew. split; [by intros (X & ? & _)|]. intros (X & [= <-] & ? & _). congruence.
    + rewrite lookup_insert_ne by done. unfold kept. cbn. setoid_rewrite elem_of_app.
      destruct (of_message R); [|set_solver]. setoid_rewrite list_elem_of_singleton. naive_solver.
  - intros s. rewrite (i_dead_shared _ _ I s). setoid_rewrite Hq.
    split; intros (S2 & E2 & H2 & Hrest); exists S2; apply and_assoc; (split; [|exact Hrest]); by apply (l_shared_dead _ _ _ Ls s S2).
  - intros p. rewrite (i_dead_port _ _ I p). symmetry. apply (l_dead_port _ _ _ Lp).
  - intros g. rewrite (i_dead_group _ _ I g). symmetry. apply (l_dead_group _ _ _ Lg).
  - intros a Hf. pose proof (i_fresh _ _ I a Hf). unfold rs. rewrite lookup_insert_ne by lia. split_and!; try tauto.
    + by apply (l_shared_fresh _ _ _ Ls).
    + by apply (l_port_fresh _ _ _ Lp).
    + by apply (l_group_fresh _ _ _ Lg).
  - by apply (like_notified b k).
Qed.

Lemma inv_add_held :
  of_message R = false ->
  agree (group_at gs) (view in_table rs) -> agree (port_at ps) (index_of rs ss) ->
  collects (senders ss) (view sharing rs) -> collects (mem_rights os) (view mapping rs) ->
  ports_like b k ps -> groups_like b k gs -> shareds_like b k ss -> inv b k'.
Proof. intros Hm Hg Hp Hsend Hmem Lp Lg Ls. pose proof (inv_add Hg Hp Hsend Hmem Lp Lg Ls) as H. unfold b' in H.
  rewrite Hm in H. by destruct b.
Qed.
End Add.

(** ** Identifiers, addresses and allocations *)

Lemma inv_ports_like b k ps :
  inv b k -> ports_like b k ps -> (forall i, port_at ps i = port_at (ports k) i) -> inv b (set_ports ps k).
Proof.
  intros I L Hat. assert (Hq := l_queue _ _ _ L). split; cbn; keep I.
  - eapply agree_ext; [apply (i_ports _ _ I)|done|done].
  - eapply collects_ext; [apply (i_notes _ _ I)| |done]. intros i x. cbn. by rewrite Hq.
  - intros m. setoid_rewrite Hq. apply I.
  - intros m p p'. rewrite !Hq. apply (i_one_queue _ _ I).
  - intros s p. rewrite Hq. apply (i_shared_note _ _ I).
  - intros p. rewrite Hq. apply (i_queue _ _ I).
  - apply (l_port_ok _ _ _ L).
  - eapply agree_ext; [apply (i_global_ports _ _ I)|done|apply (l_port_no _ _ _ L)].
  - intros s. setoid_rewrite Hq. apply I.
  - intros p. rewrite (i_dead_port _ _ I p). symmetry. apply (l_dead_port _ _ _ L).
  - intros a Hf. pose proof (i_fresh _ _ I a Hf). split_and!; try tauto. by apply (l_port_fresh _ _ _ L).
  - apply (like_notified b k); auto using groups_like_refl.
Qed.

Lemma inv_groups_like b k gs :
  inv b k -> groups_like b k gs -> (forall i, group_at gs i = group_at (groups k) i) -> inv b (set_groups gs k).
Proof.
  intros I L Hat. split; cbn; keep I.
  - eapply agree_ext; [apply (i_groups _ _ I)|done|done].
  - apply (l_group_ok _ _ _ L).
  - eapply agree_ext; [apply (i_global_groups _ _ I)|done|apply (l_group_no _ _ _ L)].
  - intros g. rewrite (i_dead_group _ _ I g). symmetry. apply (l_dead_group _ _ _ L).
  - intros a Hf. pose proof (i_fresh _ _ I a Hf). split_and!; try tauto. by apply (l_group_fresh _ _ _ L).
  - apply (like_notified b k); auto using ports_like_refl.
Qed.

Lemma inv_alloc b k n : inv b k -> inv b (set_allocations n k).
Proof. intros I. split; cbn; keep I. Qed.

Lemma inv_fresh b k n : inv b k -> (fresh k <= n)%nat -> inv b (set_fresh n k).
Proof. intros I Hn. split; cbn; keep I. intros a Hf. apply (i_fresh _ _ I). lia. Qed.

Definition bump_port (P : port) : port := set_p_current_right_id (p_current_right_id P + 1) P.
Definition bump_group (G : task_group) : task_group := set_g_current_right_id (g_current_right_id G + 1) G.

Lemma inv_bump_port b k p P : inv b k -> ports k !! p = Some P -> inv b (set_ports (<[p := bump_port P]> (ports k)) k).
Proof.
  intros I HP. apply inv_ports_like; [done|apply (ports_like_put b k _ p P); cbn; auto using ports_like_refl; lia|].
  intros i. by apply (port_at_put _ _ P).
Qed.

Lemma inv_bump_group b k g G : inv b k -> groups k !! g = Some G -> inv b (set_groups (<[g := bump_group G]> (groups k)) k).
Proof.
  intros I HG. apply inv_groups_like; [done|apply (groups_like_put b k _ g G); cbn; auto using groups_like_refl; lia|].
  intros i. by apply (group_at_put _ _ G).
Qed.

Section RunsMore.
Context {A : Type}.
Implicit Types (k : kernel) (Q : A -> kernel -> Prop).

Lemma runs_new_right_id p P (f : Z -> K A) k Q : ports k !! p = Some P ->
  runs (f (p_current_right_id P + 1)) (set_ports (<[p := bump_port P]> (ports k)) k) Q -> runs (new_right_id p ≫= f) k Q.
Proof. intros E. apply runs_step. unfold new_right_id. by erewrite kbind by (by apply get_port_run). Qed.

Lemma runs_new_group_id g G (f : Z -> K A) k Q : groups k !! g = Some G ->
  runs (f (g_current_right_id G + 1)) (set_groups (<[g := bump_group G]> (groups k)) k) Q ->
  runs (atomic_new_right_id g ≫= f) k Q.
Proof. intros E. apply runs_step. unfold atomic_new_right_id. by erewrite kbind by (by apply get_group_run). Qed.

Lemma runs_port_insert p P id x (f : unit -> K A) k Q : ports k !! p = Some P -> p_rights P !! id = None ->
  runs (f tt) (set_ports (<[p := set_p_rights (<[id := x]> (p_rights P)) P]> (ports k)) k) Q ->
  runs (port_insert p id x ≫= f) k Q.
Proof.
  intros E Hid. apply runs_step. unfold port_insert. erewrite kbind by (by apply get_port_run).
  unfold tree_insert. by rewrite Hid.
Qed.

Lemma runs_group_insert g G id r (f : unit -> K A) k Q : groups k !! g = Some G -> g_rights G !! id = None ->
  runs (f tt) (set_groups (<[g := set_g_rights (<[id := r]> (g_rights G)) G]> (groups k)) k) Q ->
  runs (group_insert g id r ≫= f) k Q.
Proof.
  intros E Hid. apply runs_step. unfold group_insert. erewrite kbind by (by apply get_group_run).
  unfold tree_insert. by rewrite Hid.
Qed.

(** Allocation fails, or there is memory. *)
Lemma runs_alloc (f : bool -> K A) k Q :
  (forall ok, runs (f ok) (set_allocations (S (allocations k)) k) Q) -> runs (alloc ≫= f) k Q.
Proof. intros H. eapply runs_step; [done|]. apply H. Qed.
End RunsMore.

(** The tables with one more entry. *)
Lemma group_at_ins gs g G id r j : gs !! g = Some G ->
  group_at (<[g := set_g_rights (<[id := r]> (g_rights G)) G]> gs) j = if decide (j = (g, id)) then Some r else group_at gs j.
Proof.
  intros E. unfold group_at. destruct j as [g' id']. cbn. destruct (decide (g' = g)) as [->|Hne].
  - rewrite lookup_insert_eq, E. cbn. destruct (decide (id' = id)) as [->|Hne].
    + by rewrite lookup_insert_eq, decide_True.
    + rewrite lookup_insert_ne, decide_False by congruence. done.
  - rewrite lookup_insert_ne, decide_False by congruence. done.
Qed.

Lemma port_at_ins ps p P id x j : ps !! p = Some P ->
  port_at (<[p := set_p_rights (<[id := x]> (p_rights P)) P]> ps) j = if decide (j = (p, id)) then Some x else port_at ps j.
Proof.
  intros E. unfold port_at. destruct j as [p' id']. cbn. destruct (decide (p' = p)) as [->|Hne].
  - rewrite lookup_insert_eq, E. cbn. destruct (decide (id' = id)) as [->|Hne].
    + by rewrite lookup_insert_eq, decide_True.
    + rewrite lookup_insert_ne, decide_False by congruence. done.
  - rewrite lookup_insert_ne, decide_False by congruence. done.
Qed.

Lemma group_at_new gs g G t id r : group_at (<[g := set_g_rights (<[id := r]> t) G]> gs) (g, id) = Some r.
Proof. unfold group_at. cbn. rewrite lookup_insert_eq. cbn. by rewrite lookup_insert_eq. Qed.
Lemma port_at_new ps p P t id x : port_at (<[p := set_p_rights (<[id := x]> t) P]> ps) (p, id) = Some x.
Proof. unfold port_at. cbn. rewrite lookup_insert_eq. cbn. by rewrite lookup_insert_eq. Qed.

Lemma agree_group_ins gs g G id r v v' :
  agree (group_at gs) v -> gs !! g = Some G -> g_rights G !! id = None -> v r = None ->
  v' r = Some (g, id) -> (forall y, y <> r -> v' y = v y) ->
  agree (group_at (<[g := set_g_rights (<[id := r]> (g_rights G)) G]> gs)) v'.
Proof.
  intros H E Hid Hv Hv' Hy. eapply (agree_ins _ _ _ _ (g, id) r); [exact H|done|..|done|done].
  - unfold group_at. cbn. by rewrite E.
  - by rewrite group_at_ins, decide_True.
  - intros j Hj. by rewrite group_at_ins, decide_False.
Qed.

Lemma agree_port_ins ps p P id x v v' :
  agree (port_at ps) v -> ps !! p = Some P -> p_rights P !! id = None -> v x = None ->
  v' x = Some (p, id) -> (forall y, y <> x -> v' y = v y) ->
  agree (port_at (<[p := set_p_rights (<[id := x]> (p_rights P)) P]> ps)) v'.
Proof.
  intros H E Hid Hv Hv' Hy. eapply (agree_ins _ _ _ _ (p, id) x); [exact H|done|..|done|done].
  - unfold port_at. cbn. by rewrite E.
  - by rewrite port_at_ins, decide_True.
  - intros j Hj. by rewrite port_at_ins, decide_False.
Qed.

(** The next identifier of a group or of a port is not in use. *)
Lemma group_id_free b k g G : inv b k -> groups k !! g = Some G ->
  g_rights G !! (g_current_right_id G + 1) = None /\ 0 < g_current_right_id G + 1.
Proof.
  intros I HG. destruct (i_group _ _ I g G HG) as (H1 & H2 & _). split; [|lia].
  destruct (g_rights G !! _) eqn:E; [|done]. specialize (H2 _ (ltac:(by eexists))). lia.
Qed.
Lemma port_id_free b k p P : inv b k -> ports k !! p = Some P ->
  p_rights P !! (p_current_right_id P + 1) = None /\ 0 < p_current_right_id P + 1.
Proof.
  intros I HP. destruct (i_port _ _ I p P HP) as (H1 & H2 & _). split; [|lia].
  destruct (p_rights P !! _) eqn:E; [|done]. specialize (H2 _ (ltac:(by eexists))). lia.
Qed.

(** A new right in the table of a group, and something new in the table of a port. *)
Lemma new_in_group b k g G r R id :
  inv b k -> groups k !! g = Some G -> tasks G <> ∅ -> g_rights G !! id = None -> 0 < id <= g_current_right_id G ->
  rights k !! r = None -> alive R = true -> of_message R = false -> holder R = g -> right_sender_id R = id ->
  let gs := <[g := set_g_rights (<[id := r]> (g_rights G)) G]> (groups k) in
  agree (group_at gs) (view in_table (<[r := R]> (rights k))) /\ groups_like b k gs.
Proof.
  intros I HG HT Hid Hle Hr Ha Hm Hh Hi gs. split.
  - eapply agree_group_ins; [apply (i_groups _ _ I)|done|done|..].
    + unfold view. by rewrite Hr.
    + rewrite view_put_eq. unfold in_table. by rewrite Ha, Hm, Hh, Hi.
    + intros y Hy. by apply view_put_ne.
  - apply (groups_like_put b k _ g G); cbn; try done; [by apply groups_like_refl|]. intros x. rewrite lookup_insert_is_Some. intros [<-|[_ ?]]; auto.
Qed.

Lemma new_in_port b k p P id x :
  inv b k -> ports k !! p = Some P -> p_alive P = true -> 0 < id <= p_current_right_id P ->
  ports_like b k (<[p := set_p_rights (<[id := x]> (p_rights P)) P]> (ports k)).
Proof.
  intros I HP Ha Hle. apply (ports_like_put b k _ p P); cbn; try done; [by apply ports_like_refl| |congruence].
  intros y. rewrite lookup_insert_is_Some. intros [<-|[_ ?]]; auto.
Qed.

(** A new right that a table does not list. *)
Lemma collects_new {B} (lst : B -> list nat) (f : right -> option B) rs r R :
  collects lst (view f rs) -> rs !! r = None -> f R = None -> collects lst (view f (<[r := R]> rs)).
Proof. intros H Hr Hf. eapply collects_ext; [exact H|done|]. intros x. by apply view_put_new. Qed.

(** The identifier a port has for a right that is being created. *)
Definition reserved (k : kernel) (p : nat) (id : Z) : Prop :=
  forall P, ports k !! p = Some P -> p_rights P !! id = None /\ 0 < id <= p_current_right_id P.

(** Nothing but the allocator changed. *)
Definition unchanged (k k' : kernel) : Prop := exists n, k' = set_allocations n k.

(** A new right in the table of a group, under the next identifier of the group. *)
Lemma inv_add_new b k g G R ss ps os n al :
  let r := fresh k in
  let rs := <[r := R]> (rights k) in
  let gs := <[g := set_g_rights (<[right_sender_id R := r]> (g_rights G)) (bump_group G)]> (<[g := bump_group G]> (groups k)) in
  inv b k -> groups k !! g = Some G -> tasks G <> ∅ -> (r < n)%nat ->
  alive R = true -> sent R = false -> of_message R = false -> right_ok R ->
  holder R = g -> right_sender_id R = g_current_right_id G + 1 ->
  agree (port_at ps) (index_of rs ss) -> collects (senders ss) (view sharing rs) -> collects (mem_rights os) (view mapping rs) ->
  ports_like b k ps -> shareds_like b (set_fresh n k) ss ->
  inv b (set_allocations al (set_fresh n (set_mem_objects os (set_groups gs (set_ports ps (set_shareds ss (set_rights rs k))))))).
Proof.
  intros r rs gs I HG HT Hn Ha Hs Hm Hok Hh Hi Hp Hsend Hmem Lp Ls.
  set (k1 := set_allocations al (set_fresh n (set_groups (<[g := bump_group G]> (groups k)) k))).
  assert (I1 : inv b k1). { apply inv_alloc, inv_fresh; [by apply inv_bump_group|cbn; lia]. }
  destruct (group_id_free b k g G I HG) as [Hgf Hg0]. destruct (i_fresh _ _ I (fresh k) (le_n _)) as (Hrf & _).
  destruct (new_in_group b k1 g (bump_group G) r R (right_sender_id R) I1) as [Hg Lg];
    try done; [cbn; apply lookup_insert_eq|by rewrite Hi|rewrite Hi; cbn; lia|].
  apply (inv_add_held b k1 r R ss ps gs os I1); try done.
  - destruct Lp as [L1 L2 L3 L4 L5]. split; try done. cbn. intros a Hle. apply L5. lia.
  - destruct Ls as [L1 L2 L3]. by split.
Qed.

(** [create_for_group] of send once rights: why it fails, and what it adds. *)
Lemma create_once_ok b k p g id P G :
  inv b k -> ports k !! p = Some P -> groups k !! g = Some G -> reserved k p id ->
  runs (create_once p g id) k (fun res k' => inv b k' /\
    match res with
    | Error e _ => unchanged k k' /\ (e = ENOMEM \/ e = ENOENT /\ p_alive P = false \/ e = ESRCH /\ tasks G = ∅)
    | Success i => i = g_current_right_id G + 1 /\ p_alive P = true /\ tasks G <> ∅
        /\ rights k' = <[fresh k := Right SendOnce g i true false false false false (Some p) id None None 0]> (rights k)
        /\ group_at (groups k') (g, i) = Some (fresh k) /\ port_at (ports k') (p, id) = Some (RRight (fresh k))
    end).
Proof.
  intros I HP HG Hres. destruct (Hres P HP) as [Hfree Hid]. unfold create_once.
  eapply runs_assert; [apply negb_true_iff, Z.eqb_neq; lia|]. apply runs_alloc. intros ok.
  pose proof (inv_alloc b k (S (allocations k)) I) as I1. destruct ok; cbn [negb]; cycle 1.
  { apply runs_ret. split; [done|]. split; [by eexists|]. auto. }
  eapply runs_get_port; [exact HP|]. eapply runs_get_group; [exact HG|].
  destruct (p_alive P) eqn:Ha; cbn [negb]; cycle 1. { apply runs_ret. split; [done|]. split; [by eexists|]. auto. }
  case_bool_decide as HT. { apply runs_ret. split; [done|]. split; [by eexists|]. auto. }
  eapply runs_new_group_id; [exact HG|]. eapply runs_step; [done|]. cbn [fresh set_groups set_allocations].
  eapply runs_step; [done|]. set (R := Right SendOnce _ _ _ _ _ _ _ _ _ _ _ _).
  eapply runs_port_insert; [exact HP|done|].
  eapply runs_group_insert; [cbn; apply lookup_insert_eq|by apply (group_id_free b k g G I)|].
  apply runs_ret. split; [|split_and!; try done; cbn; [apply group_at_new|apply port_at_new]].
  destruct (i_fresh _ _ I (fresh k) (le_n _)) as (Hrf & _).
  apply (inv_add_new b k g G R (shareds k) (<[p := set_p_rights (<[id := RRight (fresh k)]> (p_rights P)) P]> (ports k))
           (mem_objects k) (S (fresh k)) (S (allocations k))); try done; [lia|..].
  - eapply agree_port_ins; [apply (i_ports _ _ I)|done|done|..]; cbn.
    + unfold view. by rewrite Hrf.
    + by rewrite view_put_eq.
    + intros [y|y] Hy; [|done]. cbn. apply view_put_ne. congruence.
  - apply collects_new; [apply I|done|done].
  - apply collects_new; [apply I|done|done].
  - by apply (new_in_port b k p P).
  - apply shareds_like_fresh; [done|lia].
Qed.

(** A new shared structure of a new right, registered with a port. *)
Section NewShared.
Context (b : busy) (k : kernel) (p : nat) (P : port) (id : Z) (r s : nat) (R : right) (n : nat).
Context (I : inv b k) (Hb : b_shared b = None) (HP : ports k !! p = Some P) (Hid : p_rights P !! id = None).
Context (Hr : rights k !! r = None) (Hs : shareds k !! s = None) (Hfresh : (fresh k <= n)%nat) (Hsn : (s < n)%nat).
Context (Ha : alive R = true) (Ht : rtype R = SendMany) (Hsh : shared R = Some s) (Hn : notification_port R = false).
Let rs := <[r := R]> (rights k).
Let ss := <[s := SharedRight true [r] (Some p) id]> (shareds k).

Lemma new_shared_index : agree (port_at (<[p := set_p_rights (<[id := RShared s]> (p_rights P)) P]> (ports k))) (index_of rs ss).
Proof.
  eapply agree_port_ins; [apply (i_ports _ _ I)|done|done|..]; cbn.
  - unfold view. by rewrite Hs.
  - unfold ss. by rewrite view_put_eq.
  - intros [y|y] Hy; cbn.
    + apply view_put_new; [done|]. unfold registered, watched. by rewrite Ha, Ht, Hn.
    + apply view_put_ne. congruence.
Qed.

Lemma new_shared_senders : collects (senders ss) (view sharing rs).
Proof.
  eapply (collects_ins _ _ _ _ s r); [apply (i_senders _ _ I)|..].
  - unfold view. by rewrite Hr.
  - intros y. unfold senders, ss. rewrite lookup_insert_eq, Hs. cbn. rewrite elem_of_nil, list_elem_of_singleton. naive_solver.
  - intros j y Hj. unfold senders, ss. by rewrite lookup_insert_ne.
  - unfold rs. rewrite view_put_eq. unfold sharing. by rewrite Ha, Ht, Hsh.
  - intros y Hy. by apply view_put_ne.
Qed.

Lemma new_shared_like : shareds_like b (set_fresh n k) ss.
Proof.
  split; cbn.
  - unfold ss. put_all; [apply I|]. cbn. by rewrite Hb.
  - intros x X. unfold ss. destruct (decide (x = s)) as [->|Hne].
    + rewrite lookup_insert_eq, Hs. split; [intros [[= <-] ?]; done|naive_solver].
    + by rewrite lookup_insert_ne.
  - intros a Hle. unfold ss. rewrite lookup_insert_ne by lia. apply (i_fresh _ _ I). lia.
Qed.
End NewShared.

(** [create_for_group] of send many rights *)
Lemma create_many_ok b k p g id P G :
  inv b k -> b_shared b = None -> ports k !! p = Some P -> groups k !! g = Some G -> reserved k p id ->
  runs (create_many p g id) k (fun res k' => inv b k' /\
    match res with
    | Error e _ => unchanged k k' /\ (e = ENOMEM \/ e = ENOENT /\ p_alive P = false \/ e = ESRCH /\ tasks G = ∅)
    | Success i => i = g_current_right_id G + 1 /\ p_alive P = true /\ tasks G <> ∅
        /\ rights k' = <[fresh k := Right SendMany g i true false false false false None 0 (Some (S (fresh k))) None 0]> (rights k)
        /\ shareds k' = <[S (fresh k) := SharedRight true [fresh k] (Some p) id]> (shareds k)
        /\ group_at (groups k') (g, i) = Some (fresh k) /\ port_at (ports k') (p, id) = Some (RShared (S (fresh k)))
    end).
Proof.
  intros I Hb HP HG Hres. destruct (Hres P HP) as [Hfree Hid]. unfold create_many.
  eapply runs_assert; [apply negb_true_iff, Z.eqb_neq; lia|]. apply runs_alloc. intros ok.
  pose proof (fun n => inv_alloc b k n I) as I1. destruct ok; cbn [negb]; cycle 1.
  { apply runs_ret. split; [done|]. split; [by eexists|]. auto. }
  apply runs_alloc. intros ok. destruct ok; cbn [negb]; cycle 1. { apply runs_ret. split; [apply I1|]. split; [by eexists|]. auto. }
  eapply runs_get_port; [exact HP|]. eapply runs_get_group; [exact HG|].
  destruct (p_alive P) eqn:Ha; cbn [negb]; cycle 1. { apply runs_ret. split; [apply I1|]. split; [by eexists|]. auto. }
  case_bool_decide as HT. { apply runs_ret. split; [apply I1|]. split; [by eexists|]. auto. }
  eapply runs_new_group_id; [exact HG|]. do 2 (eapply runs_step; [done|]). cbn [fresh set_groups set_allocations set_fresh].
  do 2 (eapply runs_step; [done|]). set (R := Right SendMany _ _ _ _ _ _ _ _ _ _ _ _).
  eapply runs_port_insert; [exact HP|done|].
  eapply runs_group_insert; [cbn; apply lookup_insert_eq|by apply (group_id_free b k g G I)|].
  apply runs_ret. split; [|split_and!; try done; cbn; [apply group_at_new|apply port_at_new]].
  destruct (i_fresh _ _ I (fresh k) (le_n _)) as (Hrf & _). destruct (i_fresh _ _ I (S (fresh k)) ltac:(lia)) as (_ & Hsf & _).
  apply (inv_add_new b k g G R (<[S (fresh k) := SharedRight true [fresh k] (Some p) id]> (shareds k))
           (<[p := set_p_rights (<[id := RShared (S (fresh k))]> (p_rights P)) P]> (ports k))
           (mem_objects k) (S (S (fresh k))) (S (S (allocations k)))); try done; [lia|..].
  - by apply (new_shared_index b).
  - by apply (new_shared_senders b).
  - apply collects_new; [apply I|done|done].
  - by apply (new_in_port b k p P).
  - apply new_shared_like; auto; lia.
Qed.

(** A new right to a memory object. *)
Lemma new_mem b k o l r R :
  inv b k -> mem_objects k !! o = Some l -> rights k !! r = None ->
  alive R = true -> rtype R = MemObject -> mem_object R = Some o ->
  r ∉ l /\ collects (mem_rights (<[o := l ++ [r]]> (mem_objects k))) (view mapping (<[r := R]> (rights k))).
Proof.
  intros I Ho Hr Ha Ht Hm.
  assert (Hl : forall x, x ∈ l <-> x ∈ mem_rights (mem_objects k) o) by (intros x; unfold mem_rights; by rewrite Ho).
  split.
  - rewrite Hl, (i_mem _ _ I o r). unfold view. by rewrite Hr.
  - eapply (collects_ins _ _ _ _ o r); [apply (i_mem _ _ I)|..].
    + unfold view. by rewrite Hr.
    + intros y. rewrite <- Hl. unfold mem_rights. rewrite lookup_insert_eq. cbn. rewrite elem_of_app, list_elem_of_singleton. done.
    + intros j y Hj. unfold mem_rights. by rewrite lookup_insert_ne.
    + rewrite view_put_eq. unfold mapping. by rewrite Ha, Ht, Hm.
    + intros y Hy. by apply view_put_ne.
Qed.

Lemma runs_push_back {A} x (l : list nat) (f : list nat -> K A) k Q :
  x ∉ l -> runs (f (l ++ [x])) k Q -> runs (from (list_push_back x l) ≫= f) k Q.
Proof. intros Hx. apply runs_from. unfold list_push_back. by rewrite decide_False. Qed.

(** The common end of the functions that add a right to a memory object *)
Lemma inv_add_mem b k g G o l R al :
  inv b k -> groups k !! g = Some G -> tasks G <> ∅ -> mem_objects k !! o = Some l ->
  R = Right MemObject g (g_current_right_id G + 1) true false false false false None 0 None (Some o) (permission_mask R) ->
  let gs := <[g := set_g_rights (<[right_sender_id R := fresh k]> (g_rights G)) (bump_group G)]> (<[g := bump_group G]> (groups k)) in
  inv b (set_allocations al (set_fresh (S (fresh k)) (set_mem_objects (<[o := l ++ [fresh k]]> (mem_objects k))
           (set_groups gs (set_ports (ports k) (set_shareds (shareds k) (set_rights (<[fresh k := R]> (rights k)) k))))))).
Proof.
  intros I HG HT Ho ER. destruct (i_fresh _ _ I (fresh k) (le_n _)) as (Hrf & _).
  rewrite ER. apply inv_add_new; try done; [lia|..].
  - eapply agree_ext; [apply (i_ports _ _ I)|done|]. intros [x|x]; [|done]. cbn. by apply view_put_new.
  - apply collects_new; [apply I|done|done].
  - by eapply new_mem.
  - by apply ports_like_refl.
  - apply shareds_like_fresh; [done|lia].
Qed.

(** [create_for_group] of rights to memory objects *)
Lemma create_mem_ok b k o g perm l G :
  inv b k -> mem_objects k !! o = Some l -> groups k !! g = Some G ->
  runs (create_mem o g perm) k (fun res k' => inv b k' /\
    match res with
    | Error e _ => unchanged k k' /\ (e = ENOMEM \/ e = ESRCH /\ tasks G = ∅)
    | Success i => i = g_current_right_id G + 1 /\ tasks G <> ∅
        /\ rights k' = <[fresh k := Right MemObject g i true false false false false None 0 None (Some o) (Z.land perm PERM_ALL)]> (rights k)
        /\ group_at (groups k') (g, i) = Some (fresh k)
    end).
Proof.
  intros I Ho HG. unfold create_mem. apply runs_alloc. intros ok. pose proof (fun n => inv_alloc b k n I) as I1.
  destruct ok; cbn [negb]; cycle 1. { apply runs_ret. split; [done|]. split; [by eexists|]. auto. }
  eapply runs_get_mem_object; [exact Ho|]. eapply runs_get_group; [exact HG|].
  case_bool_decide as HT. { apply runs_ret. split; [done|]. split; [by eexists|]. auto. }
  eapply runs_new_group_id; [exact HG|]. do 2 (eapply runs_step; [done|]). cbn [fresh set_groups set_allocations].
  set (R := Right MemObject _ _ _ _ _ _ _ _ _ _ _ _). destruct (i_fresh _ _ I (fresh k) (le_n _)) as (Hrf & _).
  apply runs_push_back; [by eapply (new_mem b k o l (fresh k) R)|]. eapply runs_step; [done|].
  eapply runs_group_insert; [cbn; apply lookup_insert_eq|by apply (group_id_free b k g G I)|].
  apply runs_ret. split; [|split_and!; try done; apply group_at_new]. by apply (inv_add_mem b k g G o l R).
Qed.

(** The memory object of a right that is alive is there. *)
Lemma mem_right_object b k r R : inv b k -> rights k !! r = Some R -> alive R = true -> rtype R = MemObject ->
  exists o l, mem_object R = Some o /\ mem_objects k !! o = Some l.
Proof.
  intros I HR Ha Ht. pose proof (proj1 (i_right _ _ I r R HR) Ha) as Hok. rewrite Ht in Hok.
  destruct (mem_object R) as [o|] eqn:Eo; [|done]. exists o.
  assert (Hin : r ∈ mem_rights (mem_objects k) o).
  { apply (i_mem _ _ I). rewrite (view_is _ _ _ _ HR). unfold mapping. by rewrite Ha, Ht. }
  unfold mem_rights in Hin. destruct (mem_objects k !! o) as [l|]; [by exists l|by apply elem_of_nil in Hin].
Qed.

(** [MemObjectRight::duplicate] keeps the permissions of the right. *)
Lemma duplicate_mem_ok b k r g R G :
  inv b k -> rights k !! r = Some R -> rtype R = MemObject -> groups k !! g = Some G ->
  runs (duplicate_mem r g) k (fun res k' => inv b k' /\
    match res with
    | Error e _ => unchanged k k' /\ (e = ENOMEM \/ e = ENOENT /\ alive R && of_group R g = false \/ e = ESRCH /\ tasks G = ∅)
    | Success i => i = g_current_right_id G + 1 /\ alive R && of_group R g = true
        /\ rights k' = <[fresh k := Right MemObject g i true false false false false None 0 None (mem_object R) (permission_mask R)]> (rights k)
        /\ group_at (groups k') (g, i) = Some (fresh k)
    end).
Proof.
  intros I HR Hty HG. unfold duplicate_mem. apply runs_alloc. intros ok. pose proof (fun n => inv_alloc b k n I) as I1.
  destruct ok; cbn [negb]; cycle 1. { apply runs_ret. split; [done|]. split; [by eexists|]. auto. }
  eapply runs_get_right; [exact HR|]. destruct (alive R && of_group R g) eqn:Hag; cbn [negb]; cycle 1.
  { apply runs_ret. split; [done|]. split; [by eexists|]. auto. }
  apply andb_true_iff in Hag as [Ha Hg].
  destruct (mem_right_object b k r R I HR Ha Hty) as (o & l & Hmo & Ho). rewrite Hmo. eapply runs_from; [done|].
  eapply runs_get_mem_object; [exact Ho|]. eapply runs_get_group; [exact HG|].
  case_bool_decide as HT. { apply runs_ret. split; [done|]. split; [by eexists|]. auto. }
  eapply runs_new_group_id; [exact HG|]. do 2 (eapply runs_step; [done|]). cbn [fresh set_groups set_allocations].
  set (N := Right MemObject _ _ _ _ _ _ _ _ _ _ _ _). destruct (i_fresh _ _ I (fresh k) (le_n _)) as (Hrf & _).
  apply runs_push_back; [by eapply (new_mem b k o l (fresh k) N)|]. eapply runs_step; [done|].
  eapply runs_group_insert; [cbn; apply lookup_insert_eq|by apply (group_id_free b k g G I)|].
  apply runs_ret. split; [|split_and!; try done; apply group_at_new]. by apply (inv_add_mem b k g G o l N).
Qed.

(** The shared structure of a right that is alive is alive, and so is its port. *)
Lemma many_right_shared b k r R :
  inv b k -> b_shared b = None -> rights k !! r = Some R -> alive R = true -> rtype R = SendMany ->
  exists s Sh p, shared R = Some s /\ shareds k !! s = Some Sh /\ s_alive Sh = true /\ s_parent Sh = Some p
    /\ port_at (ports k) (p, s_right_parent_id Sh) = Some (RShared s).
Proof.
  intros I Hb HR Ha Ht. destruct (sharing_at b k r R I HR Ha Ht) as (s & Sh & Es & E & Hin & _).
  pose proof (i_shared _ _ I s Sh E) as HI. destruct (s_alive Sh) eqn:Hs.
  - destruct HI as (Hp & _). destruct (s_parent Sh) as [p|] eqn:Ep; [|done]. exists s, Sh, p. split_and!; try done.
    apply (i_ports _ _ I). cbn. rewrite (view_is _ _ _ _ E). unfold s_registered. by rewrite Hs, Ep.
  - rewrite Hb in HI. destruct HI as [?|HI]; [done|]. rewrite HI in Hin. by apply elem_of_nil in Hin.
Qed.

(** A port with something registered is alive. *)
Lemma registered_alive b k i x : inv b k -> b_port b = None -> port_at (ports k) i = Some x ->
  exists P, ports k !! i.1 = Some P /\ p_alive P = true /\ 0 < i.2 <= p_current_right_id P.
Proof.
  intros I Hb Hx. unfold port_at in Hx. destruct (ports k !! i.1) as [P|] eqn:HP; [|done]. exists P. split; [done|].
  cbn in Hx. destruct (i_port _ _ I _ P HP) as (_ & Hid & Hal). split; [|apply Hid; by eexists].
  destruct (p_alive P); [done|]. rewrite Hal in Hx; [by rewrite lookup_empty in Hx|done|by rewrite Hb].
Qed.

(** One more right of a shared structure *)
Section PushShared.
Context (b : busy) (k : kernel) (s : nat) (Sh : shared_right) (r : nat) (R : right) (n : nat).
Context (I : inv b k) (E : shareds k !! s = Some Sh) (Hs : s_alive Sh = true) (Hr : rights k !! r = None).
Context (Hn : (fresh k <= n)%nat).
Context (Ha : alive R = true) (Ht : rtype R = SendMany) (Hsh : shared R = Some s) (Hnp : notification_port R = false).
Let rs := <[r := R]> (rights k).
Let ss := <[s := set_send_many_rights (send_many_rights Sh ++ [r]) Sh]> (shareds k).

Lemma push_shared_index : agree (port_at (ports k)) (index_of rs ss).
Proof.
  eapply agree_ext; [apply (i_ports _ _ I)|done|]. intros [x|x]; cbn.
  - apply view_put_new; [done|]. unfold registered, watched. by rewrite Ha, Ht, Hnp.
  - eapply view_put_same; [exact E|done].
Qed.

Lemma push_shared_new : r ∉ send_many_rights Sh.
Proof.
  intros Hin. destruct (sender_alive b k s r I) as (X & HX & _); [|congruence]. unfold senders. by rewrite E.
Qed.

Lemma push_shared_senders : collects (senders ss) (view sharing rs).
Proof.
  eapply (collects_ins _ _ _ _ s r); [apply (i_senders _ _ I)|..].
  - unfold view. by rewrite Hr.
  - intros y. unfold senders, ss. rewrite lookup_insert_eq, E. cbn. by rewrite elem_of_app, list_elem_of_singleton.
  - intros j y Hj. unfold senders, ss. by rewrite lookup_insert_ne.
  - unfold rs. rewrite view_put_eq. unfold sharing. by rewrite Ha, Ht, Hsh.
  - intros y Hy. by apply view_put_ne.
Qed.

Lemma push_shared_like : shareds_like b (set_fresh n k) ss.
Proof.
  split; cbn.
  - unfold ss. put_all; [apply I|]. cbn. rewrite Hs. pose proof (i_shared _ _ I s Sh E) as HI. rewrite Hs in HI.
    split_and!; try tauto. by destruct (send_many_rights Sh).
  - intros x X. unfold ss. destruct (decide (x = s)) as [->|Hne].
    + rewrite lookup_insert_eq, E. split; intros [[= <-] ?]; cbn in *; congruence.
    + by rewrite lookup_insert_ne.
  - intros a Hle. eapply put_none; [exact E|]. apply (i_fresh _ _ I). lia.
Qed.
End PushShared.

(** [SendManyRight::duplicate]: the new right shares the structure of the old one. *)
Lemma duplicate_many_ok b k r g R G :
  inv b k -> b_shared b = None -> b_port b = None -> rights k !! r = Some R -> alive R = true -> rtype R = SendMany ->
  groups k !! g = Some G ->
  runs (duplicate_many r g) k (fun res k' => inv b k' /\
    match res with
    | Error e _ => unchanged k k' /\ (e = ENOMEM \/ e = ENOENT /\ of_group R g = false \/ e = ESRCH /\ tasks G = ∅)
    | Success i => i = g_current_right_id G + 1 /\ of_group R g = true
        /\ rights k' = <[fresh k := Right SendMany g i true false false false false None 0 (shared R) None 0]> (rights k)
        /\ group_at (groups k') (g, i) = Some (fresh k)
    end).
Proof.
  intros I Hb Hbp HR Ha Hty HG. unfold duplicate_many. apply runs_alloc. intros ok. pose proof (fun n => inv_alloc b k n I) as I1.
  destruct ok; cbn [negb]; cycle 1. { apply runs_ret. split; [done|]. split; [by eexists|]. auto. }
  destruct (many_right_shared b k r R I Hb HR Ha Hty) as (s & Sh & p & Es & E & Hs & Ep & Hat).
  destruct (registered_alive b k _ _ I Hbp Hat) as (P & HP & HPa & _).
  eapply runs_get_right; [exact HR|]. rewrite Es, Ha. eapply runs_from; [done|]. eapply runs_get_shared; [exact E|].
  eapply runs_from; [done|]. rewrite Hs. cbn [andb]. destruct (of_group R g) eqn:Hg; cbn [negb]; cycle 1.
  { apply runs_ret. split; [done|]. split; [by eexists|]. auto. }
  eapply runs_get_port; [exact HP|]. eapply runs_get_group; [exact HG|]. rewrite HPa. cbn [negb].
  case_bool_decide as HT. { apply runs_ret. split; [done|]. split; [by eexists|]. auto. }
  eapply runs_step; [done|]. cbn [fresh set_allocations]. destruct (i_fresh _ _ I (fresh k) (le_n _)) as (Hrf & _).
  apply runs_push_back; [by apply (push_shared_new b k s)|]. eapply runs_step; [done|].
  eapply runs_new_group_id; [exact HG|]. eapply runs_step; [done|]. set (N := Right SendMany _ _ _ _ _ _ _ _ _ _ _ _).
  eapply runs_group_insert; [cbn; apply lookup_insert_eq|by apply (group_id_free b k g G I)|].
  apply runs_ret. split; [|split_and!; try done; apply group_at_new].
  apply (inv_add_new b k g G N (<[s := set_send_many_rights (send_many_rights Sh ++ [fresh k]) Sh]> (shareds k))
           (ports k) (mem_objects k) (S (fresh k)) (S (allocations k))); try done; [lia|..].
  - by apply (push_shared_index b).
  - by apply (push_shared_senders b).
  - apply collects_new; [apply I|done|done].
  - by apply ports_like_refl.
  - apply (push_shared_like b k s Sh (fresh k) N); auto.
Qed.

(** The right that [duplicate] adds. *)
Definition duplicate_of (R : right) (g : nat) (id : Z) : right :=
  match rtype R with
  | SendMany => Right SendMany g id true false false false false None 0 (shared R) None 0
  | _ => Right (rtype R) g id true false false false false None 0 None (mem_object R) (permission_mask R)
  end.

(** The virtual [duplicate], of a right that is alive *)
Lemma duplicate_ok b k r g R G :
  inv b k -> b_shared b = None -> b_port b = None -> rights k !! r = Some R -> alive R = true -> groups k !! g = Some G ->
  runs (duplicate r g) k (fun res k' => inv b k' /\
    match res with
    | Error e _ => unchanged k k' /\ (e = ENOMEM \/ e = EPERM /\ rtype R = SendOnce
        \/ e = ENOENT /\ of_group R g = false \/ e = ESRCH /\ tasks G = ∅)
    | Success i => i = g_current_right_id G + 1 /\ of_group R g = true /\ rtype R <> SendOnce
        /\ rights k' = <[fresh k := duplicate_of R g i]> (rights k) /\ group_at (groups k') (g, i) = Some (fresh k)
    end).
Proof.
  intros I Hb Hbp HR Ha HG. unfold duplicate. eapply runs_get_right; [exact HR|]. unfold duplicate_of.
  destruct (rtype R) eqn:Ht.
  - apply runs_ret. split; [done|]. split; [exists (allocations k); by destruct k|]. auto.
  - eapply runs_mono; [by eapply duplicate_many_ok|]. intros [e a|i] k' [I' H]; (split; [done|]); cbn in H; [tauto|].
    destruct H as (-> & Hg & Hr & Hat). by split_and!.
  - eapply runs_mono; [by eapply duplicate_mem_ok|]. rewrite Ha. intros [e a|i] k' [I' H]; (split; [done|]); cbn in H; [tauto|].
    destruct H as (-> & Hg & Hr & Hat). by split_and!.
Qed.

(** ** Moving a right *)

Lemma agree_move {A B} `{EqDecision A, EqDecision B} (tab tab' : A -> option B) v v' i j x :
  agree tab v -> v x = Some i -> tab j = None -> tab' i = None -> tab' j = Some x ->
  (forall l, l <> i -> l <> j -> tab' l = tab l) -> v' x = Some j -> (forall y, y <> x -> v' y = v y) -> agree tab' v'.
Proof.
  intros H Hv Hj Hi' Hj' Hl Hv' Hy.
  set (t := fun l => if decide (l = i) then None else tab l). set (w := fun y => if decide (y = x) then None else v y).
  assert (Ht : agree t w).
  { apply (agree_del tab t v w i x); unfold t, w; try done; [by rewrite decide_True|..|by rewrite decide_True|];
      intros ? ?; by rewrite decide_False. }
  assert (Hij : j <> i) by congruence.
  apply (agree_ins t tab' w v' j x); unfold t, w; try done.
  - by rewrite decide_True.
  - by rewrite decide_False.
  - intros l Hlj. destruct (decide (l = i)) as [->|]; auto.
  - intros y Hyx. rewrite decide_False by done. auto.
Qed.

Section Move.
Context (b : busy) (k : kernel) (r : nat) (R R' : right).
Context (ps : gmap nat port) (gs : gmap nat task_group) (ms : gmap nat message).
Let rs := <[r := R']> (rights k).
Let k' := set_messages ms (set_groups gs (set_ports ps (set_rights rs k))).
Let b' := taking b (if of_message R' then [r] else []).

Context (I : inv b k) (HR : rights k !! r = Some R) (Ha : alive R = true) (Hb : r ∉ b_rights b).
Context (Ha' : alive R' = true) (Hs' : sent R' = false) (Hok : right_ok R').
Context (Ht : rtype R' = rtype R) (Hsh : shared R' = shared R) (Hmo : mem_object R' = mem_object R).

(** A right that is alive is held by another table, or the running operation takes it;
    no message has it afterwards. *)
Lemma inv_transfer :
  agree (group_at gs) (view in_table rs) -> agree (port_at ps) (index_of rs (shareds k)) ->
  ports_like b k ps -> groups_like b k gs ->
  (forall m, is_Some (ms !! m) <-> is_Some (messages k !! m)) -> (forall m, NoDup (slots ms m)) ->
  (forall m x, x ∈ slots ms m <-> x ∈ slots (messages k) m /\ x <> r) -> inv b' k'.
Proof.
  intros Hg Hp Lp Lg Hm1 Hm2 Hm3. assert (Hq := l_queue _ _ _ Lp). assert (Hs := not_sent b k r R I HR Ha).
  assert (Hin : forall x, x <> r -> x ∈ b_rights b' <-> x ∈ b_rights b).
  { intros x Hx. cbn. destruct (of_message R'); set_solver. }
  unfold k'. split; cbn; keep I; try done.
  - unfold rs. same_view I HR. unfold sharing. by rewrite Ha, Ha', Ht, Hsh.
  - unfold rs. same_view I HR. unfold mapping. by rewrite Ha, Ha', Ht, Hmo.
  - apply (collects_ext (fun p => notes (queue (ports k) p)) _ (view notifying (rights k))); [apply I| |].
    + intros i x. by rewrite Hq.
    + intros x. eapply view_put_same; [exact HR|]. unfold notifying. by rewrite Hs, Hs'.
  - intros m. rewrite Hm1. setoid_rewrite Hq. apply I.
  - intros m p p'. rewrite !Hq. apply (i_one_queue _ _ I).
  - intros s p. rewrite Hq. apply (i_shared_note _ _ I).
  - intros p. rewrite Hq. apply (i_queue _ _ I).
  - unfold rs. put_all; [apply I|done].
  - intros m x Hx. apply Hm3 in Hx as [Hx Hne]. unfold rs. rewrite lookup_insert_ne by done. by apply (i_slots _ _ I).
  - intros x X HX Hax Hmx. unfold rs in HX. destruct (decide (x = r)) as [->|Hne].
    + rewrite lookup_insert_eq in HX. injection HX as <-. right. rewrite Hmx. by left.
    + rewrite lookup_insert_ne in HX by done. rewrite Hm3.
      destruct (i_carried _ _ I x X HX Hax Hmx) as [?|?]; [by left|right]. by apply Hin.
  - destruct (i_busy _ _ I) as [Hnd Hbx]. split.
    + destruct (of_message R'); [|done]. by apply NoDup_cons.
    + intros x Hx. unfold rs. destruct (decide (x = r)) as [->|Hne].
      * rewrite lookup_insert_eq. split; [|intros m; rewrite Hm3; tauto]. exists R'. split; [done|]. cbn in Hx.
        by destruct (of_message R').
      * rewrite lookup_insert_ne by done. apply Hin, Hbx in Hx as [Hex Hsl]; [|done]. split; [done|]. intros m.
        rewrite Hm3. intros [Hx _]. by apply (Hsl m).
  - apply (l_port_ok _ _ _ Lp).
  - apply (l_group_ok _ _ _ Lg).
  - eapply agree_ext; [apply (i_global_ports _ _ I)|done|apply (l_port_no _ _ _ Lp)].
  - eapply agree_ext; [apply (i_global_groups _ _ I)|done|apply (l_group_no _ _ _ Lg)].
  - intros x. rewrite (i_dead_right _ _ I x). unfold rs. destruct (decide (x = r)) as [->|Hne].
    + rewrite lookup_insert_eq, HR. split; intros (X & [= <-] & ? & _); congruence.
    + rewrite lookup_insert_ne by done. unfold kept. cbn [messages set_messages]. pose proof (Hin x Hne) as Hinx. setoid_rewrite Hinx. setoid_rewrite Hm3. naive_solver.
  - intros s. setoid_rewrite Hq. apply I.
  - intros p. rewrite (i_dead_port _ _ I p). symmetry. apply (l_dead_port _ _ _ Lp).
  - intros g. rewrite (i_dead_group _ _ I g). symmetry. apply (l_dead_group _ _ _ Lg).
  - intros a Hf. pose proof (i_fresh _ _ I a Hf). split_and!; try tauto.
    + eapply put_none; [exact HR|tauto].
    + destruct (ms !! a) eqn:E; [|done]. destruct (proj1 (Hm1 a)) as [? ?]; [by eexists|]. naive_solver.
    + by apply (l_port_fresh _ _ _ Lp).
    + by apply (l_group_fresh _ _ _ Lg).
  - by apply (like_notified b k).
Qed.

(** The messages stay as they are if the right is not one of theirs. *)
Lemma inv_move_held :
  of_message R = false -> of_message R' = false -> ms = messages k ->
  agree (group_at gs) (view in_table rs) -> agree (port_at ps) (index_of rs (shareds k)) ->
  ports_like b k ps -> groups_like b k gs -> inv b k'.
Proof.
  intros Hm Hm' E Hg Hp Lp Lg. cut (inv b' k'); [unfold b'; rewrite Hm'; by destruct b|]. apply inv_transfer; try done; rewrite E; try done.
  - apply (i_slots_once _ _ I).
  - intros m x. split; [|tauto]. intros Hx. split; [done|]. intros ->.
    destruct (i_slots _ _ I m r Hx) as (X & EX & Hmx & _). congruence.
Qed.
End Move.

Lemma runs_group_erase {A} g G id r (f : unit -> K A) k Q : groups k !! g = Some G -> g_rights G !! id = Some r ->
  runs (f tt) (set_groups (<[g := set_g_rights (delete id (g_rights G)) G]> (groups k)) k) Q ->
  runs (group_erase g id r ≫= f) k Q.
Proof.
  intros E Hid. apply runs_step. unfold group_erase. erewrite kbind by (by apply get_group_run).
  unfold tree_erase. by rewrite decide_True.
Qed.

Lemma groups_like_erase b k gs g G id :
  groups_like b k gs -> gs !! g = Some G -> groups_like b k (<[g := set_g_rights (delete id (g_rights G)) G]> gs).
Proof.
  intros L HG. apply (groups_like_put b k gs g G); cbn; try done.
  - intros x. rewrite lookup_delete_is_Some. tauto.
  - intros _ ->. apply delete_empty.
Qed.

Lemma groups_like_insert b k gs g G id r :
  groups_like b k gs -> gs !! g = Some G -> tasks G <> ∅ -> 0 < id <= g_current_right_id G ->
  groups_like b k (<[g := set_g_rights (<[id := r]> (g_rights G)) G]> gs).
Proof.
  intros L HG HT Hid. apply (groups_like_put b k gs g G); cbn; try done.
  intros x. rewrite lookup_insert_is_Some. intros [<-|[_ ?]]; auto.
Qed.

Lemma group_at_del gs g G id j : gs !! g = Some G ->
  group_at (<[g := set_g_rights (delete id (g_rights G)) G]> gs) j = if decide (j = (g, id)) then None else group_at gs j.
Proof.
  intros E. unfold group_at. destruct j as [g' id']. cbn. destruct (decide (g' = g)) as [->|Hne].
  - rewrite lookup_insert_eq, E. cbn. destruct (decide (id' = id)) as [->|Hne].
    + by rewrite lookup_delete_eq, decide_True.
    + rewrite lookup_delete_ne, decide_False by congruence. done.
  - rewrite lookup_insert_ne, decide_False by congruence. done.
Qed.

(** A right of a group that is alive is in its table. *)
Lemma held_in_table b k r R g : inv b k -> rights k !! r = Some R -> alive R = true -> of_group R g = true ->
  of_message R = false /\ holder R = g /\ exists G, groups k !! g = Some G /\ g_rights G !! right_sender_id R = Some r.
Proof.
  intros I HR Ha Hg. unfold of_group in Hg. apply andb_true_iff in Hg as [Hm Hg]. apply negb_true_iff in Hm.
  apply Nat.eqb_eq in Hg as <-. split; [done|]. split; [done|].
  assert (Hat : group_at (groups k) (holder R, right_sender_id R) = Some r).
  { apply (i_groups _ _ I). rewrite (view_is _ _ _ _ HR). unfold in_table. by rewrite Ha, Hm. }
  unfold group_at in Hat. cbn in Hat. destruct (groups k !! holder R) as [G|]; [by exists G|done].
Qed.

Definition moved (R : right) (g : nat) (id : Z) : right := set_right_sender_id id (set_holder g R).

(** The tables after a right has gone from one group to another *)
Lemma transfer_tables b k r R source to SG T :
  inv b k -> rights k !! r = Some R -> alive R = true -> of_message R = false -> holder R = source ->
  groups k !! source = Some SG -> groups k !! to = Some T -> tasks T <> ∅ -> source <> to ->
  let id := g_current_right_id T + 1 in
  let gs := <[to := set_g_rights (<[id := r]> (g_rights T)) (bump_group T)]>
              (<[source := set_g_rights (delete (right_sender_id R) (g_rights SG)) SG]> (<[to := bump_group T]> (groups k))) in
  agree (group_at gs) (view in_table (<[r := moved R to id]> (rights k))) /\ groups_like b k gs
  /\ (forall j, group_at gs j = if decide (j = (to, id)) then Some r
                                else if decide (j = (source, right_sender_id R)) then None else group_at (groups k) j).
Proof.
  intros I HR Ha Hm Hh HS HT Hne Hst id gs. destruct (group_id_free b k to T I HT) as [Hfree Hpos].
  assert (Hat : forall j, group_at gs j = if decide (j = (to, id)) then Some r
     else if decide (j = (source, right_sender_id R)) then None else group_at (groups k) j).
  { intros j. unfold gs. etrans; [apply (group_at_ins _ to (bump_group T)); rewrite lookup_insert_ne by done; apply lookup_insert_eq|].
    destruct (decide (j = (to, id))); [done|]. rewrite group_at_del by (by rewrite lookup_insert_ne).
    destruct (decide (j = (source, right_sender_id R))); [done|]. by apply (group_at_put _ _ T). }
  split; [|split; [|done]].
  - apply (agree_move (group_at (groups k)) _ (view in_table (rights k)) _ (source, right_sender_id R) (to, id) r);
      [apply I|..].
    + rewrite (view_is _ _ _ _ HR). unfold in_table. by rewrite Ha, Hm, Hh.
    + unfold group_at. cbn. by rewrite HT.
    + rewrite Hat, decide_False, decide_True by congruence. done.
    + by rewrite Hat, decide_True.
    + intros l H1 H2. by rewrite Hat, !decide_False.
    + rewrite view_put_eq. unfold in_table. cbn. by rewrite Ha, Hm.
    + intros y Hy. by apply view_put_ne.
  - apply (groups_like_insert b k _ to (bump_group T)); [|rewrite lookup_insert_ne by done; apply lookup_insert_eq|done|cbn; lia].
    apply groups_like_erase; [|by rewrite lookup_insert_ne].
    apply (groups_like_put b k _ to T); cbn; auto using groups_like_refl. lia.
Qed.

(** [atomic_transfer_to_group] *)
Lemma transfer_ok b k r source to R T :
  inv b k -> rights k !! r = Some R -> groups k !! to = Some T -> r ∉ b_rights b ->
  runs (atomic_transfer_to_group r source to) k (fun res k' => inv b k' /\
    match res with
    | Error e _ => k' = k /\ (e = ENOENT /\ alive R && of_group R source = false \/ e = ESRCH /\ tasks T = ∅)
    | Success i => alive R && of_group R source = true
        /\ if decide (source = to) then i = right_sender_id R /\ k' = k
           else i = g_current_right_id T + 1 /\ rights k' = <[r := moved R to i]> (rights k)
             /\ group_at (groups k') (to, i) = Some r /\ group_at (groups k') (source, right_sender_id R) = None
             /\ right0_id k' = right0_id k /\ kernel_tasks k' = kernel_tasks k
    end).
Proof.
  intros I HR HT Hb. unfold atomic_transfer_to_group. eapply runs_get_right; [exact HR|].
  destruct (alive R) eqn:Ha; cbn [negb]; cycle 1. { apply runs_ret. auto. }
  destruct (of_group R source) eqn:Hg; cbn [negb]; cycle 1. { apply runs_ret. auto. }
  destruct (held_in_table b k r R source I HR Ha Hg) as (Hm & Hh & SG & HS & Hsid).
  destruct (Nat.eqb_spec source to) as [Heq|Hne]. { apply runs_ret. rewrite decide_True by done. auto. }
  eapply runs_get_group; [exact HT|]. case_bool_decide as He. { apply runs_ret. auto. }
  eapply runs_new_group_id; [exact HT|].
  eapply runs_group_erase; [cbn; rewrite lookup_insert_ne by done; exact HS|exact Hsid|].
  eapply runs_step; [done|]. eapply runs_group_insert.
  { cbn. rewrite lookup_insert_ne by done. apply lookup_insert_eq. }
  { by apply (group_id_free b k to T I). }
  apply runs_ret. rewrite decide_False by done.
  destruct (transfer_tables b k r R source to SG T I HR Ha Hm Hh HS HT He Hne) as (Hgt & Lg & Hat). split.
  - match type of Lg with groups_like _ _ ?gs =>
      apply (inv_move_held b k r R (moved R to (g_current_right_id T + 1)) (ports k) gs (messages k) I HR Ha Hb) end; try done.
    + apply (not_sent b k r R I HR Ha).
    + apply (i_right _ _ I r R HR).
    + eapply agree_ext; [apply (i_ports _ _ I)|done|]. intros x. by eapply index_of_put.
    + by apply ports_like_refl.
  - split_and!; try done; cbn.
    + etrans; [apply Hat|by rewrite decide_True].
    + etrans; [apply Hat|]. rewrite decide_False, decide_True by congruence. done.
Qed.

(** ** Watching a right *)

(** The ports when [x] is registered with [p] under the next identifier *)
Definition enter (ps : gmap nat port) (p : nat) (P : port) (x : recieve_right) : gmap nat port :=
  <[p := set_p_rights (<[p_current_right_id P + 1 := x]> (p_rights P)) (bump_port P)]> (<[p := bump_port P]> ps).

Lemma port_at_bump b k p P j : inv b k -> ports k !! p = Some P -> forall x,
  port_at (enter (ports k) p P x) j
  = if decide (j = (p, p_current_right_id P + 1)) then Some x else port_at (ports k) j.
Proof.
  intros I HP x. etrans; [apply (port_at_ins _ p (bump_port P)); apply lookup_insert_eq|].
  destruct (decide (j = _)); [done|]. by apply (port_at_put _ _ P).
Qed.

(** A port gets an entry under its next identifier. *)
Lemma ports_like_next b k p P x : inv b k -> ports k !! p = Some P -> p_alive P = true ->
  ports_like b k (enter (ports k) p P x).
Proof.
  intros I HP Ha. destruct (port_id_free b k p P I HP) as [_ Hpos].
  apply (ports_like_put b k _ p (bump_port P)); cbn; try done; [|apply lookup_insert_eq| |congruence].
  - apply (ports_like_put b k _ p P); cbn; auto using ports_like_refl. lia.
  - intros y. rewrite lookup_insert_is_Some. intros [<-|[_ ?]]; [right; lia|by left].
Qed.

Lemma agree_port_next b k p P x v : inv b k -> ports k !! p = Some P ->
  index_of (rights k) (shareds k) x = None -> v x = Some (p, p_current_right_id P + 1) ->
  (forall y, y <> x -> v y = index_of (rights k) (shareds k) y) ->
  agree (port_at (enter (ports k) p P x)) v.
Proof.
  intros I HP Hx Hv Hy. destruct (port_id_free b k p P I HP) as [Hfree _].
  apply (agree_ins (port_at (ports k)) _ (index_of (rights k) (shareds k)) v (p, p_current_right_id P + 1) x); try done.
  - apply I.
  - unfold port_at. cbn. by rewrite HP.
  - by rewrite (port_at_bump b), decide_True.
  - intros j Hj. by rewrite (port_at_bump b), decide_False.
Qed.

(** [atomic_watch]: the port will hear of the death of the right. *)
Lemma atomic_watch_ok b k r p R P :
  inv b k -> rights k !! r = Some R -> rtype R = SendMany -> of_message R = false -> r ∉ b_rights b -> ports k !! p = Some P ->
  runs (atomic_watch r p) k (fun res k' => inv b k' /\
    match res with
    | Error e _ => k' = k /\ (e = ENOENT /\ (alive R = false \/ p_alive P = false) \/ e = EEXIST /\ notification_port R = true)
    | Success i => i = p_current_right_id P + 1 /\ alive R = true /\ notification_port R = false /\ p_alive P = true
        /\ rights k' = <[r := set_parent (Some p) (set_right_parent_id i (set_notification_port true R))]> (rights k)
        /\ port_at (ports k') (p, i) = Some (RRight r)
    end).
Proof.
  intros I HR Ht Hm Hb HP. unfold atomic_watch. eapply runs_get_right; [exact HR|].
  destruct (alive R) eqn:Ha; cbn [negb]; cycle 1. { apply runs_ret. auto 8. }
  destruct (notification_port R) eqn:Hn. { apply runs_ret. auto 8. }
  eapply runs_get_port; [exact HP|]. destruct (p_alive P) eqn:Hpa; cbn [negb]; cycle 1. { apply runs_ret. auto 8. }
  destruct (port_id_free b k p P I HP) as [Hfree _].
  eapply runs_new_right_id; [exact HP|]. eapply runs_step; [done|].
  eapply runs_port_insert; [cbn; apply lookup_insert_eq|exact Hfree|]. apply runs_ret.
  split; [|split_and!; try done; apply port_at_new].
  set (R' := set_parent _ _).
  set (ps := enter (ports k) p P (RRight r)).
  change (inv b (set_messages (messages k) (set_groups (groups k) (set_ports ps (set_rights (<[r := R']> (rights k)) k))))).
  apply (inv_move_held b k r R R' ps (groups k) (messages k) I HR Ha Hb); try done.
  - apply (not_sent b k r R I HR Ha).
  - destruct (i_right _ _ I r R HR) as (H1 & _ & _). pose proof (not_sent b k r R I HR Ha) as Hs.
    unfold right_ok, R'. cbn. rewrite Ht in *. rewrite Hs. split_and!; try done.
  - eapply agree_ext; [apply (i_groups _ _ I)|done|]. intros x. by eapply view_put_same.
  - apply (agree_port_next b k p P (RRight r)); try done.
    + cbn. rewrite (view_is _ _ _ _ HR). unfold registered, watched. by rewrite Ha, Ht, Hn.
    + cbn. rewrite view_put_eq. unfold registered, watched. cbn. by rewrite Ha, Ht.
    + intros [y|y] Hy; [|done]. cbn. apply view_put_ne. congruence.
  - by apply ports_like_next.
  - by apply groups_like_refl.
Qed.

(** A right that is alive with another value of [right_0] *)
Lemma inv_right_0 b k r R v :
  inv b k -> rights k !! r = Some R -> alive R = true -> of_message R = false -> r ∉ b_rights b ->
  inv b (set_rights (<[r := set_right_0 v R]> (rights k)) k).
Proof.
  intros I HR Ha Hm Hb.
  apply (inv_move_held b k r R (set_right_0 v R) (ports k) (groups k) (messages k) I HR Ha Hb); try done.
  - apply (not_sent b k r R I HR Ha).
  - apply (i_right _ _ I r R HR).
  - eapply agree_ext; [apply (i_groups _ _ I)|done|]. intros x. by eapply view_put_same.
  - eapply agree_ext; [apply (i_ports _ _ I)|done|]. intros x. by eapply index_of_put.
  - by apply ports_like_refl.
  - by apply groups_like_refl.
Qed.

Lemma inv_right0_id b k id : inv b k -> inv b (set_right0_id id k).
Proof. intros I. split; cbn; keep I. Qed.

(** [set_right0]: at most one right that is alive answers to identifier 0. *)
Lemma set_right0_ok b k r g R KT :
  inv b k -> rights k !! r = Some R -> groups k !! kernel_tasks k = Some KT -> r ∉ b_rights b ->
  runs (set_right0 r g) k (fun res k' => inv b k' /\
    (res = EEXIST /\ k' = k /\ is_Some (g_rights KT !! right0_id k)
     \/ res = ENOENT /\ k' = k /\ alive R && of_group R g = false
     \/ res = ESRCH /\ k' = k /\ tasks KT = ∅
     \/ res = 0 /\ g_rights KT !! right0_id k = None /\ group_at (groups k') (kernel_tasks k', right0_id k') = Some r
        /\ exists R', rights k' !! r = Some R' /\ right_0 R' = true)).
Proof.
  intros I HR HKT Hb. unfold set_right0. eapply runs_step; [done|]. eapply runs_step; [done|].
  eapply runs_step; [unfold group_right; erewrite kbind by (by apply get_group_run); done|].
  destruct (g_rights KT !! right0_id k) as [c|] eqn:Hc.
  - destruct (held_alive b k (kernel_tasks k) (right0_id k) c I) as (C & HC & HCa & _).
    { unfold group_at. cbn. by rewrite HKT. }
    eapply runs_step; [erewrite kbind by (by apply get_right_run); done|]. rewrite HCa. apply runs_ret. split; [done|].
    left. split_and!; try done.
  - eapply runs_step; [done|]. eapply runs_bind; [by eapply transfer_ok|]. cbn beta.
    intros [e a|id] k1 [I1 Hk1].
    { apply runs_ret. split; [done|]. destruct Hk1 as [-> [[-> ?]|[-> ?]]]; auto 6. }
    destruct Hk1 as [Hag Hk1].
    assert (HR1 : exists R1, rights k1 !! r = Some R1 /\ alive R1 = true /\ of_message R1 = false
      /\ group_at (groups k1) (kernel_tasks k1, id) = Some r).
    { apply andb_true_iff in Hag as [Ha Hg]. destruct (held_in_table b k r R g I HR Ha Hg) as (Hm & _ & SG & HS & Hsid).
      destruct (decide (g = kernel_tasks k)) as [->|Hne].
      - destruct Hk1 as [-> ->]. exists R. split_and!; try done. unfold group_at. cbn. by rewrite HS.
      - destruct Hk1 as (_ & Hr1 & Hat & _ & _ & ->). exists (moved R (kernel_tasks k) id). rewrite Hr1.
        split; [apply lookup_insert_eq|done]. }
    destruct HR1 as (R1 & HR1 & Ha1 & Hm1 & Hat1).
    eapply runs_step; [by apply upd_right_run|]. eapply runs_step; [done|]. apply runs_ret.
    split; [by apply inv_right0_id, inv_right_0|]. do 3 right. split_and!; try done.
    exists (set_right_0 true R1). split; [cbn; apply lookup_insert_eq|done].
Qed.

(** ** New ports and groups *)

Section NewPort.
Context (b : busy) (k : kernel) (task : Z) (al : nat).
Context (I : inv b k).
Let p := fresh k.
Let no := biggest_port k + 1.
Let P := Port task no true [] 0 ∅ ∅.

Lemma inv_new_port :
  inv b (set_global_ports (<[no := p]> (global_ports k)) (set_ports (<[p := P]> (ports k))
          (set_fresh (S p) (set_allocations al (set_biggest_port no k))))).
Proof.
  destruct (i_fresh _ _ I p (le_n _)) as (_ & _ & _ & Hp & _). destruct (i_numbers _ _ I) as [Hno1 Hno2].
  assert (Hat : forall i, port_at (<[p := P]> (ports k)) i = port_at (ports k) i).
  { intros [x id]. unfold port_at. cbn. destruct (decide (x = p)) as [->|Hne]; [|by rewrite lookup_insert_ne].
    rewrite lookup_insert_eq, Hp. cbn. apply lookup_empty. }
  assert (Hq : forall x, queue (<[p := P]> (ports k)) x = queue (ports k) x).
  { intros x. rewrite queue_put. destruct (decide (x = p)) as [->|]; [|done]. unfold queue. by rewrite Hp. }
  assert (Hfree : global_ports k !! no = None).
  { destruct (global_ports k !! no) eqn:E; [|done]. assert (no <= biggest_port k) by (apply Hno1; by eexists). lia. }
  split; cbn; keep I.
  - eapply agree_ext; [apply (i_ports _ _ I)|apply Hat|done].
  - eapply collects_ext; [apply (i_notes _ _ I)| |done]. intros i x. cbn. by rewrite Hq.
  - intros m. setoid_rewrite Hq. apply I.
  - intros m p1 p2. rewrite !Hq. apply (i_one_queue _ _ I).
  - intros s x. rewrite Hq. apply (i_shared_note _ _ I).
  - intros x. rewrite Hq. apply (i_queue _ _ I).
  - put_all; [apply I|]. cbn. split_and!; try done. intros id. rewrite lookup_empty. by intros [? ?].
  - eapply (agree_ins (fun n => global_ports k !! n)); [apply I|..].
    + unfold view. by rewrite Hp.
    + exact Hfree.
    + apply lookup_insert_eq.
    + intros j Hj. by rewrite lookup_insert_ne.
    + by rewrite view_put_eq.
    + intros y Hy. by apply view_put_ne.
  - split; [|done]. intros n. rewrite lookup_insert_is_Some. intros [<-|[_ Hn]]; [lia|]. apply Hno1 in Hn. lia.
  - intros s. setoid_rewrite Hq. apply I.
  - intros x. rewrite (i_dead_port _ _ I x). destruct (decide (x = p)) as [->|Hne]; [|by rewrite lookup_insert_ne].
    rewrite lookup_insert_eq, Hp. split; [naive_solver|]. intros (X & [= <-] & ? & _). done.
  - intros a Ha. pose proof (i_fresh _ _ I a ltac:(lia)). rewrite lookup_insert_ne by lia. tauto.
  - eapply notified_like; [apply I| |intros g G HG _; by exists G]. intros x X HX Ha.
    destruct (decide (x = p)) as [->|Hne]; [rewrite lookup_insert_eq in HX; injection HX as <-; by left|].
    rewrite lookup_insert_ne in HX by done. right. by exists X.
Qed.
End NewPort.

Section NewGroup.
Context (b : busy) (k : kernel) (T : gset Z).
Context (I : inv b k).
Let g := fresh k.
Let n := next_group_id k.
Let G := TaskGroup n T ∅ 0 ∅.

Lemma group_number_free : global_groups k !! n = None.
Proof.
  destruct (i_numbers _ _ I) as [_ Hno]. destruct (global_groups k !! n) eqn:E; [|done].
  assert (n < n) by (apply Hno; by eexists). lia.
Qed.

Lemma new_group_at i : group_at (<[g := G]> (groups k)) i = group_at (groups k) i.
Proof.
  destruct (i_fresh _ _ I g (le_n _)) as (_ & _ & _ & _ & Hg). destruct i as [x id]. unfold group_at. cbn.
  destruct (decide (x = g)) as [->|Hne]; [|by rewrite lookup_insert_ne]. rewrite lookup_insert_eq, Hg. cbn. apply lookup_empty.
Qed.

Lemma new_group_notified : notified (b_group b) (ports k) (<[g := G]> (groups k)).
Proof.
  destruct (i_fresh _ _ I g (le_n _)) as (_ & _ & _ & _ & Hg).
  eapply notified_like; [apply I|intros p P HP Ha; right; by exists P|]. intros x X HX _. exists X.
  rewrite lookup_insert_ne by congruence. done.
Qed.

(** A group with tasks in the table of groups ... *)
Lemma inv_new_group al : T <> ∅ ->
  inv b (set_next_group_id (n + 1) (set_global_groups (<[n := g]> (global_groups k))
          (set_groups (<[g := G]> (groups k)) (set_fresh (S g) (set_allocations al k))))).
Proof.
  intros HT. destruct (i_fresh _ _ I g (le_n _)) as (_ & _ & _ & _ & Hg). destruct (i_numbers _ _ I) as [Hno1 Hno2].
  split; cbn; keep I.
  - eapply agree_ext; [apply (i_groups _ _ I)|apply new_group_at|done].
  - put_all; [apply I|]. cbn. split_and!; try done. intros id. rewrite lookup_empty. by intros [? ?].
  - eapply (agree_ins (fun m => global_groups k !! m)); [apply I|..].
    + unfold view. by rewrite Hg.
    + exact group_number_free.
    + apply lookup_insert_eq.
    + intros j Hj. by rewrite lookup_insert_ne.
    + rewrite view_put_eq. unfold group_no. by rewrite bool_decide_false.
    + intros y Hy. by apply view_put_ne.
  - split; [done|]. intros m. rewrite lookup_insert_is_Some. intros [<-|[_ Hm]]; [lia|]. apply Hno2 in Hm. lia.
  - intros x. rewrite (i_dead_group _ _ I x). destruct (decide (x = g)) as [->|Hne]; [|by rewrite lookup_insert_ne].
    rewrite lookup_insert_eq, Hg. split; [naive_solver|]. intros (X & [= <-] & ? & _). done.
  - intros a Ha. pose proof (i_fresh _ _ I a ltac:(lia)). rewrite lookup_insert_ne by lia. tauto.
  - apply new_group_notified.
Qed.

(** ... and one without, which RCU has. *)
Lemma inv_lost_group al : T = ∅ -> b_group b = None ->
  inv b (set_garbage (DGroup g :: garbage k) (set_next_group_id (n + 1)
          (set_groups (<[g := G]> (groups k)) (set_fresh (S g) (set_allocations al k))))).
Proof.
  intros HT Hb. destruct (i_fresh _ _ I g (le_n _)) as (_ & _ & _ & _ & Hg). destruct (i_numbers _ _ I) as [Hno1 Hno2].
  assert (Hgar : forall d, d <> DGroup g -> d ∈ DGroup g :: garbage k <-> d ∈ garbage k) by set_solver.
  split; cbn; keep I.
  - eapply agree_ext; [apply (i_groups _ _ I)|apply new_group_at|done].
  - put_all; [apply I|]. cbn. split_and!; try done. intros id. rewrite lookup_empty. by intros [? ?].
  - eapply agree_ext; [apply (i_global_groups _ _ I)|done|]. intros x. apply view_put_new; [done|].
    unfold group_no. by rewrite bool_decide_true.
  - split; [done|]. intros m Hm. apply Hno2 in Hm. unfold n. lia.
  - apply NoDup_cons. split; [|apply I]. rewrite (i_dead_group _ _ I g). intros (X & E & _). congruence.
  - intros x. rewrite Hgar by done. apply I.
  - intros x. rewrite Hgar by done. apply I.
  - intros x. rewrite Hgar by done. apply I.
  - intros x. rewrite Hb. destruct (decide (x = g)) as [->|Hne].
    + rewrite lookup_insert_eq. split; [|by left]. intros _. by exists G.
    + rewrite lookup_insert_ne by done. rewrite Hgar, (i_dead_group _ _ I x), Hb by congruence. done.
  - intros a Ha. pose proof (i_fresh _ _ I a ltac:(lia)). rewrite lookup_insert_ne by lia. tauto.
  - apply new_group_notified.
Qed.
End NewGroup.

Lemma inv_biggest_port b k no : inv b k -> biggest_port k <= no -> inv b (set_biggest_port no k).
Proof.
  intros I Hno. split; cbn; keep I. destruct (i_numbers _ _ I) as [H1 H2]. split; [|done]. intros n Hn. apply H1 in Hn. lia.
Qed.

(** [atomic_create_port], if there is memory: the new port is in the table of ports, but
    there is none for a task that is dying. *)
Lemma atomic_create_port_ok b k task :
  inv b k -> oracle k (allocations k) = true ->
  runs (atomic_create_port task) k (fun res k' => inv b k' /\ groups k' = groups k /\ kernel_tasks k' = kernel_tasks k /\
    match res with
    | None => task ∈ dying k /\ ports k' = ports k
    | Some no => task ∉ dying k /\ no = biggest_port k + 1 /\ global_ports k !! no = None
        /\ global_ports k' !! no = Some (fresh k) /\ ports k' = <[fresh k := Port task no true [] 0 ∅ ∅]> (ports k)
    end).
Proof.
  intros I Hok. pose proof (i_numbers _ _ I) as [Hno _]. unfold atomic_create_port. do 3 (eapply runs_step; [done|]).
  cbn [oracle set_biggest_port allocations]. rewrite Hok. eapply runs_assert; [done|]. eapply runs_step; [done|].
  cbn [dying set_allocations set_biggest_port]. case_bool_decide as Hd.
  { apply runs_ret. split_and!; try done. apply inv_alloc, inv_biggest_port; [done|lia]. }
  do 2 (eapply runs_step; [done|]).
  assert (Hfree : global_ports k !! (biggest_port k + 1) = None).
  { destruct (global_ports k !! _) eqn:E; [|done]. specialize (Hno _ ltac:(by eexists)). lia. }
  eapply runs_step; [unfold register_port, tree_insert; cbn; by rewrite Hfree|]. apply runs_ret.
  split; [by apply inv_new_port|]. split_and!; try done; cbn; apply lookup_insert_eq.
Qed.

(** A group without tasks and rights is destroyed at once. *)
Lemma destroy_new_group_run k g n :
  groups k !! g = Some (TaskGroup n ∅ ∅ 0 ∅) -> global_groups k !! n = Some g ->
  destroy_group g k = Some (tt, set_garbage (DGroup g :: garbage k) (set_global_groups (delete n (global_groups k)) k)).
Proof.
  intros HG Hn. unfold destroy_group. erewrite kbind by (by apply get_group_run). cbn [group_id g_rights].
  erewrite kbind by (unfold unregister_group, tree_erase; by rewrite decide_True). rewrite map_size_empty.
  erewrite kbind by done.
  erewrite kbind by (cbn [destroy_held]; erewrite kbind by (apply get_group_run; exact HG); done). done.
Qed.

(** [create_for_task] *)
Lemma create_for_task_ok b k task :
  inv b k -> b_group b = None ->
  runs (create_for_task task) k (fun res k' => inv b k'
    /\ (groups k' = groups k \/ exists G, groups k' = <[fresh k := G]> (groups k) /\ tasks G ⊆ {[ task ]})
    /\ groups k !! fresh k = None /\ ports k' = ports k /\ kernel_tasks k' = kernel_tasks k /\
    match res with
    | Error e _ => e = ENOMEM
    | Success None => oracle k (allocations k) = true /\ (task ∈ dying k \/ oracle k (S (allocations k)) = false)
    | Success (Some g) => g = fresh k /\ global_groups k !! next_group_id k = None /\ global_groups k' !! next_group_id k = Some g
        /\ groups k' !! g = Some (TaskGroup (next_group_id k) {[ task ]} ∅ 0 ∅)
    end).
Proof.
  intros I Hb. pose proof (group_number_free b k I) as Hfree. unfold create_for_task. destruct (i_fresh _ _ I (fresh k) (le_n _)) as (_ & _ & _ & _ & Hg).
  eapply runs_step; [done|]. destruct (oracle k (allocations k)) eqn:O1; cbn [negb]; cycle 1.
  { apply runs_ret. split; [by apply inv_alloc|]. split_and!; auto. }
  assert (Hnew : forall G, tasks G ⊆ {[ task ]} -> <[fresh k := G]> (groups k) = groups k
    \/ exists G', <[fresh k := G]> (groups k) = <[fresh k := G']> (groups k) /\ tasks G' ⊆ {[ task ]}) by (intros G HG; right; by exists G).
  do 3 (eapply runs_step; [done|]). eapply runs_step; [unfold register_group, tree_insert; cbn; by rewrite Hfree|].
  eapply runs_step; [done|]. cbn [dying set_next_group_id set_global_groups set_groups set_fresh set_allocations].
  case_bool_decide as Hd.
  { eapply runs_step; [done|]. eapply runs_step; [apply destroy_new_group_run; cbn; apply lookup_insert_eq|]. apply runs_ret. cbn.
    rewrite delete_insert_id by exact Hfree. split; [|split_and!; try apply Hnew; auto; set_solver].
    exact (inv_lost_group b k ∅ I (S (allocations k)) eq_refl Hb). }
  eapply runs_step; [done|]. cbn [oracle allocations set_next_group_id set_global_groups set_groups set_fresh set_allocations].
  destruct (oracle k (S (allocations k))) eqn:O2; cbn [negb]; cycle 1.
  { eapply runs_step; [apply destroy_new_group_run; cbn; apply lookup_insert_eq|]. apply runs_ret. cbn.
    rewrite delete_insert_id by exact Hfree. split; [|split_and!; try apply Hnew; auto; set_solver].
    exact (inv_lost_group b k ∅ I (S (S (allocations k))) eq_refl Hb). }
  apply runs_alloc. intros ok. destruct ok; cbn [negb]; cycle 1.
  { eapply runs_step; [apply destroy_new_group_run; cbn; apply lookup_insert_eq|]. apply runs_ret. cbn.
    rewrite delete_insert_id by exact Hfree. split; [|split_and!; try apply Hnew; auto; set_solver].
    exact (inv_lost_group b k ∅ I (S (S (S (allocations k)))) eq_refl Hb). }
  eapply runs_step; [done|]. apply runs_ret. cbn. rewrite insert_insert_eq. split.
  - exact (inv_new_group b k {[ task ]} I (S (S (S (allocations k)))) ltac:(set_solver)).
  - split_and!; try done; [by apply Hnew|apply lookup_insert_eq|apply lookup_insert_eq].
Qed.
