(* ===== verification/RightsSend.v ===== *)
(** * Sending and accepting messages, and reclaiming memory

    The rights of a message leave the table of the sender's group, travel with the
    message and enter the table of the receiver's group.  Between the tables they
    are in the hands of the running operation ([b_rights] of RightsInv.v). *)

From stdpp Require Import base list numbers gmap fin_maps sorting.
From S2P Require Import Prelude Rights RightsInv RightsOps RightsNew.

(** ** Putting a message into a queue *)

Section Post.
Context (bs bp bg : option nat) (k : kernel) (l : list nat) (m : nat) (M : message) (p : nat) (ps : gmap nat port).
Let b := Busy l bs bp bg.
Let ms := <[m := M]> (messages k).
Context (I : inv b k) (Hm : messages k !! m = None) (Hfresh : (m < fresh k)%nat).
Context (Hp : is_Some (ports k !! p)) (Hps : ports_step (ports k) ps (fun _ => False) (only p (GMessage m))).
Context (Hsl : forall x, x ∈ message_slots M <-> x ∈ l) (Hnd : NoDup (message_slots M)).
Context (Hh : forall x R, x ∈ l -> rights k !! x = Some R -> holder R = m).

Lemma post_queue x e : e ∈ queue ps x <-> e ∈ queue (ports k) x \/ x = p /\ e = GMessage m.
Proof.
  destruct (decide (is_Some (ports k !! x))) as [Hx|Hx].
  - rewrite (queue_step _ _ _ _ x Hps Hx), elem_of_app. unfold only. destruct (decide (x = p)) as [->|Hne].
    + rewrite list_elem_of_singleton. naive_solver.
    + rewrite elem_of_nil. naive_solver.
  - apply eq_None_not_Some in Hx. pose proof (Hps x) as H. rewrite Hx in H. rewrite !queue_none by done.
    rewrite elem_of_nil. split; [done|]. intros [?|[-> _]]; [done|]. rewrite Hx in Hp. by destruct Hp.
Qed.

Lemma post_new x : GMessage m ∉ queue (ports k) x.
Proof. intros Hin. assert (is_Some (messages k !! m)) as [? ?]; [apply (i_messages _ _ I); by exists x|congruence]. Qed.

Lemma post_slots m' x : x ∈ slots ms m' <-> m' = m /\ x ∈ l \/ x ∈ slots (messages k) m'.
Proof.
  unfold slots, ms. destruct (decide (m' = m)) as [->|Hne].
  - rewrite lookup_insert_eq, Hm. cbn. rewrite Hsl, elem_of_nil. naive_solver.
  - rewrite lookup_insert_ne by done. naive_solver.
Qed.

Lemma post_nodup x : NoDup (queue ps x).
Proof.
  destruct (decide (is_Some (ports k !! x))) as [Hx|Hx].
  - rewrite (queue_step _ _ _ _ x Hps Hx). apply NoDup_app. split; [apply (i_queue _ _ I)|]. unfold only.
    destruct (decide (x = p)); [|split; [intros ? ? ?%elem_of_nil; done|constructor]].
    split; [|apply NoDup_singleton]. intros y Hy. rewrite list_elem_of_singleton. intros ->. by apply (post_new x).
  - apply eq_None_not_Some in Hx. pose proof (Hps x) as H. rewrite Hx in H. rewrite queue_none by done. constructor.
Qed.

Lemma post_kept x : kept (Busy [] bs bp bg) (set_ports ps (set_messages ms k)) x <-> kept b k x.
Proof.
  unfold kept. cbn. setoid_rewrite post_slots. rewrite elem_of_nil. split.
  - intros [?|[m' [[-> ?]|?]]]; [done|by left|right; by exists m'].
  - intros [?|[m' ?]]; right; [exists m; by left|exists m'; by right].
Qed.

(** The rights in the hands of the operation go with the message. *)
Lemma inv_post : inv (Busy [] bs bp bg) (set_ports ps (set_messages ms k)).
Proof.
  split; cbn [rights shareds ports groups messages mem_objects garbage global_ports global_groups biggest_port next_group_id
    fresh set_ports set_messages b_rights b_shared b_port b_group]; keep I.
  - eapply agree_ext; [apply (i_ports _ _ I)| |done]. intros i. destruct (port_at ps i) as [x|] eqn:E.
    + apply (port_at_step _ _ _ _ _ _ Hps) in E as [-> _]. done.
    + destruct (port_at (ports k) i) as [x|] eqn:E'; [|done]. rewrite <- E.
      apply (port_at_step _ _ _ _ _ _ Hps). split; [done|tauto].
  - eapply collects_ext; [apply (i_notes _ _ I)| |done]. intros i x. cbn. rewrite !elem_of_notes, post_queue. naive_solver.
  - intros m'. setoid_rewrite post_queue. unfold ms. rewrite lookup_insert_is_Some. destruct (decide (m' = m)) as [->|Hne].
    + split; [intros _; exists p; by right|by left].
    + rewrite (i_messages _ _ I m'). naive_solver.
  - intros m' p1 p2. rewrite !post_queue. pose proof (i_one_queue _ _ I m') as H. pose proof post_new. naive_solver.
  - intros s x. rewrite post_queue. intros [?|[_ ?]]; [by apply (i_shared_note _ _ I)|done].
  - apply post_nodup.
  - intros m' x. rewrite post_slots. intros [[-> Hx]|Hx]; [|by apply (i_slots _ _ I)].
    destruct (proj2 (i_busy _ _ I) x Hx) as ((X & E & HX) & _). exists X. split_and!; try done. by eapply Hh.
  - intros m'. unfold slots, ms. destruct (decide (m' = m)) as [->|Hne]; [by rewrite lookup_insert_eq|].
    rewrite lookup_insert_ne by done. apply (i_slots_once _ _ I m').
  - intros x X HX Ha HmX. left. rewrite post_slots. destruct (i_carried _ _ I x X HX Ha HmX) as [?|Hx]; [by right|left].
    split; [by eapply Hh|done].
  - split; [constructor|]. intros x Hx. by apply elem_of_nil in Hx.
  - exact (step_port_ok b k ps _ _ I Hps).
  - eapply agree_ext; [apply (i_global_ports _ _ I)|done|]. eapply step_port_no; exact Hps.
  - intros x. rewrite (i_dead_right _ _ I x). by setoid_rewrite post_kept.
  - intros s. rewrite (i_dead_shared _ _ I s). setoid_rewrite post_queue. naive_solver.
  - intros x. rewrite (i_dead_port _ _ I x). symmetry. eapply (step_dead_port (Busy [] bs bp bg)); exact Hps.
  - intros a Hf. pose proof (i_fresh _ _ I a Hf). unfold ms. rewrite lookup_insert_ne by lia. split_and!; try tauto.
    eapply step_port_fresh; [exact I|exact Hps|done].
  - eapply step_notified; [exact Hps|apply I].
Qed.
End Post.

(** A message without rights *)
Lemma send_plain_ok bs bp bg k p sender data :
  inv (Busy [] bs bp bg) k -> is_Some (ports k !! p) ->
  runs (send_plain p sender data) k (fun res k' => inv (Busy [] bs bp bg) k' /\
    match res with
    | Error e _ => e = ENOMEM /\ unchanged k k'
    | Success _ => exists ps, ports_step (ports k) ps (fun _ => False) (only p (GMessage (fresh k)))
        /\ k' = set_ports ps (set_messages (<[fresh k := Message sender 0 data None [None; None; None; None]]> (messages k))
                  (set_fresh (S (fresh k)) (set_allocations (S (allocations k)) k)))
    end).
Proof.
  intros I Hp. unfold send_plain. apply runs_alloc. intros ok. destruct ok; cbn [negb]; cycle 1.
  { apply runs_ret. split; [by apply inv_alloc|]. split; [done|]. by eexists. }
  do 2 (eapply runs_step; [done|]). cbn [fresh set_allocations].
  set (k1 := set_fresh (S (fresh k)) (set_allocations (S (allocations k)) k)).
  assert (I1 : inv (Busy [] bs bp bg) k1) by (apply inv_fresh; [by apply inv_alloc|cbn; lia]).
  destruct (i_fresh _ _ I (fresh k) (le_n _)) as (_ & _ & Hm & _).
  set (M := Message _ _ _ _ _). set (k2 := set_messages _ _).
  destruct (enqueue_run k2 p (GMessage (fresh k))) as (ps & E & Hps); [done|exact (post_new bs bp bg k [] (fresh k) I Hm p)|].
  eapply runs_step; [exact E|]. apply runs_ret. split.
  - apply (inv_post bs bp bg k1 [] (fresh k) M p ps I1); try done; [cbn; lia|constructor|]. by intros x R ?%elem_of_nil.
  - by exists ps.
Qed.

(** ** The rights of a message *)

Definition carried (R : right) (m : nat) : right := set_holder m (set_of_message true R).

(** The rights that a sender may put into a message *)
Definition sendable (k : kernel) (g x : nat) : Prop :=
  exists X, rights k !! x = Some X /\ alive X = true /\ of_group X g = true.

#[global] Instance sendable_dec k g x : Decision (sendable k g x).
Proof.
  destruct (rights k !! x) as [X|] eqn:E; [destruct (alive X && of_group X g) eqn:H|].
  - left. apply andb_true_iff in H as [? ?]. by exists X.
  - right. intros (Y & EY & H1 & H2). rewrite E in EY. injection EY as <-. by rewrite H1, H2 in H.
  - right. intros (Y & EY & _). congruence.
Defined.

(** One right leaves the table of its group. *)
Lemma attach_one b k g G m x X :
  inv b k -> rights k !! x = Some X -> alive X = true -> of_message X = false -> holder X = g ->
  groups k !! g = Some G -> g_rights G !! right_sender_id X = Some x ->
  let gs := <[g := set_g_rights (delete (right_sender_id X) (g_rights G)) G]> (groups k) in
  inv (taking b [x]) (set_rights (<[x := carried X m]> (rights k)) (set_groups gs k)).
Proof.
  intros I HX Ha Hm Hh HG Hid gs.
  assert (Hnb : x ∉ b_rights b).
  { intros Hin. destruct (proj2 (i_busy _ _ I) x Hin) as ((X' & E & H') & _). congruence. }
  apply (inv_transfer b k x X (carried X m) (ports k) gs (messages k) I HX Ha Hnb); try done.
  - apply (not_sent b k x X I HX Ha).
  - apply (i_right _ _ I x X HX).
  - apply (agree_del (group_at (groups k)) _ (view in_table (rights k)) _ (g, right_sender_id X) x); [apply I|..].
    + rewrite (view_is _ _ _ _ HX). unfold in_table. by rewrite Ha, Hm, Hh.
    + unfold gs. by rewrite group_at_del, decide_True.
    + intros j Hj. unfold gs. by rewrite group_at_del, decide_False.
    + rewrite view_put_eq. unfold in_table. cbn. by rewrite andb_false_r.
    + intros y Hy. by apply view_put_ne.
  - eapply agree_ext; [apply (i_ports _ _ I)|done|]. intros y. by eapply index_of_put.
  - by apply ports_like_refl.
  - apply groups_like_erase; [by apply groups_like_refl|done].
  - apply (i_slots_once _ _ I).
  - intros m' y. split; [|tauto]. intros Hy. split; [done|]. intros ->.
    destruct (i_slots _ _ I m' x Hy) as (X' & E & H' & _). congruence.
Qed.

(** The rights [l] have gone from group [g] to message [m]. *)
Record attached (k k' : kernel) (l : list nat) (m : nat) : Prop := {
  a_other : forall x, x ∉ l -> rights k' !! x = rights k !! x;
  a_rights : forall x, x ∈ l -> exists X, rights k !! x = Some X /\ rights k' !! x = Some (carried X m);
  a_groups : forall g G, groups k !! g = Some G -> exists G', groups k' !! g = Some G' /\ tasks G' = tasks G;
  a_rest : shareds k' = shareds k /\ ports k' = ports k /\ messages k' = messages k /\ fresh k' = fresh k
    /\ global_ports k' = global_ports k /\ global_groups k' = global_groups k
    /\ right0_id k' = right0_id k /\ kernel_tasks k' = kernel_tasks k
}.

Lemma taking_taking b l l' : taking (taking b l) l' = taking b (l' ++ l).
Proof. unfold taking. cbn. by rewrite app_assoc. Qed.

Lemma attach_rights_ok l b k g m :
  inv b k -> NoDup l -> (forall x, x ∈ l -> sendable k g x) ->
  runs (attach_rights l g m) k (fun _ k' => inv (taking b (reverse l)) k' /\ attached k k' l m).
Proof.
  revert b k. induction l as [|x l IH]; intros b k I Hnd Hall; cbn [attach_rights].
  - apply runs_ret. split; [by destruct b|]. split; try done; [by intros x ?%elem_of_nil|]. intros g' G' E. by exists G'.
  - apply NoDup_cons in Hnd as [Hx Hnd]. destruct (Hall x ltac:(by left)) as (X & HX & Ha & Hg).
    destruct (held_in_table b k x X g I HX Ha Hg) as (Hm & Hh & G & HG & Hid).
    eapply runs_get_right; [exact HX|]. eapply runs_assert; [exact Hg|]. eapply runs_group_erase; [exact HG|exact Hid|].
    eapply runs_step; [done|]. pose proof (attach_one b k g G m x X I HX Ha Hm Hh HG Hid) as I1. cbn zeta in I1.
    eapply runs_mono; [apply (IH _ _ I1 Hnd)|].
    { intros y Hy. destruct (Hall y ltac:(by right)) as (Y & HY & Hrest). exists Y. split; [|done].
      cbn. rewrite lookup_insert_ne by (intros ->; done). done. }
    intros _ k' [I' [A1 A2 A3 A4]]. cbn in A1, A2, A3, A4. rewrite taking_taking in I'. rewrite reverse_cons. split; [done|]. split.
    + intros y Hy. apply not_elem_of_cons in Hy as [Hyx Hyl]. rewrite A1 by done. by rewrite lookup_insert_ne.
    + intros y Hy. apply elem_of_cons in Hy as [->|Hy].
      * exists X. split; [done|]. rewrite A1 by done. apply lookup_insert_eq.
      * destruct (A2 y Hy) as (Y & HY & HY'). rewrite lookup_insert_ne in HY by (intros ->; done). by exists Y.
    + intros g' G' E. destruct (decide (g' = g)) as [->|Hne].
      * destruct (A3 g _ (lookup_insert_eq _ _ _)) as (G2 & E2 & HT). exists G2. split; [done|]. rewrite HT. cbn. congruence.
      * apply (A3 g' G'). by rewrite lookup_insert_ne.
    + done.
Qed.

(** What the creation of the right to reply [r] leaves behind *)
Record replied (k k' : kernel) (r rp : nat) (P : port) (ty : RightType) (m : nat) : Prop := {
  r_right : exists R, rights k' = <[r := R]> (rights k) /\ rtype R = ty /\ alive R = true /\ of_message R = true /\ holder R = m;
  r_port : is_Some (port_at (ports k') (rp, p_current_right_id P + 1));
  r_queue : forall x, queue (ports k') x = queue (ports k) x;
  r_ports : forall x, is_Some (ports k !! x) -> is_Some (ports k' !! x);
  r_rest : messages k' = messages k /\ (fresh k <= fresh k')%nat /\ groups k' = groups k
    /\ right0_id k' = right0_id k /\ kernel_tasks k' = kernel_tasks k
}.

Lemma enter_some ps p P x y : is_Some (ps !! y) -> is_Some (enter ps p P x !! y).
Proof. intros Hy. unfold enter. rewrite !lookup_insert_is_Some. destruct (decide (p = y)); auto. Qed.

Lemma enter_at ps p P x : port_at (enter ps p P x) (p, p_current_right_id P + 1) = Some x.
Proof. apply port_at_new. Qed.

(** The right to reply with a send once right ... *)
Lemma inv_reply_once b k rp P m :
  inv b k -> ports k !! rp = Some P -> p_alive P = true ->
  let R := Right SendOnce m 0 true true false false false (Some rp) (p_current_right_id P + 1) None None 0 in
  inv (taking b [fresh k]) (set_ports (enter (ports k) rp P (RRight (fresh k)))
        (set_rights (<[fresh k := R]> (rights k)) (set_fresh (S (fresh k)) k))).
Proof.
  intros I HP Hal R. destruct (i_fresh _ _ I (fresh k) (le_n _)) as (Hr & _).
  set (k1 := set_fresh (S (fresh k)) k). assert (I1 : inv b k1) by (apply inv_fresh; [done|cbn; lia]).
  apply (inv_add b k1 (fresh k) R (shareds k) (enter (ports k) rp P (RRight (fresh k))) (groups k) (mem_objects k) I1); try done; [cbn; lia|..].
  - eapply agree_ext; [apply (i_groups _ _ I)|done|]. intros x. by apply view_put_new.
  - apply (agree_port_next b k rp P (RRight (fresh k))); try done.
    + cbn. unfold view. by rewrite Hr.
    + cbn. by rewrite view_put_eq.
    + intros [y|y] Hy; [|done]. cbn. apply view_put_ne. congruence.
  - apply collects_new; [apply I|done|done].
  - apply collects_new; [apply I|done|done].
  - exact (ports_like_next b k1 rp P _ I1 HP Hal).
  - exact (groups_like_refl b k1 I1).
  - exact (shareds_like_refl b k1 I1).
Qed.

(** ... and with a send many right, which has a shared structure of its own *)
Lemma inv_reply_many b k rp P m :
  inv b k -> b_shared b = None -> ports k !! rp = Some P -> p_alive P = true ->
  let r := fresh k in let s := S (fresh k) in
  let R := Right SendMany m 0 true true false false false None 0 (Some s) None 0 in
  let Sh := SharedRight true [r] (Some rp) (p_current_right_id P + 1) in
  inv (taking b [r]) (set_ports (enter (ports k) rp P (RShared s))
        (set_shareds (<[s := Sh]> (shareds k)) (set_rights (<[r := R]> (rights k)) (set_fresh (S s) k)))).
Proof.
  intros I Hb HP Hal r s R Sh. destruct (i_fresh _ _ I r (le_n _)) as (Hr & _).
  destruct (i_fresh _ _ I s ltac:(unfold s; lia)) as (_ & Hs & _).
  set (k1 := set_fresh (S s) k). assert (I1 : inv b k1) by (apply inv_fresh; [done|cbn; unfold s; lia]).
  apply (inv_add b k1 r R (<[s := Sh]> (shareds k)) (enter (ports k) rp P (RShared s)) (groups k) (mem_objects k) I1); try done;
    [cbn; unfold r, s; lia|..].
  - eapply agree_ext; [apply (i_groups _ _ I)|done|]. intros x. by apply view_put_new.
  - apply (agree_port_next b k rp P (RShared s)); try done.
    + cbn. unfold view. by rewrite Hs.
    + cbn. by rewrite view_put_eq.
    + intros [y|y] Hy; cbn; [by apply view_put_new|]. apply view_put_ne. congruence.
  - by apply (new_shared_senders b k rp (p_current_right_id P + 1)).
  - apply collects_new; [apply I|done|done].
  - exact (ports_like_next b k1 rp P _ I1 HP Hal).
  - exact (groups_like_refl b k1 I1).
  - apply (new_shared_like b k rp (p_current_right_id P + 1) r s (S s)); auto; unfold s; lia.
Qed.

Lemma create_reply_ok b k rp ty m P :
  inv b k -> b_shared b = None -> ports k !! rp = Some P -> p_alive P = true -> ty = SendOnce \/ ty = SendMany ->
  runs (create_reply (Some rp) ty m) k (fun res k' => inv (taking b [fresh k]) k'
    /\ res = (Some (fresh k), p_current_right_id P + 1) /\ replied k k' (fresh k) rp P ty m).
Proof.
  intros I Hb HP Hal Hty. cbn [create_reply]. eapply runs_get_port; [exact HP|]. eapply runs_assert; [done|].
  destruct (port_id_free b k rp P I HP) as [Hfree _]. eapply runs_new_right_id; [exact HP|]. eapply runs_step; [done|].
  cbn [fresh set_ports]. destruct Hty as [-> | ->]; do 2 (eapply runs_step; [done|] || idtac).
  - eapply runs_port_insert; [cbn; apply lookup_insert_eq|exact Hfree|]. apply runs_ret.
    split; [exact (inv_reply_once b k rp P m I HP Hal)|]. split; [done|]. split; cbn.
    + by eexists.
    + rewrite port_at_new. by eexists.
    + intros x. apply (l_queue _ _ _ (ports_like_next b k rp P (RRight (fresh k)) I HP Hal)).
    + intros x. apply (enter_some (ports k) rp P).
    + split_and!; try done. lia.
  - eapply runs_step; [done|]. eapply runs_port_insert; [cbn; apply lookup_insert_eq|exact Hfree|]. apply runs_ret.
    split; [exact (inv_reply_many b k rp P m I Hb HP Hal)|]. split; [done|]. split; cbn.
    + by eexists.
    + rewrite port_at_new. by eexists.
    + intros x. apply (l_queue _ _ _ (ports_like_next b k rp P (RShared (S (fresh k))) I HP Hal)).
    + intros x. apply (enter_some (ports k) rp P).
    + split_and!; try done. lia.
Qed.

(** ** The checks before a message is sent *)

(** The number, from 1, of the first right that may not be sent. *)
Fixpoint first_bad (k : kernel) (array : list (option nat)) (g : nat) (i : Z) : option Z :=
  match array with
  | [] => None
  | None :: array => first_bad k array g (i + 1)
  | Some x :: array =>
      match rights k !! x with
      | Some X => if alive X && of_group X g then first_bad k array g (i + 1) else Some (i + 1)
      | None => Some (i + 1)
      end
  end.

Lemma check_rights_run k array g i :
  (forall x, x ∈ omap id array -> is_Some (rights k !! x)) -> check_rights array g i k = Some (first_bad k array g i, k).
Proof.
  revert i. induction array as [|[x|] array IH]; intros i Hall; cbn [check_rights first_bad]; [done| |by apply IH].
  destruct (Hall x) as [X HX]; [by left|]. erewrite kbind by (by apply get_right_run). rewrite HX.
  destruct (alive X && of_group X g); [|done]. apply IH. intros y Hy. apply Hall. by right.
Qed.

Lemma first_bad_ext k k' array g i : rights k' = rights k -> first_bad k' array g i = first_bad k array g i.
Proof.
  intros E. revert i. induction array as [|[x|] array IH]; intros i; cbn; [done| |done]. rewrite E.
  destruct (rights k !! x) as [X|]; [|done]. by destruct (alive X && of_group X g).
Qed.

Lemma first_bad_none k array g i : first_bad k array g i = None -> forall x, x ∈ omap id array -> sendable k g x.
Proof.
  revert i. induction array as [|[y|] array IH]; intros i H x Hx; cbn in *; [by apply elem_of_nil in Hx| |by eapply IH].
  destruct (rights k !! y) as [Y|] eqn:HY; [|done]. destruct (alive Y && of_group Y g) eqn:Hg; [|done].
  apply elem_of_cons in Hx as [->|Hx]; [|by eapply IH]. apply andb_true_iff in Hg as [H1 H2]. by exists Y.
Qed.

Lemma first_bad_some k array g i j : first_bad k array g i = Some j ->
  exists n x, j = i + Z.of_nat n + 1 /\ array !! n = Some (Some x) /\ ~ sendable k g x
    /\ forall n' y, (n' < n)%nat -> array !! n' = Some (Some y) -> sendable k g y.
Proof.
  revert i. induction array as [|[y|] array IH]; intros i H; cbn in H; [done| |].
  - destruct (decide (sendable k g y)) as [Hs|Hs].
    + destruct Hs as (Y & HY & H1 & H2). rewrite HY, H1, H2 in H. apply IH in H as (n & x & -> & Hx & Hns & Hbef).
      exists (S n), x. split_and!; try done; [lia|]. intros [|n'] z Hn Hz; [|apply (Hbef n'); [lia|done]].
      injection Hz as <-. by exists Y.
    + exists O, y. split_and!; try done; [|lia]. destruct (rights k !! y) as [Y|] eqn:HY; [|injection H; lia].
      destruct (alive Y && of_group Y g) eqn:Hg; [|injection H; lia]. destruct Hs. apply andb_true_iff in Hg as [? ?]. by exists Y.
  - apply IH in H as (n & x & -> & Hx & Hns & Hbef). exists (S n), x. split_and!; try done; [lia|].
    intros [|n'] z Hn Hz; [done|]. apply (Hbef n'); [lia|done].
Qed.

(** Where a right that is alive sends to *)
Definition dest (k : kernel) (R : right) : option (nat * Z) :=
  match rtype R with
  | SendOnce => p ← parent R; Some (p, right_parent_id R)
  | SendMany => s ← shared R; S ← shareds k !! s; p ← s_parent S; Some (p, s_right_parent_id S)
  | MemObject => None
  end.

Lemma destination_ok b k r R :
  inv b k -> b_shared b = None -> b_port b = None -> rights k !! r = Some R -> alive R = true -> rtype R <> MemObject ->
  exists p id, dest k R = Some (p, id) /\ (forall k1, rights k1 = rights k -> shareds k1 = shareds k ->
    destination r k1 = Some ((p, id), k1)) /\ 0 < id /\ is_Some (ports k !! p).
Proof.
  intros I Hb Hbp HR Ha Ht. unfold dest, destination. destruct (rtype R) eqn:Ety; [|clear Ht|done].
  - assert (Hw : watched R = true) by (unfold watched; by rewrite Ety).
    destruct (watched_parent b k r R I HR Ha Hw) as [p Hp]. exists p, (right_parent_id R). rewrite Hp.
    destruct (registered_alive b k _ _ I Hbp (registered_at b k r R I HR Ha p Hw Hp)) as (P & HP & _ & Hid). cbn in HP, Hid.
    split; [done|]. split; [|split; [lia|by eexists]]. intros k1 Er _.
    erewrite kbind by (apply get_right_run; by rewrite Er). by rewrite Ety, Hp.
  - destruct (many_right_shared b k r R I Hb HR Ha Ety) as (s & Sh & p & Es & E & _ & Ep & Hat).
    destruct (registered_alive b k _ _ I Hbp Hat) as (P & HP & _ & Hid). cbn in HP, Hid.
    exists p, (s_right_parent_id Sh). rewrite Es. cbn. rewrite E. cbn. rewrite Ep.
    split; [done|]. split; [|split; [lia|by eexists]]. intros k1 Er Es1.
    erewrite kbind by (apply get_right_run; by rewrite Er). rewrite Ety, Es. erewrite kbind by done.
    erewrite kbind by (apply get_shared_run; by rewrite Es1). by rewrite Ep.
Qed.

Lemma alloc_reply_run rp ty k : exists ok n, alloc_reply rp ty k = Some (ok, set_allocations n k).
Proof.
  unfold alloc_reply. destruct rp as [rp|]; [|exists true, (allocations k); by destruct k].
  assert (Hmany : exists ok n, (ok ← alloc; if ok : bool then alloc else mret false) k = Some (ok, set_allocations n k)).
  { unfold mbind, K_bind. cbn. destruct (oracle k (allocations k)); by eexists _, _. }
  destruct ty; [by eexists _, _|exact Hmany|exact Hmany].
Qed.

(** ** Sending *)

(** The port that shall get the right to reply *)
Definition reply_ok (k : kernel) (rp : option nat) (ty : RightType) : Prop :=
  match rp with
  | None => True
  | Some p => (exists P, ports k !! p = Some P /\ p_alive P = true) /\ (ty = SendOnce \/ ty = SendMany)
  end.

(** Creating the right to reply, if there is a port for it *)
Lemma reply_step b k rp ty m l :
  inv (Busy l None None b) k -> reply_ok k rp ty -> (forall x X, x ∈ l -> rights k !! x = Some X -> holder X = m) ->
  runs (create_reply rp ty m) k (fun res k' => inv (Busy (option_list res.1 ++ l) None None b) k'
    /\ (forall x X, x ∈ option_list res.1 ++ l -> rights k' !! x = Some X -> holder X = m)
    /\ (forall x, is_Some (rights k !! x) -> rights k' !! x = rights k !! x)
    /\ (forall x, queue (ports k') x = queue (ports k) x) /\ (forall x, is_Some (ports k !! x) -> is_Some (ports k' !! x))
    /\ messages k' = messages k /\ (fresh k <= fresh k')%nat
    /\ match rp, res with
       | None, (None, id) => id = 0
       | Some p, (Some r, id) => rights k !! r = None /\ 0 < id /\ exists R, rights k' !! r = Some R
           /\ rtype R = ty /\ alive R = true /\ of_message R = true /\ holder R = m
       | _, _ => False
       end).
Proof.
  intros I Hrp Hh. destruct rp as [p|]; cbn in Hrp.
  - destruct Hrp as [(P & HP & Hal) Hty]. eapply runs_mono; [by eapply create_reply_ok|]. cbn beta.
    intros res k' (I' & -> & [(R & Hr & H1 & H2 & H3 & H4) Hp Hq Hps (Hms & Hf & _)]). cbn.
    destruct (i_fresh _ _ I (fresh k) (le_n _)) as (Hnew & _). destruct (port_id_free _ k p P I HP) as [_ Hpos].
    split; [exact I'|]. split.
    + intros x X Hx HX. rewrite Hr in HX. apply elem_of_cons in Hx as [->|Hx].
      * rewrite lookup_insert_eq in HX. congruence.
      * destruct (decide (x = fresh k)) as [->|Hne]; [rewrite lookup_insert_eq in HX; congruence|].
        rewrite lookup_insert_ne in HX by done. by eapply Hh.
    + split. { intros x [X HX]. rewrite Hr. rewrite lookup_insert_ne by congruence. done. }
      split_and!; try done. exists R. rewrite Hr. by rewrite lookup_insert_eq.
  - cbn. apply runs_ret. cbn. by split_and!.
Qed.

(** A message has gone out: [m] is the message, [used] says whether the right was used up. *)
Record sent_message (k k' : kernel) (r : nat) (R : right) (p m : nat) (M : message) (ty : RightType) (rp : option nat)
    (used : bool) (res : option nat * Z) : Prop := {
  sm_message : messages k !! m = None /\ messages k' = <[m := M]> (messages k);
  sm_queue : exists add, queue (ports k') p = queue (ports k) p ++ GMessage m :: add;
  sm_rights : forall x, x ∈ omap id (m_rights M) ->
    exists X, rights k !! x = Some X /\ rights k' !! x = Some (carried X m);
  sm_reply : match rp, res with
             | None, (None, id) => id = 0
             | Some rp, (Some x, id) => 0 < id /\ rights k !! x = None /\ exists X, rights k' !! x = Some X /\ rtype X = ty
                 /\ alive X = true /\ of_message X = true /\ holder X = m
             | _, _ => False
             end;
  sm_used : exists R', rights k' !! r = Some R' /\ alive R' = negb used
}.

(** The right is used up, or kept. *)
Lemma use_right_ok k r R (used : bool) :
  inv idle k -> rights k !! r = Some R -> alive R = true ->
  runs (if used then destroy r SendingMessage None else mret true) k (fun _ k' => inv idle k' /\ shrinks k k'
    /\ (forall x, x <> r -> rights k' !! x = rights k !! x) /\ exists R', rights k' !! r = Some R' /\ alive R' = negb used).
Proof.
  intros I HR Ha. destruct used; cycle 1. { apply runs_ret. split; [done|]. split; [done|]. split; [done|]. by exists R. }
  eapply runs_mono; [by eapply destroy_spec|]. cbn. rewrite Ha. intros res k' (I' & Hs & -> & add & Hd).
  split; [done|]. split; [done|]. rewrite (d_rights _ _ _ _ _ _ Hd). split.
  - intros x Hx. by rewrite lookup_insert_ne.
  - rewrite lookup_insert_eq. by eexists.
Qed.

Lemma commit_message_ok k r R p idr g rp array data sender ty always :
  inv idle k -> rights k !! r = Some R -> alive R = true -> is_Some (ports k !! p) ->
  NoDup (r :: omap id array) -> (forall x, x ∈ omap id array -> sendable k g x) -> reply_ok k rp ty ->
  runs (commit_message r R p idr g rp array data sender ty always) k (fun res k' => inv idle k' /\
    exists reply new_id, res = Success (reply, new_id) /\
      sent_message k k' r R p (fresh k) (Message sender idr data reply array) ty rp
        (bool_decide (rtype R = SendOnce) || always) (reply, new_id)).
Proof.
  intros I HR Ha Hp Hnd Hall Hrp. apply NoDup_cons in Hnd as [Hr Hnd]. unfold commit_message.
  destruct (i_fresh _ _ I (fresh k) (le_n _)) as (_ & _ & Hm & _).
  eapply runs_step; [done|]. set (k1 := set_fresh (S (fresh k)) k).
  assert (I1 : inv idle k1) by (apply inv_fresh; [done|cbn; lia]).
  eapply runs_bind; [by apply (attach_rights_ok _ idle k1 g (fresh k) I1 Hnd)|]. cbn beta.
  intros _ k2 (I2 & [A1 A2 _ (As & Ap & Am & Af & _)]). cbn in A1, A2, Ap, Am, Af.
  unfold taking in I2. cbn [b_rights b_shared b_port b_group idle] in I2. rewrite app_nil_r in I2.
  eapply runs_bind; [apply (reply_step None k2 rp ty (fresh k) _ I2)|].
  { unfold reply_ok. by rewrite Ap. }
  { intros x X Hx HX. rewrite elem_of_reverse in Hx. destruct (A2 x Hx) as (X0 & _ & HX0). rewrite HX0 in HX. by injection HX as <-. }
  cbn beta. intros [reply new_id] k3 (I3 & Hh3 & Hr3 & Hq3 & Hp3 & Hm3 & Hf3 & Hres). cbn [fst] in I3, Hh3.
  eapply runs_step; [done|]. set (M := Message _ _ _ _ _). set (k4 := set_messages _ k3).
  assert (Hm3' : messages k3 !! fresh k = None) by (by rewrite Hm3, Am).
  assert (Hp3' : is_Some (ports k3 !! p)) by (apply Hp3; by rewrite Ap).
  destruct (enqueue_run k4 p (GMessage (fresh k))) as (ps & E & Hps); [done|exact (post_new _ _ _ k3 _ _ I3 Hm3' p)|].
  eapply runs_step; [exact E|]. set (k5 := set_ports ps k4).
  assert (I5 : inv idle k5).
  { apply (inv_post None None None k3 _ (fresh k) M p ps I3); try done.
    - rewrite Af in Hf3. cbn in Hf3. lia.
    - intros x. unfold message_slots. cbn. by rewrite !elem_of_app, elem_of_reverse.
    - assert (message_slots M ≡ₚ option_list reply ++ reverse (omap id array)) as ->; [|apply (i_busy _ _ I3)].
      unfold message_slots. cbn. by rewrite reverse_Permutation. }
  assert (HR5 : rights k5 !! r = Some R).
  { cbn. rewrite Hr3; rewrite A1; done. }
  eapply runs_bind; [by apply (use_right_ok k5 r R)|]. cbn beta. intros _ k6 (I6 & Hs6 & Ho6 & Hu6). apply runs_ret.
  split; [done|]. exists reply, new_id. split; [done|]. split; try done.
  - rewrite (sh_messages _ _ Hs6). cbn. split; [done|]. by rewrite Hm3, Am.
  - destruct (ports_step_some _ _ _ _ p Hps Hp3') as [P5 HP5]. destruct (sh_ports _ _ Hs6 p P5 HP5) as (P6 & HP6 & _ & _ & _ & _ & _ & add & Hadd & _).
    exists add. assert (Hq6 : queue (ports k6) p = queue ps p ++ add).
    { unfold queue. cbn in HP5. rewrite HP6, HP5. exact Hadd. }
    rewrite Hq6, (queue_step _ _ _ _ p Hps Hp3'). unfold only. rewrite decide_True by done. cbn. by rewrite Hq3, Ap, <- app_assoc.
  - intros x Hx. cbn in Hx. assert (Hxr : x <> r) by (intros ->; done). rewrite (Ho6 x Hxr). cbn.
    destruct (A2 x Hx) as (X & HX & HX2). exists X. split; [done|]. rewrite Hr3; [done|by eexists].
  - destruct rp as [q|], reply as [x|]; try done. destruct Hres as (Hx & Hid & X & HX & Hrest). split; [done|].
    assert (Hxn : rights k !! x = None).
    { destruct (decide (x ∈ omap id array)) as [Hin|Hin]; [destruct (A2 x Hin) as (? & _ & ?); congruence|]. by rewrite <- A1. }
    split; [done|]. exists X. rewrite Ho6 by congruence. done.
Qed.

(** [Port::send_message_right]: every way it fails, when nothing changes, and what it does. *)
Lemma send_message_right_ok k r g rp array data sender ty always R :
  inv idle k -> rights k !! r = Some R -> alive R = true ->
  (forall x, x ∈ omap id array -> is_Some (rights k !! x)) -> reply_ok k rp ty ->
  runs (send_message_right r g rp array data sender ty always) k (fun res k' => inv idle k' /\
    match res with
    | Error e i => unchanged k k'
        /\ (e = EPERM /\ rtype R = MemObject
            \/ e = ENOMEM
            \/ e = EINVAL /\ (~ NoDup (r :: omap id array) \/ right_0 R = true /\ always = true)
            \/ e = ENOENT /\ i = 0 /\ of_group R g || right_0 R = false
            \/ e = ENOENT /\ first_bad k array g 0 = Some i)
    | Success (reply, new_id) =>
        rtype R <> MemObject /\ of_group R g || right_0 R = true /\ NoDup (r :: omap id array)
        /\ (forall x, x ∈ omap id array -> sendable k g x)
        /\ exists p idr, dest k R = Some (p, idr)
           /\ sent_message k k' r R p (fresh k) (Message sender idr data reply array) ty rp
                (bool_decide (rtype R = SendOnce) || always) (reply, new_id)
    end).
Proof.
  intros I HR Ha Hex Hrp. unfold send_message_right. eapply runs_get_right; [done|].
  assert (Hun : forall n, inv idle (set_allocations n k) /\ unchanged k (set_allocations n k)).
  { intros n. split; [by apply inv_alloc|by exists n]. }
  case_bool_decide as Ht. { apply runs_ret. split; [done|]. split; [exists (allocations k); by destruct k|]. auto. }
  destruct (destination_ok idle k r R I eq_refl eq_refl HR Ha Ht) as (p & idr & Hd & Hrun & Hid & Hp).
  eapply runs_step; [by apply Hrun|]. cbn beta iota. eapply runs_step; [done|].
  assert (Hal : exists ok n, (if oracle k (allocations k) then alloc_reply rp ty else mret false)
    (set_allocations (S (allocations k)) k) = Some (ok, set_allocations n k)).
  { destruct (oracle k (allocations k)); [|by eexists _, _].
    destruct (alloc_reply_run rp ty (set_allocations (S (allocations k)) k)) as (ok & n & E). exists ok, n. exact E. }
  destruct Hal as (ok & n & E). eapply runs_step; [exact E|]. destruct (Hun n) as [In Hn].
  destruct ok; cbn [negb]; cycle 1. { apply runs_ret. split; [done|]. split; [done|]. auto 9. }
  eapply runs_assert; [apply negb_true_iff, Z.eqb_neq; lia|].
  case_bool_decide as Hnd; cbn [negb]; cycle 1. { apply runs_ret. split; [done|]. split; [done|]. auto 9. }
  rewrite Ha. cbn [andb]. destruct (of_group R g || right_0 R) eqn:Hg; cbn [negb]; cycle 1.
  { apply runs_ret. split; [done|]. split; [done|]. auto 9. }
  eapply runs_step; [by apply check_rights_run|]. rewrite (first_bad_ext k) by done.
  destruct (first_bad k array g 0) as [i|] eqn:Hbad. { apply runs_ret. split; [done|]. split; [done|]. auto 9. }
  destruct (right_0 R && always) eqn:H0.
  { apply andb_true_iff in H0 as [-> ->]. apply runs_ret. split; [done|]. split; [done|]. auto 9. }
  pose proof (first_bad_none k array g 0 Hbad) as Hall.
  eapply runs_mono; [by apply (commit_message_ok (set_allocations n k) r R p idr g rp array data sender ty always)|].
  cbn beta. intros res k' (I' & reply & new_id & -> & [S1 S2 S3 S4 S5]). split; [done|]. split_and!; try done.
  exists p, idr. split; [done|]. by split.
Qed.

(** ** Accepting the rights of a message *)

Lemma omap_take (l : list (option nat)) j x : l !! j = Some (Some x) ->
  omap id l ≡ₚ x :: omap id (<[j := None]> l).
Proof.
  revert j. induction l as [|y l IH]; intros [|j] H; [done..| |]; cbn in H.
  - injection H as ->. done.
  - cbn. destruct y as [y|]; cbn; [rewrite (IH j H); apply Permutation_swap|by apply IH].
Qed.

Lemma take_place M i r : m_rights M !! i = Some (Some r) ->
  message_slots M ≡ₚ r :: message_slots (set_m_rights (<[i := None]> (m_rights M)) M).
Proof. intros Hi. unfold message_slots. cbn. rewrite (omap_take _ _ _ Hi). by rewrite Permutation_middle. Qed.

Lemma take_reply M r : reply_right M = Some r -> message_slots M ≡ₚ r :: message_slots (set_reply_right None M).
Proof. intros Hr. unfold message_slots. cbn. by rewrite Hr. Qed.

(** A message [M'] that is [M] without right [r] *)
Section TakeSlot.
Context (b : busy) (k : kernel) (m r : nat) (M M' : message).
Context (I : inv b k) (HM : messages k !! m = Some M) (Hperm : message_slots M ≡ₚ r :: message_slots M').
Let ms := <[m := M']> (messages k).

Lemma take_slot : slots (messages k) m ≡ₚ r :: slots ms m.
Proof. unfold slots, ms. rewrite lookup_insert_eq, HM. exact Hperm. Qed.

Lemma take_other m' : m' <> m -> slots ms m' = slots (messages k) m'.
Proof. intros Hne. unfold slots, ms. by rewrite lookup_insert_ne. Qed.

Lemma take_in : r ∈ slots (messages k) m.
Proof. rewrite take_slot. by left. Qed.

Lemma take_not_busy : r ∉ b_rights b.
Proof. intros Hin. destruct (proj2 (i_busy _ _ I) r Hin) as [_ H]. apply (H m), take_in. Qed.

Lemma take_slots m' x : x ∈ slots ms m' <-> x ∈ slots (messages k) m' /\ x <> r.
Proof.
  assert (Hnd : NoDup (slots (messages k) m)) by apply (i_slots_once _ _ I). rewrite take_slot in Hnd.
  apply NoDup_cons in Hnd as [Hr Hnd]. destruct (decide (m' = m)) as [->|Hne].
  - rewrite take_slot, elem_of_cons. naive_solver.
  - rewrite take_other by done. split; [|tauto]. intros Hx. split; [done|]. intros ->.
    destruct (i_slots _ _ I m' r Hx) as (X & HX & _ & H1). destruct (i_slots _ _ I m r take_in) as (Y & HY & _ & H2). congruence.
Qed.

Lemma take_nodup m' : NoDup (slots ms m').
Proof.
  destruct (decide (m' = m)) as [->|Hne]; [|rewrite take_other by done; apply (i_slots_once _ _ I)].
  assert (Hnd : NoDup (slots (messages k) m)) by apply (i_slots_once _ _ I). rewrite take_slot in Hnd. by apply NoDup_cons in Hnd as [_ Hnd].
Qed.

Lemma take_some m' : is_Some (ms !! m') <-> is_Some (messages k !! m').
Proof.
  unfold ms. rewrite lookup_insert_is_Some. destruct (decide (m = m')) as [<-|Hne]; [|naive_solver].
  rewrite HM. split; [by eexists|by left].
Qed.

Lemma take_right : exists R, rights k !! r = Some R /\ of_message R = true /\ holder R = m.
Proof. apply (i_slots _ _ I m r take_in). Qed.

(** A right that is alive enters the table of the receiver's group. *)
Lemma inv_accept g G id R :
  rights k !! r = Some R -> alive R = true -> groups k !! g = Some G -> tasks G <> ∅ ->
  g_rights G !! id = None -> 0 < id <= g_current_right_id G ->
  inv b (set_messages ms (set_groups (<[g := set_g_rights (<[id := r]> (g_rights G)) G]> (groups k))
          (set_rights (<[r := set_of_message false (set_holder g (set_right_sender_id id R))]> (rights k)) k))).
Proof.
  intros HR Ha HG HT Hid Hle. set (R' := set_of_message _ _). set (gs := <[g := _]> _).
  destruct take_right as (R0 & HR0 & Hm & Hh). assert (R0 = R) as -> by congruence.
  cut (inv (taking b []) (set_messages ms (set_groups gs (set_ports (ports k) (set_rights (<[r := R']> (rights k)) k)))));
    [by destruct b|].
  apply (inv_transfer b k r R R' (ports k) gs ms I HR Ha take_not_busy); try done.
  - apply (not_sent b k r R I HR Ha).
  - apply (i_right _ _ I r R HR).
  - eapply agree_group_ins; [apply (i_groups _ _ I)|done|done|..].
    + rewrite (view_is _ _ _ _ HR). unfold in_table. by rewrite Hm, andb_false_r.
    + rewrite view_put_eq. unfold in_table. cbn. by rewrite Ha.
    + intros y Hy. by apply view_put_ne.
  - eapply agree_ext; [apply (i_ports _ _ I)|done|]. intros x. by eapply index_of_put.
  - by apply ports_like_refl.
  - apply groups_like_insert; try done. by apply groups_like_refl.
  - apply take_some.
  - apply take_nodup.
  - apply take_slots.
Qed.

(** A right that died on the way is left to the queue that has its notification, or to RCU. *)
Lemma inv_accept_dead R :
  rights k !! r = Some R -> alive R = false ->
  inv b (set_garbage ((if sent R then [] else [DRight r]) ++ garbage k)
          (set_messages ms (set_rights (<[r := set_of_message (negb (sent R)) R]> (rights k)) k))).
Proof.
  intros HR Ha. destruct take_right as (R0 & HR0 & Hm & Hh). assert (R0 = R) as -> by congruence.
  assert (Hgar : forall d, d <> DRight r -> d ∈ (if sent R then [] else [DRight r]) ++ garbage k <-> d ∈ garbage k).
  { intros d Hd. rewrite elem_of_app. destruct (sent R); set_solver. }
  assert (Hkept : kept b k r) by (right; exists m; apply take_in).
  split; cbn [rights shareds ports groups messages mem_objects garbage global_ports global_groups biggest_port next_group_id
    fresh set_garbage set_messages set_rights]; keep I.
  - same_view I HR. unfold in_table. cbn. by rewrite Ha.
  - same_view I HR. unfold registered. cbn. by rewrite Ha.
  - same_view I HR. unfold sharing. cbn. by rewrite Ha.
  - same_view I HR. unfold mapping. cbn. by rewrite Ha.
  - same_view I HR. done.
  - intros m'. rewrite take_some. apply I.
  - put_all; [apply I|apply (i_right _ _ I r R HR)].
  - intros m' x Hx. apply take_slots in Hx as [Hx Hne]. rewrite lookup_insert_ne by done. by apply (i_slots _ _ I).
  - apply take_nodup.
  - intros x X HX Hal HmX. rewrite take_slots. destruct (decide (x = r)) as [->|Hne].
    + rewrite lookup_insert_eq in HX. injection HX as <-. cbn in *. rewrite Ha in Hal. cbn in Hal. by rewrite Hal in HmX.
    + rewrite lookup_insert_ne in HX by done. destruct (i_carried _ _ I x X HX Hal HmX); [left; by split|by right].
  - destruct (i_busy _ _ I) as [Hnd Hb]. split; [done|]. intros x Hx.
    assert (Hne : x <> r) by (intros ->; by apply take_not_busy). rewrite lookup_insert_ne by done.
    destruct (Hb x Hx) as [Hex Hsl]. split; [done|]. intros m'. rewrite take_slots. intros [? _]. by apply (Hsl m').
  - destruct (sent R); [apply I|]. cbn. apply NoDup_cons. split; [|apply I]. rewrite (i_dead_right _ _ I r). naive_solver.
  - intros x. unfold kept. cbn [messages set_garbage set_messages]. setoid_rewrite take_slots. destruct (decide (x = r)) as [->|Hne].
    + rewrite lookup_insert_eq, elem_of_app. split.
      * intros [Hin|Hin]; [|apply (i_dead_right _ _ I r) in Hin; naive_solver]. eexists. split; [done|]. cbn.
        destruct (sent R) eqn:Es; [by apply elem_of_nil in Hin|]. split_and!; try done.
        intros [?|(m' & _ & ?)]; [by apply take_not_busy|done].
      * intros (X & [= <-] & _ & Hs & _). cbn in Hs. rewrite Hs. left. by left.
    + rewrite lookup_insert_ne, Hgar, (i_dead_right _ _ I x) by congruence. unfold kept. naive_solver.
  - intros s. rewrite Hgar by done. apply I.
  - intros s. rewrite Hgar by done. apply I.
  - intros s. rewrite Hgar by done. apply I.
  - intros a Hf. pose proof (i_fresh _ _ I a Hf). split_and!; try tauto; [eapply put_none; [exact HR|tauto]|].
    eapply put_none; [exact HM|tauto].
Qed.
End TakeSlot.

(** The identifiers a group has drawn for the rights of a message: 0 where there is no right *)
Definition drawn (G : task_group) (ids : list Z) : Prop :=
  NoDup (filter (fun id => id <> 0) ids)
  /\ forall id, id ∈ ids -> id <> 0 -> g_rights G !! id = None /\ 0 < id <= g_current_right_id G.

Definition accepted (R : right) (g : nat) (id : Z) : right := set_of_message false (set_holder g (set_right_sender_id id R)).

(** What the loop does from place [i] of the message on *)
Record taken (k k' : kernel) (m g i : nat) (ids : list Z) (M : message) : Prop := {
  t_table : forall j x, group_at (groups k) j = Some x -> group_at (groups k') j = Some x;
  t_alive : forall n id r R, ids !! n = Some id -> m_rights M !! (i + n)%nat = Some (Some r) -> rights k !! r = Some R ->
    alive R = true -> rights k' !! r = Some (accepted R g id) /\ group_at (groups k') (g, id) = Some r;
  t_other : forall x, (forall n, (i <= n < i + length ids)%nat -> m_rights M !! n <> Some (Some x)) -> rights k' !! x = rights k !! x;
  t_message : exists M', messages k' !! m = Some M' /\ reply_right M' = reply_right M
    /\ forall n, m_rights M' !! n = if decide (i <= n < i + length ids)%nat then (fun _ => None) <$> (m_rights M !! n) else m_rights M !! n;
  t_rest : ports k' = ports k /\ (forall x, x <> m -> messages k' !! x = messages k !! x)
}.

(** A round with a right in its place *)
Lemma accept_round_ok b k m g id i M G r :
  inv b k -> messages k !! m = Some M -> m_rights M !! i = Some (Some r) -> groups k !! g = Some G -> tasks G <> ∅ ->
  id <> 0 -> g_rights G !! id = None -> 0 < id <= g_current_right_id G ->
  runs (accept_round m g id i M) k (fun _ k' => inv b k'
    /\ messages k' = <[m := set_m_rights (<[i := None]> (m_rights M)) M]> (messages k) /\ ports k' = ports k
    /\ (forall x, x <> r -> rights k' !! x = rights k !! x)
    /\ ((exists R, rights k !! r = Some R /\ alive R = true /\ rights k' !! r = Some (accepted R g id)
          /\ groups k' = <[g := set_g_rights (<[id := r]> (g_rights G)) G]> (groups k))
        \/ (exists R, rights k !! r = Some R /\ alive R = false) /\ groups k' = groups k)).
Proof.
  intros I HM Hi HG HT Hz Hid Hle. unfold accept_round. rewrite Hi. eapply runs_step; [done|].
  eapply runs_assert; [by apply negb_true_iff, Z.eqb_neq|]. destruct (take_right b k m r M _ I HM (take_place M i r Hi)) as (R & HR & Hm & Hh).
  eapply runs_get_right; [exact HR|]. eapply runs_assert; [done|]. destruct (alive R) eqn:Ha.
  - eapply runs_step; [done|]. eapply (runs_eq _ _ tt).
    { unfold group_insert. erewrite kbind by (apply get_group_run; exact HG). unfold tree_insert. rewrite Hid. done. }
    split; [exact (inv_accept b k m r M _ I HM (take_place M i r Hi) g G id R HR Ha HG HT Hid Hle)|]. split; [done|]. split; [done|]. cbn. split.
    + intros x Hx. by rewrite lookup_insert_ne.
    + left. exists R. rewrite lookup_insert_eq. done.
  - pose proof (inv_accept_dead b k m r M _ I HM (take_place M i r Hi) R HR Ha) as I'. destruct (sent R) eqn:Es.
    + eapply (runs_eq _ _ tt); [done|]. split; [exact I'|]. split; [done|]. split; [done|]. cbn. split.
      * intros x Hx. by rewrite lookup_insert_ne.
      * right. split; [by exists R|done].
    + eapply (runs_eq _ _ tt); [done|]. cbn in I'. assert (ER : set_of_message true R = R) by (destruct R; cbn in *; by subst).
      rewrite ER, (insert_id (rights k) r R) in I' by done. split; [exact I'|]. split; [done|]. split; [done|]. split; [done|].
      right. split; [by exists R|done].
Qed.

Lemma drawn_tail G id ids r : drawn G (id :: ids) -> id <> 0 -> drawn (set_g_rights (<[id := r]> (g_rights G)) G) ids.
Proof.
  intros [Hnd Hid] Hz. rewrite filter_cons_True in Hnd by done. apply NoDup_cons in Hnd as [Hnew Hnd]. split; [done|].
  intros x Hx Hxz. cbn. destruct (Hid x ltac:(by right) Hxz) as [H1 H2]. split; [|done].
  rewrite lookup_insert_ne; [done|]. intros <-. apply Hnew. by apply list_elem_of_filter.
Qed.

Lemma drawn_skip G id ids : drawn G (id :: ids) -> drawn G ids.
Proof.
  intros [Hnd Hid]. split; [|intros x Hx; apply Hid; by right]. destruct (decide (id = 0)) as [->|Hz].
  - rewrite filter_cons_False in Hnd by naive_solver. done.
  - rewrite filter_cons_True in Hnd by done. by apply NoDup_cons in Hnd as [_ Hnd].
Qed.

(** A place without a right changes nothing. *)
Lemma taken_skip k k' m g i id ids M :
  messages k !! m = Some M -> (forall r, m_rights M !! i <> Some (Some r)) -> taken k k' m g (S i) ids M -> taken k k' m g i (id :: ids) M.
Proof.
  intros HM Hi [T1 T2 T3 (M' & E' & Hr & T4) T5]. split; try done.
  - intros [|n] id' r R Hn Hr' HR Ha.
    + rewrite Nat.add_0_r in Hr'. by destruct (Hi r).
    + apply (T2 n); try done. by replace (S i + n)%nat with (i + S n)%nat by lia.
  - intros x Hx. apply T3. intros n Hn. apply Hx. cbn. lia.
  - exists M'. split_and!; try done. intros n. rewrite T4. cbn [length]. destruct (decide (n = i)) as [->|Hne].
    + rewrite decide_False, decide_True by lia. destruct (m_rights M !! i) as [[r|]|] eqn:E; [by destruct (Hi r)|done|done].
    + destruct (decide (S i <= n < S i + length ids)%nat); [rewrite decide_True by lia|rewrite decide_False by lia]; done.
Qed.

(** A place with a right, and then the rest *)
Lemma taken_cons b k k1 k' m g i id ids M r G :
  inv b k -> messages k !! m = Some M -> m_rights M !! i = Some (Some r) -> groups k !! g = Some G -> g_rights G !! id = None ->
  messages k1 = <[m := set_m_rights (<[i := None]> (m_rights M)) M]> (messages k) -> ports k1 = ports k ->
  (forall x, x <> r -> rights k1 !! x = rights k !! x) ->
  ((exists R, rights k !! r = Some R /\ alive R = true /\ rights k1 !! r = Some (accepted R g id)
      /\ groups k1 = <[g := set_g_rights (<[id := r]> (g_rights G)) G]> (groups k))
   \/ (exists R, rights k !! r = Some R /\ alive R = false) /\ groups k1 = groups k) ->
  taken k1 k' m g (S i) ids (set_m_rights (<[i := None]> (m_rights M)) M) -> taken k k' m g i (id :: ids) M.
Proof.
  intros I HM Hi HG Hid Hms Hps Ho Hr [T1 T2 T3 (M' & E' & Hrr & T4) [T5 T6]].
  assert (Hlen : (i < length (m_rights M))%nat) by (by apply lookup_lt_is_Some; eexists).
  assert (Hone : forall n x, m_rights M !! n = Some (Some x) -> n <> i -> x <> r).
  { intros n x Hx Hne ->. pose proof (i_slots_once _ _ I m) as Hnd. unfold slots in Hnd. rewrite HM in Hnd. cbn in Hnd.
    unfold message_slots in Hnd. apply NoDup_app in Hnd as (_ & _ & Hnd). rewrite (omap_take _ _ _ Hi) in Hnd.
    apply NoDup_cons in Hnd as [Hnd _]. apply Hnd. apply list_elem_of_omap. exists (Some r). split; [|done].
    apply list_elem_of_lookup. exists n. by rewrite list_lookup_insert_ne. }
  split.
  - intros j x Hj. apply T1. destruct Hr as [(R & _ & _ & _ & ->)|[_ ->]]; [|done]. rewrite group_at_ins by done.
    destruct (decide (j = (g, id))) as [->|]; [|done]. unfold group_at in Hj. cbn in Hj. rewrite HG in Hj. cbn in Hj. congruence.
  - intros [|n] id' x R Hn Hx HR Ha.
    + rewrite Nat.add_0_r in Hx. injection Hn as <-. rewrite Hi in Hx. injection Hx as <-.
      destruct Hr as [(R0 & HR0 & _ & H1 & H2)|[(R0 & HR0 & H0) _]]; [|congruence]. assert (R0 = R) as -> by congruence. split.
      * rewrite T3; [done|]. intros n Hn. cbn. intros Hx. destruct (decide (n = i)) as [->|Hne]; [lia|].
        rewrite list_lookup_insert_ne in Hx by done. by apply (Hone n r).
      * apply T1. rewrite H2. apply group_at_new.
    + assert (Hxr : x <> r) by (apply (Hone (i + S n)%nat x Hx); lia). apply (T2 n); try done.
      * cbn. rewrite list_lookup_insert_ne by lia. by rewrite Nat.add_succ_r in Hx.
      * by rewrite Ho.
  - intros x Hx. rewrite T3.
    + apply Ho. intros ->. apply (Hx i); [cbn; lia|done].
    + intros n Hn. cbn. rewrite list_lookup_insert_ne by lia. apply Hx. cbn. lia.
  - exists M'. split_and!; try done. intros n. rewrite T4. cbn [length m_rights set_m_rights]. destruct (decide (n = i)) as [->|Hne].
    + rewrite decide_False, decide_True by lia. by rewrite list_lookup_insert_eq, Hi.
    + rewrite list_lookup_insert_ne by done.
      destruct (decide (S i <= n < S i + length ids)%nat); [rewrite decide_True by lia|rewrite decide_False by lia]; done.
  - split; [congruence|]. intros x Hx. rewrite T6 by done. rewrite Hms. by rewrite lookup_insert_ne.
Qed.

Lemma accept_loop_ok ids b k m g i M G :
  inv b k -> messages k !! m = Some M -> groups k !! g = Some G -> tasks G <> ∅ -> drawn G ids ->
  (forall n id r, ids !! n = Some id -> m_rights M !! (i + n)%nat = Some (Some r) -> id <> 0) ->
  runs (accept_loop m g ids i) k (fun _ k' => inv b k' /\ taken k k' m g i ids M).
Proof.
  revert k i M G. induction ids as [|id ids IH]; intros k i M G I HM HG HT Hd Hne; cbn [accept_loop].
  { apply runs_ret. split; [done|]. split; try done. exists M. split_and!; try done. intros n. cbn. by rewrite decide_False by lia. }
  eapply runs_get_message; [done|]. destruct (m_rights M !! i) as [[r|]|] eqn:Hi.
  - assert (Hz : id <> 0) by (apply (Hne O id r); [done|by rewrite Nat.add_0_r]).
    destruct (proj2 Hd id ltac:(by left) Hz) as [Hid Hle].
    eapply runs_bind; [by eapply accept_round_ok|]. cbn beta. intros _ k1 (I1 & Hms & Hps & Ho & Hr).
    assert (HG1 : exists G1, groups k1 !! g = Some G1 /\ tasks G1 = tasks G /\ drawn G1 ids).
    { destruct Hr as [(R & _ & _ & _ & ->)|[_ ->]].
      - rewrite lookup_insert_eq. eexists. split; [done|]. split; [done|]. by apply drawn_tail.
      - exists G. split_and!; try done. by eapply drawn_skip. }
    destruct HG1 as (G1 & HG1 & HT1 & Hd1).
    eapply runs_mono; [eapply (IH k1 (S i) _ G1 I1)|]; [rewrite Hms; apply lookup_insert_eq|done|by rewrite HT1|done| |].
    + intros n id' x Hn. cbn. rewrite list_lookup_insert_ne by lia. intros Hx. apply (Hne (S n) id' x); [done|].
      by replace (i + S n)%nat with (S i + n)%nat by lia.
    + cbn beta. intros _ k' [I' T]. split; [done|]. by eapply taken_cons.
  - eapply runs_step; [unfold accept_round; by rewrite Hi|]. eapply runs_mono; [eapply (IH k (S i) M G I HM HG HT)|].
    + by eapply drawn_skip.
    + intros n id' x Hn Hx. apply (Hne (S n) id' x); [done|]. by replace (i + S n)%nat with (S i + n)%nat by lia.
    + cbn beta. intros _ k' [I' T]. split; [done|]. apply taken_skip; [done|congruence|done].
  - eapply runs_step; [unfold accept_round; by rewrite Hi|]. eapply runs_mono; [eapply (IH k (S i) M G I HM HG HT)|].
    + by eapply drawn_skip.
    + intros n id' x Hn Hx. apply (Hne (S n) id' x); [done|]. by replace (i + S n)%nat with (S i + n)%nat by lia.
    + cbn beta. intros _ k' [I' T]. split; [done|]. apply taken_skip; [done|congruence|done].
Qed.

(** ** Reclamation *)

Lemma elem_of_take {A} `{EqDecision A} (x y : A) (l : list A) : y ∈ filter (fun z => z <> x) l <-> y ∈ l /\ y <> x.
Proof. rewrite list_elem_of_filter. tauto. Qed.

(** Deleting a right: nothing refers to it. *)
Lemma inv_drop_right b k r :
  inv b k -> DRight r ∈ garbage k ->
  inv b (set_rights (delete r (rights k)) (set_garbage (filter (fun d => d <> DRight r) (garbage k)) k)).
Proof.
  intros I Hin. destruct (proj1 (i_dead_right _ _ I r) Hin) as (R & HR & Ha & Hs & Hk).
  assert (Hv : forall {B} (f : right -> option B) x, f R = None -> view f (delete r (rights k)) x = view f (rights k) x).
  { intros B f x Hf. apply view_drop. by rewrite (view_is _ _ _ _ HR). }
  split; cbn; keep I.
  - eapply agree_ext; [apply (i_groups _ _ I)|done|]. intros x. apply Hv. unfold in_table. by rewrite Ha.
  - eapply agree_ext; [apply (i_ports _ _ I)|done|]. intros [x|x]; [|done]. apply Hv. unfold registered. by rewrite Ha.
  - eapply collects_ext; [apply (i_senders _ _ I)|done|]. intros x. apply Hv. unfold sharing. by rewrite Ha.
  - eapply collects_ext; [apply (i_mem _ _ I)|done|]. intros x. apply Hv. unfold mapping. by rewrite Ha.
  - eapply collects_ext; [apply (i_notes _ _ I)|done|]. intros x. apply Hv. unfold notifying. by rewrite Hs.
  - intros x X HX. apply lookup_delete_Some in HX as [_ HX]. by apply (i_right _ _ I x).
  - intros m x Hx. rewrite lookup_delete_ne; [by apply (i_slots _ _ I)|]. intros <-. apply Hk. right. by exists m.
  - intros x X HX. apply lookup_delete_Some in HX as [_ HX]. by apply (i_carried _ _ I).
  - destruct (i_busy _ _ I) as [Hnd Hb]. split; [done|]. intros x Hx. rewrite lookup_delete_ne; [by apply Hb|].
    intros <-. apply Hk. by left.
  - apply NoDup_filter, I.
  - intros x. unfold kept. cbn. fold (kept b k x). rewrite elem_of_take, (i_dead_right _ _ I x).
    destruct (decide (x = r)) as [->|Hne].
    + rewrite lookup_delete_eq. naive_solver.
    + rewrite lookup_delete_ne by done. naive_solver.
  - intros s. rewrite elem_of_take, (i_dead_shared _ _ I s). naive_solver.
  - intros p. rewrite elem_of_take, (i_dead_port _ _ I p). naive_solver.
  - intros g. rewrite elem_of_take, (i_dead_group _ _ I g). naive_solver.
  - intros a Hf. pose proof (i_fresh _ _ I a Hf). split_and!; try tauto. apply lookup_delete_None. tauto.
Qed.

Lemma inv_drop_shared b k s :
  inv b k -> DShared s ∈ garbage k ->
  inv b (set_shareds (delete s (shareds k)) (set_garbage (filter (fun d => d <> DShared s) (garbage k)) k)).
Proof.
  intros I Hin. destruct (proj1 (i_dead_shared _ _ I s) Hin) as (Sh & E & Ha & Hq & Hb).
  pose proof (i_shared _ _ I s Sh E) as Hl. rewrite Ha in Hl. destruct Hl as [?|Hl]; [done|].
  split; cbn; keep I.
  - eapply agree_ext; [apply (i_ports _ _ I)|done|]. intros [x|x]; [done|]. cbn. apply view_drop.
    rewrite (view_is _ _ _ _ E). unfold s_registered. by rewrite Ha.
  - eapply collects_ext; [apply (i_senders _ _ I)| |done]. intros i x. unfold senders. destruct (decide (i = s)) as [->|Hne].
    + rewrite lookup_delete_eq, E. cbn. by rewrite Hl.
    + by rewrite lookup_delete_ne.
  - intros x p Hx. destruct (i_shared_note _ _ I x p Hx) as (S2 & E2 & Hrest). exists S2. rewrite lookup_delete_ne; [done|].
    intros <-. by apply (Hq p).
  - intros x X HX. apply lookup_delete_Some in HX as [_ HX]. by apply (i_shared _ _ I x).
  - apply NoDup_filter, I.
  - intros x. rewrite elem_of_take, (i_dead_right _ _ I x). naive_solver.
  - intros x. rewrite elem_of_take, (i_dead_shared _ _ I x). destruct (decide (x = s)) as [->|Hne].
    + rewrite lookup_delete_eq. naive_solver.
    + rewrite lookup_delete_ne by done. naive_solver.
  - intros p. rewrite elem_of_take, (i_dead_port _ _ I p). naive_solver.
  - intros g. rewrite elem_of_take, (i_dead_group _ _ I g). naive_solver.
  - intros a Hf. pose proof (i_fresh _ _ I a Hf). split_and!; try tauto. apply lookup_delete_None. tauto.
Qed.

Lemma inv_drop_group b k g :
  inv b k -> DGroup g ∈ garbage k ->
  inv b (set_groups (delete g (groups k)) (set_garbage (filter (fun d => d <> DGroup g) (garbage k)) k)).
Proof.
  intros I Hin. destruct (proj1 (i_dead_group _ _ I g) Hin) as (G & E & HT & Hb).
  destruct (i_group _ _ I g G E) as (_ & _ & He). specialize (He HT Hb).
  split; cbn; keep I.
  - eapply agree_ext; [apply (i_groups _ _ I)| |done]. intros [x id]. unfold group_at. cbn. destruct (decide (x = g)) as [->|Hne].
    + rewrite lookup_delete_eq, E. cbn. by rewrite He.
    + by rewrite lookup_delete_ne.
  - intros x X HX. apply lookup_delete_Some in HX as [_ HX]. by apply (i_group _ _ I x).
  - eapply agree_ext; [apply (i_global_groups _ _ I)|done|]. intros x. apply view_drop. rewrite (view_is _ _ _ _ E).
    unfold group_no. by rewrite bool_decide_true.
  - apply NoDup_filter, I.
  - intros x. rewrite elem_of_take, (i_dead_right _ _ I x). naive_solver.
  - intros x. rewrite elem_of_take, (i_dead_shared _ _ I x). naive_solver.
  - intros p. rewrite elem_of_take, (i_dead_port _ _ I p). naive_solver.
  - intros x. rewrite elem_of_take, (i_dead_group _ _ I x). destruct (decide (x = g)) as [->|Hne].
    + rewrite lookup_delete_eq. naive_solver.
    + rewrite lookup_delete_ne by done. naive_solver.
  - intros a Hf. pose proof (i_fresh _ _ I a Hf). split_and!; try tauto. apply lookup_delete_None. tauto.
  - eapply notified_like; [apply I|intros p P HP Ha; right; by exists P|]. intros x X HX HTx. exists X. split; [|done].
    rewrite lookup_delete_ne; [done|]. intros ->. rewrite E in HX. injection HX as <-. by apply HTx.
Qed.

(** The destructor of a port takes it from RCU ... *)
Lemma inv_port_taken b k p :
  inv b k -> b_port b = None -> DPort p ∈ garbage k ->
  inv (with_port b (Some p)) (set_garbage (filter (fun d => d <> DPort p) (garbage k)) k).
Proof.
  intros I Hb Hin. destruct (proj1 (i_dead_port _ _ I p) Hin) as (P & E & Ha & _).
  split; cbn; keep I.
  - intros x X HX. destruct (i_port _ _ I x X HX) as (H1 & H2 & H3). split_and!; try done. intros Hx _. apply H3; [done|by rewrite Hb].
  - apply NoDup_filter, I.
  - intros x. rewrite elem_of_take, (i_dead_right _ _ I x). naive_solver.
  - intros x. rewrite elem_of_take, (i_dead_shared _ _ I x). naive_solver.
  - intros x. rewrite elem_of_take, (i_dead_port _ _ I x), Hb. split.
    + intros [(X & HX & Hax & _) Hne]. exists X. split_and!; try done. congruence.
    + intros (X & HX & Hax & Hne). split; [by exists X|congruence].
  - intros x. rewrite elem_of_take, (i_dead_group _ _ I x). naive_solver.
Qed.

(** ... and frees it with an empty queue. *)
Lemma inv_drop_port b k p P :
  inv (with_port b (Some p)) k -> b_port b = None -> ports k !! p = Some P -> p_alive P = false -> p_rights P = ∅ ->
  msg_queue P = [] -> inv b (set_ports (delete p (ports k)) k).
Proof.
  intros I Hb E Ha Hr Hq.
  assert (Hqs : forall x, queue (delete p (ports k)) x = queue (ports k) x).
  { intros x. unfold queue. destruct (decide (x = p)) as [->|Hne]; [|by rewrite lookup_delete_ne].
    rewrite lookup_delete_eq, E. cbn. done. }
  split; cbn; keep I.
  - eapply agree_ext; [apply (i_ports _ _ I)| |done]. intros [x id]. unfold port_at. cbn. destruct (decide (x = p)) as [->|Hne].
    + rewrite lookup_delete_eq, E. cbn. by rewrite Hr.
    + by rewrite lookup_delete_ne.
  - eapply collects_ext; [apply (i_notes _ _ I)| |done]. intros i x. cbn. by rewrite Hqs.
  - intros m. setoid_rewrite Hqs. apply I.
  - intros m p1 p2. rewrite !Hqs. apply (i_one_queue _ _ I).
  - intros s x. rewrite Hqs. apply (i_shared_note _ _ I).
  - intros x. rewrite Hqs. apply (i_queue _ _ I).
  - intros x X HX. apply lookup_delete_Some in HX as [Hne HX]. destruct (i_port _ _ I x X HX) as (H1 & H2 & H3).
    split_and!; try done. intros Hx _. apply H3; [done|]. cbn. congruence.
  - eapply agree_ext; [apply (i_global_ports _ _ I)|done|]. intros x. apply view_drop. rewrite (view_is _ _ _ _ E).
    unfold port_no. by rewrite Ha.
  - intros s. setoid_rewrite Hqs. apply I.
  - intros x. rewrite (i_dead_port _ _ I x), Hb. cbn. destruct (decide (x = p)) as [->|Hne].
    + rewrite lookup_delete_eq. naive_solver.
    + rewrite lookup_delete_ne by done. split; intros (X & ? & ? & ?); exists X; split_and!; first [done|congruence].
  - intros a Hf. pose proof (i_fresh _ _ I a Hf). split_and!; try tauto. apply lookup_delete_None. tauto.
  - eapply notified_like; [apply I| |intros g G HG _; by exists G]. intros x X HX Hax. apply lookup_delete_Some in HX as [_ HX].
    right. by exists X.
Qed.

(** What RCU calls after a grace period runs to its end, and the object is gone. *)
Lemma rcu_callback_ok k d :
  inv idle k -> d ∈ garbage k ->
  runs (rcu_callback d) k (fun _ k' => inv idle k' /\ no_new k k' /\ d ∉ garbage k' /\
    match d with
    | DRight r => rights k' !! r = None
    | DShared s => shareds k' !! s = None
    | DPort p => ports k' !! p = None
    | DGroup g => groups k' !! g = None
    end).
Proof.
  intros I Hin. unfold rcu_callback.
  eapply runs_step; [unfold take_garbage, list_remove; by rewrite decide_True|].
  assert (Hgone : forall d', d' ∉ filter (fun x => x <> d') (garbage k)) by (intros d'; rewrite elem_of_take; tauto).
  destruct d as [r|s|p|g].
  - destruct (proj1 (i_dead_right _ _ I r) Hin) as (R & HR & _). eapply runs_get_right; [exact HR|].
    eapply (runs_eq _ _ tt); [done|]. split; [exact (inv_drop_right idle k r I Hin)|].
    split; [intros a; split_and!; try done; intros E'; apply lookup_delete_None; auto|]. split; [apply Hgone|apply lookup_delete_eq].
  - destruct (proj1 (i_dead_shared _ _ I s) Hin) as (Sh & E & _). eapply runs_get_shared; [exact E|].
    eapply (runs_eq _ _ tt); [done|]. split; [exact (inv_drop_shared idle k s I Hin)|].
    split; [intros a; split_and!; try done; intros E'; apply lookup_delete_None; auto|]. split; [apply Hgone|apply lookup_delete_eq].
  - destruct (proj1 (i_dead_port _ _ I p) Hin) as (P & HP & Ha & _). eapply runs_get_port; [exact HP|].
    destruct (i_port _ _ I p P HP) as (_ & _ & Hr). specialize (Hr Ha ltac:(done)).
    pose proof (inv_port_taken idle k p I eq_refl Hin) as I1.
    eapply runs_bind; [eapply (drain_ok _ _ None (Some p) None p P); [exact I1|done|done|lia]|]. cbn beta.
    intros _ k1 (I2 & Hn1 & P1 & HP1 & Hq1 & Hr1 & Ha1). eapply (runs_eq _ _ tt); [done|].
    assert (I3 : inv idle (set_ports (delete p (ports k1)) k1)) by (apply (inv_drop_port idle k1 p P1); try done; congruence).
    split; [done|]. split. { etrans; [exact Hn1|]. intros a. split_and!; try done. intros E'. apply lookup_delete_None. auto. }
    split; [|apply lookup_delete_eq]. rewrite (i_dead_port _ _ I3 p). cbn. rewrite lookup_delete_eq. naive_solver.
  - destruct (proj1 (i_dead_group _ _ I g) Hin) as (G & E & _). eapply runs_get_group; [exact E|].
    eapply (runs_eq _ _ tt); [done|]. split; [exact (inv_drop_group idle k g I Hin)|].
    split; [intros a; split_and!; try done; intros E'; apply lookup_delete_None; auto|]. split; [apply Hgone|apply lookup_delete_eq].
Qed.
