(* ===== verification/RightsTasks.v ===== *)
(** * Task groups: their tasks and the ports they notify

    A group tells the ports in its map when a task enters or leaves and when it ends;
    a port knows the groups that have it in their maps, so that neither refers to the
    other when it is gone.  The messages go the same way as those of tasks. *)

From stdpp Require Import base list numbers gmap fin_maps sorting.
From S2P Require Import Prelude Rights RightsInv RightsOps RightsNew RightsSend.

(** ** Messages from the kernel *)

(** Messages have been queued, and ports may know fewer groups; nothing else has changed. *)
Record posted (k k' : kernel) : Prop := {
  po_ports : forall p P, ports k !! p = Some P -> exists P', ports k' !! p = Some P'
    /\ owner P' = owner P /\ portno P' = portno P /\ p_alive P' = p_alive P /\ p_rights P' = p_rights P
    /\ p_notifiers P' ⊆ p_notifiers P /\ exists add, msg_queue P' = msg_queue P ++ add;
  po_ports_none : forall p, ports k !! p = None -> ports k' !! p = None;
  po_rest : groups k' = groups k /\ rights k' = rights k /\ shareds k' = shareds k /\ garbage k' = garbage k
    /\ global_ports k' = global_ports k /\ global_groups k' = global_groups k
    /\ kernel_tasks k' = kernel_tasks k /\ right0_id k' = right0_id k /\ dying k' = dying k
}.

#[global] Instance posted_refl : Reflexive posted.
Proof. intros k. split; try done. intros p P HP. exists P. split_and!; try done. exists []. by rewrite app_nil_r. Qed.
#[global] Instance posted_trans : Transitive posted.
Proof.
  intros k1 k2 k3 [P12 N12 R12] [P23 N23 R23]. split.
  - intros p P HP. destruct (P12 p P HP) as (P2 & HP2 & A1 & A2 & A3 & A4 & A5 & a & A6).
    destruct (P23 p P2 HP2) as (P3 & HP3 & B1 & B2 & B3 & B4 & B5 & c & B6). exists P3. split_and!; try congruence; [set_solver|].
    exists (a ++ c). by rewrite B6, A6, app_assoc.
  - auto.
  - destruct R12 as (?&?&?&?&?&?&?&?&?), R23 as (?&?&?&?&?&?&?&?&?). split_and!; congruence.
Qed.

Lemma posted_alloc k n : posted k (set_allocations n k).
Proof. destruct (posted_refl k). by split. Qed.

Lemma posted_message k p ps m M n al :
  ports_step (ports k) ps (fun _ => False) (only p (GMessage m)) ->
  posted k (set_ports ps (set_messages (<[m := M]> (messages k)) (set_fresh n (set_allocations al k)))).
Proof.
  intros Hs. split; [| |done].
  - intros x X HX. pose proof (Hs x) as H. rewrite HX in H. destruct H as (X' & HX' & [H1 H1'] & H2 & H3 & H4 & H5 & H6).
    exists X'. split_and!; try done; [|by rewrite H1'|by eexists]. apply map_eq. intros id. apply option_eq. intros y. rewrite H6. tauto.
  - intros x HX. pose proof (Hs x) as H. by rewrite HX in H.
Qed.

Lemma send_from_system_ok bs bp bg k p data :
  inv (Busy [] bs bp bg) k -> is_Some (ports k !! p) ->
  runs (send_from_system p data) k (fun e k' => inv (Busy [] bs bp bg) k' /\ posted k k' /\ (e = 0 \/ e = ENOMEM)).
Proof.
  intros I Hp. unfold send_from_system. apply runs_alloc. intros ok.
  pose proof (inv_alloc _ k (S (allocations k)) I) as I1. destruct ok; cbn [negb]; [|apply runs_ret; split_and!; auto using posted_alloc].
  set (k1 := set_allocations _ k) in *. destruct (send_plain_ok bs bp bg k1 p 0 data I1 Hp) as (res & k' & E & I' & Hres).
  eapply runs_step; [exact E|]. apply runs_ret. split; [done|]. destruct res as [e a|u].
  - destruct Hres as [-> [n ->]]. split; [|by right]. apply (posted_alloc k n).
  - split; [|by left]. destruct Hres as (ps & Hs & ->). by apply (posted_message k p ps).
Qed.

Lemma port_key no : (if no =? 0 then port0_id else no) = no.
Proof. by destruct (Z.eqb_spec no 0) as [->|]. Qed.

(** A port found by its number is there, alive and has that number. *)
Lemma listed b k no p : inv b k -> global_ports k !! no = Some p ->
  exists P, ports k !! p = Some P /\ p_alive P = true /\ portno P = no.
Proof.
  intros I H. apply (i_global_ports _ _ I) in H. apply view_inv in H as (P & HP & H). exists P. split; [done|].
  unfold port_no in H. destruct (p_alive P); [|done]. by injection H as ->.
Qed.

Lemma posted_back k k' p P' : posted k k' -> ports k' !! p = Some P' ->
  exists P, ports k !! p = Some P /\ portno P' = portno P /\ p_alive P' = p_alive P /\ p_notifiers P' ⊆ p_notifiers P.
Proof.
  intros H HP'. destruct (ports k !! p) as [P|] eqn:HP; [|by rewrite (po_ports_none _ _ H p HP) in HP'].
  destruct (po_ports _ _ H p P HP) as (P1 & HP1 & _ & H2 & H3 & _ & H5 & _). exists P. assert (P' = P1) as -> by congruence. done.
Qed.

Section Notify.
Context (bs bp bg : option nat).
Let b := Busy [] bs bp bg.

Lemma notify_port_ok k no data : inv b k -> runs (notify_port no data) k (fun _ k' => inv b k' /\ posted k k').
Proof.
  intros I. unfold notify_port. eapply runs_step; [done|]. destruct (global_ports k !! _) as [p|] eqn:E; [|by apply runs_ret].
  destruct (listed b k _ p I E) as (P & HP & _). eapply runs_bind; [apply (send_from_system_ok bs bp bg); [exact I|by eexists]|].
  cbn beta. intros e k' (I' & Hp & _). by apply runs_ret.
Qed.

Lemma notify_ports_ok l k action data : inv b k -> runs (notify_ports l action data) k (fun _ k' => inv b k' /\ posted k k').
Proof.
  revert k. induction l as [|[no mask] l IH]; intros k I; cbn [notify_ports]; [by apply runs_ret|].
  eapply (runs_bind _ _ _ (fun _ k' => inv b k' /\ posted k k')).
  { destruct (negb _); [by apply notify_port_ok|by apply runs_ret]. }
  intros _ k1 [I1 H1]. eapply runs_mono; [by apply IH|]. intros _ k2 [I2 H2]. split; [done|]. by etrans.
Qed.

Lemma report_tasks_ok l k p id : inv b k -> is_Some (ports k !! p) ->
  runs (report_tasks p id l) k (fun _ k' => inv b k' /\ posted k k').
Proof.
  revert k. induction l as [|t l IH]; intros k I [P HP]; cbn [report_tasks]; [by apply runs_ret|].
  eapply runs_bind; [apply (send_from_system_ok bs bp bg); [exact I|by eexists]|]. cbn beta. intros e k1 (I1 & H1 & _).
  destruct (po_ports _ _ H1 p P HP) as (P1 & HP1 & _).
  eapply runs_mono; [apply IH; [done|by eexists]|]. intros _ k2 [I2 H2]. split; [done|]. by etrans.
Qed.
End Notify.

(** The groups that a port knows change. *)
Lemma inv_p_notifiers b k p P N :
  inv b k -> ports k !! p = Some P -> notified (b_group b) (<[p := set_p_notifiers N P]> (ports k)) (groups k) ->
  inv b (set_ports (<[p := set_p_notifiers N P]> (ports k)) k).
Proof.
  intros I HP Hn.
  assert (Hq : forall x, queue (<[p := set_p_notifiers N P]> (ports k)) x = queue (ports k) x).
  { intros x. rewrite queue_put. destruct (decide (x = p)) as [->|]; [|done]. unfold queue. by rewrite HP. }
  split; cbn; keep I; try exact Hn.
  - eapply agree_ext; [apply (i_ports _ _ I)|intros i; by apply (port_at_put _ _ P)|done].
  - eapply collects_ext; [apply (i_notes _ _ I)| |done]. intros i x. cbn. by rewrite Hq.
  - intros m. setoid_rewrite Hq. apply I.
  - intros m p1 p2. rewrite !Hq. apply (i_one_queue _ _ I).
  - intros s x. rewrite Hq. apply (i_shared_note _ _ I).
  - intros x. rewrite Hq. apply (i_queue _ _ I).
  - put_all; [apply (i_port _ _ I)|]. apply (i_port _ _ I p P HP).
  - same_view I HP. done.
  - intros s. setoid_rewrite Hq. apply I.
  - intros x. rewrite (i_dead_port _ _ I x). symmetry.
    eapply (put_ex_iff _ _ _ _ (fun x X => p_alive X = false /\ b_port b <> Some x)); [exact HP|done].
  - intros a Hf. pose proof (i_fresh _ _ I a Hf). split_and!; try tauto. eapply put_none; [exact HP|tauto].
Qed.

Lemma posted_leave k p P N : ports k !! p = Some P -> N ⊆ p_notifiers P ->
  posted k (set_ports (<[p := set_p_notifiers N P]> (ports k)) k).
Proof.
  intros HP HN. destruct (posted_refl k) as [Hp Hn Hr]. split; [| |done].
  - intros x X HX. cbn. destruct (decide (x = p)) as [->|Hne]; [|rewrite lookup_insert_ne by done; by apply Hp].
    rewrite lookup_insert_eq. assert (X = P) as -> by congruence. eexists. split; [done|]. split_and!; try done. exists []. cbn. by rewrite app_nil_r.
  - intros x HX. cbn. rewrite lookup_insert_ne by congruence. done.
Qed.

(** Every port that the dying group [g] notifies forgets it. *)
Lemma leave_ports_ok l bs bp bg k g data :
  inv (Busy [] bs bp bg) k ->
  runs (leave_ports g l data) k (fun _ k' => inv (Busy [] bs bp bg) k' /\ posted k k'
    /\ forall p P, ports k' !! p = Some P -> p_alive P = true -> portno P ∈ l.*1 -> g ∉ p_notifiers P).
Proof.
  revert k. induction l as [|[no mask] l IH]; intros k I; cbn [leave_ports fmap list_fmap].
  { apply runs_ret. split_and!; try done. by intros p P _ _ ?%elem_of_nil. }
  eapply runs_step; [done|].
  eapply (runs_bind _ _ _ (fun _ k' => inv (Busy [] bs bp bg) k' /\ posted k k'
    /\ forall p P, ports k' !! p = Some P -> p_alive P = true -> portno P = no -> g ∉ p_notifiers P)).
  - destruct (global_ports k !! _) as [p|] eqn:E.
    + destruct (listed _ k _ p I E) as (P & HP & Ha & Hno).
      eapply (runs_bind _ _ _ (fun _ k' => inv (Busy [] bs bp bg) k' /\ posted k k')).
      { destruct (negb _); [|by apply runs_ret]. eapply runs_bind; [apply (send_from_system_ok bs bp bg); [exact I|by eexists]|].
        cbn beta. intros e k' (I' & Hp & _). by apply runs_ret. }
      intros _ k1 [I1 H1]. destruct (po_ports _ _ H1 p P HP) as (P1 & HP1 & _ & Hno1 & Ha1 & _).
      eapply runs_get_port; [exact HP1|]. eapply (runs_eq _ _ tt); [done|].
      split; [|split; [etrans; [exact H1|apply posted_leave; [done|set_solver]]|]].
      * apply inv_p_notifiers; [done|done|]. eapply notified_put_port; [apply I1|done|]. cbn. intros _. split_and!; [congruence|done|set_solver].
      * intros q Q HQ Haq Hnoq. cbn in HQ. destruct (decide (q = p)) as [->|Hne].
        { rewrite lookup_insert_eq in HQ. injection HQ as <-. cbn. set_solver. }
        rewrite lookup_insert_ne in HQ by done. destruct (posted_back _ _ q Q H1 HQ) as (Q0 & HQ0 & Hn0 & Ha0 & _).
        assert (Hg : global_ports k !! no = Some q).
        { apply (i_global_ports _ _ I). rewrite (view_is _ _ _ _ HQ0). unfold port_no. by rewrite <- Ha0, Haq, <- Hn0, Hnoq. }
        rewrite port_key in E. congruence.
    + apply runs_ret. split_and!; try done. intros q Q HQ Haq Hnoq.
      assert (Hg : global_ports k !! no = Some q).
      { apply (i_global_ports _ _ I). rewrite (view_is _ _ _ _ HQ). unfold port_no. by rewrite Haq, Hnoq. }
      rewrite port_key in E. congruence.
  - intros _ k1 (I1 & H1 & Hno). eapply runs_mono; [by apply IH|]. intros _ k2 (I2 & H2 & Hl). split; [done|]. split; [by etrans|].
    intros p P HP Ha Hin. apply elem_of_cons in Hin as [Hin|Hin]; [|by apply (Hl p P)].
    destruct (posted_back _ _ p P H2 HP) as (P1 & HP1 & Hn1 & Ha1 & Hsub). intros Hg.
    cbn in Hin. apply (Hno p P1); [done|congruence|congruence|]. set_solver.
Qed.

(** ** Tasks enter and leave *)

Section Groups.
Context (bs bp : option nat).
Let b := Busy [] bs bp None.

Lemma in_order_keys {A} (t : gmap Z A) no : no ∈ (in_order t).*1 <-> is_Some (t !! no).
Proof.
  unfold in_order. rewrite merge_sort_Permutation. rewrite list_elem_of_fmap. split.
  - intros ([n x] & -> & H). apply elem_of_map_to_list in H. by eexists.
  - intros [x H]. exists (no, x). split; [done|]. by apply elem_of_map_to_list.
Qed.

(** The last task has left: the group ends. *)
Lemma destroy_group_ok k g G :
  inv b k -> groups k !! g = Some G -> tasks G <> ∅ ->
  runs (destroy_group g) (set_groups (<[g := set_tasks ∅ G]> (groups k)) k) (fun _ k' => inv b k'
    /\ exists G', groups k' !! g = Some G' /\ tasks G' = ∅).
Proof.
  intros I HG HT. unfold destroy_group. eapply runs_get_group; [cbn; apply lookup_insert_eq|].
  cbn [set_tasks group_id g_rights g_notifiers].
  assert (Hg : global_groups k !! group_id G = Some g).
  { apply (i_global_groups _ _ I). rewrite (view_is _ _ _ _ HG). unfold group_no. by rewrite bool_decide_false. }
  eapply runs_step; [unfold unregister_group, tree_erase; cbn; by rewrite decide_True|].
  pose proof (inv_group_dies b k g G I eq_refl HG HT) as I1.
  eapply runs_bind; [apply (leave_ports_ok (in_order (g_notifiers G)) bs bp (Some g)); exact I1|].
  cbn beta. intros _ k2 (I2 & Hp & Hl). destruct (po_rest _ _ Hp) as (Egs & _). cbn in Egs.
  assert (HG2 : groups k2 !! g = Some (set_tasks ∅ G)) by (rewrite Egs; apply lookup_insert_eq).
  assert (Hno : forall p P, ports k2 !! p = Some P -> p_alive P = true -> g ∉ p_notifiers P).
  { intros p P HP Ha Hin. destruct (i_notifiers _ _ I2 p P g HP Ha Hin) as (X & HX & Hk & _). apply (Hl p P HP Ha); [|done].
    apply in_order_keys. rewrite HG2 in HX. by injection HX as <-. }
  eapply runs_bind; [eapply (destroy_held_ok _ _ _ g (set_tasks ∅ G)); [exact I2|exact HG2|cbn; lia]|].
  cbn beta. intros _ k3 (I3 & Hs & G3 & HG3 & Hr3).
  destruct (sh_groups _ _ Hs g (set_tasks ∅ G) HG2) as (G4 & HG4 & _ & Ht4 & _).
  rewrite HG3 in HG4. injection HG4 as <-. eapply (runs_eq _ _ tt); [done|]. split; [|by exists G3].
  apply (inv_group_dead b k3 g G3); try done. intros p P HP Ha. destruct (ports k2 !! p) as [P2|] eqn:HP2.
  - destruct (sh_ports _ _ Hs p P2 HP2) as (P3 & HP3 & [_ En] & _ & Ea & _). assert (P3 = P) as -> by congruence.
    rewrite En. apply (Hno p P2); congruence.
  - destruct (sh_new _ _ Hs p) as (_ & _ & Hnew & _). rewrite (Hnew HP2) in HP. done.
Qed.

Lemma atomic_remove_task_ok k g G task :
  inv b k -> groups k !! g = Some G ->
  runs (atomic_remove_task g task) k (fun res k' => inv b k' /\ res = (if decide (task ∈ tasks G) then 0 else ENOENT)).
Proof.
  intros I HG. unfold atomic_remove_task. eapply runs_get_group; [done|].
  destruct (decide (task ∈ tasks G)) as [Hin|Hin]; cycle 1.
  { rewrite bool_decide_false by done. by apply runs_ret. }
  rewrite bool_decide_true by done. cbn [negb]. eapply runs_step; [done|].
  assert (HT : tasks G <> ∅) by set_solver.
  eapply (runs_bind _ _ _ (fun _ k' => inv b k' /\ exists G', groups k' !! g = Some G')).
  - case_bool_decide as He; cbn [when].
    + rewrite He. eapply runs_mono; [by apply destroy_group_ok|]. naive_solver.
    + apply runs_ret. split; [by apply inv_tasks|]. cbn. rewrite lookup_insert_eq. by eexists.
  - intros _ k1 (I1 & G1 & HG1). eapply runs_get_group; [exact HG1|]. eapply runs_bind; [by apply (notify_ports_ok bs bp None)|].
    cbn beta. intros _ k2 [I2 _]. by apply runs_ret.
Qed.

(** [atomic_register_task]: a group without tasks is dead and takes none. *)
Lemma atomic_register_task_ok k g G task :
  inv b k -> groups k !! g = Some G ->
  runs (atomic_register_task g task) k (fun res k' => inv b k' /\
    (unchanged k k' /\ (res = ENOENT /\ task ∈ dying k \/ res = EEXIST /\ task ∈ tasks G \/ res = ENOMEM \/ res = ESRCH /\ tasks G = ∅)
     \/ res = 0 /\ task ∉ dying k /\ tasks G <> ∅ /\ posted (set_groups (<[g := set_tasks ({[ task ]} ∪ tasks G) G]> (groups k)) k) k')).
Proof.
  intros I HG. unfold atomic_register_task. assert (Hsame : unchanged k k) by (exists (allocations k); by destruct k).
  eapply runs_step; [done|]. case_bool_decide as Hd; [apply runs_ret; naive_solver|].
  eapply runs_get_group; [done|]. case_bool_decide as Hin; [apply runs_ret; naive_solver|].
  pose proof (fun n => inv_alloc b k n I) as I1.
  apply runs_alloc. intros ok. destruct ok; cbn [negb]; cycle 1. { apply runs_ret. split; [done|]. left. split; [by eexists|]. auto. }
  case_bool_decide as He. { apply runs_ret. split; [done|]. left. split; [by eexists|]. auto. }
  apply runs_alloc. intros ok. destruct ok; cbn [negb]; cycle 1.
  { apply runs_ret. split; [apply I1|]. left. split; [by eexists|]. auto. }
  eapply runs_step; [done|]. set (k1 := set_groups _ _).
  assert (I2 : inv b k1) by (apply (inv_tasks b (set_allocations (S (S (allocations k))) k) g G); try done; set_solver).
  eapply runs_bind; [by apply (notify_ports_ok bs bp None)|]. cbn beta. intros _ k2 [I3 Hp]. apply runs_ret. split; [done|]. right.
  split_and!; try done. etrans; [|exact Hp]. exact (posted_alloc (set_groups _ k) (S (S (allocations k)))).
Qed.

(** ** The ports that a group notifies *)

(** An entry of the map of a group is written ... *)
Lemma inv_write_mask k g G no mask : inv b k -> groups k !! g = Some G ->
  inv b (set_groups (<[g := set_g_notifiers (<[no := mask]> (g_notifiers G)) G]> (groups k)) k).
Proof.
  intros I HG. apply inv_g_notifiers; [done|done|]. intros q Q x HQ Haq Hx.
  destruct (i_notifiers _ _ I q Q x HQ Haq Hx) as (X & HX & Hk & HTx).
  destruct (decide (x = g)) as [->|Hxg]; [|rewrite lookup_insert_ne by done; by exists X]. rewrite lookup_insert_eq.
  eexists. split; [done|]. assert (X = G) as -> by congruence. split; [|done]. cbn. apply lookup_insert_is_Some'. by right.
Qed.

(** ... for a port that does not know the group yet, which is then told ... *)
Lemma inv_enter_map k g G p P mask : inv b k -> groups k !! g = Some G -> tasks G <> ∅ -> ports k !! p = Some P ->
  inv b (set_ports (<[p := set_p_notifiers ({[ g ]} ∪ p_notifiers P) P]> (ports k))
          (set_groups (<[g := set_g_notifiers (<[portno P := mask]> (g_notifiers G)) G]> (groups k)) k)).
Proof.
  intros I HG HT HP. pose proof (inv_write_mask k g G (portno P) mask I HG) as I1.
  apply (inv_p_notifiers b (set_groups _ k) p P _ I1 HP). cbn. intros q Q x HQ Haq Hx.
  destruct (decide (q = p)) as [->|Hqp]; [|rewrite lookup_insert_ne in HQ by done; by apply (i_notifiers _ _ I1 q Q x)].
  rewrite lookup_insert_eq in HQ. injection HQ as <-. cbn in *. apply elem_of_union in Hx as [Hx|Hx]; [|by apply (i_notifiers _ _ I1 p P x)].
  apply elem_of_singleton in Hx as ->. rewrite lookup_insert_eq. eexists. split; [done|]. split; [|done]. cbn. rewrite lookup_insert_eq. by eexists.
Qed.

(** ... and taken out, and the port forgets the group. *)
Lemma inv_leave_map k g G p P : inv b k -> groups k !! g = Some G -> ports k !! p = Some P -> p_alive P = true ->
  inv b (set_ports (<[p := set_p_notifiers (p_notifiers P ∖ {[ g ]}) P]> (ports k))
          (set_groups (<[g := set_g_notifiers (delete (portno P) (g_notifiers G)) G]> (groups k)) k)).
Proof.
  intros I HG HP Ha. set (k1 := set_ports (<[p := set_p_notifiers (p_notifiers P ∖ {[ g ]}) P]> (ports k)) k).
  assert (I1 : inv b k1).
  { apply inv_p_notifiers; [done|done|]. eapply notified_put_port; [apply I|done|]. cbn. intros _. split_and!; [done|done|set_solver]. }
  apply (inv_g_notifiers b k1 g G (delete (portno P) (g_notifiers G)) I1 HG).
  intros q Q x HQ Haq Hx. destruct (i_notifiers _ _ I1 q Q x HQ Haq Hx) as (X & HX & Hk & HTx). cbn in HX.
  destruct (decide (x = g)) as [->|Hxg]; [|cbn; rewrite lookup_insert_ne by done; by exists X]. cbn. rewrite lookup_insert_eq.
  eexists. split; [done|]. assert (X = G) as -> by congruence. split; [|done]. cbn. rewrite lookup_delete_ne; [done|]. intros En.
  cbn in HQ. destruct (decide (q = p)) as [->|Hqp]; [rewrite lookup_insert_eq in HQ; injection HQ as <-; cbn in Hx; set_solver|].
  rewrite lookup_insert_ne in HQ by done. apply Hqp.
  assert (H1 : view port_no (ports k) q = Some (portno P)) by (rewrite (view_is _ _ _ _ HQ); unfold port_no; by rewrite Haq, En).
  assert (H2 : view port_no (ports k) p = Some (portno P)) by (rewrite (view_is _ _ _ _ HP); unfold port_no; by rewrite Ha).
  apply (i_global_ports _ _ I) in H1, H2. congruence.
Qed.

(** What a change of the mask of a port does: the old mask is returned, and a mask of 0 takes
    the port out of the map. *)
Definition mask_changed (k k' : kernel) (g : nat) (no mask : Z) (res : result Z) : Prop :=
  match res with
  | Error e _ => e = ENOMEM /\ unchanged k k'
  | Success old => exists G G', groups k !! g = Some G /\ groups k' = <[g := G']> (groups k)
      /\ tasks G' = tasks G /\ g_rights G' = g_rights G /\ old = default 0 (g_notifiers G !! no)
      /\ g_notifiers G' = (if mask =? 0 then delete no (g_notifiers G) else <[no := mask]> (g_notifiers G))
  end.

Lemma change_notifier_ok k g G p P mask :
  inv b k -> groups k !! g = Some G -> tasks G <> ∅ -> ports k !! p = Some P -> p_alive P = true ->
  runs (change_notifier g p (portno P) mask) k (fun res k' => inv b k' /\ is_Some (ports k' !! p) /\ mask_changed k k' g (portno P) mask res).
Proof.
  intros I HG HT HP Ha. unfold change_notifier. eapply runs_get_group; [done|].
  assert (Hport : forall P', is_Some (<[p := P']> (ports k) !! p)) by (intros P'; rewrite lookup_insert_eq; by eexists).
  destruct (g_notifiers G !! portno P) as [old|] eqn:Eno; destruct (Z.eqb_spec mask 0) as [->|Hne].
  - eapply (runs_bind _ _ _ (fun _ k' => inv b k' /\ is_Some (ports k' !! p) /\ mask_changed k k' g (portno P) 0 (Success old)));
      [|intros _ k' H; by apply runs_ret].
    eapply runs_step; [done|]. eapply runs_get_port; [exact HP|]. eapply (runs_eq _ _ tt); [done|].
    split; [exact (inv_leave_map k g G p P I HG HP Ha)|]. split; [apply Hport|]. exists G. eexists. split_and!; try done. by rewrite Eno.
  - eapply runs_step; [done|]. apply runs_ret. split; [by apply inv_write_mask|]. split; [by eexists|].
    exists G. eexists. split_and!; try done; [by rewrite Eno|]. by rewrite (proj2 (Z.eqb_neq mask 0) Hne).
  - apply runs_ret. split; [done|]. split; [by eexists|]. exists G, G. rewrite insert_id, Eno, delete_id by done. done.
  - apply runs_alloc. intros ok. pose proof (fun n => inv_alloc b k n I) as I1.
    destruct ok; cbn [negb]; [|apply runs_ret; split; [done|]; split; [by eexists|]; split; [done|]; by eexists].
    eapply runs_get_port; [exact HP|]. case_bool_decide as Hin.
    { eapply runs_step; [done|]. apply runs_ret. split; [done|]. split; [by eexists|]. split; [done|]. by eexists. }
    apply runs_alloc. intros ok.
    destruct ok; cbn [negb]; [|apply runs_ret; split; [apply I1|]; split; [by eexists|]; split; [done|]; by eexists].
    do 2 (eapply runs_step; [done|]). apply runs_ret.
    split; [by apply (inv_enter_map (set_allocations (S (S (allocations k))) k))|]. split; [apply Hport|].
    exists G. eexists. split_and!; try done; [by rewrite Eno|]. by rewrite (proj2 (Z.eqb_neq mask 0) Hne).
Qed.

Lemma atomic_change_notifier_mask_ok k g G p P mask flags :
  inv b k -> groups k !! g = Some G -> tasks G <> ∅ -> ports k !! p = Some P -> p_alive P = true ->
  runs (atomic_change_notifier_mask g p mask flags) k (fun res k' => inv b k'
    /\ exists k1, mask_changed k k1 g (portno P) (Z.land mask ACTION_MASK_ALL) res /\ posted k1 k').
Proof.
  intros I HG HT HP Ha. unfold atomic_change_notifier_mask. eapply runs_get_group; [done|]. rewrite bool_decide_false by done.
  eapply runs_get_port; [done|]. eapply runs_bind; [by apply (change_notifier_ok k g G p P)|]. cbn beta.
  intros res k1 (I1 & Hp1 & Hm). destruct res as [e a|old]; [apply runs_ret; split; [done|]; by exists k1|].
  eapply (runs_bind _ _ _ (fun _ k' => inv b k' /\ posted k1 k')).
  - destruct (negb _); [by apply (report_tasks_ok bs bp None)|by apply runs_ret].
  - intros _ k2 [I2 H2]. apply runs_ret. split; [done|]. by exists k1.
Qed.
End Groups.
