(* ===== verification/Ipc.v ===== *)
(** * kernel/generic/processes/syscalls.cc: the system calls of messages and rights

    The handlers look up the port, the group and the rights they are given numbers
    for, check that the caller owns them and call the operations of Rights.v.  A
    handler is the sequence of its calls, each of them a step of Rights.v; the whole
    of it is one step here, as for one processor.

    The system is the kernel of Rights.v with the name space of every task (the task
    group its right numbers refer to) and the tasks there are.  Copying from and to
    the memory of a task is a parameter of the call: it works, fails with an error,
    or blocks on a page, and then the task repeats the call. *)

From stdpp Require Import base list numbers gmap.
From S2P Require Import Prelude Rights.

Record system := System {
  kern : kernel;
  namespaces : gmap Z nat;
  known : gset Z
}.

Inductive copy := Copied | Fault (e : Z) | Blocked.

(** How a call ends: with a value, with an error, or to be repeated. *)
Inductive outcome := Returned (v : Z) | Failed (e aux : Z) | Repeated.

Definition ENOSYS : Z := -58.

(** [syscall_error(task) = e], which is success for 0 *)
Definition error_code (e : Z) : outcome := if e =? 0 then Returned 0 else Failed e 0.

Definition on_copy (c : copy) (next : K outcome) : K outcome :=
  match c with Copied => next | Fault e => mret (error_code e) | Blocked => mret Repeated end.

(** ** Finding things *)

(** [TaskGroup::get_task_group] *)
Definition get_task_group (n : Z) : K (option nat) := read (fun k => global_groups k !! n).

(** A right of the group, or right 0 *)
Definition find_right (g : nat) (right_id : Z) : K (option nat) :=
  if right_id =? 0 then
    id ← read right0_id;
    kt ← read kernel_tasks;
    group_right kt id
  else group_right g right_id.

(** A port of the calling task *)
Definition with_own_port (current portno missing : Z) (next : nat -> K outcome) : K outcome :=
  port ← atomic_get_port portno;
  match port with
  | None => mret (Failed missing 0)
  | Some p =>
      P ← get_port p;
      if negb (owner P =? current) then mret (Failed EPERM 0) else next p
  end.

Definition with_namespace (ns : option nat) (next : nat -> K outcome) : K outcome :=
  match ns with None => mret (Failed ESRCH 0) | Some g => next g end.

Definition of_result (res : result Z) : outcome :=
  match res with Error e aux => Failed e aux | Success v => Returned v end.

(** ** Ports and messages *)

(** The part of [syscall_get_first_message] that takes over the right to reply *)
Definition accept_reply (ns : option nat) (reject : bool) (top : generic_message) : K (result Z) :=
  match top with
  | GMessage m =>
      M ← get_message m;
      match reply_right M with
      | None => mret (Success 0)
      | Some r =>
          if reject then mret (Success 0)
          else match ns with
               | None => mret (Error ESRCH 0)
               | Some g =>
                   id ← atomic_new_right_id g;
                   R ← get_right r;
                   if negb (alive R) then mret (Success id)
                   else
                     G ← get_group g;
                     if bool_decide (tasks G = ∅) then mret (Error ESRCH 0)
                     else
                       _ ← put_right r (set_of_message false (set_holder g (set_right_sender_id id R)));
                       _ ← group_insert g id r;
                       _ ← put_message m (set_reply_right None M);
                       mret (Success id)
               end
      end
  | _ => mret (Success 0)
  end.

(** [syscall_get_first_message], with the flags MSG_ARG_NOPOP and MSG_ARG_REJECT_RIGHT *)
Definition syscall_get_first_message (current : Z) (ns : option nat) (portno : Z) (nopop reject : bool) (copied : copy) : K outcome :=
  with_own_port current portno ENOENT (fun p =>
    P ← get_port p;
    match msg_queue P with
    | [] => mret (Failed EAGAIN 0)
    | top :: _ =>
        on_copy copied (
          if nopop then mret (Returned 0)
          else
            res ← accept_reply ns reject top;
            match res with
            | Error e aux => mret (Failed e aux)
            | Success id => _ ← pop_front p; mret (Returned id)
            end)
    end).

(** [Message_Descriptor], and the functions of a [GenericMessage] that fill it *)
Record message_descriptor := MessageDescriptor {
  d_sender : Z;
  d_size : Z;
  d_sent_with_right : Z;
  d_other_rights_count : Z;
  d_flags : Z
}.

Definition MESSAGE_FLAG_REPLY_RIGHT : Z := 1.
Definition MESSAGE_FLAG_REPLY_SEND_MANY : Z := 2.

(** [Right::type_as_int] *)
Definition type_as_int (t : RightType) : Z := match t with SendOnce => 1 | SendMany => 2 | MemObject => 3 end.

(** [copy_to_user_buff]: the bytes of a message; of the notifications, [destroyed_msg] and
    [send_destroyed_msg] *)
Definition message_bytes (msg : generic_message) : K (list Z) :=
  match msg with
  | GMessage m => M ← get_message m; mret (content M)
  | GRight r =>
      R ← get_right r;
      mret (if bool_decide (rtype R = SendMany) then le_bytes 4 39 ++ le_bytes 2 0 ++ le_bytes 2 2
            else le_bytes 4 38 ++ le_bytes 4 0)
  | GShared _ => mret (le_bytes 4 38 ++ le_bytes 4 0)
  end.

(** [sender_task_id] and [sent_with_right] *)
Definition message_origin (msg : generic_message) : K (Z * Z) :=
  match msg with
  | GMessage m => M ← get_message m; mret (task_id_from M, sent_with_right M)
  | GRight r => R ← get_right r; mret (0, right_parent_id R)
  | GShared s => S ← get_shared s; mret (0, s_right_parent_id S)
  end.

(** The rights of a message: [get_reply_right] and [get_rights] *)
Definition get_reply_right (msg : generic_message) : K (option nat) :=
  match msg with GMessage m => M ← get_message m; mret (reply_right M) | _ => mret None end.
Definition get_rights (msg : generic_message) : K (list (option nat)) :=
  match msg with GMessage m => M ← get_message m; mret (m_rights M) | _ => mret [None; None; None; None] end.

(** The types of the rights, four bits for each place *)
Fixpoint right_flags (l : list (option nat)) (i : Z) : K Z :=
  match l with
  | [] => mret 0
  | None :: l => right_flags l (i + 1)
  | Some r :: l => R ← get_right r; rest ← right_flags l (i + 1); mret (Z.lor (Z.shiftl (type_as_int (rtype R)) (16 + i * 4)) rest)
  end.

Definition message_info (msg : generic_message) : K message_descriptor :=
  reply ← get_reply_right msg;
  reply_flags ← match reply with
                | None => mret 0
                | Some r =>
                    R ← get_right r;
                    mret (Z.lor MESSAGE_FLAG_REPLY_RIGHT (if bool_decide (rtype R = SendMany) then MESSAGE_FLAG_REPLY_SEND_MANY else 0))
                end;
  rights ← get_rights msg;
  types ← right_flags rights 0;
  '(sender, sent_with) ← message_origin msg;
  bytes ← message_bytes msg;
  mret (MessageDescriptor sender (Z.of_nat (length bytes)) sent_with (Z.of_nat (length (omap id rights))) (Z.lor reply_flags types)).

(** [syscall_get_message_info].  With an empty queue the task waits, or fails with EAGAIN when
    it asked not to; the kernel stops when the descriptor cannot be written at once. *)
Definition syscall_get_message_info (current portno : Z) (noblock : bool) (copied : copy) : K (outcome * option message_descriptor) :=
  port ← atomic_get_port portno;
  match port with
  | None => mret (Failed ENOENT 0, None)
  | Some p =>
      P ← get_port p;
      if negb (owner P =? current) then mret (Failed EPERM 0, None)
      else
        match msg_queue P with
        | [] => mret (if noblock then Failed EAGAIN 0 else Repeated, None)
        | msg :: _ =>
            desc ← message_info msg;
            match copied with
            | Copied => mret (Returned 0, Some desc)
            | Fault e => mret (error_code e, None)
            | Blocked => panic
            end
        end
  end.

(** [syscall_send_message_port], with [Port::atomic_send_from_user] *)
Definition syscall_send_message_port (current portno mem_object : Z) (args copied : copy) (data : list Z) : K outcome :=
  on_copy args (
    port ← atomic_get_port portno;
    match port with
    | None => mret (Failed ENOENT 0)
    | Some p =>
        if negb (mem_object =? 0) then mret (Failed ENOSYS 0)
        else
          ok ← alloc;
          if negb ok then mret (Failed ENOMEM 0)
          else
            on_copy copied (
              res ← send_plain p current data;
              match res with Error e aux => mret (Failed e aux) | Success _ => mret (Returned 0) end)
    end).

(** [syscall_create_port], of the caller or of a task that is there *)
Definition syscall_create_port (current : Z) (tasks_map : gset Z) (owner : Z) : K outcome :=
  let t := if (owner =? 0) || (current =? owner) then current else owner in
  if negb ((owner =? 0) || (current =? owner)) && negb (bool_decide (owner ∈ tasks_map)) then mret (Failed ESRCH 0)
  else
    no ← atomic_create_port t;
    mret (match no with Some no => Returned no | None => Failed ENOMEM 0 end).

(** [syscall_delete_port] *)
Definition syscall_delete_port (current portno : Z) : K outcome :=
  with_own_port current portno ENOENT (fun p =>
    ok ← delete_port p; mret (if ok : bool then Returned 0 else Failed ENOENT 0)).

(** ** Rights *)

(** [syscall_set_right0] *)
Definition syscall_set_right0 (ns : option nat) (right_id : Z) : K outcome :=
  with_namespace ns (fun g =>
    right ← group_right g right_id;
    match right with
    | None => mret (Failed ESRCH 0)
    | Some r =>
        R ← get_right r;
        if negb (bool_decide (rtype R = SendMany)) then mret (Failed EPERM 0)
        else e ← set_right0 r g; mret (error_code e)
    end).

(** [syscall_create_right] *)
Definition syscall_create_right (current : Z) (ns : option nat) (portno : Z) (send_once : bool) (copied : copy) : K outcome :=
  with_namespace ns (fun g =>
    with_own_port current portno ESRCH (fun p =>
      right_id ← new_right_id p;
      on_copy copied (
        res ← (if send_once then create_once p g right_id else create_many p g right_id);
        mret (of_result res)))).

(** The loop of [send_message_right] over the numbers of the extra rights *)
Fixpoint extra_rights (g : nat) (ids : list Z) (i : Z) : K (result (list (option nat))) :=
  match ids with
  | [] => mret (Success [])
  | id :: ids =>
      if id =? 0 then
        rest ← extra_rights g ids (i + 1);
        mret (match rest with Success l => Success (None :: l) | Error e aux => Error e aux end)
      else
        right ← group_right g id;
        match right with
        | None => mret (Error ESRCH (i + 1))
        | Some r =>
            rest ← extra_rights g ids (i + 1);
            mret (match rest with Success l => Success (Some r :: l) | Error e aux => Error e aux end)
        end
  end.

(** The port for the right to reply: none, or one of the caller *)
Definition reply_port (current reply_port_id : Z) : K (result (option nat)) :=
  if reply_port_id =? 0 then mret (Success None)
  else
    port ← atomic_get_port reply_port_id;
    match port with
    | None => mret (Error ENOENT (-1))
    | Some p =>
        P ← get_port p;
        if negb (owner P =? current) then mret (Error EPERM 0) else mret (Success (Some p))
    end.

Definition no_rights : list Z := [0; 0; 0; 0].

(** [send_message_right]: when the message cannot be read, the code returns the result
    of fetching the arguments, which is success. *)
Definition syscall_send_message_right (current : Z) (ns : option nat) (right_id reply_port_id : Z) (args buffer : copy)
    (data : list Z) (aux : option (copy * list Z)) (reply_send_many always_delete : bool) : K outcome :=
  on_copy args (
    match buffer with
    | Fault _ => mret (Returned 0)
    | Blocked => mret Repeated
    | Copied =>
        with_namespace ns (fun g =>
          right ← find_right g right_id;
          match right with
          | None => mret (Failed ENOENT 0)
          | Some r =>
              rp ← reply_port current reply_port_id;
              match rp with
              | Error e a => mret (Failed e a)
              | Success rp =>
                  on_copy (match aux with Some (c, _) => c | None => Copied end) (
                    extra ← extra_rights g (match aux with Some (_, ids) => ids | None => no_rights end) 0;
                    match extra with
                    | Error e a => mret (Failed e a)
                    | Success array =>
                        res ← send_message_right r g rp array data current
                                (if reply_send_many then SendMany else SendOnce) always_delete;
                        match res with
                        | Error e a => mret (Failed e a)
                        | Success (_, id) =>
                            _ ← assert (negb (bool_decide (is_Some rp) && (id =? 0)));
                            mret (Returned id)
                        end
                    end)
              end
          end)
    end).

(** [syscall_delete_send_right] *)
Definition syscall_delete_send_right (ns : option nat) (right_id : Z) : K outcome :=
  with_namespace ns (fun g =>
    right ← group_right g right_id;
    match right with
    | None => mret (Failed ESRCH 0)
    | Some r =>
        ok ← destroy r DeletedBySender (Some g);
        mret (if ok : bool then Returned 0 else Failed ENOENT 0)
    end).

(** New numbers for the rights of a message, 0 where there is none *)
Fixpoint draw_ids (g : nat) (rights : list (option nat)) : K (list Z) :=
  match rights with
  | [] => mret []
  | None :: rights => ids ← draw_ids g rights; mret (0 :: ids)
  | Some _ :: rights => id ← atomic_new_right_id g; ids ← draw_ids g rights; mret (id :: ids)
  end.

(** [syscall_accept_rights].  The front of an empty queue is not a message: [msg] is never
    NULL in the code, and the kernel goes on with the head of the list. *)
Definition syscall_accept_rights (current : Z) (ns : option nat) (portno : Z) (copied : copy) : K outcome :=
  with_namespace ns (fun g =>
    with_own_port current portno ENOENT (fun p =>
      P ← get_port p;
      msg ← from (head (msg_queue P));
      rights ← get_rights msg;
      ids ← draw_ids g rights;
      on_copy copied (e ← transfer_rights g msg ids; mret (error_code e)))).

(** [syscall_dup_right] *)
Definition syscall_dup_right (ns : option nat) (right_id : Z) : K outcome :=
  with_namespace ns (fun g =>
    right ← group_right g right_id;
    match right with
    | None => mret (Failed ENOENT 0)
    | Some r => res ← duplicate r g; mret (of_result res)
    end).

(** [syscall_transfer_right] *)
Definition syscall_transfer_right (ns : option nat) (to_group right_id : Z) : K outcome :=
  with_namespace ns (fun g =>
    to ← get_task_group to_group;
    match to with
    | None => mret (Failed ENOENT 0)
    | Some t =>
        right ← group_right g right_id;
        match right with
        | None => mret (Failed ENOENT 0)
        | Some r => res ← atomic_transfer_to_group r g t; mret (of_result res)
        end
    end).

(** [syscall_get_right_type] *)
Definition syscall_get_right_type (ns : option nat) (right_id : Z) : K outcome :=
  with_namespace ns (fun g =>
    right ← find_right g right_id;
    match right with
    | None => mret (Failed ENOENT 0)
    | Some r => R ← get_right r; mret (Returned (type_as_int (rtype R)))
    end).

(** [syscall_watch_right] *)
Definition syscall_watch_right (current : Z) (ns : option nat) (right_id portno : Z) : K outcome :=
  with_namespace ns (fun g =>
    right ← find_right g right_id;
    match right with
    | None => mret (Failed ENOENT 0)
    | Some r =>
        R ← get_right r;
        if negb (bool_decide (rtype R = SendMany)) then mret (Failed ENOSYS 0)
        else with_own_port current portno ENOENT (fun p => res ← atomic_watch r p; mret (of_result res))
    end).

(** ** Task groups *)

(** [syscall_create_task_group] *)
Definition syscall_create_task_group (current : Z) : K outcome :=
  res ← create_for_task current;
  match res with
  | Error e aux => mret (Failed e aux)
  | Success g => g ← from g; G ← get_group g; mret (Returned (group_id G))
  end.

(** [syscall_is_in_task_group] *)
Definition syscall_is_in_task_group (current pid group : Z) : K outcome :=
  g ← get_task_group group;
  match g with
  | None => mret (Failed ENOENT 0)
  | Some g =>
      G ← get_group g;
      mret (Returned (if bool_decide ((if pid =? 0 then current else pid) ∈ tasks G) then 1 else 0))
  end.

(** [syscall_add_to_task_group] *)
Definition syscall_add_to_task_group (current : Z) (tasks_map : gset Z) (pid group : Z) : K outcome :=
  if negb (pid =? 0) && negb (bool_decide (pid ∈ tasks_map)) then mret (Failed ESRCH 0)
  else
    g ← get_task_group group;
    match g with
    | None => mret (Failed ENOENT 0)
    | Some g => e ← atomic_register_task g (if pid =? 0 then current else pid); mret (error_code e)
    end.

(** [syscall_remove_from_task_group] *)
Definition syscall_remove_from_task_group (current : Z) (tasks_map : gset Z) (pid group : Z) : K outcome :=
  if negb (pid =? 0) && negb (bool_decide (pid ∈ tasks_map)) then mret (Failed ESRCH 0)
  else
    g ← get_task_group group;
    match g with
    | None => mret (Failed ENOENT 0)
    | Some g => e ← atomic_remove_task g (if pid =? 0 then current else pid); mret (error_code e)
    end.

(** [syscall_set_notify_mask] *)
Definition syscall_set_notify_mask (group portno new_mask flags : Z) (args : copy) : K outcome :=
  on_copy args (
    g ← get_task_group group;
    match g with
    | None => mret (Failed ENOENT 0)
    | Some g =>
        port ← atomic_get_port portno;
        match port with
        | None => mret (Failed ENOENT 0)
        | Some p => res ← atomic_change_notifier_mask g p new_mask flags; mret (of_result res)
        end
    end).

Definition NAMESPACE_RIGHTS : Z := 1.

(** [syscall_set_namespace]: the group the right numbers of the task refer to from now on *)
Definition syscall_set_namespace (group type : Z) (current : Z) (old : option nat) : K (outcome * option nat) :=
  if negb (type =? NAMESPACE_RIGHTS) then mret (Failed EINVAL 0, old)
  else
    g ← get_task_group group;
    match g with
    | None => mret (Failed ESRCH 0, old)
    | Some g =>
        G ← get_group g;
        if bool_decide (tasks G = ∅) then mret (Failed ESRCH 0, old)
        else if negb (bool_decide (current ∈ tasks G)) then mret (Failed ESRCH 0, old)
        else
          match old with
          | None => mret (Returned 0, Some g)
          | Some o => O ← get_group o; mret (Returned (group_id O), Some g)
          end
    end.

(** ** The end of a task *)

(** [TaskDescriptor::atomic_kill]: the task is marked as dying, and the scheduler calls [cleanup]
    when it comes upon it.  Waking up the task and those that wait for it, and leaving its page
    table, are left out.  [syscall_kill_task], and [syscall_exit] of the caller itself *)
Definition atomic_kill (task : Z) : K unit := fun k => Some (tt, set_dying ({[ task ]} ∪ dying k) k).
Definition syscall_kill_task (tasks_map : gset Z) (task : Z) : K outcome :=
  if negb (bool_decide (task ∈ tasks_map)) then mret (Failed ESRCH 0)
  else _ ← atomic_kill task; mret (Returned 0).
Definition syscall_exit (current : Z) : K outcome := _ ← atomic_kill current; mret (Returned 0).

(** The first port of [owned_ports]: the live ports of the task, in the order of their numbers *)
Definition owned_ports (task : Z) (k : kernel) : gmap Z nat :=
  filter (fun x => owner <$> ports k !! x.2 = Some task) (global_ports k).

(** [TaskDescriptor::cleanup]: the loops over the ports and over the groups.  The groups come
    in the order of their addresses, which is a parameter. *)
Fixpoint delete_owned (fuel : nat) (task : Z) : K unit :=
  match fuel with
  | O => panic
  | S fuel =>
      ps ← read (owned_ports task);
      match tree_begin ps with
      | None => mret tt
      | Some (_, p) => _ ← delete_port p; delete_owned fuel task
      end
  end.

Fixpoint leave_groups (order : list nat) (task : Z) : K unit :=
  match order with
  | [] => mret tt
  | g :: order => _ ← atomic_remove_task g task; leave_groups order task
  end.

Definition cleanup (task : Z) (order : list nat) : K unit :=
  n ← read (fun k => size (owned_ports task k));
  _ ← delete_owned (S n) task;
  leave_groups order task.

(** ** Memory objects *)

(** [Mem_Object::create], as far as rights go: a new object without rights, and its
    end when nothing points to it *)
Definition new_mem_object : K nat :=
  fun k => let o := base.fresh (dom (mem_objects k)) in Some (o, set_mem_objects (<[o := []]> (mem_objects k)) k).
Definition drop_mem_object (o : nat) : K unit := fun k => Some (tt, set_mem_objects (delete o (mem_objects k)) k).

Definition PAGE_SIZE : Z := 4096.

(** [syscall_create_mem_object] *)
Definition syscall_create_mem_object (ns : option nat) (size_bytes : Z) : K outcome :=
  if negb (Z.land size_bytes (PAGE_SIZE - 1) =? 0) then mret (Failed EINVAL 0)
  else
    with_namespace ns (fun g =>
      ok ← alloc;
      if negb ok then mret (Failed ENOMEM 0)
      else
        o ← new_mem_object;
        res ← create_mem o g PERM_ALL;
        match res with
        | Error e aux => _ ← drop_mem_object o; mret (Failed e aux)
        | Success id => mret (Returned id)
        end).

(** ** The system *)

Inductive call :=
| GetFirstMessage (portno : Z) (nopop reject : bool) (copied : copy)
| SendMessagePort (portno mem_object : Z) (args copied : copy) (data : list Z)
| CreatePort (owner : Z)
| DeletePort (portno : Z)
| SetRight0 (right_id : Z)
| CreateRight (portno : Z) (send_once : bool) (copied : copy)
| SendMessageRight (right_id reply_port_id : Z) (args buffer : copy) (data : list Z) (aux : option (copy * list Z))
    (reply_send_many always_delete : bool)
| DeleteSendRight (right_id : Z)
| AcceptRights (portno : Z) (copied : copy)
| DupRight (right_id : Z)
| TransferRight (to_group right_id : Z)
| WatchRight (right_id portno : Z)
| CreateMemObject (size_bytes : Z)
| CreateTaskGroup
| IsInTaskGroup (pid group : Z)
| AddToTaskGroup (pid group : Z)
| RemoveFromTaskGroup (pid group : Z)
| SetNotifyMask (group portno new_mask flags : Z) (args : copy)
| SetNamespace (group type : Z)
| KillTask (task : Z)
| ExitTask
| GetMessageInfo (portno : Z) (noblock : bool) (copied : copy)
| GetRightType (right_id : Z).

(** What a call of task [current] does to the kernel *)
Definition handle (current : Z) (ns : option nat) (tasks_map : gset Z) (c : call) : K outcome :=
  match c with
  | GetFirstMessage no nopop reject copied => syscall_get_first_message current ns no nopop reject copied
  | SendMessagePort no mem args copied data => syscall_send_message_port current no mem args copied data
  | CreatePort owner => syscall_create_port current tasks_map owner
  | DeletePort no => syscall_delete_port current no
  | SetRight0 id => syscall_set_right0 ns id
  | CreateRight no once copied => syscall_create_right current ns no once copied
  | SendMessageRight id rp args buffer data aux many always =>
      syscall_send_message_right current ns id rp args buffer data aux many always
  | DeleteSendRight id => syscall_delete_send_right ns id
  | AcceptRights no copied => syscall_accept_rights current ns no copied
  | DupRight id => syscall_dup_right ns id
  | TransferRight g id => syscall_transfer_right ns g id
  | WatchRight id no => syscall_watch_right current ns id no
  | CreateMemObject size => syscall_create_mem_object ns size
  | CreateTaskGroup => syscall_create_task_group current
  | IsInTaskGroup pid g => syscall_is_in_task_group current pid g
  | AddToTaskGroup pid g => syscall_add_to_task_group current tasks_map pid g
  | RemoveFromTaskGroup pid g => syscall_remove_from_task_group current tasks_map pid g
  | SetNotifyMask g no mask flags args => syscall_set_notify_mask g no mask flags args
  | SetNamespace g type => res ← syscall_set_namespace g type current ns; mret (fst res)
  | KillTask t => syscall_kill_task tasks_map t
  | ExitTask => syscall_exit current
  | GetMessageInfo no noblock copied => res ← syscall_get_message_info current no noblock copied; mret (fst res)
  | GetRightType id => syscall_get_right_type ns id
  end.

(** The name spaces after the call: [set_namespace] changes the one of the caller, and a task
    that leaves the group it has for a name space is left without one. *)
Definition new_namespaces (current : Z) (s : system) (c : call) (out : outcome) : gmap Z nat :=
  match c, out with
  | SetNamespace n _, Returned _ =>
      match global_groups (kern s) !! n with Some g => <[current := g]> (namespaces s) | None => namespaces s end
  | RemoveFromTaskGroup pid n, Returned _ =>
      let t := if pid =? 0 then current else pid in
      if bool_decide (namespaces s !! t = global_groups (kern s) !! n) then delete t (namespaces s) else namespaces s
  | _, _ => namespaces s
  end.

Definition exec (current : Z) (c : call) (s : system) : option (outcome * system) :=
  match handle current (namespaces s !! current) (known s) c (kern s) with
  | Some (out, k) => Some (out, System k (new_namespaces current s c out) (known s))
  | None => None
  end.

(** [TaskDescriptor::cleanup], with the name space that each group it leaves may take away *)
Definition task_groups (k : kernel) (task : Z) (g : nat) : Prop := exists G, groups k !! g = Some G /\ task ∈ tasks G.

Definition exit (task : Z) (order : list nat) (s : system) : option system :=
  match cleanup task order (kern s) with
  | Some (_, k) =>
      Some (System k (if bool_decide (Exists (fun g => namespaces s !! task = Some g) order) then delete task (namespaces s)
                      else namespaces s) (known s ∖ {[ task ]}))
  | None => None
  end.

(** What happens in the system: a task makes a call, RCU runs a callback, a task is created,
    and a dying task ends, leaving its groups in the order of their addresses. *)
Inductive step : system -> system -> Prop :=
| step_call current c s out s' : current ∈ known s -> exec current c s = Some (out, s') -> step s s'
| step_rcu d s k' : d ∈ garbage (kern s) -> rcu_callback d (kern s) = Some (tt, k') -> step s (System k' (namespaces s) (known s))
| step_task t s : t ∉ known s -> t ∉ dying (kern s) -> step s (System (kern s) (namespaces s) ({[ t ]} ∪ known s))
| step_exit t order s s' : t ∈ known s -> t ∈ dying (kern s) -> NoDup order -> (forall g, g ∈ order <-> task_groups (kern s) t g) ->
    exit t order s = Some s' -> step s s'.

(** After the kernel has started: its group with its idle task, and the first task *)
Definition boot (memory : nat -> bool) : system :=
  System (Kernel ∅ ∅ ∅ {[ 0%nat := TaskGroup 1 {[ 1 ]} ∅ 0 ∅ ]} ∅ ∅ [] ∅ {[ 1 := 0%nat ]} 1 2 0%nat 0 1%nat memory 0%nat ∅)
    ∅ {[ 1; 2 ]}.

Inductive reachable (memory : nat -> bool) : system -> Prop :=
| reach_boot : reachable memory (boot memory)
| reach_step s s' : reachable memory s -> step s s' -> reachable memory s'.
