(* ===== verification/IpcSafe.v ===== *)
(** * The system calls keep the invariant and do not fail

    Ipc.v against RightsInv.v: every call of every task leaves a state in which the
    tables, the queues and the reclamation agree, and no call uses an object that has
    been deleted or runs into an assertion, but for the cases the last section names,
    which are bugs of the code. *)

From stdpp Require Import base list numbers gmap fin_maps sorting.
From S2P Require Import Prelude Rights RightsInv RightsOps RightsNew RightsSend RightsTasks Ipc.

(** ** Groups and ports stay where they are *)

Definition groups_kept (k k' : kernel) : Prop :=
  (forall g G, groups k !! g = Some G -> exists G', groups k' !! g = Some G' /\ tasks G' = tasks G)
  /\ kernel_tasks k' = kernel_tasks k.

(** No group is lost, the groups have the tasks they had, and no live port is new. *)
Record settled (k k' : kernel) : Prop := {
  se_groups : groups_kept k k';
  se_tasks : forall g G', groups k' !! g = Some G' -> tasks G' <> ∅ -> exists G, groups k !! g = Some G /\ tasks G = tasks G';
  se_ports : forall p P', ports k' !! p = Some P' -> p_alive P' = true ->
    exists P, ports k !! p = Some P /\ p_alive P = true /\ owner P = owner P'
}.

#[global] Instance settled_refl : Reflexive settled.
Proof. intros k. split; [split; [|done]|..]; eauto. Qed.
#[global] Instance settled_trans : Transitive settled.
Proof.
  intros k1 k2 k3 [[H12 E12] T12 P12] [[H23 E23] T23 P23]. split; [split; [|congruence]|..].
  - intros g G HG. destruct (H12 g G HG) as (G2 & HG2 & E2).
    destruct (H23 g G2 HG2) as (G3 & HG3 & E3). exists G3. split; [done|congruence].
  - intros g G3 HG3 HT. destruct (T23 g G3 HG3 HT) as (G2 & HG2 & E2). destruct (T12 g G2 HG2) as (G & HG & E); [congruence|].
    exists G. split; [done|congruence].
  - intros p P3 HP3 Ha. destruct (P23 p P3 HP3 Ha) as (P2 & HP2 & Ha2 & E2). destruct (P12 p P2 HP2 Ha2) as (P & HP & Ha1 & E1).
    exists P. split_and!; congruence.
Qed.

Lemma settled_eq k k' : groups k' = groups k -> ports k' = ports k -> kernel_tasks k' = kernel_tasks k -> settled k k'.
Proof. intros E1 E2 E3. split; [split; [|done]|..]; rewrite ?E1, ?E2; eauto. Qed.

Lemma settled_put_group k k' g G G' : groups k !! g = Some G -> tasks G' = tasks G -> groups k' = <[g := G']> (groups k) ->
  ports k' = ports k -> kernel_tasks k' = kernel_tasks k -> settled k k'.
Proof.
  intros HG HT E1 E2 E3. split; [split; [|done]|..]; rewrite ?E1, ?E2; [| |eauto]; intros x X HX.
  - destruct (decide (x = g)) as [->|Hne]; [rewrite lookup_insert_eq|rewrite lookup_insert_ne by done; eauto].
    exists G'. split; [done|]. congruence.
  - intros _. destruct (decide (x = g)) as [->|Hne]; [rewrite lookup_insert_eq in HX|rewrite lookup_insert_ne in HX by done; eauto].
    injection HX as <-. eauto.
Qed.

Lemma settled_put_port k k' p P P' : ports k !! p = Some P -> (p_alive P' = true -> p_alive P = true) -> owner P' = owner P ->
  ports k' = <[p := P']> (ports k) -> groups k' = groups k -> kernel_tasks k' = kernel_tasks k -> settled k k'.
Proof.
  intros HP Ha Ho E1 E2 E3. split; [split; [|done]|..]; rewrite ?E1, ?E2; [eauto..|]. intros x X HX Hax.
  destruct (decide (x = p)) as [->|Hne]; [rewrite lookup_insert_eq in HX|rewrite lookup_insert_ne in HX by done; eauto].
  injection HX as <-. exists P. auto.
Qed.

(** Code of that kind: a class, with an instance for every primitive. *)
Class Keeps {A} (c : K A) : Prop := keeps : forall k a k', c k = Some (a, k') -> settled k k'.

#[global] Instance keeps_ret {A} (a : A) : Keeps (mret a : K A).
Proof. intros k x k' [= <- <-]. done. Qed.
#[global] Instance keeps_panic {A} : Keeps (panic : K A).
Proof. intros k x k' H. discriminate H. Qed.
#[global] Instance keeps_bind {A B} (c : K A) (f : A -> K B) : Keeps c -> (forall a, Keeps (f a)) -> Keeps (c ≫= f).
Proof.
  intros Hc Hf k b k' H. unfold mbind, K_bind in H. destruct (c k) as [[a k1]|] eqn:E; [|done].
  etrans; [by eapply Hc|by eapply Hf].
Qed.
#[global] Instance keeps_from {A} (o : option A) : Keeps (from o).
Proof. destruct o; apply _. Qed.
#[global] Instance keeps_assert b : Keeps (assert b).
Proof. destruct b; apply _. Qed.
#[global] Instance keeps_when b c : Keeps c -> Keeps (when b c).
Proof. intros H. destruct b; apply _. Qed.
#[global] Instance keeps_read {A} (f : kernel -> A) : Keeps (read f).
Proof. intros k x k' [= <- <-]. done. Qed.

(** Reading an object, and writing one that is not a group *)
Ltac keeps_get := let H := fresh in intros ? ? ? H; repeat first [progress unfold mbind, option_bind in H | case_match; [|done]];
  by injection H as <- <-.
Ltac keeps_put := let H := fresh in intros ? ? ? H; injection H as <- <-; by apply settled_eq.
#[global] Instance keeps_get_right r : Keeps (get_right r).
Proof. unfold get_right. keeps_get. Qed.
#[global] Instance keeps_get_shared r : Keeps (get_shared r).
Proof. unfold get_shared. keeps_get. Qed.
#[global] Instance keeps_get_port r : Keeps (get_port r).
Proof. unfold get_port. keeps_get. Qed.
#[global] Instance keeps_get_group r : Keeps (get_group r).
Proof. unfold get_group. keeps_get. Qed.
#[global] Instance keeps_get_message r : Keeps (get_message r).
Proof. unfold get_message. keeps_get. Qed.
#[global] Instance keeps_get_mem_object r : Keeps (get_mem_object r).
Proof. unfold get_mem_object. keeps_get. Qed.
#[global] Instance keeps_put_right r R : Keeps (put_right r R).
Proof. keeps_put. Qed.
#[global] Instance keeps_put_shared r R : Keeps (put_shared r R).
Proof. keeps_put. Qed.
#[global] Instance keeps_put_message r R : Keeps (put_message r R).
Proof. keeps_put. Qed.
#[global] Instance keeps_put_mem_object r R : Keeps (put_mem_object r R).
Proof. keeps_put. Qed.
#[global] Instance keeps_new_address : Keeps new_address.
Proof. keeps_put. Qed.
#[global] Instance keeps_alloc : Keeps alloc.
Proof. keeps_put. Qed.
#[global] Instance keeps_rcu_push d : Keeps (rcu_push d).
Proof. keeps_put. Qed.
#[global] Instance keeps_put_right0_id id : Keeps (put_right0_id id).
Proof. keeps_put. Qed.
#[global] Instance keeps_put_biggest_port no : Keeps (put_biggest_port no).
Proof. keeps_put. Qed.
#[global] Instance keeps_atomic_kill t : Keeps (atomic_kill t).
Proof. keeps_put. Qed.
#[global] Instance keeps_drop_message m : Keeps (drop_message m).
Proof. keeps_put. Qed.
#[global] Instance keeps_drop_right m : Keeps (drop_right m).
Proof. keeps_put. Qed.
#[global] Instance keeps_drop_shared m : Keeps (drop_shared m).
Proof. keeps_put. Qed.
#[global] Instance keeps_drop_port p : Keeps (drop_port p).
Proof.
  intros k a k' H. injection H as <- <-. split; [split; [|done]|..]; cbn; [eauto..|]. intros x X HX Ha.
  apply lookup_delete_Some in HX as [_ HX]. eauto.
Qed.

(** Writing a port or a group that has been read *)
Ltac keeps_port := let H := fresh in let P := fresh in let HP := fresh in
  intros ?k ?a ?k' H; unfold get_port, mbind, K_bind in H;
  match type of H with context [ports ?k !! ?p] => destruct (ports k !! p) as [P|] eqn:HP; [|done] end; cbn in H;
  try match type of H with context [from ?o] => destruct o; [|done] end; injection H as <- <-;
  eapply (settled_put_port _ _ _ P); [exact HP| | |reflexivity|done|done]; done.
Ltac keeps_group := let H := fresh in let G := fresh in let HG := fresh in
  intros ?k ?a ?k' H; unfold get_group, mbind, K_bind in H;
  match type of H with context [groups ?k !! ?g] => destruct (groups k !! g) as [G|] eqn:HG; [|done] end; cbn in H;
  try match type of H with context [from ?o] => destruct o; [|done] end; injection H as <- <-;
  eapply (settled_put_group _ _ _ G); [exact HG| |reflexivity|done|done]; done.

#[global] Instance keeps_new_group_id g : Keeps (atomic_new_right_id g).
Proof. unfold atomic_new_right_id. keeps_group. Qed.
#[global] Instance keeps_group_insert g id r : Keeps (group_insert g id r).
Proof. unfold group_insert. keeps_group. Qed.
#[global] Instance keeps_group_erase g id r : Keeps (group_erase g id r).
Proof. unfold group_erase. keeps_group. Qed.
#[global] Instance keeps_new_right_id p : Keeps (new_right_id p).
Proof. unfold new_right_id. keeps_port. Qed.
#[global] Instance keeps_port_insert p id x : Keeps (port_insert p id x).
Proof. unfold port_insert. keeps_port. Qed.
#[global] Instance keeps_port_erase p id x : Keeps (port_erase p id x).
Proof. unfold port_erase. keeps_port. Qed.
#[global] Instance keeps_enqueue p x : Keeps (enqueue p x).
Proof. unfold enqueue. keeps_port. Qed.

(** A port that has been read is written first, then more is done. *)
Lemma keeps_then_port {A} p k P P' (c : K A) a k' : Keeps c -> ports k !! p = Some P ->
  (p_alive P' = true -> p_alive P = true) -> owner P' = owner P -> (put_port p P' ≫= fun _ => c) k = Some (a, k') -> settled k k'.
Proof.
  intros Hc HP Ha Ho H. erewrite kbind in H by done. etrans; [|by eapply Hc]. by eapply (settled_put_port k _ p P).
Qed.
Lemma keeps_then_group {A} g k G G' (c : K A) a k' : Keeps c -> groups k !! g = Some G -> tasks G' = tasks G ->
  (put_group g G' ≫= fun _ => c) k = Some (a, k') -> settled k k'.
Proof.
  intros Hc HG HT H. erewrite kbind in H by done. etrans; [|by eapply Hc]. by eapply (settled_put_group k _ g G).
Qed.

Lemma keeps_read_port {A} p (f : port -> K A) :
  (forall k P a k', ports k !! p = Some P -> f P k = Some (a, k') -> settled k k') -> Keeps (get_port p ≫= f).
Proof.
  intros Hf k a k' H. destruct (ports k !! p) as [P|] eqn:HP.
  - erewrite kbind in H by (by apply get_port_run). by eapply Hf.
  - unfold get_port, mbind, K_bind in H. by rewrite HP in H.
Qed.
Lemma keeps_read_group {A} g (f : task_group -> K A) :
  (forall k G a k', groups k !! g = Some G -> f G k = Some (a, k') -> settled k k') -> Keeps (get_group g ≫= f).
Proof.
  intros Hf k a k' H. destruct (groups k !! g) as [G|] eqn:HG.
  - erewrite kbind in H by (by apply get_group_run). by eapply Hf.
  - unfold get_group, mbind, K_bind in H. by rewrite HG in H.
Qed.

Ltac keeps_table := let H := fresh in intros ? ? ? H; unfold mbind, option_bind in H;
  match type of H with match ?x with _ => _ end = _ => destruct x; [|done] end; injection H as <- <-; by apply settled_eq.
#[global] Instance keeps_register_port no p : Keeps (register_port no p).
Proof. unfold register_port. keeps_table. Qed.
#[global] Instance keeps_unregister_port no p : Keeps (unregister_port no p).
Proof. unfold unregister_port. keeps_table. Qed.
#[global] Instance keeps_register_group no p : Keeps (register_group no p).
Proof. unfold register_group. keeps_table. Qed.
#[global] Instance keeps_unregister_group no p : Keeps (unregister_group no p).
Proof. unfold unregister_group. keeps_table. Qed.
#[global] Instance keeps_take_garbage d : Keeps (take_garbage d).
Proof. unfold take_garbage. keeps_table. Qed.

(** The rest follows the structure of the code. *)
Ltac solve_keeps :=
  repeat first
    [ progress intros
    | apply _
    | apply keeps_bind
    | apply keeps_when
    | match goal with
      | |- Keeps (match ?x with _ => _ end) => destruct x
      | |- Keeps (let '_ := ?x in _) => destruct x
      end ].

#[global] Instance keeps_upd_right r f : Keeps (upd_right r f).
Proof. unfold upd_right. solve_keeps. Qed.
#[global] Instance keeps_remove_from_parent r : Keeps (remove_from_parent r).
Proof. unfold remove_from_parent. solve_keeps. Qed.
#[global] Instance keeps_leave_shared r s : Keeps (leave_shared r s).
Proof. unfold leave_shared. solve_keeps. Qed.
#[global] Instance keeps_destroy r reason mg : Keeps (destroy r reason mg).
Proof. unfold destroy, destroy_nolock_once, destroy_nolock_many, destroy_nolock_base. solve_keeps. Qed.
#[global] Instance keeps_destroy_deleting_message r : Keeps (destroy_deleting_message r).
Proof. unfold destroy_deleting_message. solve_keeps. Qed.
#[global] Instance keeps_destroy_senders n s : Keeps (destroy_senders n s).
Proof. induction n; cbn [destroy_senders]; solve_keeps. Qed.
#[global] Instance keeps_destroy_recieve_right x : Keeps (destroy_recieve_right x).
Proof. unfold destroy_recieve_right, destroy_shared. solve_keeps. Qed.
#[global] Instance keeps_create_once p g id : Keeps (create_once p g id).
Proof. unfold create_once. solve_keeps. Qed.
#[global] Instance keeps_create_many p g id : Keeps (create_many p g id).
Proof. unfold create_many. solve_keeps. Qed.
#[global] Instance keeps_create_mem o g perm : Keeps (create_mem o g perm).
Proof. unfold create_mem. solve_keeps. Qed.
#[global] Instance keeps_duplicate r g : Keeps (duplicate r g).
Proof. unfold duplicate, duplicate_many, duplicate_mem. solve_keeps. Qed.
#[global] Instance keeps_transfer r s t : Keeps (atomic_transfer_to_group r s t).
Proof. unfold atomic_transfer_to_group. solve_keeps. Qed.
#[global] Instance keeps_watch r p : Keeps (atomic_watch r p).
Proof. unfold atomic_watch. solve_keeps. Qed.
#[global] Instance keeps_group_right g id : Keeps (group_right g id).
Proof. unfold group_right. solve_keeps. Qed.
#[global] Instance keeps_set_right0 r g : Keeps (set_right0 r g).
Proof. unfold set_right0. solve_keeps. Qed.
#[global] Instance keeps_destroy_all l : Keeps (destroy_all l).
Proof. induction l; cbn [destroy_all]; solve_keeps. Qed.
#[global] Instance keeps_delete_self e : Keeps (delete_self e).
Proof. unfold delete_self. solve_keeps. Qed.
#[global] Instance keeps_pop_front p : Keeps (pop_front p).
Proof.
  unfold pop_front. apply keeps_read_port. intros k P a k' HP H. destruct (msg_queue P) as [|e q]; [done|].
  refine (keeps_then_port p k P _ _ a k' _ HP _ _ H); done.
Qed.
#[global] Instance keeps_send_plain p t d : Keeps (send_plain p t d).
Proof. unfold send_plain. solve_keeps. Qed.
#[global] Instance keeps_destination r : Keeps (destination r).
Proof. unfold destination. solve_keeps. Qed.
#[global] Instance keeps_check_rights l g i : Keeps (check_rights l g i).
Proof. revert i. induction l; intros i; cbn [check_rights]; solve_keeps. Qed.
#[global] Instance keeps_attach_rights l g m : Keeps (attach_rights l g m).
Proof. induction l; cbn [attach_rights]; solve_keeps. Qed.
#[global] Instance keeps_send_message_right r g rp a d t ty al : Keeps (send_message_right r g rp a d t ty al).
Proof. unfold send_message_right, commit_message, alloc_reply, create_reply. solve_keeps. Qed.
#[global] Instance keeps_accept_loop m g ids i : Keeps (accept_loop m g ids i).
Proof. revert i. induction ids; intros i; cbn [accept_loop]; [|unfold accept_round]; solve_keeps. Qed.
#[global] Instance keeps_transfer_rights g e ids : Keeps (transfer_rights g e ids).
Proof. unfold transfer_rights. solve_keeps. Qed.
#[global] Instance keeps_destroy_registered n p : Keeps (destroy_registered n p).
Proof. induction n; cbn [destroy_registered]; solve_keeps. Qed.
#[global] Instance keeps_forget_port l no : Keeps (forget_port l no).
Proof.
  induction l as [|g l IH]; cbn [forget_port]; [apply _|]. apply keeps_read_group. intros k G a k' HG H.
  refine (keeps_then_group g k G _ _ a k' IH HG _ H). done.
Qed.
#[global] Instance keeps_delete_port p : Keeps (delete_port p).
Proof.
  unfold delete_port. apply keeps_read_port. intros k P a k' HP H. destruct (negb (p_alive P)); [by injection H as <- <-|].
  refine (keeps_then_port p k P _ _ a k' _ HP _ _ H); [done|done].
Qed.
#[global] Instance keeps_drain n p : Keeps (drain n p).
Proof. induction n; cbn [drain]; solve_keeps. Qed.
#[global] Instance keeps_destroy_held n g : Keeps (destroy_held n g).
Proof. induction n; cbn [destroy_held]; solve_keeps. Qed.
#[global] Instance keeps_get_port_no no : Keeps (atomic_get_port no).
Proof. unfold atomic_get_port. apply _. Qed.
#[global] Instance keeps_send_from_system p d : Keeps (send_from_system p d).
Proof. unfold send_from_system. solve_keeps. Qed.
#[global] Instance keeps_notify_ports l action d : Keeps (notify_ports l action d).
Proof. induction l as [|[no mask] l IH]; cbn [notify_ports]; [|unfold notify_port]; solve_keeps. Qed.
#[global] Instance keeps_report_tasks p id l : Keeps (report_tasks p id l).
Proof. induction l; cbn [report_tasks]; solve_keeps. Qed.
#[global] Instance keeps_forget_group p g : Keeps (P ← get_port p; put_port p (set_p_notifiers (p_notifiers P ∖ {[ g ]}) P)).
Proof. keeps_port. Qed.
#[global] Instance keeps_leave_ports g l d : Keeps (leave_ports g l d).
Proof. induction l as [|[no mask] l IH]; cbn [leave_ports]; solve_keeps. Qed.
#[global] Instance keeps_change_notifier g p no mask : Keeps (change_notifier g p no mask).
Proof.
  unfold change_notifier. apply keeps_read_group. intros k G a k' HG H. destruct (g_notifiers G !! no) as [old|].
  - match type of H with (?c ≫= _) k = _ => destruct (c k) as [[u k1]|] eqn:E end.
    + erewrite kbind in H by exact E. injection H as _ <-. destruct (mask =? 0).
      * refine (keeps_then_group g k G _ _ u k1 _ HG _ E). done.
      * injection E as _ <-. by apply (settled_put_group k _ g G (set_g_notifiers (<[no := mask]> (g_notifiers G)) G)).
    + exfalso. revert H. unfold mbind at 1. unfold K_bind at 1. by rewrite E.
  - destruct (mask =? 0); [by injection H as <- <-|]. erewrite kbind in H by done.
    destruct (oracle k (allocations k)); cbn [negb] in H; [|injection H as <- <-; by apply settled_eq].
    destruct (ports k !! p) as [P|] eqn:HP; [|unfold get_port, mbind, K_bind in H; cbn in H; by rewrite HP in H].
    erewrite kbind in H by (by apply get_port_run).
    case_bool_decide; erewrite kbind in H by done; [injection H as <- <-; by apply settled_eq|].
    match type of H with (if negb ?o then _ else _) _ = _ => destruct o end; cbn [negb] in H; [|injection H as <- <-; by apply settled_eq].
    injection H as <- <-. trans (set_groups (<[g := set_g_notifiers (<[no := mask]> (g_notifiers G)) G]> (groups k)) k).
    + by apply (settled_put_group k _ g G (set_g_notifiers (<[no := mask]> (g_notifiers G)) G)).
    + by apply (settled_put_port _ _ p P (set_p_notifiers ({[ g ]} ∪ p_notifiers P) P)).
Qed.
#[global] Instance keeps_change_mask g p mask flags : Keeps (atomic_change_notifier_mask g p mask flags).
Proof. unfold atomic_change_notifier_mask. solve_keeps. Qed.
#[global] Instance keeps_destroy_group g : Keeps (destroy_group g).
Proof. unfold destroy_group. solve_keeps. Qed.

(** ** The handlers *)

Definition fine {A} : A -> kernel -> Prop := fun _ k => inv idle k.

(** A task may use the group it has for a name space: the task is in it. *)
Definition ns_ok (k : kernel) (current : Z) (ns : option nat) : Prop :=
  match ns with None => True | Some g => exists G, groups k !! g = Some G /\ current ∈ tasks G end.

Section Handlers.
Context (k : kernel) (current : Z) (ns : option nat).
Context (I : inv idle k) (Hns : ns_ok k current ns).

Lemma with_namespace_ok next :
  (forall g G, groups k !! g = Some G -> tasks G <> ∅ -> runs (next g) k fine) -> runs (with_namespace ns next) k fine.
Proof.
  intros H. unfold with_namespace, ns_ok in *. destruct ns as [g|]; [|by apply runs_ret]. destruct Hns as (G & HG & HT).
  apply (H g G HG). set_solver.
Qed.

(** A port in the table of ports is alive. *)
Lemma listed_port no p : global_ports k !! no = Some p -> exists P, ports k !! p = Some P /\ p_alive P = true.
Proof.
  intros H. apply (i_global_ports _ _ I) in H. apply view_inv in H as (P & HP & H). exists P. split; [done|].
  unfold port_no in H. by destruct (p_alive P).
Qed.

Definition own_port (portno : Z) (p : nat) (P : port) : Prop :=
  ports k !! p = Some P /\ global_ports k !! (if portno =? 0 then port0_id else portno) = Some p /\ owner P = current.

Lemma with_own_port_ok portno missing next :
  (forall p P, own_port portno p P -> p_alive P = true -> runs (next p) k fine) ->
  runs (with_own_port current portno missing next) k fine.
Proof.
  intros H. unfold with_own_port. eapply runs_step; [done|]. destruct (global_ports k !! _) as [p|] eqn:E; [|by apply runs_ret].
  destruct (listed_port _ p E) as (P & HP & Ha). eapply runs_get_port; [done|].
  destruct (Z.eqb_spec (owner P) current); cbn [negb]; [|by apply runs_ret]. by eapply H.
Qed.

Lemma on_copy_ok c next : runs next k fine -> runs (on_copy c next) k fine.
Proof. intros H. destruct c; [done| |]; by apply runs_ret. Qed.

(** A number of a right of a group *)
Lemma group_right_ok {A} g G id (f : option nat -> K A) Q : groups k !! g = Some G ->
  runs (f None) k Q ->
  (forall r R, g_rights G !! id = Some r -> rights k !! r = Some R -> alive R = true -> of_group R g = true -> runs (f (Some r)) k Q) ->
  runs (group_right g id ≫= f) k Q.
Proof.
  intros HG H0 H1. eapply runs_step; [unfold group_right; erewrite kbind by (by apply get_group_run); done|].
  destruct (g_rights G !! id) as [r|] eqn:E; [|done].
  destruct (held_alive idle k g id r I) as (R & HR & Ha & Hm & Hh & _); [unfold group_at; cbn; by rewrite HG|].
  apply (H1 r R); try done. unfold of_group. by rewrite Hm, Hh, Nat.eqb_refl.
Qed.

Lemma find_right_ok {A} g G id (f : option nat -> K A) Q : groups k !! g = Some G ->
  (id = 0 -> is_Some (groups k !! kernel_tasks k)) -> runs (f None) k Q ->
  (forall r R, rights k !! r = Some R -> alive R = true -> of_message R = false -> runs (f (Some r)) k Q) ->
  runs (find_right g id ≫= f) k Q.
Proof.
  intros HG HK H0 H1. unfold find_right. destruct (Z.eqb_spec id 0) as [->|Hne].
  - destruct (HK eq_refl) as [KT HKT]. eapply runs_step.
    { erewrite kbind by done. erewrite kbind by done. unfold group_right. erewrite kbind by (by apply get_group_run). done. }
    destruct (g_rights KT !! right0_id k) as [r|] eqn:E; [|done].
    destruct (held_alive idle k (kernel_tasks k) (right0_id k) r I) as (R & HR & Ha & Hm & _); [unfold group_at; cbn; by rewrite HKT|].
    by apply (H1 r R).
  - eapply group_right_ok; [done|done|]. intros r R _ HR Ha Hg. apply (H1 r R); try done.
    unfold of_group in Hg. by destruct (of_message R).
Qed.

Lemma fine_mono {A} (c : K A) (P : A -> kernel -> Prop) :
  runs c k P -> (forall a k', P a k' -> inv idle k') -> runs c k fine.
Proof. intros H HP. by eapply runs_mono. Qed.

Lemma fine_then {A B} (c : K A) (f : A -> K B) (P : A -> kernel -> Prop) :
  runs c k P -> (forall a k', P a k' -> runs (f a) k' fine) -> runs (c ≫= f) k fine.
Proof. apply runs_bind. Qed.

Lemma send_message_port_ok portno mem args copied data :
  runs (syscall_send_message_port current portno mem args copied data) k fine.
Proof.
  unfold syscall_send_message_port. apply on_copy_ok. eapply runs_step; [done|].
  destruct (global_ports k !! _) as [p|] eqn:E; [|by apply runs_ret].
  destruct (listed_port _ p E) as (P & HP & Ha). destruct (negb (mem =? 0)); [by apply runs_ret|].
  apply runs_alloc. intros ok. pose proof (inv_alloc idle k (S (allocations k)) I) as I1. destruct ok; cbn [negb]; [|by apply runs_ret].
  destruct copied; cbn [on_copy]; [|by apply runs_ret..].
  eapply runs_bind; [apply (send_plain_ok None None None _ p current data I1); by eexists|].
  intros [e a|u] k' [I' _]; by apply runs_ret.
Qed.

Lemma create_port_ok tasks_map owner : oracle k (allocations k) = true ->
  runs (syscall_create_port current tasks_map owner) k fine.
Proof.
  intros Hok. unfold syscall_create_port. case_match; [by apply runs_ret|].
  eapply fine_then; [by apply (atomic_create_port_ok idle)|]. intros no k' [I' _]. by apply runs_ret.
Qed.

Lemma delete_own_port_ok portno : runs (syscall_delete_port current portno) k fine.
Proof.
  apply with_own_port_ok. intros p P (HP & _) Ha. eapply fine_then; [by apply (delete_port_ok idle k p P)|].
  intros ok k' [I' _]. by apply runs_ret.
Qed.

Lemma syscall_set_right0_ok id : is_Some (groups k !! kernel_tasks k) -> runs (syscall_set_right0 ns id) k fine.
Proof.
  intros [KT HKT]. apply with_namespace_ok. intros g G HG HT. eapply group_right_ok; [done|by apply runs_ret|].
  intros r R _ HR Ha Hg. eapply runs_get_right; [done|]. case_match; [by apply runs_ret|].
  eapply fine_then; [apply (set_right0_ok idle k r g R KT); try done; by apply not_elem_of_nil|].
  intros e k' [I' _]. by apply runs_ret.
Qed.

Lemma delete_send_right_ok id : runs (syscall_delete_send_right ns id) k fine.
Proof.
  apply with_namespace_ok. intros g G HG HT. eapply group_right_ok; [done|by apply runs_ret|].
  intros r R _ HR Ha Hg. eapply fine_then; [by apply (destroy_spec idle k r R)|]. intros ok k' [I' _]. by apply runs_ret.
Qed.

Lemma dup_right_ok id : runs (syscall_dup_right ns id) k fine.
Proof.
  apply with_namespace_ok. intros g G HG HT. eapply group_right_ok; [done|by apply runs_ret|].
  intros r R _ HR Ha Hg. eapply fine_then; [by apply (duplicate_ok idle k r g R G)|]. intros res k' [I' _]. by apply runs_ret.
Qed.

Lemma listed_group n g : global_groups k !! n = Some g -> exists G, groups k !! g = Some G /\ tasks G <> ∅ /\ group_id G = n.
Proof.
  intros H. apply (i_global_groups _ _ I) in H. apply view_inv in H as (G & HG & H). exists G. split; [done|].
  unfold group_no in H. case_bool_decide; [done|]. by injection H.
Qed.

Lemma transfer_right_ok to id : runs (syscall_transfer_right ns to id) k fine.
Proof.
  apply with_namespace_ok. intros g G HG HT. eapply runs_step; [done|].
  destruct (global_groups k !! to) as [t|] eqn:E; [|by apply runs_ret]. destruct (listed_group to t E) as (T & HTt & _).
  eapply group_right_ok; [done|by apply runs_ret|]. intros r R _ HR Ha Hg.
  eapply fine_then; [apply (transfer_ok idle k r g t R T); try done; apply not_elem_of_nil|]. intros res k' [I' _]. by apply runs_ret.
Qed.

Lemma watch_right_ok id portno : (id = 0 -> is_Some (groups k !! kernel_tasks k)) ->
  runs (syscall_watch_right current ns id portno) k fine.
Proof.
  intros HK. apply with_namespace_ok. intros g G HG HT. eapply find_right_ok; [done|done|by apply runs_ret|].
  intros r R HR Ha Hm. eapply runs_get_right; [done|]. case_bool_decide as Ht; cbn [negb]; [|by apply runs_ret].
  apply with_own_port_ok. intros p P (HP & _) Hp.
  eapply fine_then; [apply (atomic_watch_ok idle k r p R P); try done; apply not_elem_of_nil|]. intros res k' [I' _]. by apply runs_ret.
Qed.

Lemma get_right_type_ok id : (id = 0 -> is_Some (groups k !! kernel_tasks k)) -> runs (syscall_get_right_type ns id) k fine.
Proof.
  intros HK. apply with_namespace_ok. intros g G HG HT. eapply find_right_ok; [done|done|by apply runs_ret|].
  intros r R HR Ha Hm. eapply runs_get_right; [done|]. by apply runs_ret.
Qed.

Lemma is_in_task_group_ok pid n : runs (syscall_is_in_task_group current pid n) k fine.
Proof.
  unfold syscall_is_in_task_group. eapply runs_step; [done|]. destruct (global_groups k !! n) as [g|] eqn:E; [|by apply runs_ret].
  destruct (listed_group n g E) as (G & HG & _). eapply runs_get_group; [done|]. by apply runs_ret.
Qed.

Lemma create_right_ok portno once copied : runs (syscall_create_right current ns portno once copied) k fine.
Proof.
  apply with_namespace_ok. intros g G HG HT. apply with_own_port_ok. intros p P (HP & _) Hp.
  eapply runs_new_right_id; [done|]. pose proof (inv_bump_port idle k p P I HP) as I1. set (k1 := set_ports _ k) in *.
  destruct (port_id_free idle k p P I HP) as [Hfree Hpos].
  assert (HP1 : ports k1 !! p = Some (bump_port P)) by apply lookup_insert_eq.
  assert (Hres : reserved k1 p (p_current_right_id P + 1)).
  { intros P' HP'. rewrite HP1 in HP'. injection HP' as <-. cbn. split; [done|lia]. }
  destruct copied; cbn [on_copy]; [|by apply runs_ret..]. destruct once.
  - eapply runs_bind; [by apply (create_once_ok idle k1 p g _ (bump_port P) G)|]. intros res k' [I' _]. by apply runs_ret.
  - eapply runs_bind; [by apply (create_many_ok idle k1 p g _ (bump_port P) G)|]. intros res k' [I' _]. by apply runs_ret.
Qed.

(** The right to reply goes to the group of the receiver. *)
Lemma accept_reply_ok reject e :
  (forall m, e = GMessage m -> is_Some (messages k !! m)) ->
  runs (accept_reply ns reject e) k (fun _ k' => inv idle k' /\ ports k' = ports k).
Proof.
  intros He. destruct e as [m|r|s]; cbn [accept_reply]; [|by apply runs_ret..].
  destruct (He m eq_refl) as [M HM]. eapply runs_get_message; [done|]. destruct (reply_right M) as [r|] eqn:Hr; [|by apply runs_ret].
  destruct reject; [by apply runs_ret|]. destruct ns as [g|]; [|by apply runs_ret]. destruct Hns as (G & HG & HT).
  eapply runs_new_group_id; [done|]. pose proof (inv_bump_group idle k g G I HG) as I1. set (k1 := set_groups _ k) in *.
  pose proof (take_reply M r Hr) as Hperm. destruct (take_right idle k1 m r M _ I1 HM Hperm) as (R & HR & _).
  eapply runs_get_right; [done|]. destruct (alive R) eqn:Ha; cbn [negb]; [|by apply runs_ret].
  assert (HG1 : groups k1 !! g = Some (bump_group G)) by apply lookup_insert_eq.
  assert (HT1 : tasks (bump_group G) <> ∅) by set_solver.
  eapply runs_get_group; [done|]. rewrite bool_decide_false by done. destruct (group_id_free idle k g G I HG) as [Hfree Hpos].
  eapply runs_step; [done|]. eapply runs_group_insert; [exact HG1|exact Hfree|]. eapply runs_step; [done|]. apply runs_ret. split; [|done].
  exact (inv_accept idle k1 m r M _ I1 HM Hperm g (bump_group G) _ R HR Ha HG1 HT1 Hfree ltac:(cbn; lia)).
Qed.

Lemma get_first_message_ok portno nopop reject copied :
  runs (syscall_get_first_message current ns portno nopop reject copied) k fine.
Proof.
  apply with_own_port_ok. intros p P (HP & _) _. eapply runs_get_port; [done|].
  destruct (msg_queue P) as [|e q] eqn:Hq; [by apply runs_ret|]. apply on_copy_ok. destruct nopop; [by apply runs_ret|].
  eapply runs_bind; [apply (accept_reply_ok reject e)|].
  { intros m ->. apply (i_messages _ _ I). exists p. unfold queue. rewrite HP. cbn. rewrite Hq. by left. }
  cbn beta. intros [err a|id] k1 [I1 Hp1]; [by apply runs_ret|].
  eapply runs_bind; [apply (pop_front_ok k1 None None None p P e q I1); [by rewrite Hp1|done]|].
  intros _ k2 [I2 _]. by apply runs_ret.
Qed.

(** The description of a message *)
Definition type_at (o : option nat) : Z :=
  match o with Some r => match rights k !! r with Some R => type_as_int (rtype R) | None => 0 end | None => 0 end.
Fixpoint types_of (l : list (option nat)) (i : Z) : Z :=
  match l with
  | [] => 0
  | None :: l => types_of l (i + 1)
  | Some r :: l => Z.lor (Z.shiftl (type_at (Some r)) (16 + i * 4)) (types_of l (i + 1))
  end.
Definition reply_flags (o : option nat) : Z :=
  match o with
  | Some r => Z.lor 1 (if bool_decide (type_at (Some r) = 2) then 2 else 0)
  | None => 0
  end.

Definition described (M : message) : message_descriptor :=
  MessageDescriptor (task_id_from M) (Z.of_nat (length (content M))) (sent_with_right M) (Z.of_nat (length (omap id (m_rights M))))
    (Z.lor (reply_flags (reply_right M)) (types_of (m_rights M) 0)).

Lemma right_flags_ok l i : (forall r, r ∈ omap id l -> is_Some (rights k !! r)) ->
  runs (right_flags l i) k (fun v k' => k' = k /\ v = types_of l i).
Proof.
  revert i. induction l as [|[r|] l IH]; intros i Hl; cbn [right_flags types_of]; [by apply runs_ret| |by apply IH].
  destruct (Hl r) as [R HR]; [by left|]. eapply runs_get_right; [done|]. eapply runs_bind; [apply IH; intros x Hx; apply Hl; by right|].
  cbn beta. intros v k' [-> ->]. apply runs_ret. split; [done|]. unfold type_at. by rewrite HR.
Qed.

Lemma message_info_ok m M : messages k !! m = Some M -> runs (message_info (GMessage m)) k (fun d k' => k' = k /\ d = described M).
Proof.
  intros HM. assert (Hslot : forall r, r ∈ message_slots M -> exists R, rights k !! r = Some R).
  { intros r Hr. destruct (i_slots _ _ I m r) as (R & HR & _); [unfold slots; by rewrite HM|by exists R]. }
  unfold message_info. eapply runs_step; [unfold get_reply_right; by erewrite kbind by (by apply get_message_run)|].
  eapply (runs_bind _ _ _ (fun v k' => k' = k /\ v = reply_flags (reply_right M))).
  { destruct (reply_right M) as [r|] eqn:Er; [|by apply runs_ret]. destruct (Hslot r) as [R HR].
    { unfold message_slots. rewrite Er. by left. }
    eapply runs_get_right; [done|]. apply runs_ret. split; [done|]. unfold reply_flags, type_at. rewrite HR. by destruct (rtype R). }
  cbn beta. intros v k' [-> ->]. eapply runs_step; [unfold get_rights; by erewrite kbind by (by apply get_message_run)|].
  eapply runs_bind; [apply right_flags_ok|].
  { intros r Hr. destruct (Hslot r) as [R HR]; [|by exists R]. unfold message_slots. apply elem_of_app. by right. }
  cbn beta. intros v k' [-> ->]. eapply runs_step; [unfold message_origin; by erewrite kbind by (by apply get_message_run)|].
  eapply runs_step; [unfold message_bytes; by erewrite kbind by (by apply get_message_run)|]. by apply runs_ret.
Qed.

Lemma note_info_ok p e : e ∈ queue (ports k) p -> runs (message_info e) k (fun _ k' => k' = k).
Proof.
  intros He. destruct e as [m|r|s].
  - destruct (proj2 (i_messages _ _ I m) (ex_intro _ p He)) as [M HM]. eapply runs_mono; [by apply message_info_ok|]. by intros d k' [-> _].
  - assert (HR : exists R, rights k !! r = Some R).
    { apply elem_of_notes, (i_notes _ _ I) in He. unfold view in He. destruct (rights k !! r) as [R|]; [by exists R|done]. }
    destruct HR as [R HR]. unfold message_info. do 4 (eapply runs_step; [done|]). cbn [message_origin message_bytes].
    eapply runs_step; [by erewrite kbind by (by apply get_right_run)|]. cbn beta iota.
    eapply runs_step; [by erewrite kbind by (by apply get_right_run)|]. by apply runs_ret.
  - destruct (i_shared_note _ _ I s p He) as (S & HS & _). unfold message_info. do 4 (eapply runs_step; [done|]). cbn [message_origin message_bytes].
    eapply runs_step; [by erewrite kbind by (by apply get_shared_run)|]. cbn beta iota. eapply runs_step; [done|]. by apply runs_ret.
Qed.

Lemma get_message_info_ok portno noblock copied : copied <> Blocked ->
  runs (syscall_get_message_info current portno noblock copied) k fine.
Proof.
  intros Hc. unfold syscall_get_message_info. eapply runs_step; [done|]. destruct (global_ports k !! _) as [p|] eqn:E; [|by apply runs_ret].
  destruct (listed_port _ p E) as (P & HP & Ha). eapply runs_get_port; [done|].
  destruct (Z.eqb_spec (owner P) current) as [_|_]; cbn [negb]; [|by apply runs_ret]. destruct (msg_queue P) as [|e q] eqn:Hq; [by apply runs_ret|]. eapply runs_bind; [apply (note_info_ok p e)|].
  { unfold queue. rewrite HP. cbn. rewrite Hq. by left. }
  cbn beta. intros d k' ->. by destruct copied; [apply runs_ret..|].
Qed.

Lemma get_message_info_same portno noblock copied res k' :
  syscall_get_message_info current portno noblock copied k = Some (res, k') -> k' = k.
Proof.
  unfold syscall_get_message_info. erewrite kbind by done. destruct (global_ports k !! _) as [p|] eqn:E; [|by intros [= _ <-]].
  destruct (listed_port _ p E) as (P & HP & Ha). erewrite kbind by (by apply get_port_run).
  destruct (Z.eqb_spec (owner P) current) as [_|_]; cbn [negb]; [|by intros [= _ <-]]. destruct (msg_queue P) as [|e q] eqn:Hq; [by intros [= _ <-]|].
  destruct (note_info_ok p e) as (d & k1 & Ed & ->); [unfold queue; rewrite HP; cbn; rewrite Hq; by left|].
  erewrite kbind by exact Ed. destruct copied; [by intros [= _ <-]..|done].
Qed.

(** Numbers for the rights of a message *)
Lemma draw_ids_ok l k0 g G :
  inv idle k0 -> groups k0 !! g = Some G ->
  runs (draw_ids g l) k0 (fun ids k' => inv idle k' /\ messages k' = messages k0 /\ rights k' = rights k0 /\ length ids = length l /\ exists G', groups k' !! g = Some G'
    /\ tasks G' = tasks G /\ g_rights G' = g_rights G /\ g_current_right_id G <= g_current_right_id G'
    /\ NoDup (filter (fun id => id <> 0) ids)
    /\ (forall id, id ∈ ids -> id <> 0 -> g_current_right_id G < id <= g_current_right_id G')
    /\ forall n id r, ids !! n = Some id -> l !! n = Some (Some r) -> id <> 0).
Proof.
  revert k0 G. induction l as [|[r|] l IH]; intros k0 G I0 HG; cbn [draw_ids].
  - apply runs_ret. split; [done|]. split; [done|]. split; [done|]. split; [cbn; congruence|]. exists G. split_and!; try done; [constructor|by intros ? ?%elem_of_nil].
  - eapply runs_new_group_id; [done|]. pose proof (inv_bump_group idle k0 g G I0 HG) as I1. set (k1 := set_groups _ k0) in *.
    assert (HG1 : groups k1 !! g = Some (bump_group G)) by apply lookup_insert_eq.
    destruct (i_group _ _ I0 g G HG) as (Hpos & _).
    eapply runs_bind; [by apply (IH k1 (bump_group G))|]. cbn beta.
    intros ids k' (I' & Hm & Hrs & Hlen & G' & HG' & HT & Hr & Hc & Hnd & Hin & Hz). cbn in HT, Hr, Hc, Hin. apply runs_ret.
    split; [done|]. split; [done|]. split; [done|]. split; [cbn; congruence|]. exists G'. split_and!; try done; [lia|..].
    + rewrite filter_cons_True by lia. apply NoDup_cons. split; [|done]. rewrite list_elem_of_filter. intros [Hne Hi].
      specialize (Hin _ Hi Hne). lia.
    + intros id Hi Hne. apply elem_of_cons in Hi as [->|Hi]; [lia|]. specialize (Hin _ Hi Hne). lia.
    + intros [|n] id x Hn Hx; [|by eapply Hz]. injection Hn as <-. lia.
  - eapply runs_bind; [by apply (IH k0 G)|]. cbn beta. intros ids k' (I' & Hm & Hrs & Hlen & G' & HG' & HT & Hr & Hc & Hnd & Hin & Hz).
    apply runs_ret. split; [done|]. split; [done|]. split; [done|]. split; [cbn; congruence|]. exists G'. split_and!; try done.
    + intros id Hi Hne. apply elem_of_cons in Hi as [->|Hi]; [done|]. by apply Hin.
    + intros [|n] id x Hn Hx; [done|]. by eapply Hz.
Qed.

(** With a message in the queue, its rights go to the group of the receiver. *)
Lemma accept_rights_ok portno copied :
  (forall p P, own_port portno p P -> msg_queue P <> []) -> runs (syscall_accept_rights current ns portno copied) k fine.
Proof.
  intros Hne. apply with_namespace_ok. intros g G HG HT. apply with_own_port_ok. intros p P Hown _.
  destruct Hown as (HP & Hrest) eqn:E. clear E. specialize (Hne p P (conj HP Hrest)). eapply runs_get_port; [done|].
  destruct (msg_queue P) as [|e q] eqn:Hq; [done|]. eapply runs_from; [done|].
  assert (He : forall m, e = GMessage m -> is_Some (messages k !! m)).
  { intros m ->. apply (i_messages _ _ I). exists p. unfold queue. rewrite HP. cbn. rewrite Hq. by left. }
  eapply (runs_bind _ _ _ (fun l k' => k' = k /\ forall m M, e = GMessage m -> messages k !! m = Some M -> l = m_rights M)).
  { destruct e as [m|r|s]; cbn [get_rights]; [|by apply runs_ret..]. destruct (He m eq_refl) as [M HM].
    eapply runs_get_message; [done|]. apply runs_ret. split; [done|]. intros m' M' [= <-]. congruence. }
  cbn beta. intros l k' [-> Hl]. eapply runs_bind; [by apply (draw_ids_ok l k g G)|]. cbn beta.
  intros ids k1 (I1 & Hm1 & _ & _ & G1 & HG1 & HT1 & Hr1 & Hc1 & Hnd & Hin & Hz). destruct copied; cbn [on_copy]; [|by apply runs_ret..].
  eapply (runs_bind _ _ _ (fun _ k' => inv idle k')); [|intros err k2 I2; by apply runs_ret].
  unfold transfer_rights. eapply runs_get_group; [done|]. rewrite bool_decide_false by congruence.
  destruct e as [m|r|s]; [|by apply runs_ret..]. destruct (He m eq_refl) as [M HM].
  eapply (runs_bind _ _ _ (fun _ k' => inv idle k')); [|intros u k2 I2; by apply runs_ret].
  eapply runs_mono; [apply (accept_loop_ok ids idle k1 m g 0 M G1 I1); [congruence|done|congruence| |]|naive_solver].
  - split; [done|]. intros id Hi Hne'. rewrite Hr1. specialize (Hin id Hi Hne'). destruct (i_group _ _ I g G HG) as (Hp0 & Hids & _).
    split; [|lia]. destruct (g_rights G !! id) eqn:E; [|done]. specialize (Hids id ltac:(by eexists)). lia.
  - intros n id r Hn Hr. cbn in Hr. rewrite <- (Hl m M eq_refl HM) in Hr. by eapply Hz.
Qed.

(** The extra rights of a message are rights of the sender's group. *)
Lemma extra_rights_ok ids g G i :
  groups k !! g = Some G ->
  runs (extra_rights g ids i) k (fun res k' => k' = k /\
    match res with
    | Success l => (forall x, x ∈ omap id l -> is_Some (rights k !! x))
        /\ Forall2 (fun id o => if id =? 0 then o = None else g_rights G !! id = o /\ is_Some o) ids l
    | Error e a => e = ESRCH /\ exists id, id ∈ ids /\ id <> 0 /\ g_rights G !! id = None
    end).
Proof.
  clear Hns. intros HG. revert i. induction ids as [|id ids IH]; intros i; cbn [extra_rights].
  - apply runs_ret. split; [done|]. split; [by intros x ?%elem_of_nil|constructor].
  - destruct (Z.eqb_spec id 0) as [->|Hne].
    + eapply runs_bind; [apply IH|]. cbn beta. intros [e a|l] k' [-> H]; apply runs_ret; (split; [done|]); [set_solver|].
      split; [apply H|]. constructor; [done|apply H].
    + eapply runs_step; [unfold group_right; erewrite kbind by (by apply get_group_run); done|].
      destruct (g_rights G !! id) as [r|] eqn:Er; [|apply runs_ret; set_solver].
      destruct (held_alive idle k g id r I) as (R & HR & _); [unfold group_at; cbn; by rewrite HG|].
      eapply runs_bind; [apply IH|]. cbn beta.
      intros [e a|l] k' [-> H]; apply runs_ret; (split; [done|]); [set_solver|]. split.
      * intros x Hx. cbn in Hx. apply elem_of_cons in Hx as [->|Hx]; [by eexists|by apply H].
      * constructor; [|apply H]. by rewrite (proj2 (Z.eqb_neq id 0) Hne).
Qed.

Lemma reply_port_ok id ty : ty = SendOnce \/ ty = SendMany ->
  runs (reply_port current id) k (fun res k' => k' = k /\ match res with Success rp => reply_ok k rp ty | Error _ _ => True end).
Proof.
  intros Hty. unfold reply_port. destruct (id =? 0); [by apply runs_ret|]. eapply runs_step; [done|].
  destruct (global_ports k !! _) as [p|] eqn:E; [|by apply runs_ret]. destruct (listed_port _ p E) as (P & HP & Ha).
  eapply runs_get_port; [done|]. destruct (negb (owner P =? current)); apply runs_ret; (split; [done|]); [done|].
  split; [by exists P|done].
Qed.

Lemma syscall_send_message_right_ok rid rpid args buffer data aux many always :
  (rid = 0 -> is_Some (groups k !! kernel_tasks k)) ->
  runs (syscall_send_message_right current ns rid rpid args buffer data aux many always) k fine.
Proof.
  intros HK. unfold syscall_send_message_right. apply on_copy_ok. destruct buffer; [|by apply runs_ret..].
  apply with_namespace_ok. intros g G HG HT. eapply find_right_ok; [done|done|by apply runs_ret|]. intros r R HR Ha Hm.
  set (ty := if many then SendMany else SendOnce). assert (Hty : ty = SendOnce \/ ty = SendMany) by (unfold ty; destruct many; auto).
  eapply runs_bind; [by apply (reply_port_ok rpid ty)|]. cbn beta. intros [e a|rp] k' [-> Hrp]; [by apply runs_ret|].
  apply on_copy_ok. eapply runs_bind; [by eapply extra_rights_ok|]. cbn beta. intros [e a|array] k' [-> Harr]; [by apply runs_ret|]. destruct Harr as [Harr _].
  eapply runs_bind; [by apply (send_message_right_ok k r g rp array data current ty always R)|]. cbn beta.
  intros [e a|[reply new_id]] k' [I' H]; [by apply runs_ret|]. destruct H as (_ & _ & _ & _ & p & idr & _ & [_ _ _ Hrep _]).
  eapply runs_assert; [|by apply runs_ret]. destruct rp as [q|]; [|done]. destruct reply as [x|]; [|done].
  destruct Hrep as (Hpos & _). by rewrite (proj2 (Z.eqb_neq new_id 0) ltac:(lia)), andb_false_r.
Qed.
End Handlers.

(** ** Memory objects and groups *)

#[global] Instance keeps_new_mem_object : Keeps new_mem_object.
Proof. keeps_put. Qed.
#[global] Instance keeps_drop_mem_object o : Keeps (drop_mem_object o).
Proof. keeps_put. Qed.

Lemma inv_mem_objects b k os :
  inv b k -> (forall o, mem_rights os o = mem_rights (mem_objects k) o) -> inv b (set_mem_objects os k).
Proof.
  intros I H. split; cbn; keep I. eapply collects_ext; [apply (i_mem _ _ I)| |done]. intros o x. by rewrite H.
Qed.

Lemma create_mem_object_ok k current ns size :
  inv idle k -> ns_ok k current ns -> runs (syscall_create_mem_object ns size) k fine.
Proof.
  intros I Hns. unfold syscall_create_mem_object. destruct (negb (_ =? 0)); [by apply runs_ret|].
  apply (with_namespace_ok k current ns I Hns). intros g G HG HT. apply runs_alloc. intros ok.
  pose proof (inv_alloc idle k (S (allocations k)) I) as I1. destruct ok; cbn [negb]; [|by apply runs_ret].
  eapply runs_step; [done|]. cbn [mem_objects set_allocations]. set (o := base.fresh (dom (mem_objects k))).
  assert (Ho : mem_objects k !! o = None) by (apply not_elem_of_dom, is_fresh).
  assert (Hnew : forall x, mem_rights (<[o := []]> (mem_objects k)) x = mem_rights (mem_objects k) x).
  { intros x. unfold mem_rights. destruct (decide (x = o)) as [->|]; [by rewrite lookup_insert_eq, Ho|by rewrite lookup_insert_ne]. }
  set (k2 := set_mem_objects _ _). assert (I2 : inv idle k2) by (by apply inv_mem_objects).
  eapply runs_bind; [apply (create_mem_ok idle k2 o g PERM_ALL [] G I2); [cbn; apply lookup_insert_eq|done]|]. cbn beta.
  intros [e a|id] k' [I' H]; [|by apply runs_ret]. destruct H as [[n ->] _]. eapply runs_step; [done|]. apply runs_ret.
  unfold fine. apply inv_mem_objects; [done|]. intros x. cbn. rewrite delete_insert_eq. unfold mem_rights.
  destruct (decide (x = o)) as [->|]; [by rewrite lookup_delete_eq, lookup_insert_eq|].
  by rewrite lookup_delete_ne, lookup_insert_ne.
Qed.

Section GroupCalls.
Context (k : kernel) (current : Z) (I : inv idle k).

Lemma create_task_group_ok : (oracle k (allocations k) = true -> current ∉ dying k /\ oracle k (S (allocations k)) = true) ->
  runs (syscall_create_task_group current) k fine.
Proof.
  intros Hmem. unfold syscall_create_task_group. eapply runs_bind; [by apply (create_for_task_ok idle)|]. cbn beta.
  intros res k' (I' & _ & _ & _ & _ & H). destruct res as [e a|[g|]]; [by apply runs_ret| |].
  - destruct H as (_ & _ & _ & HG). eapply runs_from; [done|]. eapply runs_get_group; [done|]. by apply runs_ret.
  - destruct H as [H1 H2]. destruct (Hmem H1) as [Hd Ho]. destruct H2; [done|congruence].
Qed.

Lemma add_to_task_group_ok tasks_map pid n : runs (syscall_add_to_task_group current tasks_map pid n) k fine.
Proof.
  unfold syscall_add_to_task_group. case_match; [by apply runs_ret|]. eapply runs_step; [done|].
  destruct (global_groups k !! n) as [g|] eqn:E; [|by apply runs_ret]. destruct (listed_group k I n g E) as (G & HG & _).
  eapply runs_bind; [by apply (atomic_register_task_ok None None k g G)|]. cbn beta. intros e k' [I' _]. by apply runs_ret.
Qed.

Lemma remove_from_task_group_ok tasks_map pid n : runs (syscall_remove_from_task_group current tasks_map pid n) k fine.
Proof.
  unfold syscall_remove_from_task_group. case_match; [by apply runs_ret|]. eapply runs_step; [done|].
  destruct (global_groups k !! n) as [g|] eqn:E; [|by apply runs_ret]. destruct (listed_group k I n g E) as (G & HG & _).
  eapply runs_bind; [by apply (atomic_remove_task_ok None None k g G)|]. cbn beta. intros e k' [I' _]. by apply runs_ret.
Qed.

Lemma set_notify_mask_ok n no mask flags args : runs (syscall_set_notify_mask n no mask flags args) k fine.
Proof.
  apply on_copy_ok; [done|]. eapply runs_step; [done|]. destruct (global_groups k !! n) as [g|] eqn:E; [|by apply runs_ret].
  destruct (listed_group k I n g E) as (G & HG & HT & _). eapply runs_step; [done|].
  destruct (global_ports k !! _) as [p|] eqn:Ep; [|by apply runs_ret]. destruct (listed_port k I _ p Ep) as (P & HP & Ha).
  eapply runs_bind; [by apply (atomic_change_notifier_mask_ok None None k g G p P)|]. cbn beta. intros res k' [I' _]. by apply runs_ret.
Qed.

(** The name space of a task is a group the task is in. *)
Lemma set_namespace_ok n type old : ns_ok k current old ->
  runs (syscall_set_namespace n type current old) k (fun res k' => k' = k /\
    match fst res with
    | Returned _ => exists g G, global_groups k !! n = Some g /\ groups k !! g = Some G /\ current ∈ tasks G
    | _ => True
    end).
Proof.
  intros Hold. unfold syscall_set_namespace. destruct (negb (type =? _)); [by apply runs_ret|]. eapply runs_step; [done|].
  destruct (global_groups k !! n) as [g|] eqn:E; [|by apply runs_ret]. destruct (listed_group k I n g E) as (G & HG & HT & _).
  eapply runs_get_group; [done|]. rewrite bool_decide_false by done. case_bool_decide as Hin; cbn [negb]; [|by apply runs_ret].
  destruct old as [o|]; [|apply runs_ret; split; [done|]; by exists g, G].
  destruct Hold as (O & HO & _). eapply runs_get_group; [done|]. apply runs_ret. split; [done|]. by exists g, G.
Qed.

Lemma inv_dying b d : inv b k -> inv b (set_dying d k).
Proof. intros J. split; cbn; keep J. Qed.
End GroupCalls.

(** ** All calls *)

(** The calls that the code does not survive: those for right 0 when the group of the kernel is
    gone, taking the rights of a message from an empty queue, the lack of memory in two places,
    and a dying task that creates a group. *)
Definition survives (current : Z) (k : kernel) (c : call) : Prop :=
  match c with
  | SetRight0 _ => is_Some (groups k !! kernel_tasks k)
  | SendMessageRight id _ _ _ _ _ _ _ | WatchRight id _ | GetRightType id => id = 0 -> is_Some (groups k !! kernel_tasks k)
  | AcceptRights no _ => forall p P, own_port k current no p P -> msg_queue P <> []
  | CreatePort _ => oracle k (allocations k) = true
  | CreateTaskGroup => oracle k (allocations k) = true -> current ∉ dying k /\ oracle k (S (allocations k)) = true
  | GetMessageInfo _ _ copied => copied <> Blocked
  | _ => True
  end.

Lemma handle_ok current k ns tasks_map c : inv idle k -> ns_ok k current ns -> survives current k c ->
  runs (handle current ns tasks_map c) k fine.
Proof.
  intros I Hns Hc. destruct c; cbn [handle survives] in *.
  - by apply get_first_message_ok.
  - by apply send_message_port_ok.
  - by apply create_port_ok.
  - by apply delete_own_port_ok.
  - by eapply syscall_set_right0_ok.
  - by eapply create_right_ok.
  - by apply syscall_send_message_right_ok.
  - by eapply delete_send_right_ok.
  - by eapply accept_rights_ok.
  - by eapply dup_right_ok.
  - by eapply transfer_right_ok.
  - by apply watch_right_ok.
  - by eapply create_mem_object_ok.
  - by apply create_task_group_ok.
  - by apply is_in_task_group_ok.
  - by apply add_to_task_group_ok.
  - by apply remove_from_task_group_ok.
  - by apply set_notify_mask_ok.
  - eapply runs_bind; [by apply set_namespace_ok|]. intros res k' [-> _]. by apply runs_ret.
  - unfold syscall_kill_task. case_match; [by apply runs_ret|]. eapply runs_step; [done|]. apply runs_ret. by apply inv_dying.
  - unfold syscall_exit. eapply runs_step; [done|]. apply runs_ret. by apply inv_dying.
  - eapply runs_bind; [by apply get_message_info_ok|]. intros res k' I'. by apply runs_ret.
  - by eapply get_right_type_ok.
Qed.

(** A call that does not survive stops the kernel, unless it ends before it changes anything. *)
Section Stops.
Context (k : kernel) (current : Z) (ns : option nat).

Definition stops (c : K outcome) : Prop := forall out k', c k = Some (out, k') -> k' = k.

Lemma stops_ret out : stops (mret out).
Proof. intros o k' [= <- <-]. done. Qed.
Lemma stops_panic : stops panic.
Proof. intros o k' H. discriminate H. Qed.
Lemma stops_none {A} (c : K A) (f : A -> K outcome) : c k = None -> stops (c ≫= f).
Proof. intros E o k' H. unfold mbind, K_bind in H. by rewrite E in H. Qed.
Lemma stops_get {A} (c : K A) (f : A -> K outcome) : (forall a k', c k = Some (a, k') -> k' = k) -> (forall a, stops (f a)) -> stops (c ≫= f).
Proof.
  intros Hc Hf o k' H. unfold mbind, K_bind in H. destruct (c k) as [[a k1]|] eqn:E; [|done]. rewrite (Hc a k1 eq_refl) in H. by eapply Hf.
Qed.
Lemma stops_copy c next : stops next -> stops (on_copy c next).
Proof. intros H. destruct c; [done|apply stops_ret..]. Qed.
Lemma stops_namespace next : (forall g, stops (next g)) -> stops (with_namespace ns next).
Proof. intros H. destruct ns; [apply H|apply stops_ret]. Qed.

Lemma get_same g a k' : get_group g k = Some (a, k') -> k' = k.
Proof. unfold get_group. destruct (groups k !! g); [|done]. cbn. by intros [= _ <-]. Qed.
Lemma get_right_same r a k' : get_right r k = Some (a, k') -> k' = k.
Proof. unfold get_right. destruct (rights k !! r); [|done]. cbn. by intros [= _ <-]. Qed.
Lemma get_port_same p a k' : get_port p k = Some (a, k') -> k' = k.
Proof. unfold get_port. destruct (ports k !! p); [|done]. cbn. by intros [= _ <-]. Qed.
Lemma group_right_same g id a k' : group_right g id k = Some (a, k') -> k' = k.
Proof.
  unfold group_right, mbind, K_bind. destruct (get_group g k) as [[G k1]|] eqn:E; [|done]. apply get_same in E as ->. by intros [= _ <-].
Qed.

Lemma find_right_stops g : groups k !! kernel_tasks k = None -> find_right g 0 k = None.
Proof.
  intros HK. unfold find_right. rewrite Z.eqb_refl. erewrite kbind by done. erewrite kbind by done. unfold group_right, mbind, K_bind, get_group.
  by rewrite HK.
Qed.

Lemma own_port_stops portno missing next :
  (forall p P, own_port k current portno p P -> stops (next p)) -> stops (with_own_port current portno missing next).
Proof.
  intros H o k' Hrun. unfold with_own_port in Hrun. erewrite kbind in Hrun by done.
  destruct (global_ports k !! _) as [p|] eqn:E; [|by injection Hrun].
  unfold mbind, K_bind in Hrun. destruct (get_port p k) as [[P k1]|] eqn:EP; [|done].
  pose proof (get_port_same _ _ _ EP) as ->. unfold get_port in EP. destruct (ports k !! p) as [P'|] eqn:HP; [|done].
  injection EP as ->. destruct (Z.eqb_spec (owner P) current); cbn [negb] in Hrun; [|by injection Hrun]. by eapply H.
Qed.

Lemma own_port_unique portno p P p' P' : own_port k current portno p P -> own_port k current portno p' P' -> p' = p /\ P' = P.
Proof. intros (H1 & H2 & _) (H3 & H4 & _). rewrite H2 in H4. injection H4 as <-. split; congruence. Qed.

Lemma own_queue_empty portno :
  (exists p P, own_port k current portno p P /\ msg_queue P = []) \/ forall p P, own_port k current portno p P -> msg_queue P <> [].
Proof.
  set (no := if portno =? 0 then port0_id else portno). destruct (global_ports k !! no) as [p|] eqn:E1.
  2:{ right. intros p P (_ & H & _). fold no in H. congruence. }
  destruct (ports k !! p) as [P|] eqn:E2. 2:{ right. intros q Q (H2 & H & _). fold no in H. congruence. }
  destruct (decide (owner P = current /\ msg_queue P = [])) as [[H1 H2]|Hne].
  - left. exists p, P. by split; [split_and!|].
  - right. intros q Q (H2 & H & H3) Hq. fold no in H. assert (q = p) as -> by congruence. assert (Q = P) as -> by congruence. auto.
Qed.
End Stops.

(** Whatever call it is, the state it leaves satisfies the invariant. *)
Lemma handle_inv current k ns tasks_map c out k' : inv idle k -> ns_ok k current ns ->
  handle current ns tasks_map c k = Some (out, k') -> inv idle k'.
Proof.
  intros I Hns H.
  assert (Hok : survives current k c -> inv idle k').
  { intros Hc. destruct (handle_ok current k ns tasks_map c I Hns Hc) as (o & k1 & E & I'). rewrite H in E. by injection E as <- <-. }
  assert (Hstop : stops k (handle current ns tasks_map c) -> inv idle k').
  { intros Hc. by rewrite (Hc _ _ H). }
  assert (HK : forall id, (id = 0 -> is_Some (groups k !! kernel_tasks k)) \/ id = 0 /\ groups k !! kernel_tasks k = None).
  { intros id. destruct (decide (is_Some (groups k !! kernel_tasks k))) as [?|Hn%eq_None_not_Some]; [by left|].
    destruct (decide (id = 0)); [by right|by left]. }
  destruct c; try (by apply Hok); cbn [handle survives] in *.
  - destruct (oracle k (allocations k)) eqn:Eo; [by apply Hok|]. apply Hstop. unfold syscall_create_port.
    case_match; [apply stops_ret|]. apply stops_none. unfold atomic_create_port. do 3 (erewrite kbind by done).
    cbn. by rewrite Eo.
  - destruct (HK 0) as [?|[_ Hn]]; [apply Hok; auto|]. apply Hstop, stops_namespace. intros g.
    apply stops_get; [intros; by eapply group_right_same|]. intros [r|]; [|apply stops_ret].
    apply stops_get; [intros; by eapply get_right_same|]. intros R. case_match; [apply stops_ret|]. apply stops_none.
    unfold set_right0. do 2 (erewrite kbind by done). unfold group_right, mbind, K_bind, get_group. by rewrite Hn.
  - destruct (HK right_id) as [?|[-> Hn]]; [by apply Hok|]. apply Hstop. unfold syscall_send_message_right. apply stops_copy.
    destruct buffer; [|apply stops_ret..]. apply stops_namespace. intros g. by apply stops_none, find_right_stops.
  - destruct (own_queue_empty k current portno) as [(p & P & Hown & Hq)|?]; [|by apply Hok].
    apply Hstop, stops_namespace. intros g. apply own_port_stops. intros p' P' Hown'.
    destruct (own_port_unique k current portno p P p' P' Hown Hown') as [-> _]. destruct Hown as (HP & _).
    intros o k2 Hrun. erewrite kbind in Hrun by (by apply get_port_run). rewrite Hq in Hrun. discriminate Hrun.
  - destruct (HK right_id) as [?|[-> Hn]]; [by apply Hok|]. apply Hstop, stops_namespace. intros g.
    by apply stops_none, find_right_stops.
  - destruct (create_for_task_ok idle k current I eq_refl) as (res & k1 & E & I1 & _ & _ & _ & _ & Hres).
    unfold syscall_create_task_group in H. erewrite kbind in H by exact E. destruct res as [e a|[g|]]; [by injection H as _ <-| |done].
    erewrite kbind in H by done. unfold mbind, K_bind in H. destruct (get_group g k1) as [[G k2]|] eqn:EG; [|discriminate H].
    apply get_same in EG as ->. by injection H as _ <-.
  - assert (Hsame : k' = k); [|by subst]. unfold mbind, K_bind in H. destruct (syscall_get_message_info _ _ _ _ k) as [[res k1]|] eqn:E; [|done].
    injection H as _ <-. by eapply get_message_info_same.
  - destruct (HK right_id) as [?|[-> Hn]]; [by apply Hok|]. apply Hstop, stops_namespace. intros g.
    by apply stops_none, find_right_stops.
Qed.
