(* ===== verification/IpcInv.v ===== *)
(** * The invariant of the whole system

    Every state that calls, callbacks, new tasks and the ends of tasks lead to
    satisfies the invariant of RightsInv.v, every task is in the group it has for a
    name space, and the owners of the live ports and the members of the groups are
    tasks that are there. *)

From stdpp Require Import base list numbers gmap fin_maps sorting.
From S2P Require Import Prelude Rights RightsInv RightsOps RightsNew RightsSend RightsTasks Ipc IpcSafe.

Record sys_inv (s : system) : Prop := {
  si_inv : inv idle (kern s);
  si_ns : forall t g, namespaces s !! t = Some g -> exists G, groups (kern s) !! g = Some G /\ t ∈ tasks G;
  si_ports : forall p P, ports (kern s) !! p = Some P -> p_alive P = true -> owner P ∈ known s;
  si_tasks : forall g G, groups (kern s) !! g = Some G -> tasks G ⊆ known s
}.

Lemma sys_ns s t : sys_inv s -> ns_ok (kern s) t (namespaces s !! t).
Proof. intros H. unfold ns_ok. destruct (namespaces s !! t) as [g|] eqn:E; [by apply (si_ns _ H)|done]. Qed.

(** ** Tasks leave groups *)

(** Groups keep their tasks, but for [t], and no live port is new. *)
Record departs (t : Z) (k k' : kernel) : Prop := {
  dp_groups : forall g G, groups k !! g = Some G -> exists G', groups k' !! g = Some G' /\ tasks G ∖ {[ t ]} ⊆ tasks G';
  dp_tasks : forall g G', groups k' !! g = Some G' -> tasks G' <> ∅ -> exists G, groups k !! g = Some G /\ tasks G' ⊆ tasks G;
  dp_ports : forall p P', ports k' !! p = Some P' -> p_alive P' = true ->
    exists P, ports k !! p = Some P /\ p_alive P = true /\ owner P = owner P'
}.

#[global] Instance departs_trans t : Transitive (departs t).
Proof.
  intros k1 k2 k3 [G12 T12 P12] [G23 T23 P23]. split.
  - intros g G HG. destruct (G12 g G HG) as (G2 & HG2 & E2). destruct (G23 g G2 HG2) as (G3 & HG3 & E3). exists G3. split; [done|set_solver].
  - intros g G3 HG3 HT. destruct (T23 g G3 HG3 HT) as (G2 & HG2 & E2). destruct (T12 g G2 HG2) as (G & HG & E); [set_solver|].
    exists G. split; [done|set_solver].
  - intros p P3 HP3 Ha. destruct (P23 p P3 HP3 Ha) as (P2 & HP2 & Ha2 & E2). destruct (P12 p P2 HP2 Ha2) as (P & HP & Ha1 & E1).
    exists P. split_and!; congruence.
Qed.

Lemma settled_departs t k k' : settled k k' -> departs t k k'.
Proof.
  intros [[Hg _] HT Hp]. split; [| |done].
  - intros g G HG. destruct (Hg g G HG) as (G' & HG' & E). exists G'. split; [done|set_solver].
  - intros g G' HG' Hne. destruct (HT g G' HG' Hne) as (G & HG & E). exists G. split; [done|set_solver].
Qed.

Definition with_tasks (k : kernel) (g : nat) (G : task_group) (T : gset Z) : kernel := set_groups (<[g := set_tasks T G]> (groups k)) k.

Lemma departs_task t k g G : groups k !! g = Some G -> departs t k (with_tasks k g G (tasks G ∖ {[ t ]})).
Proof.
  intros HG. split; cbn; [| |eauto]; intros x X HX.
  - destruct (decide (x = g)) as [->|Hne]; [rewrite lookup_insert_eq|rewrite lookup_insert_ne by done; exists X; set_solver].
    eexists. split; [done|]. cbn. set_solver.
  - intros _. destruct (decide (x = g)) as [->|Hne]; [rewrite lookup_insert_eq in HX|rewrite lookup_insert_ne in HX by done; eauto].
    injection HX as <-. exists G. split; [done|]. cbn. set_solver.
Qed.

(** [atomic_remove_task] takes the task out of the one group. *)
Lemma remove_task_settled g G t e k k' :
  groups k !! g = Some G -> t ∈ tasks G -> atomic_remove_task g t k = Some (e, k') ->
  settled (with_tasks k g G (tasks G ∖ {[ t ]})) k'.
Proof.
  intros HG Hin H. unfold atomic_remove_task in H. erewrite kbind in H by (by apply get_group_run).
  rewrite bool_decide_true in H by done. cbn [negb] in H. erewrite kbind in H by done.
  match type of H with ?c _ = _ => assert (Hc : Keeps c) by solve_keeps end. by eapply Hc.
Qed.

(** [atomic_register_task] adds it. *)
Lemma register_task_settled g G t e k k' :
  groups k !! g = Some G -> atomic_register_task g t k = Some (e, k') ->
  settled k k' \/ tasks G <> ∅ /\ settled (with_tasks k g G ({[ t ]} ∪ tasks G)) k'.
Proof.
  intros HG H. unfold atomic_register_task in H. erewrite kbind in H by done.
  case_bool_decide; [injection H as <- <-; by left|]. erewrite kbind in H by (by apply get_group_run).
  case_bool_decide; [injection H as <- <-; by left|]. erewrite kbind in H by done.
  destruct (oracle k (allocations k)); cbn [negb] in H; [|left; injection H as <- <-; by apply settled_eq].
  case_bool_decide as HT; [left; injection H as <- <-; by apply settled_eq|]. erewrite kbind in H by done.
  match type of H with (if negb ?o then _ else _) _ = _ => destruct o end; cbn [negb] in H; [|left; injection H as <- <-; by apply settled_eq].
  right. split; [done|]. erewrite kbind in H by done.
  match type of H with ?c ?k1 = _ => assert (Hc : Keeps c) by solve_keeps; trans k1; [by apply settled_eq|] end. by eapply Hc.
Qed.

(** ** Calls *)

#[global] Instance keeps_get_task_group n : Keeps (get_task_group n).
Proof. unfold get_task_group. apply _. Qed.
#[global] Instance keeps_find_right g id : Keeps (find_right g id).
Proof. unfold find_right. solve_keeps. Qed.
#[global] Instance keeps_draw_ids g l : Keeps (draw_ids g l).
Proof. induction l as [|[r|] l IH]; cbn [draw_ids]; solve_keeps. Qed.
#[global] Instance keeps_extra_rights g l i : Keeps (extra_rights g l i).
Proof. revert i. induction l; intros i; cbn [extra_rights]; solve_keeps. Qed.
#[global] Instance keeps_reply_port t id : Keeps (reply_port t id).
Proof. unfold reply_port. solve_keeps. Qed.
#[global] Instance keeps_get_rights e : Keeps (get_rights e).
Proof. unfold get_rights. solve_keeps. Qed.
#[global] Instance keeps_right_flags l i : Keeps (right_flags l i).
Proof. revert i. induction l as [|[r|] l IH]; intros i; cbn [right_flags]; solve_keeps. Qed.
#[global] Instance keeps_message_info e : Keeps (message_info e).
Proof. unfold message_info, get_reply_right, message_origin, message_bytes. solve_keeps. Qed.
#[global] Instance keeps_accept_reply ns b e : Keeps (accept_reply ns b e).
Proof. unfold accept_reply. solve_keeps. Qed.

(** The calls that create ports, or change the groups that tasks are in or have for name spaces *)
Definition group_call (c : call) : bool :=
  match c with
  | CreatePort _ | CreateTaskGroup | AddToTaskGroup _ _ | RemoveFromTaskGroup _ _ | SetNamespace _ _ => true
  | _ => false
  end.

Lemma handle_keeps current ns tasks_map c : group_call c = false -> Keeps (handle current ns tasks_map c).
Proof.
  intros Hc. destruct c; try discriminate Hc; cbn [handle];
    unfold syscall_get_first_message, syscall_send_message_port, syscall_delete_port, syscall_set_right0,
      syscall_create_right, syscall_send_message_right, syscall_delete_send_right, syscall_accept_rights, syscall_dup_right,
      syscall_transfer_right, syscall_watch_right, syscall_create_mem_object, syscall_is_in_task_group, syscall_set_notify_mask,
      syscall_kill_task, syscall_exit, syscall_get_message_info, syscall_get_right_type, with_namespace, with_own_port, on_copy; solve_keeps.
Qed.

Lemma settled_sys s k' : sys_inv s -> inv idle k' -> settled (kern s) k' -> sys_inv (System k' (namespaces s) (known s)).
Proof.
  intros [I Hns Hp HT] I' [[Hg _] Hg' Hp']. split; cbn; [done|..].
  - intros t g E. destruct (Hns t g E) as (G & HG & Ht). destruct (Hg g G HG) as (G' & HG' & E'). exists G'. by rewrite E'.
  - intros p P' HP' Ha. destruct (Hp' p P' HP' Ha) as (P & HP & HPa & <-). by eapply Hp.
  - intros g G' HG'. destruct (decide (tasks G' = ∅)) as [->|Hne]; [set_solver|].
    destruct (Hg' g G' HG' Hne) as (G & HG & <-). by eapply HT.
Qed.

Lemma new_namespaces_same current s c out : group_call c = false -> new_namespaces current s c out = namespaces s.
Proof. by destruct c. Qed.

Section GroupCalls.
Context (s : system) (current : Z) (Hs : sys_inv s) (Hcur : current ∈ known s).

Lemma create_port_sys t out k' : inv idle k' -> syscall_create_port current (known s) t (kern s) = Some (out, k') ->
  sys_inv (System k' (namespaces s) (known s)).
Proof.
  intros I' E. unfold syscall_create_port in E. destruct (negb _ && negb _) eqn:Ek.
  { injection E as <- <-. by apply settled_sys. }
  set (o := if (t =? 0) || (current =? t) then current else t) in E. assert (Ho : o ∈ known s).
  { subst o. destruct ((t =? 0) || (current =? t)); [done|]. cbn in Ek. apply negb_false_iff, bool_decide_eq_true in Ek. done. }
  destruct (oracle (kern s) (allocations (kern s))) eqn:Eo; cycle 1.
  { exfalso. revert E. unfold atomic_create_port, mbind, K_bind. cbn. by rewrite Eo. }
  destruct (atomic_create_port_ok idle (kern s) o (si_inv _ Hs) Eo) as (res & k1 & E1 & _ & Hg & Hk & Hres).
  erewrite kbind in E by exact E1. injection E as _ <-. destruct res as [no|].
  - destruct Hres as (_ & _ & _ & _ & Hps). destruct Hs as [I Hns Hp HT]. split; cbn; rewrite ?Hg, ?Hps; try done.
    intros p P HP Ha. destruct (decide (p = fresh (kern s))) as [->|Hne].
    + rewrite lookup_insert_eq in HP. by injection HP as <-.
    + rewrite lookup_insert_ne in HP by done. by eapply Hp.
  - destruct Hres as [_ Hps]. apply settled_sys; [done|done|]. by apply settled_eq.
Qed.

Lemma create_group_sys out k' : inv idle k' -> syscall_create_task_group current (kern s) = Some (out, k') ->
  sys_inv (System k' (namespaces s) (known s)).
Proof.
  intros I' E. destruct (create_for_task_ok idle (kern s) current (si_inv _ Hs) eq_refl) as (res & k1 & E1 & I1 & Hg & Hf & Hp & Hk & _).
  unfold syscall_create_task_group in E. erewrite kbind in E by exact E1.
  assert (Hs1 : sys_inv (System k1 (namespaces s) (known s))).
  { destruct Hs as [I Hns Hp' HT]. split; cbn; rewrite ?Hp; try done.
    - intros t g Et. destruct (Hns t g Et) as (G & HG & Ht). exists G. split; [|done]. destruct Hg as [->|(X & -> & _)]; [done|].
      rewrite lookup_insert_ne by congruence. done.
    - intros g G HG. destruct Hg as [Hg|(X & Hg & HX)]; rewrite Hg in HG; [by eapply HT|].
      destruct (decide (g = fresh (kern s))) as [->|Hne]; [rewrite lookup_insert_eq in HG|rewrite lookup_insert_ne in HG by done; by eapply HT].
      injection HG as <-. set_solver. }
  apply (settled_sys _ k' Hs1 I'). cbn. match type of E with ?c k1 = _ => assert (Hc : Keeps c) by solve_keeps end. by eapply Hc.
Qed.

Lemma add_to_group_sys pid n out k' : inv idle k' -> syscall_add_to_task_group current (known s) pid n (kern s) = Some (out, k') ->
  sys_inv (System k' (namespaces s) (known s)).
Proof.
  intros I' E. unfold syscall_add_to_task_group in E. destruct (negb _ && negb _) eqn:Ek. { injection E as <- <-. by apply settled_sys. }
  erewrite kbind in E by done. destruct (global_groups (kern s) !! n) as [g|] eqn:Eg; [|injection E as <- <-; by apply settled_sys].
  destruct (listed_group (kern s) (si_inv _ Hs) n g Eg) as (G & HG & _).
  set (t := if pid =? 0 then current else pid) in E. assert (Ht : t ∈ known s).
  { subst t. destruct (pid =? 0); [done|]. cbn in Ek. by apply negb_false_iff, bool_decide_eq_true in Ek. }
  destruct (atomic_register_task g t (kern s)) as [[e k1]|] eqn:Er; [|by unfold mbind, K_bind in E; rewrite Er in E].
  erewrite kbind in E by exact Er. injection E as _ <-.
  destruct (register_task_settled g G t e (kern s) k1 HG Er) as [H|[HT H]]; [by apply settled_sys|].
  refine (settled_sys (System (with_tasks (kern s) g G ({[ t ]} ∪ tasks G)) (namespaces s) (known s)) k1 _ I' H).
  destruct Hs as [I Hns Hp HTs]. split; cbn; try done.
  - by apply inv_tasks; [| |done|set_solver].
  - intros u x Eu. destruct (Hns u x Eu) as (X & HX & Hu). destruct (decide (x = g)) as [->|Hne].
    + rewrite lookup_insert_eq. eexists. split; [done|]. cbn. assert (X = G) as -> by congruence. set_solver.
    + rewrite lookup_insert_ne by done. by exists X.
  - intros x X HX. destruct (decide (x = g)) as [->|Hne]; [rewrite lookup_insert_eq in HX|rewrite lookup_insert_ne in HX by done; by eapply HTs].
    injection HX as <-. cbn. pose proof (HTs g G HG). set_solver.
Qed.
End GroupCalls.

(** A task has left groups: the others keep their name spaces; [kn] are the tasks there are now. *)
Lemma departs_sys s t k' ns kn : sys_inv s -> inv idle k' -> departs t (kern s) k' -> known s ∖ {[ t ]} ⊆ kn ->
  (forall u g, ns !! u = Some g -> namespaces s !! u = Some g) ->
  (forall g, ns !! t = Some g -> exists G, groups k' !! g = Some G /\ t ∈ tasks G) ->
  (t ∈ kn \/ (forall p P, ports k' !! p = Some P -> p_alive P = true -> owner P <> t)
          /\ (forall g G, groups k' !! g = Some G -> t ∉ tasks G)) ->
  sys_inv (System k' ns kn).
Proof.
  intros [I Hns Hp HT] I' [Dg DT Dp] Hkn Hsub Ht Hgone. split; cbn; [done|..].
  - intros u g Eu. destruct (decide (u = t)) as [->|Hne]; [by apply Ht|]. destruct (Hns u g (Hsub u g Eu)) as (G & HG & Hu).
    destruct (Dg g G HG) as (G' & HG' & Hin). exists G'. split; [done|]. set_solver.
  - intros p P HP Ha. destruct (Dp p P HP Ha) as (P0 & HP0 & Ha0 & E). pose proof (Hp p P0 HP0 Ha0) as Ho. rewrite E in Ho.
    destruct (decide (owner P = t)) as [Et|Hne]; [|set_solver]. destruct Hgone as [?|[Hno _]]; [congruence|]. by destruct (Hno p P HP Ha).
  - intros g G HG u Hu. destruct (DT g G HG) as (G0 & HG0 & Hin); [set_solver|]. pose proof (HT g G0 HG0 u (Hin u Hu)) as Hk.
    destruct (decide (u = t)) as [->|Hne]; [|set_solver]. destruct Hgone as [?|[_ Hno]]; [done|]. by destruct (Hno g G HG).
Qed.

Lemma remove_from_group_sys s current pid n out k' : sys_inv s -> current ∈ known s -> inv idle k' ->
  syscall_remove_from_task_group current (known s) pid n (kern s) = Some (out, k') ->
  sys_inv (System k' (new_namespaces current s (RemoveFromTaskGroup pid n) out) (known s)).
Proof.
  intros Hs Hcur I' E. unfold syscall_remove_from_task_group in E.
  destruct (negb _ && negb _) eqn:Ek. { injection E as <- <-. by apply settled_sys. }
  erewrite kbind in E by done. destruct (global_groups (kern s) !! n) as [g|] eqn:Eg; [|injection E as <- <-; by apply settled_sys].
  destruct (listed_group (kern s) (si_inv _ Hs) n g Eg) as (G & HG & _).
  set (t := if pid =? 0 then current else pid) in E. assert (Ht : t ∈ known s).
  { subst t. destruct (pid =? 0); [done|]. cbn in Ek. by apply negb_false_iff, bool_decide_eq_true in Ek. }
  destruct (atomic_remove_task_ok None None (kern s) g G t (si_inv _ Hs) HG) as (e & k1 & Er & _ & He).
  erewrite kbind in E by exact Er. injection E as <- <-. destruct (decide (t ∈ tasks G)) as [Hin|Hin]; cycle 1.
  { subst e. unfold atomic_remove_task in Er. erewrite kbind in Er by (by apply get_group_run).
    rewrite bool_decide_false in Er by done. injection Er as <-. by apply settled_sys. }
  subst e. pose proof (remove_task_settled g G t 0 (kern s) k1 HG Hin Er) as Hset.
  clear Ek. cbn [new_namespaces error_code Z.eqb]. fold t. rewrite Eg.
  apply (departs_sys s t); try done; [| |intros u x|intros x|by left].
  - etrans; [by apply departs_task|by apply settled_departs].
  - set_solver.
  - case_bool_decide; [|done]. by intros [_ ?]%lookup_delete_Some.
  - case_bool_decide as Hx; [by rewrite lookup_delete_eq|]. intros Ex. destruct (si_ns _ Hs t x Ex) as (X & HX & HtX).
    assert (Hne : x <> g) by (intros ->; by destruct Hx).
    destruct (proj1 (se_groups _ _ Hset) x X) as (X' & HX' & ET); [cbn; by rewrite lookup_insert_ne|]. exists X'. by rewrite ET.
Qed.

Lemma set_namespace_sys s current n type res k' : sys_inv s -> 
  syscall_set_namespace n type current (namespaces s !! current) (kern s) = Some (res, k') ->
  sys_inv (System k' (new_namespaces current s (SetNamespace n type) (fst res)) (known s)).
Proof.
  intros Hs E. destruct (set_namespace_ok (kern s) current (si_inv _ Hs) n type _ (sys_ns s current Hs)) as (r1 & k1 & E1 & -> & Hres).
  rewrite E in E1. injection E1 as <- ->. destruct Hs as [I Hns Hp HT]. split; cbn; try done.
  intros t g Ht. destruct (fst res) as [v|e a|]; [|by apply Hns..]. destruct Hres as (g1 & G1 & Hn & HG1 & Hin). rewrite Hn in Ht.
  destruct (decide (t = current)) as [->|Hne].
  - rewrite lookup_insert_eq in Ht. injection Ht as <-. by exists G1.
  - rewrite lookup_insert_ne in Ht by done. by apply Hns.
Qed.

(** Every call keeps the invariant. *)
Lemma exec_inv current c s out s' : sys_inv s -> current ∈ known s -> exec current c s = Some (out, s') -> sys_inv s'.
Proof.
  intros Hs Hcur H. unfold exec in H. destruct (handle _ _ _ _ _) as [[o k']|] eqn:E; [|done]. injection H as -> <-.
  assert (I' : inv idle k') by (eapply handle_inv; [apply (si_inv _ Hs)|by apply sys_ns|exact E]).
  destruct (group_call c) eqn:Hg.
  2:{ rewrite new_namespaces_same by done. apply settled_sys; [done|done|]. by eapply handle_keeps. }
  destruct c; try discriminate Hg; clear Hg; cbn [handle] in E.
  - by eapply create_port_sys.
  - by eapply create_group_sys.
  - by eapply add_to_group_sys.
  - by eapply remove_from_group_sys.
  - destruct (syscall_set_namespace group type current (namespaces s !! current) (kern s)) as [[res k1]|] eqn:E1.
    + erewrite kbind in E by exact E1. injection E as <- <-. by eapply set_namespace_sys.
    + by unfold mbind, K_bind in E; rewrite E1 in E.
Qed.

(** ** The end of a task *)

Lemma elem_of_owned t k no p : owned_ports t k !! no = Some p <-> global_ports k !! no = Some p /\ owner <$> ports k !! p = Some t.
Proof. unfold owned_ports. rewrite map_lookup_filter_Some. done. Qed.

Lemma owned_alive t k : inv idle k -> owned_ports t k = ∅ -> forall p P, ports k !! p = Some P -> p_alive P = true -> owner P <> t.
Proof.
  intros I He p P HP Ha Ho. assert (Hp : view port_no (ports k) p = Some (portno P)).
  { rewrite (view_is _ _ _ _ HP). unfold port_no. by rewrite Ha. }
  apply (i_global_ports _ _ I) in Hp. assert (Hin : owned_ports t k !! portno P = Some p) by (apply elem_of_owned; rewrite HP; cbn; by rewrite Ho).
  rewrite He in Hin. by rewrite lookup_empty in Hin.
Qed.

(** The loop over the ports of a task ends with none left. *)
Lemma delete_owned_ok n k t : inv idle k -> (size (owned_ports t k) < n)%nat ->
  runs (delete_owned n t) k (fun _ k' => inv idle k' /\ settled k k' /\ owned_ports t k' = ∅).
Proof.
  revert k. induction n as [|n IH]; intros k I Hn; [lia|]. cbn [delete_owned]. eapply runs_step; [done|].
  pose proof (tree_begin_spec (owned_ports t k)) as Hb. destruct (tree_begin (owned_ports t k)) as [[no p]|].
  2:{ by apply runs_ret. }
  destruct Hb as [Hb _]. pose proof Hb as Hb'. apply elem_of_owned in Hb' as [Hno Ho].
  destruct (listed _ k no p I Hno) as (P & HP & Ha & Hpn). rewrite HP in Ho. injection Ho as Ho.
  destruct (delete_port_ok idle k p P I eq_refl eq_refl HP) as (res & k1 & E & I1 & _ & _ & Hg). rewrite Ha, Hpn in Hg.
  pose proof (keeps_delete_port p k res k1 E) as Hset. eapply runs_step; [exact E|].
  assert (Hsub : owned_ports t k1 ⊆ owned_ports t k).
  { apply map_subseteq_spec. intros n' q Hq. apply elem_of_owned in Hq as [Hq1 Hq2]. apply elem_of_owned.
    destruct (listed _ k1 n' q I1 Hq1) as (Q & HQ & HQa & _). destruct (se_ports _ _ Hset q Q HQ HQa) as (Q0 & HQ0 & _ & Eo).
    rewrite Hg in Hq1. apply lookup_delete_Some in Hq1 as [_ Hq1]. split; [done|]. rewrite HQ0. cbn. rewrite HQ in Hq2. cbn in Hq2. congruence. }
  eapply runs_mono; [apply (IH k1 I1)|].
  - assert (size (owned_ports t k1) < size (owned_ports t k))%nat; [|lia]. apply (size_smaller _ _ no p Hsub Hb).
    intros Hx. apply elem_of_owned in Hx as [Hx _]. rewrite Hg, lookup_delete_eq in Hx. done.
  - intros _ k2 (I2 & Hset2 & He). split; [done|]. split; [by etrans|done].
Qed.

(** The loop over its groups leaves it in none. *)
Lemma leave_groups_ok l k t : inv idle k -> NoDup l -> (forall g, g ∈ l -> task_groups k t g) ->
  runs (leave_groups l t) k (fun _ k' => inv idle k' /\ (l <> [] -> departs t k k') /\ (l = [] -> k' = k)
    /\ forall g G, groups k' !! g = Some G -> t ∈ tasks G -> g ∉ l /\ task_groups k t g).
Proof.
  revert k. induction l as [|g l IH]; intros k I Hnd Hl; cbn [leave_groups].
  { apply runs_ret. split_and!; try done. intros g G HG Ht. split; [apply not_elem_of_nil|by exists G]. }
  apply NoDup_cons in Hnd as [Hg Hnd]. destruct (Hl g ltac:(by left)) as (G & HG & Hin).
  destruct (atomic_remove_task_ok None None k g G t I HG) as (e & k1 & E & I1 & _).
  pose proof (remove_task_settled g G t e k k1 HG Hin E) as Hset.
  assert (Hd : departs t k k1) by (etrans; [by apply departs_task|by apply settled_departs]).
  eapply runs_step; [exact E|]. eapply runs_mono; [apply (IH k1 I1 Hnd)|].
  - intros x Hx. destruct (Hl x ltac:(by right)) as (X & HX & HtX). assert (Hne : x <> g) by (intros ->; done).
    destruct (proj1 (se_groups _ _ Hset) x X) as (X' & HX' & ET); [cbn; by rewrite lookup_insert_ne|]. exists X'. by rewrite ET.
  - intros _ k2 (I2 & Hd2 & He2 & Hin2). split; [done|]. split; [|split; [done|]].
    + intros _. destruct l as [|x l']; [by rewrite (He2 eq_refl)|]. etrans; [exact Hd|by apply Hd2].
    + intros x X HX HtX. destruct (Hin2 x X HX HtX) as [Hx (X1 & HX1 & Ht1)].
      destruct (se_tasks _ _ Hset x X1 HX1) as (X0 & HX0 & ET); [intros E0; rewrite E0 in Ht1; by apply not_elem_of_empty in Ht1|]. cbn in HX0. rewrite <- ET in Ht1.
      destruct (decide (x = g)) as [->|Hne].
      * rewrite lookup_insert_eq in HX0. injection HX0 as <-. cbn in Ht1. apply elem_of_difference in Ht1 as [_ Ht1]. by destruct Ht1; apply elem_of_singleton.
      * rewrite lookup_insert_ne in HX0 by done. split; [|by exists X0]. rewrite elem_of_cons. tauto.
Qed.

Lemma cleanup_ok k t order : inv idle k -> NoDup order -> (forall g, g ∈ order <-> task_groups k t g) ->
  runs (cleanup t order) k (fun _ k' => inv idle k' /\ departs t k k'
    /\ (forall p P, ports k' !! p = Some P -> p_alive P = true -> owner P <> t)
    /\ (forall g G, groups k' !! g = Some G -> t ∉ tasks G)).
Proof.
  intros I Hnd Hord. unfold cleanup. eapply runs_step; [done|].
  eapply runs_bind; [apply (delete_owned_ok _ k t I); lia|]. cbn beta. intros _ k1 (I1 & Hset & He).
  assert (Hd1 : departs t k k1) by (by apply settled_departs). pose proof (owned_alive t k1 I1 He) as Hno.
  eapply runs_mono; [apply (leave_groups_ok order k1 t I1 Hnd)|].
  - intros g Hg. apply Hord in Hg as (G & HG & Ht). destruct (proj1 (se_groups _ _ Hset) g G HG) as (G' & HG' & ET).
    exists G'. by rewrite ET.
  - intros _ k2 (I2 & Hd2 & He2 & Hin). split; [done|].
    assert (Hd : departs t k k2) by (destruct order; [by rewrite (He2 eq_refl)|etrans; [exact Hd1|by apply Hd2]]). split; [done|]. split.
    + intros p P HP Ha. destruct order as [|x l]; [rewrite (He2 eq_refl) in HP; by apply (Hno p P)|].
      destruct (dp_ports _ _ _ (Hd2 ltac:(done)) p P HP Ha) as (P1 & HP1 & Ha1 & <-). by apply (Hno p P1).
    + intros g G HG Ht. destruct (Hin g G HG Ht) as [Hg (G1 & HG1 & Ht1)]. apply Hg, Hord.
      destruct (se_tasks _ _ Hset g G1 HG1) as (G0 & HG0 & ET); [set_solver|]. exists G0. by rewrite ET.
Qed.

(** The end of a task: nothing of it is left. *)
Lemma exit_ok s t order : sys_inv s -> NoDup order -> (forall g, g ∈ order <-> task_groups (kern s) t g) ->
  exists s', exit t order s = Some s' /\ sys_inv s' /\ t ∉ known s' /\ namespaces s' !! t = None
    /\ (forall p P, ports (kern s') !! p = Some P -> p_alive P = true -> owner P <> t)
    /\ (forall g G, groups (kern s') !! g = Some G -> t ∉ tasks G).
Proof.
  intros Hs Hnd Hord. destruct (cleanup_ok (kern s) t order (si_inv _ Hs) Hnd Hord) as ([] & k' & E & I' & Hd & Hp & Hg).
  unfold exit. rewrite E. eexists. split; [done|]. match goal with |- context [System k' ?x _] => set (ns := x) end.
  assert (Hns : ns !! t = None /\ forall u g, ns !! u = Some g -> namespaces s !! u = Some g).
  { unfold ns. case_bool_decide as Hx.
    - split; [apply lookup_delete_eq|]. by intros u g [_ ?]%lookup_delete_Some.
    - split; [|done]. destruct (namespaces s !! t) as [g|] eqn:Et; [|done]. destruct Hx. apply Exists_exists. exists g.
      split; [|done]. apply Hord. by apply (si_ns _ Hs). }
  destruct Hns as [Hns Hsub]. split; [|cbn; split_and!; try done; set_solver].
  apply (departs_sys s t); try done; [congruence|by right].
Qed.

(** ** Every state that is reached *)

Lemma rcu_inv s d k' : sys_inv s -> d ∈ garbage (kern s) -> rcu_callback d (kern s) = Some (tt, k') ->
  sys_inv (System k' (namespaces s) (known s)).
Proof.
  intros Hs Hd H. pose proof (si_inv _ Hs) as I. destruct (rcu_callback_ok (kern s) d I Hd) as (u & k1 & E & I1 & _ & _ & Hd1).
  assert (k1 = k') as -> by congruence.
  assert ((exists g, d = DGroup g) \/ (forall g, d <> DGroup g)) as [[g ->]|Hd'] by (destruct d; naive_solver).
  - destruct (proj1 (i_dead_group _ _ I g) Hd) as (G & HG & HT & _). unfold rcu_callback in H.
    erewrite kbind in H by (unfold take_garbage, list_remove; by rewrite decide_True).
    erewrite kbind in H by (by apply get_group_run). injection H as <-. destruct Hs as [_ Hns Hp HTs]. split; cbn; try done.
    + intros t x Ht. destruct (Hns t x Ht) as (X & HX & Hin). exists X. split; [|done]. rewrite lookup_delete_ne; [done|]. intros ->. set_solver.
    + intros x X HX. apply lookup_delete_Some in HX as [_ HX]. by eapply HTs.
  - apply settled_sys; [done|done|]. assert (Hk : Keeps (rcu_callback d)); [|by eapply Hk].
    unfold rcu_callback. destruct d; [solve_keeps..|]. by destruct (Hd' g).
Qed.

Lemma boot_inv memory : sys_inv (boot memory).
Proof.
  assert (Hg : forall g G, ({[ 0%nat := TaskGroup 1 {[ 1 ]} ∅ 0 ∅ ]} : gmap nat task_group) !! g = Some G ->
    g = 0%nat /\ G = TaskGroup 1 {[ 1 ]} ∅ 0 ∅) by (intros g G; rewrite lookup_singleton_Some; naive_solver).
  assert (HT : ({[ 1 ]} : gset Z) <> ∅) by set_solver.
  split; [|intros t g H; cbn in H; by rewrite lookup_empty in H|intros p P H; cbn in H; by rewrite lookup_empty in H|
    intros g G H; cbn in H; apply Hg in H as [_ ->]; cbn; set_solver]. unfold boot. split; cbn.
  - intros [g id] r. unfold group_at. cbn. unfold view. rewrite lookup_empty. cbn. split; [|done].
    destruct (_ !! g) as [G|] eqn:E; [|done]. apply Hg in E as [_ ->]. cbn. by rewrite lookup_empty.
  - intros [p id] x. unfold port_at. cbn. rewrite lookup_empty. cbn. split; [done|]. destruct x; cbn; unfold view; by rewrite lookup_empty.
  - intros s r. unfold senders, view. rewrite !lookup_empty. cbn. rewrite elem_of_nil. naive_solver.
  - intros s r. unfold mem_rights, view. rewrite !lookup_empty. cbn. rewrite elem_of_nil. naive_solver.
  - intros s r. unfold queue, view. rewrite !lookup_empty. cbn. rewrite elem_of_nil. naive_solver.
  - intros m. rewrite lookup_empty. split; [by intros [? ?]|]. intros [p H]. unfold queue in H. rewrite lookup_empty in H. by apply elem_of_nil in H.
  - intros m p p' H. unfold queue in H. rewrite lookup_empty in H. by apply elem_of_nil in H.
  - intros s p H. unfold queue in H. rewrite lookup_empty in H. by apply elem_of_nil in H.
  - intros p. unfold queue. rewrite lookup_empty. constructor.
  - intros r R H. by rewrite lookup_empty in H.
  - intros r R H. by rewrite lookup_empty in H.
  - intros m r H. unfold slots in H. rewrite lookup_empty in H. by apply elem_of_nil in H.
  - intros m. unfold slots. rewrite lookup_empty. constructor.
  - intros r R H. by rewrite lookup_empty in H.
  - split; [constructor|]. by intros r ?%elem_of_nil.
  - intros p P H. by rewrite lookup_empty in H.
  - intros g G H. apply Hg in H as [-> ->]. cbn. split; [done|]. split; [|done]. intros id [? H]. by rewrite lookup_empty in H.
  - intros no p. unfold view. rewrite !lookup_empty. naive_solver.
  - intros n g. unfold view. rewrite lookup_singleton_Some. split.
    + intros [<- <-]. rewrite lookup_singleton_eq. cbn. unfold group_no. by rewrite bool_decide_false.
    + destruct (_ !! g) as [G|] eqn:E; [|done]. apply Hg in E as [-> ->]. cbn. unfold group_no. cbn.
      rewrite bool_decide_false by done. by intros [= <-].
  - split; [intros no [? H]; by rewrite lookup_empty in H|]. intros n [g H]. apply lookup_singleton_Some in H as [<- _]. lia.
  - constructor.
  - intros r. rewrite elem_of_nil, lookup_empty. naive_solver.
  - intros r. rewrite elem_of_nil, lookup_empty. naive_solver.
  - intros r. rewrite elem_of_nil, lookup_empty. naive_solver.
  - intros g. rewrite elem_of_nil. split; [done|]. intros (G & H & HT' & _). apply Hg in H as [_ ->]. done.
  - intros a Ha. rewrite !lookup_empty. rewrite lookup_singleton_ne by lia. done.
  - intros p P g H. by rewrite lookup_empty in H.
Qed.

Lemma step_sys_inv s s' : sys_inv s -> step s s' -> sys_inv s'.
Proof.
  intros Hs Hst. destruct Hst as [current c s0 out s1 Hcur H|d s0 k' Hd H|t s0 Ht _|t order s0 s1 Ht Hd Hnd Hord H].
  - by eapply exec_inv.
  - by eapply rcu_inv.
  - destruct Hs as [I Hns Hp HT]. split; cbn; try done; [intros p P HP Ha; specialize (Hp p P HP Ha)|intros g G HG; specialize (HT g G HG)]; set_solver.
  - destruct (exit_ok s0 t order Hs Hnd Hord) as (s2 & E & Hs2 & _). congruence.
Qed.

Lemma reachable_sys_inv memory s : reachable memory s -> sys_inv s.
Proof. induction 1 as [|s s' _ IH Hstep]; [apply boot_inv|by eapply step_sys_inv]. Qed.
