(* ===== verification/IpcSpec.v ===== *)
(** * What the messages and rights of the kernel promise

    The theorems on the system of Ipc.v in every state that calls, callbacks and new
    tasks lead to: where its rights are, that its calls return, that what is dead is
    reclaimed, what sending and accepting a message does, and the calls that the code
    does not survive. *)

From stdpp Require Import base list numbers gmap fin_maps sorting.
From S2P Require Import Prelude Rights RightsInv RightsOps RightsNew RightsSend RightsTasks Ipc IpcSafe IpcInv.

(** ** Running calls *)

(** A sequence of calls, callbacks and ends of tasks, for concrete states *)
Inductive event := Call (current : Z) (c : call) | Callback (d : dead_object) | Exit (t : Z).

Definition groups_of (k : kernel) (t : Z) : list nat := elements (dom (filter (fun x => t ∈ tasks x.2) (groups k))).

Lemma elem_of_groups_of k t g : g ∈ groups_of k t <-> task_groups k t g.
Proof.
  unfold groups_of, task_groups. rewrite elem_of_elements, elem_of_dom. unfold is_Some. setoid_rewrite map_lookup_filter_Some. done.
Qed.

Definition play_one (e : event) (s : system) : option system :=
  match e with
  | Call current c => if bool_decide (current ∈ known s) then snd <$> exec current c s else None
  | Callback d =>
      if bool_decide (d ∈ garbage (kern s)) then
        '(_, k) ← rcu_callback d (kern s); Some (System k (namespaces s) (known s))
      else None
  | Exit t => if bool_decide (t ∈ known s /\ t ∈ dying (kern s)) then exit t (groups_of (kern s) t) s else None
  end.

Fixpoint play (l : list event) (s : system) : option system :=
  match l with [] => Some s | e :: l => s' ← play_one e s; play l s' end.

Lemma play_reachable memory l s s' : reachable memory s -> play l s = Some s' -> reachable memory s'.
Proof.
  revert s. induction l as [|e l IH]; intros s Hs H; [by injection H as <-|].
  cbn in H. destruct (play_one e s) as [s1|] eqn:E; [|done]. apply (IH s1); [|done].
  eapply reach_step; [exact Hs|]. destruct e as [current c|d|t]; cbn in E; case_bool_decide; try done.
  - destruct (exec current c s) as [[out s2]|] eqn:E2; [|done]. injection E as <-. by eapply step_call.
  - destruct (rcu_callback d (kern s)) as [[[] k]|] eqn:E2; [|done]. injection E as <-. by apply (step_rcu d).
  - eapply (step_exit t (groups_of (kern s) t)); [naive_solver|naive_solver|apply NoDup_elements|apply elem_of_groups_of|done].
Qed.

(** Memory that is never short *)
Definition plenty : nat -> bool := fun _ => true.

(** The first task makes a group for its name space, two ports and a right to the first. *)
Definition opening : list event :=
  [Call 2 CreateTaskGroup; Call 2 (SetNamespace 2 1); Call 2 (CreatePort 0); Call 2 (CreatePort 0);
   Call 2 (CreateRight 2 false Copied)].

Definition opened : system := Eval vm_compute in default (boot plenty) (play opening (boot plenty)).

Lemma opened_reachable : reachable plenty opened.
Proof. apply (play_reachable plenty opening (boot plenty)); [constructor|]. by vm_compute. Qed.

(** ** Where the rights are *)

(** The place of a live right: the table of a group with tasks in it, or a message in a queue. *)
Definition placed (k : kernel) (r : nat) (R : right) : Prop :=
  if of_message R then
    (forall m, r ∈ slots (messages k) m <-> m = holder R) /\ (forall i, group_at (groups k) i <> Some r)
    /\ exists p, GMessage (holder R) ∈ queue (ports k) p
  else
    (forall m, r ∉ slots (messages k) m)
    /\ (forall i, group_at (groups k) i = Some r <-> i = (holder R, right_sender_id R))
    /\ exists G, groups k !! holder R = Some G /\ tasks G <> ∅ /\ global_groups k !! group_id G = Some (holder R).

(** Where its messages go: to a live port, where the right is registered. *)
Definition arrives (k : kernel) (R : right) : Prop :=
  rtype R <> MemObject -> exists p id P, dest k R = Some (p, id) /\ ports k !! p = Some P
    /\ p_alive P = true /\ global_ports k !! portno P = Some p /\ is_Some (p_rights P !! id).

Lemma placed_ok k r R : inv idle k -> rights k !! r = Some R -> alive R = true -> placed k r R.
Proof.
  intros I HR Ha. unfold placed.
  assert (Ht : forall i, group_at (groups k) i = Some r <-> in_table R = Some i).
  { intros i. rewrite (i_groups _ _ I i r). unfold view. by rewrite HR. }
  unfold in_table in Ht. rewrite Ha in Ht. destruct (of_message R) eqn:Hm; cbn in Ht.
  - destruct (i_carried _ _ I r R HR) as [Hs|Hs]; [by rewrite Ha|done| |by apply elem_of_nil in Hs].
    split_and!; [|by intros i ?%Ht|].
    + intros m. split; [|by intros ->]. intros Hr. destruct (i_slots _ _ I m r Hr) as (R' & E & _ & Hh). congruence.
    + apply (i_messages _ _ I). unfold slots in Hs. destruct (messages k !! holder R); [by eexists|by apply elem_of_nil in Hs].
  - split_and!.
    + intros m Hr. destruct (i_slots _ _ I m r Hr) as (R' & E & Hm' & _). congruence.
    + intros i. rewrite Ht. naive_solver.
    + specialize (proj2 (Ht (holder R, right_sender_id R)) eq_refl) as Hg. unfold group_at in Hg. cbn in Hg.
      destruct (groups k !! holder R) as [G|] eqn:HG; [|done]. cbn in Hg. exists G. split; [done|].
      destruct (i_group _ _ I _ G HG) as (_ & _ & He). assert (HT : tasks G <> ∅).
      { intros HT. rewrite (He HT) in Hg by done. by rewrite lookup_empty in Hg. }
      split; [done|]. apply (i_global_groups _ _ I). unfold view. rewrite HG. cbn. unfold group_no. by rewrite bool_decide_false.
Qed.

Lemma arrives_ok k r R : inv idle k -> rights k !! r = Some R -> alive R = true -> arrives k R.
Proof.
  intros I HR Ha Hty.
  assert (Hp : forall p id x, dest k R = Some (p, id) -> index_of (rights k) (shareds k) x = Some (p, id) ->
    exists p id P, dest k R = Some (p, id) /\ ports k !! p = Some P
      /\ p_alive P = true /\ global_ports k !! portno P = Some p /\ is_Some (p_rights P !! id)).
  { intros p id x Hd Hx. apply (i_ports _ _ I) in Hx. destruct (registered_alive idle k _ _ I eq_refl Hx) as (P & HP & HPa & _).
    cbn in HP. exists p, id, P. split_and!; try done.
    - apply (i_global_ports _ _ I). unfold view. rewrite HP. cbn. unfold port_no. by rewrite HPa.
    - unfold port_at in Hx. cbn in Hx. rewrite HP in Hx. by eexists. }
  destruct (i_right _ _ I r R HR) as (Hok & _). specialize (Hok Ha). unfold dest in *. destruct (rtype R) eqn:Ety; [| |done].
  - destruct (parent R) as [p|] eqn:Ep; [|done]. apply (Hp p (right_parent_id R) (RRight r)); [done|].
    cbn. unfold view. rewrite HR. cbn. unfold registered, watched. by rewrite Ha, Ety, Ep.
  - destruct (shared R) as [s|] eqn:Es; [|done].
    assert (Hs : r ∈ senders (shareds k) s).
    { apply (i_senders _ _ I). unfold view. rewrite HR. cbn. unfold sharing. by rewrite Ha, Ety, bool_decide_true. }
    unfold senders in Hs. destruct (shareds k !! s) as [S|] eqn:HS; [|by apply elem_of_nil in Hs]. cbn in Hs.
    pose proof (i_shared _ _ I s S HS) as Hsh. destruct (s_alive S) eqn:Hsa; [|destruct Hsh as [?|Hnil]; [done|rewrite Hnil in Hs; by apply elem_of_nil in Hs]].
    destruct (s_parent S) as [p|] eqn:Ep; [|naive_solver]. apply (Hp p (s_right_parent_id S) (RShared s)).
    + cbn. rewrite HS. cbn. by rewrite Ep.
    + cbn. unfold view. rewrite HS. cbn. unfold s_registered. by rewrite Hsa, Ep.
Qed.

(** C2. Whatever calls the tasks make and whenever the dead objects are reclaimed, every
    live right is in exactly one place, the one its fields name: in the table of one task
    group, under its number, the group having tasks and being found by its id, or in one
    message, which is in the queue of a port.  A live send right leads to a live port that
    is found by its number and has the right registered.  The tables hold live rights only,
    no two messages hold the same right, and a group without tasks has no rights. *)
Theorem live_rights_placed memory s :
  reachable memory s ->
  (forall r R, rights (kern s) !! r = Some R -> alive R = true -> placed (kern s) r R /\ arrives (kern s) R)
  /\ (forall g id r, group_at (groups (kern s)) (g, id) = Some r -> exists R, rights (kern s) !! r = Some R /\ alive R = true)
  /\ (forall r m m', r ∈ slots (messages (kern s)) m -> r ∈ slots (messages (kern s)) m' -> m = m')
  /\ (forall g G, groups (kern s) !! g = Some G -> tasks G = ∅ -> g_rights G = ∅).
Proof.
  intros Hs. destruct (reachable_sys_inv memory s Hs) as [I _ _ _]. split_and!.
  - intros r R HR Ha. split; [by apply placed_ok|by eapply arrives_ok].
  - intros g id r H. destruct (held_alive idle _ g id r I H) as (R & HR & Ha & _). by exists R.
  - intros r m m' H H'. destruct (i_slots _ _ I m r H) as (R & HR & _ & <-).
    destruct (i_slots _ _ I m' r H') as (R' & HR' & _ & <-). congruence.
  - intros g G HG HT. by apply (i_group _ _ I g G HG).
Qed.

Lemma live_rights_placed_witness :
  (exists R, rights (kern opened) !! 4%nat = Some R /\ alive R = true) /\
  exists R, rights (kern opened) !! 4%nat = Some R /\ placed (kern opened) 4 R /\ arrives (kern opened) R.
Proof.
  split; [by eexists|]. eexists. split; [reflexivity|].
  apply (proj1 (live_rights_placed plenty opened opened_reachable)); reflexivity.
Defined.

(** C23. Every object of the kernel has the shape its type asks for, in every state that is
    reached: a live right has the pointer its kind needs (to its port, to the structure it shares,
    to its memory object); only send rights are sent as notifications, and only when dead; a
    shared structure is alive exactly as long as rights share it, and then has its port; the numbers
    in the tables of ports and groups are positive and not above the counter they are drawn from,
    which starts at 0; no queue holds a message twice and no message is in two queues. *)
Theorem objects_well_formed memory s :
  reachable memory s ->
  (forall r R, rights (kern s) !! r = Some R ->
     (alive R = true -> match rtype R with SendOnce => is_Some (parent R) | SendMany => is_Some (shared R) | MemObject => is_Some (mem_object R) end)
     /\ (sent R = true -> alive R = false /\ rtype R <> MemObject /\ is_Some (parent R)))
  /\ (forall x X, shareds (kern s) !! x = Some X -> (s_alive X = true <-> send_many_rights X <> []) /\ (s_alive X = true -> is_Some (s_parent X)))
  /\ (forall p P, ports (kern s) !! p = Some P -> 0 <= p_current_right_id P /\ NoDup (msg_queue P)
        /\ forall id, is_Some (p_rights P !! id) -> 0 < id <= p_current_right_id P)
  /\ (forall g G, groups (kern s) !! g = Some G -> 0 <= g_current_right_id G
        /\ forall id, is_Some (g_rights G !! id) -> 0 < id <= g_current_right_id G)
  /\ (forall m p p', GMessage m ∈ queue (ports (kern s)) p -> GMessage m ∈ queue (ports (kern s)) p' -> p = p').
Proof.
  intros Hs. destruct (reachable_sys_inv memory s Hs) as [I _ _ _]. split_and!.
  - intros r R HR. destruct (i_right _ _ I r R HR) as (H1 & _ & H3). split.
    + intros Ha. specialize (H1 Ha). destruct (rtype R); by apply not_eq_None_Some.
    + intros Hse. destruct (H3 Hse) as (H4 & H5 & H6). split_and!; try done. by apply not_eq_None_Some.
  - intros x X HX. pose proof (i_shared _ _ I x X HX) as H. destruct (s_alive X).
    + destruct H as (H1 & H2 & _). split; [done|]. intros _. by apply not_eq_None_Some.
    + destruct H as [?|H]; [done|]. rewrite H. done.
  - intros p P HP. destruct (i_port _ _ I p P HP) as (H1 & H2 & _). split_and!; try done.
    pose proof (i_queue _ _ I p) as H. unfold queue in H. by rewrite HP in H.
  - intros g G HG. destruct (i_group _ _ I g G HG) as (H1 & H2 & _). done.
  - apply (i_one_queue _ _ I).
Qed.

Lemma objects_well_formed_witness :
  exists X, shareds (kern opened) !! 5%nat = Some X /\ (s_alive X = true <-> send_many_rights X <> []).
Proof.
  eexists. split; [reflexivity|]. refine (proj1 (proj1 (proj2 (objects_well_formed plenty opened opened_reachable)) 5%nat _ _)). reflexivity.
Defined.

(** C1. The calls are safe: from every state that calls, callbacks and new tasks lead to,
    every call of every task returns, with a value, an error or to be repeated.  No call
    uses an object that has been deleted, takes an entry from a tree or list it is not in,
    puts an entry where there is one, or runs into an assertion, but for the calls that
    [survives] excludes: right 0 after the group of the kernel is gone, [accept_rights] on an
    empty queue, a descriptor of a message that goes to a page not mapped yet, a port or a group
    when an allocation fails that is not checked, and a group for a task that is dying.  The callbacks of RCU are as safe:
    what they delete is there, and so is what they use. *)
Theorem calls_return memory s :
  reachable memory s ->
  (forall current c, survives current (kern s) c -> exists out s', exec current c s = Some (out, s'))
  /\ (forall d, d ∈ garbage (kern s) -> exists k', rcu_callback d (kern s) = Some (tt, k')).
Proof.
  intros Hs. pose proof (reachable_sys_inv memory s Hs) as Is. split.
  - intros current c Hc. destruct (handle_ok current (kern s) _ (known s) c (si_inv _ Is) (sys_ns s current Is) Hc) as (out & k' & E & _). unfold exec. rewrite E. by do 2 eexists.
  - intros d Hd. destruct (rcu_callback_ok (kern s) d (si_inv _ Is) Hd) as ([] & k' & E & _). by exists k'.
Qed.

Lemma calls_return_witness :
  survives 2 (kern opened) (SetRight0 1) /\ exists out s', exec 2 (SetRight0 1) opened = Some (out, s').
Proof.
  assert (H : survives 2 (kern opened) (SetRight0 1)) by (cbn; by eexists). split; [exact H|].
  exact (proj1 (calls_return plenty opened opened_reachable) 2 (SetRight0 1) H).
Defined.

(** ** Reclamation *)

(** RCU runs the callbacks of the dead objects, in the order that [pick] chooses. *)
Fixpoint run_callbacks (pick : list dead_object -> nat) (fuel : nat) (k : kernel) : option kernel :=
  match garbage k with
  | [] => Some k
  | d :: _ =>
      match fuel with
      | O => None
      | S fuel =>
          match rcu_callback (default d (garbage k !! pick (garbage k))) k with
          | Some (_, k') => run_callbacks pick fuel k'
          | None => None
          end
      end
  end.

Definition objects (k : kernel) : nat := size (rights k) + size (shareds k) + size (ports k) + size (groups k).

Lemma size_le {A} (m m' : gmap nat A) : (forall a, m !! a = None -> m' !! a = None) -> (size m' <= size m)%nat.
Proof.
  intros H. rewrite <- !size_dom. apply subseteq_size. intros a Ha. apply elem_of_dom in Ha as [x Ha]. apply elem_of_dom.
  destruct (m !! a) eqn:E; [done|]. by rewrite (H a E) in Ha.
Qed.

Lemma size_lt {A} (m m' : gmap nat A) a x : (forall a, m !! a = None -> m' !! a = None) -> m !! a = Some x -> m' !! a = None ->
  (size m' < size m)%nat.
Proof.
  intros H Hx Ha. assert (E : size m = S (size (delete a m))) 
    by (rewrite <- (insert_delete_id m a x Hx) at 1; by rewrite map_size_insert_None by apply lookup_delete_eq).
  rewrite E. apply Nat.lt_succ_r, size_le. intros y Hy. destruct (decide (y = a)) as [->|Hne]; [done|].
  apply H. by rewrite lookup_delete_ne in Hy.
Qed.

Lemma callback_shrinks k d : inv idle k -> d ∈ garbage k ->
  runs (rcu_callback d) k (fun _ k' => inv idle k' /\ (objects k' < objects k)%nat).
Proof.
  intros I Hd. eapply runs_mono; [by apply rcu_callback_ok|]. intros _ k' (I' & Hnew & _ & Hgone). split; [done|].
  assert (Hr := fun a => proj1 (Hnew a)). assert (Hs := fun a => proj1 (proj2 (Hnew a))).
  assert (Hp := fun a => proj1 (proj2 (proj2 (Hnew a)))). assert (Hg := fun a => proj2 (proj2 (proj2 (Hnew a)))).
  unfold objects. pose proof (size_le _ _ Hr). pose proof (size_le _ _ Hs). pose proof (size_le _ _ Hp). pose proof (size_le _ _ Hg).
  destruct d as [r|x|p|g].
  - destruct (proj1 (i_dead_right _ _ I r) Hd) as (R & HR & _). pose proof (size_lt _ _ r R Hr HR Hgone). lia.
  - destruct (proj1 (i_dead_shared _ _ I x) Hd) as (S & HS & _). pose proof (size_lt _ _ x S Hs HS Hgone). lia.
  - destruct (proj1 (i_dead_port _ _ I p) Hd) as (P & HP & _). pose proof (size_lt _ _ p P Hp HP Hgone). lia.
  - destruct (proj1 (i_dead_group _ _ I g) Hd) as (G & HG & _). pose proof (size_lt _ _ g G Hg HG Hgone). lia.
Qed.

Lemma run_callbacks_ok pick fuel k : inv idle k -> (objects k <= fuel)%nat ->
  exists k', run_callbacks pick fuel k = Some k' /\ inv idle k' /\ garbage k' = [].
Proof.
  revert k. induction fuel as [|fuel IH]; intros k I Hle; cbn [run_callbacks]; destruct (garbage k) as [|d l] eqn:E; [by exists k| |by exists k|].
  - destruct (callback_shrinks k d I) as (_ & k' & _ & _ & H); [rewrite E; by left|]. lia.
  - set (d' := default d _). assert (Hd : d' ∈ garbage k).
    { subst d'. rewrite E. destruct ((d :: l) !! pick (d :: l)) as [y|] eqn:Ey; cbn; [by apply list_elem_of_lookup_2 in Ey|by left]. }
    destruct (callback_shrinks k d' I Hd) as (u & k' & -> & I' & H). apply IH; [done|lia].
Qed.

Lemma found {A} (m : gmap nat A) (P : nat -> Prop) `{forall a, Decision (P a)} :
  (forall a, P a -> is_Some (m !! a)) -> (exists a, P a) \/ forall a, ~ P a.
Proof.
  intros Hm. destruct (decide (Exists P (elements (dom m)))) as [Hx|Hx].
  - apply Exists_exists in Hx as (a & _ & Ha). left. by exists a.
  - right. intros a Ha. apply Hx, Exists_exists. exists a. split; [|done]. by apply elem_of_elements, elem_of_dom, Hm.
Qed.

(** C13. Reclamation comes to an end and leaves nothing dead behind: from every state that
    calls lead to, the callbacks can be run in any order, at most one for each object, until
    none is left.  The rights that are there then are alive, or are in the queue of the port
    they notify, or in a message; the structures that rights share are alive or notify their
    port; the ports are alive, and the groups have tasks. *)
Theorem reclamation_completes memory s pick :
  reachable memory s ->
  exists k, run_callbacks pick (objects (kern s)) (kern s) = Some k /\ garbage k = []
    /\ (forall r R, rights k !! r = Some R -> alive R = true \/ (exists p, parent R = Some p /\ GRight r ∈ queue (ports k) p)
          \/ exists m, r ∈ slots (messages k) m)
    /\ (forall x X, shareds k !! x = Some X -> s_alive X = true \/ exists p, GShared x ∈ queue (ports k) p)
    /\ (forall p P, ports k !! p = Some P -> p_alive P = true)
    /\ (forall g G, groups k !! g = Some G -> tasks G <> ∅).
Proof.
  intros Hs. destruct (reachable_sys_inv memory s Hs) as [I _ _ _].
  destruct (run_callbacks_ok pick (objects (kern s)) (kern s) I ltac:(lia)) as (k & E & Ik & Hg). exists k. split; [done|]. split; [done|].
  assert (Hno : forall d, d ∉ garbage k) by (intros d; rewrite Hg; apply not_elem_of_nil). split_and!.
  - intros r R HR. destruct (alive R) eqn:Ha; [by left|]. right. destruct (sent R) eqn:Hse.
    + left. destruct (i_right _ _ Ik r R HR) as (_ & _ & Hp). destruct (Hp Hse) as (_ & _ & Hpar).
      destruct (parent R) as [p|] eqn:Ep; [|done]. exists p. split; [done|]. apply elem_of_notes, (i_notes _ _ Ik).
      unfold view. rewrite HR. cbn. unfold notifying. by rewrite Hse.
    + destruct (found (messages k) (fun m => r ∈ slots (messages k) m)) as [Hx|Hx]; [|by right|].
      { intros m Hm. unfold slots in Hm. destruct (messages k !! m); [by eexists|by apply elem_of_nil in Hm]. }
      destruct (Hno (DRight r)). apply (i_dead_right _ _ Ik). exists R. split_and!; try done.
      intros [?%elem_of_nil|[m Hm]]; [done|]. by apply (Hx m).
  - intros x X HX. destruct (s_alive X) eqn:Ha; [by left|]. right.
    destruct (found (ports k) (fun p => GShared x ∈ queue (ports k) p)) as [Hx|Hx]; [|done|].
    { intros p Hp. unfold queue in Hp. destruct (ports k !! p); [by eexists|by apply elem_of_nil in Hp]. }
    destruct (Hno (DShared x)). apply (i_dead_shared _ _ Ik). by exists X.
  - intros p P HP. destruct (p_alive P) eqn:Ha; [done|]. destruct (Hno (DPort p)). apply (i_dead_port _ _ Ik). by exists P.
  - intros g G HG HT. destruct (Hno (DGroup g)). apply (i_dead_group _ _ Ik). by exists G.
Qed.

(** The right of [opened] is deleted, and the last one of its port dies with it. *)
Definition deleted : system := Eval vm_compute in default opened (play [Call 2 (DeleteSendRight 1); Call 2 (DeletePort 2)] opened).

Lemma deleted_reachable : reachable plenty deleted.
Proof. by apply (play_reachable plenty [Call 2 (DeleteSendRight 1); Call 2 (DeletePort 2)] opened); [apply opened_reachable|vm_compute]. Qed.

Lemma reclamation_completes_witness :
  garbage (kern deleted) <> [] /\ exists k, run_callbacks (fun _ => 1%nat) (objects (kern deleted)) (kern deleted) = Some k /\ garbage k = [].
Proof.
  split; [by vm_compute|]. destruct (reclamation_completes plenty deleted (fun _ => 1%nat) deleted_reachable) as (k & E & Hg & _).
  exists k. split; [exact E|exact Hg].
Defined.

(** ** Sending a message *)

(** The message that a call has sent: what is in it, where it is and what has become of its rights *)
Definition delivered (k k' : kernel) (current : Z) (G : task_group) (r : nat) (R : right) (data ids : list Z) (used : bool) (v : Z) : Prop :=
  exists p idr m array reply add,
    dest k R = Some (p, idr)
    /\ messages k !! m = None /\ messages k' !! m = Some (Message current idr data reply array)
    /\ queue (ports k') p = queue (ports k) p ++ GMessage m :: add
    /\ Forall2 (fun id o => if id =? 0 then o = None else g_rights G !! id = o /\ is_Some o) ids array
    /\ (forall x, x ∈ omap id array -> exists X, rights k !! x = Some X /\ rights k' !! x = Some (carried X m))
    /\ (reply = None <-> v = 0)
    /\ exists R', rights k' !! r = Some R' /\ alive R' = negb used.

Lemma send_call_ok k current g G rid rpid data ids many always r R :
  inv idle k -> groups k !! g = Some G -> rid <> 0 -> g_rights G !! rid = Some r -> rights k !! r = Some R ->
  runs (syscall_send_message_right current (Some g) rid rpid Copied Copied data (Some (Copied, ids)) many always) k
    (fun out k' => match out with
                   | Repeated => False
                   | Failed _ _ => unchanged k k'
                   | Returned v => delivered k k' current G r R data ids (bool_decide (rtype R = SendOnce) || always) v
                   end).
Proof.
  intros I HG Hne Hr HR. assert (Hsame : unchanged k k) by (exists (allocations k); by destruct k).
  unfold syscall_send_message_right. cbn [on_copy with_namespace].
  destruct (held_alive idle k g rid r I) as (R' & HR' & Ha & _); [unfold group_at; cbn; by rewrite HG|].
  assert (R' = R) as -> by congruence. eapply runs_step.
  { unfold find_right. rewrite (proj2 (Z.eqb_neq rid 0) Hne). unfold group_right. erewrite kbind by (by apply get_group_run). done. }
  rewrite Hr. set (ty := if many then SendMany else SendOnce).
  assert (Hty : ty = SendOnce \/ ty = SendMany) by (unfold ty; destruct many; auto).
  eapply runs_bind; [by apply (reply_port_ok k current I rpid ty)|]. cbn beta. intros [e a|rp] k' [-> Hrp]; [by apply runs_ret|].
  eapply runs_bind; [by apply (extra_rights_ok k I ids g G)|]. cbn beta. intros [e a|array] k' [-> Harr]; [by apply runs_ret|].
  destruct Harr as [Harr Hids].
  eapply runs_bind; [by apply (send_message_right_ok k r g rp array data current ty always R)|]. cbn beta.
  intros [e a|[reply v]] k' [I' H]; [apply runs_ret, H|].
  destruct H as (_ & _ & _ & _ & p & idr & Hd & [[Hm Hms] [add Hq] Hrs Hrep Hu]).
  assert (Hv : (reply = None <-> v = 0) /\ negb (bool_decide (is_Some rp) && (v =? 0)) = true).
  { destruct rp as [q|], reply as [x|]; try done. destruct Hrep as [Hpos _]. split; [split; [done|lia]|].
    by rewrite (proj2 (Z.eqb_neq v 0) ltac:(lia)), andb_false_r. }
  destruct Hv as [Hv Hassert]. eapply runs_assert; [exact Hassert|]. apply runs_ret.
  exists p, idr, (fresh k), array, reply, add. split_and!; try done. rewrite Hms. apply lookup_insert_eq.
Qed.

Lemma sent_delivered memory s current g G rid rpid data ids many always r R :
  reachable memory s -> namespaces s !! current = Some g -> groups (kern s) !! g = Some G ->
  rid <> 0 -> g_rights G !! rid = Some r -> rights (kern s) !! r = Some R ->
  forall v s', exec current (SendMessageRight rid rpid Copied Copied data (Some (Copied, ids)) many always) s = Some (Returned v, s') ->
  delivered (kern s) (kern s') current G r R data ids (bool_decide (rtype R = SendOnce) || always) v /\ inv idle (kern s').
Proof.
  intros Hs Hns HG Hne Hr HR v s' E. pose proof (reachable_sys_inv memory s Hs) as Is.
  destruct (send_call_ok (kern s) current g G rid rpid data ids many always r R (si_inv _ Is) HG Hne Hr HR) as (out & k' & E' & H).
  unfold exec in E. cbn [handle] in E. rewrite Hns, E' in E. injection E as -> <-. split; [exact H|].
  by apply (handle_inv current (kern s) (Some g) (known s)
    (SendMessageRight rid rpid Copied Copied data (Some (Copied, ids)) many always) (Returned v) k' (si_inv _ Is)); [rewrite <- Hns; apply sys_ns|exact E'].
Qed.


(** Another right, to go with the message *)
Definition two_rights : system := Eval vm_compute in default opened (play [Call 2 (DupRight 1)] opened).

Lemma two_rights_reachable : reachable plenty two_rights.
Proof. by apply (play_reachable plenty [Call 2 (DupRight 1)] opened); [apply opened_reachable|vm_compute]. Qed.


(** ** The description of a message *)

Lemma types_of_low k l i n : 0 <= i -> 0 <= n < 16 + i * 4 -> Z.testbit (types_of k l i) n = false.
Proof.
  revert i. induction l as [|[r|] l IH]; intros i Hi Hn; cbn [types_of]; [apply Z.testbit_0_l| |apply IH; lia].
  rewrite Z.lor_spec, IH by lia. rewrite Z.shiftl_spec_low by lia. done.
Qed.

Lemma type_at_small k o n : 4 <= n -> Z.testbit (type_at k o) n = false.
Proof.
  intros Hn. assert (H : 0 <= type_at k o < 2 ^ 2). { unfold type_at. destruct o; [|done]. case_match; [|done]. by destruct (rtype _). }
  destruct (decide (type_at k o = 0)) as [->|Hne]; [apply Z.testbit_0_l|]. apply Z.bits_above_log2; [lia|].
  apply Z.log2_lt_pow2; [lia|]. eapply Z.lt_le_trans; [apply H|]. apply Z.pow_le_mono_r; lia.
Qed.

(** The four bits of a place are the type of the right in it. *)
Lemma types_of_field k l i n o : 0 <= i -> l !! n = Some o -> 
  Z.land (Z.shiftr (types_of k l i) (16 + 4 * (i + Z.of_nat n))) 15 = type_at k o.
Proof.
  intros Hi Hl. apply Z.bits_inj'. intros b Hb. change 15 with (Z.ones 4). rewrite Z.land_spec, Z.testbit_ones_nonneg by lia.
  rewrite Z.shiftr_spec by lia. destruct (Z.ltb_spec b 4); [rewrite andb_true_r|rewrite andb_false_r, type_at_small by lia; done].
  revert i n Hi Hl. induction l as [|x l IH]; intros i n Hi Hl; [done|]. destruct n as [|n]; cbn in Hl.
  - injection Hl as ->. destruct o as [r|]; cbn [types_of].
    + rewrite Z.lor_spec, types_of_low, orb_false_r by lia. rewrite Z.shiftl_spec by lia. f_equal. lia.
    + rewrite types_of_low by lia. symmetry. apply Z.testbit_0_l.
  - specialize (IH (i + 1) n ltac:(lia) Hl). replace (b + (16 + 4 * (i + Z.of_nat (S n)))) with (b + (16 + 4 * (i + 1 + Z.of_nat n))) by lia.
    destruct x as [r|]; cbn [types_of]; [|done]. rewrite Z.lor_spec, IH. rewrite Z.shiftl_spec by lia. by rewrite type_at_small by lia.
Qed.

Lemma reply_bits k o l n b : 0 <= b -> Z.land (Z.shiftr (Z.lor (reply_flags k o) (types_of k l 0)) (16 + 4 * n)) b
  = Z.land (Z.shiftr (types_of k l 0) (16 + 4 * n)) b \/ n < 0.
Proof.
  intros Hb. destruct (decide (n < 0)); [by right|left]. rewrite Z.shiftr_lor, Z.land_lor_distr_l.
  replace (Z.shiftr (reply_flags k o) (16 + 4 * n)) with 0; [by rewrite Z.land_0_l, Z.lor_0_l|]. symmetry.
  assert (H : 0 <= reply_flags k o < 2 ^ 16) by (unfold reply_flags; destruct o; [case_match|]; done).
  rewrite Z.shiftr_div_pow2 by lia. apply Z.div_small. split; [lia|]. eapply Z.lt_le_trans; [apply H|]. apply Z.pow_le_mono_r; lia.
Qed.

(** The receiver is told what it has got: when a message has been sent to a port with an
    empty queue, the owner of the port learns from [get_message_info] who sent it, how long it
    is, by which of the rights to the port, how many rights are in it, whether it has a right
    to reply, and the type of the right in every place. *)
Theorem receiver_learns memory s current g G rid rpid data ids many always r R v s' p idr no P :
  reachable memory s -> namespaces s !! current = Some g -> groups (kern s) !! g = Some G ->
  rid <> 0 -> g_rights G !! rid = Some r -> rights (kern s) !! r = Some R ->
  exec current (SendMessageRight rid rpid Copied Copied data (Some (Copied, ids)) many always) s = Some (Returned v, s') ->
  dest (kern s) R = Some (p, idr) -> queue (ports (kern s)) p = [] ->
  no <> 0 -> global_ports (kern s') !! no = Some p -> ports (kern s') !! p = Some P ->
  exists d, syscall_get_message_info (owner P) no true Copied (kern s') = Some ((Returned 0, Some d), kern s')
    /\ d_sender d = current /\ d_size d = Z.of_nat (length data) /\ d_sent_with_right d = idr
    /\ d_other_rights_count d = Z.of_nat (length (filter (fun id => id <> 0) ids))
    /\ Z.testbit (d_flags d) 0 = negb (v =? 0)
    /\ forall n id, ids !! n = Some id -> exists o, (if id =? 0 then o = None else g_rights G !! id = o)
         /\ Z.land (Z.shiftr (d_flags d) (16 + 4 * Z.of_nat n)) 15 = type_at (kern s) o.
Proof.
  intros Hs Hns HG Hne Hr HR E Hd Hq Hno Hglob HP.
  destruct (sent_delivered memory s current g G rid rpid data ids many always r R Hs Hns HG Hne Hr HR v s' E) as (H & Is').
  destruct H as (p' & idr' & m & array & reply & add & Hd' & Hm & HM & Hq' & Hids & Hcar & Hv & _).
  rewrite Hd in Hd'. injection Hd' as <- <-. rewrite Hq in Hq'. cbn in Hq'. unfold queue in Hq'. rewrite HP in Hq'. cbn in Hq'.
  destruct (message_info_ok (kern s') Is' m _ HM) as (d & k1 & Ed & -> & ->). eexists. split.
  { unfold syscall_get_message_info. erewrite kbind by done. rewrite (proj2 (Z.eqb_neq no 0) Hno), Hglob.
    erewrite kbind by (by apply get_port_run). rewrite Z.eqb_refl. cbn [negb]. rewrite Hq'. erewrite kbind by exact Ed. done. }
  unfold described. cbn [d_sender d_size d_sent_with_right d_other_rights_count d_flags task_id_from content sent_with_right m_rights reply_right].
  split_and!; try done.
  - f_equal. clear -Hids. induction Hids as [|id o ids array H _ IH]; [done|]. destruct (Z.eqb_spec id 0) as [->|Hne].
    + subst o. rewrite filter_cons_False by (intros Hx; by apply Hx). exact IH.
    + destruct H as [_ [x ->]]. rewrite filter_cons_True by done. cbn. by rewrite IH.
  - rewrite Z.lor_spec, types_of_low, orb_false_r by lia. destruct reply as [x|].
    + destruct (Z.eqb_spec v 0) as [->|]; [discriminate (proj2 Hv eq_refl)|]. unfold reply_flags. by case_match.
    + rewrite (proj1 Hv eq_refl). done.
  - intros n id Hn. destruct (Forall2_lookup_l _ _ _ _ _ Hids Hn) as (o & Ho & Hio). exists o. split; [by destruct (id =? 0); [|apply Hio]|].
    destruct (reply_bits (kern s') reply array (Z.of_nat n) 15 ltac:(lia)) as [->|?]; [|lia].
    rewrite <- (Z.add_0_l (Z.of_nat n)), (types_of_field (kern s') array 0 n o) by done. destruct o as [x|]; [|done].
    destruct (Hcar x) as (X & HX & HX'). { apply list_elem_of_omap. exists (Some x). split; [by apply list_elem_of_lookup_2 in Ho|done]. }
    unfold type_at. by rewrite HX, HX'.
Qed.

Lemma receiver_learns_witness :
  exists s' d, exec 2 (SendMessageRight 1 3 Copied Copied [7; 8] (Some (Copied, [0; 2; 0; 0])) true false) two_rights = Some (Returned 1, s')
    /\ syscall_get_message_info 2 2 true Copied (kern s') = Some ((Returned 0, Some d), kern s')
    /\ d_sender d = 2 /\ d_size d = 2 /\ d_other_rights_count d = 1 /\ Z.land (Z.shiftr (d_flags d) 20) 15 = 2.
Proof.
  assert (HG : exists G, groups (kern two_rights) !! 1%nat = Some G /\ g_rights G !! 1 = Some 4%nat /\ g_rights G !! 2 = Some 6%nat)
    by (eexists; by split_and!).
  destruct HG as (G & HG & Hr & Hr2). assert (HR : exists R, rights (kern two_rights) !! 4%nat = Some R /\ dest (kern two_rights) R = Some (2%nat, 1))
    by (eexists; by split).
  destruct HR as (R & HR & Hd).
  set (e := exec 2 (SendMessageRight 1 3 Copied Copied [7; 8] (Some (Copied, [0; 2; 0; 0])) true false) two_rights).
  assert (E : exists s' P, e = Some (Returned 1, s') /\ global_ports (kern s') !! 2 = Some 2%nat /\ ports (kern s') !! 2%nat = Some P /\ owner P = 2)
    by (eexists _, _; split_and!; vm_compute; reflexivity).
  destruct E as (s' & P & E & Hno & HP & Ho).
  destruct (receiver_learns plenty two_rights 2 1 G 1 3 [7; 8] [0; 2; 0; 0] true false 4 R 1 s' 2 1 2 P
    two_rights_reachable eq_refl HG ltac:(done) Hr HR E Hd eq_refl ltac:(done) Hno HP) as (d & Ed & H1 & H2 & _ & H3 & _ & H4).
  rewrite Ho in Ed. exists s', d. split_and!; try assumption. destruct (H4 1%nat 2 eq_refl) as (o & Ho2 & Hf). cbn in Ho2. rewrite Hr2 in Ho2.
  subst o. exact Hf.
Defined.

(** ** Accepting the rights of a message *)

(** What [syscall_accept_rights] does with the first message of the queue *)
Definition accept_message (h m : nat) : K (list Z * Z) :=
  rights ← get_rights (GMessage m);
  ids ← draw_ids h rights;
  e ← transfer_rights h (GMessage m) ids;
  mret (ids, e).

Lemma accept_message_ok k h H m M :
  inv idle k -> groups k !! h = Some H -> tasks H <> ∅ -> messages k !! m = Some M ->
  runs (accept_message h m) k (fun '(ids, e) k' => inv idle k' /\ e = 0 /\ length ids = length (m_rights M)
    /\ exists k1, rights k1 = rights k /\ taken k1 k' m h 0 ids M).
Proof.
  intros I HH HT HM. unfold accept_message. eapply runs_step.
  { unfold get_rights. erewrite kbind by (by apply get_message_run). done. }
  eapply runs_bind; [by apply (draw_ids_ok (m_rights M) k h H)|]. cbn beta.
  intros ids k1 (I1 & Hm1 & Hr1 & Hlen & H1 & HH1 & HT1 & Hg1 & Hc1 & Hnd & Hin & Hz).
  unfold transfer_rights. eapply (runs_bind _ _ _ (fun e k' => inv idle k' /\ e = 0 /\ taken k1 k' m h 0 ids M)).
  - eapply runs_get_group; [done|]. rewrite bool_decide_false by congruence.
    eapply runs_bind; [apply (accept_loop_ok ids idle k1 m h 0 M H1 I1); [congruence|done|congruence| |done]|].
    + split; [done|]. intros id Hi Hne. rewrite Hg1. specialize (Hin id Hi Hne). destruct (i_group _ _ I h H HH) as (Hp0 & Hids & _).
      split; [|lia]. destruct (g_rights H !! id) eqn:E; [|done]. specialize (Hids id ltac:(by eexists)). lia.
    + cbn beta. intros _ k' [I' Ht]. by apply runs_ret.
  - intros e k' (I' & He & Ht). apply runs_ret. split_and!; try done. by exists k1.
Qed.

(** A right that is in the table of one place is not in that of another. *)
Lemma one_table k g id g' id' r : inv idle k ->
  group_at (groups k) (g, id) = Some r -> group_at (groups k) (g', id') = Some r -> g = g' /\ id = id'.
Proof.
  intros I H1 H2. apply (i_groups _ _ I) in H1, H2. rewrite H1 in H2. by injection H2 as -> ->.
Qed.

(** C27. The rights sent in a message arrive: after a message has been sent, accepting it into
    a group gives new numbers in that group, one for every place, and each right of the message
    is then in the table of the group under the number of its place, and in no other table
    any more, and is otherwise the right that was sent. *)
Theorem sent_rights_arrive memory s r R g rp array data sender ty always h H :
  reachable memory s -> rights (kern s) !! r = Some R -> alive R = true ->
  (forall x, x ∈ omap id array -> is_Some (rights (kern s) !! x)) -> reply_ok (kern s) rp ty ->
  groups (kern s) !! h = Some H -> tasks H <> ∅ ->
  runs (send_message_right r g rp array data sender ty always) (kern s) (fun res k1 =>
    match res with
    | Error _ _ => unchanged (kern s) k1
    | Success _ =>
        exists m, messages (kern s) !! m = None /\
        runs (accept_message h m) k1 (fun '(ids, e) k' => e = 0 /\ length ids = length array
          /\ forall n x, array !! n = Some (Some x) -> exists X id, rights (kern s) !! x = Some X /\ ids !! n = Some id
             /\ rights k' !! x = Some (accepted (carried X m) h id)
             /\ forall g' id', group_at (groups k') (g', id') = Some x <-> g' = h /\ id' = id)
    end).
Proof.
  intros Hs HR Ha Harr Hrp HH HT. destruct (reachable_sys_inv memory s Hs) as [I _ _ _].
  destruct (send_message_right_ok (kern s) r g rp array data sender ty always R I HR Ha Harr Hrp) as (res & k1 & E & I1 & Hres).
  exists res, k1. split; [exact E|]. destruct res as [e a|[reply v]]; [apply Hres|].
  destruct Hres as (_ & _ & _ & Hsend & p & idr & _ & [[Hm Hms] _ Hrs _ _]). exists (fresh (kern s)). split; [exact Hm|].
  destruct (proj1 (se_groups _ _ (keeps_send_message_right r g rp array data sender ty always _ _ _ E)) h H HH) as (H1 & HH1 & HT1).
  set (m := fresh (kern s)) in *. set (M := Message sender idr data reply array) in *.
  eapply runs_mono; [apply (accept_message_ok k1 h H1 m M I1 HH1); [congruence|rewrite Hms; apply lookup_insert_eq]|].
  intros [ids e] k' (I' & He & Hlen & k2 & Hr2 & Ht). split; [done|]. split; [done|]. intros n x Hn.
  assert (Hx : x ∈ omap id array) by (apply list_elem_of_omap; exists (Some x); split; [by apply list_elem_of_lookup_2 in Hn|done]).
  destruct (Hrs x Hx) as (X & HX & HX1). destruct (Hsend x Hx) as (X' & HX' & Hal & _). assert (X' = X) as -> by congruence.
  destruct (lookup_lt_is_Some_2 ids n) as [id Hid]; [rewrite Hlen; by apply lookup_lt_Some in Hn|].
  destruct (t_alive _ _ _ _ _ _ _ Ht n id x (carried X m)) as [Hacc Htab]; try done; [congruence|].
  exists X, id. split_and!; try done. intros g' id'. split; [|by intros [-> ->]]. intros Hg. by apply (one_table k' g' id' h id x I').
Qed.

Lemma sent_rights_arrive_witness :
  exists k1 m ids k' id, send_message_right 4 1 None [Some 6%nat; None; None; None] [7] 2 SendOnce false (kern two_rights) = Some (Success (None, 0), k1)
    /\ accept_message 1 m k1 = Some ((ids, 0), k') /\ ids !! 0%nat = Some id /\ group_at (groups k') (1%nat, id) = Some 6%nat.
Proof.
  assert (HR : exists R, rights (kern two_rights) !! 4%nat = Some R /\ alive R = true) by (eexists; by split).
  assert (HH : exists H, groups (kern two_rights) !! 1%nat = Some H /\ tasks H <> ∅) by (eexists; by split).
  destruct HR as (R & HR & Ha), HH as (H & HH & HT).
  assert (Harr : forall x, x ∈ omap id [Some 6%nat; None; None; None] -> is_Some (rights (kern two_rights) !! x)).
  { intros x Hx. apply list_elem_of_singleton in Hx as ->. by eexists. }
  destruct (sent_rights_arrive plenty two_rights 4 R 1 None [Some 6%nat; None; None; None] [7] 2 SendOnce false 1 H
    two_rights_reachable HR Ha Harr Logic.I HH HT) as (res & k1 & E & Hres).
  assert (res = Success (None, 0)) as ->.
  { transitivity (default (Error 0 0) (fst <$> send_message_right 4 1 None [Some 6%nat; None; None; None] [7] 2 SendOnce false (kern two_rights))).
    - rewrite E. reflexivity.
    - vm_compute. reflexivity. }
  destruct Hres as (m & _ & [ids e] & k' & E' & -> & _ & Hx). destruct (Hx 0%nat 6%nat eq_refl) as (X & id & _ & Hid & _ & Hg).
  exists k1, m, ids, k', id. split_and!; try assumption. apply Hg. by split.
Defined.

(** ** The end of a right *)

(** The messages that the end of a live right puts into the queue of port [p]: its own
    notification, and that of the structure it was the last one to share. *)
Definition notices (k : kernel) (r : nat) (R : right) (reason : DestroyReason) (p : nat) (e : generic_message) : Prop :=
  match e with
  | GRight x => x = r /\ parent R = Some p
      /\ match rtype R with SendOnce => reason = DeletedBySender | SendMany => notification_port R = true | MemObject => False end
  | GShared x => exists X, shareds k !! x = Some X /\ s_parent X = Some p /\ s_alive X = true
      /\ r ∈ send_many_rights X /\ forall y, y ∈ send_many_rights X -> y = r
  | GMessage _ => False
  end.

Lemma notices_news k r R reason p e : notices k r R reason p e <-> news (shareds k) r R (notifies R reason) p e.
Proof.
  unfold notices, news, notifies. destruct e as [m|x|x].
  - split; [done|]. intros [[? _]|(x & X & ? & _)]; done.
  - split.
    + intros (-> & Hp & Ht). left. split_and!; try done. by destruct (rtype R); [rewrite bool_decide_true| |].
    + intros [(E & Hn & Hp)|(x' & X & ? & _)]; [|done]. injection E as ->. split_and!; try done.
      destruct (rtype R); [by apply bool_decide_eq_true in Hn|done|done].
  - split.
    + intros (X & HX & Hp & Ha & Hin & Hall). right. exists x, X. split_and!; try done. exists X. split_and!; try done.
      apply elem_of_nil_inv. intros y Hy. apply list_elem_of_filter in Hy as [Hne Hy]. by apply Hne, Hall.
    + intros [(? & _)|(x' & X & E & (Y & HY & Ha & Hin & Hf) & HX & Hp)]; [done|]. injection E as ->.
      assert (Y = X) as -> by congruence. exists X. split_and!; try done. intros y Hy. destruct (decide (y = r)) as [|Hne]; [done|].
      assert (Hy' : y ∈ filter (fun z => z <> r) (send_many_rights X)) by (by apply list_elem_of_filter).
      rewrite Hf in Hy'. by apply elem_of_nil in Hy'.
Qed.

(** C28. A right ends once, leaves every table, and tells those who wait for it.  [destroy] of
    a live right that the caller may destroy returns true: the right is dead and in the table
    of no group and of no port and shares no structure any more, every queue has grown by
    the notifications that are due and by nothing else, each of them once, no message is
    lost, and the right is handed to RCU at once, unless its notification or the message it
    is in still needs it.  [destroy] of a dead right, or for another group, returns false and
    changes nothing. *)
Theorem destroy_ends_right memory s r R reason mg :
  reachable memory s -> rights (kern s) !! r = Some R ->
  runs (destroy r reason mg) (kern s) (fun res k' =>
    if res then alive R = true /\ mismatch R mg = false
      /\ (exists R', rights k' !! r = Some R' /\ alive R' = false)
      /\ (forall i, group_at (groups k') i <> Some r) /\ (forall i, port_at (ports k') i <> Some (RRight r))
      /\ (forall x, r ∉ senders (shareds k') x)
      /\ (forall p, is_Some (ports (kern s) !! p) -> exists add, queue (ports k') p = queue (ports (kern s)) p ++ add
            /\ NoDup add /\ forall e, e ∈ add <-> notices (kern s) r R reason p e)
      /\ messages k' = messages (kern s)
      /\ (DRight r ∈ garbage k' <-> notifies R reason = false /\ of_message R = false)
    else k' = kern s /\ (alive R = false \/ mismatch R mg = true)).
Proof.
  intros Hs HR. destruct (reachable_sys_inv memory s Hs) as [I _ _ _]. set (k := kern s) in *.
  eapply runs_mono; [by apply (destroy_spec idle k r R reason mg)|]. cbn beta. intros res k' (I' & _ & Hres & H).
  destruct res; [|split; [done|]; destruct (alive R), (mismatch R mg); auto].
  symmetry in Hres. apply andb_true_iff in Hres as [Ha Hm]. apply negb_true_iff in Hm. destruct H as [add D].
  assert (HR' : rights k' !! r = Some (set_sent (notifies R reason) (set_alive false R))) by (rewrite (d_rights _ _ _ _ _ _ D); apply lookup_insert_eq).
  split_and!; try done.
  - by eexists.
  - intros i E. apply (i_groups _ _ I') in E. unfold view in E. by rewrite HR' in E.
  - intros i E. apply (i_ports _ _ I') in E. cbn in E. unfold view in E. by rewrite HR' in E.
  - intros x E. apply (i_senders _ _ I') in E. unfold view in E. by rewrite HR' in E.
  - intros p Hp. destruct (d_add _ _ _ _ _ _ D p) as [Hnd Hadd]. exists (add p).
    split; [by apply (queue_step _ _ _ add p (d_ports _ _ _ _ _ _ D))|]. split; [done|]. intros e. by rewrite Hadd, notices_news.
  - apply D.
  - rewrite (d_garbage _ _ _ _ _ _ D), elem_of_app.
    assert (Hno : DRight r ∉ garbage k) by (intros Hin; apply (i_dead_right _ _ I) in Hin as (X & HX & Hd & _); congruence).
    destruct (notifies R reason), (of_message R); cbn; rewrite ?elem_of_nil, ?list_elem_of_singleton; naive_solver.
Qed.

Lemma destroy_ends_right_witness :
  exists R k', rights (kern opened) !! 4%nat = Some R /\ destroy 4 DeletedBySender (Some 1%nat) (kern opened) = Some (true, k')
    /\ exists add, queue (ports k') 2 = queue (ports (kern opened)) 2 ++ add /\ GShared 5 ∈ add.
Proof.
  assert (HR : exists R, rights (kern opened) !! 4%nat = Some R) by (by eexists). destruct HR as (R & HR).
  destruct (destroy_ends_right plenty opened 4 R DeletedBySender (Some 1%nat) opened_reachable HR) as (res & k' & E & H).
  assert (res = true) as ->.
  { transitivity (default false (fst <$> destroy 4 DeletedBySender (Some 1%nat) (kern opened))); [rewrite E|vm_compute]; reflexivity. }
  exists R, k'. split; [exact HR|]. split; [exact E|]. destruct H as (_ & _ & _ & _ & _ & _ & Hq & _).
  destruct (Hq 2%nat ltac:(by eexists)) as (add & Hadd & _ & Hin). exists add. split; [exact Hadd|]. apply Hin. cbn.
  eexists. split; [reflexivity|]. split_and!; try reflexivity; [by left|]. intros y Hy. by apply list_elem_of_singleton in Hy.
Defined.

(** ** The end of a task *)

(** C29. A task that ends leaves nothing behind: the loops of [cleanup] over its ports and its
    groups end, in whatever order the groups come, and afterwards the task is not known, has
    no name space, owns no live port and is in no group; every live right is still in its place,
    so that the rights of groups that ended with the task are gone. *)
Theorem exit_leaves_nothing memory s t order :
  reachable memory s -> t ∈ known s -> t ∈ dying (kern s) -> NoDup order -> (forall g, g ∈ order <-> task_groups (kern s) t g) ->
  exists s', exit t order s = Some s' /\ reachable memory s' /\ t ∉ known s' /\ namespaces s' !! t = None
    /\ (forall p P, ports (kern s') !! p = Some P -> p_alive P = true -> owner P <> t)
    /\ (forall g G, groups (kern s') !! g = Some G -> t ∉ tasks G)
    /\ (forall r R, rights (kern s') !! r = Some R -> alive R = true -> placed (kern s') r R).
Proof.
  intros Hs Hk Hd Hnd Hord. destruct (exit_ok s t order (reachable_sys_inv memory s Hs) Hnd Hord) as (s' & E & Hs' & Hrest).
  exists s'. split; [done|]. split; [eapply reach_step; [exact Hs|by eapply step_exit]|]. destruct Hrest as (H1 & H2 & H3 & H4).
  split_and!; try done. intros r R HR Ha. apply placed_ok; [apply (si_inv _ Hs')|done|done].
Qed.

(** The first task has been killed. *)
Definition killed : system := Eval vm_compute in default opened (play [Call 2 (KillTask 2)] opened).

Lemma killed_reachable : reachable plenty killed.
Proof. by apply (play_reachable plenty [Call 2 (KillTask 2)] opened); [apply opened_reachable|vm_compute]. Qed.

Lemma exit_leaves_nothing_witness :
  exists s', exit 2 (groups_of (kern killed) 2) killed = Some s' /\ 2 ∉ known s' /\ size (ports (kern killed)) = 2%nat
    /\ forall p P, ports (kern s') !! p = Some P -> p_alive P = true -> owner P <> 2.
Proof.
  destruct (exit_leaves_nothing plenty killed 2 (groups_of (kern killed) 2) killed_reachable ltac:(by apply (bool_decide_unpack _); vm_compute)
    ltac:(by apply (bool_decide_unpack _); vm_compute) ltac:(apply NoDup_elements) (elem_of_groups_of (kern killed) 2))
    as (s' & E & _ & Hk & _ & Hp & _).
  exists s'. split; [exact E|]. split; [exact Hk|]. split; [reflexivity|exact Hp].
Defined.

(** ** What the code does not survive *)

(** Taking the rights of a message from an empty queue: the front of the list is never
    NULL, and the kernel goes on with the head of the list as if it were a message. *)
Theorem accept_rights_of_nothing : reachable plenty opened /\ exec 2 (AcceptRights 2 Copied) opened = None.
Proof. split; [apply opened_reachable|by vm_compute]. Qed.

(** Any task may take the idle task out of the group of the kernel, which ends the group;
    once it is reclaimed, every call on right 0 uses a deleted object. *)
Theorem kernel_group_is_not_protected :
  exists s, play [Call 2 CreateTaskGroup; Call 2 (SetNamespace 2 1); Call 2 (RemoveFromTaskGroup 1 1); Callback (DGroup 0)] (boot plenty) = Some s
    /\ exec 2 (SendMessageRight 0 0 Copied Copied [1] None false false) s = None.
Proof. eexists. split; vm_compute; reflexivity. Qed.

(** A message that cannot be read from the memory of the task is not sent, and the call
    reports success. *)
Theorem unreadable_message_succeeds s current rid rpid e data aux many always :
  exec current (SendMessageRight rid rpid Copied (Fault e) data aux many always) s = Some (Returned 0, s).
Proof. by destruct s. Qed.

(** Without memory for a port the kernel writes to the null pointer. *)
Theorem port_without_memory : exec 2 (CreatePort 0) (boot (fun _ => false)) = None.
Proof. by vm_compute. Qed.

(** When the second allocation for a group fails, the null pointer is returned as the group. *)
Theorem group_without_memory : exec 2 CreateTaskGroup (boot (fun n => (n =? 0)%nat)) = None.
Proof. by vm_compute. Qed.

(** The kernel stops when the descriptor of a message goes to memory that is not mapped yet. *)
Theorem info_to_unmapped_page :
  exists s, play [Call 2 (SendMessagePort 2 0 Copied Copied [1])] opened = Some s
    /\ exec 2 (GetMessageInfo 2 true Blocked) s = None.
Proof. eexists. split; vm_compute; reflexivity. Qed.

(** The reply right of a message that is dropped without being accepted ends without a
    notification: the port that waits for the reply is not told. *)
Definition unanswered : system :=
  Eval vm_compute in default two_rights (play [Call 2 (SendMessageRight 1 3 Copied Copied [7] None false false);
    Call 2 (GetFirstMessage 2 false true Copied)] two_rights).

Theorem rejected_reply_is_silent :
  play [Call 2 (SendMessageRight 1 3 Copied Copied [7] None false false); Call 2 (GetFirstMessage 2 false true Copied)] two_rights
    = Some unanswered
  /\ queue (ports (kern unanswered)) 3 = [] /\ exists r R, rights (kern unanswered) !! r = Some R
     /\ rtype R = SendOnce /\ parent R = Some 3%nat /\ alive R = false /\ DRight r ∈ garbage (kern unanswered).
Proof.
  split; [by vm_compute|]. split; [by vm_compute|]. exists 8%nat. eexists. split; [reflexivity|]. split_and!; try reflexivity. vm_compute. by left.
Qed.
