(* ===== verification/ListFacts.v ===== *)
(** * Facts on stdpp's lists that the models of containers and allocators share *)

From stdpp Require Import base numbers list.
Open Scope Z_scope.

Lemma filter_all {A} (P : A -> Prop) `{forall x, Decision (P x)} l : Forall P l -> filter P l = l.
Proof. induction 1 as [|x l Hx _ IH]; [done|]. by rewrite filter_cons_True, IH. Qed.
Lemma filter_none {A} (P : A -> Prop) `{forall x, Decision (P x)} l : Forall (fun x => ~ P x) l -> filter P l = [].
Proof. induction 1 as [|x l Hx _ IH]; [done|]. by rewrite filter_cons_False, IH. Qed.

(** All but one element of a list without repetitions *)
Lemma filter_middle {A} `{EqDecision A} (a : A) l1 l2 : NoDup (l1 ++ a :: l2) -> filter (fun x => x <> a) (l1 ++ a :: l2) = l1 ++ l2.
Proof.
  intros Hnd. apply NoDup_app in Hnd as (_ & H1 & [H2 _]%NoDup_cons). rewrite filter_app, filter_cons_False by (by intros H).
  f_equal; apply filter_all, Forall_forall; intros x Hx ->; [|done]. apply (H1 a Hx). by left.
Qed.
