(* ===== verification/RbTree.v ===== *)
(** * pmos/containers/intrusive_bst.hh: intrusive red-black trees

    The trees that hold the ports, rights, groups, tasks and memory regions of the
    kernel.  A node is part of the object it orders and has three pointers; bit 0 of
    the pointer to the parent is the colour.  Addresses are numbers, 0 is the null
    pointer, and the heap maps the addresses of nodes to their contents; a pointer to
    nothing is the outcome [None].  Loops that follow pointers take fuel; the operations
    give them the number of nodes of the heap, which suffices (RbTreeSpec). *)

From stdpp Require Import base list numbers gmap sorting.
From S2P Require Import Prelude.

(** ** Nodes *)

Record rb_node := RbNode { nd_parent : Z; nd_left : Z; nd_right : Z }.

Definition COLOR_MASK : Z := 1.

(** [RBTreeNode::is_red], [set_color], [get_parent] and [set_parent] *)
Definition node_is_red (n : rb_node) : bool := negb (Z.land (nd_parent n) COLOR_MASK =? 0).
Definition node_set_color (red : bool) (n : rb_node) : rb_node :=
  RbNode (if red then Z.lor (nd_parent n) COLOR_MASK else Z.ldiff (nd_parent n) COLOR_MASK) (nd_left n) (nd_right n).
Definition node_get_parent (n : rb_node) : Z := Z.ldiff (nd_parent n) COLOR_MASK.
Definition node_set_parent (p : Z) (n : rb_node) : rb_node :=
  RbNode (Z.lor (Z.land (nd_parent n) COLOR_MASK) p) (nd_left n) (nd_right n).
Definition node_set_left (p : Z) (n : rb_node) : rb_node := RbNode (nd_parent n) p (nd_right n).
Definition node_set_right (p : Z) (n : rb_node) : rb_node := RbNode (nd_parent n) (nd_left n) p.

(** ** The monad of code on a tree: its root and the nodes of the heap *)

Record rb_state := RbState { rb_root : Z; rb_nodes : gmap Z rb_node }.

Definition R (A : Type) : Type := rb_state -> option (A * rb_state).
#[global] Instance R_ret : MRet R := fun A a s => Some (a, s).
#[global] Instance R_bind : MBind R := fun A B f c s => match c s with Some (a, s') => f a s' | None => None end.

Definition get_root : R Z := fun s => Some (rb_root s, s).
Definition set_root (p : Z) : R unit := fun s => Some (tt, RbState p (rb_nodes s)).
Definition get_node (a : Z) : R rb_node := fun s => n ← rb_nodes s !! a; Some (n, s).
Definition upd_node (a : Z) (f : rb_node -> rb_node) : R unit :=
  fun s => n ← rb_nodes s !! a; Some (tt, RbState (rb_root s) (<[a := f n]> (rb_nodes s))).
Definition out_of_fuel {A} : R A := fun _ => None.
Definition node_count : R nat := fun s => Some (size (rb_nodes s), s).

Definition left_of (a : Z) : R Z := n ← get_node a; mret (nd_left n).
Definition right_of (a : Z) : R Z := n ← get_node a; mret (nd_right n).
Definition parent_of (a : Z) : R Z := n ← get_node a; mret (node_get_parent n).
Definition is_red (a : Z) : R bool := n ← get_node a; mret (node_is_red n).
Definition set_color (a : Z) (red : bool) : R unit := upd_node a (node_set_color red).
Definition set_parent (a p : Z) : R unit := upd_node a (node_set_parent p).
Definition set_left (a p : Z) : R unit := upd_node a (node_set_left p).
Definition set_right (a p : Z) : R unit := upd_node a (node_set_right p).

(** [p and p->is_red()] *)
Definition points_to_red (p : Z) : R bool := if p =? 0 then mret false else is_red p.

(** ** Rotations *)

Definition rotate_left (node : Z) : R unit :=
  right ← right_of node;
  rl ← left_of right;
  _ ← set_right node rl;
  _ ← (if rl =? 0 then mret tt else set_parent rl node);
  p ← parent_of node;
  _ ← set_parent right p;
  _ ← (if p =? 0 then set_root right
       else
         pl ← left_of p;
         if node =? pl then set_left p right else set_right p right);
  _ ← set_left right node;
  set_parent node right.

Definition rotate_right (node : Z) : R unit :=
  left ← left_of node;
  lr ← right_of left;
  _ ← set_left node lr;
  _ ← (if lr =? 0 then mret tt else set_parent lr node);
  p ← parent_of node;
  _ ← set_parent left p;
  _ ← (if p =? 0 then set_root left
       else
         pr ← right_of p;
         if node =? pr then set_right p left else set_left p left);
  _ ← set_right left node;
  set_parent node left.

(** ** Insertion *)

Section Ordered.
(** The field of the object at an address that the tree is ordered by, and [Compare] *)
Context (key : Z -> Z).

Definition cmp (a b : Z) : bool := key a <? key b.

(** A round of the loop of [fix_insert] at a node whose parent is red; the result is the
    node of the next round. *)
Definition fix_insert_round (new_node parent : Z) : R Z :=
  grandparent ← parent_of parent;
  gl ← left_of grandparent;
  if parent =? gl then
    uncle ← right_of grandparent;
    red ← points_to_red uncle;
    if red : bool then
      _ ← set_color parent false;
      _ ← set_color uncle false;
      _ ← set_color grandparent true;
      mret grandparent
    else
      pr ← right_of parent;
      '(new_node, parent, grandparent) ←
        (if new_node =? pr then
           _ ← rotate_left parent;
           p ← parent_of parent;
           g ← parent_of p;
           mret (parent, p, g)
         else mret (new_node, parent, grandparent));
      _ ← set_color parent false;
      _ ← set_color grandparent true;
      _ ← rotate_right grandparent;
      mret new_node
  else
    uncle ← left_of grandparent;
    red ← points_to_red uncle;
    if red : bool then
      _ ← set_color parent false;
      _ ← set_color uncle false;
      _ ← set_color grandparent true;
      mret grandparent
    else
      pl ← left_of parent;
      '(new_node, parent, grandparent) ←
        (if new_node =? pl then
           _ ← rotate_right parent;
           p ← parent_of parent;
           g ← parent_of p;
           mret (parent, p, g)
         else mret (new_node, parent, grandparent));
      _ ← set_color parent false;
      _ ← set_color grandparent true;
      _ ← rotate_left grandparent;
      mret new_node.

Fixpoint fix_insert (fuel : nat) (new_node : Z) : R unit :=
  match fuel with
  | O => out_of_fuel
  | S fuel =>
      parent ← parent_of new_node;
      red ← points_to_red parent;
      if red : bool then
        next ← fix_insert_round new_node parent;
        fix_insert fuel next
      else
        root ← get_root;
        set_color root false
  end.

(** The loop of [insert] that looks for the place of the node *)
Fixpoint insert_place (fuel : nat) (node parent current : Z) : R Z :=
  if current =? 0 then mret parent
  else
    match fuel with
    | O => out_of_fuel
    | S fuel =>
        next ← (if cmp node current then left_of current else right_of current);
        insert_place fuel node current next
    end.

Definition insert (node : Z) : R unit :=
  n ← node_count;
  _ ← upd_node node (fun _ => RbNode 0 0 0);
  root ← get_root;
  parent ← insert_place n node 0 root;
  _ ← set_parent node parent;
  _ ← set_color node true;
  _ ← (if parent =? 0 then _ ← set_root node; set_color node false
       else if cmp node parent then set_left parent node
       else set_right parent node);
  fix_insert n node.

(** ** Removal *)

Definition transplant (u v : Z) : R unit :=
  p ← parent_of u;
  _ ← (if p =? 0 then set_root v
       else
         pl ← left_of p;
         if u =? pl then set_left p v else set_right p v);
  if v =? 0 then mret tt else p ← parent_of u; set_parent v p.

(** The rest of a round of [fix_remove] with a black sibling, when the node is the left child *)
Definition rebalance_left (parent sibling : Z) : R (Z * Z) :=
  sl ← left_of sibling;
  left_red ← points_to_red sl;
  sr ← right_of sibling;
  right_red ← points_to_red sr;
  if negb left_red && negb right_red then
    _ ← set_color sibling true;
    p ← parent_of parent;
    mret (parent, p)
  else
    sibling ←
      (if negb right_red then
         sl ← left_of sibling;
         _ ← set_color sl false;
         _ ← set_color sibling true;
         _ ← rotate_right sibling;
         right_of parent
       else mret sibling);
    red ← is_red parent;
    _ ← set_color sibling red;
    _ ← set_color parent false;
    sr ← right_of sibling;
    _ ← set_color sr false;
    _ ← rotate_left parent;
    root ← get_root;
    mret (root, parent).

(** and when it is the right child *)
Definition rebalance_right (parent sibling : Z) : R (Z * Z) :=
  sr ← right_of sibling;
  right_red ← points_to_red sr;
  sl ← left_of sibling;
  left_red ← points_to_red sl;
  if negb right_red && negb left_red then
    _ ← set_color sibling true;
    p ← parent_of parent;
    mret (parent, p)
  else
    sibling ←
      (if negb left_red then
         sr ← right_of sibling;
         _ ← set_color sr false;
         _ ← set_color sibling true;
         _ ← rotate_left sibling;
         left_of parent
       else mret sibling);
    red ← is_red parent;
    _ ← set_color sibling red;
    _ ← set_color parent false;
    sl ← left_of sibling;
    _ ← set_color sl false;
    _ ← rotate_right parent;
    root ← get_root;
    mret (root, parent).

(** A round of the loop of [fix_remove]; the result is the node and the parent of the next one. *)
Definition fix_remove_round (node parent : Z) : R (Z * Z) :=
  pl ← left_of parent;
  if node =? pl then
    sibling ← right_of parent;
    if sibling =? 0 then p ← parent_of parent; mret (parent, p)
    else
      red ← is_red sibling;
      if red : bool then
        _ ← set_color sibling false;
        _ ← set_color parent true;
        _ ← rotate_left parent;
        sibling ← right_of parent;
        rebalance_left parent sibling
      else rebalance_left parent sibling
  else
    sibling ← left_of parent;
    if sibling =? 0 then p ← parent_of parent; mret (parent, p)
    else
      red ← is_red sibling;
      if red : bool then
        _ ← set_color sibling false;
        _ ← set_color parent true;
        _ ← rotate_right parent;
        sibling ← left_of parent;
        rebalance_right parent sibling
      else rebalance_right parent sibling.

Fixpoint fix_remove (fuel : nat) (node parent : Z) : R unit :=
  match fuel with
  | O => out_of_fuel
  | S fuel =>
      root ← get_root;
      red ← points_to_red node;
      if negb (node =? root) && negb red then
        '(node, parent) ← fix_remove_round node parent;
        fix_remove fuel node parent
      else if node =? 0 then mret tt
      else set_color node false
  end.

(** The leftmost and the rightmost node below [current] *)
Fixpoint leftmost (fuel : nat) (current : Z) : R Z :=
  match fuel with
  | O => out_of_fuel
  | S fuel => l ← left_of current; if l =? 0 then mret current else leftmost fuel l
  end.
Fixpoint rightmost (fuel : nat) (current : Z) : R Z :=
  match fuel with
  | O => out_of_fuel
  | S fuel => r ← right_of current; if r =? 0 then mret current else rightmost fuel r
  end.

(** [remove] of a node with two children: its successor takes its place.  The result is the
    colour that is missing now, and the child and the parent it is missing at. *)
Definition remove_inner (n : nat) (node right : Z) : R (bool * Z * Z) :=
  successor ← leftmost n right;
  original_color ← is_red successor;
  child ← right_of successor;
  sp ← parent_of successor;
  parent ←
    (if sp =? node then
       _ ← (if child =? 0 then mret tt else set_parent child successor);
       mret successor
     else
       _ ← transplant successor child;
       r ← right_of node;
       _ ← set_right successor r;
       _ ← set_parent r successor;
       mret sp);
  _ ← transplant node successor;
  l ← left_of node;
  _ ← set_left successor l;
  _ ← set_parent l successor;
  red ← is_red node;
  _ ← set_color successor red;
  mret (original_color, child, parent).

Definition remove (node : Z) : R unit :=
  n ← node_count;
  parent ← parent_of node;
  original_color ← is_red node;
  left ← left_of node;
  right ← right_of node;
  '(original_color, child, parent) ←
    (if left =? 0 then _ ← transplant node right; mret (original_color, right, parent)
     else if right =? 0 then _ ← transplant node left; mret (original_color, left, parent)
     else remove_inner n node right);
  if original_color : bool then mret tt else fix_remove (S n) child parent.

(** ** Searching *)

(** [find], [get_smaller_or_equal], [lower_bound] and [less_or_equal] of a key *)
Fixpoint find_from (fuel : nat) (value current : Z) : R Z :=
  if current =? 0 then mret 0
  else
    match fuel with
    | O => out_of_fuel
    | S fuel =>
        if value <? key current then l ← left_of current; find_from fuel value l
        else if key current <? value then r ← right_of current; find_from fuel value r
        else mret current
    end.
Definition find (value : Z) : R Z := n ← node_count; root ← get_root; find_from n value root.

Fixpoint smaller_from (fuel : nat) (value result current : Z) : R Z :=
  if current =? 0 then mret result
  else
    match fuel with
    | O => out_of_fuel
    | S fuel =>
        if key current <? value then r ← right_of current; smaller_from fuel value current r
        else if value <? key current then l ← left_of current; smaller_from fuel value result l
        else mret current
    end.
Definition get_smaller_or_equal (value : Z) : R Z := n ← node_count; root ← get_root; smaller_from n value 0 root.

Fixpoint lower_bound_from (fuel : nat) (value result current : Z) : R Z :=
  if current =? 0 then mret result
  else
    match fuel with
    | O => out_of_fuel
    | S fuel =>
        if key current <? value then r ← right_of current; lower_bound_from fuel value result r
        else if value <? key current then l ← left_of current; lower_bound_from fuel value current l
        else mret current
    end.
Definition lower_bound (value : Z) : R Z := n ← node_count; root ← get_root; lower_bound_from n value 0 root.

(** Nothing happens to [current] when the keys are equal. *)
Fixpoint less_or_equal_from (fuel : nat) (value result current : Z) : R Z :=
  if current =? 0 then mret result
  else
    match fuel with
    | O => out_of_fuel
    | S fuel =>
        if value <? key current then l ← left_of current; less_or_equal_from fuel value result l
        else if key current <? value then r ← right_of current; less_or_equal_from fuel value current r
        else less_or_equal_from fuel value result current
    end.
End Ordered.

(** ** Iteration *)

(** [begin] *)
Definition begin : R Z :=
  n ← node_count;
  root ← get_root;
  if root =? 0 then mret 0 else leftmost n root.

(** [operator++] and [operator--]: the loops that go up *)
Fixpoint up_from_right (fuel : nat) (node parent : Z) : R Z :=
  if parent =? 0 then mret 0
  else
    match fuel with
    | O => out_of_fuel
    | S fuel =>
        r ← right_of parent;
        if node =? r then p ← parent_of parent; up_from_right fuel parent p else mret parent
    end.
Fixpoint up_from_left (fuel : nat) (node parent : Z) : R Z :=
  if parent =? 0 then mret 0
  else
    match fuel with
    | O => out_of_fuel
    | S fuel =>
        l ← left_of parent;
        if node =? l then p ← parent_of parent; up_from_left fuel parent p else mret parent
    end.

Definition next (node : Z) : R Z :=
  n ← node_count;
  r ← right_of node;
  if r =? 0 then p ← parent_of node; up_from_right n node p else leftmost n r.

Definition prev (node : Z) : R Z :=
  n ← node_count;
  l ← left_of node;
  if l =? 0 then p ← parent_of node; up_from_left n node p else rightmost n l.

(** [erase] at an iterator gives the iterator behind it. *)
Definition erase (it : Z) : R Z :=
  n ← (if it =? 0 then mret 0 else next it);
  _ ← remove it;
  mret n.
