(* ===== verification/RbTreeInv.v ===== *)
(** * Red-black trees in the heap: representation, rotations and the loops

    A heap holds a tree of addresses when every node has the pointers and the colour
    that its place asks for.  A tree with a hole is a list of frames, from the hole up
    to the root; the loops of insertion and removal walk up such a list.  [tri] are
    total-correctness triples of code on a tree; all the operations inside the loops
    keep the in-order sequence of addresses and the nodes outside the tree. *)

From stdpp Require Import base list numbers gmap sorting.
From S2P Require Import Prelude RbTree.

Inductive tree := E | T (red : bool) (l : tree) (a : Z) (r : tree).

Definition root_of (t : tree) : Z := match t with E => 0 | T _ _ a _ => a end.
Fixpoint inorder (t : tree) : list Z := match t with E => [] | T _ l a r => inorder l ++ a :: inorder r end.
Definition red_root (t : tree) : bool := match t with E => false | T c _ _ _ => c end.

(** A pointer to a node: not null, and aligned *)
Definition even (p : Z) : Prop := Z.testbit p 0 = false.
Definition addr (p : Z) : Prop := p <> 0 /\ even p.

Definition enc (p : Z) (c : bool) : Z := if c then Z.lor p 1 else p.

Lemma land_1 x : Z.land x 1 = if Z.testbit x 0 then 1 else 0.
Proof.
  apply Z.bits_inj'. intros n Hn. rewrite Z.land_spec. destruct (decide (n = 0)) as [->|Hne].
  - by destruct (Z.testbit x 0).
  - assert (H1 : Z.testbit 1 n = false) by (apply Z.bits_above_log2; [lia|]; change (Z.log2 1) with 0; lia).
    rewrite H1, andb_false_r. by destruct (Z.testbit x 0); rewrite ?H1, ?Z.testbit_0_l.
Qed.
Lemma ldiff_even p : even p -> Z.ldiff p 1 = p.
Proof.
  intros H. apply Z.bits_inj'. intros n Hn. rewrite Z.ldiff_spec. destruct (decide (n = 0)) as [->|Hne]; [by rewrite H|].
  rewrite (Z.bits_above_log2 1 n), andb_true_r; [done|lia|]. change (Z.log2 1) with 0. lia.
Qed.
Lemma lor_ldiff p : even p -> Z.ldiff (Z.lor p 1) 1 = p.
Proof.
  intros H. apply Z.bits_inj'. intros n Hn. rewrite Z.ldiff_spec, Z.lor_spec. destruct (decide (n = 0)) as [->|Hne]; [by rewrite H|].
  rewrite (Z.bits_above_log2 1 n), andb_true_r, orb_false_r; [done|lia|]. change (Z.log2 1) with 0. lia.
Qed.

Section Node.
Context (p q l r : Z) (c c' : bool) (Hp : even p).
Lemma enc_red : node_is_red (RbNode (enc p c) l r) = c.
Proof.
  unfold node_is_red, enc, COLOR_MASK. cbn. rewrite land_1. destruct c; [|by rewrite Hp]. by rewrite Z.lor_spec, Hp.
Qed.
Lemma enc_parent : node_get_parent (RbNode (enc p c) l r) = p.
Proof. unfold node_get_parent, enc, COLOR_MASK. cbn. destruct c; [by apply lor_ldiff|by apply ldiff_even]. Qed.
Lemma enc_set_color : node_set_color c' (RbNode (enc p c) l r) = RbNode (enc p c') l r.
Proof.
  unfold node_set_color, enc, COLOR_MASK. cbn. f_equal. destruct c, c'; try done.
  - by rewrite <- Z.lor_assoc, Z.lor_diag.
  - by apply lor_ldiff.
  - by apply ldiff_even.
Qed.
Lemma enc_set_parent : node_set_parent q (RbNode (enc p c) l r) = RbNode (enc q c) l r.
Proof.
  unfold node_set_parent, enc, COLOR_MASK. cbn. f_equal. rewrite land_1. destruct c; [|by rewrite Hp].
  rewrite Z.lor_spec, Hp. cbn [orb Z.testbit]. apply Z.lor_comm.
Qed.
End Node.

(** ** Trees in the heap *)

Fixpoint rep (h : gmap Z rb_node) (p : Z) (t : tree) : Prop :=
  match t with
  | E => True
  | T c l a r => h !! a = Some (RbNode (enc p c) (root_of l) (root_of r)) /\ rep h a l /\ rep h a r
  end.

Record holds (s : rb_state) (t : tree) : Prop := Holds {
  h_root : rb_root s = root_of t;
  h_rep : rep (rb_nodes s) 0 t;
  h_nodup : NoDup (inorder t);
  h_addr : Forall addr (inorder t)
}.

(** A tree with a hole: [FL] is a node whose left subtree has the hole, [FR] one whose right
    subtree has it. *)
Inductive frame := FL (red : bool) (a : Z) (r : tree) | FR (red : bool) (l : tree) (a : Z).
Definition frame_addr (f : frame) : Z := match f with FL _ a _ | FR _ _ a => a end.
Definition frame_red (f : frame) : bool := match f with FL c _ _ | FR c _ _ => c end.

Fixpoint plug (k : list frame) (t : tree) : tree :=
  match k with
  | [] => t
  | FL c a r :: k => plug k (T c t a r)
  | FR c l a :: k => plug k (T c l a t)
  end.

Definition ptr (k : list frame) : Z := match k with [] => 0 | f :: _ => frame_addr f end.
Definition ptrs (k : list frame) : list Z := match k with [] => [] | f :: _ => [frame_addr f] end.
Fixpoint top (hole : Z) (k : list frame) : Z := match k with [] => hole | f :: k => top (frame_addr f) k end.
Fixpoint before (k : list frame) : list Z :=
  match k with [] => [] | FL _ _ _ :: k => before k | FR _ l a :: k => before k ++ inorder l ++ [a] end.
Fixpoint after (k : list frame) : list Z :=
  match k with [] => [] | FL _ a r :: k => a :: inorder r ++ after k | FR _ _ _ :: k => after k end.

Fixpoint rep_ctx (h : gmap Z rb_node) (hole : Z) (k : list frame) : Prop :=
  match k with
  | [] => True
  | FL c a r :: k => h !! a = Some (RbNode (enc (ptr k) c) hole (root_of r)) /\ rep h a r /\ rep_ctx h a k
  | FR c l a :: k => h !! a = Some (RbNode (enc (ptr k) c) (root_of l) hole) /\ rep h a l /\ rep_ctx h a k
  end.

Lemma inorder_plug k t : inorder (plug k t) = before k ++ inorder t ++ after k.
Proof.
  revert t. induction k as [|[c a r|c l a] k IH]; intros t; cbn; [by rewrite app_nil_r| |]; rewrite IH; cbn; by rewrite <- !app_assoc.
Qed.
Lemma root_plug k t : root_of (plug k t) = top (root_of t) k.
Proof. revert t. induction k as [|[c a r|c l a] k IH]; intros t; cbn; [done|apply IH..]. Qed.
Lemma rep_plug h k t : rep h 0 (plug k t) <-> rep h (ptr k) t /\ rep_ctx h (root_of t) k.
Proof.
  revert t. induction k as [|[c a r|c l a] k IH]; intros t; cbn; [tauto| |]; rewrite IH; cbn; tauto.
Qed.
Lemma plug_app k k' t : plug (k ++ k') t = plug k' (plug k t).
Proof. revert t. by induction k as [|[c a r|c l a] k IH]; intros t; cbn; [|rewrite IH..]. Qed.

Lemma rep_ext h h' p t : (forall x, x ∈ inorder t -> h' !! x = h !! x) -> rep h p t -> rep h' p t.
Proof.
  revert p. induction t as [|c l IHl a r IHr]; intros p Hx; cbn in *; [done|]. intros (Ha & Hl & Hr). split_and!.
  - rewrite Hx; [done|set_solver].
  - apply IHl; [set_solver|done].
  - apply IHr; [set_solver|done].
Qed.
Lemma rep_ctx_ext h h' hole k : (forall x, x ∈ before k ++ after k -> h' !! x = h !! x) -> rep_ctx h hole k -> rep_ctx h' hole k.
Proof.
  revert hole. induction k as [|[c a r|c l a] k IH]; intros hole Hx; cbn in *; [done| |]; intros (Ha & Hs & Hk); split_and!.
  1,4: rewrite Hx; [done|set_solver].
  1,3: eapply rep_ext; [|exact Hs]; set_solver.
  all: apply IH; [set_solver|done].
Qed.

(** A subtree gets another parent. *)
Lemma rep_reparent h p q t : even p -> NoDup (inorder t) -> rep h p t -> t <> E ->
  exists n, h !! root_of t = Some n /\ rep (<[root_of t := node_set_parent q n]> h) q t.
Proof.
  intros Hp Hnd Hr Ht. destruct t as [|c l a r]; [done|]. cbn in *. destruct Hr as (Ha & Hl & Hr). eexists. split; [done|].
  rewrite enc_set_parent by done. rewrite lookup_insert_eq. apply NoDup_app in Hnd as (H1 & H2 & H3). apply NoDup_cons in H3 as [H3 H4].
  split_and!; [done|eapply rep_ext; [|exact Hl]|eapply rep_ext; [|exact Hr]]; intros x Hx; rewrite lookup_insert_ne; try done; set_solver.
Qed.

(** ** The context of a subtree *)

Definition hangs (s : rb_state) (hole : Z) (k : list frame) : Prop := rep_ctx (rb_nodes s) hole k /\ rb_root s = top hole k.

Definition outside (L : list Z) (s s' : rb_state) : Prop := forall x, x ∉ L -> rb_nodes s' !! x = rb_nodes s !! x.

Lemma holds_plug s k t : holds s (plug k t) <->
  hangs s (root_of t) k /\ rep (rb_nodes s) (ptr k) t /\ NoDup (before k ++ inorder t ++ after k) /\ Forall addr (before k ++ inorder t ++ after k).
Proof.
  split.
  - intros [H1 H2 H3 H4]. rewrite root_plug in H1. apply rep_plug in H2 as [H2 H2']. rewrite inorder_plug in H3, H4. done.
  - intros ([H1 H2] & H3 & H4 & H5). split; [by rewrite root_plug|by apply rep_plug|by rewrite inorder_plug..].
Qed.

Lemma ptr_in k : k <> [] -> ptr k ∈ before k ++ after k.
Proof. destruct k as [|[c a r|c l a] k]; [done|cbn; set_solver..]. Qed.
Lemma ptrs_in k x : x ∈ ptrs k -> x ∈ before k ++ after k.
Proof. destruct k as [|f k]; [by intros ?%elem_of_nil|]. intros ->%list_elem_of_singleton. by apply (ptr_in (f :: k)). Qed.
Lemma ptr_even k t : Forall addr (before k ++ t ++ after k) -> even (ptr k).
Proof.
  intros H. destruct k as [|f k]; [done|]. rewrite Forall_forall in H. apply H. pose proof (ptr_in (f :: k) ltac:(done)). set_solver.
Qed.

Lemma upd_run a f s n : rb_nodes s !! a = Some n -> upd_node a f s = Some (tt, RbState (rb_root s) (<[a := f n]> (rb_nodes s))).
Proof. intros H. unfold upd_node. by rewrite H. Qed.
Lemma set_left_run a p s n : rb_nodes s !! a = Some n -> set_left a p s = Some (tt, RbState (rb_root s) (<[a := node_set_left p n]> (rb_nodes s))).
Proof. apply upd_run. Qed.
Lemma set_right_run a p s n : rb_nodes s !! a = Some n -> set_right a p s = Some (tt, RbState (rb_root s) (<[a := node_set_right p n]> (rb_nodes s))).
Proof. apply upd_run. Qed.
Lemma set_parent_run a p s n : rb_nodes s !! a = Some n -> set_parent a p s = Some (tt, RbState (rb_root s) (<[a := node_set_parent p n]> (rb_nodes s))).
Proof. apply upd_run. Qed.
Lemma set_color_run a c s n : rb_nodes s !! a = Some n -> set_color a c s = Some (tt, RbState (rb_root s) (<[a := node_set_color c n]> (rb_nodes s))).
Proof. apply upd_run. Qed.
Lemma rbind {A B} (c : R A) (f : A -> R B) s a s' : c s = Some (a, s') -> (c ≫= f) s = f a s'.
Proof. intros H. unfold mbind, R_bind. by rewrite H. Qed.
Lemma get_run a s n : rb_nodes s !! a = Some n -> get_node a s = Some (n, s).
Proof. intros H. unfold get_node. by rewrite H. Qed.
Lemma left_run a s n : rb_nodes s !! a = Some n -> left_of a s = Some (nd_left n, s).
Proof. intros H. unfold left_of. by rewrite (rbind _ _ _ _ _ (get_run _ _ _ H)). Qed.
Lemma right_run a s n : rb_nodes s !! a = Some n -> right_of a s = Some (nd_right n, s).
Proof. intros H. unfold right_of. by rewrite (rbind _ _ _ _ _ (get_run _ _ _ H)). Qed.
Lemma parent_run a s n : rb_nodes s !! a = Some n -> parent_of a s = Some (node_get_parent n, s).
Proof. intros H. unfold parent_of. by rewrite (rbind _ _ _ _ _ (get_run _ _ _ H)). Qed.
Lemma red_run a s n : rb_nodes s !! a = Some n -> is_red a s = Some (node_is_red n, s).
Proof. intros H. unfold is_red. by rewrite (rbind _ _ _ _ _ (get_run _ _ _ H)). Qed.

Lemma root_in t : t = E \/ root_of t ∈ inorder t.
Proof. destruct t; [by left|right; cbn; set_solver]. Qed.

Lemma hangs_ext s s' hole k : (forall x, x ∈ before k ++ after k -> rb_nodes s' !! x = rb_nodes s !! x) -> rb_root s' = rb_root s ->
  hangs s hole k -> hangs s' hole k.
Proof. intros Hx Hr [H1 H2]. split; [by eapply rep_ctx_ext|congruence]. Qed.

(** The pointer from the parent to a subtree is replaced. *)
Section Relink.
Context (s : rb_state) (k : list frame) (old new : Z).
Context (Hh : hangs s old k) (Hnd : NoDup (before k ++ after k)).

Lemma relink_top : exists s',
  (match k with
   | [] => RbState new (rb_nodes s)
   | FL c a r :: k' => RbState (rb_root s) (<[a := RbNode (enc (ptr k') c) new (root_of r)]> (rb_nodes s))
   | FR c l a :: k' => RbState (rb_root s) (<[a := RbNode (enc (ptr k') c) (root_of l) new]> (rb_nodes s))
   end) = s' /\ hangs s' new k /\ outside (ptrs k) s s'.
Proof.
  eexists. split; [reflexivity|]. destruct k as [|[c a r|c l a] k']; cbn in *; [done| |]; destruct Hh as [(Ha & Hs & Hk) Hr].
  - apply NoDup_app in Hnd as (N1 & N2 & N3). apply NoDup_cons in N3 as [N3 N4]. split; [split; [split_and!|done]|]; cbn.
    + apply lookup_insert_eq.
    + eapply rep_ext; [|exact Hs]. intros x Hx. rewrite lookup_insert_ne; [done|]. set_solver.
    + eapply rep_ctx_ext; [|exact Hk]. intros x Hx. rewrite lookup_insert_ne; [done|]. set_solver.
    + intros x Hx. cbn. rewrite lookup_insert_ne; [done|set_solver].
  - rewrite <- !app_assoc in Hnd. apply NoDup_app in Hnd as (N1 & N2 & N3). apply NoDup_app in N3 as (N3 & N4 & N5).
    apply NoDup_cons in N5 as [N5 N6]. split; [split; [split_and!|done]|]; cbn.
    + apply lookup_insert_eq.
    + eapply rep_ext; [|exact Hs]. intros x Hx. rewrite lookup_insert_ne; [done|]. set_solver.
    + eapply rep_ctx_ext; [|exact Hk]. intros x Hx. rewrite lookup_insert_ne; [done|]. set_solver.
    + intros x Hx. cbn. rewrite lookup_insert_ne; [done|set_solver].
Qed.

Context (Hold : old ∉ before k ++ after k) (H0 : old <> 0) (Hnz : 0 ∉ before k ++ after k).

Lemma relink_left : exists s',
  (if ptr k =? 0 then set_root new else pl ← left_of (ptr k); if old =? pl then set_left (ptr k) new else set_right (ptr k) new) s
    = Some (tt, s') /\ hangs s' new k /\ outside (ptrs k) s s'.
Proof.
  destruct relink_top as (s' & Es & H). exists s'. split; [|exact H]. rewrite <- Es. destruct k as [|[c a r|c l a] k']; cbn in *; [done| |];
    destruct Hh as [(Ha & Hs & Hk) Hr]; rewrite (proj2 (Z.eqb_neq a 0)) by set_solver; rewrite (rbind _ _ _ _ _ (left_run _ _ _ Ha)); cbn.
  - rewrite Z.eqb_refl. unfold set_left. by rewrite (upd_run _ _ _ _ Ha).
  - assert (old <> root_of l) by (destruct (root_in l) as [->|]; set_solver). rewrite (proj2 (Z.eqb_neq _ _)) by done.
    unfold set_right. by rewrite (upd_run _ _ _ _ Ha).
Qed.

Lemma relink_right : exists s',
  (if ptr k =? 0 then set_root new else pr ← right_of (ptr k); if old =? pr then set_right (ptr k) new else set_left (ptr k) new) s
    = Some (tt, s') /\ hangs s' new k /\ outside (ptrs k) s s'.
Proof.
  destruct relink_top as (s' & Es & H). exists s'. split; [|exact H]. rewrite <- Es. destruct k as [|[c a r|c l a] k']; cbn in *; [done| |];
    destruct Hh as [(Ha & Hs & Hk) Hr]; rewrite (proj2 (Z.eqb_neq a 0)) by set_solver; rewrite (rbind _ _ _ _ _ (right_run _ _ _ Ha)); cbn.
  - assert (old <> root_of r) by (destruct (root_in r) as [->|]; set_solver). rewrite (proj2 (Z.eqb_neq _ _)) by done.
    unfold set_left. by rewrite (upd_run _ _ _ _ Ha).
  - rewrite Z.eqb_refl. unfold set_right. by rewrite (upd_run _ _ _ _ Ha).
Qed.
End Relink.

(** The nodes of a tree after one of them has been written *)
Lemma node_at s k c l a r : holds s (plug k (T c l a r)) -> rb_nodes s !! a = Some (RbNode (enc (ptr k) c) (root_of l) (root_of r)).
Proof. intros H. apply holds_plug in H as (_ & H & _). apply H. Qed.

Lemma color_ok s k c c' l a r : holds s (plug k (T c l a r)) ->
  exists s', set_color a c' s = Some (tt, s') /\ holds s' (plug k (T c' l a r)) /\ outside (inorder (plug k (T c l a r))) s s'.
Proof.
  intros H. pose proof (node_at _ _ _ _ _ _ H) as Ha. apply holds_plug in H as (Hh & Hr & Hnd & Had). cbn in *.
  destruct Hr as (_ & Hl & Hr). eexists. split; [apply (upd_run _ _ _ _ Ha)|].
  rewrite enc_set_color by (by eapply (ptr_even k)). split.
  - apply holds_plug. cbn. split_and!; try done; cbn; [|apply lookup_insert_eq|..].
    + apply (hangs_ext s); [|done|exact Hh]. intros x Hx. cbn. rewrite lookup_insert_ne; [done|]. apply NoDup_app in Hnd as (N1 & N2 & N3).
      apply NoDup_app in N3 as (N3 & N4 & N5). set_solver.
    + eapply rep_ext; [|exact Hl]. intros x Hx. cbn. rewrite lookup_insert_ne; [done|]. apply NoDup_app in Hnd as (N1 & N2 & N3).
      apply NoDup_app in N3 as (N3 & N4 & N5). apply NoDup_app in N3 as (N6 & N7 & N8). set_solver.
    + eapply rep_ext; [|exact Hr]. intros x Hx. cbn. rewrite lookup_insert_ne; [done|]. apply NoDup_app in Hnd as (N1 & N2 & N3).
      apply NoDup_app in N3 as (N3 & N4 & N5). apply NoDup_app in N3 as (N6 & N7 & N8). apply NoDup_cons in N8 as [N8 N9]. set_solver.
  - intros x Hx. rewrite inorder_plug in Hx. cbn in *. rewrite lookup_insert_ne; [done|set_solver].
Qed.

(** ** Rotations *)

(** Facts on the addresses of a part of a tree, from [NoDup] of the whole *)
Ltac split_nodup :=
  repeat match goal with
  | H : NoDup (_ ++ _) |- _ => apply NoDup_app in H as (? & ? & H)
  | H : NoDup (_ :: _) |- _ => apply NoDup_cons in H as [? H]
  end.

Lemma apart k M x : NoDup (before k ++ M ++ after k) -> Forall addr (before k ++ M ++ after k) -> x ∈ M ->
  x ∉ ptrs k /\ x ∉ before k ++ after k /\ x <> 0.
Proof.
  intros Hnd Had Hx. assert (Hout : x ∉ before k ++ after k) by (split_nodup; set_solver).
  rewrite Forall_forall in Had. destruct (Had x ltac:(set_solver)) as [H0 _]. split; [|done]. intros Hp. by apply Hout, ptrs_in.
Qed.

Lemma ctx_apart k M : NoDup (before k ++ M ++ after k) -> Forall addr (before k ++ M ++ after k) ->
  NoDup (before k ++ after k) /\ 0 ∉ before k ++ after k /\ (forall x, x ∈ before k ++ after k -> x ∉ M).
Proof.
  intros Hnd Had. split_and!.
  - apply NoDup_app in Hnd as (N1 & N2 & N3). apply NoDup_app in N3 as (N3 & N4 & N5). apply NoDup_app. split_and!; [done| |done]. set_solver.
  - intros H0. rewrite Forall_forall in Had. destruct (Had 0); [set_solver|done].
  - split_nodup. set_solver.
Qed.

(** A subtree that may be empty gets another parent. *)
Lemma adopt_ok s p q t : even p -> rep (rb_nodes s) p t -> NoDup (inorder t) -> Forall addr (inorder t) ->
  exists s', (if root_of t =? 0 then mret tt else set_parent (root_of t) q) s = Some (tt, s')
    /\ rep (rb_nodes s') q t /\ rb_root s' = rb_root s /\ outside (inorder t) s s'.
Proof.
  intros Hp Hr Hnd Had. destruct t as [|c l a r].
  - by exists s.
  - destruct (rep_reparent _ _ q _ Hp Hnd Hr ltac:(done)) as (n & Hn & Hr'). cbn [root_of] in *.
    assert (a <> 0) by (rewrite Forall_forall in Had; apply Had; cbn; set_solver). rewrite (proj2 (Z.eqb_neq a 0)) by done.
    eexists. split; [apply (upd_run _ _ _ _ Hn)|]. split_and!; try done. intros x Hx. cbn. rewrite lookup_insert_ne; [done|set_solver].
Qed.

(** What the addresses of the parts of two nodes have to do with each other *)
Lemma parts_apart k l a rl b rr : let M := inorder l ++ a :: inorder rl ++ b :: inorder rr in
  NoDup (before k ++ M ++ after k) -> Forall addr (before k ++ M ++ after k) ->
  (forall x, x ∈ inorder l -> x <> a /\ x <> b /\ x ∉ inorder rl /\ x ∉ ptrs k)
  /\ (forall x, x ∈ inorder rl -> x <> a /\ x <> b /\ x ∉ ptrs k)
  /\ (forall x, x ∈ inorder rr -> x <> a /\ x <> b /\ x ∉ inorder rl /\ x ∉ ptrs k)
  /\ (forall x, x ∈ before k ++ after k -> x <> a /\ x <> b /\ x ∉ inorder rl)
  /\ (a <> b /\ a ∉ inorder rl /\ b ∉ inorder rl /\ a ∉ ptrs k /\ b ∉ ptrs k)
  /\ NoDup (inorder l) /\ NoDup (inorder rl) /\ NoDup (inorder rr).
Proof.
  intros M Hnd Had. assert (HM : forall x, x ∈ M -> x ∉ ptrs k) by (intros x Hx; eapply apart; done).
  destruct (ctx_apart k M Hnd Had) as (_ & _ & Hc). assert (N : NoDup M) by (by apply NoDup_app in Hnd as (_ & _ & [Hnd _]%NoDup_app)).
  subst M. clear Hnd. apply NoDup_app in N as (N1 & N2 & N3). apply NoDup_cons in N3 as [N3 N4]. apply NoDup_app in N4 as (N4 & N5 & N6).
  apply NoDup_cons in N6 as [N6 N7]. rewrite elem_of_app, elem_of_cons in N3.
  split_and!; try done.
  - intros x Hx. specialize (N2 x Hx). specialize (HM x ltac:(set_solver)). set_solver.
  - intros x Hx. specialize (N5 x Hx). specialize (HM x ltac:(set_solver)). set_solver.
  - intros x Hx. specialize (HM x ltac:(set_solver)). set_solver.
  - intros x Hx. specialize (Hc x Hx). set_solver.
  - set_solver.
  - naive_solver.
  - intros Hb. destruct (N5 b Hb). by left.
  - apply HM. set_solver.
  - apply HM. set_solver.
Qed.

(** The writes of a rotation: [a] gets the middle subtree [m] of the node [b] below it, [b] takes
    the place of [a], and [a] gets [b] for a parent. *)
Definition turn (fa fb : rb_node -> rb_node) (relink : Z -> R unit) (a b m : Z) : R unit :=
  _ ← upd_node a fa;
  _ ← (if m =? 0 then mret tt else set_parent m a);
  p ← parent_of a;
  _ ← set_parent b p;
  _ ← relink p;
  _ ← upd_node b fb;
  set_parent a b.

Lemma turn_ok s k a b m na nb fa fb relink :
  rb_nodes s !! a = Some na -> rb_nodes s !! b = Some nb -> rep (rb_nodes s) b m -> hangs s a k -> node_get_parent (fa na) = ptr k ->
  even b -> NoDup (inorder m) -> Forall addr (inorder m) -> (forall x, x ∈ inorder m -> x <> a /\ x <> b /\ x ∉ ptrs k) ->
  (forall x, x ∈ before k ++ after k -> x <> a /\ x <> b /\ x ∉ inorder m) -> a <> b -> a ∉ ptrs k -> b ∉ ptrs k ->
  (forall s, hangs s a k -> exists s', relink (ptr k) s = Some (tt, s') /\ hangs s' b k /\ outside (ptrs k) s s') ->
  exists s', turn fa fb relink a b (root_of m) s = Some (tt, s') /\ hangs s' b k
    /\ rb_nodes s' !! a = Some (node_set_parent b (fa na)) /\ rb_nodes s' !! b = Some (fb (node_set_parent (ptr k) nb))
    /\ rep (rb_nodes s') a m /\ outside (a :: b :: inorder m ++ ptrs k) s s'.
Proof.
  intros Ha Hb Hm Hh Hpa Hbe Nm Am Dm Dk Dab Dpa Dpb Hrel. unfold turn. rewrite (rbind _ _ _ _ _ (upd_run _ _ _ _ Ha)).
  assert (Dma : a ∉ inorder m) by (intros Hx; by destruct (Dm a Hx)). assert (Dmb : b ∉ inorder m) by (intros Hx; by destruct (Dm b Hx) as (_ & ? & _)).
  set (s1 := RbState _ _). assert (O1 : forall x, x <> a -> rb_nodes s1 !! x = rb_nodes s !! x) by (intros x Hx; by apply lookup_insert_ne).
  destruct (adopt_ok s1 b a m Hbe) as (s2 & E2 & Hm2 & R2 & O2); [eapply rep_ext; [|exact Hm]; intros x Hx; apply O1, Dm, Hx|done|done|].
  rewrite (rbind _ _ _ _ _ E2). assert (Ha2 : rb_nodes s2 !! a = Some (fa na)) by (rewrite O2 by done; apply lookup_insert_eq).
  rewrite (rbind _ _ _ _ _ (parent_run _ _ _ Ha2)), Hpa. assert (Hb2 : rb_nodes s2 !! b = Some nb) by (by rewrite O2, O1).
  rewrite (rbind _ _ _ _ _ (set_parent_run _ _ _ _ Hb2)).
  set (s3 := RbState _ _). assert (O3 : forall x, x <> b -> rb_nodes s3 !! x = rb_nodes s2 !! x) by (intros x Hx; by apply lookup_insert_ne).
  destruct (Hrel s3) as (s4 & E4 & Hh4 & O4).
  { apply (hangs_ext s); [|exact R2|exact Hh]. intros x Hx. destruct (Dk x Hx) as (? & ? & ?). by rewrite O3, O2, O1. }
  rewrite (rbind _ _ _ _ _ E4). assert (Hb4 : rb_nodes s4 !! b = Some (node_set_parent (ptr k) nb)) by (rewrite O4 by done; apply lookup_insert_eq).
  rewrite (rbind _ _ _ _ _ (upd_run _ _ _ _ Hb4)).
  set (s5 := RbState _ _). assert (O5 : forall x, x <> b -> rb_nodes s5 !! x = rb_nodes s4 !! x) by (intros x Hx; by apply lookup_insert_ne).
  assert (Ha5 : rb_nodes s5 !! a = Some (fa na)) by (by rewrite O5, O4, O3).
  eexists. split; [apply (set_parent_run _ _ _ _ Ha5)|]. set (s6 := RbState _ _).
  assert (O6 : forall x, x <> a -> rb_nodes s6 !! x = rb_nodes s5 !! x) by (intros x Hx; by apply lookup_insert_ne). split_and!.
  - apply (hangs_ext s4); [|done|done]. intros x Hx. destruct (Dk x Hx) as (? & ? & ?). by rewrite O6, O5.
  - apply lookup_insert_eq.
  - rewrite O6 by done. apply lookup_insert_eq.
  - eapply rep_ext; [|exact Hm2]. intros x Hx. destruct (Dm x Hx) as (? & ? & ?). by rewrite O6, O5, O4, O3.
  - intros x Hx. rewrite !elem_of_cons, elem_of_app in Hx. rewrite O6, O5, O4, O3, O2, O1; tauto.
Qed.

Lemma rotate_left_ok s k c c' l a rl b rr : holds s (plug k (T c l a (T c' rl b rr))) ->
  exists s', rotate_left a s = Some (tt, s') /\ holds s' (plug k (T c' (T c l a rl) b rr))
    /\ outside (inorder (plug k (T c l a (T c' rl b rr)))) s s'.
Proof.
  intros H. apply holds_plug in H as (Hh & Hr & Hnd & Had). cbn in Hr, Hnd, Had, Hh. destruct Hr as (Ha & Hl & Hb & Hrl & Hrr).
  pose proof (ptr_even _ _ Had) as Hk. destruct (parts_apart k l a rl b rr Hnd Had) as (Dl & Drl & Drr & Dk & (Dab & Da & Db & Dpa & Dpb) & _ & Nrl & _).
  destruct (ctx_apart _ _ Hnd Had) as (Nk & Nz & _). assert (Hab : addr a /\ addr b /\ Forall addr (inorder rl)).
  { rewrite !Forall_app, Forall_cons, Forall_app, Forall_cons in Had. tauto. }
  destruct Hab as ([Ha0 Hae] & [Hb0 Hbe] & Hrla). unfold rotate_left.
  rewrite (rbind _ _ _ _ _ (right_run _ _ _ Ha)). cbn [nd_right root_of]. rewrite (rbind _ _ _ _ _ (left_run _ _ _ Hb)). cbn [nd_left].
  destruct (turn_ok s k a b rl _ _ (node_set_right (root_of rl)) (node_set_left a)
    (fun p => if p =? 0 then set_root b else pl ← left_of p; if a =? pl then set_left p b else set_right p b) Ha Hb Hrl Hh)
    as (s' & Es & Hh' & Ha' & Hb' & Hrl' & O); try done; [by apply enc_parent| |].
  { intros s0 Hs0. apply relink_left; try done. intros Hx. by destruct (Dk a Hx). }
  unfold node_set_left, node_set_right in Ha', Hb'. cbn [nd_parent nd_left] in Ha'. rewrite enc_set_parent in Ha', Hb' by done. cbn in Hb'.
  exists s'. split; [exact Es|]. split.
  - apply holds_plug. assert (Ei : inorder (T c' (T c l a rl) b rr) = inorder l ++ a :: inorder rl ++ b :: inorder rr) by (cbn; by rewrite <- app_assoc).
    rewrite Ei. split_and!; try done. cbn [rep root_of]. split_and!; try done.
    + eapply rep_ext; [|exact Hl]. intros x Hx. apply O. destruct (Dl x Hx) as (? & ? & ? & ?). rewrite !elem_of_cons, elem_of_app. tauto.
    + eapply rep_ext; [|exact Hrr]. intros x Hx. apply O. destruct (Drr x Hx) as (? & ? & ? & ?). rewrite !elem_of_cons, elem_of_app. tauto.
  - intros x Hx. rewrite inorder_plug in Hx. cbn in Hx. pose proof (ptrs_in k x). apply O. set_solver.
Qed.

Lemma rotate_right_ok s k c c' ll b lr a r : holds s (plug k (T c (T c' ll b lr) a r)) ->
  exists s', rotate_right a s = Some (tt, s') /\ holds s' (plug k (T c' ll b (T c lr a r)))
    /\ outside (inorder (plug k (T c (T c' ll b lr) a r))) s s'.
Proof.
  intros H. apply holds_plug in H as (Hh & Hr & Hnd & Had). cbn in Hr, Hnd, Had, Hh. destruct Hr as (Ha & (Hb & Hll & Hlr) & Hr).
  rewrite <- (app_assoc (inorder ll)) in Hnd, Had. cbn [app] in Hnd, Had.
  pose proof (ptr_even _ _ Had) as Hk. destruct (parts_apart k ll b lr a r Hnd Had) as (Dl & Drl & Drr & Dk & (Dab & Da & Db & Dpa & Dpb) & _ & Nrl & _).
  destruct (ctx_apart _ _ Hnd Had) as (Nk & Nz & _). assert (Hab : addr a /\ addr b /\ Forall addr (inorder lr)).
  { rewrite !Forall_app, Forall_cons, Forall_app, Forall_cons in Had. tauto. }
  destruct Hab as ([Ha0 Hae] & [Hb0 Hbe] & Hrla). unfold rotate_right.
  rewrite (rbind _ _ _ _ _ (left_run _ _ _ Ha)). cbn [nd_left root_of]. rewrite (rbind _ _ _ _ _ (right_run _ _ _ Hb)). cbn [nd_right].
  destruct (turn_ok s k a b lr _ _ (node_set_left (root_of lr)) (node_set_right a)
    (fun p => if p =? 0 then set_root b else pr ← right_of p; if a =? pr then set_right p b else set_left p b) Ha Hb Hlr Hh)
    as (s' & Es & Hh' & Ha' & Hb' & Hlr' & O); try done; [by apply enc_parent|naive_solver|naive_solver| |].
  { intros s0 Hs0. apply relink_right; try done. intros Hx. by destruct (Dk a Hx) as (_ & ? & _). }
  unfold node_set_left, node_set_right in Ha', Hb'. cbn [nd_parent nd_right] in Ha'. rewrite enc_set_parent in Ha', Hb' by done. cbn in Hb'.
  exists s'. split; [exact Es|]. split.
  - apply holds_plug. change (inorder (T c' ll b (T c lr a r))) with (inorder ll ++ b :: inorder lr ++ a :: inorder r).
    split_and!; try done. cbn [rep root_of]. split_and!; try done.
    + eapply rep_ext; [|exact Hll]. intros x Hx. apply O. destruct (Dl x Hx) as (? & ? & ? & ?). rewrite !elem_of_cons, elem_of_app. tauto.
    + eapply rep_ext; [|exact Hr]. intros x Hx. apply O. destruct (Drr x Hx) as (? & ? & ? & ?). rewrite !elem_of_cons, elem_of_app. tauto.
  - intros x Hx. rewrite inorder_plug in Hx. cbn in Hx. pose proof (ptrs_in k x). apply O. set_solver.
Qed.

(** ** Triples *)

Definition tri {A} (t : tree) (c : R A) (Q : A -> tree -> Prop) : Prop :=
  forall s, holds s t -> exists a s' t', c s = Some (a, s') /\ holds s' t' /\ inorder t' = inorder t /\ outside (inorder t) s s' /\ Q a t'.

Lemma tri_ret {A} t (a : A) (Q : A -> tree -> Prop) : Q a t -> tri t (mret a) Q.
Proof. intros H s Hs. exists a, s, t. split_and!; try done. Qed.

Lemma tri_bind {A B} t (c : R A) (f : A -> R B) P Q :
  tri t c P -> (forall a t', P a t' -> tri t' (f a) Q) -> tri t (c ≫= f) Q.
Proof.
  intros Hc Hf s Hs. destruct (Hc s Hs) as (a & s1 & t1 & E1 & H1 & I1 & O1 & HP). destruct (Hf a t1 HP s1 H1) as (b & s2 & t2 & E2 & H2 & I2 & O2 & HQ).
  exists b, s2, t2. split; [by rewrite (rbind _ _ _ _ _ E1)|]. split_and!; try done; [congruence|]. intros x Hx. rewrite O2, O1; [done|done|congruence].
Qed.

Lemma tri_same {A B} t (c : R A) (f : A -> R B) a Q : (forall s, holds s t -> c s = Some (a, s)) -> tri t (f a) Q -> tri t (c ≫= f) Q.
Proof. intros Hc Hf s Hs. rewrite (rbind _ _ _ _ _ (Hc s Hs)). by apply Hf. Qed.

Lemma tri_distinct {A} t (c : R A) Q : (NoDup (inorder t) -> Forall addr (inorder t) -> tri t c Q) -> tri t c Q.
Proof. intros H s Hs. apply H; [apply Hs|apply Hs|done]. Qed.

Lemma tri_mono {A} t (c : R A) (P Q : A -> tree -> Prop) : tri t c P -> (forall a t', P a t' -> Q a t') -> tri t c Q.
Proof. intros Hc HPQ s Hs. destruct (Hc s Hs) as (a & s' & t' & H1 & H2 & H3 & H4 & H5). exists a, s', t'. split_and!; auto. Qed.

Section Focus.
Context {B : Type} (k : list frame) (c : bool) (l : tree) (a : Z) (r : tree) (Q : B -> tree -> Prop).
Let t := plug k (T c l a r).

Lemma tri_left f : tri t (f (root_of l)) Q -> tri t (left_of a ≫= f) Q.
Proof. apply tri_same. intros s Hs. apply node_at in Hs. by apply left_run in Hs. Qed.
Lemma tri_right f : tri t (f (root_of r)) Q -> tri t (right_of a ≫= f) Q.
Proof. apply tri_same. intros s Hs. apply node_at in Hs. by apply right_run in Hs. Qed.
Lemma tri_left_end (P : Z -> tree -> Prop) : P (root_of l) t -> tri t (left_of a) P.
Proof. intros HP s Hs. exists (root_of l), s, t. split_and!; try done. apply node_at in Hs. by apply left_run in Hs. Qed.
Lemma tri_right_end (P : Z -> tree -> Prop) : P (root_of r) t -> tri t (right_of a) P.
Proof. intros HP s Hs. exists (root_of r), s, t. split_and!; try done. apply node_at in Hs. by apply right_run in Hs. Qed.
Lemma focus_even s : holds s t -> even (ptr k).
Proof. intros Hs. apply holds_plug in Hs as (_ & _ & _ & Had). by eapply ptr_even. Qed.
Lemma tri_parent f : tri t (f (ptr k)) Q -> tri t (parent_of a ≫= f) Q.
Proof. apply tri_same. intros s Hs. pose proof (focus_even s Hs). apply node_at, parent_run in Hs. by rewrite enc_parent in Hs. Qed.
Lemma tri_is_red f : tri t (f c) Q -> tri t (is_red a ≫= f) Q.
Proof. apply tri_same. intros s Hs. pose proof (focus_even s Hs). apply node_at, red_run in Hs. by rewrite enc_red in Hs. Qed.
Lemma tri_color c' f : tri (plug k (T c' l a r)) (f tt) Q -> tri t (set_color a c' ≫= f) Q.
Proof.
  intros Hf. eapply (tri_bind _ _ _ (fun _ t' => t' = plug k (T c' l a r))); [|intros [] t' ->; exact Hf].
  intros s Hs. destruct (color_ok s k c c' l a r Hs) as (s' & E' & Hs' & O). eexists tt, s', _. split_and!; try done. unfold t. by rewrite !inorder_plug.
Qed.
End Focus.

Lemma tri_points {B} k u (f : bool -> R B) Q : tri (plug k u) (f (red_root u)) Q -> tri (plug k u) (points_to_red (root_of u) ≫= f) Q.
Proof.
  apply tri_same. intros s Hs. destruct u as [|c l a r]; [done|]. unfold points_to_red. cbn [root_of red_root].
  assert (a <> 0). { apply holds_plug in Hs as (_ & _ & _ & Had). rewrite Forall_forall in Had. apply (Had a). cbn. set_solver. }
  rewrite (proj2 (Z.eqb_neq a 0)) by done. pose proof (focus_even _ _ _ _ _ s Hs). apply node_at, red_run in Hs. by rewrite enc_red in Hs.
Qed.

Lemma tri_rotate_left {B} k c c' l a rl b rr (f : unit -> R B) Q :
  tri (plug k (T c' (T c l a rl) b rr)) (f tt) Q -> tri (plug k (T c l a (T c' rl b rr))) (rotate_left a ≫= f) Q.
Proof.
  intros Hf. eapply (tri_bind _ _ _ (fun _ t' => t' = plug k (T c' (T c l a rl) b rr))); [|intros [] t' ->; exact Hf].
  intros s Hs. destruct (rotate_left_ok s k c c' l a rl b rr Hs) as (s' & E' & Hs' & O). eexists tt, s', _. split_and!; try done.
  rewrite !inorder_plug. cbn. rewrite <- !app_assoc. cbn. by rewrite <- ?app_assoc.
Qed.
Lemma tri_rotate_right {B} k c c' ll b lr a r (f : unit -> R B) Q :
  tri (plug k (T c' ll b (T c lr a r))) (f tt) Q -> tri (plug k (T c (T c' ll b lr) a r)) (rotate_right a ≫= f) Q.
Proof.
  intros Hf. eapply (tri_bind _ _ _ (fun _ t' => t' = plug k (T c' ll b (T c lr a r)))); [|intros [] t' ->; exact Hf].
  intros s Hs. destruct (rotate_right_ok s k c c' ll b lr a r Hs) as (s' & E' & Hs' & O). eexists tt, s', _. split_and!; try done.
  rewrite !inorder_plug. cbn. rewrite <- !app_assoc. cbn. by rewrite <- ?app_assoc.
Qed.
Lemma tri_root {B} t (f : Z -> R B) Q : tri t (f (root_of t)) Q -> tri t (get_root ≫= f) Q.
Proof. apply tri_same. intros s Hs. unfold get_root. by rewrite (h_root _ _ Hs). Qed.

(** ** The colours *)

Inductive rb : tree -> nat -> Prop :=
| rb_E : rb E 0
| rb_red l a r n : red_root l = false -> red_root r = false -> rb l n -> rb r n -> rb (T true l a r) n
| rb_black l a r n : rb l n -> rb r n -> rb (T false l a r) (S n).

Definition is_rb (t : tree) : Prop := red_root t = false /\ exists n, rb t n.

(** The context of a subtree with black height [n]: it may have a red root if the node above
    is black. *)
Definition frame_tree (f : frame) : tree := match f with FL _ _ r => r | FR _ l _ => l end.
Definition black_top (k : list frame) : Prop := match k with [] => False | f :: _ => frame_red f = false end.
Fixpoint ctx_ok (n : nat) (k : list frame) : Prop :=
  match k with
  | [] => True
  | f :: k => rb (frame_tree f) n
      /\ if frame_red f then red_root (frame_tree f) = false /\ black_top k /\ ctx_ok n k else ctx_ok (S n) k
  end.

Lemma plug_rb k t n : rb t n -> ctx_ok n k -> (red_root t = true -> black_top k) -> is_rb (plug k t).
Proof.
  revert t n. induction k as [|f k IH]; intros t n Ht Hk Hr; cbn in *.
  - split; [destruct (red_root t); [by destruct Hr|done]|by exists n].
  - destruct Hk as [Hs Hk]. assert (Hb : frame_red f = true -> red_root t = false).
    { intros Hf. destruct (red_root t); [|done]. by rewrite (Hr eq_refl) in Hf. }
    destruct f as [[] a r|[] l a]; cbn in *; [apply (IH _ n)|apply (IH _ (S n))|apply (IH _ n)|apply (IH _ (S n))]; cbn; try done;
      try (constructor; auto); try tauto.
Qed.

Lemma unplug_rb k t n : rb (plug k t) n -> red_root (plug k t) = false -> exists m, rb t m /\ ctx_ok m k /\ (red_root t = true -> black_top k).
Proof.
  revert t. induction k as [|f k IH]; intros t Ht Hr; cbn in *.
  - exists n. split_and!; try done. by rewrite Hr.
  - destruct f as [c a r|c l a]; cbn in *; destruct (IH _ Ht Hr) as (m & Hm & Hk & Hb); cbn in Hb;
      inversion Hm; subst; cbn; eexists; (split; [eassumption|]); split_and!; try done; auto; congruence.
Qed.

Lemma rb_children c l a r n : rb (T c l a r) n -> exists m, rb l m /\ rb r m.
Proof. inversion 1; subst; eauto. Qed.

Definition blacken (t : tree) : tree := match t with E => E | T _ l a r => T false l a r end.

Lemma blacken_id t : red_root t = false -> blacken t = t.
Proof. destruct t as [|[]]; done. Qed.

Lemma tri_blacken t : t <> E -> tri t (root ← get_root; set_color root false) (fun _ t' => t' = blacken t).
Proof.
  intros Ht. destruct t as [|c l a r]; [done|]. apply tri_root. cbn [root_of].
  intros s Hs. destruct (color_ok s [] c false l a r Hs) as (s' & E' & Hs' & O). eexists tt, s', _. split_and!; try done.
Qed.

Lemma plug_not_E k t : t <> E -> plug k t <> E.
Proof. revert t. induction k as [|[] k IH]; intros t Ht; cbn; [done|by apply IH..]. Qed.

(** ** The loop of insertion *)

(** A red node whose parent may be red as well, with everything else in order *)
Definition red_at (k : list frame) (a : Z) (t : tree) : Prop :=
  exists l r n, t = plug k (T true l a r) /\ rb (T true l a r) n /\ ctx_ok n k.

Lemma red_at_intro k l a r n : rb (T true l a r) n -> ctx_ok n k -> red_at k a (plug k (T true l a r)).
Proof. intros H1 H2. by exists l, r, n. Qed.

Ltac inv_rb := repeat match goal with H : rb (T _ _ _ _) _ |- _ => inversion H; clear H; subst end.

Lemma sibling_root_ne c g k l a r u x : NoDup (inorder (plug k (T c (T x l a r) g u))) -> Forall addr (inorder (plug k (T c (T x l a r) g u))) ->
  a <> root_of u.
Proof.
  rewrite inorder_plug. cbn. intros Hnd Had. destruct (root_in u) as [->|Hu]; cbn.
  - rewrite Forall_forall in Had. apply (Had a). set_solver.
  - intros ->. apply NoDup_app in Hnd as (_ & _ & [Hnd _]%NoDup_app). apply NoDup_app in Hnd as (_ & Hnd & _).
    destruct (Hnd (root_of u)); set_solver.
Qed.
Lemma sibling_root_ne' c g k l a r u x : NoDup (inorder (plug k (T c u g (T x l a r)))) -> Forall addr (inorder (plug k (T c u g (T x l a r)))) ->
  a <> root_of u.
Proof.
  rewrite inorder_plug. cbn. intros Hnd Had. destruct (root_in u) as [->|Hu]; cbn.
  - rewrite Forall_forall in Had. apply (Had a). set_solver.
  - intros ->. apply NoDup_app in Hnd as (_ & _ & [Hnd _]%NoDup_app). apply NoDup_app in Hnd as (_ & Hnd & _).
    destruct (Hnd (root_of u)); set_solver.
Qed.

Section InsertRound.
Context (k : list frame) (xl xr s u : tree) (a p g : Z) (n : nat).
Context (Hx : rb (T true xl a xr) n) (Hs : rb s n) (Hsb : red_root s = false) (Hu : rb u n) (Hk : ctx_ok (S n) k).
Let X := T true xl a xr.

Definition next_round (next : Z) (t' : tree) : Prop := exists k', red_at k' next t' /\ (length k' < S (S (length k)))%nat.

Lemma insert_round_LL : tri (plug (FL true p s :: FL false g u :: k) X) (fix_insert_round a p) next_round.
Proof.
  unfold fix_insert_round. apply (tri_parent (FL false g u :: k) true X p s). cbn [ptr frame_addr].
  apply (tri_left k false (T true X p s) g u). cbn [root_of]. rewrite Z.eqb_refl.
  apply (tri_right k false (T true X p s) g u). apply (tri_points (FR false (T true X p s) g :: k) u).
  destruct (red_root u) eqn:Hur.
  - destruct u as [|[] ul ua ur]; try done. cbn [root_of].
    apply (tri_color (FL false g (T true ul ua ur) :: k) true X p s _ false).
    apply (tri_color (FR false (T false X p s) g :: k) true ul ua ur _ false).
    apply (tri_color k false (T false X p s) g (T false ul ua ur) _ true).
    apply tri_ret. exists k. split; [|lia]. inversion Hu; subst. apply (red_at_intro k _ g _ (S n)); [|done]. apply rb_red; [done..|by apply rb_black|by apply rb_black].
  - apply (tri_right (FL false g u :: k) true X p s). apply tri_distinct. intros Hnd Had.
    rewrite (proj2 (Z.eqb_neq _ _)) by (by apply (sibling_root_ne true p (FL false g u :: k) xl a xr s true)).
    apply (tri_same _ _ _ (a, p, g)); [done|].
    apply (tri_color (FL false g u :: k) true X p s _ false). apply (tri_color k false (T false X p s) g u _ true).
    apply (tri_rotate_right k true false X p s g u). apply tri_ret.
    exists (FL false p (T true s g u) :: k). split; [|cbn; lia].
    apply (red_at_intro (FL false p (T true s g u) :: k) xl a xr n); [done|]. cbn. split; [by constructor|done].
Qed.

Lemma insert_round_LR : tri (plug (FR true s p :: FL false g u :: k) X) (fix_insert_round a p) next_round.
Proof.
  unfold fix_insert_round. apply (tri_parent (FL false g u :: k) true s p X). cbn [ptr frame_addr].
  apply (tri_left k false (T true s p X) g u). cbn [root_of]. rewrite Z.eqb_refl.
  apply (tri_right k false (T true s p X) g u). apply (tri_points (FR false (T true s p X) g :: k) u).
  destruct (red_root u) eqn:Hur.
  - destruct u as [|[] ul ua ur]; try done. cbn [root_of].
    apply (tri_color (FL false g (T true ul ua ur) :: k) true s p X _ false).
    apply (tri_color (FR false (T false s p X) g :: k) true ul ua ur _ false).
    apply (tri_color k false (T false s p X) g (T false ul ua ur) _ true).
    apply tri_ret. exists k. split; [|lia]. inversion Hu; subst. apply (red_at_intro k _ g _ (S n)); [|done]. apply rb_red; [done..|by apply rb_black|by apply rb_black].
  - apply (tri_right (FL false g u :: k) true s p X). cbn [root_of X]. rewrite Z.eqb_refl. inversion Hx; subst.
    eapply (tri_bind _ _ _ (fun v t' => v = (p, a, g) /\ t' = plug k (T false (T true (T true s p xl) a xr) g u))).
    { apply (tri_rotate_left (FL false g u :: k) true true s p xl a xr).
      apply (tri_parent (FL true a xr :: FL false g u :: k) true s p xl). apply (tri_parent (FL false g u :: k) true (T true s p xl) a xr).
      by apply tri_ret. }
    intros v t' [-> ->]. apply (tri_color (FL false g u :: k) true (T true s p xl) a xr _ false).
    apply (tri_color k false (T false (T true s p xl) a xr) g u _ true).
    apply (tri_rotate_right k true false (T true s p xl) a xr g u). apply tri_ret.
    exists (FL false a (T true xr g u) :: k). split; [|cbn; lia].
    apply (red_at_intro (FL false a (T true xr g u) :: k) s p xl n); [by constructor|]. cbn. split; [by constructor|done].
Qed.

Lemma insert_round_RR : tri (plug (FR true s p :: FR false u g :: k) X) (fix_insert_round a p) next_round.
Proof.
  unfold fix_insert_round. apply (tri_parent (FR false u g :: k) true s p X). cbn [ptr frame_addr].
  apply (tri_left k false u g (T true s p X)). apply tri_distinct. intros Hnd0 Had0.
  rewrite (proj2 (Z.eqb_neq _ _)) by (by apply (sibling_root_ne' false g k s p X u true)).
  apply (tri_left k false u g (T true s p X)). apply (tri_points (FL false g (T true s p X) :: k) u).
  destruct (red_root u) eqn:Hur.
  - destruct u as [|[] ul ua ur]; try done. cbn [root_of].
    apply (tri_color (FR false (T true ul ua ur) g :: k) true s p X _ false).
    apply (tri_color (FL false g (T false s p X) :: k) true ul ua ur _ false).
    apply (tri_color k false (T false ul ua ur) g (T false s p X) _ true).
    apply tri_ret. exists k. split; [|lia]. inversion Hu; subst. apply (red_at_intro k _ g _ (S n)); [|done]. apply rb_red; [done..|by apply rb_black|by apply rb_black].
  - apply (tri_left (FR false u g :: k) true s p X). apply tri_distinct. intros Hnd Had.
    rewrite (proj2 (Z.eqb_neq _ _)) by (by apply (sibling_root_ne' true p (FR false u g :: k) xl a xr s true)).
    apply (tri_same _ _ _ (a, p, g)); [done|].
    apply (tri_color (FR false u g :: k) true s p X _ false). apply (tri_color k false u g (T false s p X) _ true).
    apply (tri_rotate_left k true false u g s p X). apply tri_ret.
    exists (FR false (T true u g s) p :: k). split; [|cbn; lia].
    apply (red_at_intro (FR false (T true u g s) p :: k) xl a xr n); [done|]. cbn. split; [by constructor|done].
Qed.

Lemma insert_round_RL : tri (plug (FL true p s :: FR false u g :: k) X) (fix_insert_round a p) next_round.
Proof.
  unfold fix_insert_round. apply (tri_parent (FR false u g :: k) true X p s). cbn [ptr frame_addr].
  apply (tri_left k false u g (T true X p s)). apply tri_distinct. intros Hnd0 Had0.
  rewrite (proj2 (Z.eqb_neq _ _)) by (by apply (sibling_root_ne' false g k X p s u true)).
  apply (tri_left k false u g (T true X p s)). apply (tri_points (FL false g (T true X p s) :: k) u).
  destruct (red_root u) eqn:Hur.
  - destruct u as [|[] ul ua ur]; try done. cbn [root_of].
    apply (tri_color (FR false (T true ul ua ur) g :: k) true X p s _ false).
    apply (tri_color (FL false g (T false X p s) :: k) true ul ua ur _ false).
    apply (tri_color k false (T false ul ua ur) g (T false X p s) _ true).
    apply tri_ret. exists k. split; [|lia]. inversion Hu; subst. apply (red_at_intro k _ g _ (S n)); [|done]. apply rb_red; [done..|by apply rb_black|by apply rb_black].
  - apply (tri_left (FR false u g :: k) true X p s). cbn [root_of X]. rewrite Z.eqb_refl. inversion Hx; subst.
    eapply (tri_bind _ _ _ (fun v t' => v = (p, a, g) /\ t' = plug k (T false u g (T true xl a (T true xr p s))))).
    { apply (tri_rotate_right (FR false u g :: k) true true xl a xr p s).
      apply (tri_parent (FR true xl a :: FR false u g :: k) true xr p s). apply (tri_parent (FR false u g :: k) true xl a (T true xr p s)).
      by apply tri_ret. }
    intros v t' [-> ->]. apply (tri_color (FR false u g :: k) true xl a (T true xr p s) _ false).
    apply (tri_color k false u g (T false xl a (T true xr p s)) _ true).
    apply (tri_rotate_left k true false u g xl a (T true xr p s)). apply tri_ret.
    exists (FR false (T true u g xl) a :: k). split; [|cbn; lia].
    apply (red_at_intro (FR false (T true u g xl) a :: k) xr p s n); [by constructor|]. cbn. split; [by constructor|done].
Qed.
End InsertRound.

Lemma fix_insert_ok fuel k a t : red_at k a t -> (length k < fuel)%nat -> tri t (fix_insert fuel a) (fun _ t' => is_rb t').
Proof.
  revert k a t. induction fuel as [|fuel IH]; intros k a t (l & r & n & -> & Hx & Hk) Hlt; [lia|]. cbn [fix_insert].
  apply (tri_parent k true l a r). destruct k as [|f k].
  - apply (tri_same _ _ _ false); [done|]. cbn [plug]. eapply tri_mono; [by apply tri_blacken|]. intros _ t' ->. cbn. split; [done|].
    destruct (rb_children _ _ _ _ _ Hx) as (m & ? & ?). exists (S m). by constructor.
  - assert (Hred : forall B (h : bool -> R B) Q, tri (plug (f :: k) (T true l a r)) (h (frame_red f)) Q ->
      tri (plug (f :: k) (T true l a r)) (points_to_red (ptr (f :: k)) ≫= h) Q).
    { intros B h Q H. destruct f as [c p s|c s p]; [apply (tri_points k (T c (T true l a r) p s))|apply (tri_points k (T c s p (T true l a r)))]; exact H. }
    apply Hred. destruct (frame_red f) eqn:Hf.
    + cbn in Hk. rewrite Hf in Hk. destruct Hk as (Hs & Hsb & Hg & Hk). destruct k as [|g k]; [done|]. cbn in Hg, Hk. rewrite Hg in Hk.
      destruct Hk as [Hu Hk]. eapply (tri_bind _ _ _ (next_round k)).
      * destruct f as [[] p s|[] s p], g as [[] g u|[] u g]; try done; cbn in *;
          [by apply (insert_round_LL k l r s u a p g n)|by apply (insert_round_RL k l r s u a p g n)
          |by apply (insert_round_LR k l r s u a p g n)|by apply (insert_round_RR k l r s u a p g n)].
      * intros next t' (k' & Hk' & Hlen). eapply IH; [exact Hk'|]. cbn in Hlt. lia.
    + assert (Hrb : is_rb (plug (f :: k) (T true l a r))) by (by apply (plug_rb _ _ n)).
      eapply tri_mono; [apply tri_blacken; by apply plug_not_E|]. intros _ t' ->. by rewrite blacken_id by apply Hrb.
Qed.

(** ** The loop of removal *)

(** A subtree whose black height is one less than its context asks for; it is in order but for
    its root, which may be red under a red node and then only has to become black. *)
Definition short_at (k : list frame) (u t : tree) : Prop :=
  t = plug k u /\ exists n, ctx_ok (S n) k /\ if red_root u then rb (blacken u) (S n) else rb u n.

Definition next_remove (m : nat) (v : Z * Z) (t' : tree) : Prop :=
  (exists k u, v = (root_of u, ptr k) /\ short_at k u t' /\ (red_root u = true \/ (length k < m)%nat))
  \/ (fst v = root_of t' /\ is_rb t').

Section RemoveRound.
Context (k : list frame) (c : bool) (u : tree) (p : Z) (n : nat).
Context (Hu : rb u n) (Hub : red_root u = false).
Context (Hc : if c then black_top k /\ ctx_ok (S n) k else ctx_ok (S (S n)) k).

(** The subtree is whole again. *)
Lemma whole_again l a r : rb l (S n) -> rb r (S n) -> red_root l = false -> red_root r = false -> is_rb (plug k (T c l a r)).
Proof.
  intros Hl Hr Hlb Hrb. destruct c.
  - apply (plug_rb k _ (S n)); [by constructor|apply Hc|]. intros _. apply Hc.
  - apply (plug_rb k _ (S (S n))); [by constructor|apply Hc|done].
Qed.

(** The sibling becomes red, and the parent is the next node. *)
Lemma short_parent l r : rb l n -> rb r n -> short_at k (T c l p r) (plug k (T c l p r)).
Proof.
  intros Hl Hr. split; [done|]. destruct c; cbn [red_root blacken].
  - exists n. split; [apply Hc|]. by constructor.
  - exists (S n). split; [apply Hc|]. by constructor.
Qed.

Lemma rebalance_left_ok sl sa sr m : rb (T false sl sa sr) (S n) -> (length k < m \/ c = true)%nat ->
  tri (plug k (T c u p (T false sl sa sr))) (rebalance_left p sa) (next_remove m).
Proof.
  intros Hs Hm. inversion Hs; subst. unfold rebalance_left.
  apply (tri_left (FR c u p :: k) false sl sa sr). apply (tri_points (FL false sa sr :: FR c u p :: k) sl).
  apply (tri_right (FR c u p :: k) false sl sa sr). apply (tri_points (FR false sl sa :: FR c u p :: k) sr).
  destruct (negb (red_root sl) && negb (red_root sr)) eqn:Hn.
  - apply andb_true_iff in Hn as [Hn1 Hn2]. apply negb_true_iff in Hn1, Hn2.
    apply (tri_color (FR c u p :: k) false sl sa sr _ true). apply (tri_parent k c u p (T true sl sa sr)).
    apply tri_ret. left. exists k, (T c u p (T true sl sa sr)). split; [done|]. split; [apply short_parent; [done|by constructor]|].
    cbn. tauto.
  - eapply (tri_bind _ _ _ (fun sib t' => exists sl' r1 b r2, t' = plug k (T c u p (T false sl' sib (T true r1 b r2)))
      /\ rb sl' n /\ rb (T true r1 b r2) n)).
    + destruct (red_root sr) eqn:Hr; cbn [negb].
      * destruct sr as [|[] r1 b r2]; try done. apply tri_ret. by eexists _, _, _, _.
      * destruct (red_root sl) eqn:Hl; [|done]. destruct sl as [|[] a1 b1 a2]; try done.
        apply (tri_left (FR c u p :: k) false (T true a1 b1 a2) sa sr). cbn [root_of].
        apply (tri_color (FL false sa sr :: FR c u p :: k) true a1 b1 a2 _ false).
        apply (tri_color (FR c u p :: k) false (T false a1 b1 a2) sa sr _ true).
        apply (tri_rotate_right (FR c u p :: k) true false a1 b1 a2 sa sr).
        apply (tri_right_end k c u p (T false a1 b1 (T true a2 sa sr))). eexists _, _, _, _. split; [done|].
        inv_rb. split; [done|]. by constructor.
    + intros sib t' (sl' & r1 & b & r2 & -> & Hsl & Hsr). inv_rb.
      apply (tri_is_red k c u p (T false sl' sib (T true r1 b r2))). apply (tri_color (FR c u p :: k) false sl' sib (T true r1 b r2) _ c).
      apply (tri_color k c u p (T c sl' sib (T true r1 b r2)) _ false). apply (tri_right (FR false u p :: k) c sl' sib (T true r1 b r2)).
      cbn [root_of]. apply (tri_color (FR c sl' sib :: FR false u p :: k) true r1 b r2 _ false).
      apply (tri_rotate_left k false c u p sl' sib (T false r1 b r2)). apply tri_root. apply tri_ret. right. split; [done|].
      apply whole_again; try done; by constructor.
Qed.

Lemma rebalance_right_ok sl sa sr m : rb (T false sl sa sr) (S n) -> (length k < m \/ c = true)%nat ->
  tri (plug k (T c (T false sl sa sr) p u)) (rebalance_right p sa) (next_remove m).
Proof.
  intros Hs Hm. inversion Hs; subst. unfold rebalance_right.
  apply (tri_right (FL c p u :: k) false sl sa sr). apply (tri_points (FR false sl sa :: FL c p u :: k) sr).
  apply (tri_left (FL c p u :: k) false sl sa sr). apply (tri_points (FL false sa sr :: FL c p u :: k) sl).
  destruct (negb (red_root sr) && negb (red_root sl)) eqn:Hn.
  - apply andb_true_iff in Hn as [Hn1 Hn2]. apply negb_true_iff in Hn1, Hn2.
    apply (tri_color (FL c p u :: k) false sl sa sr _ true). apply (tri_parent k c (T true sl sa sr) p u).
    apply tri_ret. left. exists k, (T c (T true sl sa sr) p u). split; [done|]. split; [apply short_parent; [by constructor|done]|].
    cbn. tauto.
  - eapply (tri_bind _ _ _ (fun sib t' => exists sr' r1 b r2, t' = plug k (T c (T false (T true r1 b r2) sib sr') p u)
      /\ rb sr' n /\ rb (T true r1 b r2) n)).
    + destruct (red_root sl) eqn:Hr; cbn [negb].
      * destruct sl as [|[] r1 b r2]; try done. apply tri_ret. by eexists _, _, _, _.
      * destruct (red_root sr) eqn:Hl; [|done]. destruct sr as [|[] a1 b1 a2]; try done.
        apply (tri_right (FL c p u :: k) false sl sa (T true a1 b1 a2)). cbn [root_of].
        apply (tri_color (FR false sl sa :: FL c p u :: k) true a1 b1 a2 _ false).
        apply (tri_color (FL c p u :: k) false sl sa (T false a1 b1 a2) _ true).
        apply (tri_rotate_left (FL c p u :: k) true false sl sa a1 b1 a2).
        apply (tri_left_end k c (T false (T true sl sa a1) b1 a2) p u). eexists _, _, _, _. split; [done|].
        inv_rb. split; [done|]. by constructor.
    + intros sib t' (sr' & r1 & b & r2 & -> & Hsr & Hsl). inv_rb.
      apply (tri_is_red k c (T false (T true r1 b r2) sib sr') p u). apply (tri_color (FL c p u :: k) false (T true r1 b r2) sib sr' _ c).
      apply (tri_color k c (T c (T true r1 b r2) sib sr') p u _ false). apply (tri_left (FL false p u :: k) c (T true r1 b r2) sib sr').
      cbn [root_of]. apply (tri_color (FL c sib sr' :: FL false p u :: k) true r1 b r2 _ false).
      apply (tri_rotate_right k false c (T false r1 b r2) sib sr' p u). apply tri_root. apply tri_ret. right. split; [done|].
      apply whole_again; try done; by constructor.
Qed.
End RemoveRound.

Lemma rb_not_E s n : rb s (S n) -> exists c l a r, s = T c l a r.
Proof. inversion 1; eauto. Qed.

Lemma node_nonzero k c l a r : Forall addr (inorder (plug k (T c l a r))) -> a <> 0.
Proof. rewrite inorder_plug, Forall_forall. intros H. apply (H a). cbn. set_solver. Qed.

Lemma remove_round_L k c p s u n : rb u n -> red_root u = false -> ctx_ok (S n) (FL c p s :: k) ->
  tri (plug (FL c p s :: k) u) (fix_remove_round (root_of u) p) (next_remove (S (length k))).
Proof.
  intros Hu Hub [Hs Hc]. cbn in Hs, Hc. destruct (rb_not_E _ _ Hs) as (cs & sl & sa & sr & ->). unfold fix_remove_round.
  apply (tri_left k c u p (T cs sl sa sr)). rewrite Z.eqb_refl. apply (tri_right k c u p (T cs sl sa sr)). cbn [root_of].
  apply tri_distinct. intros _ Had. rewrite (proj2 (Z.eqb_neq sa 0)) by (by eapply (node_nonzero (FR c u p :: k))).
  apply (tri_is_red (FR c u p :: k) cs sl sa sr). destruct cs.
  - destruct c; [by destruct Hc|]. inversion Hs; subst. apply (tri_color (FR false u p :: k) true sl sa sr _ false).
    apply (tri_color k false u p (T false sl sa sr) _ true). apply (tri_rotate_left k true false u p sl sa sr).
    apply (tri_right (FL false sa sr :: k) true u p sl). destruct (rb_not_E _ _ H5) as ([] & bl & b & br & ->); [done|]. cbn [root_of].
    apply (rebalance_left_ok (FL false sa sr :: k) true u p n); [done|split; [done|by split]|done|by right].
  - apply (rebalance_left_ok k c u p n); [done|destruct c; [apply Hc|done]|done|left; lia].
Qed.

Lemma remove_round_R k c s p u n : rb u n -> red_root u = false -> ctx_ok (S n) (FR c s p :: k) ->
  tri (plug (FR c s p :: k) u) (fix_remove_round (root_of u) p) (next_remove (S (length k))).
Proof.
  intros Hu Hub [Hs Hc]. cbn in Hs, Hc. destruct (rb_not_E _ _ Hs) as (cs & sl & sa & sr & ->). unfold fix_remove_round.
  apply (tri_left k c (T cs sl sa sr) p u). cbn [root_of]. apply tri_distinct. intros Hnd Had.
  rewrite (proj2 (Z.eqb_neq (root_of u) sa)) by (intros H; by apply (sibling_root_ne c p k sl sa sr u cs Hnd Had)).
  apply (tri_left k c (T cs sl sa sr) p u). cbn [root_of]. rewrite (proj2 (Z.eqb_neq sa 0)) by (by eapply (node_nonzero (FL c p u :: k))).
  apply (tri_is_red (FL c p u :: k) cs sl sa sr). destruct cs.
  - destruct c; [by destruct Hc|]. inversion Hs; subst. apply (tri_color (FL false p u :: k) true sl sa sr _ false).
    apply (tri_color k false (T false sl sa sr) p u _ true). apply (tri_rotate_right k true false sl sa sr p u).
    apply (tri_left (FR false sl sa :: k) true sr p u). destruct (rb_not_E _ _ H6) as ([] & bl & b & br & ->); [done|]. cbn [root_of].
    apply (rebalance_right_ok (FR false sl sa :: k) true u p n); [done|split; [done|by split]|done|by right].
  - apply (rebalance_right_ok k c u p n); [done|destruct c; [apply Hc|done]|done|left; lia].
Qed.

Lemma tri_color_end k c c' l a r : tri (plug k (T c l a r)) (set_color a c') (fun _ t' => t' = plug k (T c' l a r)).
Proof.
  intros s Hs. destruct (color_ok s k c c' l a r Hs) as (s' & E' & Hs' & O). eexists tt, s', _. split_and!; try done. by rewrite !inorder_plug.
Qed.

(** The end of the loop: the node becomes black. *)
Lemma tri_finish k u : tri (plug k u) (if root_of u =? 0 then mret tt else set_color (root_of u) false) (fun _ t' => t' = plug k (blacken u)).
Proof.
  destruct u as [|c l a r]; cbn [root_of blacken]; [by apply tri_ret|]. apply tri_distinct. intros _ Had.
  rewrite (proj2 (Z.eqb_neq a 0)) by (by eapply node_nonzero). apply tri_color_end.
Qed.

Lemma top_in f k : top (frame_addr f) k ∈ before (f :: k) ++ after (f :: k).
Proof.
  revert f. induction k as [|g k IH]; intros f; [destruct f; cbn; set_solver|]. specialize (IH g). cbn [top].
  destruct f; cbn in *; set_solver.
Qed.

Lemma root_ne f k u : NoDup (inorder (plug (f :: k) u)) -> Forall addr (inorder (plug (f :: k) u)) -> root_of u <> root_of (plug (f :: k) u).
Proof.
  rewrite root_plug, inorder_plug. cbn [top]. intros Hnd Had Heq. pose proof (top_in f k) as Hin. rewrite <- Heq in Hin.
  destruct (root_in u) as [->|Hu].
  - rewrite Forall_forall in Had. destruct (Had 0); [cbn [root_of] in Hin; set_solver|done].
  - destruct (apart _ _ _ Hnd Had Hu) as (_ & Hout & _). done.
Qed.

Lemma fix_remove_root fuel t q : is_rb t -> tri t (fix_remove (S fuel) (root_of t) q) (fun _ t' => is_rb t').
Proof.
  intros Ht. cbn [fix_remove]. apply tri_root. apply (tri_points [] t). rewrite Z.eqb_refl. cbn [negb andb].
  eapply tri_mono; [apply (tri_finish [] t)|]. intros _ t' ->. cbn. by rewrite blacken_id by apply Ht.
Qed.

Lemma fix_remove_ok fuel k u t : short_at k u t -> (if red_root u then 1 <= fuel else S (length k) < fuel)%nat ->
  tri t (fix_remove fuel (root_of u) (ptr k)) (fun _ t' => is_rb t').
Proof.
  revert k u t. induction fuel as [|fuel IH]; intros k u t (-> & n & Hk & Hu) Hlt; [destruct (red_root u); lia|].
  cbn [fix_remove]. apply tri_root. apply (tri_points k u). destruct (red_root u) eqn:Hr.
  - rewrite andb_false_r. eapply tri_mono; [apply tri_finish|]. intros _ t' ->. apply (plug_rb k _ (S n)); [done|done|]. by destruct u.
  - destruct k as [|f k].
    + cbn [plug]. rewrite Z.eqb_refl. cbn [negb andb]. eapply tri_mono; [apply (tri_finish [] u)|]. intros _ t' ->. cbn. rewrite blacken_id by done.
      split; [done|by exists n].
    + apply tri_distinct. intros Hnd Had. rewrite (proj2 (Z.eqb_neq _ _)) by (by apply root_ne). cbn [negb andb].
      eapply (tri_bind _ _ _ (next_remove (S (length k)))).
      { destruct f as [c p s|c s p]; cbn [ptr frame_addr]; [by apply (remove_round_L k c p s u n)|by apply (remove_round_R k c s p u n)]. }
      intros [node parent] t' [(k2 & u2 & [= -> ->] & Hsh & Hm)|[Hroot Hrb]].
      * eapply IH; [exact Hsh|]. cbn in Hlt. destruct (red_root u2); [lia|]. destruct Hm as [?|?]; [done|lia].
      * cbn [fst] in Hroot. subst node. destruct fuel as [|fuel]; [cbn in Hlt; lia|]. by apply fix_remove_root.
Qed.
