(* ===== verification/RbTreeOps.v ===== *)
(** * Red-black trees: insertion, removal, searching and iteration

    The operations of RbTree on a heap that holds a tree.  [tri] covers the code that
    keeps the nodes of the tree; the writes that link a new node in or take one out are
    done on states. *)

From stdpp Require Import base list numbers gmap sorting.
From S2P Require Import ListFacts Prelude RbTree RbTreeInv.

Lemma count_nodes s L : NoDup L -> (forall x, x ∈ L -> is_Some (rb_nodes s !! x)) -> (length L <= size (rb_nodes s))%nat.
Proof.
  intros Hnd Hx. rewrite <- size_dom, <- (size_list_to_set (C := gset Z) L) by done. apply subseteq_size. intros x Hin.
  apply elem_of_list_to_set in Hin. apply elem_of_dom. auto.
Qed.

Lemma holds_node s t x : holds s t -> x ∈ inorder t -> is_Some (rb_nodes s !! x).
Proof.
  intros [_ Hr _ _]. revert Hr. generalize 0. induction t as [|c l IHl a r IHr]; intros p Hr' Hx; cbn in Hx; [by apply elem_of_nil in Hx|].
  destruct Hr' as (Ha & Hl & Hr). rewrite elem_of_app, elem_of_cons in Hx. destruct Hx as [Hx|[->|Hx]]; [by eapply IHl|by eexists|by eapply IHr].
Qed.

Lemma count_le s t : holds s t -> (length (inorder t) <= size (rb_nodes s))%nat.
Proof. intros Hs. apply count_nodes; [apply Hs|]. intros x. by apply holds_node. Qed.

Lemma length_ctx k : (length k <= length (before k) + length (after k))%nat.
Proof. induction k as [|[c a r|c l a] k IH]; cbn; rewrite ?length_app; cbn; rewrite ?length_app; cbn; lia. Qed.

(** Writing to a node outside the tree *)
Lemma holds_outside s s' t : holds s t -> rb_root s' = rb_root s -> (forall x, x ∈ inorder t -> rb_nodes s' !! x = rb_nodes s !! x) -> holds s' t.
Proof. intros [H1 H2 H3 H4] Hr Hx. split; [congruence|by eapply rep_ext|done..]. Qed.

Section Insert.
Context (key : Z -> Z).

Definition ordered (l : list Z) : Prop := StronglySorted Z.le (map key l).
(** Where the new node goes: behind the nodes with the same key *)
Definition ins (a : Z) (l : list Z) : list Z :=
  filter (fun x => key x <= key a) l ++ a :: filter (fun x => key a < key x) l.

Definition splits (a : Z) (k : list frame) : Prop :=
  Forall (fun x => key x <= key a) (before k) /\ Forall (fun x => key a < key x) (after k).

Lemma splits_ins a k : splits a k -> ins a (before k ++ after k) = before k ++ a :: after k.
Proof.
  intros [Hb Ha]. unfold ins. rewrite !filter_app. rewrite (filter_all _ _ Hb), (filter_all _ _ Ha).
  rewrite (filter_none _ (after k)), (filter_none _ (before k)).
  - by rewrite app_nil_r.
  - eapply Forall_impl; [exact Hb|]. cbn. intros x Hx. lia.
  - eapply Forall_impl; [exact Ha|]. cbn. intros x Hx. lia.
Qed.

Lemma ordered_app l1 l2 : ordered (l1 ++ l2) <-> ordered l1 /\ ordered l2 /\ forall x y, x ∈ l1 -> y ∈ l2 -> key x <= key y.
Proof.
  unfold ordered. rewrite map_app, StronglySorted_app. split.
  - intros (H & H1 & H2). split_and!; [done..|]. intros x y Hx Hy. apply H; by apply list_elem_of_fmap_2.
  - intros (H1 & H2 & H3). split_and!; [|done..]. intros x y Hx Hy.
    apply list_elem_of_fmap in Hx as (x' & -> & Hx), Hy as (y' & -> & Hy). auto.
Qed.

(** Going down from a subtree that holds the place *)
Lemma insert_place_ok fuel k u a :
  ordered (inorder (plug k u)) -> splits a k -> (length (inorder u) <= fuel)%nat ->
  forall s, holds s (plug k u) -> exists k', insert_place key fuel a (ptr k) (root_of u) s = Some (ptr k', s) /\ plug k' E = plug k u /\ splits a k'.
Proof.
  revert k u. induction fuel as [|fuel IH]; intros k u Ho0 Hsp Hlen s Hs.
  - destruct u; cbn in Hlen; [|rewrite length_app in Hlen; cbn in Hlen; lia]. by exists k.
  - destruct u as [|c l b r]; [by exists k|]. cbn [insert_place root_of]. pose proof (node_at _ _ _ _ _ _ Hs) as Hb.
    assert (b <> 0) by (apply holds_plug in Hs as (_ & _ & _ & Had); rewrite Forall_forall in Had; apply (Had b); cbn; set_solver).
    rewrite (proj2 (Z.eqb_neq b 0)) by done. cbn in Hlen. rewrite length_app in Hlen. cbn in Hlen.
    pose proof Ho0 as Ho. rewrite inorder_plug in Ho. cbn in Ho. apply ordered_app in Ho as (_ & Ho & Ho1). rewrite <- app_assoc in Ho. apply ordered_app in Ho as (_ & Ho & Ho2).
    change (ordered ([b] ++ inorder r ++ after k)) in Ho. apply ordered_app in Ho as (_ & _ & Ho3).
    destruct (cmp key a b) eqn:Hc; unfold cmp in Hc.
    + rewrite (rbind _ _ _ _ _ (left_run _ _ _ Hb)). cbn [nd_left]. destruct Hsp as [H1 H2]. apply Z.ltb_lt in Hc.
      apply (IH (FL c b r :: k) l); [exact Ho0| |lia|exact Hs]. split; [done|]. cbn. apply Forall_cons. split; [done|].
      apply Forall_app. split; [|done]. apply Forall_forall. intros x Hx. specialize (Ho3 b x ltac:(set_solver) ltac:(set_solver)). lia.
    + rewrite (rbind _ _ _ _ _ (right_run _ _ _ Hb)). cbn [nd_right]. destruct Hsp as [H1 H2]. apply Z.ltb_ge in Hc.
      apply (IH (FR c l b :: k) r); [exact Ho0| |lia|exact Hs]. split; [|done]. cbn. apply Forall_app. split; [done|].
      apply Forall_app. split; [|by apply Forall_singleton]. apply Forall_forall. intros x Hx. specialize (Ho2 x b ltac:(set_solver) ltac:(set_solver)). lia.
Qed.

(** A red leaf in the hole that has been found *)
Lemma link_leaf_ok s k a : holds s (plug k E) -> k <> [] -> splits a k -> a ∉ inorder (plug k E) -> addr a ->
  rb_nodes s !! a = Some (RbNode (enc (ptr k) true) 0 0) ->
  exists s', (if cmp key a (ptr k) then set_left (ptr k) a else set_right (ptr k) a) s = Some (tt, s')
    /\ holds s' (plug k (T true E a E)) /\ outside (ptrs k) s s'.
Proof.
  intros Hs Hk Hsp Hna Had Ha. apply holds_plug in Hs as (Hh & _ & Hnd & Hadk). cbn in *. rewrite inorder_plug in Hna. cbn in Hna.
  destruct (relink_top s k 0 a Hh Hnd) as (s' & Es & Hh' & O). exists s'. split_and!; [|apply holds_plug; split_and!|exact O].
  - rewrite <- Es. destruct k as [|[c p r|c l p] k]; [done|..]; destruct Hh as [(Hp & _) _]; cbn [ptr frame_addr]; unfold cmp.
    + destruct Hsp as [_ H]. cbn in H. apply Forall_cons in H as [H _]. apply Z.ltb_lt in H. rewrite H. by rewrite (set_left_run _ _ _ _ Hp).
    + destruct Hsp as [H _]. cbn in H. rewrite !Forall_app, Forall_singleton in H. destruct H as (_ & _ & H). apply Z.ltb_ge in H. rewrite H.
      by rewrite (set_right_run _ _ _ _ Hp).
  - exact Hh'.
  - cbn. split_and!; try done. rewrite O; [done|]. intros Hx. by apply Hna, ptrs_in.
  - cbn. apply NoDup_app in Hnd as (N1 & N2 & N3). apply NoDup_app. split_and!; [done|set_solver|apply NoDup_cons; set_solver].
  - cbn. rewrite Forall_app in *. rewrite Forall_cons. tauto.
Qed.

Lemma fix_insert_root fuel a : tri (T false E a E) (fix_insert (S fuel) a) (fun _ t' => t' = T false E a E).
Proof.
  cbn [fix_insert]. apply (tri_parent [] false E a E). apply (tri_same _ _ _ false); [done|].
  eapply tri_mono; [by apply (tri_blacken (T false E a E))|]. by intros _ t' ->.
Qed.

Lemma insert_ok s t a : holds s t -> is_rb t -> ordered (inorder t) -> a ∉ inorder t -> addr a -> is_Some (rb_nodes s !! a) ->
  exists s' t', insert key a s = Some (tt, s') /\ holds s' t' /\ is_rb t' /\ inorder t' = ins a (inorder t) /\ outside (a :: inorder t) s s'.
Proof.
  intros Hs Hrb Ho Hna Had [n0 Hn0]. unfold insert. erewrite rbind by reflexivity. set (n := size (rb_nodes s)).
  assert (Hn : (S (length (inorder t)) <= n)%nat).
  { apply (count_nodes s (a :: inorder t)); [apply NoDup_cons; split; [done|apply Hs]|]. intros x [->|Hx]%elem_of_cons; [by eexists|by eapply holds_node]. }
  rewrite (rbind _ _ _ _ _ (upd_run _ _ _ _ Hn0)). set (s1 := RbState _ _).
  assert (O1 : outside [a] s s1) by (intros x Hx; apply lookup_insert_ne; set_solver).
  assert (Hs1 : holds s1 t) by (eapply holds_outside; [exact Hs|done|]; intros x Hx; apply O1; set_solver).
  erewrite rbind by reflexivity. rewrite (h_root _ _ Hs1).
  destruct (insert_place_ok n [] t a Ho ltac:(done) ltac:(lia) s1 Hs1) as (k & Ek & Hkt & Hsp).
  cbn [plug ptr] in Ek, Hkt. subst t. rewrite (rbind _ _ _ _ _ Ek). clear Ek.
  assert (Ha1 : rb_nodes s1 !! a = Some (RbNode (enc 0 false) 0 0)) by apply lookup_insert_eq.
  rewrite (rbind _ _ _ _ _ (set_parent_run _ _ _ _ Ha1)). rewrite enc_set_parent by done. set (s2 := RbState _ _).
  assert (Ha2 : rb_nodes s2 !! a = Some (RbNode (enc (ptr k) false) 0 0)) by apply lookup_insert_eq.
  assert (Hke : even (ptr k)) by (apply holds_plug in Hs1 as (_ & _ & _ & H); by eapply ptr_even).
  rewrite (rbind _ _ _ _ _ (set_color_run _ _ _ _ Ha2)). rewrite enc_set_color by done. set (s3 := RbState _ _).
  assert (Ha3 : rb_nodes s3 !! a = Some (RbNode (enc (ptr k) true) 0 0)) by apply lookup_insert_eq.
  assert (O3 : outside [a] s s3).
  { intros x Hx. unfold s3, s2. cbn [rb_nodes]. rewrite !lookup_insert_ne by set_solver. by apply O1. }
  assert (Hs3 : holds s3 (plug k E)) by (eapply holds_outside; [exact Hs|done|]; intros x Hx; apply O3; set_solver).
  rewrite inorder_plug in Hn. cbn in Hn. rewrite length_app in Hn. pose proof (length_ctx k) as Hlen. rewrite (inorder_plug k E). cbn [inorder app].
  rewrite splits_ins by done. destruct (decide (k = [])) as [->|Hk].
  - cbn [ptr]. rewrite Z.eqb_refl. erewrite rbind by (erewrite rbind by reflexivity; exact (set_color_run a false (RbState a (rb_nodes s3)) _ Ha3)).
    rewrite enc_set_color by done. set (s4 := RbState _ _).
    assert (Hs4 : holds s4 (T false E a E)).
    { split; cbn; [done|split_and!; [apply lookup_insert_eq|done..]|apply NoDup_singleton|by apply Forall_singleton]. }
    destruct n as [|n']; [lia|]. destruct (fix_insert_root n' a s4 Hs4) as ([] & s' & t' & E' & Hs' & _ & O & ->).
    exists s', (T false E a E). split_and!; try done; [split; [done|exists 1%nat; by repeat constructor]|].
    intros x Hx. rewrite O by done. cbn. rewrite lookup_insert_ne by set_solver. apply O3. set_solver.
  - assert (Hpk : ptr k <> 0).
    { apply holds_plug in Hs3 as (_ & _ & _ & H). rewrite Forall_forall in H. apply (H (ptr k)). cbn. by apply ptr_in. }
    rewrite (proj2 (Z.eqb_neq _ 0)) by done. destruct (link_leaf_ok s3 k a Hs3 Hk Hsp Hna Had Ha3) as (s4 & E4 & Hs4 & O4). rewrite (rbind _ _ _ _ _ E4).
    destruct Hrb as [Hb [m Hm]]. destruct (unplug_rb k E m Hm Hb) as (m' & Hm' & Hctx & _). inversion Hm'; subst m'.
    destruct (fix_insert_ok n k a (plug k (T true E a E))) with (s := s4) as ([] & s' & t' & E' & Hs' & Hi & O & Hrb'); [|lia|done|].
    { apply (red_at_intro k E a E 0); [by repeat constructor|done]. }
    exists s', t'. split_and!; try done; [by rewrite Hi, inorder_plug|]. intros x Hx.
    rewrite O, O4, O3; [done|set_solver|intros Hp%ptrs_in; set_solver|rewrite inorder_plug; cbn; set_solver].
Qed.
End Insert.

(** ** Removal *)

(** A subtree takes the place of the node at [a]. *)
Lemma transplant_ok s k a na v q : hangs s a k -> rb_nodes s !! a = Some na -> node_get_parent na = ptr k -> rep (rb_nodes s) q v -> even q ->
  NoDup (before k ++ a :: inorder v ++ after k) -> Forall addr (before k ++ a :: inorder v ++ after k) ->
  exists s', transplant a (root_of v) s = Some (tt, s') /\ hangs s' (root_of v) k /\ rep (rb_nodes s') (ptr k) v
    /\ outside (ptrs k ++ inorder v) s s'.
Proof.
  intros Hh Ha Hpa Hv Hq Hnd Had. unfold transplant. rewrite (rbind _ _ _ _ _ (parent_run _ _ _ Ha)), Hpa.
  change (a :: inorder v ++ after k) with ((a :: inorder v) ++ after k) in Hnd, Had.
  destruct (ctx_apart _ _ Hnd Had) as (Nk & Nz & Dk). assert (Hin : forall x, x ∈ a :: inorder v -> x ∉ ptrs k /\ x ∉ before k ++ after k /\ x <> 0).
  { intros x Hx. by apply (apart k (a :: inorder v)). }
  destruct (Hin a ltac:(set_solver)) as (Ha1 & Ha2 & Ha3).
  destruct (relink_left s k a (root_of v) Hh Nk Ha2 Ha3 Nz) as (s1 & E1 & Hh1 & O1). rewrite (rbind _ _ _ _ _ E1).
  assert (Nv : NoDup (a :: inorder v)) by (by apply NoDup_app in Hnd as (_ & _ & [Hnd _]%NoDup_app)). apply NoDup_cons in Nv as [Nav Nv].
  destruct (adopt_ok s1 q (ptr k) v) as (s2 & E2 & Hv2 & R2 & O2); [done| |done|..].
  { eapply rep_ext; [|exact Hv]. intros x Hx. apply O1, Hin. set_solver. }
  { rewrite !Forall_app, Forall_cons in Had. tauto. }
  exists s2. split_and!.
  - rewrite <- E2. destruct (root_of v =? 0); [done|]. rewrite (rbind _ _ _ _ _ (parent_run _ s1 na ltac:(by rewrite O1))). by rewrite Hpa.
  - apply (hangs_ext s1); [|done|done]. intros x Hx. apply O2. intros Hx'. apply (Dk x Hx). set_solver.
  - exact Hv2.
  - intros x Hx. rewrite O2, O1; [done|set_solver..].
Qed.

(** A node with at most one child, which is [v] *)
Lemma drop_ok s k c l a r v : holds s (plug k (T c l a r)) -> (l = E /\ v = r \/ r = E /\ v = l) ->
  exists s', transplant a (root_of v) s = Some (tt, s') /\ holds s' (plug k v) /\ outside (inorder (plug k v)) s s'.
Proof.
  intros Hs Hv. pose proof (focus_even _ _ _ _ _ _ Hs) as Hk. apply holds_plug in Hs as (Hh & (Ha & Hl & Hr) & Hnd & Had). cbn in Hh, Hnd, Had.
  assert (Hperm : before k ++ (inorder l ++ a :: inorder r) ++ after k ≡ₚ before k ++ a :: inorder v ++ after k).
  { destruct Hv as [[-> ->]|[-> ->]]; cbn; [done|]. rewrite <- app_assoc. cbn. by rewrite <- Permutation_middle. }
  rewrite Hperm in Hnd, Had. assert (Hrv : rep (rb_nodes s) a v) by (destruct Hv as [[_ ->]|[_ ->]]; done).
  assert (Hae : even a) by (rewrite Forall_app, Forall_cons in Had; apply Had).
  destruct (transplant_ok s k a _ v a Hh Ha (enc_parent _ _ _ _ Hk) Hrv Hae Hnd Had) as (s' & E' & Hh' & Hv' & O). exists s'. split; [done|]. split.
  - apply holds_plug. split_and!; try done.
    + rewrite <- Permutation_middle in Hnd. by apply NoDup_cons in Hnd as [_ Hnd].
    + rewrite Forall_app, Forall_cons in Had. rewrite Forall_app. tauto.
  - intros x Hx. apply O. rewrite inorder_plug in Hx. pose proof (ptrs_in k x). set_solver.
Qed.

(** The colours after that, in a context with other addresses *)
Definition same_colors (k k' : list frame) : Prop := (forall n, ctx_ok n k -> ctx_ok n k') /\ (black_top k -> black_top k').

Lemma drop_rb k k' c l a r v : same_colors k k' -> is_rb (plug k (T c l a r)) -> (l = E /\ v = r \/ r = E /\ v = l) ->
  if c then is_rb (plug k' v) else short_at k' v (plug k' v).
Proof.
  intros [Sc Sb] [Hb [m Hm]] Hv. destruct (unplug_rb k _ m Hm Hb) as (m' & Hm' & Hk & Ht).
  assert (Hvn : exists n, rb v n /\ rb E n /\ if c then m' = n /\ red_root v = false else m' = S n).
  { destruct Hv as [[-> ->]|[-> ->]]; inversion Hm'; subst; eauto 6. }
  destruct Hvn as (n & Hn & HE & Hc). inversion HE; subst n. destruct c; destruct_and?; subst.
  - apply (plug_rb k' v 0); [done|by apply Sc|congruence].
  - split; [done|]. exists 0%nat. split; [by apply Sc|]. destruct (red_root v) eqn:Hr; [|done].
    destruct v as [|[] vl va vr]; try done. inversion Hn; subst. by constructor.
Qed.

(** The leftmost node of a subtree, down a path of left children *)
Definition is_FL (f : frame) : Prop := match f with FL _ _ _ => True | FR _ _ _ => False end.

Lemma leftmost_ok fuel s k u : holds s (plug k u) -> u <> E -> (length (inorder u) <= fuel)%nat ->
  exists ls c a r, leftmost fuel (root_of u) s = Some (a, s) /\ u = plug ls (T c E a r) /\ Forall is_FL ls.
Proof.
  revert k u. induction fuel as [|fuel IH]; intros k u Hs Hu Hlen; (destruct u as [|c l a r]; [done|]); cbn in Hlen; rewrite length_app in Hlen; cbn in Hlen; [lia|].
  cbn [leftmost root_of]. pose proof (node_at _ _ _ _ _ _ Hs) as Ha. rewrite (rbind _ _ _ _ _ (left_run _ _ _ Ha)). cbn [nd_left].
  destruct l as [|lc ll la lr].
  - by exists [], c, a, r.
  - assert (Hla : la <> 0) by (apply (node_nonzero (FL c a r :: k) lc ll la lr); apply Hs). cbn [root_of]. rewrite (proj2 (Z.eqb_neq la 0)) by done.
    destruct (IH (FL c a r :: k) (T lc ll la lr) Hs ltac:(done) ltac:(lia)) as (ls & c' & a' & r' & El & Eu & Hls).
    exists (ls ++ [FL c a r]), c', a', r'. split; [exact El|]. split; [by rewrite plug_app, <- Eu|]. apply Forall_app. split; [done|by apply Forall_singleton].
Qed.

Lemma before_app k k' : before (k ++ k') = before k' ++ before k.
Proof. induction k as [|[c a r|c l a] k IH]; cbn; [by rewrite app_nil_r|done|]. rewrite IH. by rewrite !app_assoc. Qed.
Lemma after_app k k' : after (k ++ k') = after k ++ after k'.
Proof. induction k as [|[c a r|c l a] k IH]; cbn; [done| |done]. rewrite IH. by rewrite !app_assoc. Qed.
Lemma FL_before ls : Forall is_FL ls -> before ls = [].
Proof. induction 1 as [|[c a r|c l a] ls Hf _ IH]; [done|exact IH|done]. Qed.
Lemma root_plug_FL ls t t' : ls <> [] -> root_of (plug ls t) = root_of (plug ls t').
Proof. intros H. rewrite !root_plug. by destruct ls. Qed.

Lemma NoDup_Permutation_remove (a : Z) l1 l2 l3 : NoDup (l1 ++ l2 ++ a :: l3) -> NoDup (l1 ++ l2 ++ l3).
Proof. rewrite !app_assoc. rewrite <- Permutation_middle. by intros [_ H]%NoDup_cons. Qed.

(** The successor [sa] takes the place of [a], with what is left of the right subtree. *)
Section Successor.
Context (k : list frame) (c cs : bool) (l r' : tree) (a sa q ra : Z).
Let L := before k ++ inorder l ++ a :: sa :: inorder r' ++ after k.

Lemma successor_ok {V} (v : V) s : hangs s a k -> rb_nodes s !! a = Some (RbNode (enc (ptr k) c) (root_of l) ra) -> rep (rb_nodes s) a l ->
  rep (rb_nodes s) q (T cs E sa r') -> even q -> NoDup L -> Forall addr L -> l <> E ->
  exists s', (_ ← transplant a sa; l ← left_of a; _ ← set_left sa l; _ ← set_parent l sa; red ← is_red a; _ ← set_color sa red; mret v) s = Some (v, s')
    /\ holds s' (plug k (T c l sa r')) /\ outside L s s'.
Proof.
  intros Hh Ha Hl Hv Hq Hnd Had Hne. subst L.
  assert (Hk : even (ptr k)) by (eapply (ptr_even k (inorder l ++ a :: sa :: inorder r')); rewrite <- app_assoc; exact Had).
  assert (Hperm : before k ++ inorder l ++ a :: sa :: inorder r' ++ after k ≡ₚ inorder l ++ before k ++ a :: sa :: inorder r' ++ after k).
  { rewrite !app_assoc. apply Permutation_app; [apply Permutation_app_comm|done]. }
  assert (Hnd2 := Hnd). assert (Had2 := Had). rewrite Hperm in Hnd2, Had2. apply NoDup_app in Hnd2 as (Nl & Dl & Nd). apply Forall_app in Had2 as [Al Ad].
  destruct (transplant_ok s k a _ (T cs E sa r') q Hh Ha (enc_parent _ _ _ _ Hk) Hv Hq) as (s1 & E1 & Hh1 & Hv1 & O1); [done|done|].
  cbn [root_of] in E1. rewrite (rbind _ _ _ _ _ E1). cbn in Hv1. destruct Hv1 as (Hsa & _ & Hr').
  destruct (parts_apart k l a E sa r') as (Pl & _ & Pr & Pk & (Das & _ & _ & Dpa & Dps) & _);
    [by cbn; rewrite <- app_assoc; cbn..|].
  assert (Dlr : forall x, x ∈ inorder l -> x ∉ inorder r').
  { intros x Hx Hx'. destruct (Dl x Hx). apply elem_of_app. right. do 2 (apply elem_of_cons; right). apply elem_of_app. by left. }
  assert (Oa : forall x, x ∉ ptrs k -> x <> sa -> x ∉ inorder r' -> rb_nodes s1 !! x = rb_nodes s !! x).
  { intros x H1 H2 H3. apply O1. cbn. by rewrite elem_of_app, elem_of_cons; intros [?|[?|?]]. }
  assert (Har : a ∉ inorder r') by (intros H; by destruct (Pr a H)). assert (Hal : a ∉ inorder l) by (intros H; by destruct (Pl a H)).
  assert (Hsl : sa ∉ inorder l) by (intros H; by destruct (Pl sa H) as (_ & ? & _)).
  assert (Ha1 : rb_nodes s1 !! a = Some (RbNode (enc (ptr k) c) (root_of l) ra)) by (rewrite Oa; done).
  rewrite (rbind _ _ _ _ _ (left_run _ _ _ Ha1)). cbn [nd_left]. rewrite (rbind _ _ _ _ _ (set_left_run _ _ _ _ Hsa)). unfold node_set_left. cbn [nd_parent nd_right].
  set (s2 := RbState _ _). assert (O2 : forall x, x <> sa -> rb_nodes s2 !! x = rb_nodes s1 !! x) by (intros x Hx; by apply lookup_insert_ne).
  assert (Hae : even a) by (rewrite Forall_app, Forall_cons in Ad; apply Ad).
  destruct (rep_reparent (rb_nodes s2) a sa l Hae Nl) as (nl & Hnl & Hl3); [|done|].
  { eapply rep_ext; [|exact Hl]. intros x Hx. destruct (Pl x Hx) as (? & ? & _ & ?). rewrite O2, Oa; auto. }
  rewrite (rbind _ _ _ _ _ (set_parent_run _ _ _ _ Hnl)). set (s3 := RbState _ _).
  assert (Hrl : root_of l ∈ inorder l) by (by destruct (root_in l)).
  assert (O3 : forall x, x ∉ inorder l -> rb_nodes s3 !! x = rb_nodes s2 !! x) by (intros x Hx; apply lookup_insert_ne; by intros <-).
  assert (Ha3 : rb_nodes s3 !! a = Some (RbNode (enc (ptr k) c) (root_of l) ra)) by (by rewrite O3, O2).
  rewrite (rbind _ _ _ _ _ (red_run _ _ _ Ha3)), enc_red by done.
  assert (Hs3 : rb_nodes s3 !! sa = Some (RbNode (enc (ptr k) cs) (root_of l) (root_of r'))) by (rewrite O3 by done; apply lookup_insert_eq).
  rewrite (rbind _ _ _ _ _ (set_color_run _ _ _ _ Hs3)). eexists. split; [done|]. rewrite enc_set_color by done. set (s4 := RbState _ _).
  assert (O4 : forall x, x <> sa -> rb_nodes s4 !! x = rb_nodes s3 !! x) by (intros x Hx; by apply lookup_insert_ne). split.
  - apply holds_plug. cbn [root_of inorder rep]. split_and!; try apply lookup_insert_eq.
    + apply (hangs_ext s1); [|done|exact Hh1]. intros x Hx. destruct (Pk x Hx) as (? & ? & _). rewrite O4, O3, O2; try done. intros Hx'.
      destruct (Dl x Hx'). apply elem_of_app. apply elem_of_app in Hx as [Hx|Hx]; [by left|right]. do 2 (apply elem_of_cons; right). apply elem_of_app. by right.
    + eapply rep_ext; [|exact Hl3]. intros x Hx. apply O4. intros ->. done.
    + eapply rep_ext; [|exact Hr']. intros x Hx. destruct (Pr x Hx) as (? & ? & _). rewrite O4, O3, O2; try done. intros Hx'. by apply (Dlr x).
    + rewrite <- app_assoc. cbn. eapply (NoDup_Permutation_remove a). exact Hnd.
    + rewrite <- app_assoc. cbn. rewrite !Forall_app, !Forall_cons in *. tauto.
  - intros x Hx. rewrite !elem_of_app, !elem_of_cons, elem_of_app in Hx.
    rewrite O4, O3, O2, Oa; try tauto. intros Hp%ptrs_in%elem_of_app. tauto.
Qed.
End Successor.

Lemma same_colors_refl k : same_colors k k.
Proof. by split. Qed.
Lemma same_colors_at ls c l a b k : same_colors (ls ++ FR c l a :: k) (ls ++ FR c l b :: k).
Proof.
  split; [|by destruct ls as [|[] ls]]. induction ls as [|f ls IH]; [done|]. intros n. cbn. intros [H1 H2]. split; [done|].
  destruct (frame_red f); [|by apply IH]. destruct H2 as (H2 & H3 & H4). split_and!; [done| |by apply IH]. by destruct ls as [|[] ls].
Qed.

Lemma plug_nonempty ls t : ls <> [] -> plug ls t <> E.
Proof. destruct ls as [|f ls]; [done|]. intros _. revert f t. induction ls as [|g ls IH]; intros f t; [by destruct f|]. destruct f as [c a r|c l a]; [apply (IH g (T c t a r))|apply (IH g (T c l a t))]. Qed.

(** The successor [sa] of [a], at the end of the path [ls] of left children, leaves its place. *)
Section Detach.
Context (k ls : list frame) (c cs : bool) (l sr : tree) (a sa : Z) (Hls : Forall is_FL ls).
Let t := plug k (T c l a (plug ls (T cs E sa sr))).
Let sp := ptr (ls ++ FR c l a :: k).

Lemma inorder_detach : inorder t = before k ++ inorder l ++ a :: sa :: inorder (plug ls sr) ++ after k.
Proof. subst t. rewrite !inorder_plug. cbn. rewrite !inorder_plug, (FL_before ls Hls). cbn. rewrite <- !app_assoc. cbn. by rewrite <- !app_assoc. Qed.

Lemma detach_near s : ls = [] -> holds s t ->
  exists s1, (if root_of sr =? 0 then mret tt else set_parent (root_of sr) sa) s = Some (tt, s1)
    /\ hangs s1 a k /\ rb_nodes s1 !! a = Some (RbNode (enc (ptr k) c) (root_of l) sa) /\ rep (rb_nodes s1) a l
    /\ rep (rb_nodes s1) a (T cs E sa sr) /\ outside (inorder sr) s s1.
Proof.
  intros El Hs. subst t. rewrite El in Hs. apply holds_plug in Hs as (Hh & (Ha & Hl & (Hsa & _ & Hsr)) & Hnd & Had). cbn in Hh, Hnd, Had.
  destruct (parts_apart k l a E sa sr) as (Pl & _ & Pr & Pk & (Das & _ & _ & Dpa & Dps) & _ & _ & Nr); [done..|].
  assert (Ar : Forall addr (inorder sr) /\ even sa) by (rewrite !Forall_app, !Forall_cons, ?Forall_app in Had; unfold addr in *; tauto).
  destruct (adopt_ok s sa sa sr (proj2 Ar) Hsr Nr (proj1 Ar)) as (s1 & E1 & Hr1 & R1 & O1). exists s1.
  assert (Dk : forall x, x ∈ before k ++ inorder l ++ [a; sa] ++ after k -> x ∉ inorder sr).
  { clear -Hnd. split_nodup. set_solver. }
  split_and!; try done.
  - apply (hangs_ext s); [|done|exact Hh]. intros x Hx. apply O1, Dk. set_solver.
  - rewrite O1; [done|]. apply Dk. set_solver.
  - eapply rep_ext; [|exact Hl]. intros x Hx. apply O1, Dk. set_solver.
  - cbn. split_and!; try done. rewrite O1; [done|]. apply Dk. set_solver.
Qed.

Lemma detach_far s : ls <> [] -> holds s t ->
  exists s1, (_ ← transplant sa (root_of sr); r ← right_of a; _ ← set_right sa r; _ ← set_parent r sa; mret sp) s = Some (sp, s1)
    /\ hangs s1 a k /\ rb_nodes s1 !! a = Some (RbNode (enc (ptr k) c) (root_of l) (root_of (plug ls sr))) /\ rep (rb_nodes s1) a l
    /\ rep (rb_nodes s1) (ptr ls) (T cs E sa (plug ls sr)) /\ outside (inorder t) s s1.
Proof.
  intros Hne Hs. pose proof Hs as [_ _ Hnd _]. rewrite inorder_detach in Hnd. assert (Ht : t = plug (ls ++ FR c l a :: k) (T cs E sa sr)) by (subst t; by rewrite plug_app).
  rewrite Ht in Hs. pose proof (node_at _ _ _ _ _ _ Hs) as Hsa.
  destruct (drop_ok s _ cs E sa sr sr Hs ltac:(by left)) as (s1 & E1 & H1 & O1). rewrite (rbind _ _ _ _ _ E1).
  rewrite plug_app in H1, O1. change (plug (FR c l a :: k) ?x) with (plug k (T c l a x)) in H1, O1. set (r' := plug ls sr) in *.
  assert (Hsa' : sa ∉ inorder (plug k (T c l a r')) /\ (forall x, x ∈ inorder (plug k (T c l a r')) -> x ∈ inorder t)).
  { rewrite inorder_detach. fold r'. rewrite inorder_plug. clear -Hnd. cbn. split_nodup. set_solver. }
  destruct Hsa' as [Nsa Hsub]. rewrite <- O1 in Hsa by done.
  assert (Hr' : r' <> E) by (by apply plug_nonempty).
  apply holds_plug in H1 as (Hh & (Ha & Hl & Hr) & Hnd1 & Had1). cbn in Hh.
  rewrite (rbind _ _ _ _ _ (right_run _ _ _ Ha)). cbn [nd_right]. rewrite (rbind _ _ _ _ _ (set_right_run _ _ _ _ Hsa)). unfold node_set_right. cbn [nd_parent nd_left].
  set (s2 := RbState _ _). assert (O2 : forall x, x <> sa -> rb_nodes s2 !! x = rb_nodes s1 !! x) by (intros x Hx; by apply lookup_insert_ne).
  assert (Hfacts : even a /\ NoDup (inorder r') /\ (forall x, x ∈ before k ++ inorder l ++ a :: after k -> x ∉ inorder r' /\ x <> sa) /\ sa ∉ inorder r').
  { split; [cbn in Had1; rewrite Forall_app, <- app_assoc, Forall_app, <- app_comm_cons, Forall_cons in Had1; apply Had1|].
    clear -Hnd. split_nodup. set_solver. }
  destruct Hfacts as (Hae & Nr & D & Nsr).
  destruct (rep_reparent (rb_nodes s2) a sa r' Hae Nr) as (nr & Hnr & Hr3); [|done|].
  { eapply rep_ext; [|exact Hr]. intros x Hx. apply O2. by intros ->. }
  rewrite (rbind _ _ _ _ _ (set_parent_run _ _ _ _ Hnr)). eexists. split; [done|]. set (s3 := RbState _ _).
  assert (Hrr : root_of r' ∈ inorder r') by (by destruct (root_in r')).
  assert (O3 : forall x, x ∉ inorder r' -> rb_nodes s3 !! x = rb_nodes s2 !! x) by (intros x Hx; apply lookup_insert_ne; by intros <-).
  assert (O : forall x, x ∈ before k ++ inorder l ++ a :: after k -> rb_nodes s3 !! x = rb_nodes s1 !! x) by (intros x Hx; rewrite O3, O2; [done|by apply D..]).
  split_and!.
  - apply (hangs_ext s1); [|done|exact Hh]. intros x Hx. apply O. clear -Hx. set_solver.
  - rewrite O; [exact Ha|]. clear. set_solver.
  - eapply rep_ext; [|exact Hl]. intros x Hx. apply O. clear -Hx. set_solver.
  - cbn [rep]. split_and!; [|done|exact Hr3]. rewrite O3 by done. subst s2. cbn. rewrite lookup_insert_eq. by destruct ls.
  - intros x Hx. rewrite inorder_detach in Hx, Hsub. rewrite O3, O2, O1; [done|..]; fold r' in Hx; clear -Hx Hsub; set_solver.
Qed.

Lemma detach_ok s : holds s t ->
  exists s1 q ra,
    (if sp =? a then _ ← (if root_of sr =? 0 then mret tt else set_parent (root_of sr) sa); mret sa
     else _ ← transplant sa (root_of sr); r ← right_of a; _ ← set_right sa r; _ ← set_parent r sa; mret sp) s
      = Some (ptr (ls ++ FR c l sa :: k), s1)
    /\ hangs s1 a k /\ rb_nodes s1 !! a = Some (RbNode (enc (ptr k) c) (root_of l) ra) /\ rep (rb_nodes s1) a l
    /\ rep (rb_nodes s1) q (T cs E sa (plug ls sr)) /\ even q /\ outside (inorder t) s s1.
Proof.
  intros Hs. pose proof Hs as [_ _ Hnd Had]. rewrite inorder_detach in Hnd, Had. assert (Hae : even a) by (rewrite !Forall_app, Forall_cons in Had; apply Had).
  destruct (decide (ls = [])) as [El|El].
  - destruct (detach_near s El Hs) as (s1 & E1 & H1 & H2 & H3 & H4 & O1). exists s1, a, sa. subst sp. rewrite El. cbn. rewrite Z.eqb_refl, (rbind _ _ _ _ _ E1).
    refine (conj eq_refl (conj H1 (conj H2 (conj H3 (conj H4 (conj Hae _)))))). intros x Hx. apply O1. rewrite inorder_detach, El in Hx. cbn in Hx. clear -Hx. set_solver.
  - destruct (detach_far s El Hs) as (s1 & E1 & H1 & H2 & H3 & H4 & O1). exists s1, (ptr ls), (root_of (plug ls sr)).
    assert (Hin : ptr ls ∈ inorder (plug ls sr)).
    { rewrite inorder_plug. pose proof (ptr_in ls El) as Hp. clear -Hp. set_solver. }
    assert (Hsp : ptr ls <> a /\ even (ptr ls)).
    { rewrite Forall_forall in Had. split; [|apply Had; clear -Hin; set_solver]. intros Ea. rewrite Ea in Hin. clear -Hin Hnd. split_nodup. set_solver. }
    destruct Hsp as [Hsp Hev]. assert (Hs1 : sp = ptr ls) by (subst sp; by destruct ls). rewrite (proj2 (Z.eqb_neq sp a)) by congruence.
    rewrite E1. split_and!; try done. by destruct ls.
Qed.
End Detach.

(** [remove] of a node with two children, and of any node *)
Lemma inner_ok n s k c l a r : holds s (plug k (T c l a r)) -> is_rb (plug k (T c l a r)) -> l <> E -> r <> E -> (length (inorder r) <= n)%nat ->
  exists cs v k' s', remove_inner n a (root_of r) s = Some ((cs, root_of v, ptr k'), s') /\ holds s' (plug k' v)
    /\ inorder (plug k' v) = before k ++ inorder l ++ inorder r ++ after k /\ outside (inorder (plug k (T c l a r))) s s'
    /\ if cs then is_rb (plug k' v) else short_at k' v (plug k' v).
Proof.
  intros Hs Hrb Hl Hr Hn. destruct (leftmost_ok n s (FR c l a :: k) r Hs Hr Hn) as (ls & cs & sa & sr & Em & -> & Hls).
  assert (Ht : plug k (T c l a (plug ls (T cs E sa sr))) = plug (ls ++ FR c l a :: k) (T cs E sa sr)) by (by rewrite plug_app).
  pose proof Hs as Hs2. rewrite Ht in Hs2. pose proof (node_at _ _ _ _ _ _ Hs2) as Hsa. pose proof (focus_even _ _ _ _ _ _ Hs2) as He.
  destruct (detach_ok k ls c cs l sr a sa Hls s Hs) as (s1 & q & ra & E1 & Hh & Ha & Hl1 & Hr1 & Hq & O1).
  pose proof Hs as [_ _ Hnd Had]. rewrite inorder_detach in Hnd, Had by done.
  destruct (successor_ok k c cs l (plug ls sr) a sa q ra (cs, root_of sr, ptr (ls ++ FR c l sa :: k)) s1 Hh Ha Hl1 Hr1 Hq Hnd Had Hl) as (s2 & E2 & H2 & O2).
  exists cs, sr, (ls ++ FR c l sa :: k), s2. split_and!.
  - unfold remove_inner. rewrite (rbind _ _ _ _ _ Em), (rbind _ _ _ _ _ (red_run _ _ _ Hsa)), (rbind _ _ _ _ _ (right_run _ _ _ Hsa)).
    rewrite (rbind _ _ _ _ _ (parent_run _ _ _ Hsa)), enc_red, enc_parent by done. cbn [nd_right]. rewrite (rbind _ _ _ _ _ E1). exact E2.
  - by rewrite plug_app.
  - rewrite plug_app, !inorder_plug. cbn. rewrite (FL_before ls Hls). cbn. by rewrite <- !app_assoc.
  - intros x Hx. rewrite O2, O1; [done|exact Hx|]. by rewrite inorder_detach in Hx.
  - apply (drop_rb (ls ++ FR c l a :: k) _ cs E sa sr sr); [apply same_colors_at|by rewrite <- Ht|by left].
Qed.

Lemma focus a t : a ∈ inorder t -> exists k c l r, t = plug k (T c l a r).
Proof.
  enough (H : forall k, a ∈ inorder t -> exists k' c l r, plug k t = plug k' (T c l a r)) by apply (H []).
  induction t as [|c l IHl b r IHr]; cbn [inorder]; intros k; [by intros ?%elem_of_nil|]. intros [Ha|[->|Ha]%elem_of_cons]%elem_of_app.
  - apply (IHl (FL c b r :: k) Ha).
  - by exists k, c, l, r.
  - apply (IHr (FR c l b :: k) Ha).
Qed.

(** Before [fix_remove]: the node is out of the tree, and a black node may be missing on a path. *)
Lemma unlink_ok s k c l a r : holds s (plug k (T c l a r)) -> is_rb (plug k (T c l a r)) ->
  exists cs v k' s',
    (if root_of l =? 0 then _ ← transplant a (root_of r); mret (c, root_of r, ptr k)
     else if root_of r =? 0 then _ ← transplant a (root_of l); mret (c, root_of l, ptr k)
     else remove_inner (size (rb_nodes s)) a (root_of r)) s = Some ((cs, root_of v, ptr k'), s')
    /\ holds s' (plug k' v) /\ inorder (plug k' v) = before k ++ inorder l ++ inorder r ++ after k
    /\ outside (inorder (plug k (T c l a r))) s s' /\ if cs then is_rb (plug k' v) else short_at k' v (plug k' v).
Proof.
  intros Hs Hrb. assert (Hdrop : forall v, (l = E /\ v = r \/ r = E /\ v = l) -> exists s', (_ ← transplant a (root_of v); mret (c, root_of v, ptr k)) s = Some ((c, root_of v, ptr k), s')
    /\ holds s' (plug k v) /\ inorder (plug k v) = before k ++ inorder l ++ inorder r ++ after k
    /\ outside (inorder (plug k (T c l a r))) s s' /\ if c then is_rb (plug k v) else short_at k v (plug k v)).
  { intros v Hv. destruct (drop_ok s k c l a r v Hs Hv) as (s' & E' & H' & O'). exists s'. rewrite (rbind _ _ _ _ _ E'). split_and!; try done.
    - rewrite inorder_plug. by destruct Hv as [[-> ->]|[-> ->]].
    - intros x Hx. apply O'. intros Hx'. apply Hx. rewrite inorder_plug in Hx' |- *. clear -Hx' Hv. destruct Hv as [[-> ->]|[-> ->]]; cbn; set_solver.
    - by apply (drop_rb k k c l a r v); [apply same_colors_refl|..]. }
  assert (Hz : forall u, root_of u =? 0 = true -> (u = l \/ u = r) -> u = E).
  { intros [|uc ul ua ur] Hu Hin; [done|]. exfalso. apply Z.eqb_eq in Hu. cbn in Hu. destruct Hs as [_ _ _ Had]. rewrite Forall_forall in Had.
    destruct (Had ua) as [Hua _]; [|done]. rewrite inorder_plug. clear -Hin. destruct Hin as [<-|<-]; cbn; set_solver. }
  destruct (root_of l =? 0) eqn:El; [|destruct (root_of r =? 0) eqn:Er].
  - apply Hz in El; [|by left]. destruct (Hdrop r ltac:(by left)) as (s' & H). by exists c, r, k, s'.
  - apply Hz in Er; [|by right]. destruct (Hdrop l ltac:(by right)) as (s' & H). by exists c, l, k, s'.
  - apply inner_ok; [done|done|by intros ->|by intros ->|]. pose proof (count_le _ _ Hs) as Hn. rewrite inorder_plug in Hn. cbn in Hn.
    rewrite !length_app in Hn. cbn in Hn. lia.
Qed.

Lemma remove_ok s t a : holds s t -> is_rb t -> a ∈ inorder t ->
  exists s' t' l1 l2, remove a s = Some (tt, s') /\ holds s' t' /\ is_rb t' /\ inorder t = l1 ++ a :: l2 /\ inorder t' = l1 ++ l2
    /\ outside (inorder t) s s'.
Proof.
  intros Hs Hrb (k & c & l & r & ->)%focus. pose proof (node_at _ _ _ _ _ _ Hs) as Ha. pose proof (focus_even _ _ _ _ _ _ Hs) as He.
  destruct (unlink_ok s k c l a r Hs Hrb) as (cs & v & k' & s1 & E1 & H1 & I1 & O1 & C1).
  assert (It : inorder (plug k (T c l a r)) = (before k ++ inorder l) ++ a :: inorder r ++ after k).
  { rewrite inorder_plug. cbn. by rewrite <- !app_assoc. }
  assert (Hrun : remove a s = (if cs then mret tt else fix_remove (S (size (rb_nodes s))) (root_of v) (ptr k')) s1).
  { unfold remove. rewrite (rbind _ _ _ _ _ (eq_refl : node_count s = Some (size (rb_nodes s), s))).
    rewrite (rbind _ _ _ _ _ (parent_run _ _ _ Ha)), (rbind _ _ _ _ _ (red_run _ _ _ Ha)), (rbind _ _ _ _ _ (left_run _ _ _ Ha)), (rbind _ _ _ _ _ (right_run _ _ _ Ha)).
    rewrite enc_red, enc_parent by done. cbn [nd_left nd_right]. by rewrite (rbind _ _ _ _ _ E1). }
  rewrite Hrun. enough (H : exists s' t', (if cs then mret tt else fix_remove (S (size (rb_nodes s))) (root_of v) (ptr k')) s1 = Some (tt, s')
    /\ holds s' t' /\ is_rb t' /\ inorder t' = inorder (plug k' v) /\ outside (inorder (plug k' v)) s1 s').
  { destruct H as (s' & t' & E' & H' & R' & I' & O'). exists s', t', (before k ++ inorder l), (inorder r ++ after k). split_and!; try done.
    - by rewrite I', I1, <- app_assoc.
    - intros x Hx. rewrite O', O1; [done|done|]. rewrite It in Hx. rewrite I1. clear -Hx. set_solver. }
  destruct cs; [by exists s1, (plug k' v)|]. destruct (fix_remove_ok (S (size (rb_nodes s))) k' v _ C1) with (s := s1) as (u & s' & t' & E' & H'); [|done|].
  - pose proof (count_le _ _ Hs) as Hn. rewrite It in Hn. pose proof (length_ctx k') as Hk. apply (f_equal length) in I1. rewrite inorder_plug in I1.
    rewrite !length_app in I1, Hn. cbn in Hn. rewrite !length_app in Hn. repeat rewrite length_app in I1. destruct (red_root v); lia.
  - destruct u. exists s', t'. tauto.
Qed.
