(* ===== verification/RbTreeFind.v ===== *)
(** * Searching and iterating (libs/sysroot/include/pmos/containers/intrusive_bst.hh)

    What [find], [get_smaller_or_equal], [lower_bound] and [less_or_equal] give in an ordered
    tree, what [begin], [++] and [--] visit, and how many nodes a search looks at.  Going down is
    moving the focus of a context: the nodes before and after the focus are decided. *)

From Stdlib Require Import ZArith Lia List Sorted.
From stdpp Require Import base list gmap sorting.
From S2P Require Import RbTree RbTreeInv RbTreeOps.
Open Scope Z_scope.

Definition hd0 (l : list Z) : Z := match l with [] => 0 | x :: _ => x end.
Definition last0 (l : list Z) : Z := default 0 (last l).

Lemma last0_app l a : last0 (l ++ [a]) = a.
Proof. unfold last0. by rewrite last_snoc. Qed.
Lemma hd0_app l l' : l <> [] -> hd0 (l ++ l') = hd0 l.
Proof. by destruct l. Qed.
Lemma last0_app_ne l l' : l' <> [] -> last0 (l ++ l') = last0 l'.
Proof. unfold last0. intros H. rewrite last_app. destruct (last l') eqn:E; [done|]. by apply last_None in E. Qed.

(** ** Searching *)

Section Search.
Context (key : Z -> Z) (s : rb_state) (v : Z).

(** Every node outside the focus compares as the search found. *)
Definition narrows (k : list frame) : Prop :=
  Forall (fun x => key x < v) (before k) /\ Forall (fun x => v < key x) (after k).

Fixpoint height (t : tree) : nat := match t with E => O | T _ l _ r => S (height l `max` height r) end.

Lemma narrows_left k c l a r : ordered key (inorder (plug k (T c l a r))) -> narrows k -> v < key a -> narrows (FL c a r :: k).
Proof.
  intros Ho [Hb Ha] Hv. split; [done|]. cbn. constructor; [done|]. apply Forall_app. split; [|done].
  rewrite inorder_plug in Ho. cbn in Ho. apply ordered_app in Ho as (_ & [Ho _]%ordered_app & _). rewrite (cons_middle a (inorder l)) in Ho.
  apply ordered_app in Ho as (_ & Ho & _). cbn in Ho. apply Forall_forall. intros x Hx.
  apply (ordered_app key [a]) in Ho as (_ & _ & Ho). specialize (Ho a x ltac:(set_solver) Hx). lia.
Qed.
Lemma narrows_right k c l a r : ordered key (inorder (plug k (T c l a r))) -> narrows k -> key a < v -> narrows (FR c l a :: k).
Proof.
  intros Ho [Hb Ha] Hv. split; [|done]. cbn. rewrite !Forall_app. split_and!; [done| |by apply Forall_singleton].
  rewrite inorder_plug in Ho. cbn in Ho. apply ordered_app in Ho as (_ & [Ho _]%ordered_app & _).
  apply ordered_app in Ho as (_ & _ & Ho). apply Forall_forall. intros x Hx. specialize (Ho x a Hx ltac:(set_solver)). lia.
Qed.

(** Where a search ends: at a node with the key, or between two nodes *)
Inductive ends (t : tree) (none : list Z -> list Z -> Z) (x : Z) : Prop :=
  | ends_at : x ∈ inorder t -> key x = v -> ends t none x
  | ends_between l1 l2 : inorder t = l1 ++ l2 -> Forall (fun y => key y < v) l1 -> Forall (fun y => v < key y) l2 -> x = none l1 l2 -> ends t none x.

(** The loops go down the same way, and remember a node when they turn left or right. *)
Section Descend.
Context (onl onr : Z -> Z -> Z).
Fixpoint descend (fuel : nat) (result current : Z) : R Z :=
  if current =? 0 then mret result
  else match fuel with
       | O => out_of_fuel
       | S fuel =>
           if v <? key current then l ← left_of current; descend fuel (onl result current) l
           else if key current <? v then r ← right_of current; descend fuel (onr result current) r
           else mret current
       end.

Context (none : list Z -> list Z -> Z).
Context (onl_ok : forall l1 l2 a l, none l1 (a :: l) = onl (none l1 l2) a).
Context (onr_ok : forall l1 l1' l2 a, none (l1 ++ [a]) l2 = onr (none l1' l2) a).

Lemma descend_ok fuel k u : holds s (plug k u) -> ordered key (inorder (plug k u)) -> narrows k -> (height u <= fuel)%nat ->
  exists x, descend fuel (none (before k) (after k)) (root_of u) s = Some (x, s) /\ ends (plug k u) none x.
Proof.
  revert k fuel. induction u as [|c l IHl a r IHr]; intros k fuel Hs Ho Hk Hf.
  - exists (none (before k) (after k)). split; [by destruct fuel|]. destruct Hk. eapply ends_between; [apply inorder_plug|done..].
  - cbn in Hf. destruct fuel as [|fuel]; [lia|]. pose proof (node_at _ _ _ _ _ _ Hs) as Ha. assert (Hz : a <> 0) by (apply (node_nonzero k c l a r), Hs).
    cbn [descend root_of]. rewrite (proj2 (Z.eqb_neq a 0) Hz). destruct (Z.ltb_spec v (key a)) as [Hv|Hv]; [|destruct (Z.ltb_spec (key a) v) as [Hv'|Hv']].
    + rewrite (rbind _ _ _ _ _ (left_run _ _ _ Ha)), <- (onl_ok _ _ _ (inorder r ++ after k)).
      apply (IHl (FL c a r :: k)); [done..|by eapply narrows_left|lia].
    + rewrite (rbind _ _ _ _ _ (right_run _ _ _ Ha)), <- (onr_ok (before k ++ inorder l)), <- app_assoc.
      apply (IHr (FR c l a :: k)); [done..|by eapply narrows_right|lia].
    + exists a. split; [done|]. apply ends_at; [|lia]. rewrite inorder_plug. clear. cbn. set_solver.
Qed.
End Descend.

Lemma height_count t : (height t <= length (inorder t))%nat.
Proof. induction t as [|c l IHl a r IHr]; [done|]. cbn. rewrite length_app. cbn. lia. Qed.

(** A loop that agrees with [descend] *)
Lemma bind_ext {A B} (c : R A) (f g : A -> R B) st : (forall a st', f a st' = g a st') -> (c ≫= f) st = (c ≫= g) st.
Proof. intros H. unfold mbind, R_bind. destruct (c st) as [[a st']|]; [apply H|done]. Qed.

Lemma find_descend fuel current st : find_from key fuel v current st = descend (fun r _ => r) (fun r _ => r) fuel 0 current st.
Proof.
  revert current st. induction fuel as [|fuel IH]; intros current st; cbn; [done|].
  destruct (current =? 0); [done|]. destruct (v <? key current); [|destruct (key current <? v); [|done]]; apply bind_ext; intros; apply IH.
Qed.
Lemma smaller_descend fuel result current st : smaller_from key fuel v result current st = descend (fun r _ => r) (fun _ a => a) fuel result current st.
Proof.
  revert result current st. induction fuel as [|fuel IH]; intros result current st; cbn; [done|].
  destruct (current =? 0); [done|]. destruct (Z.ltb_spec (key current) v), (Z.ltb_spec v (key current)); try lia; try done; apply bind_ext; intros; apply IH.
Qed.
Lemma lower_descend fuel result current st : lower_bound_from key fuel v result current st = descend (fun _ a => a) (fun r _ => r) fuel result current st.
Proof.
  revert result current st. induction fuel as [|fuel IH]; intros result current st; cbn; [done|].
  destruct (current =? 0); [done|]. destruct (Z.ltb_spec (key current) v), (Z.ltb_spec v (key current)); try lia; try done; apply bind_ext; intros; apply IH.
Qed.

Section Tree.
Context (t : tree) (Hs : holds s t) (Ho : ordered key (inorder t)).

Lemma narrows_nil : narrows [].
Proof. by split. Qed.

Lemma root_eq : rb_root s = root_of t.
Proof. by destruct Hs. Qed.

(** With fuel for the height of the tree *)
Lemma find_from_ok fuel : (height t <= fuel)%nat -> exists x, find_from key fuel v (rb_root s) s = Some (x, s) /\ ends t (fun _ _ => 0) x.
Proof. intros Hf. rewrite root_eq, find_descend. by apply (descend_ok (fun r _ => r) (fun r _ => r) (fun _ _ => 0) ltac:(done) ltac:(done) fuel [] t Hs Ho narrows_nil). Qed.
Lemma smaller_from_ok fuel : (height t <= fuel)%nat -> exists x, smaller_from key fuel v 0 (rb_root s) s = Some (x, s) /\ ends t (fun l1 _ => last0 l1) x.
Proof.
  intros Hf. rewrite root_eq, smaller_descend.
  by apply (descend_ok (fun r _ => r) (fun _ a => a) (fun l1 _ => last0 l1) ltac:(done) ltac:(intros; apply last0_app) fuel [] t Hs Ho narrows_nil).
Qed.
Lemma lower_from_ok fuel : (height t <= fuel)%nat -> exists x, lower_bound_from key fuel v 0 (rb_root s) s = Some (x, s) /\ ends t (fun _ l2 => hd0 l2) x.
Proof.
  intros Hf. rewrite root_eq, lower_descend.
  by apply (descend_ok (fun _ a => a) (fun r _ => r) (fun _ l2 => hd0 l2) ltac:(done) ltac:(done) fuel [] t Hs Ho narrows_nil).
Qed.

Lemma enough_nodes : (height t <= size (rb_nodes s))%nat.
Proof. pose proof (height_count t). pose proof (count_le _ _ Hs). lia. Qed.

Lemma find_ok : exists x, find key v s = Some (x, s) /\ ends t (fun _ _ => 0) x.
Proof. apply (find_from_ok _ enough_nodes). Qed.
Lemma smaller_ok : exists x, get_smaller_or_equal key v s = Some (x, s) /\ ends t (fun l1 _ => last0 l1) x.
Proof. apply (smaller_from_ok _ enough_nodes). Qed.
Lemma lower_ok : exists x, lower_bound key v s = Some (x, s) /\ ends t (fun _ l2 => hd0 l2) x.
Proof. apply (lower_from_ok _ enough_nodes). Qed.
End Tree.

(** [less_or_equal] stays at a node with the key. *)
Lemma less_or_equal_stuck fuel result a : a <> 0 -> key a = v -> less_or_equal_from key fuel v result a s = None.
Proof.
  intros Hz Hv. induction fuel as [|fuel IH]; cbn; rewrite (proj2 (Z.eqb_neq a 0) Hz); [done|].
  by rewrite Hv, Z.ltb_irrefl.
Qed.
Lemma less_or_equal_diverges fuel result k u : holds s (plug k u) -> ordered key (inorder (plug k u)) -> narrows k -> v ∈ map key (inorder (plug k u)) ->
  less_or_equal_from key fuel v result (root_of u) s = None.
Proof.
  revert fuel result k. induction u as [|c l IHl a r IHr]; intros fuel result k Hs Ho Hk Hin.
  - exfalso. destruct Hk as [Hb Ha]. apply list_elem_of_fmap in Hin as (x & -> & Hx). rewrite inorder_plug in Hx. cbn in Hx.
    rewrite Forall_forall in Hb, Ha. apply elem_of_app in Hx as [Hx%Hb|Hx%Ha]; cbn in Hx; lia.
  - pose proof (node_at _ _ _ _ _ _ Hs) as Ha. assert (Hz : a <> 0) by (apply (node_nonzero k c l a r), Hs).
    destruct fuel as [|fuel]; cbn [root_of less_or_equal_from]; rewrite (proj2 (Z.eqb_neq a 0) Hz); [done|].
    destruct (Z.ltb_spec v (key a)) as [Hv|Hv]; [|destruct (Z.ltb_spec (key a) v) as [Hv'|Hv']].
    + rewrite (rbind _ _ _ _ _ (left_run _ _ _ Ha)). apply (IHl fuel result (FL c a r :: k)); [done..|by eapply narrows_left|done].
    + rewrite (rbind _ _ _ _ _ (right_run _ _ _ Ha)). apply (IHr fuel a (FR c l a :: k)); [done..|by eapply narrows_right|done].
    + apply less_or_equal_stuck; [done|lia].
Qed.
End Search.

(** ** How far a search goes down *)

Lemma rb_height t n : rb t n -> (height t <= 2 * n + (if red_root t then 1 else 0))%nat.
Proof. induction 1 as [|l a r n Hl IHl Hr IHr Rl Rr|c' l a r n]; cbn in *; rewrite ?Rl, ?Rr in *; repeat case_match; lia. Qed.
Lemma rb_count t n : rb t n -> (2 ^ n <= S (length (inorder t)))%nat.
Proof. induction 1; cbn in *; rewrite ?length_app; cbn; lia. Qed.

Lemma height_log t : is_rb t -> (height t <= 2 * Nat.log2 (S (length (inorder t))))%nat.
Proof.
  intros [Hr [n Hn]]. pose proof (rb_height t n Hn) as Hh. rewrite Hr in Hh. pose proof (Nat.log2_le_mono _ _ (rb_count t n Hn)) as Hl.
  rewrite Nat.log2_pow2 in Hl; lia.
Qed.

(** ** Iteration *)

Lemma split_unique (a : Z) x y l1 l2 : NoDup (x ++ a :: y) -> x ++ a :: y = l1 ++ a :: l2 -> l1 = x /\ l2 = y.
Proof.
  revert l1. induction x as [|b x IH]; intros [|d l1] Hnd Hi; cbn in *; inversion Hi; subst; apply NoDup_cons in Hnd as [Hn Hnd].
  - done.
  - destruct Hn. clear. set_solver.
  - destruct Hn. clear. set_solver.
  - destruct (IH l1) as [-> ->]; done.
Qed.

Section Iterate.
Context (s : rb_state).

Lemma rightmost_ok fuel k u : holds s (plug k u) -> u <> E -> (length (inorder u) <= fuel)%nat ->
  rightmost fuel (root_of u) s = Some (last0 (inorder u), s).
Proof.
  revert k u. induction fuel as [|fuel IH]; intros k u Hs Hu Hlen; (destruct u as [|c l a r]; [done|]); cbn in Hlen; rewrite length_app in Hlen; cbn in Hlen; [lia|].
  cbn [rightmost root_of inorder]. pose proof (node_at _ _ _ _ _ _ Hs) as Ha. rewrite (rbind _ _ _ _ _ (right_run _ _ _ Ha)). cbn [nd_right].
  destruct r as [|rc rl ra rr].
  - cbn. by rewrite last0_app.
  - assert (Hra : ra <> 0) by (apply (node_nonzero (FR c l a :: k) rc rl ra rr); apply Hs). cbn [root_of]. rewrite (proj2 (Z.eqb_neq ra 0)) by done.
    rewrite cons_middle, app_assoc, last0_app_ne by (cbn; by intros [_ ?]%app_nil). apply (IH (FR c l a :: k) (T rc rl ra rr)); [done|done|lia].
Qed.

Lemma leftmost_hd fuel k u : holds s (plug k u) -> u <> E -> (length (inorder u) <= fuel)%nat ->
  leftmost fuel (root_of u) s = Some (hd0 (inorder u), s).
Proof.
  intros Hs Hu Hf. destruct (leftmost_ok fuel s k u Hs Hu Hf) as (ls & c & a & r & Em & -> & Hls). rewrite Em, inorder_plug, (FL_before ls Hls). done.
Qed.

(** The roots of the two subtrees of a node are different. *)
Lemma brothers k c l a r : holds s (plug k (T c l a r)) -> l <> E \/ r <> E -> root_of l <> root_of r.
Proof.
  intros [_ _ Hnd Had] Hne Heq. rewrite inorder_plug in Hnd, Had. cbn in Hnd, Had. rewrite Forall_forall in Had. destruct l as [|lc ll la lr], r as [|rc rl ra rr]; cbn in Heq.
  - by destruct Hne.
  - subst ra. destruct (Had 0); [|done]. clear. cbn. set_solver.
  - subst la. destruct (Had 0); [|done]. clear. cbn. set_solver.
  - subst ra. clear -Hnd. cbn in Hnd. split_nodup. set_solver.
Qed.

Lemma up_from_right_ok fuel k u : holds s (plug k u) -> u <> E -> (length k <= fuel)%nat ->
  up_from_right fuel (root_of u) (ptr k) s = Some (hd0 (after k), s).
Proof.
  revert k u. induction fuel as [|fuel IH]; intros k u Hs Hu Hf; destruct k as [|f k]; [done|cbn in Hf; lia|done|]. cbn in Hf. destruct f as [c a r|c l a]; cbn [up_from_right ptr frame_addr].
  - pose proof (node_at s k c u a r Hs) as Ha. rewrite (proj2 (Z.eqb_neq a 0)) by (apply (node_nonzero k c u a r), Hs).
    rewrite (rbind _ _ _ _ _ (right_run _ _ _ Ha)). cbn [nd_right]. rewrite (proj2 (Z.eqb_neq _ _)); [done|]. apply (brothers k c u a r Hs). by left.
  - pose proof (node_at s k c l a u Hs) as Ha. rewrite (proj2 (Z.eqb_neq a 0)) by (apply (node_nonzero k c l a u), Hs).
    rewrite (rbind _ _ _ _ _ (right_run _ _ _ Ha)). cbn [nd_right]. rewrite Z.eqb_refl, (rbind _ _ _ _ _ (parent_run _ _ _ Ha)).
    rewrite enc_parent by (apply (focus_even k c l a u s Hs)). apply (IH k (T c l a u)); [exact Hs|done|lia].
Qed.
Lemma up_from_left_ok fuel k u : holds s (plug k u) -> u <> E -> (length k <= fuel)%nat ->
  up_from_left fuel (root_of u) (ptr k) s = Some (last0 (before k), s).
Proof.
  revert k u. induction fuel as [|fuel IH]; intros k u Hs Hu Hf; destruct k as [|f k]; [done|cbn in Hf; lia|done|]. cbn in Hf. destruct f as [c a r|c l a]; cbn [up_from_left ptr frame_addr].
  - pose proof (node_at s k c u a r Hs) as Ha. rewrite (proj2 (Z.eqb_neq a 0)) by (apply (node_nonzero k c u a r), Hs).
    rewrite (rbind _ _ _ _ _ (left_run _ _ _ Ha)). cbn [nd_left]. rewrite Z.eqb_refl, (rbind _ _ _ _ _ (parent_run _ _ _ Ha)).
    rewrite enc_parent by (apply (focus_even k c u a r s Hs)). apply (IH k (T c u a r)); [exact Hs|done|lia].
  - pose proof (node_at s k c l a u Hs) as Ha. rewrite (proj2 (Z.eqb_neq a 0)) by (apply (node_nonzero k c l a u), Hs).
    rewrite (rbind _ _ _ _ _ (left_run _ _ _ Ha)). cbn [nd_left before]. rewrite (proj2 (Z.eqb_neq _ _)), app_assoc, last0_app; [done|].
    intros H. symmetry in H. revert H. apply (brothers k c l a u Hs). by right.
Qed.
End Iterate.

Section Steps.
Context (s : rb_state) (t : tree) (Hs : holds s t).

Lemma begin_ok : begin s = Some (hd0 (inorder t), s).
Proof.
  unfold begin. rewrite (rbind _ _ _ _ _ (eq_refl : node_count s = Some (size (rb_nodes s), s))), (rbind _ _ _ _ _ (eq_refl : get_root s = Some (rb_root s, s))).
  rewrite (root_eq s t Hs). destruct t as [|c l a r] eqn:Et; [done|]. rewrite (proj2 (Z.eqb_neq _ 0)) by (apply (node_nonzero [] c l a r), Hs).
  apply (leftmost_hd s _ [] (T c l a r)); [exact Hs|done|]. apply (count_le _ _ Hs).
Qed.

(** The focus at a node, with what is on both sides of it *)
Lemma focus_split a l1 l2 : inorder t = l1 ++ a :: l2 ->
  exists k c l r, t = plug k (T c l a r) /\ l1 = before k ++ inorder l /\ l2 = inorder r ++ after k.
Proof.
  intros Hi. destruct (focus a t) as (k & c & l & r & Et); [rewrite Hi; clear; set_solver|]. exists k, c, l, r. split; [done|].
  pose proof Hs as [_ _ Hnd _]. rewrite Et, inorder_plug in Hi. cbn in Hi. rewrite Et, inorder_plug in Hnd. cbn in Hnd. rewrite <- app_assoc, <- app_comm_cons, app_assoc in Hi, Hnd.
  destruct (split_unique _ _ _ _ _ Hnd Hi). done.
Qed.

Lemma ctx_count k u : t = plug k u -> (length k <= size (rb_nodes s))%nat /\ (length (inorder u) <= size (rb_nodes s))%nat.
Proof.
  intros ->. pose proof (count_le _ _ Hs) as Hn. rewrite inorder_plug in Hn. repeat rewrite length_app in Hn. pose proof (length_ctx k). lia.
Qed.

Lemma next_ok a l1 l2 : inorder t = l1 ++ a :: l2 -> next a s = Some (hd0 l2, s).
Proof.
  intros (k & c & l & r & Et & -> & ->)%focus_split. destruct (ctx_count _ _ Et) as [Nk Nr]. cbn in Nr. rewrite length_app in Nr. cbn in Nr. pose proof Hs as H. rewrite Et in H.
  pose proof (node_at _ _ _ _ _ _ H) as Ha. unfold next. rewrite (rbind _ _ _ _ _ (eq_refl : node_count s = Some (size (rb_nodes s), s))), (rbind _ _ _ _ _ (right_run _ _ _ Ha)).
  cbn [nd_right]. destruct r as [|rc rl ra rr].
  - cbn [root_of Z.eqb]. rewrite (rbind _ _ _ _ _ (parent_run _ _ _ Ha)), enc_parent by apply (focus_even _ _ _ _ _ _ H).
    by apply (up_from_right_ok s _ k (T c l a E)).
  - rewrite (proj2 (Z.eqb_neq _ 0)) by (apply (node_nonzero (FR c l a :: k) rc rl ra rr), H). rewrite hd0_app by (cbn; by intros [_ ?]%app_nil).
    apply (leftmost_hd s _ (FR c l a :: k)); [exact H|done|lia].
Qed.

Lemma prev_ok a l1 l2 : inorder t = l1 ++ a :: l2 -> prev a s = Some (last0 l1, s).
Proof.
  intros (k & c & l & r & Et & -> & ->)%focus_split. destruct (ctx_count _ _ Et) as [Nk Nr]. cbn in Nr. rewrite length_app in Nr. cbn in Nr. pose proof Hs as H. rewrite Et in H.
  pose proof (node_at _ _ _ _ _ _ H) as Ha. unfold prev. rewrite (rbind _ _ _ _ _ (eq_refl : node_count s = Some (size (rb_nodes s), s))), (rbind _ _ _ _ _ (left_run _ _ _ Ha)).
  cbn [nd_left]. destruct l as [|lc ll la lr].
  - cbn [root_of Z.eqb]. rewrite (rbind _ _ _ _ _ (parent_run _ _ _ Ha)), enc_parent by apply (focus_even _ _ _ _ _ _ H).
    rewrite app_nil_r. by apply (up_from_left_ok s _ k (T c E a r)).
  - rewrite (proj2 (Z.eqb_neq _ 0)) by (apply (node_nonzero (FL c a r :: k) lc ll la lr), H). rewrite last0_app_ne by (cbn; by intros [_ ?]%app_nil).
    apply (rightmost_ok s _ (FL c a r :: k)); [exact H|done|lia].
Qed.

(** [erase] at an iterator *)
Lemma erase_ok a l1 l2 : is_rb t -> inorder t = l1 ++ a :: l2 ->
  exists s' t', erase a s = Some (hd0 l2, s') /\ holds s' t' /\ is_rb t' /\ inorder t' = l1 ++ l2 /\ outside (inorder t) s s'.
Proof.
  intros Hrb Hi. destruct (remove_ok s t a Hs Hrb) as (s' & t' & m1 & m2 & E' & H' & R' & I & I' & O'); [rewrite Hi; clear; set_solver|].
  pose proof Hs as [_ _ Hnd Had]. rewrite I in Hi, Hnd. destruct (split_unique a m1 m2 l1 l2 Hnd Hi) as [-> ->]. exists s', t'. split_and!; try done.
  unfold erase. assert (Ha : a <> 0) by (rewrite Forall_forall in Had; apply Had; rewrite I; clear; set_solver).
  by rewrite (proj2 (Z.eqb_neq a 0) Ha), (rbind _ _ _ _ _ (next_ok a _ _ I)), (rbind _ _ _ _ _ E').
Qed.
End Steps.
