(* ===== verification/RbTreeSpec.v ===== *)
(** * Red-black trees: what they promise

    The operations of intrusive_bst.hh on the heap, against lists in the order of the keys
    and against the tables by identifier that the kernel uses them as (Rights): every
    operation returns, the tree stays red-black, and a search looks at a logarithmic number
    of nodes. *)

From Stdlib Require Import ZArith Lia List Sorted.
From stdpp Require Import base list gmap sorting.
From S2P Require Import ListFacts Rights RightsOps RbTree RbTreeInv RbTreeOps RbTreeFind.
Open Scope Z_scope.

(** ** The memory of nodes stays *)

Definition keeps {A} (c : R A) : Prop := forall s a s', c s = Some (a, s') -> forall x, is_Some (rb_nodes s !! x) -> is_Some (rb_nodes s' !! x).

Create HintDb keeps discriminated.

Lemma keeps_ret {A} (a : A) : keeps (mret a).
Proof. by intros s b s' [= <- <-]. Qed.
Lemma keeps_bind {A B} (c : R A) (f : A -> R B) : keeps c -> (forall a, keeps (f a)) -> keeps (c ≫= f).
Proof.
  intros Hc Hf s b s' E'. unfold mbind, R_bind in E'. destruct (c s) as [[a s1]|] eqn:Ec; [|done]. intros x Hx. by eapply Hf, Hc.
Qed.
Lemma keeps_none {A} : keeps (out_of_fuel : R A).
Proof. by intros s a s'. Qed.
Lemma keeps_get_root : keeps get_root.
Proof. by intros s a s' [= <- <-]. Qed.
Lemma keeps_set_root p : keeps (set_root p).
Proof. by intros s a s' [= <- <-]. Qed.
Lemma keeps_node_count : keeps node_count.
Proof. by intros s a s' [= <- <-]. Qed.
Lemma keeps_get_node a : keeps (get_node a).
Proof. intros s n s'. unfold get_node. destruct (rb_nodes s !! a); [|done]. by intros [= <- <-]. Qed.
Lemma keeps_upd_node a f : keeps (upd_node a f).
Proof.
  intros s n s'. unfold upd_node. destruct (rb_nodes s !! a) eqn:Ea; [|done]. intros [= <- <-] x Hx. cbn.
  destruct (decide (x = a)) as [->|Hne]; [rewrite lookup_insert_eq; eauto|by rewrite lookup_insert_ne].
Qed.
#[export] Hint Resolve keeps_ret keeps_bind keeps_none keeps_get_root keeps_set_root keeps_node_count keeps_get_node keeps_upd_node : keeps.

Ltac keeps_tac := repeat first
  [ progress intros | match goal with |- keeps (mbind _ _) => apply keeps_bind end | solve [auto 1 with keeps] | case_match ].

Lemma keeps_rotate_left a : keeps (rotate_left a).
Proof. unfold rotate_left, left_of, right_of, parent_of, set_left, set_right, set_parent. keeps_tac. Qed.
Lemma keeps_rotate_right a : keeps (rotate_right a).
Proof. unfold rotate_right, left_of, right_of, parent_of, set_left, set_right, set_parent. keeps_tac. Qed.
#[export] Hint Resolve keeps_rotate_left keeps_rotate_right : keeps.

Ltac keeps_unfold := unfold points_to_red, left_of, right_of, parent_of, is_red, set_color, set_left, set_right, set_parent.

Lemma keeps_insert key a : keeps (insert key a).
Proof.
  assert (Hr : forall x p, keeps (fix_insert_round x p)) by (intros; unfold fix_insert_round; keeps_unfold; keeps_tac).
  assert (Hf : forall fuel x, keeps (fix_insert fuel x)).
  { induction fuel; intros x; cbn [fix_insert]; keeps_unfold; keeps_tac. }
  assert (Hp : forall fuel x p c, keeps (insert_place key fuel x p c)).
  { induction fuel; intros x p c; cbn [insert_place]; keeps_unfold; keeps_tac. }
  unfold insert. keeps_unfold. keeps_tac.
Qed.

Lemma keeps_remove a : keeps (remove a).
Proof.
  assert (Ht : forall u v, keeps (transplant u v)) by (intros; unfold transplant; keeps_unfold; keeps_tac).
  assert (Hl : forall p x, keeps (rebalance_left p x)) by (intros; unfold rebalance_left; keeps_unfold; keeps_tac).
  assert (Hr : forall p x, keeps (rebalance_right p x)) by (intros; unfold rebalance_right; keeps_unfold; keeps_tac).
  assert (Hf : forall fuel x p, keeps (fix_remove fuel x p)).
  { induction fuel; intros x p; cbn [fix_remove]; unfold fix_remove_round; keeps_unfold; keeps_tac. }
  assert (Hm : forall fuel x, keeps (leftmost fuel x)).
  { induction fuel; intros x; cbn [leftmost]; keeps_unfold; keeps_tac. }
  unfold remove, remove_inner. keeps_unfold. keeps_tac.
Qed.

(** ** Order *)

Section Order.
Context (key : Z -> Z).

Lemma ordered_filter (P : Z -> Prop) `{forall x, Decision (P x)} l : ordered key l -> ordered key (filter P l).
Proof.
  unfold ordered. induction l as [|x l IH]; [done|]. cbn [map]. intros [Hl Hx]%StronglySorted_inv. destruct (decide (P x)).
  - rewrite filter_cons_True by done. cbn [map]. constructor; [by apply IH|]. rewrite Forall_forall in Hx |- *. intros y Hy.
    apply Hx. apply list_elem_of_fmap in Hy as (z & -> & Hz). apply list_elem_of_filter in Hz as [_ Hz]. by apply list_elem_of_fmap_2.
  - rewrite filter_cons_False by done. by apply IH.
Qed.

Lemma ordered_ins a l : ordered key l -> ordered key (ins key a l).
Proof.
  intros Hl. unfold ins. apply ordered_app. split_and!.
  - by apply ordered_filter.
  - apply (ordered_app key [a]). split_and!; [repeat constructor|by apply ordered_filter|].
    intros x y Hx [Hy _]%list_elem_of_filter. apply list_elem_of_singleton in Hx as ->. lia.
  - intros x y [Hx _]%list_elem_of_filter Hy. apply elem_of_cons in Hy as [->|[Hy _]%list_elem_of_filter]; lia.
Qed.

Lemma elem_of_ins x a l : x ∈ ins key a l <-> x = a \/ x ∈ l.
Proof.
  unfold ins. rewrite elem_of_app, elem_of_cons, !list_elem_of_filter. split; [naive_solver|]. intros [->|Hx]; [auto|].
  destruct (Z.le_gt_cases (key x) (key a)); [left|right; right]; split; done || lia.
Qed.

(** A tree in the heap *)
Record tree_ok (s : rb_state) (t : tree) : Prop := TreeOk {
  ok_holds : holds s t;
  ok_colors : is_rb t;
  ok_order : ordered key (inorder t) }.

Lemma empty_tree_ok h : tree_ok (RbState 0 h) E.
Proof. split; [by split; try constructor|by split; [|exists 0%nat; constructor]|constructor]. Qed.

(** ** Sequences of operations *)

Inductive op := Insert (a : Z) | Erase (a : Z).

Definition exec (o : op) : R unit := match o with Insert a => insert key a | Erase a => remove a end.
Definition exec_all (ops : list op) : R unit := foldr (fun o c => _ ← exec o; c) (mret tt) ops.

(** What they are for: a list in the order of the keys, where a node is once *)
Definition effect (o : op) (l : list Z) : option (list Z) :=
  match o with
  | Insert a => if decide (a ∈ l) then None else Some (ins key a l)
  | Erase a => if decide (a ∈ l) then Some (filter (fun x => x <> a) l) else None
  end.
Definition effect_all (ops : list op) (l : list Z) : option (list Z) := foldl (fun l o => l ← l; effect o l) (Some l) ops.

Lemma effect_all_cons o ops l l2 : effect_all (o :: ops) l = Some l2 -> exists l1, effect o l = Some l1 /\ effect_all ops l1 = Some l2.
Proof.
  unfold effect_all. cbn [foldl mbind option_bind]. destruct (effect o l) as [l1|]; [by exists l1|].
  intros H. exfalso. induction ops as [|o' ops IH]; [done|]. by apply IH.
Qed.

(** The node that an insertion takes: its address is even, for the colour, and it is in memory. *)
Definition node_ready (h : gmap Z rb_node) (o : op) : Prop := match o with Insert a => addr a /\ is_Some (h !! a) | Erase _ => True end.

Lemma exec_ok s t o l : tree_ok s t -> node_ready (rb_nodes s) o -> effect o (inorder t) = Some l ->
  exists s' t', exec o s = Some (tt, s') /\ tree_ok s' t' /\ inorder t' = l /\ (forall x, is_Some (rb_nodes s !! x) -> is_Some (rb_nodes s' !! x)).
Proof.
  intros [Hs Hc Ho] Hr He. destruct o as [a|a]; cbn in *; case_decide as Ha; try done; injection He as <-.
  - destruct Hr as [Hr1 Hr2]. destruct (insert_ok key s t a Hs Hc Ho Ha Hr1 Hr2) as (s' & t' & E' & H' & C' & I' & _). exists s', t'.
    split_and!; try done; [|by eapply keeps_insert]. split; [done..|]. rewrite I'. by apply ordered_ins.
  - destruct (remove_ok s t a Hs Hc Ha) as (s' & t' & l1 & l2 & E' & H' & C' & I & I' & _). exists s', t'.
    pose proof Hs as [_ _ Hnd _]. assert (Hf : inorder t' = filter (fun x => x <> a) (inorder t)) by (rewrite I in *; by rewrite filter_middle).
    split_and!; try done; [|by eapply keeps_remove]. split; [done..|]. rewrite Hf. by apply ordered_filter.
Qed.
End Order.

(** C3. The tree implements the ordered list, for every sequence of insertions and removals.
    From an empty tree, as long as only nodes that are not in the tree are inserted (equal keys
    allowed) and only nodes in the tree are removed, every [insert] and [erase] returns; the heap
    then holds a red-black tree (the root is black, no red node has a red child, all paths to the
    leaves have as many black nodes, every parent pointer is right), and going through it in
    order gives the nodes in the order of their keys, where a node inserted later is behind the
    nodes with the same key. *)
Theorem tree_is_ordered_list (key : Z -> Z) (h : gmap Z rb_node) (ops : list op) (l : list Z) :
  Forall (node_ready h) ops -> effect_all key ops [] = Some l ->
  exists s t, exec_all key ops (RbState 0 h) = Some (tt, s) /\ holds s t /\ is_rb t /\ inorder t = l /\ StronglySorted Z.le (map key l).
Proof.
  intros Hr He. enough (H : forall s t, tree_ok key s t -> Forall (node_ready (rb_nodes s)) ops -> effect_all key ops (inorder t) = Some l ->
    exists s' t', exec_all key ops s = Some (tt, s') /\ tree_ok key s' t' /\ inorder t' = l).
  { destruct (H (RbState 0 h) E (empty_tree_ok key h) Hr He) as (s & t & E' & [H1 H2 H3] & <-). by exists s, t. }
  clear Hr He h. induction ops as [|o ops IH]; intros s t Ht Hr He.
  - injection He as <-. by exists s, t.
  - apply effect_all_cons in He as (l1 & H1 & H2). apply Forall_cons in Hr as [Hr Hrs].
    destruct (exec_ok key s t o l1 Ht Hr H1) as (s1 & t1 & E1 & Ht1 & <- & Hk).
    destruct (IH s1 t1 Ht1) as (s2 & t2 & E2 & Ht2 & I2); [|done|].
    + eapply Forall_impl; [exact Hrs|]. intros [a|a]; [|done]. intros [Ha1 Ha2]. split; auto.
    + exists s2, t2. split; [|done]. cbn. by rewrite (rbind _ _ _ _ _ E1).
Qed.

(** ** Searching *)

Section SearchSpec.
Context (key : Z -> Z).

Lemma find_from_mono fuel fuel' v c s r : find_from key fuel v c s = Some r -> (fuel <= fuel')%nat -> find_from key fuel' v c s = Some r.
Proof.
  revert fuel' c. induction fuel as [|fuel IH]; intros [|fuel'] c Hr Hf; cbn [find_from] in *; try done; try lia; [by destruct (c =? 0)|].
  assert (Hf' : (fuel <= fuel')%nat) by lia. destruct (c =? 0); [done|]. unfold left_of, right_of, mbind, R_bind, get_node in *. cbn in *.
  destruct (v <? key c); [|destruct (key c <? v); [|done]]; (destruct (rb_nodes s !! c); [|done]); cbn in *; by apply IH.
Qed.

Lemma last0_greatest v l1 l2 : ordered key (l1 ++ l2) -> Forall (fun y => key y < v) l1 -> Forall (fun y => v < key y) l2 ->
  (last0 l1 ∈ l1 ++ l2 /\ key (last0 l1) <= v /\ forall y, y ∈ l1 ++ l2 -> key y <= v -> key y <= key (last0 l1))
  \/ (last0 l1 = 0 /\ forall y, y ∈ l1 ++ l2 -> v < key y).
Proof.
  intros Ho H1 H2. rewrite Forall_forall in H2. destruct l1 as [|x l1 _] using rev_ind; [by right|]. left. rewrite last0_app.
  apply Forall_app in H1 as [H1 [Hx _]%Forall_cons]. cbn beta in Hx. apply ordered_app in Ho as ((_ & _ & Ho)%ordered_app & _). split_and!; [|lia|].
  - clear. set_solver.
  - intros y Hy Hv. rewrite !elem_of_app, list_elem_of_singleton in Hy. destruct Hy as [[Hy| ->]|Hy%H2]; [|done|cbn in Hy; lia]. apply Ho; [done|by left].
Qed.

Lemma hd0_least v l1 l2 : ordered key (l1 ++ l2) -> Forall (fun y => key y < v) l1 -> Forall (fun y => v < key y) l2 ->
  (hd0 l2 ∈ l1 ++ l2 /\ v <= key (hd0 l2) /\ forall y, y ∈ l1 ++ l2 -> v <= key y -> key (hd0 l2) <= key y)
  \/ (hd0 l2 = 0 /\ forall y, y ∈ l1 ++ l2 -> key y < v).
Proof.
  intros Ho H1 H2. rewrite Forall_forall in H1. destruct l2 as [|x l2]; [right; by rewrite app_nil_r|]. left. cbn [hd0].
  apply Forall_cons in H2 as [Hx H2]. apply ordered_app in Ho as (_ & (_ & _ & Ho)%(ordered_app key [x]) & _). split_and!; [|lia|].
  - clear. set_solver.
  - intros y Hy Hv. rewrite elem_of_app, elem_of_cons in Hy. destruct Hy as [Hy%H1|[->|Hy]]; [cbn in Hy; lia|done|]. apply Ho; [by left|done].
Qed.
End SearchSpec.

(** C32. [find] returns a node with the key if there is one and the null pointer if not, and
    looks at no more than 2 log2 (n + 1) nodes of a tree of n. *)
Theorem find_correct (key : Z -> Z) (s : rb_state) (t : tree) (v : Z) : tree_ok key s t ->
  exists x, find key v s = Some (x, s)
    /\ find_from key (2 * Nat.log2 (S (length (inorder t)))) v (rb_root s) s = Some (x, s)
    /\ (x ∈ inorder t /\ key x = v \/ x = 0 /\ v ∉ map key (inorder t)).
Proof.
  intros [Hs Hc Ho]. destruct (find_from_ok key s v t Hs Ho (height t) (le_n _)) as (x & E' & Hx).
  exists x. split_and!.
  - apply (find_from_mono _ _ _ _ _ _ _ E'), (enough_nodes _ _ Hs).
  - apply (find_from_mono _ _ _ _ _ _ _ E'), height_log, Hc.
  - destruct Hx as [Hx Hv|l1 l2 Hi H1 H2 ->]; [by left|right]. split; [done|]. rewrite Hi. intros (y & -> & Hy)%list_elem_of_fmap.
    rewrite Forall_forall in H1, H2. apply elem_of_app in Hy as [Hy%H1|Hy%H2]; cbn in Hy; lia.
Qed.

(** [get_smaller_or_equal] returns the node with the greatest key that is not above the
    value, [lower_bound] the node with the least key that is not below it, and each returns the
    null pointer only if there is no such node. *)
Theorem bounds_correct (key : Z -> Z) (s : rb_state) (t : tree) (v : Z) : tree_ok key s t ->
  exists x y, get_smaller_or_equal key v s = Some (x, s) /\ lower_bound key v s = Some (y, s)
    /\ (x ∈ inorder t /\ key x <= v /\ (forall z, z ∈ inorder t -> key z <= v -> key z <= key x)
        \/ x = 0 /\ forall z, z ∈ inorder t -> v < key z)
    /\ (y ∈ inorder t /\ v <= key y /\ (forall z, z ∈ inorder t -> v <= key z -> key y <= key z)
        \/ y = 0 /\ forall z, z ∈ inorder t -> key z < v).
Proof.
  intros [Hs Hc Ho]. destruct (smaller_ok key s v t Hs Ho) as (x & Ex & Hx), (lower_ok key s v t Hs Ho) as (y & Ey & Hy).
  exists x, y. split_and!; [done..| |].
  - destruct Hx as [Hx Hv|l1 l2 Hi H1 H2 ->]; [left; split_and!; [done|lia|intros; lia]|]. rewrite Hi in *. by apply last0_greatest.
  - destruct Hy as [Hx' Hv|l1 l2 Hi H1 H2 ->]; [left; split_and!; [done|lia|intros; lia]|]. rewrite Hi in *. by apply hd0_least.
Qed.

(** Iterators go through the tree in order: [begin] is the first node, [++] and [--] go to
    the neighbours and end in the null pointer, and [erase] at an iterator removes exactly that
    node, keeps the tree red-black and ordered, and returns the iterator behind it. *)
Theorem iterators_correct (key : Z -> Z) (s : rb_state) (t : tree) : tree_ok key s t ->
  begin s = Some (hd0 (inorder t), s)
  /\ forall a l1 l2, inorder t = l1 ++ a :: l2 ->
       next a s = Some (hd0 l2, s) /\ prev a s = Some (last0 l1, s)
       /\ exists s' t', erase a s = Some (hd0 l2, s') /\ tree_ok key s' t' /\ inorder t' = l1 ++ l2.
Proof.
  intros [Hs Hc Ho]. split; [by apply begin_ok|]. intros a l1 l2 Hi. split_and!; [by eapply next_ok|by eapply prev_ok|].
  destruct (erase_ok s t Hs a l1 l2 Hc Hi) as (s' & t' & E' & H' & C' & I' & _). exists s', t'. split_and!; try done. split; [done..|].
  rewrite I'. rewrite Hi in Ho. apply ordered_app in Ho as (H1 & (_ & H2 & _)%(ordered_app key [a]) & H3). apply ordered_app. split_and!; [done..|].
  intros x y Hx Hy. apply H3; [done|by right].
Qed.

(** [less_or_equal] does not return if there is a node with the key. *)
Lemma less_or_equal_loops (key : Z -> Z) (s : rb_state) (t : tree) (v : Z) (fuel : nat) : tree_ok key s t -> v ∈ map key (inorder t) ->
  less_or_equal_from key fuel v 0 (rb_root s) s = None.
Proof. intros [Hs _ Ho] Hv. rewrite (root_eq s t Hs). by apply (less_or_equal_diverges key s v fuel 0 [] t Hs Ho (narrows_nil _ _)). Qed.

(** ** The tables of the kernel *)

Section Table.
Context (key : Z -> Z).

Definition entries (l : list Z) : list (Z * Z) := (fun a => (key a, a)) <$> l.

(** The tree is the table [m] from keys to nodes. *)
Definition table (s : rb_state) (m : gmap Z Z) : Prop :=
  exists t, tree_ok key s t /\ NoDup (map key (inorder t)) /\ m = list_to_map (entries (inorder t)).

Lemma fst_entries l : (entries l).*1 = map key l.
Proof. unfold entries. by rewrite <- list_fmap_compose. Qed.

Lemma entry l k a : NoDup (map key l) -> (list_to_map (entries l) : gmap Z Z) !! k = Some a <-> a ∈ l /\ key a = k.
Proof.
  intros Hnd. rewrite <- elem_of_list_to_map by (by rewrite fst_entries). unfold entries. rewrite list_elem_of_fmap.
  split; [by intros (b & [= -> ->] & Hb)|]. intros [Ha <-]. by exists a.
Qed.
Lemma ins_perm a l : ins key a l ≡ₚ a :: l.
Proof.
  unfold ins. rewrite <- Permutation_middle. apply perm_skip. induction l as [|x l IH]; [done|].
  destruct (Z.le_gt_cases (key x) (key a)).
  - rewrite filter_cons_True, filter_cons_False by lia. cbn [app]. by apply perm_skip.
  - rewrite filter_cons_False, filter_cons_True by lia. rewrite <- Permutation_middle. by apply perm_skip.
Qed.

(** A node more in the list is an entry more in the table. *)
Lemma entries_cons a l l' : l' ≡ₚ a :: l -> NoDup (map key l') ->
  NoDup (map key l) /\ (list_to_map (entries l') : gmap Z Z) = <[key a := a]> (list_to_map (entries l)) /\ (list_to_map (entries l) : gmap Z Z) !! key a = None.
Proof.
  intros Hp Hnd. pose proof Hnd as Hnd'. rewrite Hp in Hnd'. apply NoDup_cons in Hnd' as [Ha Hl]. split_and!; [done| |].
  - change (<[key a := a]> (list_to_map (entries l)) : gmap Z Z) with (list_to_map (entries (a :: l)) : gmap Z Z).
    apply list_to_map_proper; [by rewrite fst_entries|]. unfold entries. by rewrite Hp.
  - apply not_elem_of_list_to_map. by rewrite fst_entries.
Qed.

Lemma table_insert s m m' a : table s m -> addr a -> is_Some (rb_nodes s !! a) -> tree_insert (key a) a m = Some m' ->
  exists s', insert key a s = Some (tt, s') /\ table s' m'.
Proof.
  intros (t & Ht & Hk & ->) Ha1 Ha2 Hi. unfold tree_insert in Hi. destruct (list_to_map _ !! key a) eqn:Hl; [done|]. injection Hi as <-.
  assert (Hn : key a ∉ map key (inorder t)) by (rewrite <- fst_entries; by apply not_elem_of_list_to_map_2 in Hl).
  destruct (exec_ok key s t (Insert a) (ins key a (inorder t)) Ht) as (s' & t' & E' & Ht' & I' & _); [done| |].
  { cbn. rewrite decide_False; [done|]. intros Ha. by apply Hn, list_elem_of_fmap_2. }
  assert (Hk' : NoDup (map key (ins key a (inorder t)))) by (rewrite ins_perm; by apply NoDup_cons).
  exists s'. split; [done|]. exists t'. rewrite I'. split_and!; [done..|]. symmetry. by apply (entries_cons _ _ _ (ins_perm a (inorder t))).
Qed.

Lemma table_erase s m m' a : table s m -> tree_erase (key a) a m = Some m' -> exists s', remove a s = Some (tt, s') /\ table s' m'.
Proof.
  intros (t & Ht & Hk & ->) Hi. unfold tree_erase in Hi. case_decide as Hl; [|done]. injection Hi as <-. apply entry in Hl as [Ha _]; [|done].
  destruct (exec_ok key s t (Erase a) (filter (fun x => x <> a) (inorder t)) Ht) as (s' & t' & E' & Ht' & I' & _); [done|by cbn; rewrite decide_True|].
  apply list_elem_of_split in Ha as (l1 & l2 & Hi). pose proof (ok_holds _ _ _ Ht) as [_ _ Hnd _]. rewrite Hi in Hnd, Hk. rewrite Hi, filter_middle in I' by done.
  destruct (entries_cons a (l1 ++ l2) (l1 ++ a :: l2)) as (Hk' & Em & Hn); [by rewrite Permutation_middle|done|].
  exists s'. split; [done|]. exists t'. rewrite I'. split_and!; [done..|]. by rewrite Hi, Em, delete_insert_id.
Qed.

Lemma table_begin s m : table s m -> begin s = Some (match tree_begin m with Some (_, a) => a | None => 0 end, s).
Proof.
  intros (t & [Hs _ Ho] & Hk & ->). rewrite (begin_ok s t Hs). pose proof (tree_begin_spec (list_to_map (entries (inorder t)) : gmap Z Z)) as Hb.
  destruct (inorder t) as [|x l] eqn:Hi; [done|]. destruct (tree_begin _) as [[id a]|].
  - destruct Hb as [Hb Hmin]. apply entry in Hb as [Ha <-]; [|done]. cbn [hd0]. do 2 f_equal. apply elem_of_cons in Ha as [->|Ha]; [done|]. exfalso.
    assert (Hx : key a <= key x) by (apply Hmin; exists x; apply entry; [done|split; [by left|done]]).
    apply (ordered_app key [x]) in Ho as (_ & _ & Ho). specialize (Ho x a ltac:(by left) Ha). cbn in Hk. apply NoDup_cons in Hk as [Hk _].
    apply Hk. assert (key x = key a) as -> by lia. by apply list_elem_of_fmap_2.
  - exfalso. apply (f_equal (fun m : gmap Z Z => m !! key x)) in Hb. change (entries (x :: l)) with ((key x, x) :: entries l) in Hb.
    by rewrite list_to_map_cons, lookup_insert_eq, lookup_empty in Hb.
Qed.

Lemma table_find s m v : table s m -> find key v s = Some (default 0 (m !! v), s).
Proof.
  intros (t & [Hs _ Ho] & Hk & ->). destruct (find_ok key s v t Hs Ho) as (x & E' & Hx). rewrite E'. do 2 f_equal. destruct Hx as [Hx Hv|l1 l2 Hi H1 H2 ->].
  - by rewrite (proj2 (entry _ v x Hk)).
  - destruct (list_to_map _ !! v) as [a|] eqn:Ha; [|done]. apply entry in Ha as [Ha <-]; [|done]. rewrite Hi in Ha. rewrite Forall_forall in H1, H2.
    apply elem_of_app in Ha as [Ha%H1|Ha%H2]; cbn in Ha; lia.
Qed.
End Table.

(** C33. The trees implement the tables of the kernel.  If the keys of the nodes of a tree are
    different, the tree is a table from keys to nodes; where the table operations that the model
    of ports, rights and groups uses are defined, [insert] and [erase] on the heap return and
    give a tree of the new table, [find] is the lookup, and [begin] the entry with the smallest
    key. *)
Theorem tree_implements_table (key : Z -> Z) (s : rb_state) (m : gmap Z Z) : table key s m ->
  (forall a m', addr a -> is_Some (rb_nodes s !! a) -> tree_insert (key a) a m = Some m' -> exists s', insert key a s = Some (tt, s') /\ table key s' m')
  /\ (forall a m', tree_erase (key a) a m = Some m' -> exists s', remove a s = Some (tt, s') /\ table key s' m')
  /\ (forall v, find key v s = Some (default 0 (m !! v), s))
  /\ begin s = Some (match tree_begin m with Some (_, a) => a | None => 0 end, s).
Proof.
  intros Ht. split_and!.
  - intros a m'. by apply (table_insert key).
  - intros a m'. by apply (table_erase key).
  - intros v. by apply (table_find key).
  - by apply (table_begin key).
Qed.

(** ** Instances *)

Definition blank_heap : gmap Z rb_node := list_to_map ((fun a => (a, RbNode 0 0 0)) <$> [2; 4; 6; 8; 10; 12]).
Definition some_ops : list op := [Insert 2; Insert 4; Insert 6; Insert 8; Insert 10; Erase 4; Insert 12; Erase 10; Insert 4].

Lemma tree_is_ordered_list_witness :
  exists s t, exec_all (fun a => a mod 8) some_ops (RbState 0 blank_heap) = Some (tt, s) /\ holds s t /\ is_rb t /\ inorder t = [8; 2; 12; 4; 6]
    /\ StronglySorted Z.le (map (fun a => a mod 8) [8; 2; 12; 4; 6]).
Proof.
  apply (tree_is_ordered_list (fun a => a mod 8) blank_heap some_ops [8; 2; 12; 4; 6]).
  - unfold some_ops. repeat (apply Forall_cons; split); [..|apply Forall_nil; done]; try exact I; (split; [split; done|]); eexists; vm_compute; reflexivity.
  - vm_compute. reflexivity.
Defined.

Definition small_tree : tree := T false (T false E 2 E) 4 (T false E 6 (T true E 8 E)).
Definition small_state : rb_state := RbState 4 (list_to_map [(2, RbNode 4 0 0); (4, RbNode 0 2 6); (6, RbNode 4 0 8); (8, RbNode 7 0 0); (10, RbNode 0 0 0)]).

Lemma small_tree_ok : tree_ok (fun a => a) small_state small_tree.
Proof.
  split.
  - split; [done|cbn; tauto| |]; cbn.
    + apply (bool_decide_unpack _). by vm_compute.
    + repeat constructor; done.
  - split; [done|]. exists 2%nat. repeat constructor.
  - unfold ordered. cbn. repeat constructor; lia.
Qed.

Lemma find_correct_witness :
  exists x, find (fun a => a) 6 small_state = Some (x, small_state)
    /\ find_from (fun a => a) (2 * Nat.log2 5) 6 (rb_root small_state) small_state = Some (x, small_state)
    /\ (x ∈ [2; 4; 6; 8] /\ x = 6 \/ x = 0 /\ 6 ∉ [2; 4; 6; 8]).
Proof. apply (find_correct (fun a => a) small_state small_tree 6 small_tree_ok). Defined.

Lemma bounds_correct_witness :
  exists x y, get_smaller_or_equal (fun a => a) 5 small_state = Some (x, small_state) /\ lower_bound (fun a => a) 5 small_state = Some (y, small_state)
    /\ (x ∈ [2; 4; 6; 8] /\ x <= 5 /\ (forall z, z ∈ [2; 4; 6; 8] -> z <= 5 -> z <= x) \/ x = 0 /\ forall z, z ∈ [2; 4; 6; 8] -> 5 < z)
    /\ (y ∈ [2; 4; 6; 8] /\ 5 <= y /\ (forall z, z ∈ [2; 4; 6; 8] -> 5 <= z -> y <= z) \/ y = 0 /\ forall z, z ∈ [2; 4; 6; 8] -> z < 5).
Proof. apply (bounds_correct (fun a => a) small_state small_tree 5 small_tree_ok). Defined.

Lemma iterators_correct_witness :
  begin small_state = Some (2, small_state) /\ next 4 small_state = Some (6, small_state) /\ prev 4 small_state = Some (2, small_state)
  /\ exists s' t', erase 4 small_state = Some (6, s') /\ tree_ok (fun a => a) s' t' /\ inorder t' = [2; 6; 8].
Proof.
  destruct (iterators_correct (fun a => a) small_state small_tree small_tree_ok) as [Hb H]. split; [exact Hb|].
  apply (H 4 [2] [6; 8]). reflexivity.
Defined.

Lemma tree_implements_table_witness :
  exists s', insert (fun a => a) 10 small_state = Some (tt, s') /\ table (fun a => a) s' (<[10 := 10]> (list_to_map [(2, 2); (4, 4); (6, 6); (8, 8)])).
Proof.
  refine (proj1 (tree_implements_table (fun a => a) small_state (list_to_map [(2, 2); (4, 4); (6, 6); (8, 8)]) _) 10 _ _ _ _).
  - exists small_tree. split; [exact small_tree_ok|]. split; [|reflexivity]. apply small_tree_ok.
  - split; reflexivity || discriminate.
  - eexists. reflexivity.
  - reflexivity.
Defined.
