(* ===== verification/IntrusiveList.v ===== *)
(** * pmos/containers/intrusive_list.hh: circular doubly linked lists

    The lists of messages, rights, free page blocks and address-space tags of the kernel.  A
    list is a head node that is part of the circle; the nodes are part of the objects.  Addresses
    are numbers and the heap maps the addresses of nodes to their two pointers; code that follows
    a pointer to nothing is the outcome [None].  The lists of Rights are what these lists hold. *)

From stdpp Require Import base list numbers gmap.
From S2P Require Import ListFacts Rights.
Open Scope Z_scope.

(** [DoubleListHead] *)
Record list_node := ListNode { ln_next : Z; ln_prev : Z }.

Notation heap := (gmap Z list_node).
Definition L (A : Type) : Type := heap -> option (A * heap).
#[global] Instance L_ret : MRet L := fun A a h => Some (a, h).
#[global] Instance L_bind : MBind L := fun A B f c h => match c h with Some (a, h') => f a h' | None => None end.

Definition next_of (a : Z) : L Z := fun h => n ← h !! a; Some (ln_next n, h).
Definition prev_of (a : Z) : L Z := fun h => n ← h !! a; Some (ln_prev n, h).
Definition set_next (a p : Z) : L unit := fun h => n ← h !! a; Some (tt, <[a := ListNode p (ln_prev n)]> h).
Definition set_prev (a p : Z) : L unit := fun h => n ← h !! a; Some (tt, <[a := ListNode (ln_next n) p]> h).

(** The initializer of [head] *)
Definition list_init (head : Z) : L unit := fun h => Some (tt, <[head := ListNode head head]> h).

Definition push_front (head p : Z) : L unit :=
  n ← next_of head;
  _ ← set_next p n;
  _ ← set_prev p head;
  n ← next_of head;
  _ ← set_prev n p;
  set_next head p.

Definition push_back (head p : Z) : L unit :=
  n ← prev_of head;
  _ ← set_prev p n;
  _ ← set_next p head;
  n ← prev_of head;
  _ ← set_next n p;
  set_prev head p.

Definition list_unlink (p : Z) : L unit :=
  v ← prev_of p;
  n ← next_of p;
  _ ← set_next v n;
  n ← next_of p;
  v ← prev_of p;
  set_prev n v.

(** [erase] gives the node behind. *)
Definition list_erase (p : Z) : L Z :=
  n ← next_of p;
  _ ← list_unlink p;
  mret n.

Definition list_empty (head : Z) : L bool := n ← next_of head; mret (n =? head).
Definition front (head : Z) : L Z := next_of head.

(** One head after the exchange of the two nodes *)
Definition relocate (head other : Z) : L unit :=
  n ← next_of head;
  if n =? other then
    _ ← set_next head head;
    set_prev head head
  else
    n ← next_of head;
    _ ← set_prev n head;
    v ← prev_of head;
    set_next v head.

Definition swap_lists (head other : Z) : L unit :=
  if head =? other then mret tt
  else
    n ← next_of head; v ← prev_of head;
    n' ← next_of other; v' ← prev_of other;
    _ ← set_next head n'; _ ← set_prev head v';
    _ ← set_next other n; _ ← set_prev other v;
    _ ← relocate head other;
    relocate other head.

(** ** Lists in the heap *)

Definition nx (h : heap) (a : Z) : option Z := ln_next <$> h !! a.
Definition pv (h : heap) (a : Z) : option Z := ln_prev <$> h !! a.
Definition upd_next (a p : Z) (h : heap) : heap := match h !! a with Some n => <[a := ListNode p (ln_prev n)]> h | None => h end.
Definition upd_prev (a p : Z) (h : heap) : heap := match h !! a with Some n => <[a := ListNode (ln_next n) p]> h | None => h end.

(** Every node of [l] points to the next one, and is pointed back to. *)
Fixpoint linked (h : heap) (l : list Z) : Prop :=
  match l with
  | a :: (b :: _) as l' => nx h a = Some b /\ pv h b = Some a /\ linked h l'
  | _ => True
  end.

(** The list at [head] holds [l]. *)
Definition circle (h : heap) (head : Z) (l : list Z) : Prop := NoDup (head :: l) /\ linked h (head :: l ++ [head]).

Definition apart_from (l : list Z) (h h' : heap) : Prop := forall x, x ∉ l -> h' !! x = h !! x.

Lemma linked_app h l a l' : linked h (l ++ a :: l') <-> linked h (l ++ [a]) /\ linked h (a :: l').
Proof.
  induction l as [|b l IH]; [cbn; tauto|]. destruct l as [|c l]; cbn in *.
  - destruct l'; tauto.
  - rewrite IH. tauto.
Qed.

Lemma chain_cons h a b l : nx h a = Some b -> pv h b = Some a -> linked h (b :: l) -> linked h (a :: b :: l).
Proof. done. Qed.

(** Only the pointers along the list matter. *)
Lemma linked_ext h h' l a : (forall x, x ∈ l -> nx h' x = nx h x) -> (forall x, x ∈ tail (l ++ [a]) -> pv h' x = pv h x) ->
  linked h (l ++ [a]) -> linked h' (l ++ [a]).
Proof.
  induction l as [|b l IH]; [done|]. intros Hn Hp. destruct l as [|c l]; cbn in *.
  - intros (H1 & H2 & _). rewrite (Hn b), (Hp a); [done|by left..].
  - intros (H1 & H2 & H3). rewrite (Hn b), (Hp c) by (by left). split_and!; [done..|]. apply IH; [| |done]; intros x Hx; [apply Hn|apply Hp]; by right.
Qed.

Section Runs.
Context (h : heap) (a p : Z).
Lemma next_run n : nx h a = Some n -> next_of a h = Some (n, h).
Proof. unfold nx, next_of. intros (x & -> & ->)%fmap_Some. done. Qed.
Lemma prev_run n : pv h a = Some n -> prev_of a h = Some (n, h).
Proof. unfold pv, prev_of. intros (x & -> & ->)%fmap_Some. done. Qed.
Lemma set_next_run : is_Some (h !! a) -> set_next a p h = Some (tt, upd_next a p h).
Proof. intros [n Hn]. unfold set_next, upd_next. by rewrite Hn. Qed.
Lemma set_prev_run : is_Some (h !! a) -> set_prev a p h = Some (tt, upd_prev a p h).
Proof. intros [n Hn]. unfold set_prev, upd_prev. by rewrite Hn. Qed.

Lemma nx_next x : is_Some (h !! a) -> nx (upd_next a p h) x = if decide (x = a) then Some p else nx h x.
Proof. intros [n Hn]. unfold nx, upd_next. rewrite Hn. destruct (decide (x = a)) as [->|]; [by rewrite lookup_insert_eq|by rewrite lookup_insert_ne]. Qed.
Lemma pv_prev x : is_Some (h !! a) -> pv (upd_prev a p h) x = if decide (x = a) then Some p else pv h x.
Proof. intros [n Hn]. unfold pv, upd_prev. rewrite Hn. destruct (decide (x = a)) as [->|]; [by rewrite lookup_insert_eq|by rewrite lookup_insert_ne]. Qed.
Lemma pv_next x : pv (upd_next a p h) x = pv h x.
Proof.
  unfold pv, upd_next. destruct (h !! a) eqn:Hn; [|done]. destruct (decide (x = a)) as [->|]; [by rewrite lookup_insert_eq, Hn|by rewrite lookup_insert_ne].
Qed.
Lemma nx_prev x : nx (upd_prev a p h) x = nx h x.
Proof.
  unfold nx, upd_prev. destruct (h !! a) eqn:Hn; [|done]. destruct (decide (x = a)) as [->|]; [by rewrite lookup_insert_eq, Hn|by rewrite lookup_insert_ne].
Qed.
Lemma in_next x : is_Some (upd_next a p h !! x) <-> is_Some (h !! x).
Proof. unfold upd_next. destruct (h !! a) eqn:Hn; [|done]. rewrite lookup_insert_is_Some'. naive_solver. Qed.
Lemma in_prev x : is_Some (upd_prev a p h !! x) <-> is_Some (h !! x).
Proof. unfold upd_prev. destruct (h !! a) eqn:Hn; [|done]. rewrite lookup_insert_is_Some'. naive_solver. Qed.
Lemma out_next x : x <> a -> upd_next a p h !! x = h !! x.
Proof. intros Hx. unfold upd_next. destruct (h !! a); [by rewrite lookup_insert_ne|done]. Qed.
Lemma out_prev x : x <> a -> upd_prev a p h !! x = h !! x.
Proof. intros Hx. unfold upd_prev. destruct (h !! a); [by rewrite lookup_insert_ne|done]. Qed.
End Runs.

Lemma lbind {A B} (c : L A) (f : A -> L B) h a h' : c h = Some (a, h') -> (c ≫= f) h = f a h'.
Proof. intros H. unfold mbind, L_bind. by rewrite H. Qed.
Lemma nx_in h a n : nx h a = Some n -> is_Some (h !! a).
Proof. unfold nx. intros (x & -> & _)%fmap_Some. by eexists. Qed.
Lemma pv_in h a n : pv h a = Some n -> is_Some (h !! a).
Proof. unfold pv. intros (x & -> & _)%fmap_Some. by eexists. Qed.

(** ** A node between two neighbours *)

(** The walk from the head around to the head, split at two neighbours; [a] is not among the
    nodes before it, and [b] not among the nodes behind it. *)
Definition split_at (h : heap) (u : list Z) (a b : Z) (v : list Z) : Prop :=
  linked h (u ++ [a]) /\ linked h (b :: v) /\ a ∉ u /\ b ∉ v /\ b ∉ tail (u ++ [a]) /\ a ∉ removelast (b :: v).

Lemma tail_in (x : Z) l : x ∈ tail l -> x ∈ l.
Proof. destruct l; [done|]. by right. Qed.
Lemma removelast_in (x : Z) l : x ∈ removelast l -> x ∈ l.
Proof. induction l as [|a [|b l] IH]; cbn; [done|by intros ?%elem_of_nil|]. intros [->|Hx]%elem_of_cons; [by left|right; by apply IH]. Qed.

Lemma linked_tail h h' b v : (forall x, x ∈ removelast (b :: v) -> nx h' x = nx h x) -> (forall x, x ∈ v -> pv h' x = pv h x) ->
  linked h (b :: v) -> linked h' (b :: v).
Proof.
  revert b. induction v as [|c v IH]; intros b Hn Hp; [done|]. cbn [linked]. intros (H1 & H2 & H3).
  rewrite (Hn b), (Hp c) by (cbn; by left). split_and!; [done..|]. apply IH; [| |done]; intros x Hx; [apply Hn|apply Hp]; by right.
Qed.

(** Both halves stay linked when only the pointers between [a] and [b], and those of a node
    [p] that is elsewhere, change. *)
Lemma split_keeps h h' u a b v (p : Z) : split_at h u a b v -> p ∉ u ++ [a] -> p ∉ b :: v ->
  (forall x, x <> a -> x <> p -> nx h' x = nx h x) -> (forall x, x <> b -> x <> p -> pv h' x = pv h x) ->
  linked h' (u ++ [a]) /\ linked h' (b :: v).
Proof.
  intros (H1 & H2 & Ha & Hb & Hb' & Ha') Hp1 Hp2 Hn Hp. split.
  - eapply linked_ext; [| |exact H1]; intros x Hx; [apply Hn|apply Hp]; intros ->; try done; apply Hp1; [apply elem_of_app; by left|by apply tail_in].
  - eapply linked_tail; [| |exact H2]; intros x Hx; [apply Hn|apply Hp]; intros ->; try done; apply Hp2; [by apply removelast_in|by right].
Qed.

Lemma insert_between h h' u a b v (p : Z) : split_at h u a b v -> p ∉ u ++ [a] -> p ∉ b :: v ->
  (forall x, nx h' x = if decide (x = a) then Some p else if decide (x = p) then Some b else nx h x) ->
  (forall x, pv h' x = if decide (x = b) then Some p else if decide (x = p) then Some a else pv h x) ->
  linked h' (u ++ a :: p :: b :: v).
Proof.
  intros Hs Hp1 Hp2 Hn Hp. assert (a <> p) by (intros ->; apply Hp1, elem_of_app; right; by left). assert (b <> p) by (intros ->; apply Hp2; by left).
  apply linked_app. destruct (split_keeps h h' u a b v p Hs Hp1 Hp2) as [H1 H2].
  - intros x Hx1 Hx2. by rewrite Hn, !decide_False.
  - intros x Hx1 Hx2. by rewrite Hp, !decide_False.
  - split; [done|]. repeat apply chain_cons; try done; rewrite ?Hn, ?Hp; repeat case_decide; congruence.
Qed.

Lemma remove_between h h' u a b v : split_at h u a b v ->
  (forall x, nx h' x = if decide (x = a) then Some b else nx h x) ->
  (forall x, pv h' x = if decide (x = b) then Some a else pv h x) -> linked h' (u ++ a :: b :: v).
Proof.
  intros Hs Hn Hp. set (p := base.fresh (list_to_set (b :: u ++ a :: v) : gset Z)). pose proof (is_fresh (list_to_set (b :: u ++ a :: v) : gset Z)) as Hf. fold p in Hf.
  rewrite elem_of_list_to_set in Hf. apply linked_app. destruct (split_keeps h h' u a b v p Hs) as [H1 H2].
  - clear -Hf. set_solver.
  - clear -Hf. set_solver.
  - intros x Hx _. by rewrite Hn, decide_False.
  - intros x Hx _. by rewrite Hp, decide_False.
  - split; [done|]. apply chain_cons; [by rewrite Hn, decide_True|by rewrite Hp, decide_True|done].
Qed.

(** The two neighbours at a place of the list *)
Lemma circle_split h head l1 l2 : NoDup (head :: l1 ++ l2) -> linked h (head :: l1) -> linked h (l2 ++ [head]) ->
  exists u a b v, head :: l1 = u ++ [a] /\ l2 ++ [head] = b :: v /\ split_at h u a b v.
Proof.
  intros Hnd H1 H2. destruct (exists_last (l := head :: l1)) as (u & a & E1); [done|]. destruct (l2 ++ [head]) as [|b v] eqn:E2; [by destruct l2|].
  exists u, a, b, v. split_and!; [done..|]. rewrite E1 in H1.
  assert (Hal : a ∈ head :: l1) by (rewrite E1; apply elem_of_app; right; by left). assert (Hbl : b ∈ l2 ++ [head]) by (rewrite E2; by left).
  assert (Hd : forall x, x ∈ head :: l1 -> x ∉ l2) by (rewrite app_comm_cons in Hnd; apply NoDup_app in Hnd; apply Hnd).
  apply NoDup_cons in Hnd as [Hh Hnd]. rewrite elem_of_app in Hh. apply NoDup_app in Hnd as (N1 & _ & N2).
  split_and!; [done..| | | |].
  - intros Ha. assert (N : NoDup (u ++ [a])) by (rewrite <- E1; apply NoDup_cons; tauto). apply NoDup_app in N as (_ & N & _). apply (N a Ha). by left.
  - assert (N : NoDup (b :: v)) by (rewrite <- E2; apply NoDup_app; split_and!; [done| |apply NoDup_singleton]; intros x Hx ->%list_elem_of_singleton; tauto).
    by apply NoDup_cons in N as [N _].
  - rewrite <- E1. cbn. intros Hb. apply elem_of_app in Hbl as [Hbl|Hbl%list_elem_of_singleton]; [|subst; tauto]. apply (Hd b); [by right|done].
  - rewrite <- E2, removelast_last. by apply Hd.
Qed.

Lemma circle_halves h head l1 l2 : linked h (head :: (l1 ++ l2) ++ [head]) -> linked h (head :: l1) /\ linked h (l2 ++ [head]).
Proof.
  intros H. destruct (exists_last (l := head :: l1)) as (u & a & E1); [done|]. rewrite <- app_assoc, app_comm_cons, E1, <- app_assoc in H. rewrite E1. cbn in H.
  apply linked_app in H as [H1 H2]. split; [done|]. destruct (l2 ++ [head]); [done|]. apply H2.
Qed.


(** Reading after writing: evaluates the pointers of a heap after updates, with the nodes that
    are there found among the hypotheses. *)
Ltac present := repeat first [rewrite in_next | rewrite in_prev]; first [assumption | eapply nx_in; eassumption | eapply pv_in; eassumption].
Ltac pointers := repeat first [rewrite nx_prev | rewrite pv_next | rewrite nx_next by present | rewrite pv_prev by present].
Ltac link_step :=
  first [ erewrite lbind by (apply next_run; pointers; repeat case_decide; (eassumption || congruence))
        | erewrite lbind by (apply prev_run; pointers; repeat case_decide; (eassumption || congruence))
        | erewrite lbind by (apply set_next_run; present) | erewrite lbind by (apply set_prev_run; present)
        | erewrite set_next_run by present | erewrite set_prev_run by present ].

(** A node is linked between [a] and [b], in the two orders of the writes. *)
Lemma front_run h head p b : nx h head = Some b -> is_Some (h !! b) -> is_Some (h !! p) -> p <> head -> p <> b ->
  exists h', push_front head p h = Some (tt, h')
    /\ (forall x, nx h' x = if decide (x = head) then Some p else if decide (x = p) then Some b else nx h x)
    /\ (forall x, pv h' x = if decide (x = b) then Some p else if decide (x = p) then Some head else pv h x)
    /\ (forall x, x <> head -> x <> b -> x <> p -> h' !! x = h !! x).
Proof.
  intros Hn Hb Hp H1 H2. pose proof (nx_in _ _ _ Hn) as Hh. unfold push_front. repeat link_step. eexists. split; [done|]. split_and!.
  - intros x. pointers. done.
  - intros x. pointers. done.
  - intros x Hx1 Hx2 Hx3. rewrite !out_next, !out_prev, !out_next by done. done.
Qed.
Lemma back_run h head p a : pv h head = Some a -> is_Some (h !! a) -> is_Some (h !! p) -> p <> head -> p <> a ->
  exists h', push_back head p h = Some (tt, h')
    /\ (forall x, nx h' x = if decide (x = a) then Some p else if decide (x = p) then Some head else nx h x)
    /\ (forall x, pv h' x = if decide (x = head) then Some p else if decide (x = p) then Some a else pv h x)
    /\ (forall x, x <> head -> x <> a -> x <> p -> h' !! x = h !! x).
Proof.
  intros Hn Hb Hp H1 H2. pose proof (pv_in _ _ _ Hn) as Hh. unfold push_back. repeat link_step. eexists. split; [done|]. split_and!.
  - intros x. pointers. done.
  - intros x. pointers. done.
  - intros x Hx1 Hx2 Hx3. rewrite !out_prev, !out_next, !out_prev by done. done.
Qed.
Lemma unlink_run h p a b : pv h p = Some a -> nx h p = Some b -> is_Some (h !! a) -> is_Some (h !! b) -> p <> a -> p <> b ->
  exists h', list_unlink p h = Some (tt, h')
    /\ (forall x, nx h' x = if decide (x = a) then Some b else nx h x) /\ (forall x, pv h' x = if decide (x = b) then Some a else pv h x)
    /\ (forall x, x <> a -> x <> b -> h' !! x = h !! x).
Proof.
  intros Hv Hn Ha Hb H1 H2. unfold list_unlink. repeat link_step. eexists. split; [done|]. split_and!.
  - intros x. pointers. done.
  - intros x. pointers. done.
  - intros x Hx1 Hx2. rewrite out_prev, out_next by done. done.
Qed.

(** ** The operations on a list *)

Section Circle.
Context (h : heap) (head : Z).

Lemma linked_in l x : linked h l -> x ∈ removelast l -> is_Some (h !! x).
Proof.
  induction l as [|a [|b l] IH]; cbn [removelast]; [by intros _ ?%elem_of_nil..|]. intros (H1 & _ & H2) [->|Hx]%elem_of_cons; [by eapply nx_in|by apply IH].
Qed.
Lemma circle_in l x : circle h head l -> x ∈ head :: l -> is_Some (h !! x).
Proof. intros [_ H] Hx. apply (linked_in _ _ H). by rewrite app_comm_cons, removelast_last. Qed.

Lemma circle_place l1 l2 : circle h head (l1 ++ l2) ->
  exists u a b v, head :: l1 = u ++ [a] /\ l2 ++ [head] = b :: v /\ split_at h u a b v /\ nx h a = Some b /\ pv h b = Some a /\ a ∈ head :: l1 ++ l2 /\ b ∈ head :: l1 ++ l2.
Proof.
  intros [Hnd H]. destruct (circle_halves _ _ _ _ H) as [H1 H2]. destruct (circle_split h head l1 l2 Hnd H1 H2) as (u & a & b & v & E1 & E2 & Hs).
  exists u, a, b, v. rewrite <- app_assoc, E2, app_comm_cons, E1, <- app_assoc in H. apply linked_app in H as [_ (H3 & H4 & _)]. split_and!; try done.
  - rewrite app_comm_cons, E1. clear. set_solver.
  - assert (Hb : b ∈ l2 ++ [head]) by (rewrite E2; by left). clear -Hb. set_solver.
Qed.

(** A node more between the two halves of the list *)
Lemma circle_insert h' l1 l2 p u a b v : circle h head (l1 ++ l2) -> p ∉ head :: l1 ++ l2 ->
  head :: l1 = u ++ [a] -> l2 ++ [head] = b :: v -> split_at h u a b v ->
  (forall x, nx h' x = if decide (x = a) then Some p else if decide (x = p) then Some b else nx h x) ->
  (forall x, pv h' x = if decide (x = b) then Some p else if decide (x = p) then Some a else pv h x) ->
  circle h' head (l1 ++ p :: l2).
Proof.
  intros [Hnd _] Hp E1 E2 Hs Hn Hv. split.
  - rewrite app_comm_cons, <- Permutation_middle, <- app_comm_cons. by apply NoDup_cons.
  - rewrite <- app_assoc, <- app_comm_cons, E2, app_comm_cons, E1, <- app_assoc. apply (insert_between h h' u a b v p Hs); [| |done..].
    + rewrite <- E1. clear -Hp. set_solver.
    + rewrite <- E2. clear -Hp. set_solver.
Qed.

Lemma push_front_ok l p : circle h head l -> p ∉ head :: l -> is_Some (h !! p) ->
  exists h', push_front head p h = Some (tt, h') /\ circle h' head (p :: l) /\ apart_from (p :: head :: l) h h'.
Proof.
  intros Hc Hp Hin. destruct (circle_place [] l Hc) as (u & a & b & v & E1 & E2 & Hs & Hn & Hv & Ha & Hb).
  assert (a = head /\ u = []) as [-> ->] by (by destruct u as [|? [|]]; inversion E1).
  destruct (front_run h head p b Hn (circle_in _ _ Hc Hb) Hin) as (h' & E & Hn' & Hv' & O); [intros ->; apply Hp; by left|intros ->; done|].
  exists h'. split_and!; [done|by eapply (circle_insert h' [] l)|]. intros x Hx. apply O; intros ->; apply Hx; [right; by left|by right|by left].
Qed.

Lemma push_back_ok l p : circle h head l -> p ∉ head :: l -> is_Some (h !! p) ->
  exists h', push_back head p h = Some (tt, h') /\ circle h' head (l ++ [p]) /\ apart_from (p :: head :: l) h h'.
Proof.
  intros Hc Hp Hin. pose proof Hc as Hc'. rewrite <- (app_nil_r l) in Hc'. destruct (circle_place l [] Hc') as (u & a & b & v & E1 & E2 & Hs & Hn & Hv & Ha & Hb).
  injection E2 as <- <-. rewrite app_nil_r in Ha.
  destruct (back_run h head p a Hv (circle_in _ _ Hc Ha) Hin) as (h' & E & Hn' & Hv' & O); [intros ->; apply Hp; by left|intros ->; done|].
  exists h'. split_and!; [done|eapply (circle_insert h' l []); eauto; by rewrite app_nil_r|]. intros x Hx. apply O; intros ->; apply Hx; [right; by left|by right|by left].
Qed.

Lemma list_unlink_ok l1 p l2 : circle h head (l1 ++ p :: l2) ->
  exists h', list_unlink p h = Some (tt, h') /\ circle h' head (l1 ++ l2) /\ apart_from (head :: l1 ++ l2) h h'.
Proof.
  intros Hc. pose proof Hc as [Hnd Hl]. assert (Hp : p ∉ head :: l1 ++ l2 /\ NoDup (head :: l1 ++ l2)).
  { rewrite app_comm_cons, <- Permutation_middle, <- app_comm_cons in Hnd. by apply NoDup_cons in Hnd. } destruct Hp as [Hp Hnd'].
  destruct (circle_halves h head l1 (p :: l2) Hl) as [H1 H2]. assert (H3 : linked h (l2 ++ [head])) by (destruct l2; apply H2).
  destruct (circle_split h head l1 l2 Hnd' H1 H3) as (u & a & b & v & E1 & E2 & Hs).
  assert (Hlinks : pv h p = Some a /\ nx h p = Some b).
  { rewrite <- app_assoc, <- app_comm_cons, E2, app_comm_cons, E1, <- app_assoc in Hl. apply linked_app in Hl as [_ (_ & H4 & H5 & _)]. done. } destruct Hlinks as [Hv Hn].
  assert (Ha : a ∈ head :: l1 ++ l2) by (rewrite app_comm_cons, E1; clear; set_solver).
  assert (Hb : b ∈ head :: l1 ++ l2) by (assert (Hb : b ∈ l2 ++ [head]) by (rewrite E2; by left); clear -Hb; set_solver).
  assert (Hin : forall x, x ∈ head :: l1 ++ l2 -> is_Some (h !! x)) by (intros x Hx; apply (circle_in _ _ Hc); clear -Hx; set_solver).
  destruct (unlink_run h p a b Hv Hn (Hin a Ha) (Hin b Hb)) as (h' & E & Hn' & Hv' & O); [by intros ->..|]. exists h'. split_and!; [done| |].
  - split; [done|]. rewrite <- app_assoc, E2, app_comm_cons, E1, <- app_assoc. by apply (remove_between h).
  - intros x Hx. apply O; by intros ->.
Qed.
End Circle.

(** The first and the last node of a list, which the head points to *)
Definition first_of (head : Z) (l : list Z) : Z := List.hd head l.
Definition last_of (head : Z) (l : list Z) : Z := List.last l head.

Lemma linked_ends h head l : linked h (head :: l ++ [head]) <->
  linked h l /\ nx h head = Some (first_of head l) /\ pv h head = Some (last_of head l) /\ nx h (last_of head l) = Some head /\ pv h (first_of head l) = Some head.
Proof.
  unfold first_of, last_of. destruct l as [|x l]; [cbn; tauto|]. destruct (exists_last (l := x :: l)) as (u & y & El); [done|].
  assert (Hy : List.last (x :: l) head = y) by (rewrite El; apply last_last). rewrite Hy. cbn [List.hd]. split.
  - intros (H1 & H2 & H3). rewrite El, <- app_assoc in H3. apply linked_app in H3 as [H3 (H4 & H5 & _)]. by rewrite <- El in H3.
  - intros (H1 & H2 & H3 & H4 & H5). split_and!; [done..|]. change (linked h ((x :: l) ++ [head])). rewrite El, <- app_assoc. apply linked_app. rewrite <- El. done.
Qed.

Lemma first_in head l : l <> [] -> first_of head l ∈ l.
Proof. destruct l; [done|]. intros _. by left. Qed.
Lemma last_in head l : l <> [] -> last_of head l ∈ l.
Proof. intros Hl. destruct (exists_last Hl) as (u & y & ->). unfold last_of. rewrite last_last. clear. set_solver. Qed.

Lemma erase_list_ok h head l1 p l2 : circle h head (l1 ++ p :: l2) ->
  exists h', list_erase p h = Some (first_of head l2, h') /\ circle h' head (l1 ++ l2) /\ apart_from (head :: l1 ++ l2) h h'.
Proof.
  intros Hc. destruct (list_unlink_ok h head l1 p l2 Hc) as (h' & E & Hc' & O). exists h'. split; [|done]. unfold list_erase.
  assert (Hn : nx h p = Some (first_of head l2)).
  { destruct Hc as [_ Hl]. rewrite <- app_assoc, <- app_comm_cons, app_comm_cons in Hl. apply linked_app in Hl as [_ Hl]. by destruct l2; destruct Hl as [Hl _]. }
  by rewrite (lbind _ _ _ _ _ (next_run _ _ _ Hn)), (lbind _ _ _ _ _ E).
Qed.

Lemma empty_front_ok h head l : circle h head l -> list_empty head h = Some (bool_decide (l = []), h) /\ front head h = Some (first_of head l, h).
Proof.
  intros [Hnd Hl]. apply linked_ends in Hl as (_ & Hn & _). unfold front, list_empty. rewrite (lbind _ _ _ _ _ (next_run _ _ _ Hn)). split; [|by apply next_run].
  destruct l as [|x l]; [cbn; by rewrite Z.eqb_refl|]. cbn. rewrite (proj2 (Z.eqb_neq x head)); [done|]. intros ->. apply NoDup_cons in Hnd as [Hnd _]. apply Hnd. by left.
Qed.

(** One head takes over a list. *)
Lemma circle_moves h h' o l : linked h l -> o ∉ l -> NoDup l ->
  nx h' o = Some (first_of o l) -> pv h' o = Some (last_of o l) -> nx h' (last_of o l) = Some o -> pv h' (first_of o l) = Some o ->
  (forall x, x ∈ l -> x <> last_of o l -> nx h' x = nx h x) -> (forall x, x ∈ l -> x <> first_of o l -> pv h' x = pv h x) -> circle h' o l.
Proof.
  intros Hl Ho Hnd H1 H2 H3 H4 Hn Hv. split; [by apply NoDup_cons|]. apply linked_ends. split_and!; try done.
  destruct l as [|x l]; [done|]. destruct (exists_last (l := x :: l)) as (u & y & El); [done|]. assert (Hy : last_of o (x :: l) = y) by (unfold last_of; rewrite El; apply last_last).
  rewrite Hy in *. cbn [first_of List.hd] in *. apply NoDup_cons in Hnd as Hx. destruct Hx as [Hx _]. rewrite El in Hl, Hn, Hv, Hnd |- *. apply NoDup_app in Hnd as (_ & Hnd & _).
  eapply linked_ext; [| |exact Hl].
  - intros z Hz. apply Hn; [clear -Hz; set_solver|]. intros ->. apply (Hnd y Hz). by left.
  - intros z Hz. apply Hv; [by apply tail_in|]. intros ->. rewrite <- El in Hz. done.
Qed.

Lemma relocate_run h head other n v : nx h head = Some n -> pv h head = Some v -> is_Some (h !! n) -> is_Some (h !! v) -> v <> head -> n <> head ->
  exists h', relocate head other h = Some (tt, h')
    /\ (forall x, nx h' x = if decide (x = if n =? other then head else v) then Some head else nx h x)
    /\ (forall x, pv h' x = if decide (x = if n =? other then head else n) then Some head else pv h x)
    /\ (forall x, x <> head -> x <> n -> x <> v -> h' !! x = h !! x) /\ (forall x, is_Some (h !! x) -> is_Some (h' !! x)).
Proof.
  intros Hn Hv In Iv N1 N2. pose proof (nx_in _ _ _ Hn) as Ih. unfold relocate. link_step. destruct (n =? other); repeat link_step; eexists; (split; [done|]); split_and!.
  1,2,5,6: intros x; pointers; done.
  - intros x Hx _ _. by rewrite out_prev, out_next.
  - intros x Hx. present.
  - intros x Hx Hx1 Hx2. by rewrite out_next, out_prev.
  - intros x Hx. present.
Qed.

(** After the exchange of the pointers of the two heads, where each list has become the other's *)
Section Swap.
Context (h : heap) (a b : Z) (la lb : list Z) (Ca : circle h a la) (Cb : circle h b lb) (Hd : forall x, x ∈ a :: la -> x ∉ b :: lb).

Lemma ends_in o l : first_of o l ∈ o :: l /\ last_of o l ∈ o :: l.
Proof. destruct l as [|x l]; [by split; left|]. split; right; [by apply first_in|by apply last_in]. Qed.

(** The end of the other list that the pointer back to the head is at *)
Definition end_at (o o' : Z) (l : list Z) (e : Z) : Z := if first_of o l =? o then o' else e.

Lemma first_head o l : NoDup (o :: l) -> (first_of o l =? o) = bool_decide (l = []).
Proof.
  intros Hnd. destruct l as [|x l]; cbn; [by rewrite Z.eqb_refl|]. apply Z.eqb_neq. intros ->. apply NoDup_cons in Hnd as [Hnd _]. apply Hnd. by left.
Qed.

Lemma swap_run : exists h', swap_lists a b h = Some (tt, h')
  /\ (forall x, nx h' x = if decide (x = end_at a b la (last_of a la)) then Some b else if decide (x = end_at b a lb (last_of b lb)) then Some a
       else if decide (x = b) then Some (first_of a la) else if decide (x = a) then Some (first_of b lb) else nx h x)
  /\ (forall x, pv h' x = if decide (x = end_at a b la (first_of a la)) then Some b else if decide (x = end_at b a lb (first_of b lb)) then Some a
       else if decide (x = b) then Some (last_of a la) else if decide (x = a) then Some (last_of b lb) else pv h x)
  /\ (forall x, x ∉ (a :: la) ++ b :: lb -> h' !! x = h !! x).
Proof.
  pose proof Ca as [Na La]. pose proof Cb as [Nb Lb]. apply linked_ends in La as (_ & A1 & A2 & _), Lb as (_ & B1 & B2 & _).
  destruct (ends_in a la) as [Fa Ya], (ends_in b lb) as [Fb Yb].
  assert (Hab : a <> b) by (intros ->; apply (Hd b); by left).
  assert (Hba : forall x, x ∈ b :: lb -> x <> a) by (intros x Hx ->; apply (Hd a); [by left|done]).
  assert (Hlb : forall x, x ∈ lb -> x <> b) by (intros x Hx ->; apply NoDup_cons in Nb as [Nb _]; done).
  assert (Hla : forall x, x ∈ a :: la -> x <> b) by (intros x Hx ->; apply (Hd b); [done|by left]).
  pose proof (fun x => circle_in h a la x Ca) as Ia. pose proof (fun x => circle_in h b lb x Cb) as Ib.
  unfold swap_lists. rewrite (proj2 (Z.eqb_neq a b) Hab).
  assert (Iaa : is_Some (h !! a)) by (apply Ia; by left). assert (Ibb : is_Some (h !! b)) by (apply Ib; by left).
  do 8 link_step. set (g := upd_prev b _ _).
  assert (Gn : forall x, nx g x = if decide (x = b) then Some (first_of a la) else if decide (x = a) then Some (first_of b lb) else nx h x) by (intros x; unfold g; by pointers).
  assert (Gp : forall x, pv g x = if decide (x = b) then Some (last_of a la) else if decide (x = a) then Some (last_of b lb) else pv h x) by (intros x; unfold g; by pointers).
  assert (Gi : forall x, is_Some (h !! x) -> is_Some (g !! x)) by (intros x Hx; unfold g; present).
  destruct (relocate_run g a b (first_of b lb) (last_of b lb)) as (g1 & E1 & N1 & P1 & O1 & I1); auto.
  { by rewrite Gn, decide_False, decide_True. } { by rewrite Gp, decide_False, decide_True. }
  rewrite (lbind _ _ _ _ _ E1).
  assert (Hend : forall e, e ∈ b :: lb -> (e = b -> first_of b lb = b) -> b <> end_at b a lb e).
  { intros e He Heb. unfold end_at. destruct (Z.eqb_spec (first_of b lb) b); [done|]. intros <-. auto. }
  assert (Hyb : last_of b lb = b -> first_of b lb = b).
  { destruct (decide (lb = [])) as [->|Hne]; [done|]. intros Hy. exfalso. by apply (Hlb (last_of b lb)); [apply last_in|]. }
  destruct (relocate_run g1 b a (first_of a la) (last_of a la)) as (g2 & E2 & N2 & P2 & O2 & _); auto.
  { rewrite N1, decide_False, Gn, decide_True; auto. apply Hend; auto. } { rewrite P1, decide_False, Gp, decide_True; auto. apply Hend; auto. }
  exists g2. split_and!; [done|..].
  - intros x. by rewrite N2, N1, Gn.
  - intros x. by rewrite P2, P1, Gp.
  - intros x Hx. rewrite O2, O1; try (intros ->; clear -Hx Fa Ya Fb Yb; set_solver). unfold g. rewrite !out_prev, !out_next, !out_prev, !out_next; [done|..]; intros ->; clear -Hx; set_solver.
Qed.

(** Where the ends are *)
Lemma end_cases o o' l e : NoDup (o :: l) -> end_at o o' l e = if decide (l = []) then o' else e.
Proof. intros Hnd. unfold end_at. rewrite first_head by done. by destruct (decide (l = [])) as [->|Hl]; [|rewrite bool_decide_false]. Qed.
Lemma other_head (o o' : Z) l : l <> [] -> first_of o l = first_of o' l /\ last_of o l = last_of o' l.
Proof. intros Hl. destruct (exists_last Hl) as (u & y & ->). split; [by destruct u|]. unfold last_of. by rewrite !last_last. Qed.

Lemma swap_ok : exists h', swap_lists a b h = Some (tt, h') /\ circle h' a lb /\ circle h' b la /\ apart_from ((a :: la) ++ b :: lb) h h'.
Proof.
  destruct swap_run as (h' & E & Hn & Hv & O). exists h'. split; [done|]. pose proof Ca as [Na La]. pose proof Cb as [Nb Lb].
  apply linked_ends in La as (La & _), Lb as (Lb & _). rewrite !end_cases in Hn, Hv by done.
  assert (Hab : a <> b) by (intros ->; apply (Hd b); by left).
  assert (Fa : forall x, x ∈ la -> x <> a /\ x <> b /\ forall y, y ∈ lb -> x <> y).
  { intros x Hx. split_and!; [intros ->; by apply NoDup_cons in Na as [Na _]|intros ->; apply (Hd b); [by right|by left]|]. intros y Hy ->. apply (Hd y); by right. }
  assert (Fb : forall x, x ∈ lb -> x <> a /\ x <> b).
  { intros x Hx. split; [intros ->; apply (Hd a); [by left|by right]|intros ->; by apply NoDup_cons in Nb as [Nb _]]. }
  assert (Ea : la = [] \/ la <> [] /\ last_of a la ∈ la /\ first_of a la ∈ la /\ first_of a la = first_of b la /\ last_of a la = last_of b la).
  { destruct (decide (la = [])); [by left|right]. split_and!; try done; [by apply last_in|by apply first_in|by apply other_head..]. }
  assert (Eb : lb = [] \/ lb <> [] /\ last_of b lb ∈ lb /\ first_of b lb ∈ lb /\ first_of b lb = first_of a lb /\ last_of b lb = last_of a lb).
  { destruct (decide (lb = [])); [by left|right]. split_and!; try done; [by apply last_in|by apply first_in|by apply other_head..]. }
  assert (Da : forall x y, x ∈ la -> y ∈ lb -> x <> y) by (intros x y Hx; apply (Fa x Hx)).
  split; [|split; [|intros x; apply O]].
  - apply (circle_moves h); [done|intros H; by destruct (Fb a H)|by apply NoDup_cons in Nb as [_ Nb]|..].
    all: destruct Ea as [->|(? & Ha1 & Ha2 & ? & ?)], Eb as [->|(? & Hb1 & Hb2 & ? & ?)]; try intros x Hx ?; rewrite ?Hn, ?Hv; cbn [first_of last_of List.hd List.last] in *.
    all: try (pose proof (Fa _ Ha1) as (? & ? & ?)); try (pose proof (Fa _ Ha2) as (? & ? & ?)); try (pose proof (Fb _ Hb1) as (? & ?)); try (pose proof (Fb _ Hb2) as (? & ?)).
    all: try (pose proof (Fa _ Hx) as (? & ? & ?)); try (pose proof (Fb _ Hx) as (? & ?)); repeat case_decide; try congruence; exfalso;
      first [apply (Da _ _ Ha1 Hb1); congruence|apply (Da _ _ Ha2 Hb2); congruence|apply (Da _ _ Ha1 Hx); congruence|apply (Da _ _ Ha2 Hx); congruence|apply (Da _ _ Hx Hb1); congruence|apply (Da _ _ Hx Hb2); congruence].
  - apply (circle_moves h); [done|intros H; by destruct (Fa b H) as (_ & ? & _)|by apply NoDup_cons in Na as [_ Na]|..].
    all: destruct Ea as [->|(? & Ha1 & Ha2 & ? & ?)], Eb as [->|(? & Hb1 & Hb2 & ? & ?)]; try intros x Hx ?; rewrite ?Hn, ?Hv; cbn [first_of last_of List.hd List.last] in *.
    all: try (pose proof (Fa _ Ha1) as (? & ? & ?)); try (pose proof (Fa _ Ha2) as (? & ? & ?)); try (pose proof (Fb _ Hb1) as (? & ?)); try (pose proof (Fb _ Hb2) as (? & ?)).
    all: try (pose proof (Fa _ Hx) as (? & ? & ?)); try (pose proof (Fb _ Hx) as (? & ?)); repeat case_decide; try congruence; exfalso;
      first [apply (Da _ _ Ha1 Hb1); congruence|apply (Da _ _ Ha2 Hb2); congruence|apply (Da _ _ Ha1 Hx); congruence|apply (Da _ _ Ha2 Hx); congruence|apply (Da _ _ Hx Hb1); congruence|apply (Da _ _ Hx Hb2); congruence].
Qed.
End Swap.

(** ** What the lists promise *)

(** A list that shares no node with the change is as it was. *)
Lemma circle_frame h h' head l N : circle h head l -> apart_from N h h' -> (forall x, x ∈ head :: l -> x ∉ N) -> circle h' head l.
Proof.
  intros [Hnd Hl] HN Hd. split; [done|]. assert (Hx : forall x, x ∈ head :: l -> h' !! x = h !! x) by (intros x Hx; by apply HN, Hd).
  apply (linked_ext h h' (head :: l) head); [| |exact Hl]; intros x Hi; unfold nx, pv; rewrite Hx; try done. cbn in Hi. clear -Hi. set_solver.
Qed.

Lemma list_remove_split (p : Z) l l' : list_remove p l = Some l' -> NoDup l -> exists l1 l2, l = l1 ++ p :: l2 /\ l' = l1 ++ l2.
Proof.
  unfold list_remove. case_decide as Hp; [|done]. intros [= <-] Hnd. apply list_elem_of_split in Hp as (l1 & l2 & ->). exists l1, l2. split; [done|]. by apply filter_middle.
Qed.

(** C34. The circular lists implement the lists that the model of ports and rights uses, each
    operation on every node that fits: [push_back] and [push_front] of a node that is in memory
    and not in the list add it at the end and at the front, [remove] of a node of the list takes
    out just that node and [erase] gives the node behind it (the head after the last), [empty]
    and [front] are as expected, and [swap] exchanges two lists.  None of them changes the
    pointers of a node that is neither of the list nor its new node, so other lists stay. *)
Theorem lists_correct (h : heap) (head : Z) (l : list Z) : circle h head l ->
  (forall p l', p <> head -> is_Some (h !! p) -> list_push_back p l = Some l' ->
     exists h', push_back head p h = Some (tt, h') /\ circle h' head l' /\ apart_from (head :: l') h h')
  /\ (forall p, p ∉ head :: l -> is_Some (h !! p) ->
       exists h', push_front head p h = Some (tt, h') /\ circle h' head (p :: l) /\ apart_from (head :: p :: l) h h')
  /\ (forall p l', list_remove p l = Some l' ->
       exists h', list_unlink p h = Some (tt, h') /\ circle h' head l' /\ apart_from (head :: l') h h')
  /\ (forall p l1 l2, l = l1 ++ p :: l2 ->
       exists h', list_erase p h = Some (hd head l2, h') /\ circle h' head (l1 ++ l2) /\ apart_from (head :: l1 ++ l2) h h')
  /\ list_empty head h = Some (bool_decide (l = []), h) /\ front head h = Some (hd head l, h)
  /\ (forall other l', circle h other l' -> (forall x, x ∈ head :: l -> x ∉ other :: l') ->
       exists h', swap_lists head other h = Some (tt, h') /\ circle h' head l' /\ circle h' other l
         /\ apart_from ((head :: l) ++ other :: l') h h').
Proof.
  intros Hc. split_and!; [| | | |apply (empty_front_ok h head l Hc)..|].
  - intros p l' Hp Hin. unfold list_push_back. case_decide as Hl; [done|]. intros [= <-]. destruct (push_back_ok h head l p Hc) as (h' & E & Hc' & O); [|done|].
    + by intros [?|?]%elem_of_cons.
    + exists h'. split_and!; [done..|]. intros x Hx. apply O. clear -Hx. set_solver.
  - intros p Hp Hin. destruct (push_front_ok h head l p Hc Hp Hin) as (h' & E & Hc' & O). exists h'. split_and!; [done..|]. intros x Hx. apply O. clear -Hx. set_solver.
  - intros p l' Hr. pose proof Hc as [[_ Hnd]%NoDup_cons _]. destruct (list_remove_split p l l' Hr Hnd) as (l1 & l2 & -> & ->). by apply list_unlink_ok.
  - intros p l1 l2 ->. by apply erase_list_ok.
  - intros other l' Ho Hd. by apply swap_ok.
Qed.

Definition two_nodes : heap := list_to_map [(1, ListNode 2 3); (2, ListNode 3 1); (3, ListNode 1 2); (4, ListNode 0 0)].

Lemma lists_correct_witness : exists h', push_back 1 4 two_nodes = Some (tt, h') /\ circle h' 1 [2; 3; 4] /\ apart_from [1; 2; 3; 4] two_nodes h'.
Proof.
  refine (proj1 (lists_correct two_nodes 1 [2; 3] _) 4 [2; 3; 4] _ _ _).
  - split; [apply (bool_decide_unpack _); vm_compute; exact I|]. cbn. repeat split.
  - discriminate.
  - eexists. reflexivity.
  - reflexivity.
Defined.
