(* ===== verification/Pmm.v ===== *)
(** * kernel/generic/memory/pmm.cc: physical memory

    Every page of memory has a [Page] structure; the structures of a stretch of memory are an
    array with a reserved structure before it and behind it.  A free block is a run of pages
    whose first and last structures are marked free and hold the number of its pages; for each
    of three zones of memory there is a list of free blocks per order of magnitude.  Pointers to
    [Page] are numbers counted in structures, 0 is the null pointer, and the heap maps them to
    the structures; the members of the union are constructors, so that reading one member after
    another was written, following a pointer to nothing and a failed assertion are the outcome
    [None].  The lists are those of IntrusiveList and the tree of arrays is that of RbTree. *)

From stdpp Require Import base list numbers gmap.
From S2P Require Import ListFacts.
Open Scope Z_scope.

(** ** Data *)

Inductive page_type := Free | PendingFree | Allocated | AllocatedPending | Reserved.
#[global] Instance page_type_eq : EqDecision page_type.
Proof. solve_decision. Defined.

(** The union of [Page]; of the page of a memory object, the fields that count references *)
Inductive page_data :=
  | RCUState (pages_to_free : Z)
  | Mem_Object_LL_Head (owner refcount : Z)
  | PendingAllocHead (next phys_addr size_pages : Z)
  | FreeRegionHead (size : Z).

Record page := Page { pg_type : page_type; pg_flags : Z; pg_data : page_data }.

Definition PAGE_SIZE : Z := 4096.
Definition FLAG_NO_PAGE : Z := 1.
Definition has_physical_page (p : page) : bool := Z.land (pg_flags p) FLAG_NO_PAGE =? 0.

(** [PMMRegion]: the zones *)
Inductive zone := region_isa | region_below_4gb | region_above_4gb.
#[global] Instance zone_eq : EqDecision zone.
Proof. solve_decision. Defined.

Definition zone_start (z : zone) : Z := match z with region_isa => 0 | region_below_4gb => 1048576 | region_above_4gb => 4294967296 end.
Definition zone_get (start_addr : Z) : zone :=
  if start_addr <? 1048576 then region_isa else if start_addr <? 4294967296 then region_below_4gb else region_above_4gb.

(** [page_lists]: the number of lists of a zone *)
Definition page_lists : nat := 18.

(** [PageArrayDescriptor] *)
Record page_array := PageArray { start_addr : Z; arr_size : Z; parent_region : zone; arr_pages : Z }.
Definition arr_end (d : page_array) : Z := arr_pages d + arr_size d.
Definition end_phys (d : page_array) : Z := start_addr d + arr_size d * PAGE_SIZE.

Record pmm := Pmm {
  pages : gmap Z page;
  phys_memory_regions : list page_array;
  free_pages_list : zone -> nat -> list Z;
  rcu_pending : list Z  (** the pages that wait for the grace period *) }.

(** ** The monad *)

Definition P (A : Type) : Type := pmm -> option (A * pmm).
#[global] Instance P_ret : MRet P := fun A a s => Some (a, s).
#[global] Instance P_bind : MBind P := fun A B f c s => match c s with Some (a, s') => f a s' | None => None end.

Definition fails {A} : P A := fun _ => None.
Definition assert (b : bool) : P unit := if b then mret tt else fails.
Definition from {A} (o : option A) : P A := fun s => match o with Some a => Some (a, s) | None => None end.
Definition get_page (p : Z) : P page := fun s => x ← pages s !! p; Some (x, s).
Definition put_page (p : Z) (x : page) : P unit :=
  fun s => _ ← pages s !! p; Some (tt, Pmm (<[p := x]> (pages s)) (phys_memory_regions s) (free_pages_list s) (rcu_pending s)).
Definition get_list (z : zone) (o : nat) : P (list Z) := fun s => Some (free_pages_list s z o, s).
Definition set_lists (f : zone -> nat -> list Z) : P unit := fun s => Some (tt, Pmm (pages s) (phys_memory_regions s) f (rcu_pending s)).
Definition get_arrays : P (list page_array) := fun s => Some (phys_memory_regions s, s).
Definition page_count : P nat := fun s => Some (size (pages s), s).

(** Fields *)
Definition set_type (p : Z) (t : page_type) : P unit := x ← get_page p; put_page p (Page t (pg_flags x) (pg_data x)).
Definition set_flags (p : Z) (f : Z) : P unit := x ← get_page p; put_page p (Page (pg_type x) f (pg_data x)).
Definition set_data (p : Z) (d : page_data) : P unit := x ← get_page p; put_page p (Page (pg_type x) (pg_flags x) d).
Definition free_size (p : Z) : P Z := x ← get_page p; match pg_data x with FreeRegionHead n => mret n | _ => fails end.
Definition is_free (p : Z) : P bool := x ← get_page p; mret (bool_decide (pg_type x = Free)).

(** [push_front] to a list of a node that is in none, and [remove] of a node from the list it
    is in *)
Definition in_lists (s : pmm) (z : zone) (p : Z) : bool := existsb (fun o => bool_decide (p ∈ free_pages_list s z o)) (seq 0 page_lists).
Definition list_push (z : zone) (o : nat) (p : Z) : P unit :=
  fun s => if in_lists s z p then None
           else set_lists (fun z' o' => if decide (z' = z /\ o' = o) then p :: free_pages_list s z o else free_pages_list s z' o') s.
Definition list_take (z : zone) (p : Z) : P unit :=
  fun s => if in_lists s z p then
             set_lists (fun z' o' => if decide (z' = z) then filter (fun q => q <> p) (free_pages_list s z' o') else free_pages_list s z' o') s
           else None.

(** [kernel::types::log2], undefined for 0 *)
Definition log2 (n : Z) : option nat := if 0 <? n then Some (Z.to_nat (Z.log2 n)) else None.

(** The list of a block of [n] pages *)
Definition list_order (n : Z) : option nat := o ← log2 n; Some (if decide (page_lists <= o)%nat then page_lists - 1 else o)%nat.

(** ** Finding structures *)

(** [memory_regions.get_smaller_or_equal] and [operator++] *)
Definition smaller_array (p : Z) (l : list page_array) : option page_array :=
  foldr (fun d best => if arr_pages d <=? p then
                         match best with
                         | Some b => if arr_pages b <? arr_pages d then Some d else best
                         | None => Some d
                         end
                       else best) None l.
Definition next_array (d : page_array) (l : list page_array) : option page_array :=
  foldr (fun e best => if arr_pages d <? arr_pages e then
                         match best with
                         | Some b => if arr_pages e <? arr_pages b then Some e else best
                         | None => Some e
                         end
                       else best) None l.

(** [PageArrayDescriptor::find] *)
Definition find_array (p : Z) : P page_array :=
  l ← get_arrays;
  d ← from (smaller_array p l);
  _ ← assert ((arr_pages d <=? p) && (p <? arr_end d));
  mret d.

(** [Page::get_phys_addr] *)
Definition get_phys_addr (p : Z) : P Z :=
  x ← get_page p;
  _ ← assert (has_physical_page x);
  d ← find_array p;
  mret ((p - arr_pages d) * PAGE_SIZE + start_addr d).

(** [lower_or_equal]: the last element of a sorted array that is not above the value, as an index *)
Fixpoint lower_or_equal (fuel : nat) (l : list page_array) (addr : Z) (left right result : nat) : option nat :=
  if decide (left < right)%nat then
    match fuel with
    | O => None
    | S fuel =>
        let mid := (left + (right - left) / 2)%nat in
        d ← l !! mid;
        if addr <? start_addr d then lower_or_equal fuel l addr left mid result
        else lower_or_equal fuel l addr (mid + 1) right mid
    end
  else Some result.

(** [find_page] *)
Definition find_page (addr : Z) : P Z :=
  l ← get_arrays;
  if bool_decide (l = []) then mret 0
  else
    i ← from (lower_or_equal (length l) l addr 0 (length l) 0);
    d ← from (l !! i);
    if (start_addr d <=? addr) && (addr <? end_phys d) then mret (arr_pages d + (addr - start_addr d) / PAGE_SIZE)
    else mret 0.

(** ** Freeing *)

(** The number of pages to free, and the next block of a chain *)
Definition pages_of (p : Z) : P (Z * Z) :=
  x ← get_page p;
  match pg_type x, pg_data x with
  | AllocatedPending, PendingAllocHead next _ n => mret (n, next)
  | PendingFree, RCUState n => mret (n, 0)
  | _, _ => fails
  end.

(** The part of the pages that is in the next array *)
Definition carry_over (p num_of_pages : Z) (region : page_array) : P Z :=
  l ← get_arrays;
  next_region ← from (next_array region l);
  _ ← assert (end_phys region =? start_addr next_region);
  let max_pages := arr_end region - p in
  _ ← assert (0 <? max_pages);
  _ ← assert (max_pages <? num_of_pages);
  let next_size := num_of_pages - max_pages in
  let next := arr_pages next_region in
  x ← get_page p;
  _ ← put_page next x;
  y ← get_page next;
  _ ← match pg_type y, pg_data y with
      | AllocatedPending, PendingAllocHead n a _ => set_data next (PendingAllocHead n a next_size)
      | AllocatedPending, _ => fails
      | _, _ => set_data next (RCUState next_size)
      end;
  mret next.

(** Coalescing with the block before: the first page of the block and the size it had *)
Definition coalesce_before (p num_of_pages : Z) : P (Z * option Z) :=
  before ← is_free (p - 1);
  if before : bool then
    m ← free_size (p - 1);
    let p := p - m in
    free ← is_free p;
    _ ← assert free;
    m' ← free_size p;
    _ ← assert (m' =? m);
    _ ← set_data p (FreeRegionHead (m' + num_of_pages));
    mret (p, Some m)
  else mret (p, None).

(** Coalescing with the block behind *)
Definition coalesce_after (z : zone) (p : Z) : P unit :=
  n ← free_size p;
  let region_after := p + n in
  free ← is_free region_after;
  if free : bool then
    _ ← list_take z region_after;
    k ← free_size region_after;
    free ← is_free (region_after + k - 1);
    _ ← assert free;
    k' ← free_size (region_after + k - 1);
    _ ← assert (k' =? k);
    set_data p (FreeRegionHead (n + k))
  else mret tt.

(** The list of the block *)
Definition enlist (z : zone) (p : Z) (coalesce_old_size : option Z) : P unit :=
  n ← free_size p;
  match coalesce_old_size with
  | None => order ← from (list_order n); list_push z order p
  | Some m =>
      old_order ← from (list_order m);
      new_order ← from (list_order n);
      if bool_decide (old_order <> page_lists - 1)%nat && bool_decide (old_order < new_order)%nat then
        _ ← list_take z p;
        list_push z new_order p
      else mret tt
  end.

(** The part of [free_page] under the lock *)
Definition free_block (z : zone) (p num_of_pages : Z) : P unit :=
  _ ← set_type p Free;
  _ ← set_data p (FreeRegionHead num_of_pages);
  _ ← set_flags p 0;
  '(p, coalesce_old_size) ← coalesce_before p num_of_pages;
  _ ← coalesce_after z p;
  _ ← enlist z p coalesce_old_size;
  n ← free_size p;
  let last := p + n - 1 in
  _ ← set_type last Free;
  set_data last (FreeRegionHead n).

Definition free_page_round (p : Z) : P Z :=
  region ← find_array p;
  '(num_of_pages, next) ← pages_of p;
  next ← (if arr_end region - p <? num_of_pages then carry_over p num_of_pages region else mret next);
  _ ← free_block (parent_region region) p num_of_pages;
  mret next.

Fixpoint free_page_chain (fuel : nat) (p : Z) : P unit :=
  if p =? 0 then mret tt
  else
    match fuel with
    | O => fails
    | S fuel => next ← free_page_round p; free_page_chain fuel next
    end.

Definition free_page (p : Z) : P unit := n ← page_count; free_page_chain n p.

(** ** Allocation *)

(** The first block of the first list that is not empty, from the list [i] on *)
Fixpoint first_block (z : zone) (n i : nat) : P (option (nat * Z)) :=
  match n with
  | O => mret None
  | S n =>
      l ← get_list z i;
      match l with
      | [] => first_block z n (S i)
      | p :: _ => mret (Some (i, p))
      end
  end.

(** [count] pages of the end of a block of the list [i] *)
Definition take_from (z : zone) (i : nat) (p count : Z) : P Z :=
  n ← free_size p;
  if count <? n then
    let rest := n - count in
    _ ← set_data p (FreeRegionHead rest);
    let t := p + rest - 1 in
    _ ← set_data t (FreeRegionHead rest);
    _ ← set_type t Free;
    _ ← (if rest <? 2 ^ Z.of_nat i then
           _ ← list_take z p;
           new_order ← from (log2 rest);
           _ ← assert (bool_decide (new_order < i)%nat);
           list_push z new_order p
         else mret tt);
    mret (p + rest)
  else
    _ ← list_take z p;
    mret p.

Definition alloc_pages_from (z : zone) (count : Z) : P Z :=
  _ ← assert (0 <? count);
  l ← get_arrays;
  if bool_decide (l = []) then mret 0
  else if 2 ^ Z.of_nat page_lists <? count then mret 0
  else
    order ← from (log2 count);
    let order := if 2 ^ Z.of_nat order <? count then S order else order in
    b ← first_block z (page_lists - order) order;
    match b with
    | None => mret 0
    | Some (i, p) =>
        p ← take_from z i p count;
        _ ← set_type p AllocatedPending;
        _ ← set_flags p 0;
        phys ← get_phys_addr p;
        _ ← set_data p (PendingAllocHead 0 phys count);
        _ ← set_type (p + count - 1) AllocatedPending;
        mret p
    end.

Inductive AllocPolicy := Normal | Below4GB | ISA.

Definition alloc_pages (count : Z) (policy : AllocPolicy) : P Z :=
  match policy with
  | Normal =>
      p ← alloc_pages_from region_above_4gb count;
      if p =? 0 then alloc_pages_from region_below_4gb count else mret p
  | Below4GB => alloc_pages_from region_below_4gb count
  | ISA => alloc_pages_from region_isa count
  end.

(** ** Memory for the kernel *)

Fixpoint own_pages (n : nat) (p : Z) : P unit :=
  match n with
  | O => mret tt
  | S n => _ ← put_page p (Page Allocated 0 (Mem_Object_LL_Head 0 1)); own_pages n (p + 1)
  end.

(** [get_memory_for_kernel], after the start; -1 if there is no memory *)
Definition get_memory_for_kernel (count : Z) (policy : AllocPolicy) : P Z :=
  _ ← assert (0 <? count);
  p ← alloc_pages count policy;
  if p =? 0 then mret (-1)
  else
    _ ← own_pages (Z.to_nat count) p;
    get_phys_addr p.

(** The list of pages that wait for the grace period *)
Definition rcu_push_page (p : Z) : P unit :=
  fun s => Some (tt, Pmm (pages s) (phys_memory_regions s) (free_pages_list s) (p :: rcu_pending s)).
Definition free_memory_for_kernel (addr number_of_pages : Z) : P unit :=
  p ← find_page addr;
  _ ← assert (negb (p =? 0));
  _ ← set_type p PendingFree;
  _ ← set_data p (RCUState number_of_pages);
  rcu_push_page p.

(** [Page::rcu_callback], on a page of the list *)
Definition rcu_callback_page (p : Z) : P unit :=
  fun s => if decide (p ∈ rcu_pending s) then
             free_page p (Pmm (pages s) (phys_memory_regions s) (free_pages_list s) (filter (fun q => q <> p) (rcu_pending s)))
           else None.
