(* ===== verification/PmmInv.v ===== *)
(** * Physical memory: free and busy blocks

    The pages of an array are a sequence of blocks, free or busy.  The structures at the two
    ends of a free block carry its size, those at the ends of a busy block are not marked free;
    two free blocks are never neighbours, and the lists hold the free blocks by their order. *)

From Stdlib Require Import ZArith Lia.
From stdpp Require Import base numbers list gmap.
From S2P Require Import ListFacts Pmm.
Open Scope Z_scope.

Notation heap := (gmap Z page).

(** ** Blocks *)

(** Whether the block is free, and its number of pages *)
Notation block := (bool * Z)%type.

Fixpoint total (bs : list block) : Z := match bs with [] => 0 | (_, n) :: bs => n + total bs end.

Definition tag (h : heap) (p n : Z) : Prop := exists f, h !! p = Some (Page Free f (FreeRegionHead n)).
Definition not_free (h : heap) (p : Z) : Prop := exists x, h !! p = Some x /\ pg_type x <> Free.

Definition ends_marked (h : heap) (p : Z) (b : block) : Prop :=
  0 < b.2 /\ if b.1 then tag h p b.2 /\ tag h (p + b.2 - 1) b.2 else not_free h p /\ not_free h (p + b.2 - 1).
Fixpoint marked (h : heap) (p : Z) (bs : list block) : Prop :=
  match bs with [] => True | b :: bs => ends_marked h p b /\ marked h (p + b.2) bs end.

(** The free blocks and where they start *)
Fixpoint frees (p : Z) (bs : list block) : list (Z * Z) :=
  match bs with [] => [] | (f, n) :: bs => (if f then [(p, n)] else []) ++ frees (p + n) bs end.

(** No two free neighbours *)
Fixpoint apart (prev : bool) (bs : list block) : Prop :=
  match bs with [] => True | (f, _) :: bs => prev && f = false /\ apart f bs end.
Definition last_free (prev : bool) (bs : list block) : bool := foldl (fun _ b => b.1) prev bs.

Definition same_outside (a b : Z) (h h' : heap) : Prop := forall x, x < a \/ b <= x -> h' !! x = h !! x.

Lemma total_app b1 b2 : total (b1 ++ b2) = total b1 + total b2.
Proof. induction b1 as [|[f n] b1 IH]; cbn; lia. Qed.
Lemma marked_app h p b1 b2 : marked h p (b1 ++ b2) <-> marked h p b1 /\ marked h (p + total b1) b2.
Proof.
  revert p. induction b1 as [|[f n] b1 IH]; intros p; cbn; [rewrite Z.add_0_r; tauto|]. rewrite IH, Z.add_assoc. tauto.
Qed.
Lemma frees_app p b1 b2 : frees p (b1 ++ b2) = frees p b1 ++ frees (p + total b1) b2.
Proof.
  revert p. induction b1 as [|[f n] b1 IH]; intros p; cbn; [by rewrite Z.add_0_r|]. by rewrite IH, Z.add_assoc, app_assoc.
Qed.
Lemma apart_app f b1 b2 : apart f (b1 ++ b2) <-> apart f b1 /\ apart (last_free f b1) b2.
Proof. revert f. induction b1 as [|[g n] b1 IH]; intros f; cbn; [tauto|]. rewrite IH. tauto. Qed.

Lemma marked_total h p bs : marked h p bs -> 0 <= total bs.
Proof. revert p. induction bs as [|[f n] bs IH]; intros p; cbn; [lia|]. intros [[Hn _] H]. apply IH in H. cbn in *. lia. Qed.

Lemma ends_marked_ext h h' p b : ends_marked h p b -> h' !! p = h !! p -> h' !! (p + b.2 - 1) = h !! (p + b.2 - 1) -> ends_marked h' p b.
Proof. unfold ends_marked, tag, not_free. intros H H1 H2. by rewrite H1, H2. Qed.

Lemma marked_ext h h' p bs : marked h p bs -> (forall x, p <= x < p + total bs -> h' !! x = h !! x) -> marked h' p bs.
Proof.
  revert p. induction bs as [|[f n] bs IH]; intros p; cbn; [done|]. intros [He Hm] Hx. pose proof (marked_total _ _ _ Hm) as Ht. pose proof (proj1 He) as Hn. cbn in Hn. split.
  - apply (ends_marked_ext h h' p (f, n) He); apply Hx; cbn; lia.
  - apply IH; [done|]. intros x Hx'. apply Hx. lia.
Qed.

Lemma frees_range h p bs q n : marked h p bs -> (q, n) ∈ frees p bs -> p <= q /\ 0 < n /\ q + n <= p + total bs.
Proof.
  revert p. induction bs as [|[f m] bs IH]; intros p; cbn; [by intros _ ?%elem_of_nil|]. intros [He Hm] [Hq|Hq]%elem_of_app.
  - destruct f; [|by apply elem_of_nil in Hq]. apply list_elem_of_singleton in Hq as [= -> ->]. pose proof (marked_total _ _ _ Hm). destruct He as [He _]. cbn in He. lia.
  - destruct He as [He _]. cbn in He. destruct (IH _ Hm Hq). lia.
Qed.

(** A free block splits the sequence. *)
Lemma frees_split p bs q n : (q, n) ∈ frees p bs -> exists b1 b2, bs = b1 ++ (true, n) :: b2 /\ q = p + total b1.
Proof.
  revert p. induction bs as [|[f m] bs IH]; intros p; cbn; [by intros ?%elem_of_nil|]. intros [Hq|Hq]%elem_of_app.
  - destruct f; [|by apply elem_of_nil in Hq]. apply list_elem_of_singleton in Hq as [= -> ->]. exists [], bs. cbn. split; [done|lia].
  - apply IH in Hq as (b1 & b2 & -> & ->). exists ((f, m) :: b1), b2. cbn. split; [done|lia].
Qed.

(** ** Arrays *)

Definition within (d : page_array) (x : Z) : Prop := arr_pages d - 1 <= x <= arr_end d.

Record area_ok (h : heap) (d : page_array) (bs : list block) : Prop := AreaOk {
  area_total : total bs = arr_size d;
  area_marked : marked h (arr_pages d) bs;
  area_apart : apart false bs;
  area_borders : not_free h (arr_pages d - 1) /\ not_free h (arr_end d);
  area_pages : forall x, within d x -> is_Some (h !! x);
  area_null : 1 < arr_pages d }.

Notation area := (page_array * list block)%type.

Definition separate (l : list page_array) : Prop := forall i j c e x, l !! i = Some c -> l !! j = Some e -> i <> j -> within c x -> ~ within e x.

(** The free block of [n] pages at [q], in the zone [z] *)
Definition free_at (G : list area) (z : zone) (q n : Z) : Prop :=
  exists a, a ∈ G /\ parent_region a.1 = z /\ (q, n) ∈ frees (arr_pages a.1) a.2.

Record pmm_ok (s : pmm) (G : list area) : Prop := PmmOk {
  ok_arrays : phys_memory_regions s = G.*1;
  ok_areas : forall a, a ∈ G -> area_ok (pages s) a.1 a.2;
  ok_separate : separate (phys_memory_regions s);
  ok_nodup : forall z o, NoDup (free_pages_list s z o);
  ok_lists : forall z o q, q ∈ free_pages_list s z o <-> exists n, free_at G z q n /\ list_order n = Some o }.

Lemma separate_middle G1 (a : area) G2 b x : separate (G1 ++ a :: G2).*1 -> b ∈ G1 ++ G2 -> within a.1 x -> ~ within b.1 x.
Proof.
  intros Hs Hb. assert (Ha : (G1 ++ a :: G2).*1 !! length G1 = Some a.1) by (by rewrite list_lookup_fmap, list_lookup_middle).
  apply elem_of_app in Hb as [Hb|Hb]; apply list_elem_of_lookup in Hb as [i Hi].
  - pose proof (lookup_lt_Some _ _ _ Hi). refine (Hs (length G1) i a.1 b.1 x Ha _ _); [|lia]. by rewrite list_lookup_fmap, lookup_app_l, Hi.
  - refine (Hs (length G1) (S (length G1 + i)) a.1 b.1 x Ha _ _); [|lia]. rewrite list_lookup_fmap, lookup_app_r by lia.
    replace (S (length G1 + i) - length G1)%nat with (S i) by lia. change ((a :: G2) !! S i) with (G2 !! i). by rewrite Hi.
Qed.

(** ** Changing a run of blocks *)

Section Replace.
Context (h h' : heap) (d : page_array) (b1 mid mid' b2 : list block).
Let st := arr_pages d + total b1.
Context (Ha : area_ok h d (b1 ++ mid ++ b2)) (Ht : total mid' = total mid).
Context (Hm : marked h' st mid') (Ho : same_outside st (st + total mid) h h').

Lemma run_bounds : 0 <= total b1 /\ 0 <= total mid /\ 0 <= total b2 /\ total b1 + total mid + total b2 = arr_size d.
Proof.
  destruct Ha as [T M _ _ _ _]. rewrite !marked_app in M. destruct M as (M1 & M2 & M3). apply marked_total in M1, M2, M3. rewrite !total_app in T. lia.
Qed.

Lemma area_replace : (forall x, is_Some (h !! x) -> is_Some (h' !! x)) -> apart false (b1 ++ mid' ++ b2) -> area_ok h' d (b1 ++ mid' ++ b2).
Proof.
  intros Hp Hap. pose proof run_bounds as (B1 & B2 & B3 & B4). destruct Ha as [T M A [L R] I N]. rewrite !marked_app in M. destruct M as (M1 & M2 & M3).
  assert (Hout : forall x, x < st \/ st + total mid <= x -> h' !! x = h !! x) by exact Ho. split; try done.
  - rewrite !total_app in *. lia.
  - rewrite !marked_app, Ht. split_and!; [|done|]; (eapply marked_ext; [eassumption|]); intros x Hx; apply Hout; unfold st; lia.
  - unfold not_free, arr_end in *. rewrite !Hout by (unfold st; lia). done.
  - intros x Hx. by apply Hp, I.
Qed.
End Replace.

(** The lists after the change: the entries of the run are replaced. *)
Definition relisted (s s' : pmm) (d : page_array) (p : Z) (mid mid' : list block) : Prop :=
  (forall z o, NoDup (free_pages_list s' z o))
  /\ forall z o q, q ∈ free_pages_list s' z o <->
       (q ∈ free_pages_list s z o /\ ~ p <= q < p + total mid) \/ (parent_region d = z /\ exists n, (q, n) ∈ frees p mid' /\ list_order n = Some o).

Lemma free_at_app G1 a G2 z q n : free_at (G1 ++ a :: G2) z q n <-> free_at (G1 ++ G2) z q n \/ (parent_region a.1 = z /\ (q, n) ∈ frees (arr_pages a.1) a.2).
Proof.
  unfold free_at. split.
  - intros (b & Hb & H1 & H2). rewrite elem_of_app, elem_of_cons in Hb. destruct Hb as [Hb|[->|Hb]]; [left|by right|left]; exists b; rewrite elem_of_app; auto.
  - intros [(b & Hb & H)|H]; [|exists a]; [exists b|]; rewrite ?elem_of_app, ?elem_of_cons in *; naive_solver.
Qed.

Section ReplaceRun.
Context (s s' : pmm) (G1 G2 : list area) (d : page_array) (b1 mid mid' b2 : list block).
Let st := arr_pages d + total b1.
Let G := G1 ++ (d, b1 ++ mid ++ b2) :: G2.
Let G' := G1 ++ (d, b1 ++ mid' ++ b2) :: G2.
Context (Hok : pmm_ok s G) (Ht : total mid' = total mid).
Context (Hm : marked (pages s') st mid') (Ho : same_outside st (st + total mid) (pages s) (pages s')).

Lemma run_area : area_ok (pages s) d (b1 ++ mid ++ b2).
Proof. apply (ok_areas _ _ Hok (d, _)). subst G. clear. set_solver. Qed.

Lemma run_range : arr_pages d <= st /\ st + total mid <= arr_end d /\ 0 <= total mid.
Proof. destruct (run_bounds _ _ _ _ _ run_area) as (B1 & B2 & B3 & B4). unfold arr_end. subst st. lia. Qed.

Lemma run_separate : separate G.*1.
Proof. rewrite <- (ok_arrays _ _ Hok). apply (ok_separate _ _ Hok). Qed.

(** The blocks elsewhere do not start in the run. *)
Lemma elsewhere z q n : free_at (G1 ++ G2) z q n -> ~ st <= q < st + total mid.
Proof.
  intros (a & Ha & _ & Hq) Hr. pose proof run_range as (R1 & R2 & _). assert (HaG : a ∈ G) by (subst G; clear -Ha; set_solver).
  pose proof (ok_areas _ _ Hok a HaG) as [T M _ _ _ _]. destruct (frees_range _ _ _ _ _ M Hq) as (F1 & F2 & F3).
  apply (separate_middle G1 (d, b1 ++ mid ++ b2) G2 a q run_separate Ha); unfold within, arr_end in *; cbn; lia.
Qed.

Lemma pmm_replace : phys_memory_regions s' = phys_memory_regions s -> (forall x, is_Some (pages s !! x) -> is_Some (pages s' !! x)) ->
  apart false (b1 ++ mid' ++ b2) -> relisted s s' d st mid mid' -> pmm_ok s' G'.
Proof.
  intros Harr Hp Hap [Hnd Hl]. pose proof run_range as (R1 & R2 & R3). pose proof run_area as Hra. split.
  - rewrite Harr, (ok_arrays _ _ Hok). subst G G'. by rewrite !fmap_app.
  - intros a Ha. unfold G' in Ha. rewrite elem_of_app, elem_of_cons in Ha. assert (Hin : a ∈ G1 ++ G2 \/ a = (d, b1 ++ mid' ++ b2)) by (rewrite elem_of_app; tauto). destruct Hin as [Hin|Hin].
    + assert (HaG : a ∈ G) by (subst G; clear -Hin; set_solver). pose proof (ok_areas _ _ Hok a HaG) as [T M A [L R] I N].
      assert (Hout : forall x, within a.1 x -> pages s' !! x = pages s !! x).
      { intros x Hx. apply Ho. destruct (Z.lt_ge_cases x st); [by left|right]. destruct (Z.lt_ge_cases x (st + total mid)); [|done]. exfalso.
        apply (separate_middle G1 (d, b1 ++ mid ++ b2) G2 a x run_separate Hin); [|done]. unfold within, arr_end in *. cbn. lia. }
      assert (Hw : 0 <= arr_size a.1) by (rewrite <- T; by eapply marked_total).
      split; try done.
      * eapply marked_ext; [exact M|]. intros x Hx. apply Hout. unfold within, arr_end. lia.
      * unfold not_free in *. rewrite !Hout by (unfold within, arr_end; lia). done.
      * intros x Hx. rewrite Hout by done. by apply I.
    + subst a. by apply (area_replace (pages s) _ d b1 mid mid' b2).
  - rewrite Harr. apply (ok_separate _ _ Hok).
  - done.
  - intros z o q. rewrite Hl, (ok_lists _ _ Hok). unfold G, G'. setoid_rewrite free_at_app. cbn [fst snd]. setoid_rewrite frees_app. setoid_rewrite frees_app.
    fold st. rewrite Ht. setoid_rewrite elem_of_app. setoid_rewrite elem_of_app. pose proof Hra as [_ M _ _ _ _]. rewrite !marked_app in M. fold st in M. destruct M as (M1 & M2 & M3).
    assert (F1 : forall n, (q, n) ∈ frees (arr_pages d) b1 -> ~ st <= q < st + total mid) by (intros n Hn; apply (frees_range _ _ _ _ _ M1) in Hn; subst st; lia).
    assert (F2 : forall n, (q, n) ∈ frees st mid -> st <= q < st + total mid) by (intros n Hn; apply (frees_range _ _ _ _ _ M2) in Hn; lia).
    assert (F3 : forall n, (q, n) ∈ frees (st + total mid) b2 -> ~ st <= q < st + total mid) by (intros n Hn; apply (frees_range _ _ _ _ _ M3) in Hn; lia).
    pose proof (fun n => elsewhere z q n) as F4. split.
    + intros [[(n & [Hn|(Hz & Hn)] & Hor) Hr]|(Hz & n & Hn & Hor)]; [exists n; tauto| |exists n; tauto].
      exists n. destruct Hn as [Hn|[Hn|Hn]]; [tauto| |tauto]. by apply F2 in Hn.
    + intros (n & [Hn|(Hz & [Hn|[Hn|Hn]])] & Hor); 
        [left; split; [exists n; tauto|by eapply F4]|left; split; [exists n; tauto|by eapply F1]|right; split; [done|by exists n]|left; split; [exists n; tauto|by eapply F3]].
Qed.
End ReplaceRun.
