(* ===== verification/PmmOps.v ===== *)
(** * Physical memory: the operations keep the blocks

    What freeing and allocating do to the sequence of blocks of an array: a freed block is
    merged with its free neighbours, an allocation takes pages from the end of a free block. *)

From Stdlib Require Import ZArith Lia.
From stdpp Require Import base numbers list gmap.
From S2P Require Import ListFacts Pmm PmmInv.
Open Scope Z_scope.

(** ** Running the steps *)

Definition with_pages (h : heap) (s : pmm) : pmm := Pmm h (phys_memory_regions s) (free_pages_list s) (rcu_pending s).

Lemma pbind {A B} (c : P A) (f : A -> P B) s a s' : c s = Some (a, s') -> (c ≫= f) s = f a s'.
Proof. intros H. unfold mbind, P_bind. by rewrite H. Qed.
Lemma get_page_run p x s : pages s !! p = Some x -> get_page p s = Some (x, s).
Proof. intros H. unfold get_page. by rewrite H. Qed.
Lemma put_page_run p x s : is_Some (pages s !! p) -> put_page p x s = Some (tt, with_pages (<[p := x]> (pages s)) s).
Proof. intros [y Hy]. unfold put_page. by rewrite Hy. Qed.
Lemma set_type_run p x t s : pages s !! p = Some x -> set_type p t s = Some (tt, with_pages (<[p := Page t (pg_flags x) (pg_data x)]> (pages s)) s).
Proof. intros H. unfold set_type. rewrite (pbind _ _ _ _ _ (get_page_run _ _ _ H)). apply put_page_run. by eexists. Qed.
Lemma set_flags_run p x f s : pages s !! p = Some x -> set_flags p f s = Some (tt, with_pages (<[p := Page (pg_type x) f (pg_data x)]> (pages s)) s).
Proof. intros H. unfold set_flags. rewrite (pbind _ _ _ _ _ (get_page_run _ _ _ H)). apply put_page_run. by eexists. Qed.
Lemma set_data_run p x d s : pages s !! p = Some x -> set_data p d s = Some (tt, with_pages (<[p := Page (pg_type x) (pg_flags x) d]> (pages s)) s).
Proof. intros H. unfold set_data. rewrite (pbind _ _ _ _ _ (get_page_run _ _ _ H)). apply put_page_run. by eexists. Qed.
Lemma free_size_run p n s : tag (pages s) p n -> free_size p s = Some (n, s).
Proof. intros [f H]. unfold free_size. by rewrite (pbind _ _ _ _ _ (get_page_run _ _ _ H)). Qed.
Lemma is_free_tag p n s : tag (pages s) p n -> is_free p s = Some (true, s).
Proof. intros [f H]. unfold is_free. by rewrite (pbind _ _ _ _ _ (get_page_run _ _ _ H)). Qed.
Lemma is_free_not p s : not_free (pages s) p -> is_free p s = Some (false, s).
Proof. intros (x & H & Hx). unfold is_free. rewrite (pbind _ _ _ _ _ (get_page_run _ _ _ H)). by rewrite bool_decide_false. Qed.
Lemma assert_run b s : b = true -> assert b s = Some (tt, s).
Proof. by intros ->. Qed.
Lemma from_run {A} (a : A) o s : o = Some a -> from o s = Some (a, s).
Proof. by intros ->. Qed.

(** Orders *)
Lemma log2_some n : 0 < n -> log2 n = Some (Z.to_nat (Z.log2 n)).
Proof. intros H. unfold log2. by rewrite (proj2 (Z.ltb_lt 0 n)). Qed.
Lemma list_order_some n : 0 < n -> exists o, list_order n = Some o /\ (o < page_lists)%nat /\ 2 ^ Z.of_nat o <= n.
Proof.
  intros Hn. unfold list_order. rewrite log2_some by done. cbn. pose proof (Z.log2_spec n Hn) as [Hl _]. pose proof (Z.log2_nonneg n).
  case_decide as Hd; eexists; (split; [done|]); split; unfold page_lists in *; try lia; rewrite ?Z2Nat.id by lia; try done.
  etransitivity; [|exact Hl]. apply Z.pow_le_mono_r; lia.
Qed.
Lemma list_order_lt n o : list_order n = Some o -> (o < page_lists)%nat.
Proof.
  unfold list_order, log2. destruct (0 <? n); [|done]. cbn. intros [= <-]. case_decide; unfold page_lists in *; lia.
Qed.
Lemma list_order_mono m n o o' : m <= n -> list_order m = Some o -> list_order n = Some o' -> (o <= o')%nat.
Proof.
  unfold list_order, log2. destruct (Z.ltb_spec 0 m); [|done]. destruct (Z.ltb_spec 0 n); [|lia]. cbn. intros Hmn [= <-] [= <-].
  pose proof (Z.log2_le_mono m n Hmn). pose proof (Z.log2_nonneg m). repeat case_decide; unfold page_lists in *; lia.
Qed.

Lemma in_lists_true s z p : in_lists s z p = true <-> exists o, (o < page_lists)%nat /\ p ∈ free_pages_list s z o.
Proof.
  unfold in_lists. rewrite existsb_exists. split.
  - intros (o & Ho & Hp). apply in_seq in Ho. apply bool_decide_eq_true in Hp. exists o. split; [lia|done].
  - intros (o & Ho & Hp). exists o. rewrite in_seq, bool_decide_eq_true. split; [lia|done].
Qed.

(** ** The neighbours of a block *)

Definition head_free (bs : list block) : bool := match bs with (f, _) :: _ => f | [] => false end.

Lemma apart_true bs : apart true bs <-> apart false bs /\ head_free bs = false.
Proof. destruct bs as [|[f n] bs]; cbn; [done|]. destruct f; cbn; naive_solver. Qed.
Lemma last_free_snoc f bs b : last_free f (bs ++ [b]) = b.1.
Proof. unfold last_free. by rewrite foldl_app. Qed.

Lemma split_left bs : apart false bs -> exists b1 l, bs = b1 ++ l /\ last_free false b1 = false /\ (l = [] \/ exists m, l = [(true, m)]).
Proof.
  intros H. destruct bs as [|[f m] bs _] using rev_ind; [by exists [], []; cbn; auto|]. apply apart_app in H as [_ [H _]]. destruct f.
  - exists bs, [(true, m)]. rewrite andb_true_r in H. split_and!; eauto.
  - exists (bs ++ [(false, m)]), []. rewrite app_nil_r, last_free_snoc. auto.
Qed.
Lemma split_right bs : apart false bs -> exists r b2, bs = r ++ b2 /\ apart true b2 /\ (r = [] \/ exists k, r = [(true, k)]).
Proof.
  intros H. destruct bs as [|[f k] bs]; [by exists [], []; cbn; auto|]. destruct f.
  - exists [(true, k)], bs. split_and!; eauto. apply H.
  - exists [], ((false, k) :: bs). split_and!; auto.
Qed.

(** The page before a run is not free when the blocks before it do not end in a free one. *)
Lemma page_before h d b1 rest : area_ok h d (b1 ++ rest) -> last_free false b1 = false -> not_free h (arr_pages d + total b1 - 1).
Proof.
  intros [_ M _ [B _] _ _] Hl. destruct b1 as [|[f m] b1 _] using rev_ind; [cbn; by rewrite Z.add_0_r|].
  rewrite last_free_snoc in Hl. cbn in Hl. subst f. rewrite marked_app, marked_app in M. destruct M as [[_ [[_ [_ M]] _]] _]. rewrite total_app. cbn in *.
  by replace (arr_pages d + (total b1 + (m + 0)) - 1) with (arr_pages d + total b1 + m - 1) by lia.
Qed.
Lemma page_behind h d b1 b2 : area_ok h d (b1 ++ b2) -> head_free b2 = false -> not_free h (arr_pages d + total b1).
Proof.
  intros [T M _ [_ B] _ _] Hl. destruct b2 as [|[f m] b2].
  - rewrite app_nil_r in T. unfold arr_end in B. by rewrite T.
  - cbn in Hl. subst f. rewrite marked_app in M. destruct M as [_ [[_ [M _]] _]]. done.
Qed.

(** ** The lists *)

Definition with_lists (f : zone -> nat -> list Z) (s : pmm) : pmm := Pmm (pages s) (phys_memory_regions s) f (rcu_pending s).
Definition push_at (z : zone) (o : nat) (p : Z) (f : zone -> nat -> list Z) : zone -> nat -> list Z :=
  fun z' o' => if decide (z' = z /\ o' = o) then p :: f z o else f z' o'.
Definition drop_at (z : zone) (p : Z) (f : zone -> nat -> list Z) : zone -> nat -> list Z :=
  fun z' o' => if decide (z' = z) then filter (fun q => q <> p) (f z' o') else f z' o'.

Lemma list_push_run z o p s : (forall o', p ∉ free_pages_list s z o') -> list_push z o p s = Some (tt, with_lists (push_at z o p (free_pages_list s)) s).
Proof.
  intros H. unfold list_push. destruct (in_lists s z p) eqn:E; [|done]. apply in_lists_true in E as (o' & _ & Ho). by apply H in Ho.
Qed.
Lemma list_take_run z o p s : p ∈ free_pages_list s z o -> (o < page_lists)%nat -> list_take z p s = Some (tt, with_lists (drop_at z p (free_pages_list s)) s).
Proof. intros H Ho. unfold list_take. rewrite (proj2 (in_lists_true s z p)); [done|]. by exists o. Qed.

Lemma elem_push z o p f z' o' q : q ∈ push_at z o p f z' o' <-> q ∈ f z' o' \/ (z' = z /\ o' = o /\ q = p).
Proof. unfold push_at. case_decide as H; [destruct H as [-> ->]; rewrite elem_of_cons; naive_solver|naive_solver]. Qed.
Lemma elem_drop z p f z' o' q : q ∈ drop_at z p f z' o' <-> q ∈ f z' o' /\ (z' = z -> q <> p).
Proof. unfold drop_at. case_decide as H; [rewrite list_elem_of_filter; naive_solver|naive_solver]. Qed.
Lemma nodup_push z o p f : (forall z' o', NoDup (f z' o')) -> p ∉ f z o -> forall z' o', NoDup (push_at z o p f z' o').
Proof. intros Hf Hp z' o'. unfold push_at. case_decide; [by apply NoDup_cons|done]. Qed.
Lemma nodup_drop z p f : (forall z' o', NoDup (f z' o')) -> forall z' o', NoDup (drop_at z p f z' o').
Proof. intros Hf z' o'. unfold drop_at. case_decide; [by apply NoDup_filter|done]. Qed.

(** The entries of a run in the lists *)
Lemma run_entries s G1 d b1 mid b2 G2 z o q : pmm_ok s (G1 ++ (d, b1 ++ mid ++ b2) :: G2) ->
  let st := arr_pages d + total b1 in st <= q < st + total mid ->
  q ∈ free_pages_list s z o <-> parent_region d = z /\ exists n, (q, n) ∈ frees st mid /\ list_order n = Some o.
Proof.
  intros Hok st Hq. rewrite (ok_lists _ _ Hok). pose proof (run_area _ _ _ _ _ _ _ Hok) as [_ M _ _ _ _]. rewrite !marked_app in M. destruct M as (M1 & _ & M3).
  setoid_rewrite free_at_app. cbn [fst snd]. rewrite !frees_app. setoid_rewrite elem_of_app. setoid_rewrite elem_of_app. fold st. split.
  - intros (n & [Hn|(Hz & [Hn|[Hn|Hn]])] & Ho); [by apply (elsewhere _ _ _ _ _ _ _ Hok) in Hn| |by eauto|].
    + apply (frees_range _ _ _ _ _ M1) in Hn. subst st. lia.
    + apply (frees_range _ _ _ _ _ M3) in Hn. subst st. lia.
  - intros (Hz & n & Hn & Ho). exists n. tauto.
Qed.

(** ** Freeing *)

Section FreeBlock.
Context (s : pmm) (G1 G2 : list area) (d : page_array) (b1 l r b2 : list block) (n : Z).
Let mid := l ++ (false, n) :: r.
Let st := arr_pages d + total b1.
Let p := st + total l.
Let N := total l + (n + total r).
Context (Hok : pmm_ok s (G1 ++ (d, b1 ++ mid ++ b2) :: G2)).
Context (Hb1 : last_free false b1 = false) (Hb2 : apart true b2).
Context (Hl : l = [] \/ exists m, l = [(true, m)]) (Hr : r = [] \/ exists k, r = [(true, k)]).

Lemma free_area : area_ok (pages s) d (b1 ++ l ++ (false, n) :: r ++ b2).
Proof. pose proof (run_area _ _ _ _ _ _ _ Hok) as H. subst mid. by rewrite <- app_assoc in H. Qed.

Lemma free_marks : 0 < n /\ 0 <= total l /\ 0 <= total r
  /\ marked (pages s) st l /\ marked (pages s) (p + n) r /\ is_Some (pages s !! p) /\ is_Some (pages s !! (st + N - 1)).
Proof.
  pose proof free_area as [T M _ _ I _]. rewrite marked_app, marked_app in M. destruct M as (M1 & M2 & M3). cbn in M3. rewrite marked_app in M3. destruct M3 as (M3 & M4 & M5).
  pose proof (marked_total _ _ _ M1). pose proof (marked_total _ _ _ M2). pose proof (marked_total _ _ _ M4). pose proof (marked_total _ _ _ M5). destruct M3 as [M3 _]. cbn in M3.
  rewrite !total_app in T. cbn in T. rewrite total_app in T. split_and!; try done; apply I; unfold within, arr_end; subst p st N; lia.
Qed.

Lemma mid_total : total mid = N.
Proof. subst mid N. by rewrite total_app. Qed.

(** The structure of the first page *)
Lemma mark_first {A} (f : P A) : (_ ← set_type p Free; _ ← set_data p (FreeRegionHead n); _ ← set_flags p 0; f) s
  = f (with_pages (<[p := Page Free 0 (FreeRegionHead n)]> (pages s)) s).
Proof.
  destruct free_marks as (_ & _ & _ & _ & _ & [x Hx] & _). rewrite (pbind _ _ _ _ _ (set_type_run _ _ _ _ Hx)).
  rewrite (pbind _ _ _ _ _ (set_data_run p _ _ _ (lookup_insert_eq _ _ _))). cbn. rewrite insert_insert_eq.
  rewrite (pbind _ _ _ _ _ (set_flags_run p _ _ _ (lookup_insert_eq _ _ _))). cbn. by rewrite insert_insert_eq.
Qed.

Let h1 := <[p := Page Free 0 (FreeRegionHead n)]> (pages s).
Definition old_size : option Z := match l with (_, m) :: _ => Some m | [] => None end.

Lemma before_run : exists h2, coalesce_before p n (with_pages h1 s) = Some ((st, old_size), with_pages h2 s)
  /\ tag h2 st (total l + n) /\ forall x, x <> st -> h2 !! x = h1 !! x.
Proof.
  destruct free_marks as (Hn & _ & _ & Ml & _ & _ & _). unfold coalesce_before, old_size. destruct Hl as [El|[m El]]; rewrite El in Ml |- *.
  - assert (Ep : p = st) by (unfold p; rewrite El; cbn; lia). exists h1. assert (Hnf : not_free h1 (p - 1)).
    { destruct (page_before (pages s) d b1 _ free_area Hb1) as (x & Hx & Ht). exists x. split; [|done]. unfold h1. rewrite lookup_insert_ne by lia. rewrite <- Hx. f_equal. unfold p. rewrite El. cbn. subst st. lia. }
    rewrite (pbind _ _ _ _ _ (is_free_not (p - 1) (with_pages h1 s) Hnf)), Ep. split_and!; [done| |done]. exists 0. unfold h1. by rewrite Ep, lookup_insert_eq.
  - cbn in Ml. destruct Ml as ((Hm & [f1 T1] & [f2 T2]) & _). cbn in Hm, T1, T2.
    assert (Ep : p = st + m) by (unfold p; rewrite El; cbn; lia). assert (E1 : h1 !! (p - 1) = Some (Page Free f2 (FreeRegionHead m))) by (unfold h1; rewrite lookup_insert_ne by lia; rewrite <- T2; f_equal; lia).
    assert (E2 : h1 !! st = Some (Page Free f1 (FreeRegionHead m))) by (unfold h1; rewrite lookup_insert_ne by lia; done).
    rewrite (pbind _ _ _ _ _ (is_free_tag (p - 1) m (with_pages h1 s) ltac:(by exists f2))), (pbind _ _ _ _ _ (free_size_run (p - 1) m (with_pages h1 s) ltac:(by exists f2))).
    replace (p - m) with st by lia. cbv zeta.
    rewrite (pbind _ _ _ _ _ (is_free_tag st m (with_pages h1 s) ltac:(by exists f1))), (pbind _ _ _ _ _ (assert_run true (with_pages h1 s) eq_refl)).
    rewrite (pbind _ _ _ _ _ (free_size_run st m (with_pages h1 s) ltac:(by exists f1))), (pbind _ _ _ _ _ (assert_run _ (with_pages h1 s) (Z.eqb_refl m))).
    rewrite (pbind _ _ _ _ _ (set_data_run st _ _ (with_pages h1 s) E2)). cbn. eexists. split; [done|]. split.
    + exists f1. rewrite lookup_insert_eq. do 3 f_equal. lia.
    + intros x Hx. by rewrite lookup_insert_ne.
Qed.

Definition rest_lists : zone -> nat -> list Z :=
  match r with [] => free_pages_list s | _ => drop_at (parent_region d) (p + n) (free_pages_list s) end.

Lemma after_run h2 : tag h2 st (total l + n) -> (forall x, x <> st -> x <> p -> h2 !! x = pages s !! x) ->
  exists h3, coalesce_after (parent_region d) st (with_pages h2 s) = Some (tt, with_lists rest_lists (with_pages h3 s))
    /\ tag h3 st N /\ forall x, x <> st -> h3 !! x = h2 !! x.
Proof.
  intros Ht Hx. destruct free_marks as (Hn & Tl & Tr & _ & Mr & _ & _). unfold coalesce_after.
  rewrite (pbind _ _ _ _ _ (free_size_run st _ (with_pages h2 s) Ht)). cbv zeta. assert (Ep : st + (total l + n) = p + n) by (unfold p; lia). rewrite Ep.
  unfold rest_lists. destruct Hr as [Er|[k Er]]; rewrite Er in Mr |- *.
  - assert (Hnf : not_free h2 (p + n)).
    { destruct (page_behind (pages s) d (b1 ++ l ++ [(false, n)]) b2) as (x & E & Hx').
      - pose proof free_area as H. rewrite Er in H. rewrite <- !app_assoc. exact H.
      - by apply apart_true in Hb2 as [_ ?].
      - exists x. split; [|done]. rewrite Hx by (unfold p; lia). rewrite <- E. f_equal. rewrite !total_app. cbn. unfold p, st. lia. }
    rewrite (pbind _ _ _ _ _ (is_free_not (p + n) (with_pages h2 s) Hnf)). exists h2. split_and!; [done| |done].
    unfold N. rewrite Er. cbn. by rewrite Z.add_0_r.
  - cbn in Mr. destruct Mr as ((Hk & [f1 T1] & [f2 T2]) & _). cbn in Hk, T1, T2.
    assert (E1 : tag h2 (p + n) k) by (exists f1; rewrite Hx by (unfold p; lia); done).
    assert (E2 : tag h2 (p + n + k - 1) k) by (exists f2; rewrite Hx by (unfold p; lia); done).
    rewrite (pbind _ _ _ _ _ (is_free_tag (p + n) k (with_pages h2 s) E1)).
    destruct (list_order_some k Hk) as (o & Ho & Hlt & _).
    assert (Hin : p + n ∈ free_pages_list s (parent_region d) o).
    { apply (run_entries s G1 d b1 mid b2 G2 _ _ _ Hok).
      - fold st. rewrite mid_total. unfold N, p. rewrite Er. cbn. lia.
      - split; [done|]. exists k. split; [|done]. fold st. unfold mid. rewrite Er, frees_app. fold p. cbn. clear. set_solver. }
    rewrite (pbind _ _ _ _ _ (list_take_run _ o _ (with_pages h2 s) Hin Hlt)). set (s3 := with_lists _ _).
    rewrite (pbind _ _ _ _ _ (free_size_run (p + n) k s3 E1)), (pbind _ _ _ _ _ (is_free_tag (p + n + k - 1) k s3 E2)), (pbind _ _ _ _ _ (assert_run true s3 eq_refl)).
    rewrite (pbind _ _ _ _ _ (free_size_run (p + n + k - 1) k s3 E2)), (pbind _ _ _ _ _ (assert_run _ s3 (Z.eqb_refl k))).
    destruct Ht as [f3 Ht]. rewrite (set_data_run st _ _ s3 Ht). exists (<[st := Page Free f3 (FreeRegionHead (total l + n + k))]> h2). split; [done|]. split.
    + exists f3. rewrite lookup_insert_eq. do 3 f_equal. unfold N. rewrite Er. cbn. lia.
    + intros x Hne. by rewrite lookup_insert_ne.
Qed.

Lemma rest_in z o q : q ∈ rest_lists z o <->
  (q ∈ free_pages_list s z o /\ ~ st <= q < st + N) \/ (parent_region d = z /\ q = st /\ exists m, l = [(true, m)] /\ list_order m = Some o).
Proof.
  destruct free_marks as (Hn & Tl & Tr & Ml & Mr & _ & _). pose proof (run_entries s G1 d b1 mid b2 G2 z o q Hok) as Hrun. cbv zeta in Hrun. fold st in Hrun. rewrite mid_total in Hrun.
  assert (Hf : forall j, (q, j) ∈ frees st mid <-> (exists m, l = [(true, m)] /\ q = st /\ j = m) \/ (exists k, r = [(true, k)] /\ q = p + n /\ j = k)).
  { intros j. unfold mid. rewrite frees_app. fold p. cbn. rewrite elem_of_app. destruct Hl as [->|[m ->]], Hr as [->|[k ->]]; cbn; rewrite ?elem_of_nil, ?list_elem_of_singleton; naive_solver. }
  assert (Hrest : q ∈ rest_lists z o <-> q ∈ free_pages_list s z o /\ ~ (z = parent_region d /\ q = p + n /\ exists k, r = [(true, k)])).
  { unfold rest_lists. destruct Hr as [->|[k ->]]; [naive_solver|]. rewrite elem_drop. naive_solver. }
  rewrite Hrest. destruct (decide (st <= q < st + N)) as [Hin|Hout].
  - rewrite (Hrun Hin). split.
    + intros [(Hz & j & Hj & Ho) Hnot]. right. apply Hf in Hj as [(m & Em & -> & ->)|(k & Ek & -> & ->)]; [eauto|]. destruct Hnot. eauto.
    + intros [[_ ?]|(Hz & -> & m & Em & Ho)]; [done|]. split; [split; [done|]; exists m; split; [apply Hf|done]; left; eauto|]. intros (_ & Hst & k & Ek). unfold p in Hst. lia.
  - split.
    + intros [H _]. by left.
    + intros [[H _]|(_ & -> & _)]; [|unfold N in Hout; lia]. split; [done|]. intros (_ & -> & k & Ek). destruct Hout. unfold N, p. rewrite Ek in *. cbn in *. destruct Mr as [[Hk _] _]. cbn in Hk. lia.
Qed.

Lemma rest_nodup z o : NoDup (rest_lists z o).
Proof. unfold rest_lists. pose proof (ok_nodup _ _ Hok) as H. destruct r; [done|]. by apply nodup_drop. Qed.

(** The lists once the merged block is in its list *)
Lemma enlist_run h3 : tag h3 st N -> exists f, enlist (parent_region d) st old_size (with_lists rest_lists (with_pages h3 s)) = Some (tt, with_lists f (with_pages h3 s))
  /\ relisted s (with_lists f (with_pages h3 s)) d st mid [(true, N)].
Proof.
  intros Ht. destruct free_marks as (Hn & Tl & Tr & Ml & _ & _ & _). assert (HN : 0 < N) by (unfold N; lia). destruct (list_order_some N HN) as (o & Ho & Hlt & _).
  set (s3 := with_lists rest_lists (with_pages h3 s)). unfold enlist. rewrite (pbind _ _ _ _ _ (free_size_run st N s3 Ht)).
  assert (Hnew : forall z o' q, (parent_region d = z /\ exists j, (q, j) ∈ frees st [(true, N)] /\ list_order j = Some o') <-> parent_region d = z /\ q = st /\ o' = o).
  { intros z o' q. cbn. setoid_rewrite list_elem_of_singleton. split; [intros (Hz & j & [= -> ->] & Hj); naive_solver|]. intros (Hz & -> & ->). eauto. }
  unfold old_size, relisted. setoid_rewrite Hnew. rewrite mid_total. destruct Hl as [El|[m El]]; rewrite El in Ml |- *.
  - rewrite (pbind _ _ _ _ _ (from_run o _ s3 Ho)). assert (Hst : forall o', st ∉ rest_lists (parent_region d) o').
    { intros o' [[_ Hq]|(_ & _ & m & Em & _)]%rest_in; [lia|by rewrite El in Em]. }
    rewrite (list_push_run _ _ _ s3 Hst). eexists. split; [done|]. cbn. split; [by apply nodup_push; [apply rest_nodup|]|].
    intros z o' q. rewrite elem_push, rest_in, El. naive_solver.
  - cbn in Ml. destruct Ml as ((Hm & _) & _). cbn in Hm. destruct (list_order_some m Hm) as (om & Hom & Hlt' & _).
    assert (Hmono : (om <= o)%nat) by (eapply list_order_mono; [|exact Hom|exact Ho]; unfold N; rewrite El; cbn; lia).
    rewrite (pbind _ _ _ _ _ (from_run om _ s3 Hom)), (pbind _ _ _ _ _ (from_run o _ s3 Ho)).
    assert (Hin : st ∈ free_pages_list s3 (parent_region d) om) by (apply rest_in; right; rewrite El; eauto).
    destruct (bool_decide (om <> page_lists - 1)%nat && bool_decide (om < o)%nat) eqn:Hc.
    + rewrite (pbind _ _ _ _ _ (list_take_run _ om _ s3 Hin Hlt')). set (s4 := with_lists _ s3).
      assert (Hst : forall o', st ∉ free_pages_list s4 (parent_region d) o') by (intros o' [_ H]%elem_drop; by apply H).
      rewrite (list_push_run _ _ _ s4 Hst). eexists. split; [done|]. cbn. split.
      * apply nodup_push; [|apply Hst]. apply nodup_drop, rest_nodup.
      * intros z o' q. rewrite elem_push, elem_drop, rest_in, El. clear -HN. split; [naive_solver|]. intros [[H1 H2]|H]; [left|naive_solver]. split; [by left|]. intros _ ->. lia.
    + assert (om = o) as ->.
      { apply andb_false_iff in Hc as [Hc|Hc]; apply bool_decide_eq_false in Hc; lia. }
      exists rest_lists. split; [done|]. cbn. split; [apply rest_nodup|]. intros z o' q. rewrite rest_in, El. naive_solver.
Qed.

(** The last page of the merged block *)
Lemma mark_last h3 f : tag h3 st N -> is_Some (h3 !! (st + N - 1)) ->
  exists h4, (_ ← set_type (st + N - 1) Free; set_data (st + N - 1) (FreeRegionHead N)) (with_lists f (with_pages h3 s)) = Some (tt, with_lists f (with_pages h4 s))
    /\ tag h4 st N /\ tag h4 (st + N - 1) N /\ forall x, x <> st + N - 1 -> h4 !! x = h3 !! x.
Proof.
  intros [f1 Ht] [y Hy]. set (s3 := with_lists f (with_pages h3 s)). rewrite (pbind _ _ _ _ _ (set_type_run (st + N - 1) y Free s3 Hy)).
  rewrite (set_data_run (st + N - 1) _ _ _ (lookup_insert_eq _ _ _)). exists (<[st + N - 1 := Page Free (pg_flags y) (FreeRegionHead N)]> h3). split_and!.
  - cbn. by rewrite insert_insert_eq.
  - destruct (decide (st = st + N - 1)) as [E|E]; [exists (pg_flags y); rewrite <- E; apply lookup_insert_eq|]. exists f1. by rewrite lookup_insert_ne.
  - eexists. apply lookup_insert_eq.
  - intros x Hx. by rewrite lookup_insert_ne.
Qed.

Lemma free_block_ok : exists s', free_block (parent_region d) p n s = Some (tt, s') /\ rcu_pending s' = rcu_pending s
  /\ pmm_ok s' (G1 ++ (d, b1 ++ [(true, N)] ++ b2) :: G2) /\ same_outside st (st + N) (pages s) (pages s').
Proof.
  destruct free_marks as (Hn & Tl & Tr & _ & _ & Ip & Il). assert (HN : 0 < N) by (unfold N; lia). unfold free_block. rewrite mark_first.
  destruct before_run as (h2 & E2 & T2 & X2). fold h1. rewrite (pbind _ _ _ _ _ E2).
  destruct (after_run h2 T2) as (h3 & E3 & T3 & X3).
  { intros x Hx1 Hx2. rewrite X2 by done. unfold h1. by rewrite lookup_insert_ne. }
  rewrite (pbind _ _ _ _ _ E3). destruct (enlist_run h3 T3) as (f & E4 & Hrel). rewrite (pbind _ _ _ _ _ E4).
  rewrite (pbind _ _ _ _ _ (free_size_run st N (with_lists f (with_pages h3 s)) T3)). cbv zeta.
  assert (X : forall x, x <> st -> x <> p -> h3 !! x = pages s !! x) by (intros x H1 H2; rewrite X3, X2 by done; unfold h1; by rewrite lookup_insert_ne).
  assert (I3 : forall x, is_Some (pages s !! x) -> is_Some (h3 !! x)).
  { intros x Hx. destruct (decide (x = st)) as [->|H1]; [destruct T3 as [? ->]; by eexists|]. destruct (decide (x = p)) as [->|H2]; [|by rewrite X].
    rewrite X3, X2 by done. unfold h1. rewrite lookup_insert_eq. by eexists. }
  destruct (mark_last h3 f T3 (I3 _ Il)) as (h4 & E5 & T4 & T5 & X5). eexists. split; [exact E5|]. split; [done|].
  assert (Hso : same_outside st (st + N) (pages s) h4).
  { intros x Hx. rewrite X5, X; [done|unfold p in *; lia..]. } split; [|exact Hso].
  apply (pmm_replace s _ G1 G2 d b1 mid [(true, N)] b2 Hok); try done.
  - rewrite mid_total. cbn. lia.
  - rewrite mid_total. exact Hso.
  - intros x Hx. cbn. destruct (decide (x = st + N - 1)) as [->|H1]; [destruct T5 as [? ->]; by eexists|]. rewrite X5 by done. by apply I3.
  - pose proof (area_apart _ _ _ free_area) as A. apply apart_app in A as [A _]. apply apart_app. split; [done|]. cbn. by rewrite Hb1.
Qed.
End FreeBlock.

(** ** The array of a page *)

Lemma smaller_array_spec p l : match smaller_array p l with
  | Some b => b ∈ l /\ arr_pages b <= p /\ forall e, e ∈ l -> arr_pages e <= p -> arr_pages e <= arr_pages b
  | None => forall e, e ∈ l -> p < arr_pages e
  end.
Proof.
  induction l as [|d l IH]; cbn; [by intros e ?%elem_of_nil|]. fold (smaller_array p l). destruct (Z.leb_spec (arr_pages d) p) as [Hd|Hd].
  - destruct (smaller_array p l) as [b|].
    + destruct IH as (H1 & H2 & H3). destruct (Z.ltb_spec (arr_pages b) (arr_pages d)).
      * split_and!; [by left|done|]. intros e [->|He]%elem_of_cons He'; [done|]. specialize (H3 e He He'). lia.
      * split_and!; [by right|done|]. intros e [->|He]%elem_of_cons He'; [done|]. by apply H3.
    + split_and!; [by left|done|]. intros e [->|He]%elem_of_cons He'; [done|]. specialize (IH e He). lia.
  - destruct (smaller_array p l) as [b|].
    + destruct IH as (H1 & H2 & H3). split_and!; [by right|done|]. intros e [->|He]%elem_of_cons He'; [lia|]. by apply H3.
    + intros e [->|He]%elem_of_cons; [done|]. by apply IH.
Qed.

(** Two arrays that share a place are one. *)
Lemma same_array l d e x : separate l -> d ∈ l -> e ∈ l -> within d x -> within e x -> d = e.
Proof.
  intros Hs [i Hi]%list_elem_of_lookup [j Hj]%list_elem_of_lookup Hd He. destruct (decide (i = j)) as [->|Hne]; [congruence|]. by destruct (Hs i j d e x Hi Hj Hne Hd).
Qed.

Section Arrays.
Context (s : pmm) (G : list area) (Hok : pmm_ok s G).

Lemma array_size a : a ∈ G -> 0 <= arr_size a.1.
Proof. intros Ha. destruct (ok_areas _ _ Hok a Ha) as [T M _ _ _ _]. rewrite <- T. by eapply marked_total. Qed.

Lemma find_array_run a p : a ∈ G -> arr_pages a.1 <= p < arr_end a.1 -> find_array p s = Some (a.1, s).
Proof.
  intros Ha Hp. unfold find_array. rewrite (pbind _ _ _ _ _ (eq_refl : get_arrays s = Some (phys_memory_regions s, s))).
  assert (Hin : forall b, b ∈ G -> b.1 ∈ phys_memory_regions s) by (intros b Hb; rewrite (ok_arrays _ _ Hok); by apply list_elem_of_fmap_2).
  pose proof (smaller_array_spec p (phys_memory_regions s)) as Hsm. destruct (smaller_array p (phys_memory_regions s)) as [b|] eqn:Eb.
  - destruct Hsm as (Hb & Hbp & Hmax). specialize (Hmax a.1 (Hin a Ha) ltac:(lia)). rewrite (pbind _ _ _ _ _ (from_run b _ s eq_refl)).
    assert (Hb' := Hb). rewrite (ok_arrays _ _ Hok) in Hb'. apply list_elem_of_fmap in Hb' as (c & -> & Hc). pose proof (array_size c Hc) as Hcs.
    assert (c.1 = a.1) as -> by (apply (same_array _ _ _ (arr_pages c.1) (ok_separate _ _ Hok)); [done|by apply Hin|unfold within, arr_end in *; lia..]).
    rewrite (proj2 (Z.leb_le _ _)), (proj2 (Z.ltb_lt _ _)) by lia. done.
  - specialize (Hsm a.1 (Hin a Ha)). lia.
Qed.

(** Only the arrays matter. *)
Lemma find_array_same (s1 s2 : pmm) p d : phys_memory_regions s2 = phys_memory_regions s1 -> find_array p s1 = Some (d, s1) -> find_array p s2 = Some (d, s2).
Proof.
  intros He. unfold find_array, get_arrays, from, assert, mbind, P_bind. rewrite He. destruct (smaller_array p (phys_memory_regions s1)) as [e|]; [|done].
  destruct ((arr_pages e <=? p) && (p <? arr_end e)); [|done]. cbn. by intros [= ->].
Qed.

Lemma get_phys_addr_run a p x : a ∈ G -> arr_pages a.1 <= p < arr_end a.1 -> pages s !! p = Some x -> has_physical_page x = true ->
  get_phys_addr p s = Some ((p - arr_pages a.1) * PAGE_SIZE + start_addr a.1, s).
Proof.
  intros Ha Hp Hx Hf. unfold get_phys_addr. rewrite (pbind _ _ _ _ _ (get_page_run _ _ _ Hx)), (pbind _ _ _ _ _ (assert_run _ s Hf)).
  by rewrite (pbind _ _ _ _ _ (find_array_run a p Ha Hp)).
Qed.
End Arrays.

(** The first page of a block that is to be freed tells its size. *)
Definition to_free (s : pmm) (p n : Z) : Prop :=
  exists f, pages s !! p = Some (Page PendingFree f (RCUState n)) \/ exists a, pages s !! p = Some (Page AllocatedPending f (PendingAllocHead 0 a n)).

Lemma pages_of_run s p n : to_free s p n -> pages_of p s = Some ((n, 0), s).
Proof. intros (f & [H|(a & H)]); unfold pages_of; by rewrite (pbind _ _ _ _ _ (get_page_run _ _ _ H)). Qed.

Lemma free_page_ok s G1 d B1 n B2 G2 : pmm_ok s (G1 ++ (d, B1 ++ (false, n) :: B2) :: G2) -> to_free s (arr_pages d + total B1) n ->
  exists s' b1 l r b2, B1 = b1 ++ l /\ B2 = r ++ b2 /\ (l = [] \/ exists m, l = [(true, m)]) /\ (r = [] \/ exists k, r = [(true, k)])
    /\ free_page (arr_pages d + total B1) s = Some (tt, s') /\ rcu_pending s' = rcu_pending s
    /\ pmm_ok s' (G1 ++ (d, b1 ++ (true, total l + (n + total r)) :: b2) :: G2)
    /\ same_outside (arr_pages d + total b1) (arr_pages d + total b1 + (total l + (n + total r))) (pages s) (pages s').
Proof.
  intros Hok Hf. assert (Ha : (d, B1 ++ (false, n) :: B2) ∈ G1 ++ (d, B1 ++ (false, n) :: B2) :: G2) by (clear; set_solver).
  pose proof (ok_areas _ _ Hok _ Ha) as [T M A _ _ N0]. cbn in T, M, A, N0. pose proof A as A'. apply apart_app in A as [A1 [_ A2]].
  rewrite marked_app in M. destruct M as [M1 [[Hn _] M2]]. pose proof (marked_total _ _ _ M1). pose proof (marked_total _ _ _ M2). rewrite total_app in T. cbn in T, Hn.
  destruct (split_left B1 A1) as (b1 & l & -> & Hb1 & Hl), (split_right B2 A2) as (r & b2 & -> & Hb2 & Hr).
  set (p := arr_pages d + total (b1 ++ l)) in *. assert (Ep : p = arr_pages d + total b1 + total l) by (unfold p; rewrite total_app; lia).
  assert (Eb : b1 ++ (l ++ (false, n) :: r) ++ b2 = (b1 ++ l) ++ (false, n) :: r ++ b2) by (by rewrite <- !app_assoc).
  destruct (free_block_ok s G1 G2 d b1 l r b2 n) as (s' & E' & R' & Hok' & O'); [by rewrite Eb|done..|]. rewrite <- Ep in E'.
  exists s', b1, l, r, b2. split_and!; try done. unfold free_page. rewrite (pbind _ _ _ _ _ (eq_refl : page_count s = Some (size (pages s), s))).
  assert (Hsz : size (pages s) <> O).
  { destruct Hf as (f & [Hf|(a & Hf)]); intros Hz; apply map_size_empty_inv in Hz; rewrite Hz in Hf; done. }
  destruct (size (pages s)) as [|fuel]; [done|]. cbn [free_page_chain]. rewrite (proj2 (Z.eqb_neq p 0)) by (unfold arr_end in *; lia).
  rewrite (pbind (free_page_round p) _ _ 0 s'); [by destruct fuel|]. unfold free_page_round.
  rewrite (pbind _ _ _ _ _ (find_array_run s _ Hok (d, _) p Ha ltac:(unfold arr_end; cbn; lia))), (pbind _ _ _ _ _ (pages_of_run _ _ _ Hf)).
  cbn [fst]. rewrite (proj2 (Z.ltb_ge _ _)) by (unfold arr_end; lia). by rewrite (pbind _ _ _ _ _ (eq_refl : (mret 0 : P Z) s = Some (0, s))), (pbind _ _ _ _ _ E').
Qed.

(** ** Allocation *)

Lemma first_block_spec z n i s : exists b, first_block z n i s = Some (b, s) /\
  match b with
  | Some (j, p) => (i <= j < i + n)%nat /\ p ∈ free_pages_list s z j
  | None => forall j, (i <= j < i + n)%nat -> free_pages_list s z j = []
  end.
Proof.
  revert i. induction n as [|n IH]; intros i; cbn [first_block].
  - exists None. split; [done|]. intros j Hj. lia.
  - rewrite (pbind _ _ _ _ _ (eq_refl : get_list z i s = Some (free_pages_list s z i, s))). destruct (free_pages_list s z i) as [|p l] eqn:El.
    + destruct (IH (S i)) as (b & Eb & Hb). exists b. split; [done|]. destruct b as [[j p]|].
      * destruct Hb. split; [lia|done].
      * intros j Hj. destruct (decide (j = i)) as [->|]; [done|]. apply Hb. lia.
    + exists (Some (i, p)). split; [done|]. split; [lia|]. rewrite El. by left.
Qed.

Lemma list_order_ge m i : (i < page_lists)%nat -> 2 ^ Z.of_nat i <= m -> exists o, list_order m = Some o /\ (i <= o)%nat.
Proof.
  intros Hi Hm. assert (0 < m) by (pose proof (Z.pow_pos_nonneg 2 (Z.of_nat i)); lia). destruct (list_order_some m) as (o & Ho & _); [done|]. exists o. split; [done|].
  apply (list_order_mono (2 ^ Z.of_nat i) m i o Hm); [|done]. unfold list_order. rewrite log2_some by (apply Z.pow_pos_nonneg; lia).
  cbn. rewrite Z.log2_pow2, Nat2Z.id by lia. by rewrite decide_False by lia.
Qed.
Lemma list_order_small m i : 0 < m -> m < 2 ^ Z.of_nat i -> (i < page_lists)%nat -> list_order m = log2 m /\ exists o, log2 m = Some o /\ (o < i)%nat.
Proof.
  intros Hm Hi Hp. assert (Hl : (Z.to_nat (Z.log2 m) < i)%nat) by (pose proof (proj1 (Z.log2_lt_pow2 m (Z.of_nat i) Hm) Hi); pose proof (Z.log2_nonneg m); lia). unfold list_order. rewrite log2_some by done. cbn.
  rewrite decide_False by lia. eauto.
Qed.

Section Take.
Context (s : pmm) (G1 G2 : list area) (d : page_array) (b1 b2 : list block) (m count : Z) (i : nat).
Let p := arr_pages d + total b1.
Let z := parent_region d.
Context (Hok : pmm_ok s (G1 ++ (d, b1 ++ [(true, m)] ++ b2) :: G2)).
Context (Hc : 0 < count <= m) (Hin : p ∈ free_pages_list s z i).

Lemma take_entry z' o : p ∈ free_pages_list s z' o <-> z = z' /\ list_order m = Some o.
Proof.
  pose proof (run_entries s G1 d b1 [(true, m)] b2 G2 z' o p Hok) as H. cbv zeta in H. fold p in H. cbn [total] in H. rewrite H by lia. unfold z.
  split; [intros (Hz & n & Hn & Ho)|intros (Hz & Ho)]; (split; [done|]); cbn in *; [apply list_elem_of_singleton in Hn; naive_solver|]. exists m. split; [by left|done].
Qed.
Lemma take_order : list_order m = Some i /\ (i < page_lists)%nat.
Proof. apply take_entry in Hin as [_ H]. split; [done|by eapply list_order_lt]. Qed.
Lemma take_run_only z' o q : q ∈ free_pages_list s z' o -> p <= q < p + m -> q = p.
Proof.
  intros Hq Hr. pose proof (run_entries s G1 d b1 [(true, m)] b2 G2 z' o q Hok) as H. cbv zeta in H. fold p in H. cbn [total] in H. apply H in Hq as (_ & n & Hn & _); [|lia].
  cbn in Hn. apply list_elem_of_singleton in Hn. by inversion Hn.
Qed.
Lemma take_marks : tag (pages s) p m /\ tag (pages s) (p + m - 1) m /\ (forall x, p <= x < p + m -> is_Some (pages s !! x)) /\ arr_pages d <= p /\ p + m <= arr_end d.
Proof.
  pose proof (run_area _ _ _ _ _ _ _ Hok) as [T M _ _ I _]. rewrite marked_app in M. destruct M as (M1 & [[_ [M2 M3]] M4]). cbn [fst snd app] in M2, M3, M4.
  pose proof (marked_total _ _ _ M1). pose proof (marked_total _ _ _ M4). rewrite total_app in T. cbn in T. unfold p, arr_end in *. split_and!; try done; [|lia..].
  intros x Hx. apply I. unfold within, arr_end. lia.
Qed.

(** The lists when the whole block is taken, and when pages are left *)
Lemma relist_all h : relisted s (with_lists (drop_at z p (free_pages_list s)) (with_pages h s)) d p [(true, m)] [(false, m)].
Proof.
  split; [apply nodup_drop, (ok_nodup _ _ Hok)|]. intros z' o q. cbn. rewrite elem_drop. split.
  - intros [Hq Hne]. left. split; [done|]. intros Hr. assert (q = p) as -> by (eapply take_run_only; [done|lia]). apply take_entry in Hq as [<- _]. by apply Hne.
  - intros [[Hq Hr]|(_ & n & Hn%elem_of_nil & _)]; [|done]. split; [done|]. intros _ ->. lia.
Qed.

Definition rest_order (rest : Z) : nat := if rest <? 2 ^ Z.of_nat i then default O (log2 rest) else i.
Definition rest_listing (rest : Z) : zone -> nat -> list Z :=
  if rest <? 2 ^ Z.of_nat i then push_at z (rest_order rest) p (drop_at z p (free_pages_list s)) else free_pages_list s.

Lemma rest_order_ok rest : 0 < rest <= m -> list_order rest = Some (rest_order rest).
Proof.
  intros Hr. destruct take_order as [Hm Hi]. unfold rest_order. destruct (Z.ltb_spec rest (2 ^ Z.of_nat i)) as [Hlt|Hge].
  - destruct (list_order_small rest i) as [-> (o & -> & _)]; try done; lia.
  - destruct (list_order_ge rest i Hi Hge) as (o & Ho & Hle). assert (o <= i)%nat by (eapply (list_order_mono rest m); [lia|done..]). rewrite Ho. f_equal. lia.
Qed.

Lemma relist_rest h rest : rest = m - count -> 0 < rest ->
  relisted s (with_lists (rest_listing rest) (with_pages h s)) d p [(true, m)] [(true, rest); (false, count)].
Proof.
  intros -> Hr. set (rest := m - count) in *. pose proof (rest_order_ok rest ltac:(lia)) as Ho. destruct take_order as [Hm _].
  assert (Hnew : forall z' o q, (parent_region d = z' /\ exists n, (q, n) ∈ frees p [(true, rest); (false, count)] /\ list_order n = Some o) <-> z = z' /\ q = p /\ o = rest_order rest).
  { intros z' o q. cbn. setoid_rewrite list_elem_of_singleton. unfold z. split; [intros (Hz & n & [= -> ->] & Hn); naive_solver|]. intros (Hz & -> & ->). eauto. }
  unfold relisted. setoid_rewrite Hnew. cbn [total]. replace (p + (m + 0)) with (p + m) by lia. cbn [free_pages_list with_lists]. unfold rest_listing. split.
  - destruct (rest <? _); [apply nodup_push; [apply nodup_drop|]|]; try apply (ok_nodup _ _ Hok). intros [_ H]%elem_drop. by apply H.
  - intros z' o q. pose proof (take_run_only z' o q) as Hq. pose proof (take_entry z' o) as Hp. destruct (rest <? 2 ^ Z.of_nat i) eqn:E.
    + rewrite elem_push, elem_drop. split.
      * intros [[H1 H2]|(-> & -> & ->)]; [left|by right]. split; [done|]. intros Hr'. pose proof (Hq H1 Hr') as ->. apply Hp in H1 as [<- _]. by apply H2.
      * intros [[H1 H2]|(<- & -> & ->)]; [left|by right]. split; [done|]. intros _ ->. lia.
    + unfold rest_order. rewrite E. split.
      * intros H1. destruct (decide (p <= q < p + m)) as [Hr'|Hr']; [right|by left]. pose proof (Hq H1 Hr') as ->. apply Hp in H1 as [-> H1]. rewrite Hm in H1. by injection H1 as <-.
      * intros [[H1 H2]|(<- & -> & ->)]; [done|]. by apply Hp.
Qed.

Definition taken_lists : zone -> nat -> list Z := if count <? m then rest_listing (m - count) else drop_at z p (free_pages_list s).
Let q := p + (m - count).

Lemma take_from_run : exists h1, take_from z i p count s = Some (q, with_lists taken_lists (with_pages h1 s))
  /\ (forall x, x <> p -> x <> q - 1 -> h1 !! x = pages s !! x) /\ (forall x, is_Some (pages s !! x) -> is_Some (h1 !! x))
  /\ (if count <? m then tag h1 p (m - count) /\ tag h1 (q - 1) (m - count) else h1 = pages s).
Proof.
  destruct take_marks as ([f1 T1] & _ & I & _ & _). destruct take_order as [Hm Hi]. unfold take_from, taken_lists.
  rewrite (pbind _ _ _ _ _ (free_size_run p m s ltac:(by exists f1))). destruct (Z.ltb_spec count m) as [Hlt|Hge].
  - cbv zeta. set (rest := m - count) in *. rewrite (pbind _ _ _ _ _ (set_data_run p _ _ s T1)). cbn [pg_type pg_flags].
    set (h1 := <[p := Page Free f1 (FreeRegionHead rest)]> (pages s)). assert (Hy : exists y, h1 !! (p + rest - 1) = Some y /\ (p + rest - 1 = p -> pg_type y = Free)).
    { destruct (decide (p + rest - 1 = p)) as [E|E]; [rewrite E; eexists; split; [apply lookup_insert_eq|done]|].
      destruct (I (p + rest - 1) ltac:(lia)) as [y Hy]. exists y. split; [|done]. unfold h1. by rewrite lookup_insert_ne. }
    destruct Hy as (y & Hy & _). rewrite (pbind _ _ _ _ _ (set_data_run (p + rest - 1) y _ (with_pages h1 s) Hy)).
    rewrite (pbind _ _ _ _ _ (set_type_run (p + rest - 1) _ _ (with_pages _ (with_pages h1 s)) (lookup_insert_eq _ _ _))). cbn. rewrite insert_insert_eq.
    set (h2 := <[p + rest - 1 := Page Free (pg_flags y) (FreeRegionHead rest)]> h1). set (s2 := with_pages h2 (with_pages h1 s)).
    assert (Erun : (if rest <? 2 ^ Z.of_nat i then _ ← list_take z p; o ← from (log2 rest); _ ← assert (bool_decide (o < i)%nat); list_push z o p else mret tt) s2
      = Some (tt, with_lists (rest_listing rest) (with_pages h2 s))).
    { unfold rest_listing, rest_order. destruct (Z.ltb_spec rest (2 ^ Z.of_nat i)) as [Hsm|Hsm]; [|done].
      rewrite (pbind _ _ _ _ _ (list_take_run z i p s2 Hin Hi)). destruct (list_order_small rest i) as [_ (o & Eo & Ho)]; [lia|done..|].
      rewrite (pbind _ _ _ _ _ (from_run o _ _ Eo)). rewrite (pbind _ _ _ _ _ (assert_run _ _ (bool_decide_eq_true_2 _ Ho))), Eo.
      rewrite list_push_run; [done|]. intros o' [_ H]%elem_drop. by apply H. }
    rewrite (pbind _ _ _ _ _ Erun). exists h2. replace (p + rest) with q by done. split; [done|]. split_and!.
    + intros x H1 H2. unfold h2, h1. rewrite !lookup_insert_ne; [done|done|unfold q, rest in *; lia].
    + intros x Hx. unfold h2, h1. by rewrite !lookup_insert_is_Some'; auto.
    + unfold h2. destruct (decide (p + rest - 1 = p)) as [E|E]; [rewrite E; eexists; apply lookup_insert_eq|]. exists f1. rewrite lookup_insert_ne by done. apply lookup_insert_eq.
    + unfold h2. exists (pg_flags y). replace (q - 1) with (p + rest - 1) by (unfold q, rest; lia). apply lookup_insert_eq.
  - rewrite (pbind _ _ _ _ _ (list_take_run z i p s Hin Hi)). exists (pages s). replace q with p by (unfold q; lia). done.
Qed.

(** The structures of the pages that are handed out *)
Lemma mark_busy h1 f : (forall x, is_Some (pages s !! x) -> is_Some (h1 !! x)) ->
  exists h2, (_ ← set_type q AllocatedPending; _ ← set_flags q 0; phys ← get_phys_addr q; _ ← set_data q (PendingAllocHead 0 phys count);
              _ ← set_type (q + count - 1) AllocatedPending; mret q) (with_lists f (with_pages h1 s)) = Some (q, with_lists f (with_pages h2 s))
    /\ h2 !! q = Some (Page AllocatedPending 0 (PendingAllocHead 0 ((q - arr_pages d) * PAGE_SIZE + start_addr d) count))
    /\ not_free h2 (q + count - 1) /\ (forall x, x <> q -> x <> q + count - 1 -> h2 !! x = h1 !! x) /\ (forall x, is_Some (h1 !! x) -> is_Some (h2 !! x)).
Proof.
  intros Hp. destruct take_marks as (_ & _ & I & B1 & B2). destruct (Hp q ltac:(apply I; unfold q; lia)) as [x Hx]. destruct (Hp (q + count - 1) ltac:(apply I; unfold q; lia)) as [y Hy].
  set (s1 := with_lists f (with_pages h1 s)). rewrite (pbind _ _ _ _ _ (set_type_run q x AllocatedPending s1 Hx)).
  rewrite (pbind _ _ _ _ _ (set_flags_run q _ _ _ (lookup_insert_eq _ _ _))). cbn. rewrite insert_insert_eq.
  set (h2 := <[q := Page AllocatedPending 0 (pg_data x)]> h1). set (s2 := with_pages h2 _).
  assert (Hphys : get_phys_addr q s2 = Some ((q - arr_pages d) * PAGE_SIZE + start_addr d, s2)).
  { unfold get_phys_addr. rewrite (pbind _ _ _ _ _ (get_page_run q _ s2 (lookup_insert_eq _ _ _))), (pbind _ _ _ _ _ (assert_run _ s2 eq_refl)).
    pose proof (find_array_run s _ Hok (d, b1 ++ [(true, m)] ++ b2) q ltac:(clear; set_solver) ltac:(unfold q, arr_end in *; cbn; lia)) as Hf.
    by rewrite (pbind _ _ _ _ _ (find_array_same s s2 q d eq_refl Hf)). }
  rewrite (pbind _ _ _ _ _ Hphys), (pbind _ _ _ _ _ (set_data_run q _ _ s2 (lookup_insert_eq _ _ _))). cbn. unfold h2. rewrite insert_insert_eq.
  set (h3 := <[q := _]> h1). assert (Hy' : exists y', h3 !! (q + count - 1) = Some y' /\ (q + count - 1 = q -> y' = Page AllocatedPending 0 (PendingAllocHead 0 ((q - arr_pages d) * PAGE_SIZE + start_addr d) count))).
  { destruct (decide (q + count - 1 = q)) as [E|E]; [rewrite E; eexists; split; [apply lookup_insert_eq|done]|]. exists y. split; [|done]. unfold h3. by rewrite lookup_insert_ne. }
  destruct Hy' as (y' & Hy' & Heq). rewrite (pbind _ _ _ _ _ (set_type_run (q + count - 1) y' AllocatedPending (with_pages h3 _) Hy')).
  exists (<[q + count - 1 := Page AllocatedPending (pg_flags y') (pg_data y')]> h3). split; [done|]. split_and!.
  - destruct (decide (q + count - 1 = q)) as [E|E]; [rewrite E, lookup_insert_eq, (Heq E); done|]. rewrite lookup_insert_ne by done. apply lookup_insert_eq.
  - eexists. split; [apply lookup_insert_eq|done].
  - intros w H1 H2. unfold h3. by rewrite !lookup_insert_ne.
  - intros w Hw. unfold h3. rewrite !lookup_insert_is_Some'. auto.
Qed.

Definition left_over : list block := if count <? m then [(true, m - count)] else [].

Lemma take_ok : exists s', (q' ← take_from z i p count; _ ← set_type q' AllocatedPending; _ ← set_flags q' 0; phys ← get_phys_addr q';
      _ ← set_data q' (PendingAllocHead 0 phys count); _ ← set_type (q' + count - 1) AllocatedPending; mret q') s = Some (q, s')
  /\ pmm_ok s' (G1 ++ (d, b1 ++ (left_over ++ [(false, count)]) ++ b2) :: G2) /\ rcu_pending s' = rcu_pending s
  /\ pages s' !! q = Some (Page AllocatedPending 0 (PendingAllocHead 0 ((q - arr_pages d) * PAGE_SIZE + start_addr d) count))
  /\ same_outside p (p + m) (pages s) (pages s').
Proof.
  destruct take_from_run as (h1 & E1 & O1 & P1 & T1). rewrite (pbind _ _ _ _ _ E1). destruct (mark_busy h1 taken_lists P1) as (h2 & E2 & Hq & Hl & O2 & P2).
  eexists. split; [exact E2|]. assert (Hso : same_outside p (p + m) (pages s) h2).
  { intros x Hx. unfold q in *. rewrite O2 by lia. destruct (Z.ltb_spec count m); [apply O1; lia|by rewrite T1]. } split; [|by split_and!].
  assert (Hend : ends_marked h2 q (false, count)) by (split; [cbn; lia|split; [by eexists|done]]).
  apply (pmm_replace s _ G1 G2 d b1 [(true, m)] (left_over ++ [(false, count)]) b2 Hok); unfold left_over in *; try done.
  - destruct (Z.ltb_spec count m); cbn; lia.
  - fold p. cbn [pages with_lists with_pages]. destruct (Z.ltb_spec count m) as [H|H]; cbn [marked app].
    + destruct T1 as [[f1 T1] [f2 T2]]. split_and!; [|exact Hend|done]. split; [cbn; lia|]. cbn [fst snd].
      replace (p + (m - count) - 1) with (q - 1) by (unfold q; lia). split; [exists f1|exists f2]; rewrite O2 by (unfold q; lia); done.
    + split; [|done]. replace p with q by (unfold q; lia). done.
  - cbn [total]. by rewrite Z.add_0_r.
  - intros x Hx. by apply P2, P1.
  - pose proof (area_apart _ _ _ (run_area _ _ _ _ _ _ _ Hok)) as A. apply apart_app in A as [A1 [A2 A3]]. rewrite andb_true_r in A2. apply apart_true in A3 as [A3 _].
    apply apart_app. split; [done|]. destruct (Z.ltb_spec count m); cbn; rewrite ?A2; done.
  - fold p z. unfold taken_lists. destruct (Z.ltb_spec count m) as [H|H]; cbn [app].
    + apply (relist_rest h2 (m - count) eq_refl). lia.
    + assert (Ec : count = m) by lia. rewrite Ec. apply relist_all.
Qed.
End Take.

(** A list entry is a free block of some array. *)
Lemma entry_block s G z o p : pmm_ok s G -> p ∈ free_pages_list s z o ->
  exists G1 d b1 m b2 G2, G = G1 ++ (d, b1 ++ (true, m) :: b2) :: G2 /\ parent_region d = z /\ p = arr_pages d + total b1 /\ list_order m = Some o.
Proof.
  intros Hok Hp. apply (ok_lists _ _ Hok) in Hp as (m & ([d bs] & Ha & Hz & Hm) & Ho). cbn in *. apply frees_split in Hm as (b1 & b2 & -> & ->).
  apply list_elem_of_split in Ha as (G1 & G2 & ->). eauto 12.
Qed.
Lemma block_entry s G z p n : pmm_ok s G -> free_at G z p n -> exists o, p ∈ free_pages_list s z o /\ list_order n = Some o /\ (o < page_lists)%nat.
Proof.
  intros Hok Hf. assert (0 < n).
  { destruct Hf as (a & Ha & _ & Hm). destruct (ok_areas _ _ Hok a Ha) as [_ M _ _ _ _]. by destruct (frees_range _ _ _ _ _ M Hm) as (_ & ? & _). }
  destruct (list_order_some n) as (o & Ho & Hlt & _); [done|]. exists o. split_and!; try done. apply (ok_lists _ _ Hok). eauto.
Qed.
Lemma list_order_le m o : list_order m = Some o -> 2 ^ Z.of_nat o <= m.
Proof.
  intros H. assert (0 < m) by (unfold list_order, log2 in H; destruct (Z.ltb_spec 0 m); done). destruct (list_order_some m) as (o' & Ho & _ & Hle); [done|]. congruence.
Qed.

(** The order of a request: the smallest power of two that is not below it *)
Definition request_order (count : Z) : nat := let o := Z.to_nat (Z.log2 count) in if 2 ^ Z.of_nat o <? count then S o else o.

Lemma request_order_ge count : 0 < count -> count <= 2 ^ Z.of_nat (request_order count).
Proof.
  intros Hc. unfold request_order. cbv zeta. destruct (Z.ltb_spec (2 ^ Z.of_nat (Z.to_nat (Z.log2 count))) count); [|done].
  pose proof (Z.log2_spec count Hc). pose proof (Z.log2_nonneg count). rewrite Nat2Z.inj_succ, Z2Nat.id; lia.
Qed.
Lemma request_order_le count k : 0 < count -> count <= 2 ^ Z.of_nat k -> (request_order count <= k)%nat.
Proof.
  intros Hc Hk. unfold request_order. cbv zeta. pose proof (Z.log2_nonneg count). pose proof (Z.log2_le_mono _ _ Hk) as Hl. rewrite Z.log2_pow2 in Hl by lia.
  destruct (Z.ltb_spec (2 ^ Z.of_nat (Z.to_nat (Z.log2 count))) count) as [Hlt|]; [|lia]. enough (Z.log2 count <> Z.of_nat k) by lia.
  intros He. rewrite Z2Nat.id, He in Hlt; lia.
Qed.

(** An allocation from a zone: it fails and changes nothing when no free block of the zone is
    sure to be large enough, else it takes the end of a free block. *)
Lemma alloc_from_ok s G z count : pmm_ok s G -> 0 < count ->
  (exists s' G1 d b1 m b2 G2, G = G1 ++ (d, b1 ++ (true, m) :: b2) :: G2 /\ parent_region d = z /\ count <= m
     /\ alloc_pages_from z count s = Some (arr_pages d + total b1 + (m - count), s')
     /\ pmm_ok s' (G1 ++ (d, b1 ++ (left_over m count ++ [(false, count)]) ++ b2) :: G2) /\ rcu_pending s' = rcu_pending s
     /\ to_free s' (arr_pages d + total b1 + (m - count)) count
     /\ same_outside (arr_pages d + total b1) (arr_pages d + total b1 + m) (pages s) (pages s'))
  \/ (alloc_pages_from z count s = Some (0, s)
      /\ (2 ^ 17 < count \/ forall p n, free_at G z p n -> n < 2 ^ Z.of_nat (request_order count))).
Proof.
  intros Hok Hc. unfold alloc_pages_from. rewrite (pbind _ _ _ _ _ (assert_run _ s (proj2 (Z.ltb_lt 0 count) Hc))), (pbind _ _ _ _ _ (eq_refl : get_arrays s = Some (phys_memory_regions s, s))).
  case_bool_decide as He.
  { right. split; [done|]. right. intros p n (a & Ha & _). rewrite (ok_arrays _ _ Hok) in He. destruct G; [by apply elem_of_nil in Ha|done]. }
  destruct (Z.ltb_spec (2 ^ Z.of_nat page_lists) count) as [Hbig|Hsmall]; [right; split; [done|left]; unfold page_lists in Hbig; lia|].
  rewrite (pbind _ _ _ _ _ (from_run _ _ s (log2_some count Hc))). cbv zeta. change (if 2 ^ Z.of_nat (Z.to_nat (Z.log2 count)) <? count then _ else _) with (request_order count).
  set (o := request_order count). pose proof (request_order_ge count Hc) as Hge. fold o in Hge.
  destruct (first_block_spec z (page_lists - o) o s) as (b & Eb & Hb). rewrite (pbind _ _ _ _ _ Eb). destruct b as [[i p]|].
  - left. destruct Hb as [Hi Hp]. destruct (entry_block s G z i p Hok Hp) as (G1 & d & b1 & m & b2 & G2 & -> & <- & -> & Hm).
    assert (Hcm : 0 < count <= m).
    { split; [done|]. apply list_order_le in Hm. etransitivity; [exact Hge|]. etransitivity; [|exact Hm]. apply Z.pow_le_mono_r; lia. }
    destruct (take_ok s G1 G2 d b1 b2 m count i Hok Hcm Hp) as (s' & E' & Hok' & R' & Hq & O'). exists s', G1, d, b1, m, b2, G2. split_and!; try done; [lia|].
    exists 0. right. eauto.
  - right. split; [done|]. destruct (Z.lt_ge_cases (2 ^ 17) count) as [|Hle]; [by left|right].
    assert (Hol : (o < page_lists)%nat) by (pose proof (request_order_le count 17 Hc Hle); unfold o, page_lists; lia).
    intros p n Hf. destruct (block_entry s G z p n Hok Hf) as (j & Hj & Hn & Hlt). destruct (Z.lt_ge_cases n (2 ^ Z.of_nat o)) as [|Hno]; [done|]. exfalso.
    destruct (list_order_ge n o Hol Hno) as (j' & Hj' & Hoj). assert (j' = j) as -> by congruence. rewrite (Hb j) in Hj by lia. by apply elem_of_nil in Hj.
Qed.
