(* ===== verification/PmmKernel.v ===== *)
(** * Physical memory for the kernel: pages by address

    [get_memory_for_kernel] and [free_memory_for_kernel] on the blocks: an allocated block
    becomes pages of their own, and a run of such pages becomes a block again that waits for the
    grace period.  Addresses are found by binary search. *)

From Stdlib Require Import ZArith Lia.
From stdpp Require Import base numbers list gmap.
From S2P Require Import ListFacts Pmm PmmInv PmmOps.
Open Scope Z_scope.

(** ** Busy runs *)

Definition all_busy (bs : list block) : Prop := Forall (fun b => b.1 = false) bs.

Lemma busy_frees bs p : all_busy bs -> frees p bs = [].
Proof. intros H. revert p. induction H as [|[f n] bs Hf _ IH]; intros p; cbn in *; [done|]. subst f. cbn. apply IH. Qed.
Lemma busy_last f bs : all_busy bs -> bs <> [] -> last_free f bs = false.
Proof. intros H Hn. destruct bs as [|b bs _] using rev_ind; [done|]. rewrite last_free_snoc. apply Forall_app in H as [_ H]. by apply Forall_cons in H as [H _]. Qed.
Lemma busy_apart f bs : all_busy bs -> apart f bs.
Proof. intros H. revert f. induction H as [|[g n] bs Hf _ IH]; intros f; cbn in *; [done|]. subst g. rewrite andb_false_r. auto. Qed.

Lemma relist_busy s s' G1 G2 d b1 mid mid' b2 : pmm_ok s (G1 ++ (d, b1 ++ mid ++ b2) :: G2) -> all_busy mid -> all_busy mid' -> free_pages_list s' = free_pages_list s ->
  relisted s s' d (arr_pages d + total b1) mid mid'.
Proof.
  intros Hok Hm Hm' Hl. split; [rewrite Hl; apply (ok_nodup _ _ Hok)|]. intros z o q. rewrite Hl, (busy_frees mid') by done. split.
  - intros Hq. left. split; [done|]. intros Hr. pose proof (run_entries s G1 d b1 mid b2 G2 z o q Hok) as H. cbv zeta in H. apply H in Hq as (_ & n & Hn & _); [|done].
    rewrite busy_frees in Hn by done. by apply elem_of_nil in Hn.
  - intros [[Hq _]|(_ & n & Hn%elem_of_nil & _)]; done.
Qed.

(** Busy blocks become other busy blocks of the same pages. *)
Lemma resegment s s' G1 G2 d b1 mid mid' b2 : pmm_ok s (G1 ++ (d, b1 ++ mid ++ b2) :: G2) -> all_busy mid -> all_busy mid' -> mid <> [] -> mid' <> [] -> total mid' = total mid ->
  marked (pages s') (arr_pages d + total b1) mid' -> same_outside (arr_pages d + total b1) (arr_pages d + total b1 + total mid) (pages s) (pages s') ->
  (forall x, is_Some (pages s !! x) -> is_Some (pages s' !! x)) -> phys_memory_regions s' = phys_memory_regions s -> free_pages_list s' = free_pages_list s ->
  pmm_ok s' (G1 ++ (d, b1 ++ mid' ++ b2) :: G2).
Proof.
  intros Hok Hm Hm' Hn Hn' Ht Hk Ho Hp Ha Hl. apply (pmm_replace s s' G1 G2 d b1 mid mid' b2 Hok); try done; [|by apply (relist_busy s s' G1 G2 d b1 mid mid' b2)].
  pose proof (area_apart _ _ _ (run_area _ _ _ _ _ _ _ Hok)) as A. rewrite !apart_app in A |- *. destruct A as (A1 & A2 & A3).
  rewrite (busy_last _ mid) in A3 by done. rewrite (busy_last _ mid') by done. split_and!; [done|by apply busy_apart|done].
Qed.

Definition units (n : nat) : list block := replicate n (false, 1).

Lemma units_total n : total (units n) = Z.of_nat n.
Proof. unfold units. induction n; cbn in *; lia. Qed.
Lemma units_busy n : all_busy (units n).
Proof. by apply Forall_replicate. Qed.

Definition owned : page := Page Allocated 0 (Mem_Object_LL_Head 0 1).

Lemma own_pages_run n p s : (forall x, p <= x < p + Z.of_nat n -> is_Some (pages s !! x)) ->
  exists h, own_pages n p s = Some (tt, with_pages h s) /\ (forall x, p <= x < p + Z.of_nat n -> h !! x = Some owned) /\ same_outside p (p + Z.of_nat n) (pages s) h.
Proof.
  revert p s. induction n as [|n IH]; intros p s Hp.
  - exists (pages s). split; [by destruct s|]. split; [intros; lia|]. by intros x _.
  - cbn [own_pages]. rewrite (pbind _ _ _ _ _ (put_page_run p _ s (Hp p ltac:(lia)))). set (s1 := with_pages _ s).
    destruct (IH (p + 1) s1) as (h & E & Hh & Ho).
    { intros x Hx. unfold s1. cbn. rewrite lookup_insert_ne by lia. apply Hp. lia. }
    exists h. split; [exact E|]. split.
    + intros x Hx. destruct (decide (x = p)) as [->|]; [|apply Hh; lia]. rewrite Ho by lia. unfold s1. cbn. by rewrite lookup_insert_eq.
    + intros x Hx. rewrite Ho by lia. unfold s1. cbn. rewrite lookup_insert_ne; [done|lia].
Qed.

Lemma units_marked h p n : (forall x, p <= x < p + Z.of_nat n -> not_free h x) -> marked h p (units n).
Proof.
  revert p. induction n as [|n IH]; intros p H; [done|]. cbn. split.
  - split; [cbn; lia|]. cbn. replace (p + 1 - 1) with p by lia. split; apply H; lia.
  - apply IH. intros x Hx. apply H. lia.
Qed.

Lemma own_block_ok s G1 G2 d b1 count b2 : pmm_ok s (G1 ++ (d, b1 ++ [(false, count)] ++ b2) :: G2) ->
  exists s', own_pages (Z.to_nat count) (arr_pages d + total b1) s = Some (tt, s') /\ pmm_ok s' (G1 ++ (d, b1 ++ units (Z.to_nat count) ++ b2) :: G2)
    /\ rcu_pending s' = rcu_pending s /\ (forall x, arr_pages d + total b1 <= x < arr_pages d + total b1 + count -> pages s' !! x = Some owned)
    /\ same_outside (arr_pages d + total b1) (arr_pages d + total b1 + count) (pages s) (pages s').
Proof.
  intros Hok. pose proof (run_area _ _ _ _ _ _ _ Hok) as Ha. pose proof (run_bounds _ _ _ _ _ Ha) as (B1 & B2 & B3 & B4). cbn [total] in B2, B4.
  pose proof Ha as [_ M _ _ I _]. rewrite !marked_app in M. destruct M as (_ & [[Hc _] _] & _). cbn in Hc. set (p := arr_pages d + total b1) in *.
  destruct (own_pages_run (Z.to_nat count) p s) as (h & E & Hh & Ho).
  { intros x Hx. apply I. unfold within, arr_end, p in *. lia. }
  rewrite Z2Nat.id in Hh, Ho by lia. eexists. split; [exact E|]. split; [|by split_and!]. apply (resegment s _ G1 G2 d b1 [(false, count)] _ b2 Hok); try done.
  - by repeat constructor.
  - apply units_busy.
  - destruct (Z.to_nat count) eqn:En; [lia|done].
  - rewrite units_total. cbn. lia.
  - fold p. apply units_marked. intros x Hx. exists owned. split; [apply Hh; lia|done].
  - cbn. by rewrite Z.add_0_r.
  - intros x Hx. cbn. destruct (decide (p <= x < p + count)) as [Hr|Hr]; [rewrite Hh by done; by eexists|]. rewrite Ho; [done|lia].
Qed.

(** ** Pages by address *)

(** The arrays are in the order of their addresses and do not overlap. *)
Definition phys_sorted (l : list page_array) : Prop := forall i j d e, l !! i = Some d -> l !! j = Some e -> (i < j)%nat -> end_phys d <= start_addr e.

Lemma lower_or_equal_ok l addr i fuel left right result : (i < length l)%nat ->
  (forall k d, l !! k = Some d -> if decide (k <= i)%nat then start_addr d <= addr else addr < start_addr d) ->
  (right <= length l)%nat -> (right - left <= fuel)%nat -> (left <= S i <= right)%nat -> (left = 0 /\ result = 0 \/ left = S result)%nat ->
  lower_or_equal fuel l addr left right result = Some i.
Proof.
  intros Hi Hs. revert left right result. induction fuel as [|fuel IH]; intros left right result Hr Hf Hlr Hres; cbn [lower_or_equal].
  - rewrite decide_False by lia. f_equal. lia.
  - case_decide as Hlt.
    + set (mid := (left + (right - left) / 2)%nat). assert (Hmid : (left <= mid < right)%nat).
      { unfold mid. pose proof (Nat.div_lt (right - left) 2 ltac:(lia) ltac:(lia)). lia. }
      destruct (lookup_lt_is_Some_2 l mid ltac:(lia)) as [d Hd]. cbv zeta. fold mid. rewrite Hd. cbn. specialize (Hs mid d Hd). case_decide as Hm.
      * rewrite (proj2 (Z.ltb_ge _ _)) by done. apply IH; lia.
      * rewrite (proj2 (Z.ltb_lt _ _)) by done. apply IH; lia.
    + f_equal. lia.
Qed.

Section FindPage.
Context (s : pmm) (G : list area) (Hok : pmm_ok s G) (Hsort : phys_sorted (phys_memory_regions s)).

Lemma find_page_run a addr : a ∈ G -> start_addr a.1 <= addr < end_phys a.1 -> find_page addr s = Some (arr_pages a.1 + (addr - start_addr a.1) / PAGE_SIZE, s).
Proof.
  intros Ha Hr. unfold find_page. rewrite (pbind _ _ _ _ _ (eq_refl : get_arrays s = Some (phys_memory_regions s, s))).
  assert (Hin : a.1 ∈ phys_memory_regions s) by (rewrite (ok_arrays _ _ Hok); by apply list_elem_of_fmap_2). apply list_elem_of_lookup in Hin as [i Hi].
  rewrite bool_decide_false by (by intros E; rewrite E in Hi). assert (Hsz : forall d, d ∈ phys_memory_regions s -> start_addr d <= end_phys d).
  { intros d Hd. rewrite (ok_arrays _ _ Hok) in Hd. apply list_elem_of_fmap in Hd as (c & -> & Hc). pose proof (array_size s G Hok c Hc). unfold end_phys, PAGE_SIZE. lia. }
  assert (El : lower_or_equal (length (phys_memory_regions s)) (phys_memory_regions s) addr 0 (length (phys_memory_regions s)) 0 = Some i).
  { apply lower_or_equal_ok; try lia; try (by eapply lookup_lt_Some); [|pose proof (lookup_lt_Some _ _ _ Hi); lia].
    intros k d Hd. case_decide as Hk.
    - destruct (decide (k = i)) as [->|]; [congruence || (assert (d = a.1) as -> by congruence; lia)|].
      pose proof (Hsort k i d a.1 Hd Hi ltac:(lia)). pose proof (Hsz d ltac:(by eapply list_elem_of_lookup_2)). lia.
    - pose proof (Hsort i k a.1 d Hi Hd ltac:(lia)). lia. }
  rewrite (pbind _ _ _ _ _ (from_run i _ s El)), (pbind _ _ _ _ _ (from_run a.1 _ s Hi)). by rewrite (proj2 (Z.leb_le _ _)), (proj2 (Z.ltb_lt _ _)) by lia.
Qed.

(** The address of a page leads back to it. *)
Lemma find_page_phys a p : a ∈ G -> arr_pages a.1 <= p < arr_end a.1 -> find_page ((p - arr_pages a.1) * PAGE_SIZE + start_addr a.1) s = Some (p, s).
Proof.
  intros Ha Hp. rewrite (find_page_run a) by (done || unfold end_phys, arr_end, PAGE_SIZE in *; lia). do 2 f_equal. unfold PAGE_SIZE.
  replace ((p - arr_pages a.1) * 4096 + start_addr a.1 - start_addr a.1) with ((p - arr_pages a.1) * 4096) by lia. rewrite Z.div_mul; lia.
Qed.
End FindPage.
