(* ===== verification/PmmSpec.v ===== *)
(** * Physical memory: what the allocator promises

    Every page is free, held by the kernel, or waits for the end of a grace period.  The theorems
    show that the allocator implements this bookkeeping: it hands out free pages only, takes back
    what was held, merges free blocks, and finds the structure of an address. *)

From Stdlib Require Import ZArith Lia.
From stdpp Require Import base numbers list gmap.
From S2P Require Import ListFacts Pmm PmmInv PmmOps PmmKernel.
Open Scope Z_scope.

(** ** Blocks by their place *)

Fixpoint entries (p : Z) (bs : list block) : list (Z * block) := match bs with [] => [] | b :: bs => (p, b) :: entries (p + b.2) bs end.

Definition block_at (G : list area) (f : bool) (q n : Z) : Prop := exists a, a ∈ G /\ (q, (f, n)) ∈ entries (arr_pages a.1) a.2.

Lemma entries_app p b1 b2 : entries p (b1 ++ b2) = entries p b1 ++ entries (p + total b1) b2.
Proof. revert p. induction b1 as [|[f n] b1 IH]; intros p; cbn; [by rewrite Z.add_0_r|]. by rewrite IH, Z.add_assoc. Qed.
Lemma entries_range h p bs q f n : marked h p bs -> (q, (f, n)) ∈ entries p bs -> p <= q /\ 0 < n /\ q + n <= p + total bs.
Proof.
  revert p. induction bs as [|[g m] bs IH]; intros p; cbn; [by intros _ ?%elem_of_nil|]. intros [[He _] Hm] [[= -> -> ->]|Hq]%elem_of_cons; cbn in He; pose proof (marked_total _ _ _ Hm).
  - lia.
  - destruct (IH _ Hm Hq). lia.
Qed.
Lemma entries_split p bs q f n : (q, (f, n)) ∈ entries p bs -> exists b1 b2, bs = b1 ++ (f, n) :: b2 /\ q = p + total b1.
Proof.
  revert p. induction bs as [|[g m] bs IH]; intros p; cbn; [by intros ?%elem_of_nil|]. intros [[= -> -> ->]|Hq]%elem_of_cons.
  - exists [], bs. cbn. split; [done|lia].
  - apply IH in Hq as (b1 & b2 & -> & ->). exists ((g, m) :: b1), b2. cbn. split; [done|lia].
Qed.
Lemma entries_frees p bs q n : (q, n) ∈ frees p bs <-> (q, (true, n)) ∈ entries p bs.
Proof.
  revert p. induction bs as [|[[] m] bs IH]; intros p; cbn; rewrite ?elem_of_nil, ?elem_of_cons, ?IH; naive_solver.
Qed.

Lemma block_split G f q n : block_at G f q n -> exists G1 d b1 b2 G2, G = G1 ++ (d, b1 ++ (f, n) :: b2) :: G2 /\ q = arr_pages d + total b1.
Proof.
  intros ([d bs] & Ha & Hq). cbn in Hq. apply entries_split in Hq as (b1 & b2 & -> & ->). apply list_elem_of_split in Ha as (G1 & G2 & ->). eauto 10.
Qed.

Section Change.
Context (s : pmm) (G1 G2 : list area) (d : page_array) (b1 mid mid' b2 : list block).
Let st := arr_pages d + total b1.
Let G := G1 ++ (d, b1 ++ mid ++ b2) :: G2.
Let G' := G1 ++ (d, b1 ++ mid' ++ b2) :: G2.
Context (Hok : pmm_ok s G) (Ht : total mid' = total mid).

(** The blocks outside the run are those there were, and do not reach into it. *)
Lemma outside_run f q n : block_at G f q n -> ~ st <= q < st + total mid -> q + n <= st \/ st + total mid <= q.
Proof.
  intros (a & Ha & Hq) Hout. pose proof (run_range s G1 G2 d b1 mid b2 Hok) as (R1 & R2 & R3). fold st in R1, R2. destruct (ok_areas _ _ Hok a Ha) as [T M _ _ _ _].
  destruct (entries_range _ _ _ _ _ _ M Hq) as (E1 & E2 & E3). assert (Hin : a ∈ G1 ++ G2 \/ a = (d, b1 ++ mid ++ b2)) by (unfold G in Ha; rewrite elem_of_app, elem_of_cons in Ha; rewrite elem_of_app; tauto).
  destruct Hin as [Hin| ->].
  - destruct (Z.le_gt_cases (q + n) st); [by left|right]. destruct (Z.le_gt_cases (st + total mid) q); [done|]. exfalso. unfold arr_end in *.
    set (x := Z.max q st). apply (separate_middle G1 (d, b1 ++ mid ++ b2) G2 a x (run_separate _ _ _ _ _ _ _ Hok) Hin); unfold within, arr_end, x in *; cbn in *; lia.
  - cbn in *. rewrite !entries_app in Hq. fold st in Hq. rewrite !marked_app in M. fold st in M. destruct M as (M1 & M2 & M3). rewrite !elem_of_app in Hq. destruct Hq as [Hq|[Hq|Hq]].
    + apply (entries_range _ _ _ _ _ _ M1) in Hq. unfold st. lia.
    + apply (entries_range _ _ _ _ _ _ M2) in Hq. lia.
    + apply (entries_range _ _ _ _ _ _ M3) in Hq. lia.
Qed.

Lemma block_change f q n : block_at G' f q n <-> (block_at G f q n /\ ~ st <= q < st + total mid) \/ (q, (f, n)) ∈ entries st mid'.
Proof.
  pose proof (run_range s G1 G2 d b1 mid b2 Hok) as (R1 & R2 & R3). fold st in R1, R2. pose proof (run_area _ _ _ _ _ _ _ Hok) as [T M _ _ _ _]. rewrite !marked_app in M. fold st in M. destruct M as (M1 & M2 & M3).
  assert (Hsplit : forall m, total m = total mid -> (exists a, a ∈ G1 ++ (d, b1 ++ m ++ b2) :: G2 /\ (q, (f, n)) ∈ entries (arr_pages a.1) a.2) <->
    (exists a, a ∈ G1 ++ G2 /\ (q, (f, n)) ∈ entries (arr_pages a.1) a.2) \/ (q, (f, n)) ∈ entries (arr_pages d) b1 \/ (q, (f, n)) ∈ entries st m \/ (q, (f, n)) ∈ entries (st + total mid) b2).
  { intros m Hm. rewrite <- Hm. setoid_rewrite elem_of_app. setoid_rewrite elem_of_cons. split.
    - intros (a & [Ha|[->|Ha]] & Hq); [left; eauto| |left; eauto]. cbn in Hq. rewrite !entries_app, !elem_of_app in Hq. fold st in Hq. tauto.
    - intros [(a & Ha & Hq)|Hq]; [exists a; tauto|]. exists (d, b1 ++ m ++ b2). cbn. rewrite !entries_app, !elem_of_app. fold st. tauto. }
  unfold block_at, G, G'. rewrite !Hsplit by done.
  assert (F1 : (q, (f, n)) ∈ entries (arr_pages d) b1 -> ~ st <= q < st + total mid) by (intros H; apply (entries_range _ _ _ _ _ _ M1) in H; unfold st; lia).
  assert (F2 : (q, (f, n)) ∈ entries st mid -> st <= q < st + total mid) by (intros H; apply (entries_range _ _ _ _ _ _ M2) in H; lia).
  assert (F3 : (q, (f, n)) ∈ entries (st + total mid) b2 -> ~ st <= q < st + total mid) by (intros H; apply (entries_range _ _ _ _ _ _ M3) in H; lia).
  assert (F4 : (exists a, a ∈ G1 ++ G2 /\ (q, (f, n)) ∈ entries (arr_pages a.1) a.2) -> ~ st <= q < st + total mid).
  { intros (a & Ha & Hq) Hr. assert (HaG : a ∈ G) by (unfold G; clear -Ha; set_solver). destruct (ok_areas _ _ Hok a HaG) as [T' M' _ _ _ _].
    destruct (entries_range _ _ _ _ _ _ M' Hq). apply (separate_middle G1 (d, b1 ++ mid ++ b2) G2 a q (run_separate _ _ _ _ _ _ _ Hok) Ha); unfold within, arr_end in *; cbn; lia. }
  tauto.
Qed.
End Change.

(** ** The books *)

Record books := Books {
  bk_free : gset Z;                (** the free pages *)
  bk_held : gset Z;                (** the pages the kernel holds *)
  bk_waiting : list (Z * Z)        (** the runs of pages that wait for the end of a grace period *) }.

Definition run (p n : Z) : gset Z := list_to_set (seqZ p n).
Lemma elem_run x p n : x ∈ run p n <-> p <= x < p + n.
Proof. unfold run. rewrite elem_of_list_to_set, elem_of_seqZ. lia. Qed.

Inductive request :=
  | Get (count : Z) (policy : AllocPolicy)  (** [get_memory_for_kernel] *)
  | Put (p n : Z)                           (** [free_memory_for_kernel] of the address of the page [p] *)
  | Elapsed (p : Z)                         (** the grace period of the run at [p] is over *).

(** The address of a page, by its array *)
Definition addr_of (l : list page_array) (p : Z) : Z :=
  match smaller_array p l with Some d => (p - arr_pages d) * PAGE_SIZE + start_addr d | None => 0 end.

Definition exec (r : request) : P Z :=
  match r with
  | Get count policy => get_memory_for_kernel count policy
  | Put p n => l ← get_arrays; _ ← free_memory_for_kernel (addr_of l p) n; mret 0
  | Elapsed p => _ ← rcu_callback_page p; mret 0
  end.

(** What the kernel may ask for: the pages it puts back are pages it holds, of one array. *)
Definition allowed (l : list page_array) (b : books) (r : request) : Prop :=
  match r with
  | Get count _ => 0 < count
  | Put p n => 0 < n /\ run p n ⊆ bk_held b /\ exists d, d ∈ l /\ arr_pages d <= p /\ p + n <= arr_end d
  | Elapsed p => p ∈ (bk_waiting b).*1
  end.

Definition zones (policy : AllocPolicy) : list zone :=
  match policy with Normal => [region_above_4gb; region_below_4gb] | Below4GB => [region_below_4gb] | ISA => [region_isa] end.

(** What happens to the books *)
Inductive booked (l : list page_array) (b : books) : request -> Z -> books -> Prop :=
  | booked_none count policy : booked l b (Get count policy) (-1) b
  | booked_get count policy p d : d ∈ l -> parent_region d ∈ zones policy -> arr_pages d <= p -> p + count <= arr_end d -> run p count ⊆ bk_free b ->
      booked l b (Get count policy) (addr_of l p) (Books (bk_free b ∖ run p count) (bk_held b ∪ run p count) (bk_waiting b))
  | booked_put p n : booked l b (Put p n) 0 (Books (bk_free b) (bk_held b ∖ run p n) ((p, n) :: bk_waiting b))
  | booked_elapsed p n w1 w2 : bk_waiting b = w1 ++ (p, n) :: w2 ->
      booked l b (Elapsed p) 0 (Books (bk_free b ∪ run p n) (bk_held b) (w1 ++ w2)).

(** The heap and the lists are as the books say. *)
Record kept (s : pmm) (b : books) (G : list area) : Prop := Kept {
  k_ok : pmm_ok s G;
  k_sorted : phys_sorted (phys_memory_regions s);
  k_free : forall x, x ∈ bk_free b <-> exists q n, block_at G true q n /\ q <= x < q + n;
  k_held : forall x, x ∈ bk_held b -> block_at G false x 1 /\ pages s !! x = Some owned;
  k_waiting : forall p n, (p, n) ∈ bk_waiting b -> block_at G false p n /\ exists f, pages s !! p = Some (Page PendingFree f (RCUState n));
  k_pending : rcu_pending s = (bk_waiting b).*1;
  k_nodup : NoDup (bk_waiting b).*1 }.

Definition keeps_books (s : pmm) (b : books) : Prop := exists G, kept s b G.

(** Free pages after a change of a run *)
Lemma free_change s G1 G2 d b1 mid mid' b2 (f f' : gset Z) : pmm_ok s (G1 ++ (d, b1 ++ mid ++ b2) :: G2) -> total mid' = total mid ->
  let st := arr_pages d + total b1 in
  (forall x, x ∈ f <-> exists q n, block_at (G1 ++ (d, b1 ++ mid ++ b2) :: G2) true q n /\ q <= x < q + n) ->
  (forall x, x ∈ f' <-> (x ∈ f /\ ~ st <= x < st + total mid) \/ exists q n, (q, (true, n)) ∈ entries st mid' /\ q <= x < q + n) ->
  forall x, x ∈ f' <-> exists q n, block_at (G1 ++ (d, b1 ++ mid' ++ b2) :: G2) true q n /\ q <= x < q + n.
Proof.
  intros Hok Ht st Hf Hf' x. rewrite Hf', Hf. setoid_rewrite (block_change s G1 G2 d b1 mid mid' b2 Hok Ht). fold st.
  pose proof (run_area _ _ _ _ _ _ _ Hok) as [_ M _ _ _ _]. rewrite !marked_app in M. fold st in M. destruct M as (M1 & M2 & M3). split.
  - intros [[(q & n & Hq & Hx) Hout]|(q & n & Hq & Hx)]; [|eauto]. exists q, n. split; [|done]. left. split; [done|]. intros Hr.
    apply (block_change s G1 G2 d b1 mid mid b2 Hok eq_refl) in Hq as [[_ ?]|Hq]; [done|]. fold st in Hq. apply (entries_range _ _ _ _ _ _ M2) in Hq. lia.
  - intros (q & n & [[Hq Hout]|Hq] & Hx); [left|right; eauto]. split; [eauto|]. pose proof (outside_run s G1 G2 d b1 mid b2 Hok true q n Hq Hout) as H. fold st in H. lia.
Qed.

(** The blocks of a run, and a busy block that is elsewhere *)
Section Step.
Context (s s' : pmm) (G1 G2 : list area) (d : page_array) (b1 mid mid' b2 : list block).
Let st := arr_pages d + total b1.
Let G := G1 ++ (d, b1 ++ mid ++ b2) :: G2.
Let G' := G1 ++ (d, b1 ++ mid' ++ b2) :: G2.
Context (Hok : pmm_ok s G) (Ht : total mid' = total mid) (Ho : same_outside st (st + total mid) (pages s) (pages s')).

Lemma inside_run f q n : block_at G f q n -> st <= q < st + total mid -> (q, (f, n)) ∈ entries st mid.
Proof. intros Hq Hr. apply (block_change s G1 G2 d b1 mid mid b2 Hok eq_refl) in Hq as [[_ ?]|Hq]; done. Qed.

Lemma busy_stays f q n x : block_at G f q n -> (q, (f, n)) ∉ entries st mid -> pages s !! q = x -> block_at G' f q n /\ pages s' !! q = x.
Proof.
  intros Hq Hn Hx. assert (Hout : ~ st <= q < st + total mid) by (intros Hr; by apply Hn, inside_run). split.
  - apply (block_change s G1 G2 d b1 mid mid' b2 Hok Ht). by left.
  - rewrite Ho; [done|lia].
Qed.
End Step.

(** A run of held pages is a run of blocks of one page. *)
Lemma entries_at h p b1 b2 f n : marked h p (b1 ++ b2) -> (p + total b1, (f, n)) ∈ entries p (b1 ++ b2) -> exists b2', b2 = (f, n) :: b2'.
Proof.
  rewrite marked_app, entries_app, elem_of_app. intros [M1 M2] [Hq|Hq].
  - apply (entries_range _ _ _ _ _ _ M1) in Hq. lia.
  - destruct b2 as [|[g m] b2]; [by apply elem_of_nil in Hq|]. cbn in Hq, M2. apply elem_of_cons in Hq as [[= -> ->]|Hq]; [by exists b2|].
    destruct M2 as [[Hm _] M2]. cbn in Hm. apply (entries_range _ _ _ _ _ _ M2) in Hq. lia.
Qed.

Lemma held_run h p b1 b2 n : marked h p (b1 ++ b2) -> (forall x, p + total b1 <= x < p + total b1 + Z.of_nat n -> (x, (false, 1)) ∈ entries p (b1 ++ b2)) ->
  exists b2', b2 = units n ++ b2'.
Proof.
  revert b1 b2. induction n as [|n IH]; intros b1 b2 M Hx; [by exists b2|].
  destruct (entries_at h p b1 b2 false 1 M) as [b2' ->]; [apply Hx; lia|]. destruct (IH (b1 ++ [(false, 1)]) b2') as [b3 ->].
  - by rewrite <- app_assoc.
  - rewrite total_app. cbn [total]. rewrite <- app_assoc. intros x Hr. apply Hx. lia.
  - by exists b3.
Qed.

Section Books.
Context (s : pmm) (b : books) (G : list area) (Hk : kept s b G).

Lemma addr_of_page a p : a ∈ G -> arr_pages a.1 <= p < arr_end a.1 -> addr_of (phys_memory_regions s) p = (p - arr_pages a.1) * PAGE_SIZE + start_addr a.1.
Proof.
  intros Ha Hp. pose proof (find_array_run s G (k_ok _ _ _ Hk) a p Ha Hp) as Hf. unfold find_array in Hf. rewrite (pbind _ _ _ _ _ (eq_refl : get_arrays s = Some (phys_memory_regions s, s))) in Hf.
  unfold addr_of. unfold from, mbind, P_bind in Hf. destruct (smaller_array p (phys_memory_regions s)) as [e|]; [|done]. unfold assert in Hf.
  destruct ((arr_pages e <=? p) && (p <? arr_end e)); [|done]. cbn in Hf. by injection Hf as ->.
Qed.

Lemma same_area a c x : a ∈ G -> c ∈ G -> within a.1 x -> within c.1 x -> a = c.
Proof.
  intros [i Hi]%list_elem_of_lookup [j Hj]%list_elem_of_lookup Ha Hc. destruct (decide (i = j)) as [->|Hne]; [congruence|]. exfalso.
  pose proof (ok_separate _ _ (k_ok _ _ _ Hk)) as Hs. rewrite (ok_arrays _ _ (k_ok _ _ _ Hk)) in Hs.
  refine (Hs i j a.1 c.1 x _ _ Hne Ha Hc); by rewrite list_lookup_fmap, ?Hi, ?Hj.
Qed.

Lemma held_split p n e : run p n ⊆ bk_held b -> 0 < n -> e ∈ phys_memory_regions s -> arr_pages e <= p -> p + n <= arr_end e ->
  exists G1 b1 b2 G2, G = G1 ++ (e, b1 ++ units (Z.to_nat n) ++ b2) :: G2 /\ p = arr_pages e + total b1.
Proof.
  intros Hsub Hn He Hp1 Hp2. assert (Hb : forall x, p <= x < p + n -> block_at G false x 1) by (intros x Hx; apply (k_held _ _ _ Hk), Hsub; by apply elem_run).
  rewrite (ok_arrays _ _ (k_ok _ _ _ Hk)) in He. apply list_elem_of_fmap in He as ([e' bs] & -> & Ha). cbn in *.
  assert (Hin : forall x, p <= x < p + n -> (x, (false, 1)) ∈ entries (arr_pages e') bs).
  { intros x Hx. destruct (Hb x Hx) as (c & Hc & Hq). destruct (ok_areas _ _ (k_ok _ _ _ Hk) c Hc) as [T M _ _ _ _]. pose proof (entries_range _ _ _ _ _ _ M Hq) as Hr.
    enough (c = (e', bs)) as -> by done. apply (same_area c (e', bs) x Hc Ha); unfold within, arr_end in *; cbn; lia. }
  destruct (ok_areas _ _ (k_ok _ _ _ Hk) _ Ha) as [T M _ _ _ _]. cbn in T, M. destruct (entries_split _ _ _ _ _ (Hin p ltac:(lia))) as (b1 & b2 & -> & Ep).
  destruct (held_run _ _ b1 ((false, 1) :: b2) (Z.to_nat n) M) as [b2' E2].
  { intros x Hx. apply Hin. lia. }
  apply list_elem_of_split in Ha as (G1 & G2 & ->). exists G1, b1, b2', G2. by rewrite E2.
Qed.

(** Blocks that start at one page are one, and pages of different types are different. *)
Lemma waiting_not_held p n : (p, n) ∈ bk_waiting b -> p ∉ bk_held b.
Proof. intros Hw Hh. apply (k_waiting _ _ _ Hk) in Hw as (_ & f & Hw). apply (k_held _ _ _ Hk) in Hh as [_ Hh]. rewrite Hw in Hh. discriminate. Qed.

Lemma mark_pending p n x : pages s !! p = Some x ->
  (_ ← set_type p PendingFree; _ ← set_data p (RCUState n); rcu_push_page p) s
  = Some (tt, Pmm (<[p := Page PendingFree (pg_flags x) (RCUState n)]> (pages s)) (phys_memory_regions s) (free_pages_list s) (p :: rcu_pending s)).
Proof.
  intros Hx. rewrite (pbind _ _ _ _ _ (set_type_run p x PendingFree s Hx)), (pbind _ _ _ _ _ (set_data_run p _ _ _ (lookup_insert_eq _ _ _))). cbn. by rewrite insert_insert_eq.
Qed.

Lemma units_entries st n q f m : (q, (f, m)) ∈ entries st (units n) <-> f = false /\ m = 1 /\ st <= q < st + Z.of_nat n.
Proof.
  revert st. induction n as [|n IH]; intros st; cbn; [rewrite elem_of_nil; lia|]. rewrite elem_of_cons, IH. split; [intros [[= -> -> ->]|?]; lia || naive_solver lia|].
  intros (-> & -> & Hq). destruct (decide (q = st)) as [->|]; [by left|right]. lia.
Qed.

Lemma put_ok p n e : 0 < n -> run p n ⊆ bk_held b -> e ∈ phys_memory_regions s -> arr_pages e <= p -> p + n <= arr_end e ->
  exists s', exec (Put p n) s = Some (0, s') /\ phys_memory_regions s' = phys_memory_regions s
    /\ keeps_books s' (Books (bk_free b) (bk_held b ∖ run p n) ((p, n) :: bk_waiting b)).
Proof.
  intros Hn Hsub He Hp1 Hp2. destruct (held_split p n e Hsub Hn He Hp1 Hp2) as (G1 & b1 & b2 & G2 & EG & Ep). pose proof Hk as [Hok Hso Hf Hh Hw Hpd Hnd]. rewrite EG in Hok.
  set (a := (e, b1 ++ units (Z.to_nat n) ++ b2)) in *. assert (Ha : a ∈ G) by (rewrite EG; clear; set_solver).
  assert (Hpg : pages s !! p = Some owned) by (apply Hh, Hsub; apply elem_run; lia). pose proof (area_null _ _ _ (run_area _ _ _ _ _ _ _ Hok)) as Hnull.
  cbn [exec]. rewrite (pbind _ _ _ _ _ (eq_refl : get_arrays s = Some (phys_memory_regions s, s))), (addr_of_page a p Ha) by (cbn; lia).
  unfold free_memory_for_kernel. rewrite (pbind _ _ _ (tt) (Pmm (<[p := Page PendingFree 0 (RCUState n)]> (pages s)) (phys_memory_regions s) (free_pages_list s) (p :: rcu_pending s))); cycle 1.
  { rewrite (pbind _ _ _ _ _ (find_page_phys s G (k_ok _ _ _ Hk) Hso a p Ha ltac:(cbn; lia))), (proj2 (Z.eqb_neq p 0)) by lia. cbn [negb].
    rewrite (pbind _ _ _ _ _ (assert_run true s eq_refl)). apply (mark_pending p n owned Hpg). }
  set (s' := Pmm _ _ _ _). exists s'. split_and!; try done. exists (G1 ++ (e, b1 ++ [(false, n)] ++ b2) :: G2).
  assert (Ht : total [(false, n)] = total (units (Z.to_nat n))) by (rewrite units_total; cbn; lia).
  assert (Hso' : same_outside (arr_pages e + total b1) (arr_pages e + total b1 + total (units (Z.to_nat n))) (pages s) (pages s')).
  { intros x Hx. cbn. rewrite lookup_insert_ne; [done|]. rewrite units_total in Hx. lia. }
  rewrite EG in Hf, Hh, Hw. split; cbn [bk_free bk_held bk_waiting]; try done.
  - apply (resegment s s' G1 G2 e b1 _ _ b2 Hok); try done.
    + apply units_busy.
    + by repeat constructor.
    + destruct (Z.to_nat n) eqn:En; [lia|done].
    + cbn. split; [|done]. split; [done|]. rewrite <- Ep. cbn. split; [eexists; split; [apply lookup_insert_eq|done]|].
      destruct (decide (p + n - 1 = p)) as [E1|E1]; [rewrite E1; eexists; split; [apply lookup_insert_eq|done]|]. exists owned. rewrite lookup_insert_ne by done.
      split; [|done]. apply Hh, Hsub, elem_run. lia.
    + intros x Hx. cbn. rewrite lookup_insert_is_Some'. auto.
  - apply (free_change s G1 G2 e b1 (units (Z.to_nat n)) [(false, n)] b2 (bk_free b) (bk_free b) Hok Ht Hf). intros x. rewrite units_total. split.
    + intros Hx. left. split; [done|]. intros Hr. apply Hf in Hx as (q & m & Hq & Hx). destruct (decide (arr_pages e + total b1 <= q < arr_pages e + total b1 + total (units (Z.to_nat n)))) as [Hin|Hout].
      * apply (inside_run s G1 G2 e b1 _ b2 Hok) in Hq; [|done]. by apply units_entries in Hq as [? _].
      * pose proof (outside_run s G1 G2 e b1 _ b2 Hok true q m Hq Hout) as H. rewrite units_total in H. lia.
    + intros [[Hx _]|(q & m & Hq & _)]; [done|]. cbn in Hq. apply list_elem_of_singleton in Hq. discriminate.
  - intros x [Hx Hr]%elem_of_difference. rewrite elem_run in Hr. destruct (Hh x Hx) as [Hb Hx']. apply (busy_stays s s' G1 G2 e b1 (units (Z.to_nat n))); try done.
    rewrite units_entries. lia.
  - intros q m [[= -> ->]|Hq]%elem_of_cons.
    + split; [apply (block_change s G1 G2 e b1 _ [(false, n)] b2 Hok Ht); right; rewrite Ep; by left|]. exists 0. apply lookup_insert_eq.
    + pose proof (waiting_not_held q m Hq) as Hnh. destruct (Hw q m Hq) as [Hb [f Hx]].
      destruct (busy_stays s s' G1 G2 e b1 (units (Z.to_nat n)) [(false, n)] b2 Hok Ht Hso' false q m (pages s !! q) Hb) as [H1 H2]; [|done|].
      * intros (_ & -> & Hr)%units_entries. apply Hnh, Hsub, elem_run. lia.
      * split; [done|]. exists f. by rewrite H2.
  - unfold s'. cbn [rcu_pending]. by rewrite Hpd.
  - apply NoDup_cons. split; [|done]. intros ([q m] & Eq & Hq)%list_elem_of_fmap. cbn in Eq. subst q. apply (waiting_not_held p m Hq), Hsub, elem_run. lia.
Qed.

Lemma pmm_ok_rcu w : pmm_ok s G -> pmm_ok (Pmm (pages s) (phys_memory_regions s) (free_pages_list s) w) G.
Proof. by intros [H1 H2 H3 H4 H5]. Qed.

Lemma waiting_split p : p ∈ (bk_waiting b).*1 -> exists w1 n w2, bk_waiting b = w1 ++ (p, n) :: w2 /\ filter (fun q => q <> p) (rcu_pending s) = (w1 ++ w2).*1
  /\ p ∉ (w1 ++ w2).*1 /\ NoDup (w1 ++ w2).*1.
Proof.
  intros ([q n] & -> & Hq)%list_elem_of_fmap. apply list_elem_of_split in Hq as (w1 & w2 & Ew). exists w1, n, w2. split; [done|]. cbn. pose proof (k_nodup _ _ _ Hk) as Hnd.
  rewrite (k_pending _ _ _ Hk). rewrite Ew, fmap_app, fmap_cons in *. cbn in *. split; [rewrite filter_middle by done; by rewrite fmap_app|].
  rewrite <- Permutation_middle in Hnd. rewrite fmap_app. by apply NoDup_cons in Hnd.
Qed.

(** The pages of a merged block are those of the block and the free pages of its neighbours. *)
Lemma merged_pages G1 G2 d b1 l n r b2 x : let mid := l ++ (false, n) :: r in let st := arr_pages d + total b1 in
  pmm_ok s (G1 ++ (d, b1 ++ mid ++ b2) :: G2) -> (l = [] \/ exists m, l = [(true, m)]) -> (r = [] \/ exists k, r = [(true, k)]) ->
  (forall y, y ∈ bk_free b <-> exists q m, block_at (G1 ++ (d, b1 ++ mid ++ b2) :: G2) true q m /\ q <= y < q + m) ->
  (st + total l <= x < st + total l + n -> st <= x < st + total mid)
  /\ (st <= x < st + total mid -> x ∈ bk_free b \/ st + total l <= x < st + total l + n).
Proof.
  intros mid st Hok Hl Hr Hf. pose proof (run_area _ _ _ _ _ _ _ Hok) as [_ M _ _ _ _]. rewrite !marked_app in M. fold st in M. destruct M as (_ & M & _). unfold mid in M.
  rewrite marked_app in M. destruct M as (M1 & M2 & M3). cbn [snd] in M3. pose proof (marked_total _ _ _ M1). pose proof (marked_total _ _ _ M3). destruct M2 as [Hn _]. cbn in Hn.
  assert (Etm : total mid = total l + (n + total r)) by (unfold mid; by rewrite total_app). rewrite Etm. split; [lia|].
  assert (Hfree : forall q m, (q, (true, m)) ∈ entries st mid -> q <= x < q + m -> x ∈ bk_free b).
  { intros q m Hq Hx. apply Hf. exists q, m. split; [|done]. apply (block_change s G1 G2 d b1 mid mid b2 Hok eq_refl). by right. }
  intros Hx. destruct (Z.lt_ge_cases x (st + total l)) as [H1|H1]; [|destruct (Z.lt_ge_cases x (st + total l + n)) as [H2|H2]; [by right|]]; left.
  - destruct Hl as [->|[m ->]]; cbn in *; [lia|]. apply (Hfree st m); [by left|lia].
  - destruct Hr as [->|[k ->]]; cbn in *; [lia|]. apply (Hfree (st + total l + n) k); [|lia]. unfold mid. rewrite entries_app. cbn. clear. set_solver.
Qed.

(** A free neighbour of the block is not held and does not wait. *)
Lemma elapsed_ok p : p ∈ (bk_waiting b).*1 ->
  exists s' n w1 w2, exec (Elapsed p) s = Some (0, s') /\ phys_memory_regions s' = phys_memory_regions s /\ bk_waiting b = w1 ++ (p, n) :: w2
    /\ keeps_books s' (Books (bk_free b ∪ run p n) (bk_held b) (w1 ++ w2)).
Proof.
  intros Hp. destruct (waiting_split p Hp) as (w1 & n & w2 & Ew & Ef & Hpn & Hnd'). pose proof Hk as [Hok Hso Hf Hh Hw Hpd Hnd].
  assert (Hin : (p, n) ∈ bk_waiting b) by (rewrite Ew; clear; set_solver). destruct (Hw p n Hin) as [Hb [fl Hpg]].
  destruct (block_split _ _ _ _ Hb) as (G1 & d & B1 & B2 & G2 & EG & Ep).
  set (s0 := Pmm (pages s) (phys_memory_regions s) (free_pages_list s) (w1 ++ w2).*1). assert (Hok0 : pmm_ok s0 G) by (by apply pmm_ok_rcu). rewrite EG in Hok0.
  destruct (free_page_ok s0 G1 d B1 n B2 G2 Hok0) as (s' & b1 & l & r & b2 & -> & -> & Hl & Hr & E' & R' & Hok' & O'); [exists fl; left; by rewrite <- Ep|].
  set (mid := l ++ (false, n) :: r). set (N := total l + (n + total r)) in *. assert (HN : total [(true, N)] = total mid) by (unfold mid, N; rewrite total_app; cbn; lia).
  assert (EG' : G = G1 ++ (d, b1 ++ mid ++ b2) :: G2) by (rewrite EG; unfold mid; by rewrite <- !app_assoc). pose proof (k_ok _ _ _ Hk) as Hok1. rewrite EG' in Hok1, Hf, Hh, Hw.
  assert (Etm : total mid = N) by (rewrite <- HN; cbn; lia). rewrite total_app in Ep. set (st := arr_pages d + total b1) in *. assert (Ep' : p = st + total l) by (unfold st; lia).
  assert (Hmid : forall q f m, (q, (f, m)) ∈ entries st mid -> f = false -> q = p /\ m = n).
  { intros q f m. unfold mid. rewrite entries_app. cbn. rewrite <- Ep', elem_of_app, elem_of_cons. intros [H|[H|H]] ->; [|by inversion H|].
    - destruct Hl as [->|[k ->]]; cbn in H; [by apply elem_of_nil in H|]. by apply list_elem_of_singleton in H.
    - destruct Hr as [->|[k ->]]; cbn in H; [by apply elem_of_nil in H|]. by apply list_elem_of_singleton in H. }
  exists s', n, w1, w2. split_and!; try done.
  - cbn [exec]. assert (Ec : rcu_callback_page p s = Some (tt, s')).
    { unfold rcu_callback_page. rewrite decide_True by (by rewrite Hpd). rewrite Ef, Ep. unfold st in E'. rewrite total_app in E'. exact E'. }
    by rewrite (pbind _ _ _ _ _ Ec).
  - rewrite (ok_arrays _ _ Hok'), (ok_arrays _ _ Hok), EG. by rewrite !fmap_app.
  - exists (G1 ++ (d, b1 ++ [(true, N)] ++ b2) :: G2). split; cbn [bk_free bk_held bk_waiting]; try done.
    + rewrite (ok_arrays _ _ Hok'). rewrite (ok_arrays _ _ Hok), EG, !fmap_app in Hso. by rewrite !fmap_app.
    + apply (free_change s G1 G2 d b1 mid [(true, N)] b2 (bk_free b) _ Hok1 HN Hf). fold st. rewrite Etm. intros x. rewrite elem_of_union, elem_run. cbn. setoid_rewrite list_elem_of_singleton.
      pose proof (merged_pages G1 G2 d b1 l n r b2 x Hok1 Hl Hr Hf) as Hmp. cbv zeta in Hmp. fold mid st in Hmp. split.
      * intros Hx. destruct (decide (st <= x < st + N)) as [Hin'|Hout]; [right; by exists st, N|left]. split; [|done]. destruct Hx as [Hx|Hx]; [done|]. destruct Hout. rewrite <- Etm. apply Hmp. by rewrite <- Ep'.
      * intros [[Hx _]|(q & m & [= -> ->] & Hx)]; [by left|]. rewrite Ep'. apply Hmp. by rewrite Etm.
    + intros x Hx. destruct (Hh x Hx) as [Hbx Hxp]. apply (busy_stays s s' G1 G2 d b1 mid); try done; [by fold st; rewrite Etm|].
      intros H. destruct (Hmid _ _ _ H eq_refl) as [-> _]. by apply (waiting_not_held p n).
    + intros q m Hq. assert (Hqw : (q, m) ∈ bk_waiting b) by (rewrite Ew; clear -Hq; set_solver). destruct (Hw q m Hqw) as [Hbq [f Hx]].
      destruct (busy_stays s s' G1 G2 d b1 mid [(true, N)] b2 Hok1 HN ltac:(by fold st; rewrite Etm) false q m (pages s !! q) Hbq) as [H1 H2]; [|done|].
      * intros H. destruct (Hmid _ _ _ H eq_refl) as [-> _]. apply Hpn. apply list_elem_of_fmap. by exists (p, m).
      * split; [done|]. exists f. by rewrite H2.
Qed.
End Books.

Lemma alloc_pages_ok s G count policy : pmm_ok s G -> 0 < count ->
  (exists s' G1 d b1 m b2 G2, G = G1 ++ (d, b1 ++ (true, m) :: b2) :: G2 /\ parent_region d ∈ zones policy /\ count <= m
     /\ alloc_pages count policy s = Some (arr_pages d + total b1 + (m - count), s')
     /\ pmm_ok s' (G1 ++ (d, b1 ++ (left_over m count ++ [(false, count)]) ++ b2) :: G2) /\ rcu_pending s' = rcu_pending s
     /\ same_outside (arr_pages d + total b1) (arr_pages d + total b1 + m) (pages s) (pages s'))
  \/ (alloc_pages count policy s = Some (0, s)
      /\ (2 ^ 17 < count \/ forall z p n, z ∈ zones policy -> free_at G z p n -> n < 2 ^ Z.of_nat (request_order count))).
Proof.
  intros Hok Hc. assert (Hz : forall z, alloc_pages_from z count s = Some (0, s) -> z ∈ zones policy -> True) by done.
  destruct policy; cbn [alloc_pages zones].
  - destruct (alloc_from_ok s G region_above_4gb count Hok Hc) as [(s' & G1 & d & b1 & m & b2 & G2 & EG & Hp & Hm & E & Hok' & R & _ & O)|[E1 F1]].
    + left. exists s', G1, d, b1, m, b2, G2. split_and!; try done; [rewrite Hp; by left|]. rewrite (pbind _ _ _ _ _ E). rewrite (proj2 (Z.eqb_neq _ 0)); [done|].
      rewrite EG in Hok. pose proof (run_area s G1 G2 d b1 [(true, m)] b2 Hok) as Ha. pose proof (area_null _ _ _ Ha). pose proof (run_bounds _ _ _ _ _ Ha). lia.
    + rewrite (pbind _ _ _ _ _ E1). cbn [Z.eqb]. destruct (alloc_from_ok s G region_below_4gb count Hok Hc) as [(s' & G1 & d & b1 & m & b2 & G2 & EG & Hp & Hm & E & Hok' & R & _ & O)|[E2 F2]].
      * left. exists s', G1, d, b1, m, b2, G2. split_and!; try done. rewrite Hp. right. by left.
      * right. split; [done|]. destruct F1 as [F1|F1]; [by left|]. destruct F2 as [F2|F2]; [by left|]. right. intros z p n [->|[->|Hz']%elem_of_cons]%elem_of_cons; [apply F1|apply F2|by apply elem_of_nil in Hz'].
  - destruct (alloc_from_ok s G region_below_4gb count Hok Hc) as [(s' & G1 & d & b1 & m & b2 & G2 & EG & Hp & Hm & E & Hok' & R & _ & O)|[E1 F1]].
    + left. exists s', G1, d, b1, m, b2, G2. split_and!; try done. rewrite Hp. by left.
    + right. split; [done|]. destruct F1 as [F1|F1]; [by left|right]. intros z p n ->%list_elem_of_singleton. apply F1.
  - destruct (alloc_from_ok s G region_isa count Hok Hc) as [(s' & G1 & d & b1 & m & b2 & G2 & EG & Hp & Hm & E & Hok' & R & _ & O)|[E1 F1]].
    + left. exists s', G1, d, b1, m, b2, G2. split_and!; try done. rewrite Hp. by left.
    + right. split; [done|]. destruct F1 as [F1|F1]; [by left|right]. intros z p n ->%list_elem_of_singleton. apply F1.
Qed.

Lemma left_total m count : 0 < count <= m -> total (left_over m count) = m - count.
Proof. intros H. unfold left_over. destruct (Z.ltb_spec count m); cbn; lia. Qed.

Section Grant.
Context (s : pmm) (b : books) (G1 G2 : list area) (d : page_array) (b1 b2 : list block) (m count : Z).
Let G := G1 ++ (d, b1 ++ [(true, m)] ++ b2) :: G2.
Let st := arr_pages d + total b1.
Let q := st + (m - count).
Let mid' := left_over m count ++ units (Z.to_nat count).
Context (Hk : kept s b G) (Hc : 0 < count <= m).

Lemma mid'_total : total mid' = total [(true, m)].
Proof. unfold mid'. rewrite total_app, left_total, units_total by done. cbn. lia. Qed.

Lemma mid'_entries x f n : (x, (f, n)) ∈ entries st mid' <-> (f = true /\ x = st /\ n = m - count /\ count < m) \/ (f = false /\ n = 1 /\ q <= x < q + count).
Proof.
  unfold mid'. rewrite entries_app, elem_of_app, left_total, units_entries by done. fold q. rewrite Z2Nat.id by lia. unfold left_over. destruct (Z.ltb_spec count m); cbn.
  - rewrite list_elem_of_singleton. naive_solver.
  - rewrite elem_of_nil. naive_solver lia.
Qed.

(** The pages of the grant are the kernel's. *)
Lemma grant_kept s' : pmm_ok s' (G1 ++ (d, b1 ++ mid' ++ b2) :: G2) -> phys_memory_regions s' = phys_memory_regions s -> rcu_pending s' = rcu_pending s ->
  (forall x, q <= x < q + count -> pages s' !! x = Some owned) -> same_outside st (st + m) (pages s) (pages s') ->
  run q count ⊆ bk_free b /\ kept s' (Books (bk_free b ∖ run q count) (bk_held b ∪ run q count) (bk_waiting b)) (G1 ++ (d, b1 ++ mid' ++ b2) :: G2).
Proof.
  intros Hok' Harr Hrcu Hown Ho. destruct Hk as [Hok Hso Hf Hh Hw Hpd Hnd]. pose proof mid'_total as Ht. assert (Etm : total [(true, m)] = m) by (cbn; lia).
  assert (Hst : block_at G true st m) by (apply (block_change s G1 G2 d b1 [(true, m)] [(true, m)] b2 Hok eq_refl); right; by left).
  assert (Hb : forall f x n, block_at G f x n -> f = false -> (x, (f, n)) ∉ entries st [(true, m)]) by (intros f x n _ -> [= ]%list_elem_of_singleton).
  assert (Ho' : same_outside st (st + total [(true, m)]) (pages s) (pages s')) by (by rewrite Etm).
  split; [intros x Hx%elem_run; apply Hf; exists st, m; split; [done|]; unfold q in Hx; lia|]. split; cbn [bk_free bk_held bk_waiting]; try done; try congruence.
  - by rewrite Harr.
  - apply (free_change s G1 G2 d b1 [(true, m)] mid' b2 (bk_free b) _ Hok Ht Hf). fold st. rewrite Etm. intros x. rewrite elem_of_difference, elem_run. setoid_rewrite mid'_entries. split.
    + intros [Hx Hn]. destruct (decide (st <= x < st + m)) as [Hin|Hout]; [right|by left]. exists st, (m - count). unfold q in Hn. split; [left; lia|lia].
    + intros [[Hx Hn]|(x' & n & [(_ & -> & -> & Hlt)|(? & _)] & Hx)]; [|split; [|unfold q; lia]|done].
      * split; [done|]. unfold q. lia.
      * apply Hf. exists st, m. split; [done|lia].
  - intros x [Hx|Hx%elem_run]%elem_of_union.
    + destruct (Hh x Hx) as [Hbx Hpx]. apply (busy_stays s s' G1 G2 d b1 [(true, m)] mid' b2 Hok Ht Ho' false x 1 _ Hbx); [by apply (Hb false)|done].
    + split; [|by apply Hown]. apply (block_change s G1 G2 d b1 [(true, m)] mid' b2 Hok Ht). right. apply mid'_entries. by right.
  - intros p n Hp. destruct (Hw p n Hp) as [Hbp [f Hx]].
    destruct (busy_stays s s' G1 G2 d b1 [(true, m)] mid' b2 Hok Ht Ho' false p n (pages s !! p) Hbp) as [H1 H2]; [by apply (Hb false)|done|]. split; [done|]. exists f. by rewrite H2.
Qed.
End Grant.

Lemma get_ok s b G count policy : kept s b G -> 0 < count ->
  exists v s' b', exec (Get count policy) s = Some (v, s') /\ booked (phys_memory_regions s) b (Get count policy) v b' /\ keeps_books s' b' /\ phys_memory_regions s' = phys_memory_regions s
    /\ (b' = b -> 2 ^ 17 < count \/ forall z p n, z ∈ zones policy -> free_at G z p n -> n < 2 ^ Z.of_nat (request_order count)).
Proof.
  intros Hk Hc. pose proof (k_ok _ _ _ Hk) as Hok. cbn [exec]. unfold get_memory_for_kernel. rewrite (pbind _ _ _ _ _ (assert_run _ s (proj2 (Z.ltb_lt 0 count) Hc))).
  destruct (alloc_pages_ok s G count policy Hok Hc) as [(s1 & G1 & d & b1 & m & b2 & G2 & -> & Hz & Hm & E & Hok1 & R1 & O1)|[E F]].
  - rewrite (pbind _ _ _ _ _ E). set (q := arr_pages d + total b1 + (m - count)) in *.
    pose proof (run_area s G1 G2 d b1 [(true, m)] b2 Hok) as Ha. pose proof (area_null _ _ _ Ha) as Hnull. pose proof (run_bounds _ _ _ _ _ Ha) as (B1 & B2 & B3 & B4). cbn [total] in B2, B4.
    rewrite (proj2 (Z.eqb_neq q 0)) by lia. assert (Hok2 := Hok1). rewrite <- app_assoc, app_assoc in Hok2.
    destruct (own_block_ok s1 G1 G2 d _ count b2 Hok2) as (s2 & E2 & Hok3 & R2 & Hown & O2). assert (Eq : arr_pages d + total (b1 ++ left_over m count) = q) by (rewrite total_app, left_total by lia; unfold q; lia).
    rewrite Eq in *. rewrite (pbind _ _ _ _ _ E2). assert (Hok4 := Hok3). rewrite <- app_assoc, app_assoc, <- app_assoc in Hok4.
    assert (Harr : phys_memory_regions s2 = phys_memory_regions s) by (rewrite (ok_arrays _ _ Hok4), (ok_arrays _ _ Hok); by rewrite !fmap_app).
    assert (Hd : d ∈ phys_memory_regions s) by (rewrite (ok_arrays _ _ Hok), fmap_app; cbn; clear; set_solver).
    rewrite (app_assoc (left_over m count)) in Hok4. destruct (grant_kept s b G1 G2 d b1 b2 m count Hk ltac:(lia) s2 Hok4 Harr) as [Hsub Hk']; [congruence|done| |].
    { intros x Hx. rewrite O2, O1; [done|lia|]. unfold q. lia. }
    exists (addr_of (phys_memory_regions s) q), s2, (Books (bk_free b ∖ run q count) (bk_held b ∪ run q count) (bk_waiting b)).
    assert (Hin : forall bs, (d, bs) ∈ G1 ++ (d, bs) :: G2) by (intros bs; clear; set_solver).
    assert (Eaddr : addr_of (phys_memory_regions s) q = (q - arr_pages d) * PAGE_SIZE + start_addr d) by (apply (addr_of_page s b _ Hk _ q (Hin _)); unfold arr_end, q; cbn; lia).
    split_and!; try done.
    + rewrite (get_phys_addr_run s2 _ Hok3 _ q owned (Hin _)); [by rewrite Eaddr|unfold arr_end, q; cbn; lia|apply Hown; lia|done].
    + apply (booked_get _ _ count policy q d); try done; unfold arr_end, q; lia.
    + by eexists.
    + intros Heq. exfalso. apply (f_equal bk_free) in Heq. cbn in Heq. assert (Hq : q ∈ run q count) by (apply elem_run; lia). pose proof (Hsub q Hq) as Hq'. rewrite <- Heq in Hq'.
      by apply elem_of_difference in Hq' as [_ ?].
  - rewrite (pbind _ _ _ _ _ E). exists (-1), s, b. split_and!; try done; [constructor|by eexists].
Qed.

(** ** What the books say *)

Lemma block_unique s G f q n f' q' n' x : pmm_ok s G -> block_at G f q n -> block_at G f' q' n' -> q <= x < q + n -> q' <= x < q' + n' -> f = f' /\ q = q' /\ n = n'.
Proof.
  intros Hok Hb Hb' Hx Hx'. destruct (block_split _ _ _ _ Hb) as (G1 & d & b1 & b2 & G2 & -> & ->). set (st := arr_pages d + total b1) in *.
  assert (Ht : total [(f, n)] = n) by (cbn; lia). destruct (decide (st <= q' < st + n)) as [Hin|Hout].
  - apply (inside_run s G1 G2 d b1 [(f, n)] b2 Hok) in Hb'; [|by rewrite Ht]. cbn in Hb'. apply list_elem_of_singleton in Hb'. by injection Hb' as -> -> ->.
  - pose proof (outside_run s G1 G2 d b1 [(f, n)] b2 Hok f' q' n' Hb') as H. rewrite Ht in H. specialize (H Hout). fold st in H. lia.
Qed.

(** Free neighbours are one block, so that a run of free pages is part of one block. *)
Lemma free_run_block s b G d p n : kept s b G -> d ∈ phys_memory_regions s -> arr_pages d <= p -> p + n <= arr_end d -> 0 < n -> run p n ⊆ bk_free b ->
  exists q k, free_at G (parent_region d) q k /\ n <= k.
Proof.
  intros Hk Hd H1 H2 Hn Hsub. pose proof (k_ok _ _ _ Hk) as Hok.
  assert (Hfree : forall x, p <= x < p + n -> exists q k, block_at G true q k /\ q <= x < q + k) by (intros x Hx; apply (k_free _ _ _ Hk), Hsub; by apply elem_run).
  destruct (Hfree p ltac:(lia)) as (q & k & Hb & Hq). destruct Hb as ([e bs] & Ha & He). cbn in He.
  rewrite (ok_arrays _ _ Hok) in Hd. apply list_elem_of_fmap in Hd as ([d' bs'] & -> & Ha'). cbn in *. destruct (ok_areas _ _ Hok _ Ha) as [T M A _ _ _]. cbn in T, M, A.
  pose proof (entries_range _ _ _ _ _ _ M He) as Hr. assert (Hsame : (e, bs) = (d', bs')) by (apply (same_area s b G Hk _ _ p Ha Ha'); unfold within, arr_end in *; cbn; lia).
  injection Hsame as -> ->. exists q, k. split; [exists (d', bs'); split_and!; try done; by apply entries_frees|].
  destruct (Z.le_gt_cases (p + n) (q + k)) as [|Hlt]; [lia|]. exfalso. apply entries_split in He as (b1 & b2 & -> & ->). set (q := arr_pages d' + total b1) in *.
  destruct (Hfree (q + k) ltac:(lia)) as (q' & k' & Hb' & Hq'). rewrite total_app in T. cbn in T. destruct b2 as [|[f j] b2]; [cbn in T; unfold arr_end, q in *; lia|].
  assert (f = false) as -> by (apply apart_app in A as [_ [_ [A _]]]; by destruct f).
  assert (Hbf : block_at G false (q + k) j) by (exists (d', b1 ++ (true, k) :: (false, j) :: b2); split; [done|]; cbn; rewrite entries_app; cbn; fold q; clear; set_solver).
  rewrite marked_app in M. destruct M as [_ [_ [[Hj _] _]]]. cbn in Hj. destruct (block_unique s G _ _ _ _ _ _ (q + k) Hok Hbf Hb') as [? _]; [lia|done|done].
Qed.

(** C4. The physical memory allocator keeps its books.  Whatever the kernel asks for, within the
    rule that it puts back only pages that it holds, in runs of one array: a request for memory,
    the return of a run of pages and the end of a grace period always return; a request that is
    granted gets a run of free pages of a zone of the policy and its address, one that is not
    changes nothing; the pages of a run become free at the end of its grace period and no
    earlier; and the page structures, the boundary tags and the free lists agree with the books
    again, with every two adjacent free blocks merged. *)
Theorem allocator_keeps_books (s : pmm) (b : books) (r : request) : keeps_books s b -> allowed (phys_memory_regions s) b r ->
  exists v s' b', exec r s = Some (v, s') /\ booked (phys_memory_regions s) b r v b' /\ keeps_books s' b' /\ phys_memory_regions s' = phys_memory_regions s.
Proof.
  intros [G Hk] Hr. destruct r as [count policy|p n|p]; cbn [allowed] in Hr.
  - destruct (get_ok s b G count policy Hk Hr) as (v & s' & b' & H1 & H2 & H3 & H4 & _). eauto 8.
  - destruct Hr as (Hn & Hsub & d & Hd & H1 & H2). destruct (put_ok s b G Hk p n d Hn Hsub Hd H1 H2) as (s' & E & Ha & Hb). exists 0, s', (Books (bk_free b) (bk_held b ∖ run p n) ((p, n) :: bk_waiting b)).
    split_and!; try done. constructor.
  - destruct (elapsed_ok s b G Hk p Hr) as (s' & n & w1 & w2 & E & Ha & Hw & Hb). exists 0, s', (Books (bk_free b ∪ run p n) (bk_held b) (w1 ++ w2)). split_and!; try done. by constructor.
Qed.


(** C31. Memory that is there is found: if a zone of the policy has a run of free pages as long as
    the request rounded up to a power of two, and the request is at most 2^17 pages, the request
    is granted. *)
Theorem get_succeeds (s : pmm) (b : books) (count : Z) (policy : AllocPolicy) (d : page_array) (p : Z) : keeps_books s b -> 0 < count <= 2 ^ 17 ->
  d ∈ phys_memory_regions s -> parent_region d ∈ zones policy -> arr_pages d <= p -> p + 2 ^ Z.of_nat (request_order count) <= arr_end d ->
  run p (2 ^ Z.of_nat (request_order count)) ⊆ bk_free b ->
  exists q s', exec (Get count policy) s = Some (addr_of (phys_memory_regions s) q, s') /\ run q count ⊆ bk_free b
    /\ keeps_books s' (Books (bk_free b ∖ run q count) (bk_held b ∪ run q count) (bk_waiting b)).
Proof.
  intros [G Hk] Hc Hd Hz H1 H2 Hsub. destruct (get_ok s b G count policy Hk ltac:(lia)) as (v & s' & b' & E & Hb & Hk' & _ & Hfail).
  assert (Hpow : 0 < 2 ^ Z.of_nat (request_order count)) by (apply Z.pow_pos_nonneg; lia).
  destruct (free_run_block s b G d p _ Hk Hd H1 H2 Hpow Hsub) as (q & k & Hf & Hle). inversion Hb; subst.
  - exfalso. destruct (Hfail eq_refl) as [|H]; [lia|]. specialize (H _ _ _ Hz Hf). lia.
  - eauto.
Qed.

(** The address of a page leads back to its structure: [find_page] of what [get_phys_addr]
    gives for a page of an array is that page, and finding it changes nothing. *)
Theorem address_roundtrip (s : pmm) (b : books) (d : page_array) (p : Z) (x : page) : keeps_books s b -> d ∈ phys_memory_regions s -> arr_pages d <= p < arr_end d ->
  pages s !! p = Some x -> has_physical_page x = true ->
  exists addr, get_phys_addr p s = Some (addr, s) /\ start_addr d <= addr < end_phys d /\ find_page addr s = Some (p, s).
Proof.
  intros [G Hk] Hd Hp Hx Hf. pose proof (k_ok _ _ _ Hk) as Hok. rewrite (ok_arrays _ _ Hok) in Hd. apply list_elem_of_fmap in Hd as (a & -> & Ha).
  exists ((p - arr_pages a.1) * PAGE_SIZE + start_addr a.1). split_and!.
  - by apply (get_phys_addr_run s G Hok a p x).
  - unfold PAGE_SIZE. lia.
  - unfold end_phys, arr_end, PAGE_SIZE in *. lia.
  - by apply (find_page_phys s G Hok (k_sorted _ _ _ Hk)).
Qed.

(** ** Instances *)

(** Eight free pages above 4 GB *)
Definition eight : page_array := PageArray 4294967296 8 region_above_4gb 11.
Definition border : page := Page Reserved 0 (Mem_Object_LL_Head 0 0).
Definition eight_pages : gmap Z page :=
  list_to_map ([(10, border); (19, border); (11, Page Free 0 (FreeRegionHead 8)); (18, Page Free 0 (FreeRegionHead 8))] ++ ((fun x => (x, owned)) <$> [12; 13; 14; 15; 16; 17])).
Definition eight_free : pmm := Pmm eight_pages [eight] (fun z o => if decide (z = region_above_4gb /\ o = 3%nat) then [11] else []) [].
Definition eight_books : books := Books (run 11 8) ∅ [].

Lemma eight_kept : keeps_books eight_free eight_books.
Proof.
  exists [(eight, [(true, 8)])]. assert (Hb : forall f q n, block_at [(eight, [(true, 8)])] f q n <-> f = true /\ q = 11 /\ n = 8).
  { intros f q n. unfold block_at. setoid_rewrite list_elem_of_singleton. split; [intros (a & -> & [= -> -> ->]%list_elem_of_singleton); done|]. intros (-> & -> & ->).
    exists (eight, [(true, 8)]). split; [done|by left]. }
  split; try done.
  - split; try done.
    + intros a ->%list_elem_of_singleton. cbn. split; try done.
      * cbn. split; [|done]. split; [done|]. split; by exists 0.
      * split; by exists border.
      * intros x Hx. unfold within, arr_end in Hx. cbn in Hx. assert (H : x ∈ seqZ 10 10) by (apply elem_of_seqZ; lia). clear Hx. revert x H. apply Forall_forall.
        repeat (apply Forall_cons; split; [eexists; reflexivity|]). by apply Forall_nil.
    + intros i j c e x Hi Hj Hne. cbn in Hi, Hj. destruct i as [|i], j as [|j]; try done.
    + intros z o. cbn. case_decide; [apply NoDup_singleton|apply NoDup_nil_2].
    + intros z o q. cbn. unfold free_at. setoid_rewrite list_elem_of_singleton. split.
      * case_decide as H; [|by intros ?%elem_of_nil]. destruct H as [-> ->]. intros ->%list_elem_of_singleton. exists 8. split; [|done]. exists (eight, [(true, 8)]). split_and!; try done. by left.
      * intros (n & (a & -> & <- & [= -> ->]%list_elem_of_singleton) & [= <-]). rewrite decide_True by done. by left.
  - intros i j d e Hi Hj Hlt. destruct i as [|i], j as [|j]; try done; lia.
  - intros x. cbn. rewrite elem_run. setoid_rewrite Hb. naive_solver.
  - intros p n Hp. by apply elem_of_nil in Hp.
  - apply NoDup_nil_2.
Qed.

Lemma allocator_keeps_books_witness :
  exists v s' b', exec (Get 3 Normal) eight_free = Some (v, s') /\ booked [eight] eight_books (Get 3 Normal) v b' /\ keeps_books s' b' /\ phys_memory_regions s' = [eight].
Proof. apply (allocator_keeps_books eight_free eight_books (Get 3 Normal) eight_kept). reflexivity. Defined.


Lemma get_succeeds_witness : exists q s', exec (Get 3 Normal) eight_free = Some (addr_of [eight] q, s') /\ run q 3 ⊆ run 11 8
  /\ keeps_books s' (Books (run 11 8 ∖ run q 3) (∅ ∪ run q 3) []).
Proof.
  apply (get_succeeds eight_free eight_books 3 Normal eight 11 eight_kept).
  - split; [reflexivity|discriminate].
  - apply list_elem_of_singleton. reflexivity.
  - apply elem_of_cons. left. reflexivity.
  - discriminate.
  - vm_compute. discriminate.
  - change (run 11 4 ⊆ run 11 8). intros x. rewrite !elem_run. lia.
Defined.

Lemma address_roundtrip_witness : exists addr, get_phys_addr 13 eight_free = Some (addr, eight_free) /\ 4294967296 <= addr < 4294967296 + 8 * 4096 /\ find_page addr eight_free = Some (13, eight_free).
Proof.
  apply (address_roundtrip eight_free eight_books eight 13 owned eight_kept).
  - apply list_elem_of_singleton. reflexivity.
  - split; [discriminate|reflexivity].
  - reflexivity.
  - reflexivity.
Defined.

(** A request above 2^17 pages (512 MB) is refused whatever is free. *)
Lemma huge_request_refused s z count : 2 ^ 17 < count -> alloc_pages_from z count s = Some (0, s).
Proof.
  intros Hc. unfold alloc_pages_from. assert (H0 : 0 < count) by lia. rewrite (pbind _ _ _ _ _ (assert_run _ s (proj2 (Z.ltb_lt 0 count) H0))), (pbind _ _ _ _ _ (eq_refl : get_arrays s = Some (phys_memory_regions s, s))).
  case_bool_decide; [done|]. destruct (_ <? count) in |- *; [done|]. rewrite (pbind _ _ _ _ _ (from_run _ _ s (log2_some count H0))). cbv zeta.
  change (if 2 ^ Z.of_nat (Z.to_nat (Z.log2 count)) <? count then _ else _) with (request_order count).
  assert (Ho : (page_lists <= request_order count)%nat).
  { destruct (decide (request_order count <= 17)%nat) as [Hle|Hle]; [|unfold page_lists; lia]. pose proof (request_order_ge count H0) as Hge. exfalso.
    assert (2 ^ Z.of_nat (request_order count) <= 2 ^ 17) by (apply Z.pow_le_mono_r; lia). lia. }
  by replace (page_lists - request_order count)%nat with 0%nat by lia.
Qed.

(** Two pages below and two above 4 GB, which the kernel holds: freeing three of them together
    makes a free block of three pages in the first array, which has two, and goes on behind it. *)
Definition two_arrays : pmm :=
  Pmm (list_to_map ([(10, border); (13, border); (20, border); (23, border)] ++ ((fun x => (x, owned)) <$> [11; 12; 21; 22])))
      [PageArray 4294959104 2 region_below_4gb 11; PageArray 4294967296 2 region_above_4gb 21] (fun _ _ => []) [].

Lemma free_across_arrays : exists s, free_memory_for_kernel 4294959104 3 two_arrays = Some (tt, s) /\ rcu_callback_page 11 s = None.
Proof. eexists. split; [reflexivity|vm_compute; reflexivity]. Qed.
