(* ===== verification/Rcu.v ===== *)
(** * kernel/generic/memory/rcu.cc and rcu.hh: deferred reclamation

    An object that other processors may still be reading is not freed at once: the processor
    that gives it up pushes a callback, and every processor calls [quiet] from time to time, when
    it holds no such object.  [RCU] counts generations; a generation is complete when every
    processor has been quiet in it, which a bit mask of 64-bit words records.  A processor keeps
    two lists of callbacks: those pushed since its last batch, and the batch that waits for a
    generation.

    [quiet] holds the lock of [RCU] in two parts and runs the callbacks without it, so it is
    three steps here, [quiet_silence], [quiet_run] and [quiet_adopt], which other processors can
    interleave.  A callback may push others ([pushes]).  Generations are 64 bits wide in the code
    and unbounded here; a failed assertion is [None]. *)

From stdpp Require Import base numbers list sets.
From Stdlib Require Import ZArith Lia.
From S2P Require Import Prelude.
Open Scope Z_scope.

(** ** Data *)

(** [RCU_Head]: the object it is in, and the function *)
Record RCU_Head := RcuHead { rcu_self : Z; rcu_func : Z }.
#[global] Instance RCU_Head_eq : EqDecision RCU_Head.
Proof. solve_decision. Defined.

Record RCU := Rcu { bitmask : list Z; generation : Z; highest_generation : Z }.
Record RCU_CPU := RcuCpu { current_callbacks : list RCU_Head; next_callbacks : list RCU_Head; cpu_generation : Z }.

Section Rcu.
  Context (number_of_cpus : nat) (pushes : RCU_Head -> list RCU_Head).

(** ** Operations *)

Definition word_of (b : list Z) (i : nat) : Z := default 0 (b !! i).

Definition cpu_bit_set (b : list Z) (cpu_id : nat) : bool :=
  negb (Z.land (word_of b (cpu_id / 64)) (Z.shiftl 1 (Z.of_nat (cpu_id mod 64))) =? 0).

Definition silence_cpu (b : list Z) (cpu_id : nat) : list Z :=
  <[(cpu_id / 64)%nat := Z.land (word_of b (cpu_id / 64)) (Z.lxor (2 ^ 64 - 1) (Z.shiftl 1 (Z.of_nat (cpu_id mod 64))))]> b.

Definition generation_complete (b : list Z) : bool := forallb (fun w => w =? 0) b.

Definition full_word (i : nat) : Z :=
  if bool_decide ((i + 1) * 64 <= number_of_cpus)%nat then 2 ^ 64 - 1
  else Z.shiftl 1 (Z.of_nat number_of_cpus - Z.of_nat i * 64) - 1.

Definition start_generation (p : RCU) : RCU :=
  Rcu (imap (fun i _ => full_word i) (bitmask p)) (generation p + 1) (generation p + 1 + 1).

(** [RCU_CPU::push] *)
Definition push_callback (x : RCU_Head) (c : RCU_CPU) : RCU_CPU :=
  RcuCpu (current_callbacks c) (x :: next_callbacks c) (cpu_generation c).

Definition push_all (l : list RCU_Head) (c : RCU_CPU) : RCU_CPU := foldl (fun c x => push_callback x c) c l.

(** The callbacks that a list makes, with the flag they get, and the processor afterwards *)
Fixpoint run_callbacks (l : list RCU_Head) (c : RCU_CPU) : list (RCU_Head * bool) * RCU_CPU :=
  match l with
  | [] => ([], c)
  | x :: l =>
      let chained := match l with y :: _ => rcu_func y =? rcu_func x | [] => false end in
      let '(calls, c) := run_callbacks l (push_all (pushes x) c) in
      ((x, chained) :: calls, c)
  end.

(** [RCU_CPU::quiet]: the part that reports the processor *)
Definition quiet_silence (p : RCU) (my_cpu_id : nat) : RCU :=
  if cpu_bit_set (bitmask p) my_cpu_id then
    let b := silence_cpu (bitmask p) my_cpu_id in
    if generation_complete b then
      let p := Rcu b (generation p + 1) (highest_generation p) in
      if generation p <=? highest_generation p then start_generation p else p
    else Rcu b (generation p) (highest_generation p)
  else p.

(** the part that makes the callbacks of a batch that has waited long enough *)
Definition quiet_run (p : RCU) (c : RCU_CPU) : list (RCU_Head * bool) * RCU_CPU :=
  if cpu_generation c <? generation p then
    let '(calls, c) := run_callbacks (current_callbacks c) c in
    (calls, RcuCpu [] (next_callbacks c) (cpu_generation c))
  else ([], c).

(** and the part that takes the next batch *)
Definition quiet_adopt (p : RCU) (c : RCU_CPU) : option (RCU * RCU_CPU) :=
  match current_callbacks c, next_callbacks c with
  | [], (_ :: _) as l =>
      let g := generation p + 1 in
      let c := RcuCpu l [] g in
      if negb (generation_complete (bitmask p)) then
        if highest_generation p <=? g + 1 then Some (Rcu (bitmask p) (generation p) (g + 1), c) else None
      else Some (start_generation p, c)
  | _, _ => Some (p, c)
  end.

(** ** The system *)

(** Where a processor is in [quiet] *)
Inductive phase := Outside | Silenced | HasRun.
Record proc := Proc { p_cpu : RCU_CPU; p_phase : phase }.
Record sys := Sys { parent : RCU; procs : list proc; calls : list (RCU_Head * bool); pushed : list RCU_Head }.

Definition init : sys :=
  Sys (Rcu (replicate ((number_of_cpus + 63) / 64) 0) 0 0) (replicate number_of_cpus (Proc (RcuCpu [] [] 0) Outside)) [] [].

(** A processor pushes a callback, or goes on with [quiet] *)
Inductive event := Push (c : nat) (x : RCU_Head) | Step (c : nat).
#[global] Instance event_eq : EqDecision event.
Proof. solve_decision. Defined.

Definition step (e : event) (s : sys) : option sys :=
  match e with
  | Push c x =>
      p ← procs s !! c;
      match p_phase p with
      | Outside => Some (Sys (parent s) (<[c := Proc (push_callback x (p_cpu p)) Outside]> (procs s)) (calls s) (x :: pushed s))
      | _ => None
      end
  | Step c =>
      p ← procs s !! c;
      match p_phase p with
      | Outside => Some (Sys (quiet_silence (parent s) c) (<[c := Proc (p_cpu p) Silenced]> (procs s)) (calls s) (pushed s))
      | Silenced =>
          let '(made, cpu) := quiet_run (parent s) (p_cpu p) in
          Some (Sys (parent s) (<[c := Proc cpu HasRun]> (procs s)) (calls s ++ made) ((made.*1 ≫= pushes) ++ pushed s))
      | HasRun =>
          '(r, cpu) ← quiet_adopt (parent s) (p_cpu p);
          Some (Sys r (<[c := Proc cpu Outside]> (procs s)) (calls s) (pushed s))
      end
  end.

(** Events that a processor which is there can take part in *)
Definition enabled (e : event) (s : sys) : Prop :=
  match e with
  | Push c _ => exists p, procs s !! c = Some p /\ p_phase p = Outside
  | Step c => (c < number_of_cpus)%nat
  end.

(** ** The bit mask *)

Definition bit (b : list Z) (c : nat) : bool := Z.testbit (word_of b (c / 64)) (Z.of_nat (c mod 64)).

Definition mask_ok (b : list Z) : Prop :=
  length b = ((number_of_cpus + 63) / 64)%nat
  /\ forall i w, b !! i = Some w -> 0 <= w < 2 ^ 64 /\ forall k, Z.testbit w k = true -> 0 <= k < 64 /\ 64 * Z.of_nat i + k < Z.of_nat number_of_cpus.

Lemma cpu_bit_set_bit b c : cpu_bit_set b c = bit b c.
Proof.
  unfold cpu_bit_set, bit. rewrite Z.shiftl_1_l. set (w := word_of b _). set (k := Z.of_nat (c mod 64)). assert (Hk : 0 <= k) by (subst k; lia).
  destruct (Z.testbit w k) eqn:E.
  - destruct (Z.eqb_spec (Z.land w (2 ^ k)) 0) as [H|H]; [|done]. assert (Z.testbit (Z.land w (2 ^ k)) k = true) as Hb by (rewrite Z.land_spec, E, Z.pow2_bits_true; done).
    by rewrite H, Z.bits_0 in Hb.
  - destruct (Z.eqb_spec (Z.land w (2 ^ k)) 0) as [H|H]; [done|]. exfalso. apply H. apply Z.bits_inj'. intros i Hi. rewrite Z.land_spec, Z.bits_0.
    destruct (decide (i = k)) as [->|Hne]; [by rewrite E|]. rewrite Z.pow2_bits_false by lia. apply andb_false_r.
Qed.

Lemma index_words (c : nat) : (c < number_of_cpus -> c / 64 < (number_of_cpus + 63) / 64)%nat.
Proof. intros H. apply Nat.Div0.div_lt_upper_bound. pose proof (Nat.div_mod (number_of_cpus + 63) 64). pose proof (Nat.mod_upper_bound (number_of_cpus + 63) 64). lia. Qed.

Lemma word_of_ok b i k : mask_ok b -> Z.testbit (word_of b i) k = true -> 0 <= k < 64 /\ 64 * Z.of_nat i + k < Z.of_nat number_of_cpus.
Proof. intros [_ Hb] H. unfold word_of in H. destruct (b !! i) as [w|] eqn:E; [by apply (Hb i w E)|]. by rewrite Z.bits_0 in H. Qed.

Lemma silence_word w k : 0 <= w < 2 ^ 64 -> 0 <= k < 64 -> Z.land w (Z.lxor (2 ^ 64 - 1) (Z.shiftl 1 k)) = Z.ldiff w (2 ^ k).
Proof.
  intros Hw Hk. rewrite Z.shiftl_1_l. change (2 ^ 64 - 1) with (Z.ones 64). apply Z.bits_inj'. intros i Hi. rewrite Z.land_spec, Z.lxor_spec, Z.ldiff_spec, Z.testbit_ones_nonneg by lia.
  destruct (Z.ltb_spec i 64); [by rewrite xorb_true_l|]. by rewrite (Z.bits_above_log2 w i); [|lia|destruct (decide (w = 0)) as [->|]; [cbn; lia|apply Z.log2_lt_pow2; [lia|apply Z.lt_le_trans with (2 ^ 64); [lia|apply Z.pow_le_mono_r; lia]]]].
Qed.

Lemma silence_ok b c : mask_ok b -> (c < number_of_cpus)%nat ->
  mask_ok (silence_cpu b c) /\ forall d, bit (silence_cpu b c) d = bit b d && negb (bool_decide (c = d)).
Proof.
  intros Hm Hc. pose proof Hm as [Hl Hb]. assert (Hi : (c / 64 < length b)%nat) by (rewrite Hl; by apply index_words). assert (Hk : 0 <= Z.of_nat (c mod 64) < 64) by (pose proof (Nat.mod_upper_bound c 64); lia).
  destruct (lookup_lt_is_Some_2 _ _ Hi) as [w Ew]. unfold silence_cpu. assert (word_of b (c / 64) = w) as -> by (unfold word_of; by rewrite Ew).
  destruct (Hb _ _ Ew) as [Hw Hbits]. rewrite silence_word by done. split; [split; [by rewrite length_insert|]|].
  - intros i w' [(<- & <- & _)|[_ E]]%list_lookup_insert_Some; [|by apply (Hb i)].
    split; [|intros k; rewrite Z.ldiff_spec; intros [H _]%andb_prop; by apply Hbits].
    split; [apply Z.ldiff_nonneg; lia|]. apply Z.le_lt_trans with w; [|lia]. apply Z.ldiff_le; [lia|]. apply Z.bits_inj'. intros k _. rewrite !Z.ldiff_spec, Z.bits_0. by destruct (Z.testbit w k), (Z.testbit _ k).
  - intros d. unfold bit at 1, word_of. destruct (decide (c / 64 = d / 64)%nat) as [E|E].
    + rewrite E, list_lookup_insert_eq by (by rewrite <- E). cbn [from_option id]. rewrite Z.ldiff_spec. unfold bit, word_of. rewrite <- E, Ew. cbn [from_option id]. f_equal. f_equal.
      destruct (decide (c = d)) as [->|Hne]; [rewrite bool_decide_true by done; by rewrite Z.pow2_bits_true by lia|]. rewrite bool_decide_false by done.
      apply Z.pow2_bits_false. pose proof (Nat.div_mod c 64). pose proof (Nat.div_mod d 64). lia.
    + rewrite list_lookup_insert_ne by done. rewrite bool_decide_false by (by intros ->). by rewrite andb_true_r.
Qed.

Lemma full_word_bits i k : (64 * i < number_of_cpus)%nat -> Z.testbit (full_word i) k = bool_decide (0 <= k < 64 /\ 64 * Z.of_nat i + k < Z.of_nat number_of_cpus).
Proof.
  intros Hi. assert (full_word i = Z.ones (Z.min 64 (Z.of_nat number_of_cpus - Z.of_nat i * 64))) as ->.
  { unfold full_word. case_bool_decide; [by rewrite Z.min_l by lia|]. rewrite Z.min_r by lia. unfold Z.ones. by rewrite Z.sub_1_r. }
  rewrite Z.testbit_ones by lia. destruct (Z.leb_spec 0 k), (Z.ltb_spec k (Z.min 64 (Z.of_nat number_of_cpus - Z.of_nat i * 64))); case_bool_decide; try done; lia.
Qed.

Lemma word_index_cpus i : (i < (number_of_cpus + 63) / 64 -> 64 * i < number_of_cpus)%nat.
Proof. intros H. pose proof (Nat.div_mod (number_of_cpus + 63) 64). pose proof (Nat.mod_upper_bound (number_of_cpus + 63) 64). lia. Qed.

Lemma start_ok p : mask_ok (bitmask p) -> mask_ok (bitmask (start_generation p)) /\ forall d, (d < number_of_cpus)%nat -> bit (bitmask (start_generation p)) d = true.
Proof.
  intros [Hl _]. unfold start_generation. cbn [bitmask]. split; [split; [by rewrite length_imap|]|].
  - intros i w. rewrite list_lookup_imap. destruct (bitmask p !! i) as [w0|] eqn:E; [|done]. intros [= <-].
    apply lookup_lt_Some in E. assert (Hi : (64 * i < number_of_cpus)%nat) by (apply word_index_cpus; lia). split.
    + unfold full_word. case_bool_decide; [lia|]. rewrite Z.shiftl_1_l. assert (0 < 2 ^ (Z.of_nat number_of_cpus - Z.of_nat i * 64) <= 2 ^ 64); [|lia]. split; [apply Z.pow_pos_nonneg; lia|apply Z.pow_le_mono_r; lia].
    + intros k. rewrite full_word_bits by done. apply bool_decide_eq_true_1.
  - intros d Hd. unfold bit, word_of. rewrite list_lookup_imap. destruct (lookup_lt_is_Some_2 (bitmask p) (d / 64)) as [w ->]; [rewrite Hl; by apply index_words|]. cbn [fmap option_fmap option_map from_option id].
    pose proof (Nat.div_mod d 64). pose proof (Nat.mod_upper_bound d 64). rewrite full_word_bits by lia. apply bool_decide_eq_true_2. lia.
Qed.

Lemma complete_bits b : mask_ok b -> generation_complete b = true <-> forall d, (d < number_of_cpus)%nat -> bit b d = false.
Proof.
  intros Hm. pose proof Hm as [Hl Hb]. unfold generation_complete. rewrite forallb_forall. setoid_rewrite Z.eqb_eq. split.
  - intros H d Hd. unfold bit, word_of. destruct (b !! (d / 64)%nat) as [w|] eqn:E; cbn [from_option id]; [|apply Z.bits_0]. rewrite (H w); [apply Z.bits_0|]. by apply list_elem_of_In, (list_elem_of_lookup_2 _ (d / 64)).
  - intros H w Hw. apply list_elem_of_In, list_elem_of_lookup_1 in Hw as [i Ei]. destruct (Hb i w Ei) as [Hw Hbits]. apply Z.bits_inj'. intros k Hk. rewrite Z.bits_0. destruct (Z.testbit w k) eqn:E; [|done].
    destruct (Hbits k E) as [Hk' Hn]. rewrite <- E. specialize (H (64 * i + Z.to_nat k)%nat ltac:(lia)). unfold bit, word_of in H.
    replace ((64 * i + Z.to_nat k) / 64)%nat with i in H by (apply Nat.div_unique with (Z.to_nat k); lia). replace ((64 * i + Z.to_nat k) mod 64)%nat with (Z.to_nat k) in H by (apply Nat.mod_unique with i; lia).
    rewrite Ei in H. cbn [from_option id] in H. by rewrite Z2Nat.id in H by lia.
Qed.

Lemma incomplete_bits b : mask_ok b -> generation_complete b = false -> exists d, (d < number_of_cpus)%nat /\ bit b d = true.
Proof.
  intros Hm Hg. destruct (decide (Exists (fun d => bit b d = true) (seq 0 number_of_cpus))) as [He|Hn].
  - apply Exists_exists in He as (d & Hd%elem_of_seq & Hd'). exists d. split; [lia|done].
  - exfalso. assert (generation_complete b = true); [|congruence]. apply (complete_bits _ Hm). intros d Hd. apply not_true_is_false. intros H.
    apply Hn, Exists_exists. exists d. split; [apply elem_of_seq; lia|done].
Qed.

(** ** The invariant *)

Definition waiting (p : proc) : list RCU_Head := current_callbacks (p_cpu p) ++ next_callbacks (p_cpu p).
Definition pending (l : list proc) : list RCU_Head := l ≫= waiting.

Definition idle (s : sys) : Prop :=
  generation (parent s) = 0 /\ highest_generation (parent s) = 0 /\ (forall d, (d < number_of_cpus)%nat -> bit (bitmask (parent s)) d = false)
  /\ forall c p, procs s !! c = Some p -> current_callbacks (p_cpu p) = [].

Definition active (s : sys) : Prop :=
  1 <= generation (parent s) < highest_generation (parent s) /\ highest_generation (parent s) <= generation (parent s) + 2
  /\ exists d, (d < number_of_cpus)%nat /\ bit (bitmask (parent s)) d = true.

Record inv (s : sys) : Prop := {
  inv_mask : mask_ok (bitmask (parent s));
  inv_procs : length (procs s) = number_of_cpus;
  inv_active : idle s \/ active s;
  inv_generation : forall c p, procs s !! c = Some p -> current_callbacks (p_cpu p) <> [] -> cpu_generation (p_cpu p) <= generation (parent s) + 1;
  inv_conserved : pushed s ≡ₚ (calls s).*1 ++ pending (procs s) }.

Lemma pending_insert l c p : l !! c = Some p -> exists rest, pending l ≡ₚ waiting p ++ rest /\ forall p', pending (<[c := p']> l) ≡ₚ waiting p' ++ rest.
Proof.
  intros H. exists (pending (take c l) ++ pending (drop (S c) l)). split.
  - rewrite <- (take_drop_middle l c p H) at 1. unfold pending. rewrite bind_app, bind_cons. solve_Permutation.
  - intros p'. rewrite (insert_take_drop _ _ _ (lookup_lt_Some _ _ _ H)). unfold pending. rewrite bind_app, bind_cons. solve_Permutation.
Qed.

Lemma push_all_spec l c : current_callbacks (push_all l c) = current_callbacks c /\ cpu_generation (push_all l c) = cpu_generation c /\ next_callbacks (push_all l c) ≡ₚ l ++ next_callbacks c.
Proof.
  revert c. induction l as [|x l IH]; intros c; [done|]. cbn. destruct (IH (push_callback x c)) as (H1 & H2 & H3). split_and!; [done..|]. rewrite H3. cbn. by rewrite Permutation_middle.
Qed.

Lemma run_callbacks_spec l c : let '(made, c') := run_callbacks l c in
  made.*1 = l /\ current_callbacks c' = current_callbacks c /\ cpu_generation c' = cpu_generation c /\ next_callbacks c' ≡ₚ (l ≫= pushes) ++ next_callbacks c.
Proof.
  revert c. induction l as [|x l IH]; intros c; [done|]. cbn [run_callbacks]. specialize (IH (push_all (pushes x) c)). destruct (run_callbacks l _) as [made c'].
  destruct IH as (H1 & H2 & H3 & H4), (push_all_spec (pushes x) c) as (G1 & G2 & G3). cbn [fmap list_fmap fst]. split_and!; [by f_equal|congruence|congruence|].
  rewrite H4, G3, bind_cons. solve_Permutation.
Qed.

Lemma quiet_run_spec p c : let '(made, c') := quiet_run p c in
  (cpu_generation c < generation p /\ made.*1 = current_callbacks c /\ current_callbacks c' = [] \/ generation p <= cpu_generation c /\ made = [] /\ c' = c)
  /\ cpu_generation c' = cpu_generation c /\ next_callbacks c' ≡ₚ (made.*1 ≫= pushes) ++ next_callbacks c.
Proof.
  unfold quiet_run. destruct (Z.ltb_spec (cpu_generation c) (generation p)); [|split_and!; [by right|done..]].
  pose proof (run_callbacks_spec (current_callbacks c) c) as Hr. destruct (run_callbacks _ c) as [made c']. destruct Hr as (H1 & H2 & H3 & H4). cbn.
  split_and!; [by left|done|]. by rewrite H4, H1.
Qed.

Lemma quiet_silence_spec p c : mask_ok (bitmask p) -> (c < number_of_cpus)%nat ->
  (bit (bitmask p) c = true -> generation p < highest_generation p) ->
  let p' := quiet_silence p c in mask_ok (bitmask p') /\
  ((bit (bitmask p) c = false /\ p' = p)
   \/ (bit (bitmask p) c = true /\ generation p' = generation p /\ highest_generation p' = highest_generation p
       /\ (forall d, bit (bitmask p') d = bit (bitmask p) d && negb (bool_decide (c = d))) /\ exists d, (d < number_of_cpus)%nat /\ bit (bitmask p') d = true)
   \/ (bit (bitmask p) c = true /\ (forall d, (d < number_of_cpus)%nat -> d <> c -> bit (bitmask p) d = false)
       /\ generation p' = generation p + 2 /\ highest_generation p' = generation p + 3 /\ forall d, (d < number_of_cpus)%nat -> bit (bitmask p') d = true)).
Proof.
  intros Hm Hc Hh. unfold quiet_silence. rewrite cpu_bit_set_bit. destruct (bit (bitmask p) c) eqn:Eb; [|split; [done|by left]].
  destruct (silence_ok _ c Hm Hc) as [Hs Hb]. destruct (generation_complete (silence_cpu (bitmask p) c)) eqn:Ec.
  - pose proof (proj1 (complete_bits _ Hs) Ec) as Hall. cbn [generation highest_generation]. assert (generation p + 1 <=? highest_generation p = true) as -> by (apply Z.leb_le; specialize (Hh eq_refl); lia).
    destruct (start_ok (Rcu (silence_cpu (bitmask p) c) (generation p + 1) (highest_generation p)) Hs) as [Hs' Hb']. split; [done|]. right. right.
    cbn [start_generation generation highest_generation]. split_and!; [done| |lia|lia|done].
    intros d Hd Hne. specialize (Hall d Hd). rewrite Hb, bool_decide_false, andb_true_r in Hall by done. done.
  - split; [done|]. right. left. cbn. split_and!; [done..|by apply incomplete_bits].
Qed.

Lemma quiet_adopt_spec p c : mask_ok (bitmask p) -> highest_generation p <= generation p + 2 ->
  exists p' c', quiet_adopt p c = Some (p', c') /\ mask_ok (bitmask p') /\
  (((current_callbacks c <> [] \/ next_callbacks c = []) /\ p' = p /\ c' = c)
   \/ (current_callbacks c = [] /\ next_callbacks c <> [] /\ current_callbacks c' = next_callbacks c /\ next_callbacks c' = [] /\ cpu_generation c' = generation p + 1
      /\ (((exists d, (d < number_of_cpus)%nat /\ bit (bitmask p) d = true) /\ bitmask p' = bitmask p /\ generation p' = generation p /\ highest_generation p' = generation p + 2)
          \/ ((forall d, (d < number_of_cpus)%nat -> bit (bitmask p) d = false) /\ (forall d, (d < number_of_cpus)%nat -> bit (bitmask p') d = true) /\ generation p' = generation p + 1 /\ highest_generation p' = generation p + 2)))).
Proof.
  intros Hm Hh. unfold quiet_adopt. destruct (current_callbacks c) as [|x l] eqn:Ec; [|exists p, c; split_and!; try done; left; split; [by left|done]].
  destruct (next_callbacks c) as [|y l'] eqn:En; [exists p, c; split_and!; try done; left; split; [by right|done]|].
  destruct (generation_complete (bitmask p)) eqn:Eg; cbn [negb].
  - destruct (start_ok p Hm) as [Hs Hb]. exists (start_generation p), (RcuCpu (y :: l') [] (generation p + 1)). split_and!; [done..|]. right. cbn. split_and!; try done. right.
    split_and!; [by apply complete_bits|done|done|lia].
  - assert (highest_generation p <=? generation p + 1 + 1 = true) as -> by (apply Z.leb_le; lia). eexists _, _. split_and!; [done|done|]. right. cbn. split_and!; try done. left.
    split_and!; [by apply incomplete_bits|done|done|lia].
Qed.

Lemma inv_high s : inv s -> highest_generation (parent s) <= generation (parent s) + 2 /\ forall d, (d < number_of_cpus)%nat -> bit (bitmask (parent s)) d = true -> active s.
Proof. intros H. destruct (inv_active s H) as [Hi|Ha]; split; [destruct Hi; lia|destruct Hi as (_ & _ & Hb & _); intros d Hd Hd'; by rewrite Hb in Hd'|destruct Ha as ((? & ?) & ? & _); lia|done]. Qed.

(** The processors after a step of one of them *)
Lemma insert_procs (Q : nat -> proc -> Prop) (l : list proc) c p' : (forall d p, l !! d = Some p -> Q d p) -> Q c p' -> forall d p, <[c := p']> l !! d = Some p -> Q d p.
Proof. intros H Hc d p [(<- & <- & _)|[_ E]]%list_lookup_insert_Some; auto. Qed.

Lemma step_push_inv s c x p : inv s -> procs s !! c = Some p ->
  inv (Sys (parent s) (<[c := Proc (push_callback x (p_cpu p)) Outside]> (procs s)) (calls s) (x :: pushed s)).
Proof.
  intros H Ep. destruct H as [Hm Hl Ha Hg Hc]. split; cbn [parent procs calls pushed]; [done|by rewrite length_insert| | |].
  - destruct Ha as [(H1 & H2 & H3 & H4)|Ha]; [left|by right]. split_and!; [done..|]. cbn [procs]. apply (insert_procs (fun _ p => current_callbacks (p_cpu p) = [])); [done|]. exact (H4 c p Ep).
  - apply (insert_procs (fun _ p => current_callbacks (p_cpu p) <> [] -> cpu_generation (p_cpu p) <= generation (parent s) + 1)); [done|]. exact (Hg c p Ep).
  - destruct (pending_insert _ _ _ Ep) as (rest & E1 & E2). rewrite E2, Hc, E1. unfold waiting. cbn. solve_Permutation.
Qed.

Lemma step_silence_inv s c p : inv s -> procs s !! c = Some p ->
  inv (Sys (quiet_silence (parent s) c) (<[c := Proc (p_cpu p) Silenced]> (procs s)) (calls s) (pushed s)).
Proof.
  intros H Ep. assert (Hcn : (c < number_of_cpus)%nat) by (rewrite <- (inv_procs s H); by eapply lookup_lt_Some). pose proof (inv_high s H) as [Hh Hact].
  destruct (quiet_silence_spec (parent s) c (inv_mask s H) Hcn) as [Hm' Hcase]; [intros Hb; by destruct (Hact c Hcn Hb) as [[_ ?] _]|]. destruct H as [Hm Hl Ha Hg Hc].
  assert (Hgen : generation (parent s) <= generation (quiet_silence (parent s) c)) by (destruct Hcase as [[_ ->]|[(_ & -> & _)|(_ & _ & -> & _)]]; lia).
  split; cbn [parent procs calls pushed]; [done|by rewrite length_insert| | |].
  - destruct Hcase as [[_ Hp]|[(Hb & H1 & H2 & _ & Hd)|(Hb & _ & H1 & H2 & Hd)]].
    + rewrite Hp. destruct Ha as [(H1 & H2 & H3 & H4)|Ha]; [left|by right]. split_and!; [done..|]. cbn [procs]. apply (insert_procs (fun _ p => current_callbacks (p_cpu p) = [])); [done|]. exact (H4 c p Ep).
    + right. destruct (Hact c Hcn Hb) as (H3 & H4 & _). split_and!; cbn [parent]; rewrite ?H1, ?H2; [lia|lia|lia|done].
    + right. destruct (Hact c Hcn Hb) as (H3 & H4 & _). split_and!; cbn [parent]; rewrite ?H1, ?H2; [lia|lia|lia|]. exists c. split; [done|by apply Hd].
  - apply (insert_procs (fun _ p => current_callbacks (p_cpu p) <> [] -> cpu_generation (p_cpu p) <= generation (quiet_silence (parent s) c) + 1)).
    + intros d q Eq Hne. pose proof (Hg d q Eq Hne). lia.
    + cbn. intros Hne. pose proof (Hg c p Ep Hne). lia.
  - destruct (pending_insert _ _ _ Ep) as (rest & E1 & E2). by rewrite E2, Hc, E1.
Qed.

Lemma step_run_inv s c p made cpu : inv s -> procs s !! c = Some p -> quiet_run (parent s) (p_cpu p) = (made, cpu) ->
  inv (Sys (parent s) (<[c := Proc cpu HasRun]> (procs s)) (calls s ++ made) ((made.*1 ≫= pushes) ++ pushed s)).
Proof.
  intros [Hm Hl Ha Hg Hc] Ep Er. pose proof (quiet_run_spec (parent s) (p_cpu p)) as Hr. rewrite Er in Hr. destruct Hr as (Hcase & Hgen & Hnext).
  assert (Hcur : current_callbacks cpu = [] \/ current_callbacks cpu = current_callbacks (p_cpu p)) by (destruct Hcase as [(_ & _ & ->)|(_ & _ & ->)]; auto).
  split; cbn [parent procs calls pushed]; [done|by rewrite length_insert| | |].
  - destruct Ha as [(H1 & H2 & H3 & H4)|Ha]; [left|by right]. split_and!; [done..|]. cbn [procs]. apply (insert_procs (fun _ p => current_callbacks (p_cpu p) = [])); [done|]. cbn [p_cpu]. destruct Hcur as [?| ->]; [done|exact (H4 c p Ep)].
  - apply (insert_procs (fun _ p => current_callbacks (p_cpu p) <> [] -> cpu_generation (p_cpu p) <= generation (parent s) + 1)); [done|]. cbn. rewrite Hgen. destruct Hcur as [->| ->]; [done|exact (Hg c p Ep)].
  - destruct (pending_insert _ _ _ Ep) as (rest & E1 & E2). rewrite E2, Hc, E1. unfold waiting. cbn [p_cpu]. rewrite Hnext, fmap_app.
    destruct Hcase as [(_ & -> & ->)|(_ & -> & ->)]; cbn [fmap list_fmap]; solve_Permutation.
Qed.

Lemma step_adopt_inv s c p : inv s -> procs s !! c = Some p ->
  exists r cpu, quiet_adopt (parent s) (p_cpu p) = Some (r, cpu) /\ inv (Sys r (<[c := Proc cpu Outside]> (procs s)) (calls s) (pushed s)).
Proof.
  intros H Ep. assert (Hcn : (c < number_of_cpus)%nat) by (rewrite <- (inv_procs s H); by eapply lookup_lt_Some). pose proof (inv_high s H) as [Hh Hact]. destruct H as [Hm Hl Ha Hg Hc].
  destruct (quiet_adopt_spec (parent s) (p_cpu p) Hm Hh) as (r & cpu & Er & Hmr & Hcase). exists r, cpu. split; [done|].
  destruct (pending_insert _ _ _ Ep) as (rest & E1 & E2). destruct Hcase as [(_ & -> & ->)|(H1 & H2 & H3 & H4 & H5 & Hcase)].
  { split; cbn [parent procs calls pushed]; [done|by rewrite length_insert| | |].
    - destruct Ha as [(G1 & G2 & G3 & G4)|Ha]; [left|by right]. split_and!; [done..|]. cbn [procs]. apply (insert_procs (fun _ p => current_callbacks (p_cpu p) = [])); [done|exact (G4 c p Ep)].
    - apply (insert_procs (fun _ p => current_callbacks (p_cpu p) <> [] -> cpu_generation (p_cpu p) <= generation (parent s) + 1)); [done|exact (Hg c p Ep)].
    - by rewrite E2, Hc, E1. }
  assert (Hgr : generation (parent s) <= generation r) by (destruct Hcase as [(_ & _ & -> & _)|(_ & _ & -> & _)]; lia).
  split; cbn [parent procs calls pushed]; [done|by rewrite length_insert| | |].
  - right. destruct Hcase as [([d [Hd Hd']] & Hb & Hg1 & Hh1)|(Hb & Hb' & Hg1 & Hh1)].
    + destruct (Hact d Hd Hd') as (G1 & G2 & _). split_and!; cbn [parent]; rewrite ?Hg1, ?Hh1, ?Hb; [lia..|]. by exists d.
    + assert (Hg0 : generation (parent s) = 0) by (destruct Ha as [[? _]|(_ & _ & d & Hd & Hd')]; [done|by rewrite Hb in Hd']).
      split_and!; cbn [parent]; rewrite ?Hg1, ?Hh1; [lia..|]. exists c. split; [done|by apply Hb'].
  - apply (insert_procs (fun _ p => current_callbacks (p_cpu p) <> [] -> cpu_generation (p_cpu p) <= generation r + 1)); [|cbn; lia].
    intros d q Eq Hne. pose proof (Hg d q Eq Hne). lia.
  - rewrite E2, Hc, E1. unfold waiting. cbn [p_cpu]. by rewrite H1, H3, H4, app_nil_r.
Qed.

Lemma rcu_step_inv s e : inv s -> enabled e s -> exists s', step e s = Some s' /\ inv s'.
Proof.
  intros H He. destruct e as [c x|c]; cbn [enabled step] in *.
  - destruct He as (p & Ep & Ho). rewrite Ep. cbn. rewrite Ho. eexists. split; [done|by apply step_push_inv].
  - destruct (lookup_lt_is_Some_2 (procs s) c) as [p Ep]; [by rewrite (inv_procs s H)|]. rewrite Ep. cbn. destruct (p_phase p).
    + eexists. split; [done|by apply step_silence_inv].
    + destruct (quiet_run (parent s) (p_cpu p)) as [made cpu] eqn:Er. eexists. split; [done|by apply (step_run_inv s c p)].
    + destruct (step_adopt_inv s c p H Ep) as (r & cpu & -> & Hi). by eexists.
Qed.

Lemma rcu_init_inv : inv init.
Proof.
  assert (Hb : forall d, bit (bitmask (parent init)) d = false).
  { intros d. unfold bit, word_of, init. cbn [parent bitmask]. destruct (replicate _ 0 !! _) as [w|] eqn:E; [|apply Z.bits_0]. apply lookup_replicate in E as [-> _]. apply Z.bits_0. }
  split.
  - split; [apply length_replicate|]. intros i w [-> _]%lookup_replicate. split; [lia|]. intros k. by rewrite Z.bits_0.
  - apply length_replicate.
  - left. split_and!; [done..|]. intros c p [-> _]%lookup_replicate. done.
  - intros c p [-> _]%lookup_replicate. done.
  - unfold init. cbn [pushed calls procs]. assert (pending (replicate number_of_cpus (Proc (RcuCpu [] [] 0) Outside)) = []) as ->; [|done]. induction number_of_cpus as [|n IH]; [done|]. exact IH.
Qed.

(** An execution: each event is possible when its turn comes *)
Inductive execution : sys -> list event -> sys -> Prop :=
  | exec_nil s : execution s [] s
  | exec_cons s e s1 es s2 : enabled e s -> step e s = Some s1 -> execution s1 es s2 -> execution s (e :: es) s2.

Lemma rcu_execution_inv s es s' : inv s -> execution s es s' -> inv s'.
Proof. intros H Hex. induction Hex as [|s e s1 es s2 He Hs _ IH]; [done|]. apply IH. destruct (rcu_step_inv s e H He) as (s1' & Hs' & Hi). congruence. Qed.

Lemma execution_app s es1 es2 s2 : execution s (es1 ++ es2) s2 -> exists s1, execution s es1 s1 /\ execution s1 es2 s2.
Proof.
  revert s. induction es1 as [|e es1 IH]; intros s H; [exists s; split; [constructor|done]|]. cbn in H. inversion_clear H. destruct (IH _ H2) as (s3 & H3 & H4).
  exists s3. split; [by econstructor|done].
Qed.

(** ** Every callback is made *)

(** The calls made since there were [k] *)
Definition called (k : nat) (x : RCU_Head) (s : sys) : Prop := x ∈ (drop k (calls s)).*1.
Definition steps_of (c : nat) (es : list event) : nat := length (filter (fun e => e = Step c) es).

(** What others can change of a processor *)
Definition frame (p p' : proc) : Prop :=
  p_phase p' = p_phase p /\ current_callbacks (p_cpu p') = current_callbacks (p_cpu p) /\ cpu_generation (p_cpu p') = cpu_generation (p_cpu p)
  /\ next_callbacks (p_cpu p) ⊆ next_callbacks (p_cpu p').

(** What a processor does in its own step *)
Definition own_step (s s' : sys) (p p' : proc) : Prop :=
  match p_phase p with
  | Outside => p_phase p' = Silenced /\ p_cpu p' = p_cpu p
  | Silenced => p_phase p' = HasRun /\ next_callbacks (p_cpu p) ⊆ next_callbacks (p_cpu p') /\ cpu_generation (p_cpu p') = cpu_generation (p_cpu p)
      /\ (current_callbacks (p_cpu p') = current_callbacks (p_cpu p)
          \/ current_callbacks (p_cpu p') = [] /\ forall x, x ∈ current_callbacks (p_cpu p) -> called (length (calls s)) x s')
      /\ (cpu_generation (p_cpu p) < generation (parent s) -> current_callbacks (p_cpu p') = [])
  | HasRun => p_phase p' = Outside
      /\ (current_callbacks (p_cpu p) = [] -> next_callbacks (p_cpu p) ⊆ current_callbacks (p_cpu p'))
      /\ (current_callbacks (p_cpu p) <> [] -> p_cpu p' = p_cpu p)
  end.

Lemma step_calls s e s' : step e s = Some s' -> exists m, calls s' = calls s ++ m.
Proof.
  intros H. destruct e as [c x|c]; cbn in H; apply bind_Some in H as (p & _ & H); destruct (p_phase p); simplify_eq; cbn; try (exists []; by rewrite app_nil_r).
  - destruct (quiet_run _ _) as [made cpu]. injection H as <-. by exists made.
  - apply bind_Some in H as ([r cpu] & _ & [= <-]). exists []. by rewrite app_nil_r.
Qed.

Lemma called_step k x s e s' : step e s = Some s' -> called k x s -> called k x s'.
Proof. intros [m E]%step_calls. unfold called. rewrite E, !list_elem_of_fmap. intros (y & -> & Hy). exists y. split; [done|]. rewrite drop_app. set_solver. Qed.

Lemma called_exec k x s es s' : execution s es s' -> called k x s -> called k x s'.
Proof. intros H. induction H; [done|]. eauto using called_step. Qed.

Lemma called_weaken k k' x s : (k <= k')%nat -> called k' x s -> called k x s.
Proof. unfold called. rewrite !list_elem_of_fmap. intros Hk (y & -> & Hy). exists y. split; [done|]. replace k' with (k + (k' - k))%nat in Hy by lia. rewrite <- drop_drop in Hy. by eapply subseteq_drop. Qed.

Lemma length_calls s es s' : execution s es s' -> (length (calls s) <= length (calls s'))%nat.
Proof. intros H. induction H as [|s e s1 es s2 _ Hs _ IH]; [done|]. apply step_calls in Hs as [m E]. rewrite E, length_app in IH. lia. Qed.

Lemma frame_refl p : frame p p.
Proof. by split_and!. Qed.
Lemma frame_trans p1 p2 p3 : frame p1 p2 -> frame p2 p3 -> frame p1 p3.
Proof. intros (? & ? & ? & ?) (? & ? & ? & ?). split_and!; [congruence..|set_solver]. Qed.

Lemma other_step s e s' c p : step e s = Some s' -> e <> Step c -> procs s !! c = Some p -> exists p', procs s' !! c = Some p' /\ frame p p'.
Proof.
  intros H Hne Ep. assert (Hin : forall d q cpu ph, d <> c -> procs s !! d = Some q -> <[d := Proc cpu ph]> (procs s) !! c = Some p) by (intros; by rewrite list_lookup_insert_ne).
  destruct e as [d x|d]; cbn in H; apply bind_Some in H as (q & Eq & H).
  - destruct (p_phase q) eqn:Eph; simplify_eq. cbn. destruct (decide (d = c)) as [->|Hd]; [|exists p; split; [by eapply Hin|apply frame_refl]].
    simplify_eq. rewrite list_lookup_insert_eq by (by eapply lookup_lt_Some). eexists. split; [done|]. split_and!; [by rewrite Eph|done|done|]. cbn. set_solver.
  - assert (Hd : d <> c) by (by intros ->). exists p. split; [|apply frame_refl]. destruct (p_phase q); simplify_eq; cbn.
    + by eapply Hin.
    + destruct (quiet_run _ _) as [made cpu]. injection H as <-. by eapply Hin.
    + apply bind_Some in H as ([r cpu] & _ & [= <-]). by eapply Hin.
Qed.

Lemma step_own s c s' p : inv s -> step (Step c) s = Some s' -> procs s !! c = Some p -> exists p', procs s' !! c = Some p' /\ own_step s s' p p'.
Proof.
  intros Hi H Ep. assert (Hc : (c < length (procs s))%nat) by (by eapply lookup_lt_Some). cbn in H. rewrite Ep in H. cbn in H. unfold own_step. destruct (p_phase p); simplify_eq; cbn.
  - rewrite list_lookup_insert_eq by done. by eexists.
  - pose proof (quiet_run_spec (parent s) (p_cpu p)) as Hr. destruct (quiet_run _ _) as [made cpu]. injection H as <-. destruct Hr as (Hcase & Hg & Hn). cbn. rewrite list_lookup_insert_eq by done.
    eexists. split; [done|]. cbn. split_and!; [done|rewrite Hn; set_solver|done| |].
    + destruct Hcase as [(_ & Hm & ->)|(_ & _ & ->)]; [right|by left]. split; [done|]. intros x Hx. unfold called. cbn. by rewrite drop_app_length, Hm.
    + intros Hlt. destruct Hcase as [(_ & _ & ->)|(? & _)]; [done|lia].
  - destruct (quiet_adopt_spec (parent s) (p_cpu p) (inv_mask s Hi)) as (r & cpu & Er & _ & Hcase); [apply inv_high, Hi|]. rewrite Er in H. cbn in H. injection H as <-. cbn. rewrite list_lookup_insert_eq by done.
    eexists. split; [done|]. cbn. split; [done|]. destruct Hcase as [([Hne|Hn] & _ & ->)|(H1 & _ & H3 & _)].
    + by split.
    + split; [|done]. intros _. rewrite Hn. set_solver.
    + split; [|done]. intros _. by rewrite H3.
Qed.

(** Up to its next step, a processor is only pushed to *)
Lemma next_step s es s' c p : execution s es s' -> (0 < steps_of c es)%nat -> procs s !! c = Some p ->
  exists s1 s2 es2 p1, procs s1 !! c = Some p1 /\ frame p p1 /\ step (Step c) s1 = Some s2 /\ execution s2 es2 s' /\ steps_of c es = S (steps_of c es2)
    /\ (exists es1, execution s es1 s1).
Proof.
  intros H. revert p. induction H as [s|s e s1 es s2 He Hs Hex IH]; intros p Hc Ep; [by cbn in Hc; lia|]. unfold steps_of in Hc |- *. rewrite filter_cons in Hc |- *. case_decide as Hd.
  - subst e. exists s, s1, es, p. refine (conj Ep (conj (frame_refl p) (conj Hs (conj Hex (conj eq_refl _))))). exists []. constructor.
  - destruct (other_step _ _ _ _ _ Hs Hd Ep) as (p1 & Ep1 & Hf). destruct (IH p1 Hc Ep1) as (t1 & t2 & es2 & p2 & E2 & Hf2 & Hst & Hex2 & Hn & [es1 Hex1]).
    exists t1, t2, es2, p2. refine (conj E2 (conj (frame_trans _ _ _ Hf Hf2) (conj Hst (conj Hex2 (conj Hn _))))). exists (e :: es1). by econstructor.
Qed.

Lemma generation_step s e s' : inv s -> enabled e s -> step e s = Some s' -> generation (parent s) <= generation (parent s').
Proof.
  intros Hi He H. destruct e as [c x|c]; cbn in H; apply bind_Some in H as (p & Ep & H); destruct (p_phase p); simplify_eq; cbn; try lia.
  - destruct (quiet_silence_spec (parent s) c (inv_mask s Hi) He) as [_ Hcase]; [intros Hb; by destruct (proj2 (inv_high s Hi) c He Hb) as [[_ ?] _]|].
    destruct Hcase as [[_ ->]|[(_ & -> & _)|(_ & _ & -> & _)]]; lia.
  - destruct (quiet_run _ _). injection H as <-. cbn. lia.
  - destruct (quiet_adopt_spec (parent s) (p_cpu p) (inv_mask s Hi)) as (r & cpu & Er & _ & Hcase); [apply inv_high, Hi|]. rewrite Er in H. cbn in H. injection H as <-. cbn.
    destruct Hcase as [(_ & -> & _)|(_ & _ & _ & _ & _ & [(_ & _ & -> & _)|(_ & _ & -> & _)])]; lia.
Qed.

Lemma generation_exec s es s' : inv s -> execution s es s' -> generation (parent s) <= generation (parent s').
Proof.
  intros Hi H. induction H as [|s e s1 es s2 He Hs _ IH]; [lia|]. pose proof (generation_step s e s1 Hi He Hs). destruct (rcu_step_inv s e Hi He) as (s1' & Hs' & Hi'). simplify_eq. specialize (IH Hi'). lia.
Qed.

(** While there is a generation, a step either leaves it and sets no bit, or completes it *)
Lemma active_step s e s' : inv s -> active s -> enabled e s -> step e s = Some s' -> active s' /\
  (generation (parent s') = generation (parent s)
     /\ (forall d, (d < number_of_cpus)%nat -> bit (bitmask (parent s')) d = true -> bit (bitmask (parent s)) d = true)
     /\ (forall d p, e = Step d -> procs s !! d = Some p -> p_phase p = Outside -> bit (bitmask (parent s')) d = false)
   \/ generation (parent s) + 2 <= generation (parent s')).
Proof.
  intros Hi Ha He H. pose proof (generation_step s e s' Hi He H) as Hg. destruct (rcu_step_inv s e Hi He) as (s'' & Hs & Hi'). rewrite H in Hs. injection Hs as <-. split.
  { destruct (inv_active s' Hi') as [(H0 & _)|?]; [|done]. destruct Ha as ((? & _) & _). lia. }
  destruct e as [c x|c]; cbn in H; apply bind_Some in H as (p & Ep & H); destruct (p_phase p) eqn:Eph; simplify_eq; cbn in *.
  - left. by split_and!.
  - destruct (quiet_silence_spec (parent s) c (inv_mask s Hi) He) as [_ Hcase]; [intros Hb; by destruct Ha as [[_ ?] _]|].
    destruct Hcase as [[Hb ->]|[(Hb & -> & _ & Hb' & _)|(_ & _ & -> & _)]]; [left..|right; lia].
    + split_and!; [done..|]. by intros d p' [= ->] _ _.
    + split_and!; [done|intros d _; rewrite Hb'; by intros [? _]%andb_prop|]. intros d p' [= ->] _ _. by rewrite Hb', bool_decide_true, andb_false_r.
  - destruct (quiet_run _ _). injection H as <-. left. split_and!; [done..|]. intros d p' [= ->] Ep' Eph'. cbn in *. congruence.
  - destruct (quiet_adopt_spec (parent s) (p_cpu p) (inv_mask s Hi)) as (r & cpu & Er & _ & Hcase); [apply inv_high, Hi|]. rewrite Er in H. cbn in H. injection H as <-. cbn. left.
    assert (Hne : forall d p', Step c = Step d -> procs s !! d = Some p' -> p_phase p' = Outside -> bit (bitmask r) d = false) by (intros d p' [= ->] Ep' Eph'; congruence).
    destruct Hcase as [(_ & -> & _)|(_ & _ & _ & _ & _ & [(_ & Hb & -> & _)|(Hb & _)])]; [done|rewrite Hb in *; done|].
    exfalso. destruct Ha as (_ & _ & d & Hd & Hd'). by rewrite Hb in Hd'.
Qed.

Definition rank (ph : phase) : nat := match ph with Outside => 0 | Silenced => 2 | HasRun => 1 end.

Lemma bits_exec s es s' : inv s -> active s -> execution s es s' ->
  generation (parent s) + 2 <= generation (parent s')
  \/ generation (parent s') = generation (parent s) /\ active s' /\
     forall d p, (d < number_of_cpus)%nat -> procs s !! d = Some p -> bit (bitmask (parent s')) d = true -> bit (bitmask (parent s)) d = true /\ (steps_of d es <= rank (p_phase p))%nat.
Proof.
  intros Hi Ha H. induction H as [s|s e s1 es s2 He Hs Hex IH]; [right; split_and!; try done; intros; split; [done|cbn; lia]|].
  destruct (active_step s e s1 Hi Ha He Hs) as [Ha1 Hcase]. destruct (rcu_step_inv s e Hi He) as (s1' & Hs1 & Hi1). rewrite Hs in Hs1. injection Hs1 as <-. pose proof (generation_exec s1 es s2 Hi1 Hex) as Hg.
  destruct Hcase as [(Hg1 & Hb1 & Hq1)|Hg1]; [|left; lia]. rewrite <- Hg1. destruct (IH Hi1 Ha1) as [?|(Hg2 & Ha2 & Hb2)]; [left; lia|]. right. split_and!; [lia|done|].
  intros d p Hd Ep Hbit. unfold steps_of. rewrite filter_cons. case_decide as He'.
  - subst e. destruct (step_own s d s1 p Hi Hs Ep) as (p1 & Ep1 & Ho). destruct (Hb2 d p1 Hd Ep1 Hbit) as [Hbit1 Hn]. split; [by apply Hb1|]. cbn [length]. fold (steps_of d es). unfold own_step in Ho.
    destruct (p_phase p) eqn:Eph; [rewrite (Hq1 d p) in Hbit1; done|destruct Ho as [Ho _]; rewrite Ho in Hn; cbn in *; lia..].
  - destruct (other_step s e s1 d p Hs He' Ep) as (p1 & Ep1 & Hf & _). destruct (Hb2 d p1 Hd Ep1 Hbit) as [Hbit1 Hn]. rewrite Hf in Hn. split; [by apply Hb1|done].
Qed.

(** A round, in which every processor goes through [quiet] *)
Definition round (es : list event) : Prop := forall c, (c < number_of_cpus)%nat -> (5 <= steps_of c es)%nat.

Lemma round_advances s es s' : inv s -> active s -> execution s es s' -> round es -> generation (parent s) + 2 <= generation (parent s').
Proof.
  intros Hi Ha H Hr. destruct (bits_exec s es s' Hi Ha H) as [?|(_ & (_ & _ & d & Hd & Hb) & Hbits)]; [done|]. exfalso.
  destruct (lookup_lt_is_Some_2 (procs s) d) as [p Ep]; [by rewrite (inv_procs s Hi)|]. destruct (Hbits d p Hd Ep Hb) as [_ Hn]. pose proof (Hr d Hd). destruct (p_phase p); cbn in Hn; lia.
Qed.

Lemma advance s es s' c p : inv s -> execution s es s' -> (0 < steps_of c es)%nat -> procs s !! c = Some p ->
  exists s1 s2 es2 p1 p2, frame p p1 /\ own_step s1 s2 p1 p2 /\ procs s2 !! c = Some p2 /\ inv s2 /\ execution s2 es2 s' /\ steps_of c es = S (steps_of c es2)
    /\ (length (calls s) <= length (calls s1) <= length (calls s2))%nat /\ generation (parent s) <= generation (parent s1) <= generation (parent s2).
Proof.
  intros Hi H Hn Ep. destruct (next_step s es s' c p H Hn Ep) as (s1 & s2 & es2 & p1 & Ep1 & Hf & Hs & Hex & Hc & es1 & Hex1).
  pose proof (rcu_execution_inv s es1 s1 Hi Hex1) as Hi1. assert (He : enabled (Step c) s1) by (cbn; rewrite <- (inv_procs s1 Hi1); by eapply lookup_lt_Some).
  destruct (step_own s1 c s2 p1 Hi1 Hs Ep1) as (p2 & Ep2 & Ho). destruct (rcu_step_inv s1 (Step c) Hi1 He) as (s2' & Hs' & Hi2). rewrite Hs in Hs'. injection Hs' as <-.
  assert (H12 : execution s1 [Step c] s2) by (econstructor; [done..|constructor]).
  exists s1, s2, es2, p1, p2. refine (conj Hf (conj Ho (conj Ep2 (conj Hi2 (conj Hex (conj Hc _)))))).
  split; split; eauto using length_calls, generation_exec.
Qed.

Definition before_run (ph : phase) : nat := match ph with Silenced => 1 | Outside => 2 | HasRun => 3 end.

(** A batch whose generation has passed is run when its processor is next quiet *)
Lemma run_current k s es s' c p x : inv s -> execution s es s' -> procs s !! c = Some p -> (before_run (p_phase p) <= k)%nat -> (k <= steps_of c es)%nat ->
  x ∈ current_callbacks (p_cpu p) -> cpu_generation (p_cpu p) < generation (parent s) -> called (length (calls s)) x s'.
Proof.
  revert s es p. induction k as [|k IH]; intros s es p Hi H Ep Hk Hn Hx Hg; [destruct (p_phase p); cbn in Hk; lia|].
  destruct (advance s es s' c p Hi H ltac:(lia) Ep) as (s1 & s2 & es2 & p1 & p2 & (F1 & F2 & F3 & F4) & Ho & Ep2 & Hi2 & Hex & Hc & Hl & Hgen). unfold own_step in Ho. rewrite F1, F2, F3 in Ho.
  destruct (p_phase p) eqn:Eph; cbn in Hk.
  - destruct Ho as [Hp Hcpu]. apply (called_weaken _ (length (calls s2))); [lia|]. apply (IH s2 es2 p2 Hi2 Hex Ep2); rewrite ?Hp, ?Hcpu, ?F2, ?F3; cbn; try lia; done.
  - destruct Ho as (_ & _ & _ & Hcur & Hlt). apply (called_exec _ _ _ _ _ Hex), (called_weaken _ (length (calls s1))); [lia|]. destruct Hcur as [Hcur|[_ Hcall]]; [|by apply Hcall].
    rewrite Hlt in Hcur by lia. rewrite <- Hcur in Hx. by apply elem_of_nil in Hx.
  - destruct Ho as (Hp & _ & Hcpu). assert (Hne : current_callbacks (p_cpu p) <> []) by (intros E; rewrite E in Hx; by apply elem_of_nil in Hx). specialize (Hcpu Hne).
    apply (called_weaken _ (length (calls s2))); [lia|]. apply (IH s2 es2 p2 Hi2 Hex Ep2); rewrite ?Hp, ?Hcpu, ?F2, ?F3; cbn; try lia; done.
Qed.

(** A batch stays until it is run *)
Lemma current_stays s es s' c p x : inv s -> execution s es s' -> procs s !! c = Some p -> x ∈ current_callbacks (p_cpu p) ->
  called (length (calls s)) x s' \/ exists p', procs s' !! c = Some p' /\ x ∈ current_callbacks (p_cpu p') /\ cpu_generation (p_cpu p') = cpu_generation (p_cpu p).
Proof.
  intros Hi H. revert p. induction H as [s|s e s1 es s2 He Hs Hex IH]; intros p Ep Hx; [right; by exists p|]. destruct (rcu_step_inv s e Hi He) as (s1' & Hs1 & Hi1). rewrite Hs in Hs1. injection Hs1 as <-.
  assert (Hl : (length (calls s) <= length (calls s1))%nat) by (destruct (step_calls _ _ _ Hs) as [m ->]; rewrite length_app; lia).
  assert (Hgo : forall p1, procs s1 !! c = Some p1 -> x ∈ current_callbacks (p_cpu p1) -> cpu_generation (p_cpu p1) = cpu_generation (p_cpu p) ->
     called (length (calls s)) x s2 \/ exists p', procs s2 !! c = Some p' /\ x ∈ current_callbacks (p_cpu p') /\ cpu_generation (p_cpu p') = cpu_generation (p_cpu p)).
  { intros p1 Ep1 Hx1 Hg. destruct (IH Hi1 p1 Ep1 Hx1) as [Hc|(p' & Ep' & Hx' & Hg')]; [left; by eapply called_weaken|right]. exists p'. split_and!; [done..|congruence]. }
  destruct (decide (e = Step c)) as [->|Hne].
  - destruct (step_own s c s1 p Hi Hs Ep) as (p1 & Ep1 & Ho). unfold own_step in Ho. destruct (p_phase p).
    + destruct Ho as [_ Hcpu]. apply (Hgo p1 Ep1); by rewrite Hcpu.
    + destruct Ho as (_ & _ & Hg & [Hcur|[_ Hcall]] & _); [apply (Hgo p1 Ep1); [by rewrite Hcur|done]|]. left. eapply called_exec; [done|]. by apply Hcall.
    + destruct Ho as (_ & _ & Hcpu). assert (Hne : current_callbacks (p_cpu p) <> []) by (intros E; rewrite E in Hx; by apply elem_of_nil in Hx). specialize (Hcpu Hne). apply (Hgo p1 Ep1); by rewrite Hcpu.
  - destruct (other_step s e s1 c p Hs Hne Ep) as (p1 & Ep1 & F1 & F2 & F3 & F4). apply (Hgo p1 Ep1); [by rewrite F2|done].
Qed.

Definition before_adopt (p : proc) : nat :=
  match p_phase p, current_callbacks (p_cpu p) with HasRun, [] => 1 | Silenced, _ => 2 | Outside, _ => 3 | HasRun, _ => 4 end.

Definition run_or_current (k : nat) (c : nat) (x : RCU_Head) (s : sys) : Prop := called k x s \/ exists p, procs s !! c = Some p /\ x ∈ current_callbacks (p_cpu p).

Lemma current_kept k s es s' c x : inv s -> execution s es s' -> (k <= length (calls s))%nat -> run_or_current k c x s -> run_or_current k c x s'.
Proof.
  intros Hi H Hk [Hc|(p & Ep & Hx)]; [left; by eapply called_exec|]. destruct (current_stays s es s' c p x Hi H Ep Hx) as [?|(p' & ? & ? & _)]; [left; by eapply called_weaken|right; by exists p'].
Qed.

(** The callbacks pushed to a processor without a batch, or with one whose generation has passed, become its batch *)
Lemma adopt_next k s es s' c p x : inv s -> execution s es s' -> procs s !! c = Some p -> (before_adopt p <= k)%nat -> (k <= steps_of c es)%nat ->
  x ∈ next_callbacks (p_cpu p) -> current_callbacks (p_cpu p) = [] \/ cpu_generation (p_cpu p) < generation (parent s) -> run_or_current (length (calls s)) c x s'.
Proof.
  revert s es p. induction k as [|k IH]; intros s es p Hi H Ep Hk Hn Hx Hg; [unfold before_adopt in Hk; destruct (p_phase p), (current_callbacks (p_cpu p)); lia|].
  destruct (advance s es s' c p Hi H ltac:(lia) Ep) as (s1 & s2 & es2 & p1 & p2 & (F1 & F2 & F3 & F4) & Ho & Ep2 & Hi2 & Hex & Hc & Hl & Hgen). unfold own_step in Ho. rewrite F1, F2, F3 in Ho. apply F4 in Hx.
  assert (Hgo : (before_adopt p2 <= k)%nat -> x ∈ next_callbacks (p_cpu p2) -> current_callbacks (p_cpu p2) = [] \/ cpu_generation (p_cpu p2) < generation (parent s2) -> run_or_current (length (calls s)) c x s').
  { intros H1 H2 H3. destruct (IH s2 es2 p2 Hi2 Hex Ep2 H1 ltac:(lia) H2 H3) as [?|?]; [left; eapply called_weaken; [|done]; lia|by right]. }
  unfold before_adopt in Hk, Hgo. destruct (p_phase p) eqn:Eph.
  - destruct Ho as [Hp Hcpu]. rewrite Hp, Hcpu, F2, F3 in Hgo. apply Hgo; [lia|done|]. destruct Hg; [by left|right; lia].
  - destruct Ho as (Hp & Hsub & Hg2 & Hcur & Hlt). assert (Hempty : current_callbacks (p_cpu p2) = []) by (destruct Hg as [Hg|Hg]; [destruct Hcur as [-> |[? _]]; done|apply Hlt; lia]).
    rewrite Hp, Hempty in Hgo. apply Hgo; [lia|by apply Hsub|by left].
  - destruct Ho as (Hp & Had & Hcpu). destruct (current_callbacks (p_cpu p)) as [|y l] eqn:Ecur.
    + apply (current_kept _ s2 es2); [done..|lia|]. right. exists p2. split; [done|]. by apply Had.
    + rewrite Hp, (Hcpu ltac:(done)), F3 in Hgo. apply Hgo; [lia|done|]. right. destruct Hg; [done|lia].
Qed.

(** Until then they stay, and so does the batch before them *)
Lemma next_stays s es s' c p x : inv s -> execution s es s' -> procs s !! c = Some p -> x ∈ next_callbacks (p_cpu p) ->
  run_or_current (length (calls s)) c x s' \/ exists p', procs s' !! c = Some p' /\ x ∈ next_callbacks (p_cpu p')
    /\ (current_callbacks (p_cpu p') = [] \/ current_callbacks (p_cpu p) <> [] /\ cpu_generation (p_cpu p') = cpu_generation (p_cpu p)).
Proof.
  intros Hi H. revert p. induction H as [s|s e s1 es s2 He Hs Hex IH]; intros p Ep Hx.
  { right. exists p. split_and!; [done..|]. destruct (current_callbacks (p_cpu p)); [by left|by right]. }
  destruct (rcu_step_inv s e Hi He) as (s1' & Hs1 & Hi1). rewrite Hs in Hs1. injection Hs1 as <-.
  assert (Hl : (length (calls s) <= length (calls s1))%nat) by (destruct (step_calls _ _ _ Hs) as [m ->]; rewrite length_app; lia).
  assert (Hgo : forall p1, procs s1 !! c = Some p1 -> x ∈ next_callbacks (p_cpu p1) -> current_callbacks (p_cpu p1) = [] \/ current_callbacks (p_cpu p1) = current_callbacks (p_cpu p) /\ cpu_generation (p_cpu p1) = cpu_generation (p_cpu p) ->
     run_or_current (length (calls s)) c x s2 \/ exists p', procs s2 !! c = Some p' /\ x ∈ next_callbacks (p_cpu p')
    /\ (current_callbacks (p_cpu p') = [] \/ current_callbacks (p_cpu p) <> [] /\ cpu_generation (p_cpu p') = cpu_generation (p_cpu p))).
  { intros p1 Ep1 Hx1 Hcur. destruct (IH Hi1 p1 Ep1 Hx1) as [[Hc|Hc]|(p' & Ep' & Hx' & Hc')]; [left; left; by eapply called_weaken|left; by right|right]. exists p'. split_and!; [done..|].
    destruct Hc' as [?|[Hne Hg']]; [by left|]. destruct Hcur as [?|[E Hg]]; [done|]. right. rewrite <- E. split; [done|congruence]. }
  destruct (decide (e = Step c)) as [->|Hne].
  - destruct (step_own s c s1 p Hi Hs Ep) as (p1 & Ep1 & Ho). unfold own_step in Ho. destruct (p_phase p).
    + destruct Ho as [_ Hcpu]. apply (Hgo p1 Ep1); rewrite Hcpu; [done|by right].
    + destruct Ho as (_ & Hsub & Hg & Hcur & _). apply (Hgo p1 Ep1); [by apply Hsub|]. destruct Hcur as [?|[? _]]; [by right|by left].
    + destruct Ho as (_ & Had & Hcpu). destruct (current_callbacks (p_cpu p)) eqn:Ecur; [|apply (Hgo p1 Ep1); rewrite Hcpu by done; [done|right; by rewrite Ecur]].
      left. apply (current_kept _ s1 es); [done..|]. right. exists p1. split; [done|]. by apply Had.
  - destruct (other_step s e s1 c p Hs Hne Ep) as (p1 & Ep1 & F1 & F2 & F3 & F4). apply (Hgo p1 Ep1); [by apply F4|by right].
Qed.

Lemma batch_runs s es1 es2 s' c p x : inv s -> execution s (es1 ++ es2) s' -> round es1 -> round es2 -> procs s !! c = Some p -> x ∈ current_callbacks (p_cpu p) ->
  called (length (calls s)) x s'.
Proof.
  intros Hi H Hr1 Hr2 Ep Hx. apply execution_app in H as (s1 & H1 & H2). pose proof (rcu_execution_inv s es1 s1 Hi H1) as Hi1. assert (Hc : (c < number_of_cpus)%nat) by (rewrite <- (inv_procs s Hi); by eapply lookup_lt_Some).
  assert (Hne : current_callbacks (p_cpu p) <> []) by (intros E; rewrite E in Hx; by apply elem_of_nil in Hx).
  assert (Ha : active s) by (destruct (inv_active s Hi) as [(_ & _ & _ & Hcur)|?]; [by rewrite (Hcur c p Ep) in Hne|done]).
  destruct (current_stays s es1 s1 c p x Hi H1 Ep Hx) as [Hcall|(p1 & Ep1 & Hx1 & Hg)]; [by eapply called_exec|].
  apply (called_weaken _ (length (calls s1))); [by eapply length_calls|]. pose proof (Hr2 c Hc).
  apply (run_current 3 s1 es2 s' c p1 x Hi1 H2 Ep1); [destruct (p_phase p1); cbn; lia|lia|done|]. pose proof (round_advances s es1 s1 Hi Ha H1 Hr1). pose proof (inv_generation s Hi c p Ep Hne). lia.
Qed.

Lemma pushed_become_batch s es1 es2 s' c p x : inv s -> execution s (es1 ++ es2) s' -> round es1 -> round es2 -> procs s !! c = Some p -> x ∈ next_callbacks (p_cpu p) ->
  run_or_current (length (calls s)) c x s'.
Proof.
  intros Hi H Hr1 Hr2 Ep Hx. apply execution_app in H as (s1 & H1 & H2). pose proof (rcu_execution_inv s es1 s1 Hi H1) as Hi1. assert (Hc : (c < number_of_cpus)%nat) by (rewrite <- (inv_procs s Hi); by eapply lookup_lt_Some).
  pose proof (length_calls s es1 s1 H1). destruct (next_stays s es1 s1 c p x Hi H1 Ep Hx) as [Hd|(p1 & Ep1 & Hx1 & Hcur)]; [by eapply current_kept|].
  assert (Hgo : run_or_current (length (calls s1)) c x s'); [|destruct Hgo as [?|?]; [left; by eapply called_weaken|by right]].
  pose proof (Hr2 c Hc). apply (adopt_next 4 s1 es2 s' c p1 x Hi1 H2 Ep1); [unfold before_adopt; destruct (p_phase p1), (current_callbacks (p_cpu p1)); lia|lia|done|].
  destruct Hcur as [?|[Hne Hg]]; [by left|]. right. assert (Ha : active s) by (destruct (inv_active s Hi) as [(_ & _ & _ & Hcur)|?]; [by rewrite (Hcur c p Ep) in Hne|done]).
  pose proof (round_advances s es1 s1 Hi Ha H1 Hr1). pose proof (inv_generation s Hi c p Ep Hne). lia.
Qed.

(** C15. Every callback runs: when processors keep being quiet, all callbacks that are waiting
    at some time have been made after four rounds in which every processor goes through [quiet],
    in whatever order the steps of the processors are interleaved and whatever else is pushed
    meanwhile, by processors or by callbacks. *)
Theorem callbacks_run es s es1 es2 es3 es4 s' :
  execution init es s -> round es1 -> round es2 -> round es3 -> round es4 -> execution s ((es1 ++ es2) ++ (es3 ++ es4)) s' ->
  forall x, x ∈ pending (procs s) -> x ∈ (drop (length (calls s)) (calls s')).*1.
Proof.
  intros H0 Hr1 Hr2 Hr3 Hr4 H x Hx. pose proof (rcu_execution_inv _ _ _ rcu_init_inv H0) as Hi. apply execution_app in H as (s1 & H1 & H2). pose proof (rcu_execution_inv s _ s1 Hi H1) as Hi1.
  pose proof (length_calls _ _ _ H1). apply list_elem_of_bind in Hx as (p & Hx & [c Ep]%list_elem_of_lookup). assert (Hd : run_or_current (length (calls s)) c x s1).
  { apply elem_of_app in Hx as [Hx|Hx]; [left; by eapply batch_runs|by eapply pushed_become_batch]. }
  destruct Hd as [Hcall|(p1 & Ep1 & Hx1)]; [by eapply called_exec|]. eapply called_weaken; [|by eapply batch_runs]. done.
Qed.

(** No callback is lost or made twice: in every state that processors can reach, whatever
    they push and however the steps of [quiet] are interleaved, the callbacks pushed so far are,
    as a multiset, those already made and those in the lists of the processors; and the next
    step of any processor is possible, that is, the assertion of [quiet] holds. *)
Theorem callbacks_conserved es s :
  execution init es s -> pushed s ≡ₚ (calls s).*1 ++ pending (procs s) /\ forall c, (c < number_of_cpus)%nat -> exists s', step (Step c) s = Some s'.
Proof.
  intros H. pose proof (rcu_execution_inv _ _ _ rcu_init_inv H) as Hi. split; [apply (inv_conserved s Hi)|]. intros c Hc. destruct (rcu_step_inv s (Step c) Hi Hc) as (s' & Hs & _). by exists s'.
Qed.

(** ** Grace periods *)

(** The processor enters [quiet] in this event *)
Definition enters (d : nat) (e : event) (s : sys) : Prop := e = Step d /\ exists p, procs s !! d = Some p /\ p_phase p = Outside.

(** The processor has entered [quiet] in this execution *)
Inductive quiet_since (d : nat) : sys -> list event -> Prop :=
  | quiet_now s e es : enters d e s -> quiet_since d s (e :: es)
  | quiet_later s e s1 es : step e s = Some s1 -> quiet_since d s1 es -> quiet_since d s (e :: es).

(** Until a processor is quiet, its bit stays and keeps the generation from ending *)
Lemma bit_waits s e s' d : inv s -> enabled e s -> step e s = Some s' -> (d < number_of_cpus)%nat ->
  enters d e s \/ ((bit (bitmask (parent s)) d = true -> bit (bitmask (parent s')) d = true /\ generation (parent s') = generation (parent s))
    /\ forall c, (c < number_of_cpus)%nat -> bit (bitmask (parent s)) c = false -> bit (bitmask (parent s')) c = false \/ bit (bitmask (parent s')) d = true).
Proof.
  intros Hi He H Hd. destruct e as [c x|c]; cbn in H; apply bind_Some in H as (p & Ep & H); destruct (p_phase p) eqn:Eph; simplify_eq; cbn [parent].
  - right. split; [done|]. by left.
  - destruct (decide (c = d)) as [->|Hne]; [left; split; [done|by exists p]|right]. destruct (quiet_silence_spec (parent s) c (inv_mask s Hi) He) as [_ Hcase]; [intros Hb; by destruct (proj2 (inv_high s Hi) c He Hb) as [[_ ?] _]|].
    destruct Hcase as [[_ ->]|[(_ & Hg & _ & Hb & _)|(_ & Hb & _ & _ & Hb')]].
    + split; [done|by left].
    + split; [intros Hbd; split; [by rewrite Hb, Hbd, bool_decide_false|done]|]. intros c' _ Hc'. left. by rewrite Hb, Hc'.
    + split; [intros Hbd; by rewrite (Hb d) in Hbd|]. intros. right. by apply Hb'.
  - right. destruct (quiet_run _ _). injection H as <-. cbn. split; [done|by left].
  - right. destruct (quiet_adopt_spec (parent s) (p_cpu p) (inv_mask s Hi)) as (r & cpu & Er & _ & Hcase); [apply inv_high, Hi|]. rewrite Er in H. cbn in H. injection H as <-. cbn.
    destruct Hcase as [(_ & -> & _)|(_ & _ & _ & _ & _ & [(_ & -> & -> & _)|(Hb & Hb' & _)])]; [split; [done|by left]..|].
    split; [intros Hbd; by rewrite Hb in Hbd|]. intros. right. by apply Hb'.
Qed.

(** Where a callback pushed by [c] is, and what [d] has done for it ([q]: been quiet) *)
Definition tracked (c d : nat) (x : RCU_Head) (q : Prop) (s : sys) : Prop :=
  (x ∈ (calls s).*1 -> q)
  /\ (forall c' p, procs s !! c' = Some p -> c' <> c -> x ∉ waiting p)
  /\ forall p, procs s !! c = Some p ->
       (x ∈ next_callbacks (p_cpu p) -> p_phase p = Outside \/ q \/ (d <> c /\ (bit (bitmask (parent s)) c = false \/ bit (bitmask (parent s)) d = true)))
       /\ (x ∈ current_callbacks (p_cpu p) -> q \/ (d <> c /\ bit (bitmask (parent s)) d = true /\ generation (parent s) <= cpu_generation (p_cpu p))).

Lemma tracked_weaken c d x (q q' : Prop) s : (q -> q') -> tracked c d x q s -> tracked c d x q' s.
Proof. intros Hq (H1 & H2 & H3). split_and!; [auto|done|]. intros p Ep. destruct (H3 p Ep) as [H4 H5]. split; [intros Hx; destruct (H4 Hx) as [?|[?|?]]; auto|intros Hx; destruct (H5 Hx) as [?|?]; auto]. Qed.

Lemma pushes_nothing l : (forall x, pushes x = []) -> l ≫= pushes = [].
Proof. intros H. induction l as [|x l IH]; [done|]. by rewrite bind_cons, H, IH. Qed.

(** The bits after a step still wait for [d], unless it has been quiet *)
Lemma wait_step s e s' c d (q : Prop) g : inv s -> enabled e s -> step e s = Some s' -> (c < number_of_cpus)%nat -> (d < number_of_cpus)%nat ->
  (q \/ (d <> c /\ (bit (bitmask (parent s)) c = false \/ bit (bitmask (parent s)) d = true)) ->
     (q \/ enters d e s) \/ (d <> c /\ (bit (bitmask (parent s')) c = false \/ bit (bitmask (parent s')) d = true)))
  /\ (q \/ (d <> c /\ bit (bitmask (parent s)) d = true /\ generation (parent s) <= g) ->
     (q \/ enters d e s) \/ (d <> c /\ bit (bitmask (parent s')) d = true /\ generation (parent s') <= g)).
Proof.
  intros Hi He Hs Hc Hd. destruct (bit_waits s e s' d Hi He Hs Hd) as [?|[W1 W2]]; [by split; left; right|]. split.
  - intros [?|[Hne [Hb|Hb]]]; [by left; left|..]; right; (split; [done|]); [by apply W2|right; by apply W1].
  - intros [?|(Hne & Hb & Hg)]; [by left; left|]. right. destruct (W1 Hb) as [? ->]. done.
Qed.

Lemma tracked_other s e s' c d x q : inv s -> (c < number_of_cpus)%nat -> (d < number_of_cpus)%nat -> enabled e s -> step e s = Some s' ->
  (forall c', e <> Push c' x) -> e <> Step c -> (forall y, pushes y = []) -> tracked c d x q s -> tracked c d x (q \/ enters d e s) s'.
Proof.
  intros Hi Hc Hd He Hs Hx Hne Hp (T1 & T2 & T3). split_and!.
  - intros H. left. apply T1. destruct e as [b y|b]; cbn in Hs; apply bind_Some in Hs as (p & Ep & Hs); destruct (p_phase p); simplify_eq; try done.
    + pose proof (quiet_run_spec (parent s) (p_cpu p)) as Hr. destruct (quiet_run _ _) as [made cpu]. injection Hs as <-. destruct Hr as (Hcase & _ & _). cbn in H. rewrite fmap_app in H.
      apply elem_of_app in H as [H|H]; [done|]. exfalso. apply (T2 b p Ep); [by intros ->|]. apply elem_of_app. left. destruct Hcase as [(_ & <- & _)|(_ & -> & _)]; [done|by apply elem_of_nil in H].
    + apply bind_Some in Hs as ([r cpu] & _ & [= <-]). done.
  - intros b p' Ep' Hb. destruct (decide (e = Step b)) as [->|Hnb].
    + destruct (lookup_lt_is_Some_2 (procs s) b) as [p Ep]; [by rewrite (inv_procs s Hi)|]. specialize (T2 b p Ep Hb). cbn in Hs. rewrite Ep in Hs. cbn in Hs. unfold waiting in *.
      assert (Hl : (b < length (procs s))%nat) by (by eapply lookup_lt_Some). destruct (p_phase p); simplify_eq.
      * cbn in Ep'. rewrite list_lookup_insert_eq in Ep' by done. by injection Ep' as <-.
      * pose proof (quiet_run_spec (parent s) (p_cpu p)) as Hr. destruct (quiet_run _ _) as [made cpu]. injection Hs as <-. destruct Hr as (Hcase & _ & Hn). cbn in Ep'. rewrite list_lookup_insert_eq in Ep' by done. injection Ep' as <-. cbn.
        rewrite pushes_nothing in Hn by done. rewrite Hn. destruct Hcase as [(_ & _ & ->)|(_ & _ & ->)]; set_solver.
      * destruct (quiet_adopt_spec (parent s) (p_cpu p) (inv_mask s Hi)) as (r & cpu & Er & _ & Hcase); [apply inv_high, Hi|]. rewrite Er in Hs. cbn in Hs. injection Hs as <-. cbn in Ep'. rewrite list_lookup_insert_eq in Ep' by done. injection Ep' as <-. cbn.
        destruct Hcase as [(_ & _ & ->)|(_ & _ & -> & -> & _)]; set_solver.
    + destruct (lookup_lt_is_Some_2 (procs s) b) as [p Ep].
      { apply lookup_lt_Some in Ep'. destruct (rcu_step_inv s e Hi He) as (s'' & Hs'' & Hi'). rewrite Hs in Hs''. injection Hs'' as <-. by rewrite (inv_procs s' Hi'), <- (inv_procs s Hi) in Ep'. }
      specialize (T2 b p Ep Hb). destruct e as [b' y|b']; cbn in Hs; apply bind_Some in Hs as (p0 & Ep0 & Hs).
      * destruct (p_phase p0); simplify_eq. cbn in Ep'. apply list_lookup_insert_Some in Ep' as [(-> & <- & _)|[_ ?]]; [|by simplify_eq]. simplify_eq. unfold waiting in *. cbn. assert (x <> y) by (by intros ->; apply (Hx b)). set_solver.
      * destruct (p_phase p0); simplify_eq; [|destruct (quiet_run _ _); injection Hs as <-|apply bind_Some in Hs as ([r cpu] & _ & [= <-])]; cbn in Ep'; (rewrite list_lookup_insert_ne in Ep' by (by intros ->)); by simplify_eq.
  - intros p' Ep'. destruct (lookup_lt_is_Some_2 (procs s) c) as [p Ep]; [by rewrite (inv_procs s Hi)|]. destruct (T3 p Ep) as [T4 T5]. destruct (other_step s e s' c p Hs Hne Ep) as (p'' & Ep'' & F1 & F2 & F3 & F4). simplify_eq.
    destruct (wait_step s e s' c d q (cpu_generation (p_cpu p)) Hi He Hs Hc Hd) as [W1 W2]. rewrite F1, F2, F3. split; [|intros H; by apply W2, T5].
    intros H. assert (Hxn : x ∈ next_callbacks (p_cpu p)).
    { destruct e as [b y|b]; cbn in Hs; apply bind_Some in Hs as (p0 & Ep0 & Hs).
      - destruct (p_phase p0); simplify_eq. cbn in Ep'. apply list_lookup_insert_Some in Ep' as [(-> & <- & _)|[_ ?]]; [|by simplify_eq]. simplify_eq. cbn in H. apply elem_of_cons in H as [->|H]; [by destruct (Hx c)|done].
      - destruct (p_phase p0); simplify_eq; [|destruct (quiet_run _ _); injection Hs as <-|apply bind_Some in Hs as ([r cpu] & _ & [= <-])]; cbn in Ep'; (rewrite list_lookup_insert_ne in Ep' by (by intros ->)); by simplify_eq. }
    destruct (T4 Hxn) as [?|Hq]; [by left|]. right. by apply W1.
Qed.

Lemma rcu_elsewhere s c p' x (s' : sys) : procs s' = <[c := p']> (procs s) -> (forall b p, procs s !! b = Some p -> b <> c -> x ∉ waiting p) -> forall b p, procs s' !! b = Some p -> b <> c -> x ∉ waiting p.
Proof. intros -> H b p Ep Hb. rewrite list_lookup_insert_ne in Ep by done. by apply (H b). Qed.

Lemma tracked_own s s' c d x q : inv s -> (number_of_cpus <= 2)%nat -> (d < number_of_cpus)%nat -> enabled (Step c) s -> step (Step c) s = Some s' ->
  (forall y, pushes y = []) -> tracked c d x q s -> tracked c d x (q \/ enters d (Step c) s) s'.
Proof.
  intros Hi H2 Hd Hc Hs Hp (T1 & T2 & T3). destruct (lookup_lt_is_Some_2 (procs s) c) as [p Ep]; [by rewrite (inv_procs s Hi)|]. destruct (T3 p Ep) as [T4 T5]. clear T3.
  destruct (wait_step s (Step c) s' c d q (cpu_generation (p_cpu p)) Hi Hc Hs Hc Hd) as [_ W2]. assert (Hl : (c < length (procs s))%nat) by (by eapply lookup_lt_Some).
  cbn in Hs. rewrite Ep in Hs. cbn in Hs. destruct (p_phase p) eqn:Eph.
  - injection Hs as <-. split_and!; [by left; apply T1|by eapply rcu_elsewhere|]. cbn. rewrite list_lookup_insert_eq by done. intros ? [= <-]. cbn. split; [|intros H; by apply W2, T5]. intros _. right.
    destruct (decide (d = c)) as [->|Hne]; [left; right; split; [done|by exists p]|right]. split; [done|].
    destruct (quiet_silence_spec (parent s) c (inv_mask s Hi) Hc) as [_ Hcase]; [intros Hb; by destruct (proj2 (inv_high s Hi) c Hc Hb) as [[_ ?] _]|].
    destruct Hcase as [[Hb ->]|[(_ & _ & _ & Hb & _)|(_ & _ & _ & _ & Hb)]]; [by left|left; by rewrite Hb, bool_decide_true, andb_false_r|right; by apply Hb].
  - pose proof (quiet_run_spec (parent s) (p_cpu p)) as Hr. destruct (quiet_run _ _) as [made cpu]. injection Hs as <-. destruct Hr as (Hcase & Hg & Hn). rewrite pushes_nothing in Hn by done. split_and!; [|by eapply rcu_elsewhere|].
    + cbn. rewrite fmap_app. intros [?|H]%elem_of_app; [by left; apply T1|]. destruct Hcase as [(Hlt & Hm & _)|(_ & -> & _)]; [|by apply elem_of_nil in H]. rewrite Hm in H. left. destruct (T5 H) as [?|(_ & _ & ?)]; [done|lia].
    + cbn. rewrite list_lookup_insert_eq by done. intros ? [= <-]. cbn. split.
      * rewrite Hn. intros H. right. destruct (T4 H) as [?|[?|?]]; [done|by left; left|by right].
      * intros H. destruct Hcase as [(_ & _ & E)|(_ & _ & E)]; [rewrite E in H; by apply elem_of_nil in H|]. rewrite E in *. by apply W2, T5.
  - destruct (quiet_adopt_spec (parent s) (p_cpu p) (inv_mask s Hi)) as (r & cpu & Er & _ & Hcase); [apply inv_high, Hi|]. rewrite Er in Hs. cbn in Hs. injection Hs as <-.
    split_and!; [by left; apply T1|by eapply rcu_elsewhere|]. cbn in *. rewrite list_lookup_insert_eq by done. intros ? [= <-]. cbn. split; [by left|].
    destruct Hcase as [(_ & -> & ->)|(E1 & _ & E3 & _ & Eg & Hcase)]; [intros H; by apply W2, T5|]. rewrite E3, Eg. intros H. destruct (T4 H) as [?|[?|(Hne & Hb)]]; [done|by left; left|].
    right. split; [done|]. destruct Hcase as [((e & He & He') & -> & -> & _)|(_ & Hall & -> & _)]; [|split; [by apply Hall|lia]]. split; [|lia].
    destruct (decide (e = d)) as [->|Hed]; [done|]. assert (e = c) as -> by lia. destruct Hb as [Hb|?]; [congruence|done].
Qed.

Lemma tracked_exec s es s' c d x q : inv s -> (number_of_cpus <= 2)%nat -> (c < number_of_cpus)%nat -> (d < number_of_cpus)%nat -> (forall y, pushes y = []) ->
  execution s es s' -> (forall c', Push c' x ∉ es) -> tracked c d x q s -> tracked c d x (q \/ quiet_since d s es) s'.
Proof.
  intros Hi H2 Hc Hd Hp H. revert q. induction H as [s|s e s1 es s2 He Hs Hex IH]; intros q Hx Ht; [by eapply tracked_weaken; [|done]; left|].
  destruct (rcu_step_inv s e Hi He) as (s1' & Hs' & Hi1). rewrite Hs in Hs'. injection Hs' as <-.
  assert (Ht1 : tracked c d x (q \/ enters d e s) s1).
  { destruct (decide (e = Step c)) as [->|Hne]; [by apply tracked_own|]. apply tracked_other; try done. intros c' ->. apply (Hx c'). by left. }
  eapply tracked_weaken; [|apply (IH Hi1 _ ltac:(set_solver) Ht1)]. intros [[?|?]|?]; [by left|right; by constructor|right; by econstructor].
Qed.

(** C14. With at most two processors nothing is reclaimed too early: when a callback that was
    pushed once is made, every processor has entered [quiet] since it was pushed, however the
    steps of [quiet] on the two processors are interleaved.  Callbacks are taken to push no
    others.  (With three processors this fails, see [three_processors_premature].) *)
Theorem grace_period_two es1 s1 c x s2 es2 s' :
  (number_of_cpus <= 2)%nat -> (forall y, pushes y = []) ->
  execution init es1 s1 -> x ∉ pushed s1 -> enabled (Push c x) s1 -> step (Push c x) s1 = Some s2 ->
  execution s2 es2 s' -> (forall c', Push c' x ∉ es2) -> x ∈ (calls s').*1 ->
  forall d, (d < number_of_cpus)%nat -> quiet_since d s2 es2.
Proof.
  intros H2 Hp H1 Hfresh He Hs Hex Hx Hcalled d Hd. pose proof (rcu_execution_inv _ _ _ rcu_init_inv H1) as Hi. destruct (rcu_step_inv s1 _ Hi He) as (s2' & Hs' & Hi2). rewrite Hs in Hs'. injection Hs' as <-.
  rewrite (inv_conserved s1 Hi) in Hfresh. assert (Hpend : forall b p, procs s1 !! b = Some p -> x ∉ waiting p) by (intros b p Ep H; apply Hfresh, elem_of_app; right; apply list_elem_of_bind; exists p; split; [done|by eapply list_elem_of_lookup_2]).
  destruct He as (p & Ep & Eph). assert (Hc : (c < number_of_cpus)%nat) by (rewrite <- (inv_procs s1 Hi); by eapply lookup_lt_Some). cbn in Hs. rewrite Ep in Hs. cbn in Hs. rewrite Eph in Hs. injection Hs as <-.
  assert (Ht : tracked c d x False (Sys (parent s1) (<[c := Proc (push_callback x (p_cpu p)) Outside]> (procs s1)) (calls s1) (x :: pushed s1))).
  { refine (conj _ (conj _ _)); [intros H; apply Hfresh, elem_of_app; by left|apply (rcu_elsewhere s1 c (Proc (push_callback x (p_cpu p)) Outside)); [done|intros b q Eq _; by apply (Hpend b)]|]. cbn. rewrite list_lookup_insert_eq by (by eapply lookup_lt_Some). intros ? [= <-]. cbn. split; [by left|].
    intros H. destruct (Hpend c p Ep). apply elem_of_app. by left. }
  destruct (tracked_exec _ _ _ _ _ _ _ Hi2 H2 Hc Hd Hp Hex Hx Ht) as [Hq _]. by destruct (Hq Hcalled).
Qed.

(** Executions by evaluation *)
Definition enabled_b (e : event) (s : sys) : bool :=
  match e with
  | Push c _ => match procs s !! c with Some (Proc _ Outside) => true | _ => false end
  | Step c => bool_decide (c < number_of_cpus)%nat
  end.

Fixpoint replay (es : list event) (s : sys) : option sys :=
  match es with
  | [] => Some s
  | e :: es => if enabled_b e s then s ← step e s; replay es s else None
  end.

Lemma rcu_replay_sound es s s' : replay es s = Some s' -> execution s es s'.
Proof.
  revert s. induction es as [|e es IH]; intros s H; cbn in H; [injection H as <-; constructor|]. destruct (enabled_b e s) eqn:Ee; [|done]. apply bind_Some in H as (s1 & Hs & H). apply (exec_cons s e s1); [|done|by apply IH].
  destruct e as [c x|c]; cbn in *; [|by apply bool_decide_eq_true in Ee]. destruct (procs s !! c) as [[cpu []]|]; try done. by eexists.
Qed.

Lemma event_absent (e : event) es : forallb (fun e' => negb (bool_decide (e' = e))) es = true -> e ∉ es.
Proof. rewrite forallb_forall. intros H Hin%list_elem_of_In. specialize (H e Hin). by rewrite bool_decide_true in H. Qed.

End Rcu.

(** ** Instances *)

Definition quiet_of (c : nat) : list event := [Step c; Step c; Step c].
Definition no_pushes (_ : RCU_Head) : list RCU_Head := [].

Definition after (n : nat) (es : list event) (s : sys) : sys := default s (replay n no_pushes es s).

Definition head7 : RCU_Head := RcuHead 7 1.
Definition both_quiet : list event := replicate 5 (Step 0) ++ replicate 5 (Step 1).
Definition four_rounds : list event := (both_quiet ++ both_quiet) ++ (both_quiet ++ both_quiet).
Definition one_pushed : sys := after 2 [Push 0 head7] (init 2).
Definition one_made : list event := quiet_of 0 ++ quiet_of 1 ++ quiet_of 0.

Lemma one_pushed_reached : execution 2 no_pushes (init 2) [Push 0 head7] one_pushed.
Proof. apply rcu_replay_sound. vm_compute. reflexivity. Qed.

Lemma callbacks_conserved_witness :
  pushed one_pushed ≡ₚ (calls one_pushed).*1 ++ pending (procs one_pushed) /\ exists s', step 2 no_pushes (Step 1) one_pushed = Some s'.
Proof. destruct (callbacks_conserved 2 no_pushes _ _ one_pushed_reached) as [H1 H2]. split; [exact H1|]. apply H2. lia. Defined.

Lemma both_quiet_round : round 2 both_quiet.
Proof. intros [|[|c]] H; [vm_compute; lia..|lia]. Qed.

Lemma callbacks_run_witness : head7 ∈ (drop (length (calls one_pushed)) (calls (after 2 four_rounds one_pushed))).*1.
Proof.
  refine (callbacks_run 2 no_pushes _ _ _ _ _ _ _ one_pushed_reached both_quiet_round both_quiet_round both_quiet_round both_quiet_round _ _ _).
  - apply rcu_replay_sound. vm_compute. reflexivity.
  - apply list_elem_of_In. left. reflexivity.
Defined.

Lemma grace_period_two_witness : quiet_since 2 no_pushes 1 one_pushed one_made.
Proof.
  apply (grace_period_two 2 no_pushes [] (init 2) 0 head7 one_pushed one_made (after 2 one_made one_pushed) (le_n 2) (fun _ => eq_refl)).
  - constructor.
  - apply not_elem_of_nil.
  - eexists. split; reflexivity.
  - vm_compute. reflexivity.
  - apply rcu_replay_sound. vm_compute. reflexivity.
  - intros c'. apply event_absent. reflexivity.
  - apply list_elem_of_In. vm_compute. left. reflexivity.
  - lia.
Defined.

(** With three processors a callback can be made although a processor has not been quiet since
    it was pushed: processor 2 was quiet early in a generation, processor 1 pushes and takes its
    batch later in it, and the end of that generation counts as two. *)
Lemma three_processors_premature :
  let before := Push 0 (RcuHead 1 1) :: quiet_of 0 ++ quiet_of 2 in let since := quiet_of 1 ++ quiet_of 0 ++ quiet_of 1 in
  exists s1 s2 s', execution 3 no_pushes (init 3) before s1 /\ step 3 no_pushes (Push 1 head7) s1 = Some s2 /\ execution 3 no_pushes s2 since s'
    /\ head7 ∈ (calls s').*1 /\ Step 2 ∉ since.
Proof.
  intros before since. set (s1 := after 3 before (init 3)). set (s2 := after 3 [Push 1 head7] s1). exists s1, s2, (after 3 since s2).
  split; [apply rcu_replay_sound; vm_compute; reflexivity|]. split; [vm_compute; reflexivity|]. split; [apply rcu_replay_sound; vm_compute; reflexivity|].
  split; [apply list_elem_of_In; vm_compute; right; left; reflexivity|by apply event_absent].
Qed.
