(* ===== verification/Frames.v ===== *)
(** * Page frames

    What the page tables rely on in the allocator of physical pages: [get_memory_for_kernel] for
    one page and [free_memory_for_kernel].  [PmmFrames] shows that the allocator of [Pmm] keeps
    this contract. *)

From stdpp Require Import base gmap.
From Stdlib Require Import ZArith.
Open Scope Z_scope.

(** Page aligned addresses that fit in the entries of a page table *)
Definition frame (p : Z) : Prop := 0 <= p < 2 ^ 52 /\ p mod 4096 = 0.

(** [owns s O]: in the state [s], the frames [O] have been handed out *)
Class FrameAllocator (S : Type) := {
  get_frame : S -> option (option Z * S);
  put_frame : Z -> S -> option S;
  owns : S -> gset Z -> Prop;
  get_frame_ok s O : owns s O -> exists r s', get_frame s = Some (r, s') /\
    match r with Some p => p ∉ O /\ frame p /\ owns s' ({[p]} ∪ O) | None => owns s' O end;
  put_frame_ok s O p : owns s O -> p ∈ O -> exists s', put_frame p s = Some s' /\ owns s' (O ∖ {[p]}) }.
