(* ===== verification/PmmFrames.v ===== *)
(** * The allocator of physical pages as an allocator of frames

    One page at a time, by address: [get_memory_for_kernel(1)] and [free_memory_for_kernel(p, 1)]
    of [Pmm] keep the contract of [Frames].  A page that has been given back waits for the end of
    its grace period, and is not handed out until then. *)

From stdpp Require Import base numbers list gmap sets.
From Stdlib Require Import ZArith Lia.
From S2P Require Import Prelude Frames Pmm PmmInv PmmOps PmmKernel PmmSpec.
Open Scope Z_scope.

Definition pmm_get_frame (s : pmm) : option (option Z * pmm) :=
  '(a, s') ← get_memory_for_kernel 1 Normal s; Some (if a =? -1 then None else Some a, s').
Definition pmm_put_frame (p : Z) (s : pmm) : option pmm := '(_, s') ← free_memory_for_kernel p 1 s; Some s'.

(** The arrays are of whole pages that fit in the entries of a page table *)
Definition arrays_fit (l : list page_array) : Prop := forall d, d ∈ l -> 0 <= start_addr d /\ start_addr d mod 4096 = 0 /\ end_phys d <= 2 ^ 52.

Definition pmm_owns (s : pmm) (O : gset Z) : Prop :=
  exists b, keeps_books s b /\ arrays_fit (phys_memory_regions s) /\ forall a, a ∈ O <-> exists x, x ∈ bk_held b /\ a = addr_of (phys_memory_regions s) x.

Section Addresses.
  Context (s : pmm) (b : books) (G : list area) (Hk : kept s b G).

(** A page of a block is in an array *)
Lemma block_array f q n x : block_at G f q n -> q <= x < q + n -> exists a, a ∈ G /\ arr_pages a.1 <= x < arr_end a.1.
Proof.
  intros (a & Ha & Hq) Hx. exists a. split; [done|]. pose proof (ok_areas _ _ (k_ok _ _ _ Hk) a Ha) as Hao. destruct (entries_range _ _ _ _ _ _ (area_marked _ _ _ Hao) Hq) as (H1 & H2 & H3). unfold arr_end. rewrite <- (area_total _ _ _ Hao). lia.
Qed.

Lemma addr_inj a c x y : a ∈ G -> c ∈ G -> arr_pages a.1 <= x < arr_end a.1 -> arr_pages c.1 <= y < arr_end c.1 -> addr_of (phys_memory_regions s) x = addr_of (phys_memory_regions s) y -> x = y.
Proof.
  intros Ha Hc Hx Hy E. rewrite (addr_of_page s b G Hk a x Ha Hx), (addr_of_page s b G Hk c y Hc Hy) in E.
  pose proof (find_page_phys s G (k_ok _ _ _ Hk) (k_sorted _ _ _ Hk) a x Ha Hx) as H1. pose proof (find_page_phys s G (k_ok _ _ _ Hk) (k_sorted _ _ _ Hk) c y Hc Hy) as H2. rewrite E in H1. congruence.
Qed.

Lemma addr_frame a x : arrays_fit (phys_memory_regions s) -> a ∈ G -> arr_pages a.1 <= x < arr_end a.1 -> frame (addr_of (phys_memory_regions s) x).
Proof.
  intros Hfit Ha Hx. rewrite (addr_of_page s b G Hk a x Ha Hx). destruct (Hfit a.1) as (H1 & H2 & H3); [rewrite (ok_arrays _ _ (k_ok _ _ _ Hk)); by apply list_elem_of_fmap_2|]. unfold frame, end_phys, arr_end, PAGE_SIZE in *. split; [lia|].
  rewrite Z.add_comm, Z.mod_add by lia. done.
Qed.
End Addresses.

Lemma held_area s b G x : kept s b G -> x ∈ bk_held b -> exists a, a ∈ G /\ arr_pages a.1 <= x < arr_end a.1.
Proof. intros Hk Hx. destruct (k_held _ _ _ Hk x Hx) as [Hb _]. apply (block_array s b G Hk false x 1 x Hb). lia. Qed.

Lemma area_member s b G d : kept s b G -> d ∈ phys_memory_regions s -> exists bs, (d, bs) ∈ G.
Proof. intros Hk Hd. rewrite (ok_arrays _ _ (k_ok _ _ _ Hk)) in Hd. apply list_elem_of_fmap in Hd as ([d' bs] & -> & Ha). by exists bs. Qed.

Lemma pmm_get_frame_ok s O : pmm_owns s O -> exists r s', pmm_get_frame s = Some (r, s') /\
  match r with Some p => p ∉ O /\ frame p /\ pmm_owns s' ({[p]} ∪ O) | None => pmm_owns s' O end.
Proof.
  intros (b & [G Hk] & Hfit & HO). destruct (get_ok s b G 1 Normal Hk eq_refl) as (v & s' & b' & Hrun & Hbook & Hk' & Harr & _). cbn [exec] in Hrun. unfold pmm_get_frame. rewrite Hrun. cbn [mbind option_bind].
  inversion Hbook as [|? ? p d Hd Hz H1 H2 Hsub| |]; subst.
  - exists None, s'. split; [done|]. exists b'. by rewrite Harr.
  - destruct (area_member s b G d Hk Hd) as [bs Ha]. assert (Hp : arr_pages (d, bs).1 <= p < arr_end (d, bs).1) by (cbn; lia). pose proof (addr_frame s b G Hk (d, bs) p Hfit Ha Hp) as Hfr. set (a := addr_of (phys_memory_regions s) p) in *.
    rewrite (proj2 (Z.eqb_neq a (-1))) by (destruct Hfr; lia). exists (Some a), s'. split_and!; [done| |done|].
    + intros (x & Hx & Ex)%HO. destruct (held_area s b G x Hk Hx) as (c & Hc & Hxc). assert (p = x) as -> by (by apply (addr_inj s b G Hk (d, bs) c)).
      assert (Hf : x ∈ bk_free b) by (apply Hsub, elem_run; lia). apply (k_free _ _ _ Hk) in Hf as (q & n & Hb & Hxq). destruct (k_held _ _ _ Hk x Hx) as [Hb' _]. by destruct (block_unique s G _ _ _ _ _ _ x (k_ok _ _ _ Hk) Hb Hb' Hxq ltac:(lia)).
    + exists (Books (bk_free b ∖ run p 1) (bk_held b ∪ run p 1) (bk_waiting b)). rewrite Harr. split_and!; [done..|]. intros x. cbn. rewrite elem_of_union, elem_of_singleton, HO. split.
      * intros [->|(y & Hy & ->)]; [exists p|exists y]; (split; [|done]); apply elem_of_union; [right; apply elem_run; lia|by left].
      * intros (y & [Hy|Hy%elem_run]%elem_of_union & ->); [right; by exists y|left]. by assert (y = p) as -> by lia.
Qed.

Lemma pmm_put_frame_ok s O p : pmm_owns s O -> p ∈ O -> exists s', pmm_put_frame p s = Some s' /\ pmm_owns s' (O ∖ {[p]}).
Proof.
  intros (b & [G Hk] & Hfit & HO) Hp. apply HO in Hp as (x & Hx & ->). destruct (held_area s b G x Hk Hx) as (a & Ha & Hxa). assert (Hd : a.1 ∈ phys_memory_regions s) by (rewrite (ok_arrays _ _ (k_ok _ _ _ Hk)); by apply list_elem_of_fmap_2).
  destruct (put_ok s b G Hk x 1 a.1) as (s' & Hrun & Harr & Hk'); [done|intros y Hy%elem_run; by assert (y = x) as -> by lia|done|lia|lia|].
  cbn [exec] in Hrun. rewrite (pbind _ _ _ _ _ (eq_refl : get_arrays s = Some (phys_memory_regions s, s))) in Hrun. unfold pmm_put_frame. destruct (free_memory_for_kernel (addr_of (phys_memory_regions s) x) 1 s) as [[[] s1]|] eqn:E; [|unfold mbind, P_bind in Hrun; by rewrite E in Hrun].
  rewrite (pbind _ _ _ _ _ E) in Hrun. injection Hrun as ->. cbn. exists s'. split; [done|]. eexists. split; [exact Hk'|]. rewrite Harr. split; [done|]. intros y. cbn. rewrite elem_of_difference, not_elem_of_singleton, HO. split.
  - intros [(w & Hw & ->) Hne]. exists w. split; [|done]. apply elem_of_difference. split; [done|]. intros Hr%elem_run. apply Hne. by assert (w = x) as -> by lia.
  - intros (w & [Hw Hr]%elem_of_difference & ->). split; [by exists w|]. intros Ew. apply Hr, elem_run. destruct (held_area s b G w Hk Hw) as (c & Hc & Hwc). assert (w = x) as -> by (by apply (addr_inj s b G Hk c a)). lia.
Qed.

#[global] Instance pmm_frames : FrameAllocator pmm := {|
  get_frame := pmm_get_frame; put_frame := pmm_put_frame; owns := pmm_owns; get_frame_ok := pmm_get_frame_ok; put_frame_ok := pmm_put_frame_ok |}.

(** ** An instance: sixteen free pages above 4 GB *)

Definition sixteen : page_array := PageArray 4294967296 16 region_above_4gb 11.
Definition sixteen_pages : gmap Z page :=
  list_to_map ([(10, border); (27, border); (11, Page Free 0 (FreeRegionHead 16)); (26, Page Free 0 (FreeRegionHead 16))] ++ ((fun x => (x, owned)) <$> seqZ 12 14)).
Definition sixteen_free : pmm := Pmm sixteen_pages [sixteen] (fun z o => if decide (z = region_above_4gb /\ o = 4%nat) then [11] else []) [].

Lemma sixteen_kept : keeps_books sixteen_free (Books (run 11 16) ∅ []).
Proof.
  exists [(sixteen, [(true, 16)])]. assert (Hb : forall f q n, block_at [(sixteen, [(true, 16)])] f q n <-> f = true /\ q = 11 /\ n = 16).
  { intros f q n. unfold block_at. setoid_rewrite list_elem_of_singleton. split; [intros (a & -> & [= -> -> ->]%list_elem_of_singleton); done|]. intros (-> & -> & ->).
    exists (sixteen, [(true, 16)]). split; [done|by left]. }
  split; try done.
  - split; try done.
    + intros a ->%list_elem_of_singleton. cbn. split; try done.
      * cbn. split; [|done]. split; [done|]. split; by exists 0.
      * split; by exists border.
      * intros x Hx. unfold within, arr_end in Hx. cbn in Hx. assert (H : x ∈ seqZ 10 18) by (apply elem_of_seqZ; lia). clear Hx. revert x H. apply Forall_forall.
        repeat (apply Forall_cons; split; [eexists; reflexivity|]). by apply Forall_nil.
    + intros i j c e x Hi Hj Hne. cbn in Hi, Hj. destruct i as [|i], j as [|j]; try done.
    + intros z o. cbn. case_decide; [apply NoDup_singleton|apply NoDup_nil_2].
    + intros z o q. cbn. unfold free_at. setoid_rewrite list_elem_of_singleton. split.
      * case_decide as H; [|by intros ?%elem_of_nil]. destruct H as [-> ->]. intros ->%list_elem_of_singleton. exists 16. split; [|done]. exists (sixteen, [(true, 16)]). split_and!; try done. by left.
      * intros (n & (a & -> & <- & [= -> ->]%list_elem_of_singleton) & [= <-]). rewrite decide_True by done. by left.
  - intros i j d e Hi Hj Hlt. destruct i as [|i], j as [|j]; try done; lia.
  - intros x. cbn. rewrite elem_run. setoid_rewrite Hb. naive_solver.
  - intros p n Hp. by apply elem_of_nil in Hp.
  - apply NoDup_nil_2.
Qed.

Lemma sixteen_owns : pmm_owns sixteen_free ∅.
Proof.
  exists (Books (run 11 16) ∅ []). split_and!; [apply sixteen_kept| |].
  - intros d ->%list_elem_of_singleton. by vm_compute.
  - intros a. split; [set_solver|]. intros (x & Hx & _). cbn in Hx. set_solver.
Qed.
