(* ===== verification/Paging.v ===== *)
(** * kernel/arch/x86_64/paging/x86_paging.cc: page tables

    A page table is a tree of pages of 512 entries of 64 bits, four or five levels deep; the
    entries of the last level map pages, those above lead to the tables below.  Physical memory
    is a finite map from the addresses of pages to their words.  Reading a page that is not
    memory and a failed assertion are the outcome [None]; running out of frames is an error that
    the code returns.  Temporary mappings ([Temp_Mapper]) are how the kernel reaches physical
    pages and are not visible here.

    Pages that user memory is made of have a reference count ([Page_Descriptor] of pmm.cc); an
    entry that maps such a page carries [PAGING_FLAG_STRUCT_PAGE] and owns one reference. *)

From stdpp Require Import base numbers list gmap.
From Stdlib Require Import ZArith Lia.
From S2P Require Import Prelude Frames.
Open Scope Z_scope.

(** ** Entries *)

Record x86_PAE_Entry := PaeEntry {
  present : bool; writeable : bool; user_access : bool; write_through : bool; cache_disabled : bool;
  accessed : bool; dirty : bool; pat_size : bool; global : bool;
  avl : Z; page_ppn : Z; avl2 : Z; pk : Z; execution_disabled : bool }.

Definition empty_entry : x86_PAE_Entry := PaeEntry false false false false false false false false false 0 0 0 0 false.

(** The fields in the order of the structure, from bit 0 up *)
Definition bit_then (b : bool) (rest : Z) : Z := Z.b2z b + 2 * rest.

Definition to_u64 (e : x86_PAE_Entry) : Z :=
  bit_then (present e) (bit_then (writeable e) (bit_then (user_access e) (bit_then (write_through e) (bit_then (cache_disabled e)
    (bit_then (accessed e) (bit_then (dirty e) (bit_then (pat_size e) (bit_then (global e)
      (avl e + 2 ^ 3 * (page_ppn e + 2 ^ 40 * (avl2 e + 2 ^ 7 * (pk e + 2 ^ 4 * Z.b2z (execution_disabled e))))))))))))).

Definition from_u64 (w : Z) : x86_PAE_Entry :=
  PaeEntry (Z.testbit w 0) (Z.testbit w 1) (Z.testbit w 2) (Z.testbit w 3) (Z.testbit w 4) (Z.testbit w 5) (Z.testbit w 6) (Z.testbit w 7) (Z.testbit w 8)
    (Z.land (Z.shiftr w 9) (Z.ones 3)) (Z.land (Z.shiftr w 12) (Z.ones 40)) (Z.land (Z.shiftr w 52) (Z.ones 7)) (Z.land (Z.shiftr w 59) (Z.ones 4)) (Z.testbit w 63).

(** [x86_PAE_Entry::page] *)
Definition entry_page (e : x86_PAE_Entry) : Z := Z.shiftl (page_ppn e) 12.

Inductive Memory_Type := Normal | MemoryNoCache | IONoCache | Framebuffer.
#[global] Instance Memory_Type_eq : EqDecision Memory_Type.
Proof. solve_decision. Defined.

(** [set_cache_bits]: the bits [write_through] and [cache_disabled] *)
Definition cache_bits (t : Memory_Type) : bool * bool :=
  match t with Normal => (false, false) | MemoryNoCache | IONoCache => (false, true) | Framebuffer => (true, false) end.
Definition get_cache_type (e : x86_PAE_Entry) : Memory_Type :=
  if negb (write_through e) && negb (cache_disabled e) then Normal
  else if write_through e && negb (cache_disabled e) then Framebuffer else IONoCache.

(** [Page_Table_Arguments]; [extra] has two bits *)
Record Page_Table_Arguments := PtArgs { arg_readable : bool; arg_writeable : bool; arg_user : bool; arg_global : bool; arg_xd : bool; arg_extra : Z; arg_cache : Memory_Type }.

Definition PAGING_FLAG_STRUCT_PAGE : Z := 1.
Definition PAGING_FLAG_NOFREE : Z := 2.
Definition has (flags mask : Z) : bool := negb (Z.land flags mask =? 0).

(** [Page_Info] *)
Record Page_Info := PageInfo { pi_flags : Z; is_allocated : bool; pi_dirty : bool; pi_user : bool; nofree : bool; pi_writeable : bool; executable : bool; readable : bool; page_addr : Z }.
Definition no_info : Page_Info := PageInfo 0 false false false false false false false 0.

(** [level_idx], [pt_index], [pd_index] and the like: the index of an address at a level *)
Definition level_idx (level : nat) (va : Z) : nat := Z.to_nat (Z.land (Z.shiftr va (9 * Z.of_nat level + 3)) 511).

Definition ENOMEM : Z := 52.
Definition EEXIST : Z := 23.
Definition PAGE_WORDS : nat := 512.

(** ** The machine *)

(** The structure of a page of user memory; [owner]: whether it belongs to a memory object *)
Record page_struct := PageStruct { refcount : Z; is_anonymous : bool; owner : bool }.
Definition with_refcount (x : page_struct) (n : Z) : page_struct := PageStruct n (is_anonymous x) (owner x).

Record machine (S : Type) := Machine {
  frames : S;
  mem : gmap Z (list Z);               (** the words of each page *)
  structs : gmap Z page_struct;        (** the pages with a reference count, by address *)
  shootdown : list Z  (** the pages of the [TLBShootdownContext] in use *) }.
Arguments Machine {S}.
Arguments frames {S}.
Arguments mem {S}.
Arguments structs {S}.
Arguments shootdown {S}.

Definition X (S A : Type) : Type := machine S -> option (A * machine S).
#[global] Instance X_ret {S} : MRet (X S) := fun A a s => Some (a, s).
#[global] Instance X_bind {S} : MBind (X S) := fun A B f c s => match c s with Some (a, s') => f a s' | None => None end.

Section Paging.
  Context {S : Type} `{FrameAllocator S} (use_5lvl_paging support_nx : bool).

Definition xfails {A} : X S A := fun _ => None.
Definition xassert (b : bool) : X S unit := if b then mret tt else xfails.

Definition load (t : Z) (i : nat) : X S x86_PAE_Entry := fun s => l ← mem s !! t; w ← l !! i; Some (from_u64 w, s).
Definition store (t : Z) (i : nat) (e : x86_PAE_Entry) : X S unit :=
  fun s => l ← mem s !! t; _ ← l !! i; Some (tt, Machine (frames s) (<[t := <[i := to_u64 e]> l]> (mem s)) (structs s) (shootdown s)).
Definition clear_page (p : Z) : X S unit :=
  fun s => Some (tt, Machine (frames s) (<[p := replicate PAGE_WORDS 0]> (mem s)) (structs s) (shootdown s)).

(** [get_memory_for_kernel(1)] and [free_memory_for_kernel(p, 1)] *)
Definition new_frame : X S (option Z) := fun s => '(r, f) ← get_frame (frames s); Some (r, Machine f (mem s) (structs s) (shootdown s)).
Definition free_frame (p : Z) : X S unit := fun s => f ← put_frame p (frames s); Some (tt, Machine f (mem s) (structs s) (shootdown s)).

Definition get_struct (p : Z) : X S page_struct := fun s => x ← structs s !! p; Some (x, s).
Definition set_struct (p : Z) (x : page_struct) : X S unit := fun s => Some (tt, Machine (frames s) (mem s) (<[p := x]> (structs s)) (shootdown s)).
Definition del_struct (p : Z) : X S unit := fun s => Some (tt, Machine (frames s) (mem s) (delete p (structs s)) (shootdown s)).

(** The end of a [Page_Descriptor]: [try_free_page] and [release_page] *)
Definition drop_ref (p : Z) : X S unit :=
  x ← get_struct p;
  if refcount x - 1 =? 0 then _ ← del_struct p; free_frame p
  else set_struct p (with_refcount x (refcount x - 1)).

(** [Page_Descriptor::find_page_struct]: the descriptor is a reference *)
Definition find_page_struct (p : Z) : X S unit :=
  x ← get_struct p; set_struct p (with_refcount x (refcount x + 1)).

(** [Page_Descriptor::release_taken_out_page] *)
Definition release_taken_out_page (p : Z) : X S unit :=
  x ← get_struct p;
  _ ← xassert (1 <? refcount x);
  set_struct p (with_refcount x (refcount x - 1)).

(** [TLBShootdownContext::invalidate_page] of the context of a process: there is room for 32
    pages, and a full context flushes everything *)
Definition MAX_PAGES : nat := 32.
Definition invalidate_page (va : Z) : X S unit :=
  fun s => Some (tt, if bool_decide (MAX_PAGES <= length (shootdown s))%nat then s
                     else Machine (frames s) (mem s) (structs s) (shootdown s ++ [Z.ldiff va 4095])).
(** [TLBShootdownContext::finalize]: the processors have dropped the pages *)
Definition finalize : X S unit := fun s => Some (tt, Machine (frames s) (mem s) (structs s) []).
Definition flush_all (s : machine S) : bool := bool_decide (MAX_PAGES <= length (shootdown s))%nat.

(** ** Mapping *)

(** The entry of a new table, with the other bits of [e] *)
Definition table_entry (e : x86_PAE_Entry) (p : Z) (user : bool) : x86_PAE_Entry :=
  PaeEntry true true user (write_through e) (cache_disabled e) (accessed e) (dirty e) (pat_size e) (global e) (avl e) (Z.land (Z.shiftr p 12) (Z.ones 40)) (avl2 e) (pk e) (execution_disabled e).

(** One level of [map]: the table below, which is made if there is none.  At level 5 the
    kernel's [map] does not clear the entry first ([reset]); up to level 3 the entry may be a
    large page *)
Definition next_table (reset : bool) (level : nat) (user : bool) (t va : Z) : X S (Z + Z) :=
  let i := level_idx level va in
  e ← load t i;
  if bool_decide (level <= 3)%nat && pat_size e then mret (inl (- EEXIST))
  else if present e then mret (inr (entry_page e))
  else
    let e := if negb reset && bool_decide (level = 5)%nat then e else empty_entry in
    p ← new_frame;
    match p with
    | None => mret (inl (- ENOMEM))
    | Some p =>
        let e := table_entry e p user in
        _ ← clear_page p;
        _ ← store t i e;
        mret (inr (entry_page e))
    end.

(** The levels above the last, from the top *)
Definition upper_levels : list nat := if use_5lvl_paging then [5; 4; 3; 2]%nat else [4; 3; 2]%nat.

Fixpoint descend (reset : bool) (levels : list nat) (user : bool) (t va : Z) : X S (Z + Z) :=
  match levels with
  | [] => mret (inr t)
  | level :: levels =>
      r ← next_table reset level user t va;
      match r with inl err => mret (inl err) | inr t => descend reset levels user t va end
  end.

(** The entry that maps a page *)
Definition leaf_entry (phys : Z) (extra : Z) (arg : Page_Table_Arguments) : x86_PAE_Entry :=
  let '(wt, cd) := cache_bits (arg_cache arg) in
  PaeEntry true (arg_writeable arg) (arg_user arg) wt cd false false false false extra (Z.land (Z.shiftr phys 12) (Z.ones 40)) 0 0 (support_nx && arg_xd arg).

(** [map] of a page for the kernel, [force]: over another one *)
Definition map_kernel (phys va : Z) (arg : Page_Table_Arguments) (pt_phys : Z) (force : bool) : X S Z :=
  r ← descend false upper_levels (arg_user arg) pt_phys va;
  match r with
  | inl err => mret err
  | inr t =>
      e ← load t (level_idx 1 va);
      if present e && negb force then mret (- EEXIST)
      else _ ← store t (level_idx 1 va) (leaf_entry phys (arg_extra arg) arg); mret 0
  end.

(** [map_pages] and [map_kernel_pages_overwrite]: a page at a time, up to the first error *)
Fixpoint map_loop (n : nat) (phys va : Z) (arg : Page_Table_Arguments) (cr3 : Z) (force : bool) : X S Z :=
  match n with
  | O => mret 0
  | Datatypes.S n =>
      r ← map_kernel phys va arg cr3 force;
      if r =? 0 then map_loop n (phys + 4096) (va + 4096) arg cr3 force else mret r
  end.

(** The rounds of a loop that goes through [size] bytes by pages *)
Definition pages_in (size : Z) : nat := Z.to_nat ((size + 4095) / 4096).

Definition map_pages (cr3 phys va size : Z) (arg : Page_Table_Arguments) : X S Z := map_loop (pages_in size) phys va arg cr3 false.
Definition map_kernel_pages_overwrite (idle_cr3 phys va size : Z) (arg : Page_Table_Arguments) : X S Z := map_loop (pages_in size) phys va arg idle_cr3 true.

(** [prepare_pt_for]: the last table of an address, -1 when there is none *)
Definition prepare_pt_for (va : Z) (arg : Page_Table_Arguments) (pt_phys : Z) : X S Z :=
  r ← descend true upper_levels (arg_user arg) pt_phys va;
  mret (match r with inl _ => -1 | inr t => t end).

(** [x86_Page_Table::map] of an address *)
Definition map_addr (pt_top_phys phys va : Z) (arg : Page_Table_Arguments) : X S Z :=
  _ ← xassert (Z.shiftr phys 52 =? 0);
  r ← descend true upper_levels (arg_user arg) pt_top_phys va;
  match r with
  | inl err => mret err
  | inr t =>
      e ← load t (level_idx 1 va);
      if present e then mret (- EEXIST)
      else
        _ ← (if has (arg_extra arg) PAGING_FLAG_STRUCT_PAGE then _ ← find_page_struct phys; drop_ref phys else mret tt);
        _ ← store t (level_idx 1 va) (leaf_entry phys (arg_extra arg) arg);
        mret 0
  end.

(** [x86_Page_Table::map] of a page with its reference, which is given up on an error *)
Definition map_page (pt_top_phys page va : Z) (arg : Page_Table_Arguments) : X S Z :=
  _ ← get_struct page;
  _ ← xassert (page <? 2 ^ 52);
  r ← descend true upper_levels (arg_user arg) pt_top_phys va;
  match r with
  | inl err => _ ← drop_ref page; mret err
  | inr t =>
      e ← load t (level_idx 1 va);
      if present e then _ ← drop_ref page; mret (- EEXIST)
      else _ ← store t (level_idx 1 va) (leaf_entry page (Z.lor (arg_extra arg) PAGING_FLAG_STRUCT_PAGE) arg); mret 0
  end.

(** ** Looking up *)

(** The last table on the way to an address, if there is one *)
Fixpoint walk (levels : list nat) (t va : Z) : X S (option Z) :=
  match levels with
  | [] => mret (Some t)
  | level :: levels =>
      e ← load t (level_idx level va);
      if present e then walk levels (entry_page e) va else mret None
  end.

Definition is_mapped (pt_top_phys va : Z) : X S bool :=
  t ← walk upper_levels pt_top_phys va;
  match t with None => mret false | Some t => e ← load t (level_idx 1 va); mret (present e) end.

Definition info_of (e : x86_PAE_Entry) : Page_Info :=
  PageInfo (avl e) (present e) (dirty e) (user_access e) (has (avl e) PAGING_FLAG_NOFREE) (writeable e) (negb (execution_disabled e)) true (Z.shiftl (page_ppn e) 12).

Definition get_page_mapping (pt_top_phys va : Z) : X S Page_Info :=
  t ← walk upper_levels pt_top_phys va;
  match t with None => mret no_info | Some t => e ← load t (level_idx 1 va); mret (info_of e) end.

(** [check_level]: whether an access that faulted is allowed by the tables ([page_mapped]) *)
Fixpoint check_level (levels : list nat) (write exec : bool) (t va : Z) : X S bool :=
  match levels with
  | [] => mret true
  | level :: levels =>
      e ← load t (level_idx level va);
      if negb (present e) then mret false
      else if write && negb (writeable e) then mret false
      else if exec && execution_disabled e then mret false
      else check_level levels write exec (Z.shiftl (page_ppn e) 12) va
  end.
Definition page_mapped (cr3 va err : Z) : X S bool := check_level (upper_levels ++ [1%nat]) (has err 2) (has err 16) cr3 va.

(** ** Unmapping *)

(** [clear_auto]: what the entry mapped is given up *)
Definition clear_auto (e : x86_PAE_Entry) : X S x86_PAE_Entry :=
  if negb (present e) then mret empty_entry
  else
    _ ← (if has (avl e) PAGING_FLAG_STRUCT_PAGE then
           let p := Z.shiftl (page_ppn e) 12 in
           _ ← find_page_struct p;
           _ ← release_taken_out_page p;
           drop_ref p
         else if negb (has (avl e) PAGING_FLAG_NOFREE) then free_frame (Z.shiftl (page_ppn e) 12)
         else mret tt);
    mret empty_entry.

(** [invalidate] *)
Definition invalidate (pt_top_phys va : Z) (free : bool) : X S unit :=
  t ← walk upper_levels pt_top_phys va;
  match t with
  | None => mret tt
  | Some t =>
      e ← load t (level_idx 1 va);
      if negb (present e) then mret tt
      else
        e ← (if free then clear_auto e else mret empty_entry);
        _ ← store t (level_idx 1 va) e;
        invalidate_page va
  end.

(** [invalidate_range], a page at a time *)
Fixpoint invalidate_loop (n : nat) (pt_top_phys va : Z) (free : bool) : X S unit :=
  match n with
  | O => mret tt
  | Datatypes.S n => _ ← invalidate pt_top_phys va free; invalidate_loop n pt_top_phys (va + 4096) free
  end.
Definition invalidate_range (pt_top_phys va size : Z) (free : bool) : X S unit := invalidate_loop (pages_in size) pt_top_phys va free.

(** ** The end of a page table *)

(** A loop over the entries of a table, from [i] on *)
Fixpoint each_entry (n i : nat) (body : nat -> X S unit) : X S unit :=
  match n with
  | O => mret tt
  | Datatypes.S n => _ ← body i; each_entry n (Datatypes.S i) body
  end.

Definition free_pt (t : Z) : X S unit :=
  each_entry PAGE_WORDS 0 (fun i => e ← load t i; e ← clear_auto e; store t i e).

(** [free_pd] and [free_pdpt], with what frees the tables below *)
Definition free_directory (free_below : Z -> X S unit) (t : Z) : X S unit :=
  each_entry PAGE_WORDS 0 (fun i =>
    e ← load t i;
    if present e then
      _ ← (if pat_size e then mret tt else free_below (Z.shiftl (page_ppn e) 12));
      e ← clear_auto e;
      store t i e
    else mret tt).
Definition free_pd : Z -> X S unit := free_directory free_pt.
Definition free_pdpt : Z -> X S unit := free_directory free_pd.

Definition free_pml4 (t : Z) : X S unit :=
  each_entry PAGE_WORDS 0 (fun i =>
    e ← load t i;
    if present e then _ ← free_pdpt (Z.shiftl (page_ppn e) 12); free_frame (Z.shiftl (page_ppn e) 12) else mret tt).

Definition free_user_pages (pt_top_phys : Z) : X S unit :=
  each_entry 256 0 (fun i =>
    e ← load pt_top_phys i;
    if present e then
      _ ← (if use_5lvl_paging then free_pml4 (Z.shiftl (page_ppn e) 12) else free_pdpt (Z.shiftl (page_ppn e) 12));
      free_frame (Z.shiftl (page_ppn e) 12)
    else mret tt).

Definition share_upper_half (p idle_cr3 : Z) : X S unit :=
  fun s => k ← mem s !! idle_cr3; Some (tt, Machine (frames s) (<[p := replicate 256 0 ++ drop 256 k]> (mem s)) (structs s) (shootdown s)).

(** [create_empty]: the table of a new process, which shares the upper half of the kernel's *)
Definition create_empty (idle_cr3 : Z) : X S (option Z) :=
  p ← new_frame;
  match p with
  | None => mret None
  | Some p => _ ← share_upper_half p idle_cr3; mret (Some p)
  end.

(** [~x86_Page_Table] *)
Definition delete_table (pt_top_phys : Z) : X S unit :=
  _ ← free_user_pages pt_top_phys;
  free_frame pt_top_phys.

(** ** Copy on write *)

(** [Mem_Object::atomic_request_anonymous_page] of an empty page *)
Definition request_anonymous_page : X S (option Z) :=
  p ← new_frame;
  match p with
  | None => mret None
  | Some p => _ ← clear_page p; _ ← set_struct p (PageStruct 1 true true); mret (Some p)
  end.

Definition copy_page (from to : Z) : X S unit :=
  fun s => l ← mem s !! from; Some (tt, Machine (frames s) (<[to := l]> (mem s)) (structs s) (shootdown s)).

Definition set_writeable (e : x86_PAE_Entry) (w : bool) : x86_PAE_Entry :=
  PaeEntry (present e) w (user_access e) (write_through e) (cache_disabled e) (accessed e) (dirty e) (pat_size e) (global e) (avl e) (page_ppn e) (avl2 e) (pk e) (execution_disabled e).
Definition set_present (e : x86_PAE_Entry) (b : bool) : x86_PAE_Entry :=
  PaeEntry b (writeable e) (user_access e) (write_through e) (cache_disabled e) (accessed e) (dirty e) (pat_size e) (global e) (avl e) (page_ppn e) (avl2 e) (pk e) (execution_disabled e).
Definition set_ppn (e : x86_PAE_Entry) (p : Z) : x86_PAE_Entry :=
  PaeEntry (present e) (writeable e) (user_access e) (write_through e) (cache_disabled e) (accessed e) (dirty e) (pat_size e) (global e) (avl e) (Z.land (Z.shiftr p 12) (Z.ones 40)) (avl2 e) (pk e) (execution_disabled e).

(** [resolve_anonymous_page]: the first write to a page that may be shared *)
Definition resolve_anonymous_page (pt_top_phys va access_type : Z) : X S Z :=
  _ ← xassert (has access_type 2);
  t ← walk upper_levels pt_top_phys va;
  match t with
  | None => xfails
  | Some t =>
      let i := level_idx 1 va in
      e ← load t i;
      _ ← xassert (present e && has (avl e) PAGING_FLAG_STRUCT_PAGE && negb (writeable e));
      let page := Z.shiftl (page_ppn e) 12 in
      _ ← find_page_struct page;
      x ← get_struct page;
      if refcount x =? 2 then
        _ ← store t i (set_writeable e true);
        _ ← drop_ref page;
        mret 0
      else
        _ ← xassert (owner x);
        new ← request_anonymous_page;
        match new with
        | None => _ ← drop_ref page; mret (- ENOMEM)
        | Some new =>
            _ ← store t i (set_present e false);
            _ ← invalidate_page va;
            _ ← finalize;
            _ ← copy_page page new;
            _ ← release_taken_out_page page;
            _ ← store t i (set_present (set_writeable (set_ppn e new) true) true);
            _ ← drop_ref page;
            mret 0
        end
  end.

(** The arguments with which a shared page is mapped again *)
Definition shared_args (e : x86_PAE_Entry) : Page_Table_Arguments :=
  PtArgs true false (user_access e) (global e) (execution_disabled e) (Z.land (avl e) 3) (get_cache_type e).

(** [copy_to_recursive] at the last level: the page of one entry; pages of memory objects
    themselves are left out *)
Definition share_page (to t : Z) (i : nat) (e : x86_PAE_Entry) (copy_from copy_to : Z) : X S (option Z) :=
  let page := Z.shiftl (page_ppn e) 12 in
  _ ← find_page_struct page;
  x ← get_struct page;
  if negb (is_anonymous x) then _ ← drop_ref page; mret None
  else
    _ ← (if writeable e then _ ← store t i (set_writeable e false); invalidate_page copy_from else mret tt);
    r ← map_page to page copy_to (shared_args e);
    mret (Some r).

(** The loop over the entries of a table, up to the first error *)
Fixpoint copy_entries (body : Z -> Z -> X S (Z * Z)) (n : nat) (i offset : Z) : X S (Z * Z) :=
  match n with
  | O => mret (0, offset)
  | Datatypes.S n =>
      '(r, offset) ← body i offset;
      if r =? 0 then copy_entries body n (i + 1) offset else mret (r, offset)
  end.

(** [copy_to_recursive]: a table of [level], [offset] is the bound of what has been copied *)
Fixpoint copy_to_recursive (level : nat) (to absolute_start to_addr size t current_copy_from offset : Z) {struct level} : X S (Z * Z) :=
  match level with
  | O => xfails
  | Datatypes.S below =>
      let shift := 12 + Z.of_nat below * 9 in
      let mask := Z.ones shift in
      let max := Z.ldiff (absolute_start + size + mask) mask in
      let end_index := if Z.shiftr current_copy_from (shift + 9) =? Z.shiftr max (shift + 9) then Z.land (Z.shiftr max shift) 511 else 512 in
      let start_index := Z.land (Z.shiftr current_copy_from shift) 511 in
      copy_entries (fun i offset =>
        e ← load t (Z.to_nat i);
        if negb (present e) then mret (0, offset)
        else
          let current := Z.shiftl (i - start_index) shift + current_copy_from in
          if bool_decide (below = 0%nat) then
            r ← share_page to t (Z.to_nat i) e current (current - absolute_start + to_addr);
            mret (match r with
                  | None => (0, offset)
                  | Some r => if r =? 0 then (0, current - absolute_start + 4096) else (r, offset)
                  end)
          else
            _ ← xassert (negb (pat_size e));
            let current := if i =? start_index then current else Z.ldiff current mask in
            copy_to_recursive below to absolute_start to_addr size (Z.shiftl (page_ppn e) 12) current offset)
        (Z.to_nat (end_index - start_index)) start_index offset
  end.

(** [copy_anonymous_pages]: on an error, what has been copied is taken back *)
Definition copy_anonymous_pages (pt_top_phys to from_addr to_addr size : Z) : X S Z :=
  '(r, offset) ← copy_to_recursive (if use_5lvl_paging then 5 else 4)%nat to from_addr to_addr size pt_top_phys from_addr 0;
  _ ← finalize;
  if r =? 0 then mret 0
  else _ ← invalidate_range to to_addr offset true; _ ← finalize; mret r.

End Paging.
