(* ===== verification/PagingInv.v ===== *)
(** * Page tables as trees

    The bits of the entries; the tables that are reached from the root of a page table, by the
    lists of indices that lead to them; and how a store changes what is reached. *)

From stdpp Require Import base numbers list gmap sets.
From Stdlib Require Import ZArith Lia.
From S2P Require Import Prelude Frames Paging.
Open Scope Z_scope.

(** ** Entries *)

Definition entry_ok (e : x86_PAE_Entry) : Prop := 0 <= avl e < 2 ^ 3 /\ 0 <= page_ppn e < 2 ^ 40 /\ 0 <= avl2 e < 2 ^ 7 /\ 0 <= pk e < 2 ^ 4.

Lemma bit_then_0 b r : Z.testbit (bit_then b r) 0 = b.
Proof. apply Z.add_b2z_double_bit0. Qed.
Lemma bit_then_S b r k : 0 < k -> Z.testbit (bit_then b r) k = Z.testbit r (k - 1).
Proof. intros Hk. unfold bit_then. replace k with (Z.succ (k - 1)) at 1 by lia. rewrite Z.add_comm. destruct b; cbn [Z.b2z]; [apply Z.testbit_odd_succ|rewrite Z.add_0_r; apply Z.testbit_even_succ]; lia. Qed.
Lemma bit_then_shift b r k : 0 < k -> Z.shiftr (bit_then b r) k = Z.shiftr r (k - 1).
Proof. intros Hk. apply Z.bits_inj'. intros i Hi. rewrite !Z.shiftr_spec by lia. rewrite bit_then_S by lia. f_equal. lia. Qed.

Lemma field_then w x r : 0 <= w -> 0 <= x < 2 ^ w -> Z.land (x + 2 ^ w * r) (Z.ones w) = x.
Proof. intros Hw Hx. rewrite Z.land_ones by lia. rewrite Z.mul_comm, Z_mod_plus_full. apply Z.mod_small. lia. Qed.
Lemma field_shift w x r k : 0 <= w <= k -> 0 <= x < 2 ^ w -> Z.shiftr (x + 2 ^ w * r) k = Z.shiftr r (k - w).
Proof.
  intros Hw Hx. replace k with (w + (k - w)) at 1 by lia. rewrite <- Z.shiftr_shiftr by lia. f_equal. rewrite Z.shiftr_div_pow2 by lia.
  rewrite Z.mul_comm, Z.div_add by lia. rewrite Z.div_small by lia. lia.
Qed.

Lemma from_to e : entry_ok e -> from_u64 (to_u64 e) = e.
Proof.
  intros (Ha & Hp & Ha2 & Hk). destruct e as [b0 b1 b2 b3 b4 b5 b6 b7 b8 a p a2 k x]. unfold from_u64, to_u64. cbn [present writeable user_access write_through cache_disabled accessed dirty pat_size global avl page_ppn avl2 pk execution_disabled] in *.
  assert (Hx : forall w, 59 <= w -> Z.shiftr (a + 2 ^ 3 * (p + 2 ^ 40 * (a2 + 2 ^ 7 * (k + 2 ^ 4 * Z.b2z x)))) (w - 9) = Z.shiftr (k + 2 ^ 4 * Z.b2z x) (w - 59)).
  { intros w Hw. rewrite !field_shift by lia. f_equal. lia. }
  f_equal; rewrite ?bit_then_0; repeat (rewrite bit_then_S by lia; rewrite ?bit_then_0); try done; rewrite ?bit_then_shift by lia.
  - rewrite Z.shiftr_0_r. apply field_then; lia.
  - change (12 - 1 - 1 - 1 - 1 - 1 - 1 - 1 - 1 - 1) with 3. rewrite field_shift by lia. rewrite Z.shiftr_0_r. apply field_then; lia.
  - change (52 - 1 - 1 - 1 - 1 - 1 - 1 - 1 - 1 - 1) with 43. rewrite !field_shift by lia. rewrite Z.shiftr_0_r. apply field_then; lia.
  - change (59 - 1 - 1 - 1 - 1 - 1 - 1 - 1 - 1 - 1) with 50. rewrite !field_shift by lia. rewrite Z.shiftr_0_r. apply field_then; lia.
  - change (63 - 1 - 1 - 1 - 1 - 1 - 1 - 1 - 1 - 1) with (0 + 54). rewrite <- Z.shiftr_spec by lia. rewrite !field_shift by lia. change (54 - 3 - 40 - 7 - 4) with 0. rewrite Z.shiftr_0_r. by destruct x.
Qed.

Lemma to_range e : entry_ok e -> 0 <= to_u64 e < 2 ^ 64.
Proof.
  intros (Ha & Hp & Ha2 & Hk). destruct e as [b0 b1 b2 b3 b4 b5 b6 b7 b8 a p a2 k x]. unfold to_u64, bit_then. cbn in *.
  assert (forall b, 0 <= Z.b2z b <= 1) as Hb by (intros []; cbn; lia).
  pose proof (Hb b0). pose proof (Hb b1). pose proof (Hb b2). pose proof (Hb b3). pose proof (Hb b4). pose proof (Hb b5). pose proof (Hb b6). pose proof (Hb b7). pose proof (Hb b8). pose proof (Hb x). lia.
Qed.

Lemma land_ones_range w n : 0 <= n -> 0 <= Z.land w (Z.ones n) < 2 ^ n.
Proof. intros Hn. rewrite Z.land_ones by done. apply Z.mod_pos_bound. lia. Qed.

Lemma from_ok w : entry_ok (from_u64 w).
Proof. split_and!; apply land_ones_range; lia. Qed.

Lemma ppn_frame p : frame p -> 0 <= Z.shiftr p 12 < 2 ^ 40 /\ Z.land (Z.shiftr p 12) (Z.ones 40) = Z.shiftr p 12 /\ Z.shiftl (Z.shiftr p 12) 12 = p.
Proof.
  intros [Hp Hm]. rewrite Z.shiftr_div_pow2, Z.shiftl_mul_pow2 by lia. change (2 ^ 12) with 4096. assert (Hr : 0 <= p / 4096 < 2 ^ 40) by (split; [apply Z.div_pos; lia|apply Z.div_lt_upper_bound; lia]).
  split_and!; [lia|lia| |pose proof (Z.div_mod p 4096); lia]. rewrite Z.land_ones by lia. by apply Z.mod_small.
Qed.


(** ** Indices *)

Lemma level_idx_div level va : level_idx level va = Z.to_nat (va / 2 ^ (9 * Z.of_nat level + 3) mod 512).
Proof. unfold level_idx. rewrite Z.shiftr_div_pow2 by lia. change 511 with (Z.ones 9). by rewrite Z.land_ones by lia. Qed.

Lemma level_idx_lt level va : (level_idx level va < 512)%nat.
Proof. rewrite level_idx_div. pose proof (Z.mod_pos_bound (va / 2 ^ (9 * Z.of_nat level + 3)) 512). lia. Qed.

Lemma level_idx_step level va : va / 2 ^ (9 * Z.of_nat level + 3) = Z.of_nat (level_idx level va) + 512 * (va / 2 ^ (9 * Z.of_nat (S level) + 3)).
Proof.
  rewrite level_idx_div. pose proof (Z.mod_pos_bound (va / 2 ^ (9 * Z.of_nat level + 3)) 512). rewrite Z2Nat.id by lia.
  replace (9 * Z.of_nat (S level) + 3) with (9 * Z.of_nat level + 3 + 9) by lia. rewrite (Z.pow_add_r 2 (9 * Z.of_nat level + 3) 9) by lia. rewrite <- Z.div_div by (try apply Z.pow_nonzero; lia). change (2 ^ 9) with 512. generalize (va / 2 ^ (9 * Z.of_nat level + 3)). intros a. pose proof (Z.div_mod a 512). lia.
Qed.

Lemma level_idx_page level va va' : (1 <= level)%nat -> va / 4096 = va' / 4096 -> level_idx level va = level_idx level va'.
Proof.
  intros Hl E. rewrite !level_idx_div. replace (9 * Z.of_nat level + 3) with (12 + 9 * (Z.of_nat level - 1)) by lia. rewrite Z.pow_add_r by lia. change (2 ^ 12) with 4096.
  rewrite <- !Z.div_div by (try apply Z.pow_nonzero; lia). by rewrite E.
Qed.

Section Forest.
  Context (use_5lvl_paging : bool).

(** The addresses of processes ([user_addr_max]) *)
Definition user_addr_max : Z := if use_5lvl_paging then 2 ^ 56 else 2 ^ 47.
Definition user_va (va : Z) : Prop := 0 <= va < user_addr_max.

Notation levels := (upper_levels use_5lvl_paging).
Definition depth : nat := length levels.

(** The indices that lead to the last table of an address *)
Definition path (va : Z) : list nat := (fun level => level_idx level va) <$> levels.

Lemma path_inj va va' : user_va va -> user_va va' -> path va = path va' -> level_idx 1 va = level_idx 1 va' -> va / 4096 = va' / 4096.
Proof.
  unfold user_va, user_addr_max, path, upper_levels. intros Hv Hv' Hp H1. change 4096 with (2 ^ (9 * Z.of_nat 1 + 3)). rewrite !(level_idx_step 1), H1.
  assert (Hz : forall x b, 0 <= x < b -> 0 < b -> x / b = 0) by (intros; by apply Z.div_small).
  destruct use_5lvl_paging; inversion Hp.
  - rewrite !(level_idx_step 2), !(level_idx_step 3), !(level_idx_step 4), !(level_idx_step 5). change (9 * Z.of_nat 6 + 3) with 57. rewrite !(Hz _ (2 ^ 57)) by lia. lia.
  - rewrite !(level_idx_step 2), !(level_idx_step 3), !(level_idx_step 4). change (9 * Z.of_nat 5 + 3) with 48. rewrite !(Hz _ (2 ^ 48)) by lia. lia.
Qed.

Definition user_path (p : list nat) : Prop := (length p <= depth)%nat /\ Forall (fun i => (i < 512)%nat) p /\ match p with i :: _ => (i < 256)%nat | [] => True end.

Lemma user_path_prefix p q : user_path (p ++ q) -> user_path p.
Proof. intros (H1 & H2 & H3). rewrite length_app in H1. apply Forall_app in H2 as [H2 _]. split_and!; [lia|done|]. by destruct p. Qed.

Lemma path_user va : user_va va -> user_path (path va).
Proof.
  intros Hv. unfold user_va, user_addr_max in Hv. unfold user_path, depth, path. split_and!; [by rewrite length_fmap|apply Forall_fmap, Forall_forall; intros level _; apply level_idx_lt|].
  unfold upper_levels in *. destruct use_5lvl_paging; cbn [fmap list_fmap]; rewrite level_idx_div; [change (9 * Z.of_nat 5 + 3) with 48|change (9 * Z.of_nat 4 + 3) with 39].
  - assert (va / 2 ^ 48 < 256) by (apply Z.div_lt_upper_bound; lia). assert (0 <= va / 2 ^ 48) by (apply Z.div_pos; lia). rewrite Z.mod_small by lia. lia.
  - assert (va / 2 ^ 39 < 256) by (apply Z.div_lt_upper_bound; lia). assert (0 <= va / 2 ^ 39) by (apply Z.div_pos; lia). rewrite Z.mod_small by lia. lia.
Qed.

Lemma user_page va : user_va va -> user_va (va / 4096 * 4096).
Proof.
  unfold user_va. intros [H1 H2]. pose proof (Z.div_mod va 4096). pose proof (Z.mod_pos_bound va 4096). pose proof (Z.div_pos va 4096). lia.
Qed.

(** Addresses of one page *)
Lemma path_page va va' : va / 4096 = va' / 4096 -> path va = path va'.
Proof. intros E. unfold path, upper_levels. destruct use_5lvl_paging; cbn [fmap list_fmap]; by rewrite !(level_idx_page _ va va') by (lia || done). Qed.

Lemma path_length va : length (path va) = depth.
Proof. apply length_fmap. Qed.

(** ** Tables *)

Notation memory := (gmap Z (list Z)).

Definition word (m : memory) (t : Z) (i : nat) : option Z := l ← m !! t; l !! i.
Definition entry (m : memory) (t : Z) (i : nat) : option x86_PAE_Entry := from_u64 <$> word m t i.
Definition child (m : memory) (t : Z) (i : nat) : option Z := e ← entry m t i; if present e then Some (entry_page e) else None.

Fixpoint table_at (m : memory) (t : Z) (p : list nat) : option Z :=
  match p with [] => Some t | i :: p => t ← child m t i; table_at m t p end.

Lemma table_at_app m t p q : table_at m t (p ++ q) = t' ← table_at m t p; table_at m t' q.
Proof. revert t. induction p as [|i p IH]; intros t; [done|]. cbn. destruct (child m t i); [apply IH|done]. Qed.
Lemma table_at_snoc m t p i : table_at m t (p ++ [i]) = t' ← table_at m t p; child m t' i.
Proof. rewrite table_at_app. destruct (table_at m t p); [|done]. cbn. by destruct (child m z i). Qed.

(** The table [t] is reached from the root [r] by the path [p] *)
Definition node (m : memory) (roots : gset Z) (r : Z) (p : list nat) (t : Z) : Prop := r ∈ roots /\ user_path p /\ table_at m r p = Some t.

(** The page tables of processes: their tables are frames that the allocator has handed out, no
    table is reached in two ways, there are no large pages and the entries of tables have no flags *)
Record forest (m : memory) (roots owned : gset Z) : Prop := {
  fo_page r p t : node m roots r p t -> exists l, m !! t = Some l /\ length l = PAGE_WORDS /\ Forall (fun w => 0 <= w < 2 ^ 64) l;
  fo_inj r p r' p' t : node m roots r p t -> node m roots r' p' t -> r = r' /\ p = p';
  fo_owned r p t : node m roots r p t -> t ∈ owned;
  fo_size r p t i e : node m roots r p t -> user_path (p ++ [i]) -> entry m t i = Some e -> pat_size e = false /\ avl e = 0 }.

Lemma node_nil m roots r : r ∈ roots -> node m roots r [] r.
Proof. intros Hr. split_and!; [done|split_and!; [cbn; lia|constructor|done]|done]. Qed.

Lemma node_prefix m roots r p q t : node m roots r (p ++ q) t -> exists t', node m roots r p t' /\ table_at m t' q = Some t.
Proof.
  intros (Hr & Hp & Ht). rewrite table_at_app in Ht. apply bind_Some in Ht as (t' & Ht' & Ht). exists t'. split; [|done]. split_and!; [done|by eapply user_path_prefix|done].
Qed.

Lemma node_entry m roots owned r p t i : forest m roots owned -> node m roots r p t -> (i < 512)%nat -> exists w, word m t i = Some w /\ 0 <= w < 2 ^ 64 /\ entry m t i = Some (from_u64 w).
Proof.
  intros Hf Hn Hi. destruct (fo_page _ _ _ Hf r p t Hn) as (l & El & Hl & Hw). destruct (lookup_lt_is_Some_2 l i) as [w Ew]; [by rewrite Hl|]. unfold entry, word. rewrite El. cbn. rewrite Ew.
  exists w. split_and!; try done; rewrite Forall_lookup in Hw; by destruct (Hw i w Ew).
Qed.

(** Storing an entry *)
Definition set_entry (m : memory) (t : Z) (i : nat) (e : x86_PAE_Entry) : memory := match m !! t with Some l => <[t := <[i := to_u64 e]> l]> m | None => m end.

Lemma entry_set m t i e t' i' : is_Some (word m t i) -> entry_ok e -> entry (set_entry m t i e) t' i' = if decide (t' = t /\ i' = i) then Some e else entry m t' i'.
Proof.
  intros [w Hw] He. unfold entry, word, set_entry in *. apply bind_Some in Hw as (l & El & Hw). rewrite El. destruct (decide (t' = t)) as [->|Hne].
  - rewrite lookup_insert_eq. cbn. rewrite El. cbn. destruct (decide (i' = i)) as [->|Hi].
    + rewrite list_lookup_insert_eq by (by eapply lookup_lt_Some). rewrite decide_True by done. cbn. by rewrite from_to.
    + rewrite list_lookup_insert_ne by done. by rewrite decide_False by (intros [_ ?]; done).
  - rewrite lookup_insert_ne by done. by rewrite decide_False by (intros [? _]; done).
Qed.

(** Memories in which the tables have the same entries, but for one *)
Lemma table_at_agree m m' roots r0 p0 i0 :
  (forall r p t i, node m roots r p t -> user_path (p ++ [i]) -> ~ (r = r0 /\ p = p0 /\ i = i0) -> child m' t i = child m t i) ->
  forall r p, r ∈ roots -> user_path p -> ~ (r = r0 /\ (p0 ++ [i0]) `prefix_of` p) -> table_at m' r p = table_at m r p.
Proof.
  intros Ha r p Hr. induction p as [|i p IH] using rev_ind; [done|]. intros Hp Hne. pose proof (user_path_prefix _ _ Hp) as Hp'.
  rewrite !table_at_snoc, IH; [|done|intros [-> [q Hq]]; apply Hne; split; [done|]; exists (q ++ [i]); by rewrite Hq, <- !app_assoc].
  destruct (table_at m r p) as [t|] eqn:Et; [|done]. cbn. apply (Ha r p); [by split_and!|done|]. intros (-> & -> & ->). apply Hne. split; [done|by exists []; rewrite app_nil_r].
Qed.

Lemma table_at_same m m' roots : (forall r p t i, node m roots r p t -> user_path (p ++ [i]) -> child m' t i = child m t i) ->
  forall r p, r ∈ roots -> user_path p -> table_at m' r p = table_at m r p.
Proof.
  intros Ha r p Hr. induction p as [|i p IH] using rev_ind; [done|]. intros Hp. pose proof (user_path_prefix _ _ Hp) as Hp'.
  rewrite !table_at_snoc, IH by done. destruct (table_at m r p) as [t|] eqn:Et; [|done]. cbn. by apply (Ha r p).
Qed.

Lemma child_set m t i e t' i' : is_Some (word m t i) -> entry_ok e -> ~ (t' = t /\ i' = i) -> child (set_entry m t i e) t' i' = child m t' i'.
Proof. intros Hw He Hne. unfold child. rewrite entry_set by done. by rewrite decide_False. Qed.

Lemma set_entry_page m t i e t' l : set_entry m t i e !! t' = Some l -> entry_ok e ->
  exists l0, m !! t' = Some l0 /\ length l = length l0 /\ (Forall (fun w => 0 <= w < 2 ^ 64) l0 -> Forall (fun w => 0 <= w < 2 ^ 64) l).
Proof.
  intros H He. unfold set_entry in H. destruct (m !! t) as [l0|] eqn:El; [|by exists l]. destruct (decide (t' = t)) as [->|Hne]; [|rewrite lookup_insert_ne in H by done; by exists l].
  rewrite lookup_insert_eq in H. injection H as <-. exists l0. split_and!; [done|apply length_insert|]. intros Hf. apply Forall_insert; [done|by apply to_range].
Qed.

Lemma set_entry_some m t i e t' l0 : m !! t' = Some l0 -> exists l, set_entry m t i e !! t' = Some l.
Proof. intros H. unfold set_entry. destruct (m !! t) as [l|]; [|by exists l0]. destruct (decide (t' = t)) as [->|Hne]; [rewrite lookup_insert_eq|rewrite lookup_insert_ne by done]; by eexists. Qed.

(** Changing an entry of a last table *)
Lemma leaf_store m roots owned r p t i e : forest m roots owned -> node m roots r p t -> length p = depth -> (i < 512)%nat -> entry_ok e ->
  let m' := set_entry m t i e in forest m' roots owned /\ (forall r p, r ∈ roots -> user_path p -> table_at m' r p = table_at m r p)
    /\ forall r p t, node m' roots r p t <-> node m roots r p t.
Proof.
  intros Hf Hn Hp Hi He m'. destruct (node_entry _ _ _ _ _ _ i Hf Hn Hi) as (w & Hw & _).
  assert (Hne : forall r' p' t' j, node m roots r' p' t' -> user_path (p' ++ [j]) -> ~ (t' = t /\ j = i)).
  { intros r' p' t' j Hn' Hp' [-> ->]. destruct (fo_inj _ _ _ Hf _ _ _ _ _ Hn Hn') as [-> ->]. destruct Hp' as [Hl _]. rewrite length_app in Hl. cbn in Hl. lia. }
  assert (Hsame : forall r p, r ∈ roots -> user_path p -> table_at m' r p = table_at m r p).
  { apply table_at_same. intros r' p' t' j Hn' Hp'. apply child_set; [by exists w|done|by eapply Hne]. }
  assert (Hnode : forall r p t, node m' roots r p t <-> node m roots r p t).
  { intros r' p' t'. split; intros (H1 & H2 & H3); split_and!; try done; [by rewrite Hsame in H3|by rewrite Hsame]. }
  split_and!; [|done|done]. split.
  - intros r' p' t' Hn'%Hnode. destruct (fo_page _ _ _ Hf _ _ _ Hn') as (l0 & El0 & Hl0 & Hw0). destruct (set_entry_some m t i e t' l0 El0) as [l El]. exists l. split; [done|].
    destruct (set_entry_page _ _ _ _ _ _ El He) as (l1 & El1 & Hl1 & Hw1). rewrite El0 in El1. injection El1 as <-. split; [lia|auto].
  - intros r1 p1 r2 p2 t' Hn1%Hnode Hn2%Hnode. by apply (fo_inj _ _ _ Hf _ _ _ _ t').
  - intros r' p' t' Hn'%Hnode. by apply (fo_owned _ _ _ Hf r' p').
  - intros r' p' t' j e' Hn'%Hnode Hp' He'. unfold m' in He'. rewrite entry_set in He' by (done || by exists w). rewrite decide_False in He' by (by eapply Hne). by apply (fo_size _ _ _ Hf r' p' t' j).
Qed.

(** What an address is mapped to *)
Definition leaf (m : memory) (r : Z) (p : list nat) (i : nat) : option x86_PAE_Entry :=
  t ← table_at m r p; e ← entry m t i; if present e then Some e else None.
Definition view (m : memory) (r va : Z) : option x86_PAE_Entry := leaf m r (path va) (level_idx 1 va).

Lemma zero_entry i : (i < 512)%nat -> from_u64 <$> replicate PAGE_WORDS 0 !! i = Some empty_entry.
Proof. intros Hi. rewrite lookup_replicate_2 by done. reflexivity. Qed.

(** A page that is in no table *)
Lemma fresh_page m roots owned q l : forest m roots owned -> q ∉ owned -> forall r p t i, node m roots r p t -> entry (<[q := l]> m) t i = entry m t i.
Proof. intros Hf Hq r p t i Hn. unfold entry, word. rewrite lookup_insert_ne; [done|]. intros ->. by apply Hq, (fo_owned _ _ _ Hf r p). Qed.

Section NewTable.
  Context (m : memory) (roots owned : gset Z) (r : Z) (p : list nat) (t : Z) (i : nat) (e0 e : x86_PAE_Entry) (q : Z).
  Hypotheses (Hf : forest m roots owned) (Hn : node m roots r p t) (Hp : user_path (p ++ [i])).
  Hypotheses (He0 : entry m t i = Some e0) (Hnp : present e0 = false) (Hq : q ∉ owned).
  Hypotheses (He : entry_ok e) (Hpr : present e = true) (Hpage : entry_page e = q) (Hsz : pat_size e = false /\ avl e = 0).

Definition with_table : memory := set_entry (<[q := replicate PAGE_WORDS 0]> m) t i e.

Lemma with_table_word : is_Some (word (<[q := replicate PAGE_WORDS 0]> m) t i).
Proof.
  unfold word. rewrite lookup_insert_ne by (intros ->; by apply Hq, (fo_owned _ _ _ Hf r p)). unfold entry, word in He0. destruct (m !! t ≫= _) eqn:E; [|done]. by eexists.
Qed.

Lemma with_table_entry t' j : entry with_table t' j = if decide (t' = t /\ j = i) then Some e else entry (<[q := replicate PAGE_WORDS 0]> m) t' j.
Proof. apply entry_set; [apply with_table_word|done]. Qed.

Lemma with_table_node r' p' t' j : node m roots r' p' t' -> ~ (r' = r /\ p' = p /\ j = i) -> entry with_table t' j = entry m t' j.
Proof.
  intros Hn' Hne. rewrite with_table_entry. rewrite decide_False; [by eapply fresh_page|]. intros [-> ->]. destruct (fo_inj _ _ _ Hf _ _ _ _ _ Hn Hn') as [-> ->]. by apply Hne.
Qed.

(** Paths that do not use the new entry *)
Lemma with_table_other r' p' : r' ∈ roots -> user_path p' -> ~ (r' = r /\ (p ++ [i]) `prefix_of` p') -> table_at with_table r' p' = table_at m r' p'.
Proof.
  revert r' p'. apply table_at_agree. intros r' p' t' j Hn' Hp' Hne. unfold child. by rewrite (with_table_node r' p').
Qed.

Lemma with_table_self : table_at with_table r p = Some t.
Proof. rewrite with_table_other; [apply Hn|apply Hn|by eapply user_path_prefix|]. intros [_ [s Hs]]. apply (f_equal length) in Hs. rewrite !length_app in Hs. cbn in Hs. lia. Qed.

Lemma with_table_new : table_at with_table r (p ++ [i]) = Some q.
Proof. rewrite table_at_snoc, with_table_self. cbn. unfold child. rewrite with_table_entry, decide_True by done. cbn. by rewrite Hpr, Hpage. Qed.

Lemma with_table_empty j : (j < 512)%nat -> entry with_table q j = Some empty_entry.
Proof.
  intros Hj. rewrite with_table_entry, decide_False by (intros [-> _]; by apply Hq, (fo_owned _ _ _ Hf r p)). unfold entry, word. rewrite lookup_insert_eq. by apply zero_entry.
Qed.

(** Paths through the new entry end there *)
Lemma with_table_beyond p' : user_path p' -> (p ++ [i]) `prefix_of` p' -> table_at with_table r p' = if decide (p' = p ++ [i]) then Some q else None.
Proof.
  intros Hp' [s ->]. rewrite table_at_app, with_table_new. cbn. destruct s as [|j s]; [by rewrite decide_True by (by rewrite app_nil_r)|].
  rewrite decide_False by (intros H; rewrite <- (app_nil_r (p ++ [i])) in H at 2; by apply app_inv_head in H). cbn. unfold child.
  rewrite with_table_empty; [done|]. destruct Hp' as (_ & Hall & _). rewrite Forall_app in Hall. destruct Hall as [_ Hall]. by inversion Hall.
Qed.

Lemma old_beyond p' : (p ++ [i]) `prefix_of` p' -> table_at m r p' = None.
Proof. intros [s ->]. rewrite table_at_app, table_at_snoc. destruct Hn as (_ & _ & ->). cbn. unfold child. rewrite He0. cbn. by rewrite Hnp. Qed.

Lemma with_table_cases r' p' t' : node with_table roots r' p' t' <-> node m roots r' p' t' \/ (r' = r /\ p' = p ++ [i] /\ t' = q).
Proof.
  split.
  - intros (Hr' & Hp' & Ht'). destruct (decide (r' = r /\ (p ++ [i]) `prefix_of` p')) as [[-> Hpre]|Hne].
    + rewrite with_table_beyond in Ht' by done. case_decide; [|done]. injection Ht' as <-. by right.
    + rewrite with_table_other in Ht' by done. left. by split_and!.
  - intros [(Hr' & Hp' & Ht')|(-> & -> & ->)]; [|split_and!; [apply Hn|done|apply with_table_new]]. split_and!; [done..|].
    rewrite with_table_other; [done..|]. intros [-> Hpre]. by rewrite (old_beyond p') in Ht'.
Qed.

Lemma with_table_forest : forest with_table roots ({[q]} ∪ owned).
Proof.
  assert (Hqn : forall r' p', ~ node m roots r' p' q) by (intros r' p' H; by apply Hq, (fo_owned _ _ _ Hf r' p')). split.
  - intros r' p' t' [Hn'|(-> & -> & ->)]%with_table_cases.
    + destruct (fo_page _ _ _ Hf _ _ _ Hn') as (l0 & El0 & Hl0 & Hw0). assert (Hne : t' <> q) by (intros ->; by eapply Hqn).
      assert (El0' : <[q := replicate PAGE_WORDS 0]> m !! t' = Some l0) by (by rewrite lookup_insert_ne).
      destruct (set_entry_some _ t i e t' l0 El0') as [l El]. exists l. split; [done|]. destruct (set_entry_page _ _ _ _ _ _ El He) as (l1 & El1 & Hl1 & Hw1). rewrite El0' in El1. injection El1 as <-. split; [lia|auto].
    + destruct (set_entry_some (<[q := replicate PAGE_WORDS 0]> m) t i e q _ (lookup_insert_eq _ _ _)) as [l El]. exists l. split; [done|]. destruct (set_entry_page _ _ _ _ _ _ El He) as (l1 & El1 & Hl1 & Hw1). rewrite lookup_insert_eq in El1. assert (l1 = replicate PAGE_WORDS 0) as -> by congruence.
      rewrite length_replicate in Hl1. split; [done|]. apply Hw1, Forall_replicate. lia.
  - intros r1 p1 r2 p2 t' [Hn1|(-> & -> & ->)]%with_table_cases [Hn2|(-> & -> & E)]%with_table_cases; [by apply (fo_inj _ _ _ Hf _ _ _ _ t')|subst; by destruct (Hqn r1 p1)|by destruct (Hqn r2 p2)|done].
  - intros r' p' t' [Hn'|(-> & -> & ->)]%with_table_cases; [|set_solver]. pose proof (fo_owned _ _ _ Hf _ _ _ Hn'). set_solver.
  - intros r' p' t' j e' [Hn'|(-> & -> & ->)]%with_table_cases Hp' He'.
    + destruct (decide (r' = r /\ p' = p /\ j = i)) as [(-> & -> & ->)|Hne]; [|rewrite (with_table_node r' p') in He' by done; by apply (fo_size _ _ _ Hf r' p' t' j)].
      destruct Hn as (_ & _ & Ht), Hn' as (_ & _ & Ht'). rewrite Ht in Ht'. injection Ht' as <-. rewrite with_table_entry, decide_True in He' by done. by injection He' as <-.
    + rewrite with_table_empty in He'; [by injection He' as <-|]. destruct Hp' as (_ & Hall & _). rewrite !Forall_app in Hall. destruct Hall as [_ Hall]. by inversion Hall.
Qed.

Lemma with_table_leaf r' p' j : r' ∈ roots -> user_path p' -> length p' = depth -> (j < 512)%nat -> leaf with_table r' p' j = leaf m r' p' j.
Proof.
  intros Hr' Hp' Hl Hj. unfold leaf. destruct (decide (r' = r /\ (p ++ [i]) `prefix_of` p')) as [[-> Hpre]|Hne].
  - rewrite with_table_beyond, old_beyond by done. case_decide; [|done]. cbn. by rewrite with_table_empty.
  - rewrite with_table_other by done. destruct (table_at m r' p') as [t'|] eqn:Et; [|done]. cbn. rewrite (with_table_node r' p'); [done|by split_and!|].
    intros (-> & -> & ->). destruct Hp as [Hpl _]. rewrite length_app in Hpl. cbn in Hpl. lia.
Qed.
End NewTable.

End Forest.
