(* ===== verification/PagingOps.v ===== *)
(** * The operations on page tables

    Each operation of [Paging] on memories in which the page tables of processes are trees. *)

From stdpp Require Import base numbers list gmap sets.
From Stdlib Require Import ZArith Lia.
From S2P Require Import Prelude Frames Paging PagingInv.
Open Scope Z_scope.

Lemma xbind {S A B} (c : X S A) (f : A -> X S B) s a s' : c s = Some (a, s') -> (c ≫= f) s = f a s'.
Proof. intros H. unfold mbind, X_bind. by rewrite H. Qed.

Section Ops.
  Context {S : Type} `{FrameAllocator S} (use_5lvl_paging support_nx : bool).

Notation forest := (forest use_5lvl_paging).
Notation node := (node use_5lvl_paging).
Notation user_path := (user_path use_5lvl_paging).
Notation depth := (depth use_5lvl_paging).
Notation path := (path use_5lvl_paging).
Notation view := (view use_5lvl_paging).
Notation user_va := (user_va use_5lvl_paging).
Notation levels := (upper_levels use_5lvl_paging).

(** The state of the machine: [owned] are the frames in use, some of them tables, others pages
    with a reference count *)
Record machine_ok (s : machine S) (roots owned : gset Z) : Prop := {
  mo_forest : forest (mem s) roots owned;
  mo_owns : owns (frames s) owned;
  mo_structs p x : structs s !! p = Some x -> p ∈ owned /\ frame p /\ 0 < refcount x;
  mo_apart r p t : node (mem s) roots r p t -> structs s !! t = None }.

(** What the making of tables leaves as it is *)
Record extends (s s' : machine S) (roots owned owned' : gset Z) : Prop := {
  ex_ok : machine_ok s' roots owned';
  ex_owned : owned ⊆ owned';
  ex_new q : q ∈ owned' -> q ∈ owned \/ exists r p, node (mem s') roots r p q;
  ex_structs : structs s' = structs s;
  ex_shootdown : shootdown s' = shootdown s;
  ex_node r p t : node (mem s) roots r p t -> node (mem s') roots r p t;
  ex_leaf r p j : r ∈ roots -> user_path p -> length p = depth -> (j < 512)%nat -> leaf (mem s') r p j = leaf (mem s) r p j;
  ex_data q : q ∈ owned -> (forall r p, ~ node (mem s) roots r p q) -> mem s' !! q = mem s !! q /\ forall r p, ~ node (mem s') roots r p q }.

Lemma extends_refl s roots owned : machine_ok s roots owned -> extends s s roots owned owned.
Proof. intros Hs. split; auto. Qed.

Lemma extends_trans s1 s2 s3 roots o1 o2 o3 : extends s1 s2 roots o1 o2 -> extends s2 s3 roots o2 o3 -> extends s1 s3 roots o1 o3.
Proof.
  intros H1 H2. destruct H1, H2. split; [done|set_solver| |congruence|congruence|auto| |].
  - intros q [?|?]%ex_new1; [|by right]. destruct (ex_new0 q) as [?|(r & p & ?)]; [done|by left|right; exists r, p; auto].
  - intros. rewrite ex_leaf1, ex_leaf0; done.
  - intros q Hq Hn. destruct (ex_data0 q Hq Hn) as [E Hn']. destruct (ex_data1 q) as [E' Hn'']; [set_solver|done|]. split; [congruence|done].
Qed.

Lemma load_run t i e (s : machine S) : entry (mem s) t i = Some e -> load t i s = Some (e, s).
Proof. unfold load, entry, word. intros Hx. destruct (mem s !! t) as [l|]; [|done]. cbn in *. destruct (l !! i) as [w|]; [|done]. cbn in *. by injection Hx as <-. Qed.

Definition with_mem (m : gmap Z (list Z)) (s : machine S) : machine S := Machine (frames s) m (structs s) (shootdown s).

Lemma store_run t i e (s : machine S) : is_Some (word (mem s) t i) -> store t i e s = Some (tt, with_mem (set_entry (mem s) t i e) s).
Proof. unfold store, word, set_entry, with_mem. intros [w Hw]. destruct (mem s !! t) as [l|]; [|done]. cbn in *. by rewrite Hw. Qed.

Lemma clear_page_run q (s : machine S) : clear_page q s = Some (tt, with_mem (<[q := replicate PAGE_WORDS 0]> (mem s)) s).
Proof. done. Qed.

Lemma entry_word m t i e : entry m t i = Some e -> is_Some (word m t i).
Proof. unfold entry. destruct (word m t i); [by eexists|done]. Qed.

Lemma table_entry_ok e p user : entry_ok e -> frame p -> let e' := table_entry e p user in entry_ok e' /\ present e' = true /\ entry_page e' = p /\ pat_size e' = pat_size e /\ avl e' = avl e.
Proof.
  intros (H1 & H2 & H3 & H4) Hp. destruct (ppn_frame p Hp) as (Hr & El & Es). cbn. unfold entry_ok, entry_page, table_entry. cbn [avl page_ppn avl2 pk present pat_size]. rewrite El, Es. split_and!; done || lia.
Qed.

(** One level of [map] *)
Lemma next_table_ok reset level user va s roots owned r p t :
  machine_ok s roots owned -> node (mem s) roots r p t -> user_path (p ++ [level_idx level va]) ->
  exists res s' owned', next_table reset level user t va s = Some (res, s') /\ extends s s' roots owned owned' /\
    match res with inr t' => node (mem s') roots r (p ++ [level_idx level va]) t' | inl err => err = - ENOMEM /\ child (mem s) t (level_idx level va) = None end.
Proof.
  intros Hs Hn Hp. set (i := level_idx level va) in *. pose proof (mo_forest _ _ _ Hs) as Hf. destruct (node_entry _ _ _ _ _ _ _ i Hf Hn (level_idx_lt _ _)) as (w & Hw & _ & He).
  destruct (fo_size _ _ _ _ Hf _ _ _ _ _ Hn Hp He) as [Hsz Havl]. unfold next_table. fold i. rewrite (xbind _ _ _ _ _ (load_run _ _ _ _ He)), Hsz, andb_false_r.
  destruct (present (from_u64 w)) eqn:Epr.
  { exists (inr (entry_page (from_u64 w))), s, owned. split_and!; [done|by apply extends_refl|]. destruct Hn as (Hr & _ & Ht). split_and!; [done..|]. rewrite table_at_snoc, Ht. cbn [mbind option_bind]. unfold child. rewrite He. cbn [mbind option_bind]. by rewrite Epr. }
  cbv zeta. set (e0 := if negb reset && _ then _ else _). assert (He0 : entry_ok e0 /\ pat_size e0 = false /\ avl e0 = 0).
  { unfold e0. destruct (negb reset && _); [split; [apply from_ok|done]|done]. }
  destruct (get_frame_ok _ _ (mo_owns _ _ _ Hs)) as (q & f & Hg & Hq). assert (Hnew : new_frame s = Some (q, Machine f (mem s) (structs s) (shootdown s))) by (unfold new_frame; by rewrite Hg).
  rewrite (xbind _ _ _ _ _ Hnew). destruct q as [q|].
  2: { exists (inl (- ENOMEM)), (Machine f (mem s) (structs s) (shootdown s)), owned. split_and!; [done|destruct Hs; split; try done; auto|done|]. unfold child. fold i. rewrite He. cbn [mbind option_bind]. by rewrite Epr. }
  destruct Hq as (Hqo & Hqf & Hown). destruct (table_entry_ok e0 q user (proj1 He0) Hqf) as (Hok & Hpr & Hpg & Hps). destruct He0 as (_ & E1 & E2). rewrite E1, E2 in Hps.
  assert (Hword : is_Some (word (<[q := replicate PAGE_WORDS 0]> (mem s)) t i)) by (by eapply with_table_word).
  rewrite (xbind _ _ _ _ _ (clear_page_run _ _)).
  rewrite (xbind _ _ _ _ _ (store_run _ _ _ (with_mem _ (Machine f (mem s) (structs s) (shootdown s))) Hword)).
  rewrite Hpg. eexists _, _, ({[q]} ∪ owned). split; [reflexivity|]. cbn [mem frames structs shootdown with_mem].
  change (set_entry _ t i _) with (with_table (mem s) t i (table_entry e0 q user) q).
  assert (Hc : forall r' p' t', node (with_table (mem s) t i (table_entry e0 q user) q) roots r' p' t' <-> node (mem s) roots r' p' t' \/ (r' = r /\ p' = p ++ [i] /\ t' = q)) by (intros; by eapply with_table_cases). split; [|apply Hc; by right].
  assert (Hqs : structs s !! q = None) by (destruct (structs s !! q) as [x|] eqn:E; [|done]; by destruct (mo_structs _ _ _ Hs q x E)).
  split; cbn; [split; cbn|set_solver| |done|done| | |].
  - by eapply with_table_forest.
  - done.
  - intros p' x Hx. destruct (mo_structs _ _ _ Hs p' x Hx) as (? & ? & ?). split_and!; [set_solver|done..].
  - intros r' p' t' [Hn'|(-> & -> & ->)]%Hc; [by apply (mo_apart _ _ _ Hs r' p')|done].
  - intros x [->%elem_of_singleton|?]%elem_of_union; [|by left]. right. exists r, (p ++ [i]). apply Hc. by right.
  - intros r' p' t' Hn'. apply Hc. by left.
  - intros r' p' j Hr' Hp' Hl Hj. by eapply with_table_leaf.
  - intros x Hx Hnx. assert (x <> q) by (by intros ->). assert (x <> t) by (by intros ->; apply (Hnx r p)). split; [|intros r' p' [?|(-> & -> & ?)]%Hc; [by apply (Hnx r' p')|done]].
    unfold with_table, set_entry. destruct (_ !! t); [rewrite lookup_insert_ne by done|]; by rewrite lookup_insert_ne.
Qed.

Lemma walk_down_ok reset ls user va s roots owned r p t :
  machine_ok s roots owned -> node (mem s) roots r p t -> user_path (p ++ ((fun l => level_idx l va) <$> ls)) ->
  exists res s' owned', descend reset ls user t va s = Some (res, s') /\ extends s s' roots owned owned' /\
    match res with inr t' => node (mem s') roots r (p ++ ((fun l => level_idx l va) <$> ls)) t' | inl err => err = - ENOMEM /\ table_at (mem s) t ((fun l => level_idx l va) <$> ls) = None end.
Proof.
  revert s owned p t. induction ls as [|level ls IH]; intros s owned p t Hs Hn Hp; cbn [descend].
  { exists (inr t), s, owned. cbn [fmap list_fmap]. rewrite app_nil_r. split_and!; [done|by apply extends_refl|done]. }
  change ((fun l => level_idx l va) <$> level :: ls) with ([level_idx level va] ++ ((fun l => level_idx l va) <$> ls)) in *. rewrite app_assoc in Hp |- *.
  pose proof (user_path_prefix _ _ _ Hp) as Hp1. destruct (next_table_ok reset level user va s roots owned r p t Hs Hn Hp1) as (res & s1 & o1 & Hrun & Hex & Hres). rewrite (xbind _ _ _ _ _ Hrun).
  destruct res as [err|t1].
  { exists (inl err), s1, o1. destruct Hres as [-> Hc]. split_and!; [done..|]. cbn. by rewrite Hc. }
  destruct (IH s1 o1 _ t1 (ex_ok _ _ _ _ _ Hex) Hres Hp) as (res & s2 & o2 & Hrun2 & Hex2 & Hres2).
  exists res, s2, o2. split_and!; [done|by eapply extends_trans|]. destruct res as [err|t2]; [|done]. destruct Hres2 as [-> Hnone]. split; [done|].
  destruct (table_at (mem s) t _) as [t2|] eqn:Et; [|done]. destruct Hn as (Hr & _ & Ht). assert (Hn2 : node (mem s) roots r ((p ++ [level_idx level va]) ++ ((fun l => level_idx l va) <$> ls)) t2).
  { split_and!; [done..|]. by rewrite <- app_assoc, table_at_app, Ht. }
  apply (ex_node _ _ _ _ _ Hex) in Hn2. destruct Hn2 as (_ & _ & Hn2). rewrite table_at_app in Hn2. destruct Hres as (_ & _ & Hres). rewrite Hres in Hn2. cbn in Hn2. congruence.
Qed.

Lemma descend_va reset user va s roots owned r : machine_ok s roots owned -> r ∈ roots -> user_va va ->
  exists res s' owned', descend reset levels user r va s = Some (res, s') /\ extends s s' roots owned owned' /\
    match res with inr t' => node (mem s') roots r (path va) t' | inl err => err = - ENOMEM /\ table_at (mem s) r (path va) = None end.
Proof. intros Hs Hr Hv. apply (walk_down_ok reset levels user va s roots owned r [] r Hs (node_nil _ _ _ _ Hr)). by apply path_user. Qed.

Lemma walk_ok ls va s roots owned r p t : machine_ok s roots owned -> node (mem s) roots r p t -> user_path (p ++ ((fun l => level_idx l va) <$> ls)) ->
  walk ls t va s = Some (table_at (mem s) t ((fun l => level_idx l va) <$> ls), s).
Proof.
  intros Hs. revert p t. induction ls as [|level ls IH]; intros p t Hn Hp; [done|]. cbn [walk].
  destruct (node_entry _ _ _ _ _ _ _ (level_idx level va) (mo_forest _ _ _ Hs) Hn (level_idx_lt _ _)) as (w & _ & _ & He). rewrite (xbind _ _ _ _ _ (load_run _ _ _ _ He)).
  change ((fun l => level_idx l va) <$> level :: ls) with ([level_idx level va] ++ ((fun l => level_idx l va) <$> ls)) in *. cbn [table_at app]. unfold child. rewrite He. cbn [mbind option_bind].
  destruct (present (from_u64 w)) eqn:Epr; [|done]. rewrite app_assoc in Hp. apply (IH (p ++ [level_idx level va])); [|done]. destruct Hn as (Hr & _ & Ht).
  split_and!; [done|by eapply user_path_prefix|]. rewrite table_at_snoc, Ht. cbn [mbind option_bind]. unfold child. rewrite He. cbn [mbind option_bind]. by rewrite Epr.
Qed.

Lemma walk_va va s roots owned r : machine_ok s roots owned -> r ∈ roots -> user_va va -> walk levels r va s = Some (table_at (mem s) r (path va), s).
Proof. intros Hs Hr Hv. apply (walk_ok levels va s roots owned r [] r Hs (node_nil _ _ _ _ Hr)). by apply path_user. Qed.

(** A store to the entry of an address *)
Lemma store_leaf va e s roots owned r t : machine_ok s roots owned -> node (mem s) roots r (path va) t -> user_va va -> entry_ok e ->
  exists s', store t (level_idx 1 va) e s = Some (tt, s') /\ machine_ok s' roots owned /\ frames s' = frames s /\ structs s' = structs s /\ shootdown s' = shootdown s /\
    (forall r p t, node (mem s') roots r p t <-> node (mem s) roots r p t) /\
    (forall r' va', r' ∈ roots -> user_va va' -> view (mem s') r' va' = if decide (r' = r /\ va' / 4096 = va / 4096) then (if present e then Some e else None) else view (mem s) r' va') /\
    (forall q, q <> t -> mem s' !! q = mem s !! q).
Proof.
  intros Hs Hn Hv He. pose proof (mo_forest _ _ _ Hs) as Hf. destruct (node_entry _ _ _ _ _ _ _ (level_idx 1 va) Hf Hn (level_idx_lt _ _)) as (w & Hw & _ & _).
  destruct (leaf_store _ _ _ _ _ _ _ _ e Hf Hn (path_length _ _) (level_idx_lt 1 va) He) as (Hf' & Ht & Hnode). exists (with_mem (set_entry (mem s) t (level_idx 1 va) e) s). cbn.
  split; [by apply store_run; exists w|]. split; [|split_and!; [done..| |]].
  - destruct Hs. split; cbn; [done..|]. intros r' p' t' Hn'%Hnode. by eapply mo_apart0.
  - intros r' va' Hr' Hv'. unfold PagingInv.view, leaf. rewrite Ht by (done || by apply path_user). destruct (table_at (mem s) r' (path va')) as [t'|] eqn:Et.
    2: { rewrite decide_False; [done|]. intros [-> E]. rewrite (path_page _ _ _ E) in Et. destruct Hn as (_ & _ & Hn). congruence. }
    cbn [mbind option_bind]. rewrite entry_set by (done || by exists w). destruct (decide (r' = r /\ va' / 4096 = va / 4096)) as [[-> E]|Hne].
    + rewrite decide_True; [done|]. rewrite (level_idx_page 1 va' va) by (done || lia). split; [|done]. rewrite (path_page _ _ _ E) in Et. destruct Hn as (_ & _ & Hn). congruence.
    + rewrite decide_False; [done|]. intros [-> E]. apply Hne. assert (Hn' : node (mem s) roots r' (path va') t) by (split_and!; [done|by apply path_user|done]).
      destruct (fo_inj _ _ _ _ Hf _ _ _ _ _ Hn Hn') as [-> Ep]. split; [done|]. by apply (path_inj use_5lvl_paging).
  - intros q Hq. unfold set_entry. destruct (mem s !! t); [by rewrite lookup_insert_ne|done].
Qed.

End Ops.
