(* ===== verification/PagingBooks.v ===== *)
(** * Who uses which frame

    The page tables of all processes as one finite map from (root, page number) to entries; what
    each frame that has been handed out is used for; and the reference counts of pages as the
    number of entries that map them and of descriptors that are held. *)

From stdpp Require Import base numbers list gmap sets.
From Stdlib Require Import ZArith Lia.
From S2P Require Import Prelude Frames Paging PagingInv PagingOps.
Open Scope Z_scope.

Notation pmap := (gmap (Z * Z) x86_PAE_Entry).

(** Entries that own a reference, and entries that own their frame *)
Definition shared (e : x86_PAE_Entry) : bool := has (avl e) PAGING_FLAG_STRUCT_PAGE.
Definition private (e : x86_PAE_Entry) : bool := negb (shared e) && negb (has (avl e) PAGING_FLAG_NOFREE).

(** The references to a page that entries own *)
Definition refs (M : pmap) (p : Z) : Z := Z.of_nat (size (filter (fun ke => shared ke.2 = true /\ entry_page ke.2 = p) M)).

Definition private_page (M : pmap) (p : Z) : Prop := exists k e, M !! k = Some e /\ private e = true /\ entry_page e = p.

(** [n] more references of descriptors to a page *)
Definition hold (held : Z -> Z) (p n : Z) : Z -> Z := fun q => if decide (q = p) then held q + n else held q.

Lemma refs_insert M k e p : M !! k = None -> refs (<[k := e]> M) p = refs M p + (if decide (shared e = true /\ entry_page e = p) then 1 else 0).
Proof.
  intros Hk. unfold refs. case_decide as He.
  - rewrite map_filter_insert_True by done. rewrite map_size_insert_None; [lia|]. apply map_lookup_filter_None. by left.
  - rewrite map_filter_insert_False by done. rewrite delete_id by done. lia.
Qed.

Lemma refs_delete M k e p : M !! k = Some e -> refs (delete k M) p = refs M p - (if decide (shared e = true /\ entry_page e = p) then 1 else 0).
Proof.
  intros Hk. rewrite <- (insert_delete_id M k e Hk) at 2. rewrite refs_insert by apply lookup_delete_eq. lia.
Qed.

Lemma refs_pos M k e : M !! k = Some e -> shared e = true -> 0 < refs M (entry_page e).
Proof.
  intros Hk He. rewrite <- (insert_delete_id M k e Hk). rewrite refs_insert by apply lookup_delete_eq. rewrite decide_True by done. unfold refs. lia.
Qed.

Lemma refs_none M p : (forall k e, M !! k = Some e -> shared e = true -> entry_page e <> p) -> refs M p = 0.
Proof.
  intros Hn. unfold refs. rewrite (proj2 (map_size_empty_iff _)); [done|]. apply map_empty. intros k. apply map_lookup_filter_None. right. intros e Hk [He Ep]. by apply (Hn k e).
Qed.

Lemma refs_nonneg M p : 0 <= refs M p.
Proof. unfold refs. lia. Qed.

(** The fields of the invariants under fixed names *)
Ltac open_machine H := destruct H as [Mforest Mowns Mstructs Mapart].
Ltac open_accounts H := destruct H as [Aentry Arefs Aheld Ashared Apage Aowned Aother Aprivate Aunique].

Section Books.
  Context {S : Type} `{FrameAllocator S} (use_5lvl_paging support_nx : bool).

Notation forest := (forest use_5lvl_paging).
Notation node := (node use_5lvl_paging).
Notation path := (path use_5lvl_paging).
Notation view := (view use_5lvl_paging).
Notation user_va := (user_va use_5lvl_paging).
Notation levels := (upper_levels use_5lvl_paging).
Notation machine_ok := (machine_ok use_5lvl_paging).
Notation extends := (extends use_5lvl_paging).

Definition table (s : machine S) (roots : gset Z) (p : Z) : Prop := exists r q, node (mem s) roots r q p.

(** The page tables map [M] *)
Record tree (s : machine S) (roots : gset Z) (M : pmap) : Prop := {
  tr_view r va : r ∈ roots -> user_va va -> view (mem s) r va = M !! (r, va / 4096);
  tr_dom r n e : M !! (r, n) = Some e -> r ∈ roots /\ user_va (n * 4096) }.

(** Each frame is used for one thing: for the rest of the kernel ([other]), as a table, as a page
    with a reference count, or by the entry that maps it *)
Record accounts (s : machine S) (roots owned : gset Z) (M : pmap) (held : Z -> Z) (other : gset Z) : Prop := {
  ac_entry k e : M !! k = Some e -> entry_ok e /\ present e = true;
  ac_refs p x : structs s !! p = Some x -> refcount x = refs M p + held p;
  ac_held p : 0 <= held p /\ (structs s !! p = None -> held p = 0);
  ac_shared k e : M !! k = Some e -> shared e = true -> is_Some (structs s !! entry_page e);
  ac_page p x : structs s !! p = Some x -> is_Some (mem s !! p) /\ (is_anonymous x = true -> owner x = true);
  ac_owned p : p ∈ owned <-> p ∈ other \/ table s roots p \/ is_Some (structs s !! p) \/ private_page M p;
  ac_other p : p ∈ other -> ~ table s roots p /\ structs s !! p = None /\ ~ private_page M p;
  ac_private p : private_page M p -> ~ table s roots p /\ structs s !! p = None;
  ac_unique k k' e e' : M !! k = Some e -> M !! k' = Some e' -> private e = true -> private e' = true -> entry_page e = entry_page e' -> k = k' }.

Record books (s : machine S) (roots owned : gset Z) (M : pmap) (held : Z -> Z) (other : gset Z) : Prop := {
  bo_ok : machine_ok s roots owned;
  bo_tree : tree s roots M;
  bo_accounts : accounts s roots owned M held other }.

Definition with_structs (st : gmap Z page_struct) (s : machine S) : machine S := Machine (frames s) (mem s) st (shootdown s).

(** ** Descriptors *)

(** A page keeps its structure with another count *)
Lemma recount p x n m s roots owned M held other :
  machine_ok s roots owned -> accounts s roots owned M held other -> structs s !! p = Some x ->
  n = refcount x + m -> 0 < n -> 0 <= held p + m ->
  let s' := with_structs (<[p := with_refcount x n]> (structs s)) s in
  machine_ok s' roots owned /\ accounts s' roots owned M (hold held p m) other.
Proof.
  intros Hs Ha Hx -> Hn Hh s'.
  assert (Hst : forall q, is_Some (structs s' !! q) <-> is_Some (structs s !! q)).
  { intros q. cbn. rewrite lookup_insert_is_Some. split; [intros [<-|[_ ?]]; [by eexists|done]|]. intros Hq. destruct (decide (p = q)); [by left|by right]. }
  assert (Hnone : forall q, structs s' !! q = None <-> structs s !! q = None) by (intros q; rewrite !eq_None_not_Some; by rewrite Hst).
  split; [open_machine Hs; split; cbn; [done..| |]|open_accounts Ha; split; cbn; [done| | | | | | | |done]].
  - intros q y [[<- <-]|[Hne Hy]]%lookup_insert_Some; [|by apply Mstructs in Hy]. destruct (Mstructs _ _ Hx) as (? & ? & _). by split_and!.
  - intros r q t Hn'. apply Hnone. by apply (Mapart r q).
  - intros q y [[<- <-]|[Hne Hy]]%lookup_insert_Some; unfold hold; [rewrite decide_True by done; cbn; rewrite (Arefs _ _ Hx); lia|rewrite decide_False by done; by apply Arefs].
  - intros q. unfold hold. destruct (Aheld q) as [Ah0 Ah1]. case_decide; [subst; split; [lia|by rewrite lookup_insert_eq]|split; [done|]]. by rewrite lookup_insert_ne.
  - intros k e Hk He. apply Hst. by apply (Ashared k).
  - intros q y [[<- <-]|[Hne Hy]]%lookup_insert_Some; [|by apply Apage]. cbn. by apply Apage.
  - intros q. rewrite Aowned. specialize (Hst q). cbn in Hst. rewrite Hst. reflexivity.
  - intros q Hq. destruct (Aother q Hq) as (? & ? & ?). split_and!; [done|by apply Hnone|done].
  - intros q Hq. destruct (Aprivate q Hq) as (? & ?). split; [done|by apply Hnone].
Qed.

(** A frame that is not a table is given back *)
Lemma free_machine p s roots owned : machine_ok s roots owned -> p ∈ owned -> ~ table s roots p ->
  exists s', free_frame p (with_structs (delete p (structs s)) s) = Some (tt, s') /\ machine_ok s' roots (owned ∖ {[p]}) /\
    mem s' = mem s /\ structs s' = delete p (structs s) /\ shootdown s' = shootdown s.
Proof.
  intros Hs Hp Ht. open_machine Hs. destruct (put_frame_ok _ _ _ Mowns Hp) as (f & Hf & Hown). eexists. split; [unfold free_frame; cbn; by rewrite Hf|]. cbn. split; [|done].
  assert (Hne : forall r q t, node (mem s) roots r q t -> t <> p) by (intros r q t Hn ->; apply Ht; by exists r, q). split; cbn; [|done| |].
  - destruct Mforest as [F1 F2 F3 F4]. split; [done..| |done]. intros r q t Hn. pose proof (F3 _ _ _ Hn). pose proof (Hne _ _ _ Hn). set_solver.
  - intros q y [Hq Hy]%lookup_delete_Some. destruct (Mstructs q y Hy) as (? & ? & ?). split_and!; [set_solver|done..].
  - intros r q t Hn. apply lookup_delete_None. right. by apply (Mapart r q).
Qed.

(** The machine apart from reference counts *)
Definition same_memory (s s' : machine S) : Prop := mem s' = mem s /\ shootdown s' = shootdown s.

(** A descriptor is given up: with the last reference the page goes back *)
Lemma drop_ref_ok p x s roots owned M held other :
  machine_ok s roots owned -> accounts s roots owned M held other -> structs s !! p = Some x -> 0 < held p ->
  exists s' owned', drop_ref p s = Some (tt, s') /\ machine_ok s' roots owned' /\ accounts s' roots owned' M (hold held p (-1)) other /\ same_memory s s' /\
    structs s' = (if decide (refcount x = 1) then delete p (structs s) else <[p := with_refcount x (refcount x - 1)]> (structs s)).
Proof.
  intros Hs Ha Hx Hh. pose proof (ac_refs _ _ _ _ _ _ Ha p x Hx) as Hr. pose proof (refs_nonneg M p) as Hnn. unfold drop_ref. rewrite (xbind (get_struct p) _ s x s) by (unfold get_struct; by rewrite Hx).
  destruct (refcount x - 1 =? 0) eqn:E.
  - apply Z.eqb_eq in E. rewrite decide_True by lia. rewrite (xbind (del_struct p) _ s tt (with_structs (delete p (structs s)) s)) by done.
    destruct (mo_structs _ _ _ _ Hs p x Hx) as (Hp & _ & _). assert (Ht : ~ table s roots p) by (intros (r & q & Hn); pose proof (mo_apart _ _ _ _ Hs _ _ _ Hn); congruence).
    destruct (free_machine p s roots owned Hs Hp Ht) as (s' & Hrun & Hs' & Em & Est & Esd). exists s', (owned ∖ {[p]}). split_and!; [done..| |done|done].
    assert (Htab : forall q, table s' roots q <-> table s roots q) by (intros q; unfold table; by rewrite Em).
    assert (Hsh : forall k e, M !! k = Some e -> shared e = true -> entry_page e <> p) by (intros k e Hk He <-; pose proof (refs_pos M k e Hk He); lia).
    open_accounts Ha. split; rewrite ?Em, ?Est; [done| | | | | | | |done].
    + intros q y [Hq Hy]%lookup_delete_Some. unfold hold. rewrite decide_False by done. by apply Arefs.
    + intros q. unfold hold. destruct (Aheld q) as [Ah0 Ah1]. case_decide as Hq; [subst; lia|]. split; [done|]. by rewrite lookup_delete_ne.
    + intros k e Hk He. rewrite lookup_delete_ne by (by apply not_eq_sym, (Hsh k)). by apply (Ashared k).
    + intros q y [Hq Hy]%lookup_delete_Some. by apply Apage.
    + intros q. rewrite Htab, lookup_delete_is_Some, elem_of_difference, not_elem_of_singleton, Aowned. split; [naive_solver|]. intros [Ho|[Ht'|[?|Hpr]]]; (split; [naive_solver|]); try (intros ->).
      * destruct (Aother p Ho) as (_ & ? & _). congruence.
      * done.
      * naive_solver.
      * destruct (Aprivate p Hpr). congruence.
    + intros q Hq. rewrite Htab, lookup_delete_None. destruct (Aother q Hq) as (? & ? & ?). split_and!; auto.
    + intros q Hq. rewrite Htab, lookup_delete_None. destruct (Aprivate q Hq) as (? & ?). split_and!; auto.
  - apply Z.eqb_neq in E. rewrite decide_False by lia. destruct (mo_structs _ _ _ _ Hs p x Hx) as (_ & _ & Hpos).
    destruct (recount p x (refcount x - 1) (-1) s roots owned M held other Hs Ha Hx) as [Hs' Ha']; [lia..|]. by exists (with_structs (<[p := with_refcount x (refcount x - 1)]> (structs s)) s), owned.
Qed.

(** A frame of the rest of the kernel is given back *)
Lemma free_other p s roots owned M held other : machine_ok s roots owned -> accounts s roots owned M held other -> p ∈ other ->
  exists s', free_frame p s = Some (tt, s') /\ machine_ok s' roots (owned ∖ {[p]}) /\ accounts s' roots (owned ∖ {[p]}) M held (other ∖ {[p]}) /\ same_memory s s' /\ structs s' = structs s.
Proof.
  intros Hs Ha Hp. destruct (ac_other _ _ _ _ _ _ Ha p Hp) as (Ht & Hst & Hpr). assert (Ho : p ∈ owned) by (apply (ac_owned _ _ _ _ _ _ Ha); by left).
  destruct (free_machine p s roots owned Hs Ho Ht) as (s' & Hrun & Hs' & Em & Est & Esd). rewrite (delete_id _ _ Hst) in Est, Hrun. exists s'. split_and!; [by destruct s|done| |done..].
  assert (Htab : forall q, table s' roots q <-> table s roots q) by (intros q; unfold table; by rewrite Em).
  open_accounts Ha. split; rewrite ?Em, ?Est; [done..| | | |done].
  - intros q. rewrite Htab, !elem_of_difference, not_elem_of_singleton, Aowned. split; [naive_solver|]. intros [Hq|[Hq|[Hq|Hq]]]; (split; [naive_solver|]); [naive_solver| | |]; intros ->; [done| |done]. destruct Hq. congruence.
  - intros q Hq. rewrite Htab. apply Aother. set_solver.
  - intros q Hq. rewrite Htab. by apply Aprivate.
Qed.

Lemma find_page_struct_ok p x s roots owned M held other : machine_ok s roots owned -> accounts s roots owned M held other -> structs s !! p = Some x ->
  let s' := with_structs (<[p := with_refcount x (refcount x + 1)]> (structs s)) s in
  find_page_struct p s = Some (tt, s') /\ machine_ok s' roots owned /\ accounts s' roots owned M (hold held p 1) other.
Proof.
  intros Hs Ha Hx s'. split; [unfold find_page_struct; by rewrite (xbind (get_struct p) _ s x s) by (unfold get_struct; by rewrite Hx)|].
  destruct (mo_structs _ _ _ _ Hs p x Hx) as (_ & _ & Hpos). pose proof (ac_held _ _ _ _ _ _ Ha p). apply recount; [done..|lia|lia].
Qed.

Lemma release_taken_out_page_ok p x s roots owned M held other : machine_ok s roots owned -> accounts s roots owned M held other -> structs s !! p = Some x -> 1 < refcount x -> 0 < held p ->
  let s' := with_structs (<[p := with_refcount x (refcount x - 1)]> (structs s)) s in
  release_taken_out_page p s = Some (tt, s') /\ machine_ok s' roots owned /\ accounts s' roots owned M (hold held p (-1)) other.
Proof.
  intros Hs Ha Hx Hc Hh s'. split.
  - unfold release_taken_out_page. rewrite (xbind (get_struct p) _ s x s) by (unfold get_struct; by rewrite Hx). by rewrite (proj2 (Z.ltb_lt 1 (refcount x)) Hc).
  - apply recount; [done..|lia|lia].
Qed.

(** The same references, counted in another way *)
Lemma accounts_held held' s roots owned M held other : (forall p, held' p = held p) -> accounts s roots owned M held other -> accounts s roots owned M held' other.
Proof. intros E Ha. open_accounts Ha. split; [done| | |done..]; intros; rewrite E; auto. Qed.

(** ** Entries *)

(** What an entry owns, as references and frames of the kernel *)
Definition gain (e : x86_PAE_Entry) (held : Z -> Z) : Z -> Z := if shared e then hold held (entry_page e) 1 else held.
Definition gain_other (e : x86_PAE_Entry) (other : gset Z) : gset Z := if private e then {[entry_page e]} ∪ other else other.

(** An entry is forgotten, and what it owned is now owned by the kernel *)
Lemma take_mapping k e s roots owned M held other : accounts s roots owned M held other -> M !! k = Some e -> accounts s roots owned (delete k M) (gain e held) (gain_other e other).
Proof.
  intros Ha Hk. assert (Hpp : forall p, private_page (delete k M) p -> private_page M p).
  { intros p (k' & e' & [_ Hk']%lookup_delete_Some & He'). by exists k', e'. }
  open_accounts Ha. unfold gain, gain_other. destruct (shared e) eqn:Esh.
  - assert (Epr : private e = false) by (unfold private; by rewrite Esh). rewrite Epr.
    assert (Hpp' : forall p, private_page M p -> private_page (delete k M) p).
    { intros p (k' & e' & Hk' & He' & Ep). exists k', e'. split; [|done]. apply lookup_delete_Some. split; [|done]. intros ->. congruence. }
    split; [| | | |done| | | |].
    + intros k' e' [_ Hk']%lookup_delete_Some. by apply (Aentry k').
    + intros p x Hx. rewrite (refs_delete M k e p Hk), (Arefs p x Hx). unfold hold. repeat case_decide; naive_solver lia.
    + intros p. unfold hold. destruct (Aheld p) as [Ah0 Ah1]. case_decide as Hp; [|done]. split; [lia|]. intros Hn. destruct (Ashared _ _ Hk Esh). subst. congruence.
    + intros k' e' [_ Hk']%lookup_delete_Some. by apply (Ashared k').
    + intros p. rewrite Aowned. naive_solver.
    + intros p Hp. destruct (Aother p Hp) as (? & ? & ?). naive_solver.
    + intros p Hp. naive_solver.
    + intros k1 k2 e1 e2 [_ H1]%lookup_delete_Some [_ H2]%lookup_delete_Some. by apply Aunique.
  - assert (Hr : forall p, refs (delete k M) p = refs M p) by (intros p; rewrite (refs_delete M k e p Hk), decide_False; [lia|intros [? _]; congruence]).
    split; [| |done| |done| | | |].
    + intros k' e' [_ Hk']%lookup_delete_Some. by apply (Aentry k').
    + intros p x Hx. rewrite Hr. by apply Arefs.
    + intros k' e' [_ Hk']%lookup_delete_Some. by apply (Ashared k').
    + intros p. rewrite Aowned. split.
      * intros [?|[?|[?|(k' & e' & Hk' & He' & Ep)]]]; [|by right; left|by right; right; left|]; [destruct (private e); set_solver|].
        destruct (decide (k' = k)) as [->|Hne]; [assert (e' = e) as -> by congruence; rewrite He'; left; set_solver|]. right; right; right. exists k', e'. split; [by rewrite lookup_delete_ne|done].
      * destruct (private e) eqn:Epr; [|naive_solver]. intros [[->%elem_of_singleton|?]%elem_of_union|[?|[?|?]]]; [|naive_solver..]. right; right; right. by exists k, e.
    + intros p Hp. destruct (private e) eqn:Epr; [|destruct (Aother p Hp) as (? & ? & ?); naive_solver]. apply elem_of_union in Hp as [->%elem_of_singleton|Hp]; [|destruct (Aother p Hp) as (? & ? & ?); naive_solver].
      destruct (Aprivate (entry_page e)) as [? ?]; [by exists k, e|]. split_and!; [done..|]. intros (k' & e' & [Hne Hk']%lookup_delete_Some & He' & Ep). apply Hne. by apply (Aunique k k' e e').
    + intros p Hp. naive_solver.
    + intros k1 k2 e1 e2 [_ H1]%lookup_delete_Some [_ H2]%lookup_delete_Some. by apply Aunique.
Qed.

(** What a new entry takes over *)
Definition lose (e : x86_PAE_Entry) (held : Z -> Z) : Z -> Z := if shared e then hold held (entry_page e) (-1) else held.
Definition lose_other (e : x86_PAE_Entry) (other : gset Z) : gset Z := if private e then other ∖ {[entry_page e]} else other.
(** It is there to be taken *)
Definition offered (e : x86_PAE_Entry) (s : machine S) (held : Z -> Z) (other : gset Z) : Prop :=
  entry_ok e /\ present e = true /\ (shared e = true -> is_Some (structs s !! entry_page e) /\ 0 < held (entry_page e)) /\ (private e = true -> entry_page e ∈ other).

Lemma give_entry k e s roots owned M held other : accounts s roots owned M held other -> M !! k = None -> offered e s held other ->
  accounts s roots owned (<[k := e]> M) (lose e held) (lose_other e other).
Proof.
  intros Ha Hk (Hok & Hpres & Hsh & Hprv). assert (Hpp : forall p, private_page (<[k := e]> M) p <-> private_page M p \/ (private e = true /\ entry_page e = p)).
  { intros p. split.
    - intros (k' & e' & [[<- <-]|[Hne Hk']]%lookup_insert_Some & He'); [by right|left; by exists k', e'].
    - intros [(k' & e' & Hk' & He')|He]; [exists k', e'|exists k, e]; (split; [|done]); [|apply lookup_insert_eq]. rewrite lookup_insert_ne; [done|congruence]. }
  open_accounts Ha. assert (Hp0 : private e = true -> ~ table s roots (entry_page e) /\ structs s !! entry_page e = None /\ ~ private_page M (entry_page e)) by auto.
  assert (Hoth : forall p, p ∈ lose_other e other <-> p ∈ other /\ ~ (private e = true /\ entry_page e = p)) by (intros p; unfold lose_other; destruct (private e); set_solver).
  split; [| | | |done| | | |].
  - intros k' e' [[<- <-]|[_ Hk']]%lookup_insert_Some; [done|by apply (Aentry k')].
  - intros p x Hx. rewrite (refs_insert M k e p Hk), (Arefs p x Hx). unfold lose, hold. destruct (shared e); repeat case_decide; naive_solver lia.
  - intros p. unfold lose, hold. destruct (Aheld p) as [Ah0 Ah1]. destruct (shared e); [|done]. case_decide; [|done]. subst. destruct Hsh as [[x Hx] ?]; [done|]. split; [lia|congruence].
  - intros k' e' [[<- <-]|[_ Hk']]%lookup_insert_Some He'; [by apply Hsh|by apply (Ashared k')].
  - intros p. rewrite Aowned, Hpp, Hoth. destruct (decide (private e = true /\ entry_page e = p)) as [[Epr <-]|Hne]; naive_solver.
  - intros p [Hp Hne]%Hoth. rewrite Hpp. destruct (Aother p Hp) as (? & ? & ?). naive_solver.
  - intros p [Hp|[Epr <-]]%Hpp; naive_solver.
  - intros k1 k2 e1 e2 [[<- <-]|[_ H1]]%lookup_insert_Some [[<- <-]|[_ H2]]%lookup_insert_Some Hp1 Hp2 Ep; [done| | |by apply (Aunique k1 k2 e1 e2)].
    + destruct Hp0 as (_ & _ & []); [done|]. by exists k2, e2.
    + destruct Hp0 as (_ & _ & []); [done|]. by exists k1, e1.
Qed.

(** [clear_auto] gives up what the entry owned *)
Lemma clear_auto_ok e s roots owned M held other : machine_ok s roots owned -> accounts s roots owned M (gain e held) (gain_other e other) -> present e = true ->
  (forall p, 0 <= held p) -> (shared e = true -> is_Some (structs s !! entry_page e)) -> (private e = true -> entry_page e ∉ other) ->
  exists s' owned', clear_auto e s = Some (empty_entry, s') /\ machine_ok s' roots owned' /\ accounts s' roots owned' M held other /\ same_memory s s'.
Proof.
  intros Hs Ha Hpres Hheld Hsh Hprv. unfold clear_auto, gain, gain_other in *. rewrite Hpres. cbn [negb]. fold (shared e). unfold private in *. destruct (shared e) eqn:Esh.
  - cbn [negb andb] in Ha. fold (entry_page e). destruct Hsh as [x Hx]; [done|]. set (p := entry_page e) in *. set (st n := <[p := with_refcount x n]> (structs s)).
    destruct (find_page_struct_ok p x s roots owned M _ other Hs Ha Hx) as (Hr1 & Hs1 & Ha1).
    assert (Hx1 : st (refcount x + 1) !! p = Some (with_refcount x (refcount x + 1))) by apply lookup_insert_eq. destruct (mo_structs _ _ _ _ Hs p x Hx) as (_ & _ & Hpos).
    assert (Hh : forall n, hold n p 1 p = n p + 1) by (intros; unfold hold; by rewrite decide_True).
    destruct (release_taken_out_page_ok p _ _ roots owned M _ other Hs1 Ha1 Hx1) as (Hr2 & Hs2 & Ha2); [cbn; lia|rewrite !Hh; specialize (Hheld p); lia|].
    edestruct (drop_ref_ok p) as (s3 & o3 & Hr3 & Hs3 & Ha3 & Hm3 & _); [exact Hs2|exact Ha2|apply lookup_insert_eq|unfold hold; rewrite !decide_True by done; specialize (Hheld p); lia|].
    exists s3, o3. split_and!; [|done| |].
    + rewrite (xbind _ _ s tt s3); [done|]. rewrite (xbind _ _ _ _ _ Hr1), (xbind _ _ _ _ _ Hr2). exact Hr3.
    + eapply accounts_held; [|exact Ha3]. intros q. unfold hold. case_decide; lia.
    + exact Hm3.
  - cbn [negb andb] in *. destruct (has (avl e) PAGING_FLAG_NOFREE) eqn:Enf; cbn [negb] in *; [by exists s, owned|]. fold (entry_page e).
    destruct (free_other (entry_page e) s roots owned M held _ Hs Ha) as (s' & Hr & Hs' & Ha' & Hm & _); [set_solver|]. exists s', (owned ∖ {[entry_page e]}). split_and!; [by rewrite (xbind _ _ _ _ _ Hr)|done| |done].
    assert (E : other = ({[entry_page e]} ∪ other) ∖ {[entry_page e]}) by (specialize (Hprv eq_refl); set_solver). by rewrite E.
Qed.

(** ** Tables *)

(** Tables that are made do not change what is mapped *)
Lemma books_extends s s' roots owned owned' M held other : extends s s' roots owned owned' -> books s roots owned M held other -> books s' roots owned' M held other.
Proof.
  intros He [Hs Ht Ha]. split; [by apply (ex_ok _ _ _ _ _ _ He)| |].
  - destruct Ht as [Tv Td]. split; [|done]. intros r va Hr Hv. rewrite <- Tv by done. apply (ex_leaf _ _ _ _ _ _ He); [done|by apply path_user|apply path_length|apply level_idx_lt].
  - assert (Hold : forall p, p ∈ owned -> ~ table s roots p -> mem s' !! p = mem s !! p /\ ~ table s' roots p).
    { intros p Hp Hn. destruct (ex_data _ _ _ _ _ _ He p Hp) as [E Hn']; [intros r q Hq; apply Hn; by exists r, q|]. split; [done|]. intros (r & q & Hq). by apply (Hn' r q). }
    assert (Hkeep : forall p, table s roots p -> table s' roots p) by (intros p (r & q & Hq); exists r, q; by apply (ex_node _ _ _ _ _ _ He)).
    assert (Hst : forall p, is_Some (structs s !! p) -> ~ table s roots p) by (intros p [x Hx] (r & q & Hq); pose proof (mo_apart _ _ _ _ Hs _ _ _ Hq); congruence).
    open_accounts Ha. pose proof (ex_structs _ _ _ _ _ _ He) as Es. split; rewrite ?Es; [done..| | | | |done].
    + intros p x Hx. destruct (Hold p) as [-> _]; [apply Aowned; right; right; left; by eexists|by apply Hst; eexists|]. by apply Apage.
    + intros p. split.
      * intros [Hp|Hp]%(ex_new _ _ _ _ _ _ He); [|by right; left]. apply Aowned in Hp. naive_solver.
      * intros Hp. assert (p ∈ owned -> p ∈ owned') by apply (ex_owned _ _ _ _ _ _ He). destruct Hp as [Hp|[(r & q & Hq)|Hp]]; [naive_solver| |naive_solver].
        by apply (fo_owned _ _ _ _ (mo_forest _ _ _ _ (ex_ok _ _ _ _ _ _ He)) r q).
    + intros p Hp. destruct (Aother p Hp) as (? & ? & ?). split_and!; [|done..]. apply Hold; [naive_solver|done].
    + intros p Hp. destruct (Aprivate p Hp) as (? & ?). split_and!; [|done..]. apply Hold; [naive_solver|done].
Qed.

(** The entry of an address is stored *)
Lemma tree_store va e s roots owned M r t : machine_ok s roots owned -> tree s roots M -> node (mem s) roots r (path va) t -> user_va va -> entry_ok e -> present e = true ->
  exists s', store t (level_idx 1 va) e s = Some (tt, s') /\ machine_ok s' roots owned /\ tree s' roots (<[(r, va / 4096) := e]> M) /\
    structs s' = structs s /\ shootdown s' = shootdown s /\ (forall r p t, node (mem s') roots r p t <-> node (mem s) roots r p t) /\ (forall q, q <> t -> mem s' !! q = mem s !! q).
Proof.
  intros Hs [Tv Td] Hn Hv He Hpr. destruct (store_leaf _ va e s roots owned r t Hs Hn Hv He) as (s' & Hrun & Hs' & _ & Est & Esd & Hnode & Hview & Hmem). exists s'. split_and!; try done.
  rewrite Hpr in Hview. split.
  - intros r' va' Hr' Hv'. rewrite Hview by done. case_decide as Hd; [destruct Hd as [-> ->]; by rewrite lookup_insert_eq|]. rewrite lookup_insert_ne by (intros [=]; by apply Hd). by apply Tv.
  - intros r' n e' [[[= <- <-] _]|[_ He']]%lookup_insert_Some; [|by apply (Td r' n e')]. split; [by destruct Hn|]. by apply user_page.
Qed.

Lemma tree_clear va e s roots owned M r t : machine_ok s roots owned -> tree s roots M -> node (mem s) roots r (path va) t -> user_va va -> entry_ok e -> present e = false ->
  exists s', store t (level_idx 1 va) e s = Some (tt, s') /\ machine_ok s' roots owned /\ tree s' roots (delete (r, va / 4096) M) /\
    structs s' = structs s /\ shootdown s' = shootdown s /\ (forall r p t, node (mem s') roots r p t <-> node (mem s) roots r p t) /\ (forall q, q <> t -> mem s' !! q = mem s !! q).
Proof.
  intros Hs [Tv Td] Hn Hv He Hpr. destruct (store_leaf _ va e s roots owned r t Hs Hn Hv He) as (s' & Hrun & Hs' & _ & Est & Esd & Hnode & Hview & Hmem). exists s'. split_and!; try done.
  rewrite Hpr in Hview. split.
  - intros r' va' Hr' Hv'. rewrite Hview by done. case_decide as Hd; [destruct Hd as [-> ->]; by rewrite lookup_delete_eq|]. rewrite lookup_delete_ne by (intros [=]; by apply Hd). by apply Tv.
  - intros r' n e' [_ He']%lookup_delete_Some. by apply (Td r' n e').
Qed.

(** Accounts look at memory only for which frames are tables and which pages there are *)
Lemma accounts_memory s s' roots owned M held other : machine_ok s roots owned -> structs s' = structs s -> (forall r p t, node (mem s') roots r p t <-> node (mem s) roots r p t) ->
  (forall q, ~ table s roots q -> is_Some (mem s !! q) -> is_Some (mem s' !! q)) -> accounts s roots owned M held other -> accounts s' roots owned M held other.
Proof.
  intros Hs Es Hnode Hmem Ha. assert (Htab : forall p, table s' roots p <-> table s roots p) by (intros p; split; intros (r & q & Hq%Hnode); by exists r, q).
  open_accounts Ha. split; rewrite ?Es; [done..| | | | |done].
  - intros p x Hx. destruct (Apage p x Hx) as [Hm Ho]. split; [|done]. apply Hmem; [|done]. intros (r & q & Hq). pose proof (mo_apart _ _ _ _ Hs _ _ _ Hq). congruence.
  - intros p. rewrite Htab. apply Aowned.
  - intros p Hp. rewrite Htab. by apply Aother.
  - intros p Hp. rewrite Htab. by apply Aprivate.
Qed.

End Books.
