(* ===== verification/PagingSpec.v ===== *)
(** * What the operations on page tables do

    Mapping, looking up and unmapping as operations on the finite map of [PagingBooks]. *)

From stdpp Require Import base numbers list gmap sets.
From Stdlib Require Import ZArith Lia.
From S2P Require Import Prelude Frames Paging PagingInv PagingOps PagingBooks.
Open Scope Z_scope.

Lemma leaf_entry_ok support_nx phys extra arg : frame phys -> 0 <= extra < 8 ->
  let e := leaf_entry support_nx phys extra arg in entry_ok e /\ present e = true /\ entry_page e = phys /\ avl e = extra.
Proof.
  intros Hp Hx. destruct (ppn_frame phys Hp) as (Hr & El & Es). unfold leaf_entry, entry_ok, entry_page. destruct (cache_bits _) as [wt cd]. cbn [avl page_ppn avl2 pk present]. rewrite El, Es. split_and!; done || lia.
Qed.

Lemma struct_flag extra : 0 <= extra < 4 -> 0 <= Z.lor extra PAGING_FLAG_STRUCT_PAGE < 8 /\ has (Z.lor extra PAGING_FLAG_STRUCT_PAGE) PAGING_FLAG_STRUCT_PAGE = true.
Proof. intros Hx. assert (extra = 0 \/ extra = 1 \/ extra = 2 \/ extra = 3) as [->|[->|[->| ->]]] by lia; done. Qed.

Section Spec.
  Context {S : Type} `{FrameAllocator S} (use_5lvl_paging support_nx : bool).

Notation node := (node use_5lvl_paging).
Notation path := (path use_5lvl_paging).
Notation user_va := (user_va use_5lvl_paging).
Notation levels := (upper_levels use_5lvl_paging).
Notation machine_ok := (machine_ok use_5lvl_paging).
Notation extends := (extends use_5lvl_paging).
Notation table := (table use_5lvl_paging).
Notation books := (books use_5lvl_paging).
Notation accounts := (accounts use_5lvl_paging).
Notation leaf_entry := (leaf_entry support_nx).

(** Pages that are not tables keep what they hold *)
Definition keeps_pages (s s' : machine S) (roots owned : gset Z) : Prop := forall q, q ∈ owned -> ~ table s roots q -> mem s' !! q = mem s !! q.

Lemma extends_keeps s s' roots owned owned' : extends s s' roots owned owned' -> keeps_pages s s' roots owned.
Proof. intros He q Hq Ht. apply (ex_data _ _ _ _ _ _ He); [done|]. intros r p Hn. apply Ht. by exists r, p. Qed.

Lemma extends_keeps_trans s s1 s2 roots owned owned1 : extends s s1 roots owned owned1 -> keeps_pages s1 s2 roots owned1 -> keeps_pages s s2 roots owned.
Proof.
  intros He Hk q Hq Hnt. rewrite Hk; [by apply (extends_keeps _ _ _ _ _ He)|by apply (ex_owned _ _ _ _ _ _ He)|]. intros (r & p & Hn).
  apply (ex_data _ _ _ _ _ _ He q Hq) in Hn; [done|]. intros r1 p1 Hn1. apply Hnt. by exists r1, p1.
Qed.

(** Tables stay where they are, and no page changes its kind *)
Definition keeps_tables (s s' : machine S) (roots : gset Z) : Prop := forall r p t, node (mem s) roots r p t -> node (mem s') roots r p t.
Definition keeps_kinds (s s' : machine S) : Prop := forall p x', structs s' !! p = Some x' -> exists x, structs s !! p = Some x /\ is_anonymous x' = is_anonymous x.

(** The entry of an address in its last table *)
Lemma books_entry s roots owned M held other r va t : books s roots owned M held other -> user_va va -> node (mem s) roots r (path va) t ->
  exists e, entry (mem s) t (level_idx 1 va) = Some e /\ M !! (r, va / 4096) = if present e then Some e else None.
Proof.
  intros Hb Hv Hn. destruct (node_entry _ _ _ _ _ _ _ (level_idx 1 va) (mo_forest _ _ _ _ (bo_ok _ _ _ _ _ _ _ Hb)) Hn (level_idx_lt _ _)) as (w & _ & _ & He).
  exists (from_u64 w). split; [done|]. destruct Hn as (Hr & _ & Ht). rewrite <- (tr_view _ _ _ _ (bo_tree _ _ _ _ _ _ _ Hb) r va Hr Hv). unfold view, leaf. rewrite Ht. cbn [mbind option_bind]. by rewrite He.
Qed.

Lemma books_no_table s roots owned M held other r va : books s roots owned M held other -> r ∈ roots -> user_va va -> table_at (mem s) r (path va) = None -> M !! (r, va / 4096) = None.
Proof. intros Hb Hr Hv Ht. rewrite <- (tr_view _ _ _ _ (bo_tree _ _ _ _ _ _ _ Hb) r va Hr Hv). unfold view, leaf. by rewrite Ht. Qed.

(** An entry is stored where there was none *)
Lemma put_entry va e s roots owned M held other r t : books s roots owned M held other -> user_va va -> node (mem s) roots r (path va) t ->
  M !! (r, va / 4096) = None -> offered e s held other ->
  exists s', store t (level_idx 1 va) e s = Some (tt, s') /\ books s' roots owned (<[(r, va / 4096) := e]> M) (lose e held) (lose_other e other) /\
    structs s' = structs s /\ shootdown s' = shootdown s /\ keeps_pages s s' roots owned /\ keeps_tables s s' roots.
Proof.
  intros [Hs Ht Ha] Hv Hn Hk He. destruct He as (Hok & Hpr & He). destruct (tree_store _ va e s roots owned M r t Hs Ht Hn Hv Hok Hpr) as (s' & Hrun & Hs' & Ht' & Est & Esd & Hnode & Hmem).
  assert (Hkeep : forall q, ~ table s roots q -> mem s' !! q = mem s !! q) by (intros q Hq; apply Hmem; intros ->; apply Hq; by exists r, (path va)).
  exists s'. split_and!; [done| |done..|intros q _; apply Hkeep|intros r' p' t'; apply Hnode]. split; [done..|]. apply (accounts_memory _ s); [done..|intros q Hq; by rewrite Hkeep|]. by apply give_entry.
Qed.

(** ** Mapping *)

Theorem map_page_correct s roots owned M held other r va page x arg :
  books s roots owned M held other -> r ∈ roots -> user_va va -> structs s !! page = Some x -> 0 < held page -> 0 <= arg_extra arg < 4 ->
  exists res s' owned' M', map_page use_5lvl_paging support_nx r page va arg s = Some (res, s') /\
    books s' roots owned' M' (hold held page (-1)) other /\ shootdown s' = shootdown s /\ keeps_pages s s' roots owned /\ keeps_tables s s' roots /\ keeps_kinds s s' /\
    match M !! (r, va / 4096) with
    | Some _ => res = - EEXIST /\ M' = M
    | None => res = 0 /\ M' = <[(r, va / 4096) := leaf_entry page (Z.lor (arg_extra arg) PAGING_FLAG_STRUCT_PAGE) arg]> M \/ res = - ENOMEM /\ M' = M
    end.
Proof.
  intros Hb Hr Hv Hx Hh Hex. pose proof (bo_ok _ _ _ _ _ _ _ Hb) as Hs. destruct (mo_structs _ _ _ _ Hs page x Hx) as (_ & Hfr & _). unfold map_page.
  rewrite (xbind (get_struct page) _ s x s) by (unfold get_struct; by rewrite Hx). rewrite (proj2 (Z.ltb_lt page (2 ^ 52))) by apply Hfr. rewrite (xbind (xassert true) _ s tt s) by done.
  destruct (descend_va _ true (arg_user arg) va s roots owned r Hs Hr Hv) as (res & s1 & o1 & Hrun & He & Hres). rewrite (xbind _ _ _ _ _ Hrun).
  pose proof (books_extends _ _ _ _ _ _ _ _ _ He Hb) as Hb1. pose proof (extends_keeps _ _ _ _ _ He) as Hk1. rewrite <- (ex_structs _ _ _ _ _ _ He) in Hx.
  assert (Hdrop : exists s' owned', drop_ref page s1 = Some (tt, s') /\ books s' roots owned' M (hold held page (-1)) other /\ shootdown s' = shootdown s /\ keeps_pages s s' roots owned /\ keeps_tables s s' roots /\ keeps_kinds s s').
  { destruct Hb1 as [Hs1 [Tv Td] Ha1]. destruct (drop_ref_ok _ page x s1 roots o1 M held other Hs1 Ha1 Hx Hh) as (s' & o' & Hr' & Hs' & Ha' & [Em Esd] & Est). exists s', o'. split_and!; [done| | | | |].
    - split; [done| |done]. split; [|done]. by rewrite Em.
    - rewrite Esd. apply (ex_shootdown _ _ _ _ _ _ He).
    - intros q Hq Hnt. rewrite Em. by apply Hk1.
    - intros r' p' t' Hn'. rewrite Em. by apply (ex_node _ _ _ _ _ _ He).
    - rewrite (ex_structs _ _ _ _ _ _ He) in *. intros p x' Hx'. rewrite Est in Hx'. destruct (decide (refcount x = 1)); [apply lookup_delete_Some in Hx' as [_ ?]; by exists x'|]. apply lookup_insert_Some in Hx' as [[<- <-]|[_ ?]]; [by exists x|by exists x']. }
  destruct Hdrop as (s' & o' & Hdr & Hb' & Hsd' & Hk' & Hkt' & Hkk'). destruct res as [err|t].
  - destruct Hres as [-> Hnone]. rewrite (xbind _ _ _ _ _ Hdr), (books_no_table _ _ _ _ _ _ _ _ Hb Hr Hv Hnone). exists (- ENOMEM), s', o', M. split_and!; auto.
  - destruct (books_entry _ _ _ _ _ _ _ _ _ Hb1 Hv Hres) as (e & Hent & HM). rewrite HM, (xbind _ _ _ _ _ (load_run _ _ _ _ Hent)). destruct (present e); [rewrite (xbind _ _ _ _ _ Hdr); by exists (- EEXIST), s', o', M|].
    destruct (struct_flag _ Hex) as [Hfl Hflag]. destruct (leaf_entry_ok support_nx page _ arg Hfr Hfl) as (Hok & Hpr & Hpg & Havl). set (e' := leaf_entry page _ arg) in *.
    assert (Hsh : shared e' = true) by (unfold shared; by rewrite Havl). assert (Hnp : private e' = false) by (unfold private; by rewrite Hsh).
    destruct (put_entry va e' s1 roots o1 M held other r t Hb1 Hv Hres HM) as (s2 & Hst & Hb2 & Est2 & Hsd2 & Hk2 & Hkt2).
    { split_and!; [done..| |by rewrite Hnp]. intros _. rewrite Hpg. split; [by eexists|done]. }
    rewrite (xbind _ _ _ _ _ Hst). exists 0, s2, o1, (<[(r, va / 4096) := e']> M). unfold lose, lose_other in Hb2. rewrite Hsh, Hnp, Hpg in Hb2. split_and!; [done..| | | | |by left].
    + rewrite Hsd2. apply (ex_shootdown _ _ _ _ _ _ He).
    + by eapply extends_keeps_trans.
    + intros r' p' t' Hn'. by apply Hkt2, (ex_node _ _ _ _ _ _ He).
    + intros p x'. rewrite Est2, (ex_structs _ _ _ _ _ _ He). intros Hx'. by exists x'.
Qed.

(** [x86_Page_Table::map] of a page asserts that it has a structure *)
Lemma map_assertion extra phys s roots owned M held other : books s roots owned M held other -> (has extra PAGING_FLAG_STRUCT_PAGE = true -> is_Some (structs s !! phys)) ->
  exists s' owned', (if has extra PAGING_FLAG_STRUCT_PAGE then _ ← find_page_struct phys; drop_ref phys else mret tt) s = Some (tt, s') /\
    books s' roots owned' M held other /\ mem s' = mem s /\ shootdown s' = shootdown s /\ owned' = owned /\ structs s' = structs s.
Proof.
  intros Hb Hst. destruct (has extra _); [|by exists s, owned]. destruct Hst as [x Hx]; [done|]. destruct Hb as [Hs [Tv Td] Ha]. destruct (mo_structs _ _ _ _ Hs phys x Hx) as (_ & _ & Hpos).
  destruct (find_page_struct_ok _ phys x s roots owned M held other Hs Ha Hx) as (Hr1 & Hs1 & Ha1). rewrite (xbind _ _ _ _ _ Hr1).
  assert (E : drop_ref phys (with_structs (<[phys := with_refcount x (refcount x + 1)]> (structs s)) s) = Some (tt, s)).
  { unfold drop_ref. rewrite (xbind (get_struct phys) _ _ (with_refcount x (refcount x + 1)) (with_structs (<[phys := with_refcount x (refcount x + 1)]> (structs s)) s)) by (unfold get_struct; cbn; by rewrite lookup_insert_eq).
    cbn [refcount with_refcount]. rewrite (proj2 (Z.eqb_neq (refcount x + 1 - 1) 0)) by lia. unfold set_struct, with_structs. cbn. rewrite insert_insert_eq. destruct s as [f m st sd], x as [n a o]. cbn in *. unfold with_refcount. cbn.
    replace (n + 1 - 1) with n by lia. by rewrite (insert_id _ _ _ Hx). }
  rewrite E. exists s, owned. by split_and!.
Qed.

Theorem map_addr_correct s roots owned M held other r va phys arg :
  let e := leaf_entry phys (arg_extra arg) arg in
  books s roots owned M held other -> r ∈ roots -> user_va va -> frame phys -> 0 <= arg_extra arg < 4 -> offered e s held other ->
  exists res s' owned', map_addr use_5lvl_paging support_nx r phys va arg s = Some (res, s') /\ shootdown s' = shootdown s /\ keeps_pages s s' roots owned /\
    match M !! (r, va / 4096) with
    | Some _ => res = - EEXIST /\ books s' roots owned' M held other
    | None => res = 0 /\ books s' roots owned' (<[(r, va / 4096) := e]> M) (lose e held) (lose_other e other) \/ res = - ENOMEM /\ books s' roots owned' M held other
    end.
Proof.
  intros e Hb Hr Hv Hfr Hex Hoff. pose proof (bo_ok _ _ _ _ _ _ _ Hb) as Hs. unfold map_addr.
  assert (E : Z.shiftr phys 52 = 0) by (rewrite Z.shiftr_div_pow2 by lia; apply Z.div_small; apply Hfr). rewrite E, Z.eqb_refl, (xbind (xassert true) _ s tt s) by done.
  destruct (descend_va _ true (arg_user arg) va s roots owned r Hs Hr Hv) as (res & s1 & o1 & Hrun & He & Hres). rewrite (xbind _ _ _ _ _ Hrun).
  pose proof (books_extends _ _ _ _ _ _ _ _ _ He Hb) as Hb1. pose proof (extends_keeps _ _ _ _ _ He) as Hk1. destruct res as [err|t].
  - destruct Hres as [-> Hnone]. rewrite (books_no_table _ _ _ _ _ _ _ _ Hb Hr Hv Hnone). exists (- ENOMEM), s1, o1. split_and!; [done|apply (ex_shootdown _ _ _ _ _ _ He)|done|by right].
  - destruct (books_entry _ _ _ _ _ _ _ _ _ Hb1 Hv Hres) as (e0 & Hent & HM). rewrite HM, (xbind _ _ _ _ _ (load_run _ _ _ _ Hent)). destruct (present e0).
    { exists (- EEXIST), s1, o1. split_and!; [done|apply (ex_shootdown _ _ _ _ _ _ He)|done..]. }
    destruct (leaf_entry_ok support_nx phys _ arg Hfr (conj (proj1 Hex) (Z.lt_trans _ _ 8 (proj2 Hex) eq_refl))) as (Hok & Hpr & Hpg & Havl). fold e in Hok, Hpr, Hpg, Havl.
    assert (Hoff1 : offered e s1 held other) by (destruct Hoff as (? & ? & ? & ?); unfold offered; rewrite (ex_structs _ _ _ _ _ _ He); by split_and!).
    destruct (map_assertion (arg_extra arg) phys s1 roots o1 M held other Hb1) as (s2 & o2 & Ha & Hb2 & Em & Esd & -> & Est).
    { rewrite <- Havl, <- Hpg. intros Hsh. by apply Hoff1. }
    rewrite (xbind _ _ _ _ _ Ha). rewrite <- Em in Hres. assert (Hoff2 : offered e s2 held other) by (unfold offered in *; by rewrite Est).
    destruct (put_entry va e s2 roots o1 M held other r t Hb2 Hv Hres HM Hoff2) as (s3 & Hst & Hb3 & _ & Hsd3 & Hk3 & _). rewrite (xbind _ _ _ _ _ Hst). exists 0, s3, o1. split_and!; [done| | |by left].
    + rewrite Hsd3, Esd. apply (ex_shootdown _ _ _ _ _ _ He).
    + eapply extends_keeps_trans; [done|]. intros q Hq Hnt. rewrite Hk3, Em; [done..|]. unfold PagingBooks.table. by rewrite Em.
Qed.

(** ** Looking up *)

Definition mapping (M : pmap) (r va : Z) : option x86_PAE_Entry := M !! (r, va / 4096).

Lemma walk_books {A} (dflt : A) (f : x86_PAE_Entry -> A) s roots owned M held other r va : books s roots owned M held other -> r ∈ roots -> user_va va ->
  exists e, (t ← walk levels r va; match t with None => mret dflt | Some t => e ← load t (level_idx 1 va); mret (f e) end) s = Some (match e with None => dflt | Some e => f e end, s) /\
    mapping M r va = e ≫= (fun e => if present e then Some e else None).
Proof.
  intros Hb Hr Hv. rewrite (xbind _ _ _ _ _ (walk_va _ va s roots owned r (bo_ok _ _ _ _ _ _ _ Hb) Hr Hv)). destruct (table_at (mem s) r (path va)) as [t|] eqn:Et.
  - assert (Hn : node (mem s) roots r (path va) t) by (split_and!; [done|by apply path_user|done]). destruct (books_entry _ _ _ _ _ _ _ _ _ Hb Hv Hn) as (e & Hent & HM).
    rewrite (xbind _ _ _ _ _ (load_run _ _ _ _ Hent)). by exists (Some e).
  - exists None. split; [done|]. by apply (books_no_table _ _ _ _ _ _ _ _ Hb).
Qed.

Theorem is_mapped_correct s roots owned M held other r va : books s roots owned M held other -> r ∈ roots -> user_va va ->
  is_mapped use_5lvl_paging r va s = Some (bool_decide (is_Some (mapping M r va)), s).
Proof.
  intros Hb Hr Hv. destruct (walk_books false present s roots owned M held other r va Hb Hr Hv) as (e & Hrun & ->). unfold is_mapped. rewrite Hrun. destruct e as [e|]; [|done]. cbn [mbind option_bind]. by destruct (present e).
Qed.

Theorem get_page_mapping_correct s roots owned M held other r va : books s roots owned M held other -> r ∈ roots -> user_va va ->
  exists i, get_page_mapping use_5lvl_paging r va s = Some (i, s) /\
    match mapping M r va with
    | Some e => i = info_of e /\ is_allocated i = true
    | None => is_allocated i = false
    end.
Proof.
  intros Hb Hr Hv. destruct (walk_books no_info info_of s roots owned M held other r va Hb Hr Hv) as (e & Hrun & HM). unfold get_page_mapping. rewrite Hrun, HM. eexists. split; [done|].
  destruct e as [e|]; [|done]. cbn [mbind option_bind]. by destruct (present e) eqn:E.
Qed.

(** ** Unmapping *)

(** The pages that processors are told to drop, after one more *)
Definition noted (sd : list Z) (va : Z) : list Z := if decide (MAX_PAGES <= length sd)%nat then sd else sd ++ [Z.ldiff va 4095].

Lemma invalidate_page_run va s roots owned M held other : books s roots owned M held other ->
  exists s', invalidate_page va s = Some (tt, s') /\ books s' roots owned M held other /\ mem s' = mem s /\ structs s' = structs s /\ shootdown s' = noted (shootdown s) va.
Proof.
  intros Hb. unfold invalidate_page, noted. eexists. split; [done|]. case_bool_decide; case_decide; try done. cbn. split_and!; try done. destruct Hb as [Hs [Tv Td] Ha]. open_machine Hs. open_accounts Ha. by split.
Qed.

(** An entry is cleared, [free]: what it owns is given up *)
Lemma clear_leaf (free : bool) va e s roots owned M held other r t : books s roots owned M held other -> user_va va -> node (mem s) roots r (path va) t -> M !! (r, va / 4096) = Some e ->
  exists s' owned', (e ← (if free then clear_auto e else mret empty_entry : X S x86_PAE_Entry); _ ← store t (level_idx 1 va) e; invalidate_page va) s = Some (tt, s') /\
    books s' roots owned' (delete (r, va / 4096) M) (if free then held else gain e held) (if free then other else gain_other e other) /\
    shootdown s' = noted (shootdown s) va /\ forall q, q <> t -> mem s' !! q = mem s !! q.
Proof.
  intros [Hs Ht Ha] Hv Hn Hk. pose proof (take_mapping _ _ _ _ _ _ _ _ _ Ha Hk) as Ha0. destruct (ac_entry _ _ _ _ _ _ _ Ha _ _ Hk) as [_ Hpr].
  assert (Hc : exists s1 o1, (if free then clear_auto e else mret empty_entry : X S x86_PAE_Entry) s = Some (empty_entry, s1) /\ machine_ok s1 roots o1 /\
    accounts s1 roots o1 (delete (r, va / 4096) M) (if free then held else gain e held) (if free then other else gain_other e other) /\ same_memory s s1).
  { destruct free; [|by exists s, owned]. apply (clear_auto_ok _ e s roots owned); [done..|intros p; apply (ac_held _ _ _ _ _ _ _ Ha)|by apply (ac_shared _ _ _ _ _ _ _ Ha _ _ Hk)|].
    intros Hp Ho. destruct (ac_other _ _ _ _ _ _ _ Ha _ Ho) as (_ & _ & []). by exists (r, va / 4096), e. }
  destruct Hc as (s1 & o1 & Hr1 & Hs1 & Ha1 & Em & Esd). rewrite (xbind _ _ _ _ _ Hr1). assert (Ht1 : tree use_5lvl_paging s1 roots M) by (destruct Ht; split; [by rewrite Em|done]). rewrite <- Em in Hn.
  assert (He0 : entry_ok empty_entry) by done. destruct (tree_clear _ va empty_entry s1 roots o1 M r t Hs1 Ht1 Hn Hv He0 eq_refl) as (s2 & Hr2 & Hs2 & Ht2 & Est2 & Esd2 & Hnode & Hmem).
  rewrite (xbind _ _ _ _ _ Hr2). assert (Hb2 : books s2 roots o1 (delete (r, va / 4096) M) (if free then held else gain e held) (if free then other else gain_other e other)).
  { split; [done..|]. apply (accounts_memory _ s1); [done..| |done]. intros q Hq Hm. rewrite Hmem; [done|]. intros ->. apply Hq. by exists r, (path va). }
  destruct (invalidate_page_run va s2 _ _ _ _ _ Hb2) as (s3 & Hr3 & Hb3 & Em3 & _ & Esd3). exists s3, o1. split_and!; [done..|by rewrite Esd3, Esd2, Esd|]. intros q Hq. by rewrite Em3, Hmem, Em.
Qed.

Lemma invalidate_ok (free : bool) s roots owned M held other r va : books s roots owned M held other -> r ∈ roots -> user_va va ->
  exists s' owned', invalidate use_5lvl_paging r va free s = Some (tt, s') /\ keeps_pages s s' roots owned /\
    match mapping M r va with
    | Some e => books s' roots owned' (delete (r, va / 4096) M) (if free then held else gain e held) (if free then other else gain_other e other) /\ shootdown s' = noted (shootdown s) va
    | None => s' = s /\ owned' = owned
    end.
Proof.
  intros Hb Hr Hv. unfold invalidate, mapping. rewrite (xbind _ _ _ _ _ (walk_va _ va s roots owned r (bo_ok _ _ _ _ _ _ _ Hb) Hr Hv)). destruct (table_at (mem s) r (path va)) as [t|] eqn:Et.
  2: { rewrite (books_no_table _ _ _ _ _ _ _ _ Hb Hr Hv Et). by exists s, owned. }
  assert (Hn : node (mem s) roots r (path va) t) by (split_and!; [done|by apply path_user|done]). destruct (books_entry _ _ _ _ _ _ _ _ _ Hb Hv Hn) as (e & Hent & HM).
  rewrite (xbind _ _ _ _ _ (load_run _ _ _ _ Hent)), HM. destruct (present e); [|by exists s, owned]. cbn [negb].
  destruct (clear_leaf free va e s roots owned M held other r t Hb Hv Hn HM) as (s' & o' & Hrun & Hb' & Hsd & Hmem). exists s', o'. split_and!; [done| |done..].
  intros q Hq Hnt. apply Hmem. intros ->. apply Hnt. by exists r, (path va).
Qed.

(** The entries of [n] pages from [v] on are gone *)
Definition without (M : pmap) (r v : Z) (n : nat) : pmap := filter (fun ke => ~ (ke.1.1 = r /\ v <= ke.1.2 < v + Z.of_nat n)) M.

Lemma without_S M r v n : without M r v (Datatypes.S n) = without (delete (r, v) M) r (v + 1) n.
Proof.
  apply map_eq. intros [r' v']. apply option_eq. intros e. unfold without. rewrite !map_lookup_filter_Some, lookup_delete_Some. cbn. split.
  - intros [HM Hne]. split_and!; [intros [= -> ->]; apply Hne; lia|done|]. intros [-> ?]. apply Hne. lia.
  - intros [[Hk HM] Hne]. split; [done|]. intros [-> Hr]. apply Hne. split; [done|]. assert (v' <> v) by (by intros ->). lia.
Qed.

Lemma noted_prefix sd va : exists l, noted sd va = sd ++ l.
Proof. unfold noted. case_decide; [exists []; by rewrite app_nil_r|by eexists]. Qed.

(** Whether processors will drop a page *)
Definition dropped (s : machine S) (va : Z) : Prop := flush_all s = true \/ Z.ldiff va 4095 ∈ shootdown s.

Lemma dropped_prefix (s s' : machine S) va l : shootdown s' = shootdown s ++ l -> dropped s va -> dropped s' va.
Proof.
  unfold dropped, flush_all. intros E [Hf|Hin]; [left|right; rewrite E; set_solver]. apply bool_decide_eq_true in Hf. apply bool_decide_eq_true. rewrite E, length_app. lia.
Qed.

Lemma noted_dropped (s s' : machine S) va : shootdown s' = noted (shootdown s) va -> dropped s' va.
Proof. unfold dropped, flush_all. intros ->. unfold noted. case_decide as Hl; [left; by apply bool_decide_eq_true|right; set_solver]. Qed.

Lemma invalidate_loop_ok n s roots owned M held other r va : books s roots owned M held other -> r ∈ roots -> 0 <= va -> va + 4096 * (Z.of_nat n - 1) < user_addr_max use_5lvl_paging ->
  exists s' owned' l, invalidate_loop use_5lvl_paging n r va true s = Some (tt, s') /\ books s' roots owned' (without M r (va / 4096) n) held other /\
    shootdown s' = shootdown s ++ l /\ (forall i, 0 <= i < Z.of_nat n -> is_Some (M !! (r, va / 4096 + i)) -> dropped s' (va + 4096 * i)).
Proof.
  revert s owned M va. induction n as [|n IH]; intros s owned M va Hb Hr H0 Hmax; cbn [invalidate_loop].
  { exists s, owned, []. rewrite app_nil_r. split_and!; [done| |done|lia]. unfold without. by rewrite map_filter_id by lia. }
  assert (Hv : user_va va) by (split; lia). destruct (invalidate_ok true s roots owned M held other r va Hb Hr Hv) as (s1 & o1 & Hr1 & _ & Hcase). rewrite (xbind _ _ _ _ _ Hr1). unfold mapping in Hcase.
  assert (Hb1 : books s1 roots o1 (delete (r, va / 4096) M) held other /\ (exists l, shootdown s1 = shootdown s ++ l) /\ (is_Some (M !! (r, va / 4096)) -> dropped s1 va)).
  { destruct (M !! (r, va / 4096)) as [e|] eqn:Ek; [destruct Hcase as [Hb1 Hsd]; split_and!; [done|rewrite Hsd; apply noted_prefix|intros _; by eapply noted_dropped]|].
    destruct Hcase as [-> ->]. rewrite delete_id by done. split_and!; [done|exists []; by rewrite app_nil_r|by intros []]. }
  destruct Hb1 as (Hb1 & [l1 Hl1] & Hd1). destruct (IH s1 o1 _ (va + 4096) Hb1 Hr) as (s2 & o2 & l2 & Hr2 & Hb2 & Hl2 & Hd2); [lia..|].
  assert (Ediv : (va + 4096) / 4096 = va / 4096 + 1) by (replace (va + 4096) with (va + 1 * 4096) by lia; by rewrite Z.div_add by lia). rewrite Ediv in *.
  exists s2, o2, (l1 ++ l2). split_and!; [done|by rewrite without_S|by rewrite Hl2, Hl1, app_assoc|]. intros i Hi Hk. destruct (decide (i = 0)) as [->|Hne].
  - rewrite Z.add_0_r in Hk. rewrite Z.mul_0_r, Z.add_0_r. eapply dropped_prefix; [done|]. by apply Hd1.
  - replace (va + 4096 * i) with (va + 4096 + 4096 * (i - 1)) by lia. apply Hd2; [lia|]. replace (va / 4096 + 1 + (i - 1)) with (va / 4096 + i) by lia. rewrite lookup_delete_ne; [done|]. intros [=]. lia.
Qed.

(** The page numbers of a range of addresses *)
Definition in_range (va size n : Z) : Prop := va <= n * 4096 < va + size.

Theorem invalidate_range_correct s roots owned M held other r va size : books s roots owned M held other -> r ∈ roots -> va mod 4096 = 0 -> 0 <= va -> 0 <= size -> va + size <= user_addr_max use_5lvl_paging ->
  exists s' owned', invalidate_range use_5lvl_paging r va size true s = Some (tt, s') /\
    books s' roots owned' (filter (fun ke => ~ (ke.1.1 = r /\ in_range va size ke.1.2)) M) held other /\
    forall n, in_range va size n -> is_Some (M !! (r, n)) -> flush_all s' = true \/ n * 4096 ∈ shootdown s'.
Proof.
  intros Hb Hr Hal H0 Hsz Hmax. pose proof (Z.div_mod va 4096). assert (Hn : forall n, in_range va size n <-> va / 4096 <= n < va / 4096 + Z.of_nat (pages_in size)).
  { intros n. unfold in_range, pages_in. pose proof (Z.div_mod (size + 4095) 4096). pose proof (Z.mod_pos_bound (size + 4095) 4096). pose proof (Z.div_pos (size + 4095) 4096). lia. }
  destruct (invalidate_loop_ok (pages_in size) s roots owned M held other r va Hb Hr H0) as (s' & o' & l & Hrun & Hb' & Hl & Hd).
  { unfold pages_in. pose proof (Z.div_mod (size + 4095) 4096). pose proof (Z.mod_pos_bound (size + 4095) 4096). pose proof (Z.div_pos (size + 4095) 4096). destruct use_5lvl_paging; cbn in *; lia. }
  exists s', o'. split_and!; [done| |].
  - assert (E : filter (fun ke => ~ (ke.1.1 = r /\ in_range va size ke.1.2)) M = without M r (va / 4096) (pages_in size)) by (apply map_filter_ext; intros [r' n] e _; cbn; by rewrite Hn). by rewrite E.
  - intros n Hin Hk. pose proof (proj1 (Hn n) Hin) as Hin'. destruct (Hd (n - va / 4096)) as [Hf|Hin2]; [lia|by replace (va / 4096 + (n - va / 4096)) with n by lia|by left|right].
    replace (va + 4096 * (n - va / 4096)) with (n * 4096) in Hin2 by lia. change 4095 with (Z.ones 12) in Hin2. rewrite Z.ldiff_ones_r, Z.shiftr_div_pow2, Z.shiftl_mul_pow2 in Hin2 by lia. change (2 ^ 12) with 4096 in Hin2. by rewrite Z.div_mul in Hin2 by lia.
Qed.

End Spec.
