(* ===== verification/PagingCow.v ===== *)
(** * Copy on write

    [resolve_anonymous_page], the first write to a page that may be shared, and
    [copy_anonymous_pages], which shares the pages of a process with another. *)

From stdpp Require Import base numbers list gmap sets.
From Stdlib Require Import ZArith Lia.
From S2P Require Import Prelude Frames Paging PagingInv PagingOps PagingBooks PagingSpec.
Open Scope Z_scope.

Section Cow.
  Context {S : Type} `{FrameAllocator S} (use_5lvl_paging support_nx : bool).

Notation node := (node use_5lvl_paging).
Notation path := (path use_5lvl_paging).
Notation user_va := (user_va use_5lvl_paging).
Notation levels := (upper_levels use_5lvl_paging).
Notation machine_ok := (machine_ok use_5lvl_paging).
Notation table := (table use_5lvl_paging).
Notation books := (books use_5lvl_paging).
Notation accounts := (accounts use_5lvl_paging).
Notation keeps_pages := (keeps_pages use_5lvl_paging).

Lemma get_struct_run p x (s : machine S) : structs s !! p = Some x -> get_struct p s = Some (x, s).
Proof. unfold get_struct. by intros ->. Qed.

(** ** Descriptors and entries, with the tables *)

Lemma tree_memory (s s' : machine S) roots M : mem s' = mem s -> tree use_5lvl_paging s roots M -> tree use_5lvl_paging s' roots M.
Proof. intros E [Tv Td]. split; [by rewrite E|done]. Qed.

Lemma books_find p x s roots owned M held other : books s roots owned M held other -> structs s !! p = Some x ->
  let s' := with_structs (<[p := with_refcount x (refcount x + 1)]> (structs s)) s in
  find_page_struct p s = Some (tt, s') /\ books s' roots owned M (hold held p 1) other.
Proof. intros [Hs Ht Ha] Hx s'. destruct (find_page_struct_ok _ p x s roots owned M held other Hs Ha Hx) as (Hr & Hs' & Ha'). split; [done|]. split; [done|by apply (tree_memory s)|done]. Qed.

Lemma books_release p x s roots owned M held other : books s roots owned M held other -> structs s !! p = Some x -> 1 < refcount x -> 0 < held p ->
  let s' := with_structs (<[p := with_refcount x (refcount x - 1)]> (structs s)) s in
  release_taken_out_page p s = Some (tt, s') /\ books s' roots owned M (hold held p (-1)) other.
Proof. intros [Hs Ht Ha] Hx Hc Hh s'. destruct (release_taken_out_page_ok _ p x s roots owned M held other Hs Ha Hx Hc Hh) as (Hr & Hs' & Ha'). split; [done|]. split; [done|by apply (tree_memory s)|done]. Qed.

Lemma books_drop p x s roots owned M held other : books s roots owned M held other -> structs s !! p = Some x -> 0 < held p ->
  exists s' owned', drop_ref p s = Some (tt, s') /\ books s' roots owned' M (hold held p (-1)) other /\ same_memory s s' /\
    structs s' = (if decide (refcount x = 1) then delete p (structs s) else <[p := with_refcount x (refcount x - 1)]> (structs s)).
Proof.
  intros [Hs Ht Ha] Hx Hh. destruct (drop_ref_ok _ p x s roots owned M held other Hs Ha Hx Hh) as (s' & o' & Hr & Hs' & Ha' & Hm & Est). exists s', o'. split_and!; [done| |done..].
  split; [done| |done]. apply (tree_memory s); [apply Hm|done].
Qed.

Lemma books_held held' s roots owned M held other : (forall p, held' p = held p) -> books s roots owned M held other -> books s roots owned M held' other.
Proof. intros E [Hs Ht Ha]. split; [done..|]. by eapply accounts_held. Qed.

(** An entry is changed *)
Lemma replace_entry va e e' s roots owned M held other r t : books s roots owned M held other -> user_va va -> node (mem s) roots r (path va) t ->
  M !! (r, va / 4096) = Some e -> offered e' s (gain e held) (gain_other e other) ->
  exists s', store t (level_idx 1 va) e' s = Some (tt, s') /\ books s' roots owned (<[(r, va / 4096) := e']> M) (lose e' (gain e held)) (lose_other e' (gain_other e other)) /\
    structs s' = structs s /\ shootdown s' = shootdown s /\ (forall r p t, node (mem s') roots r p t <-> node (mem s) roots r p t) /\ (forall q, q <> t -> mem s' !! q = mem s !! q).
Proof.
  intros [Hs Ht Ha] Hv Hn Hk He. pose proof He as (Hok & Hpr & _). destruct (tree_store _ va e' s roots owned M r t Hs Ht Hn Hv Hok Hpr) as (s' & Hrun & Hs' & Ht' & Est & Esd & Hnode & Hmem).
  exists s'. split_and!; try done. split; [done..|]. apply (accounts_memory _ s); [done..| |].
  - intros q Hq Hm. rewrite Hmem; [done|]. intros ->. apply Hq. by exists r, (path va).
  - rewrite <- insert_delete_eq. apply give_entry; [by apply take_mapping|apply lookup_delete_eq|done].
Qed.

(** An entry is marked as not present *)
Lemma hide_entry va e e' s roots owned M held other r t : books s roots owned M held other -> user_va va -> node (mem s) roots r (path va) t ->
  M !! (r, va / 4096) = Some e -> entry_ok e' -> present e' = false ->
  exists s', store t (level_idx 1 va) e' s = Some (tt, s') /\ books s' roots owned (delete (r, va / 4096) M) (gain e held) (gain_other e other) /\
    structs s' = structs s /\ shootdown s' = shootdown s /\ (forall r p t, node (mem s') roots r p t <-> node (mem s) roots r p t) /\ (forall q, q <> t -> mem s' !! q = mem s !! q).
Proof.
  intros [Hs Ht Ha] Hv Hn Hk Hok Hpr. destruct (tree_clear _ va e' s roots owned M r t Hs Ht Hn Hv Hok Hpr) as (s' & Hrun & Hs' & Ht' & Est & Esd & Hnode & Hmem).
  exists s'. split_and!; try done. split; [done..|]. apply (accounts_memory _ s); [done..| |by apply take_mapping]. intros q Hq Hm. rewrite Hmem; [done|]. intros ->. apply Hq. by exists r, (path va).
Qed.

(** ** New pages *)

(** A page that is in no table can be filled *)
Lemma fill_ok q l s roots owned : machine_ok s roots owned -> ~ table s roots q ->
  let s' := with_mem (<[q := l]> (mem s)) s in machine_ok s' roots owned /\ (forall r p t, node (mem s') roots r p t <-> node (mem s) roots r p t) /\
    (forall M, tree use_5lvl_paging s roots M -> tree use_5lvl_paging s' roots M) /\ (forall M held other, accounts s roots owned M held other -> accounts s' roots owned M held other).
Proof.
  intros Hs Hq s'. assert (Hent : forall r p t i, node (mem s) roots r p t -> entry (mem s') t i = entry (mem s) t i).
  { intros r p t i Hn. unfold entry, word. cbn. rewrite lookup_insert_ne; [done|]. intros ->. apply Hq. by exists r, p. }
  assert (Hat : forall r p, r ∈ roots -> user_path use_5lvl_paging p -> table_at (mem s') r p = table_at (mem s) r p).
  { apply table_at_same. intros r p t i Hn _. unfold child. by rewrite (Hent r p). }
  assert (Hnode : forall r p t, node (mem s') roots r p t <-> node (mem s) roots r p t) by (intros r p t; split; intros (H1 & H2 & H3); split_and!; try done; [by rewrite Hat in H3|by rewrite Hat]).
  split_and!; [|done| |].
  - open_machine Hs. split; cbn; [|done..|by intros r p t Hn%Hnode; apply (Mapart r p)]. destruct Mforest as [F1 F2 F3 F4]. split.
    + intros r p t Hn%Hnode. destruct (F1 r p t Hn) as (l' & El & Hl). exists l'. split; [|done]. rewrite lookup_insert_ne; [done|]. intros ->. apply Hq. by exists r, p.
    + intros r p r' p' t Hn%Hnode Hn'%Hnode. by apply (F2 _ _ _ _ t).
    + intros r p t Hn%Hnode. by apply (F3 r p).
    + intros r p t i e Hn%Hnode Hp. change (<[q := l]> (mem s)) with (mem s'). rewrite (Hent r p) by done. by apply (F4 r p).
  - intros M [Tv Td]. split; [|done]. intros r va Hr Hv. rewrite <- Tv by done. unfold view, leaf. rewrite Hat by (done || by apply path_user). destruct (table_at (mem s) r (path va)) as [t|] eqn:Et; [|done]. cbn [mbind option_bind].
    rewrite (Hent r (path va)); [done|]. split_and!; [done|by apply path_user|done].
  - intros M held other Ha. apply (accounts_memory _ s); [done..| |done]. intros p _ [l' El]. cbn. destruct (decide (q = p)) as [->|?]; [rewrite lookup_insert_eq|rewrite lookup_insert_ne by done]; by eexists.
Qed.

Lemma books_fill q l s roots owned M held other : books s roots owned M held other -> ~ table s roots q ->
  let s' := with_mem (<[q := l]> (mem s)) s in books s' roots owned M held other /\ forall r p t, node (mem s') roots r p t <-> node (mem s) roots r p t.
Proof. intros [Hs Ht Ha] Hq s'. destruct (fill_ok q l s roots owned Hs Hq) as (Hs' & Hnode & Htree & Hacc). split; [|done]. split; auto. Qed.

(** A new frame becomes a page with one reference *)
Lemma books_adopt q x f s roots owned M held other : books s roots owned M held other -> owns f ({[q]} ∪ owned) -> q ∉ owned -> frame q -> is_Some (mem s !! q) ->
  refcount x = 1 -> owner x = true -> books (Machine f (mem s) (<[q := x]> (structs s)) (shootdown s)) roots ({[q]} ∪ owned) M (hold held q 1) other.
Proof.
  intros [Hs Ht Ha] Hf Hq Hfr Hm Hx Hox. open_machine Hs. open_accounts Ha. assert (Hqt : ~ table s roots q) by (intros Htq; apply Hq, Aowned; by right; left).
  assert (Hqs : structs s !! q = None) by (apply eq_None_not_Some; intros ?; apply Hq, Aowned; by right; right; left).
  split; [split; cbn; [|done| |]|by apply (tree_memory s)|split; cbn; [done| | | | | | | |done]].
  - destruct Mforest as [F1 F2 F3 F4]. split; [done..| |done]. intros r p t Hn. apply elem_of_union_r. by apply (F3 r p).
  - intros p y [[<- <-]|[Hne Hy]]%lookup_insert_Some; [split_and!; [set_solver|done|lia]|]. destruct (Mstructs p y Hy) as (? & ? & ?). split_and!; [set_solver|done..].
  - intros r p t Hn. rewrite lookup_insert_ne; [by apply (Mapart r p)|]. intros <-. apply Hqt. by exists r, p.
  - intros p y [[<- <-]|[Hne Hy]]%lookup_insert_Some; unfold hold; [|rewrite decide_False by done; by apply Arefs]. rewrite decide_True by done. rewrite Hx, (proj2 (Aheld q) Hqs).
    assert (Hr0 : refs M q = 0); [|lia]. apply refs_none. intros k e Hk He Ep. destruct (Ashared k e Hk He). congruence.
  - intros p. unfold hold. destruct (Aheld p) as [Ah0 Ah1]. case_decide as Hp; [subst; split; [lia|by rewrite lookup_insert_eq]|split; [done|by rewrite lookup_insert_ne]].
  - intros k e Hk He. destruct (Ashared k e Hk He) as [y Hy]. exists y. rewrite lookup_insert_ne; [done|congruence].
  - intros p y [[<- <-]|[Hne Hy]]%lookup_insert_Some; [done|by apply Apage].
  - intros p. rewrite elem_of_union, elem_of_singleton, lookup_insert_is_Some', Aowned. naive_solver.
  - intros p Hp. destruct (Aother p Hp) as (? & ? & ?). split_and!; [done| |done]. rewrite lookup_insert_ne; [done|]. intros <-. apply Hq, Aowned. by left.
  - intros p Hp. destruct (Aprivate p Hp) as (? & ?). split_and!; [done|]. rewrite lookup_insert_ne; [done|]. intros <-. apply Hq, Aowned. by right; right; right.
Qed.

Lemma request_anonymous_page_ok s roots owned M held other : books s roots owned M held other ->
  exists res s', request_anonymous_page s = Some (res, s') /\ shootdown s' = shootdown s /\ (forall r p t, node (mem s') roots r p t <-> node (mem s) roots r p t) /\
    match res with
    | None => books s' roots owned M held other /\ mem s' = mem s /\ structs s' = structs s
    | Some q => q ∉ owned /\ frame q /\ books s' roots ({[q]} ∪ owned) M (hold held q 1) other /\ mem s' = <[q := replicate PAGE_WORDS 0]> (mem s) /\ structs s' = <[q := PageStruct 1 true true]> (structs s)
    end.
Proof.
  intros Hb. destruct (get_frame_ok _ _ (mo_owns _ _ _ _ (bo_ok _ _ _ _ _ _ _ Hb))) as (res & f & Hg & Hres). unfold request_anonymous_page.
  assert (Hnew : new_frame s = Some (res, Machine f (mem s) (structs s) (shootdown s))) by (unfold new_frame; by rewrite Hg). rewrite (xbind _ _ _ _ _ Hnew). destruct res as [q|].
  2: { exists None, (Machine f (mem s) (structs s) (shootdown s)). cbn. split_and!; try done. destruct Hb as [Hs [Tv Td] Ha]. open_machine Hs. open_accounts Ha. by split. }
  destruct Hres as (Hq & Hfr & Hown). assert (Hqt : ~ table s roots q) by (intros (r & p & Hn); apply Hq, (fo_owned _ _ _ _ (mo_forest _ _ _ _ (bo_ok _ _ _ _ _ _ _ Hb)) _ _ _ Hn)).
  destruct (books_fill q (replicate PAGE_WORDS 0) s roots owned M held other Hb Hqt) as [Hb1 Hnode]. exists (Some q). eexists. split; [reflexivity|]. cbn. split_and!; [done..| |done|done].
  apply (books_adopt q (PageStruct 1 true true) f _ roots owned M held other Hb1 Hown Hq Hfr); [|done..]. cbn. rewrite lookup_insert_eq. by eexists.
Qed.

Lemma finalize_ok s roots owned M held other : books s roots owned M held other -> finalize s = Some (tt, Machine (frames s) (mem s) (structs s) []) /\ books (Machine (frames s) (mem s) (structs s) []) roots owned M held other.
Proof. intros [Hs [Tv Td] Ha]. open_machine Hs. open_accounts Ha. by split_and!. Qed.

Lemma copy_page_ok from to s roots owned M held other : books s roots owned M held other -> is_Some (mem s !! from) -> ~ table s roots to ->
  exists s', copy_page from to s = Some (tt, s') /\ books s' roots owned M held other /\ structs s' = structs s /\ (forall r p t, node (mem s') roots r p t <-> node (mem s) roots r p t) /\
    mem s' !! to = mem s !! from /\ forall q, q <> to -> mem s' !! q = mem s !! q.
Proof.
  intros Hb [l Hl] Ht. destruct (books_fill to l s roots owned M held other Hb Ht) as [Hb' Hnode]. exists (with_mem (<[to := l]> (mem s)) s). split_and!; try done.
  - unfold copy_page. by rewrite Hl.
  - cbn. by rewrite lookup_insert_eq.
  - intros q Hq. cbn. by rewrite lookup_insert_ne.
Qed.

(** The entry of the copy *)
Definition copied (e : x86_PAE_Entry) (new : Z) : x86_PAE_Entry := set_present (set_writeable (set_ppn e new) true) true.

Lemma copied_ok e new : entry_ok e -> frame new -> entry_ok (copied e new) /\ entry_page (copied e new) = new.
Proof.
  intros (H1 & H2 & H3 & H4) Hp. destruct (ppn_frame new Hp) as (Hr & El & Es). unfold entry_ok, entry_page. cbn [copied set_present set_writeable set_ppn avl page_ppn avl2 pk]. rewrite El, Es. split_and!; done || lia.
Qed.

Lemma copy_entry va e t r x y new s roots owned M held other : books s roots owned M held other -> user_va va -> node (mem s) roots r (path va) t -> M !! (r, va / 4096) = Some e ->
  shared e = true -> structs s !! entry_page e = Some x -> 2 < refcount x -> structs s !! new = Some y -> new <> entry_page e -> 0 < held (entry_page e) -> 0 < held new ->
  exists s' owned', (_ ← store t (level_idx 1 va) (set_present e false); _ ← invalidate_page va; _ ← finalize; _ ← copy_page (entry_page e) new; _ ← release_taken_out_page (entry_page e);
      _ ← store t (level_idx 1 va) (copied e new); _ ← drop_ref (entry_page e); mret 0) s = Some (0, s') /\
    books s' roots owned' (<[(r, va / 4096) := copied e new]> M) (hold (hold held (entry_page e) (-1)) new (-1)) other /\ mem s' !! new = mem s !! entry_page e /\
    forall q, q ∈ owned -> q <> new -> ~ table s roots q -> mem s' !! q = mem s !! q.
Proof.
  intros Hb Hv Hn Hk Hsh Hx Hc Hy Hne Hh Hhn. set (page := entry_page e) in *. destruct (ac_entry _ _ _ _ _ _ _ (bo_accounts _ _ _ _ _ _ _ Hb) _ _ Hk) as [Hok Hpr].
  assert (Hpv : private e = false) by (unfold private; by rewrite Hsh). assert (Hnt : forall q z, structs s !! q = Some z -> ~ table s roots q).
  { intros q z Hz (r' & p' & Hn'). pose proof (mo_apart _ _ _ _ (bo_ok _ _ _ _ _ _ _ Hb) _ _ _ Hn'). congruence. }
  destruct (mo_structs _ _ _ _ (bo_ok _ _ _ _ _ _ _ Hb) _ _ Hy) as (_ & Hfr & _). destruct (copied_ok e new Hok Hfr) as [Hok' Hpg']. assert (Hsh' : shared (copied e new) = true) by done.
  destruct (hide_entry va e (set_present e false) s roots owned M held other r t Hb Hv Hn Hk Hok eq_refl) as (s1 & Hr1 & Hb1 & Est1 & _ & Hnode1 & Hm1). rewrite (xbind _ _ _ _ _ Hr1). unfold gain, gain_other in Hb1. rewrite Hsh, Hpv in Hb1. fold page in Hb1.
  destruct (invalidate_page_run _ va s1 _ _ _ _ _ Hb1) as (s2 & Hr2 & Hb2 & Em2 & Est2 & _). rewrite (xbind _ _ _ _ _ Hr2). destruct (finalize_ok _ _ _ _ _ _ Hb2) as [Hr3 Hb3]. rewrite (xbind _ _ _ _ _ Hr3).
  set (s3 := Machine (frames s2) (mem s2) (structs s2) []) in *. assert (Est3 : structs s3 = structs s) by (cbn; congruence). assert (Hnode3 : forall r p t, node (mem s3) roots r p t <-> node (mem s) roots r p t) by (cbn; intros; rewrite Em2; apply Hnode1).
  assert (Htab3 : forall q, ~ table s roots q -> ~ table s3 roots q) by (intros q Hq (r' & p' & Hn'%Hnode3); apply Hq; by exists r', p').
  destruct (copy_page_ok page new s3 _ _ _ _ _ Hb3) as (s4 & Hr4 & Hb4 & Est4 & Hnode4 & Hto & Hm4).
  { rewrite <- Est3 in Hx. apply (ac_page _ _ _ _ _ _ _ (bo_accounts _ _ _ _ _ _ _ Hb3) _ _ Hx). } { apply Htab3. by eapply Hnt. }
  rewrite (xbind _ _ _ _ _ Hr4). rewrite <- Est3, <- Est4 in Hx, Hy. destruct (books_release page x s4 _ _ _ _ _ Hb4 Hx) as [Hr5 Hb5]; [lia|unfold hold; rewrite decide_True by done; lia|]. rewrite (xbind _ _ _ _ _ Hr5). set (s5 := with_structs _ s4) in *.
  assert (Hn5 : node (mem s5) roots r (path va) t) by (by apply Hnode4, Hnode3). destruct (put_entry _ va (copied e new) s5 roots owned _ _ other r t Hb5 Hv Hn5 (lookup_delete_eq _ _)) as (s6 & Hr6 & Hb6 & Est6 & _ & Hm6 & _).
  { refine (conj Hok' (conj eq_refl (conj _ _))); [|change (private (copied e new)) with (private e); by rewrite Hpv]. intros _. rewrite Hpg'. cbn. rewrite lookup_insert_ne by done. split; [by eexists|]. unfold hold. by rewrite !decide_False by done. }
  rewrite (xbind _ _ _ _ _ Hr6). rewrite insert_delete_eq in Hb6. unfold lose, lose_other in Hb6. rewrite Hsh', Hpg' in Hb6. change (private (copied e new)) with (private e) in Hb6. rewrite Hpv in Hb6.
  edestruct (books_drop page) as (s7 & o7 & Hr7 & Hb7 & [Em7 _] & _); [exact Hb6|rewrite Est6; apply lookup_insert_eq|unfold hold; rewrite !(decide_True (P := page = page)) by done; rewrite decide_False by done; lia|].
  rewrite (xbind _ _ _ _ _ Hr7). assert (Hown : forall q z, structs s5 !! q = Some z -> q ∈ owned) by (intros q z Hz; apply (ac_owned _ _ _ _ _ _ _ (bo_accounts _ _ _ _ _ _ _ Hb5)); right; right; left; by eexists).
  assert (Htab5 : forall q, ~ table s roots q -> ~ table s5 roots q) by (intros q Hq (r' & p' & Hn'%Hnode4); apply (Htab3 q Hq); by exists r', p').
  assert (Hmid : forall q, ~ table s roots q -> mem s3 !! q = mem s !! q) by (intros q Hq; cbn; rewrite Em2; apply Hm1; intros ->; apply Hq; by exists r, (path va)).
  exists s7, o7. split_and!; [done| | |].
  - eapply books_held; [|exact Hb7]. intros q. unfold hold. repeat case_decide; subst; try lia; done.
  - rewrite Em7, Hm6; [|by eapply (Hown new); cbn; rewrite lookup_insert_ne|by apply Htab5; eapply Hnt; rewrite Est4, Est3 in Hy]. cbn [mem with_structs s5]. rewrite Hto. apply Hmid. eapply Hnt. by rewrite Est4, Est3 in Hx.
  - intros q Hq Hqn Hqt. rewrite Em7, Hm6; [|done|by apply Htab5]. cbn [mem with_structs s5]. rewrite Hm4 by done. by apply Hmid.
Qed.

Lemma refs_replace M k e e' p : M !! k = Some e -> shared e' = true -> entry_page e' = p -> refs (<[k := e']> M) p = refs (delete k M) p + 1.
Proof. intros Hk Hs Hp. rewrite <- insert_delete_eq, refs_insert by apply lookup_delete_eq. by rewrite decide_True. Qed.

(** The only owner may write *)
Lemma claim_entry va e t r x s roots owned M held other : books s roots owned M held other -> user_va va -> node (mem s) roots r (path va) t -> M !! (r, va / 4096) = Some e ->
  shared e = true -> structs s !! entry_page e = Some x -> refcount x = 2 -> 0 < held (entry_page e) ->
  let e' := set_writeable e true in
  exists s' owned', (_ ← store t (level_idx 1 va) e'; _ ← drop_ref (entry_page e); mret 0) s = Some (0, s') /\ books s' roots owned' (<[(r, va / 4096) := e']> M) (hold held (entry_page e) (-1)) other /\
    refs (<[(r, va / 4096) := e']> M) (entry_page e') = 1 /\ forall q, ~ table s roots q -> mem s' !! q = mem s !! q.
Proof.
  intros Hb Hv Hn Hk Hsh Hx Hc Hh e'. destruct (ac_entry _ _ _ _ _ _ _ (bo_accounts _ _ _ _ _ _ _ Hb) _ _ Hk) as [Hok Hpr]. assert (Hpv : private e = false) by (unfold private; by rewrite Hsh).
  assert (Hg : gain e held = hold held (entry_page e) 1 /\ gain_other e other = other) by (unfold gain, gain_other; by rewrite Hsh, Hpv). destruct Hg as [Eg Ego].
  destruct (replace_entry va e e' s roots owned M held other r t Hb Hv Hn Hk) as (s1 & Hr1 & Hb1 & Est & _ & _ & Hm).
  { rewrite Eg, Ego. refine (conj Hok (conj Hpr (conj (fun _ => conj (mk_is_Some _ _ Hx) _) _))); [|change (private e') with (private e); by rewrite Hpv]. change (entry_page e') with (entry_page e). unfold hold. rewrite decide_True by done. lia. }
  rewrite (xbind _ _ _ _ _ Hr1). unfold lose, lose_other in Hb1. change (private e') with (private e) in Hb1. change (shared e') with (shared e) in Hb1. change (entry_page e') with (entry_page e) in Hb1. rewrite Hsh, Hpv, Eg, Ego in Hb1.
  apply (books_held held) in Hb1; [|intros q; unfold hold; case_decide; lia]. rewrite <- Est in Hx. destruct (books_drop _ x s1 _ _ _ _ _ Hb1 Hx Hh) as (s2 & o2 & Hr2 & Hb2 & [Em _] & _). rewrite (xbind _ _ _ _ _ Hr2).
  exists s2, o2. split_and!; [done..| |].
  - change (entry_page e') with (entry_page e). rewrite (refs_replace _ _ e e') by done. pose proof (refs_nonneg (delete (r, va / 4096) M) (entry_page e)) as Hnn.
    pose proof (ac_refs _ _ _ _ _ _ _ (bo_accounts _ _ _ _ _ _ _ Hb1) _ _ Hx) as Hrc. rewrite (refs_replace _ _ e e') in Hrc by done. lia.
  - intros q Hq. rewrite Em. apply Hm. intros ->. apply Hq. by exists r, (path va).
Qed.

(** [resolve_anonymous_page] *)
Theorem resolve_correct s roots owned M held other r va access_type e x :
  books s roots owned M held other -> r ∈ roots -> user_va va -> has access_type 2 = true ->
  M !! (r, va / 4096) = Some e -> shared e = true -> writeable e = false -> structs s !! entry_page e = Some x -> owner x = true ->
  exists res s' owned' M', resolve_anonymous_page use_5lvl_paging r va access_type s = Some (res, s') /\ books s' roots owned' M' held other /\ keeps_pages s s' roots owned /\
    (res = - ENOMEM /\ M' = M /\ 1 < refcount x \/
     res = 0 /\ exists e', M' = <[(r, va / 4096) := e']> M /\ (e' = set_writeable e true \/ exists new, new ∉ owned /\ e' = copied e new) /\
       refs M' (entry_page e') = 1 /\ mem s' !! entry_page e' = mem s !! entry_page e).
Proof.
  intros Hb Hr Hv Hacc Hk Hsh Hw Hx Ho. unfold resolve_anonymous_page. rewrite Hacc, (xbind (xassert true) _ s tt s) by done. rewrite (xbind _ _ _ _ _ (walk_va _ va s roots owned r (bo_ok _ _ _ _ _ _ _ Hb) Hr Hv)).
  destruct (table_at (mem s) r (path va)) as [t|] eqn:Et; [|by rewrite (books_no_table _ _ _ _ _ _ _ _ _ Hb Hr Hv Et) in Hk]. assert (Hn : node (mem s) roots r (path va) t) by (split_and!; [done|by apply path_user|done]).
  destruct (books_entry _ _ _ _ _ _ _ _ _ _ Hb Hv Hn) as (e1 & Hent & HM). rewrite Hk in HM. destruct (present e1) eqn:Epr; [|done]. injection HM as <-. rewrite (xbind _ _ _ _ _ (load_run _ _ _ _ Hent)).
  fold (shared e). rewrite Epr, Hsh, Hw. cbn [andb negb]. rewrite (xbind (xassert true) _ s tt s) by done. fold (entry_page e). destruct (books_find _ x s roots owned M held other Hb Hx) as [Hr1 Hb1]. rewrite (xbind _ _ _ _ _ Hr1). set (s1 := with_structs _ s) in *.
  assert (Hx1 : structs s1 !! entry_page e = Some (with_refcount x (refcount x + 1))) by apply lookup_insert_eq. rewrite (xbind _ _ _ _ _ (get_struct_run _ _ _ Hx1)). cbn [refcount with_refcount owner].
  destruct (mo_structs _ _ _ _ (bo_ok _ _ _ _ _ _ _ Hb) _ _ Hx) as (Hpo & _ & Hpos). pose proof (ac_held _ _ _ _ _ _ _ (bo_accounts _ _ _ _ _ _ _ Hb) (entry_page e)) as [Hh0 _]. assert (Hh1 : hold held (entry_page e) 1 (entry_page e) = held (entry_page e) + 1) by (unfold hold; by rewrite decide_True).
  assert (Hpt : ~ table s roots (entry_page e)) by (intros (r' & p' & Hn'); pose proof (mo_apart _ _ _ _ (bo_ok _ _ _ _ _ _ _ Hb) _ _ _ Hn'); congruence).
  destruct (refcount x + 1 =? 2) eqn:E2.
  - apply Z.eqb_eq in E2. destruct (claim_entry va e t r _ s1 _ _ _ _ _ Hb1 Hv Hn Hk Hsh Hx1) as (s2 & o2 & Hr2 & Hb2 & Href & Hm); [done|lia|]. eexists 0, s2, o2, _. split_and!; [done| |by intros q _; apply Hm|].
    + eapply books_held; [|exact Hb2]. intros q. unfold hold. case_decide; lia.
    + right. split; [done|]. eexists. split_and!; [done|by left|done|by apply Hm].
  - apply Z.eqb_neq in E2. rewrite Ho, (xbind (xassert true) _ s1 tt s1) by done. destruct (request_anonymous_page_ok _ _ _ _ _ _ Hb1) as (res & s2 & Hr2 & _ & Hnode & Hres). rewrite (xbind _ _ _ _ _ Hr2). destruct res as [new|].
    + destruct Hres as (Hnew & Hfr & Hb2 & Em2 & Est2). assert (Hne : new <> entry_page e) by (by intros ->).
      edestruct (copy_entry va e t r (with_refcount x (refcount x + 1)) (PageStruct 1 true true) new s2) as (s3 & o3 & Hr3 & Hb3 & Hm3 & Hk3); [exact Hb2|done|by apply Hnode|done|done|by rewrite Est2, lookup_insert_ne|cbn; lia|by rewrite Est2, lookup_insert_eq|done|unfold hold in *; rewrite decide_False by done; lia| |].
      { unfold hold. rewrite (decide_True (P := new = new)) by done. rewrite decide_False by done. pose proof (ac_held _ _ _ _ _ _ _ (bo_accounts _ _ _ _ _ _ _ Hb) new). lia. }
      exists 0, s3, o3. eexists. assert (Htab : forall q, ~ table s roots q -> ~ table s2 roots q) by (intros q Hq (r' & p' & Hn'%Hnode); apply Hq; by exists r', p'). split_and!; [exact Hr3| | |].
      * eapply books_held; [|exact Hb3]. intros q. unfold hold. repeat case_decide; subst; try lia; done.
      * intros q Hq Hqt. assert (q <> new) by (by intros ->). rewrite Hk3; [|set_solver|done|by apply Htab]. rewrite Em2. by rewrite lookup_insert_ne.
      * right. split; [done|]. exists (copied e new). destruct (ac_entry _ _ _ _ _ _ _ (bo_accounts _ _ _ _ _ _ _ Hb) _ _ Hk) as [Hok _]. destruct (copied_ok e new Hok Hfr) as [_ Hpg]. rewrite Hpg. split_and!; [done|right; by exists new| |by rewrite Hm3, Em2, lookup_insert_ne].
        rewrite (refs_replace _ _ e) by done. rewrite refs_none; [done|]. intros k' e' [_ Hk']%lookup_delete_Some He' Ep. destruct (ac_shared _ _ _ _ _ _ _ (bo_accounts _ _ _ _ _ _ _ Hb) _ _ Hk' He') as [z Hz]. apply Hnew. rewrite <- Ep. by apply (mo_structs _ _ _ _ (bo_ok _ _ _ _ _ _ _ Hb)) in Hz as (? & _).
    + destruct Hres as (Hb2 & Em2 & Est2). rewrite <- Est2 in Hx1. edestruct (books_drop _ _ s2 _ _ _ _ _ Hb2 Hx1) as (s3 & o3 & Hr3 & Hb3 & [Em3 _] & _); [lia|]. rewrite (xbind _ _ _ _ _ Hr3).
      exists (- ENOMEM), s3, o3, M. split_and!; [done| |intros q Hq Hqt; by rewrite Em3, Em2|left; split_and!; [done..|lia]]. eapply books_held; [|exact Hb3]. intros q. unfold hold. case_decide; lia.
Qed.

End Cow.
