(* ===== verification/PagingFree.v ===== *)
(** * The end of a page table

    [~x86_Page_Table] frees the tables of a process from the bottom up, the pages they map
    before them.  While it does, the tables of the process count as frames of the kernel, and
    the entries below the page number that has been reached are gone. *)

From stdpp Require Import base numbers list gmap sets.
From Stdlib Require Import ZArith Lia.
From S2P Require Import Prelude Frames Paging PagingInv PagingOps PagingBooks PagingSpec PagingCow.
Open Scope Z_scope.

(** ** Page numbers and paths *)

(** The number that indices write in base 512 *)
Definition num (p : list nat) : Z := fold_left (fun n i => 512 * n + Z.of_nat i) p 0.

Lemma num_snoc p i : num (p ++ [i]) = 512 * num p + Z.of_nat i.
Proof. unfold num. by rewrite fold_left_app. Qed.

Lemma num_bound p : Forall (fun i => (i < 512)%nat) p -> 0 <= num p < 512 ^ Z.of_nat (length p).
Proof.
  induction p as [|i p IH] using rev_ind; [cbn; lia|]. rewrite Forall_app, Forall_singleton. intros [Hp Hi]. rewrite num_snoc, length_app. cbn [length].
  replace (Z.of_nat (length p + 1)) with (Z.of_nat (length p) + 1) by lia. rewrite Z.pow_add_r by lia. specialize (IH Hp). lia.
Qed.

Lemma num_app p q : num (p ++ q) = num p * 512 ^ Z.of_nat (length q) + num q.
Proof.
  induction q as [|i q IH] using rev_ind; [rewrite app_nil_r; cbn; lia|]. rewrite app_assoc, !num_snoc, IH, length_app. cbn [length].
  replace (Z.of_nat (length q + 1)) with (Z.of_nat (length q) + 1) by lia. rewrite Z.pow_add_r by lia. lia.
Qed.

Lemma num_inj p q : Forall (fun i => (i < 512)%nat) p -> Forall (fun i => (i < 512)%nat) q -> length p = length q -> num p = num q -> p = q.
Proof.
  revert q. induction p as [|i p IH] using rev_ind; intros q Hp Hq Hl E; [by destruct q|]. destruct q as [|j q _] using rev_ind; [rewrite length_app in Hl; cbn in Hl; lia|].
  rewrite !num_snoc in E. rewrite Forall_app, Forall_singleton in Hp, Hq. destruct Hp as [Hp Hi], Hq as [Hq Hj]. rewrite !length_app in Hl. cbn in Hl. assert (i = j) as -> by lia. f_equal. apply IH; [done..|lia|lia].
Qed.

Section Numbers.
  Context (use_5lvl_paging : bool).

Notation path := (path use_5lvl_paging).
Notation depth := (depth use_5lvl_paging).
Notation user_va := (user_va use_5lvl_paging).
Notation user_path := (user_path use_5lvl_paging).

(** All the indices of a page *)
Definition full_path (n : Z) : list nat := path (n * 4096) ++ [level_idx 1 (n * 4096)].

Lemma full_path_length n : length (full_path n) = (depth + 1)%nat.
Proof. unfold full_path. by rewrite length_app, path_length. Qed.
Lemma full_path_bound n : Forall (fun i => (i < 512)%nat) (full_path n).
Proof.
  unfold full_path, PagingInv.path. rewrite Forall_app, Forall_singleton. split; [|apply level_idx_lt]. apply Forall_fmap, Forall_forall. intros level _. apply level_idx_lt.
Qed.

Lemma num_full_path n : user_va (n * 4096) -> num (full_path n) = n.
Proof.
  intros Hv. assert (E : n = n * 4096 / 2 ^ (9 * Z.of_nat 1 + 3)) by (change (2 ^ (9 * Z.of_nat 1 + 3)) with 4096; by rewrite Z.div_mul). set (va := n * 4096) in *. rewrite E at 2.
  unfold PagingInv.user_va, user_addr_max in Hv. unfold full_path, PagingInv.path, upper_levels. assert (Hz : forall x b, 0 <= x < b -> x / b = 0) by (intros; by apply Z.div_small). fold va.
  destruct use_5lvl_paging; cbn [fmap list_fmap app num fold_left].
  - rewrite (level_idx_step 1), (level_idx_step 2), (level_idx_step 3), (level_idx_step 4), (level_idx_step 5). change (9 * Z.of_nat 6 + 3) with 57. rewrite (Hz va (2 ^ 57)) by lia. lia.
  - rewrite (level_idx_step 1), (level_idx_step 2), (level_idx_step 3), (level_idx_step 4). change (9 * Z.of_nat 5 + 3) with 48. rewrite (Hz va (2 ^ 48)) by lia. lia.
Qed.

(** The page numbers below a table are those whose indices begin with its path *)
Lemma full_path_below p q : Forall (fun i => (i < 512)%nat) (p ++ q) -> length (p ++ q) = (depth + 1)%nat -> forall n, user_va (n * 4096) ->
  num p * 512 ^ Z.of_nat (length q) <= n < (num p + 1) * 512 ^ Z.of_nat (length q) -> p `prefix_of` full_path n.
Proof.
  intros Hpq Hl n Hv Hn. rewrite Forall_app in Hpq. destruct Hpq as [Hp Hq]. pose proof (full_path_bound n) as Hb. pose proof (full_path_length n) as Hfl. rewrite length_app in Hl.
  rewrite <- (take_drop (length p) (full_path n)) in Hb |- *. rewrite Forall_app in Hb. destruct Hb as [Hb1 Hb2]. assert (Ht : length (take (length p) (full_path n)) = length p) by (rewrite length_take; lia).
  assert (Hd : length (drop (length p) (full_path n)) = length q) by (rewrite length_drop; lia). assert (E : num (take (length p) (full_path n)) = num p).
  { pose proof (num_full_path n Hv) as En. rewrite <- (take_drop (length p) (full_path n)), num_app, Hd in En. pose proof (num_bound _ Hb2) as Hnb. rewrite Hd in Hnb. nia. }
  assert (take (length p) (full_path n) = p) as -> by (by apply num_inj). by exists (drop (length p) (full_path n)).
Qed.

(** Every path of indices is that of a page *)
Lemma full_path_num p i : user_path p -> length p = depth -> (i < 512)%nat -> user_va (num (p ++ [i]) * 4096) /\ full_path (num (p ++ [i])) = p ++ [i].
Proof.
  intros (_ & Hall & Hfst) Hl Hi. assert (Hpi : Forall (fun i => (i < 512)%nat) (p ++ [i])) by (rewrite Forall_app, Forall_singleton; done).
  assert (Hv : user_va (num (p ++ [i]) * 4096)).
  { pose proof (num_bound _ Hpi) as Hb. split; [lia|]. clear Hb. destruct p as [|a p]; [unfold PagingInv.depth, upper_levels in Hl; by destruct use_5lvl_paging|]. change ((a :: p) ++ [i]) with ([a] ++ (p ++ [i])). rewrite num_app.
    inversion Hpi as [|? ? Ha Hpi' E]; subst. pose proof (num_bound _ Hpi') as Hb. change (num [a]) with (Z.of_nat a). assert (Hlen : length (p ++ [i]) = depth) by (rewrite length_app; cbn in *; lia). rewrite Hlen in *.
    unfold PagingInv.depth, upper_levels, user_addr_max in *. destruct use_5lvl_paging; cbn [length] in *; lia. }
  split; [done|]. apply num_inj; [apply full_path_bound|done|by rewrite full_path_length, length_app, Hl|by apply num_full_path].
Qed.

End Numbers.

(** The entries of a process from a page number on *)
Definition from_page (M : pmap) (r v : Z) : pmap := filter (fun ke => ke.1.1 <> r \/ v <= ke.1.2) M.

Lemma from_skip M r v v' : v <= v' -> (forall n, v <= n < v' -> M !! (r, n) = None) -> from_page M r v = from_page M r v'.
Proof.
  intros Hv Hn. apply map_filter_ext. intros [r' n] e HM. cbn. destruct (decide (r' = r)) as [->|]; [|naive_solver]. destruct (decide (v <= n < v')) as [Hin|]; [by rewrite Hn in HM|]. split; (intros [?|?]; [done|right; lia]).
Qed.
Lemma from_here M r n : from_page M r n !! (r, n) = M !! (r, n).
Proof. apply option_eq. intros e. unfold from_page. rewrite map_lookup_filter_Some. cbn. split; [by intros [? _]|]. intros ?. split; [done|right; lia]. Qed.
Lemma from_next M r n : delete (r, n) (from_page M r n) = from_page M r (n + 1).
Proof.
  apply map_eq. intros [r' n']. apply option_eq. intros e. unfold from_page. rewrite lookup_delete_Some, !map_lookup_filter_Some. cbn. destruct (decide (r' = r)) as [->|]; [|naive_solver].
  split.
  - intros (Hne & HM & [?|?]); [done|]. split; [done|right]. assert (n' <> n) by (by intros ->). lia.
  - intros (HM & [?|?]); [done|]. split_and!; [intros [=]; lia|done|right; lia].
Qed.

Section Loop.
  Context {S : Type} `{FrameAllocator S}.

Lemma each_entry_ok (P : nat -> machine S -> Prop) n i body s : P i s ->
  (forall j s, (i <= j < i + n)%nat -> P j s -> exists s', body j s = Some (tt, s') /\ P (Datatypes.S j) s') ->
  exists s', each_entry n i body s = Some (tt, s') /\ P (i + n)%nat s'.
Proof.
  revert i s. induction n as [|n IH]; intros i s Hi Hbody; cbn [each_entry]; [exists s; by rewrite Nat.add_0_r|].
  destruct (Hbody i s) as (s1 & Hr1 & H1); [lia|done|]. rewrite (xbind _ _ _ _ _ Hr1). replace (i + Datatypes.S n)%nat with (Datatypes.S i + n)%nat by lia. apply IH; [done|]. intros j s' Hj. apply Hbody. lia.
Qed.
End Loop.

Section Free.
  Context {S : Type} `{FrameAllocator S} (use_5lvl_paging : bool).

Notation node := (node use_5lvl_paging).
Notation path := (path use_5lvl_paging).
Notation depth := (depth use_5lvl_paging).
Notation user_va := (user_va use_5lvl_paging).
Notation user_path := (user_path use_5lvl_paging).
Notation machine_ok := (machine_ok use_5lvl_paging).
Notation table := (table use_5lvl_paging).
Notation books := (books use_5lvl_paging).
Notation accounts := (accounts use_5lvl_paging).
Notation tree := (tree use_5lvl_paging).

  Context (m0 : gmap Z (list Z)) (roots owned0 : gset Z) (r : Z) (M : pmap) (held : Z -> Z).
  Hypotheses (Hf : forest use_5lvl_paging m0 roots owned0) (Hr : r ∈ roots) (Hheld : forall p, 0 <= held p).
  Hypothesis Hview : forall va, user_va va -> view use_5lvl_paging m0 r va = M !! (r, va / 4096).
  Hypothesis Hdom : forall n e, M !! (r, n) = Some e -> user_va (n * 4096).

Notation node0 := (node m0 roots r).
Notation roots' := (roots ∖ {[r]}).

(** The tables below a path *)
Definition strictly (p : list nat) (q : Z) : Prop := exists i s, node0 (p ++ i :: s) q.

(** What holds when the process has been freed up to a page *)
Definition freed_to (s : machine S) (v : Z) (oth : gset Z) : Prop :=
  exists owned, machine_ok s roots' owned /\ tree s roots' (filter (fun ke => ke.1.1 <> r) M) /\ accounts s roots' owned (from_page M r v) held oth.

(** What a function that frees the tables below one promises *)
Definition frees (h : nat) (free : Z -> X S unit) : Prop := forall p t s oth, node0 p t -> p <> [] -> (length p + h = depth)%nat -> t ∈ oth ->
  (forall q, q = t \/ strictly p q -> mem s !! q = m0 !! q) -> (forall q, strictly p q -> q ∈ oth) -> freed_to s (num p * 512 ^ (Z.of_nat h + 1)) oth ->
  exists s' oth', free t s = Some (tt, s') /\ freed_to s' ((num p + 1) * 512 ^ (Z.of_nat h + 1)) oth' /\ shootdown s' = shootdown s /\
    (forall q, q ∈ oth' <-> q ∈ oth /\ ~ strictly p q) /\ (forall q, q <> t -> ~ strictly p q -> mem s' !! q = mem s !! q).

(** The page number of an entry of a last table *)
Lemma leaf_key p t i e : node0 p t -> length p = depth -> (i < 512)%nat -> entry m0 t i = Some e -> M !! (r, num (p ++ [i])) = if present e then Some e else None.
Proof.
  intros (_ & Hp & Ht) Hl Hi He. destruct (full_path_num _ p i Hp Hl Hi) as [Hv Hfp]. unfold full_path in Hfp. apply app_inj_2 in Hfp as [Ep Ei]; [|done]. injection Ei as Ei.
  pose proof (Hview _ Hv) as HM. rewrite Z.div_mul in HM by lia. rewrite <- HM. unfold view, leaf. rewrite Ep, Ei, Ht. cbn [mbind option_bind]. by rewrite He.
Qed.

(** Below an entry that is not present nothing is mapped *)
Lemma absent_range p t i e h : node0 p t -> user_path (p ++ [i]) -> (length p + Datatypes.S h = depth)%nat -> entry m0 t i = Some e -> present e = false ->
  forall n, num (p ++ [i]) * 512 ^ (Z.of_nat h + 1) <= n < (num (p ++ [i]) + 1) * 512 ^ (Z.of_nat h + 1) -> M !! (r, n) = None.
Proof.
  intros (_ & Hp & Ht) Hpi Hl He Hpr n Hn. destruct (M !! (r, n)) as [e'|] eqn:HM; [|done]. pose proof (Hdom n e' HM) as Hv. pose proof (Hview _ Hv) as Hvw. rewrite Z.div_mul, HM in Hvw by lia.
  assert (Hpre : (p ++ [i]) `prefix_of` full_path use_5lvl_paging n).
  { eapply (full_path_below _ (p ++ [i]) (replicate (h + 1) 0%nat)); [|rewrite !length_app, length_replicate; cbn; lia|done|by rewrite length_replicate; replace (Z.of_nat (h + 1)) with (Z.of_nat h + 1) by lia].
    destruct Hpi as (_ & Hall & _). rewrite Forall_app. split; [done|]. apply Forall_replicate. lia. }
  destruct Hpre as [s Hs]. unfold full_path in Hs. destruct s as [|j s _] using rev_ind; [apply (f_equal length) in Hs; rewrite !length_app, path_length in Hs; cbn in Hs; lia|].
  rewrite app_assoc in Hs. apply app_inj_tail in Hs as [Hs _]. unfold view, leaf in Hvw. rewrite Hs, <- app_assoc, table_at_app, Ht in Hvw. cbn [mbind option_bind app table_at] in Hvw. unfold child in Hvw. rewrite He in Hvw. cbn [mbind option_bind] in Hvw. by rewrite Hpr in Hvw.
Qed.

Lemma strictly_not_self p t : node0 p t -> ~ strictly p t.
Proof. intros Hn (i & s & Hn'). destruct (fo_inj _ _ _ _ Hf _ _ _ _ _ Hn Hn') as [_ E]. apply (f_equal length) in E. rewrite length_app in E. cbn in E. lia. Qed.

(** A store to a table of the process *)
Lemma freed_store t i e s v oth : freed_to s v oth -> t ∈ oth -> is_Some (word (mem s) t i) ->
  exists s', store t i e s = Some (tt, s') /\ freed_to s' v oth /\ shootdown s' = shootdown s /\ (forall q, q <> t -> mem s' !! q = mem s !! q) /\
    (forall j, j <> i -> word (mem s') t j = word (mem s) t j).
Proof.
  intros (owned & Hs & Ht & Ha) Hto Hw. destruct (ac_other _ _ _ _ _ _ _ Ha t Hto) as (Hnt & _ & _). exists (with_mem (set_entry (mem s) t i e) s). split; [by apply store_run|].
  unfold set_entry. destruct Hw as [w Hw]. unfold word in Hw. destruct (mem s !! t) as [l|] eqn:El; [|done]. destruct (fill_ok _ t (<[i := to_u64 e]> l) s _ owned Hs Hnt) as (Hs' & _ & Htr & Hacc).
  split_and!; [exists owned; auto|done|intros q Hq; cbn; by rewrite lookup_insert_ne|]. intros j Hj. unfold word. cbn. rewrite lookup_insert_eq, El. cbn. by rewrite list_lookup_insert_ne.
Qed.

(** A table of the process goes back *)
Lemma freed_table q s v oth : freed_to s v oth -> q ∈ oth ->
  exists s', free_frame q s = Some (tt, s') /\ freed_to s' v (oth ∖ {[q]}) /\ shootdown s' = shootdown s /\ mem s' = mem s.
Proof.
  intros (owned & Hs & Ht & Ha) Hq. destruct (free_other _ q s _ owned _ held oth Hs Ha Hq) as (s' & Hrun & Hs' & Ha' & [Em Esd] & _). exists s'. split_and!; [done| |done..].
  exists (owned ∖ {[q]}). split_and!; [done|by apply (tree_memory _ s)|done].
Qed.

(** [clear_auto] on an entry of a directory *)
Lemma freed_directory e s v oth : freed_to s v oth -> present e = true -> avl e = 0 -> entry_page e ∈ oth ->
  exists s', clear_auto e s = Some (empty_entry, s') /\ freed_to s' v (oth ∖ {[entry_page e]}) /\ shootdown s' = shootdown s /\ mem s' = mem s.
Proof.
  intros Hfr Hpr Havl Hq. destruct (freed_table _ s v oth Hfr Hq) as (s' & Hrun & Hfr' & Hsd & Hm). exists s'. split_and!; try done. unfold clear_auto. rewrite Hpr, Havl. cbn [negb has]. change (has 0 _) with false. cbn [negb]. by rewrite (xbind _ _ _ _ _ Hrun).
Qed.

(** [clear_auto] on an entry of a last table *)
Lemma freed_leaf p t i e s oth : freed_to s (num (p ++ [i])) oth -> node0 p t -> length p = depth -> (i < 512)%nat -> entry m0 t i = Some e ->
  exists s', clear_auto e s = Some (empty_entry, s') /\ freed_to s' (num (p ++ [i]) + 1) oth /\ shootdown s' = shootdown s /\ mem s' = mem s.
Proof.
  intros (owned & Hs & Ht & Ha) Hn Hl Hi He. pose proof (leaf_key p t i e Hn Hl Hi He) as HM. destruct (present e) eqn:Epr.
  - rewrite <- from_here in HM. pose proof (take_mapping _ _ _ _ _ _ _ _ _ Ha HM) as Ha1. rewrite from_next in Ha1.
    destruct (clear_auto_ok _ e s _ owned _ held oth Hs Ha1 Epr Hheld) as (s' & o' & Hrun & Hs' & Ha' & [Em Esd]).
    + by apply (ac_shared _ _ _ _ _ _ _ Ha _ _ HM).
    + intros Hp Ho. destruct (ac_other _ _ _ _ _ _ _ Ha _ Ho) as (_ & _ & []). by exists (r, num (p ++ [i])), e.
    + exists s'. split_and!; [done| |done..]. exists o'. split_and!; [done|by apply (tree_memory _ s)|done].
  - exists s. split_and!; [unfold clear_auto; by rewrite Epr| |done..]. exists owned. split_and!; [done..|]. rewrite <- (from_skip M r (num (p ++ [i]))); [done|lia|]. intros n Hn'. by replace n with (num (p ++ [i])) by lia.
Qed.

(** [free_pt] *)
Lemma frees_pt : frees 0 free_pt.
Proof.
  intros p t s oth Hn _ Hl Hto Hmem Hbelow Hfr. rewrite Nat.add_0_r in Hl. change (512 ^ (Z.of_nat 0 + 1)) with 512 in *.
  assert (Hnone : forall q, ~ strictly p q) by (intros q (i & s' & _ & (Hlen & _) & _); rewrite length_app in Hlen; cbn in Hlen; lia).
  set (P := fun (j : nat) (s1 : machine S) => freed_to s1 (num p * 512 + Z.of_nat j) oth /\ shootdown s1 = shootdown s /\ (forall q, q <> t -> mem s1 !! q = mem s !! q) /\ (forall i, (j <= i)%nat -> word (mem s1) t i = word m0 t i)).
  destruct (each_entry_ok P PAGE_WORDS 0 (fun i => e ← load t i; e ← clear_auto e; store t i e) s) as (s' & Hrun & Hfr' & Hsd & Hm & _).
  - unfold P. rewrite Z.add_0_r. split_and!; [done..|]. intros i _. unfold word. by rewrite Hmem by (by left).
  - intros j s1 [_ Hj] (Hfr1 & Hsd1 & Hm1 & Hw1). change PAGE_WORDS with 512%nat in Hj. destruct (node_entry _ _ _ _ _ _ _ j Hf Hn) as (w & Hw & _ & He); [lia|]. assert (He1 : entry (mem s1) t j = Some (from_u64 w)) by (unfold entry; by rewrite Hw1, Hw).
    rewrite (xbind _ _ _ _ _ (load_run _ _ _ _ He1)). replace (num p * 512 + Z.of_nat j) with (num (p ++ [j])) in Hfr1 by (rewrite num_snoc; lia).
    destruct (freed_leaf p t j (from_u64 w) s1 oth Hfr1 Hn Hl) as (s2 & Hr2 & Hfr2 & Hsd2 & Em2); [lia|done|]. rewrite (xbind _ _ _ _ _ Hr2).
    destruct (freed_store t j empty_entry s2 _ oth Hfr2 Hto) as (s3 & Hr3 & Hfr3 & Hsd3 & Hm3 & Hw3); [rewrite Em2; by apply (entry_word _ _ _ (from_u64 w))|]. exists s3. split; [done|]. split_and!.
    + rewrite num_snoc in Hfr3. by replace (num p * 512 + Z.of_nat (Datatypes.S j)) with (512 * num p + Z.of_nat j + 1) by lia.
    + congruence.
    + intros q Hq. rewrite Hm3, Em2 by done. by apply Hm1.
    + intros i Hi. rewrite Hw3, Em2 by lia. apply Hw1. lia.
  - exists s', oth. split_and!; [done| |done| |intros q Hq _; by apply Hm].
    + replace ((num p + 1) * 512) with (num p * 512 + Z.of_nat (0 + PAGE_WORDS)) by (change PAGE_WORDS with 512%nat; lia). done.
    + intros q. split; [intros ?; by split|by intros [? _]].
Qed.

(** The tables below the first entries of a table *)
Definition below_first (p : list nat) (n : nat) (q : Z) : Prop := exists i s, (i < n)%nat /\ node0 (p ++ i :: s) q.

Lemma below_next p j c q : node0 (p ++ [j]) c -> below_first p (Datatypes.S j) q <-> below_first p j q \/ q = c \/ strictly (p ++ [j]) q.
Proof.
  intros Hc. split.
  - intros (i & s & Hi & Hq). destruct (decide (i = j)) as [->|]; [|left; exists i, s; split; [lia|done]]. right. destruct s as [|i' s]; [left|right; exists i', s; by rewrite <- app_assoc].
    destruct Hc as (_ & _ & Hc), Hq as (_ & _ & Hq). congruence.
  - intros [(i & s & Hi & Hq)|[->|(i & s & Hq)]]; [exists i, s; split; [lia|done]|exists j, []; split; [lia|done]|exists j, (i :: s); split; [lia|by rewrite <- app_assoc in Hq]].
Qed.

Lemma below_absent p j t e q : node0 p t -> entry m0 t j = Some e -> present e = false -> below_first p (Datatypes.S j) q <-> below_first p j q.
Proof.
  intros Ht He Hpr. split; intros (i & s & Hi & Hq); [|exists i, s; split; [lia|done]]. exists i, s. split; [|done]. assert (i <> j); [|lia]. intros ->.
  destruct Hq as (_ & _ & Hq), Ht as (_ & _ & Ht). rewrite table_at_app, Ht in Hq. cbn [mbind option_bind table_at] in Hq. unfold child in Hq. rewrite He in Hq. cbn [mbind option_bind] in Hq. by rewrite Hpr in Hq.
Qed.

(** Tables have one place *)
Lemma node_unique p p' q : node0 p q -> node0 p' q -> p = p'.
Proof. intros H1 H2. by destruct (fo_inj _ _ _ _ Hf _ _ _ _ _ H1 H2). Qed.

Lemma child_apart p j c s q : node0 (p ++ [j]) c -> node0 (p ++ s) q -> ~ [j] `prefix_of` s -> q <> c /\ ~ strictly (p ++ [j]) q.
Proof.
  intros Hc Hq Hs. split.
  - intros ->. apply Hs. pose proof (node_unique _ _ _ Hc Hq) as E. apply app_inv_head in E as <-. done.
  - intros (i & s' & Hq'). apply Hs. pose proof (node_unique _ _ _ Hq Hq') as E. rewrite <- app_assoc in E. apply app_inv_head in E as ->. by exists (i :: s').
Qed.

(** The state in the middle of a table *)
Record halfway (p : list nat) (t : Z) (h : nat) (s : machine S) (oth : gset Z) (j : nat) (s1 : machine S) (oth1 : gset Z) : Prop := {
  hw_freed : freed_to s1 (num p * 512 ^ (Z.of_nat h + 2) + Z.of_nat j * 512 ^ (Z.of_nat h + 1)) oth1;
  hw_shootdown : shootdown s1 = shootdown s;
  hw_oth q : q ∈ oth1 <-> q ∈ oth /\ ~ below_first p j q;
  hw_mem q : q <> t -> ~ strictly p q -> mem s1 !! q = mem s !! q;
  hw_words i : (j <= i)%nat -> word (mem s1) t i = word m0 t i;
  hw_tables i s' q : (j <= i)%nat -> node0 (p ++ i :: s') q -> mem s1 !! q = m0 !! q }.

(** The end of an entry: the table below goes back *)
Definition finishes (t : Z) (finish : nat -> x86_PAE_Entry -> X S unit) : Prop := forall i e s v oth, freed_to s v oth -> t ∈ oth -> is_Some (word (mem s) t i) ->
  present e = true -> avl e = 0 -> entry_page e ∈ oth -> t <> entry_page e ->
  exists s', finish i e s = Some (tt, s') /\ freed_to s' v (oth ∖ {[entry_page e]}) /\ shootdown s' = shootdown s /\ (forall q, q <> t -> mem s' !! q = mem s !! q) /\ (forall j, j <> i -> word (mem s') t j = word (mem s) t j).

Lemma halfway_absent p t h s oth j s1 oth1 e : halfway p t h s oth j s1 oth1 -> node0 p t -> user_path (p ++ [j]) -> (length p + Datatypes.S h = depth)%nat -> entry m0 t j = Some e -> present e = false ->
  halfway p t h s oth (Datatypes.S j) s1 oth1.
Proof.
  intros [Hfr Hsd Ho Hm Hw Ht] Hn Hpj Hl He Hpr. split; [|done| |done| |].
  - destruct Hfr as (owned & Hs & Htr & Ha). exists owned. split_and!; [done..|]. rewrite <- (from_skip M r (num p * 512 ^ (Z.of_nat h + 2) + Z.of_nat j * 512 ^ (Z.of_nat h + 1))); [done|pose proof (Z.pow_pos_nonneg 512 (Z.of_nat h + 1)); lia|].
    intros n Hn'. apply (absent_range p t j e h Hn Hpj Hl He Hpr). rewrite num_snoc. replace (Z.of_nat h + 2) with (Z.of_nat h + 1 + 1) in Hn' by lia. rewrite (Z.pow_add_r 512 (Z.of_nat h + 1) 1) in Hn' by lia. lia.
  - intros q. rewrite (below_absent p j t e) by done. apply Ho.
  - intros i Hi. apply Hw. lia.
  - intros i s' q Hi. apply (Ht i s'). lia.
Qed.

Lemma halfway_present p t h s oth j s1 oth1 e free_below finish : halfway p t h s oth j s1 oth1 -> node0 p t -> user_path (p ++ [j]) -> (length p + Datatypes.S h = depth)%nat -> (j < 512)%nat ->
  t ∈ oth -> (forall q, strictly p q -> q ∈ oth) -> entry m0 t j = Some e -> present e = true -> frees h free_below -> finishes t finish ->
  exists s2 oth2, (_ ← free_below (entry_page e); finish j e) s1 = Some (tt, s2) /\ halfway p t h s oth (Datatypes.S j) s2 oth2.
Proof.
  intros [Hfr Hsd Ho Hm Hw Ht] Hn Hpj Hl Hj Hto Hbelow He Hpr Hfree Hfin. set (c := entry_page e) in *.
  assert (Hc : node0 (p ++ [j]) c) by (split_and!; [done..|]; destruct Hn as (_ & _ & Hn); rewrite table_at_snoc, Hn; cbn [mbind option_bind]; unfold child; rewrite He; cbn [mbind option_bind]; by rewrite Hpr).
  destruct (child_apart p j c [] t Hc) as [Htc Htb]; [by rewrite app_nil_r|by intros [? ?]|]. assert (Hcj : ~ below_first p j c) by (intros (i & s' & Hi & Hn'); apply (child_apart p j c (i :: s') c Hc) in Hn' as [? _]; [done|]; intros [? [= -> _]]; lia).
  assert (Htj : ~ below_first p j t) by (intros (i & s' & Hi & Hn'); apply (strictly_not_self p t Hn); by exists i, s').
  assert (Hc1 : c ∈ oth1) by (apply Ho; split; [apply Hbelow; by exists j, []|done]). assert (Ht1 : t ∈ oth1) by (by apply Ho).
  destruct (Hfree (p ++ [j]) c s1 oth1 Hc) as (s2 & oth2 & Hr2 & Hfr2 & Hsd2 & Ho2 & Hm2); [by destruct p|rewrite length_app; cbn; lia|done| | | |].
  { intros q [->|(i & s' & Hq)]; [by apply (Ht j [])|]. rewrite <- app_assoc in Hq. by apply (Ht j (i :: s')). }
  { intros q Hq. apply Ho. split; [apply Hbelow; destruct Hq as (i & s' & Hq); rewrite <- app_assoc in Hq; by exists j, (i :: s')|]. intros (i & s' & Hi & Hq').
    apply (child_apart p j c (i :: s') q Hc) in Hq' as [_ ?]; [done|]. intros [? [= -> _]]. lia. }
  { rewrite num_snoc. replace ((512 * num p + Z.of_nat j) * 512 ^ (Z.of_nat h + 1)) with (num p * 512 ^ (Z.of_nat h + 2) + Z.of_nat j * 512 ^ (Z.of_nat h + 1)); [done|]. replace (Z.of_nat h + 2) with (Z.of_nat h + 1 + 1) by lia. rewrite (Z.pow_add_r 512 (Z.of_nat h + 1) 1) by lia. lia. }
  rewrite (xbind _ _ _ _ _ Hr2). assert (Hwt : forall i, word (mem s2) t i = word (mem s1) t i) by (intros i; unfold word; by rewrite Hm2).
  destruct (Hfin j e s2 _ oth2 Hfr2) as (s3 & Hr3 & Hfr3 & Hsd3 & Hm3 & Hw3); [by apply Ho2|rewrite Hwt, Hw by lia; by eapply entry_word|done|by apply (fo_size _ _ _ _ Hf r p t j e)|apply Ho2; split; [done|by apply strictly_not_self]|done|].
  exists s3, (oth2 ∖ {[c]}). split; [done|]. split.
  - rewrite num_snoc in Hfr3. replace (num p * 512 ^ (Z.of_nat h + 2) + Z.of_nat (Datatypes.S j) * 512 ^ (Z.of_nat h + 1)) with ((512 * num p + Z.of_nat j + 1) * 512 ^ (Z.of_nat h + 1)); [done|].
    replace (Z.of_nat h + 2) with (Z.of_nat h + 1 + 1) by lia. rewrite (Z.pow_add_r 512 (Z.of_nat h + 1) 1) by lia. lia.
  - congruence.
  - intros q. rewrite (below_next p j c q Hc), elem_of_difference, not_elem_of_singleton, Ho2, Ho. tauto.
  - intros q Hq Hqs. rewrite Hm3, Hm2; [by apply Hm|..|done]; [intros ->; apply Hqs; by exists j, []|]. intros (i & s' & Hq'). apply Hqs. rewrite <- app_assoc in Hq'. by exists j, (i :: s').
  - intros i Hi. rewrite Hw3, Hwt by lia. apply Hw. lia.
  - intros i s' q Hi Hq. destruct (child_apart p j c (i :: s') q Hc Hq) as [Hqc Hqs]; [intros [? [= -> _]]; lia|]. rewrite Hm3, Hm2; [apply (Ht i s'); [lia|done]|done..|]. intros ->. apply (strictly_not_self p t Hn). by exists i, s'.
Qed.

(** A loop over the entries of a directory *)
Lemma frees_entries n h p t s oth body free_below finish : node0 p t -> (length p + Datatypes.S h = depth)%nat -> (n <= 512)%nat -> (p = [] -> (n <= 256)%nat) -> t ∈ oth ->
  (forall q, q = t \/ strictly p q -> mem s !! q = m0 !! q) -> (forall q, strictly p q -> q ∈ oth) -> freed_to s (num p * 512 ^ (Z.of_nat h + 2)) oth ->
  frees h free_below -> finishes t finish ->
  (forall i e s, entry (mem s) t i = Some e -> pat_size e = false -> body i s = (if present e then _ ← free_below (entry_page e); finish i e else mret tt) s) ->
  exists s' oth', each_entry n 0 body s = Some (tt, s') /\ halfway p t h s oth n s' oth'.
Proof.
  intros Hn Hl Hn5 Hn2 Hto Hmem Hbelow Hfr Hfree Hfin Hbody. destruct (each_entry_ok (fun j s1 => exists oth1, halfway p t h s oth j s1 oth1) n 0 body s) as (s' & Hrun & oth' & Hhw).
  - exists oth. split; [by rewrite Z.mul_0_l, Z.add_0_r|done| |done| |].
    + intros q. split; [|by intros [? _]]. intros Hq. split; [done|]. intros (i & s' & Hi & _). lia.
    + intros i _. unfold word. by rewrite Hmem by (by left).
    + intros i s' q _ Hq. apply Hmem. right. by exists i, s'.
  - intros j s1 [_ Hj] (oth1 & Hhw). destruct (node_entry _ _ _ _ _ _ _ j Hf Hn) as (w & Hw & _ & He); [lia|]. assert (He1 : entry (mem s1) t j = Some (from_u64 w)) by (unfold entry; by rewrite (hw_words _ _ _ _ _ _ _ _ Hhw), Hw).
    assert (Hpj : user_path (p ++ [j])).
    { destruct Hn as (_ & (_ & Hall & Hfst) & _). split_and!; [rewrite length_app; cbn; lia|rewrite Forall_app, Forall_singleton; split; [done|lia]|]. destruct p; cbn; [specialize (Hn2 eq_refl); lia|done]. }
    rewrite (Hbody j (from_u64 w) s1 He1) by (by apply (fo_size _ _ _ _ Hf r p t j)). destruct (present (from_u64 w)) eqn:Epr.
    + destruct (halfway_present p t h s oth j s1 oth1 (from_u64 w) free_below finish Hhw Hn Hpj Hl) as (s2 & oth2 & Hr2 & Hhw2); [lia|done..|]. exists s2. split; [done|by exists oth2].
    + exists s1. split; [done|]. exists oth1. by apply (halfway_absent _ _ _ _ _ _ _ _ (from_u64 w)).
  - by exists s', oth'.
Qed.

Lemma finishes_free t : finishes t (fun _ e => free_frame (entry_page e)).
Proof. intros i e s v oth Hfr _ _ _ _ Hq _. destruct (freed_table _ s v oth Hfr Hq) as (s' & Hrun & Hfr' & Hsd & Hm). exists s'. by rewrite Hm. Qed.

Lemma finishes_clear t : finishes t (fun i e => e ← clear_auto e; store t i e).
Proof.
  intros i e s v oth Hfr Hto Hw Hpr Havl Hq Hne. destruct (freed_directory e s v oth Hfr Hpr Havl Hq) as (s1 & Hr1 & Hfr1 & Hsd1 & Em1). rewrite (xbind _ _ _ _ _ Hr1).
  destruct (freed_store t i empty_entry s1 v _ Hfr1) as (s2 & Hr2 & Hfr2 & Hsd2 & Hm2 & Hw2); [set_solver|by rewrite Em1|]. exists s2. rewrite Em1 in Hm2, Hw2. split_and!; [done..|congruence|done|done].
Qed.

(** What is left after a directory *)
Lemma frees_all p t h s oth s' oth' : node0 p t -> halfway p t h s oth 512 s' oth' -> freed_to s' ((num p + 1) * 512 ^ (Z.of_nat (Datatypes.S h) + 1)) oth' /\ shootdown s' = shootdown s /\
  (forall q, q ∈ oth' <-> q ∈ oth /\ ~ strictly p q) /\ (forall q, q <> t -> ~ strictly p q -> mem s' !! q = mem s !! q).
Proof.
  intros Hn [Hfr Hsd Ho Hm _ _]. split_and!; [|done| |done].
  - replace ((num p + 1) * 512 ^ (Z.of_nat (Datatypes.S h) + 1)) with (num p * 512 ^ (Z.of_nat h + 2) + Z.of_nat 512 * 512 ^ (Z.of_nat h + 1)); [done|].
    replace (Z.of_nat (Datatypes.S h) + 1) with (Z.of_nat h + 2) by lia. replace (Z.of_nat h + 2) with (Z.of_nat h + 1 + 1) by lia. rewrite (Z.pow_add_r 512 (Z.of_nat h + 1) 1) by lia. lia.
  - intros q. rewrite Ho. assert (below_first p 512 q <-> strictly p q); [|tauto]. split; [intros (i & s1 & _ & Hq); by exists i, s1|]. intros (i & s1 & Hq). exists i, s1. split; [|done].
    destruct Hq as (_ & (_ & Hall & _) & _). apply Forall_app in Hall as [_ Hall]. by inversion Hall.
Qed.

Lemma frees_directory h free_below : frees h free_below -> frees (Datatypes.S h) (free_directory free_below).
Proof.
  intros Hfree p t s oth Hn Hp Hl Hto Hmem Hbelow Hfr. replace (Z.of_nat (Datatypes.S h) + 1) with (Z.of_nat h + 2) in Hfr by lia. unfold free_directory.
  edestruct (frees_entries PAGE_WORDS h p t s oth) as (s' & oth' & Hrun & Hhw); [done|done|done|done|done|exact Hmem|done|done|exact Hfree|apply finishes_clear| |exists s', oth'; split; [exact Hrun|by eapply frees_all]].
  intros i e s1 He Hsz. cbn beta. rewrite (xbind _ _ _ _ _ (load_run _ _ _ _ He)), Hsz. by destruct (present e).
Qed.

Lemma frees_pml4 : frees 2 free_pdpt -> frees 3 free_pml4.
Proof.
  intros Hfree p t s oth Hn Hp Hl Hto Hmem Hbelow Hfr. unfold free_pml4.
  edestruct (frees_entries PAGE_WORDS 2 p t s oth) as (s' & oth' & Hrun & Hhw); [done|done|done|done|done|exact Hmem|done|done|exact Hfree|apply finishes_free| |exists s', oth'; split; [exact Hrun|by eapply (frees_all _ _ 2)]].
  intros i e s1 He Hsz. cbn beta. rewrite (xbind _ _ _ _ _ (load_run _ _ _ _ He)). by destruct (present e).
Qed.

(** [free_user_pages] and the last table *)
Lemma delete_table_frees s oth : (forall q, q = r \/ strictly [] q -> mem s !! q = m0 !! q) -> r ∈ oth -> (forall q, strictly [] q -> q ∈ oth) -> freed_to s 0 oth ->
  exists s' oth', delete_table use_5lvl_paging r s = Some (tt, s') /\ freed_to s' (256 * 512 ^ Z.of_nat depth) oth' /\ shootdown s' = shootdown s /\
    (forall q, q ∈ oth' <-> q ∈ oth /\ q <> r /\ ~ strictly [] q) /\ (forall q, q <> r -> ~ strictly [] q -> mem s' !! q = mem s !! q).
Proof.
  intros Hmem Hro Hbelow Hfr. assert (Hroot : node0 [] r) by (by apply node_nil). unfold delete_table, free_user_pages. pose proof (frees_directory _ _ (frees_directory _ _ frees_pt)) as Hpdpt. pose proof (frees_pml4 Hpdpt) as Hpml4.
  set (free_top := if use_5lvl_paging then free_pml4 else free_pdpt). assert (Hd : exists h, depth = Datatypes.S h /\ frees h free_top).
  { unfold free_top, PagingInv.depth, upper_levels. destruct use_5lvl_paging; cbn [length]; eexists; (split; [done|]); done. }
  destruct Hd as (h & Hd & Hfree). edestruct (frees_entries 256 h [] r s oth (fun i => e ← load r i; if present e then _ ← (if use_5lvl_paging then free_pml4 (Z.shiftl (page_ppn e) 12) else free_pdpt (Z.shiftl (page_ppn e) 12)); free_frame (Z.shiftl (page_ppn e) 12) else mret tt)) as (s1 & oth1 & Hrun & Hhw); [done|cbn; lia|lia|lia|done|exact Hmem|done|done|exact Hfree|apply finishes_free| |].
  { intros i e s1 He Hsz. cbn beta. rewrite (xbind _ _ _ _ _ (load_run _ _ _ _ He)). unfold free_top. destruct (present e); [|done]. fold (entry_page e). by destruct use_5lvl_paging. }
  rewrite (xbind _ _ _ _ _ Hrun). destruct Hhw as [Hfr1 Hsd1 Ho1 Hm1 _ _]. assert (Hb : forall q, below_first [] 256 q <-> strictly [] q).
  { intros q. split; [intros (i & s' & _ & Hq); by exists i, s'|]. intros (i & s' & Hq). exists i, s'. split; [|done]. by destruct Hq as (_ & (_ & _ & ?) & _). }
  destruct (freed_table r s1 _ oth1 Hfr1) as (s2 & Hr2 & Hfr2 & Hsd2 & Em2); [apply Ho1; split; [done|]; rewrite Hb; by apply strictly_not_self|]. exists s2, (oth1 ∖ {[r]}). split_and!; [done| |congruence| |].
  - rewrite Hd. replace (Z.of_nat (Datatypes.S h)) with (Z.of_nat h + 1) by lia. by change (num []) with 0 in Hfr2.
  - intros q. rewrite elem_of_difference, not_elem_of_singleton, Ho1, Hb. tauto.
  - intros q Hq Hqs. rewrite Em2. by apply Hm1.
Qed.

End Free.

(** ** The tables of a process as a set *)

Fixpoint paths_upto (n : nat) : list (list nat) :=
  match n with O => [[]] | Datatypes.S n => [] :: (i ← seq 0 512; cons i <$> paths_upto n) end.

Lemma elem_of_paths n p : p ∈ paths_upto n <-> (length p <= n)%nat /\ Forall (fun i => (i < 512)%nat) p.
Proof.
  revert p. induction n as [|n IH]; intros p; cbn [paths_upto].
  - rewrite list_elem_of_singleton. split; [intros ->; by split|]. intros [Hl _]. destruct p; [done|cbn in Hl; lia].
  - rewrite elem_of_cons, list_elem_of_bind. split.
    + intros [->|(i & (q & -> & Hq)%list_elem_of_fmap & Hi%elem_of_seq)]; [cbn; split; [lia|done]|]. apply IH in Hq as [Hl Hall]. cbn. split; [lia|]. constructor; [lia|done].
    + intros [Hl Hall]. destruct p as [|i p]; [by left|right]. inversion Hall; subst. cbn in Hl. exists i. split; [apply list_elem_of_fmap; exists p; split; [done|apply IH; split; [lia|done]]|apply elem_of_seq; lia].
Qed.
#[global] Opaque paths_upto.

Section Delete.
  Context {S : Type} `{FrameAllocator S} (use_5lvl_paging : bool).

Notation node := (node use_5lvl_paging).
Notation machine_ok := (machine_ok use_5lvl_paging).
Notation table := (table use_5lvl_paging).
Notation books := (books use_5lvl_paging).
Notation accounts := (accounts use_5lvl_paging).
Notation tree := (tree use_5lvl_paging).

#[local] Instance user_top_dec (p : list nat) : Decision (match p with i :: _ => (i < 256)%nat | [] => True end).
Proof. destruct p; apply _. Defined.

Definition tables_of (m : gmap Z (list Z)) (r : Z) : gset Z :=
  list_to_set (omap (fun p => if bool_decide (match p with i :: _ => (i < 256)%nat | [] => True end) then table_at m r p else None) (paths_upto (depth use_5lvl_paging))).

Lemma elem_of_tables m roots r q : r ∈ roots -> q ∈ tables_of m r <-> exists p, node m roots r p q.
Proof.
  intros Hr. unfold tables_of. rewrite elem_of_list_to_set, list_elem_of_omap. split.
  - intros (p & [Hl Hall]%elem_of_paths & Hq). exists p. destruct (bool_decide _) eqn:E; [|done]. apply bool_decide_eq_true in E. by split_and!.
  - intros (p & _ & (Hl & Hall & Htop) & Hq). exists p. split; [by apply elem_of_paths|]. by rewrite bool_decide_eq_true_2.
Qed.

Lemma node_sub m roots roots' r p t : roots' ⊆ roots -> node m roots' r p t -> node m roots r p t.
Proof. intros Hsub (Hr & Hp & Ht). split_and!; [set_solver|done..]. Qed.

Lemma machine_sub (s : machine S) roots roots' owned : roots' ⊆ roots -> machine_ok s roots owned -> machine_ok s roots' owned.
Proof.
  intros Hsub Hs. open_machine Hs. split; [|done..|intros r p t Hn; apply (Mapart r p); by apply (node_sub _ roots roots')].
  destruct Mforest as [F1 F2 F3 F4]. split; intros; [eapply F1|eapply F2|eapply F3|eapply F4]; eauto using node_sub.
Qed.

(** The tables of a process that ends count as frames of the kernel *)
Lemma retire r s roots owned M held other : books s roots owned M held other -> r ∈ roots ->
  accounts s (roots ∖ {[r]}) owned M held (tables_of (mem s) r ∪ other).
Proof.
  intros [Hs Ht Ha] Hr. assert (Htab : forall q, table s roots q <-> table s (roots ∖ {[r]}) q \/ q ∈ tables_of (mem s) r).
  { intros q. rewrite (elem_of_tables _ roots) by done. split.
    - intros (r' & p & Hn). destruct (decide (r' = r)) as [->|Hne]; [right; by exists p|left]. exists r', p. destruct Hn as (Hr' & Hn). split; [set_solver|done].
    - intros [(r' & p & Hn)|(p & Hn)]; [exists r', p; by apply (node_sub _ roots (roots ∖ {[r]})); [set_solver|]|by exists r, p]. }
  open_accounts Ha. split; [done..| | | |done].
  - intros q. rewrite Aowned, Htab. set_solver.
  - intros q [Hq|Hq]%elem_of_union.
    + assert (Htq : table s roots q) by (apply Htab; by right). split_and!; [|destruct Htq as (r' & p & Hn); by apply (mo_apart _ _ _ _ Hs r' p)|intros Hpr; by destruct (Aprivate q Hpr)].
      intros (r' & p & Hr' & Hn). apply (elem_of_tables _ roots) in Hq as (p' & Hn'); [|done]. destruct (fo_inj _ _ _ _ (mo_forest _ _ _ _ Hs) r p' r' p q) as [-> _]; [done|split; [set_solver|done]|set_solver].
    + destruct (Aother q Hq) as (Hnt & ? & ?). split_and!; [|done..]. intros Hq'. apply Hnt, Htab. by left.
  - intros q Hq. destruct (Aprivate q Hq) as (Hnt & ?). split; [|done]. intros Hq'. apply Hnt, Htab. by left.
Qed.

Theorem delete_table_correct s roots owned M held other r : books s roots owned M held other -> r ∈ roots ->
  exists s' owned', delete_table use_5lvl_paging r s = Some (tt, s') /\ shootdown s' = shootdown s /\
    books s' (roots ∖ {[r]}) owned' (filter (fun ke => ke.1.1 <> r) M) held other /\ keeps_pages use_5lvl_paging s s' roots owned.
Proof.
  intros Hb Hr. pose proof (retire r s roots owned M held other Hb Hr) as Ha0. destruct Hb as [Hs [Tv Td] Ha]. pose proof (mo_forest _ _ _ _ Hs) as Hf.
  assert (Hdom : forall n e, M !! (r, n) = Some e -> user_va use_5lvl_paging (n * 4096)) by (intros n e HM; by destruct (Td r n e HM)).
  assert (Hst : forall q, (q = r \/ strictly use_5lvl_paging (mem s) roots r [] q) <-> q ∈ tables_of (mem s) r).
  { intros q. rewrite (elem_of_tables _ roots) by done. split; [intros [->|(i & p & Hn)]; [exists []; by apply node_nil|by exists (i :: p)]|]. intros ([|i p] & Hn); [left; destruct Hn as (_ & _ & [= ->]); done|right; by exists i, p]. }
  edestruct (delete_table_frees use_5lvl_paging (mem s) roots owned r M held Hf Hr) as (s' & oth' & Hrun & (owned' & Hs' & Ht' & Ha') & Hsd & Ho & Hm); [intros p; apply (ac_held _ _ _ _ _ _ _ Ha)|by intros va; apply Tv|done|..].
  - intros q _. reflexivity.
  - apply elem_of_union_l, Hst. by left.
  - intros q Hq. apply elem_of_union_l, Hst. by right.
  - exists owned. split_and!; [apply (machine_sub s roots); [set_solver|done]| |].
    + split.
      * intros r' va [Hr' Hne%not_elem_of_singleton]%elem_of_difference Hv. rewrite Tv by done. apply option_eq. intros e. rewrite map_lookup_filter_Some. cbn. by split; [|intros [? _]].
      * intros r' n e [HM Hne]%map_lookup_filter_Some. cbn in Hne. apply Td in HM as [??]. split; [|done]. apply elem_of_difference. by rewrite not_elem_of_singleton.
    + rewrite <- (map_filter_id (M := gmap (Z * Z)) (fun ke : Z * Z * x86_PAE_Entry => ke.1.1 <> r \/ 0 <= ke.1.2) M) in Ha0; [exact Ha0|]. intros [r' n] e HM. cbn. right. apply Td in HM as [_ [? _]]. lia.
  - exists s', owned'. split_and!; [done..| |].
    + split; [done..|]. assert (Eo : oth' = other).
      { apply set_eq. intros q. rewrite Ho, elem_of_union, <- Hst. split; [tauto|]. intros Hq. destruct (ac_other _ _ _ _ _ _ _ Ha q Hq) as (Hnt & _ & _). rewrite Hst, (elem_of_tables _ roots) in *; [|done].
        assert (~ (exists p, node (mem s) roots r p q)) by (intros (p & Hn); apply Hnt; by exists r, p). rewrite <- (elem_of_tables _ roots), <- Hst in H0 by done. tauto. }
      rewrite <- Eo. assert (E : from_page M r (256 * 512 ^ Z.of_nat (depth use_5lvl_paging)) = filter (fun ke => ke.1.1 <> r) M); [|by rewrite <- E].
      apply map_filter_ext. intros [r' n] e HM. cbn. split; [intros [?|Hn]; [done|]|by left]. intros ->. apply Td in HM as [_ [_ Hv]]. unfold user_addr_max, depth, upper_levels in *. destruct use_5lvl_paging; cbn [length] in Hn; lia.
    + intros q Hq Hnt. apply Hm; [intros ->|intros Hq']; apply Hnt; [exists r, []; by apply node_nil|destruct Hq' as (i & p & Hn); by exists r, ([] ++ i :: p)].
Qed.

End Delete.
