(* ===== verification/PagingCopy.v ===== *)
(** * Sharing the pages of a process

    [copy_anonymous_pages] walks the tables of a process and maps the anonymous pages of a range
    in another one, writable in neither. *)

From stdpp Require Import base numbers list gmap sets.
From Stdlib Require Import ZArith Lia.
From S2P Require Import Prelude Frames Paging PagingInv PagingOps PagingBooks PagingSpec PagingCow PagingFree.
Open Scope Z_scope.

Section Copy.
  Context {S : Type} `{FrameAllocator S} (use_5lvl_paging support_nx : bool).

Notation node := (node use_5lvl_paging).
Notation path := (path use_5lvl_paging).
Notation depth := (depth use_5lvl_paging).
Notation user_va := (user_va use_5lvl_paging).
Notation user_path := (user_path use_5lvl_paging).
Notation books := (books use_5lvl_paging).
Notation keeps_tables := (keeps_tables use_5lvl_paging).

(** The pages from [a] to [z] of the table [f], to be shared [d] pages further in the table [t] *)
  Context (roots : gset Z) (f t a z d : Z) (M : pmap) (held : Z -> Z) (other : gset Z) (anon : Z -> bool).
  Hypotheses (Hfr : f ∈ roots) (Htr : t ∈ roots) (Hft : f <> t) (Ha : 0 <= a <= z) (Hz : z * 4096 <= user_addr_max use_5lvl_paging).
  Hypotheses (Hd : 0 <= a + d) (Hzd : (z + d) * 4096 <= user_addr_max use_5lvl_paging).
  Hypothesis Hfree : forall n, a <= n < z -> M !! (t, n + d) = None.
  Hypothesis Hshared : forall n e, a <= n < z -> M !! (f, n) = Some e -> shared e = true.

(** What becomes of an entry, and what the other process gets *)
Definition protect (e : x86_PAE_Entry) : x86_PAE_Entry := if anon (entry_page e) then set_writeable e false else e.
Definition shared_entry (e : x86_PAE_Entry) : x86_PAE_Entry :=
  leaf_entry support_nx (entry_page e) (Z.lor (arg_extra (shared_args e)) PAGING_FLAG_STRUCT_PAGE) (shared_args e).
Definition share (e : x86_PAE_Entry) : option x86_PAE_Entry := if anon (entry_page e) then Some (shared_entry e) else None.

(** The mappings when the pages before [v] have been shared *)
Definition upto (v : Z) (Mv : pmap) : Prop := forall r n, Mv !! (r, n) =
  if decide (r = f /\ a <= n < v) then protect <$> M !! (f, n) else if decide (r = t /\ a <= n - d < v) then M !! (f, n - d) ≫= share else M !! (r, n).

(** After an error some pages may be protected that are not shared *)
Definition partly (v : Z) (Mv : pmap) : Prop := (forall n, Mv !! (f, n) = M !! (f, n) \/ Mv !! (f, n) = protect <$> M !! (f, n)) /\
  forall r n, r <> f -> Mv !! (r, n) = if decide (r = t /\ a <= n - d < v) then M !! (f, n - d) ≫= share else M !! (r, n).

(** The bound of what has been shared *)
Definition bound_ok (v offset : Z) : Prop := 0 <= offset <= (v - a) * 4096 /\ offset mod 4096 = 0 /\
  forall n e, a <= n < v -> M !! (f, n) = Some e -> anon (entry_page e) = true -> (n - a + 1) * 4096 <= offset.

Definition kinds_ok (s : machine S) : Prop := forall p x, structs s !! p = Some x -> is_anonymous x = anon p.

Definition shared_upto (s : machine S) (v offset : Z) : Prop := exists owned Mv, books s roots owned Mv held other /\ upto v Mv /\ kinds_ok s /\ a <= v <= z /\ bound_ok v offset /\
  forall n e, a <= n < v -> M !! (f, n) = Some e -> anon (entry_page e) = true -> writeable e = true -> dropped s (n * 4096).
Definition interrupted (s : machine S) (offset : Z) : Prop := exists v owned Mv, books s roots owned Mv held other /\ partly v Mv /\ a <= v <= z /\ bound_ok v offset.

Lemma kinds_keep s s' : keeps_kinds s s' -> kinds_ok s -> kinds_ok s'.
Proof. intros Hk Hs p x' Hx'. destruct (Hk p x' Hx') as (x & Hx & ->). by apply Hs. Qed.

Lemma upto_partly v Mv : upto v Mv -> partly v Mv.
Proof.
  intros Hu. split; [|intros r n Hr; rewrite Hu, decide_False by (by intros [? _]); done]. intros n. rewrite Hu. case_decide; [by right|left]. by rewrite decide_False by (by intros [? _]).
Qed.

(** Pages that are not shared are passed over *)
Lemma upto_skip v v' Mv : upto v Mv -> v <= v' -> v' <= z -> (forall n e, v <= n < v' -> M !! (f, n) = Some e -> anon (entry_page e) = false) -> upto v' Mv.
Proof.
  intros Hu Hv Hvz Hn r n. assert (Hp : forall n, v <= n < v' -> protect <$> M !! (f, n) = M !! (f, n) /\ M !! (f, n) ≫= share = None).
  { intros m Hm. destruct (M !! (f, m)) as [e|] eqn:E; [|done]. cbn. unfold protect, share. by rewrite (Hn m e). }
  rewrite Hu. destruct (decide (r = f /\ a <= n < v)) as [Hd1|Hd1]; [by rewrite decide_True by (destruct Hd1; split; [done|lia])|]. destruct (decide (r = f /\ a <= n < v')) as [[-> Hd2]|Hd2].
  - rewrite decide_False by (by intros [? _]). destruct (Hp n) as [-> _]; [|done]. destruct (decide (v <= n)); [lia|]. destruct Hd1. split; [done|lia].
  - destruct (decide (r = t /\ a <= n - d < v)) as [Hd3|Hd3]; [by rewrite decide_True by (destruct Hd3; split; [done|lia])|]. destruct (decide (r = t /\ a <= n - d < v')) as [[-> Hd4]|Hd4]; [|done].
    assert (v <= n - d < v') by (split; [|lia]; destruct (decide (v <= n - d)); [done|]; exfalso; apply Hd3; split; [done|lia]). destruct (Hp (n - d)) as [_ ->]; [done|]. replace n with (n - d + d) by lia. apply Hfree. lia.
Qed.

(** One more page *)
Lemma upto_step v e Mv : upto v Mv -> a <= v < z -> M !! (f, v) = Some e -> anon (entry_page e) = true ->
  upto (v + 1) (<[(t, v + d) := shared_entry e]> (<[(f, v) := set_writeable e false]> Mv)).
Proof.
  intros Hu Hv He Hae r n. destruct (decide ((r, n) = (t, v + d))) as [[= -> ->]|Hne1].
  { rewrite lookup_insert_eq, decide_False by (by intros [? _]). rewrite decide_True by (split; [done|lia]). replace (v + d - d) with v by lia. rewrite He. cbn. unfold share. by rewrite Hae. }
  rewrite lookup_insert_ne by done. destruct (decide ((r, n) = (f, v))) as [[= -> ->]|Hne2].
  { rewrite lookup_insert_eq, decide_True by (split; [done|lia]). rewrite He. cbn. unfold protect. by rewrite Hae. }
  rewrite lookup_insert_ne by done. rewrite Hu. assert (r = f -> n <> v) by (by intros -> ->). assert (r = t -> n - d <> v) by (intros -> E; apply Hne1; f_equal; lia).
  repeat case_decide; try done; naive_solver lia.
Qed.

Lemma bound_skip v v' offset : bound_ok v offset -> v <= v' -> (forall n e, v <= n < v' -> M !! (f, n) = Some e -> anon (entry_page e) = false) -> bound_ok v' offset.
Proof.
  intros (Hb & Hm & Hn) Hv Hs. split_and!; [lia|lia|done|]. intros n e Hr He Hae. destruct (decide (n < v)); [apply (Hn n e); [lia|done..]|]. rewrite (Hs n e) in Hae; [done|lia|done].
Qed.

Lemma bound_step v : a <= v -> bound_ok (v + 1) ((v - a + 1) * 4096).
Proof. intros Hv. split_and!; [lia|lia|by rewrite Z.mod_mul|]. intros n e Hn _ _. nia. Qed.

(** The entry is made read-only, if it is not *)
Lemma protect_entry n p tb i e s owned Mv held' : books s roots owned Mv held' other -> node (mem s) roots f p tb -> length p = depth -> (i < 512)%nat -> n = num (p ++ [i]) ->
  Mv !! (f, n) = Some e -> shared e = true ->
  exists s', (if writeable e then _ ← store tb i (set_writeable e false); invalidate_page (n * 4096) else mret tt) s = Some (tt, s') /\
    books s' roots owned (<[(f, n) := set_writeable e false]> Mv) held' other /\ keeps_tables s s' roots /\ structs s' = structs s /\
    (exists l, shootdown s' = shootdown s ++ l) /\ (writeable e = true -> dropped s' (n * 4096)).
Proof.
  intros Hb Hn Hl Hi En Hk Hsh. destruct (full_path_num _ p i (proj1 (proj2 Hn)) Hl Hi) as [Hv Hfp]. rewrite <- En in Hv, Hfp. unfold full_path in Hfp. apply app_inj_2 in Hfp as [Ep Ei]; [|done]. injection Ei as Ei.
  destruct (writeable e) eqn:Ew.
  - rewrite <- Ep in Hn. rewrite <- Ei. replace n with (n * 4096 / 4096) in Hk by (by rewrite Z.div_mul). destruct (ac_entry _ _ _ _ _ _ _ (bo_accounts _ _ _ _ _ _ _ Hb) _ _ Hk) as [Hok Hpr]. assert (Hpv : private e = false) by (unfold private; by rewrite Hsh).
    destruct (replace_entry _ (n * 4096) e (set_writeable e false) s roots owned Mv held' other f tb Hb Hv Hn Hk) as (s1 & Hr1 & Hb1 & Est & Esd & Hnode & _).
    { refine (conj Hok (conj Hpr (conj _ _))); [|change (private (set_writeable e false)) with (private e); by rewrite Hpv]. intros _. change (entry_page (set_writeable e false)) with (entry_page e). split; [by apply (ac_shared _ _ _ _ _ _ _ (bo_accounts _ _ _ _ _ _ _ Hb) _ _ Hk)|].
      unfold gain, hold. rewrite Hsh, decide_True by done. pose proof (ac_held _ _ _ _ _ _ _ (bo_accounts _ _ _ _ _ _ _ Hb) (entry_page e)). lia. }
    rewrite (xbind _ _ _ _ _ Hr1). destruct (invalidate_page_run _ (n * 4096) s1 _ _ _ _ _ Hb1) as (s2 & Hr2 & Hb2 & Em2 & Est2 & Esd2). exists s2. split; [done|]. rewrite Z.div_mul in Hb2 by lia. split_and!.
    + unfold lose, lose_other, gain, gain_other in Hb2. change (private (set_writeable e false)) with (private e) in Hb2. change (shared (set_writeable e false)) with (shared e) in Hb2. rewrite Hsh, Hpv in Hb2.
      eapply books_held; [|exact Hb2]. intros q. unfold hold. change (entry_page (set_writeable e false)) with (entry_page e). case_decide; lia.
    + intros r' p' t' Hn'. rewrite Em2. by apply Hnode.
    + congruence.
    + rewrite Esd2, Esd. apply noted_prefix.
    + intros _. eapply noted_dropped. by rewrite Esd2.
  - exists s. split_and!; [done| |by intros ? ? ?|done|by exists []; rewrite app_nil_r|done]. replace (set_writeable e false) with e by (destruct e; cbn in Ew; by subst). by rewrite insert_id.
Qed.

Lemma shared_skip s v v' offset : shared_upto s v offset -> v <= v' -> v' <= z -> (forall n e, v <= n < v' -> M !! (f, n) = Some e -> anon (entry_page e) = false) -> shared_upto s v' offset.
Proof.
  intros (owned & Mv & Hb & Hu & Hk & Hv & Hbd & Hdr) Hvv Hvz Hn. exists owned, Mv. split_and!; [done|by eapply upto_skip|done|lia|lia|by eapply bound_skip|]. intros n e Hr He Hae. destruct (decide (n < v)); [apply Hdr; [lia|done..]|].
  rewrite (Hn n e) in Hae; [done|lia|done].
Qed.

(** [share_page] *)
Lemma share_page_ok n p tb i e s offset : shared_upto s n offset -> n < z -> node (mem s) roots f p tb -> length p = depth -> (i < 512)%nat -> n = num (p ++ [i]) -> entry (mem s) tb i = Some e -> present e = true ->
  exists res s', share_page use_5lvl_paging support_nx t tb i e (n * 4096) ((n + d) * 4096) s = Some (res, s') /\ keeps_tables s s' roots /\
    match res with
    | None => shared_upto s' (n + 1) offset
    | Some res => res = 0 /\ shared_upto s' (n + 1) ((n - a + 1) * 4096) \/ res = - ENOMEM /\ interrupted s' offset
    end.
Proof.
  intros (owned & Mv & Hb & Hu & Hkd & Hv & Hbd & Hdr) Hnz Hn Hl Hi En He Hpr.
  assert (HMv : Mv !! (f, n) = Some e).
  { destruct (full_path_num _ p i (proj1 (proj2 Hn)) Hl Hi) as [Hva Hfp]. rewrite <- En in Hva, Hfp. unfold full_path in Hfp. apply app_inj_2 in Hfp as [Ep Ei]; [|done]. injection Ei as Ei. rewrite <- Ep in Hn.
    destruct (books_entry _ _ _ _ _ _ _ _ _ _ Hb Hva Hn) as (e1 & He1 & HM). rewrite Ei, He in He1. injection He1 as <-. rewrite Z.div_mul, Hpr in HM by lia. done. }
  assert (HM : M !! (f, n) = Some e) by (rewrite Hu, !decide_False in HMv by (intros [? ?]; done || lia); done). pose proof (Hshared n e (conj (proj1 Hv) Hnz) HM) as Hsh.
  destruct (ac_shared _ _ _ _ _ _ _ (bo_accounts _ _ _ _ _ _ _ Hb) _ _ HMv Hsh) as [x Hx]. pose proof (Hkd _ _ Hx) as Hax. unfold share_page. fold (entry_page e). set (page := entry_page e) in *.
  destruct (books_find _ page x s _ _ _ _ _ Hb Hx) as [Hr1 Hb1]. rewrite (xbind _ _ _ _ _ Hr1). set (s1 := with_structs _ s) in *. assert (Hx1 : structs s1 !! page = Some (with_refcount x (refcount x + 1))) by apply lookup_insert_eq.
  rewrite (xbind _ _ _ _ _ (get_struct_run _ _ _ Hx1)). cbn [is_anonymous with_refcount]. assert (Hh : 0 < hold held page 1 page) by (unfold hold; rewrite decide_True by done; pose proof (ac_held _ _ _ _ _ _ _ (bo_accounts _ _ _ _ _ _ _ Hb) page); lia).
  assert (Hk1 : kinds_ok s1) by (intros q y; cbn; intros [[<- <-]|[_ Hy]]%lookup_insert_Some; [done|by apply Hkd]). assert (Hback : forall q, held q = hold (hold held page 1) page (-1) q) by (intros q; unfold hold; case_decide; lia).
  destruct (is_anonymous x) eqn:Eax; cbn [negb].
  - destruct (protect_entry n p tb i e s1 owned Mv _ Hb1 Hn Hl Hi En HMv Hsh) as (s2 & Hr2 & Hb2 & Hkt2 & Est2 & [l2 Hl2] & Hd2). rewrite (xbind _ _ _ _ _ Hr2). rewrite <- Est2 in Hx1.
    assert (Hex : 0 <= arg_extra (shared_args e) < 4) by (cbn; change 3 with (Z.ones 2); rewrite Z.land_ones by lia; apply Z.mod_pos_bound; lia).
    destruct (map_page_correct use_5lvl_paging support_nx s2 roots owned _ _ other t ((n + d) * 4096) page (with_refcount x (refcount x + 1)) (shared_args e) Hb2 Htr) as (res & s3 & o3 & M3 & Hr3 & Hb3 & Hsd3 & _ & Hkt3 & Hkk3 & Hres); [split; lia|exact Hx1|done|done|].
    rewrite Z.div_mul in Hres by lia. rewrite lookup_insert_ne in Hres by (by intros [=]). rewrite Hu, !decide_False, (Hfree n) in Hres by (first [lia|intros [? ?]; first [done|lia]]). rewrite (xbind _ _ _ _ _ Hr3). exists (Some res), s3. split_and!; [done|by intros r' p' t' Hn'; apply Hkt3, Hkt2|].
    apply (books_held _ held) in Hb3; [|done]. destruct Hres as [[-> ->]|[-> ->]]; [left|right]; (split; [done|]).
    + exists o3. eexists. split_and!; [exact Hb3|apply upto_step; [done|lia|done|by symmetry]|apply (kinds_keep s2); [done|]; intros q y; rewrite Est2; apply Hk1|lia|lia|apply bound_step; lia|].
      intros m e' Hm He' Hae' Hwe'. apply (dropped_prefix s2 s3 _ []); [by rewrite app_nil_r|]. destruct (decide (m = n)) as [->|]; [apply Hd2; congruence|]. apply (dropped_prefix s s2 _ l2 Hl2). apply (Hdr m e'); [lia|done..].
    + exists n, o3. eexists. split_and!; [exact Hb3| |lia|lia|done]. destruct (upto_partly _ _ Hu) as [Hp1 Hp2]. split.
      * intros m. destruct (decide (m = n)) as [->|]; [|rewrite lookup_insert_ne by congruence; apply Hp1]. right. rewrite lookup_insert_eq, HM. cbn. unfold protect. fold page. by rewrite <- Hax.
      * intros r m Hr. rewrite lookup_insert_ne by congruence. by apply Hp2.
  - destruct (books_drop _ page _ s1 _ _ _ _ _ Hb1 Hx1 Hh) as (s2 & o2 & Hr2 & Hb2 & [Em2 Esd2] & Est2). rewrite (xbind _ _ _ _ _ Hr2). exists None, s2. split_and!; [done|by intros r' p' t' Hn'; rewrite Em2|]. apply (books_held _ held) in Hb2; [|done].
    apply (shared_skip s2 n); [|lia|lia|]. 2: { intros m e' Hm He'. assert (m = n) as -> by lia. assert (e' = e) as -> by congruence. by symmetry. }
    exists o2, Mv. split_and!; [done..| |lia|lia|done|].
    + intros q y. rewrite Est2. case_decide; [intros [_ Hy]%lookup_delete_Some; by apply Hk1|]. cbn. intros [[<- <-]|[_ Hy]]%lookup_insert_Some; [by cbn; rewrite Eax|by apply Hk1].
    + intros m e' Hm He' Hae' Hwe'. apply (dropped_prefix s s2 _ []); [by rewrite app_nil_r|]. by apply (Hdr m e').
Qed.

(** ** The levels *)

Lemma copy_entries_ok (P : Z -> machine S -> Z -> Prop) (Q : machine S -> Z -> Prop) body n i s offset : P i s offset ->
  (forall j s offset, i <= j < i + Z.of_nat n -> P j s offset -> exists res offset' s', body j offset s = Some ((res, offset'), s') /\ (res = 0 /\ P (j + 1) s' offset' \/ res = - ENOMEM /\ Q s' offset')) ->
  exists res offset' s', copy_entries body n i offset s = Some ((res, offset'), s') /\ (res = 0 /\ P (i + Z.of_nat n) s' offset' \/ res = - ENOMEM /\ Q s' offset').
Proof.
  revert i s offset. induction n as [|n IH]; intros i s offset HP Hbody; cbn [copy_entries]; [exists 0, offset, s; split; [done|left; by rewrite Z.add_0_r]|].
  destruct (Hbody i s offset) as (res & off1 & s1 & Hr1 & Hres); [lia|done|]. rewrite (xbind _ _ _ _ _ Hr1). destruct Hres as [[-> HP1]|[-> HQ]]; [|by exists (- ENOMEM), off1, s1; split; [|right]].
  destruct (IH (i + 1) s1 off1 HP1) as (res & off2 & s2 & Hr2 & Hres2); [intros j s' off' Hj; apply Hbody; lia|]. exists res, off2, s2. split; [done|]. by replace (i + Z.of_nat (Datatypes.S n)) with (i + 1 + Z.of_nat n) by lia.
Qed.

(** The indices that are computed, with the pages [G] below an entry *)
Lemma copy_indices below v : let G := 512 ^ Z.of_nat below in let shift := 12 + Z.of_nat below * 9 in
  0 < G /\ 2 ^ shift = 4096 * G /\ Z.shiftr (v * 4096) shift = v / G /\ Z.shiftr (v * 4096) (shift + 9) = v / (512 * G) /\
  exists zc, z <= zc * G /\ (zc - 1) * G < z /\ Z.ldiff (a * 4096 + (z - a) * 4096 + Z.ones shift) (Z.ones shift) = zc * G * 4096.
Proof.
  intros G shift. assert (HG : 0 < G) by (apply Z.pow_pos_nonneg; lia). assert (E2 : 2 ^ shift = 4096 * G) by (unfold shift, G; rewrite Z.pow_add_r by lia; change 512 with (2 ^ 9); rewrite <- Z.pow_mul_r by lia; do 2 f_equal; lia).
  assert (Hs : 0 <= shift) by (unfold shift; lia). split_and!; [done..| | |].
  - rewrite Z.shiftr_div_pow2, E2 by done. rewrite (Z.mul_comm v), Z.div_mul_cancel_l by lia. done.
  - rewrite Z.shiftr_div_pow2, Z.pow_add_r, E2 by lia. change (2 ^ 9) with 512. replace (4096 * G * 512) with (4096 * (512 * G)) by lia. rewrite (Z.mul_comm v), Z.div_mul_cancel_l by lia. done.
  - set (x := a * 4096 + (z - a) * 4096 + Z.ones shift). assert (Ex : x = z * 4096 + (4096 * G - 1)) by (unfold x; rewrite Z.ones_equiv, E2; lia). exists (x / (4096 * G)).
    pose proof (Z.div_mod x (4096 * G)) as Hdm. pose proof (Z.mod_pos_bound x (4096 * G)) as Hmb. split_and!; [lia|lia|]. rewrite Z.ldiff_ones_r, Z.shiftr_div_pow2, Z.shiftl_mul_pow2, E2 by done. lia.
Qed.

(** The start of an entry other than the first *)
Lemma copy_current below v i i0 : let G := 512 ^ Z.of_nat below in let shift := 12 + Z.of_nat below * 9 in
  Z.shiftl (i - i0) shift + v * 4096 = ((i - i0) * G + v) * 4096 /\ Z.ldiff (Z.shiftl (i - i0) shift + v * 4096) (Z.ones shift) = (i - i0 + v / G) * G * 4096.
Proof.
  intros G shift. destruct (copy_indices below v) as (HG & E2 & E3 & _ & _). fold G shift in HG, E2, E3. assert (Hs : 0 <= shift) by (unfold shift; lia). rewrite Z.shiftl_mul_pow2, E2 by done. split; [lia|].
  rewrite Z.ldiff_ones_r, Z.shiftr_div_pow2, Z.shiftl_mul_pow2, E2 by done. rewrite Z.div_add_l by lia. rewrite (Z.mul_comm v), Z.div_mul_cancel_l by lia. lia.
Qed.

(** What a level promises for a table *)
Definition copies (below : nat) : Prop := forall p tb s v offset, node (mem s) roots f p tb -> (length p + below = depth)%nat ->
  num p * 512 ^ (Z.of_nat below + 1) <= v < (num p + 1) * 512 ^ (Z.of_nat below + 1) -> shared_upto s v offset ->
  exists res offset' s', copy_to_recursive use_5lvl_paging support_nx (Datatypes.S below) t (a * 4096) ((a + d) * 4096) ((z - a) * 4096) tb (v * 4096) offset s = Some ((res, offset'), s') /\ keeps_tables s s' roots /\
    (res = 0 /\ shared_upto s' (Z.min z ((num p + 1) * 512 ^ (Z.of_nat below + 1))) offset' \/ res = - ENOMEM /\ interrupted s' offset').

(** The user half *)
Lemma index_user p tb (s : machine S) j below : node (mem s) roots f p tb -> (length p + below = depth)%nat -> 0 <= j < 512 -> (512 * num p + j) * 512 ^ Z.of_nat below < z -> (0 < below)%nat -> user_path (p ++ [Z.to_nat j]).
Proof.
  intros (_ & (_ & Hall & Hfst) & _) Hl Hj Hlt Hb. split_and!; [rewrite length_app; cbn; lia|rewrite Forall_app, Forall_singleton; split; [done|lia]|]. destruct p as [|i p]; cbn; [|done]. change (num []) with 0 in Hlt. cbn in Hl. rewrite Hl in Hlt.
  unfold user_addr_max, PagingInv.depth, upper_levels in *. destruct use_5lvl_paging; cbn [length] in Hlt; lia.
Qed.

(** Below an entry that is not present there is nothing to share *)
Lemma nothing_below below p tb s v offset j e : shared_upto s v offset -> node (mem s) roots f p tb -> (length p + below = depth)%nat -> 0 <= j < 512 -> (512 * num p + j) * 512 ^ Z.of_nat below < z ->
  entry (mem s) tb (Z.to_nat j) = Some e -> present e = false -> forall n, v <= n < z -> (512 * num p + j) * 512 ^ Z.of_nat below <= n < (512 * num p + j + 1) * 512 ^ Z.of_nat below -> M !! (f, n) = None.
Proof.
  intros (owned & Mv & Hb & Hu & _ & Hv & _) Hn Hl Hj Hlt He Hpr n Hnv Hnr. assert (HMv : Mv !! (f, n) = None).
  - assert (Hview : forall va, user_va va -> view use_5lvl_paging (mem s) f va = Mv !! (f, va / 4096)) by (intros va; by apply (tr_view _ _ _ _ (bo_tree _ _ _ _ _ _ _ Hb))).
    assert (Hnum : num (p ++ [Z.to_nat j]) = 512 * num p + j) by (rewrite num_snoc; lia). destruct below as [|h].
    + change (512 ^ Z.of_nat 0) with 1 in Hnr. assert (n = num (p ++ [Z.to_nat j])) as -> by lia. rewrite (leaf_key use_5lvl_paging (mem s) roots f Mv Hview p tb (Z.to_nat j) e Hn); [by rewrite Hpr|lia|lia|done].
    + eapply (absent_range use_5lvl_paging (mem s) roots f Mv Hview); [|done|by eapply index_user; [done|..]; [done|done|done|lia]|done|done|done|].
      * intros m e' He'. by apply (tr_dom _ _ _ _ (bo_tree _ _ _ _ _ _ _ Hb)) in He' as [_ ?].
      * rewrite Hnum. by replace (Z.of_nat h + 1) with (Z.of_nat (Datatypes.S h)) by lia.
  - rewrite Hu, !decide_False in HMv by (intros [? ?]; done || lia). done.
Qed.

(** One entry of a table *)
Lemma copy_granule below p tb s j v offset : (forall b, below = Datatypes.S b -> copies b) -> node (mem s) roots f p tb -> (length p + below = depth)%nat -> 0 <= j < 512 ->
  let G := 512 ^ Z.of_nat below in let shift := 12 + Z.of_nat below * 9 in let g := 512 * num p + j in let i0 := v / G - 512 * num p in
  g * G < z -> v / G <= g -> v <= z -> shared_upto s (Z.max v (g * G)) offset ->
  exists res offset' s', (e ← load tb (Z.to_nat j);
        if negb (present e) then mret (0, offset)
        else
          let current := Z.shiftl (j - i0) shift + v * 4096 in
          if bool_decide (below = 0%nat) then
            r ← share_page use_5lvl_paging support_nx t tb (Z.to_nat j) e current (current - a * 4096 + (a + d) * 4096);
            mret (match r with None => (0, offset) | Some r => if r =? 0 then (0, current - a * 4096 + 4096) else (r, offset) end)
          else
            _ ← xassert (negb (pat_size e));
            let current := if j =? i0 then current else Z.ldiff current (Z.ones shift) in
            copy_to_recursive use_5lvl_paging support_nx below t (a * 4096) ((a + d) * 4096) ((z - a) * 4096) (Z.shiftl (page_ppn e) 12) current offset) s = Some ((res, offset'), s') /\
    keeps_tables s s' roots /\ (res = 0 /\ shared_upto s' (Z.max v (Z.min z ((g + 1) * G))) offset' \/ res = - ENOMEM /\ interrupted s' offset').
Proof.
  intros Hrec Hn Hl Hj G shift g i0 Hgz Hvg Hvz Hsu. destruct (copy_indices below v) as (HG & _). fold G in HG. destruct (copy_current below v j i0) as [Ec1 Ec2]. fold G shift in Ec1, Ec2.
  assert (Hvlt : v < (g + 1) * G) by (pose proof (Z.div_mod v G); pose proof (Z.mod_pos_bound v G); nia). assert (Hpos : Z.max v (Z.min z ((g + 1) * G)) = Z.min z ((g + 1) * G)) by lia. rewrite Hpos.
  assert (Hfo : exists owned, forest use_5lvl_paging (mem s) roots owned) by (destruct Hsu as (owned & Mv & Hb & _); exists owned; apply (mo_forest _ _ _ _ (bo_ok _ _ _ _ _ _ _ Hb))). destruct Hfo as [owned Hf].
  destruct (node_entry _ _ _ _ _ _ _ (Z.to_nat j) Hf Hn) as (w & _ & _ & He); [lia|]. rewrite (xbind _ _ _ _ _ (load_run _ _ _ _ He)). destruct (present (from_u64 w)) eqn:Epr; cbn [negb].
  2: { exists 0, offset, s. split_and!; [done|by intros ? ? ?|left; split; [done|]]. apply (shared_skip s (Z.max v (g * G))); [done|lia|lia|]. intros n e Hr HM. rewrite (nothing_below below p tb s _ offset j _ Hsu Hn Hl Hj Hgz He Epr n) in HM; [done|lia|fold G g; lia]. }
  cbv zeta. rewrite Ec2, Ec1. destruct below as [|b].
  - rewrite bool_decide_eq_true_2 by done. assert (Ei0 : i0 = v - 512 * num p) by (unfold i0; change G with 1; by rewrite Z.div_1_r). change G with 1 in *. rewrite Z.div_1_r in *. rewrite !Z.mul_1_r in *. assert (Hm : Z.max v g = g) by lia. rewrite Hm in Hsu. replace (j - i0 + v) with g by (unfold g; lia).
    replace (g * 4096 - a * 4096 + (a + d) * 4096) with ((g + d) * 4096) by lia. destruct (share_page_ok g p tb (Z.to_nat j) (from_u64 w) s offset Hsu Hgz Hn) as (res & s' & Hr & Hkt & Hres); [lia|lia|unfold g; rewrite num_snoc; lia|done|done|].
    rewrite (xbind _ _ _ _ _ Hr). replace (Z.min z (g + 1)) with (g + 1) by lia. replace (g * 4096 - a * 4096 + 4096) with ((g - a + 1) * 4096) by lia. destruct res as [res|]; [|exists 0, offset, s'; split_and!; [done..|by left]].
    destruct Hres as [[-> Hsu']|[-> Hint]]; [exists 0, ((g - a + 1) * 4096), s'; split_and!; [done..|by left]|exists (- ENOMEM), offset, s'; split_and!; [done..|by right]].
  - rewrite bool_decide_eq_false_2 by done. pose proof (index_user p tb s j _ Hn Hl Hj Hgz (Nat.lt_0_succ b)) as Hup. destruct (fo_size _ _ _ _ Hf _ _ _ _ _ Hn Hup He) as [-> _]. rewrite (xbind (xassert true) _ s tt s) by done. fold (entry_page (from_u64 w)).
    assert (Hc : node (mem s) roots f (p ++ [Z.to_nat j]) (entry_page (from_u64 w))) by (destruct Hn as (? & _ & Ht); split_and!; [done..|]; rewrite table_at_snoc, Ht; cbn [mbind option_bind]; unfold child; rewrite He; cbn [mbind option_bind]; by rewrite Epr).
    assert (Ecur : (if j =? i0 then ((j - i0) * G + v) * 4096 else (j - i0 + v / G) * G * 4096) = Z.max v (g * G) * 4096).
    { pose proof (Z.div_mod v G). pose proof (Z.mod_pos_bound v G). destruct (Z.eqb_spec j i0) as [->|Hne]; [replace g with (v / G) by lia; lia|]. assert (v / G + 1 <= g) by lia. replace (j - i0 + v / G) with g by lia. nia. }
    rewrite Ecur. assert (Hnum : num (p ++ [Z.to_nat j]) = g) by (unfold g; rewrite num_snoc; lia). assert (EG : 512 ^ (Z.of_nat b + 1) = G) by (unfold G; f_equal; lia).
    destruct (Hrec b eq_refl (p ++ [Z.to_nat j]) _ s (Z.max v (g * G)) offset Hc) as (res & off' & s' & Hr & Hkt & Hres); [rewrite length_app; cbn; lia|rewrite Hnum, EG; lia|done|]. rewrite Hnum, EG in Hres. by exists res, off', s'.
Qed.

(** The index where a table ends *)
Lemma copy_end zc q : 512 * q <= zc -> (if q =? zc / 512 then Z.land zc 511 else 512) = Z.min zc (512 * (q + 1)) - 512 * q.
Proof.
  intros Hq. change 511 with (Z.ones 9). rewrite Z.land_ones by lia. change (2 ^ 9) with 512. pose proof (Z.div_mod zc 512). pose proof (Z.mod_pos_bound zc 512). destruct (Z.eqb_spec q (zc / 512)); lia.
Qed.

Lemma copies_level below : (forall b, below = Datatypes.S b -> copies b) -> copies below.
Proof.
  intros Hrec p tb s v offset Hn Hl Hv Hsu. cbn [copy_to_recursive]. cbv zeta. set (G := 512 ^ Z.of_nat below). set (shift := 12 + Z.of_nat below * 9).
  destruct (copy_indices below v) as (HG & E2 & E3 & E4 & zc & Hz1 & Hz2 & Emax). destruct (copy_indices below (zc * G)) as (_ & _ & F3 & F4 & _). fold G shift in HG, E3, E4, Emax, Hz1, Hz2, F3, F4. rewrite Emax, E3, E4, F3, F4, Z.div_mul, Z.div_mul_cancel_r by lia.
  assert (EG : 512 ^ (Z.of_nat below + 1) = 512 * G) by (rewrite Z.pow_add_r by lia; fold G; lia). rewrite EG in *. assert (Hvz : a <= v <= z) by (destruct Hsu as (? & ? & _ & _ & _ & ? & _); done). assert (Hq : v / (512 * G) = num p) by (symmetry; apply (Z.div_unique_pos _ _ _ (v - 512 * G * num p)); lia).
  rewrite Hq, (copy_end zc (num p)) by nia. pose proof (Z.div_mod v G) as Hdm. pose proof (Z.mod_pos_bound v G) as Hmb. assert (Hi0 : 0 <= v / G - 512 * num p < 512) by nia. assert (Hvzc : v / G <= zc) by nia.
  assert (Estart : Z.land (v / G) 511 = v / G - 512 * num p) by (change 511 with (Z.ones 9); rewrite Z.land_ones by lia; change (2 ^ 9) with 512; symmetry; apply (Z.mod_unique_pos _ _ (num p)); lia). rewrite Estart. set (i0 := v / G - 512 * num p) in *.
  edestruct (copy_entries_ok (fun j s1 off => keeps_tables s s1 roots /\ shared_upto s1 (Z.max v (Z.min z ((512 * num p + j) * G))) off) (fun s1 off => keeps_tables s s1 roots /\ interrupted s1 off)) as (res & off' & s' & Hrun & Hres);
    [| |exists res, off', s'; split; [exact Hrun|]].
  - split; [by intros ? ? ?|]. replace (512 * num p + i0) with (v / G) by (unfold i0; lia). by replace (Z.max v (Z.min z (v / G * G))) with v by lia.
  - intros j s1 off1 Hj [Hkt Hsu1]. assert (Hgz : (512 * num p + j) * G < z) by nia. rewrite (Z.min_r z) in Hsu1 by lia.
    destruct (copy_granule below p tb s1 j v off1 Hrec) as (res & off2 & s2 & Hr2 & Hkt2 & Hres2); [by apply Hkt|done|lia|done|fold G; lia|lia|done|]. fold G shift i0 in Hr2, Hres2. exists res, off2, s2. split; [exact Hr2|].
    assert (Hkt' : keeps_tables s s2 roots) by (intros r' p' t' Hn'; by apply Hkt2, Hkt). replace (512 * num p + (j + 1)) with (512 * num p + j + 1) by lia. destruct Hres2 as [[-> ?]|[-> ?]]; [left|right]; by split_and!.
  - assert (Epos : Z.max v (Z.min z ((512 * num p + (i0 + Z.of_nat (Z.to_nat (Z.min zc (512 * (num p + 1)) - 512 * num p - i0)))) * G)) = Z.min z ((num p + 1) * (512 * G))) by (rewrite Z2Nat.id by lia; nia).
    rewrite Epos in Hres. destruct Hres as [[-> [??]]|[-> [??]]]; (split; [done|]); [left|right]; done.
Qed.

Lemma copies_all below : copies below.
Proof. induction below as [|b IH]; apply copies_level; intros b' [=]. by subst. Qed.

(** The whole range *)
Lemma copy_all s owned : books s roots owned M held other -> kinds_ok s ->
  exists res offset s', copy_to_recursive use_5lvl_paging support_nx (if use_5lvl_paging then 5 else 4)%nat t (a * 4096) ((a + d) * 4096) ((z - a) * 4096) f (a * 4096) 0 s = Some ((res, offset), s') /\
    (res = 0 /\ shared_upto s' z offset \/ res = - ENOMEM /\ interrupted s' offset).
Proof.
  intros Hb Hk. assert (El : (if use_5lvl_paging then 5 else 4)%nat = Datatypes.S depth) by (unfold PagingInv.depth, upper_levels; by destruct use_5lvl_paging). rewrite El.
  assert (Hzm : z < 512 ^ (Z.of_nat depth + 1)) by (unfold user_addr_max, PagingInv.depth, upper_levels in *; destruct use_5lvl_paging; cbn [length]; lia).
  destruct (copies_all depth [] f s a 0) as (res & off & s' & Hr & _ & Hres); [by apply node_nil|done|change (num []) with 0; lia| |].
  - exists owned, M. split_and!; [done| |done|lia|lia| |lia].
    + intros r n. by rewrite !decide_False by lia.
    + split_and!; [lia|lia|done|lia].
  - exists res, off, s'. split; [done|]. change (num []) with 0 in Hres. by rewrite Z.min_l in Hres by lia.
Qed.

(** What is taken back after an error *)
Lemma take_back v offset Mv : partly v Mv -> a <= v <= z -> bound_ok v offset ->
  let M' := filter (fun ke => ~ (ke.1.1 = t /\ in_range ((a + d) * 4096) offset ke.1.2)) Mv in
  (forall n, M' !! (f, n) = M !! (f, n) \/ M' !! (f, n) = protect <$> M !! (f, n)) /\ forall r n, r <> f -> M' !! (r, n) = M !! (r, n).
Proof.
  intros [Hp1 Hp2] Hv (Hb1 & Hb2 & Hb3) M'. assert (Hother : forall r n, ~ (r = t /\ in_range ((a + d) * 4096) offset n) -> M' !! (r, n) = Mv !! (r, n)).
  { intros r n Hn. apply option_eq. intros e. unfold M'. rewrite map_lookup_filter_Some. cbn. tauto. }
  split; [intros n; rewrite Hother by (by intros [? _]); apply Hp1|]. intros r n Hr. destruct (decide (r = t /\ a <= n - d < v)) as [[-> Hn]|Hn].
  - replace (M !! (t, n)) with (None : option x86_PAE_Entry) by (replace n with (n - d + d) by lia; symmetry; apply Hfree; lia). apply eq_None_not_Some. intros [e He]. unfold M' in He. rewrite map_lookup_filter_Some in He. cbn in He. destruct He as [He Hnr].
    rewrite Hp2, decide_True in He by (done || lia). apply bind_Some in He as (e0 & He0 & He). unfold share in He. destruct (anon (entry_page e0)) eqn:Ea; [|done]. pose proof (Hb3 (n - d) e0 Hn He0 Ea). apply Hnr. split; [done|]. unfold in_range. lia.
  - rewrite Hother; [by rewrite Hp2, decide_False|]. intros [-> Hin]. apply Hn. split; [done|]. unfold in_range in Hin. lia.
Qed.

End Copy.

Section CopyTheorem.
  Context {S : Type} `{FrameAllocator S} (use_5lvl_paging support_nx : bool).

(** Whether a page is anonymous *)
Definition page_anonymous (s : machine S) (p : Z) : bool := match structs s !! p with Some x => is_anonymous x | None => false end.

Theorem copy_anonymous_pages_correct s roots owned M held other f t a d n :
  books use_5lvl_paging s roots owned M held other -> f ∈ roots -> t ∈ roots -> f <> t -> 0 <= a -> 0 <= n -> 0 <= a + d ->
  (a + n) * 4096 <= user_addr_max use_5lvl_paging -> (a + n + d) * 4096 <= user_addr_max use_5lvl_paging ->
  (forall i, a <= i < a + n -> M !! (t, i + d) = None) -> (forall i e, a <= i < a + n -> M !! (f, i) = Some e -> shared e = true) ->
  exists res s' owned' M', copy_anonymous_pages use_5lvl_paging support_nx f t (a * 4096) ((a + d) * 4096) (n * 4096) s = Some (res, s') /\
    books use_5lvl_paging s' roots owned' M' held other /\
    (res = 0 /\ upto support_nx f t a d M (page_anonymous s) (a + n) M' \/
     res = - ENOMEM /\ (forall i, M' !! (f, i) = M !! (f, i) \/ M' !! (f, i) = protect (page_anonymous s) <$> M !! (f, i)) /\ forall r i, r <> f -> M' !! (r, i) = M !! (r, i)).
Proof.
  intros Hb Hf Ht Hft Ha Hn Hd Hz Hzd Hfree Hsh. set (z := a + n) in *. replace (n * 4096) with ((z - a) * 4096) by (unfold z; lia). assert (Haz : 0 <= a <= z) by (unfold z; lia).
  assert (Hk : kinds_ok (page_anonymous s) s) by (intros p x Hx; unfold page_anonymous; by rewrite Hx).
  destruct (copy_all use_5lvl_paging support_nx roots f t a z d M held other (page_anonymous s) Hf Ht Hft Haz Hz Hd Hzd Hfree Hsh s owned Hb Hk) as (res & offset & s1 & Hr1 & Hres). unfold copy_anonymous_pages. rewrite (xbind _ _ _ _ _ Hr1).
  destruct Hres as [[-> (o1 & M1 & Hb1 & Hu & _)]|[-> (v & o1 & M1 & Hb1 & Hp & Hv & Hbd)]].
  - destruct (finalize_ok _ _ _ _ _ _ _ Hb1) as [Hr2 Hb2]. rewrite (xbind _ _ _ _ _ Hr2). exists 0. eexists. exists o1, M1. split_and!; [done..|by left].
  - destruct (finalize_ok _ _ _ _ _ _ _ Hb1) as [Hr2 Hb2]. rewrite (xbind _ _ _ _ _ Hr2). change (- ENOMEM =? 0) with false. cbv iota. pose proof Hbd as (Hb0 & _ & _).
    destruct (invalidate_range_correct use_5lvl_paging _ roots o1 M1 held other t ((a + d) * 4096) offset Hb2 Ht) as (s3 & o3 & Hr3 & Hb3 & _); [by rewrite Z.mod_mul|lia|lia|lia|]. rewrite (xbind _ _ _ _ _ Hr3).
    destruct (finalize_ok _ _ _ _ _ _ _ Hb3) as [Hr4 Hb4]. rewrite (xbind _ _ _ _ _ Hr4). exists (- ENOMEM). eexists. eexists o3, _. split_and!; [done|exact Hb4|right; split; [done|]]. by eapply take_back.
Qed.
End CopyTheorem.
