(* ===== verification/PagingSystem.v ===== *)
(** * The page tables of a system

    New tables ([create_empty]), and the operations together: they implement operations on a
    finite map, for any allocator of frames that keeps its contract. *)

From stdpp Require Import base numbers list gmap sets.
From Stdlib Require Import ZArith Lia.
From S2P Require Import Prelude Frames Paging PagingInv PagingOps PagingBooks PagingSpec PagingCow PagingFree PagingCopy.
Open Scope Z_scope.

Section System.
  Context {S : Type} `{FrameAllocator S} (use_5lvl_paging support_nx : bool).

Notation node := (node use_5lvl_paging).
Notation user_path := (user_path use_5lvl_paging).
Notation books := (books use_5lvl_paging).
Notation table := (table use_5lvl_paging).

(** ** A new table *)

Lemma empty_root m roots q : q ∉ roots -> (forall i, (i < 256)%nat -> child m q i = None) ->
  forall r p t, node m ({[q]} ∪ roots) r p t <-> node m roots r p t \/ (r = q /\ p = [] /\ t = q).
Proof.
  intros Hq Hc r p t. split.
  - intros ([->%elem_of_singleton|Hr]%elem_of_union & Hp & Ht); [right|left; by split_and!]. destruct p as [|i p]; [by injection Ht as <-|]. destruct Hp as (_ & _ & Hi). cbn in Ht. by rewrite Hc in Ht.
  - intros [(Hr & Hp & Ht)|(-> & -> & ->)]; [split_and!; [set_solver|done..]|apply node_nil; set_solver].
Qed.

Lemma add_root q l f s roots owned M held other : books s roots owned M held other -> owns f ({[q]} ∪ owned) -> q ∉ owned -> mem s !! q = Some l -> length l = PAGE_WORDS ->
  Forall (fun w => 0 <= w < 2 ^ 64) l -> take 256 l = replicate 256 0 -> books (Machine f (mem s) (structs s) (shootdown s)) ({[q]} ∪ roots) ({[q]} ∪ owned) M held other.
Proof.
  intros [Hs [Tv Td] Ha] Hf Hq Hl Hlen Hw Hzero. open_machine Hs. assert (Hqr : q ∉ roots) by (intros Hqr; apply Hq; apply (fo_owned _ _ _ _ Mforest q []); by apply node_nil).
  assert (Hent : forall i, (i < 256)%nat -> entry (mem s) q i = Some empty_entry).
  { intros i Hi. unfold entry, word. rewrite Hl. cbn [mbind option_bind]. rewrite <- (take_drop 256 l), Hzero, lookup_app_l by (rewrite length_replicate; lia). by rewrite lookup_replicate_2. }
  assert (Hch : forall i, (i < 256)%nat -> child (mem s) q i = None) by (intros i Hi; unfold child; by rewrite Hent). pose proof (empty_root (mem s) roots q Hqr Hch) as Hnode. clear Hch.
  assert (Hqs : structs s !! q = None) by (destruct (structs s !! q) as [x|] eqn:E; [|done]; by destruct (Mstructs q x E)).
  assert (Htab : forall p, table s ({[q]} ∪ roots) p <-> table s roots p \/ p = q).
  { intros p. split; [intros (r & c & [Hn|(-> & -> & ->)]%Hnode); [left; by exists r, c|by right]|]. intros [(r & c & Hn)| ->]; [exists r, c|exists q, []]; apply Hnode; [by left|by right]. }
  split; [split; cbn; [|done| |]| |].
  - destruct Mforest as [F1 F2 F3 F4]. split.
    + intros r p t [Hn|(-> & -> & ->)]%Hnode; [by apply (F1 r p)|by exists l].
    + intros r1 p1 r2 p2 t [Hn1|(-> & -> & ->)]%Hnode [Hn2|(-> & -> & E)]%Hnode; [by apply (F2 _ _ _ _ t)|subst; by apply F3 in Hn1|by apply F3 in Hn2|done].
    + intros r p t [Hn|(-> & -> & ->)]%Hnode; [|set_solver]. apply elem_of_union_r. by apply (F3 r p).
    + intros r p t i e [Hn|(-> & -> & ->)]%Hnode Hp He; [by apply (F4 r p t i)|]. destruct Hp as (_ & _ & Hi). rewrite Hent in He by done. by injection He as <-.
  - intros p x Hx. destruct (Mstructs p x Hx) as (? & ? & ?). split_and!; [set_solver|done..].
  - intros r p t [Hn|(-> & -> & ->)]%Hnode; [by apply (Mapart r p)|done].
  - split; [|intros r n e HM; destruct (Td r n e HM); split; [set_solver|done]]. intros r va [->%elem_of_singleton|Hr]%elem_of_union Hv; [|by apply Tv]. cbn [mem]. destruct (M !! (q, va / 4096)) as [e|] eqn:E; [by apply Td in E as [? _]|].
    unfold view, leaf. destruct (table_at (mem s) q (path use_5lvl_paging va)) as [t|] eqn:Et; [|done]. assert (Hn : node (mem s) ({[q]} ∪ roots) q (path use_5lvl_paging va) t) by (split_and!; [set_solver|by apply path_user|done]).
    apply Hnode in Hn as [[? _]|(_ & Ep & _)]; [done|]. apply (f_equal length) in Ep. rewrite path_length in Ep. unfold depth, upper_levels in Ep. by destruct use_5lvl_paging.
  - open_accounts Ha. split; cbn; [done..| | | |done].
    + intros p. change (table (Machine f (mem s) (structs s) (shootdown s))) with (table s). rewrite Htab, elem_of_union, elem_of_singleton, Aowned. tauto.
    + intros p Hp. destruct (Aother p Hp) as (? & ? & ?). split_and!; [|done..]. change (table (Machine f (mem s) (structs s) (shootdown s))) with (table s). rewrite Htab. intros [?| ->]; [done|]. apply Hq, Aowned. by left.
    + intros p Hp. destruct (Aprivate p Hp) as (? & ?). split_and!; [|done..]. change (table (Machine f (mem s) (structs s) (shootdown s))) with (table s). rewrite Htab. intros [?| ->]; [done|]. apply Hq, Aowned. tauto.
Qed.

Theorem create_empty_correct idle k s roots owned M held other : books s roots owned M held other -> mem s !! idle = Some k -> length k = PAGE_WORDS -> Forall (fun w => 0 <= w < 2 ^ 64) k ->
  exists res s', create_empty idle s = Some (res, s') /\ shootdown s' = shootdown s /\
    match res with
    | None => books s' roots owned M held other /\ mem s' = mem s
    | Some q => q ∉ owned /\ books s' ({[q]} ∪ roots) ({[q]} ∪ owned) M held other /\ mem s' = <[q := replicate 256 0 ++ drop 256 k]> (mem s)
    end.
Proof.
  intros Hb Hk Hlen Hw. destruct (get_frame_ok _ _ (mo_owns _ _ _ _ (bo_ok _ _ _ _ _ _ _ Hb))) as (res & f & Hg & Hres). unfold create_empty.
  assert (Hnew : new_frame s = Some (res, Machine f (mem s) (structs s) (shootdown s))) by (unfold new_frame; by rewrite Hg). rewrite (xbind _ _ _ _ _ Hnew). destruct res as [q|].
  2: { exists None, (Machine f (mem s) (structs s) (shootdown s)). split_and!; try done. destruct Hb as [Hs [Tv Td] Ha]. open_machine Hs. open_accounts Ha. by split. }
  destruct Hres as (Hq & Hfr & Hown). assert (Hqt : ~ table s roots q) by (intros (r & p & Hn); apply Hq, (fo_owned _ _ _ _ (mo_forest _ _ _ _ (bo_ok _ _ _ _ _ _ _ Hb)) _ _ _ Hn)).
  set (l := replicate 256 0 ++ drop 256 k). assert (Hrun : share_upper_half q idle (Machine f (mem s) (structs s) (shootdown s)) = Some (tt, Machine f (<[q := l]> (mem s)) (structs s) (shootdown s))) by (unfold share_upper_half; cbn; by rewrite Hk).
  rewrite (xbind _ _ _ _ _ Hrun). exists (Some q). eexists. split; [reflexivity|]. cbn [shootdown mem]. split_and!; [done..| |done].
  destruct (books_fill _ q l s roots owned M held other Hb Hqt) as [Hb1 _]. apply (add_root q l f _ roots owned M held other Hb1 Hown Hq); [apply lookup_insert_eq| | |].
  - unfold l. rewrite length_app, length_replicate, length_drop, Hlen. done.
  - unfold l. rewrite Forall_app. split; [apply Forall_replicate; lia|by apply Forall_drop].
  - unfold l. by rewrite take_app_length' by (by rewrite length_replicate).
Qed.

(** ** The operations together *)

Inductive op :=
  | Create (idle_cr3 : Z)                                             (** [create_empty] *)
  | Delete (r : Z)                                                    (** [~x86_Page_Table] *)
  | NewPage                                                           (** [atomic_request_anonymous_page] *)
  | Grab (page : Z)                                                   (** [find_page_struct] *)
  | Drop (page : Z)                                                   (** the end of a [Page_Descriptor] *)
  | MapPage (r page va : Z) (arg : Page_Table_Arguments)              (** [map] of a page *)
  | MapAddr (r phys va : Z) (arg : Page_Table_Arguments)              (** [map] of an address *)
  | Unmap (r va size : Z)                                             (** [invalidate_range], with [free] *)
  | Resolve (r va access_type : Z)                                    (** [resolve_anonymous_page] *)
  | CopyPages (f t a d n : Z).                                        (** [copy_anonymous_pages] of [n] pages *)

Definition exec (o : op) : X S Z :=
  match o with
  | Create idle => r ← create_empty idle; mret (match r with Some p => p | None => - ENOMEM end)
  | Delete r => _ ← delete_table use_5lvl_paging r; mret 0
  | NewPage => r ← request_anonymous_page; mret (match r with Some p => p | None => - ENOMEM end)
  | Grab page => _ ← find_page_struct page; mret 0
  | Drop page => _ ← drop_ref page; mret 0
  | MapPage r page va arg => map_page use_5lvl_paging support_nx r page va arg
  | MapAddr r phys va arg => map_addr use_5lvl_paging support_nx r phys va arg
  | Unmap r va size => _ ← invalidate_range use_5lvl_paging r va size true; mret 0
  | Resolve r va access_type => resolve_anonymous_page use_5lvl_paging r va access_type
  | CopyPages f t a d n => copy_anonymous_pages use_5lvl_paging support_nx f t (a * 4096) ((a + d) * 4096) (n * 4096)
  end.

(** The tables, the mappings, the descriptors and the frames of the rest of the kernel *)
Record abstract := Abstract { g_roots : gset Z; g_map : pmap; g_held : Z -> Z; g_other : gset Z }.

(** When an operation may be called *)
Definition allowed (o : op) (s : machine S) (g : abstract) : Prop :=
  match o with
  | Create idle => exists k, mem s !! idle = Some k /\ length k = PAGE_WORDS /\ Forall (fun w => 0 <= w < 2 ^ 64) k
  | Delete r => r ∈ g_roots g
  | NewPage => True
  | Grab page => is_Some (structs s !! page)
  | Drop page => 0 < g_held g page
  | MapPage r page va arg => r ∈ g_roots g /\ user_va use_5lvl_paging va /\ 0 < g_held g page /\ 0 <= arg_extra arg < 4
  | MapAddr r phys va arg => r ∈ g_roots g /\ user_va use_5lvl_paging va /\ frame phys /\ 0 <= arg_extra arg < 4 /\ offered (leaf_entry support_nx phys (arg_extra arg) arg) s (g_held g) (g_other g)
  | Unmap r va size => r ∈ g_roots g /\ va mod 4096 = 0 /\ 0 <= va /\ 0 <= size /\ va + size <= user_addr_max use_5lvl_paging
  | Resolve r va access_type => r ∈ g_roots g /\ user_va use_5lvl_paging va /\ has access_type 2 = true /\
      exists e x, g_map g !! (r, va / 4096) = Some e /\ shared e = true /\ writeable e = false /\ structs s !! entry_page e = Some x /\ owner x = true
  | CopyPages f t a d n => f ∈ g_roots g /\ t ∈ g_roots g /\ f <> t /\ 0 <= a /\ 0 <= n /\ 0 <= a + d /\
      (a + n) * 4096 <= user_addr_max use_5lvl_paging /\ (a + n + d) * 4096 <= user_addr_max use_5lvl_paging /\
      (forall i, a <= i < a + n -> g_map g !! (t, i + d) = None) /\ (forall i e, a <= i < a + n -> g_map g !! (f, i) = Some e -> shared e = true)
  end.

(** What it does: the result and the new tables, mappings, descriptors and frames *)
Definition effect (o : op) (s : machine S) (g : abstract) (res : Z) (g' : abstract) : Prop :=
  let k r va := (r, va / 4096) in let failed := res = - ENOMEM /\ g' = g in
  match o with
  | Create _ => failed \/ res ∉ g_roots g /\ g' = Abstract ({[res]} ∪ g_roots g) (g_map g) (g_held g) (g_other g)
  | Delete r => res = 0 /\ g' = Abstract (g_roots g ∖ {[r]}) (filter (fun ke => ke.1.1 <> r) (g_map g)) (g_held g) (g_other g)
  | NewPage => failed \/ structs s !! res = None /\ g' = Abstract (g_roots g) (g_map g) (hold (g_held g) res 1) (g_other g)
  | Grab page => res = 0 /\ g' = Abstract (g_roots g) (g_map g) (hold (g_held g) page 1) (g_other g)
  | Drop page => res = 0 /\ g' = Abstract (g_roots g) (g_map g) (hold (g_held g) page (-1)) (g_other g)
  | MapPage r page va arg =>
      let e := leaf_entry support_nx page (Z.lor (arg_extra arg) PAGING_FLAG_STRUCT_PAGE) arg in
      let given M := Abstract (g_roots g) M (hold (g_held g) page (-1)) (g_other g) in
      match g_map g !! k r va with
      | Some _ => res = - EEXIST /\ g' = given (g_map g)
      | None => res = 0 /\ g' = given (<[k r va := e]> (g_map g)) \/ res = - ENOMEM /\ g' = given (g_map g)
      end
  | MapAddr r phys va arg =>
      let e := leaf_entry support_nx phys (arg_extra arg) arg in
      match g_map g !! k r va with
      | Some _ => res = - EEXIST /\ g' = g
      | None => res = 0 /\ g' = Abstract (g_roots g) (<[k r va := e]> (g_map g)) (lose e (g_held g)) (lose_other e (g_other g)) \/ failed
      end
  | Unmap r va size => res = 0 /\ g' = Abstract (g_roots g) (filter (fun ke => ~ (ke.1.1 = r /\ in_range va size ke.1.2)) (g_map g)) (g_held g) (g_other g)
  | Resolve r va _ => failed \/ res = 0 /\ exists e e', g_map g !! k r va = Some e /\ g' = Abstract (g_roots g) (<[k r va := e']> (g_map g)) (g_held g) (g_other g) /\
      (e' = set_writeable e true \/ exists new, structs s !! new = None /\ e' = copied e new) /\ refs (g_map g') (entry_page e') = 1
  | CopyPages f t a d n => exists M', g' = Abstract (g_roots g) M' (g_held g) (g_other g) /\
      (res = 0 /\ upto support_nx f t a d (g_map g) (page_anonymous s) (a + n) M' \/
       res = - ENOMEM /\ (forall i, M' !! (f, i) = g_map g !! (f, i) \/ M' !! (f, i) = protect (page_anonymous s) <$> g_map g !! (f, i)) /\ forall r i, r <> f -> M' !! (r, i) = g_map g !! (r, i))
  end.

(** The tables implement the mappings, and every frame is accounted for *)
Definition implements (s : machine S) (g : abstract) : Prop := exists owned, books s (g_roots g) owned (g_map g) (g_held g) (g_other g).

Lemma held_struct page s roots owned M held other : books s roots owned M held other -> 0 < held page -> exists x, structs s !! page = Some x.
Proof.
  intros Hb Hh. destruct (structs s !! page) as [x|] eqn:E; [by exists x|]. apply (ac_held _ _ _ _ _ _ _ (bo_accounts _ _ _ _ _ _ _ Hb)) in E. lia.
Qed.

(** Each operation runs to its end and does what it should *)
Definition simulated (o : op) : Prop := forall s g, implements s g -> allowed o s g -> exists res s' g', exec o s = Some (res, s') /\ effect o s g res g' /\ implements s' g'.

Lemma new_struct q s roots owned M held other : books s roots owned M held other -> q ∉ owned -> structs s !! q = None.
Proof. intros Hb Hq. destruct (structs s !! q) as [x|] eqn:E; [|done]. by destruct (mo_structs _ _ _ _ (bo_ok _ _ _ _ _ _ _ Hb) q x E). Qed.

Lemma simulated_create idle : simulated (Create idle).
Proof.
  intros s [R M h O] [owned Hb] (k & Hk & Hlen & Hw). cbn [g_roots g_map g_held g_other allowed exec effect] in *. destruct (create_empty_correct idle k s R owned M h O Hb Hk Hlen Hw) as (res & s' & Hr & _ & Hres). rewrite (xbind _ _ _ _ _ Hr). destruct res as [q|].
  - destruct Hres as (Hq & Hb' & _). exists q, s', (Abstract ({[q]} ∪ R) M h O). split_and!; [done| |by exists ({[q]} ∪ owned)]. right. split; [|done]. intros Hqr. apply Hq, (fo_owned _ _ _ _ (mo_forest _ _ _ _ (bo_ok _ _ _ _ _ _ _ Hb)) q []). by apply node_nil.
  - destruct Hres as [Hb' _]. exists (- ENOMEM), s', (Abstract R M h O). split_and!; [done|by left|by exists owned].
Qed.

Lemma simulated_delete r : simulated (Delete r).
Proof.
  intros s [R M h O] [owned Hb] Hr. cbn [g_roots g_map g_held g_other allowed exec effect] in *. destruct (delete_table_correct use_5lvl_paging s R owned M h O r Hb Hr) as (s' & o' & Hrun & _ & Hb' & _). rewrite (xbind _ _ _ _ _ Hrun). eexists 0, s', _. split_and!; [done..|by exists o'].
Qed.

Lemma simulated_new : simulated NewPage.
Proof.
  intros s [R M h O] [owned Hb] _. cbn [g_roots g_map g_held g_other allowed exec effect] in *. destruct (request_anonymous_page_ok _ s R owned M h O Hb) as (res & s' & Hr & _ & _ & Hres). rewrite (xbind _ _ _ _ _ Hr). destruct res as [q|].
  - destruct Hres as (Hq & _ & Hb' & _). exists q, s', (Abstract R M (hold h q 1) O). split_and!; [done| |by exists ({[q]} ∪ owned)]. right. split; [by eapply new_struct|done].
  - destruct Hres as (Hb' & _). exists (- ENOMEM), s', (Abstract R M h O). split_and!; [done|by left|by exists owned].
Qed.

Lemma simulated_grab page : simulated (Grab page).
Proof.
  intros s [R M h O] [owned Hb] [x Hx]. cbn [g_roots g_map g_held g_other allowed exec effect] in *. destruct (books_find _ page x s R owned M h O Hb Hx) as [Hr Hb']. rewrite (xbind _ _ _ _ _ Hr). eexists 0, _, _. split_and!; [done..|by exists owned].
Qed.

Lemma simulated_drop page : simulated (Drop page).
Proof.
  intros s [R M h O] [owned Hb] Hh. cbn [g_roots g_map g_held g_other allowed exec effect] in *. destruct (held_struct page s R owned M h O Hb Hh) as [x Hx]. destruct (books_drop _ page x s R owned M h O Hb Hx Hh) as (s' & o' & Hr & Hb' & _). rewrite (xbind _ _ _ _ _ Hr). eexists 0, s', _. split_and!; [done..|by exists o'].
Qed.

Lemma simulated_map_page r page va arg : simulated (MapPage r page va arg).
Proof.
  intros s [R M h O] [owned Hb] (Hr & Hv & Hh & Hx). cbn [g_roots g_map g_held g_other allowed exec effect] in *. destruct (held_struct page s R owned M h O Hb Hh) as [x Hst].
  destruct (map_page_correct use_5lvl_paging support_nx s R owned M h O r va page x arg Hb Hr Hv Hst Hh Hx) as (res & s' & o' & M' & Hrun & Hb' & _ & _ & _ & _ & Hres). eexists res, s', (Abstract R M' _ O). split_and!; [done| |by exists o'].
  destruct (M !! (r, va / 4096)); [by destruct Hres as [-> ->]|]. destruct Hres as [[-> ->]|[-> ->]]; [by left|by right].
Qed.

Lemma simulated_map_addr r phys va arg : simulated (MapAddr r phys va arg).
Proof.
  intros s [R M h O] [owned Hb] (Hr & Hv & Hf & Hx & Ho). cbn [g_roots g_map g_held g_other allowed exec effect] in *. destruct (map_addr_correct use_5lvl_paging support_nx s R owned M h O r va phys arg Hb Hr Hv Hf Hx Ho) as (res & s' & o' & Hrun & _ & _ & Hres).
  destruct (M !! (r, va / 4096)); [|destruct Hres as [Hres|Hres]]; destruct Hres as [-> Hb'].
  - exists (- EEXIST), s', (Abstract R M h O). split_and!; [done..|by exists o'].
  - eexists 0, s', (Abstract R _ _ _). split_and!; [done|by left|by exists o'].
  - exists (- ENOMEM), s', (Abstract R M h O). split_and!; [done|by right|by exists o'].
Qed.

Lemma simulated_unmap r va size : simulated (Unmap r va size).
Proof.
  intros s [R M h O] [owned Hb] (Hr & Hal & H0 & Hs & Hm). cbn [g_roots g_map g_held g_other allowed exec effect] in *. destruct (invalidate_range_correct use_5lvl_paging s R owned M h O r va size Hb Hr Hal H0 Hs Hm) as (s' & o' & Hrun & Hb' & _). rewrite (xbind _ _ _ _ _ Hrun).
  eexists 0, s', _. split_and!; [done..|by exists o'].
Qed.

Lemma simulated_resolve r va access_type : simulated (Resolve r va access_type).
Proof.
  intros s [R M h O] [owned Hb] (Hr & Hv & Hacc & e & x & Hk & Hsh & Hw & Hx & Ho). cbn [g_roots g_map g_held g_other allowed exec effect] in *.
  destruct (resolve_correct use_5lvl_paging s R owned M h O r va access_type e x Hb Hr Hv Hacc Hk Hsh Hw Hx Ho) as (res & s' & o' & M' & Hrun & Hb' & _ & Hres). eexists res, s', (Abstract R M' h O). split_and!; [done| |by exists o'].
  destruct Hres as [(-> & -> & _)|(-> & e' & -> & He' & Href & _)]; [by left|right]. split; [done|]. exists e, e'. split_and!; [done..| |done]. destruct He' as [He'|(new & Hnew & He')]; [by left|right]. exists new. split; [by eapply new_struct|done].
Qed.

Lemma simulated_copy f t a d n : simulated (CopyPages f t a d n).
Proof.
  intros s [R M h O] [owned Hb] (Hf & Ht & Hft & Ha & Hn & Hd & Hz & Hzd & Hfree & Hsh). cbn [g_roots g_map g_held g_other allowed exec effect] in *.
  destruct (copy_anonymous_pages_correct use_5lvl_paging support_nx s R owned M h O f t a d n Hb Hf Ht Hft Ha Hn Hd Hz Hzd Hfree Hsh) as (res & s' & o' & M' & Hrun & Hb' & Hres).
  eexists res, s', (Abstract R M' h O). split_and!; [done|by exists M'|by exists o'].
Qed.

Lemma simulation o : simulated o.
Proof.
  destruct o; [apply simulated_create|apply simulated_delete|apply simulated_new|apply simulated_grab|apply simulated_drop|apply simulated_map_page|apply simulated_map_addr|apply simulated_unmap|apply simulated_resolve|apply simulated_copy].
Qed.

End System.
