(* ===== verification/PagingTheorems.v ===== *)
(** * Page tables: what they promise

    The theorems are for any allocator of frames; the instances use the allocator of [Pmm]. *)

From stdpp Require Import base numbers list gmap sets.
From Stdlib Require Import ZArith Lia.
From S2P Require Import Prelude Frames Pmm PmmSpec PmmFrames Paging PagingInv PagingOps PagingBooks PagingSpec PagingCow PagingFree PagingCopy PagingSystem.
Open Scope Z_scope.

Section Theorems.
  Context {S : Type} `{FrameAllocator S} (use_5lvl_paging support_nx : bool).

Notation books := (books use_5lvl_paging).
Notation implements := (implements use_5lvl_paging).
Notation user_va := (user_va use_5lvl_paging).
Notation get_page_mapping := (get_page_mapping use_5lvl_paging).


(** The information about an address does not change *)
Definition same_info (s s' : machine S) (r va : Z) : Prop := exists i i', get_page_mapping r va s = Some (i, s) /\ get_page_mapping r va s' = Some (i', s') /\ (i' = i \/ is_allocated i = false /\ is_allocated i' = false).

Lemma same_mapping s s' roots owned owned' M M' held held' other other' r va : books s roots owned M held other -> books s' roots owned' M' held' other' -> r ∈ roots -> user_va va ->
  mapping M r va = mapping M' r va -> same_info s s' r va.
Proof.
  intros Hb Hb' Hr Hv E. destruct (get_page_mapping_correct _ s _ _ _ _ _ r va Hb Hr Hv) as (i & Hi & Hc). destruct (get_page_mapping_correct _ s' _ _ _ _ _ r va Hb' Hr Hv) as (i' & Hi' & Hc').
  exists i, i'. split_and!; [done..|]. rewrite <- E in Hc'. destruct (mapping M r va); [left; by destruct Hc as [-> _], Hc' as [-> _]|by right].
Qed.

(** C17. What is mapped is found.  After a page has been mapped at an address that had none,
    looking up any address of that page gives the page and the permissions that were asked for,
    and what is found at every other address of every process is as before; if memory is out the
    call says so and no address changes. *)
Theorem map_then_lookup (s : machine S) (g : abstract) (r page va : Z) (arg : Page_Table_Arguments) :
  implements s g -> r ∈ g_roots g -> user_va va -> 0 < g_held g page -> 0 <= arg_extra arg < 4 -> g_map g !! (r, va / 4096) = None ->
  exists res s', map_page use_5lvl_paging support_nx r page va arg s = Some (res, s') /\
    (res = 0 /\ (forall va', user_va va' -> va' / 4096 = va / 4096 -> exists i, get_page_mapping r va' s' = Some (i, s') /\ is_allocated i = true /\ page_addr i = page /\
        pi_writeable i = arg_writeable arg /\ pi_user i = arg_user arg /\ executable i = negb (support_nx && arg_xd arg)) /\
      (forall r' va', r' ∈ g_roots g -> user_va va' -> ~ (r' = r /\ va' / 4096 = va / 4096) -> same_info s s' r' va') \/
     res = - ENOMEM /\ forall r' va', r' ∈ g_roots g -> user_va va' -> same_info s s' r' va').
Proof.
  destruct g as [R M h O]. cbn [g_roots g_map g_held g_other]. intros [owned Hb] Hr Hv Hh Hx Hk. cbn [g_roots g_map g_held g_other] in Hb. destruct (held_struct _ page s R owned M h O Hb Hh) as [x Hst].
  destruct (map_page_correct use_5lvl_paging support_nx s R owned M h O r va page x arg Hb Hr Hv Hst Hh Hx) as (res & s' & o' & M' & Hrun & Hb' & _ & _ & _ & _ & Hres). exists res, s'. split; [done|]. rewrite Hk in Hres.
  destruct Hres as [[-> ->]|[-> ->]]; [left|right]; (split; [done|]); [split|intros r' va' Hr' Hv'; by eapply same_mapping].
  - intros va' Hv' Ev. destruct (get_page_mapping_correct _ s' _ _ _ _ _ r va' Hb' Hr Hv') as (i & Hi & Hc). unfold mapping in Hc. rewrite Ev, lookup_insert_eq in Hc. destruct Hc as [-> Hal]. eexists. split; [exact Hi|].
    destruct (mo_structs _ _ _ _ (bo_ok _ _ _ _ _ _ _ Hb) _ _ Hst) as (_ & Hfr & _). destruct (leaf_entry_ok support_nx page _ arg Hfr (proj1 (struct_flag _ Hx))) as (_ & _ & Hpg & _). split_and!; [done|by rewrite <- Hpg at 2|..]; unfold leaf_entry; by destruct (cache_bits _).
  - intros r' va' Hr' Hv' Hne. eapply same_mapping; [done..|]. unfold mapping. rewrite lookup_insert_ne; [done|]. intros [=]. by apply Hne.
Qed.

(** C16. Every page that is unmapped is noted for the shootdown.  After [invalidate_range] with [free] the
    pages of the range are not mapped, everything else is as it was, and every page of the range
    that was mapped is in the list that is sent to the other processors, or the list is full and
    they drop everything. *)
Theorem unmap_flushes (s : machine S) (g : abstract) (r va size : Z) : implements s g -> r ∈ g_roots g -> va mod 4096 = 0 -> 0 <= va -> 0 <= size -> va + size <= user_addr_max use_5lvl_paging ->
  exists s', invalidate_range use_5lvl_paging r va size true s = Some (tt, s') /\
    (forall va', user_va va' -> va <= va' < va + size -> is_mapped use_5lvl_paging r va' s' = Some (false, s')) /\
    (forall r' va', r' ∈ g_roots g -> user_va va' -> ~ (r' = r /\ in_range va size (va' / 4096)) -> same_info s s' r' va') /\
    (forall n, in_range va size n -> is_mapped use_5lvl_paging r (n * 4096) s = Some (true, s) -> flush_all s' = true \/ n * 4096 ∈ shootdown s').
Proof.
  destruct g as [R M h O]. cbn [g_roots]. intros [owned Hb] Hr Hal H0 Hs Hm. cbn [g_roots g_map g_held g_other] in Hb. destruct (invalidate_range_correct use_5lvl_paging s R owned M h O r va size Hb Hr Hal H0 Hs Hm) as (s' & o' & Hrun & Hb' & Hfl).
  exists s'. split_and!; [done|..].
  - intros va' Hv' Hin. rewrite (is_mapped_correct _ s' _ _ _ _ _ r va' Hb' Hr Hv'). unfold mapping. replace (filter _ M !! (r, va' / 4096)) with (None : option x86_PAE_Entry); [done|]. symmetry. apply map_lookup_filter_None. right. intros e _ Hn. apply Hn. cbn. split; [done|].
    unfold in_range. pose proof (Z.div_mod va 4096). pose proof (Z.div_mod va' 4096). pose proof (Z.mod_pos_bound va' 4096). assert (va / 4096 <= va' / 4096) by (apply Z.div_le_mono; lia). lia.
  - intros r' va' Hr' Hv' Hne. eapply same_mapping; [done..|]. unfold mapping. apply option_eq. intros e. rewrite map_lookup_filter_Some. cbn. tauto.
  - intros n Hin Hmap. assert (Hv : user_va (n * 4096)) by (unfold in_range, PagingInv.user_va in *; lia). rewrite (is_mapped_correct _ s _ _ _ _ _ r _ Hb Hr Hv) in Hmap. unfold mapping in Hmap. rewrite Z.div_mul in Hmap by lia. apply (Hfl n Hin). injection Hmap as Hmap. by apply bool_decide_eq_true in Hmap.
Qed.

Lemma refs_one M k k' e e' : refs M (entry_page e) = 1 -> M !! k = Some e -> M !! k' = Some e' -> shared e = true -> shared e' = true -> entry_page e' = entry_page e -> k' = k.
Proof.
  intros Hr Hk Hk' He He' Ep. destruct (decide (k' = k)) as [|Hne]; [done|]. pose proof (refs_delete M k e (entry_page e) Hk) as Hd. rewrite decide_True in Hd by done.
  assert (Hk2 : delete k M !! k' = Some e') by (by rewrite lookup_delete_ne). pose proof (refs_pos _ _ _ Hk2 He') as Hp. rewrite Ep in Hp. lia.
Qed.


(** C7. A process leaves nothing behind.  When the last process ends and the kernel holds no
    descriptor of a page, the frames in use after [~x86_Page_Table] are those that the rest of the
    kernel uses: every table and every page goes back to the allocator. *)
Theorem delete_returns_all (s : machine S) (r : Z) (M : pmap) (other : gset Z) : implements s (Abstract {[r]} M (fun _ => 0) other) ->
  exists s', delete_table use_5lvl_paging r s = Some (tt, s') /\ owns (frames s') other.
Proof.
  intros [owned Hb]. cbn [g_roots g_map g_held g_other] in Hb. destruct (delete_table_correct use_5lvl_paging s _ owned M _ other r Hb) as (s' & o' & Hrun & _ & Hb' & _); [set_solver|]. exists s'. split; [done|].
  replace ({[r]} ∖ {[r]} : gset Z) with (∅ : gset Z) in Hb' by set_solver. assert (Em : filter (fun ke : Z * Z * x86_PAE_Entry => ke.1.1 <> r) M = ∅).
  { apply map_empty. intros [r' n]. apply map_lookup_filter_None. right. intros e He Hne. cbn in Hne. apply (tr_dom _ _ _ _ (bo_tree _ _ _ _ _ _ _ Hb)) in He as [?%elem_of_singleton _]. done. }
  rewrite Em in Hb'. assert (Eo : o' = other); [|rewrite <- Eo; apply (mo_owns _ _ _ _ (bo_ok _ _ _ _ _ _ _ Hb'))]. apply set_eq. intros p. rewrite (ac_owned _ _ _ _ _ _ _ (bo_accounts _ _ _ _ _ _ _ Hb')).
  split; [|by left]. intros [?|[(r' & q & Hr' & _)|[[x Hx]|(k & e & He & _)]]]; [done|set_solver| |by rewrite lookup_empty in He].
  destruct (mo_structs _ _ _ _ (bo_ok _ _ _ _ _ _ _ Hb') p x Hx) as (_ & _ & Hpos). rewrite (ac_refs _ _ _ _ _ _ _ (bo_accounts _ _ _ _ _ _ _ Hb') p x Hx) in Hpos. rewrite refs_none in Hpos; [lia|]. intros k e He. by rewrite lookup_empty in He.
Qed.

(** C18. A child process gets the memory of its parent.  [copy_anonymous_pages] of a range whose
    place in the other process is free either maps each anonymous page of the range there, with
    parent and child on the same page and neither able to write, and changes no mapping outside
    the two ranges; or memory is out, and the other process is as it was. *)
Theorem fork_shares (s : machine S) (g : abstract) (f t a d n : Z) : implements s g -> allowed use_5lvl_paging support_nx (CopyPages f t a d n) s g ->
  exists res s' g', copy_anonymous_pages use_5lvl_paging support_nx f t (a * 4096) ((a + d) * 4096) (n * 4096) s = Some (res, s') /\ implements s' g' /\
    (res = 0 /\ (forall i e, a <= i < a + n -> g_map g !! (f, i) = Some e -> page_anonymous s (entry_page e) = true ->
         exists e1 e2, g_map g' !! (f, i) = Some e1 /\ g_map g' !! (t, i + d) = Some e2 /\ entry_page e1 = entry_page e /\ entry_page e2 = entry_page e /\ writeable e1 = false /\ writeable e2 = false /\ user_access e2 = user_access e) /\
       (forall r i, ~ (r = f /\ a <= i < a + n) -> ~ (r = t /\ a + d <= i < a + n + d) -> g_map g' !! (r, i) = g_map g !! (r, i)) \/
     res = - ENOMEM /\ forall r i, r <> f -> g_map g' !! (r, i) = g_map g !! (r, i)).
Proof.
  destruct g as [R M h O]. intros [owned Hb] (Hf & Ht & Hft & Ha & Hn & Hd & Hz & Hzd & Hfree & Hsh). cbn [g_roots g_map g_held g_other] in *.
  destruct (copy_anonymous_pages_correct use_5lvl_paging support_nx s R owned M h O f t a d n Hb Hf Ht Hft Ha Hn Hd Hz Hzd Hfree Hsh) as (res & s' & o' & M' & Hrun & Hb' & Hres).
  exists res, s', (Abstract R M' h O). split_and!; [done|by exists o'|]. cbn [g_map]. destruct Hres as [[-> Hu]|(-> & _ & Hsame)]; [left|right]; (split; [done|]); [split|done].
  - intros i e Hi He Han. exists (set_writeable e false), (shared_entry support_nx e). rewrite !Hu. rewrite decide_True by done. rewrite decide_False by (by intros [? _]). rewrite decide_True by (split; [done|lia]). replace (i + d - d) with i by lia. rewrite He. cbn. unfold protect, share. rewrite Han.
    pose proof (Hsh i e Hi He) as Hs. destruct (ac_shared _ _ _ _ _ _ _ (bo_accounts _ _ _ _ _ _ _ Hb) _ _ He Hs) as [x Hx]. destruct (mo_structs _ _ _ _ (bo_ok _ _ _ _ _ _ _ Hb) _ _ Hx) as (_ & Hfr & _).
    assert (Hex : 0 <= arg_extra (shared_args e) < 4) by (cbn; change 3 with (Z.ones 2); rewrite Z.land_ones by lia; apply Z.mod_pos_bound; lia). destruct (leaf_entry_ok support_nx _ _ (shared_args e) Hfr (proj1 (struct_flag _ Hex))) as (_ & _ & Hpg & _).
    split_and!; try done; unfold shared_entry, leaf_entry; by destruct (cache_bits _).
  - intros r i Hn1 Hn2. rewrite Hu, !decide_False; [done| |done]. intros [-> ?]. apply Hn2. split; [done|lia].
Qed.

End Theorems.

(** ** Instances *)

(** The kernel's table, sixteen free frames and no process *)
Definition kernel_table : list Z := replicate 256 0 ++ replicate 256 3.
Definition at_start : machine pmm := Machine sixteen_free {[4096 := kernel_table]} ∅ [].
Definition go (o : op) (s : machine pmm) : Z * machine pmm := match exec false true o s with Some (r, s') => (r, s') | None => (-1, s) end.
Definition for_user : Page_Table_Arguments := PtArgs true true true false true 0 Paging.Normal.

Lemma start_implements : implements false at_start (Abstract ∅ ∅ (fun _ => 0) ∅).
Proof.
  assert (Hn : forall r p t, ~ node false (mem at_start) ∅ r p t) by (intros r p t [Hr _]; set_solver). exists ∅. cbn [g_roots g_map g_held g_other]. split; [split| |].
  - split; intros; exfalso; by eapply Hn.
  - apply sixteen_owns.
  - intros p x Hx. cbn in Hx. by rewrite lookup_empty in Hx.
  - intros r p t H. by apply Hn in H.
  - split; [intros r va Hr; set_solver|]. intros r n e He. by rewrite lookup_empty in He.
  - split; cbn.
    + intros k e He. by rewrite lookup_empty in He.
    + intros p x Hx. by rewrite lookup_empty in Hx.
    + done.
    + intros k e He. by rewrite lookup_empty in He.
    + intros p x Hx. by rewrite lookup_empty in Hx.
    + intros p. split; [set_solver|]. intros [?|[(r & q & Hq)|[[x Hx]|(k & e & He & _)]]]; [done|by apply Hn in Hq|by rewrite lookup_empty in Hx|by rewrite lookup_empty in He].
    + intros p Hp. set_solver.
    + intros p (k & e & He & _). by rewrite lookup_empty in He.
    + intros k k' e e' He. by rewrite lookup_empty in He.
Qed.

Lemma go_ok o s g : implements false s g -> allowed false true o s g -> exists g', effect true o s g (go o s).1 g' /\ implements false (go o s).2 g'.
Proof. intros Hi Ha. destruct (simulation false true o s g Hi Ha) as (res & s' & g' & Hrun & He & Hi'). exists g'. unfold go. by rewrite Hrun. Qed.

Lemma kernel_table_ok s g : mem s !! 4096 = Some kernel_table -> allowed false true (Create 4096) (s : machine pmm) g.
Proof. intros Hk. exists kernel_table. split_and!; [done..|]. unfold kernel_table. rewrite Forall_app. split; apply Forall_replicate; lia. Qed.

Lemma implements_held held' s R M h O : (forall p, held' p = h p) -> implements false (s : machine pmm) (Abstract R M h O) -> implements false s (Abstract R M held' O).
Proof. intros E [owned Hb]. exists owned. by apply (books_held _ held' s R owned M h O). Qed.

(** A process, a page, and the page mapped at 4 MB *)
Definition parent : Z := 4295028736.
Definition one_process : machine pmm := (go (Create 4096) at_start).2.
Definition first_page : Z := 4295024640.
Definition with_page : machine pmm := (go NewPage one_process).2.
Definition with_mapping : machine pmm := (go (MapPage parent first_page 4194304 for_user) with_page).2.
Definition first_entry : x86_PAE_Entry := leaf_entry true first_page 1 for_user.

Lemma one_process_ok : implements false one_process (Abstract {[parent]} ∅ (fun _ => 0) ∅).
Proof.
  assert (Hk : mem at_start !! 4096 = Some kernel_table) by apply lookup_singleton_eq. destruct (go_ok (Create 4096) at_start _ start_implements (kernel_table_ok at_start _ Hk)) as (g' & He & Hi). assert (E : (go (Create 4096) at_start).1 = parent) by (vm_compute; reflexivity). fold one_process in Hi. rewrite E in He.
  destruct He as [[Hf _]|[_ ->]]; [discriminate Hf|]. cbn [g_roots g_map g_held g_other] in Hi. by rewrite right_id_L in Hi by apply _.
Qed.

Lemma with_page_ok : implements false with_page (Abstract {[parent]} ∅ (hold (fun _ => 0) first_page 1) ∅).
Proof.
  destruct (go_ok NewPage one_process _ one_process_ok I) as (g' & He & Hi). assert (E : (go NewPage one_process).1 = first_page) by (vm_compute; reflexivity). fold with_page in Hi. rewrite E in He. destruct He as [[Hf _]|[_ ->]]; [discriminate Hf|exact Hi].
Qed.

Lemma with_mapping_ok : implements false with_mapping (Abstract {[parent]} {[(parent, 1024) := first_entry]} (fun _ => 0) ∅).
Proof.
  assert (Ha : allowed false true (MapPage parent first_page 4194304 for_user) with_page (Abstract {[parent]} ∅ (hold (fun _ => 0) first_page 1) ∅)) by (cbn; split_and!; [set_solver|vm_compute; split; congruence|unfold hold; by rewrite decide_True|lia|lia]).
  destruct (go_ok _ _ _ with_page_ok Ha) as (g' & He & Hi). assert (E : (go (MapPage parent first_page 4194304 for_user) with_page).1 = 0) by (vm_compute; reflexivity). fold with_mapping in Hi. rewrite E in He. cbn [effect g_map] in He. rewrite lookup_empty in He. destruct He as [[_ ->]|[Hf _]]; [|discriminate Hf].
  eapply implements_held; [|exact Hi]. intros p. cbn [g_held]. unfold hold. case_decide; lia.
Qed.


Lemma map_then_lookup_witness : exists res s', map_page false true parent first_page 4194304 for_user with_page = Some (res, s') /\ (res = 0 \/ res = - ENOMEM).
Proof.
  destruct (map_then_lookup false true with_page _ parent first_page 4194304 for_user with_page_ok) as (res & s' & Hrun & Hres).
  - cbn [g_roots]. set_solver.
  - split; reflexivity || discriminate.
  - reflexivity.
  - split; reflexivity || discriminate.
  - reflexivity.
  - exists res, s'. split; [exact Hrun|]. destruct Hres as [[-> _]|[-> _]]; [left|right]; reflexivity.
Defined.

Lemma unmap_flushes_witness : exists s', invalidate_range false parent 4194304 4096 true with_mapping = Some (tt, s') /\ (flush_all s' = true \/ 1024 * 4096 ∈ shootdown s').
Proof.
  destruct (unmap_flushes false with_mapping _ parent 4194304 4096 with_mapping_ok) as (s' & Hrun & _ & _ & Hfl).
  - cbn [g_roots]. set_solver.
  - reflexivity.
  - discriminate.
  - discriminate.
  - discriminate.
  - exists s'. split; [exact Hrun|]. apply Hfl; [split; reflexivity || discriminate|]. vm_compute. reflexivity.
Defined.

Lemma delete_returns_all_witness : exists s', delete_table false parent with_mapping = Some (tt, s') /\ owns (frames s') ∅.
Proof. apply (delete_returns_all false with_mapping parent _ ∅ with_mapping_ok). Defined.

(** A second process, which gets the page of the first *)
Definition child_root : Z := 4295008256.
Definition two_processes : machine pmm := (go (Create 4096) with_mapping).2.
Definition family : abstract := Abstract ({[child_root]} ∪ {[parent]}) {[(parent, 1024) := first_entry]} (fun _ => 0) ∅.
Definition after_fork : machine pmm := (go (CopyPages parent child_root 1024 0 1) two_processes).2.

Lemma two_processes_ok : implements false two_processes family.
Proof.
  assert (Hk : mem with_mapping !! 4096 = Some kernel_table) by (vm_compute; reflexivity). destruct (go_ok (Create 4096) with_mapping _ with_mapping_ok (kernel_table_ok with_mapping _ Hk)) as (g' & He & Hi).
  assert (E : (go (Create 4096) with_mapping).1 = child_root) by (vm_compute; reflexivity). fold two_processes in Hi. rewrite E in He. destruct He as [[Hf _]|[_ ->]]; [discriminate Hf|exact Hi].
Qed.

Lemma fork_allowed : allowed false true (CopyPages parent child_root 1024 0 1) two_processes family.
Proof.
  cbn [allowed family g_roots g_map]. split_and!; try (discriminate || set_solver).
  - intros i Hi. rewrite lookup_singleton_ne; [done|]. discriminate.
  - intros i e Hi [_ <-]%lookup_singleton_Some. reflexivity.
Qed.

Lemma fork_shares_witness : exists res s' g', copy_anonymous_pages false true parent child_root (1024 * 4096) ((1024 + 0) * 4096) (1 * 4096) two_processes = Some (res, s') /\ implements false s' g' /\
  (res = 0 \/ res = - ENOMEM).
Proof.
  destruct (fork_shares false true two_processes family parent child_root 1024 0 1 two_processes_ok fork_allowed) as (res & s' & g' & Hrun & Hi & Hres).
  exists res, s', g'. split; [exact Hrun|]. split; [exact Hi|]. destruct Hres as [[-> _]|[-> _]]; [left|right]; reflexivity.
Defined.

Lemma after_fork_ok : exists M, implements false after_fork (Abstract ({[child_root]} ∪ {[parent]}) M (fun _ => 0) ∅) /\ M !! (parent, 1024) = Some (set_writeable first_entry false).
Proof.
  destruct (go_ok _ _ _ two_processes_ok fork_allowed) as (g' & (M' & -> & Hu) & Hi). assert (E : (go (CopyPages parent child_root 1024 0 1) two_processes).1 = 0) by (vm_compute; reflexivity). fold after_fork in Hi. rewrite E in Hu.
  destruct Hu as [[_ Hu]|[Hf _]]; [|discriminate Hf]. exists M'. split; [exact Hi|]. rewrite Hu, decide_True by (split; [done|lia]). cbn [family g_map]. rewrite lookup_singleton_eq. reflexivity.
Qed.

