(* ===== verification/Tlb.v ===== *)
(** * kernel/generic/memory: dropping translations on every processor

    [TLBShootdownContext::finalize], [Page_Table::trigger_shootdown], [apply_cpu] and
    [unapply_cpu] of paging.cc, for one page table and any number of processors that switch to it
    and away from it.  What runs under [active_cpus_lock] is split where the processor that waits
    reads the counter; the translation caches are sets of pages that the hardware fills from the
    page table at any time and that are emptied when the page table is loaded.  The global
    [barrier] lets one shootdown happen at a time, and the lock of the page table is held from
    the removal of the translations to the end of the shootdown.  A processor answers interrupts
    when it is not inside [switch_to]. *)

From stdpp Require Import base numbers list gmap sets.
From Stdlib Require Import ZArith Lia.
From S2P Require Import Prelude Paging.
Open Scope Z_scope.

(** ** State *)

(** Where a processor is: [Flushed] and [Moved] are inside [trigger_shootdown], the others inside
    [switch_to], away from the page table or to it *)
Inductive position := Normal | Flushed | Moved | Left | LeftLoaded | Joined | JoinedLoaded.
#[global] Instance position_eq : EqDecision position.
Proof. solve_decision. Defined.

(** [page_table_generation]: -1 also stands for the generation in another page table;
    [current_here]: the current task has this page table; [cr3_here]: it is loaded *)
Record CPU_Info := Cpu { page_table_generation : Z; current_here : bool; cr3_here : bool; tlb : gset Z; ipi_tlb : bool; pos : position }.

(** How far the shootdown is; the context has the noted pages, and [removed] is what has been
    taken out of the table *)
Inductive stage :=
  | Idle
  | Began (c : nat) (ctx : list Z) (removed : gset Z)
  | Flipped (c : nat) (old : Z) (removed : gset Z)
  | Waiting (c : nat) (old : Z) (removed : gset Z).

Record Page_Table := PageTable {
  paging_generation : Z; active_cpus_count : Z -> Z; active_cpus : Z -> list nat; active_cpus_lock : option nat; shootdown_descriptor : list Z;
  translations : gset Z }.

Record system := Sys { table : Page_Table; cpus : list CPU_Info; doing : stage }.

Definition upd {A} (g : Z) (v : A) (f : Z -> A) : Z -> A := fun x => if decide (x = g) then v else f x.
Definition other (g : Z) : Z := if g =? 0 then 1 else 0.

(** ** Operations *)

(** [TLBShootdownContext::invalidate_page] and [flush_all] *)
Definition note_page (ctx : list Z) (page : Z) : list Z := if bool_decide (MAX_PAGES <= length ctx)%nat then ctx else ctx ++ [Z.ldiff page 4095].
Definition desc_flush_all (ctx : list Z) : bool := bool_decide (MAX_PAGES <= length ctx)%nat.

Definition on_table (f : Page_Table -> Page_Table) (s : system) : system := Sys (f (table s)) (cpus s) (doing s).
Definition set_cpu (c : nat) (x : CPU_Info) (s : system) : system := Sys (table s) (<[c := x]> (cpus s)) (doing s).
Definition set_stage (d : stage) (s : system) : system := Sys (table s) (cpus s) d.

Definition apply_cpu (c : nat) (s : system) : option system :=
  x ← cpus s !! c;
  let t := table s in let g := paging_generation t in
  if negb (page_table_generation x =? -1) then None
  else
    let count := active_cpus_count t g + 1 in
    if negb (0 <? count) then None
    else
      Some (Sys (PageTable g (upd g count (active_cpus_count t)) (upd g (active_cpus t g ++ [c]) (active_cpus t)) (active_cpus_lock t) (shootdown_descriptor t) (translations t))
        (<[c := Cpu g (current_here x) (cr3_here x) (tlb x) (ipi_tlb x) Joined]> (cpus s)) (doing s)).

Definition remove_cpu (c : nat) (l : list nat) : list nat := filter (fun d => d <> c) l.

Definition unapply_cpu (c : nat) (s : system) : option system :=
  x ← cpus s !! c;
  let t := table s in let g := page_table_generation x in
  if g =? -1 then None
  else
    let count := active_cpus_count t g - 1 in
    if count <? 0 then None
    else
      Some (Sys (PageTable (paging_generation t) (upd g count (active_cpus_count t)) (upd g (remove_cpu c (active_cpus t g)) (active_cpus t)) (active_cpus_lock t) (shootdown_descriptor t) (translations t))
        (<[c := Cpu (-1) (current_here x) (cr3_here x) (tlb x) (ipi_tlb x) Left]> (cpus s)) (doing s)).

(** [trigger_shootdown] up to the change of generation: the lock is taken and the translations are
    dropped *)
Definition trigger_flush (c : nat) (s : system) : option system :=
  x ← cpus s !! c;
  let t := table s in
  if page_table_generation x =? -1 then None
  else if paging_generation t =? page_table_generation x then Some s
  else
    let left := if desc_flush_all (shootdown_descriptor t) then ∅ else tlb x ∖ list_to_set (shootdown_descriptor t) in
    Some (Sys (PageTable (paging_generation t) (active_cpus_count t) (active_cpus t) (Some c) (shootdown_descriptor t) (translations t))
      (<[c := Cpu (page_table_generation x) (current_here x) (cr3_here x) left (ipi_tlb x) Flushed]> (cpus s)) (doing s)).

(** the processor counts in the next generation *)
Definition trigger_move (c : nat) (s : system) : option system :=
  x ← cpus s !! c;
  let t := table s in let g := page_table_generation x in let next := other g in
  let lists := upd g (remove_cpu c (active_cpus t g)) (active_cpus t) in
  Some (Sys (PageTable (paging_generation t) (upd next (active_cpus_count t next + 1) (active_cpus_count t)) (upd next (lists next ++ [c]) lists) (active_cpus_lock t) (shootdown_descriptor t) (translations t))
    (<[c := Cpu next (current_here x) (cr3_here x) (tlb x) (ipi_tlb x) Moved]> (cpus s)) (doing s)).

(** and no longer in the old one *)
Definition trigger_leave (c : nat) (s : system) : option system :=
  x ← cpus s !! c;
  let t := table s in let g := other (page_table_generation x) in
  Some (Sys (PageTable (paging_generation t) (upd g (active_cpus_count t g - 1) (active_cpus_count t)) (active_cpus t) None (shootdown_descriptor t) (translations t))
    (<[c := Cpu (page_table_generation x) (current_here x) (cr3_here x) (tlb x) (ipi_tlb x) Normal]> (cpus s)) (doing s)).

(** [ipi_invalidate_tlb_routine] *)
Definition ipi_routine (c : nat) (s : system) : option system :=
  x ← cpus s !! c;
  let s := set_cpu c (Cpu (page_table_generation x) (current_here x) (cr3_here x) (tlb x) false (pos x)) s in
  if current_here x then trigger_flush c s else Some s.

Definition send_ipi (me : nat) (l : list nat) (d : nat) (x : CPU_Info) : CPU_Info :=
  if bool_decide (d ∈ l) && negb (bool_decide (d = me)) then Cpu (page_table_generation x) (current_here x) (cr3_here x) (tlb x) true (pos x) else x.

(** [finalize]: nothing to do, or a new generation begins and the processors in the old one are
    interrupted *)
Definition finalize_flip (c : nat) (ctx : list Z) (removed : gset Z) (s : system) : option system :=
  match ctx with
  | [] => Some (set_stage Idle s)
  | _ =>
      let t := table s in let old := paging_generation t in
      Some (Sys (PageTable (other old) (active_cpus_count t) (active_cpus t) (active_cpus_lock t) ctx (translations t))
        (imap (send_ipi c (active_cpus t old)) (cpus s)) (Flipped c old removed))
  end.

Definition finalize_own (c : nat) (old : Z) (removed : gset Z) (s : system) : option system :=
  x ← cpus s !! c;
  let s := set_stage (Waiting c old removed) s in
  if current_here x then trigger_flush c s else Some s.

(** [trigger_shootdown] when the generation of the kernel's mappings is not the processor's: the
    counters, and what is left in the cache.  [kernel_shootdown_desc] is a pointer that starts as
    null *)
Record kernel_paging := KernelPaging { kernel_pt_generation : Z; kernel_pt_active_cpus_count : Z -> Z; kernel_shootdown_desc : option (list Z) }.

Definition trigger_kernel (k : kernel_paging) (cpu_generation : Z) (cached : gset Z) : option (kernel_paging * Z * gset Z) :=
  if kernel_pt_generation k =? -1 then None
  else
    desc ← kernel_shootdown_desc k;
    let new_gen := kernel_pt_generation k in
    let counts := upd new_gen (kernel_pt_active_cpus_count k new_gen + 1) (kernel_pt_active_cpus_count k) in
    let counts := upd cpu_generation (counts cpu_generation - 1) counts in
    Some (KernelPaging new_gen counts (kernel_shootdown_desc k), cpu_generation, cached ∖ list_to_set desc).

(** ** Steps *)

Inductive event :=
  | MapPage (p : Z)
  | Fill (c : nat) (p : Z)
  | Unmap (c : nat) (pages : list Z)
  | Flip (c : nat)
  | Own (c : nat)
  | Interrupt (c : nat)
  | Move (c : nat)
  | Leave (c : nat)
  | Finish (c : nat)
  | Unapply (c : nat)
  | LoadOther (c : nat)
  | SetOther (c : nat)
  | Apply (c : nat)
  | LoadThis (c : nat)
  | SetThis (c : nat).

Definition with_translations (v : gset Z) (t : Page_Table) : Page_Table := PageTable (paging_generation t) (active_cpus_count t) (active_cpus t) (active_cpus_lock t) (shootdown_descriptor t) v.
Definition with_tlb (v : gset Z) (x : CPU_Info) : CPU_Info := Cpu (page_table_generation x) (current_here x) (cr3_here x) v (ipi_tlb x) (pos x).
Definition page_of (va : Z) : Z := Z.ldiff va 4095.

(** A load of the page table empties the cache *)
Definition load_cr3 (here : bool) (p : position) (x : CPU_Info) : CPU_Info := Cpu (page_table_generation x) (current_here x) here ∅ (ipi_tlb x) p.
Definition set_current (here : bool) (x : CPU_Info) : CPU_Info := Cpu (page_table_generation x) here (cr3_here x) (tlb x) (ipi_tlb x) Normal.

(** [None]: an assertion fails *)
Definition step (e : event) (s : system) : option system :=
  match e with
  | MapPage p => Some (on_table (fun t => with_translations ({[p]} ∪ translations t) t) s)
  | Fill c p => x ← cpus s !! c; Some (set_cpu c (with_tlb ({[p]} ∪ tlb x) x) s)
  | Unmap c pages =>
      let removed := list_to_set (page_of <$> pages) in
      Some (set_stage (Began c (foldl note_page [] pages) removed) (on_table (fun t => with_translations (translations t ∖ removed) t) s))
  | Flip c => match doing s with Began _ ctx removed => finalize_flip c ctx removed s | _ => None end
  | Own c => match doing s with Flipped _ old removed => finalize_own c old removed s | _ => None end
  | Interrupt c => ipi_routine c s
  | Move c => trigger_move c s
  | Leave c => trigger_leave c s
  | Finish c => Some (set_stage Idle s)
  | Unapply c => unapply_cpu c s
  | LoadOther c => x ← cpus s !! c; Some (set_cpu c (load_cr3 false LeftLoaded x) s)
  | SetOther c => x ← cpus s !! c; Some (set_cpu c (set_current false x) s)
  | Apply c => apply_cpu c s
  | LoadThis c => x ← cpus s !! c; Some (set_cpu c (load_cr3 true JoinedLoaded x) s)
  | SetThis c => x ← cpus s !! c; Some (set_cpu c (set_current true x) s)
  end.

Definition at_pos (c : nat) (p : position) (s : system) : Prop := exists x, cpus s !! c = Some x /\ pos x = p.
Definition lock_free (s : system) : Prop := active_cpus_lock (table s) = None.
Definition initiator (s : system) : option nat := match doing s with Idle => None | Began c _ _ | Flipped c _ _ | Waiting c _ _ => Some c end.
(** A processor that has begun to spin on the counter, or to flip, answers no interrupt *)
Definition answers (c : nat) (s : system) : Prop := match doing s with Idle | Began _ _ _ => True | Flipped d _ _ | Waiting d _ _ => d <> c end.

(** When an event can happen: the locks, and the order of what a processor does *)
Definition enabled (e : event) (s : system) : Prop :=
  match e with
  | MapPage _ => doing s = Idle
  | Fill c p => (exists x, cpus s !! c = Some x /\ cr3_here x = true) /\ p ∈ translations (table s)
  | Unmap c _ => at_pos c Normal s /\ doing s = Idle
  | Flip c => lock_free s /\ exists ctx removed, doing s = Began c ctx removed
  | Own c => at_pos c Normal s /\ lock_free s /\ exists old removed, doing s = Flipped c old removed
  | Interrupt c => (exists x, cpus s !! c = Some x /\ pos x = Normal /\ ipi_tlb x = true) /\ lock_free s /\ answers c s
  | Move c => at_pos c Flushed s
  | Leave c => at_pos c Moved s
  | Finish c => at_pos c Normal s /\ exists old removed, doing s = Waiting c old removed /\ active_cpus_count (table s) old = 0
  | Unapply c => (exists x, cpus s !! c = Some x /\ pos x = Normal /\ current_here x = true) /\ lock_free s /\ initiator s <> Some c
  | LoadOther c => at_pos c Left s
  | SetOther c => at_pos c LeftLoaded s
  | Apply c => (exists x, cpus s !! c = Some x /\ pos x = Normal /\ current_here x = false) /\ lock_free s /\ initiator s <> Some c
  | LoadThis c => at_pos c Joined s
  | SetThis c => at_pos c JoinedLoaded s
  end.

Inductive execution : system -> list event -> system -> Prop :=
  | run_nil s : execution s [] s
  | run_cons s e s1 es s2 : enabled e s -> step e s = Some s1 -> execution s1 es s2 -> execution s (e :: es) s2.

(** A new page table on [n] processors, none of which uses it *)
Definition init (n : nat) : system :=
  Sys (PageTable 0 (fun _ => 0) (fun _ => []) None [] ∅) (replicate n (Cpu (-1) false false ∅ false Normal)) Idle.

(** ** The invariant *)

(** The generation a processor still counts in besides its own *)
Definition lags (s : system) (g : Z) (c : nat) : Prop := exists x, cpus s !! c = Some x /\ pos x = Moved /\ page_table_generation x = other g.

(** The translations a processor can have: those of the table, and those that are being removed
    until it has dropped them *)
Definition stale_bound (s : system) (x : CPU_Info) : gset Z :=
  match doing s with
  | Idle => translations (table s)
  | Began _ _ removed => translations (table s) ∪ removed
  | Flipped _ old removed | Waiting _ old removed =>
      if decide (page_table_generation x = old /\ pos x <> Flushed) then translations (table s) ∪ removed else translations (table s)
  end.

Definition attached (x : CPU_Info) : Prop := page_table_generation x <> -1.

Record cpu_ok (s : system) (c : nat) (x : CPU_Info) : Prop := {
  co_gen : page_table_generation x = -1 \/ page_table_generation x = 0 \/ page_table_generation x = 1;
  co_pos : match pos x with
           | Normal => cr3_here x = current_here x /\ (attached x <-> current_here x = true)
           | Flushed => attached x /\ cr3_here x = true /\ current_here x = true /\ page_table_generation x = other (paging_generation (table s)) /\ active_cpus_lock (table s) = Some c
           | Moved => cr3_here x = true /\ current_here x = true /\ page_table_generation x = paging_generation (table s) /\ active_cpus_lock (table s) = Some c
           | Left => ~ attached x /\ cr3_here x = true
           | LeftLoaded => ~ attached x /\ cr3_here x = false
           | Joined => attached x /\ cr3_here x = false
           | JoinedLoaded => attached x /\ cr3_here x = true
           end;
  co_empty : cr3_here x = false -> tlb x = ∅;
  co_tlb : attached x -> tlb x ⊆ stale_bound s x }.

(** What is left to be done by a processor in the old generation *)
Definition answering (s : system) (c : nat) (x : CPU_Info) : Prop :=
  ipi_tlb x = true /\ initiator s <> Some c \/ pos x = Flushed \/ exists old removed, doing s = Flipped c old removed /\ pos x = Normal.

Record inv (s : system) : Prop := {
  i_gen : paging_generation (table s) = 0 \/ paging_generation (table s) = 1;
  i_cpus : forall c x, cpus s !! c = Some x -> cpu_ok s c x;
  i_lists : forall g c, g = 0 \/ g = 1 -> (c ∈ active_cpus (table s) g <-> exists x, cpus s !! c = Some x /\ page_table_generation x = g);
  i_nodup : forall g, NoDup (active_cpus (table s) g);
  i_count : forall g, g = 0 \/ g = 1 -> exists b : bool, active_cpus_count (table s) g = Z.of_nat (length (active_cpus (table s) g)) + Z.b2z b /\ (b = true <-> exists c, lags s g c);
  i_lock : forall c, active_cpus_lock (table s) = Some c -> at_pos c Flushed s \/ at_pos c Moved s;
  i_quiet : match doing s with
            | Idle => active_cpus (table s) (other (paging_generation (table s))) = [] /\ lock_free s
            | Began c ctx removed => active_cpus (table s) (other (paging_generation (table s))) = [] /\ lock_free s /\ (desc_flush_all ctx = true \/ removed ⊆ list_to_set ctx) /\ at_pos c Normal s
            | Flipped c old removed => old = other (paging_generation (table s)) /\ (desc_flush_all (shootdown_descriptor (table s)) = true \/ removed ⊆ list_to_set (shootdown_descriptor (table s))) /\ at_pos c Normal s
            | Waiting c old removed => old = other (paging_generation (table s)) /\ (desc_flush_all (shootdown_descriptor (table s)) = true \/ removed ⊆ list_to_set (shootdown_descriptor (table s))) /\ (at_pos c Normal s \/ at_pos c Flushed s \/ at_pos c Moved s)
            end;
  i_answer : forall c x, cpus s !! c = Some x -> page_table_generation x = other (paging_generation (table s)) -> answering s c x }.

Lemma other_cases g : g = 0 \/ g = 1 -> (other g = 0 \/ other g = 1) /\ other (other g) = g /\ other g <> g.
Proof. intros [-> | ->]; unfold other; cbn; lia. Qed.

Lemma lookup_set_cpu (l : list CPU_Info) c x d y : <[c := x]> l !! d = Some y -> (d = c /\ y = x) \/ (d <> c /\ l !! d = Some y).
Proof. rewrite list_lookup_insert_Some. intros [(-> & <- & _)|[? ?]]; [by left|by right]. Qed.

Lemma lookup_set_same (l : list CPU_Info) c x y : l !! c = Some y -> <[c := x]> l !! c = Some x.
Proof. intros H. apply list_lookup_insert_eq. by apply lookup_lt_Some in H. Qed.

Lemma cpu_ok_mono s s' c x : cpu_ok s c x -> (pos x = Flushed \/ pos x = Moved -> paging_generation (table s') = paging_generation (table s) /\ active_cpus_lock (table s') = active_cpus_lock (table s)) ->
  (attached x -> stale_bound s x ⊆ stale_bound s' x) -> cpu_ok s' c x.
Proof.
  intros [H1 H2 H3 H4] Hp Hb. split; [done| |done|intros Ha; specialize (H4 Ha); specialize (Hb Ha); set_solver].
  destruct (pos x) eqn:E; try done; destruct Hp as [-> ->]; auto.
Qed.

Lemma at_pos_set s c x d p : at_pos d p s -> d <> c -> at_pos d p (set_cpu c x s).
Proof. intros (y & Hy & Hp) Hne. exists y. split; [|done]. cbn. by rewrite list_lookup_insert_ne. Qed.

(** A processor changes without changing its generation or what it does for the shootdown *)
Lemma inv_local s c x x' : inv s -> cpus s !! c = Some x -> page_table_generation x' = page_table_generation x -> cpu_ok s c x' ->
  (pos x' = pos x \/ (initiator s <> Some c /\ pos x <> Flushed /\ pos x <> Moved /\ pos x' <> Flushed /\ pos x' <> Moved)) ->
  (page_table_generation x = other (paging_generation (table s)) -> answering s c x') -> inv (set_cpu c x' s).
Proof.
  intros [I1 I2 I3 I4 I5 I6 I7 I8] Hx Hg Hok Hpos Hans.
  assert (Hat : forall d p, (p = Normal -> initiator s = Some d) -> p = Normal \/ p = Flushed \/ p = Moved -> at_pos d p s -> at_pos d p (set_cpu c x' s)).
  { intros d p Hn Hp Hat. destruct (decide (d = c)) as [->|Hne]; [|by apply at_pos_set]. destruct Hat as (y & Hy & Hpy). rewrite Hx in Hy. injection Hy as <-. exists x'. split; [by eapply lookup_set_same|]. destruct Hpos as [->|(Hi & H1 & H2 & _)]; [done|].
    destruct Hp as [->|[->| ->]]; [|done|done]. by destruct Hi; apply Hn. }
  assert (Hlag : forall g d, lags (set_cpu c x' s) g d <-> lags s g d).
  { intros g d. unfold lags. cbn. split; intros (y & Hy & Hm & Hgy).
    - apply lookup_set_cpu in Hy as [[-> ->]|[? Hy]]; [|by exists y]. exists x. rewrite <- Hg. split_and!; [done| |done]. destruct Hpos as [<-|(_ & _ & _ & _ & ?)]; done.
    - destruct (decide (d = c)) as [->|]; [|exists y; by rewrite list_lookup_insert_ne]. rewrite Hx in Hy. injection Hy as <-. exists x'. rewrite Hg. split_and!; [by eapply lookup_set_same| |done]. destruct Hpos as [->|(_ & _ & ? & _)]; done. }
  split; cbn; try done.
  - intros d y [[-> ->]|[? Hy]]%lookup_set_cpu; [eapply cpu_ok_mono; [exact Hok|done..]|eapply cpu_ok_mono; [by apply I2|done..]].
  - intros g d Hg'. rewrite (I3 g d Hg'). split; intros (y & Hy & Hgy).
    + destruct (decide (d = c)) as [->|]; [|exists y; by rewrite list_lookup_insert_ne]. exists x'. rewrite Hx in Hy. injection Hy as <-. split; [by eapply lookup_set_same|congruence].
    + apply lookup_set_cpu in Hy as [[-> ->]|[? Hy]]; [exists x; split; [done|congruence]|by exists y].
  - intros g Hg'. destruct (I5 g Hg') as (b & Hb & Hb'). exists b. split; [done|]. rewrite Hb'. split; intros [d Hd]; exists d; by apply Hlag.
  - intros d Hd. destruct (I6 d Hd) as [H|H]; [left|right]; apply Hat; try done; auto.
  - unfold initiator in Hat. destruct (doing s) as [|i ctx rm|i old rm|i old rm] eqn:Ed; [done|..].
    + destruct I7 as (? & ? & ? & ?). split_and!; try done. apply Hat; auto.
    + destruct I7 as (? & ? & ?). split_and!; try done. apply Hat; auto.
    + destruct I7 as (? & ? & H). split_and!; try done. destruct H as [H|[H|H]]; [left|right; left|right; right]; apply Hat; auto; done.
  - intros d y [[-> ->]|[? Hy]]%lookup_set_cpu; [rewrite Hg; by apply Hans|by apply I8].
Qed.

(** ** Every step keeps it *)

Lemma translations_bound s x : translations (table s) ⊆ stale_bound s x.
Proof. unfold stale_bound. destruct (doing s); [set_solver..| |]; case_decide; set_solver. Qed.

Lemma free_position s c x : inv s -> lock_free s -> cpus s !! c = Some x -> pos x <> Flushed /\ pos x <> Moved.
Proof. intros H Hl Hx. destruct (i_cpus s H c x Hx) as [_ Hp _ _]. unfold lock_free in Hl. split; intros E; rewrite E in Hp; naive_solver. Qed.

Lemma free_lags s g c : inv s -> lock_free s -> ~ lags s g c.
Proof. intros H Hl (x & Hx & Hm & _). by destruct (free_position s c x H Hl Hx). Qed.

Lemma gen_cases s c x : inv s -> cpus s !! c = Some x -> attached x -> page_table_generation x = paging_generation (table s) \/ page_table_generation x = other (paging_generation (table s)).
Proof. intros H Hx Ha. destruct (i_cpus s H c x Hx) as [Hg _ _ _]. unfold attached in Ha. unfold other. destruct (i_gen s H) as [-> | ->]; cbn; lia. Qed.

Lemma none_old s c x : inv s -> active_cpus (table s) (other (paging_generation (table s))) = [] -> cpus s !! c = Some x -> page_table_generation x <> other (paging_generation (table s)).
Proof. intros H Hn Hx E. assert (Hin : c ∈ active_cpus (table s) (other (paging_generation (table s)))) by (apply (i_lists s H); [apply other_cases, (i_gen s H)|by exists x]). rewrite Hn in Hin. by apply elem_of_nil in Hin. Qed.

(** A change of the translations or of the stage only *)
Lemma inv_stage s s' : inv s -> cpus s' = cpus s -> paging_generation (table s') = paging_generation (table s) -> active_cpus (table s') = active_cpus (table s) -> active_cpus_count (table s') = active_cpus_count (table s) -> active_cpus_lock (table s') = active_cpus_lock (table s) ->
  (forall c x, cpus s !! c = Some x -> attached x -> stale_bound s x ⊆ stale_bound s' x) ->
  match doing s' with
  | Idle => active_cpus (table s) (other (paging_generation (table s))) = [] /\ lock_free s
  | Began c ctx removed => active_cpus (table s) (other (paging_generation (table s))) = [] /\ lock_free s /\ (desc_flush_all ctx = true \/ removed ⊆ list_to_set ctx) /\ at_pos c Normal s
  | Flipped c old removed => False
  | Waiting c old removed => old = other (paging_generation (table s)) /\ (desc_flush_all (shootdown_descriptor (table s')) = true \/ removed ⊆ list_to_set (shootdown_descriptor (table s'))) /\ at_pos c Normal s
  end ->
  (forall c x, cpus s !! c = Some x -> page_table_generation x = other (paging_generation (table s)) -> answering s' c x) -> inv s'.
Proof.
  intros H Ec Eg El En Ek Hb Hd Ha. pose proof H as [I1 I2 I3 I4 I5 I6 I7 I8]. split; rewrite ?Eg, ?El, ?Ek, ?Ec; try done.
  - intros c x Hx. eapply cpu_ok_mono; [by apply I2|done|by eapply Hb].
  - intros g Hg. destruct (I5 g Hg) as (b & Hb1 & Hb2). exists b. rewrite En. split; [done|]. rewrite Hb2. unfold lags. by rewrite Ec.
  - unfold at_pos. rewrite Ec. apply I6.
  - unfold at_pos, lock_free in *. rewrite ?Ec, ?Ek, ?El, ?Eg. destruct (doing s'); [done|done|done|]. naive_solver.
Qed.

Lemma note_full ctx pages : (MAX_PAGES <= length ctx)%nat -> foldl note_page ctx pages = ctx.
Proof. intros Hl. induction pages as [|p pages IH]; cbn; [done|]. unfold note_page at 2. by rewrite bool_decide_true. Qed.

Lemma note_covers pages : let ctx := foldl note_page [] pages in desc_flush_all ctx = true \/ list_to_set (page_of <$> pages) ⊆ (list_to_set ctx : gset Z).
Proof.
  assert (G : forall ctx, desc_flush_all (foldl note_page ctx pages) = true \/ (list_to_set ctx ∪ list_to_set (page_of <$> pages) : gset Z) ⊆ list_to_set (foldl note_page ctx pages)).
  { induction pages as [|p pages IH]; intros ctx; cbn; [right; set_solver|]. destruct (IH (note_page ctx p)) as [?|Hs]; [by left|]. unfold note_page at 1 in Hs. case_bool_decide as Hl.
    - left. unfold note_page at 2. rewrite bool_decide_true by done. rewrite note_full by done. by apply bool_decide_eq_true.
    - right. rewrite list_to_set_app_L in Hs. cbn in Hs. unfold page_of at 1. set_solver. }
  destruct (G []) as [?|Hs]; [by left|right]. set_solver.
Qed.

Lemma map_page_inv s p : inv s -> doing s = Idle -> inv (on_table (fun t => with_translations ({[p]} ∪ translations t) t) s).
Proof.
  intros H Hd. pose proof (i_quiet s H) as Hq. rewrite Hd in Hq. eapply inv_stage; [exact H|done..| | |]; cbn.
  - intros c x _ _. unfold stale_bound. cbn. rewrite Hd. set_solver.
  - by rewrite Hd.
  - intros c x Hx E. by destruct (none_old s c x H (proj1 Hq) Hx).
Qed.

Lemma unmap_inv s c pages : inv s -> at_pos c Normal s -> doing s = Idle -> exists s', step (Unmap c pages) s = Some s' /\ inv s'.
Proof.
  intros H Hc Hd. pose proof (i_quiet s H) as Hq. rewrite Hd in Hq. eexists. split; [done|]. eapply inv_stage; [exact H|done..| | |]; cbn.
  - intros d x _ _. unfold stale_bound. cbn. rewrite Hd. intros q Hq'. destruct (decide (q ∈ (list_to_set (page_of <$> pages) : gset Z))); set_solver.
  - destruct Hq. split_and!; [done|done|apply note_covers|done].
  - intros d x Hx E. by destruct (none_old s d x H (proj1 Hq) Hx).
Qed.

Lemma answering_other s s' c x : answering s c x -> doing s' = doing s -> answering s' c x.
Proof. unfold answering, initiator. by intros H ->. Qed.

(** How the stage may go on when a processor answers *)
Definition goes_on (s : system) (c : nat) (d' : stage) : Prop :=
  (d' = doing s /\ answers c s) \/ exists old removed, doing s = Flipped c old removed /\ d' = Waiting c old removed.

Lemma goes_on_bound s s' c x : goes_on s c (doing s') -> translations (table s') = translations (table s) -> stale_bound s' x = stale_bound s x.
Proof. intros [[Hd _]|(old & rm & Hd & Hd')] Ht; unfold stale_bound; [rewrite Hd, Ht; done|]. by rewrite Hd, Hd', Ht. Qed.

Lemma goes_on_answering s s' c d x : goes_on s c (doing s') -> d <> c -> answering s d x -> answering s' d x.
Proof.
  intros [[Hd _]|(old & rm & Hd & Hd')] Hne H; [by apply (answering_other s s' d x H)|]. unfold answering, initiator in *. rewrite Hd in H. rewrite Hd'. destruct H as [H|[H|(o & r & [= ->] & _)]]; [by left|by right; left|done].
Qed.

(** The descriptor covers what is removed while there is an old generation *)
Lemma old_covered s c x : inv s -> cpus s !! c = Some x -> page_table_generation x = other (paging_generation (table s)) -> pos x <> Flushed ->
  exists removed, stale_bound s x = translations (table s) ∪ removed /\ (desc_flush_all (shootdown_descriptor (table s)) = true \/ removed ⊆ list_to_set (shootdown_descriptor (table s))).
Proof.
  intros H Hx Hg Hp. pose proof (i_quiet s H) as Hq. unfold stale_bound. destruct (doing s) as [|i ctx rm|i old rm|i old rm].
  - by destruct (none_old s c x H (proj1 Hq) Hx).
  - by destruct (none_old s c x H (proj1 Hq) Hx).
  - destruct Hq as (-> & Hc & _). exists rm. by rewrite decide_True.
  - destruct Hq as (-> & Hc & _). exists rm. by rewrite decide_True.
Qed.

Definition flushed_cpu (t : Page_Table) (x : CPU_Info) (ipi : bool) : CPU_Info :=
  Cpu (page_table_generation x) (current_here x) (cr3_here x) (if desc_flush_all (shootdown_descriptor t) then ∅ else tlb x ∖ list_to_set (shootdown_descriptor t)) ipi Flushed.
Definition locked_by (c : option nat) (t : Page_Table) : Page_Table := PageTable (paging_generation t) (active_cpus_count t) (active_cpus t) c (shootdown_descriptor t) (translations t).

Lemma flush_inv s c x d' ipi : inv s -> lock_free s -> cpus s !! c = Some x -> pos x = Normal -> current_here x = true -> page_table_generation x = other (paging_generation (table s)) -> goes_on s c d' ->
  inv (Sys (locked_by (Some c) (table s)) (<[c := flushed_cpu (table s) x ipi]> (cpus s)) d').
Proof.
  intros H Hl Hx Hp Hcur Hg Hgo. set (x' := flushed_cpu (table s) x ipi). set (s' := Sys _ _ _). pose proof H as [I1 I2 I3 I4 I5 I6 I7 I8]. assert (Hgo' : goes_on s c (doing s')) by done.
  destruct (I2 c x Hx) as [G1 G2 G3 G4]. rewrite Hp in G2. destruct G2 as [E1 E2]. assert (Ha : attached x) by (by apply E2). destruct (old_covered s c x H Hx Hg ltac:(by rewrite Hp)) as (rm & Eb & Hcov). split; cbn; try done.
  - intros d y [[-> ->]|[Hne Hy]]%lookup_set_cpu.
    + split; cbn; [done|split_and!; try done; congruence|congruence|]. intros _. specialize (G4 Ha). rewrite Eb in G4. pose proof (translations_bound s' x') as Ht. cbn in Ht. destruct (desc_flush_all (shootdown_descriptor (table s))); [set_solver|]. destruct Hcov as [?|Hcov]; [done|]. set_solver.
    + eapply cpu_ok_mono; [by apply I2| |]; [intros Hf; destruct (free_position s d y H Hl Hy); naive_solver|]. intros _. by rewrite (goes_on_bound s s' c y Hgo' eq_refl).
  - intros g d Hg'. rewrite (I3 g d Hg'). split; intros (y & Hy & Hgy).
    + destruct (decide (d = c)) as [->|]; [|exists y; by rewrite list_lookup_insert_ne]. exists x'. rewrite Hx in Hy. injection Hy as <-. split; [by eapply lookup_set_same|done].
    + apply lookup_set_cpu in Hy as [[-> ->]|[? Hy]]; [by exists x|by exists y].
  - intros g Hg'. destruct (I5 g Hg') as (b & Hb1 & Hb2). exists b. split; [done|]. rewrite Hb2. split; intros [d (y & Hy & Hm & Hgy)]; [destruct (free_position s d y H Hl Hy); done|]. apply lookup_set_cpu in Hy as [[-> ->]|[? Hy]]; [done|]. by destruct (free_position s d y H Hl Hy).
  - intros d [= <-]. left. exists x'. split; [by eapply lookup_set_same|done].
  - assert (Hat : forall i, i <> c -> at_pos i Normal s -> at_pos i Normal s') by (intros i Hne (y & Hy & Hpy); exists y; split; [cbn; by rewrite list_lookup_insert_ne|done]).
    assert (Hatc : at_pos c Flushed s') by (exists x'; split; [by eapply lookup_set_same|done]).
    destruct Hgo as [[-> Hans]|(old & r & Hd & ->)].
    + unfold answers in Hans. destruct (doing s) as [|i ctx r|i old r|i old r]; [by destruct (none_old s c x H (proj1 I7) Hx)|by destruct (none_old s c x H (proj1 I7) Hx)|..]; destruct I7 as (? & ? & Hi); split_and!; try done; [by apply Hat|].
      left. destruct Hi as [Hi|[(y & Hy & Hpy)|(y & Hy & Hpy)]]; [by apply Hat|by destruct (free_position s i y H Hl Hy)..].
    + rewrite Hd in I7. destruct I7 as (? & ? & Hi). split_and!; try done. by right; left.
  - intros d y [[-> ->]|[Hne Hy]]%lookup_set_cpu Hgy; [by right; left|]. eapply goes_on_answering; [done..|by apply I8].
Qed.

Definition without_ipi (x : CPU_Info) : CPU_Info := Cpu (page_table_generation x) (current_here x) (cr3_here x) (tlb x) false (pos x).

Lemma interrupt_inv s c : inv s -> enabled (Interrupt c) s -> exists s', step (Interrupt c) s = Some s' /\ inv s'.
Proof.
  intros H ((x & Hx & Hp & Hi) & Hl & Hans). cbn. unfold ipi_routine. rewrite Hx. cbn [mbind option_bind]. fold (without_ipi x). pose proof (i_cpus s H c x Hx) as Hok. pose proof Hok as [_ Hpos _ _]. rewrite Hp in Hpos. destruct Hpos as [E1 E2].
  assert (Hok' : cpu_ok s c (without_ipi x)) by (destruct Hok; by split). assert (Hlocal : page_table_generation x <> other (paging_generation (table s)) -> inv (set_cpu c (without_ipi x) s)) by (intros Hne; apply (inv_local s c x); [done..|by left|done]).
  destruct (current_here x) eqn:Ecur.
  - unfold trigger_flush. cbn [set_cpu cpus table doing]. rewrite (lookup_set_same _ c (without_ipi x) x) by done. cbn [mbind option_bind without_ipi page_table_generation]. assert (Ha : attached x) by (by apply E2). rewrite (proj2 (Z.eqb_neq _ _) Ha).
    destruct (gen_cases s c x H Hx Ha) as [Eg|Eg]; pose proof (other_cases _ (i_gen s H)) as (_ & _ & Hoth).
    + rewrite Eg, Z.eqb_refl. eexists. split; [done|]. apply Hlocal. congruence.
    + rewrite (proj2 (Z.eqb_neq _ _)) by congruence. eexists. split; [done|]. rewrite list_insert_insert_eq. apply (flush_inv s c x (doing s) false); try done. by left.
  - eexists. split; [done|]. apply Hlocal. intros E. assert (Ha : attached x) by (unfold attached; rewrite E; unfold other; destruct (i_gen s H) as [-> | ->]; done). by apply E2 in Ha.
Qed.

Lemma own_inv s c : inv s -> enabled (Own c) s -> exists s', step (Own c) s = Some s' /\ inv s'.
Proof.
  intros H ((x & Hx & Hp) & Hl & old & rm & Hd). cbn. rewrite Hd. unfold finalize_own. rewrite Hx. cbn [mbind option_bind]. pose proof (i_cpus s H c x Hx) as [_ Hpos _ _]. rewrite Hp in Hpos. destruct Hpos as [E1 E2].
  pose proof (i_quiet s H) as Hq. rewrite Hd in Hq. destruct Hq as (Hold & Hcov & Hat).
  assert (Hstage : page_table_generation x <> other (paging_generation (table s)) -> inv (set_stage (Waiting c old rm) s)).
  { intros Hne. eapply inv_stage; [exact H|done..| | |]; cbn; [|done|].
    - intros d y _ _. unfold stale_bound. cbn. by rewrite Hd.
    - intros d y Hy E. assert (d <> c) by (intros ->; congruence). pose proof (i_answer s H d y Hy E) as Ha. eapply (goes_on_answering s _ c); [right; by exists old, rm|done|done]. }
  destruct (current_here x) eqn:Ecur.
  - unfold trigger_flush. cbn [set_stage cpus table doing]. rewrite Hx. cbn [mbind option_bind]. assert (Ha : attached x) by (by apply E2). rewrite (proj2 (Z.eqb_neq _ _) Ha). pose proof (other_cases _ (i_gen s H)) as (_ & _ & Hoth).
    destruct (gen_cases s c x H Hx Ha) as [Eg|Eg].
    + rewrite Eg, Z.eqb_refl. eexists. split; [done|]. apply Hstage. congruence.
    + rewrite (proj2 (Z.eqb_neq _ _)) by congruence. eexists. split; [done|]. apply (flush_inv s c x (Waiting c old rm) (ipi_tlb x)); try done. right. by exists old, rm.
  - eexists. split; [done|]. apply Hstage. intros E. assert (Ha : attached x) by (unfold attached; rewrite E; unfold other; destruct (i_gen s H) as [-> | ->]; done). by apply E2 in Ha.
Qed.

Lemma lookup_ipi me l (cs : list CPU_Info) d y : imap (send_ipi me l) cs !! d = Some y -> exists x, cs !! d = Some x /\ y = send_ipi me l d x.
Proof. rewrite list_lookup_imap. destruct (cs !! d) as [x|]; cbn; [|done]. intros [= <-]. by exists x. Qed.

Lemma send_ipi_same me l d x : let y := send_ipi me l d x in page_table_generation y = page_table_generation x /\ current_here y = current_here x /\ cr3_here y = cr3_here x /\ tlb y = tlb x /\ pos y = pos x.
Proof. unfold send_ipi. by destruct (bool_decide _ && _). Qed.

Lemma flip_inv s c : inv s -> enabled (Flip c) s -> exists s', step (Flip c) s = Some s' /\ inv s'.
Proof.
  intros H (Hl & ctx & rm & Hd). cbn. rewrite Hd. pose proof H as [I1 I2 I3 I4 I5 I6 I7 I8]. rewrite Hd in I7. destruct I7 as (Hnone & _ & Hcov & Hat). unfold finalize_flip. destruct ctx as [|p ctx].
  { eexists. split; [done|]. eapply inv_stage; [exact H|done..| |done|]; cbn; [|intros d y Hy E; by destruct (none_old s d y H Hnone Hy)]. intros d y _ _. unfold stale_bound. cbn. rewrite Hd. destruct Hcov as [?|Hcov]; [done|]. set_solver. }
  eexists. split; [done|]. pose proof (other_cases _ I1) as (O1 & O2 & O3). set (g := paging_generation (table s)) in *. split; cbn; try done.
  - intros d y (x & Hx & ->)%lookup_ipi. destruct (send_ipi_same c (active_cpus (table s) g) d x) as (E1 & E2 & E3 & E4 & E5). destruct (I2 d x Hx) as [G1 G2 G3 G4]. destruct (free_position s d x H Hl Hx) as [F1 F2]. split; rewrite ?E1, ?E2, ?E3, ?E4, ?E5; try done.
    + unfold attached in *. rewrite E1. destruct (pos x); done.
    + unfold attached. rewrite E1. intros Ha. specialize (G4 Ha). unfold stale_bound in *. cbn. rewrite Hd in G4. rewrite E1, E5. destruct (gen_cases s d x H Hx Ha) as [Eg|Eg]; [|by destruct (none_old s d x H Hnone Hx)]. by rewrite decide_True.
  - intros g' d Hg'. rewrite (I3 g' d Hg'). split; intros (x & Hx & Hgx).
    + exists (send_ipi c (active_cpus (table s) g) d x). rewrite list_lookup_imap, Hx. split; [done|]. by rewrite (proj1 (send_ipi_same _ _ _ _)).
    + apply lookup_ipi in Hx as (y & Hy & ->). exists y. split; [done|]. by rewrite (proj1 (send_ipi_same _ _ _ _)) in Hgx.
  - intros g' Hg'. destruct (I5 g' Hg') as (b & Hb1 & Hb2). exists b. split; [done|]. rewrite Hb2. split; intros [d Hd']; [by destruct (free_lags s g' d H Hl)|]. destruct Hd' as (y & (x & Hx & ->)%lookup_ipi & Hm & _). destruct (send_ipi_same c (active_cpus (table s) g) d x) as (_ & _ & _ & _ & E5). rewrite E5 in Hm. by destruct (free_position s d x H Hl Hx).
  - unfold lock_free in Hl. intros d Hd'. congruence.
  - split_and!; [by rewrite O2|done|]. destruct Hat as (x & Hx & Hpx). exists (send_ipi c (active_cpus (table s) g) c x). cbn. rewrite list_lookup_imap, Hx. split; [done|]. by rewrite (proj2 (proj2 (proj2 (proj2 (send_ipi_same _ _ _ _))))).
  - intros d y (x & Hx & ->)%lookup_ipi Hg'. rewrite O2 in Hg'. destruct (send_ipi_same c (active_cpus (table s) g) d x) as (E1 & _ & _ & _ & E5). rewrite E1 in Hg'. unfold answering. rewrite E5. destruct (decide (d = c)) as [->|Hne].
    + right; right. destruct Hat as (z & Hz & Hpz). exists g, rm. split; [done|congruence].
    + left. cbn. unfold send_ipi. rewrite (bool_decide_true (d ∈ _)), (bool_decide_false (d = c)) by (done || (apply I3; [done|by exists x])). split; [done|]. intros [= ->]. done.
Qed.

Lemma elem_of_remove_cpu c l d : d ∈ remove_cpu c l <-> d <> c /\ d ∈ l.
Proof. unfold remove_cpu. by rewrite list_elem_of_filter. Qed.

Lemma length_remove_cpu c l : NoDup l -> c ∈ l -> length l = S (length (remove_cpu c l)).
Proof.
  unfold remove_cpu. induction 1 as [|d l Hd Hn IH]; [by intros ?%elem_of_nil|]. intros [->|Hc]%elem_of_cons; cbn.
  - rewrite decide_False by naive_solver. f_equal. clear Hn IH. induction l as [|e l IH]; [done|]. cbn. apply not_elem_of_cons in Hd as [H1 H2]. rewrite decide_True by done. cbn. f_equal. by apply IH.
  - rewrite decide_True by naive_solver. cbn. f_equal. by apply IH.
Qed.

Lemma upd_same {A} g (v : A) f : upd g v f g = v.
Proof. unfold upd. by rewrite decide_True. Qed.
Lemma upd_other {A} g g' (v : A) f : g' <> g -> upd g v f g' = f g'.
Proof. intros ?. unfold upd. by rewrite decide_False. Qed.

Lemma unlag s g : inv s -> g = 0 \/ g = 1 -> lock_free s \/ (exists c, at_pos c Flushed s) -> active_cpus_count (table s) g = Z.of_nat (length (active_cpus (table s) g)).
Proof.
  intros H Hg Hl. destruct (i_count s H g Hg) as (b & Hb1 & Hb2). destruct b; [|cbn in Hb1; lia]. destruct (proj1 Hb2 eq_refl) as (d & x & Hx & Hm & _). destruct Hl as [Hl|(c & y & Hy & Hp)].
  - by destruct (free_position s d x H Hl Hx).
  - destruct (i_cpus s H d x Hx) as [_ P1 _ _]. destruct (i_cpus s H c y Hy) as [_ P2 _ _]. rewrite Hm in P1. rewrite Hp in P2. assert (c = d) by naive_solver. subst d. congruence.
Qed.

(** The processor with the lock is the only one inside [trigger_shootdown] *)
Lemma sole_holder s c d x y : inv s -> cpus s !! c = Some x -> cpus s !! d = Some y -> pos x = Flushed \/ pos x = Moved -> pos y = Flushed \/ pos y = Moved -> c = d.
Proof. intros H Hx Hy P1 P2. destruct (i_cpus s H c x Hx) as [_ Q1 _ _]. destruct (i_cpus s H d y Hy) as [_ Q2 _ _]. destruct P1 as [E|E], P2 as [F|F]; rewrite E in Q1; rewrite F in Q2; naive_solver. Qed.

(** A processor inside [trigger_shootdown] goes on: where the one that has begun is stays known *)
Lemma quiet_goes_on s s' c x x' : inv s -> cpus s !! c = Some x -> pos x = Flushed \/ pos x = Moved -> cpus s' = <[c := x']> (cpus s) -> doing s' = doing s -> pos x' = Moved \/ pos x' = Normal ->
  match doing s' with Idle => False | Began _ _ _ => False | Flipped i _ _ => at_pos i Normal s' | Waiting i _ _ => at_pos i Normal s' \/ at_pos i Flushed s' \/ at_pos i Moved s' end.
Proof.
  intros H Hx Hp Ec Ed Hp'. pose proof (i_quiet s H) as Hq. assert (Hlock : active_cpus_lock (table s) = Some c) by (destruct (i_cpus s H c x Hx) as [_ Q _ _]; destruct Hp as [E|E]; rewrite E in Q; naive_solver).
  assert (Hat : forall i p, i <> c -> at_pos i p s -> at_pos i p s') by (intros i p Hne (y & Hy & Hpy); exists y; rewrite Ec, list_lookup_insert_ne by done; done).
  assert (Hatc : at_pos c Moved s' \/ at_pos c Normal s') by (destruct Hp' as [E|E]; [left|right]; exists x'; rewrite Ec; split; try done; by eapply lookup_set_same).
  rewrite Ed. unfold lock_free in Hq. destruct (doing s) as [|i ctx rm|i old rm|i old rm]; [destruct Hq; congruence|destruct Hq as (_ & ? & _); congruence|..].
  - destruct Hq as (_ & _ & Hi). apply Hat; [|done]. intros ->. destruct Hi as (y & Hy & Hpy). rewrite Hx in Hy. injection Hy as <-. destruct Hp; congruence.
  - destruct Hq as (_ & _ & Hi). destruct (decide (i = c)) as [->|Hne]; [naive_solver|]. destruct Hi as [Hi|[Hi|Hi]]; [left|right; left|right; right]; by apply Hat.
Qed.

Lemma move_inv s c : inv s -> enabled (Move c) s -> exists s', step (Move c) s = Some s' /\ inv s'.
Proof.
  intros H (x & Hx & Hp). cbn. unfold trigger_move. rewrite Hx. cbn [mbind option_bind]. eexists. split; [done|]. pose proof H as [I1 I2 I3 I4 I5 I6 I7 I8].
  destruct (I2 c x Hx) as [G1 G2 G3 G4]. rewrite Hp in G2. destruct G2 as (Ha & E1 & E2 & Eg & Ek). pose proof (other_cases _ I1) as (O1 & O2 & O3). set (g := paging_generation (table s)) in *. rewrite Eg, O2, (upd_other (other g) g) by done. set (s' := Sys _ _ _).
  assert (Hc : c ∈ active_cpus (table s) (other g)) by (apply I3; [done|by exists x]). assert (Hcg : c ∉ active_cpus (table s) g) by (intros Hin; apply I3 in Hin as (y & Hy & Hgy); [|done]; congruence).
  assert (Hgs : forall g', g' = 0 \/ g' = 1 -> g' = g \/ g' = other g) by (unfold other; destruct I1 as [-> | ->]; cbn; lia).
  assert (Hlag : forall d, ~ lags s' g d /\ (lags s' (other g) d <-> d = c)).
  { assert (Hm : forall g' d, lags s' g' d -> d = c /\ g = other g') by (intros g' d (y & Hy & Hm & Hgy); cbn in Hy; apply lookup_set_cpu in Hy as [[-> ->]|[Hne Hy]]; [done|]; by destruct Hne; apply (sole_holder s d c y x); auto).
    intros d. split; [intros [_ E]%Hm; congruence|]. split; [by intros [? _]%Hm|]. intros ->. eexists. split; [by eapply lookup_set_same|]. cbn. by rewrite O2. }
  pose proof (quiet_goes_on s s' c x _ H Hx (or_introl Hp) eq_refl eq_refl (or_introl eq_refl)) as Hq. pose proof (fun g Hg => unlag s g H Hg (or_intror (ex_intro _ c (ex_intro _ x (conj Hx Hp))))) as Hcount. split; try done.
  - intros d y [[-> ->]|[Hne Hy]]%lookup_set_cpu.
    + split; cbn; [by right|by split_and!|congruence|]. intros _. specialize (G4 Ha). unfold stale_bound in *. cbn. destruct (doing s) as [| |i old rm|i old rm]; [done|done|..]; rewrite decide_False in G4 by naive_solver; rewrite decide_False; try done; intros [E _]; destruct I7 as (-> & _); congruence.
    + eapply cpu_ok_mono; [by apply I2|done|done].
  - intros g' d Hg'. cbn. destruct (Hgs g' Hg') as [-> | ->]; [rewrite upd_same, elem_of_app, list_elem_of_singleton|rewrite upd_other, upd_same, elem_of_remove_cpu by done].
    + split; [intros [Hd| ->]|]; [apply I3 in Hd as (y & Hy & Hgy); [|done]; exists y; rewrite list_lookup_insert_ne; [done|]; intros <-; congruence|eexists; split; [by eapply lookup_set_same|done]|].
      intros (y & [[-> ->]|[Hne Hy]]%lookup_set_cpu & Hgy); [by right|left]. apply I3; [done|by exists y].
    + split; [intros [Hne Hd]; apply I3 in Hd as (y & Hy & Hgy); [|done]; exists y; by rewrite list_lookup_insert_ne|]. intros (y & [[-> ->]|[Hne Hy]]%lookup_set_cpu & Hgy); [cbn in Hgy; congruence|]. split; [done|]. apply I3; [done|by exists y].
  - intros g'. cbn. unfold upd. repeat case_decide; subst; [|apply NoDup_filter, I4|apply I4]. apply NoDup_app. split_and!; [apply I4|intros e He ->%list_elem_of_singleton; done|apply NoDup_singleton].
  - intros g' Hg'. cbn. destruct (Hgs g' Hg') as [-> | ->].
    + exists false. rewrite !upd_same, length_app, (Hcount g) by done. cbn. split; [lia|]. split; [done|]. intros [d Hd]. by destruct (Hlag d).
    + exists true. rewrite !upd_other, upd_same, (Hcount (other g)) by done. rewrite (length_remove_cpu c (active_cpus (table s) (other g))) by auto. split; [cbn; lia|]. split; [|done]. intros _. exists c. by apply Hlag.
  - intros d Hd. cbn in Hd. assert (d = c) as -> by (fold g in Ek; congruence). right. eexists. split; [by eapply lookup_set_same|done].
  - cbn. destruct (doing s) as [| |i old rm|i old rm] eqn:Ed; cbn in Hq; [done|done|..]; destruct I7 as (-> & Hcov & _); by split_and!.
  - intros d y [[-> ->]|[Hne Hy]]%lookup_set_cpu Hgy; [cbn in Hgy; by destruct O3|]. by apply (answering_other s s' d y (I8 d y Hy Hgy)).
Qed.

Lemma leave_inv s c : inv s -> enabled (Leave c) s -> exists s', step (Leave c) s = Some s' /\ inv s'.
Proof.
  intros H (x & Hx & Hp). cbn. unfold trigger_leave. rewrite Hx. cbn [mbind option_bind]. eexists. split; [done|]. pose proof H as [I1 I2 I3 I4 I5 I6 I7 I8].
  destruct (I2 c x Hx) as [G1 G2 G3 G4]. rewrite Hp in G2. destruct G2 as (E1 & E2 & Eg & Ek). pose proof (other_cases _ I1) as (O1 & O2 & O3). set (g := paging_generation (table s)) in *. rewrite Eg. set (s' := Sys _ _ _).
  assert (Ha : attached x) by (unfold attached; rewrite Eg; destruct I1 as [-> | ->]; done). assert (Hgs : forall g', g' = 0 \/ g' = 1 -> g' = g \/ g' = other g) by (unfold other; destruct I1 as [-> | ->]; cbn; lia).
  assert (Hnolag : forall g' d, ~ lags s' g' d) by (intros g' d (y & Hy & Hm & Hgy); cbn in Hy; apply lookup_set_cpu in Hy as [[-> ->]|[Hne Hy]]; [done|]; by destruct Hne; apply (sole_holder s d c y x); auto).
  pose proof (quiet_goes_on s s' c x _ H Hx (or_intror Hp) eq_refl eq_refl (or_intror eq_refl)) as Hq. split; try done.
  - intros d y [[-> ->]|[Hne Hy]]%lookup_set_cpu.
    + split; cbn; [by right|split; [congruence|]; unfold attached in *; cbn; rewrite E2; split; [done|]; intros _; congruence|done|]. intros _. specialize (G4 Ha). unfold stale_bound in *. cbn. destruct (doing s) as [| |i old rm|i old rm]; [done|done|..]; rewrite decide_False in G4 by (intros [E _]; destruct I7 as (-> & _); congruence); rewrite decide_False; try done; intros [E _]; destruct I7 as (-> & _); congruence.
    + eapply cpu_ok_mono; [by apply I2| |done]. intros Hf. destruct Hne. apply (sole_holder s d c y x); auto.
  - intros g' d Hg'. cbn. rewrite (I3 g' d Hg'). split; intros (y & Hy & Hgy).
    + destruct (decide (d = c)) as [->|]; [|exists y; by rewrite list_lookup_insert_ne]. rewrite Hx in Hy. injection Hy as <-. eexists. split; [by eapply lookup_set_same|]. cbn. congruence.
    + apply lookup_set_cpu in Hy as [[-> ->]|[? Hy]]; [exists x; split; [done|]; cbn in Hgy; congruence|by exists y].
  - intros g' Hg'. exists false. cbn. split; [|split; [done|]; intros [d Hd]; by destruct (Hnolag g' d)]. destruct (I5 g' Hg') as (b & Hb1 & Hb2). destruct (Hgs g' Hg') as [-> | ->].
    + rewrite upd_other by done. destruct b; [|done]. destruct (proj1 Hb2 eq_refl) as (d & y & Hy & Hm & Hgy). assert (c = d) as <- by (apply (sole_holder s c d x y); auto). congruence.
    + rewrite upd_same. destruct b; [cbn in Hb1; lia|]. assert (false = true) as [=]. apply Hb2. exists c, x. by rewrite O2.
  - cbn. destruct (doing s) as [| |i old rm|i old rm] eqn:Ed; cbn in Hq; [done|done|..]; destruct I7 as (-> & Hcov & _); by split_and!.
  - intros d y [[-> ->]|[Hne Hy]]%lookup_set_cpu Hgy; [cbn in Hgy; by destruct O3|]. by apply (answering_other s s' d y (I8 d y Hy Hgy)).
Qed.

Lemma finish_inv s c : inv s -> enabled (Finish c) s -> inv (set_stage Idle s).
Proof.
  intros H (Hat & old & rm & Hd & Hz). pose proof (i_quiet s H) as Hq. rewrite Hd in Hq. destruct Hq as (-> & Hcov & _). pose proof (other_cases _ (i_gen s H)) as (O1 & O2 & O3). set (g := paging_generation (table s)) in *.
  destruct (i_count s H (other g) O1) as (b & Hb1 & Hb2). assert (Hn : active_cpus (table s) (other g) = []) by (apply length_zero_iff_nil; destruct b; cbn in Hb1; lia). assert (b = false) as -> by (destruct b; [cbn in Hb1; lia|done]).
  assert (Hl : lock_free s).
  { unfold lock_free. destruct (active_cpus_lock (table s)) as [d|] eqn:El; [|done]. destruct (i_lock s H d El) as [(y & Hy & Hp)|(y & Hy & Hp)]; destruct (i_cpus s H d y Hy) as [_ Q _ _]; rewrite Hp in Q.
    - destruct Q as (_ & _ & _ & Q & _). by destruct (none_old s d y H Hn Hy).
    - assert (false = true) as [=]. apply Hb2. exists d, y. rewrite O2. by destruct Q as (_ & _ & ? & _). }
  eapply inv_stage; [exact H|done..| |done|]; cbn.
  - intros d y Hy Ha. unfold stale_bound. cbn. rewrite Hd. rewrite decide_False; [done|]. intros [E _]. by destruct (none_old s d y H Hn Hy).
  - intros d y Hy E. by destruct (none_old s d y H Hn Hy).
Qed.

(** ** Switching *)

Lemma initiator_pos s c x : inv s -> initiator s = Some c -> cpus s !! c = Some x -> pos x = Normal \/ pos x = Flushed \/ pos x = Moved.
Proof.
  intros H Hi Hx. pose proof (i_quiet s H) as Hq. assert (Hpos : forall p, at_pos c p s -> pos x = p) by (intros p (y & Hy & Hp); congruence).
  unfold initiator in Hi. destruct (doing s) as [|i ctx rm|i old rm|i old rm]; [done|injection Hi as ->..]; [destruct Hq as (_ & _ & _ & Hq)|destruct Hq as (_ & _ & Hq)|destruct Hq as (_ & _ & Hq)]; naive_solver.
Qed.

(** A step of [switch_to] that only concerns the processor *)
Lemma switch_inv s c x x' : inv s -> cpus s !! c = Some x -> page_table_generation x' = page_table_generation x -> ipi_tlb x' = ipi_tlb x -> pos x <> Normal -> pos x <> Flushed -> pos x <> Moved -> pos x' <> Flushed -> pos x' <> Moved -> tlb x' ⊆ tlb x ->
  (cr3_here x' = false -> tlb x' = ∅) -> match pos x' with Normal => cr3_here x' = current_here x' /\ (attached x' <-> current_here x' = true) | Flushed | Moved => False | Left => ~ attached x' /\ cr3_here x' = true | LeftLoaded => ~ attached x' /\ cr3_here x' = false | Joined => attached x' /\ cr3_here x' = false | JoinedLoaded => attached x' /\ cr3_here x' = true end -> inv (set_cpu c x' s).
Proof.
  intros H Hx Hg Hi P1 P2 P3 P4 P5 Ht He Hp. destruct (i_cpus s H c x Hx) as [G1 G2 G3 G4]. apply (inv_local s c x); [done|done|done| | |].
  - split; [by rewrite Hg|destruct (pos x'); done|done|]. unfold attached. rewrite Hg. intros Ha. specialize (G4 Ha). assert (E : stale_bound s x' = stale_bound s x); [|set_solver]. unfold stale_bound. destruct (doing s); [done|done|..]; rewrite Hg; repeat case_decide; naive_solver.
  - right. split_and!; try done. intros E. destruct (initiator_pos s c x H E Hx) as [?|[?|?]]; done.
  - intros Eg. destruct (i_answer s H c x Hx Eg) as [[A B]|[A|(o & r & _ & A)]]; [left; by rewrite Hi|done|done].
Qed.

Lemma load_inv s c x (here : bool) p : inv s -> cpus s !! c = Some x -> pos x = (if here then Joined else Left) -> p = (if here then JoinedLoaded else LeftLoaded) -> inv (set_cpu c (load_cr3 here p x) s).
Proof.
  intros H Hx Hp ->. destruct (i_cpus s H c x Hx) as [_ Q _ _]. rewrite Hp in Q. apply (switch_inv s c x); try done; try (rewrite Hp; by destruct here); try (by destruct here). destruct here; cbn; unfold attached in *; cbn; naive_solver.
Qed.

Lemma set_inv s c x (here : bool) : inv s -> cpus s !! c = Some x -> pos x = (if here then JoinedLoaded else LeftLoaded) -> inv (set_cpu c (set_current here x) s).
Proof.
  intros H Hx Hp. destruct (i_cpus s H c x Hx) as [_ Q Q' _]. rewrite Hp in Q. apply (switch_inv s c x); try done; try (rewrite Hp; by destruct here). cbn. unfold attached in *. cbn. destruct here; naive_solver.
Qed.

(** A processor that is not part of the shootdown changes its generation under the lock *)
Lemma quiet_kept s s' c x x' : inv s -> lock_free s -> initiator s <> Some c -> cpus s !! c = Some x -> cpus s' = <[c := x']> (cpus s) -> doing s' = doing s -> lock_free s' -> shootdown_descriptor (table s') = shootdown_descriptor (table s) ->
  paging_generation (table s') = paging_generation (table s) -> (active_cpus (table s) (other (paging_generation (table s))) = [] -> active_cpus (table s') (other (paging_generation (table s))) = []) ->
  match doing s' with
  | Idle => active_cpus (table s') (other (paging_generation (table s'))) = [] /\ lock_free s'
  | Began c ctx removed => active_cpus (table s') (other (paging_generation (table s'))) = [] /\ lock_free s' /\ (desc_flush_all ctx = true \/ removed ⊆ list_to_set ctx) /\ at_pos c Normal s'
  | Flipped c old removed => old = other (paging_generation (table s')) /\ (desc_flush_all (shootdown_descriptor (table s')) = true \/ removed ⊆ list_to_set (shootdown_descriptor (table s'))) /\ at_pos c Normal s'
  | Waiting c old removed => old = other (paging_generation (table s')) /\ (desc_flush_all (shootdown_descriptor (table s')) = true \/ removed ⊆ list_to_set (shootdown_descriptor (table s'))) /\ (at_pos c Normal s' \/ at_pos c Flushed s' \/ at_pos c Moved s')
  end.
Proof.
  intros H Hl Hi Hx Ec Ed Hl' Es Eg Hn. pose proof (i_quiet s H) as Hq. assert (Hat : forall i p, i <> c -> at_pos i p s -> at_pos i p s') by (intros i p Hne (y & Hy & Hpy); exists y; rewrite Ec, list_lookup_insert_ne by done; done).
  rewrite Ed, Eg, Es. unfold initiator in Hi. destruct (doing s) as [|i ctx rm|i old rm|i old rm]; [naive_solver|..]; assert (i <> c) by congruence.
  - destruct Hq as (? & ? & ? & ?). split_and!; auto.
  - destruct Hq as (? & ? & ?). split_and!; auto.
  - destruct Hq as (? & ? & [?|[?|?]]); split_and!; auto.
Qed.

Lemma lags_changed s s' c x' g d : inv s -> lock_free s -> cpus s' = <[c := x']> (cpus s) -> pos x' <> Moved -> ~ lags s' g d.
Proof. intros H Hl Ec Hp (y & Hy & Hm & _). rewrite Ec in Hy. apply lookup_set_cpu in Hy as [[-> ->]|[_ Hy]]; [done|]. by destruct (free_position s d y H Hl Hy). Qed.

Lemma unapply_inv s c : inv s -> enabled (Unapply c) s -> exists s', step (Unapply c) s = Some s' /\ inv s'.
Proof.
  intros H ((x & Hx & Hp & Hcur) & Hl & Hi). pose proof H as [I1 I2 I3 I4 I5 I6 I7 I8]. destruct (I2 c x Hx) as [G1 G2 G3 G4]. rewrite Hp in G2. destruct G2 as [E1 E2]. assert (Ha : attached x) by (by apply E2).
  cbn. unfold unapply_cpu. rewrite Hx. cbn [mbind option_bind]. rewrite (proj2 (Z.eqb_neq _ _) Ha). set (g := page_table_generation x) in *. assert (Hg : g = 0 \/ g = 1) by (destruct G1; [done|done]).
  assert (Hc : c ∈ active_cpus (table s) g) by (apply I3; [done|by exists x]). pose proof (unlag s g H Hg (or_introl Hl)) as Hcount. rewrite Hcount, (length_remove_cpu c (active_cpus (table s) g)) by auto.
  rewrite (proj2 (Z.ltb_ge _ _)) by lia. eexists. split; [done|]. set (s' := Sys _ _ _). assert (Hl' : lock_free s') by done. split; try done.
  - intros d y [[-> ->]|[Hne Hy]]%lookup_set_cpu; [|eapply cpu_ok_mono; [by apply I2|done|done]]. split; cbn; [by left|split; [by intros Hf|congruence]|done|by intros Hf].
  - intros g' d Hg'. cbn. unfold upd. case_decide as E; [subst g'; rewrite elem_of_remove_cpu|]; rewrite (I3 _ d) by done.
    + split; [intros [Hne (y & Hy & Hgy)]; exists y; by rewrite list_lookup_insert_ne|]. intros (y & [[-> ->]|[Hne Hy]]%lookup_set_cpu & Hgy); [cbn in Hgy; lia|]. split; [done|by exists y].
    + split; [intros (y & Hy & Hgy); exists y; rewrite list_lookup_insert_ne; [done|]; intros ->; rewrite Hx in Hy; injection Hy as <-; by destruct E|]. intros (y & [[-> ->]|[Hne Hy]]%lookup_set_cpu & Hgy); [cbn in Hgy; lia|by exists y].
  - intros g'. cbn. unfold upd. case_decide; [apply NoDup_filter|]; apply I4.
  - intros g' Hg'. exists false. cbn. split; [|split; [done|]; intros [d Hd]; exfalso; by refine (lags_changed s s' c _ g' d H Hl eq_refl _ Hd)]. unfold upd. case_decide; [lia|]. rewrite (unlag s g' H Hg' (or_introl Hl)). lia.
  - intros d Hd. cbn in Hd. unfold lock_free in Hl. congruence.
  - eapply (quiet_kept s s' c x); try done. intros E. cbn. unfold upd. case_decide as E'; [|done]. rewrite <- E', E. done.
  - intros d y [[-> ->]|[Hne Hy]]%lookup_set_cpu Hgy; [cbn in Hgy; unfold other in Hgy; destruct (_ =? 0); lia|]. by apply (answering_other s s' d y (I8 d y Hy Hgy)).
Qed.

Lemma apply_inv s c : inv s -> enabled (Apply c) s -> exists s', step (Apply c) s = Some s' /\ inv s'.
Proof.
  intros H ((x & Hx & Hp & Hcur) & Hl & Hi). pose proof H as [I1 I2 I3 I4 I5 I6 I7 I8]. destruct (I2 c x Hx) as [G1 G2 G3 G4]. rewrite Hp in G2. destruct G2 as [E1 E2]. assert (Ha : page_table_generation x = -1) by (destruct (decide (page_table_generation x = -1)) as [?|Hn]; [done|]; apply E2 in Hn; congruence).
  cbn. unfold apply_cpu. rewrite Hx. cbn [mbind option_bind]. rewrite Ha. cbn [Z.eqb Z.opp Pos.eqb negb]. set (g := paging_generation (table s)) in *. pose proof (unlag s g H I1 (or_introl Hl)) as Hcount. rewrite (proj2 (Z.ltb_lt _ _)) by lia. cbn [negb].
  assert (Hc : forall g', g' = 0 \/ g' = 1 -> c ∉ active_cpus (table s) g') by (intros g' Hg' Hin; apply I3 in Hin as (y & Hy & Hgy); [|done]; rewrite Hx in Hy; injection Hy as <-; lia).
  eexists. split; [done|]. set (s' := Sys _ _ _). assert (Hl' : lock_free s') by done. split; try done.
  - intros d y [[-> ->]|[Hne Hy]]%lookup_set_cpu; [|eapply cpu_ok_mono; [by apply I2|done|done]]. split; cbn; [by right|split; [unfold attached; cbn; lia|congruence]|done|]. intros _. rewrite G3 by congruence. set_solver.
  - intros g' d Hg'. cbn. unfold upd. case_decide as E; [subst g'; rewrite elem_of_app, list_elem_of_singleton|]; rewrite (I3 _ d) by done.
    + split; [intros [(y & Hy & Hgy)| ->]; [exists y; rewrite list_lookup_insert_ne; [done|]; intros ->; rewrite Hx in Hy; injection Hy as <-; lia|eexists; split; [by eapply lookup_set_same|done]]|].
      intros (y & [[-> ->]|[Hne Hy]]%lookup_set_cpu & Hgy); [by right|left; by exists y].
    + split; [intros (y & Hy & Hgy); exists y; rewrite list_lookup_insert_ne; [done|]; intros ->; rewrite Hx in Hy; injection Hy as <-; lia|]. intros (y & [[-> ->]|[Hne Hy]]%lookup_set_cpu & Hgy); [cbn in Hgy; congruence|by exists y].
  - intros g'. cbn. unfold upd. case_decide; [|apply I4]. apply NoDup_app. split_and!; [apply I4|intros e He ->%list_elem_of_singleton; by destruct (Hc g I1)|apply NoDup_singleton].
  - intros g' Hg'. exists false. cbn. split; [|split; [done|]; intros [d Hd]; exfalso; by refine (lags_changed s s' c _ g' d H Hl eq_refl _ Hd)]. unfold upd. case_decide; [subst; rewrite length_app; cbn; lia|]. rewrite (unlag s g' H Hg' (or_introl Hl)). lia.
  - intros d Hd. cbn in Hd. unfold lock_free in Hl. congruence.
  - eapply (quiet_kept s s' c x); try done. intros E. cbn. rewrite upd_other; [done|]. by apply other_cases.
  - intros d y [[-> ->]|[Hne Hy]]%lookup_set_cpu Hgy; [cbn in Hgy; by destruct (other_cases g I1) as (_ & _ & ?)|]. by apply (answering_other s s' d y (I8 d y Hy Hgy)).
Qed.

Lemma fill_inv s c p : inv s -> enabled (Fill c p) s -> exists s', step (Fill c p) s = Some s' /\ inv s'.
Proof.
  intros H ((x & Hx & Hr) & Hp). cbn. rewrite Hx. cbn [mbind option_bind]. eexists. split; [done|]. destruct (i_cpus s H c x Hx) as [G1 G2 G3 G4]. apply (inv_local s c x); try done; [|by left|by intros Hg; destruct (i_answer s H c x Hx Hg) as [?|[?|?]]; [left|right; left|right; right]].
  split; [done|done|cbn; congruence|]. intros Ha. specialize (G4 Ha). change (stale_bound s (with_tlb ({[p]} ∪ tlb x) x)) with (stale_bound s x). pose proof (translations_bound s x). cbn. set_solver.
Qed.

Lemma tlb_step_inv s e : inv s -> enabled e s -> exists s', step e s = Some s' /\ inv s'.
Proof.
  intros H He. destruct e as [p|c p|c pages|c|c|c|c|c|c|c|c|c|c|c|c].
  - eexists. split; [done|by apply map_page_inv].
  - by apply fill_inv.
  - destruct He. by apply unmap_inv.
  - by apply flip_inv.
  - by apply own_inv.
  - by apply interrupt_inv.
  - by apply move_inv.
  - by apply leave_inv.
  - eexists. split; [done|by eapply finish_inv].
  - by apply unapply_inv.
  - destruct He as (x & Hx & Hp). cbn. rewrite Hx. eexists. split; [done|]. by apply (load_inv s c x false).
  - destruct He as (x & Hx & Hp). cbn. rewrite Hx. eexists. split; [done|]. by apply (set_inv s c x false).
  - by apply apply_inv.
  - destruct He as (x & Hx & Hp). cbn. rewrite Hx. eexists. split; [done|]. by apply (load_inv s c x true).
  - destruct He as (x & Hx & Hp). cbn. rewrite Hx. eexists. split; [done|]. by apply (set_inv s c x true).
Qed.

Lemma tlb_init_inv n : inv (init n).
Proof.
  assert (Hl : forall c x, cpus (init n) !! c = Some x -> x = Cpu (-1) false false ∅ false Normal) by (intros c x [-> _]%lookup_replicate; done). split; cbn; try done; [by left|..].
  - intros c x ->%Hl. split; cbn; [by left|split; [done|]; unfold attached; cbn; by split|done|]. by intros Ha.
  - intros g c Hg. split; [by intros ?%elem_of_nil|]. intros (x & ->%Hl & E). cbn in E. lia.
  - intros g. constructor.
  - intros g Hg. exists false. split; [done|]. split; [done|]. intros (c & x & ->%Hl & E & _). done.
  - intros c x ->%Hl E. done.
Qed.

Lemma tlb_execution_inv s es s' : inv s -> execution s es s' -> inv s'.
Proof. intros H Hex. induction Hex as [|s e s1 es s2 He Hs _ IH]; [done|]. apply IH. destruct (tlb_step_inv s e H He) as (s1' & Hs' & Hi). congruence. Qed.

(** ** Progress *)

(** What a processor still has to do for the one that waits *)
Definition work (old : Z) (x : CPU_Info) : nat :=
  if decide (page_table_generation x = old) then match pos x with Joined => 5 | JoinedLoaded => 4 | Normal => 3 | Flushed => 2 | _ => 0 end
  else if decide (pos x = Moved) then 1 else 0.
Definition total (old : Z) (s : system) : nat := sum_list (work old <$> cpus s).

Lemma sum_change (f : CPU_Info -> nat) l c x x' : l !! c = Some x -> (sum_list (f <$> <[c := x']> l) + f x = sum_list (f <$> l) + f x')%nat.
Proof.
  revert c. induction l as [|y l IH]; intros [|c]; cbn; try done; [intros [= ->]; lia|]. intros Hc. rewrite <- !Nat.add_assoc. f_equal. exact (IH c Hc).
Qed.

Lemma sum_zero (f : CPU_Info -> nat) l c x : sum_list (f <$> l) = 0%nat -> l !! c = Some x -> f x = 0%nat.
Proof. revert c. induction l as [|y l IH]; intros [|c]; cbn; try done; [intros ? [= ->]; lia|]. intros H. apply IH. lia. Qed.

Lemma sum_positive (f : CPU_Info -> nat) l : sum_list (f <$> l) <> 0%nat -> exists c x, l !! c = Some x /\ f x <> 0%nat.
Proof. induction l as [|y l IH]; cbn; [done|]. intros H. destruct (decide (f y = 0%nat)); [|by exists O, y]. destruct IH as (c & x & Hc & Hw); [lia|]. by exists (S c), x. Qed.

Lemma nothing_left s c old rm : inv s -> doing s = Waiting c old rm -> total old s = 0%nat -> enabled (Finish c) s.
Proof.
  intros H Hd Hz. pose proof (i_quiet s H) as Hq. rewrite Hd in Hq. destruct Hq as (-> & _ & Hat). pose proof (other_cases _ (i_gen s H)) as (O1 & O2 & O3). set (g := paging_generation (table s)) in *.
  assert (Hw : forall d y, cpus s !! d = Some y -> work (other g) y = 0%nat) by (intros d y Hy; by eapply sum_zero).
  assert (Hn : forall d y, cpus s !! d = Some y -> pos y <> Flushed /\ pos y <> Moved /\ page_table_generation y <> other g).
  { intros d y Hy. specialize (Hw d y Hy). destruct (i_cpus s H d y Hy) as [_ Q _ _]. unfold work in Hw. fold g in Q. destruct (pos y) eqn:Ep; repeat case_decide; try done; split_and!; try done; try (destruct Q as [Q _]; unfold attached in Q; intros E; lia); try naive_solver; destruct Q as (_ & _ & Q & _); destruct O3; congruence. }
  split.
  - destruct Hat as [?|[(y & Hy & Hp)|(y & Hy & Hp)]]; [done|..]; by destruct (Hn c y Hy) as (? & ? & _).
  - exists (other g), rm. split; [done|]. destruct (i_count s H (other g) O1) as (b & Hb1 & Hb2). assert (b = false) as ->.
    { destruct b; [|done]. destruct (proj1 Hb2 eq_refl) as (d & y & Hy & Hm & _). by destruct (Hn d y Hy) as (_ & ? & _). }
    rewrite Hb1. assert (active_cpus (table s) (other g) = []) as ->; [|done]. apply elem_of_nil_inv. intros d Hd'. apply (i_lists s H) in Hd' as (y & Hy & Hgy); [|done]. by destruct (Hn d y Hy) as (_ & _ & ?).
Qed.

(** While there is work, some processor can go on, and the work gets less *)
Lemma some_progress s c old rm : inv s -> doing s = Waiting c old rm -> total old s <> 0%nat -> exists e s', enabled e s /\ step e s = Some s' /\ doing s' = doing s /\ (total old s' < total old s)%nat /\ length (cpus s') = length (cpus s).
Proof.
  intros H Hd Hw. pose proof (i_quiet s H) as Hq. rewrite Hd in Hq. destruct Hq as (Hold & _ & _). pose proof (other_cases _ (i_gen s H)) as (O1 & O2 & O3).
  assert (Hone : forall d x x' e t, cpus s !! d = Some x -> enabled e s -> step e s = Some (Sys t (<[d := x']> (cpus s)) (doing s)) -> (work old x' < work old x)%nat -> exists e s', enabled e s /\ step e s = Some s' /\ doing s' = doing s /\ (total old s' < total old s)%nat /\ length (cpus s') = length (cpus s)).
  { intros d x x' e t Hx He Hs Hlt. eexists e, _. split_and!; [done|exact Hs|done| |cbn; apply length_insert]. unfold total. cbn. pose proof (sum_change (work old) (cpus s) d x x' Hx). lia. }
  destruct (active_cpus_lock (table s)) as [d|] eqn:El.
  - destruct (i_lock s H d El) as [(x & Hx & Hp)|(x & Hx & Hp)]; destruct (i_cpus s H d x Hx) as [_ Q _ _]; rewrite Hp in Q.
    + destruct Q as (_ & _ & _ & Eg & _). eapply (Hone d x _ (Move d)); [done|by exists x|cbn; unfold trigger_move; rewrite Hx; done|]. unfold work. cbn. rewrite Hp, Eg, Hold, O2. repeat case_decide; try lia; congruence.
    + destruct Q as (_ & _ & Eg & _). eapply (Hone d x _ (Leave d)); [done|by exists x|cbn; unfold trigger_leave; rewrite Hx; done|]. unfold work. cbn. rewrite Hp, Eg, Hold. repeat case_decide; try lia; congruence.
  - destruct (sum_positive _ _ Hw) as (d & x & Hx & Hwx). destruct (i_cpus s H d x Hx) as [_ Q _ _]. destruct (free_position s d x H El Hx) as [F1 F2]. unfold work in Hwx. rewrite (decide_False (P := pos x = Moved)) in Hwx by done. case_decide as Eg; [|done].
    assert (Ew : work old x = match pos x with Joined => 5 | JoinedLoaded => 4 | Normal => 3 | Flushed => 2 | _ => 0 end%nat) by (unfold work; by rewrite decide_True).
    destruct (pos x) eqn:Ep; try done.
    + destruct Q as [E1 E2]. assert (Ha : attached x) by (unfold attached; rewrite Eg, Hold; destruct O1 as [-> | ->]; done). pose proof (proj1 E2 Ha) as Hcur. rewrite Hold in Eg. destruct (i_answer s H d x Hx Eg) as [[Hipi Hini]|[?|(o & r & Hd' & _)]]; [|congruence|congruence].
      eapply (Hone d x _ (Interrupt d)); [done|split_and!; [by exists x|done|unfold answers; rewrite Hd; intros ->; unfold initiator in Hini; rewrite Hd in Hini; done]| |].
      * cbn. unfold ipi_routine. rewrite Hx. cbn [mbind option_bind]. rewrite Hcur. unfold trigger_flush. cbn [set_cpu cpus table doing]. rewrite (lookup_set_same _ d _ x) by done. cbn [mbind option_bind page_table_generation]. rewrite (proj2 (Z.eqb_neq _ _) Ha), (proj2 (Z.eqb_neq _ _)) by congruence. rewrite list_insert_insert_eq. done.
      * rewrite Ew. unfold work. cbn. rewrite Eg, Hold. rewrite decide_True by done. lia.
    + eapply (Hone d x _ (LoadThis d)); [done|by exists x|cbn; rewrite Hx; done|]. rewrite Ew. unfold work. cbn. rewrite decide_True by done. lia.
    + eapply (Hone d x _ (SetThis d)); [done|by exists x|cbn; rewrite Hx; done|]. rewrite Ew. unfold work. cbn. rewrite decide_True by done. lia.
Qed.

Lemma total_bound old s : (total old s <= 5 * length (cpus s))%nat.
Proof. unfold total. induction (cpus s) as [|x l IH]; [done|]. assert (Hw : (work old x <= 5)%nat) by (unfold work; repeat case_decide; destruct (pos x); lia). transitivity (5 + 5 * length l)%nat; [exact (Nat.add_le_mono _ _ _ _ Hw IH)|cbn; lia]. Qed.

Lemma completes s c old rm : inv s -> doing s = Waiting c old rm -> exists es s', execution s es s' /\ (length es <= total old s)%nat /\ enabled (Finish c) s'.
Proof.
  remember (total old s) as n eqn:En. assert (Hn : (total old s <= n)%nat) by lia. clear En. revert s Hn. induction n as [|n IH]; intros s Hn H Hd.
  - exists [], s. split_and!; [constructor|done|]. eapply nothing_left; [done..|lia].
  - destruct (decide (total old s = 0%nat)) as [Hz|Hz]; [exists [], s; split_and!; [constructor|cbn; lia|by eapply nothing_left]|].
    destruct (some_progress s c old rm H Hd Hz) as (e & s1 & He & Hs & Hd1 & Hlt & _). destruct (tlb_step_inv s e H He) as (s1' & Hs1 & H1). rewrite Hs in Hs1. injection Hs1 as <-.
    destruct (IH s1 ltac:(lia) H1 ltac:(congruence)) as (es & s2 & Hex & Hlen & Hfin). exists (e :: es), s2. split_and!; [by econstructor|cbn; lia|done].
Qed.

(** A step while the processor waits does not add work *)
Lemma no_more_work s e s' c old rm : inv s -> enabled e s -> step e s = Some s' -> doing s = Waiting c old rm -> doing s' = Waiting c old rm -> (total old s' <= total old s)%nat.
Proof.
  intros H He Hs Hd Hd'. pose proof (i_quiet s H) as Hq. rewrite Hd in Hq. destruct Hq as (Hold & _ & _). pose proof (other_cases _ (i_gen s H)) as (O1 & O2 & O3).
  assert (Hone : forall d x x', cpus s !! d = Some x -> cpus s' = <[d := x']> (cpus s) -> (work old x' <= work old x)%nat -> (total old s' <= total old s)%nat).
  { intros d x x' Hx Hc Hlt. unfold total. rewrite Hc. pose proof (sum_change (work old) (cpus s) d x x' Hx). lia. }
  destruct e as [p|d p|d pages|d|d|d|d|d|d|d|d|d|d|d|d]; cbn in He, Hs.
  - congruence.
  - destruct He as [(x & Hx & _) _]. rewrite Hx in Hs. injection Hs as <-. by eapply (Hone d x).
  - destruct He. congruence.
  - destruct He as (_ & ? & ? & ?). congruence.
  - destruct He as (_ & _ & ? & ? & ?). congruence.
  - destruct He as ((x & Hx & Hp & _) & Hl & _). unfold ipi_routine in Hs. rewrite Hx in Hs. cbn [mbind option_bind] in Hs. destruct (current_here x); [|injection Hs as <-; by eapply (Hone d x)].
    unfold trigger_flush in Hs. cbn [set_cpu cpus table doing] in Hs. rewrite (lookup_set_same _ d _ x) in Hs by done. cbn [mbind option_bind page_table_generation] in Hs. destruct (_ =? -1); [done|]. destruct (_ =? _); injection Hs as <-; [by eapply (Hone d x)|].
    cbn in *. rewrite list_insert_insert_eq in *. eapply (Hone d x); [done|done|]. unfold work. cbn. rewrite Hp. repeat case_decide; try done; lia.
  - destruct He as (x & Hx & Hp). unfold trigger_move in Hs. rewrite Hx in Hs. injection Hs as <-. eapply (Hone d x); [done|done|]. destruct (i_cpus s H d x Hx) as [_ Q _ _]. rewrite Hp in Q. destruct Q as (_ & _ & _ & Eg & _). unfold work. cbn. rewrite Hp, Eg, Hold, O2. repeat case_decide; try done; try lia; congruence.
  - destruct He as (x & Hx & Hp). unfold trigger_leave in Hs. rewrite Hx in Hs. injection Hs as <-. eapply (Hone d x); [done|done|]. destruct (i_cpus s H d x Hx) as [_ Q _ _]. rewrite Hp in Q. destruct Q as (_ & _ & Eg & _). unfold work. cbn. rewrite Hp, Eg, Hold. repeat case_decide; try done; try lia; congruence.
  - injection Hs as <-. done.
  - destruct He as ((x & Hx & Hp & _) & _). unfold unapply_cpu in Hs. rewrite Hx in Hs. cbn [mbind option_bind] in Hs. destruct (_ =? -1); [done|]. destruct (_ <? 0); [done|]. injection Hs as <-. eapply (Hone d x); [done|done|]. unfold work. cbn. repeat case_decide; try done; lia.
  - destruct He as (x & Hx & Hp). rewrite Hx in Hs. injection Hs as <-. eapply (Hone d x); [done|done|]. unfold work. cbn. rewrite Hp. repeat case_decide; try done; lia.
  - destruct He as (x & Hx & Hp). rewrite Hx in Hs. injection Hs as <-. eapply (Hone d x); [done|done|]. destruct (i_cpus s H d x Hx) as [_ Q _ _]. rewrite Hp in Q. destruct Q as [Q _]. unfold work, attached in *. cbn. rewrite Hp. repeat case_decide; try done; try lia; destruct O1; lia.
  - destruct He as ((x & Hx & Hp & _) & _). unfold apply_cpu in Hs. rewrite Hx in Hs. cbn [mbind option_bind] in Hs. destruct (negb _); [done|]. destruct (negb _); [done|]. injection Hs as <-. eapply (Hone d x); [done|done|]. unfold work. cbn. rewrite Hold. repeat case_decide; try done; try lia; congruence.
  - destruct He as (x & Hx & Hp). rewrite Hx in Hs. injection Hs as <-. eapply (Hone d x); [done|done|]. unfold work. cbn. rewrite Hp. repeat case_decide; try done; lia.
  - destruct He as (x & Hx & Hp). rewrite Hx in Hs. injection Hs as <-. eapply (Hone d x); [done|done|]. unfold work. cbn. rewrite Hp. repeat case_decide; try done; lia.
Qed.

(** ** What it gives *)

Lemma trigger_translations c s s' : trigger_flush c s = Some s' -> translations (table s') = translations (table s).
Proof. unfold trigger_flush. destruct (cpus s !! c) as [x|]; [|done]. cbn [mbind option_bind]. destruct (_ =? -1); [done|]. destruct (_ =? _); by intros [= <-]. Qed.

(** Only mapping adds translations *)
Lemma step_translations e s s' q : step e s = Some s' -> q ∈ translations (table s') -> q ∈ translations (table s) \/ e = MapPage q.
Proof.
  destruct e as [p|c p|c pages|c|c|c|c|c|c|c|c|c|c|c|c]; cbn; unfold apply_cpu, unapply_cpu, ipi_routine, trigger_move, trigger_leave, finalize_own, finalize_flip; try (destruct (cpus s !! c) as [x|]; [|done]; cbn [mbind option_bind]).
  - intros [= <-] [->%elem_of_singleton|?]%elem_of_union; [by right|by left].
  - intros [= <-]. by left.
  - intros [= <-] [? _]%elem_of_difference. by left.
  - destruct (doing s) as [|i [|] rm| |]; try done; intros [= <-]; by left.
  - destruct (doing s); try done. destruct (cpus s !! c) as [x|]; [|done]. cbn [mbind option_bind]. destruct (current_here x); [intros ->%trigger_translations|intros [= <-]]; by left.
  - destruct (current_here x); [intros ->%trigger_translations|intros [= <-]]; by left.
  - intros [= <-]. by left.
  - intros [= <-]. by left.
  - intros [= <-]. by left.
  - destruct (_ =? -1); [done|]. destruct (_ <? 0); [done|]. intros [= <-]. by left.
  - intros [= <-]. by left.
  - intros [= <-]. by left.
  - destruct (negb _); [done|]. destruct (negb _); [done|]. intros [= <-]. by left.
  - intros [= <-]. by left.
  - intros [= <-]. by left.
Qed.

Lemma execution_translations s es s' q : execution s es s' -> MapPage q ∉ es -> q ∉ translations (table s) -> q ∉ translations (table s').
Proof. induction 1 as [|s e s1 es s2 He Hs Hex IH]; [done|]. intros [Hne Hni]%not_elem_of_cons Hq. apply IH; [done|]. intros Hin. destruct (step_translations e s s1 q Hs Hin) as [?| ->]; done. Qed.

Lemma trigger_length c s s' : trigger_flush c s = Some s' -> length (cpus s') = length (cpus s).
Proof. unfold trigger_flush. destruct (cpus s !! c) as [x|]; [|done]. cbn [mbind option_bind]. destruct (_ =? -1); [done|]. destruct (_ =? _); intros [= <-]; [done|]. cbn. apply length_insert. Qed.

Lemma step_length e s s' : step e s = Some s' -> length (cpus s') = length (cpus s).
Proof.
  assert (Hset : forall c x, length (<[c := x]> (cpus s)) = length (cpus s)) by (intros; apply length_insert).
  destruct e as [p|c p|c pages|c|c|c|c|c|c|c|c|c|c|c|c]; cbn; unfold apply_cpu, unapply_cpu, ipi_routine, trigger_move, trigger_leave, finalize_own, finalize_flip; try (destruct (cpus s !! c) as [x|]; [|done]; cbn [mbind option_bind]); try (intros [= <-]; cbn; done).
  - destruct (doing s) as [|i [|] rm| |]; try done; intros [= <-]; [done|]. cbn. apply length_imap.
  - destruct (doing s); try done. destruct (cpus s !! c) as [x|]; [|done]. cbn [mbind option_bind]. destruct (current_here x); [by intros ?%trigger_length|by intros [= <-]].
  - destruct (current_here x); [intros Ht%trigger_length; rewrite Ht|intros [= <-]]; apply Hset.
  - destruct (_ =? -1); [done|]. destruct (_ <? 0); [done|]. intros [= <-]. apply Hset.
  - destruct (negb _); [done|]. destruct (negb _); [done|]. intros [= <-]. apply Hset.
Qed.

Lemma execution_length s es s' : execution s es s' -> length (cpus s') = length (cpus s).
Proof. induction 1 as [|s e s1 es s2 _ Hs _ IH]; [done|]. rewrite IH. by eapply step_length. Qed.

Lemma idle_clean s c x : inv s -> doing s = Idle -> cpus s !! c = Some x -> pos x = Normal -> current_here x = true -> tlb x ⊆ translations (table s).
Proof. intros H Hd Hx Hp Hc. destruct (i_cpus s H c x Hx) as [_ Q _ Ht]. rewrite Hp in Q. unfold stale_bound in Ht. rewrite Hd in Ht. apply Ht. by apply Q. Qed.



(** ** Executions by evaluation *)

Definition cpu_is (c : nat) (f : CPU_Info -> bool) (s : system) : bool := match cpus s !! c with Some x => f x | None => false end.
Definition is_at (p : position) (x : CPU_Info) : bool := bool_decide (pos x = p).
Definition lock_free_b (s : system) : bool := match active_cpus_lock (table s) with None => true | Some _ => false end.

Definition enabled_b (e : event) (s : system) : bool :=
  match e with
  | MapPage _ => match doing s with Idle => true | _ => false end
  | Fill c p => cpu_is c cr3_here s && bool_decide (p ∈ translations (table s))
  | Unmap c _ => cpu_is c (is_at Normal) s && match doing s with Idle => true | _ => false end
  | Flip c => lock_free_b s && match doing s with Began d _ _ => bool_decide (d = c) | _ => false end
  | Own c => cpu_is c (is_at Normal) s && lock_free_b s && match doing s with Flipped d _ _ => bool_decide (d = c) | _ => false end
  | Interrupt c => cpu_is c (fun x => is_at Normal x && ipi_tlb x) s && lock_free_b s && match doing s with Idle | Began _ _ _ => true | Flipped d _ _ | Waiting d _ _ => bool_decide (d <> c) end
  | Move c => cpu_is c (is_at Flushed) s
  | Leave c => cpu_is c (is_at Moved) s
  | Finish c => cpu_is c (is_at Normal) s && match doing s with Waiting d old _ => bool_decide (d = c) && (active_cpus_count (table s) old =? 0) | _ => false end
  | Unapply c => cpu_is c (fun x => is_at Normal x && current_here x) s && lock_free_b s && bool_decide (initiator s <> Some c)
  | LoadOther c => cpu_is c (is_at Left) s
  | SetOther c => cpu_is c (is_at LeftLoaded) s
  | Apply c => cpu_is c (fun x => is_at Normal x && negb (current_here x)) s && lock_free_b s && bool_decide (initiator s <> Some c)
  | LoadThis c => cpu_is c (is_at Joined) s
  | SetThis c => cpu_is c (is_at JoinedLoaded) s
  end.

Lemma cpu_is_true c f s : cpu_is c f s = true -> exists x, cpus s !! c = Some x /\ f x = true.
Proof. unfold cpu_is. destruct (cpus s !! c) as [x|]; [|done]. by exists x. Qed.
Lemma is_at_true c p s : cpu_is c (is_at p) s = true -> at_pos c p s.
Proof. intros (x & Hx & Hp%bool_decide_eq_true)%cpu_is_true. by exists x. Qed.
Lemma lock_free_true s : lock_free_b s = true -> lock_free s.
Proof. unfold lock_free_b, lock_free. by destruct (active_cpus_lock _). Qed.

Lemma enabled_b_sound e s : enabled_b e s = true -> enabled e s.
Proof.
  destruct e as [p|c p|c pages|c|c|c|c|c|c|c|c|c|c|c|c]; cbn; rewrite ?andb_true_iff.
  - by destruct (doing s).
  - intros [(x & Hx & Hr)%cpu_is_true Hp%bool_decide_eq_true]. split; [by exists x|done].
  - intros [?%is_at_true ?]. split; [done|]. by destruct (doing s).
  - intros [?%lock_free_true Hd]. split; [done|]. destruct (doing s) as [|d ctx rm| |]; try done. apply bool_decide_eq_true in Hd as ->. by exists ctx, rm.
  - intros [[?%is_at_true ?%lock_free_true] Hd]. split_and!; [done|done|]. destruct (doing s) as [| |d old rm|]; try done. apply bool_decide_eq_true in Hd as ->. by exists old, rm.
  - intros [[(x & Hx & [Hp%bool_decide_eq_true Hi]%andb_true_iff)%cpu_is_true ?%lock_free_true] Hd]. split_and!; [by exists x|done|]. unfold answers. destruct (doing s); try done; by apply bool_decide_eq_true in Hd.
  - apply is_at_true.
  - apply is_at_true.
  - intros [?%is_at_true Hd]. split; [done|]. destruct (doing s) as [| | |d old rm]; try done. apply andb_true_iff in Hd as [->%bool_decide_eq_true ?%Z.eqb_eq]. by exists old, rm.
  - intros [[(x & Hx & [Hp%bool_decide_eq_true Hi]%andb_true_iff)%cpu_is_true ?%lock_free_true] ?%bool_decide_eq_true]. split_and!; [by exists x|done|done].
  - apply is_at_true.
  - apply is_at_true.
  - intros [[(x & Hx & [Hp%bool_decide_eq_true Hi%negb_true_iff]%andb_true_iff)%cpu_is_true ?%lock_free_true] ?%bool_decide_eq_true]. split_and!; [by exists x|done|done].
  - apply is_at_true.
  - apply is_at_true.
Qed.

Fixpoint replay (es : list event) (s : system) : option system :=
  match es with [] => Some s | e :: es => if enabled_b e s then s ← step e s; replay es s else None end.

Lemma tlb_replay_sound es s s' : replay es s = Some s' -> execution s es s'.
Proof.
  revert s. induction es as [|e es IH]; intros s; cbn; [intros [= <-]; constructor|]. destruct (enabled_b e s) eqn:He; [|done]. intros (s1 & Hs & H)%bind_Some. econstructor; [by apply enabled_b_sound|done|by apply IH].
Qed.

Lemma replays es s : is_Some (replay es s) -> execution s es (default s (replay es s)).
Proof. intros [s' Hs]. rewrite Hs. by apply tlb_replay_sound. Qed.

(** ** Two processors *)

Definition both_in : list event := [Apply 0; LoadThis 0; SetThis 0; Apply 1; LoadThis 1; SetThis 1; MapPage 4096; Fill 0 4096; Fill 1 4096].
Definition shared_page : system := default (init 2) (replay both_in (init 2)).
Definition page_removed : system := default shared_page (step (Unmap 0 [4096]) shared_page).
Definition answered : list event := [Flip 0; Own 0; Move 0; Leave 0; Interrupt 1; Move 1; Leave 1; Finish 0].
Definition page_gone : system := default page_removed (replay answered page_removed).
Definition waiting_state : system := default page_removed (replay [Flip 0; Own 0; Move 0; Leave 0] page_removed).

Lemma shared_page_run : execution (init 2) both_in shared_page.
Proof. apply replays. vm_compute. by eexists. Qed.
Lemma page_removed_run : execution (init 2) (both_in ++ [Unmap 0 [4096]] ++ [Flip 0; Own 0; Move 0; Leave 0]) waiting_state.
Proof. apply tlb_replay_sound. by vm_compute. Qed.



(** ** The pages that are noted *)

(** The context is the one that the operations on page tables fill *)
Lemma note_page_invalidate {S} va (s : machine S) : invalidate_page va s = Some (tt, Machine (frames s) (mem s) (structs s) (note_page (shootdown s) va)).
Proof. unfold invalidate_page, note_page. case_bool_decide; [by destruct s|done]. Qed.

(** ** The kernel's own mappings *)

(** No statement of the kernel sets [kernel_shootdown_desc]: the first shootdown of the kernel's
    mappings with other processors running stops at the assertion *)
Lemma kernel_shootdown_asserts k cpu_generation cached : kernel_shootdown_desc k = None -> trigger_kernel k cpu_generation cached = None.
Proof. intros E. unfold trigger_kernel. destruct (_ =? -1); [done|]. by rewrite E. Qed.

(** Were it set, the processor would still count in its old generation, and answer again *)
Lemma kernel_generation_kept : exists k k', trigger_kernel k 0 ∅ = Some (k', 0, ∅) /\ kernel_pt_generation k' <> 0 /\ kernel_pt_active_cpus_count k' 0 = 0 /\
  exists k'', trigger_kernel k' 0 ∅ = Some (k'', 0, ∅) /\ kernel_pt_active_cpus_count k'' 0 = -1.
Proof. exists (KernelPaging 1 (upd 0 1 (fun _ => 0)) (Some [])). eexists. split; [done|]. split; [done|]. split; [done|]. eexists. by split. Qed.
