(* ===== verification/Regions.v ===== *)
(** * kernel/generic/memory: the regions of an address space

    [Page_Table::paging_regions] of paging.cc and the regions of mem_regions.cc: what each range
    of addresses of a process stands for.  The tree of regions is modelled by the list of its
    elements in order; [RbTreeSpec] shows that the tree behaves as such a list.  A region keeps
    its place in the list when its start is changed in place, as a node keeps its place in the
    tree.  Offsets are 64-bit numbers that wrap around; [true] for [memory] means that an
    allocation of a new region object succeeds. *)

From stdpp Require Import base numbers list gmap.
From Stdlib Require Import ZArith Lia.
From S2P Require Import Prelude.
Open Scope Z_scope.

Definition u64 (x : Z) : Z := x mod 2 ^ 64.

Inductive PhysRegionType := Deduce | FramebufferRegion | MMIO | NormalRegion.

Inductive region_kind :=
  | Phys_Mapped_Region (phys_addr_start : Z) (type : PhysRegionType)
  | Mem_Object_Reference (references start_offset_bytes object_offset_bytes object_size_bytes : Z) (cow : bool).

Record Generic_Mem_Region := Region { start_addr : Z; region_size : Z; access_type : Z; kind : region_kind }.

Definition addr_end (r : Generic_Mem_Region) : Z := start_addr r + region_size r.
Definition is_in_range (r : Generic_Mem_Region) (addr : Z) : bool := (start_addr r <=? addr) && (addr <? start_addr r + region_size r).
Definition has_access (r : Generic_Mem_Region) (access_mask : Z) : bool := Z.ldiff access_mask (access_type r) =? 0.

Notation regions := (list Generic_Mem_Region).

(** ** The tree *)

Definition insert_region (r : Generic_Mem_Region) (l : regions) : regions := filter (fun x => start_addr x <= start_addr r) l ++ r :: filter (fun x => start_addr r < start_addr x) l.

(** The number of regions that start at or before an address, and before it *)
Definition count_upto (addr : Z) (l : regions) : nat := length (filter (fun x => start_addr x <= addr) l).
Definition count_before (addr : Z) (l : regions) : nat := length (filter (fun x => start_addr x < addr) l).

(** Iterators are positions in the list *)
Definition get_smaller_or_equal (addr : Z) (l : regions) : option nat := match count_upto addr l with O => None | S i => Some i end.
Definition lower_bound (addr : Z) (l : regions) : option nat := let i := count_before addr l in if decide (i < length l)%nat then Some i else None.

(** ** Changing a region *)

Definition phys_trim (p start new_start : Z) : Z := u64 (p + (new_start - start)).

(** [Mem_Object_Reference::trim], the three offsets *)
Definition reference_trim (so oo os start new_start new_size : Z) : Z * Z * Z :=
  let '(so, oo, os) :=
    if new_start =? start then (so, oo, os)
    else
      let diff := new_start - start in
      if diff <=? so then (so - diff, u64 (oo + diff), if os <? diff then 0 else os - diff)
      else
        let t := Z.land so 4095 in
        let so := so - t in
        let oo := u64 (oo - t) in
        let os := u64 (os + t) in
        ((if so <? diff then 0 else so - diff), u64 (oo + diff), if os <? diff then 0 else os - diff) in
  (so, oo, if new_size <? u64 (so + os) then u64 (new_size - so) else os).

(** [trim] of both kinds of region: [Mem_Object_Reference::trim] does not change [start_addr] *)
Definition trim (r : Generic_Mem_Region) (new_start new_size : Z) : Generic_Mem_Region :=
  match kind r with
  | Phys_Mapped_Region p type => Region new_start new_size (access_type r) (Phys_Mapped_Region (phys_trim p (start_addr r) new_start) type)
  | Mem_Object_Reference o so oo os cow =>
      let '(so, oo, os) := reference_trim so oo os (start_addr r) new_start new_size in Region (start_addr r) new_size (access_type r) (Mem_Object_Reference o so oo os cow)
  end.

(** [punch_hole]: the part before the hole and the new region after it *)
Definition punch_hole (r : Generic_Mem_Region) (hole_start hole_size : Z) : Generic_Mem_Region * Generic_Mem_Region :=
  let new_start := hole_start + hole_size in
  match kind r with
  | Phys_Mapped_Region p type =>
      (Region (start_addr r) (hole_start - start_addr r) (access_type r) (kind r),
       Region new_start (region_size r - (new_start - start_addr r)) (access_type r) (Phys_Mapped_Region (u64 (p + (new_start - start_addr r))) type))
  | Mem_Object_Reference _ _ _ _ _ =>
      (trim r (start_addr r) (hole_start - start_addr r), trim r new_start (region_size r - (new_start - start_addr r)))
  end.

Definition ENOENT : Z := 48.
Definition EINVAL : Z := 31.
Definition ENOMEM : Z := 52.
Definition ENOTSUP : Z := 64.
Definition EFAULT : Z := 24.

(** ** Operations on the regions *)

(** [release_in_range], the loop from a region on: the regions that are left, and whether one has
    been changed *)
Fixpoint release_loop (start_addr' end_addr : Z) (l : regions) : regions * bool :=
  match l with
  | [] => ([], false)
  | i :: l =>
      if start_addr i <? end_addr then
        if negb (is_in_range i start_addr') then let '(l, clean) := release_loop start_addr' end_addr l in (i :: l, clean)
        else
          let '(l, _) := release_loop start_addr' end_addr l in
          if start_addr i <? start_addr' then (trim i (start_addr i) (start_addr' - start_addr i) :: l, true)
          else if end_addr <? addr_end i then (trim i end_addr (addr_end i - end_addr) :: l, true)
          else (l, true)
      else (i :: l, false)
  end.

(** The result, the regions, and whether the pages of the range are to be unmapped *)
Definition release_in_range (memory : bool) (start size : Z) (l : regions) : Z * regions * bool :=
  let it := get_smaller_or_equal start l in
  let split := match it ≫= (fun i => l !! i) with
               | Some r => if (start_addr r <? start) && (start + size <? addr_end r) then Some r else None
               | None => None
               end in
  match split with
  | Some r =>
      if memory then
        let '(r1, r2) := punch_hole r start size in
        let i := default O it in
        (0, <[i := r1]> (insert_region r2 l), true)
      else (- ENOMEM, l, false)
  | None =>
      let i := default O it in
      let '(l', clean) := release_loop start (start + size) (drop i l) in
      (0, take i l ++ l', clean)
  end.

(** [find_region_spot] *)
Fixpoint find_gap (user_addr_max size addr : Z) (l : regions) : Z :=
  match l with
  | [] => if user_addr_max <? u64 (addr + size) then - ENOMEM else addr
  | it :: l => let end_ := u64 (addr + size) in if (end_ <? start_addr it) && (end_ <=? user_addr_max) then addr else find_gap user_addr_max size (addr_end it) l
  end.

Definition find_region_spot (user_addr_max desired_start size : Z) (fixed : bool) (l : regions) : Z :=
  let end_ := u64 (desired_start + size) in
  let region_ok := negb (desired_start =? 0) in
  let region_ok := region_ok && match get_smaller_or_equal desired_start l ≫= (fun i => l !! i) with Some it => negb (is_in_range it desired_start) | None => true end in
  let region_ok := region_ok && match lower_bound desired_start l ≫= (fun i => l !! i) with Some it => negb (start_addr it <? end_) | None => true end in
  if region_ok then desired_start
  else if fixed && (desired_start =? 0) then - EINVAL
  else if fixed then desired_start
  else find_gap user_addr_max size 4096 l.

Definition get_region (page : Z) (l : regions) : option nat :=
  i ← get_smaller_or_equal page l; it ← l !! i; if is_in_range it page then Some i else None.

(** [atomic_delete_region]: the result, the regions, and the range whose pages are unmapped *)
Definition atomic_delete_region (region_start : Z) (l : regions) : Z * regions * option (Z * Z) :=
  match get_region region_start l with
  | None => (- ENOENT, l, None)
  | Some i => match l !! i with Some region => (0, delete i l, Some (region_start, region_size region)) | None => (- ENOENT, l, None) end
  end.

(** The parts of creating a region that change the regions: the spot has been found; [fixed]:
    what was there is released *)
Definition place_region (memory : bool) (fixed : bool) (check_release : bool) (r : Generic_Mem_Region) (l : regions) : Z * regions * bool :=
  if fixed then
    let '(res, l', clean) := release_in_range memory (start_addr r) (region_size r) l in
    if check_release && negb (res =? 0) then (res, l', clean) else (start_addr r, insert_region r l', clean)
  else (start_addr r, insert_region r l, false).

(** [atomic_create_phys_region]: the result of releasing the range is not looked at *)
Definition atomic_create_phys_region (memory memory' : bool) (arch_phys_addr_limit user_addr_max start size access : Z) (fixed : bool) (phys_addr_start : Z) (type : PhysRegionType) (l : regions) : Z * regions * bool :=
  let limit := arch_phys_addr_limit in
  if (negb (limit =? 0) && ((limit <=? phys_addr_start) || (limit <=? u64 (phys_addr_start + size)))) || (u64 (phys_addr_start + size) <? phys_addr_start) then (- ENOTSUP, l, false)
  else
    let spot := find_region_spot user_addr_max start size fixed l in
    if spot <? 0 then (spot, l, false)
    else if negb memory then (- ENOMEM, l, false)
    else place_region memory' fixed false (Region spot size access (Phys_Mapped_Region phys_addr_start type)) l.

(** [atomic_create_mem_object_region]; [dma]: of the object *)
Definition atomic_create_mem_object_region (memory memory' : bool) (user_addr_max start size access : Z) (fixed : bool) (object : Z) (dma cow : bool) (start_offset_bytes object_offset_bytes object_size_bytes : Z) (l : regions) : Z * regions * bool :=
  if cow && dma then (- EINVAL, l, false)
  else
    let spot := find_region_spot user_addr_max start size fixed l in
    if spot <? 0 then (spot, l, false)
    else if negb cow && negb (start_offset_bytes =? 0) then (- EINVAL, l, false)
    else if negb cow && negb (object_size_bytes =? size) then (- EINVAL, l, false)
    else if negb (Z.land object_offset_bytes 4095 =? Z.land start_offset_bytes 4095) then (- EINVAL, l, false)
    else if negb memory then (- ENOMEM, l, false)
    else place_region memory' fixed true (Region spot size access (Mem_Object_Reference object start_offset_bytes object_offset_bytes object_size_bytes cow)) l.

(** [atomic_create_normal_region], with the new object: its [fixed] argument is not used, the bit
    of [access] is *)
Definition atomic_create_normal_region (memory memory' object_memory : bool) (user_addr_max start size access : Z) (dma cow : bool) (object : Z) (l : regions) : Z * regions * bool :=
  if negb object_memory then (- ENOMEM, l, false)
  else atomic_create_mem_object_region memory memory' user_addr_max start size (Z.land access 7) (negb (Z.land access 8 =? 0)) object dma cow 0 0 size l.

(** [Phys_Mapped_Region::clone_to] and the copy of [Mem_Object_Reference::clone_to] *)
Definition clone_region (r : Generic_Mem_Region) (base_addr new_access : Z) (l : regions) : regions := insert_region (Region base_addr (region_size r) new_access (kind r)) l.

(** [move_to], when the pages have been moved.  [Generic_Mem_Region::move_to], of physical memory:
    the region is put in the other tree by its old start, and only then gets the new one;
    [Mem_Object_Reference::move_to] makes a copy and deletes the region *)
Definition move_region (i : nat) (base_addr new_access : Z) (l to : regions) : regions * regions :=
  match l !! i with
  | None => (l, to)
  | Some r =>
      match kind r with
      | Phys_Mapped_Region _ _ => (delete i l, <[count_upto (start_addr r) to := Region base_addr (region_size r) new_access (kind r)]> (insert_region r to))
      | Mem_Object_Reference _ _ _ _ _ => (delete i l, clone_region r base_addr new_access to)
      end
  end.

(** [atomic_transfer_region]: the region that starts at [region_orig] moves to another address
    space; [moved] is the result of moving its pages *)
Definition atomic_transfer_region (user_addr_max region_orig prefered_to access : Z) (fixed : bool) (moved : Z) (l to : regions) : Z * regions * regions :=
  match list_find (fun x => start_addr x = region_orig) l with
  | None => (- ENOENT, l, to)
  | Some (i, reg) =>
      let prefered_to := if Z.land prefered_to 4095 =? 0 then prefered_to else 0 in
      let spot := find_region_spot user_addr_max prefered_to (region_size reg) fixed to in
      if spot <? 0 then (spot, l, to)
      else if negb (moved =? 0) then (moved, l, to)
      else let '(l, to) := move_region i spot access l to in (spot, l, to)
  end.
