(* ===== verification/RegionsSpec.v ===== *)
(** * What the regions of an address space stand for

    Each address of a process is backed by physical memory, by a byte of a memory object, by
    zeroes, or by nothing.  The operations on regions change this for the range they are asked
    to and for no other address. *)

From stdpp Require Import base numbers list gmap.
From Stdlib Require Import ZArith Lia Sorted.
From S2P Require Import Prelude Regions.
Open Scope Z_scope.

(** ** Backing *)

Inductive backing :=
  | Physical (p : Z) (type : PhysRegionType)
  | FromObject (object offset : Z)
  | Zeroes (object : Z).

Definition shows (r : Generic_Mem_Region) (a : Z) : backing :=
  let x := a - start_addr r in
  match kind r with
  | Phys_Mapped_Region p type => Physical (p + x) type
  | Mem_Object_Reference o so oo os _ => if decide (so <= x < so + os) then FromObject o (oo + (x - so)) else Zeroes o
  end.

Definition is_cow (r : Generic_Mem_Region) : bool := match kind r with Phys_Mapped_Region _ _ => false | Mem_Object_Reference _ _ _ _ cow => cow end.

Record seen := Seen { seen_access : Z; seen_cow : bool; seen_backing : backing }.
Definition see (r : Generic_Mem_Region) (a : Z) : seen := Seen (access_type r) (is_cow r) (shows r a).

(** What an address stands for: the region it is in *)
Fixpoint look (l : regions) (a : Z) : option seen :=
  match l with [] => None | r :: l => if is_in_range r a then Some (see r a) else look l a end.

(** ** Well-formed regions *)

Definition kind_ok (r : Generic_Mem_Region) : Prop :=
  match kind r with
  | Phys_Mapped_Region p _ => 0 <= p /\ p + region_size r < 2 ^ 64
  | Mem_Object_Reference _ so oo os cow => 0 <= so < 4096 /\ 0 <= oo /\ 0 <= os /\ oo mod 4096 = so /\ oo + os + region_size r < 2 ^ 63 /\ (cow = false -> so = 0 /\ os = region_size r)
  end.

Definition region_ok (r : Generic_Mem_Region) : Prop :=
  0 <= start_addr r /\ 0 < region_size r /\ start_addr r mod 4096 = 0 /\ region_size r mod 4096 = 0 /\ addr_end r < 2 ^ 62 /\ kind_ok r.

Definition follows (r r' : Generic_Mem_Region) : Prop := addr_end r <= start_addr r'.

(** Regions in order that do not overlap *)
Definition regions_ok (l : regions) : Prop := Forall region_ok l /\ StronglySorted follows l.

Lemma u64_small x : 0 <= x < 2 ^ 64 -> u64 x = x.
Proof. apply Z.mod_small. Qed.

(** ** Trimming *)

Definition part (r : Generic_Mem_Region) (new_start new_size : Z) : Prop :=
  start_addr r <= new_start /\ 0 < new_size /\ new_start + new_size <= addr_end r /\ new_start mod 4096 = 0 /\ new_size mod 4096 = 0.

Lemma reference_trim_ok o so oo os cow start size access new_start new_size :
  let r := Region start size access (Mem_Object_Reference o so oo os cow) in region_ok r -> part r new_start new_size ->
  exists so' oo' os', reference_trim so oo os start new_start new_size = (so', oo', os') /\
    let r' := Region new_start new_size access (Mem_Object_Reference o so' oo' os' cow) in kind_ok r' /\ forall a, new_start <= a < new_start + new_size -> shows r' a = shows r a.
Proof.
  intros r (H0 & H1 & H2 & H3 & H4 & (Hso & Hoo & Hos & Hal & Hsum & Hcow)) (P1 & P2 & P3 & P4 & P5). cbn [start_addr region_size addr_end r] in *. unfold reference_trim. unfold addr_end in *. cbn [start_addr region_size r] in H4, P3.
  assert (Hns : 4096 <= new_size) by (pose proof (Z.div_mod new_size 4096); lia). destruct (Z.eqb_spec new_start start) as [->|Hne].
  - rewrite (u64_small (so + os)) by lia. eexists _, _, _. split; [done|]. destruct (Z.ltb_spec new_size (so + os)).
    + rewrite u64_small by lia. split; [unfold kind_ok; cbn; split_and!; try lia; naive_solver lia|]. intros a Ha. unfold shows. cbn. repeat case_decide; try done; exfalso; lia.
    + split; [unfold kind_ok; cbn; split_and!; try lia; naive_solver lia|done].
  - assert (Hd : 4096 <= new_start - start) by (pose proof (Z.div_mod new_start 4096); pose proof (Z.div_mod start 4096); lia). rewrite (proj2 (Z.leb_gt (new_start - start) so)) by lia.
    change 4095 with (Z.ones 12). rewrite Z.land_ones by lia. change (2 ^ 12) with 4096. rewrite (Z.mod_small so) by lia. rewrite Z.sub_diag. rewrite (proj2 (Z.ltb_lt 0 (new_start - start))) by lia.
    assert (so <= oo) by (pose proof (Z.div_mod oo 4096); pose proof (Z.div_pos oo 4096); lia). rewrite (u64_small (oo - so)), (u64_small (os + so)), (u64_small (oo - so + (new_start - start))) by lia.
    set (os1 := if os + so <? new_start - start then 0 else os + so - (new_start - start)). assert (Hos1 : 0 <= os1 <= os + so /\ (os1 = os + so - (new_start - start) \/ os1 = 0 /\ os + so < new_start - start)) by (unfold os1; destruct (Z.ltb_spec (os + so) (new_start - start)); lia).
    rewrite (u64_small (0 + os1)) by lia. eexists _, _, _. split; [done|]. assert (Hm : (oo - so + (new_start - start)) mod 4096 = 0).
    { replace (oo - so + (new_start - start)) with ((oo / 4096 + new_start / 4096 - start / 4096) * 4096); [apply Z.mod_mul; lia|]. pose proof (Z.div_mod oo 4096). pose proof (Z.div_mod new_start 4096). pose proof (Z.div_mod start 4096). lia. }
    destruct (Z.ltb_spec new_size (0 + os1)).
    + rewrite u64_small by lia. split; [unfold kind_ok; cbn; split_and!; try lia; naive_solver lia|]. intros a Ha. unfold shows. cbn. repeat case_decide; try (exfalso; lia); try done; f_equal; lia.
    + split; [unfold kind_ok; cbn; split_and!; try lia; intros Hc; destruct (Hcow Hc); lia|]. intros a Ha. unfold shows. cbn. repeat case_decide; try (exfalso; lia); try done; f_equal; lia.
Qed.

(** [trim] gives the part that is asked for, when the start stays or the memory is physical *)
Definition is_reference (r : Generic_Mem_Region) : bool := match kind r with Phys_Mapped_Region _ _ => false | Mem_Object_Reference _ _ _ _ _ => true end.

Lemma trim_ok r new_start new_size : region_ok r -> part r new_start new_size -> (is_reference r = true -> new_start = start_addr r) ->
  let r' := trim r new_start new_size in region_ok r' /\ start_addr r' = new_start /\ region_size r' = new_size /\ forall a, is_in_range r' a = true -> see r' a = see r a.
Proof.
  intros Hr Hp Href r'. destruct r as [start size access k]. pose proof Hr as (H0 & H1 & H2 & H3 & H4 & Hk). pose proof Hp as (P1 & P2 & P3 & P4 & P5). unfold addr_end in *. cbn in *.
  assert (Hend : new_start + new_size < 2 ^ 62) by lia. unfold r', trim, region_ok, addr_end, is_in_range, see, is_cow. cbn. destruct k as [p type|o so oo os cow].
  - cbn in Hk. unfold phys_trim. rewrite u64_small by lia. cbn. split_and!; try done; try lia. intros a _. unfold shows. cbn. do 2 f_equal. lia.
  - specialize (Href eq_refl). subst new_start. destruct (reference_trim_ok o so oo os cow start size access start new_size Hr Hp) as (so' & oo' & os' & E & Hk' & Hs). rewrite E. cbn [start_addr region_size access_type kind].
    split; [split_and!; [lia|lia|done|done|lia|exact Hk']|]. split_and!; [done|done|]. intros a Ha%andb_true_iff. rewrite Z.leb_le, Z.ltb_lt in Ha. by rewrite Hs by lia.
Qed.

Lemma punch_hole_ok r hs hz : region_ok r -> is_reference r = false -> start_addr r < hs -> 0 < hz -> hs + hz < addr_end r -> hs mod 4096 = 0 -> hz mod 4096 = 0 ->
  let '(r1, r2) := punch_hole r hs hz in region_ok r1 /\ region_ok r2 /\ start_addr r1 = start_addr r /\ addr_end r1 = hs /\ start_addr r2 = hs + hz /\ addr_end r2 = addr_end r /\
    (forall a, is_in_range r1 a = true -> see r1 a = see r a) /\ (forall a, is_in_range r2 a = true -> see r2 a = see r a).
Proof.
  intros Hr Hph H1 H2 H3 Hm1 Hm2. pose proof Hr as (R0 & R1 & R2 & R3 & R4 & Rk). unfold addr_end in *.
  assert (Hp1 : part r (start_addr r) (hs - start_addr r)) by (unfold part, addr_end; split_and!; try lia; rewrite Zminus_mod, Hm1, R2; done).
  assert (Hp2 : part r (hs + hz) (region_size r - (hs + hz - start_addr r))).
  { unfold part, addr_end. split_and!; try lia; [rewrite Z.add_mod, Hm1, Hm2 by lia; done|]. rewrite Zminus_mod, R3, (Zminus_mod (hs + hz)), R2, Z.add_mod, Hm1, Hm2 by lia. done. }
  destruct (trim_ok r _ _ Hr Hp1) as (T1 & T2 & T3 & T4); [congruence|]. destruct (trim_ok r _ _ Hr Hp2) as (U1 & U2 & U3 & U4); [congruence|]. unfold punch_hole. unfold is_reference in Hph. destruct (kind r) as [p type|o so oo os cow] eqn:Ek; [|done].
  assert (E1 : Region (start_addr r) (hs - start_addr r) (access_type r) (Phys_Mapped_Region p type) = trim r (start_addr r) (hs - start_addr r)).
  { unfold trim, phys_trim. rewrite Ek, Z.sub_diag, Z.add_0_r. unfold kind_ok in Rk. rewrite Ek in Rk. by rewrite u64_small by lia. }
  assert (E2 : Region (hs + hz) (region_size r - (hs + hz - start_addr r)) (access_type r) (Phys_Mapped_Region (u64 (p + (hs + hz - start_addr r))) type) = trim r (hs + hz) (region_size r - (hs + hz - start_addr r))) by (unfold trim, phys_trim; by rewrite Ek).
  rewrite E1, E2. unfold addr_end. rewrite T2, T3, U2, U3. split_and!; try done; lia.
Qed.

(** ** Lists of regions *)

Lemma look_app l1 l2 a : look (l1 ++ l2) a = match look l1 a with Some v => Some v | None => look l2 a end.
Proof. induction l1 as [|r l1 IH]; cbn; [done|]. by destruct (is_in_range r a). Qed.

Lemma look_outside l a : Forall (fun r => is_in_range r a = false) l -> look l a = None.
Proof. induction 1 as [|r l Hr _ IH]; [done|]. cbn. by rewrite Hr. Qed.

Lemma in_range_iff r a : is_in_range r a = true <-> start_addr r <= a < addr_end r.
Proof. unfold is_in_range, addr_end. rewrite andb_true_iff, Z.leb_le, Z.ltb_lt. done. Qed.
Lemma in_range_false r a : is_in_range r a = false <-> a < start_addr r \/ addr_end r <= a.
Proof. destruct (is_in_range r a) eqn:E; [apply in_range_iff in E|]; [naive_solver lia|]. split; [|done]. intros _. assert (~ (start_addr r <= a < addr_end r)) by (rewrite <- in_range_iff; congruence). lia. Qed.

Lemma ok_app l1 l2 : regions_ok (l1 ++ l2) <-> regions_ok l1 /\ regions_ok l2 /\ forall r r', r ∈ l1 -> r' ∈ l2 -> follows r r'.
Proof.
  unfold regions_ok. rewrite Forall_app. induction l1 as [|x l1 IH]; cbn.
  { split; [intros [[_ ?] ?]; split; [split; constructor|]; split; [done|]; by intros ? ? ?%elem_of_nil|intros (_ & [? ?] & _); split; [split; [constructor|done]|done]]. }
  split.
  - intros [[H1 H2] H3]. apply Forall_cons in H1 as [H1 H1']. apply StronglySorted_inv in H3 as [H3 H4]. apply Forall_app in H4 as [H4 H5]. destruct (proj1 IH) as ([I1 I2] & [I3 I3'] & I4); [by split_and!|]. split_and!; [by constructor|by constructor|done..|].
    intros r r' [->|Hr]%elem_of_cons Hr'; [rewrite Forall_forall in H5; by apply H5|by apply I4].
  - intros ([H1 H2] & [H3 H4] & H5). apply Forall_cons in H1 as [H1 H1']. apply StronglySorted_inv in H2 as [H2 H2']. destruct (proj2 IH) as [[I1 I2] I3]; [split_and!; try done; intros r r' Hr; apply H5; by right|].
    split_and!; [by constructor|done|]. constructor; [done|]. apply Forall_app. split; [done|]. apply Forall_forall. intros r' Hr'. apply H5; [by left|done].
Qed.

(** One region is replaced by parts of it *)
Lemma replace_ok l1 r l2 mid : regions_ok (l1 ++ r :: l2) -> regions_ok mid -> Forall (fun x => start_addr r <= start_addr x /\ addr_end x <= addr_end r) mid ->
  regions_ok (l1 ++ mid ++ l2) /\ forall a, look (l1 ++ mid ++ l2) a = if is_in_range r a then look mid a else look (l1 ++ r :: l2) a.
Proof.
  intros Hok Hmid Hin. rewrite Forall_forall in Hin. apply ok_app in Hok as (H1 & H2 & H3). apply (ok_app [r]) in H2 as (Hr & H4 & H5). unfold follows in *. split.
  - apply ok_app. split_and!; [done|apply ok_app; split_and!; [done..|]|].
    + intros x y Hx Hy. destruct (Hin x Hx). specialize (H5 r y ltac:(by left) Hy). unfold follows. lia.
    + intros x y Hx [Hy|Hy]%elem_of_app; [destruct (Hin y Hy); specialize (H3 x r Hx ltac:(by left)); unfold follows; lia|]. apply H3; [done|by right].
  - intros a. rewrite !look_app. cbn. destruct (is_in_range r a) eqn:Er.
    + apply in_range_iff in Er. rewrite (look_outside l1), (look_outside l2); [by destruct (look mid a)| |]; apply Forall_forall; intros x Hx; apply in_range_false; [left|right].
      * specialize (H5 r x ltac:(by left) Hx). lia.
      * specialize (H3 x r Hx ltac:(by left)). lia.
    + rewrite (look_outside mid); [done|]. apply Forall_forall. intros x Hx. apply in_range_false. apply in_range_false in Er. destruct (Hin x Hx). lia.
Qed.

(** ** Finding a region *)

Lemma filter_cut (P : Generic_Mem_Region -> Prop) `{forall x, Decision (P x)} l1 l2 : Forall P l1 -> Forall (fun x => ~ P x) l2 -> filter P (l1 ++ l2) = l1.
Proof.
  intros H1 H2. rewrite filter_app. replace (filter P l2) with (@nil Generic_Mem_Region); [rewrite app_nil_r; induction H1; cbn; [done|]; by rewrite decide_True by done; f_equal|].
  clear H1. induction H2; cbn; [done|]. by rewrite decide_False.
Qed.
Lemma filter_cut' (P : Generic_Mem_Region -> Prop) `{forall x, Decision (P x)} l1 l2 : Forall (fun x => ~ P x) l1 -> Forall P l2 -> filter P (l1 ++ l2) = l2.
Proof. intros H1 H2. rewrite filter_app, <- (app_nil_r l2), filter_cut by (done || constructor). rewrite app_nil_r. induction H1; cbn; [done|]. by rewrite decide_False. Qed.

(** The regions that start at or before an address come first *)
Lemma cut_upto addr l : regions_ok l -> exists l1 l2, l = l1 ++ l2 /\ Forall (fun x => start_addr x <= addr) l1 /\ Forall (fun x => addr < start_addr x) l2.
Proof.
  intros [Hok Hs]. induction Hs as [|r l Hs IH Hf]; [by exists [], []|]. apply Forall_cons in Hok as [Hr Hok]. destruct (Z_le_gt_dec (start_addr r) addr) as [Hle|Hgt].
  - destruct IH as (l1 & l2 & -> & H1 & H2); [done|]. exists (r :: l1), l2. split_and!; [done|by constructor|done].
  - exists [], (r :: l). split_and!; [done|constructor|]. constructor; [lia|]. rewrite !Forall_forall in *. intros x Hx. specialize (Hf x Hx). destruct Hr as (_ & ? & _). unfold follows, addr_end in *. lia.
Qed.

Lemma count_upto_cut addr l1 l2 : Forall (fun x => start_addr x <= addr) l1 -> Forall (fun x => addr < start_addr x) l2 -> count_upto addr (l1 ++ l2) = length l1.
Proof. intros H1 H2. unfold count_upto. rewrite filter_cut; [done..|]. eapply Forall_impl; [done|]. cbn. lia. Qed.

Lemma insert_region_cut r l1 l2 : Forall (fun x => start_addr x <= start_addr r) l1 -> Forall (fun x => start_addr r < start_addr x) l2 -> insert_region r (l1 ++ l2) = l1 ++ r :: l2.
Proof. intros H1 H2. unfold insert_region. rewrite filter_cut, filter_cut'; [done|..|done|]; try done; eapply Forall_impl; [done| |done|]; cbn; lia. Qed.

(** What [get_smaller_or_equal] finds is the last region that starts at or before the address *)
Lemma smaller_or_equal addr l : regions_ok l ->
  (get_smaller_or_equal addr l = None /\ Forall (fun x => addr < start_addr x) l) \/
  (exists l1 r l2, l = l1 ++ r :: l2 /\ get_smaller_or_equal addr l = Some (length l1) /\ start_addr r <= addr /\ Forall (fun x => start_addr x <= addr) l1 /\ Forall (fun x => addr < start_addr x) l2).
Proof.
  intros Hok. destruct (cut_upto addr l Hok) as (l1 & l2 & -> & H1 & H2). unfold get_smaller_or_equal. rewrite count_upto_cut by done. destruct l1 as [|r l1 _] using rev_ind; [by left|]. right.
  apply Forall_app in H1 as [H1 Hr]. apply Forall_cons in Hr as [Hr _]. exists l1, r, l2. rewrite <- app_assoc, length_app. cbn [length]. rewrite Nat.add_1_r. by split_and!.
Qed.

(** ** Releasing a range *)

(** What one region becomes when a range is released *)
Definition cut_region (start size : Z) (r : Generic_Mem_Region) : regions :=
  let end_ := start + size in
  if is_in_range r start then
    if start_addr r <? start then
      if end_ <? addr_end r then let '(r1, r2) := punch_hole r start size in [r1; r2] else [trim r (start_addr r) (start - start_addr r)]
    else if end_ <? addr_end r then [trim r end_ (addr_end r - end_)] else []
  else [r].

(** A region can be cut by a range: it does not start strictly inside, and a reference to a
    memory object does not go on after the end of the range *)
Definition clean_cut (start size : Z) (r : Generic_Mem_Region) : Prop :=
  ~ (start < start_addr r < start + size) /\ (is_reference r = true -> start_addr r <= start < addr_end r -> addr_end r <= start + size).

Lemma singleton_ok r : region_ok r -> regions_ok [r].
Proof. intros ?. split; [by apply Forall_singleton|repeat constructor]. Qed.

Lemma look_one r x a : (is_in_range x a = true -> see x a = see r a) -> look [x] a = if is_in_range x a then Some (see r a) else None.
Proof. intros H. cbn. destruct (is_in_range x a) eqn:E; [by rewrite H|done]. Qed.

Ltac ranges := repeat match goal with |- context [is_in_range ?r ?a] => let E := fresh "E" in destruct (is_in_range r a) eqn:E; [apply in_range_iff in E|apply in_range_false in E] end.

Lemma cut_region_ok start size r : region_ok r -> start mod 4096 = 0 -> size mod 4096 = 0 -> 0 < size -> clean_cut start size r ->
  regions_ok (cut_region start size r) /\ Forall (fun x => start_addr r <= start_addr x /\ addr_end x <= addr_end r) (cut_region start size r) /\
  forall a, is_in_range r a = true -> look (cut_region start size r) a = if decide (start <= a < start + size) then None else Some (see r a).
Proof.
  intros Hr Hm1 Hm2 Hs [Hno Href]. pose proof Hr as (R0 & R1 & R2 & R3 & R4 & Rk). unfold cut_region. assert (Hend : (start + size) mod 4096 = 0) by (rewrite Z.add_mod, Hm1, Hm2 by lia; done). unfold addr_end in R4.
  destruct (is_in_range r start) eqn:Ein; [apply in_range_iff in Ein|apply in_range_false in Ein].
  2: { split_and!; [by apply singleton_ok|apply Forall_singleton; lia|]. intros a Ha. cbn. rewrite Ha. apply in_range_iff in Ha. by rewrite decide_False by lia. }
  destruct (Z.ltb_spec (start_addr r) start) as [H1|H1]; destruct (Z.ltb_spec (start + size) (addr_end r)) as [H2|H2].
  - assert (Hph : is_reference r = false) by (destruct (is_reference r); [specialize (Href eq_refl); lia|done]). pose proof (punch_hole_ok r start size Hr Hph H1 Hs H2 Hm1 Hm2) as Hp. destruct (punch_hole r start size) as [r1 r2]. destruct Hp as (O1 & O2 & P1 & P2 & P3 & P4 & S1 & S2). split_and!.
    + apply (ok_app [r1] [r2]). split_and!; [by apply singleton_ok..|]. intros x y ->%list_elem_of_singleton ->%list_elem_of_singleton. unfold follows. lia.
    + repeat constructor; lia.
    + intros a Ha%in_range_iff. rewrite (look_app [r1] [r2]), (look_one r), (look_one r) by auto. ranges; case_decide; try done; lia.
  - assert (Hp : part r (start_addr r) (start - start_addr r)) by (unfold part; split_and!; try lia; rewrite Zminus_mod, Hm1, R2; done). destruct (trim_ok r _ _ Hr Hp) as (T1 & T2 & T3 & T4); [done|].
    split_and!; [by apply singleton_ok|apply Forall_singleton; unfold addr_end in *; lia|]. intros a Ha%in_range_iff. rewrite (look_one r) by auto. ranges; unfold addr_end in *; rewrite T2, T3 in *; case_decide; try done; lia.
  - assert (Hp : part r (start + size) (addr_end r - (start + size))).
    { unfold part. split_and!; try lia; try done. unfold addr_end. rewrite Zminus_mod, Hend, Z.add_mod, R2, R3 by lia. done. }
    destruct (trim_ok r _ _ Hr Hp) as (T1 & T2 & T3 & T4); [intros Hre; specialize (Href Hre); lia|].
    split_and!; [by apply singleton_ok|apply Forall_singleton; unfold addr_end in *; lia|]. intros a Ha%in_range_iff. rewrite (look_one r) by auto. ranges; unfold addr_end in *; rewrite T2, T3 in *; case_decide; try done; lia.
  - split_and!; [split; constructor|constructor|]. intros a Ha%in_range_iff. cbn. case_decide; [done|lia].
Qed.

Lemma release_loop_far start end_ l : Forall (fun x => end_ <= start_addr x) l -> release_loop start end_ l = (l, false).
Proof. destruct 1 as [|r l Hr _]; [done|]. cbn. by rewrite (proj2 (Z.ltb_ge _ _)). Qed.

Lemma release_loop_cut start size r l : 0 < size -> start_addr r <= start -> Forall (fun x => start + size <= start_addr x) l -> (start_addr r <? start) && (start + size <? addr_end r) = false ->
  release_loop start (start + size) (r :: l) = (cut_region start size r ++ l, is_in_range r start).
Proof.
  intros Hs Hr Hl Hno. cbn. rewrite (proj2 (Z.ltb_lt (start_addr r) (start + size))) by lia. rewrite release_loop_far by done. unfold cut_region. destruct (is_in_range r start); [|done]. cbn [negb].
  destruct (start_addr r <? start); [cbn in Hno; by rewrite Hno|]. by destruct (start + size <? addr_end r).
Qed.

Lemma clean_cut_far start size l : Forall (clean_cut start size) l -> Forall (fun x => start < start_addr x) l -> Forall (fun x => start + size <= start_addr x) l.
Proof. rewrite !Forall_forall. intros H1 H2 x Hx. destruct (H1 x Hx) as [H3 _]. specialize (H2 x Hx). lia. Qed.

Lemma look_none l a : look l a = None -> Forall (fun r => is_in_range r a = false) l.
Proof. induction l as [|r l IH]; cbn; [constructor|]. destruct (is_in_range r a) eqn:E; [done|]. intros ?. constructor; auto. Qed.

Lemma look_far start size l a : Forall (fun x => start + size <= start_addr x) l -> a < start + size -> look l a = None.
Proof. intros H Ha. apply look_outside. eapply Forall_impl; [done|]. cbn. intros x Hx. apply in_range_false. lia. Qed.

(** How [release_in_range] changes the list: at most one region, the one with the start *)
Lemma release_shape memory start size l : regions_ok l -> 0 < size -> Forall (clean_cut start size) l ->
  (Forall (fun x => start + size <= start_addr x) l /\ release_in_range memory start size l = (0, l, false)) \/
  (exists l1 r l2, l = l1 ++ r :: l2 /\ start_addr r <= start /\ Forall (fun x => start + size <= start_addr x) l2 /\
     (release_in_range memory start size l = (0, l1 ++ cut_region start size r ++ l2, is_in_range r start) \/ (memory = false /\ release_in_range memory start size l = (- ENOMEM, l, false)))).
Proof.
  intros Hok Hs Hno. destruct (smaller_or_equal start l Hok) as [[E H]|(l1 & r & l2 & -> & E & Hr & H1 & H2)]; unfold release_in_range; rewrite E.
  - left. apply (clean_cut_far start size) in H; [|done]. split; [done|]. cbn. by rewrite release_loop_far.
  - right. exists l1, r, l2. apply Forall_app in Hno as [Hno1 Hno2]. apply Forall_cons in Hno2 as [_ Hno2]. pose proof (clean_cut_far _ _ _ Hno2 H2) as Hfar. split_and!; try done. cbn [mbind option_bind]. rewrite list_lookup_middle by done.
    destruct ((start_addr r <? start) && (start + size <? addr_end r)) eqn:Esp.
    + destruct memory; [|by right]. left. apply andb_true_iff in Esp as [Ea%Z.ltb_lt Eb%Z.ltb_lt]. unfold cut_region. rewrite (proj2 (in_range_iff r start)) by lia. rewrite (proj2 (Z.ltb_lt _ _) Ea), (proj2 (Z.ltb_lt _ _) Eb).
      assert (Hp : start_addr r <= start_addr (punch_hole r start size).2 < addr_end r).
      { unfold punch_hole, trim. destruct (kind r); cbn; [lia|]. destruct (reference_trim _ _ _ _ _ _) as [[? ?] ?]. cbn. lia. }
      destruct (punch_hole r start size) as [r1 r2]. cbn in Hp. cbn [from_option id]. f_equal. f_equal.
      change (r :: l2) with ([r] ++ l2). rewrite (app_assoc l1). rewrite insert_region_cut.
      * rewrite <- app_assoc. cbn [app]. rewrite insert_app_r_alt, Nat.sub_diag by done. done.
      * apply Forall_app. split; [|apply Forall_singleton; lia]. apply ok_app in Hok as ([Hpos _] & _ & Hf). rewrite Forall_forall in *. intros x Hx. specialize (Hf x r Hx ltac:(by left)). destruct (Hpos x Hx) as (_ & ? & _). unfold follows, addr_end in Hf. lia.
      * apply ok_app in Hok as (_ & Hok & _). apply (ok_app [r]) in Hok as (_ & _ & Hf). apply Forall_forall. intros x Hx. specialize (Hf r x ltac:(by left) Hx). unfold follows in Hf. lia.
    + left. cbn [from_option id]. rewrite drop_app_length, take_app_length. by rewrite release_loop_cut by done.
Qed.

Lemma release_outcome memory start size l : regions_ok l -> start mod 4096 = 0 -> size mod 4096 = 0 -> 0 < size -> Forall (clean_cut start size) l ->
  let '(res, l', clean) := release_in_range memory start size l in
  (res = 0 /\ regions_ok l' /\ (forall a, look l' a = if decide (start <= a < start + size) then None else look l a) /\ (clean = false -> forall a, start <= a < start + size -> look l a = None)) \/
  (res = - ENOMEM /\ memory = false /\ l' = l).
Proof.
  intros Hok Hm1 Hm2 Hs Hno. destruct (release_shape memory start size l Hok Hs Hno) as [[Hfar ->]|(l1 & r & l2 & -> & Hr & Hfar & [->|[-> ->]])]; [left|left|by right].
  - split_and!; [done..| |]; [intros a; case_decide; [|done]; eapply look_far; [done|lia]|]. intros _ a Ha. eapply look_far; [done|lia].
  - apply Forall_app in Hno as [_ [Hno _]%Forall_cons]. pose proof Hok as [[_ [Hrok _]%Forall_cons]%Forall_app _]. destruct (cut_region_ok start size r Hrok Hm1 Hm2 Hs Hno) as (C1 & C2 & C3).
    destruct (replace_ok l1 r l2 _ Hok C1 C2) as [D1 D2]. assert (Hl1 : forall a, start <= a -> look l1 a = None).
    { intros a Ha. apply look_outside, Forall_forall. intros x Hx. apply in_range_false. apply ok_app in Hok as (_ & _ & Hf). specialize (Hf x r Hx ltac:(by left)). unfold follows in Hf. lia. }
    assert (Hout : forall a, start <= a < start + size -> is_in_range r a = false -> look (l1 ++ r :: l2) a = None).
    { intros a Ha Ea. rewrite look_app, Hl1 by lia. cbn. rewrite Ea. eapply look_far; [done|lia]. }
    split_and!; [done..| |].
    + intros a. rewrite D2. destruct (is_in_range r a) eqn:Ea; [|case_decide; [by apply Hout|done]]. rewrite C3 by done. case_decide; [done|]. rewrite look_app. cbn. rewrite Ea. rewrite look_outside; [done|].
      apply in_range_iff in Ea. apply Forall_forall. intros x Hx. apply in_range_false. apply ok_app in Hok as (_ & _ & Hf). specialize (Hf x r Hx ltac:(by left)). unfold follows in Hf. lia.
    + intros Ec a Ha. apply Hout; [done|]. apply in_range_false in Ec. apply in_range_false. lia.
Qed.


(** ** Inserting *)

Definition free_range (l : regions) (start size : Z) : Prop := Forall (fun r => addr_end r <= start \/ start + size <= start_addr r) l.

Lemma insert_region_ok r l : regions_ok l -> region_ok r -> free_range l (start_addr r) (region_size r) ->
  regions_ok (insert_region r l) /\ forall a, look (insert_region r l) a = if is_in_range r a then Some (see r a) else look l a.
Proof.
  intros Hok Hr Hfree. destruct (cut_upto (start_addr r) l Hok) as (l1 & l2 & -> & H1 & H2). rewrite insert_region_cut by done. pose proof Hr as (_ & Hpos & _).
  apply Forall_app in Hfree as [F1 F2]. pose proof Hok as Hok'. apply ok_app in Hok' as (O1 & O2 & O3). pose proof (proj1 O1) as P1.
  rewrite Forall_forall in F1, F2, H1, H2, P1. assert (B1 : forall x, x ∈ l1 -> addr_end x <= start_addr r).
  { intros x Hx. destruct (F1 x Hx); [done|]. specialize (H1 x Hx). destruct (P1 x Hx) as (_ & ? & _). unfold addr_end in *. lia. }
  assert (B2 : forall x, x ∈ l2 -> addr_end r <= start_addr x).
  { intros x Hx. specialize (H2 x Hx). pose proof (proj1 O2) as P2. rewrite Forall_forall in P2. destruct (P2 x Hx) as (_ & ? & _). destruct (F2 x Hx); unfold addr_end in *; lia. }
  split.
  - apply ok_app. split_and!; [done|apply (ok_app [r]); split_and!; [by apply singleton_ok|done|]|].
    + intros x y ->%list_elem_of_singleton Hy. by apply B2.
    + intros x y Hx [->|Hy]%elem_of_cons; [by apply B1|by apply O3].
  - intros a. rewrite !look_app. cbn. destruct (is_in_range r a) eqn:Ea; [|done]. apply in_range_iff in Ea. rewrite look_outside; [done|]. apply Forall_forall. intros x Hx. apply in_range_false. specialize (B1 x Hx). lia.
Qed.

Lemma look_free l start size : regions_ok l -> 0 < size -> (forall a, start <= a < start + size -> look l a = None) -> free_range l start size.
Proof.
  intros [Hpos _] Hs Hl. rewrite Forall_forall in Hpos. apply Forall_forall. intros x Hx. destruct (Hpos x Hx) as (_ & Hxs & _). assert (Hn : forall a, start <= a < start + size -> a < start_addr x \/ addr_end x <= a).
  { intros a Ha. apply in_range_false. pose proof (look_none l a (Hl a Ha)) as H. rewrite Forall_forall in H. by apply H. }
  unfold addr_end in *. destruct (Z_le_gt_dec (start + size) (start_addr x)) as [?|Hgt]; [by right|]. left. pose proof (Hn start ltac:(lia)). destruct (Z_le_gt_dec start (start_addr x)); [pose proof (Hn (start_addr x)); lia|lia].
Qed.

Lemma free_look l start size a : free_range l start size -> start <= a < start + size -> look l a = None.
Proof. intros H Ha. apply look_outside. eapply Forall_impl; [exact H|]. cbn. intros x Hx. apply in_range_false. lia. Qed.

(** ** Finding a spot *)

Lemma find_gap_ok user_addr_max size addr l : regions_ok l -> Forall (fun x => addr <= addr_end x) l -> 0 <= addr < 2 ^ 62 -> 0 < size < 2 ^ 62 -> addr mod 4096 = 0 ->
  let x := find_gap user_addr_max size addr l in
  (addr <= x < 2 ^ 62 /\ x mod 4096 = 0 /\ x + size <= user_addr_max /\ free_range l x size) \/
  (x = - ENOMEM /\ forall s, addr <= s -> s + size <= user_addr_max -> ~ free_range l s (size + 1)).
Proof.
  intros Hok. revert addr. induction l as [|it l IH]; intros addr Hle Ha Hs Hm; cbn; rewrite u64_small by lia.
  - destruct (Z.ltb_spec user_addr_max (addr + size)); [right|left]; [split; [done|lia]|split_and!; try done; try lia; constructor].
  - apply (ok_app [it]) in Hok as (Hit & Hok & Hf). apply Forall_cons in Hle as [Hle1 Hle2]. pose proof (proj1 Hit) as Hp. apply Forall_cons in Hp as [(P0 & P1 & P2 & P3 & P4 & _) _].
    assert (Hnext : Forall (fun x => addr_end it <= addr_end x) l).
    { pose proof (proj1 Hok) as Hpos. rewrite Forall_forall in *. intros x Hx. specialize (Hf it x ltac:(by left) Hx). destruct (Hpos x Hx) as (_ & ? & _). unfold follows, addr_end in *. lia. }
    destruct ((addr + size <? start_addr it) && (addr + size <=? user_addr_max)) eqn:E.
    + apply andb_true_iff in E as [E1%Z.ltb_lt E2%Z.leb_le]. left. split_and!; try done; try lia. constructor; [lia|]. apply Forall_forall. intros x Hx. specialize (Hf it x ltac:(by left) Hx). unfold follows, addr_end in *. lia.
    + assert (Hm' : addr_end it mod 4096 = 0) by (unfold addr_end; rewrite Z.add_mod, P2, P3 by lia; done). destruct (IH Hok (addr_end it) Hnext ltac:(unfold addr_end in *; lia) Hs Hm') as [(G1 & G2 & G3 & G4)|[G1 G2]]; [left|right].
      * split_and!; try done; try lia. constructor; [lia|done].
      * split; [done|]. intros s Hs1 Hs2 Hfree. apply Forall_cons in Hfree as [F1 F2]. apply (G2 s); [|done..]. apply andb_false_iff in E. rewrite Z.ltb_ge, Z.leb_gt in E. lia.
Qed.

Lemma count_before_cut addr l1 l2 : Forall (fun x => start_addr x < addr) l1 -> Forall (fun x => addr <= start_addr x) l2 -> count_before addr (l1 ++ l2) = length l1.
Proof. intros H1 H2. unfold count_before. rewrite filter_cut; [done..|]. eapply Forall_impl; [done|]. cbn. lia. Qed.

Lemma lower_bound_none addr end_ l : regions_ok l -> match lower_bound addr l ≫= (fun i => l !! i) with Some it => negb (start_addr it <? end_) | None => true end = true ->
  Forall (fun x => start_addr x < addr \/ end_ <= start_addr x) l.
Proof.
  intros Hok H. destruct (cut_upto (addr - 1) l Hok) as (l1 & l2 & -> & H1 & H2). apply Forall_app. split; [eapply Forall_impl; [done|]; cbn; lia|].
  assert (Ec : count_before addr (l1 ++ l2) = length l1) by (apply count_before_cut; (eapply Forall_impl; [done|]; cbn; lia)).
  unfold lower_bound in H. rewrite Ec in H. destruct l2 as [|y l2]; [constructor|]. rewrite decide_True in H by (rewrite length_app; cbn; lia). cbn [mbind option_bind] in H. rewrite list_lookup_middle in H by done. apply negb_true_iff, Z.ltb_ge in H.
  apply ok_app in Hok as (_ & Hok & _). apply (ok_app [y]) in Hok as ([Hy _] & _ & Hf). apply Forall_cons in Hy as [(_ & Hy & _) _]. constructor; [lia|]. apply Forall_forall. intros x Hx. specialize (Hf y x ltac:(by left) Hx). unfold follows, addr_end in *. lia.
Qed.

Lemma not_in_range_before addr l : regions_ok l -> match get_smaller_or_equal addr l ≫= (fun i => l !! i) with Some it => negb (is_in_range it addr) | None => true end = true ->
  Forall (fun x => addr_end x <= addr \/ addr < start_addr x) l.
Proof.
  intros Hok. destruct (smaller_or_equal addr l Hok) as [[-> H]|(l1 & r & l2 & -> & -> & Hr & H1 & H2)]; [intros _; eapply Forall_impl; [done|]; cbn; lia|].
  cbn [mbind option_bind]. rewrite list_lookup_middle by done. intros Hn%negb_true_iff%in_range_false. apply Forall_app. split; [|constructor; [lia|eapply Forall_impl; [done|]; cbn; lia]].
  apply ok_app in Hok as (_ & Hok & Hf). apply (ok_app [r]) in Hok as ([Hy _] & _). apply Forall_cons in Hy as [(_ & Hy & _) _]. apply Forall_forall. intros x Hx. specialize (Hf x r Hx ltac:(by left)). unfold follows, addr_end in *. lia.
Qed.

(** The two tests of the desired range *)
Lemma desired_free desired_start size l : regions_ok l -> 0 < size ->
  match get_smaller_or_equal desired_start l ≫= (fun i => l !! i) with Some it => negb (is_in_range it desired_start) | None => true end &&
  match lower_bound desired_start l ≫= (fun i => l !! i) with Some it => negb (start_addr it <? desired_start + size) | None => true end = true <-> free_range l desired_start size.
Proof.
  intros Hok Hs. pose proof (proj1 Hok) as Hpos. split.
  - intros [H1 H2]%andb_true_iff. apply not_in_range_before in H1; [|done]. apply lower_bound_none in H2; [|done]. unfold free_range in *. rewrite Forall_forall in *. intros x Hx. specialize (H1 x Hx). specialize (H2 x Hx). destruct (Hpos x Hx) as (_ & ? & _). unfold addr_end in *. lia.
  - intros Hf. unfold free_range in Hf. rewrite Forall_forall in Hf, Hpos. apply andb_true_iff. split.
    + destruct (get_smaller_or_equal desired_start l ≫= (fun i => l !! i)) as [it|] eqn:E; [|done]. apply bind_Some in E as (i & _ & Hi). apply list_elem_of_lookup_2 in Hi. apply negb_true_iff, in_range_false. specialize (Hf it Hi). lia.
    + destruct (cut_upto (desired_start - 1) l Hok) as (l1 & l2 & -> & H1 & H2). rewrite Forall_forall in H2.
      destruct (lower_bound desired_start (l1 ++ l2) ≫= (fun i => (l1 ++ l2) !! i)) as [it|] eqn:E; [|done]. apply bind_Some in E as (i & Hlb & Hi). unfold lower_bound in Hlb.
      rewrite count_before_cut in Hlb; [|eapply Forall_impl; [exact H1|]; cbn; lia|apply Forall_forall; intros x Hx; specialize (H2 x Hx); lia]. case_decide; [|done]. injection Hlb as <-. rewrite lookup_app_r, Nat.sub_diag in Hi by done.
      apply list_elem_of_lookup_2 in Hi. specialize (H2 it Hi). specialize (Hf it ltac:(apply elem_of_app; by right)). destruct (Hpos it ltac:(apply elem_of_app; by right)) as (_ & ? & _). apply negb_true_iff, Z.ltb_ge. unfold addr_end in *. lia.
Qed.

Lemma find_spot_outcome user_addr_max desired_start size fixed l : regions_ok l -> 0 <= desired_start -> desired_start + size < 2 ^ 64 -> 0 < size < 2 ^ 62 ->
  let x := find_region_spot user_addr_max desired_start size fixed l in
  if fixed then x = (if decide (desired_start = 0) then - EINVAL else desired_start)
  else
    (free_range l x size /\ ((x = desired_start /\ x <> 0) \/ (4096 <= x /\ x mod 4096 = 0 /\ x + size <= user_addr_max))) \/
    (x = - ENOMEM /\ (desired_start = 0 \/ ~ free_range l desired_start size) /\ forall s, 4096 <= s -> s + size <= user_addr_max -> ~ free_range l s (size + 1)).
Proof.
  intros Hok Hd Hend Hs. unfold find_region_spot. rewrite u64_small by lia. pose proof (desired_free desired_start size l Hok ltac:(lia)) as Hfree. rewrite <- andb_assoc.
  set (b := match get_smaller_or_equal _ _ ≫= _ with Some _ => _ | None => _ end && _) in *. clearbody b.
  assert (H4 : Forall (fun x => 4096 <= addr_end x) l).
  { destruct Hok as [Hpos _]. eapply Forall_impl; [exact Hpos|]. intros x (P0 & P1 & P2 & P3 & _). unfold addr_end. pose proof (Z.div_mod (region_size x) 4096). lia. }
  pose proof (find_gap_ok user_addr_max size 4096 l Hok H4 ltac:(lia) ltac:(lia) ltac:(done)) as Hgap. cbv zeta in Hgap |- *.
  destruct (Z.eqb_spec desired_start 0) as [->|Hne]; cbn [negb andb].
  - destruct fixed; [done|]. cbn [andb]. destruct Hgap as [(G1 & G2 & G3 & G4)|[-> G2]]; [left|right]; [split; [done|right; split_and!; try done; lia]|by auto].
  - rewrite decide_False by done. destruct b.
    + destruct fixed; [done|]. left. split; [by apply Hfree|by left].
    + destruct fixed; [done|]. cbn [andb]. destruct Hgap as [(G1 & G2 & G3 & G4)|[-> G2]]; [left|right]; [split; [done|right; split_and!; try done; lia]|]. split_and!; [done| |done]. right. intros Hf. by apply Hfree in Hf.
Qed.


(** The spot as the creation of a region uses it *)
Lemma spot_outcome user_addr_max start size fixed l : regions_ok l -> 0 <= start -> start mod 4096 = 0 -> start + size < 2 ^ 62 -> 0 < size -> user_addr_max < 2 ^ 62 ->
  let x := find_region_spot user_addr_max start size fixed l in
  (0 <= x /\ x mod 4096 = 0 /\ x + size < 2 ^ 62 /\ (fixed = true -> x = start) /\ (fixed = false -> free_range l x size)) \/ x = - EINVAL \/ x = - ENOMEM.
Proof.
  intros Hok H0 Hm Hend Hs Hmax. pose proof (find_spot_outcome user_addr_max start size fixed l Hok H0 ltac:(lia) ltac:(lia)) as H. cbv zeta in H |- *. set (x := find_region_spot _ _ _ _ _) in *. clearbody x. destruct fixed.
  - case_decide; [by auto|]. subst x. left. split_and!; done || lia.
  - destruct H as [(F & [[-> _]|(G1 & G2 & G3)])|(-> & _)]; [left; split_and!; done || lia..|by auto].
Qed.

(** ** Creating a region *)

(** What a new region gives: its own backing in its range, what there was elsewhere *)
Definition placed (r : Generic_Mem_Region) (l l' : regions) : Prop :=
  regions_ok l' /\ forall a, look l' a = if is_in_range r a then Some (see r a) else look l a.

Lemma place_region_ok memory (fixed check_release : bool) r l : regions_ok l -> region_ok r -> (if fixed then Forall (clean_cut (start_addr r) (region_size r)) l else free_range l (start_addr r) (region_size r)) -> memory || check_release = true ->
  let '(res, l', _) := place_region memory fixed check_release r l in (res = start_addr r /\ placed r l l') \/ (res = - ENOMEM /\ memory = false /\ l' = l).
Proof.
  intros Hok Hr Hp Hmem. pose proof Hr as (R0 & R1 & R2 & R3 & R4 & Rk). unfold place_region. destruct fixed; [|left; split; [done|]; split; by apply insert_region_ok].
  pose proof (release_outcome memory (start_addr r) (region_size r) l Hok R2 R3 R1 Hp) as H. destruct (release_in_range memory (start_addr r) (region_size r) l) as [[res l'] clean]. destruct H as [(-> & Hok' & Hlook & _)|(-> & -> & ->)].
  - rewrite andb_false_r. left. split; [done|]. assert (Hfree : free_range l' (start_addr r) (region_size r)) by (apply look_free; [done..|]; intros a Ha; rewrite Hlook; by rewrite decide_True).
    destruct (insert_region_ok r l' Hok' Hr Hfree) as [I1 I2]. split; [done|]. intros a. rewrite I2. destruct (is_in_range r a) eqn:Ea; [done|]. rewrite Hlook, decide_False; [done|]. apply in_range_false in Ea. unfold addr_end in Ea. lia.
  - cbn in Hmem. subst check_release. right. done.
Qed.


(** ** Deleting a region *)

Lemma get_region_ok page l : regions_ok l ->
  (get_region page l = None /\ look l page = None) \/
  (exists l1 r l2, l = l1 ++ r :: l2 /\ get_region page l = Some (length l1) /\ is_in_range r page = true /\ look l page = Some (see r page)).
Proof.
  intros Hok. unfold get_region. destruct (smaller_or_equal page l Hok) as [[-> H]|(l1 & r & l2 & -> & -> & Hr & H1 & H2)].
  - left. split; [done|]. apply look_outside. eapply Forall_impl; [done|]. cbn. intros x Hx. apply in_range_false. lia.
  - cbn [mbind option_bind]. rewrite list_lookup_middle by done. cbn [mbind option_bind]. assert (Hl1 : look l1 page = None).
    { apply look_outside, Forall_forall. intros x Hx. apply in_range_false. apply ok_app in Hok as (_ & _ & Hf). specialize (Hf x r Hx ltac:(by left)). unfold follows in Hf. lia. }
    destruct (is_in_range r page) eqn:E; [right; exists l1, r, l2|left]; rewrite look_app, Hl1; cbn; rewrite E; split_and!; try done.
    apply look_outside. eapply Forall_impl; [done|]. cbn. intros x Hx. apply in_range_false. lia.
Qed.

(** C22. Deleting a region takes out the region with the given address and no other: [atomic_delete_region] gives -ENOENT and changes nothing when the address is in no region, and otherwise leaves exactly the addresses of that region without backing; called with the start of a region, the pages it unmaps are exactly those of the region. *)
Theorem delete_exact region_start l : regions_ok l ->
  match atomic_delete_region region_start l with
  | (res, l', unmapped) =>
      (res = - ENOENT /\ l' = l /\ unmapped = None /\ look l region_start = None) \/
      (res = 0 /\ exists r, r ∈ l /\ is_in_range r region_start = true /\ regions_ok l' /\ (forall a, look l' a = if is_in_range r a then None else look l a) /\
       (region_start = start_addr r -> unmapped = Some (start_addr r, region_size r)))
  end.
Proof.
  intros Hok. unfold atomic_delete_region. destruct (get_region_ok region_start l Hok) as [[-> H]|(l1 & r & l2 & -> & -> & Hr & H)]; [by left|].
  rewrite list_lookup_middle by done. right. split; [done|]. exists r. rewrite delete_middle. destruct (replace_ok l1 r l2 [] Hok) as [D1 D2]; [split; constructor|constructor|]. split_and!; try done; [apply elem_of_app; right; by left|by intros ->].
Qed.

(** ** An address space *)

Definition device : Generic_Mem_Region := Region 8192 16384 3 (Phys_Mapped_Region 1048576 MMIO).
Definition shared_file : Generic_Mem_Region := Region 65536 16384 7 (Mem_Object_Reference 1 0 0 16384 false).
Definition space : regions := [device; shared_file].

Lemma space_ok : regions_ok space.
Proof. split; [repeat (constructor; [unfold region_ok, kind_ok, addr_end; cbn; split_and!; done || lia|]); constructor|]. repeat constructor; unfold follows, addr_end; cbn; lia. Qed.




Lemma delete_exact_witness : regions_ok space /\ match atomic_delete_region 65536 space with
  | (res, l', unmapped) =>
      (res = - ENOENT /\ l' = space /\ unmapped = None /\ look space 65536 = None) \/
      (res = 0 /\ exists r, r ∈ space /\ is_in_range r 65536 = true /\ regions_ok l' /\ (forall a, look l' a = if is_in_range r a then None else look space a) /\
       (65536 = start_addr r -> unmapped = Some (start_addr r, region_size r)))
  end.
Proof. split; [exact space_ok|]. apply (delete_exact 65536 space space_ok). Defined.

(** ** Where the operations do not do this *)

(** A region that starts inside the released range stays; a region made there with [fixed] then
    overlaps it *)
Lemma release_skips_inner : release_in_range true 4096 32768 space = (0, space, false) /\
  let '(_, l', _) := atomic_create_phys_region true true 0 (2 ^ 47) 4096 32768 3 true 2097152 MMIO space in exists r r', r ∈ l' /\ r' ∈ l' /\ r <> r' /\ is_in_range r 8192 = true /\ is_in_range r' 8192 = true.
Proof. split; [by vm_compute|]. vm_compute. exists (Region 4096 32768 3 (Phys_Mapped_Region 2097152 MMIO)), device. split; [by left|]. split; [right; by left|done]. Qed.

(** Releasing the first page of a reference takes its last page away instead, and the pages left
    show the object one page further *)
Lemma release_head_of_reference : let '(res, l', _) := release_in_range true 65536 4096 space in
  res = 0 /\ look l' 65536 = Some (Seen 7 false (FromObject 1 4096)) /\ look space 65536 = Some (Seen 7 false (FromObject 1 0)) /\ look l' 77824 = None /\ look space 77824 = Some (Seen 7 false (FromObject 1 12288)).
Proof. by vm_compute. Qed.

(** A hole in a reference leaves two regions with the same start, and nothing after the hole *)
Lemma hole_in_reference : let '(res, l', _) := release_in_range true 69632 4096 space in
  res = 0 /\ start_addr <$> l' = [8192; 65536; 65536] /\ look l' 77824 = None /\ look space 77824 <> None.
Proof. by vm_compute. Qed.

(** [trim] moves the data of a reference whose object starts after the first page *)
Lemma trim_moves_data : reference_trim 8192 8192 4096 65536 69632 8192 = (4096, 12288, 0).
Proof. by vm_compute. Qed.

(** An address outside of the user's half is accepted *)
Lemma spot_in_kernel_half : find_region_spot (2 ^ 47) (2 ^ 64 - 8192) 4096 false space = 2 ^ 64 - 8192.
Proof. by vm_compute. Qed.

(** A region that moves keeps the place of its old start in the new tree *)
Lemma move_misplaces : start_addr <$> (atomic_transfer_region (2 ^ 47) 8192 131072 3 false 0 space [shared_file]).2 = [131072; 65536].
Proof. by vm_compute. Qed.

(** Deleting by an address in the middle of a region unmaps other pages than the region's *)
Lemma delete_middle_unmaps : atomic_delete_region 16384 space = (0, [shared_file], Some (16384, 16384)).
Proof. by vm_compute. Qed.
